(* ===== verification/_CoqProject ===== *)
-Q . S2P
Prelude.v
Text.v
Buffers.v
CodecLogic.v
Fields.v
Ber.v
Per.v
Framing.v
X224.v
Mcs.v
Fastpath.v
Transport.v
SessionInfo.v
Input.v
Capabilities.v
Share.v
Gcc.v
ClientInfo.v
Pointer.v
Svc.v
Drdynvc.v
DvcServer.v
PreAuth.v
FrameScheduler.v
AutodetectCodec.v
AutoDetect.v
Machine.v
Bits.v
Zgfx.v
ZgfxBits.v
ZgfxHistory.v
ZgfxDecode.v
ZgfxTokens.v
ZgfxMessages.v
ZgfxSearch.v
ZgfxCompressor.v
ZgfxRoundtrip.v
Connection.v
ConnectionSafety.v
ConnectionStream.v
ConnectionHandshake.v
Rdpgfx.v
GfxServer.v
GfxClient.v
GfxRefinement.v
GfxSession.v
Planar.v
PlanarEncoder.v
PlanarDecoder.v
PlanarRoundtrip.v
PlanarSafety.v
DerFields.v
Spnego.v
CredsspCodec.v
Credssp.v
CredsspLogic.v
CredsspAcceptor.v
CredsspReceive.v
CredsspAuthentication.v
CredsspInitiator.v
CredsspHandshake.v
LegacyCrypto.v
NtlmCodec.v
NtlmMessages.v
Ntlm.v
NtlmSession.v
NtlmAuthentication.v
NtlmExchange.v
NtlmLogon.v
Nla.v
Privsep.v
PrivsepCodec.v
PrivsepMonitor.v
PrivsepRefinement.v
