(* ===== verification/Prelude.v ===== *)
(** * farland: a verification library for the RDP server's sans-IO core

    farland is a Remote Desktop server in C++.  Its core, [src/src/farland/], does
    no I/O: every component takes bytes, events and the time, and returns bytes,
    events and errors; the programs under [src/apps/] connect the core to sockets,
    threads and the desktop.  This library models parts of the core as Rocq
    functions, written from the C++ line by line, and proves what makes them
    correct for every input a peer can send.

    ** The program's parts and how they meet

    A client's bytes are delimited by [peek_frame], opened as TPKT and X.224, and
    settled by [PreAuth] (security protocol, TLS, and NLA by [Credssp], with the
    mechanisms that [Nla] gives it, of which [Ntlm] is one).  Then [Connection]
    speaks MCS and GCC (over ASN.1 BER and PER), activates the session, and multiplexes
    fast-path output, static virtual channels, and inside one of these the dynamic
    virtual channels of [DvcServer], over which graphics, clipboard, sound and
    input run.  [FrameScheduler] says when a frame may be sent and [AutoDetect]
    what the link is like.

    ** Files

    - [Prelude] (this file): bytes, machine integers, lengths, the tactics [bools]
      and [len_lia], the hint databases.
    - [Buffers]: [base/error.hpp], [reader.hpp], [writer.hpp].  [Result] is
      [std::expected], a decoder is a [Dec], an encoder an [Enc] ([None] where a
      [FARLAND_ASSERT] aborts).  [CodecLogic]: the program logic for both
      ([reads], [writes], [encodes], inversion by [took]), no model of code.
    - [Text]: [base/text.cpp], UTF-8 and UTF-16.
    - [Fields]: writers and readers of fixed-width fields in step, and loops over
      records; no model of code.
    - [Ber], [Per]: [base/ber.cpp] and [base/per.cpp].
    - [Framing], [X224], [Mcs], [Gcc], [Fastpath], [ClientInfo], [Capabilities],
      [Share], [Input], [Pointer], [AutodetectCodec]: the files of these names under
      [proto/] ([AutodetectCodec] is [proto/autodetect.cpp]); [SessionInfo] is
      [proto/security.cpp], [license.cpp] and [save_session_info.cpp].
    - [Transport]: the class of channels that split messages into packets, with
      the law [Reliable]; [Svc] ([channels/svc.cpp]) and [Drdynvc]
      ([channels/drdynvc.cpp]) are its instances, and stacking them is one too.
    - [DvcServer]: [channels/dvc_server.cpp], the multiplexer of dynamic channels.
    - [PreAuth]: [server/preauth.cpp], against the class [NlaAcceptor], which is
      the abstract class of [auth/gss.hpp].
    - [DerFields] has the DER helpers that [auth/spnego.cpp] and [auth/credssp.cpp]
      share, [Spnego] the tokens of the one, [CredsspCodec] the messages of the
      other and [Credssp] its two state machines, [Acceptor] and [Initiator], over
      the class [SecurityContext] of [auth/gss.hpp].  [CredsspLogic] (weakest
      preconditions), [CredsspAcceptor] (what the acceptor's calls of its mechanism
      establish), [CredsspReceive] (its input and its failures),
      [CredsspAuthentication] (the acceptor as the [NlaAcceptor] of [PreAuth]),
      [CredsspInitiator] and [CredsspHandshake] (both ends) are no model of code.
    - [LegacyCrypto]: [auth/legacy_crypto.cpp], MD4 and RC4.  [NtlmCodec] and [Ntlm]:
      the messages and the rest of [auth/ntlm.cpp]; its [Acceptor] and [Initiator]
      are instances of [SecurityContext], [LocalNtlmVerifier] one of [NtlmVerifier].
      [NtlmMessages] (round trips), [NtlmSession] (two sealed sessions),
      [NtlmAuthentication] (the acceptor in every reachable state), [NtlmExchange]
      and [NtlmLogon] (both ends) are no model of code.
    - [Nla]: [apps/farland-server/nla.cpp], the CredSSP acceptor's mechanisms and
      its check of the delegated credentials, and the theorems about the whole
      stack from there down to [PreAuth].
    - [Privsep]: [server/privsep.cpp], the network process and the monitor of
      privilege separation.  [PrivsepCodec] (round trips), [PrivsepMonitor] (what a
      network process can make the monitor accept) and [PrivsepRefinement] (both
      ends) are no model of code.
    - [FrameScheduler], [AutoDetect]: [server/frame_scheduler.cpp] and
      [server/autodetect.cpp].
    - [Machine]: the monad of a stateful object whose members can fail or abort,
      with its weakest preconditions; no model of code.
    - [Bits]: lists of bits, no model of code.  [Zgfx]: [codec/zgfx.cpp], the bulk
      compression of the graphics channel, both ends.  [ZgfxBits] has its bit
      streams, [ZgfxHistory] the ring of the decompressor, [ZgfxDecode] the
      decompressor on any input, [ZgfxTokens] and [ZgfxMessages] what a stream
      stands for, [ZgfxSearch] and [ZgfxCompressor] the compressor,
      [ZgfxRoundtrip] both ends together.
    - [Planar]: [codec/planar.cpp], the RDP 6.0 planar codec, both ends.
      [PlanarEncoder] says what the encoder writes, [PlanarDecoder] how the decoder
      reads that, [PlanarRoundtrip] has both together and the sizes, [PlanarSafety]
      the decoder on any bytes.
    - [Connection]: [server/connection.cpp], the RDP connection from the MCS
      Connect Initial to its end, over all the codecs above and [AutoDetect].
      [ConnectionSafety] has its invariant and the runs, [ConnectionStream] the
      stream of bytes, [ConnectionHandshake] the way to the active session.
    - [Rdpgfx]: [channels/rdpgfx.cpp], the PDUs of the graphics channel.  [GfxServer]:
      [channels/rdpgfx_server.cpp], the server's end of that channel, with the
      contract of its commands and the states they reach.  [GfxClient] is the
      specification it is held to: a client that keeps surfaces, codec contexts and
      cache slots and refuses what the protocol forbids; no model of code.
      [GfxRefinement] has the simulation, [GfxSession] negotiation and the stream.

    Each file has one Module named after it; a class of the program is a record
    [t] there (its members with their trailing underscore), its constructor
    [make], and a member function is a definition of the same name that takes and
    returns the state.  A decoder or handler that fails returns the error the code
    returns: code, text and offset.

    ** What the theorems show

    - [GfxServer]: whatever the client sends and however the owner calls it, no
      assertion trips within its contract and everything written is accepted by the
      client of [GfxClient], whose tables stay equal to the server's, as long as no
      bitmap of 4 GiB or more is cached, whose size wraps; a bitmap is cached in the
      lowest free slot; the version is the best both ends share; input is a function
      of the byte stream.  [Rdpgfx]: every PDU is decoded back.
    - [Connection]: no client and no caller within the contract can make it abort;
      what it has agreed on stays agreed; its events come in the order of an
      automaton that its states refine, but for a second [Closed] that a segment of
      nearly a mebibyte or more can bring about; it is a function of the byte
      stream, up to what comes after the first [Closed]; a refused PDU ends it and
      does nothing else; and a client that follows the connection sequence, with
      the link measured at connect time or not, is answered at every step with the
      PDUs of that sequence and becomes active.
    - Codecs: what is encoded is decoded back, with whatever follows it left
      unread ([Ber], [Per], [X224], [Mcs], [Gcc], [ClientInfo], [Capabilities],
      [Share], [Input], [Pointer], [Drdynvc]); the DER lengths and the auto-detect
      messages also the other way round: nothing else is accepted; what any bytes
      decode to is well-typed ([Input], [Gcc]).
    - Text: conversion loses nothing of well-formed text and turns any bytes into
      well-formed text.
    - Framing and fragmentation: splitting a stream does not depend on its
      segmentation and makes progress; an update or a message that is cut into
      fragments, chunks and data PDUs arrives complete and in order, through both
      channel layers; whatever a peer sends, a reassembler stays within its limit.
    - [Zgfx]: compression is lossless over any sequence of messages and resets,
      whatever the hash tables hold; it costs no more than the headers; and a
      decompressor survives any bytes within its limits.
    - [Planar]: an image comes back exactly, in every mode and row order and into
      any buffer, and never costs more than raw; the decoder never leaves the stream
      or the buffer, and what it accepts is written completely.
    - [Credssp]: an acceptor that succeeds has passed every check that the
      configuration asks for (the one exception is proved too: [mic_not_enforced]),
      it always returns, and its failures cannot be told apart; [PreAuth] with this
      acceptor hands on only identities that were authenticated; an initiator parts
      with its credentials only to the holder of the TLS key it saw; two honest ends
      complete the handshake with the credentials that were given.
    - [Nla], [Ntlm]: a server that requires NLA is ready only with a client that
      answered this server's own challenge under the hash of the account it
      reports, and delegated a password with that hash (or that Kerberos let in); a
      client that has the password gets in, through every layer; what one end of a
      session seals or signs the other takes, and nothing else; the messages decode
      to what was encoded.  [LegacyCrypto]: MD4 is RFC 1320's, RC4 undoes itself.
    - [Privsep]: whatever the network process sends, the monitor accepts only an
      identity that it verified itself, and no more attempts than its limit; the
      verifier and the Kerberos context of the network process are the monitor's;
      messages are framed and decoded back (two exceptions to what the code means
      are proved: [large_wrap_aborts] and [kerberos_trailing_accepted]).
    - [DvcServer]: an invariant of all reachable states under which no call trips
      an assertion, what events and output each call may add, fresh ids, the error
      latch, traffic of closed channels.
    - [PreAuth]: no NLA protocol without a vouched identity, no plain TLS where NLA
      is required; the one answer to a request, in any segmentation, has the highest
      protocol that can be chosen or the failure that says what is required.
    - [FrameScheduler]: the window and the rate cap hold, [wait] is exact.
    - [AutoDetect]: the estimates are the functions of the samples they should be,
      samples are accounted for, the burst is encodable, probes are bounded.

    ** Conventions, fuel and bounds

    A [std::byte] is a [Byte.byte]; an unsigned w-bit integer is a [Z], with
    [wrap w] where the code computes modulo 2^w.  Sizes are [len].  Time points
    and durations are integers of nanoseconds without bound.  A loop whose end is
    not structural has fuel: the length of the bytes it consumes, for
    [DvcServer.allocate_id] one more than the number of channels, for [Zgfx] the
    bits, positions or chain entries left, for the loop of [Credssp]'s [receive] one
    more than the bytes buffered, for [NtlmCodec.decode_av_pairs] one more than the
    pairs it takes, for [LegacyCrypto.full_blocks] the bytes left; the theorems
    show that it suffices (the results are stated for the functions as they are
    called, and running out would contradict them).  Logging, and the allocation
    and ownership of memory, are left out.

    ** Not modelled

    The channels above [DvcServer] but graphics (clipboard, sound, microphone,
    camera, touch, display), bitmap updates, the other image codecs, the broker's
    messages.  TLS and Kerberos, the video and audio
    encoders and the programs under [src/apps/] but [nla.cpp] are bindings to
    libraries and the operating system and stay outside: [Nla] sees Kerberos, and
    [Credssp] every mechanism, through its interface; SHA-256, MD5 and HMAC-MD5 are
    OpenSSL's and parameters, of which the theorems use the sizes alone, so nothing
    is said about how hard they are to forge; random numbers and the time are
    parameters too; and [DvcServer] sees the bulk decompressor as one.  That a comparison takes constant time and that secrets are
    wiped is not stated. *)

From stdpp Require Export prelude strings list.
From Stdlib Require Export ZArith Lia.
From Stdlib Require Strings.Byte.

Abbreviation byte := Corelib.Init.Byte.byte.
#[export] Set Default Goal Selector "!".
Open Scope Z_scope.

(** ** Bytes and machine integers

    A [std::byte] is [Byte.byte]; an unsigned w-bit integer is a [Z] with its
    wrap-around written out by [wrap w]. *)

Definition u8_of (b : byte) : Z := Z.of_N (Strings.Byte.to_N b).

Definition wrap (w z : Z) : Z := z mod 2 ^ w.

Definition byte_of (z : Z) : byte :=
  default Corelib.Init.Byte.x00 (Strings.Byte.of_N (Z.to_N (wrap 8 z))).

#[export] Instance byte_eq_dec : EqDecision byte := Strings.Byte.byte_eq_dec.

(** The length of a byte sequence as the [std::size_t] the code computes with. *)
Definition len {A} (l : list A) : Z := Z.of_nat (length l).

(** The bit [m] of [x] is tested by [(x & m) != 0]. *)
Definition has_bits (x m : Z) : bool := negb (Z.land x m =? 0).

(** ** Arithmetic automation *)

Ltac Zify.zify_post_hook ::= Z.to_euclidean_division_equations.

(** [bools] turns the boolean hypotheses that guards leave into propositions. *)
Ltac bools :=
  repeat match goal with
  | H : _ && _ = true |- _ => apply andb_prop in H as [? ?]
  | H : _ || _ = false |- _ => apply orb_false_elim in H as [? ?]
  | H : negb _ = true |- _ => apply negb_true_iff in H
  | H : negb _ = false |- _ => apply negb_false_iff in H
  | H : bool_decide _ = true |- _ => apply bool_decide_eq_true in H
  | H : bool_decide _ = false |- _ => apply bool_decide_eq_false in H
  | H : (_ <=? _) = true |- _ => apply Z.leb_le in H
  | H : (_ <=? _) = false |- _ => apply Z.leb_gt in H
  | H : (_ <? _) = true |- _ => apply Z.ltb_lt in H
  | H : (_ <? _) = false |- _ => apply Z.ltb_ge in H
  | H : (_ =? _) = true |- _ => apply Z.eqb_eq in H
  | H : (_ =? _) = false |- _ => apply Z.eqb_neq in H
  | H : Bool.eqb _ _ = true |- _ => apply Bool.eqb_prop in H
  | H : _ || _ = true |- _ => apply orb_prop in H
  | H : _ && _ = false |- _ => apply andb_false_iff in H
  end.

Create HintDb farland.
Create Rewrite HintDb len.
Create Rewrite HintDb bytes.

Lemma len_nil {A} : len (@nil A) = 0.
Proof. done. Qed.

Lemma len_cons {A} (x : A) l : len (x :: l) = 1 + len l.
Proof. unfold len. cbn. lia. Qed.

Lemma len_app {A} (l k : list A) : len (l ++ k) = len l + len k.
Proof. unfold len. rewrite length_app. lia. Qed.

Lemma len_nonneg {A} (l : list A) : 0 <= len l.
Proof. unfold len. lia. Qed.

Lemma len_0 {A} (l : list A) : len l = 0 -> l = [].
Proof. destruct l; [done|]. rewrite len_cons. pose proof (len_nonneg l). lia. Qed.

Lemma len_replicate {A} n (x : A) : len (replicate n x) = Z.of_nat n.
Proof. unfold len. by rewrite length_replicate. Qed.

Lemma len_take {A} n (l : list A) : len (take n l) = Z.min (Z.of_nat n) (len l).
Proof. unfold len. rewrite length_take. lia. Qed.

Lemma len_drop {A} n (l : list A) : len (drop n l) = Z.max 0 (len l - Z.of_nat n).
Proof. unfold len. rewrite length_drop. lia. Qed.

#[export] Hint Rewrite @len_nil @len_cons @len_app @len_replicate @len_take @len_drop : len.

(** [len_lia] normalises lengths and decides the linear goal that is left. *)
Ltac len_pose :=
  repeat match goal with
  | |- context [len ?l] =>
      lazymatch goal with
      | _ : 0 <= len l |- _ => fail
      | _ => pose proof (len_nonneg l)
      end
  | _ : context [len ?l] |- _ =>
      lazymatch goal with
      | _ : 0 <= len l |- _ => fail
      | _ => pose proof (len_nonneg l)
      end
  end.

Ltac len_lia := autorewrite with len in *; len_pose; lia.

Lemma u8_of_range b : 0 <= u8_of b < 256.
Proof.
  unfold u8_of. pose proof (Strings.Byte.to_N_bounded b). lia.
Qed.

Lemma u8_of_byte_of z : u8_of (byte_of z) = z mod 256.
Proof.
  unfold u8_of, byte_of, wrap. change (2 ^ 8) with 256.
  pose proof (Z.mod_pos_bound z 256 ltac:(lia)) as Hb.
  destruct (Strings.Byte.of_N (Z.to_N (z mod 256))) as [b|] eqn:E; cbn.
  - apply Strings.Byte.to_of_N in E. rewrite E. lia.
  - apply Strings.Byte.of_N_None_iff in E. lia.
Qed.

Lemma byte_of_u8_of b : byte_of (u8_of b) = b.
Proof.
  unfold byte_of, u8_of, wrap. change (2 ^ 8) with 256.
  pose proof (u8_of_range b) as Hb. unfold u8_of in Hb.
  rewrite Z.mod_small by lia. rewrite N2Z.id, Strings.Byte.of_to_N. done.
Qed.

Lemma u8_of_inj a b : u8_of a = u8_of b -> a = b.
Proof. intros H. rewrite <- (byte_of_u8_of a), <- (byte_of_u8_of b). by rewrite H. Qed.

Lemma byte_of_mod a b : a mod 256 = b mod 256 -> byte_of a = byte_of b.
Proof. intros H. apply u8_of_inj. by rewrite !u8_of_byte_of. Qed.

Lemma u8_of_byte_of_small z : 0 <= z < 256 -> u8_of (byte_of z) = z.
Proof. intros H. rewrite u8_of_byte_of. lia. Qed.

#[export] Hint Rewrite byte_of_u8_of : bytes.
#[export] Hint Rewrite u8_of_byte_of_small using lia : bytes.

(** ** Bit operations as arithmetic *)

Lemma land_low x m n : m = Z.ones n -> 0 <= n -> Z.land x m = x mod 2 ^ n.
Proof. intros -> Hn. by apply Z.land_ones. Qed.

Lemma land_shiftl_low a b n :
  0 <= n -> 0 <= b < 2 ^ n -> Z.land (Z.shiftl a n) b = 0.
Proof.
  intros Hn Hb. apply Z.bits_inj'. intros i Hi. rewrite Z.land_spec, Z.bits_0.
  destruct (Z.lt_ge_cases i n); [by rewrite Z.shiftl_spec_low|].
  rewrite (Z.testbit_eqb b i) by done.
  assert (b / 2 ^ i = 0) as ->; [|by rewrite andb_false_r].
  apply Z.div_small. split; [lia|].
  eapply Z.lt_le_trans; [apply Hb|]. apply Z.pow_le_mono_r; lia.
Qed.

Lemma lor_disjoint a b n :
  0 <= n -> 0 <= b < 2 ^ n -> Z.lor (Z.shiftl a n) b = a * 2 ^ n + b.
Proof.
  intros Hn Hb. rewrite <- Z.shiftl_mul_pow2 by done.
  pose proof (land_shiftl_low a b n Hn Hb) as H0.
  by rewrite <- Z.lxor_lor, Z.add_nocarry_lxor.
Qed.

(** The same with the high part given as a constant, [0x8000 | x]. *)
Lemma lor_const c a b n :
  c = Z.shiftl a n -> 0 <= n -> 0 <= b < 2 ^ n -> Z.lor c b = c + b.
Proof. intros -> Hn Hb. rewrite lor_disjoint by done. by rewrite Z.shiftl_mul_pow2. Qed.

Lemma lor_high a b n :
  0 <= n -> 0 <= a < 2 ^ n -> Z.lor a (Z.shiftl b n) = a + b * 2 ^ n.
Proof. intros. rewrite Z.lor_comm, lor_disjoint by done. lia. Qed.

(** A decidable fact about a bounded range, checked by evaluation. *)
Definition Zupto (n : nat) : list Z := Z.of_nat <$> seq 0 n.

Lemma Zupto_forall (n : nat) (f : Z -> bool) :
  forallb f (Zupto n) = true -> forall x, 0 <= x < Z.of_nat n -> f x = true.
Proof.
  intros H x Hx. rewrite forallb_forall in H. apply H.
  unfold Zupto. apply list_elem_of_In, list_elem_of_fmap.
  exists (Z.to_nat x). split; [lia|]. apply list_elem_of_In, in_seq. lia.
Qed.

(** A single bit that is set already is not changed by setting it. *)
Lemma has_bits_testbit n x : 0 <= n -> has_bits x (2 ^ n) = Z.testbit x n.
Proof.
  intros Hn. unfold has_bits. destruct (Z.testbit x n) eqn:E.
  - apply negb_true_iff, Z.eqb_neq. intros H0.
    assert (Z.testbit (Z.land x (2 ^ n)) n = false) as Hb by (rewrite H0; apply Z.bits_0).
    rewrite Z.land_spec, E, Z.pow2_bits_true in Hb by done. done.
  - apply negb_false_iff, Z.eqb_eq, Z.bits_inj'. intros i Hi. rewrite Z.land_spec, Z.bits_0.
    destruct (decide (i = n)) as [->|]; [by rewrite E|]. by rewrite Z.pow2_bits_false, andb_false_r by done.
Qed.

Lemma has_bits_lor n x m : m = 2 ^ n -> 0 <= n -> has_bits x m = true -> Z.lor x m = x.
Proof.
  intros -> Hn H. rewrite has_bits_testbit in H by done. apply Z.bits_inj'. intros i Hi. rewrite Z.lor_spec.
  destruct (decide (i = n)) as [->|]; [by rewrite H|]. by rewrite Z.pow2_bits_false, orb_false_r by done.
Qed.
