(* ===== verification/Text.v ===== *)
(** * UTF-8 and UTF-16

    Models [src/src/farland/base/text.cpp]: the two conversions every string of
    the protocol passes through.  A [std::string] is its bytes; a position in a
    text is the list of the bytes from there on. *)

From S2P Require Import Prelude.
Open Scope Z_scope.

Module Text.

Definition replacement : Z := 0xFFFD.

Definition is_high_surrogate (unit : Z) : bool := (0xD800 <=? unit) && (unit <=? 0xDBFF).
Definition is_low_surrogate (unit : Z) : bool := (0xDC00 <=? unit) && (unit <=? 0xDFFF).

(** [put] keeps the low eight bits. *)
Definition append_utf8 (out : list byte) (v : Z) : list byte :=
  out ++
  (if v <? 0x80 then [byte_of v]
   else if v <? 0x800 then
     [byte_of (Z.lor 0xC0 (Z.shiftr v 6)); byte_of (Z.lor 0x80 (Z.land v 0x3F))]
   else if v <? 0x10000 then
     [byte_of (Z.lor 0xE0 (Z.shiftr v 12)); byte_of (Z.lor 0x80 (Z.land (Z.shiftr v 6) 0x3F));
      byte_of (Z.lor 0x80 (Z.land v 0x3F))]
   else
     [byte_of (Z.lor 0xF0 (Z.shiftr v 18)); byte_of (Z.lor 0x80 (Z.land (Z.shiftr v 12) 0x3F));
      byte_of (Z.lor 0x80 (Z.land (Z.shiftr v 6) 0x3F)); byte_of (Z.lor 0x80 (Z.land v 0x3F))]).

Definition append_utf16le (out : list byte) (unit : Z) : list byte :=
  out ++ [byte_of unit; byte_of (Z.shiftr unit 8)].

(** The loop over the [extra] continuation bytes; [None] where one is malformed. *)
Fixpoint cont_loop (extra : nat) (text : list byte) (cp : Z) : option (Z * list byte) :=
  match extra with
  | O => Some (cp, text)
  | S extra' =>
      match text with
      | [] => None
      | cont :: text' =>
          if negb (Z.land (u8_of cont) 0xC0 =? 0x80) then None
          else cont_loop extra' text' (Z.lor (wrap 32 (Z.shiftl cp 6)) (Z.land (u8_of cont) 0x3F))
      end
  end.

(** The length of the sequence, the bits of the lead byte and the least code point. *)
Definition classify (lead : Z) : option (nat * Z * Z) :=
  if Z.land lead 0xE0 =? 0xC0 then Some (1%nat, Z.land lead 0x1F, 0x80)
  else if Z.land lead 0xF0 =? 0xE0 then Some (2%nat, Z.land lead 0x0F, 0x800)
  else if Z.land lead 0xF8 =? 0xF0 then Some (3%nat, Z.land lead 0x07, 0x10000)
  else None.

(** [text] is not empty where the code calls it. *)
Definition next_utf8 (text : list byte) : Z * list byte :=
  match text with
  | [] => (replacement, [])
  | l :: text =>
      let lead := u8_of l in
      if lead <? 0x80 then (lead, text)
      else
        match classify lead with
        | None => (replacement, text)
        | Some (extra, cp, min) =>
            if len text <? Z.of_nat extra then (replacement, text)
            else
              match cont_loop extra text cp with
              | None => (replacement, text)
              | Some (cp, text) =>
                  if (cp <? min) || (0x10FFFF <? cp) || is_high_surrogate cp || is_low_surrogate cp
                  then (replacement, text) else (cp, text)
              end
        end
  end.

Definition unit_of (lo hi : byte) : Z := Z.lor (u8_of lo) (Z.shiftl (u8_of hi) 8).

Fixpoint utf16_loop (bytes out : list byte) : list byte :=
  match bytes with
  | b0 :: b1 :: rest =>
      let unit := unit_of b0 b1 in
      if unit =? 0 then out
      else
        let single :=
          if is_high_surrogate unit || is_low_surrogate unit then append_utf8 out replacement
          else append_utf8 out unit in
        match rest with
        | b2 :: b3 :: rest' =>
            let low := unit_of b2 b3 in
            if is_high_surrogate unit && is_low_surrogate low
            then utf16_loop rest' (append_utf8 out (0x10000 + Z.shiftl (unit - 0xD800) 10 + (low - 0xDC00)))
            else utf16_loop rest single
        | _ => utf16_loop rest single
        end
  | [_] => append_utf8 out replacement
  | [] => out
  end.

Definition utf16le_to_utf8 (bytes : list byte) : list byte := utf16_loop bytes [].

(** The units of one code point. *)
Definition append_code_point (out : list byte) (cp : Z) : list byte :=
  if 0x10000 <=? cp then
    let v := cp - 0x10000 in
    append_utf16le (append_utf16le out (0xD800 + Z.shiftr v 10)) (0xDC00 + Z.land v 0x3FF)
  else append_utf16le out cp.

(** [while (pos < text.size())]; every step takes a byte. *)
Fixpoint utf8_loop (fuel : nat) (text out : list byte) : list byte :=
  match fuel, text with
  | _, [] => out
  | O, _ => out
  | S fuel', _ => let (cp, text') := next_utf8 text in utf8_loop fuel' text' (append_code_point out cp)
  end.

Definition utf8_to_utf16le (text : list byte) : list byte := utf8_loop (length text) text [].

(** ** Reference encodings *)

(** A Unicode scalar value: a code point that is not a surrogate. *)
Definition scalar (c : Z) : bool := ((0 <=? c) && (c <? 0xD800)) || ((0xE000 <=? c) && (c <=? 0x10FFFF)).

Definition utf8 (cs : list Z) : list byte := concat (append_utf8 [] <$> cs).
Definition utf16 (cs : list Z) : list byte := concat (append_code_point [] <$> cs).

Lemma append_utf8_out out v : append_utf8 out v = out ++ append_utf8 [] v.
Proof. done. Qed.

Lemma append_code_point_out out v : append_code_point out v = out ++ append_code_point [] v.
Proof. unfold append_code_point, append_utf16le. destruct (_ <=? _); by rewrite <- ?app_assoc. Qed.

(** ** Bits of the lead and continuation bytes *)

Lemma cont_bits b : 0 <= b < 256 -> (Z.land b 0xC0 =? 0x80) = (128 <=? b) && (b <? 192).
Proof.
  intros H. apply (Zupto_forall 256 (fun b => Bool.eqb (Z.land b 0xC0 =? 0x80) ((128 <=? b) && (b <? 192)))) in H;
    [by apply Bool.eqb_prop|by vm_compute].
Qed.

Definition lead_class (b : Z) : option (nat * Z * Z) :=
  if (192 <=? b) && (b <? 224) then Some (1%nat, b - 192, 0x80)
  else if (224 <=? b) && (b <? 240) then Some (2%nat, b - 224, 0x800)
  else if (240 <=? b) && (b <? 248) then Some (3%nat, b - 240, 0x10000)
  else None.

Lemma classify_spec b : 0 <= b < 256 -> classify b = lead_class b.
Proof.
  intros H. apply (Zupto_forall 256 (fun b => bool_decide (classify b = lead_class b))) in H;
    [by apply bool_decide_eq_true in H|by vm_compute].
Qed.

Lemma land_63 v : Z.land v 0x3F = v mod 64.
Proof. by rewrite (land_low _ 63 6). Qed.

(** A continuation byte carries six bits. *)
Lemma cont_byte v : Z.lor 0x80 (Z.land v 0x3F) = 128 + v mod 64.
Proof. by rewrite land_63, (lor_const 128 2 (v mod 64) 6) by (done || lia). Qed.

(** The UTF-8 bytes of a scalar value, in arithmetic. *)
Definition utf8_bytes (v : Z) : list Z :=
  if v <? 0x80 then [v]
  else if v <? 0x800 then [192 + v / 64; 128 + v mod 64]
  else if v <? 0x10000 then [224 + v / 4096; 128 + (v / 64) mod 64; 128 + v mod 64]
  else [240 + v / 262144; 128 + (v / 4096) mod 64; 128 + (v / 64) mod 64; 128 + v mod 64].

Lemma scalar_range c : scalar c = true -> 0 <= c <= 0x10FFFF /\ is_high_surrogate c = false /\ is_low_surrogate c = false.
Proof.
  unfold scalar, is_high_surrogate, is_low_surrogate. intros H. apply orb_prop in H as [H|H]; bools;
    (split; [lia|]; split; apply andb_false_iff; rewrite !Z.leb_gt; lia).
Qed.

Lemma scalar_of c :
  0 <= c <= 0x10FFFF -> is_high_surrogate c = false -> is_low_surrogate c = false -> scalar c = true.
Proof.
  unfold scalar, is_high_surrogate, is_low_surrogate. intros Hc.
  destruct (Z.leb_spec 0xD800 c), (Z.leb_spec c 0xDBFF), (Z.leb_spec 0xDC00 c), (Z.leb_spec c 0xDFFF); try done;
    intros _ _; apply orb_true_iff; rewrite !andb_true_iff, !Z.leb_le, Z.ltb_lt; lia.
Qed.

Lemma append_utf8_bytes c : 0 <= c <= 0x10FFFF -> append_utf8 [] c = byte_of <$> utf8_bytes c.
Proof.
  intros Hc. unfold append_utf8, utf8_bytes. cbn [app].
  rewrite !cont_byte, !Z.shiftr_div_pow2 by lia. change (2 ^ 6) with 64. change (2 ^ 12) with 4096. change (2 ^ 18) with 262144.
  destruct (Z.ltb_spec c 0x80); [done|]. destruct (Z.ltb_spec c 0x800).
  { by rewrite (lor_const 192 6 (c / 64) 5) by (done || lia). }
  destruct (Z.ltb_spec c 0x10000); [by rewrite (lor_const 224 14 (c / 4096) 4) by (done || lia)|].
  by rewrite (lor_const 240 30 (c / 262144) 3) by (done || lia).
Qed.

(** One continuation byte read back. *)
Lemma cont_loop_S extra text cp x :
  0 <= x < 64 -> 0 <= cp < 2 ^ 26 ->
  cont_loop (S extra) (byte_of (128 + x) :: text) cp = cont_loop extra text (cp * 64 + x).
Proof.
  intros Hx Hcp. cbn [cont_loop]. rewrite u8_of_byte_of_small by lia. rewrite cont_bits by lia.
  destruct (Z.leb_spec 128 (128 + x)); [|lia]. destruct (Z.ltb_spec (128 + x) 192); [|lia]. cbn [andb negb].
  rewrite land_63. replace ((128 + x) mod 64) with x by lia.
  unfold wrap. rewrite (Z.mod_small (Z.shiftl cp 6)) by (rewrite Z.shiftl_mul_pow2 by lia; lia).
  by rewrite lor_disjoint by lia.
Qed.

Lemma lead_class_2 x : 0 <= x < 32 -> lead_class (192 + x) = Some (1%nat, x, 0x80).
Proof.
  intros H. unfold lead_class. destruct (Z.leb_spec 192 (192 + x)); [|lia]. destruct (Z.ltb_spec (192 + x) 224); [|lia].
  cbn [andb]. do 3 f_equal. lia.
Qed.

Lemma lead_class_3 x : 0 <= x < 16 -> lead_class (224 + x) = Some (2%nat, x, 0x800).
Proof.
  intros H. unfold lead_class. destruct (Z.ltb_spec (224 + x) 224); [lia|]. rewrite andb_false_r.
  destruct (Z.leb_spec 224 (224 + x)); [|lia]. destruct (Z.ltb_spec (224 + x) 240); [|lia].
  cbn [andb]. do 3 f_equal. lia.
Qed.

Lemma lead_class_4 x : 0 <= x < 8 -> lead_class (240 + x) = Some (3%nat, x, 0x10000).
Proof.
  intros H. unfold lead_class. destruct (Z.ltb_spec (240 + x) 224); [lia|]. destruct (Z.ltb_spec (240 + x) 240); [lia|].
  rewrite !andb_false_r. destruct (Z.leb_spec 240 (240 + x)); [|lia]. destruct (Z.ltb_spec (240 + x) 248); [|lia].
  cbn [andb]. do 3 f_equal. lia.
Qed.

(** What follows a lead byte that starts a sequence. *)
Lemma next_utf8_lead lead extra cp min rest c text :
  128 <= lead < 256 -> lead_class lead = Some (extra, cp, min) -> Z.of_nat extra <= len rest ->
  cont_loop extra rest cp = Some (c, text) ->
  next_utf8 (byte_of lead :: rest) =
    (if (c <? min) || (0x10FFFF <? c) || is_high_surrogate c || is_low_surrogate c then replacement else c, text).
Proof.
  intros Hr Hcl Hlen Hloop. cbn [next_utf8].
  rewrite u8_of_byte_of_small, classify_spec, Hcl by lia. destruct (Z.ltb_spec lead 0x80); [lia|].
  destruct (Z.ltb_spec (len rest) (Z.of_nat extra)); [lia|]. rewrite Hloop. by destruct (_ || _).
Qed.

(** A well-formed sequence is read back, with nothing else consumed. *)
Lemma next_utf8_scalar c text : scalar c = true -> next_utf8 (append_utf8 [] c ++ text) = (c, text).
Proof.
  intros Hs. destruct (scalar_range c Hs) as (Hc & Hh & Hl). rewrite append_utf8_bytes by done. unfold utf8_bytes.
  assert (forall min, min <= c -> (c <? min) || (0x10FFFF <? c) || is_high_surrogate c || is_low_surrogate c = false) as Hok.
  { intros min Hmin. rewrite Hh, Hl, !orb_false_r. apply orb_false_iff. rewrite !Z.ltb_ge. lia. }
  destruct (Z.ltb_spec c 0x80).
  { cbn [fmap list_fmap app next_utf8]. rewrite u8_of_byte_of_small by lia. by destruct (Z.ltb_spec c 0x80); [|lia]. }
  pose proof (len_nonneg text).
  destruct (Z.ltb_spec c 0x800); [|destruct (Z.ltb_spec c 0x10000)]; cbn [fmap list_fmap app].
  - erewrite (next_utf8_lead _ _ _ _ _ c text); [by rewrite Hok|lia|apply lead_class_2; lia|len_lia|].
    rewrite cont_loop_S by lia. cbn [cont_loop]. do 2 f_equal. lia.
  - erewrite (next_utf8_lead _ _ _ _ _ c text); [by rewrite Hok|lia|apply lead_class_3; lia|len_lia|].
    rewrite !cont_loop_S by lia. cbn [cont_loop]. do 2 f_equal. lia.
  - erewrite (next_utf8_lead _ _ _ _ _ c text); [by rewrite Hok|lia|apply lead_class_4; lia|len_lia|].
    rewrite !cont_loop_S by lia. cbn [cont_loop]. do 2 f_equal. lia.
Qed.

(** ** Only shortest forms of scalar values are accepted *)

Lemma cont_loop_inv extra text cp c rest :
  0 <= cp < 2 ^ 26 -> cont_loop (S extra) text cp = Some (c, rest) ->
  exists x text', 0 <= x < 64 /\ text = byte_of (128 + x) :: text' /\ cont_loop extra text' (cp * 64 + x) = Some (c, rest).
Proof.
  intros Hcp H. destruct text as [|b text']; [done|]. pose proof (u8_of_range b) as Hb.
  assert (byte_of (128 + (u8_of b - 128)) = b) as Eb by (rewrite <- (byte_of_u8_of b) at 2; f_equal; lia).
  pose proof H as H'. cbn [cont_loop] in H'. rewrite cont_bits in H' by done.
  destruct (Z.leb_spec 128 (u8_of b)); [|done]. destruct (Z.ltb_spec (u8_of b) 192); [|done]. clear H'.
  exists (u8_of b - 128), text'. rewrite Eb. split_and!; [lia|lia|done|].
  rewrite <- Eb in H. rewrite cont_loop_S in H by lia. done.
Qed.

Lemma lead_class_inv b extra cp min :
  lead_class b = Some (extra, cp, min) ->
  (extra = 1%nat /\ min = 0x80 /\ b = 192 + cp /\ 0 <= cp < 32) \/
  (extra = 2%nat /\ min = 0x800 /\ b = 224 + cp /\ 0 <= cp < 16) \/
  (extra = 3%nat /\ min = 0x10000 /\ b = 240 + cp /\ 0 <= cp < 8).
Proof.
  unfold lead_class. destruct ((192 <=? b) && (b <? 224)) eqn:E1.
  { intros [= <- <- <-]. bools. left. lia. }
  destruct ((224 <=? b) && (b <? 240)) eqn:E2.
  { intros [= <- <- <-]. bools. right. left. lia. }
  destruct ((240 <=? b) && (b <? 248)) eqn:E3; [|done].
  intros [= <- <- <-]. bools. right. right. lia.
Qed.

(** The bytes of a sequence whose value is in the range of its length. *)
Lemma sequence_bytes b extra cp min text c rest :
  lead_class b = Some (extra, cp, min) -> cont_loop extra text cp = Some (c, rest) ->
  exists e, text = e ++ rest /\ len e = Z.of_nat extra /\ 0 <= c /\
    (min <= c <= 0x10FFFF -> byte_of b :: e = append_utf8 [] c).
Proof.
  intros [(-> & -> & -> & Hcp)|[(-> & -> & -> & Hcp)|(-> & -> & -> & Hcp)]]%lead_class_inv H.
  - apply cont_loop_inv in H as (x & t1 & Hx & -> & [= <- <-]); [|lia].
    exists [byte_of (128 + x)]. split_and!; [done|done|lia|]. intros Hc.
    rewrite append_utf8_bytes by lia. unfold utf8_bytes.
    destruct (Z.ltb_spec (cp * 64 + x) 0x80); [lia|]. destruct (Z.ltb_spec (cp * 64 + x) 0x800); [|lia].
    cbn [fmap list_fmap]. repeat f_equal; lia.
  - apply cont_loop_inv in H as (x & t1 & Hx & -> & H); [|lia].
    apply cont_loop_inv in H as (y & t2 & Hy & -> & [= <- <-]); [|lia].
    exists [byte_of (128 + x); byte_of (128 + y)]. split_and!; [done|done|lia|]. intros Hc.
    rewrite append_utf8_bytes by lia. unfold utf8_bytes. set (v := (cp * 64 + x) * 64 + y) in *.
    destruct (Z.ltb_spec v 0x80); [lia|]. destruct (Z.ltb_spec v 0x800); [lia|].
    destruct (Z.ltb_spec v 0x10000); [|lia]. cbn [fmap list_fmap]. repeat f_equal; lia.
  - apply cont_loop_inv in H as (x & t1 & Hx & -> & H); [|lia].
    apply cont_loop_inv in H as (y & t2 & Hy & -> & H); [|lia].
    apply cont_loop_inv in H as (z & t3 & Hz & -> & [= <- <-]); [|lia].
    exists [byte_of (128 + x); byte_of (128 + y); byte_of (128 + z)]. split_and!; [done|done|lia|]. intros Hc.
    rewrite append_utf8_bytes by lia. unfold utf8_bytes. set (v := ((cp * 64 + x) * 64 + y) * 64 + z) in *.
    destruct (Z.ltb_spec v 0x80); [lia|]. destruct (Z.ltb_spec v 0x800); [lia|].
    destruct (Z.ltb_spec v 0x10000); [lia|]. cbn [fmap list_fmap]. repeat f_equal; lia.
Qed.

(** Every step yields a scalar value and takes at least one byte; a value that
    is not the replacement was there in its one well-formed encoding. *)
Lemma next_utf8_total text :
  text <> [] ->
  let '(c, rest) := next_utf8 text in
  scalar c = true /\ exists e, text = e ++ rest /\ 1 <= len e <= 4 /\ (c <> replacement -> e = append_utf8 [] c).
Proof.
  destruct text as [|l text]; [done|]. intros _. cbn [next_utf8]. pose proof (u8_of_range l) as Hl.
  assert (scalar replacement = true /\ exists e, l :: text = e ++ text /\ 1 <= len e <= 4 /\
            (replacement <> replacement -> e = append_utf8 [] replacement)) as Hbad.
  { split; [done|]. by exists [l]. }
  destruct (Z.ltb_spec (u8_of l) 0x80).
  { split; [unfold scalar; apply orb_true_iff; left; apply andb_true_iff; lia|].
    exists [l]. split_and!; [done|done|done|]. intros _. rewrite append_utf8_bytes by lia. unfold utf8_bytes.
    destruct (Z.ltb_spec (u8_of l) 0x80); [|lia]. cbn. by rewrite byte_of_u8_of. }
  rewrite classify_spec by done. destruct (lead_class (u8_of l)) as [[[extra cp] min]|] eqn:E; [|exact Hbad].
  destruct (len text <? Z.of_nat extra); [exact Hbad|].
  destruct (cont_loop extra text cp) as [[c rest]|] eqn:El; [|exact Hbad].
  destruct (sequence_bytes _ _ _ _ _ _ _ E El) as (e & Et & Hlen & Hc & He). rewrite byte_of_u8_of in He.
  assert (1 <= len (l :: e) <= 4) as Hle.
  { apply lead_class_inv in E. rewrite len_cons, Hlen. destruct E as [[-> _]|[[-> _]|[-> _]]]; lia. }
  destruct ((c <? min) || _ || _ || _) eqn:Eok.
  - split; [done|]. exists (l :: e). split_and!; [by rewrite Et|lia|lia|done].
  - apply orb_false_elim in Eok as [[[H1 H2]%orb_false_elim H3]%orb_false_elim H4].
    apply Z.ltb_ge in H1, H2. split; [by apply scalar_of|].
    exists (l :: e). split_and!; [by rewrite Et|lia|lia|]. intros _. apply He. lia.
Qed.

(** ** UTF-8 to UTF-16 *)

Lemma utf8_cons c cs : utf8 (c :: cs) = append_utf8 [] c ++ utf8 cs.
Proof. done. Qed.

Lemma utf16_cons c cs : utf16 (c :: cs) = append_code_point [] c ++ utf16 cs.
Proof. done. Qed.

Lemma append_utf8_nonempty c : append_utf8 [] c <> [].
Proof. unfold append_utf8. by destruct (c <? 0x80), (c <? 0x800), (c <? 0x10000). Qed.

(** Text that is well-formed becomes the same text. *)
Lemma utf8_loop_scalars cs : forall fuel out,
  Forall (fun c => scalar c = true) cs -> (length (utf8 cs) <= fuel)%nat ->
  utf8_loop fuel (utf8 cs) out = out ++ utf16 cs.
Proof.
  induction cs as [|c cs IH]; intros fuel out Hs Hf.
  - rewrite app_nil_r. by destruct fuel.
  - inversion_clear Hs as [|? ? Hc Hcs]. rewrite utf8_cons, utf16_cons in *.
    pose proof (append_utf8_nonempty c) as Hne.
    destruct (append_utf8 [] c) as [|b e] eqn:E; [done|]. destruct fuel as [|fuel]; [cbn in Hf; lia|].
    cbn [utf8_loop app]. rewrite app_comm_cons, <- E, next_utf8_scalar by done.
    rewrite IH; [by rewrite append_code_point_out, app_assoc|done|]. cbn in Hf. rewrite length_app in Hf. lia.
Qed.

(** Any bytes become well-formed UTF-16, and the fuel is enough. *)
Lemma utf8_loop_total text : forall fuel out,
  (length text <= fuel)%nat ->
  exists cs, Forall (fun c => scalar c = true) cs /\ utf8_loop fuel text out = out ++ utf16 cs /\ len cs <= len text.
Proof.
  intros fuel. revert text. induction fuel as [|fuel IH]; intros text out Hf.
  - destruct text; [|cbn in Hf; lia]. exists []. by rewrite app_nil_r.
  - destruct text as [|b text]; [exists []; by rewrite app_nil_r|].
    pose proof (next_utf8_total (b :: text) ltac:(done)) as Hn. cbn [utf8_loop].
    destruct (next_utf8 (b :: text)) as [c rest]. destruct Hn as (Hc & e & Et & He & _).
    assert (len (b :: text) = len e + len rest) as Hlen by (rewrite Et; len_lia).
    destruct (IH rest (append_code_point out c)) as (cs & Hcs & -> & Hl); [unfold len in *; lia|].
    exists (c :: cs). split_and!; [by constructor| |rewrite len_cons; lia].
    by rewrite utf16_cons, append_code_point_out, app_assoc.
Qed.

(** ** UTF-16 to UTF-8 *)

Lemma unit_of_value b0 b1 : unit_of b0 b1 = u8_of b0 + 256 * u8_of b1.
Proof. pose proof (u8_of_range b0). unfold unit_of. rewrite lor_high by lia. lia. Qed.

Lemma unit_of_bytes u : 0 <= u < 65536 -> unit_of (byte_of u) (byte_of (Z.shiftr u 8)) = u.
Proof.
  intros H. rewrite unit_of_value, Z.shiftr_div_pow2, !u8_of_byte_of by lia. change (2 ^ 8) with 256. lia.
Qed.

(** One iteration, by kind of unit. *)
Lemma utf16_single b0 b1 rest out :
  let u := unit_of b0 b1 in
  u <> 0 -> is_high_surrogate u = false ->
  utf16_loop (b0 :: b1 :: rest) out = utf16_loop rest (append_utf8 out (if is_low_surrogate u then replacement else u)).
Proof.
  intros u Hu Hh. cbn [utf16_loop]. fold u. destruct (Z.eqb_spec u 0); [done|]. rewrite Hh. cbn [orb andb].
  destruct (is_low_surrogate u); by destruct rest as [|? [|? ?]].
Qed.

Lemma utf16_pair b0 b1 b2 b3 rest out :
  let u := unit_of b0 b1 in let low := unit_of b2 b3 in
  is_high_surrogate u = true -> is_low_surrogate low = true ->
  utf16_loop (b0 :: b1 :: b2 :: b3 :: rest) out =
    utf16_loop rest (append_utf8 out (0x10000 + Z.shiftl (u - 0xD800) 10 + (low - 0xDC00))).
Proof.
  intros u low Hh Hl. cbn [utf16_loop]. fold u low. rewrite Hh, Hl.
  destruct (Z.eqb_spec u 0) as [E|]; [by rewrite E in Hh|]. done.
Qed.

(** A high surrogate with no low one behind it. *)
Lemma utf16_unpaired b0 b1 rest out :
  is_high_surrogate (unit_of b0 b1) = true ->
  match rest with b2 :: b3 :: _ => is_low_surrogate (unit_of b2 b3) = false | _ => True end ->
  utf16_loop (b0 :: b1 :: rest) out = utf16_loop rest (append_utf8 out replacement).
Proof.
  intros Hh Hl. cbn [utf16_loop]. rewrite Hh. destruct (Z.eqb_spec (unit_of b0 b1) 0) as [E|]; [by rewrite E in Hh|].
  cbn [orb andb]. destruct rest as [|b2 [|b3 rest]]; try done. by rewrite Hl.
Qed.

Lemma surrogate_range u :
  (is_high_surrogate u = true -> 0xD800 <= u <= 0xDBFF) /\ (is_low_surrogate u = true -> 0xDC00 <= u <= 0xDFFF).
Proof. unfold is_high_surrogate, is_low_surrogate. split; intros H; bools; lia. Qed.

Lemma pair_scalar u low :
  is_high_surrogate u = true -> is_low_surrogate low = true ->
  let c := 0x10000 + Z.shiftl (u - 0xD800) 10 + (low - 0xDC00) in scalar c = true /\ c <> 0.
Proof.
  intros Hh%surrogate_range Hl%surrogate_range c. subst c. rewrite Z.shiftl_mul_pow2 by lia. change (2 ^ 10) with 1024.
  split; [|lia]. unfold scalar. apply orb_true_iff. right. apply andb_true_iff. lia.
Qed.

(** Any bytes become well-formed UTF-8 without a NUL. *)
Lemma utf16_loop_total bytes : forall n out, (length bytes <= n)%nat ->
  exists cs, Forall (fun c => scalar c = true /\ c <> 0) cs /\ utf16_loop bytes out = out ++ utf8 cs /\
             2 * len cs <= len bytes + 1.
Proof.
  intros n. revert bytes. induction n as [|n IH]; intros bytes out Hn.
  { destruct bytes; [|cbn in Hn; lia]. exists []. by rewrite app_nil_r. }
  assert (forall e rest c, bytes = e ++ rest -> 2 <= len e -> scalar c = true /\ c <> 0 ->
    utf16_loop bytes out = utf16_loop rest (append_utf8 out c) ->
    exists cs, Forall (fun c => scalar c = true /\ c <> 0) cs /\ utf16_loop bytes out = out ++ utf8 cs /\
               2 * len cs <= len bytes + 1) as Hstep.
  { intros e rest c -> He Hc ->. rewrite length_app in Hn. unfold len in He.
    destruct (IH rest (append_utf8 out c)) as (cs & Hcs & -> & Hl); [lia|].
    exists (c :: cs). split_and!; [by constructor|by rewrite utf8_cons, append_utf8_out, app_assoc|].
    rewrite len_cons, len_app. unfold len in *. lia. }
  destruct bytes as [|b0 [|b1 rest]].
  { exists []. by rewrite app_nil_r. }
  { exists [replacement]. split_and!; [by apply Forall_singleton|done|done]. }
  assert (0 <= unit_of b0 b1 < 65536) as Hu.
  { rewrite unit_of_value. pose proof (u8_of_range b0). pose proof (u8_of_range b1). lia. }
  destruct (Z.eqb_spec (unit_of b0 b1) 0) as [E|Hne].
  { exists []. cbn [utf16_loop]. rewrite E, app_nil_r. split_and!; [done|done|rewrite !len_cons; len_lia]. }
  destruct (is_high_surrogate (unit_of b0 b1)) eqn:Eh.
  - destruct (match rest with b2 :: b3 :: _ => is_low_surrogate (unit_of b2 b3) | _ => false end) eqn:El.
    + destruct rest as [|b2 [|b3 rest]]; [done|done|].
      apply (Hstep [b0; b1; b2; b3] rest _ eq_refl ltac:(done) (pair_scalar _ _ Eh El)). by apply utf16_pair.
    + apply (Hstep [b0; b1] rest replacement); [done|done|done|].
      apply utf16_unpaired; [done|]. by destruct rest as [|b2 [|b3 rest]].
  - apply (Hstep [b0; b1] rest (if is_low_surrogate (unit_of b0 b1) then replacement else unit_of b0 b1));
      [done|done| |by apply utf16_single].
    destruct (is_low_surrogate _) eqn:El; [done|]. split; [|done]. apply scalar_of; [lia|done|done].
Qed.

(** Well-formed text up to the first NUL becomes the same text. *)
Fixpoint until_nul (cs : list Z) : list Z :=
  match cs with
  | [] => []
  | c :: cs' => if c =? 0 then [] else c :: until_nul cs'
  end.

Lemma pair_units c :
  0x10000 <= c <= 0x10FFFF ->
  let v := c - 0x10000 in
  let u := 0xD800 + Z.shiftr v 10 in let low := 0xDC00 + Z.land v 0x3FF in
  is_high_surrogate u = true /\ is_low_surrogate low = true /\ 0 <= u < 65536 /\ 0 <= low < 65536 /\
  0x10000 + Z.shiftl (u - 0xD800) 10 + (low - 0xDC00) = c.
Proof.
  intros Hc v u low. unfold u, low, is_high_surrogate, is_low_surrogate.
  rewrite (land_low v 0x3FF 10), Z.shiftr_div_pow2, Z.shiftl_mul_pow2 by (done || lia). change (2 ^ 10) with 1024.
  subst v. rewrite !andb_true_iff, !Z.leb_le. lia.
Qed.

Lemma utf16_loop_scalars cs : forall out,
  Forall (fun c => scalar c = true) cs -> utf16_loop (utf16 cs) out = out ++ utf8 (until_nul cs).
Proof.
  induction cs as [|c cs IH]; intros out Hs; [by rewrite app_nil_r|].
  inversion_clear Hs as [|? ? Hc Hcs]. destruct (scalar_range c Hc) as (Hr & Hh & Hl).
  rewrite utf16_cons. unfold append_code_point. cbn [until_nul].
  destruct (Z.leb_spec 0x10000 c) as [Hbig|Hsmall].
  - destruct (pair_units c ltac:(lia)) as (Hu & Hlow & Ru & Rl & E).
    unfold append_utf16le. cbn [app]. rewrite utf16_pair by (by rewrite unit_of_bytes). rewrite !unit_of_bytes, E by done.
    rewrite IH by done. destruct (Z.eqb_spec c 0); [lia|]. by rewrite utf8_cons, append_utf8_out, app_assoc.
  - unfold append_utf16le. cbn [app]. destruct (Z.eqb_spec c 0) as [->|Hne].
    + cbn. by rewrite app_nil_r.
    + rewrite utf16_single by (rewrite unit_of_bytes by lia; done). rewrite unit_of_bytes, Hl, IH by (done || lia).
      by rewrite utf8_cons, append_utf8_out, app_assoc.
Qed.

(** ** The claims *)

(** well-formed text survives both conversions: the UTF-8 of any sequence of
    Unicode scalar values becomes its UTF-16, and its UTF-16, surrogate pairs
    included, becomes the UTF-8 of the text up to the first NUL. *)
Theorem text_roundtrip (cs : list Z) :
  Forall (fun c => scalar c = true) cs ->
  utf8_to_utf16le (utf8 cs) = utf16 cs /\ utf16le_to_utf8 (utf16 cs) = utf8 (until_nul cs).
Proof.
  intros H. split; [by apply utf8_loop_scalars|]. exact (utf16_loop_scalars cs [] H).
Qed.

Lemma text_roundtrip_witness :
  utf16le_to_utf8 (utf8_to_utf16le (utf8 [0x41; 0xE9; 0x20AC; 0x1F600])) = utf8 [0x41; 0xE9; 0x20AC; 0x1F600].
Proof.
  destruct (text_roundtrip [0x41; 0xE9; 0x20AC; 0x1F600]) as [-> ->]; [|reflexivity].
  repeat constructor.
Defined.

(** C40: a peer cannot make text decoding fail or produce malformed text: whatever
    the bytes, [utf16le_to_utf8] returns well-formed UTF-8 without a NUL and
    [utf8_to_utf16le] well-formed UTF-16, of no more characters than the input
    has units or bytes; [next_utf8] returns a character other than U+FFFD only
    for its shortest encoding.  An overlong two-byte sequence is replaced as a
    whole, both its bytes, not its first byte only. *)
Theorem text_sanitised (bytes : list byte) :
  (exists cs, Forall (fun c => scalar c = true /\ c <> 0) cs /\ utf16le_to_utf8 bytes = utf8 cs /\
              2 * len cs <= len bytes + 1) /\
  (exists cs, Forall (fun c => scalar c = true) cs /\ utf8_to_utf16le bytes = utf16 cs /\ len cs <= len bytes) /\
  (bytes <> [] ->
   let '(c, rest) := next_utf8 bytes in
   scalar c = true /\ exists e, bytes = e ++ rest /\ 1 <= len e <= 4 /\ (c <> replacement -> e = append_utf8 [] c)) /\
  (forall x y, 0 <= x < 2 -> 0 <= y < 64 ->
   next_utf8 (byte_of (192 + x) :: byte_of (128 + y) :: bytes) = (replacement, bytes)).
Proof.
  split_and!.
  - exact (utf16_loop_total bytes (length bytes) [] (le_n _)).
  - exact (utf8_loop_total bytes (length bytes) [] (le_n _)).
  - exact (next_utf8_total bytes).
  - intros x y Hx Hy. pose proof (len_nonneg bytes).
    rewrite (next_utf8_lead (192 + x) 1 x 0x80 _ (x * 64 + y) bytes);
      [|lia|apply lead_class_2; lia|len_lia|by rewrite cont_loop_S by lia].
    by destruct (Z.ltb_spec (x * 64 + y) 0x80); [|lia].
Qed.

Lemma text_sanitised_witness :
  next_utf8 [byte_of 0xC1; byte_of 0x81; byte_of 0x41] = (replacement, [byte_of 0x41]) /\
  exists cs, Forall (fun c => scalar c = true) cs /\ utf8_to_utf16le [byte_of 0xFF] = utf16 cs /\ len cs <= 1.
Proof.
  split.
  - exact (proj2 (proj2 (proj2 (text_sanitised [byte_of 0x41]))) 1 1 ltac:(lia) ltac:(lia)).
  - exact (proj1 (proj2 (text_sanitised [byte_of 0xFF]))).
Defined.

End Text.
