(* ===== verification/Buffers.v ===== *)
(** * Errors, the bounds-checked [Reader] and the growable [Writer]

    Models [src/src/farland/base/error.hpp], [reader.hpp] and [writer.hpp], the
    two classes every codec of the program is written against.

    - [Result] is [std::expected<T, Error>]; [FARLAND_TRY] is [let*] below.
    - A decoder [Result<T> f(Reader&)] is a [Dec T]: it takes the reader and
      returns the value with the advanced reader.  After an error callers
      abandon the input, so an error carries no reader.
    - An encoder [void f(Writer&)] is an [Enc unit]: it takes the buffer and
      returns the extended one, or [None] where a [FARLAND_ASSERT] aborts the
      process.

    The second half is the small program logic the codecs' theorems use:
    [reads p e k Q] says that [p], run on a reader that has [e] in front of
    [k], succeeds, consumes exactly [e] and returns a value satisfying [Q];
    [writes m e] says that [m] appends exactly [e] and trips no assertion. *)

From S2P Require Import Prelude.
From stdpp Require Import pretty.
Open Scope Z_scope.

(** ** error.hpp *)

Inductive Errc :=
  | truncated
  | invalid_value
  | invalid_length
  | unsupported
  | limit_exceeded
  | trailing_data
  | io.

#[export] Instance Errc_eq_dec : EqDecision Errc.
Proof. solve_decision. Defined.

Record Error := mkError { code : Errc; what : string; err_offset : Z }.

#[export] Instance Error_eq_dec : EqDecision Error.
Proof. solve_decision. Defined.

Inductive Result (A : Type) :=
  | Ok (a : A)
  | Err (e : Error).
Arguments Ok {A} a.
Arguments Err {A} e.

Definition fail {A} (c : Errc) (w : string) (offset : Z) : Result A :=
  Err (mkError c w offset).

Definition errc_to_string (c : Errc) : string :=
  match c with
  | truncated => "truncated"
  | invalid_value => "invalid value"
  | invalid_length => "invalid length"
  | unsupported => "unsupported"
  | limit_exceeded => "limit exceeded"
  | trailing_data => "trailing data"
  | io => "I/O error"
  end.

(** [Error::message]: ["{} at offset {}: {}"]. *)
Definition message (e : Error) : string :=
  errc_to_string (code e) +:+ " at offset " +:+ pretty (err_offset e) +:+ ": " +:+ what e.

Definition rbind {A B} (m : Result A) (f : A -> Result B) : Result B :=
  match m with
  | Ok a => f a
  | Err e => Err e
  end.

Declare Scope farland_scope.
Open Scope farland_scope.

Notation "'let?' x ':=' m 'in' k" := (rbind m (fun x => k))
  (at level 10, x pattern, m at level 100, k at level 200,
   format "'[v' 'let?'  x  ':='  m  'in' '/' k ']'") : farland_scope.

(** ** reader.hpp

    [data_] is split at [pos_] into the bytes already consumed and the bytes
    still to read, so [pos_ <= data_.size()] holds by construction. *)

Module Reader.
Record t := mk { seen : list byte; rest : list byte; base : Z }.

Definition make (data : list byte) (base_offset : Z) : t := mk [] data base_offset.

Definition data (r : t) : list byte := seen r ++ rest r.
Definition size (r : t) : Z := len (data r).
Definition position (r : t) : Z := len (seen r).
Definition remaining (r : t) : Z := size r - position r.
Definition empty (r : t) : bool := position r =? size r.
Definition offset (r : t) : Z := base r + position r.
End Reader.

Definition Dec (A : Type) : Type := Reader.t -> Result (A * Reader.t).

Definition dret {A} (a : A) : Dec A := fun r => Ok (a, r).
Definition dfail {A} (c : Errc) (w : string) (o : Z) : Dec A := fun _ => fail c w o.
Definition dbind {A B} (m : Dec A) (f : A -> Dec B) : Dec B :=
  fun r => match m r with
           | Ok (a, r') => f a r'
           | Err e => Err e
           end.
(** A pure query of the reader: [r.offset()], [r.remaining()], [r.rest()]. *)
Definition dask {A} (f : Reader.t -> A) : Dec A := fun r => Ok (f r, r).
(** A [Result] computed without the reader. *)
Definition dlift {A} (m : Result A) : Dec A :=
  fun r => match m with Ok a => Ok (a, r) | Err e => Err e end.
(** A decoder run on another reader, a local variable of the C++ function. *)
Definition within {A} (sub : Reader.t) (p : Dec A) : Dec A :=
  fun r => match p sub with
           | Ok (a, _) => Ok (a, r)
           | Err e => Err e
           end.
(** A decoder run on a copy of the reader: nothing is consumed. *)
Definition dpeek {A} (p : Dec A) : Dec A :=
  fun r => match p r with
           | Ok (a, _) => Ok (a, r)
           | Err e => Err e
           end.

Notation "'let*' x ':=' m 'in' k" := (dbind m (fun x => k))
  (at level 10, x pattern, m at level 100, k at level 200,
   format "'[v' 'let*'  x  ':='  m  'in' '/' k ']'") : farland_scope.

Module ReaderOps.
Import Reader.

Definition bytes (count : Z) : Dec (list byte) := fun r =>
  if remaining r <? count
  then fail truncated "unexpected end of input" (offset r)
  else let n := Z.to_nat count in
       Ok (take n (rest r), mk (seen r ++ take n (rest r)) (drop n (rest r)) (base r)).

Definition sub (count : Z) : Dec Reader.t :=
  let* start := dask offset in
  let* view := bytes count in
  dret (make view start).

Definition skip (count : Z) : Dec unit :=
  let* _ := bytes count in dret tt.

Definition peek_u8 (r : Reader.t) : Result Z :=
  match rest r with
  | [] => fail truncated "unexpected end of input" (offset r)
  | b :: _ => Ok (u8_of b)
  end.

Fixpoint le_loop (w i : Z) (raw : list byte) (value : Z) : Z :=
  match raw with
  | [] => value
  | b :: raw' => le_loop w (i + 1) raw' (wrap w (Z.lor value (wrap w (Z.shiftl (u8_of b) (8 * i)))))
  end.

(** [read_le<T>] with [sizeof(T) = n]. *)
Definition read_le (n : nat) : Dec Z :=
  let* raw := bytes (Z.of_nat n) in
  dret (le_loop (8 * Z.of_nat n) 0 raw 0).

Definition be_loop (w : Z) (raw : list byte) (value : Z) : Z :=
  fold_left (fun v b => wrap w (Z.lor (wrap w (Z.shiftl v 8)) (u8_of b))) raw value.

Definition read_be (n : nat) : Dec Z :=
  let* raw := bytes (Z.of_nat n) in
  dret (be_loop (8 * Z.of_nat n) raw 0).

Definition u8 : Dec Z := read_le 1.
Definition u16le : Dec Z := read_le 2.
Definition u32le : Dec Z := read_le 4.
Definition u64le : Dec Z := read_le 8.
Definition u16be : Dec Z := read_be 2.
Definition u32be : Dec Z := read_be 4.

Definition expect_end (w : string) : Dec unit := fun r =>
  if empty r then Ok (tt, r) else fail trailing_data w (offset r).
End ReaderOps.

(** ** writer.hpp *)

Definition Enc (A : Type) : Type := list byte -> option (A * list byte).

Definition eret {A} (a : A) : Enc A := fun w => Some (a, w).
Definition ebind {A B} (m : Enc A) (f : A -> Enc B) : Enc B :=
  fun w => match m w with
           | Some (a, w') => f a w'
           | None => None
           end.
(** [FARLAND_ASSERT]: aborts the process when the condition is false. *)
Definition eassert (b : bool) : Enc unit := fun w => if b then Some (tt, w) else None.

Notation "'let!' x ':=' m 'in' k" := (ebind m (fun x => k))
  (at level 10, x pattern, m at level 100, k at level 200,
   format "'[v' 'let!'  x  ':='  m  'in' '/' k ']'") : farland_scope.
Notation "m ;;; k" := (ebind m (fun _ => k))
  (at level 199, k at level 200, right associativity, format "'[v' m  ;;; '/' k ']'") : farland_scope.

Module Writer.
Definition bytes (data : list byte) : Enc unit := fun buf => Some (tt, buf ++ data).
Definition zeros (count : Z) : Enc unit := bytes (replicate (Z.to_nat count) Corelib.Init.Byte.x00).
Definition size : Enc Z := fun buf => Some (len buf, buf).

Definition le_bytes (n : nat) (value : Z) : list byte :=
  (fun i => byte_of (Z.shiftr value (8 * Z.of_nat i))) <$> seq 0 n.
Definition be_bytes (n : nat) (value : Z) : list byte :=
  (fun i => byte_of (Z.shiftr value (8 * Z.of_nat i))) <$> rev (seq 0 n).

Definition write_le (n : nat) (value : Z) : Enc unit := bytes (le_bytes n value).
Definition write_be (n : nat) (value : Z) : Enc unit := bytes (be_bytes n value).

Definition u8 (value : Z) : Enc unit := bytes [byte_of value].
Definition u16le (value : Z) : Enc unit := write_le 2 value.
Definition u32le (value : Z) : Enc unit := write_le 4 value.
Definition u64le (value : Z) : Enc unit := write_le 8 value.
Definition u16be (value : Z) : Enc unit := write_be 2 value.
Definition u32be (value : Z) : Enc unit := write_be 4 value.

(** Overwrites [length data] bytes at [pos], as the [patch_*] loops do. *)
Definition overwrite (pos : nat) (data buf : list byte) : list byte :=
  take pos buf ++ data ++ drop (pos + length data) buf.

Definition patch (pos : Z) (data : list byte) : Enc unit := fun buf =>
  if (pos <=? len buf) && (len data <=? len buf - pos)
  then Some (tt, overwrite (Z.to_nat pos) data buf) else None.

Definition patch_u8 (pos value : Z) : Enc unit := patch pos (le_bytes 1 value).
Definition patch_u16le (pos value : Z) : Enc unit := patch pos (le_bytes 2 value).
Definition patch_u32le (pos value : Z) : Enc unit := patch pos (le_bytes 4 value).
Definition patch_u16be (pos value : Z) : Enc unit := patch pos (be_bytes 2 value).
Definition patch_u32be (pos value : Z) : Enc unit := patch pos (be_bytes 4 value).

(** A local [Writer] and its [view()]/[take()]: the bytes an encoder produces. *)
Definition run {A} (m : Enc A) : option (list byte) := snd <$> m [].
End Writer.

(** An encoder run on a writer of its own, whose bytes the caller then uses. *)
Definition elocal {A} (m : Enc A) : Enc (list byte) :=
  fun buf => match Writer.run m with Some bs => Some (bs, buf) | None => None end.
