(* ===== verification/CodecLogic.v ===== *)
(** * A small program logic for decoders and encoders

    [reads] and [writes] (see [Buffers]) with one rule per primitive of
    [Reader] and [Writer] and the composition rules; the codecs' round-trip
    theorems are derived with them.  The little- and big-endian loops of
    [read_le]/[write_le] are related to positional values here. *)

From S2P Require Import Prelude Buffers.
Open Scope Z_scope.

(** ** Positional values of byte sequences *)

Fixpoint le_val (bs : list byte) : Z :=
  match bs with
  | [] => 0
  | b :: bs' => u8_of b + 256 * le_val bs'
  end.

Definition be_val (bs : list byte) : Z := le_val (rev bs).

Lemma pow256 n : 2 ^ (8 * Z.of_nat n) = 256 ^ Z.of_nat n.
Proof. rewrite Z.pow_mul_r by lia. done. Qed.

Lemma pow256_S n : 256 ^ Z.of_nat (S n) = 256 * 256 ^ Z.of_nat n.
Proof. rewrite Nat2Z.inj_succ, Z.pow_succ_r by lia. done. Qed.

Lemma pow256_pos n : 0 < 256 ^ Z.of_nat n.
Proof. apply Z.pow_pos_nonneg; lia. Qed.

Lemma le_val_range bs : 0 <= le_val bs < 256 ^ Z.of_nat (length bs).
Proof.
  induction bs as [|b bs IH]; [done|].
  cbn [le_val length]. rewrite pow256_S. pose proof (u8_of_range b). lia.
Qed.

Lemma le_bytes_S n v :
  Writer.le_bytes (S n) v = byte_of v :: Writer.le_bytes n (v / 256).
Proof.
  unfold Writer.le_bytes. cbn [seq fmap list_fmap]. f_equal.
  rewrite <- seq_shift, <- list_fmap_compose. apply list_fmap_ext.
  intros _ i _. unfold compose. f_equal.
  rewrite !Z.shiftr_div_pow2 by lia.
  replace (8 * Z.of_nat (S i)) with (8 + 8 * Z.of_nat i) by lia.
  rewrite Z.pow_add_r by lia. change (2 ^ 8) with 256.
  by rewrite Z.div_div by (try apply Z.pow_pos_nonneg; lia).
Qed.

Lemma length_le_bytes n v : length (Writer.le_bytes n v) = n.
Proof. unfold Writer.le_bytes. by rewrite length_fmap, length_seq. Qed.

Lemma be_bytes_rev n v : Writer.be_bytes n v = rev (Writer.le_bytes n v).
Proof. unfold Writer.be_bytes, Writer.le_bytes. apply map_rev. Qed.

Lemma length_be_bytes n v : length (Writer.be_bytes n v) = n.
Proof. by rewrite be_bytes_rev, length_rev, length_le_bytes. Qed.

Lemma len_le_bytes n v : len (Writer.le_bytes n v) = Z.of_nat n.
Proof. unfold len. by rewrite length_le_bytes. Qed.

Lemma len_be_bytes n v : len (Writer.be_bytes n v) = Z.of_nat n.
Proof. unfold len. by rewrite length_be_bytes. Qed.

#[export] Hint Rewrite len_le_bytes len_be_bytes : len.

Lemma le_val_le_bytes n v : le_val (Writer.le_bytes n v) = v mod 256 ^ Z.of_nat n.
Proof.
  revert v. induction n as [|n IH]; intros v.
  - cbn. by rewrite Z.mod_1_r.
  - rewrite le_bytes_S. cbn [le_val]. rewrite IH, u8_of_byte_of, pow256_S.
    pose proof (pow256_pos n). rewrite Z.rem_mul_r by lia. done.
Qed.

Lemma le_bytes_le_val bs : Writer.le_bytes (length bs) (le_val bs) = bs.
Proof.
  induction bs as [|b bs IH]; [done|].
  cbn [length le_val]. rewrite le_bytes_S. pose proof (u8_of_range b) as Hb.
  f_equal.
  - apply u8_of_inj. rewrite u8_of_byte_of. lia.
  - replace ((u8_of b + 256 * le_val bs) / 256) with (le_val bs) by lia. apply IH.
Qed.

Lemma be_val_be_bytes n v : be_val (Writer.be_bytes n v) = v mod 256 ^ Z.of_nat n.
Proof. unfold be_val. rewrite be_bytes_rev, rev_involutive. apply le_val_le_bytes. Qed.

Lemma be_bytes_be_val bs : Writer.be_bytes (length bs) (be_val bs) = bs.
Proof.
  rewrite be_bytes_rev. unfold be_val. rewrite <- (length_rev bs).
  by rewrite le_bytes_le_val, rev_involutive.
Qed.

Lemma be_val_range bs : 0 <= be_val bs < 256 ^ Z.of_nat (length bs).
Proof. unfold be_val. rewrite <- length_rev. apply le_val_range. Qed.

(** The shift-and-or loops of [Reader] compute the positional values. *)

Lemma le_val_app a b : le_val (a ++ b) = le_val a + 256 ^ Z.of_nat (length a) * le_val b.
Proof.
  induction a as [|x a IH]; [cbn; lia|].
  cbn [app le_val length]. rewrite pow256_S, IH. lia.
Qed.

Lemma be_val_snoc a b : be_val (a ++ [b]) = 256 * be_val a + u8_of b.
Proof. unfold be_val. rewrite rev_app_distr. cbn. lia. Qed.

Lemma be_val_cons b bs : be_val (b :: bs) = u8_of b * 256 ^ Z.of_nat (length bs) + be_val bs.
Proof.
  unfold be_val. cbn [rev]. rewrite le_val_app, length_rev. cbn [le_val]. lia.
Qed.

Lemma lor_256 v b : Z.lor (Z.shiftl v 8) (u8_of b) = 256 * v + u8_of b.
Proof. pose proof (u8_of_range b). rewrite lor_disjoint by lia. lia. Qed.

Lemma le_loop_spec w raw done :
  w = 8 * Z.of_nat (length done + length raw) ->
  ReaderOps.le_loop w (Z.of_nat (length done)) raw (le_val done) = le_val (done ++ raw).
Proof.
  revert done. induction raw as [|b raw IH]; intros done Hw; cbn [ReaderOps.le_loop].
  - by rewrite app_nil_r.
  - assert (wrap w (Z.lor (le_val done) (wrap w (Z.shiftl (u8_of b) (8 * Z.of_nat (length done)))))
            = le_val (done ++ [b])) as ->.
    { pose proof (le_val_range done). pose proof (u8_of_range b).
      assert (0 <= le_val (done ++ [b]) < 2 ^ w).
      { pose proof (le_val_range (done ++ [b])) as Hr. rewrite length_app in Hr.
        cbn in Hr. split; [lia|]. eapply Z.lt_le_trans; [apply Hr|].
        subst w. rewrite pow256. apply Z.pow_le_mono_r; cbn [length]; lia. }
      rewrite le_val_app in *. cbn [le_val] in *. unfold wrap.
      assert (0 <= Z.shiftl (u8_of b) (8 * Z.of_nat (length done)) < 2 ^ w).
      { rewrite Z.shiftl_mul_pow2, pow256 by lia. lia. }
      rewrite (Z.mod_small (Z.shiftl _ _)) by lia.
      rewrite lor_high by (rewrite ?pow256; lia).
      rewrite pow256. rewrite Z.mod_small; lia. }
    replace (Z.of_nat (length done) + 1) with (Z.of_nat (length (done ++ [b])))
      by (rewrite length_app; cbn; lia).
    rewrite IH; [by rewrite <- app_assoc|]. rewrite Hw, length_app. cbn. lia.
Qed.

Lemma be_loop_spec w raw done :
  w = 8 * Z.of_nat (length done + length raw) ->
  ReaderOps.be_loop w raw (be_val done) = be_val (done ++ raw).
Proof.
  unfold ReaderOps.be_loop.
  revert done. induction raw as [|b raw IH]; intros done Hw; cbn [fold_left].
  - by rewrite app_nil_r.
  - assert (wrap w (Z.lor (wrap w (Z.shiftl (be_val done) 8)) (u8_of b)) = be_val (done ++ [b])) as ->.
    { pose proof (u8_of_range b). pose proof (be_val_range done).
      assert (0 <= be_val (done ++ [b]) < 2 ^ w).
      { pose proof (be_val_range (done ++ [b])) as Hr. rewrite length_app in Hr.
        cbn in Hr. split; [lia|]. eapply Z.lt_le_trans; [apply Hr|].
        subst w. rewrite pow256. apply Z.pow_le_mono_r; cbn [length]; lia. }
      rewrite be_val_snoc in *. unfold wrap.
      rewrite (Z.mod_small (Z.shiftl _ _)) by (rewrite Z.shiftl_mul_pow2 by lia; lia).
      rewrite lor_256. rewrite Z.mod_small; lia. }
    rewrite IH; [by rewrite <- app_assoc|]. rewrite Hw, length_app. cbn. lia.
Qed.

(** The same loop from any start value, where the register overflows. *)
Lemma be_loop_wrap w raw v :
  8 <= w -> 0 <= v < 2 ^ w ->
  ReaderOps.be_loop w raw v = (v * 256 ^ Z.of_nat (length raw) + be_val raw) mod 2 ^ w.
Proof.
  intros Hw. unfold ReaderOps.be_loop. revert v.
  induction raw as [|b raw IH]; intros v Hv; cbn [fold_left length].
  - cbn. rewrite Z.mod_small; lia.
  - assert (wrap w (Z.lor (wrap w (Z.shiftl v 8)) (u8_of b)) = (256 * v + u8_of b) mod 2 ^ w) as ->.
    { pose proof (u8_of_range b). unfold wrap. rewrite Z.shiftl_mul_pow2 by lia.
      replace w with (8 + (w - 8)) by lia. rewrite Z.pow_add_r, Z.mul_comm by lia.
      assert (0 < 2 ^ (w - 8)) by (apply Z.pow_pos_nonneg; lia).
      rewrite Z.mul_mod_distr_l by lia.
      replace (2 ^ 8 * (v mod 2 ^ (w - 8))) with (Z.shiftl (v mod 2 ^ (w - 8)) 8)
        by (rewrite Z.shiftl_mul_pow2 by lia; lia).
      rewrite lor_256. change (2 ^ 8) with 256.
      pose proof (Z.mod_pos_bound v (2 ^ (w - 8)) ltac:(lia)).
      rewrite Z.mod_small by lia.
      rewrite (Z.rem_mul_r _ 256 (2 ^ (w - 8))) by lia.
      replace ((256 * v + u8_of b) mod 256) with (u8_of b) by lia.
      replace ((256 * v + u8_of b) / 256) with v by lia. lia. }
    pose proof (Z.pow_pos_nonneg 2 w ltac:(lia) ltac:(lia)).
    rewrite IH by (apply Z.mod_pos_bound; lia).
    rewrite be_val_cons, pow256_S.
    rewrite Z.add_mod, Z.mul_mod_idemp_l, <- Z.add_mod by lia. f_equal. lia.
Qed.

(** ** The two judgements *)

Create HintDb reads.

Definition reads {A} (p : Dec A) (e k : list byte) (Q : A -> Prop) : Prop :=
  forall s b, exists a, p (Reader.mk s (e ++ k) b) = Ok (a, Reader.mk (s ++ e) k b) /\ Q a.

Definition writes (m : Enc unit) (e : list byte) : Prop :=
  forall w, m w = Some (tt, w ++ e).

(** ** Rules for decoders *)

Lemma reads_run {A} (p : Dec A) e (v : A) b :
  reads p e [] (eq v) -> p (Reader.make e b) = Ok (v, Reader.mk e [] b).
Proof. intros H. destruct (H [] b) as (a & Ha & <-). by rewrite app_nil_r in Ha. Qed.

Lemma reads_weaken {A} (p : Dec A) e k (P Q : A -> Prop) :
  reads p e k P -> (forall a, P a -> Q a) -> reads p e k Q.
Proof. intros H HPQ s b. destruct (H s b) as (a & Ha & HP). eauto. Qed.

Lemma reads_ret {A} (a : A) k (Q : A -> Prop) : Q a -> reads (dret a) [] k Q.
Proof. intros HQ s b. exists a. by rewrite app_nil_r. Qed.

Lemma reads_bind {A B} (p : Dec A) (q : A -> Dec B) e1 e2 k P Q :
  reads p e1 (e2 ++ k) P ->
  (forall a, P a -> reads (q a) e2 k Q) ->
  reads (dbind p q) (e1 ++ e2) k Q.
Proof.
  intros Hp Hq s b. destruct (Hp s b) as (a & Ha & HP).
  destruct (Hq a HP (s ++ e1) b) as (c & Hc & HQ).
  exists c. split; [|done]. unfold dbind. by rewrite <- app_assoc, Ha, Hc, app_assoc.
Qed.

Lemma reads_bind_nil {A B} (p : Dec A) (q : A -> Dec B) e k P Q :
  reads p e k P ->
  (forall a, P a -> reads (q a) [] k Q) ->
  reads (dbind p q) e k Q.
Proof.
  intros Hp Hq. rewrite <- (app_nil_r e). by eapply reads_bind.
Qed.

Lemma reads_bind_pure {A B} (p : Dec A) (q : A -> Dec B) e k P Q :
  reads p [] (e ++ k) P ->
  (forall a, P a -> reads (q a) e k Q) ->
  reads (dbind p q) e k Q.
Proof. intros Hp Hq. exact (reads_bind p q [] e k P Q Hp Hq). Qed.

Lemma reads_ask {A B} (f : Reader.t -> A) (q : A -> Dec B) e k Q :
  (forall s b, reads (q (f (Reader.mk s (e ++ k) b))) e k Q) ->
  reads (dbind (dask f) q) e k Q.
Proof. intros H s b. destruct (H s b s b) as (a & Ha & HQ). by exists a. Qed.

Lemma reads_peek {A B} (p : Dec A) (q : A -> Dec B) e1 e2 k P Q :
  reads p e1 (e2 ++ k) P ->
  (forall a, P a -> reads (q a) (e1 ++ e2) k Q) ->
  reads (dbind (dpeek p) q) (e1 ++ e2) k Q.
Proof.
  intros Hp Hq s b. destruct (Hp s b) as (a & Ha & HP).
  destruct (Hq a HP s b) as (c & Hc & HQ). exists c. split; [|done].
  unfold dbind, dpeek. rewrite <- app_assoc in *. by rewrite Ha.
Qed.

Lemma reads_lift {A} (m : Result A) a k (Q : A -> Prop) : m = Ok a -> Q a -> reads (dlift m) [] k Q.
Proof. intros -> HQ s b. exists a. by rewrite app_nil_r. Qed.

Lemma reads_within {A} (p : Dec A) e b k Q :
  reads p e [] Q -> reads (within (Reader.make e b) p) [] k Q.
Proof.
  intros H s b'. destruct (H [] b) as (a & Ha & HQ). exists a. split; [|done].
  rewrite app_nil_r in Ha. unfold within, Reader.make. by rewrite Ha, app_nil_r.
Qed.

Lemma remaining_mk s e b : Reader.remaining (Reader.mk s e b) = len e.
Proof. unfold Reader.remaining, Reader.size, Reader.position, Reader.data. cbn. len_lia. Qed.

Lemma size_mk s e b : Reader.size (Reader.mk s e b) = len s + len e.
Proof. unfold Reader.size, Reader.data. cbn. len_lia. Qed.

Lemma empty_mk s e b : Reader.empty (Reader.mk s e b) = bool_decide (e = []).
Proof.
  unfold Reader.empty, Reader.size, Reader.position, Reader.data. cbn [Reader.seen Reader.rest].
  destruct e as [|x e].
  - rewrite app_nil_r, Z.eqb_refl. done.
  - rewrite bool_decide_false by done. apply Z.eqb_neq. len_lia.
Qed.

Lemma bytes_mk n s e k b :
  n = len e -> ReaderOps.bytes n (Reader.mk s (e ++ k) b) = Ok (e, Reader.mk (s ++ e) k b).
Proof.
  intros ->. unfold ReaderOps.bytes. rewrite remaining_mk. cbn [Reader.rest Reader.seen Reader.base].
  destruct (Z.ltb_spec (len (e ++ k)) (len e)); [len_lia|].
  unfold len. rewrite Nat2Z.id, take_app_length, drop_app_length. done.
Qed.

Lemma reads_bytes n e k : n = len e -> reads (ReaderOps.bytes n) e k (eq e).
Proof. intros -> s b. exists e. split; [|done]. by apply bytes_mk. Qed.

Lemma reads_skip n e k : n = len e -> reads (ReaderOps.skip n) e k (fun _ => True).
Proof.
  intros H. eapply reads_bind_nil; [by apply reads_bytes|].
  intros ? <-. by apply reads_ret.
Qed.

Lemma reads_sub n e k :
  n = len e -> reads (ReaderOps.sub n) e k (fun r => exists b, r = Reader.make e b).
Proof.
  intros H. apply reads_ask. intros s b.
  eapply reads_bind_nil; [by apply reads_bytes|]. intros ? <-. apply reads_ret. eauto.
Qed.

Lemma reads_read_le n v k :
  0 <= v < 256 ^ Z.of_nat n -> reads (ReaderOps.read_le n) (Writer.le_bytes n v) k (eq v).
Proof.
  intros Hv. eapply reads_bind_nil; [apply reads_bytes; len_lia|]. intros ? <-.
  apply reads_ret.
  rewrite (le_loop_spec _ (Writer.le_bytes n v) []) by (cbn; rewrite length_le_bytes; lia).
  cbn [app]. rewrite le_val_le_bytes, Z.mod_small; lia.
Qed.

Lemma reads_read_be n v k :
  0 <= v < 256 ^ Z.of_nat n -> reads (ReaderOps.read_be n) (Writer.be_bytes n v) k (eq v).
Proof.
  intros Hv. eapply reads_bind_nil; [apply reads_bytes; len_lia|]. intros ? <-.
  apply reads_ret.
  rewrite (be_loop_spec _ (Writer.be_bytes n v) []) by (cbn; rewrite length_be_bytes; lia).
  cbn [app]. rewrite be_val_be_bytes, Z.mod_small; lia.
Qed.

Lemma reads_byte b k : reads ReaderOps.u8 [b] k (eq (u8_of b)).
Proof.
  pose proof (u8_of_range b). pose proof (reads_read_le 1 (u8_of b) k) as Hr.
  rewrite le_bytes_S, byte_of_u8_of in Hr. apply Hr. cbn. lia.
Qed.

Lemma reads_u8 v k : 0 <= v < 256 -> reads ReaderOps.u8 [byte_of v] k (eq v).
Proof. intros Hv. pose proof (reads_byte (byte_of v) k) as H. by rewrite u8_of_byte_of_small in H. Qed.

Lemma reads_u16le v k : 0 <= v < 65536 -> reads ReaderOps.u16le (Writer.le_bytes 2 v) k (eq v).
Proof. intros. by apply reads_read_le. Qed.
Lemma reads_u32le v k : 0 <= v < 4294967296 -> reads ReaderOps.u32le (Writer.le_bytes 4 v) k (eq v).
Proof. intros. by apply reads_read_le. Qed.
Lemma reads_u16be v k : 0 <= v < 65536 -> reads ReaderOps.u16be (Writer.be_bytes 2 v) k (eq v).
Proof. intros. by apply reads_read_be. Qed.
Lemma reads_u32be v k : 0 <= v < 4294967296 -> reads ReaderOps.u32be (Writer.be_bytes 4 v) k (eq v).
Proof. intros. by apply reads_read_be. Qed.

Lemma reads_expect_end w : reads (ReaderOps.expect_end w) [] [] (fun _ => True).
Proof.
  intros s b. exists tt. split; [|done].
  unfold ReaderOps.expect_end. rewrite empty_mk. cbn. by rewrite app_nil_r.
Qed.

(** ** Rules for encoders *)

Lemma writes_run m e : writes m e -> Writer.run m = Some e.
Proof. intros H. unfold Writer.run. by rewrite H. Qed.

Lemma writes_ret : writes (eret tt) [].
Proof. intros w. by rewrite app_nil_r. Qed.

Lemma writes_bytes e : writes (Writer.bytes e) e.
Proof. intros w. done. Qed.

Lemma writes_seq m1 m2 e1 e2 : writes m1 e1 -> writes m2 e2 -> writes (m1 ;;; m2) (e1 ++ e2).
Proof. intros H1 H2 w. unfold ebind. by rewrite H1, H2, app_assoc. Qed.

Lemma writes_assert b m e : b = true -> writes m e -> writes (eassert b ;;; m) e.
Proof. intros -> H w. unfold ebind, eassert. apply H. Qed.

Lemma writes_local {A} (m : Enc A) (f : list byte -> Enc unit) bs e :
  Writer.run m = Some bs -> writes (f bs) e -> writes (ebind (elocal m) f) e.
Proof. intros Hm Hf w. unfold ebind, elocal. by rewrite Hm, Hf. Qed.

Lemma writes_zeros n : writes (Writer.zeros n) (replicate (Z.to_nat n) Corelib.Init.Byte.x00).
Proof. apply writes_bytes. Qed.

#[export] Hint Resolve writes_ret writes_bytes writes_seq writes_zeros : farland.

(** [wsteps] runs an encoder symbolically, leaving the assertions' conditions. *)
Ltac wstep :=
  lazymatch goal with
  | |- writes (ebind (eassert _) _) _ => apply writes_assert
  | |- writes (ebind _ _) _ => eapply writes_seq
  | |- writes (eret tt) _ => apply writes_ret
  | |- writes (if ?c then _ else _) _ => destruct c
  | |- writes _ _ => first [apply writes_bytes | eauto with farland]
  end.

(** [rstep] runs one primitive of a decoder on the bytes in front of it. *)
Ltac rprim :=
  first [ apply reads_u8; lia | apply reads_u16le; lia | apply reads_u32le; lia
        | apply reads_u16be; lia | apply reads_u32be; lia | apply reads_byte
        | apply reads_bytes; len_lia | apply reads_skip; len_lia | apply reads_sub; len_lia
        | apply reads_expect_end | solve [eauto with reads] ].

Ltac rstep :=
  lazymatch goal with
  | |- reads (dbind (dask _) _) _ _ _ => apply reads_ask; intros ? ?
  | |- reads (dbind (dret _) _) _ _ _ => eapply reads_bind_pure; [by apply reads_ret|]
  | |- reads (dbind _ _) (_ ++ _) _ _ =>
      first [eapply reads_bind; [rprim|]; first [intros ? <- | intros ? ?]
            |eapply reads_bind_pure; [rprim|]; first [intros ? <- | intros ? ?]]
  | |- reads (dbind _ _) _ _ _ =>
      first [eapply reads_bind_nil; [rprim|]; first [intros ? <- | intros ? ?]
            |eapply reads_bind_pure; [rprim|]; first [intros ? <- | intros ? ?]]
  | |- reads (dret _) [] _ _ => apply reads_ret
  end.

(** ** Encoder and decoder in step

    [encodes m p v n]: the encoder [m] writes at most [n] bytes, whatever is
    in the buffer already, and the decoder [p] reads them back as [v], whatever
    follows.  [encodes_end] is the same for decoders that must meet the end of
    their input. *)

Definition encodes {A} (m : Enc unit) (p : Dec A) (v : A) (n : Z) : Prop :=
  exists e, writes m e /\ len e <= n /\ forall k, reads p e k (eq v).

Definition encodes_end {A} (m : Enc unit) (p : Dec A) (v : A) (n : Z) : Prop :=
  exists e, writes m e /\ len e <= n /\ reads p e [] (eq v).

Lemma encodes_encodes_end {A} m (p : Dec A) v n : encodes m p v n -> encodes_end m p v n.
Proof. intros (e & ? & ? & H). exists e. auto. Qed.

Lemma encodes_le {A} m (p : Dec A) v n n' : encodes m p v n -> n <= n' -> encodes m p v n'.
Proof. intros (e & ? & ? & H) ?. exists e. split_and!; [done|lia|done]. Qed.

Lemma encodes_end_le {A} m (p : Dec A) v n n' : encodes_end m p v n -> n <= n' -> encodes_end m p v n'.
Proof. intros (e & ? & ? & H) ?. exists e. split_and!; [done|lia|done]. Qed.

Lemma encodes_seq {A B} m1 m2 (p : Dec A) (q : A -> Dec B) a b n1 n2 :
  encodes m1 p a n1 -> encodes m2 (q a) b n2 -> encodes (m1 ;;; m2) (dbind p q) b (n1 + n2).
Proof.
  intros (e1 & W1 & L1 & R1) (e2 & W2 & L2 & R2). exists (e1 ++ e2). split_and!.
  - by apply writes_seq.
  - len_lia.
  - intros k. eapply reads_bind; [apply R1|]. by intros ? <-.
Qed.

Lemma encodes_seq_end {A B} m1 m2 (p : Dec A) (q : A -> Dec B) a b n1 n2 :
  encodes m1 p a n1 -> encodes_end m2 (q a) b n2 -> encodes_end (m1 ;;; m2) (dbind p q) b (n1 + n2).
Proof.
  intros (e1 & W1 & L1 & R1) (e2 & W2 & L2 & R2). exists (e1 ++ e2). split_and!.
  - by apply writes_seq.
  - len_lia.
  - eapply reads_bind; [apply R1|]. by intros ? <-.
Qed.

(** The last field of an encoder, followed by more decoding that consumes nothing. *)
Lemma encodes_last {A B} m (p : Dec A) (q : A -> Dec B) a b n :
  encodes m p a n -> (forall k, reads (q a) [] k (eq b)) -> encodes m (dbind p q) b n.
Proof.
  intros (e & W & L & R) H. exists e. split_and!; [done|done|].
  intros k. eapply reads_bind_nil; [apply R|]. intros ? <-. apply H.
Qed.

Lemma encodes_last_end {A B} m (p : Dec A) (q : A -> Dec B) a b n :
  encodes_end m p a n -> reads (q a) [] [] (eq b) -> encodes_end m (dbind p q) b n.
Proof.
  intros (e & W & L & R) H. exists e. split_and!; [done|done|].
  eapply reads_bind_nil; [apply R|]. intros ? <-. apply H.
Qed.

Lemma encodes_ret {A} (a : A) : encodes (eret tt) (dret a) a 0.
Proof.
  exists []. split_and!; [apply writes_ret|by cbn|]. intros k. by apply reads_ret.
Qed.

Lemma encodes_ask {A B} m (f : Reader.t -> A) (q : A -> Dec B) b n :
  (exists e, writes m e /\ len e <= n /\ forall x k, reads (q x) e k (eq b)) ->
  encodes m (dbind (dask f) q) b n.
Proof.
  intros (e & W & L & R). exists e. split_and!; [done|done|].
  intros k. apply reads_ask. intros. apply R.
Qed.

Lemma encodes_end_nil {A} (p : Dec A) v : reads p [] [] (eq v) -> encodes_end (eret tt) p v 0.
Proof. intros H. exists []. split_and!; [apply writes_ret|by cbn|done]. Qed.

(** What an encoder writes is determined, so a query of the reader's position
    may be made before the bytes are known. *)
Lemma writes_det m e e' : writes m e -> writes m e' -> e = e'.
Proof. intros H H'. specialize (H []). rewrite H' in H. by injection H. Qed.

Lemma encodes_end_ask {A B} m (f : Reader.t -> A) (q : A -> Dec B) b n :
  (forall x, encodes_end m (q x) b n) -> encodes_end m (dbind (dask f) q) b n.
Proof.
  intros H. destruct (H (f (Reader.make [] 0))) as (e & W & L & _). exists e. split_and!; [done|done|].
  apply reads_ask. intros s b'. destruct (H (f (Reader.mk s (e ++ []) b'))) as (e' & W' & _ & R).
  by rewrite <- (writes_det _ _ _ W W') in R.
Qed.

Lemma encodes_assert {A} c m (p : Dec A) v n :
  c = true -> encodes m p v n -> encodes (eassert c ;;; m) p v n.
Proof.
  intros Hc (e & W & L & R). exists e. split_and!; [by apply writes_assert|done|done].
Qed.

Lemma encodes_end_assert {A} c m (p : Dec A) v n :
  c = true -> encodes_end m p v n -> encodes_end (eassert c ;;; m) p v n.
Proof.
  intros Hc (e & W & L & R). exists e. split_and!; [by apply writes_assert|done|done].
Qed.

Lemma encodes_u8 v : 0 <= v < 256 -> encodes (Writer.u8 v) ReaderOps.u8 v 1.
Proof. intros H. exists [byte_of v]. split_and!; [apply writes_bytes|len_lia|]. intros k. by apply reads_u8. Qed.
Lemma encodes_u16le v : 0 <= v < 65536 -> encodes (Writer.u16le v) ReaderOps.u16le v 2.
Proof. intros H. eexists. split_and!; [apply writes_bytes|len_lia|]. intros k. by apply reads_u16le. Qed.
Lemma encodes_u32le v : 0 <= v < 4294967296 -> encodes (Writer.u32le v) ReaderOps.u32le v 4.
Proof. intros H. eexists. split_and!; [apply writes_bytes|len_lia|]. intros k. by apply reads_u32le. Qed.
Lemma encodes_u16be v : 0 <= v < 65536 -> encodes (Writer.u16be v) ReaderOps.u16be v 2.
Proof. intros H. eexists. split_and!; [apply writes_bytes|len_lia|]. intros k. by apply reads_u16be. Qed.
Lemma encodes_u32be v : 0 <= v < 4294967296 -> encodes (Writer.u32be v) ReaderOps.u32be v 4.
Proof. intros H. eexists. split_and!; [apply writes_bytes|len_lia|]. intros k. by apply reads_u32be. Qed.
Lemma encodes_bytes e n : n = len e -> encodes (Writer.bytes e) (ReaderOps.bytes n) e n.
Proof. intros ->. exists e. split_and!; [apply writes_bytes|lia|]. intros k. by apply reads_bytes. Qed.

Create HintDb codec.
#[export] Hint Resolve encodes_u8 encodes_u16le encodes_u32le encodes_u16be encodes_u32be
  encodes_bytes encodes_ret : codec.

(** What the judgements say of a whole message: the encoder run on a fresh
    buffer produces bytes the decoder turns back into the value. *)
Lemma encodes_end_run {A} m (p : Dec A) v n b :
  encodes_end m p v n ->
  exists e, Writer.run m = Some e /\ len e <= n /\ p (Reader.make e b) = Ok (v, Reader.mk e [] b).
Proof.
  intros (e & W & L & R). exists e. split_and!; [by apply writes_run|done|by apply reads_run].
Qed.

Lemma encodes_run {A} m (p : Dec A) v n b :
  encodes m p v n ->
  exists e, Writer.run m = Some e /\ p (Reader.make e b) = Ok (v, Reader.mk e [] b).
Proof.
  intros H. destruct (encodes_end_run m p v n b (encodes_encodes_end _ _ _ _ H)) as (e & ? & _ & ?).
  by exists e.
Qed.

(** ** Inverting a successful decoder *)

Lemma dbind_inv {A B} (m : Dec A) (f : A -> Dec B) r b r' :
  dbind m f r = Ok (b, r') -> exists a r1, m r = Ok (a, r1) /\ f a r1 = Ok (b, r').
Proof. unfold dbind. destruct (m r) as [[a r1]|e]; [eauto|done]. Qed.

Lemma dask_inv {A B} (g : Reader.t -> A) (f : A -> Dec B) r b r' :
  dbind (dask g) f r = Ok (b, r') -> f (g r) r = Ok (b, r').
Proof. done. Qed.

(** [took r e r']: from [r] to [r'] exactly the bytes [e] were consumed. *)
Definition took (r : Reader.t) (e : list byte) (r' : Reader.t) : Prop :=
  Reader.rest r = e ++ Reader.rest r' /\
  r' = Reader.mk (Reader.seen r ++ e) (Reader.rest r') (Reader.base r).

Lemma took_nil r : took r [] r.
Proof. split; [done|]. rewrite app_nil_r. by destruct r. Qed.

Lemma took_trans r1 e1 r2 e2 r3 : took r1 e1 r2 -> took r2 e2 r3 -> took r1 (e1 ++ e2) r3.
Proof.
  intros [R1 E1] [R2 E2]. split.
  - by rewrite R1, R2, app_assoc.
  - rewrite E2, E1. cbn. by rewrite app_assoc.
Qed.

Lemma bytes_inv n r e r' :
  ReaderOps.bytes n r = Ok (e, r') -> 0 <= n -> len e = n /\ took r e r'.
Proof.
  unfold ReaderOps.bytes. destruct r as [s l b]. rewrite remaining_mk. cbn [Reader.rest Reader.seen Reader.base].
  destruct (Z.ltb_spec (len l) n); [done|]. intros [= <- <-] Hn. split; [len_lia|].
  split; cbn; by rewrite ?take_drop.
Qed.

Lemma u8_inv r x r' : ReaderOps.u8 r = Ok (x, r') -> exists b, x = u8_of b /\ took r [b] r'.
Proof.
  intros (raw & r1 & H1 & [= <- <-])%dbind_inv.
  apply bytes_inv in H1 as [Hl Ht]; [|lia].
  destruct raw as [|b [|? ?]]; [done| |].
  - exists b. split; [|done]. pose proof (le_loop_spec 8 [b] [] eq_refl) as Hs. cbn [length le_val app] in Hs.
    change (8 * Z.of_nat 1) with 8. change (Z.of_nat 0) with 0 in Hs. rewrite Hs. lia.
  - len_lia.
Qed.

Lemma reads_took {A} (p : Dec A) e k Q r r' :
  reads p e k Q -> took r e r' -> Reader.rest r' = k -> exists a, p r = Ok (a, r') /\ Q a.
Proof.
  intros H [R1 R2] Ek. destruct r as [s l b]. cbn in *. rewrite R2, R1, Ek. apply H.
Qed.

(** Equations that run a decoder on a given reader. *)
Lemma u8_mk s x k b : ReaderOps.u8 (Reader.mk s (x :: k) b) = Ok (u8_of x, Reader.mk (s ++ [x]) k b).
Proof. destruct (reads_byte x k s b) as (a & H & <-). exact H. Qed.

Lemma dbind_u8 {A} (q : Z -> Dec A) s x k b :
  dbind ReaderOps.u8 q (Reader.mk s (x :: k) b) = q (u8_of x) (Reader.mk (s ++ [x]) k b).
Proof. unfold dbind. by rewrite u8_mk. Qed.

Lemma dbind_ask {A B} (f : Reader.t -> A) (q : A -> Dec B) r : dbind (dask f) q r = q (f r) r.
Proof. done. Qed.

Lemma dbind_ret {A B} (a : A) (q : A -> Dec B) r : dbind (dret a) q r = q a r.
Proof. done. Qed.

Lemma dbind_assoc {A B C} (m : Dec A) (f : A -> Dec B) (g : B -> Dec C) r :
  dbind (dbind m f) g r = dbind m (fun a => dbind (f a) g) r.
Proof. unfold dbind. by destruct (m r) as [[? ?]|]. Qed.

Lemma be_bytes_2 n : Writer.be_bytes 2 n = [byte_of (n / 256); byte_of n].
Proof. unfold Writer.be_bytes. cbn. by rewrite Z.shiftr_0_r, Z.shiftr_div_pow2 by lia. Qed.

(** Inverting the integer reads: the value is in range and its bytes are gone. *)
Lemma read_le_inv n r v r' :
  ReaderOps.read_le n r = Ok (v, r') ->
  exists raw, length raw = n /\ v = le_val raw /\ 0 <= v < 256 ^ Z.of_nat n /\ took r raw r'.
Proof.
  intros (raw & r1 & H1 & [= <- <-])%dbind_inv. apply bytes_inv in H1 as [Hl Ht]; [|lia].
  assert (length raw = n) as <- by (unfold len in Hl; lia).
  pose proof (le_loop_spec (8 * Z.of_nat (length raw)) raw [] eq_refl) as Hs. cbn [length le_val app] in Hs.
  exists raw. change (Z.of_nat 0) with 0 in Hs. rewrite Hs. split_and!; try done; apply le_val_range.
Qed.

Lemma read_be_inv n r v r' :
  ReaderOps.read_be n r = Ok (v, r') ->
  exists raw, length raw = n /\ v = be_val raw /\ 0 <= v < 256 ^ Z.of_nat n /\ took r raw r'.
Proof.
  intros (raw & r1 & H1 & [= <- <-])%dbind_inv. apply bytes_inv in H1 as [Hl Ht]; [|lia].
  assert (length raw = n) as <- by (unfold len in Hl; lia).
  pose proof (be_loop_spec (8 * Z.of_nat (length raw)) raw [] ltac:(cbn; lia)) as Hs. cbn [app] in Hs.
  exists raw. change (be_val []) with 0 in Hs. rewrite Hs. split_and!; try done; apply be_val_range.
Qed.

(** What is left after bytes were taken. *)
Lemma took_remaining r e r' : took r e r' -> Reader.remaining r = len e + Reader.remaining r'.
Proof.
  intros [H _]. destruct r as [? ? ?], r' as [? ? ?]. rewrite !remaining_mk. cbn in H. rewrite H. len_lia.
Qed.
