(* ===== verification/Fields.v ===== *)
(** * Fields, lists, padded text and length-patched blocks

    What the record codecs under [src/src/farland/proto/] have in common: the
    idioms [if (!r.empty())], [for (i < count)] and [for (x : xs)] as decoders
    and encoders, the integer widths of fields, UTF-16 in fixed and counted
    fields, blocks whose length is patched in afterwards, and the rules of the
    codec logic for all of these.  No component of the program is modelled
    here. *)

From S2P Require Import Prelude Buffers CodecLogic Text.
Open Scope Z_scope.

(** ** Idioms of the decoders and encoders *)

(** [if (!r.empty()) { FARLAND_TRY(field, read(r)); }] *)
Definition unless_empty {A} (d : A) (p : Dec A) : Dec A :=
  let* e := dask Reader.empty in
  if e then dret d else p.

(** A field that is present when a condition on earlier fields holds. *)
Definition dsome {A} (p : Dec A) : Dec (option A) :=
  let* a := p in dret (Some a).

(** [for (i = 0; i < count; ++i) { FARLAND_TRY(x, read(r)); xs.push_back(x); }] *)
Fixpoint dtimes {A} (n : nat) (p : Dec A) : Dec (list A) :=
  match n with
  | O => dret []
  | S n' =>
      let* x := p in
      let* xs := dtimes n' p in
      dret (x :: xs)
  end.

(** [for (const auto& x : xs) { write(w, x); }] *)
Fixpoint eeach {A} (f : A -> Enc unit) (l : list A) : Enc unit :=
  match l with
  | [] => eret tt
  | x :: l' => f x ;;; eeach f l'
  end.

(** [if (field) { write(w, *field); }] *)
Definition ewhen {A} (o : option A) (f : A -> Enc unit) : Enc unit :=
  match o with Some x => f x | None => eret tt end.

(** [static_cast<std::int16_t>] and [static_cast<std::int32_t>] of an unsigned value. *)
Definition signed (w v : Z) : Z := if v <? 2 ^ (w - 1) then v else v - 2 ^ w.

(** ** Widths of fields *)

Definition u8_ok (v : Z) : bool := (0 <=? v) && (v <? 256).
Definition u16_ok (v : Z) : bool := (0 <=? v) && (v <? 65536).
Definition u32_ok (v : Z) : bool := (0 <=? v) && (v <? 4294967296).
Definition u64_ok (v : Z) : bool := (0 <=? v) && (v <? 18446744073709551616).
Definition i16_ok (v : Z) : bool := (-32768 <=? v) && (v <? 32768).
Definition i32_ok (v : Z) : bool := (-2147483648 <=? v) && (v <? 2147483648).
Definition opt_ok {A} (f : A -> bool) (o : option A) : bool :=
  match o with Some v => f v | None => true end.

(** [widths] turns checks of widths into linear bounds. *)
Ltac widths := unfold u8_ok, u16_ok, u32_ok, u64_ok, i16_ok, i32_ok in *; bools.

Lemma signed_wrap w v : 0 < w -> - 2 ^ (w - 1) <= v < 2 ^ (w - 1) -> signed w (wrap w v) = v.
Proof.
  intros Hw Hv. unfold signed, wrap.
  assert (2 ^ w = 2 * 2 ^ (w - 1)) as E by (rewrite <- Z.pow_succ_r by lia; f_equal; lia).
  rewrite E. set (p := 2 ^ (w - 1)) in *. destruct (Z.lt_ge_cases v 0).
  - rewrite <- (Z.mod_unique v (2 * p) (-1) (v + 2 * p)) by lia. by destruct (Z.ltb_spec (v + 2 * p) p); lia.
  - rewrite Z.mod_small by lia. by destruct (Z.ltb_spec v p); lia.
Qed.

Lemma wrap_range w v : 0 <= w -> 0 <= wrap w v < 2 ^ w.
Proof. intros. apply Z.mod_pos_bound. apply Z.pow_pos_nonneg; lia. Qed.

Lemma wrap_small w v : 0 <= v < 2 ^ w -> wrap w v = v.
Proof. intros. by apply Z.mod_small. Qed.

Lemma u16_le v : u16_ok v = true -> 0 <= v < 65536.
Proof. intros. widths. lia. Qed.
Lemma u32_le v : u32_ok v = true -> 0 <= v < 4294967296.
Proof. intros. widths. lia. Qed.
Lemma u64_le v : u64_ok v = true -> 0 <= v < 18446744073709551616.
Proof. intros. widths. lia. Qed.
Lemma u8_le v : u8_ok v = true -> 0 <= v < 256.
Proof. intros. widths. lia. Qed.

(** ** Rules of the codec logic *)

Lemma reads_unless_empty {A} (d : A) p e k Q :
  e <> [] -> reads p e k Q -> reads (unless_empty d p) e k Q.
Proof.
  intros He H. apply reads_ask. intros s b. rewrite empty_mk, bool_decide_false; [done|].
  by intros [? _]%app_nil.
Qed.

Lemma reads_at_end {A} (d : A) p (Q : A -> Prop) : Q d -> reads (unless_empty d p) [] [] Q.
Proof. intros HQ. apply reads_ask. intros s b. rewrite empty_mk. by apply reads_ret. Qed.

Lemma reads_dsome {A} (p : Dec A) e k v : reads p e k (eq v) -> reads (dsome p) e k (eq (Some v)).
Proof. intros H. eapply reads_bind_nil; [exact H|]. intros ? <-. by apply reads_ret. Qed.

Lemma reads_times {A} (p : Dec A) (f : A -> list byte) (l : list A) n k :
  n = length l -> Forall (fun x => forall k, reads p (f x) k (eq x)) l ->
  reads (dtimes n p) (concat (f <$> l)) k (eq l).
Proof.
  intros -> H. induction H as [|x l Hx _ IH]; cbn [length dtimes fmap list_fmap concat].
  - by apply reads_ret.
  - eapply reads_bind; [apply Hx|]. intros ? <-.
    eapply reads_bind_nil; [exact IH|]. intros ? <-. by apply reads_ret.
Qed.

Lemma writes_each {A} (m : A -> Enc unit) (f : A -> list byte) (l : list A) :
  Forall (fun x => writes (m x) (f x)) l -> writes (eeach m l) (concat (f <$> l)).
Proof.
  induction 1 as [|x l Hx _ IH]; cbn [eeach fmap list_fmap concat]; [apply writes_ret|by apply writes_seq].
Qed.

Lemma len_each {A} (f : A -> list byte) (l : list A) n :
  Forall (fun x => len (f x) = n) l -> len (concat (f <$> l)) = n * len l.
Proof.
  induction 1 as [|x l Hx _ IH]; cbn [fmap list_fmap concat]; [len_lia|].
  rewrite len_app, len_cons, Hx. change (list_fmap A (list byte) f l) with (f <$> l). rewrite IH. lia.
Qed.

Lemma encodes_times {A} (m : A -> Enc unit) (p : Dec A) (l : list A) n c :
  c = length l -> Forall (fun x => encodes (m x) p x n) l ->
  encodes (eeach m l) (dtimes c p) l (n * len l).
Proof.
  intros -> H. induction H as [|x l (e & W & L & R) _ IH]; cbn [length dtimes eeach].
  - exists []. split_and!; [apply writes_ret|len_lia|]. intros k. by apply reads_ret.
  - destruct IH as (es & Ws & Ls & Rs). exists (e ++ es). split_and!.
    + by apply writes_seq.
    + len_lia.
    + intros k. eapply reads_bind; [apply R|]. intros ? <-.
      eapply reads_bind_nil; [apply Rs|]. intros ? <-. by apply reads_ret.
Qed.

(** Padding that the decoder skips. *)
Lemma encodes_pad e n : n = len e -> encodes (Writer.bytes e) (ReaderOps.skip n) tt n.
Proof.
  intros ->. exists e. split_and!; [apply writes_bytes|lia|]. intros k.
  eapply reads_weaken; [by apply reads_skip|]. by intros [] _.
Qed.

Lemma encodes_zeros n : 0 <= n -> encodes (Writer.zeros n) (ReaderOps.skip n) tt n.
Proof. intros Hn. apply encodes_pad. len_lia. Qed.

Lemma encodes_pad16 v : encodes (Writer.u16le v) (ReaderOps.skip 2) tt 2.
Proof. apply encodes_pad. len_lia. Qed.
Lemma encodes_pad32 v : encodes (Writer.u32le v) (ReaderOps.skip 4) tt 4.
Proof. apply encodes_pad. len_lia. Qed.
Lemma encodes_pad8 v : encodes (Writer.u8 v) (ReaderOps.skip 1) tt 1.
Proof. apply encodes_pad. len_lia. Qed.

Lemma encodes_pad_two v w : encodes (Writer.u16le v ;;; Writer.u16le w) (ReaderOps.skip 4) tt 4.
Proof.
  exists (Writer.le_bytes 2 v ++ Writer.le_bytes 2 w). split_and!; [repeat wstep|len_lia|]. intros k.
  eapply reads_weaken; [apply reads_skip; len_lia|]. by intros [] _.
Qed.

Lemma encodes_u64le v : 0 <= v < 18446744073709551616 -> encodes (Writer.u64le v) ReaderOps.u64le v 8.
Proof. intros H. eexists. split_and!; [apply writes_bytes|len_lia|]. intros k. apply (reads_read_le 8). cbn. lia. Qed.

(** A signed field, written with a cast to unsigned and read with one back. *)
Lemma encodes_i16 v : i16_ok v = true ->
  encodes (Writer.u16le (wrap 16 v)) (let* x := ReaderOps.u16le in dret (signed 16 x)) v 2.
Proof.
  intros H. widths. eapply encodes_last; [apply encodes_u16le, (wrap_range 16); lia|].
  intros k. apply reads_ret. symmetry. apply signed_wrap; lia.
Qed.

Lemma encodes_i32 v : i32_ok v = true ->
  encodes (Writer.u32le (wrap 32 v)) (let* x := ReaderOps.u32le in dret (signed 32 x)) v 4.
Proof.
  intros H. widths. eapply encodes_last; [apply encodes_u32le, (wrap_range 32); lia|].
  intros k. apply reads_ret. symmetry. apply signed_wrap; lia.
Qed.

Lemma encodes_ret_at_end {A} (d : A) p : encodes_end (eret tt) (unless_empty d p) d 0.
Proof. exists []. split_and!; [apply writes_ret|by cbn|by apply reads_at_end]. Qed.

(** [fields]: an encoder and a decoder that go through the same fields in the
    same order; leaves the side conditions on the values. *)
Ltac field :=
  first [ apply encodes_u8, u8_le; eassumption | apply encodes_u16le, u16_le; eassumption
        | apply encodes_u32le, u32_le; eassumption | apply encodes_u64le, u64_le; eassumption
        | apply encodes_u8; lia | apply encodes_u16le; lia | apply encodes_u32le; lia
        | apply encodes_i16; eassumption | apply encodes_i32; eassumption
        | apply encodes_pad16 | apply encodes_pad32 | apply encodes_pad8 | apply encodes_zeros; lia
        | apply encodes_bytes; lia | solve [eauto with codec] ].

Ltac fields :=
  repeat lazymatch goal with
  | |- encodes (ebind _ _) (dbind _ _) _ _ => eapply encodes_seq; [field|cbn beta]
  | |- encodes_end (ebind _ _) (dbind _ _) _ _ => eapply encodes_seq_end; [field|cbn beta]
  end.

(** ** Patching a length into what was written *)

Lemma patch_mk w a x d e :
  len x = len d -> Writer.patch (len w + len a) d (w ++ a ++ x ++ e) = Some (tt, w ++ a ++ d ++ e).
Proof.
  intros Hx. unfold Writer.patch. pose proof (len_nonneg w). pose proof (len_nonneg a).
  destruct (Z.leb_spec (len w + len a) (len (w ++ a ++ x ++ e))); [|len_lia].
  destruct (Z.leb_spec (len d) (len (w ++ a ++ x ++ e) - (len w + len a))); [|len_lia].
  cbn [andb]. do 2 f_equal. unfold Writer.overwrite.
  assert (length x = length d) as Ex by (unfold len in Hx; lia).
  replace (Z.to_nat (len w + len a)) with (length (w ++ a)) by (rewrite length_app; unfold len; lia).
  rewrite !app_assoc, <- (app_assoc (w ++ a)), take_app_length. rewrite <- Ex.
  by rewrite drop_app_add, drop_app_length.
Qed.

(** A block with a type and a patched length in front, as the GCC data blocks
    and the capability sets have. *)
Definition tagged (type : Z) (body : Enc unit) : Enc unit :=
  let! start := Writer.size in
  Writer.u16le type ;;;
  Writer.u16le 0 ;;;
  body ;;;
  let! size := Writer.size in
  eassert (size - start <=? 0xFFFF) ;;;
  Writer.patch_u16le (start + 2) (wrap 16 (size - start)).

Definition tagged_bytes (type : Z) (e : list byte) : list byte :=
  Writer.le_bytes 2 type ++ Writer.le_bytes 2 (4 + len e) ++ e.

Lemma len_tagged t e : len (tagged_bytes t e) = 4 + len e.
Proof. unfold tagged_bytes. len_lia. Qed.

Lemma writes_tagged t m e : writes m e -> 4 + len e <= 0xFFFF -> writes (tagged t m) (tagged_bytes t e).
Proof.
  intros Hm He w. unfold tagged, tagged_bytes. unfold ebind at 1, Writer.size at 1.
  unfold Writer.u16le, Writer.write_le, Writer.bytes. unfold ebind at 1 2. unfold ebind at 1. rewrite Hm.
  unfold ebind, Writer.size, eassert. rewrite <- !app_assoc.
  assert (len (w ++ Writer.le_bytes 2 t ++ Writer.le_bytes 2 0 ++ e) - len w = 4 + len e) as -> by len_lia.
  destruct (Z.leb_spec (4 + len e) 0xFFFF); [|lia]. pose proof (len_nonneg e).
  rewrite wrap_small by lia. unfold Writer.patch_u16le.
  replace (len w + 2) with (len w + len (Writer.le_bytes 2 t)) by len_lia. by rewrite patch_mk by len_lia.
Qed.

(** Running a decoder whose first step reads what is there. *)
Lemma dbind_reads {A B} (p : Dec A) (q : A -> Dec B) e k v s b :
  reads p e k (eq v) -> dbind p q (Reader.mk s (e ++ k) b) = q v (Reader.mk (s ++ e) k b).
Proof. intros H. destruct (H s b) as (a & Ha & <-). unfold dbind. by rewrite Ha. Qed.

(** ** UTF-16 text in fixed and counted fields *)

(** The text survives the conversion to UTF-16 and back, in at most [size] bytes. *)
Definition text_ok (size : Z) (t : list byte) : bool :=
  (len (Text.utf8_to_utf16le t) <=? size) && bool_decide (Text.utf16le_to_utf8 (Text.utf8_to_utf16le t) = t).

(** Conversion stops at a NUL unit. *)
Lemma utf16_loop_padded cs k : forall out,
  Forall (fun c => Text.scalar c = true) cs ->
  Text.utf16_loop (Text.utf16 cs ++ [byte_of 0; byte_of 0] ++ k) out = Text.utf16_loop (Text.utf16 cs) out.
Proof.
  induction cs as [|c cs IH]; intros out Hs; [done|].
  inversion_clear Hs as [|? ? Hc Hcs]. destruct (Text.scalar_range c Hc) as (Hr & Hh & Hl).
  rewrite Text.utf16_cons. unfold Text.append_code_point.
  destruct (Z.leb_spec 0x10000 c) as [Hbig|Hsmall].
  - destruct (Text.pair_units c ltac:(lia)) as (Hu & Hlow & Ru & Rl & E).
    unfold Text.append_utf16le. cbn [app]. rewrite !Text.utf16_pair by (by rewrite Text.unit_of_bytes).
    change (byte_of 0 :: byte_of 0 :: k) with ([byte_of 0; byte_of 0] ++ k). by rewrite IH.
  - unfold Text.append_utf16le. cbn [app]. destruct (Z.eqb_spec c 0) as [->|Hne]; [done|].
    rewrite !Text.utf16_single by (rewrite Text.unit_of_bytes by lia; done).
    change (byte_of 0 :: byte_of 0 :: k) with ([byte_of 0; byte_of 0] ++ k). by rewrite IH.
Qed.

Lemma utf16_padded t k :
  Text.utf16le_to_utf8 (Text.utf8_to_utf16le t ++ [byte_of 0; byte_of 0] ++ k)
  = Text.utf16le_to_utf8 (Text.utf8_to_utf16le t).
Proof.
  destruct (Text.utf8_loop_total t (length t) [] (le_n _)) as (cs & Hcs & E & _).
  unfold Text.utf8_to_utf16le. rewrite E. cbn [app]. by apply utf16_loop_padded.
Qed.

(** [write_fixed_utf16]: zero-padded, truncated so that a NUL remains. *)
Definition write_fixed_utf16 (text : list byte) (size : Z) : Enc unit :=
  let encoded := Text.utf8_to_utf16le text in
  let encoded := if size - 2 <? len encoded then take (Z.to_nat (size - 2)) encoded else encoded in
  Writer.bytes encoded ;;;
  Writer.zeros (size - len encoded).

Lemma zeros_two n : 2 <= n ->
  replicate (Z.to_nat n) Corelib.Init.Byte.x00 =
  [byte_of 0; byte_of 0] ++ replicate (Z.to_nat (n - 2)) Corelib.Init.Byte.x00.
Proof. intros. replace (Z.to_nat n) with (S (S (Z.to_nat (n - 2)))) by lia. done. Qed.

(** The contents of a fixed field that the text fits in. *)
Definition fixed_utf16 (t : list byte) (size : Z) : list byte :=
  let u := Text.utf8_to_utf16le t in
  u ++ [byte_of 0; byte_of 0] ++ replicate (Z.to_nat (size - len u - 2)) Corelib.Init.Byte.x00.

Lemma utf16_fixed t size : text_ok (size - 2) t = true -> Text.utf16le_to_utf8 (fixed_utf16 t size) = t.
Proof. unfold text_ok, fixed_utf16. intros H. bools. by rewrite utf16_padded. Qed.

Lemma len_fixed_utf16 t size : text_ok (size - 2) t = true -> len (fixed_utf16 t size) = size.
Proof. unfold text_ok, fixed_utf16. intros H. bools. len_lia. Qed.

Lemma encodes_fixed_utf16 t size : text_ok (size - 2) t = true ->
  encodes (write_fixed_utf16 t size) (ReaderOps.bytes size) (fixed_utf16 t size) size.
Proof.
  intros Hok. exists (fixed_utf16 t size). pose proof (len_fixed_utf16 t size Hok) as Hl. split_and!.
  - unfold text_ok in Hok. bools. unfold write_fixed_utf16, fixed_utf16.
    destruct (Z.ltb_spec (size - 2) (len (Text.utf8_to_utf16le t))); [lia|].
    apply writes_seq; [apply writes_bytes|]. rewrite <- zeros_two by lia. apply writes_zeros.
  - lia.
  - intros k. by apply reads_bytes.
Qed.

#[export] Hint Resolve encodes_fixed_utf16 : codec.

(** Bytes up to the first NUL, as the ASCII names are read. *)
Fixpoint until_zero (bytes : list byte) : list byte :=
  match bytes with
  | [] => []
  | b :: bytes' => if u8_of b =? 0 then [] else b :: until_zero bytes'
  end.

Definition no_zero (t : list byte) : bool := forallb (fun b => negb (u8_of b =? 0)) t.

Lemma until_zero_padded t k : no_zero t = true -> until_zero (t ++ byte_of 0 :: k) = t.
Proof.
  induction t as [|b t IH]; cbn [app until_zero no_zero forallb]; [done|]. intros [Hb Ht]%andb_prop.
  apply negb_true_iff in Hb. by rewrite Hb, IH.
Qed.

(** [off] and [on] take the branch of a guard that evaluates to [false] or [true]. *)
Ltac guarded :=
  first [reflexivity | done | by apply Z.ltb_ge; lia | by apply Z.ltb_lt; lia | by apply Z.eqb_neq; lia
        | by apply Z.eqb_eq; lia | apply orb_false_intro; guarded | apply andb_true_intro; split; guarded].
Ltac branch v :=
  let go c := (let E := fresh in assert (c = v) as E by guarded; rewrite E; clear E) in
  lazymatch goal with
  | |- reads (if ?c then _ else _) _ _ _ => go c
  | |- encodes _ (if ?c then _ else _) _ _ => go c
  | |- encodes_end _ (if ?c then _ else _) _ _ => go c
  end.
Ltac off := branch false.
Ltac on := branch true.

(** ** Optional fields *)

Definition when_bytes {A} (f : A -> list byte) (o : option A) : list byte :=
  match o with Some x => f x | None => [] end.

Lemma writes_when {A} (m : A -> Enc unit) f (o : option A) :
  (forall x, o = Some x -> writes (m x) (f x)) -> writes (ewhen o m) (when_bytes f o).
Proof. intros H. destruct o; [by apply H|apply writes_ret]. Qed.

Lemma reads_present {A} c (p : Dec A) f (o : option A) k :
  c = bool_decide (is_Some o) -> (forall x, o = Some x -> reads p (f x) k (eq x)) ->
  reads (if c then dsome p else dret None) (when_bytes f o) k (eq o).
Proof.
  intros -> H. destruct o as [x|]; cbn [when_bytes].
  - rewrite bool_decide_true by done. by apply reads_dsome, H.
  - rewrite bool_decide_false by by intros []. by apply reads_ret.
Qed.

Lemma opt_ok_some {A} (f : A -> bool) o x : opt_ok f o = true -> o = Some x -> f x = true.
Proof. by intros H ->. Qed.

(** ** What was read has the width of its field *)

Lemma u8_width r v r' : ReaderOps.u8 r = Ok (v, r') -> u8_ok v = true.
Proof. intros (b & -> & _)%u8_inv. pose proof (u8_of_range b). unfold u8_ok. apply andb_true_iff. lia. Qed.
Lemma u16_width r v r' : ReaderOps.u16le r = Ok (v, r') -> u16_ok v = true.
Proof. intros (raw & _ & _ & H & _)%read_le_inv. unfold u16_ok. apply andb_true_iff. lia. Qed.
Lemma u32_width r v r' : ReaderOps.u32le r = Ok (v, r') -> u32_ok v = true.
Proof. intros (raw & _ & _ & H & _)%read_le_inv. unfold u32_ok. apply andb_true_iff. lia. Qed.
Lemma u64_width r v r' : ReaderOps.u64le r = Ok (v, r') -> u64_ok v = true.
Proof. intros (raw & _ & _ & H & _)%read_le_inv. unfold u64_ok. apply andb_true_iff. lia. Qed.

Lemma signed16_ok v : u16_ok v = true -> i16_ok (signed 16 v) = true.
Proof.
  unfold u16_ok, i16_ok, signed. intros H. bools. apply andb_true_iff.
  change (2 ^ (16 - 1)) with 32768. change (2 ^ 16) with 65536. destruct (Z.ltb_spec v 32768); lia.
Qed.
Lemma signed32_ok v : u32_ok v = true -> i32_ok (signed 32 v) = true.
Proof.
  unfold u32_ok, i32_ok, signed. intros H. bools. apply andb_true_iff.
  change (2 ^ (32 - 1)) with 2147483648. change (2 ^ 32) with 4294967296. destruct (Z.ltb_spec v 2147483648); lia.
Qed.

(** [run H]: one step of a successful run of a decoder, keeping the width of
    what a primitive read. *)
Ltac run1 H :=
  cbv beta in H;
  lazymatch type of H with
  | dbind (dask _) _ _ = _ => apply dask_inv in H; cbv beta in H
  | dbind _ _ _ = Ok _ =>
      let a := fresh "v" in let r := fresh "r" in let H1 := fresh "R" in
      apply dbind_inv in H as (a & r & H1 & H);
      first [apply u8_width in H1 | apply u16_width in H1 | apply u32_width in H1 | apply u64_width in H1 | idtac]
  | dret _ _ = Ok _ => injection H as ? ?; subst
  | (if ?c then _ else _) _ = Ok _ => let E := fresh "E" in destruct c eqn:E; [try done|try done]
  | dfail _ _ _ _ = Ok _ => done
  end.
Ltac run H := repeat run1 H.

Lemma dtimes_inv {A} (p : Dec A) (P : A -> Prop) n : forall r l r',
  (forall r x r', p r = Ok (x, r') -> P x) ->
  dtimes n p r = Ok (l, r') -> length l = n /\ Forall P l.
Proof.
  induction n as [|n IH]; intros r l r' HP H; cbn [dtimes] in H.
  - injection H as <- <-. done.
  - apply dbind_inv in H as (x & r1 & H1 & H). apply dbind_inv in H as (xs & r2 & H2 & [= <- <-]).
    destruct (IH _ _ _ HP H2) as [<- HF]. split; [done|]. constructor; [by eapply HP|done].
Qed.

(** An encoder that patches what it wrote at [start + off] once the size is
    known. *)
Lemma writes_patched (m : Z -> Enc unit) (body : Enc unit) (c : Z -> bool) (f : Z -> list byte) off a x d e :
  (forall start w, m start w =
     (body ;;; let! size := Writer.size in
      eassert (c (size - start)) ;;; Writer.patch (start + off) (f (size - start))) w) ->
  writes body (a ++ x ++ e) -> off = len a -> c (len (a ++ x ++ e)) = true ->
  f (len (a ++ x ++ e)) = d -> len x = len d ->
  writes (let! start := Writer.size in m start) (a ++ d ++ e).
Proof.
  intros Hm Hb -> Hc Hf Hx w. unfold ebind at 1, Writer.size at 1. rewrite Hm. unfold ebind. rewrite Hb.
  unfold Writer.size, eassert.
  replace (len (w ++ a ++ x ++ e) - len w) with (len (a ++ x ++ e)) by len_lia.
  rewrite Hc, Hf. by apply patch_mk.
Qed.

Lemma expect_end_inv w r u r' : ReaderOps.expect_end w r = Ok (u, r') -> r' = r /\ Reader.rest r = [].
Proof.
  unfold ReaderOps.expect_end. destruct r as [s e b]. rewrite empty_mk.
  case_bool_decide as E; [|done]. by intros [= _ <-].
Qed.

(** The side condition of a conjunction of width checks, all of them known. *)
Ltac known := rewrite ?andb_true_iff; repeat split; eauto.

(** ** Structures in a reader of their own

    [holds m p v n]: the encoder [m] writes at most [n] bytes, and the decoder
    [p] run on exactly these bytes returns [v]; it need not consume them all. *)

Definition decodes {A} (p : Dec A) (e : list byte) (v : A) : Prop :=
  forall b, exists r, p (Reader.make e b) = Ok (v, r).

Definition holds {A} (m : Enc unit) (p : Dec A) (v : A) (n : Z) : Prop :=
  exists e, writes m e /\ len e <= n /\ decodes p e v.

Lemma reads_decodes {A} (p : Dec A) e k v : reads p e k (eq v) -> decodes p (e ++ k) v.
Proof. intros H b. destruct (H [] b) as (a & Ha & <-). eauto. Qed.

Lemma holds_end {A} m (p : Dec A) v n : encodes_end m p v n -> holds m p v n.
Proof.
  intros (e & W & L & R). exists e. split_and!; [done|done|].
  rewrite <- (app_nil_r e). by apply reads_decodes.
Qed.

(** Trailing padding is not read. *)
Lemma holds_padded {A} m1 m2 (p : Dec A) v n n2 e2 :
  encodes m1 p v n -> writes m2 e2 -> len e2 <= n2 -> holds (m1 ;;; m2) p v (n + n2).
Proof.
  intros (e & W & L & R) W2 L2. exists (e ++ e2). split_and!; [by apply writes_seq|len_lia|].
  apply reads_decodes, R.
Qed.

Lemma reads_within_decodes {A} (p : Dec A) e b k v : decodes p e v -> reads (within (Reader.make e b) p) [] k (eq v).
Proof.
  intros H s b'. destruct (H b) as [r Hr]. exists v. split; [|done].
  unfold within. by rewrite Hr, app_nil_r.
Qed.

Lemma within_inv {A} block (p : Dec A) r v r' : within block p r = Ok (v, r') -> r' = r /\ exists r1, p block = Ok (v, r1).
Proof. unfold within. destruct (p block) as [[x r1]|]; [|done]. intros [= <- <-]. eauto. Qed.

(** Encoders that return a value. *)
Definition yields {A} (m : Enc A) (v : A) (e : list byte) : Prop := forall w, m w = Some (v, w ++ e).

Lemma yields_ret {A} (v : A) : yields (eret v) v [].
Proof. intros w. by rewrite app_nil_r. Qed.

Lemma yields_bind {A B} (m : Enc A) (f : A -> Enc B) a b e1 e2 :
  yields m a e1 -> yields (f a) b e2 -> yields (ebind m f) b (e1 ++ e2).
Proof. intros H1 H2 w. unfold ebind. by rewrite H1, H2, app_assoc. Qed.

Lemma yields_seq {A} m (f : Enc A) a e1 e2 : writes m e1 -> yields f a e2 -> yields (m ;;; f) a (e1 ++ e2).
Proof. intros H1 H2. eapply yields_bind; [exact H1|exact H2]. Qed.

(** ** Optional fields at the end of a structure *)

Lemma encodes_default_u8 d v : u8_ok v = true -> encodes (Writer.u8 v) (unless_empty d ReaderOps.u8) v 1.
Proof.
  intros H. widths. exists [byte_of v]. split_and!; [apply writes_bytes|len_lia|].
  intros k. apply reads_unless_empty; [done|]. apply reads_u8. lia.
Qed.

Lemma encodes_end_opt {A} (m : A -> Enc unit) (p : Dec A) (f : A -> list byte) (o : option A) n :
  0 <= n -> (forall x, o = Some x -> writes (m x) (f x) /\ 1 <= len (f x) <= n /\ reads p (f x) [] (eq x)) ->
  encodes_end (ewhen o m) (unless_empty None (dsome p)) o n.
Proof.
  intros Hn H. destruct o as [x|].
  - destruct (H x eq_refl) as (W & L & R). exists (f x). split_and!; [done|lia|].
    apply reads_unless_empty; [intros E; rewrite E in L; len_lia|]. by apply reads_dsome.
  - exists []. split_and!; [apply writes_ret|len_lia|by apply reads_at_end].
Qed.

Lemma encodes_end_opt16 o : opt_ok u16_ok o = true ->
  encodes_end (ewhen o Writer.u16le) (unless_empty None (dsome ReaderOps.u16le)) o 2.
Proof.
  intros H. apply (encodes_end_opt _ _ (Writer.le_bytes 2)); [done|]. intros x ->. cbn [opt_ok] in H. widths.
  split_and!; [apply writes_bytes|len_lia..|]. apply reads_u16le. lia.
Qed.

Lemma encodes_end_opt32 o : opt_ok u32_ok o = true ->
  encodes_end (ewhen o Writer.u32le) (unless_empty None (dsome ReaderOps.u32le)) o 4.
Proof.
  intros H. apply (encodes_end_opt _ _ (Writer.le_bytes 4)); [done|]. intros x ->. cbn [opt_ok] in H. widths.
  split_and!; [apply writes_bytes|len_lia..|]. apply reads_u32le. lia.
Qed.
#[export] Hint Resolve encodes_default_u8 : codec.

(** The last field: what is left of the decoder builds the record. *)
Ltac lastfield :=
  first [eapply encodes_last; [field|cbn beta; intros ?; apply reads_ret]
        |eapply encodes_last_end; [solve [eauto using encodes_end_opt16, encodes_end_opt32 | apply encodes_encodes_end; field]
                                  |cbn beta; apply reads_ret]].

(** ** Structures with padding behind the last field *)

Definition padded {A} (m : Enc unit) (p : Dec A) (v : A) (n : Z) : Prop :=
  exists e pad, writes m (e ++ pad) /\ len (e ++ pad) <= n /\ forall k, reads p e k (eq v).

Lemma padded_seq {A B} m1 m2 (p : Dec A) (q : A -> Dec B) a b n1 n2 :
  encodes m1 p a n1 -> padded m2 (q a) b n2 -> padded (m1 ;;; m2) (dbind p q) b (n1 + n2).
Proof.
  intros (e1 & W1 & L1 & R1) (e2 & pad & W2 & L2 & R2). exists (e1 ++ e2), pad. rewrite <- app_assoc. split_and!.
  - by apply writes_seq.
  - len_lia.
  - intros k. eapply reads_bind; [apply R1|]. by intros ? <-.
Qed.

Lemma padded_ret {A} m (b b' : A) pad : writes m pad -> b' = b -> padded m (dret b') b (len pad).
Proof.
  intros W ->. exists [], pad. split_and!; [done|cbn; lia|]. intros k. by apply reads_ret.
Qed.

Lemma padded_le {A} m (p : Dec A) v n n' : padded m p v n -> n <= n' -> padded m p v n'.
Proof. intros (e & pad & W & L & R) ?. exists e, pad. split_and!; [done|lia|done]. Qed.

Lemma holds_of_padded {A} m (p : Dec A) v n : padded m p v n -> holds m p v n.
Proof.
  intros (e & pad & W & L & R). exists (e ++ pad). split_and!; [done|done|]. apply reads_decodes, R.
Qed.

Lemma holds_of_encodes {A} m (p : Dec A) v n : encodes m p v n -> holds m p v n.
Proof. intros H. by apply holds_end, encodes_encodes_end. Qed.

Lemma holds_le {A} m (p : Dec A) v n n' : holds m p v n -> n <= n' -> holds m p v n'.
Proof. intros (e & W & L & R) ?. exists e. split_and!; [done|lia|done]. Qed.

(** Octets written one by one and read as one array. *)
Lemma encodes_octets (l : list Z) n :
  n = len l -> encodes (eeach Writer.u8 l) (ReaderOps.bytes n) (byte_of <$> l) n.
Proof.
  intros ->. exists (byte_of <$> l). split_and!.
  - replace (byte_of <$> l) with (concat ((fun v => [byte_of v]) <$> l)).
    + apply writes_each, List.Forall_forall. intros x _. apply writes_bytes.
    + induction l as [|x l IH]; [done|]. cbn. by f_equal.
  - unfold len. rewrite length_fmap. lia.
  - intros k. apply reads_bytes. unfold len. by rewrite length_fmap.
Qed.

Lemma octets_back (l : list Z) : forallb u8_ok l = true -> u8_of <$> (byte_of <$> l) = l.
Proof.
  intros H. induction l as [|x l IH]; [done|]. cbn [forallb] in H. apply andb_prop in H as [Hx Hl].
  cbn [fmap list_fmap]. rewrite u8_of_byte_of_small by (by apply u8_le). f_equal. by apply IH.
Qed.

Ltac pfields :=
  repeat lazymatch goal with
  | |- padded (ebind _ _) (dbind _ _) _ _ => eapply padded_seq; [field|cbn beta]
  end.

(** A query of the reader's position between the fields. *)
Lemma encodes_query {A B} m (f : Reader.t -> A) (q : A -> Dec B) b n :
  (forall x, encodes m (q x) b n) -> encodes m (dbind (dask f) q) b n.
Proof.
  intros H. destruct (H (f (Reader.make [] 0))) as (e & W & L & _). exists e. split_and!; [done|done|].
  intros k. apply reads_ask. intros s b'. destruct (H (f (Reader.mk s (e ++ k) b'))) as (e' & W' & _ & R).
  by rewrite <- (writes_det _ _ _ W W') in R.
Qed.

Lemma encodes_dsome {A} m (p : Dec A) v n : encodes m p v n -> encodes m (dsome p) (Some v) n.
Proof. intros (e & W & L & R). exists e. split_and!; [done|done|]. intros k. by apply reads_dsome. Qed.
