(* ===== verification/Ber.v ===== *)
(** * ASN.1 BER and DER

    Models [src/src/farland/base/ber.hpp] and [ber.cpp]: tags, definite
    lengths, TLVs, BOOLEAN, INTEGER and OCTET STRING, with the encoder that
    always produces DER.  The theorems are the round trips through the
    encoder, for every tag number, length and integer the format admits, and
    the converse for DER lengths: what the strict decoder accepts is what the
    encoder writes. *)

From S2P Require Import Prelude Buffers CodecLogic.
Open Scope Z_scope.

Module Ber.

Inductive Rules := ber | der.

Inductive TagClass := universal | application_class | context_class | private_use.

#[export] Instance Rules_eq_dec : EqDecision Rules.
Proof. solve_decision. Defined.
#[export] Instance TagClass_eq_dec : EqDecision TagClass.
Proof. solve_decision. Defined.

Definition class_value (c : TagClass) : Z :=
  match c with universal => 0 | application_class => 1 | context_class => 2 | private_use => 3 end.

(** [static_cast<TagClass>] of a two-bit number. *)
Definition class_of (z : Z) : TagClass :=
  if z =? 0 then universal else if z =? 1 then application_class
  else if z =? 2 then context_class else private_use.

Record Tag := mkTag { cls : TagClass; constructed : bool; number : Z }.

#[export] Instance Tag_eq_dec : EqDecision Tag.
Proof. solve_decision. Defined.

Definition tag_boolean := mkTag universal false 1.
Definition tag_integer := mkTag universal false 2.
Definition tag_octet_string := mkTag universal false 4.
Definition tag_enumerated := mkTag universal false 10.
Definition tag_sequence := mkTag universal true 16.

Definition application (n : Z) (c : bool) : Tag := mkTag application_class c n.
Definition context (n : Z) (c : bool) : Tag := mkTag context_class c n.

Definition max_tag_number : Z := 2 ^ 21 - 1.
Definition max_length_octets : Z := 4.
Definition class_shift : Z := 6.
Definition constructed_bit : Z := 0x20.
Definition low_tag_mask : Z := 0x1F.
Definition long_form_bit : Z := 0x80.

Record Tlv := mkTlv { tag : Tag; value : list byte; value_offset : Z }.

Definition tlv_reader (t : Tlv) : Reader.t := Reader.make (value t) (value_offset t).

(** ** Decoding *)

Definition redundant_leading_octet (first second : byte) : bool :=
  let lead := u8_of first in
  let next_negative := has_bits (u8_of second) 0x80 in
  ((lead =? 0x00) && negb next_negative) || ((lead =? 0xFF) && next_negative).

Fixpoint strip_redundant (digits : list byte) : list byte :=
  match digits with
  | a :: ((b :: _) as digits') =>
      if redundant_leading_octet a b then strip_redundant digits' else digits
  | _ => digits
  end.

Definition integer_digits (tlv : Tlv) (rules : Rules) : Result (list byte) :=
  match value tlv with
  | [] => fail invalid_length "INTEGER has no content octets" (value_offset tlv)
  | _ =>
      let digits := strip_redundant (value tlv) in
      if bool_decide (rules = der) && negb (len digits =? len (value tlv))
      then fail invalid_value "DER INTEGER is not minimally encoded" (value_offset tlv)
      else Ok digits
  end.

(** The high-tag-number loop; [left] is [3 - i]. *)
Fixpoint tag_loop (start : Z) (left : nat) (i number : Z) : Dec Z :=
  match left with
  | O => dfail limit_exceeded "tag number too large" start
  | S left' =>
      let* octet := ReaderOps.u8 in
      if (i =? 0) && (octet =? long_form_bit)
      then dfail invalid_value "tag number has a leading zero octet" start
      else
        let number := Z.lor (Z.shiftl number 7) (Z.land octet 0x7F) in
        if Z.land octet long_form_bit =? 0 then dret number
        else tag_loop start left' (i + 1) number
  end.

Definition read_tag (rules : Rules) : Dec Tag :=
  let* start := dask Reader.offset in
  let* first := ReaderOps.u8 in
  let t := mkTag (class_of (Z.shiftr first class_shift)) (has_bits first constructed_bit)
                 (Z.land first low_tag_mask) in
  if negb (number t =? low_tag_mask) then dret t
  else
    let* n := tag_loop start 3 0 0 in
    if n <? low_tag_mask
    then dfail invalid_value "tag number below 31 in high-tag-number form" start
    else dret (mkTag (cls t) (constructed t) n).

Fixpoint length_loop (count : nat) (length : Z) : Dec Z :=
  match count with
  | O => dret length
  | S count' =>
      let* octet := ReaderOps.u8 in
      length_loop count' (Z.lor (Z.shiftl length 8) octet)
  end.

Definition read_length (rules : Rules) : Dec Z :=
  let* start := dask Reader.offset in
  let* first := ReaderOps.u8 in
  if Z.land first long_form_bit =? 0 then dret first
  else
    let count := Z.land first 0x7F in
    if count =? 0 then dfail unsupported "indefinite length" start
    else if max_length_octets <? count
    then dfail limit_exceeded "length uses too many octets" start
    else
      let* length := length_loop (Z.to_nat count) 0 in
      if bool_decide (rules = der) && (length <? long_form_bit)
      then dfail invalid_length "DER length below 128 not in short form" start
      else if bool_decide (rules = der) && (Z.shiftr length (8 * (count - 1)) =? 0)
      then dfail invalid_length "DER length has a leading zero octet" start
      else dret length.

Definition read_tlv (rules : Rules) : Dec Tlv :=
  let* t := read_tag rules in
  let* length := read_length rules in
  let* off := dask Reader.offset in
  let* v := ReaderOps.bytes length in
  dret (mkTlv t v off).

Definition expect_tlv (expected : Tag) (rules : Rules) : Dec Tlv :=
  let* start := dask Reader.offset in
  let* tlv := read_tlv rules in
  if bool_decide (tag tlv = expected) then dret tlv
  else dfail invalid_value "unexpected tag" start.

Definition peek_tag (rules : Rules) : Dec Tag := dpeek (read_tag rules).

Definition decode_boolean (tlv : Tlv) (rules : Rules) : Result bool :=
  match value tlv with
  | [b] =>
      let v := u8_of b in
      if bool_decide (rules = der) && negb (v =? 0x00) && negb (v =? 0xFF)
      then fail invalid_value "DER BOOLEAN must be 0x00 or 0xFF" (value_offset tlv)
      else Ok (negb (v =? 0))
  | _ => fail invalid_length "BOOLEAN must have one content octet" (value_offset tlv)
  end.

(** [digits[0]] of a non-empty span. *)
Definition first_octet (digits : list byte) : Z :=
  match digits with b :: _ => u8_of b | [] => 0 end.

(** [static_cast<std::int64_t>] of a 64-bit pattern. *)
Definition to_int64 (bits : Z) : Z := if bits <? 2 ^ 63 then bits else bits - 2 ^ 64.

Definition decode_integer (tlv : Tlv) (rules : Rules) : Result Z :=
  let? digits := integer_digits tlv rules in
  if 8 <? len digits
  then fail limit_exceeded "INTEGER does not fit in 64 bits" (value_offset tlv)
  else
    let negative := has_bits (first_octet digits) 0x80 in
    let bits := if negative then 2 ^ 64 - 1 else 0 in
    Ok (to_int64 (ReaderOps.be_loop 64 digits bits)).

Definition decode_unsigned (tlv : Tlv) (rules : Rules) : Result Z :=
  let? digits := integer_digits tlv rules in
  if has_bits (first_octet digits) 0x80
  then fail invalid_value "negative INTEGER where a non-negative one is required" (value_offset tlv)
  else
    let digits := if (1 <? len digits) && (first_octet digits =? 0) then drop 1 digits else digits in
    if 8 <? len digits
    then fail limit_exceeded "INTEGER does not fit in 64 bits" (value_offset tlv)
    else Ok (ReaderOps.be_loop 64 digits 0).

(** The loop of [decode_raw_unsigned] that drops leading zero octets. *)
Fixpoint strip_zeros (digits : list byte) : list byte :=
  match digits with
  | a :: ((_ :: _) as digits') => if u8_of a =? 0 then strip_zeros digits' else digits
  | _ => digits
  end.

Definition decode_raw_unsigned (tlv : Tlv) : Result Z :=
  match value tlv with
  | [] => fail invalid_length "INTEGER has no content octets" (value_offset tlv)
  | _ =>
      let digits := strip_zeros (value tlv) in
      if 8 <? len digits
      then fail limit_exceeded "INTEGER does not fit in 64 bits" (value_offset tlv)
      else Ok (ReaderOps.be_loop 64 digits 0)
  end.

Definition read_boolean (rules : Rules) (t : Tag) : Dec bool :=
  let* tlv := expect_tlv t rules in dlift (decode_boolean tlv rules).
Definition read_integer (rules : Rules) (t : Tag) : Dec Z :=
  let* tlv := expect_tlv t rules in dlift (decode_integer tlv rules).
Definition read_unsigned (rules : Rules) (t : Tag) : Dec Z :=
  let* tlv := expect_tlv t rules in dlift (decode_unsigned tlv rules).
Definition read_octet_string (rules : Rules) (t : Tag) : Dec (list byte) :=
  let* tlv := expect_tlv t rules in dret (value tlv).
Definition read_constructed (t : Tag) (rules : Rules) : Dec Reader.t :=
  let* tlv := expect_tlv t rules in dret (tlv_reader tlv).

(** ** Encoding *)

Fixpoint tag_groups (shifts : list Z) (started : bool) (n : Z) : Enc unit :=
  match shifts with
  | [] => eret tt
  | shift :: shifts' =>
      let group := Z.land (Z.shiftr n shift) 0x7F in
      if negb started && (group =? 0) && negb (shift =? 0) then tag_groups shifts' started n
      else Writer.u8 (Z.lor group (if negb (shift =? 0) then long_form_bit else 0)) ;;;
           tag_groups shifts' true n
  end.

Definition write_tag (t : Tag) : Enc unit :=
  let leading := Z.lor (Z.shiftl (class_value (cls t)) class_shift)
                       (if constructed t then constructed_bit else 0) in
  if number t <? low_tag_mask then Writer.u8 (Z.lor leading (number t))
  else
    eassert (number t <=? max_tag_number) ;;;
    Writer.u8 (Z.lor leading low_tag_mask) ;;;
    tag_groups [14; 7; 0] false (number t).

(** The loop that counts the octets of a [std::size_t]: at most eight. *)
Fixpoint count_octets (fuel : nat) (rest : Z) : Z :=
  match fuel with
  | O => 0
  | S fuel' => if rest =? 0 then 0 else 1 + count_octets fuel' (Z.shiftr rest 8)
  end.

Definition write_length (length : Z) : Enc unit :=
  if length <? long_form_bit then Writer.u8 length
  else
    let count := count_octets 8 length in
    eassert (count <=? max_length_octets) ;;;
    Writer.u8 (Z.lor long_form_bit count) ;;;
    Writer.write_be (Z.to_nat count) length.

Definition write_tlv (t : Tag) (v : list byte) : Enc unit :=
  write_tag t ;;; write_length (len v) ;;; Writer.bytes v.

Definition write_boolean (v : bool) (t : Tag) : Enc unit :=
  write_tlv t [if v then byte_of 0xFF else byte_of 0x00].

(** [bits] is [static_cast<std::uint64_t>(value)]. *)
Definition write_integer (v : Z) (t : Tag) : Enc unit :=
  write_tlv t (strip_redundant (Writer.be_bytes 8 (wrap 64 v))).

Definition write_unsigned (v : Z) (t : Tag) : Enc unit :=
  write_tlv t (strip_redundant (byte_of 0 :: Writer.be_bytes 8 v)).

Definition write_octet_string (v : list byte) (t : Tag) : Enc unit := write_tlv t v.

Definition write_constructed (t : Tag) (body : Enc unit) : Enc unit :=
  eassert (constructed t) ;;;
  let! contents := elocal body in
  write_tlv t contents.

(** ** Tags *)

Definition tag_ok (t : Tag) : Prop := 0 <= number t <= max_tag_number.

(** Seven-bit groups with and without the continuation bit. *)
Lemma group_continued g :
  0 <= g < 128 ->
  Z.lor g long_form_bit = 128 + g /\ Z.land (128 + g) 0x7F = g /\
  Z.land (128 + g) long_form_bit <> 0.
Proof.
  intros Hg.
  pose proof (Zupto_forall 128 (fun g => (Z.lor g long_form_bit =? 128 + g) &&
    (Z.land (128 + g) 0x7F =? g) && negb (Z.land (128 + g) long_form_bit =? 0))
    ltac:(vm_compute; done) g Hg) as H. cbn beta in H.
  rewrite !andb_true_iff, negb_true_iff, !Z.eqb_eq, Z.eqb_neq in H. tauto.
Qed.

Lemma group_last g :
  0 <= g < 128 ->
  Z.lor g 0 = g /\ Z.land g 0x7F = g /\ Z.land g long_form_bit = 0.
Proof.
  intros Hg.
  pose proof (Zupto_forall 128 (fun g => (Z.lor g 0 =? g) &&
    (Z.land g 0x7F =? g) && (Z.land g long_form_bit =? 0)) ltac:(vm_compute; done) g Hg) as H.
  cbn beta in H. rewrite !andb_true_iff, !Z.eqb_eq in H. tauto.
Qed.

Lemma tag_loop_continued start left i n g e k Q :
  0 <= g < 128 -> (i = 0 -> g <> 0) ->
  reads (tag_loop start left (i + 1) (n * 128 + g)) e k Q ->
  reads (tag_loop start (S left) i n) ([byte_of (Z.lor g long_form_bit)] ++ e) k Q.
Proof.
  intros Hg Hi Hrec. destruct (group_continued g Hg) as (H1 & H2 & H3).
  cbn [tag_loop]. rewrite H1. rstep.
  assert ((i =? 0) && (128 + g =? long_form_bit) = false) as ->
    by (unfold long_form_bit; destruct (Z.eqb_spec i 0); [|done]; apply Z.eqb_neq; lia).
  rewrite (proj2 (Z.eqb_neq _ _) H3), H2. by rewrite lor_disjoint by lia.
Qed.

Lemma tag_loop_last start left i n g k :
  0 <= g < 128 ->
  reads (tag_loop start (S left) i n) [byte_of (Z.lor g 0)] k (eq (n * 128 + g)).
Proof.
  intros Hg. destruct (group_last g Hg) as (H1 & H2 & H3).
  cbn [tag_loop]. rewrite H1. rstep.
  assert ((i =? 0) && (g =? long_form_bit) = false) as ->
    by (unfold long_form_bit; rewrite andb_false_iff; right; apply Z.eqb_neq; lia).
  rewrite H3, Z.eqb_refl, H2, lor_disjoint by lia. by apply reads_ret.
Qed.

(** The bytes [tag_groups] writes for a high tag number, and how they read. *)
Lemma tag_groups_reads n start :
  31 <= n <= max_tag_number ->
  exists e, writes (tag_groups [14; 7; 0] false n) e /\ len e <= 3 /\
            forall k, reads (tag_loop start 3 0 0) e k (eq n).
Proof.
  unfold max_tag_number. intros Hn. cbn [tag_groups].
  rewrite !(land_low _ 0x7F 7), !Z.shiftr_div_pow2, Z.pow_0_r, Z.div_1_r by done.
  change (2 ^ 14) with 16384. change (2 ^ 7) with 128.
  set (g2 := (n / 16384) mod 128). set (g1 := (n / 128) mod 128). set (g0 := n mod 128).
  assert (0 <= g2 < 128 /\ 0 <= g1 < 128 /\ 0 <= g0 < 128 /\ n = (g2 * 128 + g1) * 128 + g0)
    as (? & ? & ? & E) by (subst g0 g1 g2; lia). clearbody g0 g1 g2.
  change (14 =? 0) with false. change (7 =? 0) with false. change (0 =? 0) with true.
  cbn [negb]. rewrite !andb_true_r, !andb_false_r. cbn [negb andb].
  destruct (Z.eqb_spec g2 0) as [E2|]; [destruct (Z.eqb_spec g1 0) as [E1|]|].
  - eexists. split_and!.
    { eapply writes_seq; [apply writes_bytes|apply writes_ret]. }
    { len_lia. }
    intros k. rewrite app_nil_r.
    eapply reads_weaken; [by apply tag_loop_last|]. lia.
  - eexists. split_and!.
    { eapply writes_seq; [apply writes_bytes|]. eapply writes_seq; [apply writes_bytes|apply writes_ret]. }
    { len_lia. }
    intros k. rewrite app_nil_r. apply tag_loop_continued; [done..|].
    eapply reads_weaken; [by apply tag_loop_last|]. lia.
  - eexists. split_and!.
    { do 3 (eapply writes_seq; [apply writes_bytes|]). apply writes_ret. }
    { len_lia. }
    intros k. rewrite app_nil_r. apply tag_loop_continued; [done..|].
    apply tag_loop_continued; [done|lia|].
    eapply reads_weaken; [by apply tag_loop_last|]. lia.
Qed.

(** The identifier octet: class, constructed bit and low tag number. *)
Definition leading (t : Tag) : Z :=
  Z.lor (Z.shiftl (class_value (cls t)) class_shift) (if constructed t then constructed_bit else 0).

Lemma leading_low t n :
  0 <= n < 32 ->
  let x := Z.lor (leading t) n in
  0 <= x < 256 /\ class_of (Z.shiftr x class_shift) = cls t /\
  has_bits x constructed_bit = constructed t /\ Z.land x low_tag_mask = n.
Proof.
  intros Hn x. destruct t as [c b n0].
  pose proof (Zupto_forall 32 (fun n => let x := Z.lor (leading (mkTag c b n0)) n in
    (0 <=? x) && (x <? 256) && bool_decide (class_of (Z.shiftr x class_shift) = c) &&
    bool_decide (has_bits x constructed_bit = b) && (Z.land x low_tag_mask =? n))
    ltac:(destruct c, b; vm_compute; done) n Hn) as H. cbn zeta beta in H.
  rewrite !andb_true_iff, !bool_decide_eq_true, Z.leb_le, Z.ltb_lt, Z.eqb_eq in H.
  cbn. tauto.
Qed.

Lemma ber_encodes_tag t rules : tag_ok t -> encodes (write_tag t) (read_tag rules) t 4.
Proof.
  intros Ht. unfold tag_ok in Ht. apply encodes_ask. unfold write_tag. fold (leading t).
  destruct (Z.ltb_spec (number t) low_tag_mask) as [Hlow|Hhigh]; unfold low_tag_mask in *.
  - destruct (leading_low t (number t)) as (? & E1 & E2 & E3); [lia|].
    eexists. split_and!; [apply writes_bytes|len_lia|]. intros x k.
    rstep. unfold low_tag_mask in *. cbn [number]. rewrite E1, E2, E3.
    destruct (Z.eqb_spec (number t) 31); [lia|]. apply reads_ret. by destruct t.
  - destruct (leading_low t 31) as (? & E1 & E2 & E3); [lia|].
    destruct (tag_groups_reads (number t) 0) as (e & W & L & _); [lia|].
    exists ([byte_of (Z.lor (leading t) 31)] ++ e). split_and!.
    { apply writes_assert; [lia|]. by eapply writes_seq; [apply writes_bytes|]. }
    { len_lia. }
    intros x k. rstep. unfold low_tag_mask in *. cbn [number]. rewrite E3. cbn [Z.eqb Pos.eqb negb].
    destruct (tag_groups_reads (number t) x) as (e' & W' & _ & R); [lia|].
    assert (e' = e) as -> by (specialize (W []); specialize (W' []); cbn in *; congruence).
    eapply reads_bind_nil; [apply R|]. intros ? <-. cbn [cls constructed].
    destruct (Z.ltb_spec (number t) 31); [lia|]. apply reads_ret. rewrite E1, E2. by destruct t.
Qed.

(** ** Lengths *)

Lemma count_octets_spec fuel n :
  0 <= n < 256 ^ Z.of_nat fuel ->
  let c := count_octets fuel n in
  0 <= c <= Z.of_nat fuel /\ n < 256 ^ c /\ (n <> 0 -> 1 <= c /\ 256 ^ (c - 1) <= n).
Proof.
  revert n. induction fuel as [|fuel IH]; intros n Hn; cbn [count_octets].
  - cbn in Hn. split_and!; cbn; lia.
  - destruct (Z.eqb_spec n 0) as [->|Hn0]; [cbn; lia|].
    rewrite Z.shiftr_div_pow2 by lia. change (2 ^ 8) with 256. rewrite pow256_S in Hn.
    destruct (IH (n / 256)) as (Hc & Hlt & Hge); [lia|].
    set (c := count_octets fuel (n / 256)) in *.
    assert (256 ^ (1 + c) = 256 * 256 ^ c) as -> by (rewrite Z.pow_add_r by lia; done).
    split_and!; [lia..|]. intros _. split; [lia|]. replace (1 + c - 1) with c by lia.
    destruct (Z.eq_dec (n / 256) 0) as [E|E].
    + assert (c = 0) as ->; [|lia]. subst c. rewrite E. by destruct fuel.
    + destruct (Hge E) as [? ?]. replace c with (1 + (c - 1)) by lia.
      rewrite Z.pow_add_r by lia. lia.
Qed.

Lemma length_loop_reads bs n v k :
  length bs = n -> reads (length_loop n v) bs k (eq (v * 256 ^ Z.of_nat n + be_val bs)).
Proof.
  revert n v. induction bs as [|b bs IH]; intros n v <-.
  - apply reads_ret. cbn. lia.
  - cbn [length length_loop]. change (b :: bs) with ([b] ++ bs) at 1. rstep.
    eapply reads_weaken; [by apply IH|]. intros ? <-.
    rewrite lor_256, be_val_cons, pow256_S. lia.
Qed.

(** The long-form initial octet for one to four length octets. *)
Lemma long_form_octet c :
  1 <= c <= 4 ->
  0 <= Z.lor long_form_bit c < 256 /\ Z.land (Z.lor long_form_bit c) long_form_bit <> 0 /\
  Z.land (Z.lor long_form_bit c) 0x7F = c.
Proof.
  intros Hc. assert (c = 1 \/ c = 2 \/ c = 3 \/ c = 4) as [->|[->|[->| ->]]] by lia; done.
Qed.

Lemma short_form_octet n : 0 <= n < 128 -> Z.land n long_form_bit = 0.
Proof. intros H. by apply group_last. Qed.

Lemma ber_encodes_length n rules :
  0 <= n < 2 ^ 32 -> encodes (write_length n) (read_length rules) n 5.
Proof.
  intros Hn. apply encodes_ask. unfold write_length.
  destruct (Z.ltb_spec n long_form_bit) as [Hs|Hl]; unfold long_form_bit in *.
  - eexists. split_and!; [apply writes_bytes|len_lia|]. intros x k. rstep.
    rewrite short_form_octet by lia. by apply reads_ret.
  - destruct (count_octets_spec 8 n) as (H1 & H2 & H3); [cbn; lia|].
    set (c := count_octets 8 n) in *. destruct H3 as [Hc1 H3]; [lia|].
    assert (c <= 4).
    { destruct (Z.le_gt_cases c 4); [done|]. exfalso.
      pose proof (Z.pow_le_mono_r 256 4 (c - 1)). lia. }
    destruct (long_form_octet c) as (? & E1 & E2); [lia|].
    exists ([byte_of (Z.lor 128 c)] ++ Writer.be_bytes (Z.to_nat c) n). split_and!.
    { apply writes_assert; [unfold max_length_octets; lia|].
      eapply writes_seq; apply writes_bytes. }
    { len_lia. }
    intros x k. unfold long_form_bit in *. rstep.
    rewrite (proj2 (Z.eqb_neq _ _) E1), E2.
    destruct (Z.eqb_spec c 0); [lia|]. destruct (Z.ltb_spec max_length_octets c); [unfold max_length_octets in *; lia|].
    eapply reads_bind_nil; [apply length_loop_reads, length_be_bytes|]. intros ? <-.
    rewrite be_val_be_bytes, Z2Nat.id, Z.mul_0_l, Z.add_0_l, Z.mod_small by lia.
    rewrite Z.shiftr_div_pow2 by lia.
    replace (2 ^ (8 * (c - 1))) with (256 ^ (c - 1)) by (rewrite Z.pow_mul_r by lia; done).
    assert (1 <= n / 256 ^ (c - 1)) by (apply Z.div_le_lower_bound; lia).
    destruct (Z.ltb_spec n 128); [lia|]. destruct (Z.eqb_spec (n / 256 ^ (c - 1)) 0); [lia|].
    rewrite !andb_false_r. by apply reads_ret.
Qed.

Lemma ber_encodes_tlv t v rules :
  tag_ok t -> len v < 2 ^ 32 ->
  exists e, writes (write_tlv t v) e /\ len e <= 9 + len v /\
            forall k, reads (read_tlv rules) e k (fun tlv => tag tlv = t /\ value tlv = v).
Proof.
  intros Ht Hv.
  destruct (ber_encodes_tag t rules Ht) as (e1 & W1 & L1 & R1).
  destruct (ber_encodes_length (len v) rules) as (e2 & W2 & L2 & R2); [len_lia|].
  exists (e1 ++ e2 ++ v). split_and!.
  - eapply writes_seq; [done|]. eapply writes_seq; [done|apply writes_bytes].
  - len_lia.
  - intros k. eapply reads_bind; [apply R1|]. intros ? <-.
    eapply reads_bind; [apply R2|]. intros ? <-. do 2 rstep. by apply reads_ret.
Qed.

Lemma reads_expect_tlv t v rules e k :
  reads (read_tlv rules) e k (fun tlv => tag tlv = t /\ value tlv = v) ->
  reads (expect_tlv t rules) e k (fun tlv => value tlv = v).
Proof.
  intros H. apply reads_ask. intros s b. eapply reads_bind_nil; [apply H|]. intros tlv [Et Ev].
  rewrite bool_decide_true by done. by apply reads_ret.
Qed.

(** Reading back a value through [expect_tlv] and a decoder of its contents. *)
Lemma ber_encodes_expect {A} t v rules (f : Tlv -> Dec A) (x : A) :
  tag_ok t -> len v < 2 ^ 32 ->
  (forall tlv k, value tlv = v -> reads (f tlv) [] k (eq x)) ->
  encodes (write_tlv t v) (let* tlv := expect_tlv t rules in f tlv) x (9 + len v).
Proof.
  intros Ht Hv Hf. destruct (ber_encodes_tlv t v rules Ht Hv) as (e & W & L & R).
  exists e. split_and!; [done|done|]. intros k.
  eapply reads_bind_nil; [by apply reads_expect_tlv|]. auto.
Qed.

Lemma ber_encodes_octet_string v t rules :
  tag_ok t -> len v < 2 ^ 32 ->
  encodes (write_octet_string v t) (read_octet_string rules t) v (9 + len v).
Proof.
  intros Ht Hv. apply ber_encodes_expect; [done..|]. intros tlv k <-. by apply reads_ret.
Qed.

Lemma ber_encodes_boolean v t rules :
  tag_ok t -> encodes (write_boolean v t) (read_boolean rules t) v 10.
Proof.
  intros Ht. eapply encodes_le; [apply ber_encodes_expect; [done|by cbn|]|by cbn].
  intros tlv k E. unfold decode_boolean. rewrite E. eapply reads_lift; [|done].
  destruct v, rules; done.
Qed.

(** A nested structure: the body is decoded on a reader of its own. *)
Lemma ber_encodes_constructed {A} t body rules (p : Dec A) v n :
  tag_ok t -> constructed t = true -> n < 2 ^ 32 -> encodes_end body p v n ->
  encodes (write_constructed t body) (let* sub := read_constructed t rules in within sub p) v (9 + n).
Proof.
  intros Ht Hc Hn (e & W & L & R).
  destruct (ber_encodes_tlv t e rules Ht) as (e' & W' & L' & R'); [lia|].
  exists e'. split_and!.
  - unfold write_constructed. apply writes_assert; [done|].
    eapply writes_local; [by apply writes_run|done].
  - lia.
  - intros k. eapply reads_bind_nil.
    { eapply reads_bind_nil; [by apply reads_expect_tlv|]. intros tlv Hv.
      apply (reads_ret _ _ (fun r => exists b, r = Reader.make e b)). exists (value_offset tlv).
      unfold tlv_reader. by rewrite Hv. }
    intros ? [b ->]. by apply reads_within.
Qed.

(** ** Integers *)

(** Two's complement value of a big-endian octet string. *)
Definition sval (d : list byte) : Z :=
  if has_bits (first_octet d) 0x80 then be_val d - 256 ^ Z.of_nat (length d) else be_val d.

Lemma top_bit b : has_bits (u8_of b) 0x80 = (128 <=? u8_of b).
Proof.
  pose proof (Zupto_forall 256 (fun x => bool_decide (has_bits x 0x80 = (128 <=? x)))
    ltac:(vm_compute; done) (u8_of b) (u8_of_range b)) as H. cbn beta in H.
  by rewrite bool_decide_eq_true in H.
Qed.

Lemma sval_cons b bs :
  sval (b :: bs) =
  (if 128 <=? u8_of b then u8_of b - 256 else u8_of b) * 256 ^ Z.of_nat (length bs) + be_val bs.
Proof.
  unfold sval. cbn [first_octet length]. rewrite top_bit, be_val_cons, pow256_S.
  destruct (Z.leb_spec 128 (u8_of b)); lia.
Qed.

Lemma redundant_sval a b bs :
  redundant_leading_octet a b = true -> sval (a :: b :: bs) = sval (b :: bs).
Proof.
  unfold redundant_leading_octet. rewrite top_bit, !sval_cons, be_val_cons. cbn [length].
  rewrite pow256_S. destruct (Z.leb_spec 128 (u8_of b)); cbn [negb];
    rewrite ?andb_false_r, ?andb_true_r, ?orb_false_r; cbn [orb]; intros ->%Z.eqb_eq; cbn; lia.
Qed.

Lemma strip_redundant_spec d :
  d <> [] ->
  strip_redundant d <> [] /\ sval (strip_redundant d) = sval d /\
  len (strip_redundant d) <= len d /\ strip_redundant (strip_redundant d) = strip_redundant d /\
  (len (strip_redundant d) = len d -> strip_redundant d = d).
Proof.
  induction d as [|a [|b d] IH]; intros Hd; [done|split_and!; done|].
  change (strip_redundant (a :: b :: d)) with
    (if redundant_leading_octet a b then strip_redundant (b :: d) else a :: b :: d).
  destruct (redundant_leading_octet a b) eqn:E.
  - destruct IH as (? & ? & ? & ? & ?); [done|]. split_and!; [done| |len_lia|done|len_lia].
    by rewrite redundant_sval.
  - split_and!; [done..|lia| |done].
    change (strip_redundant (a :: b :: d)) with
      (if redundant_leading_octet a b then strip_redundant (b :: d) else a :: b :: d).
    by rewrite E.
Qed.

Lemma integer_digits_stripped tlv rules d :
  d <> [] -> value tlv = strip_redundant d -> integer_digits tlv rules = Ok (strip_redundant d).
Proof.
  intros Hd E. destruct (strip_redundant_spec d Hd) as (Hne & _ & _ & Hidem & _).
  unfold integer_digits. rewrite E, Hidem, Z.eqb_refl, andb_false_r.
  by destruct (strip_redundant d).
Qed.

Lemma to_int64_digits d :
  d <> [] -> len d <= 8 ->
  to_int64 (ReaderOps.be_loop 64 d (if has_bits (first_octet d) 0x80 then 2 ^ 64 - 1 else 0)) = sval d.
Proof.
  intros Hd Hl. rewrite be_loop_wrap by (destruct (has_bits (first_octet d) 0x80); lia).
  destruct d as [|b d]; [done|]. rewrite sval_cons. cbn [first_octet length].
  rewrite top_bit, be_val_cons, pow256_S. pose proof (be_val_range d) as Hr.
  pose proof (u8_of_range b). set (P := 256 ^ Z.of_nat (length d)) in *.
  assert (P <= 2 ^ 56).
  { subst P. change (2 ^ 56) with (256 ^ 7). apply Z.pow_le_mono_r; [lia|]. unfold len in Hl. cbn in Hl. lia. }
  assert (0 < P) by apply pow256_pos. unfold to_int64.
  destruct (Z.leb_spec 128 (u8_of b)).
  - assert (((2 ^ 64 - 1) * (256 * P) + (u8_of b * P + be_val d)) mod 2 ^ 64
            = 2 ^ 64 + (u8_of b - 256) * P + be_val d) as ->.
    { symmetry. apply (Z.mod_unique _ _ (256 * P - 1)); nia. }
    destruct (Z.ltb_spec (2 ^ 64 + (u8_of b - 256) * P + be_val d) (2 ^ 63)); nia.
  - rewrite Z.mul_0_l, Z.add_0_l, Z.mod_small by nia.
    destruct (Z.ltb_spec (u8_of b * P + be_val d) (2 ^ 63)); nia.
Qed.

Lemma ber_encodes_integer v t rules :
  tag_ok t -> - 2 ^ 63 <= v < 2 ^ 63 ->
  encodes (write_integer v t) (read_integer rules t) v 17.
Proof.
  intros Ht Hv. unfold write_integer.
  set (O := Writer.be_bytes 8 (wrap 64 v)).
  assert (O <> []) as HO by (intros HO; pose proof (length_be_bytes 8 (wrap 64 v)) as HL; fold O in HL; by rewrite HO in HL).
  destruct (strip_redundant_spec O HO) as (Hne & Hs & Hle & _).
  assert (len O = 8) as HL by apply len_be_bytes.
  eapply encodes_le; [apply ber_encodes_expect; [done|lia|]|lia].
  intros tlv k E. eapply reads_lift; [|done].
  unfold decode_integer, rbind. rewrite (integer_digits_stripped tlv rules O HO E).
  destruct (Z.ltb_spec 8 (len (strip_redundant O))); [lia|].
  rewrite to_int64_digits by (done || lia). f_equal. rewrite Hs.
  unfold O at 1. change (Writer.be_bytes 8 (wrap 64 v)) with
    (byte_of (Z.shiftr (wrap 64 v) 56) :: Writer.be_bytes 7 (wrap 64 v)).
  rewrite sval_cons, be_val_be_bytes, u8_of_byte_of, length_be_bytes, Z.shiftr_div_pow2 by lia.
  unfold wrap. change (256 ^ Z.of_nat 7) with (2 ^ 56).
  assert (v mod 2 ^ 64 = v \/ v mod 2 ^ 64 = v + 2 ^ 64) as Hm by lia.
  destruct (Z.leb_spec 128 (v mod 2 ^ 64 / 2 ^ 56 mod 256)); lia.
Qed.

Lemma be_loop_value d : len d <= 8 -> ReaderOps.be_loop 64 d 0 = be_val d.
Proof.
  intros Hl. rewrite be_loop_wrap by lia. rewrite Z.mul_0_l, Z.add_0_l, Z.mod_small; [done|].
  pose proof (be_val_range d) as Hr. split; [lia|]. eapply Z.lt_le_trans; [apply Hr|].
  change (2 ^ 64) with (256 ^ 8). apply Z.pow_le_mono_r; [lia|]. unfold len in Hl. lia.
Qed.

(** The octets [write_unsigned] starts from, and the digits it keeps. *)
Definition unsigned_digits (v : Z) : list byte := strip_redundant (byte_of 0 :: Writer.be_bytes 8 v).

Lemma unsigned_digits_spec v :
  0 <= v < 2 ^ 64 ->
  let d := unsigned_digits v in
  d <> [] /\ len d <= 9 /\ be_val d = v /\ has_bits (first_octet d) 0x80 = false /\
  (len d = 9 -> first_octet d = 0).
Proof.
  intros Hv d. subst d. unfold unsigned_digits.
  set (O := byte_of 0 :: Writer.be_bytes 8 v).
  destruct (strip_redundant_spec O ltac:(done)) as (Hne & Hs & Hle & _ & Hall).
  assert (sval O = v) as HO.
  { unfold O. rewrite sval_cons, be_val_be_bytes. cbn [u8_of_byte_of].
    rewrite u8_of_byte_of_small by lia. cbn [Z.leb Z.compare].
    rewrite Z.mul_0_l, Z.add_0_l. apply Z.mod_small. cbn; lia. }
  assert (len O = 9) as HL by (unfold O; len_lia).
  rewrite HO in Hs. set (d := strip_redundant O) in *. split_and!; [done|lia|..].
  - unfold sval in Hs. destruct (has_bits (first_octet d) 0x80); [|done].
    pose proof (be_val_range d). lia.
  - unfold sval in Hs. destruct (has_bits (first_octet d) 0x80); [|done].
    pose proof (be_val_range d). lia.
  - intros H9. rewrite Hall by lia. unfold O. cbn [first_octet]. apply u8_of_byte_of_small. lia.
Qed.

Lemma ber_encodes_unsigned v t rules :
  tag_ok t -> 0 <= v < 2 ^ 64 ->
  encodes (write_unsigned v t) (read_unsigned rules t) v 18.
Proof.
  intros Ht Hv. destruct (unsigned_digits_spec v Hv) as (Hne & Hl & Hval & Htop & H9).
  unfold write_unsigned. fold (unsigned_digits v).
  eapply encodes_le; [apply ber_encodes_expect; [done|lia|]|lia].
  intros tlv k E. eapply reads_lift; [|done].
  unfold decode_unsigned, rbind. rewrite (integer_digits_stripped tlv rules (byte_of 0 :: Writer.be_bytes 8 v) ltac:(done) E).
  fold (unsigned_digits v). set (d := unsigned_digits v) in *. rewrite Htop. cbv zeta.
  assert (exists d', d' = (if (1 <? len d) && (first_octet d =? 0) then drop 1 d else d) /\
                     len d' <= 8 /\ be_val d' = v) as (d' & Ed & Hl' & Hv').
  { eexists. split; [done|]. destruct d as [|x d]; [done|]. cbn [first_octet] in *.
    destruct (Z.ltb_spec 1 (len (x :: d))); cbn [andb]; [|split; [lia|done]].
    destruct (Z.eqb_spec (u8_of x) 0) as [Ex|Ex].
    - cbn [drop]. rewrite be_val_cons, Ex in Hval. rewrite drop_0. split; len_lia.
    - split; [|done]. assert (len (x :: d) <> 9) by auto. lia. }
  rewrite <- Ed. destruct (Z.ltb_spec 8 (len d')); [lia|]. by rewrite be_loop_value, Hv', Hval.
Qed.

Lemma strip_zeros_spec d :
  d <> [] ->
  be_val (strip_zeros d) = be_val d /\
  (len (strip_zeros d) = 1 \/ 256 ^ (len (strip_zeros d) - 1) <= be_val d).
Proof.
  induction d as [|a [|b d] IH]; intros Hd; [done|split; [done|by left]|].
  change (strip_zeros (a :: b :: d)) with
    (if u8_of a =? 0 then strip_zeros (b :: d) else a :: b :: d).
  destruct (Z.eqb_spec (u8_of a) 0) as [E|E].
  - destruct IH as [H1 H2]; [done|]. rewrite (be_val_cons a), E, Z.mul_0_l, Z.add_0_l.
    by split.
  - split; [done|]. right. pose proof (u8_of_range a). rewrite (be_val_cons a).
    pose proof (be_val_range (b :: d)). rewrite len_cons. replace (1 + len (b :: d) - 1) with (len (b :: d)) by lia.
    fold (len (b :: d)) in *. set (P := 256 ^ len (b :: d)) in *. nia.
Qed.

(** MCS writes with [write_unsigned] and reads with [decode_raw_unsigned]. *)
Lemma decode_raw_unsigned_digits tlv v :
  0 <= v < 2 ^ 64 -> value tlv = unsigned_digits v -> decode_raw_unsigned tlv = Ok v.
Proof.
  intros Hv E. destruct (unsigned_digits_spec v Hv) as (Hne & Hl & Hval & _).
  destruct (strip_zeros_spec _ Hne) as [H1 H2].
  unfold decode_raw_unsigned. rewrite E. destruct (unsigned_digits v) as [|x d] eqn:Ed; [done|].
  rewrite <- Ed in *. rewrite Hval in *.
  destruct (Z.ltb_spec 8 (len (strip_zeros (unsigned_digits v)))) as [H8|H8].
  - exfalso. destruct H2 as [H2|H2]; [lia|].
    pose proof (Z.pow_le_mono_r 256 8 (len (strip_zeros (unsigned_digits v)) - 1)). lia.
  - by rewrite be_loop_value, H1.
Qed.

(** ** What the strict decoder accepts *)

Lemma length_loop_inv n v r l r' :
  length_loop n v r = Ok (l, r') ->
  exists bs, length bs = n /\ took r bs r' /\ l = v * 256 ^ Z.of_nat n + be_val bs.
Proof.
  revert v r. induction n as [|n IH]; intros v r; cbn [length_loop].
  - intros [= <- <-]. exists []. split_and!; [done|apply took_nil|]. cbn. lia.
  - intros (x & r1 & (b & -> & Ht)%u8_inv & H2)%dbind_inv.
    apply IH in H2 as (bs & <- & Ht2 & ->). exists (b :: bs). split_and!; [done| |].
    + exact (took_trans _ _ _ _ _ Ht Ht2).
    + rewrite lor_256, be_val_cons, pow256_S. lia.
Qed.

Lemma count_octets_unique n c :
  0 <= n < 256 ^ 8 -> n <> 0 -> 256 ^ (c - 1) <= n < 256 ^ c -> 1 <= c -> count_octets 8 n = c.
Proof.
  intros Hn Hn0 Hc Hc1. destruct (count_octets_spec 8 n Hn) as (H1 & H2 & H3).
  destruct (H3 Hn0) as [H4 H5]. set (d := count_octets 8 n) in *.
  destruct (Z.lt_trichotomy d c) as [H|[H|H]]; [|done|].
  - pose proof (Z.pow_le_mono_r 256 d (c - 1)). lia.
  - pose proof (Z.pow_le_mono_r 256 c (d - 1)). lia.
Qed.

(** The bytes of a DER length: what [write_length] appends. *)
Definition length_octets (n : Z) : list byte :=
  if n <? long_form_bit then [byte_of n]
  else byte_of (Z.lor long_form_bit (count_octets 8 n)) ::
       Writer.be_bytes (Z.to_nat (count_octets 8 n)) n.

Lemma long_form_byte b :
  Z.land (u8_of b) long_form_bit <> 0 -> Z.lor long_form_bit (Z.land (u8_of b) 0x7F) = u8_of b.
Proof.
  intros H. pose proof (Zupto_forall 256 (fun x => (Z.land x long_form_bit =? 0) ||
    (Z.lor long_form_bit (Z.land x 0x7F) =? x)) ltac:(vm_compute; done) (u8_of b) (u8_of_range b)) as Hx.
  cbn beta in Hx. rewrite orb_true_iff, !Z.eqb_eq in Hx. tauto.
Qed.

Lemma short_form_byte b : Z.land (u8_of b) long_form_bit = 0 -> u8_of b < 128.
Proof.
  intros H. pose proof (Zupto_forall 256 (fun x => negb (Z.land x long_form_bit =? 0) ||
    (x <? 128)) ltac:(vm_compute; done) (u8_of b) (u8_of_range b)) as Hx.
  cbn beta in Hx. rewrite H, Z.eqb_refl, orb_true_iff, Z.ltb_lt in Hx. by destruct Hx.
Qed.

Lemma der_length_inv r n r' :
  read_length der r = Ok (n, r') -> 0 <= n < 2 ^ 32 /\ took r (length_octets n) r'.
Proof.
  unfold read_length. intros H%dask_inv.
  apply dbind_inv in H as (x & r1 & (b & -> & Ht)%u8_inv & H).
  pose proof (u8_of_range b). unfold length_octets.
  destruct (Z.eqb_spec (Z.land (u8_of b) long_form_bit) 0) as [Hs|Hs].
  - injection H as <- <-. apply short_form_byte in Hs.
    destruct (Z.ltb_spec (u8_of b) long_form_bit); [|unfold long_form_bit in *; lia].
    rewrite byte_of_u8_of. split; [lia|done].
  - apply long_form_byte in Hs. set (c := Z.land (u8_of b) 0x7F) in *.
    assert (0 <= c) by (apply Z.land_nonneg; lia).
    destruct (Z.eqb_spec c 0); [done|].
    destruct (Z.ltb_spec max_length_octets c) as [|Hc]; [done|]. unfold max_length_octets in Hc.
    apply dbind_inv in H as (l & r2 & (bs & Hbs & Ht2 & ->)%length_loop_inv & H).
    rewrite Z.mul_0_l, Z.add_0_l in H. set (l := be_val bs) in *.
    rewrite bool_decide_true in H by done. cbn [andb] in H.
    destruct (Z.ltb_spec l long_form_bit) as [|Hl]; [done|].
    destruct (Z.eqb_spec (Z.shiftr l (8 * (c - 1))) 0) as [|Hz]; [done|].
    injection H as <- <-.
    assert (256 ^ (c - 1) <= l).
    { rewrite Z.shiftr_div_pow2 in Hz by lia.
      replace (2 ^ (8 * (c - 1))) with (256 ^ (c - 1)) in Hz by (rewrite Z.pow_mul_r by lia; done).
      pose proof (Z.pow_pos_nonneg 256 (c - 1)). pose proof (be_val_range bs).
      destruct (Z.le_gt_cases (256 ^ (c - 1)) l); [done|]. rewrite Z.div_small in Hz; lia. }
    pose proof (be_val_range bs) as Hr. fold l in Hr. rewrite Hbs, Z2Nat.id in Hr by lia.
    pose proof (Z.pow_le_mono_r 256 c 4) as Hp. unfold long_form_bit in *.
    rewrite (count_octets_unique l c) by lia.
    destruct (Z.ltb_spec l 128); [lia|]. split; [lia|].
    rewrite Hs, byte_of_u8_of, <- Hbs. unfold l. rewrite be_bytes_be_val.
    exact (took_trans _ _ _ _ _ Ht Ht2).
Qed.

Lemma writes_length_octets n : 0 <= n < 2 ^ 32 -> writes (write_length n) (length_octets n).
Proof.
  intros Hn. destruct (ber_encodes_length n der Hn) as (e & W & _ & _).
  unfold write_length, length_octets in *. destruct (n <? long_form_bit); [apply writes_bytes|].
  specialize (W []) as W0. unfold ebind, eassert in W0.
  destruct (count_octets 8 n <=? max_length_octets) eqn:E; [|done].
  apply writes_assert; [done|].
  exact (writes_seq (Writer.u8 _) (Writer.write_be _ _) [_] _ (writes_bytes _) (writes_bytes _)).
Qed.

(** ** Properties *)

(** A TLV with any tag the encoder accepts (numbers up to 2^21 - 1, all
    classes, primitive or constructed) and any content below 4 GiB is written
    without tripping an assertion, and both the BER and the DER reader decode
    the bytes to the same tag and content and consume all of them. *)
Theorem ber_tlv_roundtrip t v rules b :
  tag_ok t -> len v < 2 ^ 32 ->
  exists e tlv, Writer.run (write_tlv t v) = Some e /\
    read_tlv rules (Reader.make e b) = Ok (tlv, Reader.mk e [] b) /\ tag tlv = t /\ value tlv = v.
Proof.
  intros Ht Hv. destruct (ber_encodes_tlv t v rules Ht Hv) as (e & W & _ & R).
  destruct (R [] [] b) as (tlv & H & H1 & H2). rewrite app_nil_r in H.
  exists e, tlv. split_and!; [by apply writes_run|done..].
Qed.

Lemma ber_tlv_roundtrip_witness :
  exists e tlv, Writer.run (write_tlv (application 101 true) [byte_of 7]) = Some e /\
    read_tlv der (Reader.make e 5) = Ok (tlv, Reader.mk e [] 5) /\
    tag tlv = application 101 true /\ value tlv = [byte_of 7].
Proof.
  apply (ber_tlv_roundtrip (application 101 true) [byte_of 7] der 5); [split; vm_compute; discriminate|by cbn].
Defined.

(** Every 64-bit signed INTEGER and every 64-bit unsigned INTEGER survives
    the trip through the encoder and the BER or DER decoder: the minimal
    two's complement form is written and the sign comes back. *)
Theorem ber_integer_roundtrip v u t rules b :
  tag_ok t -> - 2 ^ 63 <= v < 2 ^ 63 -> 0 <= u < 2 ^ 64 ->
  (exists e, Writer.run (write_integer v t) = Some e /\
             read_integer rules t (Reader.make e b) = Ok (v, Reader.mk e [] b)) /\
  (exists e, Writer.run (write_unsigned u t) = Some e /\
             read_unsigned rules t (Reader.make e b) = Ok (u, Reader.mk e [] b)).
Proof.
  intros Ht Hv Hu. split.
  - by eapply encodes_run, ber_encodes_integer.
  - by eapply encodes_run, ber_encodes_unsigned.
Qed.

Lemma ber_integer_roundtrip_witness :
  (exists e, Writer.run (write_integer (-129) tag_integer) = Some e /\
             read_integer der tag_integer (Reader.make e 0) = Ok (-129, Reader.mk e [] 0)) /\
  (exists e, Writer.run (write_unsigned 65535 tag_integer) = Some e /\
             read_unsigned der tag_integer (Reader.make e 0) = Ok (65535, Reader.mk e [] 0)).
Proof.
  apply (ber_integer_roundtrip (-129) 65535 tag_integer der 0); [split; vm_compute; discriminate|lia|lia].
Defined.

(** DER lengths are canonical: the strict decoder reads [n] from [e]
    exactly when [e] is the encoder's output for [n] (and [n] fits the four
    length octets the code admits), so no second encoding of a length is
    accepted. *)
Theorem der_length_canonical n e k b :
  (exists r', read_length der (Reader.make (e ++ k) b) = Ok (n, r') /\ Reader.rest r' = k) <->
  (0 <= n < 2 ^ 32 /\ Writer.run (write_length n) = Some e).
Proof.
  split.
  - intros (r' & H & Hk). apply der_length_inv in H as [Hn [Hr _]]. cbn in Hr. rewrite Hk in Hr.
    apply app_inv_tail in Hr as ->. split; [done|]. by apply writes_run, writes_length_octets.
  - intros [Hn W]. destruct (ber_encodes_length n der Hn) as (e' & W' & _ & R).
    rewrite (writes_run _ _ W') in W. injection W as ->.
    destruct (R k [] b) as (a & Ha & <-). eexists. split; [apply Ha|done].
Qed.

End Ber.
