(* ===== verification/Per.v ===== *)
(** * ASN.1 aligned PER: the subset T.124 and T.125 use

    Models [src/src/farland/base/per.hpp] and [per.cpp]: length determinants,
    CHOICE, SEQUENCE and SET OF prefixes, whole numbers, ENUMERATED, OBJECT
    IDENTIFIER, OCTET STRING and NumericString, as MCS and GCC use them. *)

From S2P Require Import Prelude Buffers CodecLogic Ber.
Open Scope Z_scope.

Module Per.

Definition max_length : Z := 0x3FFF.
Definition two_octet_length : Z := 0x80.
Definition fragmented_length : Z := 0xC0.
Definition oid_arc_limit : Z := 0x80.

Definition read_length : Dec Z :=
  let* start := dask Reader.offset in
  let* first := ReaderOps.u8 in
  if Z.land first two_octet_length =? 0 then dret first
  else if Z.land first fragmented_length =? fragmented_length
  then dfail unsupported "fragmented PER length" start
  else
    let* second := ReaderOps.u8 in
    dret (Z.lor (Z.shiftl (Z.land first 0x3F) 8) second).

Definition write_length (length : Z) : Enc unit :=
  if length <? two_octet_length then Writer.u8 length
  else
    eassert (length <=? max_length) ;;;
    Writer.u16be (wrap 16 (Z.lor 0x8000 length)).

Definition read_choice : Dec Z := ReaderOps.u8.
Definition write_choice (choice : Z) : Enc unit := Writer.u8 choice.
Definition read_selection : Dec Z := ReaderOps.u8.
Definition write_selection (selection : Z) : Enc unit := Writer.u8 selection.
Definition read_number_of_sets : Dec Z := ReaderOps.u8.
Definition write_number_of_sets (count : Z) : Enc unit := Writer.u8 count.
Definition read_padding (count : Z) : Dec unit := ReaderOps.skip count.
Definition write_padding (count : Z) : Enc unit := Writer.zeros count.

Definition read_integer : Dec Z :=
  let* start := dask Reader.offset in
  let* length := read_length in
  if length =? 1 then ReaderOps.u8
  else if length =? 2 then ReaderOps.u16be
  else if length =? 4 then ReaderOps.u32be
  else dfail invalid_length "PER integer length must be 1, 2 or 4" start.

Definition write_integer (value : Z) : Enc unit :=
  if value <=? 0xFF then write_length 1 ;;; Writer.u8 value
  else if value <=? 0xFFFF then write_length 2 ;;; Writer.u16be value
  else write_length 4 ;;; Writer.u32be value.

Definition read_integer16 (min : Z) : Dec Z :=
  let* start := dask Reader.offset in
  let* raw := ReaderOps.u16be in
  if 0xFFFF - min <? raw then dfail invalid_value "PER integer16 above 65535" start
  else dret (wrap 16 (raw + min)).

Definition write_integer16 (value min : Z) : Enc unit :=
  eassert (min <=? value) ;;; Writer.u16be (wrap 16 (value - min)).

Definition read_enumerated (count : Z) : Dec Z :=
  let* start := dask Reader.offset in
  let* value := ReaderOps.u8 in
  if count <=? value then dfail invalid_value "PER enumerated value out of range" start
  else dret value.

Definition write_enumerated (value : Z) : Enc unit := Writer.u8 value.

(** Six single-octet arcs, [std::array<std::uint8_t, 6>]. *)
Definition t124_02_98_oid : list Z := [0; 0; 20; 124; 0; 1].

Fixpoint read_arcs (start : Z) (octets : list byte) : Result (list Z) :=
  match octets with
  | [] => Ok []
  | b :: octets' =>
      if oid_arc_limit <=? u8_of b
      then fail unsupported "object identifier arc is not a single octet" start
      else let? arcs := read_arcs start octets' in Ok (u8_of b :: arcs)
  end.

Definition read_object_identifier : Dec (list Z) :=
  let* start := dask Reader.offset in
  let* length := read_length in
  if negb (length =? 5)
  then dfail unsupported "object identifier is not five single-octet arcs" start
  else
    let* octets := ReaderOps.bytes length in
    let first := Ber.first_octet octets in
    let head := if first <? 80 then [first / 40; first mod 40] else [2; first - 80] in
    let* arcs := dlift (read_arcs start (drop 1 octets)) in
    dret (head ++ arcs).

Fixpoint write_arcs (arcs : list Z) : Enc unit :=
  match arcs with
  | [] => eret tt
  | a :: arcs' => eassert (a <? oid_arc_limit) ;;; Writer.u8 a ;;; write_arcs arcs'
  end.

Definition write_object_identifier (oid : list Z) : Enc unit :=
  let a0 := oid !!! 0%nat in
  let a1 := oid !!! 1%nat in
  eassert ((a0 <=? 2) && ((a0 =? 2) || (a1 <? 40))) ;;;
  eassert (a0 * 40 + a1 <=? 0xFF) ;;;
  write_length 5 ;;;
  Writer.u8 (a0 * 40 + a1) ;;;
  write_arcs (drop 2 oid).

Definition read_octet_string (min : Z) : Dec (list byte) :=
  let* length := read_length in ReaderOps.bytes (length + min).

Definition write_octet_string (value : list byte) (min : Z) : Enc unit :=
  eassert (min <=? len value) ;;;
  write_length (len value - min) ;;;
  Writer.bytes value.

Definition read_numeric_string (min : Z) : Dec (list byte) :=
  let* length := read_length in
  let digits := length + min in
  ReaderOps.bytes ((digits + 1) / 2).

(** [nibble(i)] for a character [c] of the string, asserting it is a digit. *)
Definition is_digit (c : byte) : bool := (48 <=? u8_of c) && (u8_of c <=? 57).

Fixpoint write_digits (digits : list byte) : Enc unit :=
  match digits with
  | [] => eret tt
  | [a] => eassert (is_digit a) ;;; Writer.u8 (Z.lor (Z.shiftl (u8_of a - 48) 4) 0)
  | a :: b :: digits' =>
      eassert (is_digit a) ;;; eassert (is_digit b) ;;;
      Writer.u8 (Z.lor (Z.shiftl (u8_of a - 48) 4) (u8_of b - 48)) ;;;
      write_digits digits'
  end.

Definition write_numeric_string (digits : list byte) (min : Z) : Enc unit :=
  eassert (min <=? len digits) ;;;
  write_length (len digits - min) ;;;
  write_digits digits.

(** ** Round trips *)

Lemma two_octet_determinant n :
  0x80 <= n <= max_length ->
  let hi := u8_of (byte_of (Z.shiftr (Z.lor 0x8000 n) 8)) in
  let lo := u8_of (byte_of (Z.shiftr (Z.lor 0x8000 n) 0)) in
  Z.land hi two_octet_length <> 0 /\ Z.land hi fragmented_length <> fragmented_length /\
  Z.lor (Z.shiftl (Z.land hi 0x3F) 8) lo = n.
Proof.
  intros Hn hi lo. unfold max_length in Hn.
  assert (Z.lor 0x8000 n = 0x8000 + n) as E
    by (apply (lor_const _ 1 _ 15); [done|lia|lia]).
  assert (hi = 128 + n / 256) as Hhi.
  { unfold hi. rewrite E, Z.shiftr_div_pow2, u8_of_byte_of by lia. change (2 ^ 8) with 256. lia. }
  assert (lo = n mod 256) as Hlo.
  { unfold lo. rewrite E, Z.shiftr_0_r, u8_of_byte_of. lia. }
  clearbody hi lo. subst.
  assert (0 <= n / 256 < 64) as Hh by lia.
  pose proof (Zupto_forall 64 (fun h => negb (Z.land (128 + h) two_octet_length =? 0) &&
    negb (Z.land (128 + h) fragmented_length =? fragmented_length) && (Z.land (128 + h) 0x3F =? h))
    ltac:(vm_compute; done) _ Hh) as H. cbn beta in H.
  rewrite !andb_true_iff, !negb_true_iff, !Z.eqb_neq, Z.eqb_eq in H.
  destruct H as [[H1 H2] H3]. split_and!; [done..|].
  rewrite H3, lor_disjoint by lia. lia.
Qed.

Lemma per_encodes_length n : 0 <= n <= max_length -> encodes (write_length n) read_length n 2.
Proof.
  intros Hn. apply encodes_ask. unfold write_length, two_octet_length.
  destruct (Z.ltb_spec n 0x80).
  - eexists. split_and!; [apply writes_bytes|len_lia|]. intros x k. rstep.
    fold two_octet_length. rewrite Ber.short_form_octet by lia. by apply reads_ret.
  - destruct (two_octet_determinant n) as (H1 & H2 & H3); [lia|]. cbv zeta in *.
    assert (wrap 16 (Z.lor 0x8000 n) = Z.lor 0x8000 n) as ->.
    { unfold wrap, max_length in *. apply Z.mod_small.
      rewrite (lor_const _ 1 _ 15) by (done || lia). lia. }
    eexists. split_and!; [apply writes_assert; [lia|apply writes_bytes]|len_lia|]. intros x k.
    change (Writer.be_bytes 2 (Z.lor 0x8000 n)) with
      ([byte_of (Z.shiftr (Z.lor 0x8000 n) 8)] ++ [byte_of (Z.shiftr (Z.lor 0x8000 n) 0)]).
    eapply reads_bind; [apply reads_byte|]. intros ? <-.
    unfold two_octet_length in H1.
    rewrite (proj2 (Z.eqb_neq _ _) H1), (proj2 (Z.eqb_neq _ _) H2).
    eapply reads_bind_nil; [apply reads_byte|]. intros ? <-. by apply reads_ret.
Qed.

Lemma per_encodes_integer v : 0 <= v < 2 ^ 32 -> encodes (write_integer v) read_integer v 6.
Proof.
  intros Hv.
  assert (forall m p n w, encodes m p v w -> w <= 4 -> 0 <= n <= max_length ->
    (forall start, (if n =? 1 then ReaderOps.u8 else if n =? 2 then ReaderOps.u16be
       else if n =? 4 then ReaderOps.u32be
       else dfail invalid_length "PER integer length must be 1, 2 or 4" start) = p) ->
    encodes (write_length n ;;; m) read_integer v 6) as Hgen.
  { intros m p n w (e & W & L & R) Hw Hn Hp.
    destruct (per_encodes_length n Hn) as (e1 & W1 & L1 & R1).
    exists (e1 ++ e). split_and!; [by apply writes_seq|len_lia|].
    intros k. apply reads_ask. intros s b. eapply reads_bind; [apply R1|]. intros ? <-.
    by rewrite Hp. }
  unfold write_integer. destruct (Z.leb_spec v 0xFF); [|destruct (Z.leb_spec v 0xFFFF)].
  - eapply (Hgen _ _ 1); [apply encodes_u8; lia|lia|by cbn|done].
  - eapply (Hgen _ _ 2); [apply encodes_u16be; lia|lia|by cbn|done].
  - eapply (Hgen _ _ 4); [apply encodes_u32be; lia|lia|by cbn|done].
Qed.

Lemma per_encodes_integer16 v min :
  0 <= min <= v -> v < 65536 -> encodes (write_integer16 v min) (read_integer16 min) v 2.
Proof.
  intros Hm Hv. apply encodes_ask. unfold write_integer16, wrap. change (2 ^ 16) with 65536.
  rewrite (Z.mod_small (v - min)) by lia.
  eexists. split_and!; [apply writes_assert; [lia|apply writes_bytes]|len_lia|]. intros x k.
  rstep. destruct (Z.ltb_spec (0xFFFF - min) (v - min)); [lia|].
  apply reads_ret. unfold wrap. rewrite Z.mod_small; lia.
Qed.

Lemma per_encodes_enumerated v n :
  0 <= v < n -> n <= 256 -> encodes (write_enumerated v) (read_enumerated n) v 1.
Proof.
  intros Hv Hn. apply encodes_ask. eexists. split_and!; [apply writes_bytes|len_lia|]. intros x k.
  rstep. destruct (Z.leb_spec n v); [lia|]. by apply reads_ret.
Qed.

Lemma per_encodes_octet_string v min :
  0 <= min <= len v -> len v - min <= max_length ->
  encodes (write_octet_string v min) (read_octet_string min) v (2 + len v).
Proof.
  intros Hm Hl. apply encodes_assert; [lia|].
  eapply encodes_seq; [apply per_encodes_length; lia|].
  rewrite Z.sub_add. by apply encodes_bytes.
Qed.

Definition oid_ok (oid : list Z) : Prop :=
  exists a0 a1 arcs, oid = a0 :: a1 :: arcs /\ length arcs = 4%nat /\
    0 <= a0 <= 2 /\ 0 <= a1 /\ (a0 < 2 -> a1 < 40) /\ a0 * 40 + a1 <= 255 /\
    Forall (fun a => 0 <= a < 128) arcs.

Lemma writes_arcs arcs :
  Forall (fun a => 0 <= a < 128) arcs -> writes (write_arcs arcs) (byte_of <$> arcs).
Proof.
  induction 1 as [|a arcs Ha _ IH]; cbn [write_arcs fmap list_fmap]; [apply writes_ret|].
  apply writes_assert; [unfold oid_arc_limit; lia|].
  exact (writes_seq _ _ [_] _ (writes_bytes _) IH).
Qed.

Lemma read_arcs_bytes start arcs :
  Forall (fun a => 0 <= a < 128) arcs -> read_arcs start (byte_of <$> arcs) = Ok arcs.
Proof.
  induction 1 as [|a arcs Ha _ IH]; cbn [read_arcs fmap list_fmap]; [done|].
  rewrite u8_of_byte_of_small by lia. unfold oid_arc_limit.
  destruct (Z.leb_spec 0x80 a); [lia|]. cbn [rbind]. by rewrite IH.
Qed.

Lemma per_encodes_object_identifier oid :
  oid_ok oid -> encodes (write_object_identifier oid) read_object_identifier oid 7.
Proof.
  intros (a0 & a1 & arcs & -> & Hlen & H0 & H1 & H40 & Hsum & Harcs).
  destruct (per_encodes_length 5) as (e & W & L & R); [by cbn|].
  apply encodes_ask. exists (e ++ [byte_of (a0 * 40 + a1)] ++ (byte_of <$> arcs)). split_and!.
  - unfold write_object_identifier. cbn [lookup_total list_lookup_total drop].
    apply writes_assert; [lia|]. apply writes_assert; [lia|].
    eapply writes_seq; [done|]. eapply writes_seq; [apply writes_bytes|]. rewrite drop_0. by apply writes_arcs.
  - unfold len. rewrite !length_app, length_fmap, Hlen. unfold len in L. cbn. lia.
  - intros x k. eapply reads_bind; [apply R|]. intros ? <-. cbn [Z.eqb Pos.eqb negb].
    eapply reads_bind_nil; [apply reads_bytes|].
    { unfold len. rewrite length_app, length_fmap, Hlen. done. }
    intros ? <-. cbn [app Ber.first_octet drop]. rewrite u8_of_byte_of_small by lia.
    eapply reads_bind_nil; [apply (reads_lift _ arcs _ (eq arcs)); [by apply read_arcs_bytes|done]|].
    intros ? <-. apply reads_ret.
    destruct (Z.ltb_spec (a0 * 40 + a1) 80); cbn [app].
    + f_equal; [lia|f_equal; lia].
    + assert (a0 = 2) by lia. subst. f_equal. f_equal. lia.
Qed.

(** ** Properties *)

(** Length determinants up to 16383, 32-bit whole numbers, 16-bit numbers
    with a lower bound (MCS user and channel IDs) and object identifiers of
    six arcs are read back from what the encoder writes, the whole encoding
    consumed. *)
Theorem per_roundtrip n v w min oid b :
  0 <= n <= max_length -> 0 <= v < 2 ^ 32 -> 0 <= min <= w -> w < 65536 -> oid_ok oid ->
  (exists e, Writer.run (write_length n) = Some e /\
             read_length (Reader.make e b) = Ok (n, Reader.mk e [] b)) /\
  (exists e, Writer.run (write_integer v) = Some e /\
             read_integer (Reader.make e b) = Ok (v, Reader.mk e [] b)) /\
  (exists e, Writer.run (write_integer16 w min) = Some e /\
             read_integer16 min (Reader.make e b) = Ok (w, Reader.mk e [] b)) /\
  (exists e, Writer.run (write_object_identifier oid) = Some e /\
             read_object_identifier (Reader.make e b) = Ok (oid, Reader.mk e [] b)).
Proof.
  intros Hn Hv Hm Hw Ho. split_and!.
  - eapply encodes_run, per_encodes_length, Hn.
  - eapply encodes_run, per_encodes_integer, Hv.
  - eapply encodes_run, per_encodes_integer16; done.
  - eapply encodes_run, per_encodes_object_identifier, Ho.
Qed.

Lemma per_roundtrip_witness :
  (exists e, Writer.run (write_length 300) = Some e /\
             read_length (Reader.make e 0) = Ok (300, Reader.mk e [] 0)) /\
  (exists e, Writer.run (write_integer 65536) = Some e /\
             read_integer (Reader.make e 0) = Ok (65536, Reader.mk e [] 0)) /\
  (exists e, Writer.run (write_integer16 1007 1001) = Some e /\
             read_integer16 1001 (Reader.make e 0) = Ok (1007, Reader.mk e [] 0)) /\
  (exists e, Writer.run (write_object_identifier t124_02_98_oid) = Some e /\
             read_object_identifier (Reader.make e 0) = Ok (t124_02_98_oid, Reader.mk e [] 0)).
Proof.
  apply (per_roundtrip 300 65536 1007 1001 t124_02_98_oid 0); [split; vm_compute; discriminate|lia|lia|lia|].
  exists 0, 0, [20; 124; 0; 1]. split_and!; try done; try lia. repeat constructor; lia.
Defined.

End Per.
