(* ===== verification/Framing.v ===== *)
(** * Splitting the transport stream into PDUs

    Models [src/src/farland/proto/framing.hpp] and [framing.cpp]: the two
    framings RDP interleaves on a connection.  The theorems say that the
    decision about the next PDU is stable as more bytes arrive and that every
    announced PDU is at least as long as its header, so a reader loop makes
    progress. *)

From S2P Require Import Prelude Buffers CodecLogic.
Open Scope Z_scope.

Module Framing.

Inductive FrameKind := tpkt | fastpath.

Record FrameInfo := mkFrame { kind : FrameKind; length : Z }.

Definition tpkt_header_size : Z := 4.

(** [buffered[i]] as an unsigned number; the callers below are within range. *)
Definition at_ (buffered : list byte) (i : nat) : Z :=
  match buffered !! i with Some b => u8_of b | None => 0 end.

Definition peek_frame (buffered : list byte) : Result (option FrameInfo) :=
  match buffered with
  | [] => Ok None
  | _ =>
    let first := at_ buffered 0 in
    if first =? 0x03 then
      if len buffered <? tpkt_header_size then Ok None
      else
        let length := Z.lor (Z.shiftl (at_ buffered 2) 8) (at_ buffered 3) in
        if length <? tpkt_header_size + 3
        then fail invalid_length "TPKT shorter than the smallest X.224 TPDU" 2
        else Ok (Some (mkFrame tpkt length))
    else if Z.land first 0x03 =? 0 then
      if len buffered <? 2 then Ok None
      else
        let length1 := at_ buffered 1 in
        if Z.land length1 0x80 =? 0 then
          if length1 <? 2
          then fail invalid_length "fast-path PDU shorter than its header" 1
          else Ok (Some (mkFrame fastpath length1))
        else if len buffered <? 3 then Ok None
        else
          let length := Z.lor (Z.shiftl (Z.land length1 0x7F) 8) (at_ buffered 2) in
          if length <? 3
          then fail invalid_length "fast-path PDU shorter than its header" 1
          else Ok (Some (mkFrame fastpath length))
    else fail invalid_value "neither a TPKT nor a fast-path PDU" 0
  end.

Lemma at_app buf more i : (i < List.length buf)%nat -> at_ (buf ++ more) i = at_ buf i.
Proof. intros H. unfold at_. by rewrite lookup_app_l. Qed.

Lemma at_range buf i : 0 <= at_ buf i < 256.
Proof. unfold at_. destruct (buf !! i); [apply u8_of_range|lia]. Qed.

(** The part of the buffer [peek_frame] looks at decides its answer. *)
Lemma peek_frame_app buf more f :
  peek_frame buf = f -> f <> Ok None -> peek_frame (buf ++ more) = f.
Proof.
  intros <- Hne. destruct buf as [|x buf]; [done|]. unfold peek_frame in *.
  cbn [app] in *. set (b := x :: buf) in *. change (x :: buf ++ more) with (b ++ more) in *.
  assert (0 < List.length b)%nat by (cbn; lia). rewrite (at_app b more 0) by lia.
  pose proof (len_nonneg more). rewrite len_app. unfold len in *.
  destruct (at_ b 0 =? 0x03).
  { destruct (Z.ltb_spec (Z.of_nat (List.length b)) tpkt_header_size) as [|H4]; [done|].
    unfold tpkt_header_size in *.
    destruct (Z.ltb_spec (Z.of_nat (List.length b) + Z.of_nat (List.length more)) 4); [lia|].
    by rewrite !at_app by lia. }
  destruct (Z.land (at_ b 0) 0x03 =? 0); [|done].
  destruct (Z.ltb_spec (Z.of_nat (List.length b)) 2) as [|H2]; [done|].
  destruct (Z.ltb_spec (Z.of_nat (List.length b) + Z.of_nat (List.length more)) 2); [lia|].
  rewrite (at_app b more 1) by lia. destruct (Z.land (at_ b 1) 0x80 =? 0); [done|].
  destruct (Z.ltb_spec (Z.of_nat (List.length b)) 3) as [|H3]; [done|].
  destruct (Z.ltb_spec (Z.of_nat (List.length b) + Z.of_nat (List.length more)) 3); [lia|].
  by rewrite (at_app b more 2) by lia.
Qed.

Lemma peek_frame_bounds buf f :
  peek_frame buf = Ok (Some f) ->
  (kind f = tpkt -> 7 <= length f <= 65535) /\ (kind f = fastpath -> 2 <= length f <= 32767).
Proof.
  unfold peek_frame. destruct buf as [|x buf]; [done|]. set (b := x :: buf). intros H.
  pose proof (at_range b 1). pose proof (at_range b 2). pose proof (at_range b 3).
  repeat match type of H with
  | context [if ?c then _ else _] => let E := fresh "E" in destruct c eqn:E; [try done|try done]
  end; injection H as <-; cbn [kind length]; split; try done; intros _;
    rewrite ?Z.ltb_ge in *; unfold tpkt_header_size in *; rewrite ?lor_disjoint in * by lia.
  - lia.
  - rewrite Z.eqb_eq in E2. pose proof (Zupto_forall 256 (fun x => negb (Z.land x 0x80 =? 0) || (x <? 128))
      ltac:(vm_compute; done) _ H0) as Hx. cbn beta in Hx.
    rewrite E2, Z.eqb_refl, orb_true_iff, Z.ltb_lt in Hx. destruct Hx; [done|]. lia.
  - assert (0 <= Z.land (at_ b 1) 0x7F < 128).
    { rewrite (land_low _ 0x7F 7) by done. apply Z.mod_pos_bound. lia. }
    lia.
Qed.

(** A PDU that begins with a TPKT header announcing its own length is framed
    as such, whatever follows it. *)
Lemma peek_frame_tpkt n body k :
  len body = n - 4 -> 7 <= n <= 0xFFFF ->
  peek_frame (([byte_of 3; byte_of 0] ++ Writer.be_bytes 2 n ++ body) ++ k) = Ok (Some (mkFrame tpkt n)).
Proof.
  intros Hb Hn.
  change (Writer.be_bytes 2 n) with [byte_of (Z.shiftr n 8); byte_of (Z.shiftr n 0)].
  unfold peek_frame. cbn [app]. unfold at_. cbn [lookup list_lookup].
  rewrite (u8_of_byte_of_small 3) by lia. cbn [Z.eqb Pos.eqb].
  match goal with |- context [if ?c then _ else _] => destruct c eqn:E end.
  { unfold tpkt_header_size in E. rewrite !len_cons in E. len_lia. }
  rewrite !u8_of_byte_of, Z.shiftr_0_r, Z.shiftr_div_pow2, lor_disjoint by lia.
  replace (n / 2 ^ 8 mod 256 * 2 ^ 8 + n mod 256) with n by (change (2 ^ 8) with 256; lia).
  destruct (Z.ltb_spec n (tpkt_header_size + 3)); [unfold tpkt_header_size in *; lia|]. done.
Qed.

(** Four octets are enough for an answer. *)
Lemma peek_frame_short buf : peek_frame buf = Ok None -> len buf < 4.
Proof.
  intros H. apply Z.nle_gt. intros Hl. revert H. unfold peek_frame.
  destruct buf as [|x buf]; [done|]. set (b := x :: buf) in *.
  repeat match goal with
  | |- context [if ?c then _ else _] => let E := fresh "E" in destruct c eqn:E
  end; try done; rewrite ?Z.ltb_lt in *; unfold tpkt_header_size in *; lia.
Qed.

Lemma peek_frame_size buf f : peek_frame buf = Ok (Some f) -> 2 <= length f <= 65535.
Proof.
  intros H%peek_frame_bounds. destruct f as [[|] n]; cbn [kind length] in *;
    destruct H as [H1 H2]; [specialize (H1 eq_refl)|specialize (H2 eq_refl)]; lia.
Qed.

(** ** Properties *)

(** Framing is a function of the stream, not of how it is cut into
    segments: once [peek_frame] announces a PDU or an error for the buffered
    bytes, any bytes that arrive later leave its answer unchanged, and with
    the first four bytes buffered it always has one. *)
Theorem peek_frame_stable buf more :
  (peek_frame buf <> Ok None -> peek_frame (buf ++ more) = peek_frame buf) /\
  (4 <= len buf -> peek_frame buf <> Ok None).
Proof.
  split; [by apply peek_frame_app|]. intros Hl H%peek_frame_short. lia.
Qed.

(** A frame that is announced covers at least its header and the smallest
    PDU of its kind, and at most the 16- or 15-bit length limit, so consuming
    it always shortens the buffer. *)
Theorem peek_frame_progress buf f :
  peek_frame buf = Ok (Some f) ->
  0 < length f <= 65535 /\
  (length f <= len buf -> len (drop (Z.to_nat (length f)) buf) < len buf).
Proof.
  intros H%peek_frame_bounds. destruct f as [[|] n]; cbn [kind length] in *;
    destruct H as [H1 H2]; [specialize (H1 eq_refl)|specialize (H2 eq_refl)];
    split; try lia; rewrite len_drop; lia.
Qed.

Lemma peek_frame_progress_witness :
  0 < length (mkFrame fastpath 300) <= 65535 /\
  (length (mkFrame fastpath 300) <= len (byte_of <$> [0; 129; 44; 1]) ->
   len (drop (Z.to_nat 300) (byte_of <$> [0; 129; 44; 1])) < len (byte_of <$> [0; 129; 44; 1])).
Proof.
  apply (peek_frame_progress (byte_of <$> [0; 129; 44; 1]) (mkFrame fastpath 300)). vm_compute. reflexivity.
Defined.

End Framing.
