(* ===== verification/X224.v ===== *)
(** * TPKT and X.224 class 0

    Models [src/src/farland/proto/x224.hpp] and [x224.cpp]: TPKT framing, the
    Connection Request with its cookie or routing token and RDP_NEG_REQ, the
    Connection Confirm, and the Data TPDU every later PDU travels in. *)

From S2P Require Import Prelude Buffers CodecLogic Framing.
Open Scope Z_scope.

Module X224.

Definition tpkt_header_size : Z := 4.
Definition max_tpkt_size : Z := 0xFFFF.
Definition tpkt_version : Z := 3.
Definition x224_class_0 : Z := 0.
Definition data_eot : Z := 0x80.
Definition fixed_cr_cc_header : Z := 6.
Definition server_src_ref : Z := 0x1234.
Definition type_rdp_neg_req : Z := 0x01.
Definition type_rdp_neg_rsp : Z := 0x02.
Definition type_rdp_neg_failure : Z := 0x03.
Definition type_rdp_correlation_info : Z := 0x06.
Definition neg_structure_length : Z := 8.
Definition correlation_info_length : Z := 36.
Definition correlation_info_present : Z := 0x08.

(** Security protocols, namespace [protocol]. *)
Definition ssl : Z := 0x01.
Definition hybrid : Z := 0x02.
Definition hybrid_ex : Z := 0x08.

(** Characters of a literal as the bytes on the wire. *)
Definition text (s : string) : list byte := String.list_byte_of_string s.
Definition cookie_prefix : list byte := text "Cookie: mstshash=".
Definition crlf : list byte := [byte_of 13; byte_of 10].

Inductive TpduCode := connection_request | connection_confirm | disconnect_request | data.

#[export] Instance TpduCode_eq_dec : EqDecision TpduCode.
Proof. solve_decision. Defined.

Definition tpdu_value (c : TpduCode) : Z :=
  match c with
  | connection_request => 0xE0
  | connection_confirm => 0xD0
  | disconnect_request => 0x80
  | data => 0xF0
  end.

Record Negotiation := mkNegotiation { flags : Z; requested_protocols : Z }.

Record ConnectionRequest := mkRequest {
  cookie : list byte;
  routing_token : list byte;
  negotiation : option Negotiation;
  correlation_id : option (list byte) }.

Inductive ConfirmResult :=
  | monostate
  | NegotiationResponse (flags selected_protocol : Z)
  | NegotiationFailure (code : Z).

Record ConnectionConfirm := mkConfirm { result : ConfirmResult }.

(** ** Helpers *)

Fixpoint find_crlf (d : list byte) : option nat :=
  match d with
  | a :: ((b :: _) as d') =>
      if bool_decide (a = byte_of 13) && bool_decide (b = byte_of 10) then Some 0%nat
      else S <$> find_crlf d'
  | _ => None
  end.

Definition starts_with (d prefix : list byte) : bool :=
  (len prefix <=? len d) && bool_decide (take (length prefix) d = prefix).

(** LI and the fixed part of a CR or CC TPDU. *)
Definition read_cr_cc_header (expected : TpduCode) : Dec Reader.t :=
  let* start := dask Reader.offset in
  let* li := ReaderOps.u8 in
  let* remaining := dask Reader.remaining in
  if (li <? fixed_cr_cc_header) || negb (li =? remaining)
  then dfail invalid_length "X.224 length indicator does not match the TPDU" start
  else
    let* code := ReaderOps.u8 in
    if negb (code =? tpdu_value expected)
    then dfail invalid_value "unexpected X.224 TPDU code" (start + 1)
    else
      let* _ := ReaderOps.skip 4 in
      let* c := ReaderOps.u8 in
      if negb (c =? x224_class_0) then dfail unsupported "X.224 class other than 0" (start + 6)
      else
        let* remaining := dask Reader.remaining in
        ReaderOps.sub remaining.

Definition write_cr_cc_header (code : TpduCode) (variable_length src_ref : Z) : Enc unit :=
  eassert (fixed_cr_cc_header + variable_length <=? 0xFE) ;;;
  Writer.u8 (wrap 8 (fixed_cr_cc_header + variable_length)) ;;;
  Writer.u8 (tpdu_value code) ;;;
  Writer.u16be 0 ;;;
  Writer.u16be src_ref ;;;
  Writer.u8 x224_class_0.

(** ** TPKT *)

Definition begin_tpkt : Enc Z :=
  let! start := Writer.size in
  Writer.u8 tpkt_version ;;;
  Writer.u8 0 ;;;
  Writer.u16be 0 ;;;
  eret start.

Definition end_tpkt (start : Z) : Enc unit :=
  let! size := Writer.size in
  let length := size - start in
  eassert ((tpkt_header_size <=? length) && (length <=? max_tpkt_size)) ;;;
  Writer.patch_u16be (start + 2) (wrap 16 length).

Definition read_tpkt : Dec Reader.t :=
  let* start := dask Reader.offset in
  let* version := ReaderOps.u8 in
  if negb (version =? tpkt_version) then dfail invalid_value "TPKT version is not 3" start
  else
    let* _ := ReaderOps.skip 1 in
    let* length := ReaderOps.u16be in
    if length <? tpkt_header_size + 3
    then dfail invalid_length "TPKT shorter than the smallest X.224 TPDU" start
    else ReaderOps.sub (length - tpkt_header_size).

(** ** X.224 *)

(** Run on a copy of the reader, so nothing is consumed. *)
Definition peek_tpdu_code (tpdu : Reader.t) : Result TpduCode :=
  match (let* _ := ReaderOps.skip 1 in ReaderOps.u8) tpdu with
  | Err e => Err e
  | Ok (code, _) =>
      let c := Z.land code 0xF0 in
      if c =? tpdu_value connection_request then Ok connection_request
      else if c =? tpdu_value connection_confirm then Ok connection_confirm
      else if c =? tpdu_value disconnect_request then Ok disconnect_request
      else if c =? tpdu_value data then Ok data
      else fail unsupported "unknown X.224 TPDU code" (Reader.offset tpdu + 1)
  end.

(** The optional cookie or routing token in front of RDP_NEG_REQ. *)
Definition read_token : Dec (list byte * list byte) :=
  let* r := dask id in
  let starts_with_neg_req := match ReaderOps.peek_u8 r with Ok t => t =? type_rdp_neg_req | Err _ => false end in
  if negb (Reader.empty r) && negb starts_with_neg_req then
    match find_crlf (Reader.rest r) with
    | None => dfail invalid_value "X.224 cookie is not terminated by CRLF" (Reader.offset r)
    | Some e =>
        let token := take e (Reader.rest r) in
        let* _ := ReaderOps.skip (Z.of_nat e + 2) in
        dret (if starts_with token cookie_prefix then (drop (length cookie_prefix) token, []) else ([], token))
    end
  else dret ([], []).

Definition read_correlation : Dec (list byte) :=
  let* info_start := dask Reader.offset in
  let* info_type := ReaderOps.u8 in
  let* _ := ReaderOps.skip 1 in
  let* info_length := ReaderOps.u16le in
  if negb (info_type =? type_rdp_correlation_info) || negb (info_length =? correlation_info_length)
  then dfail invalid_value "malformed RDP_NEG_CORRELATION_INFO" info_start
  else
    let* id := ReaderOps.bytes 16 in
    let* _ := ReaderOps.skip 16 in
    dret id.

Definition read_neg_req : Dec (Negotiation * option (list byte)) :=
  let* start := dask Reader.offset in
  let* type := ReaderOps.u8 in
  if negb (type =? type_rdp_neg_req) then dfail invalid_value "expected RDP_NEG_REQ" start
  else
    let* fl := ReaderOps.u8 in
    let* length := ReaderOps.u16le in
    if negb (length =? neg_structure_length)
    then dfail invalid_length "RDP_NEG_REQ length is not 8" (start + 2)
    else
      let* requested := ReaderOps.u32le in
      if has_bits fl correlation_info_present then
        let* id := read_correlation in
        dret (mkNegotiation fl requested, Some id)
      else dret (mkNegotiation fl requested, None).

Definition decode_connection_request : Dec ConnectionRequest :=
  let* variable := read_cr_cc_header connection_request in
  within variable (
    let* (c, t) := read_token in
    let* empty := dask Reader.empty in
    let* (n, i) := if empty then dret (None, None)
                    else let* (n, i) := read_neg_req in dret (Some n, i) in
    let* _ := ReaderOps.expect_end "X.224 Connection Request" in
    dret (mkRequest c t n i)).

(** The variable part of a Connection Request. *)
Definition encode_request_variable (request : ConnectionRequest) : Enc unit :=
  (if negb (len (cookie request) =? 0) then
     Writer.bytes cookie_prefix ;;; Writer.bytes (cookie request) ;;; Writer.bytes crlf
   else if negb (len (routing_token request) =? 0) then
     Writer.bytes (routing_token request) ;;; Writer.bytes crlf
   else eret tt) ;;;
  match negotiation request with
  | None => eret tt
  | Some n =>
      Writer.u8 type_rdp_neg_req ;;;
      Writer.u8 (wrap 8 (Z.lor (flags n) (if bool_decide (is_Some (correlation_id request))
                                          then correlation_info_present else 0))) ;;;
      Writer.u16le neg_structure_length ;;;
      Writer.u32le (requested_protocols n) ;;;
      match correlation_id request with
      | None => eret tt
      | Some id =>
          Writer.u8 type_rdp_correlation_info ;;;
          Writer.u8 0 ;;;
          Writer.u16le correlation_info_length ;;;
          Writer.bytes id ;;;
          Writer.zeros 16
      end
  end.

Definition encode_connection_request (request : ConnectionRequest) : Enc unit :=
  let! variable := elocal (encode_request_variable request) in
  let! start := begin_tpkt in
  write_cr_cc_header connection_request (len variable) 0 ;;;
  Writer.bytes variable ;;;
  end_tpkt start.

Definition decode_connection_confirm : Dec ConnectionConfirm :=
  let* variable := read_cr_cc_header connection_confirm in
  within variable (
    let* empty := dask Reader.empty in
    if empty then dret (mkConfirm monostate)
    else
      let* start := dask Reader.offset in
      let* type := ReaderOps.u8 in
      let* fl := ReaderOps.u8 in
      let* length := ReaderOps.u16le in
      if negb (length =? neg_structure_length)
      then dfail invalid_length "RDP_NEG_RSP length is not 8" (start + 2)
      else
        let* value := ReaderOps.u32le in
        let* confirm :=
          if type =? type_rdp_neg_rsp then dret (mkConfirm (NegotiationResponse fl value))
          else if type =? type_rdp_neg_failure then dret (mkConfirm (NegotiationFailure value))
          else dfail invalid_value "expected RDP_NEG_RSP or RDP_NEG_FAILURE" start in
        let* _ := ReaderOps.expect_end "X.224 Connection Confirm" in
        dret confirm).

Definition encode_connection_confirm (confirm : ConnectionConfirm) : Enc unit :=
  let! start := begin_tpkt in
  let has_negotiation := match result confirm with monostate => false | _ => true end in
  write_cr_cc_header connection_confirm (if has_negotiation then neg_structure_length else 0) server_src_ref ;;;
  match result confirm with
  | NegotiationResponse fl selected =>
      Writer.u8 type_rdp_neg_rsp ;;; Writer.u8 fl ;;;
      Writer.u16le neg_structure_length ;;; Writer.u32le selected
  | NegotiationFailure code =>
      Writer.u8 type_rdp_neg_failure ;;; Writer.u8 0 ;;;
      Writer.u16le neg_structure_length ;;; Writer.u32le code
  | monostate => eret tt
  end ;;;
  end_tpkt start.

Definition decode_data_tpdu : Dec Reader.t :=
  let* start := dask Reader.offset in
  let* li := ReaderOps.u8 in
  let* code := ReaderOps.u8 in
  let* eot := ReaderOps.u8 in
  if negb (li =? 2) || negb (code =? tpdu_value data) || negb (eot =? data_eot)
  then dfail invalid_value "malformed X.224 Data TPDU header" start
  else
    let* remaining := dask Reader.remaining in
    ReaderOps.sub remaining.

Definition begin_data_tpdu : Enc Z :=
  let! start := begin_tpkt in
  Writer.u8 2 ;;;
  Writer.u8 (tpdu_value data) ;;;
  Writer.u8 data_eot ;;;
  eret start.

(** ** TPKT framing *)

Definition tpkt_bytes (e : list byte) : list byte :=
  [byte_of 3; byte_of 0] ++ Writer.be_bytes 2 (4 + len e) ++ e.

Lemma len_tpkt_bytes e : len (tpkt_bytes e) = 4 + len e.
Proof. unfold tpkt_bytes. len_lia. Qed.

Lemma end_tpkt_patches w e :
  4 + len e <= max_tpkt_size ->
  end_tpkt (len w) (w ++ [byte_of 3; byte_of 0] ++ Writer.be_bytes 2 0 ++ e) = Some (tt, w ++ tpkt_bytes e).
Proof.
  intros He. pose proof (len_nonneg e). unfold max_tpkt_size in *.
  unfold end_tpkt, Writer.size, ebind, eassert.
  assert (len (w ++ [byte_of 3; byte_of 0] ++ Writer.be_bytes 2 0 ++ e) - len w = 4 + len e) as -> by len_lia.
  unfold tpkt_header_size, max_tpkt_size.
  destruct (Z.leb_spec 4 (4 + len e)); [|lia]. destruct (Z.leb_spec (4 + len e) 65535); [|lia].
  cbn [andb]. unfold Writer.patch_u16be, Writer.patch.
  assert (wrap 16 (4 + len e) = 4 + len e) as -> by (unfold wrap; apply Z.mod_small; lia).
  match goal with |- context [if ?c then _ else _] => destruct c eqn:E end.
  - do 2 f_equal. unfold Writer.overwrite, tpkt_bytes.
    rewrite length_be_bytes.
    replace (Z.to_nat (len w + 2)) with (length w + 2)%nat by (unfold len; lia).
    rewrite take_app_add. replace (length w + 2 + 2)%nat with (length w + 4)%nat by lia.
    rewrite drop_app_add. by rewrite <- app_assoc.
  - apply andb_false_iff in E as [E%Z.leb_gt|E%Z.leb_gt]; len_lia.
Qed.

(** An encoder between [begin_tpkt] and [end_tpkt] is wrapped in a TPKT. *)
Lemma writes_tpkt (m : Z -> Enc unit) (body : Enc unit) e :
  (forall start w, m start w = (body ;;; end_tpkt start) w) ->
  writes body e -> 4 + len e <= max_tpkt_size ->
  writes (let! start := begin_tpkt in m start) (tpkt_bytes e).
Proof.
  intros Hm Hb He w. unfold ebind at 1, begin_tpkt, Writer.size.
  unfold Writer.u8, Writer.u16be, Writer.write_be, Writer.bytes, eret. cbn [ebind].
  unfold ebind. rewrite Hm. unfold ebind. rewrite Hb.
  rewrite <- !app_assoc. by apply end_tpkt_patches.
Qed.

Lemma reads_tpkt e k :
  3 <= len e -> 4 + len e <= max_tpkt_size ->
  reads read_tpkt (tpkt_bytes e) k (fun r => exists b, r = Reader.make e b).
Proof.
  unfold max_tpkt_size. intros H3 He. apply reads_ask. intros s b. unfold tpkt_bytes.
  change ([byte_of 3; byte_of 0] ++ ?l) with ([byte_of 3] ++ [byte_of 0] ++ l).
  rstep. cbn [Z.eqb Pos.eqb negb tpkt_version]. do 2 rstep.
  destruct (Z.ltb_spec (4 + len e) (tpkt_header_size + 3)); [unfold tpkt_header_size in *; lia|].
  apply reads_sub. unfold tpkt_header_size. lia.
Qed.

Lemma writes_data_tpdu (m : Z -> Enc unit) (body : Enc unit) e :
  (forall start w, m start w = (body ;;; end_tpkt start) w) ->
  writes body e -> 7 + len e <= max_tpkt_size ->
  writes (let! start := begin_data_tpdu in m start)
         (tpkt_bytes ([byte_of 2; byte_of 0xF0; byte_of 0x80] ++ e)).
Proof.
  intros Hm Hb He w.
  rewrite <- (writes_tpkt (fun start => (Writer.u8 2 ;;; Writer.u8 (tpdu_value data) ;;; Writer.u8 data_eot ;;; body)
                                       ;;; end_tpkt start)
               (Writer.u8 2 ;;; Writer.u8 (tpdu_value data) ;;; Writer.u8 data_eot ;;; body)).
  - unfold begin_data_tpdu, ebind, eret. destruct (begin_tpkt w) as [[start w']|]; [|done].
    unfold Writer.u8, Writer.bytes. by rewrite Hm.
  - done.
  - change ([byte_of 2; byte_of 0xF0; byte_of 0x80] ++ e) with
      ([byte_of 2] ++ [byte_of 0xF0] ++ [byte_of 0x80] ++ e).
    repeat (eapply writes_seq; [apply writes_bytes|]). done.
  - len_lia.
Qed.

Lemma reads_data_tpdu e :
  reads decode_data_tpdu ([byte_of 2; byte_of 0xF0; byte_of 0x80] ++ e) []
        (fun r => exists b, r = Reader.make e b).
Proof.
  change ([byte_of 2; byte_of 0xF0; byte_of 0x80] ++ e) with
    ([byte_of 2] ++ [byte_of 0xF0] ++ [byte_of 0x80] ++ e).
  apply reads_ask. intros s b. do 3 rstep. cbn. apply reads_ask. intros s' b'.
  apply reads_sub. rewrite remaining_mk. by rewrite app_nil_r.
Qed.

(** ** Connection Request and Confirm headers *)

Definition cr_cc_bytes (code : TpduCode) (v : list byte) (src_ref : Z) : list byte :=
  [byte_of (6 + len v)] ++ [byte_of (tpdu_value code)] ++ Writer.be_bytes 2 0 ++
  Writer.be_bytes 2 src_ref ++ [byte_of 0] ++ v.

Lemma tpdu_value_range c : 0 <= tpdu_value c < 256.
Proof. by destruct c. Qed.

Lemma writes_cr_cc code v src_ref m :
  6 + len v <= 0xFE -> writes m v ->
  writes (write_cr_cc_header code (len v) src_ref ;;; m) (cr_cc_bytes code v src_ref).
Proof.
  intros Hl Hm w. unfold write_cr_cc_header, fixed_cr_cc_header.
  unfold ebind at 1 2, eassert. destruct (Z.leb_spec (6 + len v) 0xFE); [|lia].
  unfold wrap. rewrite Z.mod_small by len_lia.
  unfold Writer.u8, Writer.u16be, Writer.write_be, Writer.bytes, ebind. rewrite Hm.
  unfold cr_cc_bytes. by rewrite <- !app_assoc.
Qed.

Lemma reads_cr_cc code v src_ref :
  6 + len v <= 0xFE ->
  reads (read_cr_cc_header code) (cr_cc_bytes code v src_ref) [] (fun r => exists b, r = Reader.make v b).
Proof.
  intros Hl. pose proof (len_nonneg v). pose proof (tpdu_value_range code).
  apply reads_ask. intros s b. unfold cr_cc_bytes. rstep. apply reads_ask. intros s' b'.
  rewrite remaining_mk. rewrite !len_app, !len_be_bytes, !len_cons, !len_nil.
  unfold fixed_cr_cc_header.
  destruct (Z.ltb_spec (6 + len v) 6); [lia|].
  destruct (Z.eqb_spec (6 + len v) (1 + 0 + (Z.of_nat 2 + (Z.of_nat 2 + (1 + 0 + len v))) + 0)); [|lia].
  cbn [orb negb]. rstep. rewrite Z.eqb_refl. cbn [negb].
  rewrite (app_assoc (Writer.be_bytes 2 0)). rstep. rstep. cbn [Z.eqb negb x224_class_0].
  apply reads_ask. intros s2 b2. apply reads_sub. rewrite remaining_mk. by rewrite app_nil_r.
Qed.

Lemma peek_tpdu_code_cr_cc code v src_ref b :
  peek_tpdu_code (Reader.make (cr_cc_bytes code v src_ref) b) = Ok code.
Proof.
  unfold peek_tpdu_code, cr_cc_bytes, Reader.make.
  assert (reads (let* _ := ReaderOps.skip 1 in ReaderOps.u8)
            ([byte_of (6 + len v)] ++ [byte_of (tpdu_value code)])
            (Writer.be_bytes 2 0 ++ Writer.be_bytes 2 src_ref ++ [byte_of 0] ++ v) (eq (tpdu_value code))) as Hr.
  { rstep. apply reads_u8. apply tpdu_value_range. }
  destruct (Hr [] b) as (a & Ha & <-). rewrite <- app_assoc in Ha. rewrite Ha. by destruct code.
Qed.

(** A TPKT is delimited by [peek_frame] exactly where it ends. *)
Lemma peek_frame_tpkt_bytes e rest :
  3 <= len e -> 4 + len e <= max_tpkt_size ->
  Framing.peek_frame (tpkt_bytes e ++ rest) =
    Ok (Some (Framing.mkFrame Framing.tpkt (4 + len e))).
Proof.
  unfold max_tpkt_size. intros H3 He. apply Framing.peek_frame_tpkt; lia.
Qed.

(** ** The cookie line *)

Lemma find_crlf_cons a b d :
  find_crlf (a :: b :: d) =
    if bool_decide (a = byte_of 13) && bool_decide (b = byte_of 10) then Some 0%nat
    else S <$> find_crlf (b :: d).
Proof. done. Qed.

Lemma find_crlf_app t k : find_crlf t = None -> find_crlf (t ++ crlf ++ k) = Some (length t).
Proof.
  induction t as [|a [|b t] IH]; intros H.
  - done.
  - cbn [app crlf length]. rewrite find_crlf_cons.
    by rewrite (bool_decide_false (byte_of 13 = byte_of 10)), andb_false_r by done.
  - rewrite find_crlf_cons in H. cbn [app]. rewrite find_crlf_cons.
    destruct (bool_decide (a = _) && _); [done|]. cbn [app] in IH.
    apply fmap_None in H. by rewrite (IH H).
Qed.

(** A token that is read back as itself. *)
Definition token_ok (t : list byte) : bool :=
  bool_decide (find_crlf t = None) && negb (starts_with t cookie_prefix) &&
  negb (match t with b :: _ => u8_of b =? type_rdp_neg_req | [] => true end).

Lemma find_crlf_cookie c : find_crlf c = None -> find_crlf (cookie_prefix ++ c) = None.
Proof. intros H. destruct c as [|b c]; [done|]. cbn. cbn in H. by rewrite H. Qed.

Lemma starts_with_app p t : starts_with (p ++ t) p = true.
Proof.
  unfold starts_with. rewrite take_app_length, bool_decide_true by done.
  rewrite andb_true_r. apply Z.leb_le. len_lia.
Qed.

Lemma reads_token t k :
  t <> [] -> find_crlf t = None ->
  match t with b :: _ => u8_of b <> type_rdp_neg_req | [] => True end ->
  reads read_token (t ++ crlf) k
    (eq (if starts_with t cookie_prefix then (drop (length cookie_prefix) t, []) else ([], t))).
Proof.
  intros Hne Ht Hb. destruct t as [|b t]; [done|]. apply reads_ask. intros s ba. unfold id.
  rewrite empty_mk, bool_decide_false by done. cbn [negb andb app].
  unfold ReaderOps.peek_u8. cbn [Reader.rest]. rewrite (proj2 (Z.eqb_neq _ _) Hb). cbn [negb].
  rewrite <- (app_assoc t crlf k).
  change (b :: t ++ crlf ++ k) with ((b :: t) ++ crlf ++ k). rewrite find_crlf_app by done.
  rewrite take_app_length. rewrite app_comm_cons.
  eapply reads_bind_nil; [apply reads_skip; unfold crlf, len; rewrite length_app; cbn; lia|].
  intros _ _. by apply reads_ret.
Qed.

(** ** The Connection Request read back *)

(** The requests the wire format can carry: one of cookie and routing token, a
    correlation id only together with its flag, everything in one TPDU. *)
Definition request_ok (q : ConnectionRequest) : bool :=
  bool_decide (find_crlf (cookie q) = None) &&
  (bool_decide (cookie q = []) || bool_decide (routing_token q = [])) &&
  (bool_decide (routing_token q = []) || token_ok (routing_token q)) &&
  match negotiation q with
  | None => bool_decide (correlation_id q = None)
  | Some n =>
      (0 <=? flags n) && (flags n <? 256) &&
      (0 <=? requested_protocols n) && (requested_protocols n <? 4294967296) &&
      Bool.eqb (has_bits (flags n) correlation_info_present) (bool_decide (is_Some (correlation_id q))) &&
      match correlation_id q with Some i => len i =? 16 | None => true end
  end &&
  (len (cookie q) + len (routing_token q) <=? 180).

Definition token_bytes (q : ConnectionRequest) : list byte :=
  if negb (len (cookie q) =? 0) then cookie_prefix ++ cookie q ++ crlf
  else if negb (len (routing_token q) =? 0) then routing_token q ++ crlf else [].

Definition correlation_bytes (i : list byte) : list byte :=
  [byte_of 6] ++ [byte_of 0] ++ Writer.le_bytes 2 36 ++ i ++ replicate 16 Corelib.Init.Byte.x00.

Definition neg_req_bytes (n : Negotiation) (i : option (list byte)) : list byte :=
  [byte_of 1] ++ [byte_of (flags n)] ++ Writer.le_bytes 2 8 ++ Writer.le_bytes 4 (requested_protocols n) ++
  match i with Some i => correlation_bytes i | None => [] end.

Lemma writes_request_variable q :
  request_ok q = true ->
  writes (encode_request_variable q)
         (token_bytes q ++ match negotiation q with Some n => neg_req_bytes n (correlation_id q) | None => [] end).
Proof.
  intros H. unfold encode_request_variable. apply writes_seq.
  - unfold token_bytes. destruct (negb (len (cookie q) =? 0)); [|destruct (negb (_ =? 0))]; repeat wstep.
  - destruct (negotiation q) as [n|] eqn:En; [|apply writes_ret].
    assert (Z.lor (flags n) (if bool_decide (is_Some (correlation_id q)) then correlation_info_present else 0)
            = flags n /\ 0 <= flags n < 256) as [-> Hf].
    { unfold request_ok in H. rewrite En in H. bools. split; [|lia].
      destruct (bool_decide (is_Some _)); [|apply Z.lor_0_r]. by apply (has_bits_lor 3). }
    unfold wrap. rewrite Z.mod_small by done.
    unfold neg_req_bytes. repeat wstep. unfold correlation_bytes. destruct (correlation_id q); repeat wstep.
Qed.

Lemma reads_correlation i : len i = 16 -> reads read_correlation (correlation_bytes i) [] (eq i).
Proof.
  intros Hi. apply reads_ask. intros s b. unfold correlation_bytes. do 3 rstep.
  cbn [Z.eqb Pos.eqb negb orb type_rdp_correlation_info correlation_info_length].
  do 2 rstep. by apply reads_ret.
Qed.

Lemma reads_neg_req n i :
  0 <= flags n < 256 -> 0 <= requested_protocols n < 4294967296 ->
  has_bits (flags n) correlation_info_present = bool_decide (is_Some i) ->
  match i with Some i => len i = 16 | None => True end ->
  reads read_neg_req (neg_req_bytes n i) [] (eq (n, i)).
Proof.
  intros Hf Hp Hb Hi. destruct n as [fl req]. cbn in Hf, Hp, Hb. apply reads_ask. intros s b.
  unfold neg_req_bytes. cbn [flags requested_protocols]. rstep. cbn [Z.eqb Pos.eqb negb type_rdp_neg_req].
  do 2 rstep. cbn [Z.eqb Pos.eqb negb neg_structure_length]. rstep. rewrite Hb. destruct i as [i|]; cbn.
  - eapply reads_bind_nil; [by apply reads_correlation|]. intros ? <-. by apply reads_ret.
  - by apply reads_ret.
Qed.

Lemma reads_request_token q k :
  request_ok q = true ->
  match k with b :: _ => u8_of b = type_rdp_neg_req | [] => True end ->
  reads read_token (token_bytes q) k (eq (cookie q, routing_token q)).
Proof.
  intros Hq Hk. unfold request_ok in Hq. rewrite !andb_true_iff, !orb_true_iff, !bool_decide_eq_true in Hq.
  destruct Hq as [[[[Hcr Hone] Htok] _] _]. unfold token_bytes.
  destruct (Z.eqb_spec (len (cookie q)) 0) as [Ec|Ec]; cbn [negb].
  - apply len_0 in Ec. rewrite Ec. destruct (Z.eqb_spec (len (routing_token q)) 0) as [Er|Er]; cbn [negb].
    + apply len_0 in Er. rewrite Er. apply reads_ask. intros s b. unfold id. rewrite empty_mk.
      unfold ReaderOps.peek_u8. cbn [app Reader.rest]. destruct k as [|x k]; [by apply reads_ret|].
      rewrite Hk. cbn. by apply reads_ret.
    + destruct (routing_token q) as [|b t] eqn:Et; [done|]. destruct Htok as [Htok|Htok]; [done|].
      unfold token_ok in Htok. apply andb_prop in Htok as [[Hf Hs]%andb_prop Hb]. bools.
      eapply reads_weaken; [by apply reads_token|]. intros ? <-. by rewrite Hs.
  - assert (cookie q <> []) as Hne by (intros E; by rewrite E in Ec).
    destruct Hone as [Hc|Hr]; [done|]; rewrite Hr. rewrite app_assoc.
    eapply reads_weaken.
    + apply reads_token; [by destruct (cookie q)|by apply find_crlf_cookie|done].
    + intros ? <-. by rewrite starts_with_app, drop_app_length.
Qed.

Lemma reads_request q v :
  request_ok q = true ->
  v = token_bytes q ++ match negotiation q with Some n => neg_req_bytes n (correlation_id q) | None => [] end ->
  6 + len v <= 0xFE ->
  reads decode_connection_request (cr_cc_bytes connection_request v 0) [] (eq q).
Proof.
  intros Hq -> Hl. eapply reads_bind_nil; [by apply reads_cr_cc|]. intros ? [b ->].
  apply reads_within. eapply reads_bind; [apply reads_request_token; [done|]|].
  { rewrite app_nil_r. destruct (negotiation q); cbn; [by rewrite u8_of_byte_of_small by lia|done]. }
  intros ? <-. apply reads_ask. intros s b'. rewrite app_nil_r, empty_mk. unfold request_ok in Hq. bools.
  destruct q as [c t [n|] i]; cbn [negotiation correlation_id cookie routing_token] in *.
  - rewrite bool_decide_false by done. bools. apply reads_bind_nil with (P := eq (Some n, i)).
    + eapply reads_bind_nil; [apply reads_neg_req; [lia|lia|done|by destruct i; bools]|].
      intros ? <-. by apply reads_ret.
    + intros ? <-. rstep. by apply reads_ret.
  - rewrite bool_decide_true by done. bools. subst i.
    apply reads_bind_nil with (P := eq (None, None)); [by apply reads_ret|]. intros ? <-.
    rstep. by apply reads_ret.
Qed.

Lemma len_request_variable q :
  request_ok q = true ->
  6 + len (token_bytes q ++ match negotiation q with Some n => neg_req_bytes n (correlation_id q) | None => [] end)
    <= 0xFE.
Proof.
  intros Hq. unfold request_ok in Hq.
  apply andb_prop in Hq as [[_ Hneg]%andb_prop Hlen]. bools.
  assert (len (token_bytes q) <= 199) as Ht.
  { change (len cookie_prefix) with 17. unfold token_bytes.
    destruct (negb (len (cookie q) =? 0)); [|destruct (negb (_ =? 0))]; unfold crlf;
      rewrite ?len_app; try change (len cookie_prefix) with 17; len_lia. }
  assert (len (match negotiation q with Some n => neg_req_bytes n (correlation_id q) | None => [] end) <= 44) as Hn.
  { destruct (negotiation q) as [n|]; [|by cbn]. unfold neg_req_bytes, correlation_bytes.
    destruct (correlation_id q); bools; len_lia. }
  rewrite len_app. lia.
Qed.

(** What a peer does with the bytes of a whole TPKT: delimit the frame in the
    stream, open the TPKT and look at the TPDU code. *)
Definition received (e : list byte) (c : TpduCode) (tpdu : Reader.t) : Prop :=
  (forall rest, Framing.peek_frame (e ++ rest) = Ok (Some (Framing.mkFrame Framing.tpkt (len e)))) /\
  read_tpkt (Reader.make e 0) = Ok (tpdu, Reader.mk e [] 0) /\
  peek_tpdu_code tpdu = Ok c.

Lemma received_cr_cc c v src :
  6 + len v <= 0xFE ->
  exists b, received (tpkt_bytes (cr_cc_bytes c v src)) c (Reader.make (cr_cc_bytes c v src) b).
Proof.
  intros Hl.
  assert (7 <= len (cr_cc_bytes c v src) <= 255) as Hc by (unfold cr_cc_bytes; len_lia).
  destruct (reads_tpkt (cr_cc_bytes c v src) [] ltac:(lia) ltac:(unfold max_tpkt_size; lia) [] 0)
    as (r & Hr & b & ->).
  exists b. split_and!.
  - intros rest. rewrite peek_frame_tpkt_bytes by (unfold max_tpkt_size; lia). by rewrite len_tpkt_bytes.
  - by rewrite app_nil_r in Hr.
  - apply peek_tpdu_code_cr_cc.
Qed.

Definition confirm_ok (c : ConnectionConfirm) : bool :=
  match result c with
  | monostate => true
  | NegotiationResponse fl p => (0 <=? fl) && (fl <? 256) && (0 <=? p) && (p <? 4294967296)
  | NegotiationFailure c => (0 <=? c) && (c <? 4294967296)
  end.

Definition confirm_variable (c : ConnectionConfirm) : list byte :=
  match result c with
  | monostate => []
  | NegotiationResponse fl p => [byte_of 2] ++ [byte_of fl] ++ Writer.le_bytes 2 8 ++ Writer.le_bytes 4 p
  | NegotiationFailure c => [byte_of 3] ++ [byte_of 0] ++ Writer.le_bytes 2 8 ++ Writer.le_bytes 4 c
  end.

Lemma reads_confirm c :
  confirm_ok c = true ->
  reads decode_connection_confirm (cr_cc_bytes connection_confirm (confirm_variable c) server_src_ref) [] (eq c).
Proof.
  intros Hc. eapply reads_bind_nil; [apply reads_cr_cc|].
  { unfold confirm_variable. destruct (result c); len_lia. }
  intros ? [b ->]. apply reads_within. apply reads_ask. intros s b'. rewrite app_nil_r, empty_mk.
  destruct c as [[|fl p|p]]; unfold confirm_ok, confirm_variable in *; cbn [result] in *; bools.
  - by apply reads_ret.
  - rewrite bool_decide_false by done. do 4 rstep. cbn [Z.eqb Pos.eqb negb neg_structure_length].
    rstep. cbn [Z.eqb Pos.eqb type_rdp_neg_rsp].
    apply reads_bind_nil with (P := eq (mkConfirm (NegotiationResponse fl p))); [by apply reads_ret|].
    intros ? <-. rstep. by apply reads_ret.
  - rewrite bool_decide_false by done. do 4 rstep. cbn [Z.eqb Pos.eqb negb neg_structure_length].
    rstep. cbn [Z.eqb Pos.eqb type_rdp_neg_rsp type_rdp_neg_failure].
    apply reads_bind_nil with (P := eq (mkConfirm (NegotiationFailure p))); [by apply reads_ret|].
    intros ? <-. rstep. by apply reads_ret.
Qed.

Lemma writes_confirm c :
  writes (encode_connection_confirm c)
         (tpkt_bytes (cr_cc_bytes connection_confirm (confirm_variable c) server_src_ref)).
Proof.
  set (m := match result c with
            | NegotiationResponse fl selected =>
                Writer.u8 type_rdp_neg_rsp ;;; Writer.u8 fl ;;;
                Writer.u16le neg_structure_length ;;; Writer.u32le selected
            | NegotiationFailure code =>
                Writer.u8 type_rdp_neg_failure ;;; Writer.u8 0 ;;;
                Writer.u16le neg_structure_length ;;; Writer.u32le code
            | monostate => eret tt
            end).
  assert (len (confirm_variable c) = if match result c with monostate => false | _ => true end
                                     then neg_structure_length else 0) as Hl.
  { unfold confirm_variable. destruct (result c); unfold neg_structure_length; len_lia. }
  eapply (writes_tpkt _ (write_cr_cc_header connection_confirm (len (confirm_variable c)) server_src_ref ;;; m)).
  - intros start w. rewrite Hl. unfold ebind. by destruct (write_cr_cc_header _ _ _ _) as [[[] ?]|].
  - apply writes_cr_cc; [rewrite Hl; by destruct (result c)|].
    unfold m, confirm_variable. destruct (result c); repeat wstep.
  - unfold cr_cc_bytes, max_tpkt_size. autorewrite with len. rewrite Hl.
    unfold neg_structure_length. destruct (result c); lia.
Qed.

Lemma writes_request q v :
  request_ok q = true ->
  v = token_bytes q ++ match negotiation q with Some n => neg_req_bytes n (correlation_id q) | None => [] end ->
  writes (encode_connection_request q) (tpkt_bytes (cr_cc_bytes connection_request v 0)).
Proof.
  intros Hq Hv. pose proof (len_request_variable q Hq) as Hl. rewrite <- Hv in Hl.
  eapply writes_local; [apply writes_run; rewrite Hv; by apply writes_request_variable|].
  rewrite <- Hv. eapply (writes_tpkt _ (write_cr_cc_header connection_request (len v) 0 ;;; Writer.bytes v)).
  - intros start w. unfold ebind. by destruct (write_cr_cc_header _ _ _ _) as [[[] ?]|].
  - apply writes_cr_cc; [done|apply writes_bytes].
  - unfold cr_cc_bytes, max_tpkt_size. len_lia.
Qed.

Lemma request_received q :
  request_ok q = true ->
  exists e tpdu r,
    Writer.run (encode_connection_request q) = Some e /\ len e <= 259 /\
    received e connection_request tpdu /\ decode_connection_request tpdu = Ok (q, r).
Proof.
  intros Hq. pose proof (len_request_variable q Hq) as Hl.
  set (v := token_bytes q ++ _) in Hl.
  destruct (received_cr_cc connection_request v 0 Hl) as [b Hb].
  exists (tpkt_bytes (cr_cc_bytes connection_request v 0)), (Reader.make (cr_cc_bytes connection_request v 0) b).
  eexists. split_and!; [apply writes_run; by apply writes_request| |done|].
  - rewrite len_tpkt_bytes. unfold cr_cc_bytes. len_lia.
  - apply reads_run. by apply reads_request.
Qed.

(** every Connection Request the format can carry (one of cookie and
    routing token, correlation id with its flag) survives the wire: the bytes
    [encode_connection_request] writes are delimited by [peek_frame] whatever
    follows in the stream, open as a TPKT holding a Connection Request TPDU, and
    decode to the request itself. *)
Theorem connection_request_roundtrip (q : ConnectionRequest) :
  request_ok q = true ->
  exists e tpdu r,
    Writer.run (encode_connection_request q) = Some e /\
    received e connection_request tpdu /\
    decode_connection_request tpdu = Ok (q, r).
Proof.
  intros Hq. destruct (request_received q Hq) as (e & tpdu & r & ? & _ & ? & ?). by exists e, tpdu, r.
Qed.

Definition sample_request : ConnectionRequest :=
  mkRequest (text "ada") [] (Some (mkNegotiation 0 11)) None.

Lemma connection_request_roundtrip_witness :
  request_ok sample_request = true /\
  exists e tpdu r,
    Writer.run (encode_connection_request sample_request) = Some e /\
    received e connection_request tpdu /\
    decode_connection_request tpdu = Ok (sample_request, r).
Proof. split; [vm_compute; reflexivity|]. apply connection_request_roundtrip. vm_compute. reflexivity. Defined.

(** every Connection Confirm the server sends (no negotiation, a selected
    protocol, or a failure code) is framed, opened as a Connection Confirm TPDU
    and decoded back to itself. *)
Theorem connection_confirm_roundtrip (c : ConnectionConfirm) :
  confirm_ok c = true ->
  exists e tpdu r,
    Writer.run (encode_connection_confirm c) = Some e /\
    received e connection_confirm tpdu /\
    decode_connection_confirm tpdu = Ok (c, r).
Proof.
  intros Hc.
  assert (6 + len (confirm_variable c) <= 0xFE) as Hl.
  { unfold confirm_variable. destruct (result c); len_lia. }
  destruct (received_cr_cc connection_confirm (confirm_variable c) server_src_ref Hl) as [b Hb].
  do 3 eexists. split_and!; [apply writes_run, writes_confirm|exact Hb|].
  apply reads_run. by apply reads_confirm.
Qed.

Lemma connection_confirm_roundtrip_witness :
  confirm_ok (mkConfirm (NegotiationFailure 5)) = true /\
  exists e tpdu r,
    Writer.run (encode_connection_confirm (mkConfirm (NegotiationFailure 5))) = Some e /\
    received e connection_confirm tpdu /\
    decode_connection_confirm tpdu = Ok (mkConfirm (NegotiationFailure 5), r).
Proof. split; [reflexivity|]. apply connection_confirm_roundtrip. reflexivity. Defined.

End X224.
