(* ===== verification/Mcs.v ===== *)
(** * T.125 Multipoint Communication Service

    Models [src/src/farland/proto/mcs.hpp] and [mcs.cpp]: the BER-encoded
    Connect-Initial and Connect-Response, the negotiation of the domain
    parameters, and the PER-encoded domain PDUs. *)

From S2P Require Import Prelude Buffers CodecLogic Ber Per.
Open Scope Z_scope.

Module Mcs.

Definition user_id_base : Z := 1001.
Definition io_channel_id : Z := 1003.
Definition server_channel_id : Z := 1002.

Record DomainParameters := mkDomain {
  max_channel_ids : Z;
  max_user_ids : Z;
  max_token_ids : Z;
  num_priorities : Z;
  min_throughput : Z;
  max_height : Z;
  max_mcs_pdu_size : Z;
  protocol_version : Z }.

#[export] Instance DomainParameters_eq_dec : EqDecision DomainParameters.
Proof. solve_decision. Defined.

Record ConnectInitial := mkInitial {
  calling_domain_selector : list byte;
  called_domain_selector : list byte;
  upward_flag : bool;
  target : DomainParameters;
  minimum : DomainParameters;
  maximum : DomainParameters;
  user_data : list byte }.

(** [enum class ResultCode : std::uint8_t]; the decoders cast any value below
    [result_alternatives] to it, named or not. *)
Definition ResultCode := Z.
Definition successful : ResultCode := 0.
Definition no_such_channel : ResultCode := 3.
Definition too_many_channels : ResultCode := 11.

Record ConnectResponse := mkResponse {
  result : ResultCode;
  called_connect_id : Z;
  parameters : DomainParameters;
  response_data : list byte }.

Inductive DisconnectReason :=
  | domain_disconnected | provider_initiated | token_purged | user_requested | channel_purged.

#[export] Instance DisconnectReason_eq_dec : EqDecision DisconnectReason.
Proof. solve_decision. Defined.

Definition reason_value (r : DisconnectReason) : Z :=
  match r with
  | domain_disconnected => 0
  | provider_initiated => 1
  | token_purged => 2
  | user_requested => 3
  | channel_purged => 4
  end.

(** [static_cast<DisconnectReason>] of a value known to be at most 4. *)
Definition reason_of (v : Z) : DisconnectReason :=
  if v =? 0 then domain_disconnected else if v =? 1 then provider_initiated
  else if v =? 2 then token_purged else if v =? 3 then user_requested else channel_purged.

Inductive DomainPdu :=
  | ErectDomainRequest (sub_height sub_interval : Z)
  | DisconnectProviderUltimatum (reason : DisconnectReason)
  | AttachUserRequest
  | AttachUserConfirm (result : ResultCode) (initiator : option Z)
  | ChannelJoinRequest (initiator channel_id : Z)
  | ChannelJoinConfirm (result : ResultCode) (initiator requested : Z) (channel_id : option Z)
  | SendDataRequest (initiator channel_id : Z) (data : list byte)
  | SendDataIndication (initiator channel_id : Z) (data : list byte).

Definition rules : Ber.Rules := Ber.ber.
Definition connect_initial_tag : Ber.Tag := Ber.application 101 true.
Definition connect_response_tag : Ber.Tag := Ber.application 102 true.

(** DomainMCSPDU CHOICE indices. *)
Definition erect_domain_request : Z := 1.
Definition disconnect_provider_ultimatum : Z := 8.
Definition attach_user_request : Z := 10.
Definition attach_user_confirm : Z := 11.
Definition channel_join_request : Z := 14.
Definition channel_join_confirm : Z := 15.
Definition send_data_request : Z := 25.
Definition send_data_indication : Z := 26.

Definition optional_field_present : Z := 0x02.
Definition priority_and_segmentation : Z := 0x70.
Definition result_alternatives : Z := 16.

Definition header (choice low_bits : Z) : Z := wrap 8 (Z.lor (Z.shiftl choice 2) low_bits).

(** ** Connect-Initial and Connect-Response *)

Definition read_u32_integer : Dec Z :=
  let* start := dask Reader.offset in
  let* tlv := Ber.expect_tlv Ber.tag_integer rules in
  let* value := dlift (Ber.decode_raw_unsigned tlv) in
  if 2 ^ 32 - 1 <? value then dfail limit_exceeded "MCS domain parameter above 2^32" start
  else dret value.

Definition read_domain_parameters : Dec DomainParameters :=
  let* seq := Ber.read_constructed Ber.tag_sequence rules in
  within seq (
    let* a := read_u32_integer in
    let* b := read_u32_integer in
    let* c := read_u32_integer in
    let* d := read_u32_integer in
    let* e := read_u32_integer in
    let* f := read_u32_integer in
    let* g := read_u32_integer in
    let* h := read_u32_integer in
    let* _ := ReaderOps.expect_end "MCS DomainParameters" in
    dret (mkDomain a b c d e f g h)).

Fixpoint write_unsigneds (values : list Z) : Enc unit :=
  match values with
  | [] => eret tt
  | v :: values' => Ber.write_unsigned v Ber.tag_integer ;;; write_unsigneds values'
  end.

Definition write_domain_parameters (p : DomainParameters) : Enc unit :=
  Ber.write_constructed Ber.tag_sequence
    (write_unsigneds [max_channel_ids p; max_user_ids p; max_token_ids p; num_priorities p;
                      min_throughput p; max_height p; max_mcs_pdu_size p; protocol_version p]).

Definition read_result : Dec ResultCode := Per.read_enumerated result_alternatives.

Definition decode_connect_initial : Dec ConnectInitial :=
  let* body := Ber.read_constructed connect_initial_tag rules in
  within body (
    let* calling := Ber.read_octet_string rules Ber.tag_octet_string in
    let* called := Ber.read_octet_string rules Ber.tag_octet_string in
    let* upward := Ber.read_boolean rules Ber.tag_boolean in
    let* t := read_domain_parameters in
    let* mi := read_domain_parameters in
    let* ma := read_domain_parameters in
    let* ud := Ber.read_octet_string rules Ber.tag_octet_string in
    let* _ := ReaderOps.expect_end "MCS Connect-Initial" in
    dret (mkInitial calling called upward t mi ma ud)).

Definition encode_connect_initial (pdu : ConnectInitial) : Enc unit :=
  Ber.write_constructed connect_initial_tag (
    Ber.write_octet_string (calling_domain_selector pdu) Ber.tag_octet_string ;;;
    Ber.write_octet_string (called_domain_selector pdu) Ber.tag_octet_string ;;;
    Ber.write_boolean (upward_flag pdu) Ber.tag_boolean ;;;
    write_domain_parameters (target pdu) ;;;
    write_domain_parameters (minimum pdu) ;;;
    write_domain_parameters (maximum pdu) ;;;
    Ber.write_octet_string (user_data pdu) Ber.tag_octet_string).

Definition decode_connect_response : Dec ConnectResponse :=
  let* body := Ber.read_constructed connect_response_tag rules in
  within body (
    let* result_offset := dask Reader.offset in
    let* res := Ber.read_unsigned rules Ber.tag_enumerated in
    if result_alternatives <=? res
    then dfail invalid_value "MCS Connect-Response result out of range" result_offset
    else
      let* id := read_u32_integer in
      let* p := read_domain_parameters in
      let* ud := Ber.read_octet_string rules Ber.tag_octet_string in
      let* _ := ReaderOps.expect_end "MCS Connect-Response" in
      dret (mkResponse res id p ud)).

Definition encode_connect_response (pdu : ConnectResponse) : Enc unit :=
  Ber.write_constructed connect_response_tag (
    Ber.write_unsigned (result pdu) Ber.tag_enumerated ;;;
    Ber.write_unsigned (called_connect_id pdu) Ber.tag_integer ;;;
    write_domain_parameters (parameters pdu) ;;;
    Ber.write_octet_string (response_data pdu) Ber.tag_octet_string).

Definition min_pdu_size : Z := 1024.
Definition max_pdu_size : Z := 65528.

(** [std::clamp]. *)
Definition clamp (v lo hi : Z) : Z := if v <? lo then lo else if hi <? v then hi else v.

Definition negotiate_domain_parameters (pdu : ConnectInitial) : DomainParameters :=
  let t := target pdu in
  let pdu_size := if min_pdu_size <=? max_mcs_pdu_size t then max_mcs_pdu_size t
                  else max_mcs_pdu_size (maximum pdu) in
  {| max_channel_ids := Z.max (max_channel_ids t) 4;
     max_user_ids := Z.max (max_user_ids t) 3;
     max_token_ids := max_token_ids t;
     num_priorities := 1;
     min_throughput := min_throughput t;
     max_height := 1;
     max_mcs_pdu_size := clamp pdu_size min_pdu_size max_pdu_size;
     protocol_version := 2 |}.

(** ** Domain PDUs *)

Definition read_send_data (choice : Z) : Dec DomainPdu :=
  let* initiator := Per.read_integer16 user_id_base in
  let* channel_id := Per.read_integer16 0 in
  let* _ := ReaderOps.skip 1 in
  let* length := Per.read_length in
  let* data := ReaderOps.bytes length in
  dret (if choice =? send_data_request then SendDataRequest initiator channel_id data
        else SendDataIndication initiator channel_id data).

Definition read_domain_body (start choice low_bits : Z) : Dec DomainPdu :=
  if choice =? erect_domain_request then
    let* height := Per.read_integer in
    let* interval := Per.read_integer in
    dret (ErectDomainRequest height interval)
  else if choice =? disconnect_provider_ultimatum then
    let* second := ReaderOps.u8 in
    let reason := Z.lor (Z.shiftl low_bits 1) (Z.shiftr second 7) in
    if reason_value channel_purged <? reason
    then dfail invalid_value "unknown Disconnect Provider Ultimatum reason" start
    else dret (DisconnectProviderUltimatum (reason_of reason))
  else if choice =? attach_user_request then dret AttachUserRequest
  else if choice =? attach_user_confirm then
    let* res := read_result in
    if has_bits low_bits optional_field_present then
      let* initiator := Per.read_integer16 user_id_base in
      dret (AttachUserConfirm res (Some initiator))
    else dret (AttachUserConfirm res None)
  else if choice =? channel_join_request then
    let* initiator := Per.read_integer16 user_id_base in
    let* channel_id := Per.read_integer16 0 in
    dret (ChannelJoinRequest initiator channel_id)
  else if choice =? channel_join_confirm then
    let* res := read_result in
    let* initiator := Per.read_integer16 user_id_base in
    let* requested := Per.read_integer16 0 in
    if has_bits low_bits optional_field_present then
      let* channel_id := Per.read_integer16 0 in
      dret (ChannelJoinConfirm res initiator requested (Some channel_id))
    else dret (ChannelJoinConfirm res initiator requested None)
  else if (choice =? send_data_request) || (choice =? send_data_indication) then read_send_data choice
  else dfail unsupported "unsupported MCS domain PDU" start.

Definition decode_domain_pdu : Dec DomainPdu :=
  let* start := dask Reader.offset in
  let* first := ReaderOps.u8 in
  let* pdu := read_domain_body start (Z.shiftr first 2) (Z.land first 0x03) in
  let* _ := ReaderOps.expect_end "MCS domain PDU" in
  dret pdu.

Definition encode_send_data (choice initiator channel_id : Z) (data : list byte) : Enc unit :=
  Writer.u8 (header choice 0) ;;;
  Per.write_integer16 initiator user_id_base ;;;
  Per.write_integer16 channel_id 0 ;;;
  Writer.u8 priority_and_segmentation ;;;
  Per.write_length (len data) ;;;
  Writer.bytes data.

(** The overloads of [encode]. *)
Definition encode (pdu : DomainPdu) : Enc unit :=
  match pdu with
  | ErectDomainRequest sub_height sub_interval =>
      Writer.u8 (header erect_domain_request 0) ;;;
      Per.write_integer sub_height ;;;
      Per.write_integer sub_interval
  | DisconnectProviderUltimatum r =>
      let reason := reason_value r in
      Writer.u8 (header disconnect_provider_ultimatum (wrap 8 (Z.shiftr reason 1))) ;;;
      Writer.u8 (wrap 8 (Z.shiftl (Z.land reason 1) 7))
  | AttachUserRequest => Writer.u8 (header attach_user_request 0)
  | AttachUserConfirm res initiator =>
      Writer.u8 (header attach_user_confirm (if bool_decide (is_Some initiator) then optional_field_present else 0)) ;;;
      Per.write_enumerated res ;;;
      match initiator with
      | Some i => Per.write_integer16 i user_id_base
      | None => eret tt
      end
  | ChannelJoinRequest initiator channel_id =>
      Writer.u8 (header channel_join_request 0) ;;;
      Per.write_integer16 initiator user_id_base ;;;
      Per.write_integer16 channel_id 0
  | ChannelJoinConfirm res initiator requested channel_id =>
      Writer.u8 (header channel_join_confirm (if bool_decide (is_Some channel_id) then optional_field_present else 0)) ;;;
      Per.write_enumerated res ;;;
      Per.write_integer16 initiator user_id_base ;;;
      Per.write_integer16 requested 0 ;;;
      match channel_id with
      | Some c => Per.write_integer16 c 0
      | None => eret tt
      end
  | SendDataRequest initiator channel_id data => encode_send_data send_data_request initiator channel_id data
  | SendDataIndication initiator channel_id data => encode_send_data send_data_indication initiator channel_id data
  end.

(** ** Connect-Initial and Connect-Response read back *)

Definition u32 (v : Z) : bool := (0 <=? v) && (v <? 2 ^ 32).

Definition domain_ok (p : DomainParameters) : bool :=
  u32 (max_channel_ids p) && u32 (max_user_ids p) && u32 (max_token_ids p) && u32 (num_priorities p) &&
  u32 (min_throughput p) && u32 (max_height p) && u32 (max_mcs_pdu_size p) && u32 (protocol_version p).

Lemma mcs_encodes_u32 v :
  u32 v = true -> encodes (Ber.write_unsigned v Ber.tag_integer) read_u32_integer v 18.
Proof.
  unfold u32. intros H. bools. apply encodes_ask.
  destruct (Ber.unsigned_digits_spec v ltac:(lia)) as (_ & Hl & _).
  destruct (Ber.ber_encodes_tlv Ber.tag_integer (Ber.unsigned_digits v) rules) as (e & W & L & R); [done|lia|].
  exists e. split_and!; [done|lia|]. intros x k.
  eapply reads_bind_nil; [by eapply Ber.reads_expect_tlv|]. intros tlv Ht. cbn beta.
  eapply reads_bind_nil; [eapply reads_lift; [apply (Ber.decode_raw_unsigned_digits _ v); [lia|done]|]|].
  - exact (eq_refl v).
  - intros ? <-. destruct (Z.ltb_spec (2 ^ 32 - 1) v); [lia|]. by apply reads_ret.
Qed.

(** Fields in sequence, the last of them at the end of the input. *)
Ltac fields :=
  lazymatch goal with
  | |- encodes_end (ebind _ _) (dbind _ _) _ _ =>
      eapply encodes_seq_end; [solve [eauto with codec]|]; cbn beta; fields
  | |- encodes_end _ (dbind _ _) _ _ =>
      eapply encodes_last_end; [apply encodes_encodes_end; solve [eauto with codec]|]; cbn beta
  | |- encodes (ebind _ _) (dbind _ _) _ _ =>
      eapply encodes_seq; [solve [eauto with codec]|]; cbn beta; fields
  | |- encodes _ (dbind _ _) _ _ =>
      eapply encodes_last; [solve [eauto with codec]|intros ?]; cbn beta
  end.

#[local] Hint Resolve mcs_encodes_u32 : codec.

Lemma write_unsigneds_cons v vs :
  write_unsigneds (v :: vs) = (Ber.write_unsigned v Ber.tag_integer ;;; write_unsigneds vs).
Proof. done. Qed.

Lemma mcs_encodes_domain p :
  domain_ok p = true -> encodes (write_domain_parameters p) read_domain_parameters p 153.
Proof.
  unfold domain_ok. intros Hp. bools. destruct p as [a b c d e f g h]. cbn in *.
  change 153 with (9 + 144). apply Ber.ber_encodes_constructed; [done|done|lia|].
  rewrite !write_unsigneds_cons.
  eapply encodes_end_le.
  - do 8 (eapply encodes_seq_end; [solve [eauto with codec]|]; cbn beta).
    apply encodes_end_nil. rstep. by apply reads_ret.
  - lia.
Qed.

#[local] Hint Resolve mcs_encodes_domain : codec.

Lemma mcs_octet_string v : len v < 2 ^ 31 ->
  encodes (Ber.write_octet_string v Ber.tag_octet_string)
          (Ber.read_octet_string rules Ber.tag_octet_string) v (9 + len v).
Proof. intros H. apply Ber.ber_encodes_octet_string; [done|lia]. Qed.
Lemma mcs_boolean v :
  encodes (Ber.write_boolean v Ber.tag_boolean) (Ber.read_boolean rules Ber.tag_boolean) v 10.
Proof. by apply Ber.ber_encodes_boolean. Qed.

#[local] Hint Resolve mcs_octet_string mcs_boolean : codec.

(** Selectors and user data together stay below the four-octet BER length. *)
Definition initial_ok (pdu : ConnectInitial) : bool :=
  domain_ok (target pdu) && domain_ok (minimum pdu) && domain_ok (maximum pdu) &&
  (len (calling_domain_selector pdu) + len (called_domain_selector pdu) + len (user_data pdu) <? 2 ^ 31).

Definition response_ok (pdu : ConnectResponse) : bool :=
  (0 <=? result pdu) && (result pdu <? result_alternatives) && u32 (called_connect_id pdu) &&
  domain_ok (parameters pdu) && (len (response_data pdu) <? 2 ^ 31).

Lemma mcs_encodes_initial pdu :
  initial_ok pdu = true ->
  encodes (encode_connect_initial pdu) decode_connect_initial pdu
    (505 + len (calling_domain_selector pdu) + len (called_domain_selector pdu) + len (user_data pdu)).
Proof.
  unfold initial_ok. intros H. bools. destruct pdu as [c1 c2 up t mi ma ud]. cbn in *.
  pose proof (len_nonneg c1). pose proof (len_nonneg c2). pose proof (len_nonneg ud).
  replace (505 + len c1 + len c2 + len ud) with (9 + (496 + len c1 + len c2 + len ud)) by lia.
  apply Ber.ber_encodes_constructed; [done|done|lia|].
  assert (len c1 < 2 ^ 31 /\ len c2 < 2 ^ 31 /\ len ud < 2 ^ 31) as (? & ? & ?) by lia.
  cbn [calling_domain_selector called_domain_selector upward_flag target minimum maximum user_data].
  eapply encodes_end_le; [fields; rstep; by apply reads_ret|lia].
Qed.

Lemma mcs_encodes_response pdu :
  response_ok pdu = true ->
  encodes (encode_connect_response pdu) decode_connect_response pdu (207 + len (response_data pdu)).
Proof.
  unfold response_ok. intros H. bools. destruct pdu as [res id p ud]. cbn in *.
  pose proof (len_nonneg ud).
  replace (207 + len ud) with (9 + (198 + len ud)) by lia. apply Ber.ber_encodes_constructed; [done|done|lia|].
  cbn [result called_connect_id parameters response_data].
  apply encodes_end_ask. intros x.
  eapply encodes_end_le.
  - eapply encodes_seq_end; [apply Ber.ber_encodes_unsigned; [done|unfold result_alternatives in *; lia]|].
    cbn beta. destruct (Z.leb_spec result_alternatives res); [unfold result_alternatives in *; lia|].
    fields. rstep. by apply reads_ret.
  - lia.
Qed.

Definition u16_from (lo v : Z) : bool := (lo <=? v) && (v <? 65536).

(** ** What the decoders accept *)

Lemma be_loop_nonneg w digits : forall v, 0 <= w -> 0 <= v -> 0 <= ReaderOps.be_loop w digits v.
Proof.
  unfold ReaderOps.be_loop. induction digits as [|d digits IH]; intros v Hw Hv; cbn [fold_left]; [done|].
  apply IH; [done|]. apply Z.mod_pos_bound. apply Z.pow_pos_nonneg; lia.
Qed.

Lemma read_u32_integer_inv r v r' : read_u32_integer r = Ok (v, r') -> u32 v = true.
Proof.
  unfold read_u32_integer. rewrite dbind_ask. intros (tlv & r1 & _ & H)%dbind_inv.
  apply dbind_inv in H as (x & r2 & Hx & H). destruct (Z.ltb_spec (2 ^ 32 - 1) x) as [|Hle]; [done|].
  injection H as <- _. unfold dlift in Hx. destruct (Ber.decode_raw_unsigned tlv) as [y|] eqn:E; [|done].
  injection Hx as <- _. unfold Ber.decode_raw_unsigned in E. destruct (Ber.value tlv); [done|].
  destruct (8 <? _); [done|]. injection E as <-. unfold u32. apply andb_true_intro. split; [|lia].
  apply Z.leb_le. by apply be_loop_nonneg.
Qed.

Lemma read_domain_parameters_inv r p r' : read_domain_parameters r = Ok (p, r') -> domain_ok p = true.
Proof.
  unfold read_domain_parameters. intros (seq & r1 & _ & H)%dbind_inv.
  unfold within in H. destruct (dbind _ _ seq) as [[q r2]|] eqn:E; [|done]. injection H as <- _.
  do 8 (apply dbind_inv in E as (? & ? & ?%read_u32_integer_inv & E)). apply dbind_inv in E as (? & ? & _ & E).
  injection E as <- _. unfold domain_ok. cbn. by rewrite !andb_true_iff.
Qed.

Lemma decode_connect_initial_inv r pdu r' :
  decode_connect_initial r = Ok (pdu, r') -> domain_ok (target pdu) = true /\ domain_ok (maximum pdu) = true.
Proof.
  unfold decode_connect_initial. intros (body & r1 & _ & H)%dbind_inv.
  unfold within in H. destruct (dbind _ _ body) as [[q r2]|] eqn:E; [|done]. injection H as <- _.
  do 3 (apply dbind_inv in E as (? & ? & _ & E)).
  do 3 (apply dbind_inv in E as (? & ? & ?%read_domain_parameters_inv & E)).
  do 2 (apply dbind_inv in E as (? & ? & _ & E)). injection E as <- _. by split.
Qed.

Lemma read_integer16_inv m r v r' : Per.read_integer16 m r = Ok (v, r') -> u16_from 0 v = true.
Proof.
  unfold Per.read_integer16. rewrite dbind_ask. intros (x & r1 & _ & H)%dbind_inv. destruct (_ <? x); [done|].
  injection H as <- _. unfold u16_from. apply andb_true_intro.
  assert (0 <= wrap 16 (x + m) < 65536) by (by apply (Z.mod_pos_bound _ 65536)). lia.
Qed.

(** The channel a client asks to join is a number of 16 bits. *)
Lemma decode_join_inv r i c r' : decode_domain_pdu r = Ok (ChannelJoinRequest i c, r') -> u16_from 0 c = true.
Proof.
  unfold decode_domain_pdu. rewrite dbind_ask. intros (first & r1 & _ & H)%dbind_inv.
  apply dbind_inv in H as (p & r2 & Hb & H). apply dbind_inv in H as (? & r3 & _ & H). injection H as -> _.
  unfold read_domain_body, read_send_data in Hb.
  repeat match type of Hb with
  | (if ?b then _ else _) _ = _ => destruct b
  end; repeat (apply dbind_inv in Hb as (? & ? & ? & Hb)); try done;
    repeat match type of Hb with (if ?b then _ else _) _ = _ => destruct b end;
    repeat (apply dbind_inv in Hb as (? & ? & ? & Hb)); try done.
  - injection Hb as <- <- _. by eapply read_integer16_inv.
  - injection Hb as Hb _. by destruct (_ =? _).
Qed.

(** ** Domain PDUs read back *)

Definition send_data_header_max : Z := 8.

Definition result_ok (v : Z) : bool := (0 <=? v) && (v <? result_alternatives).

Definition pdu_ok (pdu : DomainPdu) : bool :=
  match pdu with
  | ErectDomainRequest h i => u32 h && u32 i
  | DisconnectProviderUltimatum _ | AttachUserRequest => true
  | AttachUserConfirm res i => result_ok res && match i with Some i => u16_from user_id_base i | None => true end
  | ChannelJoinRequest i c => u16_from user_id_base i && u16_from 0 c
  | ChannelJoinConfirm res i r c =>
      result_ok res && u16_from user_id_base i && u16_from 0 r &&
      match c with Some c => u16_from 0 c | None => true end
  | SendDataRequest i c d | SendDataIndication i c d =>
      u16_from user_id_base i && u16_from 0 c && (len d <=? Per.max_length)
  end.

(** The room a PDU needs. *)
Definition size_bound (pdu : DomainPdu) : Z :=
  match pdu with
  | ErectDomainRequest _ _ => 13
  | SendDataRequest _ _ d | SendDataIndication _ _ d => send_data_header_max + len d
  | _ => 8
  end.

Lemma mcs_integer16 v min : u16_from min v = true -> 0 <= min ->
  encodes (Per.write_integer16 v min) (Per.read_integer16 min) v 2.
Proof. unfold u16_from. intros. bools. by apply Per.per_encodes_integer16. Qed.
Lemma mcs_integer16_user v : u16_from user_id_base v = true ->
  encodes (Per.write_integer16 v user_id_base) (Per.read_integer16 user_id_base) v 2.
Proof. intros. by apply mcs_integer16. Qed.
Lemma mcs_integer16_channel v : u16_from 0 v = true ->
  encodes (Per.write_integer16 v 0) (Per.read_integer16 0) v 2.
Proof. intros. by apply mcs_integer16. Qed.
Lemma mcs_integer v : u32 v = true -> encodes (Per.write_integer v) Per.read_integer v 6.
Proof. unfold u32. intros. bools. by apply Per.per_encodes_integer. Qed.
Lemma mcs_result v : result_ok v = true -> encodes (Per.write_enumerated v) read_result v 1.
Proof. unfold result_ok. intros. bools. by apply Per.per_encodes_enumerated. Qed.
Lemma mcs_length n : 0 <= n <= Per.max_length -> encodes (Per.write_length n) Per.read_length n 2.
Proof. apply Per.per_encodes_length. Qed.

#[local] Hint Resolve mcs_integer16_user mcs_integer16_channel mcs_integer mcs_result mcs_length : codec.

Lemma header_fields c l :
  0 <= c < 64 -> 0 <= l < 4 ->
  0 <= header c l < 256 /\ Z.shiftr (header c l) 2 = c /\ Z.land (header c l) 0x03 = l.
Proof.
  intros Hc Hl. unfold header, wrap. rewrite lor_disjoint by lia. change (2 ^ 2) with 4. change (2 ^ 8) with 256.
  rewrite Z.mod_small, Z.shiftr_div_pow2, (land_low _ 3 2) by (done || lia).
  change (2 ^ 2) with 4. lia.
Qed.

Lemma mcs_encodes_pdu c l m pdu n :
  0 <= c < 64 -> 0 <= l < 4 ->
  (forall x, encodes m (read_domain_body x c l) pdu n) ->
  encodes_end (Writer.u8 (header c l) ;;; m) decode_domain_pdu pdu (1 + n).
Proof.
  intros Hc Hl Hm. destruct (header_fields c l Hc Hl) as (H1 & H2 & H3).
  apply encodes_end_ask. intros x. eapply encodes_seq_end; [by apply encodes_u8|]. cbn beta.
  rewrite H2, H3. eapply encodes_last_end; [apply encodes_encodes_end, Hm|].
  cbn beta. rstep. by apply reads_ret.
Qed.

Lemma mcs_encodes_send_data c i ch d (mk : Z -> Z -> list byte -> DomainPdu) :
  u16_from user_id_base i = true -> u16_from 0 ch = true -> len d <= Per.max_length ->
  (forall a b x, mk a b x = if c =? send_data_request then SendDataRequest a b x else SendDataIndication a b x) ->
  encodes (Per.write_integer16 i user_id_base ;;; Per.write_integer16 ch 0 ;;;
           Writer.u8 priority_and_segmentation ;;; Per.write_length (len d) ;;; Writer.bytes d)
          (read_send_data c) (mk i ch d) (7 + len d).
Proof.
  intros Hi Hc Hd Hmk. pose proof (len_nonneg d).
  assert (encodes (Writer.u8 priority_and_segmentation) (ReaderOps.skip 1) tt 1) as Hskip.
  { eexists. split_and!; [apply writes_bytes|len_lia|]. intros k.
    eapply reads_weaken; [by apply reads_skip|]. by intros []. }
  unfold read_send_data. eapply encodes_le; [fields; rewrite Hmk; by apply reads_ret|lia].
Qed.

Lemma encodes_end_unit {A} m (p : Dec A) v n :
  encodes_end (m ;;; eret tt) p v n -> encodes_end m p v n.
Proof.
  intros (e & W & L & R). exists e. split_and!; [|done|done].
  intros w. specialize (W w). unfold ebind, eret in W. by destruct (m w) as [[[] ?]|].
Qed.

Lemma mcs_encodes pdu :
  pdu_ok pdu = true -> encodes_end (encode pdu) decode_domain_pdu pdu (size_bound pdu).
Proof.
  intros H. destruct pdu; cbn in H; bools; cbn [encode size_bound].
  - apply (mcs_encodes_pdu 1 0 _ _ 12); [lia..|]. intros x. change 12 with (6 + 6).
    unfold read_domain_body. cbn. fields. by apply reads_ret.
  - apply (encodes_end_le _ _ _ 2); [|lia]. change 2 with (1 + 1).
    apply mcs_encodes_pdu; [done|by destruct reason|]. intros x.
    unfold read_domain_body. cbn. eapply encodes_last; [apply encodes_u8; by destruct reason|].
    intros k. by destruct reason; apply reads_ret.
  - apply encodes_end_unit. apply (encodes_end_le _ _ _ 1); [|lia]. change 1 with (1 + 0).
    apply mcs_encodes_pdu; [done..|]. intros x. apply encodes_ret.
  - apply (encodes_end_le _ _ _ (1 + (1 + 2))); [|lia].
    destruct initiator as [i|]; (apply mcs_encodes_pdu; [done..|]); intros x;
      unfold read_domain_body; cbn;
      change (has_bits optional_field_present optional_field_present) with true; cbn match.
    + eapply encodes_seq; [by apply mcs_result|]. cbn beta. fields. by apply reads_ret.
    + eapply encodes_seq; [by apply mcs_result|]. cbn beta. eapply encodes_le; [apply encodes_ret|lia].
  - apply (encodes_end_le _ _ _ (1 + (2 + 2))); [|lia]. apply mcs_encodes_pdu; [done..|]. intros x.
    unfold read_domain_body. cbn. fields. by apply reads_ret.
  - apply (encodes_end_le _ _ _ (1 + (1 + (2 + (2 + 2))))); [|lia].
    destruct channel_id as [i|]; (apply mcs_encodes_pdu; [done..|]); intros x;
      unfold read_domain_body; cbn;
      change (has_bits optional_field_present optional_field_present) with true; cbn match.
    + fields. by apply reads_ret.
    + do 3 (eapply encodes_seq; [solve [eauto with codec]|]; cbn beta).
      eapply encodes_le; [apply encodes_ret|lia].
  - change send_data_header_max with (1 + 7). rewrite <- Z.add_assoc. apply mcs_encodes_pdu; [done..|].
    intros x. by apply mcs_encodes_send_data.
  - change send_data_header_max with (1 + 7). rewrite <- Z.add_assoc. apply mcs_encodes_pdu; [done..|].
    intros x. by apply mcs_encodes_send_data.
Qed.

(** every domain PDU with field values in their ASN.1 ranges is encoded
    without tripping an assertion, in at most [size_bound] bytes (for Send Data,
    the payload plus [send_data_header_max]), and decodes to itself with the
    whole input consumed. *)
Theorem domain_pdu_roundtrip (pdu : DomainPdu) (b : Z) :
  pdu_ok pdu = true ->
  exists e, Writer.run (encode pdu) = Some e /\ len e <= size_bound pdu /\
            decode_domain_pdu (Reader.make e b) = Ok (pdu, Reader.mk e [] b).
Proof. intros H. by apply encodes_end_run, mcs_encodes. Qed.

Lemma domain_pdu_roundtrip_witness :
  exists e, Writer.run (encode (SendDataRequest 1007 1003 [byte_of 1; byte_of 2])) = Some e /\
            len e <= 8 + 2 /\
            decode_domain_pdu (Reader.make e 7) =
              Ok (SendDataRequest 1007 1003 [byte_of 1; byte_of 2], Reader.mk e [] 7).
Proof.
  apply (domain_pdu_roundtrip (SendDataRequest 1007 1003 [byte_of 1; byte_of 2]) 7). reflexivity.
Defined.

(** Connect-Initial and Connect-Response, every field in its 32-bit range
    (values above 2^31 included, whose sign the decoder ignores), decode to what
    was encoded. *)
Theorem connect_roundtrip (pdu : ConnectInitial) (answer : ConnectResponse) (b : Z) :
  initial_ok pdu = true -> response_ok answer = true ->
  (exists e, Writer.run (encode_connect_initial pdu) = Some e /\
             decode_connect_initial (Reader.make e b) = Ok (pdu, Reader.mk e [] b)) /\
  (exists e, Writer.run (encode_connect_response answer) = Some e /\
             decode_connect_response (Reader.make e b) = Ok (answer, Reader.mk e [] b)).
Proof.
  intros H1 H2. split; eapply encodes_run; [by apply mcs_encodes_initial|by apply mcs_encodes_response].
Qed.

Definition sample_domain : DomainParameters := mkDomain 34 2 0 1 0 1 65535 2.
Definition sample_minimum : DomainParameters := mkDomain 1 1 1 1 0 1 1056 2.
Definition sample_maximum : DomainParameters := mkDomain 2 2 4294967295 1 0 1 65535 2.
Definition sample_initial : ConnectInitial :=
  mkInitial [byte_of 1] [byte_of 1] true sample_domain sample_minimum sample_maximum [byte_of 9].

Lemma connect_roundtrip_witness :
  (exists e, Writer.run (encode_connect_initial sample_initial) = Some e /\
             decode_connect_initial (Reader.make e 0) = Ok (sample_initial, Reader.mk e [] 0)) /\
  (exists e, Writer.run (encode_connect_response (mkResponse 0 0 sample_domain [byte_of 9])) = Some e /\
             decode_connect_response (Reader.make e 0) =
               Ok (mkResponse 0 0 sample_domain [byte_of 9], Reader.mk e [] 0)).
Proof.
  apply (connect_roundtrip sample_initial (mkResponse 0 0 sample_domain [byte_of 9]) 0);
    vm_compute; reflexivity.
Defined.

(** The answer to any parameters of 32 bits. *)
Lemma negotiate_ok pdu :
  domain_ok (target pdu) = true -> domain_ok (maximum pdu) = true ->
  let p := negotiate_domain_parameters pdu in
  domain_ok p = true /\ 4 <= max_channel_ids p /\ 3 <= max_user_ids p /\ 1024 <= max_mcs_pdu_size p <= 65528 /\
  (1024 <= max_mcs_pdu_size (target pdu) <= 65528 -> max_mcs_pdu_size p = max_mcs_pdu_size (target pdu)) /\
  (4 <= max_channel_ids (target pdu) -> 3 <= max_user_ids (target pdu) ->
   num_priorities (target pdu) = 1 -> max_height (target pdu) = 1 ->
   protocol_version (target pdu) = 2 -> 1024 <= max_mcs_pdu_size (target pdu) <= 65528 -> p = target pdu).
Proof.
  intros Ht Hm p. subst p. unfold domain_ok, u32 in Ht, Hm. bools.
  destruct pdu as [c1 c2 up t mi ma ud]. cbn in *.
  assert (forall v, 1024 <= clamp v 1024 65528 <= 65528 /\ (1024 <= v <= 65528 -> clamp v 1024 65528 = v)) as Hc.
  { intros v. unfold clamp. destruct (Z.ltb_spec v 1024), (Z.ltb_spec 65528 v); lia. }
  unfold negotiate_domain_parameters. cbn. unfold min_pdu_size, max_pdu_size.
  set (size := if 1024 <=? max_mcs_pdu_size t then _ else _). destruct (Hc size) as [Hb Hk].
  assert (1024 <= max_mcs_pdu_size t -> size = max_mcs_pdu_size t) as Hs.
  { intros Hle. subst size. destruct (Z.leb_spec 1024 (max_mcs_pdu_size t)); lia. }
  split_and!; try lia.
  - unfold domain_ok, u32. cbn. rewrite !andb_true_iff, !Z.leb_le, !Z.ltb_lt. lia.
  - intros. destruct t as [t1 t2 t3 t4 t5 t6 t7 t8]. cbn in *. f_equal; lia.
Qed.


(** the parameters the server answers with are always 32-bit values it can
    encode, with at least four channel ids, three user ids and PDUs of 1024 to
    65528 bytes; an acceptable PDU size in the client's target is kept, and a
    target that meets the server's needs is answered unchanged.  The answer need
    not lie within the client's [minimum] and [maximum]: [sample_initial] allows
    at most two user ids and is answered with three. *)
Theorem negotiate_domain_parameters_bounds (pdu : ConnectInitial) :
  initial_ok pdu = true ->
  let p := negotiate_domain_parameters pdu in
  domain_ok p = true /\
  4 <= max_channel_ids p /\ 3 <= max_user_ids p /\ 1024 <= max_mcs_pdu_size p <= 65528 /\
  (1024 <= max_mcs_pdu_size (target pdu) <= 65528 -> max_mcs_pdu_size p = max_mcs_pdu_size (target pdu)) /\
  (4 <= max_channel_ids (target pdu) -> 3 <= max_user_ids (target pdu) ->
   num_priorities (target pdu) = 1 -> max_height (target pdu) = 1 ->
   protocol_version (target pdu) = 2 -> 1024 <= max_mcs_pdu_size (target pdu) <= 65528 ->
   p = target pdu) /\
  max_user_ids (maximum sample_initial) < max_user_ids (negotiate_domain_parameters sample_initial).
Proof.
  intros H p. subst p. unfold initial_ok in H. apply andb_prop in H as [[[Ht _]%andb_prop Hm]%andb_prop _].
  destruct (negotiate_ok pdu Ht Hm) as (H1 & H2 & H3 & H4 & H5 & H6).
  split_and!; [done..|lia|lia|done|done|]. by vm_compute.
Qed.

Lemma negotiate_domain_parameters_bounds_witness :
  initial_ok sample_initial = true /\
  4 <= max_channel_ids (negotiate_domain_parameters sample_initial).
Proof.
  split; [reflexivity|].
  destruct (negotiate_domain_parameters_bounds sample_initial) as (_ & H & _); [reflexivity|exact H].
Defined.

End Mcs.
