(* ===== verification/Fastpath.v ===== *)
(** * Fast-path output

    Models [src/src/farland/proto/fastpath.hpp] and [fastpath.cpp]: the encoder
    that cuts a server update into fast-path PDUs, the PDU decoder and the
    client's [Reassembler].  The main theorem runs the whole path: the stream
    the encoder writes, split by [peek_frame], decoded PDU by PDU and
    reassembled, yields the update that was sent. *)

From S2P Require Import Prelude Buffers CodecLogic Framing.
Open Scope Z_scope.

Module Fastpath.

Inductive Fragmentation := single | last | first | next.

#[export] Instance Fragmentation_eq_dec : EqDecision Fragmentation.
Proof. solve_decision. Defined.

Definition fragmentation_value (f : Fragmentation) : Z :=
  match f with single => 0 | last => 1 | first => 2 | next => 3 end.

(** [static_cast<Fragmentation>] of a two-bit number. *)
Definition fragmentation_of (z : Z) : Fragmentation :=
  if z =? 0 then single else if z =? 1 then last else if z =? 2 then first else next.

Definition max_fragment_size : Z := 0x3FFF - 20.

Definition action_fastpath : Z := 0.
Definition flag_secure_checksum : Z := 0x1.
Definition flag_encrypted : Z := 0x2.
Definition compression_used : Z := 0x2.
Definition packet_compressed : Z := 0x20.
Definition pdu_overhead : Z := 3 + 3.

Record UpdateFragment := mkFragment { code : Z; fragmentation : Fragmentation; data : list byte }.

(** ** Encoding *)

Definition write_pdu (c : Z) (f : Fragmentation) (chunk : list byte) : Enc unit :=
  let length := pdu_overhead + len chunk in
  eassert (length <=? 0x7FFF) ;;;
  Writer.u8 action_fastpath ;;;
  Writer.u16be (wrap 16 (Z.lor 0x8000 length)) ;;;
  Writer.u8 (wrap 8 (Z.lor c (Z.shiftl (fragmentation_value f) 4))) ;;;
  Writer.u16le (wrap 16 (len chunk)) ;;;
  Writer.bytes chunk.

(** The loop over the fragments of an update larger than one fragment. *)
Fixpoint encode_loop (fuel : nat) (c : Z) (d : list byte) (max_fragment offset : Z) : Enc unit :=
  match fuel with
  | O => eret tt
  | S fuel' =>
      if offset <? len d then
        let size := Z.min max_fragment (len d - offset) in
        let is_first := offset =? 0 in
        let is_last := offset + size =? len d in
        let f := if is_first then first else if is_last then last else next in
        write_pdu c f (take (Z.to_nat size) (drop (Z.to_nat offset) d)) ;;;
        encode_loop fuel' c d max_fragment (offset + max_fragment)
      else eret tt
  end.

Definition encode_update (c : Z) (d : list byte) (max_fragment : Z) : Enc unit :=
  eassert ((c <=? 0x0F) && (0 <? max_fragment) && (max_fragment <=? 0x7FFF - pdu_overhead)) ;;;
  if len d <=? max_fragment then write_pdu c single d
  else encode_loop (length d) c d max_fragment 0.

(** ** Decoding *)

Definition read_update : Dec UpdateFragment :=
  let* update_start := dask Reader.offset in
  let* update_header := ReaderOps.u8 in
  let c := Z.land update_header 0x0F in
  let f := fragmentation_of (Z.land (Z.shiftr update_header 4) 0x03) in
  let* _ := if has_bits (Z.shiftr update_header 6) compression_used then
              let* compression_flags := ReaderOps.u8 in
              if has_bits compression_flags packet_compressed
              then dfail unsupported "bulk-compressed fast-path update" update_start
              else dret tt
            else dret tt in
  let* size := ReaderOps.u16le in
  let* d := ReaderOps.bytes size in
  dret (mkFragment c f d).

(** [while (!pdu.empty())]; every update takes at least three bytes. *)
Fixpoint update_loop (fuel : nat) (updates : list UpdateFragment) : Dec (list UpdateFragment) :=
  match fuel with
  | O => dret updates
  | S fuel' =>
      let* empty := dask Reader.empty in
      if empty then dret updates
      else
        let* fragment := read_update in
        update_loop fuel' (updates ++ [fragment])
  end.

Definition decode_output_pdu : Dec (list UpdateFragment) :=
  let* start := dask Reader.offset in
  let* header := ReaderOps.u8 in
  if negb (Z.land header 0x03 =? action_fastpath)
  then dfail invalid_value "not a fast-path PDU" start
  else if has_bits (Z.shiftr header 6) (Z.lor flag_encrypted flag_secure_checksum)
  then dfail invalid_value "RDP-encrypted fast-path output under Enhanced RDP Security" start
  else
    let* length1 := ReaderOps.u8 in
    let* length := if has_bits length1 0x80 then
                     let* length2 := ReaderOps.u8 in
                     dret (Z.lor (Z.shiftl (Z.land length1 0x7F) 8) length2)
                   else dret length1 in
    let* size := dask Reader.size in
    if negb (length =? size)
    then dfail invalid_length "fast-path length does not match the PDU" (start + 1)
    else
      let* fuel := dask (fun r => Z.to_nat (Reader.remaining r)) in
      update_loop fuel [].

(** ** Reassembler *)

Record Update := mkUpdate { update_code : Z; update_data : list byte }.

Record Reassembler := mkReassembler { max_size_ : Z; code_ : option Z; buffer_ : list byte }.

Definition make (max_update_size : Z) : Reassembler := mkReassembler max_update_size None [].

(** [add] changes the object only when it succeeds. *)
Definition add (r : Reassembler) (fragment : UpdateFragment) : Result (option Update * Reassembler) :=
  let too_large extra := max_size_ r <? len (buffer_ r) + extra in
  match fragmentation fragment with
  | single =>
      if bool_decide (is_Some (code_ r)) || (max_size_ r <? len (data fragment))
      then fail invalid_value "unexpected single fast-path update" 0
      else Ok (Some (mkUpdate (code fragment) (data fragment)), r)
  | first =>
      if bool_decide (is_Some (code_ r)) || (max_size_ r <? len (data fragment))
      then fail invalid_value "unexpected first fast-path fragment" 0
      else Ok (None, mkReassembler (max_size_ r) (Some (code fragment)) (data fragment))
  | next | last =>
      match code_ r with
      | Some c =>
          if negb (c =? code fragment)
          then fail invalid_value "fast-path fragment without a first fragment" 0
          else if too_large (len (data fragment))
          then fail limit_exceeded "reassembled fast-path update too large" 0
          else
            let buffer := buffer_ r ++ data fragment in
            if bool_decide (fragmentation fragment = next)
            then Ok (None, mkReassembler (max_size_ r) (Some c) buffer)
            else Ok (Some (mkUpdate c buffer), mkReassembler (max_size_ r) None [])
      | None => fail invalid_value "fast-path fragment without a first fragment" 0
      end
  end.

(** ** PDUs *)

Definition pdu_bytes (c : Z) (f : Fragmentation) (chunk : list byte) : list byte :=
  [byte_of 0] ++ Writer.be_bytes 2 (0x8000 + (6 + len chunk)) ++
  [byte_of (c + 16 * fragmentation_value f)] ++ Writer.le_bytes 2 (len chunk) ++ chunk.

Lemma len_pdu_bytes c f chunk : len (pdu_bytes c f chunk) = 6 + len chunk.
Proof. unfold pdu_bytes. len_lia. Qed.

Lemma fragmentation_range f : 0 <= fragmentation_value f < 4.
Proof. by destruct f. Qed.

Lemma writes_pdu c f chunk :
  0 <= c < 16 -> 6 + len chunk <= 0x7FFF -> writes (write_pdu c f chunk) (pdu_bytes c f chunk).
Proof.
  intros Hc Hl. pose proof (len_nonneg chunk). pose proof (fragmentation_range f). unfold write_pdu, pdu_overhead.
  apply writes_assert; [by apply Z.leb_le|]. unfold wrap.
  rewrite (lor_const _ 1 _ 15) by (done || lia). rewrite (lor_high _ _ 4) by lia.
  change (3 + 3) with 6. change (2 ^ 4) with 16.
  rewrite !Z.mod_small by lia. rewrite Z.mul_comm. unfold pdu_bytes. repeat wstep.
Qed.

(** The update header of a fragment: its code and fragmentation, no compression. *)
Lemma update_header_fields c f :
  0 <= c < 16 ->
  let h := c + 16 * fragmentation_value f in
  0 <= h < 256 /\ Z.land h 0x0F = c /\ fragmentation_of (Z.land (Z.shiftr h 4) 0x03) = f /\
  has_bits (Z.shiftr h 6) compression_used = false.
Proof.
  intros Hc.
  pose proof (Zupto_forall 16 (fun c => let h := c + 16 * fragmentation_value f in
    (0 <=? h) && (h <? 256) && (Z.land h 0x0F =? c) &&
    bool_decide (fragmentation_of (Z.land (Z.shiftr h 4) 0x03) = f) &&
    negb (has_bits (Z.shiftr h 6) compression_used)) ltac:(destruct f; vm_compute; done) c Hc) as H.
  cbn beta zeta in H. bools. by split_and!.
Qed.

Lemma reads_update c f chunk k :
  0 <= c < 16 -> len chunk < 65536 ->
  reads read_update ([byte_of (c + 16 * fragmentation_value f)] ++ Writer.le_bytes 2 (len chunk) ++ chunk) k
        (eq (mkFragment c f chunk)).
Proof.
  intros Hc Hl. pose proof (len_nonneg chunk).
  destruct (update_header_fields c f Hc) as (H1 & H2 & H3 & H4).
  apply reads_ask. intros s b. rstep. rewrite H2, H3, H4.
  apply reads_bind_pure with (P := fun _ => True); [by apply reads_ret|]. intros _ _.
  do 2 rstep. by apply reads_ret.
Qed.

Lemma update_loop_one c f chunk fuel s b :
  0 <= c < 16 -> len chunk < 65536 ->
  let e := [byte_of (c + 16 * fragmentation_value f)] ++ Writer.le_bytes 2 (len chunk) ++ chunk in
  update_loop (S (S fuel)) [] (Reader.mk s e b) = Ok ([mkFragment c f chunk], Reader.mk (s ++ e) [] b).
Proof.
  intros Hc Hl e. destruct (reads_update c f chunk [] Hc Hl s b) as (a & Ha & <-). fold e in Ha.
  rewrite app_nil_r in Ha. cbn [update_loop]. unfold dbind at 1, dask.
  rewrite empty_mk, bool_decide_false by done. unfold dbind at 1. rewrite Ha.
  unfold dbind. by rewrite empty_mk, bool_decide_true.
Qed.

Lemma decode_output_pdu_one c f chunk b :
  0 <= c < 16 -> 6 + len chunk <= 0x7FFF ->
  decode_output_pdu (Reader.make (pdu_bytes c f chunk) b) =
    Ok ([mkFragment c f chunk], Reader.mk (pdu_bytes c f chunk) [] b).
Proof.
  intros Hc Hl. pose proof (len_nonneg chunk). set (n := 0x8000 + (6 + len chunk)).
  pose proof (len_pdu_bytes c f chunk) as Hn. unfold pdu_bytes in *. fold n in Hn |- *.
  set (e := [byte_of (c + _)] ++ _) in *.
  rewrite be_bytes_2 in *. cbn [app] in *.
  unfold decode_output_pdu, Reader.make. rewrite dbind_ask, dbind_u8.
  rewrite u8_of_byte_of_small by lia. change (Z.land 0 3 =? action_fastpath) with true.
  change (has_bits (Z.shiftr 0 6) _) with false. cbn [negb]. cbn match. rewrite dbind_u8, u8_of_byte_of.
  assert (has_bits ((n / 256) mod 256) 0x80 = true /\
          Z.land ((n / 256) mod 256) 0x7F = (6 + len chunk) / 256) as [-> ->].
  { subst n. split.
    - rewrite (has_bits_testbit 7) by lia. apply Z.testbit_true; [lia|]. lia.
    - rewrite (land_low _ 0x7F 7) by done. change (2 ^ 7) with 128. lia. }
  rewrite dbind_assoc, dbind_u8, dbind_ret, dbind_ask, u8_of_byte_of, lor_disjoint, size_mk by lia.
  replace (((6 + len chunk) / 256) * 2 ^ 8 + n mod 256) with (6 + len chunk) by (subst n; change (2 ^ 8) with 256; lia).
  rewrite !len_app, !len_cons, len_nil. rewrite !len_cons in Hn.
  destruct (Z.eqb_spec (6 + len chunk) (0 + (1 + 0) + (1 + 0) + (1 + 0) + len e)); [|lia].
  cbn [negb]. rewrite dbind_ask, remaining_mk.
  replace (Z.to_nat (len e)) with (S (S (Z.to_nat (1 + len chunk)))) by lia.
  subst e. apply update_loop_one; lia.
Qed.

Lemma peek_frame_pdu c f chunk k :
  6 + len chunk <= 0x7FFF ->
  Framing.peek_frame (pdu_bytes c f chunk ++ k) = Ok (Some (Framing.mkFrame Framing.fastpath (6 + len chunk))).
Proof.
  intros Hl. pose proof (len_nonneg chunk). unfold pdu_bytes. set (n := 0x8000 + (6 + len chunk)).
  set (e := [byte_of (c + _)] ++ _). rewrite be_bytes_2. cbn [app].
  unfold Framing.peek_frame, Framing.at_. cbn [lookup list_lookup].
  rewrite (u8_of_byte_of_small 0) by lia. change (0 =? 3) with false. change (Z.land 0 3 =? 0) with true.
  cbn match. rewrite !len_cons. pose proof (len_nonneg (e ++ k)).
  destruct (Z.ltb_spec (1 + (1 + (1 + len (e ++ k)))) 2); [lia|].
  destruct (Z.ltb_spec (1 + (1 + (1 + len (e ++ k)))) 3); [lia|].
  rewrite !u8_of_byte_of.
  assert (Z.land ((n / 256) mod 256) 0x80 <> 0 /\ Z.land ((n / 256) mod 256) 0x7F = (6 + len chunk) / 256) as [Hb ->].
  { subst n. split.
    - assert (has_bits ((32768 + (6 + len chunk)) / 256 mod 256) 0x80 = true) as Ht.
      { rewrite (has_bits_testbit 7) by lia. apply Z.testbit_true; [lia|]. lia. }
      unfold has_bits in Ht. by bools.
    - rewrite (land_low _ 0x7F 7) by done. change (2 ^ 7) with 128. lia. }
  rewrite (proj2 (Z.eqb_neq _ _) Hb), lor_disjoint by lia. change (2 ^ 8) with 256.
  replace ((6 + len chunk) / 256 * 256 + n mod 256) with (6 + len chunk) by (subst n; lia).
  destruct (Z.ltb_spec (6 + len chunk) 3); [lia|]. done.
Qed.

(** ** A client on the stream *)

Fixpoint add_all (r : Reassembler) (fragments : list UpdateFragment) : Result (list Update * Reassembler) :=
  match fragments with
  | [] => Ok ([], r)
  | f :: fragments' =>
      let? (u, r1) := add r f in
      let? (us, r2) := add_all r1 fragments' in
      Ok (match u with Some u => [u] | None => [] end ++ us, r2)
  end.

(** Split the stream with [peek_frame], decode each PDU, reassemble. *)
Fixpoint receive (fuel : nat) (r : Reassembler) (stream : list byte) : Result (list Update * Reassembler) :=
  match fuel, stream with
  | S fuel', _ :: _ =>
      let? frame := Framing.peek_frame stream in
      match frame with
      | None => Ok ([], r)
      | Some f =>
          let n := Z.to_nat (Framing.length f) in
          let? (fragments, _) := decode_output_pdu (Reader.make (take n stream) 0) in
          let? (us, r1) := add_all r fragments in
          let? (us', r2) := receive fuel' r1 (drop n stream) in
          Ok (us ++ us', r2)
      end
  | _, _ => Ok ([], r)
  end.

Lemma receive_pdu fuel r c f chunk k u r' :
  0 <= c < 16 -> 6 + len chunk <= 0x7FFF ->
  add r (mkFragment c f chunk) = Ok (u, r') ->
  receive (S fuel) r (pdu_bytes c f chunk ++ k) =
    let? (us, r2) := receive fuel r' k in Ok (match u with Some u => [u] | None => [] end ++ us, r2).
Proof.
  intros Hc Hl Hadd. pose proof (peek_frame_pdu c f chunk k Hl) as Hf.
  pose proof (len_pdu_bytes c f chunk) as Hn.
  assert (Z.to_nat (6 + len chunk) = length (pdu_bytes c f chunk)) as En by (unfold len in *; lia).
  destruct (pdu_bytes c f chunk) as [|x l] eqn:Ep; [done|].
  cbn [receive app]. cbn [app] in Hf. rewrite Hf. cbn [rbind Framing.length].
  rewrite En. change (x :: l ++ k) with ((x :: l) ++ k). rewrite take_app_length, drop_app_length.
  rewrite <- Ep, decode_output_pdu_one by done. cbn [rbind add_all]. rewrite Hadd. cbn [rbind].
  by rewrite app_nil_r.
Qed.

Lemma add_first max c chunk :
  len chunk <= max ->
  add (make max) (mkFragment c first chunk) = Ok (None, mkReassembler max (Some c) chunk).
Proof.
  intros H. unfold add. cbn [fragmentation code data code_ max_size_ make].
  destruct (Z.ltb_spec max (len chunk)); [lia|]. by rewrite bool_decide_false by (by intros [? ?]).
Qed.

Lemma add_more max c buf chunk f :
  len (buf ++ chunk) <= max -> f = next \/ f = last ->
  add (mkReassembler max (Some c) buf) (mkFragment c f chunk) =
    Ok (if bool_decide (f = next) then (None, mkReassembler max (Some c) (buf ++ chunk))
        else (Some (mkUpdate c (buf ++ chunk)), make max)).
Proof.
  intros H Hf. unfold add. cbn [fragmentation code data code_ max_size_ buffer_].
  rewrite Z.eqb_refl. cbn [negb]. rewrite <- len_app.
  destruct (Z.ltb_spec max (len (buf ++ chunk))); [lia|].
  by destruct Hf as [-> | ->].
Qed.

(** The reassembler in the middle of the update [d], and the fragment of it
    that begins at [offset]. *)
Definition partial (max c : Z) (d : list byte) (offset : Z) : Reassembler :=
  if offset =? 0 then make max else mkReassembler max (Some c) (take (Z.to_nat offset) d).

Definition chunk_at (m : Z) (d : list byte) (offset : Z) : list byte :=
  take (Z.to_nat (Z.min m (len d - offset))) (drop (Z.to_nat offset) d).

Definition fragment_at (m : Z) (d : list byte) (offset : Z) : Fragmentation :=
  if offset =? 0 then first else if offset + Z.min m (len d - offset) =? len d then last else next.

Lemma len_chunk_at m d offset :
  0 < m -> 0 <= offset < len d -> len (chunk_at m d offset) = Z.min m (len d - offset).
Proof. intros. unfold chunk_at. len_lia. Qed.

Lemma add_chunk max c m d offset :
  0 < m < len d -> len d <= max -> 0 <= offset < len d ->
  add (partial max c d offset) (mkFragment c (fragment_at m d offset) (chunk_at m d offset)) =
    Ok (if offset + m <? len d then (None, partial max c d (offset + m))
        else (Some (mkUpdate c d), make max)).
Proof.
  intros Hm Hmax Ho.
  assert (take (Z.to_nat offset) d ++ chunk_at m d offset =
          take (Z.to_nat (offset + Z.min m (len d - offset))) d) as Et.
  { unfold chunk_at. rewrite Z2Nat.inj_add by lia. by rewrite take_take_drop. }
  unfold partial at 1, fragment_at. destruct (Z.eqb_spec offset 0) as [->|Hne].
  - rewrite add_first by (rewrite len_chunk_at; lia). change (chunk_at m d 0 = take (Z.to_nat (0 + Z.min m (len d - 0))) d) in Et.
    rewrite Et. unfold partial. rewrite !Z.add_0_l.
    destruct (Z.ltb_spec m (len d)); [|lia]. rewrite (proj2 (Z.eqb_neq m 0)) by lia.
    by rewrite Z.min_l by lia.
  - rewrite add_more; [|rewrite Et; len_lia|destruct (_ =? _); auto]. rewrite Et.
    destruct (Z.ltb_spec (offset + m) (len d)) as [Hlt|Hge].
    + rewrite Z.min_l by lia. rewrite (proj2 (Z.eqb_neq (offset + m) (len d))) by lia.
      rewrite bool_decide_true by done. unfold partial. by rewrite (proj2 (Z.eqb_neq (offset + m) 0)) by lia.
    + rewrite Z.min_r by lia. replace (offset + (len d - offset)) with (len d) by lia.
      rewrite Z.eqb_refl, bool_decide_false by done. unfold len. by rewrite Nat2Z.id, firstn_all.
Qed.

(** From [offset] on, the loop's PDUs complete the update begun before it. *)
Lemma encode_loop_spec c d m max fuel offset :
  0 <= c < 16 -> 0 < m <= 0x7FFF - 6 -> m < len d <= max ->
  0 <= offset -> len d - offset <= Z.of_nat fuel ->
  exists e, writes (encode_loop fuel c d m offset) e /\
    (offset < len d -> forall n, (length e <= n)%nat ->
       receive n (partial max c d offset) e = Ok ([mkUpdate c d], make max)) /\
    (len d <= offset -> e = []).
Proof.
  intros Hc Hm Hd. revert offset. induction fuel as [|fuel IH]; intros offset Ho Hf.
  { exists []. split_and!; [apply writes_ret|lia|done]. }
  cbn [encode_loop]. destruct (Z.ltb_spec offset (len d)) as [Hlt|]; [|exists []; split_and!; [apply writes_ret|lia|done]].
  fold (chunk_at m d offset). fold (fragment_at m d offset).
  pose proof (add_chunk max c m d offset ltac:(lia) ltac:(lia) ltac:(lia)) as Hadd.
  pose proof (len_chunk_at m d offset ltac:(lia) ltac:(lia)) as Hs.
  set (chunk := chunk_at m d offset) in *. set (f := fragment_at m d offset) in *.
  destruct (IH (offset + m)) as (e & We & He & Hnil); [lia..|].
  exists (pdu_bytes c f chunk ++ e). split_and!; [apply writes_seq; [apply writes_pdu; lia|done]|intros _ n Hn|lia].
  pose proof (len_pdu_bytes c f chunk) as Hp. rewrite length_app in Hn.
  assert (6 + len chunk <= 0x7FFF) as Hl by lia.
  destruct n as [|n]; [unfold len in *; lia|].
  destruct (Z.ltb_spec (offset + m) (len d)) as [Hmore|Hend].
  - rewrite (receive_pdu _ _ _ _ _ _ _ _ Hc Hl Hadd).
    by rewrite (He Hmore n) by (unfold len in *; lia).
  - rewrite (receive_pdu _ _ _ _ _ _ _ _ Hc Hl Hadd), Hnil by lia.
    by destruct n.
Qed.

Lemma writes_update (c max m : Z) (d : list byte) :
  0 <= c <= 0x0F -> 0 < m <= 0x7FFF - 6 -> len d <= max ->
  exists e, writes (encode_update c d m) e /\
    forall fuel, (length e <= fuel)%nat -> receive fuel (make max) e = Ok ([mkUpdate c d], make max).
Proof.
  intros Hc Hm Hd. pose proof (len_nonneg d).
  unfold encode_update, pdu_overhead. destruct (Z.leb_spec (len d) m) as [Hle|Hgt].
  - exists (pdu_bytes c single d ++ []). split.
    + apply writes_assert; [rewrite !andb_true_iff, Z.ltb_lt, !Z.leb_le; lia|].
      rewrite app_nil_r. apply writes_pdu; lia.
    + intros [|fuel] Hf; [by cbn in Hf; lia|].
      rewrite (receive_pdu _ _ _ _ _ _ (Some (mkUpdate c d)) (make max)); [by destruct fuel|lia|lia|].
      unfold add. cbn [fragmentation code data code_ max_size_ make].
      destruct (Z.ltb_spec max (len d)); [lia|]. by rewrite bool_decide_false by (by intros [? ?]).
  - destruct (encode_loop_spec c d m max (length d) 0) as (e & We & He & _); [unfold len in *; lia..|].
    exists e. split; [|apply He; lia].
    apply writes_assert; [rewrite !andb_true_iff, Z.ltb_lt, !Z.leb_le; lia|done].
Qed.

(** C30: whatever the update and the fragment size, the stream [encode_update]
    appends, split by [peek_frame], decoded PDU by PDU and reassembled by a fresh
    [Reassembler] that admits the update's size, yields exactly that update, and
    the reassembler is ready for the next one. *)
Theorem encode_update_received (c max m : Z) (d : list byte) :
  0 <= c <= 0x0F -> 0 < m <= 0x7FFF - 6 -> len d <= max ->
  exists e, Writer.run (encode_update c d m) = Some e /\
    forall fuel, (length e <= fuel)%nat -> receive fuel (make max) e = Ok ([mkUpdate c d], make max).
Proof.
  intros Hc Hm Hd. destruct (writes_update c max m d Hc Hm Hd) as (e & We & He).
  exists e. split; [by apply writes_run|done].
Qed.

Lemma encode_update_received_witness :
  exists e, Writer.run (encode_update 4 (replicate 10 (byte_of 7)) 4) = Some e /\
    forall fuel, (length e <= fuel)%nat ->
      receive fuel (make 100) e = Ok ([mkUpdate 4 (replicate 10 (byte_of 7))], make 100).
Proof. apply encode_update_received; [lia|lia|vm_compute; congruence]. Defined.

(** ** The reassembler's invariant *)

(** Nothing is buffered between updates, and never more than the limit. *)
Definition wf (r : Reassembler) : Prop :=
  (code_ r = None -> buffer_ r = []) /\ len (buffer_ r) <= max_size_ r.

Lemma add_wf r f u r1 :
  wf r -> add r f = Ok (u, r1) ->
  wf r1 /\ max_size_ r1 = max_size_ r /\
  match u with Some u => len (update_data u) <= max_size_ r | None => True end.
Proof.
  intros [Hb Hl] Ea. unfold add in Ea.
  destruct (fragmentation f), (code_ r) eqn:Ec;
    repeat match type of Ea with
    | context [if ?c then _ else _] => let E := fresh "E" in destruct c eqn:E; [try done|try done]
    end; try done; injection Ea as <- <-; bools; unfold wf; cbn [code_ buffer_ max_size_ update_data];
    rewrite ?len_app, ?len_nil; len_pose; split_and!; try done; try lia; try (intros; by auto).
Qed.

Lemma add_all_wf fragments : forall r us r',
  wf r -> add_all r fragments = Ok (us, r') ->
  wf r' /\ max_size_ r' = max_size_ r /\ Forall (fun u => len (update_data u) <= max_size_ r) us.
Proof.
  induction fragments as [|f fs IH]; intros r us r' Hwf H; cbn [add_all] in H.
  { injection H as <- <-. split_and!; [done|done|constructor]. }
  destruct (add r f) as [[u r1]|] eqn:Ea; [|done]. cbn [rbind] in H.
  destruct (add_all r1 fs) as [[us' r2]|] eqn:E2; [|done]. cbn [rbind] in H. injection H as <- <-.
  apply add_wf in Ea as (Hw & Hm & Hu); [|done].
  destruct (IH r1 us' r2 Hw E2) as (H1 & H2 & H3). rewrite Hm in *. split_and!; [done|done|].
  apply Forall_app. split; [|done]. destruct u; [by constructor|constructor].
Qed.

(** for any sequence of fragments a peer sends, the reassembler never holds
    more than the limit it was created with, holds nothing between updates, and
    every update it delivers is within the limit. *)
Theorem reassembler_bounded (max : Z) (fragments : list UpdateFragment) us r :
  0 <= max -> add_all (make max) fragments = Ok (us, r) ->
  wf r /\ max_size_ r = max /\ Forall (fun u => len (update_data u) <= max) us.
Proof. intros Hmax. by apply (add_all_wf _ (make max)). Qed.

Lemma reassembler_bounded_witness :
  wf (mkReassembler 8 (Some 4) [byte_of 1; byte_of 2]) /\
  max_size_ (mkReassembler 8 (Some 4) [byte_of 1; byte_of 2]) = 8 /\
  Forall (fun u => len (update_data u) <= 8) [].
Proof.
  apply (reassembler_bounded 8 [mkFragment 4 first [byte_of 1]; mkFragment 4 next [byte_of 2]] []
          (mkReassembler 8 (Some 4) [byte_of 1; byte_of 2])); [lia|vm_compute; reflexivity].
Defined.

(** The fuel of [update_loop] never runs out: an update takes at least a byte. *)
Lemma read_update_progress r f r' :
  read_update r = Ok (f, r') -> Reader.remaining r' < Reader.remaining r.
Proof.
  unfold read_update. rewrite dbind_ask. intros (h & r1 & H1 & H)%dbind_inv.
  apply u8_inv in H1 as (x & -> & T1). apply dbind_inv in H as (? & r2 & H2 & H).
  assert (exists e, took r1 e r2) as [e2 T2].
  { destruct (has_bits _ _); [|injection H2 as <- <-; eexists; apply took_nil].
    apply dbind_inv in H2 as (y & r3 & H3 & H2). apply u8_inv in H3 as (? & _ & T3).
    destruct (has_bits y _); [done|]. injection H2 as <- <-. by eexists. }
  apply dbind_inv in H as (n & r3 & H3 & H).
  apply read_le_inv in H3 as (raw & _ & _ & Hn & T3).
  apply dbind_inv in H as (d & r4 & H4 & [= _ <-]). apply bytes_inv in H4 as [_ T4]; [|lia].
  apply took_remaining in T1, T2, T3, T4. len_lia.
Qed.

(** the decoder's loop over the updates of a PDU terminates for every
    input: running it longer than the number of remaining bytes never changes
    its result, so [decode_output_pdu] is the unbounded loop of the source. *)
Theorem update_loop_terminates (r : Reader.t) (us : list UpdateFragment) (extra : nat) :
  update_loop (Z.to_nat (Reader.remaining r) + extra) us r =
  update_loop (Z.to_nat (Reader.remaining r)) us r.
Proof.
  remember (Z.to_nat (Reader.remaining r)) as n eqn:En. assert (Z.to_nat (Reader.remaining r) <= n)%nat as Hle by lia.
  clear En. revert us r Hle. induction n as [|n IH]; intros us r Hle.
  - destruct extra as [|extra]; [done|]. cbn [update_loop Nat.add]. rewrite dbind_ask.
    destruct r as [s e b]. rewrite remaining_mk in Hle. rewrite empty_mk.
    rewrite bool_decide_true; [done|]. apply len_0. pose proof (len_nonneg e). lia.
  - cbn [update_loop Nat.add]. rewrite !dbind_ask. destruct (Reader.empty r); [done|].
    unfold dbind. destruct (read_update r) as [[f r']|] eqn:E; [|done]. apply IH.
    apply read_update_progress in E. destruct r as [s e b], r' as [s' e' b']. rewrite !remaining_mk in *.
    pose proof (len_nonneg e'). lia.
Qed.

End Fastpath.
