(* ===== verification/Transport.v ===== *)
(** * Fragmenting transports

    Static virtual channels, dynamic virtual channels and fast-path updates all
    cut a message into PDUs and reassemble it on the other side.  [Transport]
    is what such a component offers, [Reliable] what it promises: the PDUs of
    one admissible message, fed to an idle receiver, deliver that message and
    leave the receiver idle.  Against this interface alone: any sequence of
    messages arrives complete and in order, and a transport whose PDUs are
    admissible messages of a second one can be layered on it, which is how the
    program runs dynamic channels inside the [drdynvc] static channel. *)

From S2P Require Import Prelude Buffers.
Open Scope Z_scope.

Class Transport (M P S : Type) := {
  t_admissible : M -> Prop;
  t_send : M -> option (list P);
  t_idle : S;
  t_feed : S -> P -> Result (option M) * S }.

Arguments t_admissible {M P S} _.
Arguments t_send {M P S} _.
Arguments t_idle {M P S} _.
Arguments t_feed {M P S} _.

Section feeding.
Context {M P S : Type} (T : Transport M P S).

(** Feed PDUs one after the other, collecting the messages they complete. *)
Fixpoint feed_all (s : S) (ps : list P) : Result (list M * S) :=
  match ps with
  | [] => Ok ([], s)
  | p :: ps' =>
      match t_feed T s p with
      | (Err e, _) => Err e
      | (Ok m, s1) =>
          let? (ms, s2) := feed_all s1 ps' in
          Ok (match m with Some m => [m] | None => [] end ++ ms, s2)
      end
  end.

(** Send messages one after the other. *)
Fixpoint send_all (ms : list M) : option (list P) :=
  match ms with
  | [] => Some []
  | m :: ms' =>
      match t_send T m, send_all ms' with
      | Some ps, Some ps' => Some (ps ++ ps')
      | _, _ => None
      end
  end.

Lemma feed_all_app s ps1 ps2 ms1 s1 :
  feed_all s ps1 = Ok (ms1, s1) ->
  feed_all s (ps1 ++ ps2) = let? (ms2, s2) := feed_all s1 ps2 in Ok (ms1 ++ ms2, s2).
Proof.
  revert s ms1. induction ps1 as [|p ps1 IH]; intros s ms1 H; cbn in *.
  - injection H as <- <-. by destruct (feed_all s ps2) as [[? ?]|].
  - destruct (t_feed T s p) as [[m|] s']; [|done].
    destruct (feed_all s' ps1) as [[ms s2]|] eqn:E; [|done]. cbn in H. injection H as <- <-.
    rewrite (IH s' ms E). destruct (feed_all s2 ps2) as [[? ?]|]; [|done]. cbn. by rewrite app_assoc.
Qed.
End feeding.

Class Reliable {M P S : Type} (T : Transport M P S) : Prop :=
  t_delivers : forall m, t_admissible T m ->
    exists ps, t_send T m = Some ps /\ feed_all T (t_idle T) ps = Ok ([m], t_idle T).

Lemma messages_in_order {M P S} (T : Transport M P S) `{!Reliable T} ms :
  Forall (t_admissible T) ms ->
  exists ps, send_all T ms = Some ps /\ feed_all T (t_idle T) ps = Ok (ms, t_idle T).
Proof.
  induction 1 as [|m ms Hm _ (ps' & Hs' & Hf')]; [by exists []|].
  destruct (t_delivers m Hm) as (ps & Hs & Hf). exists (ps ++ ps'). cbn. rewrite Hs, Hs'.
  split; [done|]. rewrite (feed_all_app T _ _ _ _ _ Hf), Hf'. done.
Qed.

(** ** Layering *)

Section layered.
Context {M P Q S1 S2 : Type} (Upper : Transport M P S1) (Lower : Transport P Q S2).

(** Messages of the upper transport, whose PDUs are sent as messages of the
    lower one; the receiver hands every message the lower layer completes up. *)
#[export] Instance layered : Transport M Q (S1 * S2) := {|
  t_admissible m := t_admissible Upper m /\
    forall ps, t_send Upper m = Some ps -> Forall (t_admissible Lower) ps;
  t_send m := match t_send Upper m with
              | Some ps => send_all Lower ps
              | None => None
              end;
  t_idle := (t_idle Upper, t_idle Lower);
  t_feed s q :=
    match t_feed Lower (snd s) q with
    | (Err e, l) => (Err e, (fst s, l))
    | (Ok None, l) => (Ok None, (fst s, l))
    | (Ok (Some p), l) => let (m, u) := t_feed Upper (fst s) p in (m, (u, l))
    end |}.

(** The lower layer's run determines what the upper layer is fed. *)
Lemma layered_feed_all qs : forall l ps l' u ms u',
  feed_all Lower l qs = Ok (ps, l') -> feed_all Upper u ps = Ok (ms, u') ->
  feed_all layered (u, l) qs = Ok (ms, (u', l')).
Proof.
  induction qs as [|q qs IH]; intros l ps l' u ms u' Hl Hu; cbn [feed_all] in *.
  - injection Hl as <- <-. by injection Hu as <- <-.
  - cbn [t_feed layered fst snd]. destruct (t_feed Lower l q) as [[[p|]|] l1] eqn:E; [| |done].
    + destruct (feed_all Lower l1 qs) as [[ps2 l2]|] eqn:E2; [|done]. injection Hl as <- <-.
      cbn [app feed_all] in Hu. destruct (t_feed Upper u p) as [[m|] u1]; [|done].
      destruct (feed_all Upper u1 ps2) as [[ms2 u2]|] eqn:E3; [|done]. injection Hu as <- <-.
      by rewrite (IH _ _ _ _ _ _ E2 E3).
    + destruct (feed_all Lower l1 qs) as [[ps2 l2]|] eqn:E2; [|done]. injection Hl as <- <-.
      by rewrite (IH _ _ _ _ _ _ E2 Hu).
Qed.

#[export] Instance layered_reliable `{!Reliable Upper, !Reliable Lower} : Reliable layered.
Proof.
  intros m [Hm Hps]. destruct (t_delivers (T := Upper) m Hm) as (ps & Hs & Hf).
  destruct (messages_in_order Lower ps (Hps ps Hs)) as (qs & Hqs & Hfq).
  exists qs. split; [cbn; by rewrite Hs|]. by apply (layered_feed_all _ _ ps).
Qed.
End layered.
