(* ===== verification/SessionInfo.v ===== *)
(** * The security header, licensing and Save Session Info

    Models three small codecs of the connection sequence:
    [src/src/farland/proto/security.cpp] (the basic security header under
    Enhanced RDP Security), [license.cpp] (the server ends licensing at once)
    and [save_session_info.cpp] (the auto-reconnect cookie for the client). *)

From S2P Require Import Prelude Buffers CodecLogic Fields.
Open Scope Z_scope.

Module SessionInfo.

(** ** security.hpp, security.cpp *)

(** Namespace [sec_flags]. *)
Definition sec_encrypt : Z := 0x0008.
Definition info_pkt : Z := 0x0040.
Definition license_pkt : Z := 0x0080.
Definition autodetect_req : Z := 0x1000.
Definition autodetect_rsp : Z := 0x2000.
Definition heartbeat : Z := 0x4000.

Definition read_basic_security_header : Dec Z :=
  let* start := dask Reader.offset in
  let* flags := ReaderOps.u16le in
  let* _ := ReaderOps.skip 2 in
  if has_bits flags sec_encrypt
  then dfail invalid_value "RDP-encrypted PDU under Enhanced RDP Security" start
  else dret flags.

Definition write_basic_security_header (flags : Z) : Enc unit :=
  Writer.u16le flags ;;;
  Writer.u16le 0.

(** ** license.cpp *)

Definition error_alert : Z := 0xFF.
Definition preamble_version_3_0 : Z := 0x03.
Definition preamble_version_mask : Z := 0x0F.
Definition valid_client_message_size : Z := 16.
Definition status_valid_client : Z := 0x00000007.
Definition st_no_transition : Z := 0x00000002.
Definition bb_error_blob : Z := 0x0004.

Definition encode_license_valid_client : Enc unit :=
  write_basic_security_header license_pkt ;;;
  Writer.u8 error_alert ;;;
  Writer.u8 preamble_version_3_0 ;;;
  Writer.u16le valid_client_message_size ;;;
  Writer.u32le status_valid_client ;;;
  Writer.u32le st_no_transition ;;;
  Writer.u16le bb_error_blob ;;;
  Writer.u16le 0.

Definition decode_license_valid_client : Dec unit :=
  let* start := dask Reader.offset in
  let* flags := read_basic_security_header in
  if negb (has_bits flags license_pkt) then dfail invalid_value "expected a licensing PDU" start
  else
    let* preamble := dask Reader.offset in
    let* type := ReaderOps.u8 in
    let* version := ReaderOps.u8 in
    let* size := ReaderOps.u16le in
    if negb (type =? error_alert) then dfail unsupported "server requires a licensing exchange" preamble
    else if (Z.land version preamble_version_mask <? preamble_version_3_0) || (size <? valid_client_message_size)
    then dfail invalid_value "malformed license preamble" preamble
    else
      let* code := ReaderOps.u32le in
      let* transition := ReaderOps.u32le in
      if negb (code =? status_valid_client) || negb (transition =? st_no_transition)
      then dfail unsupported "license error other than STATUS_VALID_CLIENT" (preamble + 4)
      else dret tt.

(** ** save_session_info.hpp, save_session_info.cpp *)

Definition logon_extended_info : Z := 0x00000003.
Definition auto_reconnect_cookie_bit : Z := 0x00000001.
Definition logon_errors_bit : Z := 0x00000002.

Record ServerAutoReconnectCookie := mkCookie { version : Z; logon_id : Z; random_bits : list byte }.
Record LogonErrorsInfo := mkErrors { error_notification_type : Z; error_notification_data : Z }.
Record LogonInfoExtended := mkInfo {
  auto_reconnect_cookie : option ServerAutoReconnectCookie;
  logon_errors : option LogonErrorsInfo }.

Definition arc_sc_size : Z := 28.
Definition logon_errors_size : Z := 8.
Definition field_header_size : Z := 4.
Definition pad_size : Z := 570.
Definition fixed_size : Z := 2 + 4.
Definition known_fields : Z := Z.lor auto_reconnect_cookie_bit logon_errors_bit.

(** [fields] and [length] as the two [if]s of the encoder accumulate them. *)
Definition fields_present (info : LogonInfoExtended) : Z :=
  let fields := match auto_reconnect_cookie info with Some _ => Z.lor 0 auto_reconnect_cookie_bit | None => 0 end in
  match logon_errors info with Some _ => Z.lor fields logon_errors_bit | None => fields end.

Definition encoded_length (info : LogonInfoExtended) : Z :=
  let length := fixed_size + pad_size in
  let length := match auto_reconnect_cookie info with
                | Some _ => length + (field_header_size + arc_sc_size) | None => length end in
  match logon_errors info with Some _ => length + (field_header_size + logon_errors_size) | None => length end.

Definition encode_save_session_info (info : LogonInfoExtended) : Enc unit :=
  Writer.u32le logon_extended_info ;;;
  Writer.u16le (wrap 16 (encoded_length info)) ;;;
  Writer.u32le (fields_present info) ;;;
  ewhen (auto_reconnect_cookie info) (fun cookie =>
    Writer.u32le arc_sc_size ;;;
    Writer.u32le arc_sc_size ;;;
    Writer.u32le (version cookie) ;;;
    Writer.u32le (logon_id cookie) ;;;
    Writer.bytes (random_bits cookie)) ;;;
  ewhen (logon_errors info) (fun errors =>
    Writer.u32le logon_errors_size ;;;
    Writer.u32le (error_notification_type errors) ;;;
    Writer.u32le (error_notification_data errors)) ;;;
  Writer.zeros pad_size.

Definition read_cookie : Dec ServerAutoReconnectCookie :=
  let* field_offset := dask Reader.offset in
  let* field_size := ReaderOps.u32le in
  let* cb_len := ReaderOps.u32le in
  if negb (field_size =? arc_sc_size) || negb (cb_len =? arc_sc_size)
  then dfail invalid_length "ARC_SC_PRIVATE_PACKET is not 28 bytes" field_offset
  else
    let* v := ReaderOps.u32le in
    let* id := ReaderOps.u32le in
    let* random := ReaderOps.bytes 16 in
    dret (mkCookie v id random).

Definition read_logon_errors : Dec LogonErrorsInfo :=
  let* field_offset := dask Reader.offset in
  let* field_size := ReaderOps.u32le in
  if negb (field_size =? logon_errors_size)
  then dfail invalid_length "TS_LOGON_ERRORS_INFO is not 8 bytes" field_offset
  else
    let* type := ReaderOps.u32le in
    let* data := ReaderOps.u32le in
    dret (mkErrors type data).

Definition decode_save_session_info : Dec LogonInfoExtended :=
  let* type_offset := dask Reader.offset in
  let* type := ReaderOps.u32le in
  if negb (type =? logon_extended_info)
  then dfail unsupported "Save Session Info type other than extended logon info" type_offset
  else
    let* length_offset := dask Reader.offset in
    let* length := ReaderOps.u16le in
    let* fields := ReaderOps.u32le in
    let* remaining := dask Reader.remaining in
    if (length <? fixed_size) || (remaining <? length - fixed_size)
    then dfail invalid_length "TS_LOGON_INFO_EXTENDED length out of range" length_offset
    else if has_bits fields (Z.lnot known_fields)
    then dfail unsupported "unknown TS_LOGON_INFO_EXTENDED field" (length_offset + 2)
    else
      let* cookie := if has_bits fields auto_reconnect_cookie_bit then dsome read_cookie else dret None in
      let* errors := if has_bits fields logon_errors_bit then dsome read_logon_errors else dret None in
      let* _ := ReaderOps.skip pad_size in
      dret (mkInfo cookie errors).

(** ** Round trips *)

Definition header_bytes (flags : Z) : list byte := Writer.le_bytes 2 flags ++ Writer.le_bytes 2 0.

Lemma writes_security_header flags : writes (write_basic_security_header flags) (header_bytes flags).
Proof. unfold write_basic_security_header, header_bytes. repeat wstep. Qed.

Lemma reads_security_header flags k :
  u16_ok flags = true -> has_bits flags sec_encrypt = false ->
  reads read_basic_security_header (header_bytes flags) k (eq flags).
Proof.
  intros H E. widths. unfold read_basic_security_header, header_bytes. rstep.
  rewrite <- (app_nil_r (Writer.le_bytes 2 0)). do 2 rstep. rewrite E. by apply reads_ret.
Qed.

Lemma encodes_security_header flags :
  u16_ok flags = true -> has_bits flags sec_encrypt = false ->
  encodes (write_basic_security_header flags) read_basic_security_header flags 4.
Proof.
  intros H E. exists (header_bytes flags).
  split_and!; [apply writes_security_header|unfold header_bytes; len_lia|]. intros k. by apply reads_security_header.
Qed.

(** The error blob behind these bytes is not read. *)
Definition license_bytes : list byte :=
  header_bytes license_pkt ++ [byte_of error_alert] ++ [byte_of preamble_version_3_0] ++
  Writer.le_bytes 2 valid_client_message_size ++ Writer.le_bytes 4 status_valid_client ++
  Writer.le_bytes 4 st_no_transition.
Definition license_blob : list byte := Writer.le_bytes 2 bb_error_blob ++ Writer.le_bytes 2 0.

Lemma writes_license : writes encode_license_valid_client (license_bytes ++ license_blob).
Proof.
  unfold encode_license_valid_client, license_bytes, license_blob. rewrite <- !app_assoc.
  eapply writes_seq; [apply writes_security_header|]. repeat wstep.
Qed.

Lemma reads_license k : reads decode_license_valid_client license_bytes k (eq tt).
Proof.
  unfold decode_license_valid_client, license_bytes. rstep.
  eapply reads_bind; [by apply reads_security_header|]. intros ? <-. off. rstep.
  unfold error_alert, preamble_version_3_0, valid_client_message_size, status_valid_client, st_no_transition.
  do 3 rstep. do 2 off. do 2 rstep. off. by apply reads_ret.
Qed.

Definition cookie_ok (c : ServerAutoReconnectCookie) : bool :=
  u32_ok (version c) && u32_ok (logon_id c) && (len (random_bits c) =? 16).
Definition errors_ok (e : LogonErrorsInfo) : bool :=
  u32_ok (error_notification_type e) && u32_ok (error_notification_data e).
Definition info_ok (i : LogonInfoExtended) : bool :=
  opt_ok cookie_ok (auto_reconnect_cookie i) && opt_ok errors_ok (logon_errors i).

Definition cookie_bytes (c : ServerAutoReconnectCookie) : list byte :=
  Writer.le_bytes 4 arc_sc_size ++ Writer.le_bytes 4 arc_sc_size ++
  Writer.le_bytes 4 (version c) ++ Writer.le_bytes 4 (logon_id c) ++ random_bits c.
Definition errors_bytes (e : LogonErrorsInfo) : list byte :=
  Writer.le_bytes 4 logon_errors_size ++ Writer.le_bytes 4 (error_notification_type e) ++
  Writer.le_bytes 4 (error_notification_data e).
Definition info_bytes (i : LogonInfoExtended) : list byte :=
  Writer.le_bytes 4 logon_extended_info ++ Writer.le_bytes 2 (encoded_length i) ++
  Writer.le_bytes 4 (fields_present i) ++
  when_bytes cookie_bytes (auto_reconnect_cookie i) ++ when_bytes errors_bytes (logon_errors i) ++
  replicate (Z.to_nat pad_size) Corelib.Init.Byte.x00.

Lemma writes_info i : writes (encode_save_session_info i) (info_bytes i).
Proof.
  unfold encode_save_session_info, info_bytes.
  assert (wrap 16 (encoded_length i) = encoded_length i) as -> by (by destruct i as [[] []]).
  do 3 wstep; [apply writes_bytes..|].
  repeat (eapply writes_seq); try apply writes_zeros; apply writes_when; intros x _; unfold cookie_bytes, errors_bytes;
    repeat wstep.
Qed.

Lemma reads_cookie c k : cookie_ok c = true -> reads read_cookie (cookie_bytes c) k (eq c).
Proof.
  unfold cookie_ok. intros H. bools. widths. unfold read_cookie, cookie_bytes, arc_sc_size. rstep.
  do 2 rstep. off. do 3 rstep. apply reads_ret. by destruct c.
Qed.

Lemma reads_errors e k : errors_ok e = true -> reads read_logon_errors (errors_bytes e) k (eq e).
Proof.
  unfold errors_ok. intros H. bools. widths. unfold read_logon_errors, errors_bytes, logon_errors_size. rstep.
  rstep. off. do 2 rstep. apply reads_ret. by destruct e.
Qed.

Lemma len_info i : info_ok i = true -> len (info_bytes i) = 4 + encoded_length i.
Proof.
  unfold info_ok, info_bytes. intros [Hc He]%andb_prop. rewrite !len_app, !len_le_bytes, len_replicate.
  destruct i as [[c|] [e|]]; cbn [auto_reconnect_cookie logon_errors when_bytes opt_ok] in *;
    unfold cookie_ok, cookie_bytes, errors_bytes, encoded_length, fixed_size, pad_size, field_header_size, arc_sc_size,
      logon_errors_size in *; cbn [auto_reconnect_cookie logon_errors]; bools; len_lia.
Qed.

Lemma reads_info i k : info_ok i = true -> reads decode_save_session_info (info_bytes i) k (eq i).
Proof.
  intros Hok. pose proof (len_info i Hok) as Hlen. unfold info_bytes in *.
  unfold info_ok in Hok. apply andb_prop in Hok as [Hc He].
  assert (0 <= encoded_length i < 65536) as Hr by (by destruct i as [[] []]).
  assert (0 <= fields_present i < 4) as Hf by (by destruct i as [[] []]).
  unfold decode_save_session_info. rstep. unfold logon_extended_info. rstep. off. rstep.
  do 2 rstep. apply reads_ask. intros ? ?. rewrite remaining_mk.
  assert ((encoded_length i <? fixed_size) = false) as -> by (by destruct i as [[] []]).
  match goal with |- context [?a <? ?b] => assert ((a <? b) = false) as -> end.
  { apply Z.ltb_ge. rewrite !len_app, !len_le_bytes in Hlen. rewrite !len_app. pose proof (len_nonneg k).
    unfold fixed_size. lia. }
  assert (has_bits (fields_present i) (Z.lnot known_fields) = false) as -> by (by destruct i as [[] []]).
  cbn [orb].
  eapply reads_bind; [apply reads_present; [by destruct i as [[] []]|]|].
  { intros c Ec. apply reads_cookie. by eapply opt_ok_some. }
  intros ? <-. eapply reads_bind; [apply reads_present; [by destruct i as [[] []]|]|].
  { intros e Ee. apply reads_errors. by eapply opt_ok_some. }
  intros ? <-. eapply reads_bind_nil; [apply reads_skip; by rewrite len_replicate|].
  intros _ _. apply reads_ret. by destruct i.
Qed.

(** the small PDUs of the connection sequence are encoded as they are read
    back.  A basic security header is read back unless it announces RDP
    encryption, in which case it is an error whatever follows; the licensing PDU
    ends licensing for a client that decodes it; the Save Session Info PDU is
    read back with its optional fields, its length field counts exactly the
    structure that follows the type, and it encodes without a truncated cast. *)
Theorem session_pdus_roundtrip (flags : Z) (i : LogonInfoExtended) (k : list byte) (b : Z) :
  u16_ok flags = true -> info_ok i = true ->
  (exists e, Writer.run (write_basic_security_header flags) = Some e /\
     read_basic_security_header (Reader.make (e ++ k) b) =
     (if has_bits flags sec_encrypt then fail invalid_value "RDP-encrypted PDU under Enhanced RDP Security" b
      else Ok (flags, Reader.mk e k b))) /\
  (exists e blob, Writer.run encode_license_valid_client = Some (e ++ blob) /\
     decode_license_valid_client (Reader.make (e ++ blob) b) = Ok (tt, Reader.mk e blob b)) /\
  (exists e, Writer.run (encode_save_session_info i) = Some e /\ len e = 4 + encoded_length i /\
     encoded_length i < 65536 /\ decode_save_session_info (Reader.make (e ++ k) b) = Ok (i, Reader.mk e k b)).
Proof.
  intros Hf Hi. split_and!.
  - exists (header_bytes flags). split; [by apply writes_run, writes_security_header|].
    destruct (has_bits flags sec_encrypt) eqn:E.
    + assert (b + 0 = b) as Hb by lia. widths.
      unfold read_basic_security_header, dbind at 1, dask. unfold Reader.make, header_bytes.
      destruct (reads_u16le flags (Writer.le_bytes 2 0 ++ k) ltac:(lia) [] b) as (v & Hv & <-).
      rewrite <- app_assoc. unfold dbind at 1. rewrite Hv.
      destruct (reads_skip 2 (Writer.le_bytes 2 0) k eq_refl ([] ++ Writer.le_bytes 2 flags) b) as (u & Hu & _).
      unfold dbind. rewrite Hu, E. unfold dfail, Reader.offset, Reader.position, fail. cbn [Reader.base Reader.seen].
      by rewrite len_nil, Hb.
    + destruct (reads_security_header flags k Hf E [] b) as (v & Hv & <-). done.
  - exists license_bytes, license_blob. split; [by apply writes_run, writes_license|].
    by destruct (reads_license license_blob [] b) as ([] & Hv & _).
  - exists (info_bytes i). split_and!; [by apply writes_run, writes_info|by apply len_info|by destruct i as [[] []]|].
    by destruct (reads_info i k Hi [] b) as (v & Hv & <-).
Qed.

Definition sample_info : LogonInfoExtended :=
  mkInfo (Some (mkCookie 1 7 (replicate 16 (byte_of 0xAB)))) None.

Lemma session_pdus_roundtrip_witness :
  exists e, Writer.run (encode_save_session_info sample_info) = Some e /\ len e = 612 /\
            decode_save_session_info (Reader.make (e ++ [byte_of 9]) 0) = Ok (sample_info, Reader.mk e [byte_of 9] 0).
Proof.
  destruct (session_pdus_roundtrip info_pkt sample_info [byte_of 9] 0 eq_refl eq_refl)
    as (_ & _ & e & He & Hl & _ & Hd).
  exists e. split; [exact He|]. split; [exact Hl|exact Hd].
Defined.

End SessionInfo.
