(* ===== verification/Input.v ===== *)
(** * Input events

    Models [src/src/farland/proto/input.hpp] and [input.cpp]: the client's
    keyboard, mouse and synchronize events in slow-path and fast-path form,
    which decode to the same event types. *)

From S2P Require Import Prelude Buffers CodecLogic Fields.
Open Scope Z_scope.

Module Input.

(** Namespace [kbd_flags]. *)
Definition kbd_extended : Z := 0x0100.
Definition kbd_extended1 : Z := 0x0200.
Definition kbd_release : Z := 0x8000.

Inductive InputEvent :=
  | KeyboardEvent (flags code : Z)
  | UnicodeKeyboardEvent (flags code : Z)
  | MouseEvent (flags x y : Z)
  | ExtendedMouseEvent (flags x y : Z)
  | RelativeMouseEvent (flags dx dy : Z)
  | SyncEvent (toggle_flags : Z)
  | QoeTimestampEvent (timestamp : Z).

#[export] Instance InputEvent_eq_dec : EqDecision InputEvent.
Proof. solve_decision. Defined.

Definition max_slow_path_input_events : Z := 512.

(** Slow-path [messageType] values. *)
Definition input_event_sync : Z := 0x0000.
Definition input_event_scancode : Z := 0x0004.
Definition input_event_unicode : Z := 0x0005.
Definition input_event_mouse : Z := 0x8001.
Definition input_event_mousex : Z := 0x8002.
Definition input_event_mouserel : Z := 0x8004.

(** Fast-path [eventCode] values and flags. *)
Definition fp_scancode : Z := 0.
Definition fp_mouse : Z := 1.
Definition fp_mousex : Z := 2.
Definition fp_sync : Z := 3.
Definition fp_unicode : Z := 4.
Definition fp_relmouse : Z := 5.
Definition fp_qoe_timestamp : Z := 6.
Definition fp_kbd_release : Z := 0x01.
Definition fp_kbd_extended : Z := 0x02.
Definition fp_kbd_extended1 : Z := 0x04.
Definition fp_action_fastpath : Z := 0.
Definition fp_flag_secure_checksum : Z := 0x1.
Definition fp_flag_encrypted : Z := 0x2.

Definition keyboard_flags_from_fastpath (flags : Z) : Z :=
  let out := 0 in
  let out := if has_bits flags fp_kbd_release then Z.lor out kbd_release else out in
  let out := if has_bits flags fp_kbd_extended then Z.lor out kbd_extended else out in
  if has_bits flags fp_kbd_extended1 then Z.lor out kbd_extended1 else out.

Definition keyboard_flags_to_fastpath (flags : Z) : Z :=
  let out := 0 in
  let out := if has_bits flags kbd_release then Z.lor out fp_kbd_release else out in
  let out := if has_bits flags kbd_extended then Z.lor out fp_kbd_extended else out in
  if has_bits flags kbd_extended1 then Z.lor out fp_kbd_extended1 else out.

Definition read_pointer_event (Event : Z -> Z -> Z -> InputEvent) : Dec InputEvent :=
  let* flags := ReaderOps.u16le in
  let* x := ReaderOps.u16le in
  let* y := ReaderOps.u16le in
  dret (Event flags x y).

Definition read_relative_event : Dec InputEvent :=
  let* flags := ReaderOps.u16le in
  let* dx := ReaderOps.u16le in
  let* dy := ReaderOps.u16le in
  dret (RelativeMouseEvent flags (signed 16 dx) (signed 16 dy)).

(** ** Slow path *)

(** The body of the loop of [decode_slow_path_input]. *)
Definition read_slow_event : Dec InputEvent :=
  let* _ := ReaderOps.skip 4 in
  let* type_offset := dask Reader.offset in
  let* type := ReaderOps.u16le in
  if type =? input_event_sync then
    let* _ := ReaderOps.skip 2 in
    let* toggles := ReaderOps.u32le in
    dret (SyncEvent toggles)
  else if type =? input_event_scancode then
    let* flags := ReaderOps.u16le in
    let* code := ReaderOps.u16le in
    let* _ := ReaderOps.skip 2 in
    dret (KeyboardEvent flags code)
  else if type =? input_event_unicode then
    let* flags := ReaderOps.u16le in
    let* code := ReaderOps.u16le in
    let* _ := ReaderOps.skip 2 in
    dret (UnicodeKeyboardEvent flags code)
  else if type =? input_event_mouse then read_pointer_event MouseEvent
  else if type =? input_event_mousex then read_pointer_event ExtendedMouseEvent
  else if type =? input_event_mouserel then read_relative_event
  else dfail unsupported "unknown slow-path input event" type_offset.

Definition decode_slow_path_input : Dec (list InputEvent) :=
  let* start := dask Reader.offset in
  let* count := ReaderOps.u16le in
  if max_slow_path_input_events <? count then dfail limit_exceeded "too many slow-path input events" start
  else
    let* _ := ReaderOps.skip 2 in
    dtimes (Z.to_nat count) read_slow_event.

Definition write_slow_event (event : InputEvent) : Enc unit :=
  match event with
  | SyncEvent toggle_flags =>
      Writer.u16le input_event_sync ;;;
      Writer.u16le 0 ;;;
      Writer.u32le toggle_flags
  | KeyboardEvent flags code =>
      Writer.u16le input_event_scancode ;;;
      Writer.u16le flags ;;;
      Writer.u16le code ;;;
      Writer.u16le 0
  | UnicodeKeyboardEvent flags code =>
      Writer.u16le input_event_unicode ;;;
      Writer.u16le flags ;;;
      Writer.u16le code ;;;
      Writer.u16le 0
  | MouseEvent flags x y =>
      Writer.u16le input_event_mouse ;;;
      Writer.u16le flags ;;;
      Writer.u16le x ;;;
      Writer.u16le y
  | ExtendedMouseEvent flags x y =>
      Writer.u16le input_event_mousex ;;;
      Writer.u16le flags ;;;
      Writer.u16le x ;;;
      Writer.u16le y
  | RelativeMouseEvent flags dx dy =>
      Writer.u16le input_event_mouserel ;;;
      Writer.u16le flags ;;;
      Writer.u16le (wrap 16 dx) ;;;
      Writer.u16le (wrap 16 dy)
  | QoeTimestampEvent _ => eret tt
  end.

Definition is_qoe (event : InputEvent) : bool :=
  match event with QoeTimestampEvent _ => true | _ => false end.

(** The loop of [encode_slow_path_input], with its 16-bit [count]. *)
Fixpoint slow_loop (events : list InputEvent) (count : Z) : Enc Z :=
  match events with
  | [] => eret count
  | event :: events' =>
      if is_qoe event then slow_loop events' count
      else
        Writer.u32le 0 ;;;
        write_slow_event event ;;;
        slow_loop events' (wrap 16 (count + 1))
  end.

Definition encode_slow_path_input (events : list InputEvent) : Enc unit :=
  let! count_pos := Writer.size in
  Writer.u16le 0 ;;;
  Writer.u16le 0 ;;;
  let! count := slow_loop events 0 in
  Writer.patch_u16le count_pos count.

(** ** Fast path *)

(** The body of the loop of [decode_fastpath_input]. *)
Definition read_fast_event : Dec InputEvent :=
  let* event_offset := dask Reader.offset in
  let* event_header := ReaderOps.u8 in
  let code := Z.shiftr event_header 5 in
  let event_flags := Z.land event_header 0x1F in
  if code =? fp_scancode then
    let* key := ReaderOps.u8 in
    dret (KeyboardEvent (keyboard_flags_from_fastpath event_flags) key)
  else if code =? fp_mouse then read_pointer_event MouseEvent
  else if code =? fp_mousex then read_pointer_event ExtendedMouseEvent
  else if code =? fp_sync then dret (SyncEvent event_flags)
  else if code =? fp_unicode then
    let* unit := ReaderOps.u16le in
    dret (UnicodeKeyboardEvent (if has_bits event_flags fp_kbd_release then kbd_release else 0) unit)
  else if code =? fp_relmouse then read_relative_event
  else if code =? fp_qoe_timestamp then
    let* timestamp := ReaderOps.u32le in
    dret (QoeTimestampEvent timestamp)
  else dfail unsupported "unknown fast-path input event" event_offset.

Definition decode_fastpath_input : Dec (list InputEvent) :=
  let* start := dask Reader.offset in
  let* header := ReaderOps.u8 in
  if negb (Z.land header 0x03 =? fp_action_fastpath) then dfail invalid_value "not a fast-path PDU" start
  else if has_bits (Z.shiftr header 6) (Z.lor fp_flag_encrypted fp_flag_secure_checksum)
  then dfail invalid_value "RDP-encrypted fast-path input under Enhanced RDP Security" start
  else
    let* length1 := ReaderOps.u8 in
    let* length := if has_bits length1 0x80
                   then let* length2 := ReaderOps.u8 in dret (Z.lor (Z.shiftl (Z.land length1 0x7F) 8) length2)
                   else dret length1 in
    let* size := dask Reader.size in
    if negb (length =? size)
    then dfail invalid_length "fast-path length does not match the PDU" (start + 1)
    else
      let* count := (let count := Z.land (Z.shiftr header 2) 0x0F in
                     if count =? 0 then ReaderOps.u8 else dret count) in
      let* events := dtimes (Z.to_nat count) read_fast_event in
      let* _ := ReaderOps.expect_end "fast-path input PDU" in
      dret events.

Definition event_header (code flags : Z) : Enc unit :=
  Writer.u8 (wrap 8 (Z.lor (Z.shiftl code 5) (Z.land flags 0x1F))).

Definition write_fast_event (event : InputEvent) : Enc unit :=
  match event with
  | KeyboardEvent flags code =>
      eassert (code <=? 0xFF) ;;;
      event_header fp_scancode (keyboard_flags_to_fastpath flags) ;;;
      Writer.u8 (wrap 8 code)
  | UnicodeKeyboardEvent flags code =>
      event_header fp_unicode (if has_bits flags kbd_release then fp_kbd_release else 0) ;;;
      Writer.u16le code
  | MouseEvent flags x y =>
      event_header fp_mouse 0 ;;;
      Writer.u16le flags ;;;
      Writer.u16le x ;;;
      Writer.u16le y
  | ExtendedMouseEvent flags x y =>
      event_header fp_mousex 0 ;;;
      Writer.u16le flags ;;;
      Writer.u16le x ;;;
      Writer.u16le y
  | RelativeMouseEvent flags dx dy =>
      event_header fp_relmouse 0 ;;;
      Writer.u16le flags ;;;
      Writer.u16le (wrap 16 dx) ;;;
      Writer.u16le (wrap 16 dy)
  | SyncEvent toggle_flags => event_header fp_sync (wrap 8 toggle_flags)
  | QoeTimestampEvent timestamp =>
      event_header fp_qoe_timestamp 0 ;;;
      Writer.u32le timestamp
  end.

Definition encode_fastpath_input (events : list InputEvent) : Enc unit :=
  eassert (len events <=? 0xFF) ;;;
  let count_in_header := negb (bool_decide (events = [])) && (len events <? 16) in
  let! start := Writer.size in
  Writer.u8 (if count_in_header then wrap 8 (Z.shiftl (len events) 2) else 0) ;;;
  Writer.u16be 0 ;;;
  (if count_in_header then eret tt else Writer.u8 (wrap 8 (len events))) ;;;
  eeach write_fast_event events ;;;
  let! size := Writer.size in
  let length := size - start in
  eassert (length <=? 0x7FFF) ;;;
  Writer.patch_u16be (start + 1) (wrap 16 (Z.lor 0x8000 length)).

(** ** Events that have a wire form *)

(** The widths of the fields. *)
Definition event_ok (event : InputEvent) : bool :=
  match event with
  | KeyboardEvent f c | UnicodeKeyboardEvent f c => u16_ok f && u16_ok c
  | MouseEvent f x y | ExtendedMouseEvent f x y => u16_ok f && u16_ok x && u16_ok y
  | RelativeMouseEvent f x y => u16_ok f && i16_ok x && i16_ok y
  | SyncEvent t | QoeTimestampEvent t => u32_ok t
  end.

(** What the fast path can say: 8-bit scancodes, three keyboard flags, one
    flag with a Unicode unit, five toggles. *)
Definition fast_ok (event : InputEvent) : bool :=
  event_ok event &&
  match event with
  | KeyboardEvent f c =>
      (c <=? 0xFF) && (keyboard_flags_from_fastpath (keyboard_flags_to_fastpath f) =? f)
  | UnicodeKeyboardEvent f _ => (f =? 0) || (f =? kbd_release)
  | SyncEvent t => t <? 32
  | _ => true
  end.

Definition slow_event_bytes (event : InputEvent) : list byte :=
  Writer.le_bytes 4 0 ++
  match event with
  | SyncEvent t => Writer.le_bytes 2 input_event_sync ++ Writer.le_bytes 2 0 ++ Writer.le_bytes 4 t
  | KeyboardEvent f c =>
      Writer.le_bytes 2 input_event_scancode ++ Writer.le_bytes 2 f ++ Writer.le_bytes 2 c ++ Writer.le_bytes 2 0
  | UnicodeKeyboardEvent f c =>
      Writer.le_bytes 2 input_event_unicode ++ Writer.le_bytes 2 f ++ Writer.le_bytes 2 c ++ Writer.le_bytes 2 0
  | MouseEvent f x y =>
      Writer.le_bytes 2 input_event_mouse ++ Writer.le_bytes 2 f ++ Writer.le_bytes 2 x ++ Writer.le_bytes 2 y
  | ExtendedMouseEvent f x y =>
      Writer.le_bytes 2 input_event_mousex ++ Writer.le_bytes 2 f ++ Writer.le_bytes 2 x ++ Writer.le_bytes 2 y
  | RelativeMouseEvent f x y =>
      Writer.le_bytes 2 input_event_mouserel ++ Writer.le_bytes 2 f ++
      Writer.le_bytes 2 (wrap 16 x) ++ Writer.le_bytes 2 (wrap 16 y)
  | QoeTimestampEvent _ => []
  end.

(** Timestamps have no slow-path form. *)
Fixpoint slow_events (events : list InputEvent) : list InputEvent :=
  match events with
  | [] => []
  | e :: events' => if is_qoe e then slow_events events' else e :: slow_events events'
  end.

Lemma slow_events_in e events : In e (slow_events events) -> In e events /\ is_qoe e = false.
Proof.
  induction events as [|x events IH]; cbn [slow_events In]; [done|].
  destruct (is_qoe x) eqn:E; cbn [In].
  - intros [H ?]%IH. auto.
  - intros [<-|[H ?]%IH]; auto.
Qed.

Lemma writes_slow_event e : writes (Writer.u32le 0 ;;; write_slow_event e) (slow_event_bytes e).
Proof. unfold slow_event_bytes. destruct e; cbn [write_slow_event]; repeat wstep. Qed.

Lemma slow_loop_writes events : forall count w,
  0 <= count -> count + len (slow_events events) < 65536 ->
  slow_loop events count w =
  Some (count + len (slow_events events), w ++ concat (slow_event_bytes <$> slow_events events)).
Proof.
  induction events as [|e events IH]; intros count w Hc Hl; cbn [slow_loop slow_events] in *.
  - unfold eret. cbn [fmap list_fmap concat]. by rewrite len_nil, Z.add_0_r, app_nil_r.
  - destruct (is_qoe e) eqn:E; [by apply IH|]. rewrite len_cons in *.
    pose proof (writes_slow_event e w) as Hw. unfold ebind in *.
    destruct (Writer.u32le 0 w) as [[[] w']|]; [|done]. rewrite Hw. len_pose.
    rewrite wrap_small by lia. rewrite IH by lia. cbn [fmap list_fmap concat].
    by rewrite <- app_assoc, Z.add_assoc.
Qed.

Definition slow_bytes (events : list InputEvent) : list byte :=
  Writer.le_bytes 2 (len (slow_events events)) ++ Writer.le_bytes 2 0 ++
  concat (slow_event_bytes <$> slow_events events).

Lemma writes_slow_path events :
  len (slow_events events) < 65536 -> writes (encode_slow_path_input events) (slow_bytes events).
Proof.
  intros Hl w. unfold encode_slow_path_input, ebind, Writer.size, Writer.u16le, Writer.write_le, Writer.bytes.
  rewrite slow_loop_writes by lia. rewrite Z.add_0_l, <- !app_assoc. unfold Writer.patch_u16le.
  pose proof (patch_mk w [] (Writer.le_bytes 2 0) (Writer.le_bytes 2 (len (slow_events events)))
    (Writer.le_bytes 2 0 ++ concat (slow_event_bytes <$> slow_events events)) ltac:(len_lia)) as Hp.
  rewrite len_nil, Z.add_0_r in Hp. exact Hp.
Qed.

(** [by_type] resolves a chain of comparisons with constants. *)
Ltac by_type := repeat first [off | on].

Lemma reads_pointer mk f x y k :
  u16_ok f = true -> u16_ok x = true -> u16_ok y = true ->
  reads (read_pointer_event mk) (Writer.le_bytes 2 f ++ Writer.le_bytes 2 x ++ Writer.le_bytes 2 y) k (eq (mk f x y)).
Proof. intros. widths. unfold read_pointer_event. do 3 rstep. by apply reads_ret. Qed.

Lemma reads_relative f x y k :
  u16_ok f = true -> i16_ok x = true -> i16_ok y = true ->
  reads read_relative_event (Writer.le_bytes 2 f ++ Writer.le_bytes 2 (wrap 16 x) ++ Writer.le_bytes 2 (wrap 16 y)) k
        (eq (RelativeMouseEvent f x y)).
Proof.
  intros. widths. pose proof (wrap_range 16 x). pose proof (wrap_range 16 y).
  unfold read_relative_event. do 3 rstep. apply reads_ret. by rewrite !signed_wrap by lia.
Qed.

Lemma reads_slow_event e k :
  event_ok e = true -> is_qoe e = false -> reads read_slow_event (slow_event_bytes e) k (eq e).
Proof.
  intros Hok Hq. unfold read_slow_event, slow_event_bytes. rstep. rstep.
  unfold input_event_sync, input_event_scancode, input_event_unicode, input_event_mouse, input_event_mousex,
    input_event_mouserel in *.
  destruct e as [f c|f c|f x y|f x y|f x y|t|t]; cbn [event_ok is_qoe] in *; bools; [..|done]; rstep; by_type.
  1-2: widths; do 2 rstep; eapply reads_bind_nil; [by apply reads_skip|]; intros _ _; by apply reads_ret.
  1-2: by apply reads_pointer.
  - by apply reads_relative.
  - widths. do 2 rstep. by apply reads_ret.
Qed.

Lemma reads_slow_path events k :
  forallb event_ok events = true -> len (slow_events events) <= max_slow_path_input_events ->
  reads decode_slow_path_input (slow_bytes events) k (eq (slow_events events)).
Proof.
  unfold max_slow_path_input_events. intros Hok Hl. pose proof (len_nonneg (slow_events events)).
  unfold decode_slow_path_input, slow_bytes, max_slow_path_input_events. rstep. rstep. off. rstep.
  apply reads_times; [unfold len; by rewrite Nat2Z.id|].
  apply List.Forall_forall. intros e [He Hq]%slow_events_in k'.
  rewrite forallb_forall in Hok. apply reads_slow_event; [by apply Hok|done].
Qed.

(** ** The fast path *)

Definition fast_event_bytes (event : InputEvent) : list byte :=
  match event with
  | KeyboardEvent f c => [byte_of (keyboard_flags_to_fastpath f)] ++ [byte_of c]
  | UnicodeKeyboardEvent f c =>
      [byte_of (fp_unicode * 32 + (if has_bits f kbd_release then 1 else 0))] ++ Writer.le_bytes 2 c
  | MouseEvent f x y =>
      [byte_of (fp_mouse * 32)] ++ Writer.le_bytes 2 f ++ Writer.le_bytes 2 x ++ Writer.le_bytes 2 y
  | ExtendedMouseEvent f x y =>
      [byte_of (fp_mousex * 32)] ++ Writer.le_bytes 2 f ++ Writer.le_bytes 2 x ++ Writer.le_bytes 2 y
  | RelativeMouseEvent f x y =>
      [byte_of (fp_relmouse * 32)] ++ Writer.le_bytes 2 f ++
      Writer.le_bytes 2 (wrap 16 x) ++ Writer.le_bytes 2 (wrap 16 y)
  | SyncEvent t => [byte_of (fp_sync * 32 + t)]
  | QoeTimestampEvent t => [byte_of (fp_qoe_timestamp * 32)] ++ Writer.le_bytes 4 t
  end.

Lemma keyboard_flags_small f : 0 <= keyboard_flags_to_fastpath f < 8.
Proof. unfold keyboard_flags_to_fastpath. by destruct (has_bits f _), (has_bits f _), (has_bits f _). Qed.

(** The header octet of an event, taken apart again by the decoder. *)
Definition header_check (h : Z) : bool :=
  (Z.shiftr h 5 =? h / 32) && (Z.land h 0x1F =? h mod 32) &&
  (wrap 8 (Z.lor (Z.shiftl (h / 32) 5) (Z.land (h mod 32) 0x1F)) =? h).

Lemma header_split c f : 0 <= c < 8 -> 0 <= f < 32 ->
  Z.shiftr (c * 32 + f) 5 = c /\ Z.land (c * 32 + f) 0x1F = f /\
  wrap 8 (Z.lor (Z.shiftl c 5) (Z.land f 0x1F)) = c * 32 + f.
Proof.
  intros Hc Hf. pose proof (Zupto_forall 256 header_check ltac:(vm_compute; done) (c * 32 + f) ltac:(lia)) as H.
  unfold header_check in H. apply andb_prop in H as [[H1 H2]%andb_prop H3].
  apply Z.eqb_eq in H1 as ->. apply Z.eqb_eq in H2 as ->. apply Z.eqb_eq in H3.
  assert ((c * 32 + f) / 32 = c) as E1 by lia. assert ((c * 32 + f) mod 32 = f) as E2 by lia.
  rewrite E1, E2 in *. by rewrite H3.
Qed.

Lemma writes_event_header c f : 0 <= c < 8 -> 0 <= f < 32 -> writes (event_header c f) [byte_of (c * 32 + f)].
Proof.
  intros Hc Hf. unfold event_header. destruct (header_split c f Hc Hf) as (_ & _ & ->). apply writes_bytes.
Qed.

Lemma writes_fast_event e : fast_ok e = true -> writes (write_fast_event e) (fast_event_bytes e).
Proof.
  unfold fast_ok. intros [Hok Hf]%andb_prop. destruct e as [f c|f c|f x y|f x y|f x y|t|t];
    cbn [write_fast_event fast_event_bytes event_ok] in *; bools.
  - apply writes_assert; [by apply Z.leb_le|]. pose proof (keyboard_flags_small f).
    apply writes_seq; [by apply (writes_event_header 0); lia|]. widths. rewrite wrap_small by lia. apply writes_bytes.
  - apply writes_seq; [|apply writes_bytes]. destruct (has_bits f kbd_release); by apply (writes_event_header 4).
  - eapply writes_seq; [by apply (writes_event_header 1 0)|]. repeat wstep.
  - eapply writes_seq; [by apply (writes_event_header 2 0)|]. repeat wstep.
  - eapply writes_seq; [by apply (writes_event_header 5 0)|]. repeat wstep.
  - widths. rewrite wrap_small by lia. apply (writes_event_header 3); lia.
  - eapply writes_seq; [by apply (writes_event_header 6 0)|]. repeat wstep.
Qed.

(** The decoder on a header octet and what follows. *)
Lemma reads_fast_header c f e k Q :
  0 <= c < 8 -> 0 <= f < 32 ->
  (forall o, reads (if c =? fp_scancode then
      let* key := ReaderOps.u8 in
      dret (KeyboardEvent (keyboard_flags_from_fastpath f) key)
    else if c =? fp_mouse then read_pointer_event MouseEvent
    else if c =? fp_mousex then read_pointer_event ExtendedMouseEvent
    else if c =? fp_sync then dret (SyncEvent f)
    else if c =? fp_unicode then
      let* unit := ReaderOps.u16le in
      dret (UnicodeKeyboardEvent (if has_bits f fp_kbd_release then kbd_release else 0) unit)
    else if c =? fp_relmouse then read_relative_event
    else if c =? fp_qoe_timestamp then
      let* timestamp := ReaderOps.u32le in
      dret (QoeTimestampEvent timestamp)
    else dfail unsupported "unknown fast-path input event" o) e k Q) ->
  reads read_fast_event ([byte_of (c * 32 + f)] ++ e) k Q.
Proof.
  intros Hc Hf H. unfold read_fast_event. apply reads_ask. intros s b.
  eapply reads_bind; [apply reads_u8; lia|]. intros ? <-.
  destruct (header_split c f Hc Hf) as (-> & -> & _). apply H.
Qed.

Lemma reads_fast_event e k : fast_ok e = true -> reads read_fast_event (fast_event_bytes e) k (eq e).
Proof.
  unfold fast_ok. intros [Hok Hf]%andb_prop. destruct e as [f c|f c|f x y|f x y|f x y|t|t];
    cbn [fast_event_bytes event_ok] in *; bools.
  - pose proof (keyboard_flags_small f). apply (reads_fast_header 0 (keyboard_flags_to_fastpath f)); [lia|lia|].
    intros o. on. widths. rstep. apply reads_ret. by f_equal.
  - apply (reads_fast_header 4); [lia|by destruct (has_bits f _)|]. intros o. by_type. widths. rstep. apply reads_ret.
    by destruct Hf as [->%Z.eqb_eq| ->%Z.eqb_eq].
  - apply (reads_fast_header 1 0); [done..|]. intros o. by_type. by apply reads_pointer.
  - apply (reads_fast_header 2 0); [done..|]. intros o. by_type. by apply reads_pointer.
  - apply (reads_fast_header 5 0); [done..|]. intros o. by_type. by apply reads_relative.
  - widths. rewrite <- (app_nil_r [_]). apply (reads_fast_header 3 t); [lia|lia|]. intros o. by_type. by apply reads_ret.
  - apply (reads_fast_header 6 0); [done..|]. intros o. by_type. widths. rstep. by apply reads_ret.
Qed.

Lemma len_fast_event e : 1 <= len (fast_event_bytes e) <= 7.
Proof. destruct e; cbn [fast_event_bytes]; len_lia. Qed.

Lemma len_fast_events events :
  0 <= len (concat (fast_event_bytes <$> events)) <= 7 * len events.
Proof.
  induction events as [|e events IH]; [done|]. cbn [fmap list_fmap concat].
  change (list_fmap InputEvent (list byte) fast_event_bytes events) with (fast_event_bytes <$> events).
  pose proof (len_fast_event e). rewrite len_app, len_cons. lia.
Qed.

Definition in_header (events : list InputEvent) : bool :=
  negb (bool_decide (events = [])) && (len events <? 16).

Definition count_bytes (events : list InputEvent) : list byte :=
  if in_header events then [] else [byte_of (len events)].

Definition fast_body (events : list InputEvent) : list byte :=
  count_bytes events ++ concat (fast_event_bytes <$> events).

Definition fast_bytes (events : list InputEvent) : list byte :=
  [byte_of (if in_header events then len events * 4 else 0)] ++
  Writer.be_bytes 2 (0x8000 + (3 + len (fast_body events))) ++ fast_body events.

Lemma len_fast_body events : len events <= 255 -> 0 <= len (fast_body events) <= 1786.
Proof.
  intros Hl. pose proof (len_fast_events events). unfold fast_body, count_bytes.
  destruct (in_header events); len_lia.
Qed.

Lemma in_header_range events : in_header events = true -> 1 <= len events < 16.
Proof.
  unfold in_header. intros H. bools. destruct events; [done|]. len_lia.
Qed.

Lemma writes_fast_path events :
  len events <= 255 -> forallb fast_ok events = true -> writes (encode_fastpath_input events) (fast_bytes events).
Proof.
  intros Hl Hok. pose proof (len_fast_body events Hl) as Hb.
  assert (Forall (fun e => writes (write_fast_event e) (fast_event_bytes e)) events) as Hw.
  { apply List.Forall_forall. intros e He. rewrite forallb_forall in Hok. by apply writes_fast_event, Hok. }
  unfold encode_fastpath_input. apply writes_assert; [by apply Z.leb_le|].
  change (negb (bool_decide (events = [])) && (len events <? 16)) with (in_header events). cbv zeta.
  set (h := if in_header events then len events * 4 else 0).
  assert (Writer.u8 (if in_header events then wrap 8 (Z.shiftl (len events) 2) else 0) = Writer.u8 h) as ->.
  { subst h. destruct (in_header events) eqn:E; [|done]. apply in_header_range in E.
    by rewrite wrap_small, Z.shiftl_mul_pow2 by (rewrite ?Z.shiftl_mul_pow2; lia). }
  unfold fast_bytes. fold h.
  eapply (writes_patched _ (Writer.u8 h ;;; Writer.u16be 0 ;;;
      (if in_header events then eret tt else Writer.u8 (wrap 8 (len events))) ;;; eeach write_fast_event events)
    (fun n => n <=? 0x7FFF) (fun n => Writer.be_bytes 2 (wrap 16 (Z.lor 0x8000 n))) 1 [byte_of h] (Writer.be_bytes 2 0)).
  - intros start w. by destruct (in_header events).
  - repeat (apply writes_seq; [apply writes_bytes|]). unfold fast_body, count_bytes.
    apply writes_seq; [|by apply writes_each]. pose proof (len_nonneg events). destruct (in_header events); [apply writes_ret|].
    rewrite wrap_small by lia. apply writes_bytes.
  - done.
  - apply Z.leb_le. len_lia.
  - assert (len ([byte_of h] ++ Writer.be_bytes 2 0 ++ fast_body events) = 3 + len (fast_body events)) as -> by len_lia.
    rewrite (lor_const 0x8000 1 _ 15) by (done || lia). by rewrite wrap_small by lia.
  - len_lia.
Qed.

(** What follows the length: the count, unless the header has it, and the events. *)
Lemma reads_fast_body events h :
  len events <= 255 -> forallb fast_ok events = true ->
  Z.land (Z.shiftr h 2) 0x0F = (if in_header events then len events else 0) ->
  reads (let* count := (let count := Z.land (Z.shiftr h 2) 0x0F in
                        if count =? 0 then ReaderOps.u8 else dret count) in
         let* events := dtimes (Z.to_nat count) read_fast_event in
         let* _ := ReaderOps.expect_end "fast-path input PDU" in
         dret events) (fast_body events) [] (eq events).
Proof.
  intros Hl Hok Hh. rewrite Hh. pose proof (len_nonneg events).
  assert (Forall (fun e => forall k, reads read_fast_event (fast_event_bytes e) k (eq e)) events) as Hr.
  { apply List.Forall_forall. intros e He k. rewrite forallb_forall in Hok. by apply reads_fast_event, Hok. }
  unfold fast_body, count_bytes.
  eapply (reads_bind _ _ _ _ _ (eq (len events))).
  { destruct (in_header events) eqn:E; cbv zeta; [|apply reads_u8; lia].
    apply in_header_range in E. destruct (Z.eqb_spec (len events) 0); [lia|]. by apply reads_ret. }
  intros ? <-. eapply reads_bind_nil; [apply reads_times; [unfold len; by rewrite Nat2Z.id|exact Hr]|].
  intros ? <-. eapply reads_bind_nil; [apply reads_expect_end|]. intros _ _. by apply reads_ret.
Qed.

(** The first octet: action 0, no flags, the event count. *)
Definition first_check (n : Z) : bool :=
  (Z.land (n * 4) 0x03 =? 0) && negb (has_bits (Z.shiftr (n * 4) 6) 3) && (Z.land (Z.shiftr (n * 4) 2) 0x0F =? n).

Lemma first_octet n : 0 <= n < 16 ->
  Z.land (n * 4) 0x03 = 0 /\ has_bits (Z.shiftr (n * 4) 6) 3 = false /\ Z.land (Z.shiftr (n * 4) 2) 0x0F = n.
Proof.
  intros Hn. pose proof (Zupto_forall 16 first_check ltac:(vm_compute; done) n ltac:(lia)) as H.
  unfold first_check in H. bools. done.
Qed.

Lemma length_octets n : 0 <= n < 32768 ->
  exists a b, Writer.be_bytes 2 (0x8000 + n) = [a; b] /\ has_bits (u8_of a) 0x80 = true /\
              Z.lor (Z.shiftl (Z.land (u8_of a) 0x7F) 8) (u8_of b) = n.
Proof.
  intros Hn. rewrite be_bytes_2. do 2 eexists. split; [done|]. rewrite !u8_of_byte_of.
  replace ((0x8000 + n) / 256 mod 256) with (128 + n / 256) by lia.
  replace ((0x8000 + n) mod 256) with (n mod 256) by lia.
  assert (0 <= n / 256 < 128) as Hd by lia.
  assert (Z.land (128 + n / 256) 0x7F = n / 256) as ->.
  { rewrite (land_low _ 0x7F 7) by done. change (2 ^ 7) with 128. lia. }
  split; [|rewrite lor_disjoint by lia; lia].
  change 0x80 with (2 ^ 7). rewrite has_bits_testbit, Z.testbit_true by lia. change (2 ^ 7) with 128. lia.
Qed.

Lemma reads_fast_path events :
  len events <= 255 -> forallb fast_ok events = true ->
  decode_fastpath_input (Reader.make (fast_bytes events) 0) = Ok (events, Reader.mk (fast_bytes events) [] 0).
Proof.
  intros Hl Hok. pose proof (len_fast_body events Hl) as Hb. pose proof (len_nonneg events).
  set (n := if in_header events then len events else 0).
  assert (0 <= n < 16) as Hn.
  { subst n. destruct (in_header events) eqn:E; [apply in_header_range in E; lia|lia]. }
  assert (fast_bytes events = [byte_of (n * 4)] ++ Writer.be_bytes 2 (0x8000 + (3 + len (fast_body events))) ++
          fast_body events) as ->.
  { unfold fast_bytes, n. by destruct (in_header events). }
  destruct (length_octets (3 + len (fast_body events)) ltac:(lia)) as (a & b & -> & Ha & Hab).
  destruct (first_octet n Hn) as (H1 & H2 & H3). unfold Reader.make. cbn [app].
  unfold decode_fastpath_input. rewrite dbind_ask. cbn beta. rewrite dbind_u8. cbn beta.
  rewrite u8_of_byte_of_small by lia. rewrite H1. cbn [Z.eqb fp_action_fastpath negb].
  change (Z.lor fp_flag_encrypted fp_flag_secure_checksum) with 3. rewrite H2.
  rewrite dbind_u8. cbn beta. rewrite Ha. rewrite dbind_assoc, dbind_u8. cbn beta. rewrite dbind_ret. cbn beta.
  rewrite Hab, dbind_ask. cbn beta. rewrite size_mk. cbn [app].
  match goal with |- context [negb (?x =? ?y)] => assert (x = y) as -> by len_lia end. rewrite Z.eqb_refl. cbn [negb].
  destruct (reads_fast_body events (n * 4) Hl Hok H3 [byte_of (n * 4); a; b] 0) as (es & Hes & <-).
  rewrite app_nil_r in Hes. exact Hes.
Qed.

(** ** What the decoders accept *)

Lemma read_pointer_ok mk r e r' :
  (forall f x y, event_ok (mk f x y) = u16_ok f && u16_ok x && u16_ok y) ->
  read_pointer_event mk r = Ok (e, r') -> event_ok e = true.
Proof. intros Hmk H. unfold read_pointer_event in H. run H. rewrite Hmk. by rewrite !andb_true_iff. Qed.

Lemma read_relative_ok r e r' : read_relative_event r = Ok (e, r') -> event_ok e = true.
Proof.
  intros H. unfold read_relative_event in H. run H. cbn [event_ok].
  by rewrite !andb_true_iff, !signed16_ok.
Qed.

Lemma read_slow_event_ok r e r' :
  read_slow_event r = Ok (e, r') -> event_ok e = true /\ is_qoe e = false.
Proof.
  intros H. unfold read_slow_event in H. run H; try (split; [cbn [event_ok]; by rewrite ?andb_true_iff|done]).
  - split; [by eapply read_pointer_ok; [|exact H]|]. unfold read_pointer_event in H. by run H.
  - split; [by eapply read_pointer_ok; [|exact H]|]. unfold read_pointer_event in H. by run H.
  - split; [by eapply read_relative_ok|]. unfold read_relative_event in H. by run H.
Qed.

Definition fast_flags_check (f : Z) : bool :=
  u16_ok (keyboard_flags_from_fastpath f) &&
  (keyboard_flags_from_fastpath (keyboard_flags_to_fastpath (keyboard_flags_from_fastpath f)) =?
   keyboard_flags_from_fastpath f).

Lemma fast_flags f : 0 <= f < 32 -> fast_flags_check f = true.
Proof. apply (Zupto_forall 32 fast_flags_check). vm_compute. done. Qed.

Lemma read_fast_event_ok r e r' : read_fast_event r = Ok (e, r') -> fast_ok e = true.
Proof.
  intros H. unfold read_fast_event in H. run1 H. run1 H.
  assert (0 <= Z.land v 0x1F < 32) as Hf.
  { rewrite (land_low _ 0x1F 5) by done. change (2 ^ 5) with 32. lia. }
  generalize dependent (Z.land v 0x1F). intros f H Hf. unfold fast_ok.
  run H; cbn [event_ok].
  - pose proof (fast_flags f Hf) as Hk. unfold fast_flags_check in Hk. widths. rewrite !andb_true_iff.
    repeat split; try apply Z.eqb_eq; try apply Z.leb_le; try apply Z.ltb_lt; lia.
  - unfold read_pointer_event in H. run H. cbn [event_ok]. by rewrite !andb_true_iff.
  - unfold read_pointer_event in H. run H. cbn [event_ok]. by rewrite !andb_true_iff.
  - unfold u32_ok. rewrite !andb_true_iff. repeat split; try apply Z.leb_le; try apply Z.ltb_lt; lia.
  - destruct (has_bits f fp_kbd_release); by rewrite !andb_true_iff.
  - unfold read_relative_event in H. run H. cbn [event_ok]. by rewrite !andb_true_iff, !signed16_ok.
  - by rewrite !andb_true_iff.
Qed.

(** whatever the bytes, the events a client can make the server see are
    well-typed: every field has its wire width, the slow path yields at most 512
    events and never a timestamp, the fast path at most 255 and only what its
    encoder can write (8-bit scancodes, the three keyboard flags, five toggle
    bits), and its PDU has been consumed to the last octet. *)
Theorem input_events_typed (r r' : Reader.t) (events : list InputEvent) :
  (decode_slow_path_input r = Ok (events, r') ->
   len events <= max_slow_path_input_events /\ Forall (fun e => event_ok e = true /\ is_qoe e = false) events) /\
  (decode_fastpath_input r = Ok (events, r') ->
   len events <= 255 /\ forallb fast_ok events = true /\ Reader.rest r' = []).
Proof.
  split; intros H.
  - unfold decode_slow_path_input in H. run1 H. run1 H. run1 H. run1 H. widths.
    destruct (dtimes_inv _ _ _ _ _ _ read_slow_event_ok H) as [Hl HF]. split; [unfold len; lia|done].
  - unfold decode_fastpath_input in H. do 9 run1 H.
    assert (0 <= v2 <= 255) as Hv.
    { destruct (Z.land (Z.shiftr v 2) 15 =? 0); [apply u8_width, u8_le in R2; lia|].
      injection R2 as <- _. rewrite (land_low _ 15 4) by done. change (2 ^ 4) with 16. lia. }
    run1 H. destruct (dtimes_inv _ _ _ _ _ _ read_fast_event_ok R3) as [Hl HF].
    run1 H. apply expect_end_inv in R4 as [-> Hr]. injection H as -> <-.
    split_and!; [unfold len; lia| |done]. apply forallb_forall. by apply List.Forall_forall.
Qed.

(** input survives its wire forms.  Every sequence of up to 255 events the
    fast path can say is encoded without an assertion and decoded to the same
    events, whether the count is in the header or behind it; every sequence of
    at most 512 events is encoded for the slow path and decoded to the same
    events less the timestamps, with what follows left unread. *)
Theorem input_roundtrip (events : list InputEvent) (k : list byte) (b : Z) :
  (len events <= 255 -> forallb fast_ok events = true ->
   exists e, Writer.run (encode_fastpath_input events) = Some e /\
             decode_fastpath_input (Reader.make e 0) = Ok (events, Reader.mk e [] 0)) /\
  (len (slow_events events) <= max_slow_path_input_events -> forallb event_ok events = true ->
   exists e, Writer.run (encode_slow_path_input events) = Some e /\
             decode_slow_path_input (Reader.make (e ++ k) b) = Ok (slow_events events, Reader.mk e k b)).
Proof.
  split; intros Hl Hok.
  - exists (fast_bytes events). split; [by apply writes_run, writes_fast_path|by apply reads_fast_path].
  - exists (slow_bytes events). unfold max_slow_path_input_events in Hl.
    split; [apply writes_run, writes_slow_path; lia|].
    by destruct (reads_slow_path events k Hok Hl [] b) as (v & Hv & <-).
Qed.

Definition sample_events : list InputEvent :=
  [KeyboardEvent kbd_release 0x1E; MouseEvent 0x0800 640 480; RelativeMouseEvent 0x0800 (-3) 4; SyncEvent 5;
   QoeTimestampEvent 77].

Lemma input_roundtrip_witness :
  exists e, Writer.run (encode_fastpath_input sample_events) = Some e /\
            decode_fastpath_input (Reader.make e 0) = Ok (sample_events, Reader.mk e [] 0).
Proof. apply (input_roundtrip sample_events [] 0); [done|reflexivity]. Defined.

Lemma input_events_typed_witness :
  exists events r', decode_fastpath_input (Reader.make (fast_bytes sample_events) 0) = Ok (events, r') /\
                    forallb fast_ok events = true.
Proof.
  exists sample_events, (Reader.mk (fast_bytes sample_events) [] 0).
  assert (decode_fastpath_input (Reader.make (fast_bytes sample_events) 0)
          = Ok (sample_events, Reader.mk (fast_bytes sample_events) [] 0)) as H by (vm_compute; reflexivity).
  split; [exact H|]. exact (proj1 (proj2 (proj2 (input_events_typed _ _ _) H))).
Defined.

End Input.
