(* ===== verification/Capabilities.v ===== *)
(** * Capability sets

    Models [src/src/farland/proto/capabilities.hpp] and [capabilities.cpp]: the
    sets exchanged in Demand Active and Confirm Active.  Sets the program acts
    on are records, the others stay raw. *)

From S2P Require Import Prelude Buffers CodecLogic Text Fields.
Open Scope Z_scope.

Module Capabilities.

(** Namespace [type]. *)
Definition type_general : Z := 1.
Definition type_bitmap : Z := 2.
Definition type_order : Z := 3.
Definition type_pointer : Z := 8.
Definition type_share : Z := 9.
Definition type_color_cache : Z := 10.
Definition type_input : Z := 13.
Definition type_font : Z := 14.
Definition type_virtual_channel : Z := 20.
Definition type_multifragment_update : Z := 26.
Definition type_large_pointer : Z := 27.
Definition type_surface_commands : Z := 28.
Definition type_frame_acknowledge : Z := 30.

Record General := mkGeneral {
  os_major_type : Z; os_minor_type : Z; protocol_version : Z; general_compression_types : Z;
  extra_flags : Z; update_capability_flag : Z; remote_unshare_flag : Z; general_compression_level : Z;
  refresh_rect_support : Z; suppress_output_support : Z }.

(** Namespaces [general_extra_flags] and [os_major]. *)
Definition fastpath_output_supported : Z := 0x0001.
Definition long_credentials_supported : Z := 0x0004.
Definition no_bitmap_compression_hdr : Z := 0x0400.
Definition os_major_unix : Z := 0x0004.

Record Bitmap := mkBitmap {
  preferred_bits_per_pixel : Z; receive_1_bit_per_pixel : Z; receive_4_bits_per_pixel : Z;
  receive_8_bits_per_pixel : Z; desktop_width : Z; desktop_height : Z; desktop_resize_flag : Z;
  bitmap_compression_flag : Z; high_color_flags : Z; drawing_flags : Z; multiple_rectangle_support : Z }.

Record Order := mkOrder {
  terminal_descriptor : list byte; desktop_save_x_granularity : Z; desktop_save_y_granularity : Z;
  maximum_order_level : Z; number_fonts : Z; order_flags : Z; order_support : list Z; text_flags : Z;
  order_support_ex_flags : Z; desktop_save_size : Z; text_ansi_code_page : Z }.

Record Pointer := mkPointer {
  color_pointer_flag : Z; color_pointer_cache_size : Z; pointer_cache_size : option Z }.

Record Input := mkInput {
  input_flags : Z; keyboard_layout : Z; keyboard_type : Z; keyboard_subtype : Z;
  keyboard_function_keys : Z; ime_file_name : list byte }.

(** Namespace [input_flags]. *)
Definition input_scancodes : Z := 0x0001.
Definition input_mousex : Z := 0x0004.
Definition input_fastpath_input : Z := 0x0008.
Definition input_unicode : Z := 0x0010.
Definition input_fastpath_input2 : Z := 0x0020.
Definition input_mouse_hwheel : Z := 0x0100.

Record VirtualChannel := mkVirtualChannel { vc_flags : Z; chunk_size : option Z }.
Record Share := mkShare { node_id : Z }.
Record Font := mkFont { font_support_flags : Z }.
Record ColorCache := mkColorCache { cache_size : Z }.
Record MultifragmentUpdate := mkMultifragment { max_request_size : Z }.
Record LargePointer := mkLargePointer { support_flags : Z }.
Record SurfaceCommands := mkSurfaceCommands { cmd_flags : Z }.
Record FrameAcknowledge := mkFrameAcknowledge { max_unacknowledged_frame_count : Z }.
Record RawCapabilitySet := mkRaw { raw_type : Z; raw_body : list byte }.

(** Namespace [large_pointer_flags]. *)
Definition size_96x96 : Z := 0x0001.
Definition size_384x384 : Z := 0x0002.

Record CapabilitySets := mkSets {
  general : option General; bitmap : option Bitmap; order : option Order; pointer : option Pointer;
  input : option Input; virtual_channel : option VirtualChannel; share : option Share; font : option Font;
  color_cache : option ColorCache; multifragment_update : option MultifragmentUpdate;
  large_pointer : option LargePointer; surface_commands : option SurfaceCommands;
  frame_acknowledge : option FrameAcknowledge; other : list RawCapabilitySet }.

Definition no_sets : CapabilitySets :=
  mkSets None None None None None None None None None None None None None [].

(** Assignment to one member. *)
Definition set_general (v : option General) (s : CapabilitySets) : CapabilitySets :=
  mkSets v (bitmap s) (order s) (pointer s) (input s) (virtual_channel s) (share s) (font s) (color_cache s) (multifragment_update s) (large_pointer s) (surface_commands s) (frame_acknowledge s) (other s).

Definition set_bitmap (v : option Bitmap) (s : CapabilitySets) : CapabilitySets :=
  mkSets (general s) v (order s) (pointer s) (input s) (virtual_channel s) (share s) (font s) (color_cache s) (multifragment_update s) (large_pointer s) (surface_commands s) (frame_acknowledge s) (other s).

Definition set_order (v : option Order) (s : CapabilitySets) : CapabilitySets :=
  mkSets (general s) (bitmap s) v (pointer s) (input s) (virtual_channel s) (share s) (font s) (color_cache s) (multifragment_update s) (large_pointer s) (surface_commands s) (frame_acknowledge s) (other s).

Definition set_pointer (v : option Pointer) (s : CapabilitySets) : CapabilitySets :=
  mkSets (general s) (bitmap s) (order s) v (input s) (virtual_channel s) (share s) (font s) (color_cache s) (multifragment_update s) (large_pointer s) (surface_commands s) (frame_acknowledge s) (other s).

Definition set_input (v : option Input) (s : CapabilitySets) : CapabilitySets :=
  mkSets (general s) (bitmap s) (order s) (pointer s) v (virtual_channel s) (share s) (font s) (color_cache s) (multifragment_update s) (large_pointer s) (surface_commands s) (frame_acknowledge s) (other s).

Definition set_virtual_channel (v : option VirtualChannel) (s : CapabilitySets) : CapabilitySets :=
  mkSets (general s) (bitmap s) (order s) (pointer s) (input s) v (share s) (font s) (color_cache s) (multifragment_update s) (large_pointer s) (surface_commands s) (frame_acknowledge s) (other s).

Definition set_share (v : option Share) (s : CapabilitySets) : CapabilitySets :=
  mkSets (general s) (bitmap s) (order s) (pointer s) (input s) (virtual_channel s) v (font s) (color_cache s) (multifragment_update s) (large_pointer s) (surface_commands s) (frame_acknowledge s) (other s).

Definition set_font (v : option Font) (s : CapabilitySets) : CapabilitySets :=
  mkSets (general s) (bitmap s) (order s) (pointer s) (input s) (virtual_channel s) (share s) v (color_cache s) (multifragment_update s) (large_pointer s) (surface_commands s) (frame_acknowledge s) (other s).

Definition set_color_cache (v : option ColorCache) (s : CapabilitySets) : CapabilitySets :=
  mkSets (general s) (bitmap s) (order s) (pointer s) (input s) (virtual_channel s) (share s) (font s) v (multifragment_update s) (large_pointer s) (surface_commands s) (frame_acknowledge s) (other s).

Definition set_multifragment_update (v : option MultifragmentUpdate) (s : CapabilitySets) : CapabilitySets :=
  mkSets (general s) (bitmap s) (order s) (pointer s) (input s) (virtual_channel s) (share s) (font s) (color_cache s) v (large_pointer s) (surface_commands s) (frame_acknowledge s) (other s).

Definition set_large_pointer (v : option LargePointer) (s : CapabilitySets) : CapabilitySets :=
  mkSets (general s) (bitmap s) (order s) (pointer s) (input s) (virtual_channel s) (share s) (font s) (color_cache s) (multifragment_update s) v (surface_commands s) (frame_acknowledge s) (other s).

Definition set_surface_commands (v : option SurfaceCommands) (s : CapabilitySets) : CapabilitySets :=
  mkSets (general s) (bitmap s) (order s) (pointer s) (input s) (virtual_channel s) (share s) (font s) (color_cache s) (multifragment_update s) (large_pointer s) v (frame_acknowledge s) (other s).

Definition set_frame_acknowledge (v : option FrameAcknowledge) (s : CapabilitySets) : CapabilitySets :=
  mkSets (general s) (bitmap s) (order s) (pointer s) (input s) (virtual_channel s) (share s) (font s) (color_cache s) (multifragment_update s) (large_pointer s) (surface_commands s) v (other s).

Definition push_other (raw : RawCapabilitySet) (s : CapabilitySets) : CapabilitySets :=
  mkSets (general s) (bitmap s) (order s) (pointer s) (input s) (virtual_channel s) (share s) (font s) (color_cache s)
         (multifragment_update s) (large_pointer s) (surface_commands s) (frame_acknowledge s) (other s ++ [raw]).

Definition header_size : Z := 4.
Definition ime_file_name_size : Z := 64.

(** ** The sets *)

Definition decode_general : Dec General :=
  let* a := ReaderOps.u16le in
  let* b := ReaderOps.u16le in
  let* c := ReaderOps.u16le in
  let* _ := ReaderOps.skip 2 in
  let* d := ReaderOps.u16le in
  let* e := ReaderOps.u16le in
  let* f := ReaderOps.u16le in
  let* g := ReaderOps.u16le in
  let* h := ReaderOps.u16le in
  let* i := unless_empty 0 ReaderOps.u8 in
  let* j := unless_empty 0 ReaderOps.u8 in
  dret (mkGeneral a b c d e f g h i j).

Definition encode_general (g : General) : Enc unit :=
  Writer.u16le (os_major_type g) ;;;
  Writer.u16le (os_minor_type g) ;;;
  Writer.u16le (protocol_version g) ;;;
  Writer.u16le 0 ;;;
  Writer.u16le (general_compression_types g) ;;;
  Writer.u16le (extra_flags g) ;;;
  Writer.u16le (update_capability_flag g) ;;;
  Writer.u16le (remote_unshare_flag g) ;;;
  Writer.u16le (general_compression_level g) ;;;
  Writer.u8 (refresh_rect_support g) ;;;
  Writer.u8 (suppress_output_support g).

Definition decode_bitmap : Dec Bitmap :=
  let* a := ReaderOps.u16le in
  let* b := ReaderOps.u16le in
  let* c := ReaderOps.u16le in
  let* d := ReaderOps.u16le in
  let* e := ReaderOps.u16le in
  let* f := ReaderOps.u16le in
  let* _ := ReaderOps.skip 2 in
  let* g := ReaderOps.u16le in
  let* h := ReaderOps.u16le in
  let* i := ReaderOps.u8 in
  let* j := ReaderOps.u8 in
  let* k := ReaderOps.u16le in
  dret (mkBitmap a b c d e f g h i j k).

Definition encode_bitmap (b : Bitmap) : Enc unit :=
  Writer.u16le (preferred_bits_per_pixel b) ;;;
  Writer.u16le (receive_1_bit_per_pixel b) ;;;
  Writer.u16le (receive_4_bits_per_pixel b) ;;;
  Writer.u16le (receive_8_bits_per_pixel b) ;;;
  Writer.u16le (desktop_width b) ;;;
  Writer.u16le (desktop_height b) ;;;
  Writer.u16le 0 ;;;
  Writer.u16le (desktop_resize_flag b) ;;;
  Writer.u16le (bitmap_compression_flag b) ;;;
  Writer.u8 (high_color_flags b) ;;;
  Writer.u8 (drawing_flags b) ;;;
  Writer.u16le (multiple_rectangle_support b) ;;;
  Writer.u16le 0.

Definition decode_order : Dec Order :=
  let* descriptor := ReaderOps.bytes 16 in
  let* _ := ReaderOps.skip 4 in
  let* x := ReaderOps.u16le in
  let* y := ReaderOps.u16le in
  let* _ := ReaderOps.skip 2 in
  let* level := ReaderOps.u16le in
  let* fonts := ReaderOps.u16le in
  let* flags := ReaderOps.u16le in
  let* support := ReaderOps.bytes 32 in
  let* text := ReaderOps.u16le in
  let* ex := ReaderOps.u16le in
  let* _ := ReaderOps.skip 4 in
  let* size := ReaderOps.u32le in
  let* _ := ReaderOps.skip 4 in
  let* page := ReaderOps.u16le in
  dret (mkOrder descriptor x y level fonts flags (u8_of <$> support) text ex size page).

Definition encode_order (o : Order) : Enc unit :=
  Writer.bytes (terminal_descriptor o) ;;;
  Writer.zeros 4 ;;;
  Writer.u16le (desktop_save_x_granularity o) ;;;
  Writer.u16le (desktop_save_y_granularity o) ;;;
  Writer.zeros 2 ;;;
  Writer.u16le (maximum_order_level o) ;;;
  Writer.u16le (number_fonts o) ;;;
  Writer.u16le (order_flags o) ;;;
  eeach Writer.u8 (order_support o) ;;;
  Writer.u16le (text_flags o) ;;;
  Writer.u16le (order_support_ex_flags o) ;;;
  Writer.zeros 4 ;;;
  Writer.u32le (desktop_save_size o) ;;;
  Writer.zeros 4 ;;;
  Writer.u16le (text_ansi_code_page o) ;;;
  Writer.zeros 2.

Definition decode_pointer : Dec Pointer :=
  let* a := ReaderOps.u16le in
  let* b := ReaderOps.u16le in
  let* c := unless_empty None (dsome ReaderOps.u16le) in
  dret (mkPointer a b c).

Definition encode_pointer (p : Pointer) : Enc unit :=
  Writer.u16le (color_pointer_flag p) ;;;
  Writer.u16le (color_pointer_cache_size p) ;;;
  ewhen (pointer_cache_size p) Writer.u16le.

Definition decode_input : Dec Input :=
  let* a := ReaderOps.u16le in
  let* _ := ReaderOps.skip 2 in
  let* b := ReaderOps.u32le in
  let* c := ReaderOps.u32le in
  let* d := ReaderOps.u32le in
  let* e := ReaderOps.u32le in
  let* ime := ReaderOps.bytes ime_file_name_size in
  dret (mkInput a b c d e (Text.utf16le_to_utf8 ime)).

Definition encode_input (i : Input) : Enc unit :=
  Writer.u16le (input_flags i) ;;;
  Writer.u16le 0 ;;;
  Writer.u32le (keyboard_layout i) ;;;
  Writer.u32le (keyboard_type i) ;;;
  Writer.u32le (keyboard_subtype i) ;;;
  Writer.u32le (keyboard_function_keys i) ;;;
  let ime := Text.utf8_to_utf16le (ime_file_name i) in
  let ime := take (Z.to_nat (Z.min (len ime) (ime_file_name_size - 2))) ime in
  Writer.bytes ime ;;;
  Writer.zeros (ime_file_name_size - len ime).

Definition decode_virtual_channel : Dec VirtualChannel :=
  let* a := ReaderOps.u32le in
  let* b := unless_empty None (dsome ReaderOps.u32le) in
  dret (mkVirtualChannel a b).

(** The sets decoded and encoded in place by the two functions below. *)
Definition decode_share : Dec Share := let* v := ReaderOps.u16le in dret (mkShare v).
Definition decode_font : Dec Font :=
  unless_empty (mkFont 0x0001) (let* v := ReaderOps.u16le in dret (mkFont v)).
Definition decode_color_cache : Dec ColorCache := let* v := ReaderOps.u16le in dret (mkColorCache v).
Definition decode_multifragment_update : Dec MultifragmentUpdate :=
  let* v := ReaderOps.u32le in dret (mkMultifragment v).
Definition decode_large_pointer : Dec LargePointer := let* v := ReaderOps.u16le in dret (mkLargePointer v).
Definition decode_surface_commands : Dec SurfaceCommands := let* v := ReaderOps.u32le in dret (mkSurfaceCommands v).
Definition decode_frame_acknowledge : Dec FrameAcknowledge := let* v := ReaderOps.u32le in dret (mkFrameAcknowledge v).

Definition keep_first {A} (slot : option A) (value : A) : option A :=
  match slot with None => Some value | Some _ => slot end.

(** Decodes a set of a known type into its slot. *)
Definition decode_into {A} (slot : option A) (body : Reader.t) (decode : Dec A) : Dec (option A) :=
  let* value := within body decode in
  dret (keep_first slot value).

(** The [switch] of [decode_capability_sets]. *)
Definition capability_set (type : Z) (body : Reader.t) (sets : CapabilitySets) : Dec CapabilitySets :=
  if type =? type_general then
    let* v := decode_into (general sets) body decode_general in dret (set_general v sets) else
  if type =? type_bitmap then
    let* v := decode_into (bitmap sets) body decode_bitmap in dret (set_bitmap v sets) else
  if type =? type_order then
    let* v := decode_into (order sets) body decode_order in dret (set_order v sets) else
  if type =? type_pointer then
    let* v := decode_into (pointer sets) body decode_pointer in dret (set_pointer v sets) else
  if type =? type_input then
    let* v := decode_into (input sets) body decode_input in dret (set_input v sets) else
  if type =? type_virtual_channel then
    let* v := decode_into (virtual_channel sets) body decode_virtual_channel in dret (set_virtual_channel v sets) else
  if type =? type_share then
    let* v := decode_into (share sets) body decode_share in dret (set_share v sets) else
  if type =? type_font then
    let* v := decode_into (font sets) body decode_font in dret (set_font v sets) else
  if type =? type_color_cache then
    let* v := decode_into (color_cache sets) body decode_color_cache in dret (set_color_cache v sets) else
  if type =? type_multifragment_update then
    let* v := decode_into (multifragment_update sets) body decode_multifragment_update in dret (set_multifragment_update v sets) else
  if type =? type_large_pointer then
    let* v := decode_into (large_pointer sets) body decode_large_pointer in dret (set_large_pointer v sets) else
  if type =? type_surface_commands then
    let* v := decode_into (surface_commands sets) body decode_surface_commands in dret (set_surface_commands v sets) else
  if type =? type_frame_acknowledge then
    let* v := decode_into (frame_acknowledge sets) body decode_frame_acknowledge in dret (set_frame_acknowledge v sets)
  else dret (push_other (mkRaw type (Reader.rest body)) sets).

Fixpoint sets_loop (n : nat) (sets : CapabilitySets) : Dec CapabilitySets :=
  match n with
  | O => dret sets
  | S n' =>
      let* start := dask Reader.offset in
      let* type := ReaderOps.u16le in
      let* length := ReaderOps.u16le in
      if length <? header_size then dfail invalid_length "capability set shorter than its header" start
      else
        let* body := ReaderOps.sub (length - header_size) in
        let* sets := capability_set type body sets in
        sets_loop n' sets
  end.

Definition decode_capability_sets (count : Z) : Dec CapabilitySets := sets_loop (Z.to_nat count) no_sets.

Definition begin_set (type : Z) : Enc Z :=
  let! start := Writer.size in
  Writer.u16le type ;;;
  Writer.u16le 0 ;;;
  eret start.

Definition end_set (start : Z) : Enc unit :=
  let! size := Writer.size in
  let length := size - start in
  eassert (length <=? 0xFFFF) ;;;
  Writer.patch_u16le (start + 2) (wrap 16 length).

(** The lambda [emit] with the captured [count]. *)
Definition emit (count type : Z) (body : Enc unit) : Enc Z :=
  let! start := begin_set type in
  body ;;;
  end_set start ;;;
  eret (wrap 16 (count + 1)).

(** [if (sets.x) { emit(type::x, ...); }] *)
Definition emit_set {A} (count : Z) (slot : option A) (type : Z) (body : A -> Enc unit) : Enc Z :=
  match slot with Some v => emit count type (body v) | None => eret count end.

Fixpoint emit_raw (count : Z) (raws : list RawCapabilitySet) : Enc Z :=
  match raws with
  | [] => eret count
  | raw :: raws' =>
      let! count := emit count (raw_type raw) (Writer.bytes (raw_body raw)) in
      emit_raw count raws'
  end.

(** [encode_capability_sets] after [count] sets. *)
Definition encode_sets_from (count : Z) (sets : CapabilitySets) : Enc Z :=
  let! count := emit_set count (general sets) type_general encode_general in
  let! count := emit_set count (bitmap sets) type_bitmap encode_bitmap in
  let! count := emit_set count (order sets) type_order encode_order in
  let! count := emit_set count (pointer sets) type_pointer encode_pointer in
  let! count := emit_set count (input sets) type_input encode_input in
  let! count := emit_set count (virtual_channel sets) type_virtual_channel (fun v =>
                  Writer.u32le (vc_flags v) ;;; ewhen (chunk_size v) Writer.u32le) in
  let! count := emit_set count (share sets) type_share (fun v => Writer.u16le (node_id v) ;;; Writer.u16le 0) in
  let! count := emit_set count (font sets) type_font (fun v =>
                  Writer.u16le (font_support_flags v) ;;; Writer.u16le 0) in
  let! count := emit_set count (color_cache sets) type_color_cache (fun v =>
                  Writer.u16le (cache_size v) ;;; Writer.u16le 0) in
  let! count := emit_set count (multifragment_update sets) type_multifragment_update (fun v =>
                  Writer.u32le (max_request_size v)) in
  let! count := emit_set count (large_pointer sets) type_large_pointer (fun v => Writer.u16le (support_flags v)) in
  let! count := emit_set count (surface_commands sets) type_surface_commands (fun v =>
                  Writer.u32le (cmd_flags v) ;;; Writer.u32le 0) in
  let! count := emit_set count (frame_acknowledge sets) type_frame_acknowledge (fun v =>
                  Writer.u32le (max_unacknowledged_frame_count v)) in
  emit_raw count (other sets).

Definition encode_capability_sets (sets : CapabilitySets) : Enc Z := encode_sets_from 0 sets.

(** ** Each set by itself *)

Definition general_ok (g : General) : bool :=
  u16_ok (os_major_type g) && u16_ok (os_minor_type g) && u16_ok (protocol_version g) &&
  u16_ok (general_compression_types g) && u16_ok (extra_flags g) && u16_ok (update_capability_flag g) &&
  u16_ok (remote_unshare_flag g) && u16_ok (general_compression_level g) && u8_ok (refresh_rect_support g) &&
  u8_ok (suppress_output_support g).

Definition bitmap_ok (b : Bitmap) : bool :=
  u16_ok (preferred_bits_per_pixel b) && u16_ok (receive_1_bit_per_pixel b) && u16_ok (receive_4_bits_per_pixel b) &&
  u16_ok (receive_8_bits_per_pixel b) && u16_ok (desktop_width b) && u16_ok (desktop_height b) &&
  u16_ok (desktop_resize_flag b) && u16_ok (bitmap_compression_flag b) && u8_ok (high_color_flags b) &&
  u8_ok (drawing_flags b) && u16_ok (multiple_rectangle_support b).

Definition order_ok (o : Order) : bool :=
  (len (terminal_descriptor o) =? 16) && u16_ok (desktop_save_x_granularity o) &&
  u16_ok (desktop_save_y_granularity o) && u16_ok (maximum_order_level o) && u16_ok (number_fonts o) &&
  u16_ok (order_flags o) && (len (order_support o) =? 32) && forallb u8_ok (order_support o) &&
  u16_ok (text_flags o) && u16_ok (order_support_ex_flags o) && u32_ok (desktop_save_size o) &&
  u16_ok (text_ansi_code_page o).

Definition pointer_ok (p : Pointer) : bool :=
  u16_ok (color_pointer_flag p) && u16_ok (color_pointer_cache_size p) && opt_ok u16_ok (pointer_cache_size p).

Definition input_ok (i : Input) : bool :=
  u16_ok (input_flags i) && u32_ok (keyboard_layout i) && u32_ok (keyboard_type i) && u32_ok (keyboard_subtype i) &&
  u32_ok (keyboard_function_keys i) && text_ok 62 (ime_file_name i).

Definition vc_ok (v : VirtualChannel) : bool := u32_ok (vc_flags v) && opt_ok u32_ok (chunk_size v).

(** Bounds on the bodies are in octets. *)
Ltac set_codec := eapply encodes_le; [fields; lastfield|cbv; done].

Lemma caps_general g : general_ok g = true -> encodes (encode_general g) decode_general g 20.
Proof.
  unfold general_ok. intros H. bools. unfold encode_general, decode_general.
  eapply encodes_le; [fields; lastfield; by destruct g|lia].
Qed.

Lemma caps_bitmap b : bitmap_ok b = true -> padded (encode_bitmap b) decode_bitmap b 26.
Proof.
  unfold bitmap_ok. intros H. bools. unfold encode_bitmap, decode_bitmap.
  eapply padded_le; [pfields; apply padded_ret; [apply writes_bytes|by destruct b]|len_lia].
Qed.

Lemma caps_order o : order_ok o = true -> padded (encode_order o) decode_order o 84.
Proof.
  unfold order_ok. intros H. bools. unfold encode_order, decode_order.
  eapply padded_le; [pfields|].
  - eapply padded_seq; [apply encodes_octets; lia|cbn beta].
    pfields. apply padded_ret; [apply writes_bytes|]. rewrite octets_back by done. by destruct o.
  - len_lia.
Qed.

Lemma write_ime t :
  writes (let ime := take (Z.to_nat (Z.min (len (Text.utf8_to_utf16le t)) (ime_file_name_size - 2))) (Text.utf8_to_utf16le t) in
          Writer.bytes ime ;;; Writer.zeros (ime_file_name_size - len ime)) (fixed_utf16 t 64) \/ text_ok 62 t = false.
Proof.
  destruct (text_ok 62 t) eqn:H; [left|by right]. unfold text_ok in H. bools.
  unfold fixed_utf16, ime_file_name_size. set (u := Text.utf8_to_utf16le t) in *. pose proof (len_nonneg u).
  rewrite take_ge by (unfold len in *; lia).
  cbv zeta. apply writes_seq; [apply writes_bytes|]. rewrite <- zeros_two by lia. apply writes_zeros.
Qed.

Lemma caps_input i : input_ok i = true -> encodes (encode_input i) decode_input i 84.
Proof.
  unfold input_ok. intros H. bools. unfold encode_input, decode_input.
  eapply encodes_le; [fields|].
  - eapply (encodes_last _ _ _ (fixed_utf16 (ime_file_name i) 64) _ 64).
    + exists (fixed_utf16 (ime_file_name i) 64). destruct (write_ime (ime_file_name i)); [|congruence].
      assert (len (fixed_utf16 (ime_file_name i) 64) = 64) as Hl.
      { unfold fixed_utf16, text_ok in *. bools. len_lia. }
      split_and!; [done|lia|]. intros k. by apply reads_bytes.
    + intros k. cbn beta. rewrite utf16_fixed by done. apply reads_ret. by destruct i.
  - lia.
Qed.

Lemma caps_pointer p : pointer_ok p = true -> encodes_end (encode_pointer p) decode_pointer p 6.
Proof.
  unfold pointer_ok. intros H. bools. unfold encode_pointer, decode_pointer.
  eapply encodes_end_le; [fields; lastfield; by destruct p|lia].
Qed.

Lemma caps_virtual_channel v : vc_ok v = true ->
  encodes_end (Writer.u32le (vc_flags v) ;;; ewhen (chunk_size v) Writer.u32le) decode_virtual_channel v 8.
Proof.
  unfold vc_ok. intros H. bools. unfold decode_virtual_channel.
  eapply encodes_end_le; [fields; lastfield; by destruct v|lia].
Qed.

(** The sets with one integer, padded or not. *)
Lemma caps_u16_padded {A} (mk : Z -> A) v x : u16_ok v = true -> mk v = x ->
  padded (Writer.u16le v ;;; Writer.u16le 0) (let* v := ReaderOps.u16le in dret (mk v)) x 4.
Proof.
  intros H Hx. eapply padded_le; [pfields; apply padded_ret; [apply writes_bytes|done]|len_lia].
Qed.

Lemma caps_u16 {A} (mk : Z -> A) v x : u16_ok v = true -> mk v = x ->
  encodes (Writer.u16le v) (let* v := ReaderOps.u16le in dret (mk v)) x 2.
Proof. intros H Hx. eapply encodes_last; [field|]. intros k. by apply reads_ret. Qed.

Lemma caps_u32 {A} (mk : Z -> A) v x : u32_ok v = true -> mk v = x ->
  encodes (Writer.u32le v) (let* v := ReaderOps.u32le in dret (mk v)) x 4.
Proof. intros H Hx. eapply encodes_last; [field|]. intros k. by apply reads_ret. Qed.

Lemma caps_surface v : u32_ok (cmd_flags v) = true ->
  padded (Writer.u32le (cmd_flags v) ;;; Writer.u32le 0) decode_surface_commands v 8.
Proof.
  intros H. unfold decode_surface_commands.
  eapply padded_le; [pfields; apply padded_ret; [apply writes_bytes|by destruct v]|len_lia].
Qed.

Lemma caps_font v : u16_ok (font_support_flags v) = true ->
  padded (Writer.u16le (font_support_flags v) ;;; Writer.u16le 0) decode_font v 4.
Proof.
  intros H. destruct (caps_u16_padded mkFont (font_support_flags v) v H) as (e & pad & W & L & R); [by destruct v|].
  exists e, pad. split_and!; [done|done|]. intros k. apply reads_unless_empty; [|apply R].
  intros ->. destruct (R [] [] 0) as (x & Hx & _). done.
Qed.

(** ** The loop *)

(** [grows m s s' c n]: the encoder [m], given the count, adds [c] sets in at most
    [n] octets, and the decoder's loop turns [s] into [s'] over them. *)
Definition grows (m : Z -> Enc Z) (s s' : CapabilitySets) (c n : Z) : Prop :=
  exists e, len e <= n /\ 0 <= c /\
    (forall count, 0 <= count -> count + c < 65536 -> yields (m count) (count + c) e) /\
    (forall rest e2 k Q, reads (sets_loop rest s') e2 k Q -> reads (sets_loop (Z.to_nat c + rest) s) (e ++ e2) k Q).

Lemma grows_ret s : grows eret s s 0 0.
Proof.
  exists []. split_and!; [by cbn|lia| |].
  - intros count _ _. rewrite Z.add_0_r. apply yields_ret.
  - intros rest e2 k Q H. exact H.
Qed.

Lemma grows_bind m1 m2 s s1 s2 c1 c2 n1 n2 :
  grows m1 s s1 c1 n1 -> grows m2 s1 s2 c2 n2 ->
  grows (fun count => let! count := m1 count in m2 count) s s2 (c1 + c2) (n1 + n2).
Proof.
  intros (e1 & L1 & C1 & Y1 & R1) (e2 & L2 & C2 & Y2 & R2). exists (e1 ++ e2). split_and!.
  - len_lia.
  - lia.
  - intros count H0 H. eapply yields_bind; [apply Y1; lia|]. rewrite Z.add_assoc. apply Y2; lia.
  - intros rest e3 k Q H. rewrite Z2Nat.inj_add, <- Nat.add_assoc, <- app_assoc by lia. by apply R1, R2.
Qed.

Lemma yields_emit count type m e :
  writes m e -> 4 + len e <= 0xFFFF -> 0 <= count -> count + 1 < 65536 ->
  yields (emit count type m) (count + 1) (tagged_bytes type e).
Proof.
  intros Hm He H0 Hc w. pose proof (writes_tagged type m e Hm He w) as Hw.
  unfold emit, begin_set, end_set. unfold tagged in Hw. unfold ebind, eret, Writer.size, eassert in *.
  destruct (Writer.u16le type w) as [[[] w1]|]; [|done]. destruct (Writer.u16le 0 w1) as [[[] w2]|]; [|done].
  rewrite Hm in *. destruct (_ <=? 0xFFFF); [|done]. rewrite Hw. by rewrite wrap_small by lia.
Qed.

Lemma reads_tagged_set type e s s' rest e2 k Q :
  u16_ok type = true -> 4 + len e <= 0xFFFF ->
  (forall b l, reads (capability_set type (Reader.make e b) s) [] l (eq s')) ->
  reads (sets_loop rest s') e2 k Q -> reads (sets_loop (S rest) s) (tagged_bytes type e ++ e2) k Q.
Proof.
  intros Ht He Hs H. widths. pose proof (len_nonneg e). cbn [sets_loop]. unfold tagged_bytes. rewrite <- !app_assoc. rstep.
  do 2 rstep. unfold header_size. off. eapply reads_bind; [apply reads_sub; lia|].
  intros r [b0 ->]. eapply reads_bind_pure; [apply Hs|]. by intros ? <-.
Qed.

Definition count_of {A} (o : option A) : Z := match o with Some _ => 1 | None => 0 end.

(** One optional set. *)
Lemma grows_set {A} (o : option A) type m p (upd : option A -> CapabilitySets -> CapabilitySets)
    (slot : CapabilitySets -> option A) s n :
  (forall body s, capability_set type body s = let* v := decode_into (slot s) body p in dret (upd v s)) ->
  slot s = None -> upd None s = s -> u16_ok type = true -> 0 <= n -> 4 + n <= 0xFFFF ->
  (forall v, o = Some v -> holds (m v) p v n) ->
  grows (fun count => emit_set count o type m) s (upd o s) (count_of o) (4 + n).
Proof.
  intros Hcap Hslot Hupd Ht Hn0 Hn Hv. destruct o as [v|]; cbn [emit_set count_of].
  - destruct (Hv v eq_refl) as (e & W & L & D). exists (tagged_bytes type e). split_and!.
    + rewrite len_tagged. lia.
    + done.
    + intros count H0 Hc. apply yields_emit; [done|lia|done|done].
    + intros rest e2 k Q H. change (Z.to_nat 1 + rest)%nat with (S rest).
      apply (reads_tagged_set type e s (upd (Some v) s)); [done|lia| |done].
      intros b l. rewrite Hcap. unfold decode_into. rewrite Hslot.
      eapply (reads_bind_pure _ _ _ _ (eq (Some v))); [|intros ? <-; by apply reads_ret].
      eapply reads_bind_pure; [by apply reads_within_decodes|]. intros ? <-. by apply reads_ret.
  - rewrite Hupd. destruct (grows_ret s) as (e & L & C & Y & R). exists e. split_and!; [lia|done..].
Qed.

(** The types the decoder has a slot for. *)
Definition known_types : list Z :=
  [type_general; type_bitmap; type_order; type_pointer; type_input; type_virtual_channel; type_share; type_font;
   type_color_cache; type_multifragment_update; type_large_pointer; type_surface_commands; type_frame_acknowledge].

Definition raw_ok (r : RawCapabilitySet) : bool :=
  u16_ok (raw_type r) && negb (existsb (Z.eqb (raw_type r)) known_types) && (4 + len (raw_body r) <=? 0xFFFF).

Fixpoint raw_size (raws : list RawCapabilitySet) : Z :=
  match raws with [] => 0 | r :: raws' => 4 + len (raw_body r) + raw_size raws' end.

Lemma capability_set_raw r b s l : raw_ok r = true ->
  reads (capability_set (raw_type r) (Reader.make (raw_body r) b) s) [] l (eq (push_other r s)).
Proof.
  unfold raw_ok, known_types. intros H. apply andb_prop in H as [[_ H]%andb_prop _].
  apply negb_true_iff in H. cbn [existsb] in H.
  repeat (let E := fresh "E" in apply orb_false_elim in H as [E H]). unfold capability_set.
  rewrite E, E0, E1, E2, E3, E4, E5, E6, E7, E8, E9, E10, E11. apply reads_ret. by destruct r.
Qed.

Fixpoint push_others (raws : list RawCapabilitySet) (s : CapabilitySets) : CapabilitySets :=
  match raws with [] => s | r :: raws' => push_others raws' (push_other r s) end.

Lemma grows_raw raws : forall s,
  forallb raw_ok raws = true -> grows (fun count => emit_raw count raws) s (push_others raws s) (len raws) (raw_size raws).
Proof.
  induction raws as [|r raws IH]; intros s H; [apply grows_ret|].
  cbn [forallb] in H. apply andb_prop in H as [Hr H]. cbn [emit_raw push_others raw_size].
  rewrite len_cons. eapply (grows_bind (fun count => emit count (raw_type r) (Writer.bytes (raw_body r))));
    [|by apply IH].
  pose proof Hr as Hr'. unfold raw_ok in Hr'. apply andb_prop in Hr' as [[Ht _]%andb_prop Hl]. bools.
  exists (tagged_bytes (raw_type r) (raw_body r)). split_and!; [rewrite len_tagged; lia|lia| |].
  - intros count H0 Hc. by apply yields_emit; [apply writes_bytes|..].
  - intros rest e2 k Q HQ. change (Z.to_nat 1 + rest)%nat with (S rest).
    eapply reads_tagged_set; [done|done| |exact HQ]. intros b l. by apply capability_set_raw.
Qed.

Lemma push_others_other raws : forall s,
  push_others raws s =
  mkSets (general s) (bitmap s) (order s) (pointer s) (input s) (virtual_channel s) (share s) (font s) (color_cache s)
         (multifragment_update s) (large_pointer s) (surface_commands s) (frame_acknowledge s) (other s ++ raws).
Proof.
  induction raws as [|r raws IH]; intros s; cbn [push_others]; [rewrite app_nil_r; by destruct s|].
  rewrite IH. cbn [push_other general bitmap order pointer input virtual_channel share font color_cache
    multifragment_update large_pointer surface_commands frame_acknowledge other]. by rewrite <- app_assoc.
Qed.

Definition sets_ok (s : CapabilitySets) : bool :=
  opt_ok general_ok (general s) && opt_ok bitmap_ok (bitmap s) && opt_ok order_ok (order s) &&
  opt_ok pointer_ok (pointer s) && opt_ok input_ok (input s) && opt_ok vc_ok (virtual_channel s) &&
  opt_ok (fun v => u16_ok (node_id v)) (share s) && opt_ok (fun v => u16_ok (font_support_flags v)) (font s) &&
  opt_ok (fun v => u16_ok (cache_size v)) (color_cache s) &&
  opt_ok (fun v => u32_ok (max_request_size v)) (multifragment_update s) &&
  opt_ok (fun v => u16_ok (support_flags v)) (large_pointer s) &&
  opt_ok (fun v => u32_ok (cmd_flags v)) (surface_commands s) &&
  opt_ok (fun v => u32_ok (max_unacknowledged_frame_count v)) (frame_acknowledge s) &&
  forallb raw_ok (other s) && (len (other s) <? 65000).

Definition count_sets (s : CapabilitySets) : Z :=
  count_of (general s) + (count_of (bitmap s) + (count_of (order s) + (count_of (pointer s) + (count_of (input s) +
  (count_of (virtual_channel s) + (count_of (share s) + (count_of (font s) + (count_of (color_cache s) +
  (count_of (multifragment_update s) + (count_of (large_pointer s) + (count_of (surface_commands s) +
  (count_of (frame_acknowledge s) + len (other s))))))))))))).

(** An upper bound of what the known sets take. *)
Definition known_size : Z := 322.

Lemma grows_le m s s' c n n' : grows m s s' c n -> n <= n' -> grows m s s' c n'.
Proof. intros (e & L & R) Hn. exists e. split; [lia|exact R]. Qed.

(** One more set of the chain: its updater, its slot, the size of its body and
    the lemma about its codec. *)
Ltac chain upd slot n tac :=
  lazymatch goal with
  | |- grows ?m ?s ?s' ?c ?k =>
      let s0 := eval cbv [no_sets set_general set_bitmap set_order set_pointer set_input set_virtual_channel set_share
        set_font set_color_cache set_multifragment_update set_large_pointer set_surface_commands set_frame_acknowledge
        general bitmap order pointer input virtual_channel share font color_cache multifragment_update large_pointer
        surface_commands frame_acknowledge other] in s in
      let s1 := eval cbv beta in s0 in
      change (grows m s1 s' c k);
      eapply grows_bind;
      [eapply (grows_set _ _ _ _ upd slot s1 n); [intros ? ?; reflexivity|reflexivity|reflexivity|reflexivity|done|done|];
       let v := fresh "v" in let E := fresh "E" in intros v E;
       match goal with H : opt_ok _ (slot _) = true |- _ => pose proof (opt_ok_some _ _ _ H E) as ? end; cbn beta in *; tac v
      |cbn beta]
  end.

Lemma grows_sets s : sets_ok s = true ->
  grows (fun count => encode_sets_from count s) no_sets s (count_sets s) (known_size + raw_size (other s)).
Proof.
  unfold sets_ok. intros H. bools.
  assert (s = push_others (other s) (set_frame_acknowledge (frame_acknowledge s) (set_surface_commands (surface_commands s)
    (set_large_pointer (large_pointer s) (set_multifragment_update (multifragment_update s)
    (set_color_cache (color_cache s) (set_font (font s) (set_share (share s) (set_virtual_channel (virtual_channel s)
    (set_input (input s) (set_pointer (pointer s) (set_order (order s) (set_bitmap (bitmap s)
    (set_general (general s) no_sets)))))))))))))) as Es by (rewrite push_others_other; by destruct s).
  lazymatch type of Es with s = ?x =>
    enough (grows (fun count => encode_sets_from count s) no_sets x (count_sets s) (known_size + raw_size (other s)))
      as G by (by rewrite <- Es in G) end.
  clear Es. unfold encode_sets_from, count_sets. eapply grows_le.
  - chain set_general general 20 ltac:(fun v => by apply holds_of_encodes, caps_general).
    chain set_bitmap bitmap 26 ltac:(fun v => by apply holds_of_padded, caps_bitmap).
    chain set_order order 84 ltac:(fun v => by apply holds_of_padded, caps_order).
    chain set_pointer pointer 6 ltac:(fun v => by apply holds_end, caps_pointer).
    chain set_input input 84 ltac:(fun v => by apply holds_of_encodes, caps_input).
    chain set_virtual_channel virtual_channel 8 ltac:(fun v => by apply holds_end, caps_virtual_channel).
    chain set_share share 4 ltac:(fun v => apply holds_of_padded; apply (caps_u16_padded mkShare); [done|by destruct v]).
    chain set_font font 4 ltac:(fun v => by apply holds_of_padded, caps_font).
    chain set_color_cache color_cache 4 ltac:(fun v => apply holds_of_padded; apply (caps_u16_padded mkColorCache); [done|by destruct v]).
    chain set_multifragment_update multifragment_update 4 ltac:(fun v => apply holds_of_encodes; apply (caps_u32 mkMultifragment); [done|by destruct v]).
    chain set_large_pointer large_pointer 2 ltac:(fun v => apply holds_of_encodes; apply (caps_u16 mkLargePointer); [done|by destruct v]).
    chain set_surface_commands surface_commands 8 ltac:(fun v => by apply holds_of_padded, caps_surface).
    chain set_frame_acknowledge frame_acknowledge 4 ltac:(fun v => apply holds_of_encodes; apply (caps_u32 mkFrameAcknowledge); [done|by destruct v]).
    by apply grows_raw.
  - unfold known_size. lia.
Qed.

Lemma count_sets_range s : sets_ok s = true -> 0 <= count_sets s < 65535.
Proof.
  intros H. assert (len (other s) < 65000) as Hl by (unfold sets_ok in H; bools; lia). pose proof (len_nonneg (other s)).
  unfold count_sets. repeat match goal with |- context [count_of ?o] =>
    lazymatch goal with _ : 0 <= count_of o <= 1 |- _ => fail | _ => idtac end;
    assert (0 <= count_of o <= 1) by (by destruct o) end. lia.
Qed.

(** What the claims say of the sets together, for the encoders above this one. *)
Lemma encodes_sets s : sets_ok s = true ->
  exists e, len e <= known_size + raw_size (other s) /\ yields (encode_capability_sets s) (count_sets s) e /\
            forall k, reads (decode_capability_sets (count_sets s)) e k (eq s).
Proof.
  intros Hok. pose proof (count_sets_range s Hok). destruct (grows_sets s Hok) as (e & L & C & Y & R).
  exists e. split_and!; [done| |].
  - rewrite <- (Z.add_0_l (count_sets s)). apply Y; lia.
  - intros k. unfold decode_capability_sets.
    rewrite <- (Nat.add_0_r (Z.to_nat (count_sets s))), <- (app_nil_r e). apply R. by apply reads_ret.
Qed.

(** capability sets survive Demand and Confirm Active.  For every value of
    the sets whose fields have their widths and whose raw sets are of types the
    decoder has no record for, the encoder trips no assertion, reports exactly
    the number of sets it wrote, and decoding that number of sets from its
    octets gives the same value, whatever follows. *)
Theorem capability_sets_roundtrip (s : CapabilitySets) (k : list byte) (b : Z) :
  sets_ok s = true ->
  exists e, encode_capability_sets s [] = Some (count_sets s, e) /\ 0 <= count_sets s < 65535 /\
            len e <= known_size + raw_size (other s) /\
            decode_capability_sets (count_sets s) (Reader.make (e ++ k) b) = Ok (s, Reader.mk e k b).
Proof.
  intros Hok. destruct (encodes_sets s Hok) as (e & L & Y & R). exists e. split_and!; [exact (Y [])|..|done|].
  1-2: by apply count_sets_range.
  by destruct (R k [] b) as (v & Hv & <-).
Qed.

(** A set of which the first instance wins, one known only to the peer, and an
    empty font set. *)
Definition sample_sets : CapabilitySets :=
  push_other (mkRaw 29 [byte_of 1; byte_of 2]) (set_share (Some (mkShare 1002)) (set_pointer (Some (mkPointer 1 25 None)) no_sets)).

Lemma capability_sets_roundtrip_witness :
  exists e, encode_capability_sets sample_sets [] = Some (3, e) /\
            decode_capability_sets 3 (Reader.make (e ++ [byte_of 9]) 0) = Ok (sample_sets, Reader.mk e [byte_of 9] 0).
Proof.
  destruct (capability_sets_roundtrip sample_sets [byte_of 9] 0) as (e & He & _ & _ & Hd); [reflexivity|].
  exists e. split; [exact He|exact Hd].
Defined.

End Capabilities.
