(* ===== verification/Share.v ===== *)
(** * Share Control and Share Data PDUs

    Models [src/src/farland/proto/share.hpp] and [share.cpp]: the capability
    exchange, the finalization PDUs and the slow-path data PDUs. *)

From S2P Require Import Prelude Buffers CodecLogic Fields Capabilities Input.
Open Scope Z_scope.

Module Share.

(** Namespace [pdu_type]. *)
Definition demand_active : Z := 0x1.
Definition confirm_active : Z := 0x3.
Definition deactivate_all : Z := 0x6.
Definition data : Z := 0x7.
Definition flow : Z := 0x0.

(** Namespace [pdu_type2]. *)
Definition update : Z := 2.
Definition control : Z := 20.
Definition pointer : Z := 27.
Definition input : Z := 28.
Definition synchronize : Z := 31.
Definition refresh_rect : Z := 33.
Definition suppress_output : Z := 35.
Definition shutdown_request : Z := 36.
Definition shutdown_denied : Z := 37.
Definition save_session_info : Z := 38.
Definition font_list : Z := 39.
Definition font_map : Z := 40.
Definition set_error_info : Z := 47.
Definition frame_acknowledge : Z := 56.

(** Namespaces [control_action] and [errinfo]. *)
Definition request_control : Z := 1.
Definition granted_control : Z := 2.
Definition cooperate : Z := 4.
Definition errinfo_none : Z := 0x00000000.
Definition rpc_initiated_disconnect : Z := 0x00000001.
Definition logoff_by_user : Z := 0x0000000C.

Definition ts_protocol_version : Z := 0x0010.
Definition flow_marker : Z := 0x8000.
Definition share_control_header_size : Z := 6.
Definition stream_low : Z := 0x01.
Definition packet_compressed : Z := 0x20.
Definition max_source_descriptor : Z := 64.

Record ShareControl := mkControl { sc_type : Z; sc_source : Z; sc_body : Reader.t }.
Record ShareData := mkData { sd_share_id : Z; stream_id : Z; type2 : Z; payload : Reader.t }.
Record DemandActive := mkDemand {
  da_share_id : Z; da_source_descriptor : list byte; da_capabilities : Capabilities.CapabilitySets; session_id : Z }.
Record ConfirmActive := mkConfirm {
  ca_share_id : Z; originator_id : Z; ca_source_descriptor : list byte; ca_capabilities : Capabilities.CapabilitySets }.

(** [TS_RECTANGLE16]. *)
Record Rectangle16 := mkRect { left : Z; top : Z; right : Z; bottom : Z }.

#[export] Instance Rectangle16_eq_dec : EqDecision Rectangle16.
Proof. solve_decision. Defined.

Inductive DataPdu :=
  | Synchronize (message_type target_user : Z)
  | Control (action grant_id control_id : Z)
  | FontList (number_fonts total_number_fonts list_flags entry_size : Z)
  | FontMap (number_entries total_number_entries map_flags entry_size : Z)
  | SetErrorInfo (error_info : Z)
  | RefreshRect (areas : list Rectangle16)
  | SuppressOutput (allow_display_updates : bool) (desktop_rect : option Rectangle16)
  | ShutdownRequest
  | ShutdownDenied
  | FrameAcknowledgePdu (frame_id : Z)
  | InputPdu (events : list Input.InputEvent)
  | OtherDataPdu (other_type2 : Z).

Definition read_source_descriptor (length : Z) : Dec (list byte) :=
  let* offset := dask Reader.offset in
  if max_source_descriptor <? length
  then dfail limit_exceeded "source descriptor longer than 64 bytes" offset
  else
    let* bytes := ReaderOps.bytes length in
    dret (until_zero bytes).

(** [read_capabilities], with the descriptor it assigns as a second result. *)
Definition read_capabilities : Dec (list byte * Capabilities.CapabilitySets) :=
  let* descriptor_length := ReaderOps.u16le in
  let* combined_offset := dask Reader.offset in
  let* combined_length := ReaderOps.u16le in
  let* descriptor := read_source_descriptor descriptor_length in
  if combined_length <? 4 then dfail invalid_length "lengthCombinedCapabilities below 4" combined_offset
  else
    let* combined := ReaderOps.sub combined_length in
    let* sets := within combined (
      let* count := ReaderOps.u16le in
      let* _ := ReaderOps.skip 2 in
      let* sets := Capabilities.decode_capability_sets count in
      let* _ := ReaderOps.expect_end "capability sets" in
      dret sets) in
    dret (descriptor, sets).

Definition write_capabilities (descriptor : list byte) (sets : Capabilities.CapabilitySets) : Enc unit :=
  Writer.u16le (wrap 16 (len descriptor + 1)) ;;;
  let! combined_pos := Writer.size in
  Writer.u16le 0 ;;;
  Writer.bytes descriptor ;;;
  Writer.u8 0 ;;;
  let! combined_start := Writer.size in
  Writer.u16le 0 ;;;
  Writer.u16le 0 ;;;
  let! count := Capabilities.encode_capability_sets sets in
  let! size := Writer.size in
  let combined := size - combined_start in
  eassert (combined <=? 0xFFFF) ;;;
  Writer.patch_u16le combined_pos (wrap 16 combined) ;;;
  Writer.patch_u16le combined_start count.

Definition read_rectangle : Dec Rectangle16 :=
  let* a := ReaderOps.u16le in
  let* b := ReaderOps.u16le in
  let* c := ReaderOps.u16le in
  let* d := ReaderOps.u16le in
  dret (mkRect a b c d).

Definition write_rectangle (rect : Rectangle16) : Enc unit :=
  Writer.u16le (left rect) ;;;
  Writer.u16le (top rect) ;;;
  Writer.u16le (right rect) ;;;
  Writer.u16le (bottom rect).

(** ** Share control and share data headers *)

Definition read_share_control : Dec ShareControl :=
  let* start := dask Reader.offset in
  let* total_length := ReaderOps.u16le in
  let* remaining := dask Reader.remaining in
  if total_length =? flow_marker then
    let* _ := ReaderOps.skip remaining in
    dret (mkControl flow 0 (Reader.make [] 0))
  else if (total_length <? share_control_header_size) || negb (total_length =? remaining + 2)
  then dfail invalid_length "share control totalLength does not match the PDU" start
  else
    let* type := ReaderOps.u16le in
    let* source := ReaderOps.u16le in
    let* remaining := dask Reader.remaining in
    let* body := ReaderOps.sub remaining in
    dret (mkControl (Z.land type 0x000F) source body).

Definition begin_share_control (type source : Z) : Enc Z :=
  let! start := Writer.size in
  Writer.u16le 0 ;;;
  Writer.u16le (wrap 16 (Z.lor type ts_protocol_version)) ;;;
  Writer.u16le source ;;;
  eret start.

Definition end_share_control (start : Z) : Enc unit :=
  let! size := Writer.size in
  let length := size - start in
  eassert (length <=? 0x7FFF) ;;;
  Writer.patch_u16le start (wrap 16 length).

Definition read_share_data : Dec ShareData :=
  let* share_id := ReaderOps.u32le in
  let* _ := ReaderOps.skip 1 in
  let* stream_id := ReaderOps.u8 in
  let* _ := ReaderOps.skip 2 in
  let* type2 := ReaderOps.u8 in
  let* compression_offset := dask Reader.offset in
  let* compressed_type := ReaderOps.u8 in
  let* _ := ReaderOps.skip 2 in
  if has_bits compressed_type packet_compressed
  then dfail unsupported "compressed share data PDU" compression_offset
  else
    let* remaining := dask Reader.remaining in
    let* payload := ReaderOps.sub remaining in
    dret (mkData share_id stream_id type2 payload).

Definition write_data_pdu (share_id source type2 : Z) (payload : list byte) : Enc unit :=
  let! start := begin_share_control data source in
  Writer.u32le share_id ;;;
  Writer.u8 0 ;;;
  Writer.u8 stream_low ;;;
  eassert (len payload + 4 <=? 0xFFFF) ;;;
  Writer.u16le (wrap 16 (len payload + 4)) ;;;
  Writer.u8 type2 ;;;
  Writer.u8 0 ;;;
  Writer.u16le 0 ;;;
  Writer.bytes payload ;;;
  end_share_control start.

Definition decode_demand_active : Dec DemandActive :=
  let* share_id := ReaderOps.u32le in
  let* capabilities := read_capabilities in
  let* session := unless_empty 0 ReaderOps.u32le in
  dret (mkDemand share_id (fst capabilities) (snd capabilities) session).

Definition decode_confirm_active : Dec ConfirmActive :=
  let* share_id := ReaderOps.u32le in
  let* originator := ReaderOps.u16le in
  let* capabilities := read_capabilities in
  dret (mkConfirm share_id originator (fst capabilities) (snd capabilities)).

(** [DeactivateAll] has one member, the share id. *)
Definition decode_deactivate_all : Dec Z :=
  let* share_id := ReaderOps.u32le in
  let* _ := unless_empty tt (let* length := ReaderOps.u16le in ReaderOps.skip length) in
  dret share_id.

Definition encode_demand_active (source : Z) (pdu : DemandActive) : Enc unit :=
  let! start := begin_share_control demand_active source in
  Writer.u32le (da_share_id pdu) ;;;
  write_capabilities (da_source_descriptor pdu) (da_capabilities pdu) ;;;
  Writer.u32le (session_id pdu) ;;;
  end_share_control start.

Definition encode_confirm_active (source : Z) (pdu : ConfirmActive) : Enc unit :=
  let! start := begin_share_control confirm_active source in
  Writer.u32le (ca_share_id pdu) ;;;
  Writer.u16le (originator_id pdu) ;;;
  write_capabilities (ca_source_descriptor pdu) (ca_capabilities pdu) ;;;
  end_share_control start.

Definition encode_deactivate_all (source share_id : Z) : Enc unit :=
  let! start := begin_share_control deactivate_all source in
  Writer.u32le share_id ;;;
  Writer.u16le 1 ;;;
  Writer.u8 0 ;;;
  end_share_control start.

(** ** Data PDU payloads *)

(** The [switch] of [decode_data_pdu] on the payload's reader. *)
Definition read_data_pdu (type2 : Z) : Dec DataPdu :=
  if type2 =? synchronize then
    let* message_type := ReaderOps.u16le in
    let* target_user := ReaderOps.u16le in
    let* offset := dask Reader.offset in
    if negb (message_type =? 1)
    then dfail invalid_value "Synchronize messageType is not SYNCMSGTYPE_SYNC" (offset - 4)
    else dret (Synchronize message_type target_user)
  else if type2 =? control then
    let* action := ReaderOps.u16le in
    let* grant_id := ReaderOps.u16le in
    let* control_id := ReaderOps.u32le in
    dret (Control action grant_id control_id)
  else if type2 =? font_list then
    let* a := ReaderOps.u16le in
    let* b := ReaderOps.u16le in
    let* c := ReaderOps.u16le in
    let* d := ReaderOps.u16le in
    dret (FontList a b c d)
  else if type2 =? font_map then
    let* a := ReaderOps.u16le in
    let* b := ReaderOps.u16le in
    let* c := ReaderOps.u16le in
    let* d := ReaderOps.u16le in
    dret (FontMap a b c d)
  else if type2 =? set_error_info then
    let* code := ReaderOps.u32le in
    dret (SetErrorInfo code)
  else if type2 =? refresh_rect then
    let* count := ReaderOps.u8 in
    let* _ := ReaderOps.skip 3 in
    let* areas := dtimes (Z.to_nat count) read_rectangle in
    dret (RefreshRect areas)
  else if type2 =? suppress_output then
    let* start := dask Reader.offset in
    let* allow := ReaderOps.u8 in
    if 1 <? allow then dfail invalid_value "allowDisplayUpdates is neither 0 nor 1" start
    else
      let* _ := ReaderOps.skip 3 in
      let* rect := if allow =? 1 then dsome read_rectangle else dret None in
      dret (SuppressOutput (allow =? 1) rect)
  else if type2 =? shutdown_request then dret ShutdownRequest
  else if type2 =? shutdown_denied then dret ShutdownDenied
  else if type2 =? frame_acknowledge then
    let* frame := ReaderOps.u32le in
    dret (FrameAcknowledgePdu frame)
  else if type2 =? input then
    let* events := Input.decode_slow_path_input in
    dret (InputPdu events)
  else dret (OtherDataPdu type2).

Definition decode_data_pdu (d : ShareData) : Result DataPdu :=
  match read_data_pdu (type2 d) (payload d) with
  | Ok (pdu, _) => Ok pdu
  | Err e => Err e
  end.

(** The overloads of [encode]. *)
Definition encode_synchronize (message_type target_user : Z) : Enc unit :=
  Writer.u16le message_type ;;;
  Writer.u16le target_user.

Definition encode_control (action grant_id control_id : Z) : Enc unit :=
  Writer.u16le action ;;;
  Writer.u16le grant_id ;;;
  Writer.u32le control_id.

Definition encode_font_list (a b c d : Z) : Enc unit :=
  Writer.u16le a ;;;
  Writer.u16le b ;;;
  Writer.u16le c ;;;
  Writer.u16le d.

Definition encode_font_map (a b c d : Z) : Enc unit :=
  Writer.u16le a ;;;
  Writer.u16le b ;;;
  Writer.u16le c ;;;
  Writer.u16le d.

Definition encode_set_error_info (error_info : Z) : Enc unit := Writer.u32le error_info.

Definition encode_refresh_rect (areas : list Rectangle16) : Enc unit :=
  eassert (len areas <=? 0xFF) ;;;
  Writer.u8 (wrap 8 (len areas)) ;;;
  Writer.zeros 3 ;;;
  eeach write_rectangle areas.

Definition encode_suppress_output (allow : bool) (rect : option Rectangle16) : Enc unit :=
  Writer.u8 (if allow then 1 else 0) ;;;
  Writer.zeros 3 ;;;
  (if allow then write_rectangle (default (mkRect 0 0 0 0) rect) else eret tt).

Definition encode_frame_acknowledge (frame_id : Z) : Enc unit := Writer.u32le frame_id.
Definition encode_input (events : list Input.InputEvent) : Enc unit := Input.encode_slow_path_input events.
Definition encode_shutdown : Enc unit := eret tt.

(** The overload for a PDU; there is none for [OtherDataPdu]. *)
Definition encode (pdu : DataPdu) : option (Enc unit) :=
  match pdu with
  | Synchronize a b => Some (encode_synchronize a b)
  | Control a b c => Some (encode_control a b c)
  | FontList a b c d => Some (encode_font_list a b c d)
  | FontMap a b c d => Some (encode_font_map a b c d)
  | SetErrorInfo v => Some (encode_set_error_info v)
  | RefreshRect areas => Some (encode_refresh_rect areas)
  | SuppressOutput allow rect => Some (encode_suppress_output allow rect)
  | ShutdownRequest | ShutdownDenied => Some encode_shutdown
  | FrameAcknowledgePdu v => Some (encode_frame_acknowledge v)
  | InputPdu events => Some (encode_input events)
  | OtherDataPdu _ => None
  end.

Definition type2_of (pdu : DataPdu) : Z :=
  match pdu with
  | Synchronize _ _ => synchronize
  | Control _ _ _ => control
  | FontList _ _ _ _ => font_list
  | FontMap _ _ _ _ => font_map
  | SetErrorInfo _ => set_error_info
  | RefreshRect _ => refresh_rect
  | SuppressOutput _ _ => suppress_output
  | ShutdownRequest => shutdown_request
  | ShutdownDenied => shutdown_denied
  | FrameAcknowledgePdu _ => frame_acknowledge
  | InputPdu _ => input
  | OtherDataPdu t => t
  end.

(** ** Headers *)

Definition control_bytes (type source : Z) (e : list byte) : list byte :=
  Writer.le_bytes 2 (6 + len e) ++ Writer.le_bytes 2 (type + ts_protocol_version) ++ Writer.le_bytes 2 source ++ e.

Lemma len_control type source e : len (control_bytes type source e) = 6 + len e.
Proof. unfold control_bytes. len_lia. Qed.

Lemma writes_share_control (m : Z -> Enc unit) (body : Enc unit) type source e :
  (forall start w, m start w = (body ;;; end_share_control start) w) ->
  0 <= type < 16 -> writes body e -> 6 + len e <= 0x7FFF ->
  writes (let! start := begin_share_control type source in m start) (control_bytes type source e).
Proof.
  intros Hm Ht Hb He.
  assert (wrap 16 (Z.lor type ts_protocol_version) = type + ts_protocol_version) as Hty.
  { unfold ts_protocol_version. rewrite Z.lor_comm, (lor_const 16 1 type 4) by (done || lia). rewrite wrap_small; lia. }
  pose proof (writes_patched (fun start =>
      Writer.u16le 0 ;;; Writer.u16le (type + ts_protocol_version) ;;; Writer.u16le source ;;; m start)
    (Writer.u16le 0 ;;; Writer.u16le (type + ts_protocol_version) ;;; Writer.u16le source ;;; body)
    (fun n => n <=? 0x7FFF) (fun n => Writer.le_bytes 2 (wrap 16 n)) 0 [] (Writer.le_bytes 2 0)
    (Writer.le_bytes 2 (6 + len e))
    (Writer.le_bytes 2 (type + ts_protocol_version) ++ Writer.le_bytes 2 source ++ e)) as H.
  unfold control_bytes. intros w. unfold begin_share_control. rewrite Hty.
  rewrite <- H; clear H; [done| | |done| | |len_lia].
  - intros start w'. unfold ebind at 1 2 3. unfold Writer.u16le, Writer.write_le, Writer.bytes.
    rewrite Hm. unfold end_share_control. rewrite Z.add_0_r. done.
  - cbn [app]. repeat (apply writes_seq; [apply writes_bytes|]). done.
  - apply Z.leb_le. len_lia.
  - pose proof (len_nonneg e). cbn [app]. rewrite wrap_small by len_lia. f_equal. len_lia.
Qed.

Lemma reads_share_control type source e :
  0 <= type < 16 -> u16_ok source = true -> 6 + len e <= 0x7FFF ->
  reads read_share_control (control_bytes type source e) []
    (fun c => exists b, c = mkControl type source (Reader.make e b)).
Proof.
  intros Ht Hs He. widths. pose proof (len_nonneg e). unfold read_share_control, control_bytes, ts_protocol_version.
  rstep. rstep. apply reads_ask. intros s1 b1. rewrite remaining_mk, app_nil_r.
  unfold flow_marker, share_control_header_size.
  match goal with |- context [negb (6 + len e =? ?n)] => assert (n = 6 + len e) as -> by len_lia end.
  rewrite Z.eqb_refl. off. off. rstep. rstep.
  apply reads_ask. intros s2 b2. rewrite remaining_mk, app_nil_r.
  eapply reads_bind_nil; [by apply reads_sub|]. intros r [b3 ->]. apply reads_ret. exists b3. f_equal.
  rewrite (land_low _ 0x000F 4) by done. change (2 ^ 4) with 16. lia.
Qed.

(** ** Data PDUs *)

Definition data_header (share_id type2 n : Z) : list byte :=
  Writer.le_bytes 4 share_id ++ [byte_of 0] ++ [byte_of stream_low] ++ Writer.le_bytes 2 (n + 4) ++
  [byte_of type2] ++ [byte_of 0] ++ Writer.le_bytes 2 0.

Definition data_bytes (share_id source type2 : Z) (p : list byte) : list byte :=
  control_bytes data source (data_header share_id type2 (len p) ++ p).

Lemma len_data share_id source type2 p : len (data_bytes share_id source type2 p) = 18 + len p.
Proof. unfold data_bytes, data_header. rewrite len_control. len_lia. Qed.

Lemma writes_data_pdu share_id source type2 p :
  18 + len p <= 0x7FFF -> writes (write_data_pdu share_id source type2 p) (data_bytes share_id source type2 p).
Proof.
  intros Hp. pose proof (len_nonneg p). unfold write_data_pdu, data_bytes.
  apply writes_share_control with (body := Writer.u32le share_id ;;; Writer.u8 0 ;;; Writer.u8 stream_low ;;;
    eassert (len p + 4 <=? 0xFFFF) ;;; Writer.u16le (wrap 16 (len p + 4)) ;;; Writer.u8 type2 ;;; Writer.u8 0 ;;;
    Writer.u16le 0 ;;; Writer.bytes p).
  - intros start w. unfold ebind, eassert. by destruct (len p + 4 <=? 0xFFFF).
  - done.
  - unfold data_header. rewrite <- !app_assoc. do 3 (apply writes_seq; [apply writes_bytes|]).
    apply writes_assert; [apply Z.leb_le; lia|]. rewrite wrap_small by lia.
    repeat (apply writes_seq; [apply writes_bytes|]). apply writes_bytes.
  - unfold data_header. len_lia.
Qed.

Lemma reads_share_data share_id type2 p :
  u32_ok share_id = true -> u8_ok type2 = true ->
  reads read_share_data (data_header share_id type2 (len p) ++ p) []
    (fun d => exists b, d = mkData share_id stream_low type2 (Reader.make p b)).
Proof.
  intros Hs Ht. widths. unfold read_share_data, data_header, stream_low. rewrite <- !app_assoc.
  do 7 rstep. rstep. off. apply reads_ask. intros ? ?. rewrite remaining_mk, app_nil_r.
  eapply reads_bind_nil; [by apply reads_sub|]. intros r [b2 ->]. apply reads_ret. by exists b2.
Qed.

Definition rect_ok (r : Rectangle16) : bool := u16_ok (left r) && u16_ok (top r) && u16_ok (right r) && u16_ok (bottom r).

(** The PDUs with a payload encoder, with fields of their widths. *)
Definition pdu_ok (pdu : DataPdu) : bool :=
  match pdu with
  | Synchronize a b => (a =? 1) && u16_ok b
  | Control a b c => u16_ok a && u16_ok b && u32_ok c
  | FontList a b c d | FontMap a b c d => u16_ok a && u16_ok b && u16_ok c && u16_ok d
  | SetErrorInfo v | FrameAcknowledgePdu v => u32_ok v
  | RefreshRect areas => (len areas <=? 255) && forallb rect_ok areas
  | SuppressOutput allow rect => bool_decide (is_Some rect <-> allow = true) && opt_ok rect_ok rect
  | ShutdownRequest | ShutdownDenied => true
  | InputPdu events =>
      (len events <=? Input.max_slow_path_input_events) && forallb Input.event_ok events &&
      forallb (fun e => negb (Input.is_qoe e)) events
  | OtherDataPdu _ => false
  end.

Lemma encodes_rectangle r : rect_ok r = true -> encodes (write_rectangle r) read_rectangle r 8.
Proof.
  unfold rect_ok. intros H. bools. unfold write_rectangle, read_rectangle.
  eapply encodes_le; [fields; lastfield; by destruct r|lia].
Qed.

Lemma slow_events_all events : forallb (fun e => negb (Input.is_qoe e)) events = true -> Input.slow_events events = events.
Proof.
  induction events as [|e events IH]; [done|]. cbn [forallb Input.slow_events]. intros [He H]%andb_prop.
  apply negb_true_iff in He. rewrite He. f_equal. by apply IH.
Qed.

Lemma encodes_input events :
  (len events <=? Input.max_slow_path_input_events) && forallb Input.event_ok events &&
    forallb (fun e => negb (Input.is_qoe e)) events = true ->
  encodes (encode_input events) Input.decode_slow_path_input events (4 + 12 * 512).
Proof.
  intros H. bools. assert (Input.slow_events events = events) as E by (by apply slow_events_all).
  unfold Input.max_slow_path_input_events in *. exists (Input.slow_bytes events). split_and!.
  - apply Input.writes_slow_path. rewrite E. lia.
  - unfold Input.slow_bytes. rewrite E, !len_app, !len_le_bytes.
    rewrite (len_each _ events 12); [lia|]. apply List.Forall_forall. intros e He.
    match goal with H : forallb (fun e => negb _) _ = true |- _ => rewrite forallb_forall in H; specialize (H e He) end.
    unfold Input.slow_event_bytes. destruct e; [..|done]; rewrite ?len_app, ?len_le_bytes; lia.
  - intros k. rewrite <- E at 2. by apply Input.reads_slow_path; [|rewrite E].
Qed.

Definition max_payload : Z := 6148.

Lemma encodes_data_pdu pdu m :
  pdu_ok pdu = true -> encode pdu = Some m -> encodes m (read_data_pdu (type2_of pdu)) pdu max_payload.
Proof.
  intros Hok. destruct pdu as [a b|a b c|a b c d|a b c d|v|areas|allow rect| | |v|events|t];
    cbn [pdu_ok encode type2_of] in *; intros [= <-]; unfold read_data_pdu;
    repeat match goal with |- context [if (?x =? ?y) then _ else _] =>
      first [change (x =? y) with true|change (x =? y) with false]; cbv iota end; eapply encodes_le.
  - bools. subst a. unfold encode_synchronize. fields. eapply encodes_last; [field|]. intros k. cbn beta. apply reads_ask. intros ? ?.
    by apply reads_ret.
  - unfold max_payload; lia.
  - bools. unfold encode_control. fields. lastfield. done.
  - unfold max_payload; lia.
  - bools. unfold encode_font_list. fields. lastfield. done.
  - unfold max_payload; lia.
  - bools. unfold encode_font_map. fields. lastfield. done.
  - unfold max_payload; lia.
  - lastfield. done.
  - unfold max_payload; lia.
  - bools. unfold encode_refresh_rect. pose proof (len_nonneg areas).
    apply encodes_assert; [by apply Z.leb_le|]. rewrite wrap_small by lia. fields.
    eapply encodes_last; [apply (encodes_times write_rectangle read_rectangle areas 8)|].
    + unfold len. by rewrite Nat2Z.id.
    + apply List.Forall_forall. intros x Hx. apply encodes_rectangle.
      match goal with H : forallb rect_ok areas = true |- _ => rewrite forallb_forall in H; by apply H end.
    + intros k. by apply reads_ret.
  - bools. unfold max_payload. lia.
  - apply andb_prop in Hok as [Hr Hok]. apply bool_decide_eq_true in Hr. unfold encode_suppress_output.
    match goal with |- encodes _ _ _ ?n => unify n 12 end.
    apply encodes_query. intros o. destruct allow; cbv iota; eapply encodes_le.
    + destruct rect as [rect|]; [|by destruct (proj2 Hr eq_refl)]. cbn [default opt_ok] in *.
      eapply encodes_seq; [field|]. off. eapply encodes_seq; [by apply encodes_zeros|].
      eapply encodes_last; [by apply encodes_dsome, encodes_rectangle|]. intros k. by apply reads_ret.
    + done.
    + destruct rect as [rect|]; [by specialize (proj1 Hr (ex_intro _ rect eq_refl))|].
      eapply encodes_seq; [field|]. off. eapply encodes_seq; [by apply encodes_zeros|].
      eapply encodes_last; [apply encodes_ret|]. intros k. by apply reads_ret.
    + done.
  - done.
  - apply encodes_ret.
  - done.
  - apply encodes_ret.
  - done.
  - lastfield. done.
  - unfold max_payload; lia.
  - eapply encodes_last; [by apply encodes_input|]. intros k. by apply reads_ret.
  - unfold max_payload; lia.
Qed.


(** ** The capability exchange *)

Definition capabilities_bytes (descriptor : list byte) (count : Z) (e : list byte) : list byte :=
  Writer.le_bytes 2 (len descriptor + 1) ++ Writer.le_bytes 2 (4 + len e) ++ descriptor ++ [byte_of 0] ++
  Writer.le_bytes 2 count ++ Writer.le_bytes 2 0 ++ e.

Lemma writes_capabilities descriptor sets count e :
  yields (Capabilities.encode_capability_sets sets) count e -> len descriptor < 64 -> 4 + len e <= 0xFFFF ->
  writes (write_capabilities descriptor sets) (capabilities_bytes descriptor count e).
Proof.
  intros Hy Hd He w. unfold write_capabilities, capabilities_bytes. pose proof (len_nonneg descriptor). pose proof (len_nonneg e).
  rewrite wrap_small by lia. set (dl := Writer.le_bytes 2 (len descriptor + 1)).
  unfold ebind, Writer.u16le, Writer.write_le, Writer.u8, Writer.bytes, Writer.size, eassert.
  rewrite Hy. rewrite <- !app_assoc. set (z := Writer.le_bytes 2 0).
  match goal with |- context [?a - ?b <=? 65535] => replace (a - b) with (4 + len e) by (subst dl z; len_lia) end.
  destruct (Z.leb_spec (4 + len e) 65535); [|lia]. rewrite wrap_small by lia.
  unfold Writer.patch_u16le. rewrite len_app.
  rewrite patch_mk by (subst z; len_lia).
  set (pre := Writer.le_bytes 2 (len descriptor + 1) ++ Writer.le_bytes 2 (4 + len e) ++ descriptor ++ [byte_of 0]).
  match goal with |- Writer.patch ?pos _ ?buf = _ =>
    replace pos with (len w + len pre) by (subst pre z; len_lia);
    replace buf with (w ++ pre ++ z ++ z ++ e) by (subst pre; by rewrite <- !app_assoc) end.
  rewrite patch_mk by (subst z; len_lia). subst pre dl. by rewrite <- !app_assoc.
Qed.

Lemma reads_capabilities descriptor sets count e k :
  (forall l, reads (Capabilities.decode_capability_sets count) e l (eq sets)) ->
  0 <= count < 65536 -> len descriptor < 64 -> no_zero descriptor = true -> 4 + len e <= 0xFFFF ->
  reads read_capabilities (capabilities_bytes descriptor count e) k (eq (descriptor, sets)).
Proof.
  intros Hr Hc Hd Hz He. pose proof (len_nonneg descriptor). pose proof (len_nonneg e).
  unfold read_capabilities, capabilities_bytes, read_source_descriptor, max_source_descriptor.
  do 3 rstep. rewrite (app_assoc descriptor).
  eapply (reads_bind _ _ _ _ _ (eq descriptor)).
  { rstep. off. eapply reads_bind_nil; [apply reads_bytes; len_lia|]. intros ? <-. apply reads_ret.
    symmetry. by apply until_zero_padded. }
  intros ? <-. off. eapply reads_bind_nil; [apply reads_sub; len_lia|]. intros r [b0 ->].
  eapply (reads_bind_pure _ _ _ _ (eq sets)); [|intros ? <-; by apply reads_ret].
  apply reads_within. do 2 rstep. eapply reads_bind_nil; [apply Hr|]. intros ? <-.
  eapply reads_bind_nil; [apply reads_expect_end|]. intros _ _. by apply reads_ret.
Qed.


(** The share control PDUs of the exchange. *)
Definition exchange_ok (descriptor : list byte) (sets : Capabilities.CapabilitySets) : bool :=
  (len descriptor <? 64) && no_zero descriptor && Capabilities.sets_ok sets &&
  (Capabilities.raw_size (Capabilities.other sets) <=? 32000).

Definition demand_ok (d : DemandActive) : bool :=
  u32_ok (da_share_id d) && u32_ok (session_id d) && exchange_ok (da_source_descriptor d) (da_capabilities d).
Definition confirm_ok (c : ConfirmActive) : bool :=
  u32_ok (ca_share_id c) && u16_ok (originator_id c) && exchange_ok (ca_source_descriptor c) (ca_capabilities c).

Lemma encodes_capabilities descriptor sets : exchange_ok descriptor sets = true ->
  exists e, writes (write_capabilities descriptor sets) e /\
            len e <= 401 + Capabilities.raw_size (Capabilities.other sets) /\
            forall k, reads read_capabilities e k (eq (descriptor, sets)).
Proof.
  unfold exchange_ok. intros H. bools.
  destruct (Capabilities.encodes_sets sets) as (e & L & Y & R); [done|].
  pose proof (Capabilities.count_sets_range sets ltac:(done)). unfold Capabilities.known_size in *.
  exists (capabilities_bytes descriptor (Capabilities.count_sets sets) e). split_and!.
  - apply writes_capabilities; [done|lia|lia].
  - unfold capabilities_bytes. len_lia.
  - intros k. apply reads_capabilities; [done|lia|lia|done|lia].
Qed.

(** A share control PDU: what is written, framed, and read back from its body. *)
Definition exchanged {A} (m : Enc unit) (type source : Z) (p : Dec A) (v : A) (n : Z) : Prop :=
  exists e, writes m (control_bytes type source e) /\ 6 + len e <= n /\ decodes p e v.

Lemma exchanged_demand source d : demand_ok d = true ->
  exchanged (encode_demand_active source d) demand_active source decode_demand_active d
            (420 + Capabilities.raw_size (Capabilities.other (da_capabilities d))).
Proof.
  unfold demand_ok. intros H. apply andb_prop in H as [[Hs Hi]%andb_prop Hx].
  destruct (encodes_capabilities _ _ Hx) as (e & W & L & R).
  assert (Capabilities.raw_size (Capabilities.other (da_capabilities d)) <= 32000) as Hr by (unfold exchange_ok in Hx; bools; lia).
  exists (Writer.le_bytes 4 (da_share_id d) ++ e ++ Writer.le_bytes 4 (session_id d)). split_and!.
  - unfold encode_demand_active.
    apply writes_share_control with (body := Writer.u32le (da_share_id d) ;;;
      write_capabilities (da_source_descriptor d) (da_capabilities d) ;;; Writer.u32le (session_id d)).
    + intros start w. unfold ebind. destruct (Writer.u32le (da_share_id d) w) as [[[] w']|]; [|done].
      by destruct (write_capabilities _ _ w') as [[[] ?]|].
    + done.
    + apply writes_seq; [apply writes_bytes|]. apply writes_seq; [done|]. apply writes_bytes.
    + len_lia.
  - len_lia.
  - rewrite <- (app_nil_r (_ ++ _)). apply reads_decodes. widths. unfold decode_demand_active. rstep.
    eapply reads_bind; [apply R|]. intros ? <-.
    eapply reads_bind_nil; [apply reads_unless_empty; [done|apply reads_u32le; lia]|]. intros ? <-.
    apply reads_ret. by destruct d.
Qed.

Lemma exchanged_confirm source c : confirm_ok c = true ->
  exchanged (encode_confirm_active source c) confirm_active source decode_confirm_active c
            (420 + Capabilities.raw_size (Capabilities.other (ca_capabilities c))).
Proof.
  unfold confirm_ok. intros H. apply andb_prop in H as [[Hs Hi]%andb_prop Hx].
  destruct (encodes_capabilities _ _ Hx) as (e & W & L & R).
  assert (Capabilities.raw_size (Capabilities.other (ca_capabilities c)) <= 32000) as Hr by (unfold exchange_ok in Hx; bools; lia).
  exists (Writer.le_bytes 4 (ca_share_id c) ++ Writer.le_bytes 2 (originator_id c) ++ e). split_and!.
  - unfold encode_confirm_active.
    apply writes_share_control with (body := Writer.u32le (ca_share_id c) ;;; Writer.u16le (originator_id c) ;;;
      write_capabilities (ca_source_descriptor c) (ca_capabilities c)); [done|done| |len_lia].
    repeat (apply writes_seq; [apply writes_bytes|]). done.
  - len_lia.
  - rewrite <- (app_nil_r (_ ++ _)). apply reads_decodes. widths. unfold decode_confirm_active. do 2 rstep.
    eapply reads_bind_nil; [apply R|]. intros ? <-. apply reads_ret. by destruct c.
Qed.

Lemma exchanged_deactivate source share_id : u32_ok share_id = true ->
  exchanged (encode_deactivate_all source share_id) deactivate_all source decode_deactivate_all share_id 13.
Proof.
  intros H. exists (Writer.le_bytes 4 share_id ++ Writer.le_bytes 2 1 ++ [byte_of 0]). split_and!.
  - unfold encode_deactivate_all.
    apply writes_share_control with (body := Writer.u32le share_id ;;; Writer.u16le 1 ;;; Writer.u8 0);
      [done|done| |len_lia].
    repeat (apply writes_seq; [apply writes_bytes|]). apply writes_bytes.
  - len_lia.
  - rewrite <- (app_nil_r (_ ++ _)). apply reads_decodes. widths. unfold decode_deactivate_all. rstep.
    eapply reads_bind_nil; [apply reads_unless_empty; [done|]|].
    { rstep. by apply reads_skip. }
    intros _ _. by apply reads_ret.
Qed.

(** ** The claims *)

(** The bytes of a PDU, as [handle_pdu] finds them behind MCS: the header is
    accepted and the body is handed to the decoder. *)
Definition opened {A} (b : Z) (e : list byte) (type source : Z) (p : Dec A) (v : A) : Prop :=
  exists body r, read_share_control (Reader.make e b) = Ok (mkControl type source body, r) /\
                 exists r', p body = Ok (v, r').

Lemma exchanged_opened {A} b m type source (p : Dec A) v n :
  exchanged m type source p v n -> 0 <= type < 16 -> u16_ok source = true -> n <= 0x7FFF ->
  exists e, Writer.run m = Some e /\ len e <= n /\ opened b e type source p v.
Proof.
  intros (e & W & L & D) Ht Hs Hn. exists (control_bytes type source e). split_and!.
  - by apply writes_run.
  - rewrite len_control. lia.
  - destruct (reads_share_control type source e Ht Hs ltac:(lia) [] b) as (c & Hc & b' & ->).
    rewrite app_nil_r in Hc. exists (Reader.make e b'). eexists. split; [exact Hc|]. apply D.
Qed.

(** A data PDU in its headers. *)
Lemma opened_data b pdu share_id source : u16_ok source = true -> pdu_ok pdu = true -> u32_ok share_id = true ->
  exists m p e, encode pdu = Some m /\ Writer.run m = Some p /\ len p <= max_payload /\
     Writer.run (write_data_pdu share_id source (type2_of pdu) p) = Some e /\ len e = 18 + len p /\
     exists sd, opened b e data source read_share_data sd /\ sd_share_id sd = share_id /\ decode_data_pdu sd = Ok pdu.
Proof.
  intros Hs H Hi. destruct (encode pdu) as [m|] eqn:E; [|by destruct pdu].
  destruct (encodes_data_pdu pdu m H E) as (p & W & L & R). unfold max_payload in *.
  exists m, p, (data_bytes share_id source (type2_of pdu) p). split_and!; [done|by apply writes_run|done|..].
  { apply writes_run, writes_data_pdu. lia. }
  { apply len_data. }
  assert (0 <= type2_of pdu < 256) as Ht by (by destruct pdu).
  destruct (reads_share_control data source (data_header share_id (type2_of pdu) (len p) ++ p) ltac:(done) Hs
    ltac:(unfold data_header; len_lia) [] b) as (ctl & Hc & b1 & ->). rewrite app_nil_r in Hc.
  destruct (reads_share_data share_id (type2_of pdu) p Hi
    ltac:(unfold u8_ok; apply andb_true_iff; lia) [] b1) as (sd & Hsd & b2 & ->).
  rewrite app_nil_r in Hsd. eexists. split_and!.
  + do 2 eexists. split; [exact Hc|]. eexists. exact Hsd.
  + done.
  + unfold decode_data_pdu. cbn [type2 payload]. destruct (R [] [] b2) as (v & Hv & <-).
    rewrite app_nil_r in Hv. unfold Reader.make. by rewrite Hv.
Qed.

(** the share layer carries what it is given.  Demand Active, Confirm Active
    and Deactivate All are encoded without an assertion and decoded to the same
    value behind a share control header that is accepted; so is a data PDU of
    every kind that has an encoder, behind its share data header, with the type
    the encoder announces; and the sizes stay below what one MCS PDU carries
    unless raw capability sets of the caller take more. *)
Theorem share_roundtrip (d : DemandActive) (c : ConfirmActive) (pdu : DataPdu) (source b : Z) :
  u16_ok source = true ->
  (demand_ok d = true -> exists e, Writer.run (encode_demand_active source d) = Some e /\
     len e <= 420 + Capabilities.raw_size (Capabilities.other (da_capabilities d)) /\
     opened b e demand_active source decode_demand_active d) /\
  (confirm_ok c = true -> exists e, Writer.run (encode_confirm_active source c) = Some e /\
     len e <= 420 + Capabilities.raw_size (Capabilities.other (ca_capabilities c)) /\
     opened b e confirm_active source decode_confirm_active c) /\
  (pdu_ok pdu = true -> u32_ok (da_share_id d) = true ->
   exists m p e, encode pdu = Some m /\ Writer.run m = Some p /\ len p <= max_payload /\
     Writer.run (write_data_pdu (da_share_id d) source (type2_of pdu) p) = Some e /\ len e = 18 + len p /\
     exists sd, opened b e data source read_share_data sd /\ sd_share_id sd = da_share_id d /\
                decode_data_pdu sd = Ok pdu).
Proof.
  intros Hs. split_and!.
  - intros H. eapply exchanged_opened; [by apply exchanged_demand|done|done|].
    unfold demand_ok, exchange_ok in H. bools. lia.
  - intros H. eapply exchanged_opened; [by apply exchanged_confirm|done|done|].
    unfold confirm_ok, exchange_ok in H. bools. lia.
  - intros H Hi. by apply opened_data.
Qed.

Definition sample_demand : DemandActive := mkDemand 0x103EA (byte_of <$> [82; 68; 80]) Capabilities.sample_sets 0.
Definition sample_confirm : ConfirmActive := mkConfirm 0x103EA 0x03EA (byte_of <$> [77]) Capabilities.sample_sets.

Lemma share_roundtrip_witness :
  exists e, Writer.run (encode_demand_active 1002 sample_demand) = Some e /\
            opened 0 e demand_active 1002 decode_demand_active sample_demand.
Proof.
  destruct (share_roundtrip sample_demand sample_confirm ShutdownRequest 1002 0 eq_refl) as [H _].
  destruct (H eq_refl) as (e & He & _ & Ho). exists e. split; [exact He|exact Ho].
Defined.

End Share.
