(* ===== verification/Gcc.v ===== *)
(** * GCC conference blocks

    Models [src/src/farland/proto/gcc.hpp] and [gcc.cpp]: the Conference Create
    Request and Response that MCS Connect-Initial and Connect-Response carry,
    and the client and server data blocks in them.  Module [Gcc] has the blocks
    as records, one decoder and one encoder for each, the loops over the blocks
    and their properties. *)

From S2P Require Import Prelude Buffers CodecLogic Text Fields Per.
Open Scope Z_scope.

Module Gcc.

Definition choice_object_key : Z := 0x00.
Definition choice_conference_create_request : Z := 0x00.
Definition choice_conference_create_response : Z := 0x14.
Definition selection_user_data_present : Z := 0x08.
Definition choice_h221_non_standard_value : Z := 0xC0.
Definition h221_client_key : list byte := String.list_byte_of_string "Duca".
Definition h221_server_key : list byte := String.list_byte_of_string "McDn".
Definition h221_key_size : Z := 4.
Definition response_node_id : Z := 0x79F3.
Definition node_id_min : Z := 1001.
Definition gcc_result_alternatives : Z := 16.

Definition block_header_size : Z := 4.
Definition client_name_size : Z := 32.
Definition ime_file_name_size : Z := 64.
Definition dig_product_id_size : Z := 64.
Definition channel_name_size : Z := 8.
Definition monitor_attribute_size : Z := 20.

(** Namespace [block_type]. *)
Definition cs_core : Z := 0xC001.
Definition cs_security : Z := 0xC002.
Definition cs_net : Z := 0xC003.
Definition cs_cluster : Z := 0xC004.
Definition cs_monitor : Z := 0xC005.
Definition cs_mcs_msgchannel : Z := 0xC006.
Definition cs_monitor_ex : Z := 0xC008.
Definition cs_multitransport : Z := 0xC00A.
Definition sc_core : Z := 0x0C01.
Definition sc_security : Z := 0x0C02.
Definition sc_net : Z := 0x0C03.
Definition sc_mcs_msgchannel : Z := 0x0C04.
Definition sc_multitransport : Z := 0x0C08.

(** The early capability flags the connection looks at. *)
Definition support_errinfo_pdu : Z := 0x0001.
Definition support_netchar_autodetect : Z := 0x0080.
Definition support_dynvc_gfx_protocol : Z := 0x0100.
Definition support_heartbeat_pdu : Z := 0x0400.
Definition support_skip_channeljoin : Z := 0x0800.
Definition skip_channeljoin_supported : Z := 0x00000008.

(** Namespace [color_depth_support]. *)
Definition bpp24 : Z := 0x0001.
Definition bpp32 : Z := 0x0008.

Definition rdp_version_5_plus : Z := 0x00080004.
Definition max_static_channels : Z := 31.
Definition max_monitors : Z := 16.

(** ** The blocks *)

Record ClientCoreData := mkCore {
  version : Z;
  desktop_width : Z;
  desktop_height : Z;
  color_depth : Z;
  sas_sequence : Z;
  keyboard_layout : Z;
  client_build : Z;
  client_name : list byte;
  keyboard_type : Z;
  keyboard_subtype : Z;
  keyboard_function_keys : Z;
  ime_file_name : list byte;
  post_beta2_color_depth : option Z;
  client_product_id : option Z;
  serial_number : option Z;
  high_color_depth : option Z;
  supported_color_depths : option Z;
  early_capability_flags : option Z;
  client_dig_product_id : option (list byte);
  connection_type : option Z;
  server_selected_protocol : option Z;
  desktop_physical_width : option Z;
  desktop_physical_height : option Z;
  desktop_orientation : option Z;
  desktop_scale_factor : option Z;
  device_scale_factor : option Z
}.

Definition has_early_flag (c : ClientCoreData) (flag : Z) : bool :=
  match early_capability_flags c with Some flags => has_bits flags flag | None => false end.

Record ClientSecurityData := mkClientSecurity { encryption_methods : Z; ext_encryption_methods : Z }.
Record ChannelDef := mkChannelDef { name : list byte; options : Z }.
Record ClientNetworkData := mkClientNetwork { channels : list ChannelDef }.
Record ClientClusterData := mkCluster { cluster_flags : Z; redirected_session_id : Z }.
Record MonitorDef := mkMonitorDef { left : Z; top : Z; right : Z; bottom : Z; monitor_flags : Z }.
Record ClientMonitorData := mkMonitorData { md_flags : Z; monitors : list MonitorDef }.
Record MonitorAttributes := mkAttributes {
  physical_width : Z; physical_height : Z; orientation : Z; attr_desktop_scale_factor : Z; attr_device_scale_factor : Z }.
Record ClientMonitorExtendedData := mkMonitorEx { mx_flags : Z; mx_monitors : list MonitorAttributes }.
Record ClientMessageChannelData := mkMessageChannel { mc_flags : Z }.
Record ClientMultitransportData := mkMultitransport { mt_flags : Z }.

Record ClientData := mkClientData {
  core : ClientCoreData;
  security : option ClientSecurityData;
  network : option ClientNetworkData;
  cluster : option ClientClusterData;
  monitor : option ClientMonitorData;
  message_channel : option ClientMessageChannelData;
  monitor_ex : option ClientMonitorExtendedData;
  multitransport : option ClientMultitransportData
}.

Record ServerCoreData := mkServerCore {
  server_version : Z; client_requested_protocols : option Z; server_early_capability_flags : option Z }.
Record ServerSecurityData := mkServerSecurity { encryption_method : Z; encryption_level : Z }.
Record ServerNetworkData := mkServerNetwork { io_channel_id : Z; channel_ids : list Z }.
Record ServerData := mkServerData {
  server_core : ServerCoreData;
  server_security : ServerSecurityData;
  server_network : ServerNetworkData;
  message_channel_id : option Z;
  multitransport_flags : option Z
}.

(** ** Conference Create Request and Response *)

Definition expect_key (key : list byte) : Dec unit :=
  let* start := dask Reader.offset in
  let* value := Per.read_octet_string h221_key_size in
  if negb (bool_decide (value = key)) then dfail invalid_value "unexpected H.221 non-standard key" start
  else dret tt.

(** The ConnectData in front of either PDU; the length in it is ignored. *)
Definition read_connect_data : Dec unit :=
  let* start := dask Reader.offset in
  let* key_choice := Per.read_choice in
  let* oid := Per.read_object_identifier in
  if negb (key_choice =? choice_object_key) || negb (bool_decide (oid = Per.t124_02_98_oid))
  then dfail invalid_value "GCC ConnectData key is not the T.124 object identifier" start
  else
    let* _ := Per.read_length in dret tt.

Definition decode_conference_create_request : Dec (list byte) :=
  let* _ := read_connect_data in
  let* pdu_start := dask Reader.offset in
  let* choice := Per.read_choice in
  let* selection := Per.read_selection in
  if negb (choice =? choice_conference_create_request) || negb (has_bits selection selection_user_data_present)
  then dfail invalid_value "not a Conference Create Request with user data" pdu_start
  else
    let* _ := Per.read_numeric_string 1 in
    let* _ := Per.read_padding 1 in
    let* sets_offset := dask Reader.offset in
    let* sets := Per.read_number_of_sets in
    let* value_choice := Per.read_choice in
    if (sets <? 1) || negb (value_choice =? choice_h221_non_standard_value)
    then dfail invalid_value "Conference Create Request user data is not H.221 non-standard" sets_offset
    else
      let* _ := expect_key h221_client_key in
      let* data_length := Per.read_length in
      ReaderOps.bytes data_length.

Definition write_connect_data (pdu : list byte) : Enc unit :=
  Per.write_choice choice_object_key ;;;
  Per.write_object_identifier Per.t124_02_98_oid ;;;
  Per.write_length (len pdu) ;;;
  Writer.bytes pdu.

Definition encode_conference_create_request (client_data : list byte) : Enc unit :=
  let! pdu := elocal (
    Per.write_choice choice_conference_create_request ;;;
    Per.write_selection selection_user_data_present ;;;
    Per.write_numeric_string (String.list_byte_of_string "1") 1 ;;;
    Per.write_padding 1 ;;;
    Per.write_number_of_sets 1 ;;;
    Per.write_choice choice_h221_non_standard_value ;;;
    Per.write_octet_string h221_client_key h221_key_size ;;;
    Per.write_length (len client_data) ;;;
    Writer.bytes client_data) in
  write_connect_data pdu.

Definition decode_conference_create_response : Dec (list byte) :=
  let* _ := read_connect_data in
  let* pdu_start := dask Reader.offset in
  let* choice := Per.read_choice in
  if negb (choice =? choice_conference_create_response)
  then dfail invalid_value "not a Conference Create Response" pdu_start
  else
    let* _ := Per.read_integer16 node_id_min in
    let* _ := Per.read_integer in
    let* result_offset := dask Reader.offset in
    let* result := Per.read_enumerated gcc_result_alternatives in
    if negb (result =? 0) then dfail invalid_value "Conference Create Response reports failure" result_offset
    else
      let* sets := Per.read_number_of_sets in
      let* value_choice := Per.read_choice in
      if (sets <? 1) || negb (value_choice =? choice_h221_non_standard_value)
      then dfail invalid_value "Conference Create Response user data is not H.221 non-standard" result_offset
      else
        let* _ := expect_key h221_server_key in
        let* data_length := Per.read_length in
        ReaderOps.bytes data_length.

Definition encode_conference_create_response (server_data : list byte) : Enc unit :=
  let! pdu := elocal (
    Per.write_choice choice_conference_create_response ;;;
    Per.write_integer16 response_node_id node_id_min ;;;
    Per.write_integer 1 ;;;
    Per.write_enumerated 0 ;;;
    Per.write_number_of_sets 1 ;;;
    Per.write_choice choice_h221_non_standard_value ;;;
    Per.write_octet_string h221_server_key h221_key_size ;;;
    Per.write_length (len server_data) ;;;
    Writer.bytes server_data) in
  write_connect_data pdu.

(** ** Client Core Data *)

Definition read_optional {A} (read : Dec A) : Dec (option A * bool) :=
  let* e := dask Reader.empty in
  if e then dret (None, false) else let* v := read in dret (Some v, true).

(** [if (more) { FARLAND_TRY(more, read_optional(r, field, read)); }] *)
Definition read_if {A} (more : bool) (read : Dec A) : Dec (option A * bool) :=
  if more then read_optional read else dret (None, false).

(** A fixed UTF-16 field. *)
Definition read_fixed_utf16 (size : Z) : Dec (list byte) :=
  let* raw := ReaderOps.bytes size in dret (Text.utf16le_to_utf8 raw).

(** [if (more && !r.empty()) { skip(1); }] *)
Definition read_pad (more : bool) : Dec unit :=
  if more then unless_empty tt (ReaderOps.skip 1) else dret tt.

Definition decode_core : Dec ClientCoreData :=
  let* version := ReaderOps.u32le in
  let* width := ReaderOps.u16le in
  let* height := ReaderOps.u16le in
  let* depth := ReaderOps.u16le in
  let* sas := ReaderOps.u16le in
  let* layout := ReaderOps.u32le in
  let* build := ReaderOps.u32le in
  let* client_name := ReaderOps.bytes client_name_size in
  let* type := ReaderOps.u32le in
  let* subtype := ReaderOps.u32le in
  let* function_keys := ReaderOps.u32le in
  let* ime := ReaderOps.bytes ime_file_name_size in
  let* (o1, more) := read_optional ReaderOps.u16le in
  let* (o2, more) := read_if more ReaderOps.u16le in
  let* (o3, more) := read_if more ReaderOps.u32le in
  let* (o4, more) := read_if more ReaderOps.u16le in
  let* (o5, more) := read_if more ReaderOps.u16le in
  let* (o6, more) := read_if more ReaderOps.u16le in
  let* (o7, more) := read_if more (read_fixed_utf16 dig_product_id_size) in
  let* (o8, more) := read_if more ReaderOps.u8 in
  let* _ := read_pad more in
  let* (o9, more) := read_if more ReaderOps.u32le in
  let* (o10, more) := read_if more ReaderOps.u32le in
  let* (o11, more) := read_if more ReaderOps.u32le in
  let* (o12, more) := read_if more ReaderOps.u16le in
  let* (o13, more) := read_if more ReaderOps.u32le in
  let* (o14, _) := read_if more ReaderOps.u32le in
  dret (mkCore version width height depth sas layout build (Text.utf16le_to_utf8 client_name) type subtype function_keys
               (Text.utf16le_to_utf8 ime) o1 o2 o3 o4 o5 o6 o7 o8 o9 o10 o11 o12 o13 o14).

(** [stop = stop || !v; if (!stop) { write(v.value()); }] *)
Definition write_optional {A} (stop : bool) (v : option A) (write : A -> Enc unit) : Enc bool :=
  match v with
  | Some x => if stop then eret stop else write x ;;; eret stop
  | None => eret true
  end.

Definition opt16 (stop : bool) (v : option Z) : Enc bool := write_optional stop v Writer.u16le.
Definition opt32 (stop : bool) (v : option Z) : Enc bool := write_optional stop v Writer.u32le.

Definition encode_core (c : ClientCoreData) : Enc unit :=
  Writer.u32le (version c) ;;;
  Writer.u16le (desktop_width c) ;;;
  Writer.u16le (desktop_height c) ;;;
  Writer.u16le (color_depth c) ;;;
  Writer.u16le (sas_sequence c) ;;;
  Writer.u32le (keyboard_layout c) ;;;
  Writer.u32le (client_build c) ;;;
  write_fixed_utf16 (client_name c) client_name_size ;;;
  Writer.u32le (keyboard_type c) ;;;
  Writer.u32le (keyboard_subtype c) ;;;
  Writer.u32le (keyboard_function_keys c) ;;;
  write_fixed_utf16 (ime_file_name c) ime_file_name_size ;;;
  let! stop := opt16 false (post_beta2_color_depth c) in
  let! stop := opt16 stop (client_product_id c) in
  let! stop := opt32 stop (serial_number c) in
  let! stop := opt16 stop (high_color_depth c) in
  let! stop := opt16 stop (supported_color_depths c) in
  let! stop := opt16 stop (early_capability_flags c) in
  let! stop := write_optional stop (client_dig_product_id c) (fun id => write_fixed_utf16 id dig_product_id_size) in
  let! stop := write_optional stop (connection_type c) (fun t => Writer.u8 t ;;; Writer.u8 0) in
  let! stop := opt32 stop (server_selected_protocol c) in
  let! stop := opt32 stop (desktop_physical_width c) in
  let! stop := opt32 stop (desktop_physical_height c) in
  let! stop := opt16 stop (desktop_orientation c) in
  let! stop := opt32 stop (desktop_scale_factor c) in
  let! _ := opt32 stop (device_scale_factor c) in
  eret tt.

(** ** The other client blocks *)

Definition ascii_name (field : list byte) : list byte := until_zero field.

Definition decode_security : Dec ClientSecurityData :=
  let* a := ReaderOps.u32le in
  let* b := ReaderOps.u32le in
  dret (mkClientSecurity a b).

Definition read_channel_def : Dec ChannelDef :=
  let* name := ReaderOps.bytes channel_name_size in
  let* options := ReaderOps.u32le in
  dret (mkChannelDef (ascii_name name) options).

Definition decode_network : Dec ClientNetworkData :=
  let* start := dask Reader.offset in
  let* count := ReaderOps.u32le in
  if max_static_channels <? count then dfail limit_exceeded "more than 31 static virtual channels" start
  else
    let* channels := dtimes (Z.to_nat count) read_channel_def in
    dret (mkClientNetwork channels).

Definition decode_cluster : Dec ClientClusterData :=
  let* a := ReaderOps.u32le in
  let* b := ReaderOps.u32le in
  dret (mkCluster a b).

(** A coordinate, with the cast to a signed integer. *)
Definition read_i32 : Dec Z := let* v := ReaderOps.u32le in dret (signed 32 v).

Definition read_monitor_def : Dec MonitorDef :=
  let* left := read_i32 in
  let* top := read_i32 in
  let* right := read_i32 in
  let* bottom := read_i32 in
  let* flags := ReaderOps.u32le in
  dret (mkMonitorDef left top right bottom flags).

Definition decode_monitor : Dec ClientMonitorData :=
  let* flags := ReaderOps.u32le in
  let* count_offset := dask Reader.offset in
  let* count := ReaderOps.u32le in
  if max_monitors <? count then dfail limit_exceeded "more than 16 monitors" count_offset
  else
    let* monitors := dtimes (Z.to_nat count) read_monitor_def in
    dret (mkMonitorData flags monitors).

Definition read_attributes : Dec MonitorAttributes :=
  let* a := ReaderOps.u32le in
  let* b := ReaderOps.u32le in
  let* c := ReaderOps.u32le in
  let* d := ReaderOps.u32le in
  let* e := ReaderOps.u32le in
  dret (mkAttributes a b c d e).

Definition decode_monitor_ex : Dec ClientMonitorExtendedData :=
  let* flags := ReaderOps.u32le in
  let* size_offset := dask Reader.offset in
  let* attribute_size := ReaderOps.u32le in
  if negb (attribute_size =? monitor_attribute_size)
  then dfail invalid_value "monitorAttributeSize is not 20" size_offset
  else
    let* count_offset := dask Reader.offset in
    let* count := ReaderOps.u32le in
    if max_monitors <? count then dfail limit_exceeded "more than 16 monitors" count_offset
    else
      let* monitors := dtimes (Z.to_nat count) read_attributes in
      dret (mkMonitorEx flags monitors).

Definition decode_message_channel : Dec ClientMessageChannelData :=
  let* flags := ReaderOps.u32le in dret (mkMessageChannel flags).

Definition decode_multitransport : Dec ClientMultitransportData :=
  let* flags := ReaderOps.u32le in dret (mkMultitransport flags).

(** [store_once(slot, parse(block), start)]: an error of the block comes before
    the duplicate. *)
Definition store_once {A} (slot : option A) (block : Reader.t) (parse : Dec A) (offset : Z) : Dec (option A) :=
  let* value := within block parse in
  match slot with
  | Some _ => dfail invalid_value "duplicate GCC data block" offset
  | None => dret (Some value)
  end.

(** ** The loop over the blocks

    [while (!r.empty())] with a [switch] on the type of the block; every block
    takes at least its header, so the bytes left are fuel enough. *)
Fixpoint blocks_loop {S} (handle : Z -> Z -> Reader.t -> S -> Dec S) (fuel : nat) (state : S) : Dec S :=
  match fuel with
  | O => dret state
  | S fuel' =>
      let* empty := dask Reader.empty in
      if empty then dret state
      else
        let* start := dask Reader.offset in
        let* type := ReaderOps.u16le in
        let* length := ReaderOps.u16le in
        if length <? block_header_size
        then dfail invalid_length "GCC data block shorter than its header" start
        else
          let* block := ReaderOps.sub (length - block_header_size) in
          let* state := handle start type block state in
          blocks_loop handle fuel' state
  end.

Definition no_core : ClientCoreData :=
  mkCore rdp_version_5_plus 0 0 0xCA01 0xAA03 0 0 [] 4 0 12 [] None None None None None None None None None None None
         None None None.

(** [ClientData data; bool have_core = false;] *)
Definition client_start : ClientData * bool :=
  (mkClientData no_core None None None None None None None, false).

(** The [switch] of [decode_client_data]. *)
Definition client_block (start type : Z) (block : Reader.t) (st : ClientData * bool) : Dec (ClientData * bool) :=
  let '(d, have_core) := st in
  if type =? cs_core then
    if have_core then dfail invalid_value "duplicate GCC data block" start
    else
      let* c := within block decode_core in
      dret (mkClientData c (security d) (network d) (cluster d) (monitor d) (message_channel d) (monitor_ex d)
                         (multitransport d), true)
  else if type =? cs_security then
    let* v := store_once (security d) block decode_security start in
    dret (mkClientData (core d) v (network d) (cluster d) (monitor d) (message_channel d) (monitor_ex d)
                       (multitransport d), have_core)
  else if type =? cs_net then
    let* v := store_once (network d) block decode_network start in
    dret (mkClientData (core d) (security d) v (cluster d) (monitor d) (message_channel d) (monitor_ex d)
                       (multitransport d), have_core)
  else if type =? cs_cluster then
    let* v := store_once (cluster d) block decode_cluster start in
    dret (mkClientData (core d) (security d) (network d) v (monitor d) (message_channel d) (monitor_ex d)
                       (multitransport d), have_core)
  else if type =? cs_monitor then
    let* v := store_once (monitor d) block decode_monitor start in
    dret (mkClientData (core d) (security d) (network d) (cluster d) v (message_channel d) (monitor_ex d)
                       (multitransport d), have_core)
  else if type =? cs_mcs_msgchannel then
    let* v := store_once (message_channel d) block decode_message_channel start in
    dret (mkClientData (core d) (security d) (network d) (cluster d) (monitor d) v (monitor_ex d)
                       (multitransport d), have_core)
  else if type =? cs_monitor_ex then
    let* v := store_once (monitor_ex d) block decode_monitor_ex start in
    dret (mkClientData (core d) (security d) (network d) (cluster d) (monitor d) (message_channel d) v
                       (multitransport d), have_core)
  else if type =? cs_multitransport then
    let* v := store_once (multitransport d) block decode_multitransport start in
    dret (mkClientData (core d) (security d) (network d) (cluster d) (monitor d) (message_channel d) (monitor_ex d)
                       v, have_core)
  else dret st.

Definition decode_client_data : Dec ClientData :=
  let* size := dask Reader.remaining in
  let* (data, have_core) := blocks_loop client_block (Z.to_nat size) client_start in
  let* offset := dask Reader.offset in
  if negb have_core then dfail invalid_value "client data has no core block" offset else dret data.

(** ** Encoding the client data *)

Definition begin_block (type : Z) : Enc Z :=
  let! start := Writer.size in
  Writer.u16le type ;;;
  Writer.u16le 0 ;;;
  eret start.

Definition end_block (start : Z) : Enc unit :=
  let! size := Writer.size in
  let length := size - start in
  eassert (length <=? 0xFFFF) ;;;
  Writer.patch_u16le (start + 2) (wrap 16 length).

(** [block = begin_block(w, type); body; end_block(w, block);] *)
Definition write_block (type : Z) (body : Enc unit) : Enc unit :=
  let! block := begin_block type in
  body ;;;
  end_block block.

Definition write_channel_def (channel : ChannelDef) : Enc unit :=
  eassert (len (name channel) <? channel_name_size) ;;;
  Writer.bytes (name channel) ;;;
  Writer.zeros (channel_name_size - len (name channel)) ;;;
  Writer.u32le (options channel).

Definition write_monitor_def (m : MonitorDef) : Enc unit :=
  Writer.u32le (wrap 32 (left m)) ;;;
  Writer.u32le (wrap 32 (top m)) ;;;
  Writer.u32le (wrap 32 (right m)) ;;;
  Writer.u32le (wrap 32 (bottom m)) ;;;
  Writer.u32le (monitor_flags m).

Definition write_attributes (m : MonitorAttributes) : Enc unit :=
  Writer.u32le (physical_width m) ;;;
  Writer.u32le (physical_height m) ;;;
  Writer.u32le (orientation m) ;;;
  Writer.u32le (attr_desktop_scale_factor m) ;;;
  Writer.u32le (attr_device_scale_factor m).

Definition encode_client_data (data : ClientData) : Enc unit :=
  write_block cs_core (encode_core (core data)) ;;;
  ewhen (cluster data) (fun c =>
    write_block cs_cluster (Writer.u32le (cluster_flags c) ;;; Writer.u32le (redirected_session_id c))) ;;;
  ewhen (security data) (fun s =>
    write_block cs_security (Writer.u32le (encryption_methods s) ;;; Writer.u32le (ext_encryption_methods s))) ;;;
  ewhen (network data) (fun n =>
    eassert (len (channels n) <=? max_static_channels) ;;;
    write_block cs_net (
      Writer.u32le (wrap 32 (len (channels n))) ;;; eeach write_channel_def (channels n))) ;;;
  ewhen (monitor data) (fun m =>
    eassert (len (monitors m) <=? max_monitors) ;;;
    write_block cs_monitor (
      Writer.u32le (md_flags m) ;;;
      Writer.u32le (wrap 32 (len (monitors m))) ;;; eeach write_monitor_def (monitors m))) ;;;
  ewhen (message_channel data) (fun m => write_block cs_mcs_msgchannel (Writer.u32le (mc_flags m))) ;;;
  ewhen (monitor_ex data) (fun m =>
    eassert (len (mx_monitors m) <=? max_monitors) ;;;
    write_block cs_monitor_ex (
      Writer.u32le (mx_flags m) ;;;
      Writer.u32le monitor_attribute_size ;;;
      Writer.u32le (wrap 32 (len (mx_monitors m))) ;;; eeach write_attributes (mx_monitors m))) ;;;
  ewhen (multitransport data) (fun m => write_block cs_multitransport (Writer.u32le (mt_flags m))).

(** ** Server data *)

(** [ServerData data;] with the three flags of the blocks it must have. *)
Record ServerBlocks := mkServerBlocks {
  data : ServerData; have_core : bool; have_security : bool; have_network : bool }.

Definition server_start : ServerBlocks :=
  mkServerBlocks (mkServerData (mkServerCore rdp_version_5_plus None None) (mkServerSecurity 0 0)
                               (mkServerNetwork 0 []) None None) false false false.

(** A second core block overwrites what it has and keeps the optional fields it
    lacks. *)
Definition decode_server_core (old : ServerCoreData) : Dec ServerCoreData :=
  let* version := ReaderOps.u32le in
  let* protocols := unless_empty (client_requested_protocols old) (dsome ReaderOps.u32le) in
  let* flags := unless_empty (server_early_capability_flags old) (dsome ReaderOps.u32le) in
  dret (mkServerCore version protocols flags).

Definition decode_server_security : Dec ServerSecurityData :=
  let* a := ReaderOps.u32le in
  let* b := ReaderOps.u32le in
  dret (mkServerSecurity a b).

(** A second network block appends its channels. *)
Definition decode_server_network (old : ServerNetworkData) : Dec ServerNetworkData :=
  let* io_id := ReaderOps.u16le in
  let* count_offset := dask Reader.offset in
  let* count := ReaderOps.u16le in
  if max_static_channels <? count then dfail limit_exceeded "more than 31 static virtual channels" count_offset
  else
    let* ids := dtimes (Z.to_nat count) ReaderOps.u16le in
    dret (mkServerNetwork io_id (channel_ids old ++ ids)).

(** The [switch] of [decode_server_data]. *)
Definition server_block (start type : Z) (block : Reader.t) (st : ServerBlocks) : Dec ServerBlocks :=
  let '(mkServerBlocks d hc hs hn) := st in
  if type =? sc_core then
    let* v := within block (decode_server_core (server_core d)) in
    dret (mkServerBlocks (mkServerData v (server_security d) (server_network d) (message_channel_id d)
                                       (multitransport_flags d)) true hs hn)
  else if type =? sc_security then
    let* v := within block decode_server_security in
    dret (mkServerBlocks (mkServerData (server_core d) v (server_network d) (message_channel_id d)
                                       (multitransport_flags d)) hc true hn)
  else if type =? sc_net then
    let* v := within block (decode_server_network (server_network d)) in
    dret (mkServerBlocks (mkServerData (server_core d) (server_security d) v (message_channel_id d)
                                       (multitransport_flags d)) hc hs true)
  else if type =? sc_mcs_msgchannel then
    let* v := within block ReaderOps.u16le in
    dret (mkServerBlocks (mkServerData (server_core d) (server_security d) (server_network d) (Some v)
                                       (multitransport_flags d)) hc hs hn)
  else if type =? sc_multitransport then
    let* v := within block ReaderOps.u32le in
    dret (mkServerBlocks (mkServerData (server_core d) (server_security d) (server_network d) (message_channel_id d)
                                       (Some v)) hc hs hn)
  else dret st.

Definition decode_server_data : Dec ServerData :=
  let* size := dask Reader.remaining in
  let* st := blocks_loop server_block (Z.to_nat size) server_start in
  let* offset := dask Reader.offset in
  if negb (have_core st) || negb (have_security st) || negb (have_network st)
  then dfail invalid_value "server data lacks a core, security or network block" offset
  else dret (data st).

Definition encode_server_data (d : ServerData) : Enc unit :=
  write_block sc_core (
    Writer.u32le (server_version (server_core d)) ;;;
    eassert (bool_decide (is_Some (client_requested_protocols (server_core d))) ||
             negb (bool_decide (is_Some (server_early_capability_flags (server_core d))))) ;;;
    ewhen (client_requested_protocols (server_core d)) Writer.u32le ;;;
    ewhen (server_early_capability_flags (server_core d)) Writer.u32le) ;;;
  write_block sc_security (
    Writer.u32le (encryption_method (server_security d)) ;;;
    Writer.u32le (encryption_level (server_security d))) ;;;
  eassert (len (channel_ids (server_network d)) <=? max_static_channels) ;;;
  write_block sc_net (
    Writer.u16le (io_channel_id (server_network d)) ;;;
    Writer.u16le (wrap 16 (len (channel_ids (server_network d)))) ;;;
    eeach Writer.u16le (channel_ids (server_network d)) ;;;
    (if negb (len (channel_ids (server_network d)) mod 2 =? 0) then Writer.u16le 0 else eret tt)) ;;;
  ewhen (message_channel_id d) (fun id => write_block sc_mcs_msgchannel (Writer.u16le id)) ;;;
  ewhen (multitransport_flags d) (fun flags => write_block sc_multitransport (Writer.u32le flags)).

(** ** Blocks *)

Lemma writes_block t m e : writes m e -> 4 + len e <= 0xFFFF -> writes (write_block t m) (tagged_bytes t e).
Proof.
  intros Hm He w. pose proof (writes_tagged t m e Hm He w) as Hw.
  unfold write_block, begin_block, end_block. unfold tagged in Hw. unfold ebind, eret, Writer.size, eassert in *.
  destruct (Writer.u16le t w) as [[[] w1]|]; [|done]. by destruct (Writer.u16le 0 w1) as [[[] w2]|].
Qed.

Section Loop.
Context {St : Type} (handle : Z -> Z -> Reader.t -> St -> Dec St).

(** From [st], the loop takes all of [e] and ends in [st']. *)
Definition loop_reads (st : St) (e : list byte) (st' : St) : Prop :=
  forall fuel s b, (length e <= fuel)%nat ->
  blocks_loop handle fuel st (Reader.mk s e b) = Ok (st', Reader.mk (s ++ e) [] b).

Lemma loop_reads_nil st : loop_reads st [] st.
Proof.
  intros [|fuel] s b _; cbn [blocks_loop]; [by rewrite app_nil_r|].
  rewrite dbind_ask, empty_mk, bool_decide_true by done. unfold dret. by rewrite app_nil_r.
Qed.

Lemma loop_reads_block st st1 st2 t e e2 :
  u16_ok t = true -> 4 + len e <= 0xFFFF ->
  (forall start b r, handle start t (Reader.make e b) st r = Ok (st1, r)) ->
  loop_reads st1 e2 st2 -> loop_reads st (tagged_bytes t e ++ e2) st2.
Proof.
  intros Ht He Hh Hl [|fuel] s b Hf.
  { pose proof (len_tagged t e) as H. rewrite length_app in Hf. unfold len in H. lia. }
  pose proof (len_nonneg e). widths. cbn [blocks_loop]. rewrite dbind_ask, empty_mk, bool_decide_false.
  2: { intros E. apply (f_equal len) in E. rewrite len_app, len_tagged in E. len_lia. }
  rewrite dbind_ask. generalize (Reader.offset (Reader.mk s (tagged_bytes t e ++ e2) b)). intros start.
  unfold tagged_bytes at 1. rewrite <- !app_assoc.
  rewrite (dbind_reads _ _ _ _ t) by (by apply reads_u16le; lia).
  rewrite (dbind_reads _ _ _ _ (4 + len e)) by (by apply reads_u16le; lia).
  unfold block_header_size. destruct (Z.ltb_spec (4 + len e) 4); [lia|]. unfold dbind at 1.
  destruct (reads_sub (4 + len e - 4) e e2 ltac:(lia) ((s ++ Writer.le_bytes 2 t) ++ Writer.le_bytes 2 (4 + len e)) b)
    as (v & -> & [b0 ->]).
  unfold dbind at 1. rewrite Hh, Hl.
  - do 2 f_equal. unfold tagged_bytes. by rewrite <- !app_assoc.
  - rewrite length_app in Hf. pose proof (len_tagged t e) as Hlt. unfold len in Hlt. lia.
Qed.

(** A part of an encoder whose octets take the loop from one state to the next. *)
Definition part (m : Enc unit) (st st' : St) (n : Z) : Prop :=
  exists e, writes m e /\ len e <= n /\ forall e2 st2, loop_reads st' e2 st2 -> loop_reads st (e ++ e2) st2.

Lemma part_seq m1 m2 st st1 st2 n1 n2 :
  part m1 st st1 n1 -> part m2 st1 st2 n2 -> part (m1 ;;; m2) st st2 (n1 + n2).
Proof.
  intros (e1 & W1 & L1 & P1) (e2 & W2 & L2 & P2). exists (e1 ++ e2). split_and!.
  - by apply writes_seq.
  - len_lia.
  - intros e3 st3 H. rewrite <- app_assoc. by apply P1, P2.
Qed.

Lemma part_block {A} t m (p : Dec A) v n st st1 :
  u16_ok t = true -> 4 + n <= 0xFFFF -> holds m p v n ->
  (forall start block r, within block p r = Ok (v, r) -> handle start t block st r = Ok (st1, r)) ->
  part (write_block t m) st st1 (4 + n).
Proof.
  intros Ht Hn (e & W & L & D) Hh. exists (tagged_bytes t e). split_and!.
  - apply writes_block; [done|lia].
  - rewrite len_tagged. lia.
  - intros e2 st2. apply loop_reads_block; [done|lia|]. intros start b r. apply Hh.
    destruct r as [s k b']. destruct (reads_within_decodes p e b k v D s b') as (a & Ha & <-).
    by rewrite app_nil_r in Ha.
Qed.

Lemma part_when {A} (o : option A) (f : A -> Enc unit) (st : option A -> St) n :
  0 <= n -> (forall v, o = Some v -> part (f v) (st None) (st (Some v)) n) -> part (ewhen o f) (st None) (st o) n.
Proof.
  intros Hn H. destruct o as [v|]; [by apply H|]. exists []. split_and!; [apply writes_ret|done|done].
Qed.

Lemma part_assert c m st st1 n : c = true -> part m st st1 n -> part (eassert c ;;; m) st st1 n.
Proof. intros -> (e & W & L & P). exists e. split_and!; [by apply writes_assert|done|done]. Qed.

Lemma part_le m st st1 n n' : part m st st1 n -> n <= n' -> part m st st1 n'.
Proof. intros (e & W & L & P) ?. exists e. split_and!; [done|lia|done]. Qed.

(** A whole encoder. *)
Lemma part_run m st st1 n :
  part m st st1 n ->
  exists e, writes m e /\ len e <= n /\
    forall s b, blocks_loop handle (Z.to_nat (Reader.remaining (Reader.mk s e b))) st (Reader.mk s e b)
                = Ok (st1, Reader.mk (s ++ e) [] b).
Proof.
  intros (e & W & L & P). exists e. split_and!; [done|done|]. intros s b.
  rewrite remaining_mk. specialize (P [] st1 (loop_reads_nil st1)). rewrite app_nil_r in P. apply P. unfold len. lia.
Qed.

(** Every iteration takes octets, so more fuel than octets changes nothing. *)
Lemma blocks_loop_fuel fuel extra st r :
  (forall start t block st0 r0 st1 r1, handle start t block st0 r0 = Ok (st1, r1) -> r1 = r0) ->
  Reader.remaining r <= Z.of_nat fuel ->
  blocks_loop handle (fuel + extra) st r = blocks_loop handle fuel st r.
Proof.
  intros Hh. revert st r. induction fuel as [|fuel IH]; intros st r Hf.
  - destruct extra as [|extra]; [done|]. cbn [blocks_loop Nat.add]. rewrite dbind_ask.
    destruct r as [s e b]. rewrite remaining_mk in Hf. rewrite empty_mk.
    rewrite bool_decide_true; [done|]. apply len_0. pose proof (len_nonneg e). lia.
  - cbn [blocks_loop Nat.add]. rewrite !dbind_ask. destruct (Reader.empty r); [done|].
    rewrite !dbind_ask. unfold dbind.
    destruct (ReaderOps.u16le r) as [[t r1]|] eqn:E1; [|done].
    destruct (ReaderOps.u16le r1) as [[l r2]|] eqn:E2; [|done].
    destruct (Z.ltb_spec l block_header_size); [done|].
    destruct (ReaderOps.sub (l - block_header_size) r2) as [[blk r3]|] eqn:E3; [|done].
    destruct (handle (Reader.offset r) t blk st r3) as [[st1 r4]|] eqn:E4; [|done].
    apply Hh in E4 as ->. apply IH.
    apply read_le_inv in E1 as (w1 & L1 & _ & _ & T1). apply read_le_inv in E2 as (w2 & L2 & _ & _ & T2).
    unfold ReaderOps.sub in E3. rewrite dbind_ask in E3. apply dbind_inv in E3 as (v & r5 & E3 & [= _ <-]).
    apply bytes_inv in E3 as (_ & T3); [|lia]. apply took_remaining in T1, T2, T3.
    pose proof (len_nonneg v). unfold len in T1, T2. lia.
Qed.

End Loop.

(** ** The optional fields of the core block *)

Definition present {A} (o : option A) : bool := match o with Some _ => true | None => false end.

(** No optional field after an absent one. *)
Fixpoint prefix_ok (fields : list bool) : bool :=
  match fields with
  | [] => true
  | true :: fields' => prefix_ok fields'
  | false :: fields' => forallb negb fields'
  end.

Definition core_fields (c : ClientCoreData) : list bool :=
  [present (post_beta2_color_depth c); present (client_product_id c); present (serial_number c);
   present (high_color_depth c); present (supported_color_depths c); present (early_capability_flags c);
   present (client_dig_product_id c); present (connection_type c); present (server_selected_protocol c);
   present (desktop_physical_width c); present (desktop_physical_height c); present (desktop_orientation c);
   present (desktop_scale_factor c); present (device_scale_factor c)].

Definition core_typed (c : ClientCoreData) : bool :=
  u32_ok (version c) && u16_ok (desktop_width c) && u16_ok (desktop_height c) && u16_ok (color_depth c) &&
  u16_ok (sas_sequence c) && u32_ok (keyboard_layout c) && u32_ok (client_build c) && u32_ok (keyboard_type c) &&
  u32_ok (keyboard_subtype c) && u32_ok (keyboard_function_keys c) && opt_ok u16_ok (post_beta2_color_depth c) &&
  opt_ok u16_ok (client_product_id c) && opt_ok u32_ok (serial_number c) && opt_ok u16_ok (high_color_depth c) &&
  opt_ok u16_ok (supported_color_depths c) && opt_ok u16_ok (early_capability_flags c) &&
  opt_ok u8_ok (connection_type c) && opt_ok u32_ok (server_selected_protocol c) &&
  opt_ok u32_ok (desktop_physical_width c) && opt_ok u32_ok (desktop_physical_height c) &&
  opt_ok u16_ok (desktop_orientation c) && opt_ok u32_ok (desktop_scale_factor c) &&
  opt_ok u32_ok (device_scale_factor c) && prefix_ok (core_fields c).

(** The texts fit their fields. *)
Definition core_ok (c : ClientCoreData) : bool :=
  core_typed c && text_ok 30 (client_name c) && text_ok 62 (ime_file_name c) &&
  opt_ok (text_ok 62) (client_dig_product_id c).

(** One optional field, while the encoder has not stopped. *)
Lemma chain_some {A B} (f : A -> Enc unit) (p : Dec A) v n (m : bool -> Enc unit) (q : option A -> bool -> Dec B) r n' :
  encodes (f v) p v n -> (exists x, p (Reader.make [] 0) = Err x) -> encodes_end (m false) (q (Some v) true) r (n' - n) ->
  encodes_end (let! stop := write_optional false (Some v) f in m stop)
              (let* (x, more) := read_if true p in q x more) r n'.
Proof.
  intros (e & W & L & R) [x Hx] (e' & W' & L' & R'). exists (e ++ e'). split_and!; [|len_lia|].
  - intros w. unfold write_optional, ebind, eret. rewrite W, W', app_assoc. done.
  - cbn [read_if]. apply (reads_bind _ _ _ _ _ (eq (Some v, true))); [|intros ? <-; exact R'].
    apply reads_unless_empty; [intros ->|by eapply reads_bind_nil; [apply R|intros ? <-; by apply reads_ret]].
    destruct (R [] [] 0) as (a & Ha & _). unfold Reader.make in Hx. cbn [app] in Ha. by rewrite Hx in Ha.
Qed.

(** The first absent field ends the structure. *)
Lemma chain_none {A B} (f : A -> Enc unit) (p : Dec A) (m : bool -> Enc unit) (q : option A -> bool -> Dec B) r n :
  0 <= n -> writes (m true) [] -> (forall s b, q None false (Reader.mk s [] b) = Ok (r, Reader.mk s [] b)) ->
  encodes_end (let! stop := write_optional false None f in m stop)
              (let* (x, more) := read_if true p in q x more) r n.
Proof.
  intros Hn W R. exists []. split_and!; [exact W|by cbn|]. intros s b. exists r. split; [|done].
  rewrite !app_nil_r. unfold read_if, read_optional. rewrite dbind_assoc, dbind_ask, empty_mk, bool_decide_true by done.
  exact (R s b).
Qed.

Lemma chain_pad {B} v (m : bool -> Enc unit) (q : option Z -> bool -> Dec B) r n' :
  u8_ok v = true -> encodes_end (m false) (q (Some v) true) r (n' - 2) ->
  encodes_end (let! stop := write_optional false (Some v) (fun t => Writer.u8 t ;;; Writer.u8 0) in m stop)
              (let* (x, more) := read_if true ReaderOps.u8 in let* _ := read_pad more in q x more) r n'.
Proof.
  intros Hv (e & W & L & R). widths. exists ([byte_of v] ++ [byte_of 0] ++ e). split_and!; [|len_lia|].
  - intros w. unfold write_optional, ebind, eret, Writer.u8, Writer.bytes. by rewrite W, <- !app_assoc.
  - cbn [read_if]. apply (reads_bind _ _ _ _ _ (eq (Some v, true))).
    { apply reads_unless_empty; [done|]. eapply reads_bind_nil; [by apply reads_u8|]. intros ? <-. by apply reads_ret. }
    intros ? <-. cbn beta iota. apply (reads_bind _ _ _ _ _ (fun _ => True)); [|intros ? _; exact R].
    apply reads_unless_empty; [done|]. by apply reads_skip.
Qed.

Ltac absent := cbn [prefix_ok present forallb] in *; bools;
  repeat match goal with o : option _ |- _ => destruct o; [done|] end.
Ltac stop_here := eapply chain_none; [done|intros ?; by rewrite app_nil_r|done].
Ltac chain o := destruct o as [?|];
  [first [apply chain_pad; [done|] | eapply chain_some; [field|by eexists|]]; cbn beta|absent; stop_here].

Lemma read_fixed_utf16_codec t :
  text_ok 62 t = true -> encodes (write_fixed_utf16 t dig_product_id_size) (read_fixed_utf16 dig_product_id_size) t 64.
Proof.
  intros H. eapply encodes_last; [by apply (encodes_fixed_utf16 t 64)|]. intros k. apply reads_ret.
  symmetry. by apply (utf16_fixed t 64).
Qed.
#[local] Hint Resolve read_fixed_utf16_codec : codec.

Definition core_size : Z := 230.

Lemma encodes_core c : core_ok c = true -> encodes_end (encode_core c) decode_core c core_size.
Proof.
  destruct c as [c1 c2 c3 c4 c5 c6 c7 nm c8 c9 c10 ime o1 o2 o3 o4 o5 o6 o7 o8 o9 o10 o11 o12 o13 o14].
  unfold core_ok, core_typed, core_fields. cbn [version desktop_width desktop_height color_depth sas_sequence
    keyboard_layout client_build client_name keyboard_type keyboard_subtype keyboard_function_keys ime_file_name
    post_beta2_color_depth client_product_id serial_number high_color_depth supported_color_depths
    early_capability_flags client_dig_product_id connection_type server_selected_protocol desktop_physical_width
    desktop_physical_height desktop_orientation desktop_scale_factor device_scale_factor].
  intros H. bools. eapply encodes_end_le.
  - unfold encode_core, decode_core. cbn [version desktop_width desktop_height color_depth sas_sequence
    keyboard_layout client_build client_name keyboard_type keyboard_subtype keyboard_function_keys ime_file_name
    post_beta2_color_depth client_product_id serial_number high_color_depth supported_color_depths
    early_capability_flags client_dig_product_id connection_type server_selected_protocol desktop_physical_width
    desktop_physical_height desktop_orientation desktop_scale_factor device_scale_factor].
    fields. rewrite !utf16_fixed by done. unfold opt16, opt32.
    lazymatch goal with |- encodes_end _ _ _ ?n => unify n 102 end.
    change (read_optional ReaderOps.u16le) with (read_if true ReaderOps.u16le).
    chain o1. chain o2. chain o3. chain o4. chain o5. chain o6. chain o7. chain o8. chain o9. chain o10.
    chain o11. chain o12. chain o13. chain o14. eapply encodes_end_le; [apply encodes_encodes_end, encodes_ret|done].
  - done.
Qed.

(** ** The other client blocks, each by itself *)

Definition channel_ok (c : ChannelDef) : bool := no_zero (name c) && (len (name c) <? 8) && u32_ok (options c).
Definition monitor_ok (m : MonitorDef) : bool :=
  i32_ok (left m) && i32_ok (top m) && i32_ok (right m) && i32_ok (bottom m) && u32_ok (monitor_flags m).
Definition attributes_ok (m : MonitorAttributes) : bool :=
  u32_ok (physical_width m) && u32_ok (physical_height m) && u32_ok (orientation m) &&
  u32_ok (attr_desktop_scale_factor m) && u32_ok (attr_device_scale_factor m).

Lemma encodes_channel_def c : channel_ok c = true -> encodes (write_channel_def c) read_channel_def c 12.
Proof.
  destruct c as [nm o]. unfold channel_ok. cbn [name options]. intros H. bools. widths. pose proof (len_nonneg nm).
  unfold write_channel_def, channel_name_size. cbn [name options]. apply encodes_assert; [lia|].
  exists ((nm ++ replicate (Z.to_nat (8 - len nm)) Corelib.Init.Byte.x00) ++ Writer.le_bytes 4 o). split_and!.
  - rewrite <- app_assoc. repeat wstep.
  - len_lia.
  - intros k. unfold read_channel_def, channel_name_size. rstep. rstep. apply reads_ret. f_equal.
    unfold ascii_name. replace (Z.to_nat (8 - len nm)) with (S (Z.to_nat (7 - len nm))) by lia.
    symmetry. by apply until_zero_padded.
Qed.

Lemma encodes_monitor_def m : monitor_ok m = true -> encodes (write_monitor_def m) read_monitor_def m 20.
Proof.
  destruct m as [l t r b f]. unfold monitor_ok. cbn [left top right bottom monitor_flags]. intros H. bools.
  unfold write_monitor_def, read_monitor_def, read_i32. cbn [left top right bottom monitor_flags].
  eapply encodes_le; [do 4 (eapply encodes_seq; [by apply encodes_i32|cbn beta]); lastfield; done|done].
Qed.

Lemma encodes_attributes m : attributes_ok m = true -> encodes (write_attributes m) read_attributes m 20.
Proof.
  destruct m as [a b c d e]. unfold attributes_ok.
  cbn [physical_width physical_height orientation attr_desktop_scale_factor attr_device_scale_factor]. intros H. bools.
  unfold write_attributes, read_attributes.
  cbn [physical_width physical_height orientation attr_desktop_scale_factor attr_device_scale_factor].
  eapply encodes_le; [fields; lastfield; done|done].
Qed.

(** A counted list of at most [max] items of [n] octets. *)
Lemma encodes_counted {A B} (f : A -> bool) (m : A -> Enc unit) (p : Dec A) (g : list A -> B) l n max (e : Z -> Dec B) :
  (forall x, f x = true -> encodes (m x) p x n) -> forallb f l = true -> len l <= max -> max < 65536 -> 0 <= n ->
  encodes (Writer.u32le (wrap 32 (len l)) ;;; eeach m l)
          (let* count := ReaderOps.u32le in
           if max <? count then e count else let* xs := dtimes (Z.to_nat count) p in dret (g xs)) (g l) (4 + n * max).
Proof.
  intros Hf Hl Hm Hb Hn. pose proof (len_nonneg l). rewrite wrap_small by lia.
  apply encodes_le with (4 + n * len l); [|nia].
  eapply encodes_seq; [apply encodes_u32le; lia|]. off.
  eapply encodes_last; [apply (encodes_times m p l n); [unfold len; lia|]|intros k; by apply reads_ret].
  apply List.Forall_forall. intros x Hx. apply Hf. rewrite forallb_forall in Hl. by apply Hl.
Qed.

Definition network_ok (n : ClientNetworkData) : bool :=
  (len (channels n) <=? max_static_channels) && forallb channel_ok (channels n).
Definition monitors_ok (m : ClientMonitorData) : bool :=
  u32_ok (md_flags m) && (len (monitors m) <=? max_monitors) && forallb monitor_ok (monitors m).
Definition monitor_ex_ok (m : ClientMonitorExtendedData) : bool :=
  u32_ok (mx_flags m) && (len (mx_monitors m) <=? max_monitors) && forallb attributes_ok (mx_monitors m).

Lemma encodes_network n : network_ok n = true ->
  encodes (Writer.u32le (wrap 32 (len (channels n))) ;;; eeach write_channel_def (channels n)) decode_network n 376.
Proof.
  destruct n as [l]. unfold network_ok, max_static_channels. cbn [channels]. intros H. bools.
  apply encodes_query. intros start. unfold max_static_channels.
  eapply encodes_le; [eapply (encodes_counted channel_ok _ _ mkClientNetwork l 12 31); try done; try lia|done].
  apply encodes_channel_def.
Qed.

Lemma encodes_monitor m : monitors_ok m = true ->
  encodes (Writer.u32le (md_flags m) ;;; Writer.u32le (wrap 32 (len (monitors m))) ;;; eeach write_monitor_def (monitors m))
          decode_monitor m 328.
Proof.
  destruct m as [f l]. unfold monitors_ok, max_monitors. cbn [md_flags monitors]. intros H. bools.
  eapply encodes_le; [eapply encodes_seq; [field|]|].
  - apply encodes_query. intros start. unfold max_monitors.
    eapply (encodes_counted monitor_ok _ _ (mkMonitorData f) l 20 16); try done; try lia. apply encodes_monitor_def.
  - done.
Qed.

Lemma encodes_monitor_ex m : monitor_ex_ok m = true ->
  encodes (Writer.u32le (mx_flags m) ;;; Writer.u32le monitor_attribute_size ;;;
           Writer.u32le (wrap 32 (len (mx_monitors m))) ;;; eeach write_attributes (mx_monitors m)) decode_monitor_ex m 332.
Proof.
  destruct m as [f l]. unfold monitor_ex_ok, max_monitors. cbn [mx_flags mx_monitors]. intros H. bools.
  eapply encodes_le; [eapply encodes_seq; [field|]|].
  - apply encodes_query. intros start. eapply encodes_seq; [apply encodes_u32le; done|]. off.
    apply encodes_query. intros start2. unfold max_monitors.
    eapply (encodes_counted attributes_ok _ _ (mkMonitorEx f) l 20 16); try done; try lia. apply encodes_attributes.
  - done.
Qed.

(** ** The client data *)

Definition client_ok (d : ClientData) : bool :=
  core_ok (core d) &&
  opt_ok (fun s => u32_ok (encryption_methods s) && u32_ok (ext_encryption_methods s)) (security d) &&
  opt_ok network_ok (network d) &&
  opt_ok (fun c => u32_ok (cluster_flags c) && u32_ok (redirected_session_id c)) (cluster d) &&
  opt_ok monitors_ok (monitor d) &&
  opt_ok (fun m => u32_ok (mc_flags m)) (message_channel d) &&
  opt_ok monitor_ex_ok (monitor_ex d) &&
  opt_ok (fun m => u32_ok (mt_flags m)) (multitransport d).

Lemma holds_two (f g : Z) {A} (mk : Z -> Z -> A) :
  u32_ok f = true -> u32_ok g = true ->
  holds (Writer.u32le f ;;; Writer.u32le g)
        (let* a := ReaderOps.u32le in let* b := ReaderOps.u32le in dret (mk a b)) (mk f g) 8.
Proof. intros. apply holds_of_encodes. eapply encodes_le; [fields; lastfield; done|done]. Qed.

Lemma holds_flags (f : Z) {A} (mk : Z -> A) :
  u32_ok f = true -> holds (Writer.u32le f) (let* a := ReaderOps.u32le in dret (mk a)) (mk f) 4.
Proof. intros. apply holds_of_encodes. eapply encodes_le; [lastfield; done|done]. Qed.

(** The steps of a part: a block whose body holds, stored in an empty slot. *)
Ltac stored :=
  let start := fresh in let block := fresh in let r := fresh in let H := fresh in
  intros start block r H; 
  unfold client_block, server_block, store_once, dbind; cbn -[within]; by rewrite H.

Definition client_size : Z := 1322.

Lemma client_parts d : client_ok d = true ->
  part client_block (encode_client_data d) client_start (d, true) client_size.
Proof.
  destruct d as [co se ne cl mo me mx mt]. unfold client_ok.
  cbn [core security network cluster monitor message_channel monitor_ex multitransport]. intros H. bools.
  unfold encode_client_data. cbn [core security network cluster monitor message_channel monitor_ex multitransport].
  eapply part_le.
  - eapply part_seq; [eapply (part_block _ _ _ decode_core co core_size _
      (mkClientData co None None None None None None None, true)); [done..|by apply holds_end, encodes_core|stored]|].
    eapply part_seq; [apply (part_when _ cl _ (fun cl => (mkClientData co None None cl None None None None, true)) 12); [done|]|].
    { intros [a b] ->. cbn [opt_ok] in *. bools. eapply (part_block _ _ _ decode_cluster _ 8); [done..|by apply holds_two|stored]. }
    eapply part_seq; [apply (part_when _ se _ (fun se => (mkClientData co se None cl None None None None, true)) 12); [done|]|].
    { intros [a b] ->. cbn [opt_ok] in *. bools. eapply (part_block _ _ _ decode_security _ 8); [done..|by apply holds_two|stored]. }
    eapply part_seq; [apply (part_when _ ne _ (fun ne => (mkClientData co se ne cl None None None None, true)) 380); [done|]|].
    { intros n ->. cbn [opt_ok] in *. apply part_assert; [unfold network_ok in *; bools; lia|].
      eapply (part_block _ _ _ decode_network _ 376); [done..|by apply holds_of_encodes, encodes_network|stored]. }
    eapply part_seq; [apply (part_when _ mo _ (fun mo => (mkClientData co se ne cl mo None None None, true)) 332); [done|]|].
    { intros m ->. cbn [opt_ok] in *. apply part_assert; [unfold monitors_ok in *; bools; lia|].
      eapply (part_block _ _ _ decode_monitor _ 328); [done..|by apply holds_of_encodes, encodes_monitor|stored]. }
    eapply part_seq; [apply (part_when _ me _ (fun me => (mkClientData co se ne cl mo me None None, true)) 8); [done|]|].
    { intros [a] ->. cbn [opt_ok] in *. eapply (part_block _ _ _ decode_message_channel _ 4); [done..|by apply holds_flags|stored]. }
    eapply part_seq; [apply (part_when _ mx _ (fun mx => (mkClientData co se ne cl mo me mx None, true)) 336); [done|]|].
    { intros m ->. cbn [opt_ok] in *. apply part_assert; [unfold monitor_ex_ok in *; bools; lia|].
      eapply (part_block _ _ _ decode_monitor_ex _ 332); [done..|by apply holds_of_encodes, encodes_monitor_ex|stored]. }
    apply (part_when _ mt _ (fun mt => (mkClientData co se ne cl mo me mx mt, true)) 8); [done|].
    intros [a] ->. cbn [opt_ok] in *. eapply (part_block _ _ _ decode_multitransport _ 4); [done..|by apply holds_flags|stored].
  - done.
Qed.

(** ** The server data *)

Definition server_core_ok (c : ServerCoreData) : bool :=
  u32_ok (server_version c) && opt_ok u32_ok (client_requested_protocols c) &&
  opt_ok u32_ok (server_early_capability_flags c) &&
  (present (client_requested_protocols c) || negb (present (server_early_capability_flags c))).

Definition server_network_ok (n : ServerNetworkData) : bool :=
  u16_ok (io_channel_id n) && (len (channel_ids n) <=? max_static_channels) && forallb u16_ok (channel_ids n).

Definition server_ok (d : ServerData) : bool :=
  server_core_ok (server_core d) &&
  (u32_ok (encryption_method (server_security d)) && u32_ok (encryption_level (server_security d))) &&
  server_network_ok (server_network d) && opt_ok u16_ok (message_channel_id d) && opt_ok u32_ok (multitransport_flags d).

Lemma holds_server_core c : server_core_ok c = true ->
  holds (Writer.u32le (server_version c) ;;;
         eassert (bool_decide (is_Some (client_requested_protocols c)) ||
                  negb (bool_decide (is_Some (server_early_capability_flags c)))) ;;;
         ewhen (client_requested_protocols c) Writer.u32le ;;;
         ewhen (server_early_capability_flags c) Writer.u32le)
        (decode_server_core (mkServerCore rdp_version_5_plus None None)) c 12.
Proof.
  destruct c as [v p f]. unfold server_core_ok.
  cbn [server_version client_requested_protocols server_early_capability_flags]. intros H. bools.
  apply holds_end. eapply encodes_end_le.
  - unfold decode_server_core. cbn [client_requested_protocols server_early_capability_flags].
    eapply encodes_seq_end; [field|]. apply encodes_end_assert; [by destruct p, f; destruct H0|].
    lazymatch goal with |- encodes_end _ _ _ ?n => unify n 8 end.
    destruct p as [p|]; cbn [opt_ok] in *.
    + pose proof (u32_le _ ltac:(eassumption) : 0 <= p < 4294967296). cbn [ewhen]. apply (encodes_seq_end _ _ _ _ (Some p) _ 4 4).
      { exists (Writer.le_bytes 4 p). split_and!; [apply writes_bytes|len_lia|]. intros k.
        apply reads_unless_empty; [done|]. apply reads_dsome, reads_u32le. lia. }
      eapply encodes_last_end; [by apply encodes_end_opt32|]. intros. by apply reads_ret.
    + destruct f; [by destruct H0|]. exists []. split_and!; [repeat wstep; apply writes_ret|by cbn|].
      eapply reads_bind_nil; [by apply (reads_at_end None _ (eq None))|]. intros ? <-.
      eapply reads_bind_nil; [by apply (reads_at_end None _ (eq None))|]. intros ? <-. by apply reads_ret.
  - done.
Qed.

Lemma holds_server_network n : server_network_ok n = true ->
  holds (Writer.u16le (io_channel_id n) ;;;
         Writer.u16le (wrap 16 (len (channel_ids n))) ;;;
         eeach Writer.u16le (channel_ids n) ;;;
         (if negb (len (channel_ids n) mod 2 =? 0) then Writer.u16le 0 else eret tt))
        (decode_server_network (mkServerNetwork 0 [])) n 68.
Proof.
  destruct n as [i l]. unfold server_network_ok, max_static_channels. cbn [io_channel_id channel_ids]. intros H. bools.
  pose proof (len_nonneg l). rewrite wrap_small by lia. unfold decode_server_network. cbn [channel_ids].
  apply holds_of_padded. apply padded_le with (2 + (2 + (2 * len l + 2))); [|lia].
  set (pad := if negb (len l mod 2 =? 0) then Writer.le_bytes 2 0 else []).
  assert (len pad <= 2) by (unfold pad; destruct (negb _); len_lia).
  exists (Writer.le_bytes 2 i ++ Writer.le_bytes 2 (len l) ++ concat (Writer.le_bytes 2 <$> l)), pad.
  assert (len (concat (Writer.le_bytes 2 <$> l)) = 2 * len l) as Hl.
  { apply len_each, List.Forall_forall. intros x _. len_lia. }
  split_and!.
  - rewrite <- !app_assoc. repeat first [apply writes_each, List.Forall_forall; intros ? _ | wstep].
  - len_lia.
  - intros k. widths. rstep. apply reads_ask. intros s b. rstep. unfold max_static_channels. off.
    eapply reads_bind_nil; [apply (reads_times _ (Writer.le_bytes 2) l); [unfold len; lia|]|].
    + apply List.Forall_forall. intros x Hx k'. apply reads_u16le, u16_le.
      match goal with Hf : forallb _ l = true |- _ => rewrite forallb_forall in Hf; by apply Hf in Hx end.
    + intros ? <-. by apply reads_ret.
Qed.

Definition server_size : Z := 114.

Lemma server_parts d : server_ok d = true ->
  part server_block (encode_server_data d) server_start (mkServerBlocks d true true true) server_size.
Proof.
  destruct d as [co [m l] ne mc mt]. unfold server_ok.
  cbn [server_core server_security server_network message_channel_id multitransport_flags encryption_method
    encryption_level]. intros H. bools.
  unfold encode_server_data. cbn [server_core server_security server_network message_channel_id multitransport_flags
    encryption_method encryption_level].
  set (blocks c s n mc mt := mkServerBlocks (mkServerData c s n mc mt)).
  eapply part_le.
  - eapply part_seq; [eapply (part_block _ _ _ (decode_server_core _) co 12 _
      (blocks co (mkServerSecurity 0 0) (mkServerNetwork 0 []) None None true false false));
      [done..|by apply holds_server_core|stored]|].
    eapply part_seq; [eapply (part_block _ _ _ decode_server_security (mkServerSecurity m l) 8 _
      (blocks co (mkServerSecurity m l) (mkServerNetwork 0 []) None None true true false));
      [done..|by apply holds_two|stored]|].
    apply part_assert; [unfold server_network_ok in *; bools; lia|].
    eapply part_seq; [eapply (part_block _ _ _ (decode_server_network _) ne 68 _
      (blocks co (mkServerSecurity m l) ne None None true true true));
      [done..|by apply holds_server_network|stored]|].
    eapply part_seq; [apply (part_when _ mc _
      (fun mc => blocks co (mkServerSecurity m l) ne mc None true true true) 6); [done|]|].
    { intros v ->. cbn [opt_ok] in *. eapply (part_block _ _ _ ReaderOps.u16le _ 2);
        [done..|apply holds_of_encodes; field|stored]. }
    apply (part_when _ mt _ (fun mt => blocks co (mkServerSecurity m l) ne mc mt true true true) 8); [done|].
    intros v ->. cbn [opt_ok] in *. eapply (part_block _ _ _ ReaderOps.u32le _ 4);
      [done..|apply holds_of_encodes; field|stored].
  - done.
Qed.

(** ** The conference wrappers *)

Lemma t124_oid_ok : Per.oid_ok Per.t124_02_98_oid.
Proof. exists 0, 0, [20; 124; 0; 1]. split_and!; try done; try lia. repeat constructor; lia. Qed.

Lemma encodes_connect_data pdu n p (v : list byte) :
  writes pdu n -> len n <= Per.max_length -> (forall k, reads p n k (eq v)) ->
  encodes (let! bytes := elocal pdu in write_connect_data bytes) (let* _ := read_connect_data in p) v (10 + len n).
Proof.
  intros W L R. destruct (Per.per_encodes_object_identifier _ t124_oid_ok) as (o & Wo & Lo & Ro).
  destruct (Per.per_encodes_length (len n)) as (l & Wl & Ll & Rl); [pose proof (len_nonneg n); lia|].
  exists ([byte_of 0] ++ o ++ l ++ n). split_and!.
  - eapply (writes_local _ _ n); [by apply writes_run|]. unfold write_connect_data.
    apply writes_seq; [apply writes_bytes|]. apply writes_seq; [done|]. apply writes_seq; [done|apply writes_bytes].
  - len_lia.
  - intros k. replace ([byte_of 0] ++ o ++ l ++ n) with (([byte_of 0] ++ o ++ l) ++ n) by (by rewrite <- !app_assoc).
    eapply (reads_bind _ _ _ _ _ (fun _ => True)); [|intros _ _; apply R].
    unfold read_connect_data. apply reads_ask. intros s b. unfold Per.read_choice.
    eapply reads_bind; [by apply (reads_u8 0)|]. intros ? <-. eapply reads_bind; [apply Ro|]. intros ? <-. off.
    eapply reads_bind_nil; [apply Rl|]. intros ? _. by apply reads_ret.
Qed.

Lemma encodes_key key : len key = 4 -> encodes (Per.write_octet_string key h221_key_size) (expect_key key) tt 6.
Proof.
  intros Hl. apply encodes_query. intros start. unfold h221_key_size.
  eapply encodes_le; [eapply encodes_last; [apply Per.per_encodes_octet_string; unfold Per.max_length; lia|]|lia].
  intros k. rewrite bool_decide_true by done. by apply reads_ret.
Qed.

(** The user data at the end of both PDUs. *)
Lemma encodes_user_data (bytes : list byte) : len bytes <= Per.max_length ->
  encodes (Per.write_length (len bytes) ;;; Writer.bytes bytes)
          (let* n := Per.read_length in ReaderOps.bytes n) bytes (2 + len bytes).
Proof.
  intros H. pose proof (len_nonneg bytes). eapply encodes_seq; [apply Per.per_encodes_length; lia|].
  by apply encodes_bytes.
Qed.

Lemma encodes_request bytes : len bytes + 16 <= Per.max_length ->
  encodes (encode_conference_create_request bytes) decode_conference_create_request bytes (26 + len bytes).
Proof.
  intros Hl. destruct (encodes_key h221_client_key eq_refl) as (ek & Wk & Lk & Rk).
  destruct (encodes_user_data bytes ltac:(lia)) as (e & W & L & R).
  destruct (Per.per_encodes_length 0 ltac:(done)) as (e0 & W0 & _ & R0).
  eapply encodes_le; [apply (encodes_connect_data _ ([byte_of 0] ++ [byte_of 8] ++ ([byte_of 0] ++ [byte_of 16]) ++
    [byte_of 0] ++ [byte_of 1] ++ [byte_of 0xC0] ++ ek ++ e))|].
  - do 2 (apply writes_seq; [apply writes_bytes|]). apply writes_seq.
    { intros w. rewrite app_assoc. reflexivity. }
    do 3 (apply writes_seq; [apply writes_bytes|]). by apply writes_seq.
  - len_lia.
  - intros k. apply reads_ask. intros s b. unfold Per.read_choice, Per.read_selection.
    eapply reads_bind; [by apply (reads_u8 0)|]. intros ? <-. eapply reads_bind; [by apply (reads_u8 8)|]. intros ? <-. off.
    eapply (reads_bind _ _ _ _ _ (fun _ => True)); [|intros ? _].
    { unfold Per.read_numeric_string. eapply reads_bind.
      - rewrite <- (writes_det _ _ [byte_of 0] W0 ltac:(by intros w)). apply R0.
      - intros ? <-. eapply reads_weaken; [by apply reads_bytes|done]. }
    eapply reads_bind; [by apply reads_skip|]. intros ? _. apply reads_ask. intros s0 b0. unfold Per.read_number_of_sets.
    eapply reads_bind; [by apply (reads_u8 1)|]. intros ? <-. eapply reads_bind; [by apply (reads_u8 0xC0)|]. intros ? <-. off.
    eapply reads_bind; [apply Rk|]. intros ? _. apply R.
  - len_lia.
Qed.

Lemma encodes_response bytes : len bytes + 20 <= Per.max_length ->
  encodes (encode_conference_create_response bytes) decode_conference_create_response bytes (30 + len bytes).
Proof.
  intros Hl. destruct (encodes_key h221_server_key eq_refl) as (ek & Wk & Lk & Rk).
  destruct (encodes_user_data bytes ltac:(lia)) as (e & W & L & R).
  destruct (Per.per_encodes_integer16 response_node_id node_id_min) as (en & Wn & Ln & Rn); [done|done|].
  destruct (Per.per_encodes_integer 1) as (ei & Wi & Li & Ri); [done|].
  destruct (Per.per_encodes_enumerated 0 gcc_result_alternatives) as (er & Wr & Lr & Rr); [done|done|].
  eapply encodes_le; [apply (encodes_connect_data _ ([byte_of 0x14] ++ en ++ ei ++ er ++
    [byte_of 1] ++ [byte_of 0xC0] ++ ek ++ e))|].
  - apply writes_seq; [apply writes_bytes|]. do 3 (apply writes_seq; [done|]).
    do 2 (apply writes_seq; [apply writes_bytes|]). by apply writes_seq.
  - len_lia.
  - intros k. apply reads_ask. intros s b. unfold Per.read_choice.
    eapply reads_bind; [by apply (reads_u8 0x14)|]. intros ? <-. off.
    eapply reads_bind; [apply Rn|]. intros ? _. eapply reads_bind; [apply Ri|]. intros ? _. apply reads_ask. intros s0 b0.
    eapply reads_bind; [apply Rr|]. intros ? <-. off. unfold Per.read_number_of_sets.
    eapply reads_bind; [by apply (reads_u8 1)|]. intros ? <-. eapply reads_bind; [by apply (reads_u8 0xC0)|]. intros ? <-. off.
    eapply reads_bind; [apply Rk|]. intros ? _. apply R.
  - len_lia.
Qed.

(** ** What a peer can make the decoder return *)

Lemma read_if_inv {A} more (p : Dec A) r o more' r' :
  read_if more p r = Ok ((o, more'), r') ->
  (o = None /\ more' = false /\ r' = r) \/ (more = true /\ more' = true /\ exists v, o = Some v /\ p r = Ok (v, r')).
Proof.
  destruct more; cbn [read_if].
  - unfold read_optional. rewrite dbind_ask. destruct (Reader.empty r).
    + intros [= <- <- <-]. by left.
    + intros (v & r1 & Hp & [= <- <- <-])%dbind_inv. right. eauto.
  - intros [= <- <- <-]. by left.
Qed.

(** One optional field of a successful run. *)
Ltac orun H :=
  let o := fresh "o" in let m := fresh "m" in let r := fresh "r" in let R := fresh "R" in let v := fresh "v" in
  apply dbind_inv in H as ([o m] & r & R & H); cbv beta iota in H;
  apply read_if_inv in R as [(-> & -> & ->)|(? & -> & v & -> & R)];
  [|first [discriminate|idtac];
    first [apply u8_width in R | apply u16_width in R | apply u32_width in R | clear R]].

Lemma decode_core_typed r c r' : decode_core r = Ok (c, r') -> core_typed c = true.
Proof.
  unfold decode_core. intros H. do 12 run1 H.
  change (read_optional ReaderOps.u16le) with (read_if true ReaderOps.u16le) in H.
  repeat lazymatch type of H with
  | dbind (read_pad _) _ _ = _ => apply dbind_inv in H as ([] & ? & _ & H); cbv beta iota in H
  | dbind (read_if _ _) _ _ = _ => orun H
  end.
  all: injection H as <- _; unfold core_typed, core_fields; cbn; known.
Qed.

(** A name of the wire: up to the first NUL of eight octets. *)
Definition wire_channel_ok (c : ChannelDef) : bool :=
  no_zero (name c) && (len (name c) <=? 8) && u32_ok (options c).

Definition client_typed (d : ClientData) : bool :=
  core_typed (core d) &&
  opt_ok (fun s => u32_ok (encryption_methods s) && u32_ok (ext_encryption_methods s)) (security d) &&
  opt_ok (fun n => (len (channels n) <=? max_static_channels) && forallb wire_channel_ok (channels n)) (network d) &&
  opt_ok (fun c => u32_ok (cluster_flags c) && u32_ok (redirected_session_id c)) (cluster d) &&
  opt_ok monitors_ok (monitor d) &&
  opt_ok (fun m => u32_ok (mc_flags m)) (message_channel d) &&
  opt_ok monitor_ex_ok (monitor_ex d) &&
  opt_ok (fun m => u32_ok (mt_flags m)) (multitransport d).

Lemma until_zero_typed bs : no_zero (until_zero bs) = true /\ len (until_zero bs) <= len bs.
Proof.
  induction bs as [|b bs [IH1 IH2]]; [done|]. cbn [until_zero]. destruct (u8_of b =? 0) eqn:E; [split; [done|len_lia]|].
  split; [|len_lia]. unfold no_zero in *. cbn [forallb]. by rewrite E, IH1.
Qed.

Lemma read_channel_def_typed r c r' : read_channel_def r = Ok (c, r') -> wire_channel_ok c = true.
Proof.
  intros H. unfold read_channel_def in H. apply dbind_inv in H as (nm & r1 & R & H).
  apply bytes_inv in R as (Hl & _); [|done]. run H. unfold wire_channel_ok, ascii_name. cbn [name options].
  destruct (until_zero_typed nm) as [-> Hle]. unfold channel_name_size in Hl. rewrite !andb_true_iff. split_and!; [done|lia|done].
Qed.

Lemma read_i32_typed r v r' : read_i32 r = Ok (v, r') -> i32_ok v = true.
Proof. intros H. unfold read_i32 in H. run H. by apply signed32_ok. Qed.

Lemma read_monitor_def_typed r m r' : read_monitor_def r = Ok (m, r') -> monitor_ok m = true.
Proof.
  intros H. unfold read_monitor_def in H. run H.
  apply read_i32_typed in R, R0, R1, R2. unfold monitor_ok. cbn [left top right bottom monitor_flags]. by known.
Qed.

Lemma read_attributes_typed r m r' : read_attributes r = Ok (m, r') -> attributes_ok m = true.
Proof. intros H. unfold read_attributes in H. run H. unfold attributes_ok. cbn. known. Qed.

Lemma dtimes_typed {A} (p : Dec A) (f : A -> bool) n r l r' :
  (forall r x r', p r = Ok (x, r') -> f x = true) -> dtimes (Z.to_nat n) p r = Ok (l, r') -> 0 <= n ->
  len l = n /\ forallb f l = true.
Proof.
  intros Hp H Hn. destruct (dtimes_inv p (fun x => f x = true) _ _ _ _ Hp H) as [Hl HF].
  split; [unfold len; lia|]. apply forallb_forall. by apply List.Forall_forall.
Qed.

Lemma decode_network_typed r n r' : decode_network r = Ok (n, r') ->
  (len (channels n) <=? max_static_channels) && forallb wire_channel_ok (channels n) = true.
Proof.
  intros H. unfold decode_network in H. do 4 run1 H. run H. cbn [channels].
  destruct (dtimes_typed _ wire_channel_ok _ _ _ _ read_channel_def_typed R0) as [Hl ->]; [by widths|].
  bools. rewrite andb_true_r. lia.
Qed.

Lemma decode_monitor_typed r m r' : decode_monitor r = Ok (m, r') -> monitors_ok m = true.
Proof.
  intros H. unfold decode_monitor in H. do 5 run1 H. run H. unfold monitors_ok. cbn [monitors md_flags].
  destruct (dtimes_typed _ monitor_ok _ _ _ _ read_monitor_def_typed R1) as [Hl ->]; [by widths|].
  rewrite R. bools. rewrite andb_true_r. cbn. lia.
Qed.

Lemma decode_monitor_ex_typed r m r' : decode_monitor_ex r = Ok (m, r') -> monitor_ex_ok m = true.
Proof.
  intros H. unfold decode_monitor_ex in H. do 8 run1 H. run H. unfold monitor_ex_ok. cbn [mx_monitors mx_flags].
  destruct (dtimes_typed _ attributes_ok _ _ _ _ read_attributes_typed R2) as [Hl ->]; [by widths|].
  rewrite R. bools. rewrite andb_true_r. cbn. lia.
Qed.

(** What a step keeps, the loop keeps, and it ends at the end of the input. *)
Lemma blocks_loop_keeps {St} (handle : Z -> Z -> Reader.t -> St -> Dec St) (P : St -> Prop) :
  (forall start t block st r st' r', P st -> handle start t block st r = Ok (st', r') -> P st' /\ r' = r) ->
  forall fuel st r st' r', P st -> Reader.remaining r <= Z.of_nat fuel ->
  blocks_loop handle fuel st r = Ok (st', r') -> P st' /\ Reader.rest r' = [].
Proof.
  intros Hh. induction fuel as [|fuel IH]; intros st [s e b] st' r' HP Hf H; rewrite remaining_mk in Hf.
  { injection H as <- <-. split; [done|]. apply len_0. cbn [Reader.rest]. pose proof (len_nonneg e). lia. }
  cbn [blocks_loop] in H. rewrite dbind_ask, empty_mk in H. case_bool_decide as E; [by injection H as <- <-|].
  rewrite dbind_ask in H. do 2 (apply dbind_inv in H as (? & ? & ?%read_le_inv & H)).
  destruct (Z.ltb_spec x1 block_header_size); [done|]. apply dbind_inv in H as (blk & r3 & E3 & H).
  apply dbind_inv in H as (st1 & r4 & E4 & H). destruct (Hh _ _ _ _ _ _ _ HP E4) as [HP1 ->].
  refine (IH _ _ _ _ HP1 _ H). unfold ReaderOps.sub in E3. rewrite dbind_ask in E3.
  apply dbind_inv in E3 as (v & r5 & E3 & [= _ <-]). apply bytes_inv in E3 as (_ & T3); [|lia].
  destruct H0 as (w1 & L1 & _ & _ & T1), H1 as (w2 & L2 & _ & _ & T2).
  apply took_remaining in T1, T2, T3. rewrite remaining_mk in T1. pose proof (len_nonneg v).
  unfold len in *. lia.
Qed.

Lemma store_once_inv {A} (slot : option A) block p off r v r' :
  store_once slot block p off r = Ok (v, r') -> r' = r /\ exists x r1, v = Some x /\ p block = Ok (x, r1).
Proof.
  unfold store_once. intros (x & r1 & (-> & r2 & Hp)%within_inv & H)%dbind_inv.
  destruct slot; [done|]. injection H as <- <-. eauto.
Qed.

Ltac typed :=
  cbn [fst core security network cluster monitor message_channel monitor_ex multitransport opt_ok]; split; [|done];
  rewrite !andb_true_iff in *.

Lemma client_block_typed start t block st r st' r' :
  client_typed (fst st) = true -> client_block start t block st r = Ok (st', r') -> client_typed (fst st') = true /\ r' = r.
Proof.
  destruct st as [d hc]. unfold client_block, client_typed. cbn [fst]. intros Hd H.
  destruct (t =? cs_core).
  { destruct hc; [done|]. apply dbind_inv in H as (v & r1 & (-> & r2 & R)%within_inv & [= <- <-]).
    apply decode_core_typed in R. typed. tauto. }
  repeat match type of H with (if ?c then _ else _) _ = _ => destruct c end; [..|by injection H as <- <-].
  all: apply dbind_inv in H as (v & r1 & (-> & x & r2 & -> & R)%store_once_inv & [= <- <-]); typed.
  - unfold decode_security in R. run R. cbn. tauto.
  - apply decode_network_typed, andb_prop in R. tauto.
  - unfold decode_cluster in R. run R. cbn. tauto.
  - apply decode_monitor_typed in R. tauto.
  - unfold decode_message_channel in R. run R. cbn. tauto.
  - apply decode_monitor_ex_typed in R. tauto.
  - unfold decode_multitransport in R. run R. cbn. tauto.
Qed.

(** ** Properties *)

Lemma client_roundtrip (c : ClientData) (b : Z) : client_ok c = true ->
  exists e w, Writer.run (encode_client_data c) = Some e /\ len e <= client_size /\
     Writer.run (encode_conference_create_request e) = Some w /\
     decode_conference_create_request (Reader.make w b) = Ok (e, Reader.mk w [] b) /\
     decode_client_data (Reader.make e b) = Ok (c, Reader.mk e [] b).
Proof.
  intros Hc. destruct (part_run _ _ _ _ _ (client_parts c Hc)) as (e & W & L & R). unfold client_size in L.
  destruct (encodes_run _ _ _ _ b (encodes_request e ltac:(unfold Per.max_length; lia))) as (w & Ww & Rw).
  exists e, w. split_and!; [by apply writes_run|done|done|done|].
  unfold decode_client_data, Reader.make. by rewrite dbind_ask; unfold dbind at 1; rewrite R.
Qed.

(** the conference data survives both wrappers.  Client data whose fields have
    their widths, whose texts fit and whose optional core fields form a prefix
    is encoded without an assertion into at most 1322 octets, which the
    Conference Create Request carries whole and the decoder reads back; the
    same for the server data, at most 114 octets, and the Response. *)
Theorem gcc_roundtrip (c : ClientData) (d : ServerData) (b : Z) :
  client_ok c = true -> server_ok d = true ->
  (exists e w, Writer.run (encode_client_data c) = Some e /\ len e <= client_size /\
     Writer.run (encode_conference_create_request e) = Some w /\
     decode_conference_create_request (Reader.make w b) = Ok (e, Reader.mk w [] b) /\
     decode_client_data (Reader.make e b) = Ok (c, Reader.mk e [] b)) /\
  (exists e w, Writer.run (encode_server_data d) = Some e /\ len e <= server_size /\
     Writer.run (encode_conference_create_response e) = Some w /\
     decode_conference_create_response (Reader.make w b) = Ok (e, Reader.mk w [] b) /\
     decode_server_data (Reader.make e b) = Ok (d, Reader.mk e [] b)).
Proof.
  intros Hc Hd. split; [by apply client_roundtrip|].
  destruct (part_run _ _ _ _ _ (server_parts d Hd)) as (e & W & L & R). unfold server_size in L.
  destruct (encodes_run _ _ _ _ b (encodes_response e ltac:(unfold Per.max_length; lia))) as (w & Ww & Rw).
  exists e, w. split_and!; [by apply writes_run|done|done|done|].
  unfold decode_server_data, Reader.make. by rewrite dbind_ask; unfold dbind at 1; rewrite R.
Qed.

Lemma decode_client_data_inv (r r' : Reader.t) (d : ClientData) :
  decode_client_data r = Ok (d, r') -> client_typed d = true /\ Reader.rest r' = [].
Proof.
  unfold decode_client_data. rewrite dbind_ask. intros ([d1 hc] & r1 & R & H)%dbind_inv.
  apply (blocks_loop_keeps client_block (fun st => client_typed (fst st) = true) client_block_typed) in R as [HP HR];
    [|done|].
  - rewrite dbind_ask in H. destruct hc; [|done]. by injection H as <- <-.
  - destruct r as [s e b]. rewrite remaining_mk. pose proof (len_nonneg e). lia.
Qed.

(** The server data and its envelope, as the connection writes them. *)
Lemma writes_server d : server_ok d = true -> exists e, writes (encode_server_data d) e /\ len e <= server_size.
Proof. intros H. destruct (part_run _ _ _ _ _ (server_parts d H)) as (e & W & L & _). eauto. Qed.

Lemma client_channels d : client_typed d = true ->
  len (match network d with Some n => channels n | None => [] end) <= max_static_channels.
Proof.
  unfold client_typed, network_ok. intros H. bools. destruct (network d); [|by unfold max_static_channels].
  cbn [opt_ok] in *. bools. lia.
Qed.

(** C38: whatever the bytes, the client data the server works with is well-typed:
    every field has its width, no optional core field follows an absent one,
    there are at most 31 channels with names of at most eight octets and no NUL
    in them, at most 16 monitors, and the blocks were read to the last octet,
    since the loop over them needs no more iterations than there are octets. *)
Theorem client_data_typed (r r' : Reader.t) (d : ClientData) :
  decode_client_data r = Ok (d, r') -> client_typed d = true /\ Reader.rest r' = [].
Proof. apply decode_client_data_inv. Qed.

(** A client with one channel that offers heartbeats and auto-detection. *)
Definition sample_core : ClientCoreData :=
  mkCore rdp_version_5_plus 1920 1080 0xCA01 0xAA03 1033 2600 (String.list_byte_of_string "client") 4 0 12 []
         (Some 0xCA01) (Some 1) (Some 0) (Some 32) (Some 15) (Some 0x0C80) None None None None None None None None.

Definition sample_client : ClientData :=
  mkClientData sample_core (Some (mkClientSecurity 0 0))
    (Some (mkClientNetwork [mkChannelDef (String.list_byte_of_string "drdynvc") 0xC0800000])) None
    (Some (mkMonitorData 0 [mkMonitorDef (-1920) 0 (-1) 1079 1])) (Some (mkMessageChannel 0)) None None.

Definition sample_server : ServerData :=
  mkServerData (mkServerCore rdp_version_5_plus (Some 2) None) (mkServerSecurity 0 0) (mkServerNetwork 1003 [1004])
               (Some 1005) None.

Lemma gcc_roundtrip_witness :
  exists e w, Writer.run (encode_client_data sample_client) = Some e /\ len e <= client_size /\
     Writer.run (encode_conference_create_request e) = Some w /\
     decode_conference_create_request (Reader.make w 0) = Ok (e, Reader.mk w [] 0) /\
     decode_client_data (Reader.make e 0) = Ok (sample_client, Reader.mk e [] 0).
Proof. apply (gcc_roundtrip sample_client sample_server 0); vm_compute; reflexivity. Defined.

Definition sample_bytes : list byte := default [] (Writer.run (encode_client_data sample_client)).

Lemma client_data_typed_witness :
  exists d r', decode_client_data (Reader.make sample_bytes 0) = Ok (d, r') /\ client_typed d = true /\ Reader.rest r' = [].
Proof.
  destruct (decode_client_data (Reader.make sample_bytes 0)) as [[d r']|e] eqn:E; [|vm_compute in E; discriminate E].
  exists d, r'. split; [reflexivity|exact (client_data_typed _ _ _ E)].
Defined.

End Gcc.
