(* ===== verification/ClientInfo.v ===== *)
(** * Client Info

    Models [src/src/farland/proto/client_info.hpp] and [client_info.cpp]: the
    TS_INFO_PACKET with the user's name, password and environment, and its
    extended part, of which each field is present only if all before it are.
    Wiping the password's copies ([secure_zero], [SecretString]) is not
    modelled. *)

From S2P Require Import Prelude Buffers CodecLogic Text Fields.
Open Scope Z_scope.

Module ClientInfo.

Definition unicode : Z := 0x00000010.
Definition max_info_string_size : Z := 512.
Definition time_zone_name_size : Z := 64.
Definition system_time_size : Z := 16.
Definition max_client_address_size : Z := 80.
Definition max_client_dir_size : Z := 512.
Definition max_dst_key_name_size : Z := 254.
Definition auto_reconnect_cookie_size : Z := 28.

Record TimeZoneInformation := mkTimeZone {
  bias : Z;
  standard_name : list byte;
  standard_date : list byte;
  standard_bias : Z;
  daylight_name : list byte;
  daylight_date : list byte;
  daylight_bias : Z
}.

Record AutoReconnectCookie := mkCookie { cookie_version : Z; logon_id : Z; security_verifier : list byte }.

Record ExtendedInfo := mkExtended {
  client_address_family : Z;
  client_address : list byte;
  client_dir : list byte;
  time_zone : option TimeZoneInformation;
  session_id : option Z;
  performance_flags : option Z;
  auto_reconnect_cookie : option AutoReconnectCookie;
  dynamic_dst_time_zone_key_name : option (list byte);
  dynamic_daylight_time_disabled : option bool
}.

Record ClientInfo := mkInfo {
  code_page : Z;
  flags : Z;
  domain : list byte;
  user_name : list byte;
  password : list byte;
  alternate_shell : list byte;
  working_dir : list byte;
  extended : option ExtendedInfo
}.

(** ** Decoding *)

(** Latin-1 to UTF-8, up to the first NUL. *)
Fixpoint decode_ansi_loop (bytes out : list byte) : list byte :=
  match bytes with
  | [] => out
  | b :: bytes' =>
      let c := u8_of b in
      if c =? 0 then out
      else if c <? 0x80 then decode_ansi_loop bytes' (out ++ [byte_of c])
      else decode_ansi_loop bytes' (out ++ [byte_of (Z.lor 0xC0 (Z.shiftr c 6)); byte_of (Z.lor 0x80 (Z.land c 0x3F))])
  end.

Definition decode_ansi (bytes : list byte) : list byte := decode_ansi_loop bytes [].

Definition read_info_string (size : Z) (is_unicode : bool) : Dec (list byte) :=
  let* offset := dask Reader.offset in
  if max_info_string_size <? size then dfail limit_exceeded "Client Info string longer than 512 bytes" offset
  else if is_unicode && negb (size mod 2 =? 0)
  then dfail invalid_length "odd length for a Unicode Client Info string" offset
  else
    let* bytes := ReaderOps.bytes size in
    let* _ := ReaderOps.skip (if is_unicode then 2 else 1) in
    dret (if is_unicode then Text.utf16le_to_utf8 bytes else decode_ansi bytes).

Definition read_counted_unicode (max : Z) : Dec (list byte) :=
  let* start := dask Reader.offset in
  let* size := ReaderOps.u16le in
  if max <? size then dfail limit_exceeded "Client Info extended string too long" start
  else
    let* bytes := ReaderOps.bytes size in
    dret (Text.utf16le_to_utf8 bytes).

Definition read_time_zone : Dec TimeZoneInformation :=
  let* bias := ReaderOps.u32le in
  let* standard_name := ReaderOps.bytes time_zone_name_size in
  let* standard_date := ReaderOps.bytes system_time_size in
  let* standard_bias := ReaderOps.u32le in
  let* daylight_name := ReaderOps.bytes time_zone_name_size in
  let* daylight_date := ReaderOps.bytes system_time_size in
  let* daylight_bias := ReaderOps.u32le in
  dret (mkTimeZone (signed 32 bias) (Text.utf16le_to_utf8 standard_name) standard_date (signed 32 standard_bias)
                   (Text.utf16le_to_utf8 daylight_name) daylight_date (signed 32 daylight_bias)).

(** The body of the 28-octet cookie, in a reader of its own. *)
Definition read_cookie (cookie_offset : Z) : Dec AutoReconnectCookie :=
  let* length := ReaderOps.u32le in
  if negb (length =? auto_reconnect_cookie_size)
  then dfail invalid_length "ARC_CS_PRIVATE_PACKET length is not 28" (cookie_offset + 2)
  else
    let* version := ReaderOps.u32le in
    let* logon_id := ReaderOps.u32le in
    let* verifier := ReaderOps.bytes 16 in
    dret (mkCookie version logon_id verifier).

Definition read_optional_cookie : Dec (option AutoReconnectCookie) :=
  let* cookie_offset := dask Reader.offset in
  let* cookie_size := ReaderOps.u16le in
  if negb (cookie_size =? 0) && negb (cookie_size =? auto_reconnect_cookie_size)
  then dfail invalid_length "auto-reconnect cookie is not 28 bytes" cookie_offset
  else if cookie_size =? auto_reconnect_cookie_size then
    let* cookie := ReaderOps.sub cookie_size in
    let* arc := within cookie (read_cookie cookie_offset) in
    dret (Some arc)
  else dret None.

Definition read_dst_key : Dec (list byte) :=
  let* key_offset := dask Reader.offset in
  let* key_size := ReaderOps.u16le in
  if max_dst_key_name_size <? key_size
  then dfail limit_exceeded "dynamic DST time zone key name too long" key_offset
  else
    let* key := ReaderOps.bytes key_size in
    dret (Text.utf16le_to_utf8 key).

(** Every [if (r.empty()) return ext;] is an [unless_empty]. *)
Definition read_extended_info : Dec ExtendedInfo :=
  let* family := ReaderOps.u16le in
  let* address := read_counted_unicode max_client_address_size in
  let* dir := read_counted_unicode max_client_dir_size in
  unless_empty (mkExtended family address dir None None None None None None) (
  let* tz := read_time_zone in
  unless_empty (mkExtended family address dir (Some tz) None None None None None) (
  let* session := ReaderOps.u32le in
  unless_empty (mkExtended family address dir (Some tz) (Some session) None None None None) (
  let* performance := ReaderOps.u32le in
  unless_empty (mkExtended family address dir (Some tz) (Some session) (Some performance) None None None) (
  let* cookie := read_optional_cookie in
  unless_empty (mkExtended family address dir (Some tz) (Some session) (Some performance) cookie None None) (
  let* _ := ReaderOps.skip 4 in
  unless_empty (mkExtended family address dir (Some tz) (Some session) (Some performance) cookie None None) (
  let* key := read_dst_key in
  unless_empty (mkExtended family address dir (Some tz) (Some session) (Some performance) cookie (Some key) None) (
  let* disabled := ReaderOps.u16le in
  dret (mkExtended family address dir (Some tz) (Some session) (Some performance) cookie (Some key)
                   (Some (negb (disabled =? 0))))))))))).

Definition decode_client_info : Dec ClientInfo :=
  let* code_page := ReaderOps.u32le in
  let* flags := ReaderOps.u32le in
  let* cb_domain := ReaderOps.u16le in
  let* cb_user_name := ReaderOps.u16le in
  let* cb_password := ReaderOps.u16le in
  let* cb_alternate_shell := ReaderOps.u16le in
  let* cb_working_dir := ReaderOps.u16le in
  let is_unicode := has_bits flags unicode in
  let* domain := read_info_string cb_domain is_unicode in
  let* user_name := read_info_string cb_user_name is_unicode in
  let* password := read_info_string cb_password is_unicode in
  let* alternate_shell := read_info_string cb_alternate_shell is_unicode in
  let* working_dir := read_info_string cb_working_dir is_unicode in
  let* extended := unless_empty None (dsome read_extended_info) in
  dret (mkInfo code_page flags domain user_name password alternate_shell working_dir extended).

(** ** Encoding *)

Definition write_counted_unicode (text : list byte) : Enc unit :=
  let encoded := Text.utf8_to_utf16le text in
  Writer.u16le (wrap 16 (len encoded + 2)) ;;;
  Writer.bytes encoded ;;;
  Writer.u16le 0.

Definition write_time_zone (tz : TimeZoneInformation) : Enc unit :=
  Writer.u32le (wrap 32 (bias tz)) ;;;
  write_fixed_utf16 (standard_name tz) time_zone_name_size ;;;
  Writer.bytes (standard_date tz) ;;;
  Writer.u32le (wrap 32 (standard_bias tz)) ;;;
  write_fixed_utf16 (daylight_name tz) time_zone_name_size ;;;
  Writer.bytes (daylight_date tz) ;;;
  Writer.u32le (wrap 32 (daylight_bias tz)).

Definition write_cookie (cookie : option AutoReconnectCookie) : Enc unit :=
  match cookie with
  | Some c =>
      Writer.u16le auto_reconnect_cookie_size ;;;
      Writer.u32le auto_reconnect_cookie_size ;;;
      Writer.u32le (cookie_version c) ;;;
      Writer.u32le (logon_id c) ;;;
      Writer.bytes (security_verifier c)
  | None => Writer.u16le 0
  end.

Definition write_dst_key (key_name : list byte) : Enc unit :=
  let key := Text.utf8_to_utf16le key_name in
  eassert (len key <=? max_dst_key_name_size) ;;;
  Writer.u16le (wrap 16 (len key)) ;;;
  Writer.bytes key.

(** The encoder from [info.extended] on; [return] ends it at the first field
    that is absent. *)
Definition write_extended_info (ext : ExtendedInfo) : Enc unit :=
  Writer.u16le (client_address_family ext) ;;;
  write_counted_unicode (client_address ext) ;;;
  write_counted_unicode (client_dir ext) ;;;
  ewhen (time_zone ext) (fun tz =>
  write_time_zone tz ;;;
  ewhen (session_id ext) (fun session =>
  Writer.u32le session ;;;
  ewhen (performance_flags ext) (fun performance =>
  Writer.u32le performance ;;;
  write_cookie (auto_reconnect_cookie ext) ;;;
  ewhen (dynamic_dst_time_zone_key_name ext) (fun key =>
  (Writer.u16le 0 ;;; Writer.u16le 0) ;;;
  write_dst_key key ;;;
  ewhen (dynamic_daylight_time_disabled ext) (fun disabled : bool => Writer.u16le (if disabled then 1 else 0)))))).

Fixpoint assert_sizes (strings : list (list byte)) : Enc unit :=
  match strings with
  | [] => eret tt
  | s :: strings' => eassert (len s <=? max_info_string_size) ;;; assert_sizes strings'
  end.

Definition write_terminated (s : list byte) : Enc unit := Writer.bytes s ;;; Writer.u16le 0.

Definition encode_client_info (info : ClientInfo) : Enc unit :=
  let domain := Text.utf8_to_utf16le (domain info) in
  let user := Text.utf8_to_utf16le (user_name info) in
  let password := Text.utf8_to_utf16le (password info) in
  let shell := Text.utf8_to_utf16le (alternate_shell info) in
  let dir := Text.utf8_to_utf16le (working_dir info) in
  assert_sizes [domain; user; password; shell; dir] ;;;
  Writer.u32le (code_page info) ;;;
  Writer.u32le (Z.lor (flags info) unicode) ;;;
  Writer.u16le (wrap 16 (len domain)) ;;;
  Writer.u16le (wrap 16 (len user)) ;;;
  Writer.u16le (wrap 16 (len password)) ;;;
  Writer.u16le (wrap 16 (len shell)) ;;;
  Writer.u16le (wrap 16 (len dir)) ;;;
  write_terminated domain ;;;
  write_terminated user ;;;
  write_terminated password ;;;
  write_terminated shell ;;;
  write_terminated dir ;;;
  ewhen (extended info) write_extended_info.

(** ** Texts *)

Lemma utf16_even t : len (Text.utf8_to_utf16le t) mod 2 = 0.
Proof.
  destruct (Text.utf8_loop_total t (length t) [] (le_n _)) as (cs & _ & E & _).
  unfold Text.utf8_to_utf16le. rewrite E. cbn [app]. clear. induction cs as [|c cs IH]; [done|].
  rewrite Text.utf16_cons, len_app. unfold Text.append_code_point, Text.append_utf16le.
  destruct (0x10000 <=? c); cbn [app]; rewrite !len_cons, len_nil; lia.
Qed.

Lemma text_fits n t : text_ok n t = true ->
  len (Text.utf8_to_utf16le t) <= n /\ Text.utf16le_to_utf8 (Text.utf8_to_utf16le t) = t.
Proof. unfold text_ok. intros H. bools. split; [lia|done]. Qed.

Lemma encodes_info_string t : text_ok 512 t = true ->
  encodes (write_terminated (Text.utf8_to_utf16le t)) (read_info_string (len (Text.utf8_to_utf16le t)) true) t 514.
Proof.
  intros [Hl Ht]%text_fits. pose proof (utf16_even t) as He. set (u := Text.utf8_to_utf16le t) in *.
  apply encodes_query. intros offset. unfold max_info_string_size. off. rewrite He. cbn [Z.eqb negb andb].
  exists (u ++ Writer.le_bytes 2 0). split_and!; [unfold write_terminated; repeat wstep|len_lia|].
  intros k. rstep. eapply reads_bind_nil; [apply reads_skip; len_lia|]. intros ? _. apply reads_ret. by rewrite Ht.
Qed.

Lemma encodes_counted_unicode t n : text_ok (n - 2) t = true -> 0 <= n < 65536 ->
  encodes (write_counted_unicode t) (read_counted_unicode n) t (2 + n).
Proof.
  intros [Hl Ht]%text_fits Hn. unfold write_counted_unicode.
  pose proof (utf16_padded t []) as Hp. rewrite app_nil_r, Ht in Hp. set (u := Text.utf8_to_utf16le t) in *.
  pose proof (len_nonneg u). rewrite wrap_small by lia. apply encodes_query. intros start.
  exists (Writer.le_bytes 2 (len u + 2) ++ u ++ [byte_of 0; byte_of 0]). split_and!; [repeat wstep|len_lia|].
  intros k. rstep. off. eapply reads_bind_nil; [apply reads_bytes; len_lia|]. intros ? <-. by apply reads_ret.
Qed.

Lemma encodes_dst_key t : text_ok 254 t = true -> encodes (write_dst_key t) read_dst_key t 256.
Proof.
  intros [Hl Ht]%text_fits. unfold write_dst_key. set (u := Text.utf8_to_utf16le t) in *.
  pose proof (len_nonneg u). rewrite wrap_small by lia. unfold max_dst_key_name_size.
  apply encodes_assert; [lia|]. apply encodes_query. intros start. unfold max_dst_key_name_size.
  eapply encodes_le; [eapply encodes_seq; [apply encodes_u16le; lia|]; off|].
  - eapply encodes_last; [by apply encodes_bytes|]. intros k. by apply reads_ret.
  - lia.
Qed.

(** ** Records *)

Definition time_zone_ok (tz : TimeZoneInformation) : bool :=
  i32_ok (bias tz) && text_ok 62 (standard_name tz) && (len (standard_date tz) =? 16) && i32_ok (standard_bias tz) &&
  text_ok 62 (daylight_name tz) && (len (daylight_date tz) =? 16) && i32_ok (daylight_bias tz).

Definition cookie_ok (c : AutoReconnectCookie) : bool :=
  u32_ok (cookie_version c) && u32_ok (logon_id c) && (len (security_verifier c) =? 16).

(** [read_time_zone] with the casts where the fields are read. *)
Lemma encodes_time_zone tz : time_zone_ok tz = true -> encodes (write_time_zone tz) read_time_zone tz 172.
Proof.
  destruct tz as [b sn sd sb dn dd db]. unfold time_zone_ok.
  cbn [bias standard_name standard_date standard_bias daylight_name daylight_date daylight_bias]. intros H. bools.
  pose proof (signed_wrap 32 b ltac:(lia) ltac:(widths; lia)) as Eb.
  pose proof (signed_wrap 32 sb ltac:(lia) ltac:(widths; lia)) as Es.
  pose proof (signed_wrap 32 db ltac:(lia) ltac:(widths; lia)) as Ed.
  pose proof (wrap_range 32 b ltac:(lia)). pose proof (wrap_range 32 sb ltac:(lia)). pose proof (wrap_range 32 db ltac:(lia)).
  unfold write_time_zone, read_time_zone, time_zone_name_size, system_time_size.
  cbn [bias standard_name standard_date standard_bias daylight_name daylight_date daylight_bias].
  eapply encodes_le.
  - eapply encodes_seq; [by apply encodes_u32le|cbn beta]. eapply encodes_seq; [by apply (encodes_fixed_utf16 sn 64)|cbn beta].
    eapply encodes_seq; [apply encodes_bytes; lia|cbn beta]. eapply encodes_seq; [by apply encodes_u32le|cbn beta].
    eapply encodes_seq; [by apply (encodes_fixed_utf16 dn 64)|cbn beta]. eapply encodes_seq; [apply encodes_bytes; lia|cbn beta].
    eapply encodes_last; [by apply encodes_u32le|]. intros k. apply reads_ret. cbn beta.
    by rewrite Eb, Es, Ed, !(utf16_fixed _ 64).
  - lia.
Qed.

Lemma encodes_cookie o : opt_ok cookie_ok o = true -> encodes (write_cookie o) read_optional_cookie o 30.
Proof.
  intros H. apply encodes_query. intros off0. destruct o as [[v l s]|].
  - unfold opt_ok, cookie_ok in H. cbn [cookie_version logon_id security_verifier] in H. bools. widths.
    set (body := Writer.le_bytes 4 28 ++ Writer.le_bytes 4 v ++ Writer.le_bytes 4 l ++ s).
    exists (Writer.le_bytes 2 28 ++ body). split_and!.
    + unfold write_cookie, body, auto_reconnect_cookie_size. cbn [cookie_version logon_id security_verifier]. repeat wstep.
    + unfold body. len_lia.
    + intros k. rstep. unfold auto_reconnect_cookie_size. off. on.
      eapply reads_bind_nil; [apply reads_sub; unfold body; len_lia|]. intros ? [b ->].
      apply (reads_bind_pure _ _ _ _ (eq (mkCookie v l s))); [apply reads_within|intros ? <-; by apply reads_ret].
      unfold body, read_cookie. rstep. off. do 2 rstep.
      eapply reads_bind_nil; [apply reads_bytes; lia|]. intros ? <-. by apply reads_ret.
  - exists (Writer.le_bytes 2 0). split_and!; [apply writes_bytes|len_lia|].
    intros k. eapply reads_bind_nil; [by apply reads_u16le|]. intros ? <-. off. off. by apply reads_ret.
Qed.

(** ** The extended part *)

(** The next field of a structure that may end here. *)
Lemma encodes_end_more {A} m (d : A) p v n :
  encodes_end m p v n -> (exists x, p (Reader.make [] 0) = Err x) -> encodes_end m (unless_empty d p) v n.
Proof.
  intros (e & W & L & R) [x Hx]. exists e. split_and!; [done|done|]. apply reads_unless_empty; [|done].
  intros ->. destruct (R [] 0) as (a & Ha & _). unfold Reader.make in Hx. cbn [app] in Ha. by rewrite Hx in Ha.
Qed.

(** The field is absent, and with it all that follow. *)
Lemma encodes_end_here {A} (d : A) p n : 0 <= n -> encodes_end (eret tt) (unless_empty d p) d n.
Proof. intros. eapply encodes_end_le; [apply encodes_ret_at_end|done]. Qed.

Definition extended_ok (e : ExtendedInfo) : bool :=
  u16_ok (client_address_family e) && text_ok 78 (client_address e) && text_ok 510 (client_dir e) &&
  opt_ok time_zone_ok (time_zone e) && opt_ok u32_ok (session_id e) && opt_ok u32_ok (performance_flags e) &&
  opt_ok cookie_ok (auto_reconnect_cookie e) && opt_ok (text_ok 254) (dynamic_dst_time_zone_key_name e).

(** No field after an absent one; the cookie goes with the performance flags. *)
Definition extended_prefix (e : ExtendedInfo) : bool :=
  match time_zone e, session_id e, performance_flags e, auto_reconnect_cookie e,
        dynamic_dst_time_zone_key_name e, dynamic_daylight_time_disabled e with
  | None, None, None, None, None, None => true
  | Some _, None, None, None, None, None => true
  | Some _, Some _, None, None, None, None => true
  | Some _, Some _, Some _, _, None, None => true
  | Some _, Some _, Some _, _, Some _, _ => true
  | _, _, _, _, _, _ => false
  end.

Lemma encodes_extended e : extended_ok e = true -> extended_prefix e = true ->
  encodes_end (write_extended_info e) read_extended_info e 1070.
Proof.
  destruct e as [f a d tz se pe co ke di]. unfold extended_ok, extended_prefix.
  cbn [client_address_family client_address client_dir time_zone session_id performance_flags auto_reconnect_cookie
       dynamic_dst_time_zone_key_name dynamic_daylight_time_disabled]. intros H Hp. bools.
  unfold write_extended_info, read_extended_info.
  cbn [client_address_family client_address client_dir time_zone session_id performance_flags auto_reconnect_cookie
       dynamic_dst_time_zone_key_name dynamic_daylight_time_disabled].
  eapply encodes_end_le.
  - eapply encodes_seq_end; [field|cbn beta]. eapply encodes_seq_end; [by apply (encodes_counted_unicode a 80)|cbn beta].
    eapply encodes_seq_end; [by apply (encodes_counted_unicode d 512)|cbn beta].
    lazymatch goal with |- encodes_end _ _ _ ?n => unify n (172 + (4 + (4 + (30 + (4 + (256 + 2)))))) end.
    destruct tz as [tz|]; cbn [ewhen opt_ok] in *; [|destruct se, pe, co, ke, di; try done; by apply encodes_end_here].
    apply encodes_end_more; [|by eexists]. apply encodes_seq_end with (a := tz); [by apply encodes_time_zone|].
    destruct se as [se|]; cbn [ewhen opt_ok] in *; [|destruct pe, co, ke, di; try done; by apply encodes_end_here].
    apply encodes_end_more; [|by eexists]. apply encodes_seq_end with (a := se); [field|].
    destruct pe as [pe|]; cbn [ewhen opt_ok] in *; [|destruct co, ke, di; try done; by apply encodes_end_here].
    apply encodes_end_more; [|by eexists]. apply encodes_seq_end with (a := pe); [field|].
    apply encodes_end_more; [|by eexists]. apply encodes_seq_end with (a := co); [by apply encodes_cookie|].
    destruct ke as [ke|]; cbn [ewhen opt_ok] in *; [|destruct co, di; try done; by apply encodes_end_here].
    apply encodes_end_more; [|by eexists]. apply encodes_seq_end with (a := tt); [apply encodes_pad_two|].
    apply encodes_end_more; [|by eexists]. apply encodes_seq_end with (a := ke); [by apply encodes_dst_key|].
    destruct di as [di|]; cbn [ewhen]; [|by apply encodes_end_here].
    apply encodes_end_more; [|by eexists]. eapply encodes_last_end; [apply encodes_encodes_end, encodes_u16le; by destruct di|].
    apply reads_ret. by destruct di.
  - done.
Qed.

(** ** Property *)

Definition info_ok (i : ClientInfo) : bool :=
  u32_ok (code_page i) && u32_ok (flags i) && has_bits (flags i) unicode && text_ok 512 (domain i) &&
  text_ok 512 (user_name i) && text_ok 512 (password i) && text_ok 512 (alternate_shell i) &&
  text_ok 512 (working_dir i) &&
  opt_ok (fun e => extended_ok e && extended_prefix e) (extended i).

(** The length of a text of a fixed part, in its 16-bit field. *)
Lemma encodes_size t : text_ok 512 t = true ->
  encodes (Writer.u16le (wrap 16 (len (Text.utf8_to_utf16le t)))) ReaderOps.u16le (len (Text.utf8_to_utf16le t)) 2.
Proof.
  intros [Hl _]%text_fits. pose proof (len_nonneg (Text.utf8_to_utf16le t)). rewrite wrap_small by lia.
  apply encodes_u16le. lia.
Qed.

Lemma assert_sizes_ok {B} (l : list (list byte)) (k : Enc B) w :
  Forall (fun s => len s <= max_info_string_size) l -> (assert_sizes l ;;; k) w = k w.
Proof.
  unfold ebind. induction 1 as [|s l Hs _ IH]; cbn [assert_sizes]; [done|].
  unfold ebind, eassert. destruct (Z.leb_spec (len s) max_info_string_size); [|lia]. exact IH.
Qed.

Definition info_size : Z := 18 + 5 * 514 + 1070.

Lemma encodes_info i : info_ok i = true -> encodes_end (encode_client_info i) decode_client_info i info_size.
Proof.
  destruct i as [cp fl dom usr pwd sh dir ext]. unfold info_ok, encode_client_info.
  cbn [code_page flags domain user_name password alternate_shell working_dir extended]. intros H. bools.
  match goal with Hx : has_bits fl unicode = true |- _ => rename Hx into Hu end.
  rewrite (has_bits_lor 4) by done.
  match goal with |- encodes_end (assert_sizes ?l ;;; ?m) _ _ _ => enough (encodes_end m decode_client_info
    (mkInfo cp fl dom usr pwd sh dir ext) info_size) as (e & W & L & R) end.
  { exists e. split_and!; [|done|done]. intros w. rewrite assert_sizes_ok; [apply W|].
    repeat constructor; by apply text_fits. }
  unfold decode_client_info. eapply encodes_end_le.
  - do 2 (eapply encodes_seq_end; [field|cbn beta]). do 5 (eapply encodes_seq_end; [by apply encodes_size|cbn beta]).
    rewrite Hu. cbv zeta. do 5 (eapply encodes_seq_end; [by apply encodes_info_string|cbn beta]).
    lazymatch goal with |- encodes_end _ _ _ ?n => unify n 1070 end.
    eapply encodes_last_end; [|by apply reads_ret]. destruct ext as [e|]; cbn [ewhen opt_ok] in *.
    + bools. apply encodes_end_more; [|by eexists].
      destruct (encodes_extended e) as (x & W & L & R); [done|done|]. exists x. split_and!; [done|done|by apply reads_dsome].
    + by apply encodes_end_here.
  - done.
Qed.

(** the Client Info packet survives.  For every client info whose fields
    have their widths, whose texts fit the 512-octet limit, that says its
    strings are Unicode and whose extended part leaves out only a tail of its
    fields, the encoder trips no assertion and truncates no length, and the
    decoder returns the same info, the user's name and password included. *)
Theorem client_info_roundtrip (i : ClientInfo) (b : Z) :
  info_ok i = true ->
  exists e, Writer.run (encode_client_info i) = Some e /\ len e <= info_size /\
            decode_client_info (Reader.make e b) = Ok (i, Reader.mk e [] b).
Proof.
  intros H. destruct (encodes_info i H) as (e & W & L & R). exists e. split_and!; [by apply writes_run|done|].
  destruct (R [] b) as (v & Hv & <-). unfold Reader.make. rewrite app_nil_r in Hv. exact Hv.
Qed.

Definition sample_info : ClientInfo :=
  mkInfo 0 0x33 [] (String.list_byte_of_string "ada") (String.list_byte_of_string "secret") [] []
    (Some (mkExtended 2 (String.list_byte_of_string "10.0.0.7") []
             (Some (mkTimeZone (-60) (String.list_byte_of_string "CET") (replicate 16 (byte_of 0)) 0
                               (String.list_byte_of_string "CEST") (replicate 16 (byte_of 0)) (-60)))
             (Some 0) (Some 7) (Some (mkCookie 1 5 (replicate 16 (byte_of 9)))) None None)).

Lemma client_info_roundtrip_witness :
  exists e, Writer.run (encode_client_info sample_info) = Some e /\ len e <= info_size /\
            decode_client_info (Reader.make e 0) = Ok (sample_info, Reader.mk e [] 0).
Proof. apply (client_info_roundtrip sample_info 0). vm_compute. reflexivity. Defined.

End ClientInfo.
