(* ===== verification/Pointer.v ===== *)
(** * Pointer updates

    Models [src/src/farland/proto/pointer.hpp] and [pointer.cpp]: the pointer
    shapes and their two wire forms.  Rendering a shape from and to pixels
    ([shape_from_bgra], [shape_to_bgra]) is not modelled. *)

From S2P Require Import Prelude Buffers CodecLogic Fields.
Open Scope Z_scope.

Module Pointer.

(** Namespace [message_type]. *)
Definition type_system : Z := 0x0001.
Definition type_position : Z := 0x0003.
Definition type_color : Z := 0x0006.
Definition type_cached : Z := 0x0007.
Definition type_pointer : Z := 0x0008.

(** Namespace [system_pointer]. *)
Definition system_null : Z := 0x00000000.
Definition system_default : Z := 0x00007F00.

(** Namespace [fastpath::update_code]. *)
Definition pointer_hidden : Z := 0x5.
Definition pointer_default : Z := 0x6.
Definition pointer_position : Z := 0x8.
Definition color_pointer : Z := 0x9.
Definition cached_pointer : Z := 0xA.
Definition new_pointer : Z := 0xB.
Definition large_pointer : Z := 0xC.

Definition max_size : Z := 96.
Definition max_large_size : Z := 384.
Definition color_header_size : Z := 14.
Definition large_header_size : Z := 20.
Definition pad_size : Z := 1.
Definition valid_depths : list Z := [1; 4; 8; 15; 16; 24; 32].

Record Shape := mkShape {
  xor_bpp : Z;
  cache_index : Z;
  hotspot_x : Z;
  hotspot_y : Z;
  width : Z;
  height : Z;
  xor_mask : list byte;
  and_mask : list byte
}.

Inductive Update :=
  | Hidden
  | Default
  | Position (x y : Z)
  | ColorPointer (shape : Shape)
  | NewPointer (shape : Shape)
  | LargePointer (shape : Shape)
  | CachedPointer (index : Z).

Definition mask_bytes (s : Shape) : Z := len (xor_mask s) + len (and_mask s).

(** [(bytes + 1U) & ~std::size_t{1}]. *)
Definition xor_stride (width xor_bpp : Z) : Z := Z.ldiff ((width * xor_bpp + 7) / 8 + 1) 1.
Definition and_stride (width : Z) : Z := xor_stride width 1.

Definition check_header (s : Shape) (max_dimension start : Z) : Result unit :=
  if (width s =? 0) || (height s =? 0) then fail invalid_value "empty pointer shape" start
  else if (max_dimension <? width s) || (max_dimension <? height s)
  then fail limit_exceeded "pointer shape too large" start
  else if negb (existsb (Z.eqb (xor_bpp s)) valid_depths) then fail invalid_value "invalid pointer xorBpp" start
  else Ok tt.

Definition validate (s : Shape) (max_dimension : Z) : Result unit :=
  match check_header s max_dimension 0 with
  | Err e => Err e
  | Ok _ =>
      if negb (len (xor_mask s) =? xor_stride (width s) (xor_bpp s) * height s)
      then fail invalid_length "pointer XOR mask length does not match its size" 0
      else if negb (len (and_mask s) =? and_stride (width s) * height s)
      then fail invalid_length "pointer AND mask length does not match its size" 0
      else Ok tt
  end.

Definition has_value {A} (r : Result A) : bool := match r with Ok _ => true | Err _ => false end.

(** ** Shapes on the wire *)

Definition write_shape_fields (s : Shape) : Enc unit :=
  Writer.u16le (hotspot_x s) ;;;
  Writer.u16le (hotspot_y s) ;;;
  Writer.u16le (width s) ;;;
  Writer.u16le (height s).

Definition encode_color_attribute (s : Shape) : Enc unit :=
  eassert (has_value (validate s max_size)) ;;;
  Writer.u16le (cache_index s) ;;;
  write_shape_fields s ;;;
  Writer.u16le (wrap 16 (len (and_mask s))) ;;;
  Writer.u16le (wrap 16 (len (xor_mask s))) ;;;
  Writer.bytes (xor_mask s) ;;;
  Writer.bytes (and_mask s) ;;;
  Writer.u8 0.

Definition encode_large_attribute (s : Shape) : Enc unit :=
  eassert (has_value (validate s max_large_size)) ;;;
  Writer.u16le (xor_bpp s) ;;;
  Writer.u16le (cache_index s) ;;;
  write_shape_fields s ;;;
  Writer.u32le (wrap 32 (len (and_mask s))) ;;;
  Writer.u32le (wrap 32 (len (xor_mask s))) ;;;
  Writer.bytes (xor_mask s) ;;;
  Writer.bytes (and_mask s) ;;;
  Writer.u8 0.

(** The masks of the shape [s] whose other fields have been read. *)
Definition read_masks (s : Shape) (and_length xor_length max_dimension start : Z) : Dec Shape :=
  if negb (xor_length =? xor_stride (width s) (xor_bpp s) * height s)
  then dfail invalid_length "pointer XOR mask length does not match its size" start
  else if negb (and_length =? and_stride (width s) * height s)
  then dfail invalid_length "pointer AND mask length does not match its size" start
  else
    let* xor_bytes := ReaderOps.bytes xor_length in
    let* and_bytes := ReaderOps.bytes and_length in
    let s := mkShape (xor_bpp s) (cache_index s) (hotspot_x s) (hotspot_y s) (width s) (height s) xor_bytes and_bytes in
    let* remaining := dask Reader.remaining in
    let* _ := (if remaining =? pad_size then ReaderOps.skip pad_size else dret tt) in
    let* _ := ReaderOps.expect_end "pointer attribute" in
    match validate s max_dimension with
    | Ok _ => dret s
    | Err e => dlift (Err (mkError (code e) (what e) start))
    end.

Definition decode_color_attribute (bpp : Z) : Dec Shape :=
  let* start := dask Reader.offset in
  let* index := ReaderOps.u16le in
  let* hx := ReaderOps.u16le in
  let* hy := ReaderOps.u16le in
  let* w := ReaderOps.u16le in
  let* h := ReaderOps.u16le in
  let* and_length := ReaderOps.u16le in
  let* xor_length := ReaderOps.u16le in
  let s := mkShape bpp index hx hy w h [] [] in
  let* _ := dlift (check_header s max_size start) in
  read_masks s and_length xor_length max_size start.

Definition decode_new_attribute : Dec Shape :=
  let* bpp := ReaderOps.u16le in decode_color_attribute bpp.

Definition decode_large_attribute : Dec Shape :=
  let* start := dask Reader.offset in
  let* bpp := ReaderOps.u16le in
  let* index := ReaderOps.u16le in
  let* hx := ReaderOps.u16le in
  let* hy := ReaderOps.u16le in
  let* w := ReaderOps.u16le in
  let* h := ReaderOps.u16le in
  let* and_length := ReaderOps.u32le in
  let* xor_length := ReaderOps.u32le in
  let s := mkShape bpp index hx hy w h [] [] in
  let* _ := dlift (check_header s max_large_size start) in
  read_masks s and_length xor_length max_large_size start.

Definition decode_position : Dec Update :=
  let* x := ReaderOps.u16le in
  let* y := ReaderOps.u16le in
  let* _ := ReaderOps.expect_end "pointer position update" in
  dret (Position x y).

Definition decode_cached : Dec Update :=
  let* index := ReaderOps.u16le in
  let* _ := ReaderOps.expect_end "cached pointer update" in
  dret (CachedPointer index).

(** ** Fast path *)

Definition fastpath_code (update : Update) : Z :=
  match update with
  | Hidden => pointer_hidden
  | Default => pointer_default
  | Position _ _ => pointer_position
  | ColorPointer _ => color_pointer
  | NewPointer _ => new_pointer
  | LargePointer _ => large_pointer
  | CachedPointer _ => cached_pointer
  end.

Definition fastpath_size (update : Update) : Z :=
  match update with
  | Hidden | Default => 0
  | Position _ _ => 4
  | ColorPointer s => color_header_size + mask_bytes s + pad_size
  | NewPointer s => 2 + color_header_size + mask_bytes s + pad_size
  | LargePointer s => large_header_size + mask_bytes s + pad_size
  | CachedPointer _ => 2
  end.

(** The visitor of [encode_fastpath]; the code it returns is [fastpath_code]. *)
Definition write_fastpath (update : Update) : Enc unit :=
  match update with
  | Hidden | Default => eret tt
  | Position x y => Writer.u16le x ;;; Writer.u16le y
  | ColorPointer s => eassert (xor_bpp s =? 24) ;;; encode_color_attribute s
  | NewPointer s => Writer.u16le (xor_bpp s) ;;; encode_color_attribute s
  | LargePointer s => encode_large_attribute s
  | CachedPointer index => Writer.u16le index
  end.

Definition encode_fastpath (update : Update) : Enc Z := write_fastpath update ;;; eret (fastpath_code update).

Definition decode_fastpath (update_code : Z) : Dec Update :=
  if update_code =? pointer_hidden then
    let* _ := ReaderOps.expect_end "fast-path pointer hidden update" in dret Hidden
  else if update_code =? pointer_default then
    let* _ := ReaderOps.expect_end "fast-path pointer default update" in dret Default
  else if update_code =? pointer_position then decode_position
  else if update_code =? color_pointer then
    let* s := decode_color_attribute 24 in dret (ColorPointer s)
  else if update_code =? new_pointer then
    let* s := decode_new_attribute in dret (NewPointer s)
  else if update_code =? large_pointer then
    let* s := decode_large_attribute in dret (LargePointer s)
  else if update_code =? cached_pointer then decode_cached
  else
    let* offset := dask Reader.offset in
    dfail invalid_value "not a fast-path pointer update" offset.

(** ** Slow path *)

Definition is_large (update : Update) : bool := match update with LargePointer _ => true | _ => false end.

Definition pointer_header (type : Z) : Enc unit := Writer.u16le type ;;; Writer.u16le 0.

Definition encode_slow_path (update : Update) : Enc unit :=
  eassert (negb (is_large update)) ;;;
  match update with
  | Hidden => pointer_header type_system ;;; Writer.u32le system_null
  | Default => pointer_header type_system ;;; Writer.u32le system_default
  | Position x y => pointer_header type_position ;;; Writer.u16le x ;;; Writer.u16le y
  | ColorPointer s => eassert (xor_bpp s =? 24) ;;; pointer_header type_color ;;; encode_color_attribute s
  | NewPointer s => pointer_header type_pointer ;;; Writer.u16le (xor_bpp s) ;;; encode_color_attribute s
  | LargePointer _ => eret tt
  | CachedPointer index => pointer_header type_cached ;;; Writer.u16le index
  end.

Definition decode_slow_path : Dec Update :=
  let* start := dask Reader.offset in
  let* type := ReaderOps.u16le in
  let* _ := ReaderOps.skip 2 in
  if type =? type_system then
    let* system := ReaderOps.u32le in
    let* _ := ReaderOps.expect_end "system pointer update" in
    if system =? system_null then dret Hidden
    else if system =? system_default then dret Default
    else dfail invalid_value "unknown system pointer type" (start + 4)
  else if type =? type_position then decode_position
  else if type =? type_color then
    let* s := decode_color_attribute 24 in dret (ColorPointer s)
  else if type =? type_pointer then
    let* s := decode_new_attribute in dret (NewPointer s)
  else if type =? type_cached then decode_cached
  else dfail invalid_value "unknown pointer messageType" start.

(** ** Shapes *)

Definition shape_ok (max : Z) (s : Shape) : bool :=
  has_value (validate s max) && u16_ok (xor_bpp s) && u16_ok (cache_index s) && u16_ok (hotspot_x s) &&
  u16_ok (hotspot_y s) && u16_ok (width s) && u16_ok (height s).

(** What [validate] has checked. *)
Lemma validate_spec s max : has_value (validate s max) = true <->
  ((width s <> 0 /\ height s <> 0) /\ (width s <= max /\ height s <= max) /\
   existsb (Z.eqb (xor_bpp s)) valid_depths = true) /\
  len (xor_mask s) = xor_stride (width s) (xor_bpp s) * height s /\ len (and_mask s) = and_stride (width s) * height s.
Proof.
  unfold validate, check_header.
  destruct (Z.eqb_spec (width s) 0); [by split; [|lia]|]. destruct (Z.eqb_spec (height s) 0); [by split; [|lia]|].
  destruct (Z.ltb_spec max (width s)); [by split; [|lia]|]. destruct (Z.ltb_spec max (height s)); [by split; [|lia]|].
  cbn [orb]. destruct (existsb _ valid_depths) eqn:E; [|by split; [|intros ((_ & _ & ?) & _)]]. cbn [negb].
  destruct (Z.eqb_spec (len (xor_mask s)) (xor_stride (width s) (xor_bpp s) * height s)); [|by split; [|lia]].
  destruct (Z.eqb_spec (len (and_mask s)) (and_stride (width s) * height s)); [|by split; [|lia]].
  cbn. split; [|done]. intros _. repeat split; lia || done.
Qed.

Lemma check_header_ok s max start : has_value (validate s max) = true -> check_header s max start = Ok tt.
Proof.
  intros (((Hw & Hh) & (Hmw & Hmh) & Hd) & _)%validate_spec. unfold check_header.
  destruct (Z.eqb_spec (width s) 0); [lia|]. destruct (Z.eqb_spec (height s) 0); [lia|].
  destruct (Z.ltb_spec max (width s)); [lia|]. destruct (Z.ltb_spec max (height s)); [lia|]. by rewrite Hd.
Qed.

Lemma stride_range w b : 0 <= w -> 0 <= b -> 0 <= xor_stride w b <= (w * b + 7) / 8 + 1.
Proof.
  intros Hw Hb. unfold xor_stride. assert (0 <= (w * b + 7) / 8) by (apply Z.div_pos; nia).
  generalize dependent ((w * b + 7) / 8). intros x Hx. change 1 with (Z.ones 1) at 2 4.
  rewrite Z.ldiff_ones_r, Z.shiftl_mul_pow2, Z.shiftr_div_pow2 by lia. change (2 ^ 1) with 2. lia.
Qed.

Lemma depth_range s : existsb (Z.eqb (xor_bpp s)) valid_depths = true -> 1 <= xor_bpp s <= 32.
Proof. cbn. rewrite !orb_true_iff, !Z.eqb_eq. lia. Qed.

Lemma stride_bound w b n : 0 <= w -> 0 <= b <= 8 * n -> 0 <= xor_stride w b <= n * w + 1.
Proof.
  intros Hw Hb. pose proof (stride_range w b Hw (proj1 Hb)).
  pose proof (Z.mul_le_mono_nonneg_l b (8 * n) w Hw (proj2 Hb)).
  assert ((w * b + 7) / 8 < n * w + 1) as Hd by (apply Z.div_lt_upper_bound; lia).
  revert H Hd. generalize ((w * b + 7) / 8). intros; lia.
Qed.

Lemma mask_sizes max s : shape_ok max s = true ->
  0 < width s <= max /\ 0 < height s <= max /\ 1 <= xor_bpp s <= 32 /\
  len (xor_mask s) <= (4 * max + 1) * max /\ len (and_mask s) <= (max + 1) * max.
Proof.
  unfold shape_ok. intros H. bools. widths. apply validate_spec in H as (((Hw & Hh) & (Hmw & Hmh) & Hd) & Hx & Ha).
  apply depth_range in Hd. pose proof (stride_bound (width s) (xor_bpp s) 4 ltac:(lia) ltac:(lia)) as Bx.
  pose proof (stride_bound (width s) 1 1 ltac:(lia) ltac:(lia)) as Ba. unfold and_stride in Ha. rewrite Hx, Ha.
  clear Hx Ha. revert Bx Ba. generalize (xor_stride (width s) (xor_bpp s)), (xor_stride (width s) 1).
  intros a b Bx Ba. split_and!; [lia..| |]; apply Z.mul_le_mono_nonneg; lia.
Qed.

(** The masks, with the pad the encoder always writes. *)
Lemma encodes_masks s max : shape_ok max s = true ->
  forall start, reads (read_masks (mkShape (xor_bpp s) (cache_index s) (hotspot_x s) (hotspot_y s) (width s) (height s) [] [])
                       (len (and_mask s)) (len (xor_mask s)) max start)
                (xor_mask s ++ and_mask s ++ [byte_of 0]) [] (eq s).
Proof.
  intros H start. assert (has_value (validate s max) = true) as Hv by (unfold shape_ok in H; by bools).
  pose proof Hv as Hs. apply validate_spec in Hs as (_ & Hx & Ha). unfold read_masks. cbn [width height xor_bpp].
  rewrite Hx, Ha, !Z.eqb_refl. cbn [negb]. eapply reads_bind; [by apply reads_bytes|]. intros ? <-.
  eapply reads_bind; [by apply reads_bytes|]. intros ? <-. cbv zeta. apply reads_ask. intros s0 b0.
  rewrite remaining_mk, app_nil_r. rewrite len_cons, len_nil. cbn [Z.add Z.eqb Pos.eqb].
  change (1 + 0 =? pad_size) with true. cbv iota.
  apply (reads_bind_nil _ _ _ _ (fun _ => True)); [by apply reads_skip|]. intros _ _.
  apply (reads_bind_nil _ _ _ _ (fun _ => True)); [by apply reads_expect_end|]. intros _ _.
  cbn [width height xor_bpp cache_index hotspot_x hotspot_y]. destruct s. cbn in *.
  destruct (validate _ max) as [[]|]; [by apply reads_ret|done].
Qed.

(** ** Round trips *)

Definition fields_bytes (s : Shape) : list byte :=
  Writer.le_bytes 2 (hotspot_x s) ++ Writer.le_bytes 2 (hotspot_y s) ++ Writer.le_bytes 2 (width s) ++
  Writer.le_bytes 2 (height s).
Definition masks_bytes (s : Shape) : list byte := xor_mask s ++ and_mask s ++ [byte_of 0].
Definition color_bytes (s : Shape) : list byte :=
  Writer.le_bytes 2 (cache_index s) ++ fields_bytes s ++
  Writer.le_bytes 2 (len (and_mask s)) ++ Writer.le_bytes 2 (len (xor_mask s)) ++ masks_bytes s.
Definition large_bytes (s : Shape) : list byte :=
  Writer.le_bytes 2 (xor_bpp s) ++ Writer.le_bytes 2 (cache_index s) ++ fields_bytes s ++
  Writer.le_bytes 4 (len (and_mask s)) ++ Writer.le_bytes 4 (len (xor_mask s)) ++ masks_bytes s.

Lemma shape_valid max s : shape_ok max s = true -> has_value (validate s max) = true.
Proof. unfold shape_ok. intros H. by bools. Qed.

Lemma writes_shape s : writes (write_shape_fields s) (fields_bytes s).
Proof. unfold write_shape_fields, fields_bytes. repeat wstep. Qed.

Lemma writes_color s : shape_ok max_size s = true -> writes (encode_color_attribute s) (color_bytes s).
Proof.
  intros H. pose proof (mask_sizes _ _ H) as (_ & _ & _ & Hx & Ha). unfold max_size in Hx, Ha.
  pose proof (len_nonneg (xor_mask s)). pose proof (len_nonneg (and_mask s)).
  unfold encode_color_attribute. apply writes_assert; [by apply shape_valid|].
  rewrite !wrap_small by lia. unfold color_bytes, masks_bytes.
  wstep; [apply writes_bytes|]. wstep; [apply writes_shape|]. repeat wstep.
Qed.

Lemma writes_large s : shape_ok max_large_size s = true -> writes (encode_large_attribute s) (large_bytes s).
Proof.
  intros H. pose proof (mask_sizes _ _ H) as (_ & _ & _ & Hx & Ha). unfold max_large_size in Hx, Ha.
  pose proof (len_nonneg (xor_mask s)). pose proof (len_nonneg (and_mask s)).
  unfold encode_large_attribute. apply writes_assert; [by apply shape_valid|].
  rewrite !wrap_small by lia. unfold large_bytes, masks_bytes.
  do 2 (wstep; [apply writes_bytes|]). wstep; [apply writes_shape|]. repeat wstep.
Qed.

Lemma reads_color s : shape_ok max_size s = true -> reads (decode_color_attribute (xor_bpp s)) (color_bytes s) [] (eq s).
Proof.
  intros H. pose proof (mask_sizes _ _ H) as (_ & _ & _ & Hx & Ha). unfold max_size in Hx, Ha.
  pose proof (len_nonneg (xor_mask s)). pose proof (len_nonneg (and_mask s)).
  unfold decode_color_attribute, color_bytes, fields_bytes, masks_bytes. rewrite <- !app_assoc. rstep.
  pose proof H as Hw. unfold shape_ok in Hw. bools. widths. do 7 rstep. cbv zeta.
  apply (reads_bind_pure _ _ _ _ (fun _ => True)).
  { eapply (reads_lift _ tt); [by apply (check_header_ok s)|exact I]. }
  intros _ _. by apply encodes_masks.
Qed.

Lemma reads_new s : shape_ok max_size s = true ->
  reads decode_new_attribute (Writer.le_bytes 2 (xor_bpp s) ++ color_bytes s) [] (eq s).
Proof.
  intros H. unfold decode_new_attribute. pose proof H as Hw. unfold shape_ok in Hw. bools. widths.
  eapply reads_bind; [apply reads_u16le; lia|]. intros ? <-. by apply reads_color.
Qed.

Lemma reads_large s : shape_ok max_large_size s = true -> reads decode_large_attribute (large_bytes s) [] (eq s).
Proof.
  intros H. pose proof (mask_sizes _ _ H) as (_ & _ & _ & Hx & Ha). unfold max_large_size in Hx, Ha.
  pose proof (len_nonneg (xor_mask s)). pose proof (len_nonneg (and_mask s)).
  unfold decode_large_attribute, large_bytes, fields_bytes, masks_bytes. rewrite <- !app_assoc. rstep.
  pose proof H as Hw. unfold shape_ok in Hw. bools. widths. do 8 rstep. cbv zeta.
  apply (reads_bind_pure _ _ _ _ (fun _ => True)).
  { eapply (reads_lift _ tt); [by apply (check_header_ok s)|exact I]. }
  intros _ _. by apply encodes_masks.
Qed.

(** What the server may send: shapes of the sizes and depths of the form. *)
Definition update_ok (u : Update) : bool :=
  match u with
  | Hidden | Default => true
  | Position x y => u16_ok x && u16_ok y
  | ColorPointer s => (xor_bpp s =? 24) && shape_ok max_size s
  | NewPointer s => shape_ok max_size s
  | LargePointer s => shape_ok max_large_size s
  | CachedPointer index => u16_ok index
  end.

Definition fastpath_bytes (u : Update) : list byte :=
  match u with
  | Hidden | Default => []
  | Position x y => Writer.le_bytes 2 x ++ Writer.le_bytes 2 y
  | ColorPointer s => color_bytes s
  | NewPointer s => Writer.le_bytes 2 (xor_bpp s) ++ color_bytes s
  | LargePointer s => large_bytes s
  | CachedPointer index => Writer.le_bytes 2 index
  end.

Definition slow_type (u : Update) : Z :=
  match u with
  | Hidden | Default => type_system
  | Position _ _ => type_position
  | ColorPointer _ => type_color
  | NewPointer _ | LargePointer _ => type_pointer
  | CachedPointer _ => type_cached
  end.

Definition slow_body (u : Update) : list byte :=
  match u with
  | Hidden => Writer.le_bytes 4 system_null
  | Default => Writer.le_bytes 4 system_default
  | _ => fastpath_bytes u
  end.

Definition slow_bytes (u : Update) : list byte :=
  (Writer.le_bytes 2 (slow_type u) ++ Writer.le_bytes 2 0) ++ slow_body u.

Lemma len_fastpath u : len (fastpath_bytes u) = fastpath_size u.
Proof.
  destruct u; cbn [fastpath_bytes fastpath_size];
    unfold color_bytes, large_bytes, fields_bytes, masks_bytes, mask_bytes, color_header_size, large_header_size, pad_size;
    len_lia.
Qed.

Lemma writes_fastpath u : update_ok u = true -> writes (write_fastpath u) (fastpath_bytes u).
Proof.
  destruct u; cbn [update_ok write_fastpath fastpath_bytes]; intros H; bools.
  - apply writes_ret.
  - apply writes_ret.
  - repeat wstep.
  - apply writes_assert; [by apply Z.eqb_eq|by apply writes_color].
  - wstep; [apply writes_bytes|by apply writes_color].
  - by apply writes_large.
  - apply writes_bytes.
Qed.

Lemma reads_position x y : u16_ok x = true -> u16_ok y = true ->
  reads decode_position (Writer.le_bytes 2 x ++ Writer.le_bytes 2 y) [] (eq (Position x y)).
Proof.
  intros Hx Hy. widths. unfold decode_position. rstep. rewrite <- (app_nil_r (Writer.le_bytes 2 y)). do 2 rstep.
  by apply reads_ret.
Qed.

Lemma reads_cached i : u16_ok i = true -> reads decode_cached (Writer.le_bytes 2 i) [] (eq (CachedPointer i)).
Proof.
  intros Hi. widths. unfold decode_cached. rewrite <- (app_nil_r (Writer.le_bytes 2 i)). do 2 rstep. by apply reads_ret.
Qed.

(** A decoded shape becomes an update. *)
Lemma reads_pointer_update (p : Dec Shape) (f : Shape -> Update) e s :
  reads p e [] (eq s) -> reads (let* x := p in dret (f x)) e [] (eq (f s)).
Proof. intros H. eapply reads_bind_nil; [exact H|]. intros ? <-. by apply reads_ret. Qed.

Lemma reads_fastpath u : update_ok u = true ->
  reads (decode_fastpath (fastpath_code u)) (fastpath_bytes u) [] (eq u).
Proof.
  destruct u; cbn [update_ok fastpath_code fastpath_bytes]; intros H; bools; unfold decode_fastpath; cbn -[reads].
  - eapply reads_bind_nil; [apply reads_expect_end|]. intros _ _. by apply reads_ret.
  - eapply reads_bind_nil; [apply reads_expect_end|]. intros _ _. by apply reads_ret.
  - by apply reads_position.
  - apply (reads_pointer_update _ ColorPointer). subst. replace 24 with (xor_bpp shape). by apply reads_color.
  - apply (reads_pointer_update _ NewPointer). by apply reads_new.
  - apply (reads_pointer_update _ LargePointer). by apply reads_large.
  - by apply reads_cached.
Qed.

Lemma writes_slow u : update_ok u = true -> is_large u = false -> writes (encode_slow_path u) (slow_bytes u).
Proof.
  intros H Hl. unfold encode_slow_path, slow_bytes. apply writes_assert; [by rewrite Hl|].
  assert (forall t m e, writes m e -> writes (pointer_header t ;;; m) ((Writer.le_bytes 2 t ++ Writer.le_bytes 2 0) ++ e)) as Hh.
  { intros t m e Hm. apply writes_seq; [|done]. unfold pointer_header. repeat wstep. }
  destruct u; try discriminate Hl; cbn [update_ok] in H; bools.
  - apply Hh, writes_bytes.
  - apply Hh, writes_bytes.
  - apply Hh. cbn [slow_body fastpath_bytes]. repeat wstep.
  - apply writes_assert; [by apply Z.eqb_eq|]. apply Hh. by apply writes_color.
  - apply Hh. cbn [slow_body fastpath_bytes]. apply writes_seq; [apply writes_bytes|by apply writes_color].
  - apply Hh, writes_bytes.
Qed.

Lemma reads_slow u : update_ok u = true -> is_large u = false -> reads decode_slow_path (slow_bytes u) [] (eq u).
Proof.
  intros H Hl. unfold decode_slow_path, slow_bytes. rewrite <- app_assoc. rstep.
  assert (0 <= slow_type u < 65536) as Ht by (destruct u; by unfold slow_type). do 2 rstep.
  destruct u; try discriminate Hl; cbn [slow_type slow_body update_ok] in *; bools;
    lazymatch goal with |- reads ?p _ _ _ => let p' := eval cbn -[dbind ReaderOps.u32le decode_position
      decode_cached decode_color_attribute decode_new_attribute] in p in change p with p' end.
  - rewrite <- (app_nil_r (Writer.le_bytes 4 _)). eapply reads_bind; [by apply reads_u32le|]. intros ? <-. rstep.
    by apply reads_ret.
  - rewrite <- (app_nil_r (Writer.le_bytes 4 _)). eapply reads_bind; [by apply reads_u32le|]. intros ? <-. rstep.
    by apply reads_ret.
  - by apply reads_position.
  - apply (reads_pointer_update _ ColorPointer). replace 24 with (xor_bpp shape). by apply reads_color.
  - apply (reads_pointer_update _ NewPointer). by apply reads_new.
  - by apply reads_cached.
Qed.

(** a pointer update is encoded as it is read back, on both paths.  For every
    update whose fields fit and whose shape passes [validate], [encode_fastpath]
    trips no assertion (in particular the casts of the mask lengths to 16 bits
    lose nothing), writes exactly [fastpath_size] octets, and under the update
    code it returns [decode_fastpath] gives the same update back; the slow path
    does the same for every update it has a form for, that is all but the large
    pointers, which it asserts away. *)
Theorem pointer_roundtrip (u : Update) (b : Z) :
  update_ok u = true ->
  (exists e, encode_fastpath u [] = Some (fastpath_code u, e) /\ len e = fastpath_size u /\
     decode_fastpath (fastpath_code u) (Reader.make e b) = Ok (u, Reader.mk e [] b)) /\
  (if is_large u then Writer.run (encode_slow_path u) = None
   else exists e, Writer.run (encode_slow_path u) = Some e /\
     decode_slow_path (Reader.make e b) = Ok (u, Reader.mk e [] b)).
Proof.
  intros H. split.
  - exists (fastpath_bytes u). split_and!; [|apply len_fastpath|by apply reads_run, reads_fastpath].
    unfold encode_fastpath, ebind. rewrite (writes_fastpath u H). done.
  - destruct (is_large u) eqn:E; [by unfold Writer.run, encode_slow_path, ebind, eassert; rewrite E|].
    exists (slow_bytes u). split; [by apply writes_run, writes_slow|by apply reads_run, reads_slow].
Qed.

(** A 3 by 2 pointer of 24 bits a pixel: rows of ten and of two octets. *)
Definition sample_shape : Shape :=
  mkShape 24 5 1 1 3 2 (replicate 20 (byte_of 0x7F)) (replicate 4 (byte_of 0xE0)).

Lemma pointer_roundtrip_witness :
  update_ok (ColorPointer sample_shape) = true /\
  exists e, encode_fastpath (ColorPointer sample_shape) [] = Some (color_pointer, e) /\ len e = 39 /\
            decode_fastpath color_pointer (Reader.make e 0) = Ok (ColorPointer sample_shape, Reader.mk e [] 0).
Proof.
  split; [vm_compute; reflexivity|].
  destruct (pointer_roundtrip (ColorPointer sample_shape) 0) as ((e & He & Hl & Hd) & _); [vm_compute; reflexivity|].
  exists e. split; [exact He|]. split; [rewrite Hl; vm_compute; reflexivity|exact Hd].
Defined.

End Pointer.
