(* ===== verification/Svc.v ===== *)
(** * Static virtual channels

    Models [src/src/farland/channels/svc.hpp] and [svc.cpp]: the channel PDU
    header, the chunking of a channel message and the [Reassembler] of one
    channel.  [svc_transport] is the component seen through [Transport]. *)

From S2P Require Import Prelude Buffers CodecLogic Transport.
Open Scope Z_scope.

Module Svc.

Definition chunk_length : Z := 1600.
Definition max_chunk_length : Z := 16256.
Definition header_size : Z := 8.

Definition flag_first : Z := 0x00000001.
Definition flag_last : Z := 0x00000002.
Definition flag_show_protocol : Z := 0x00000010.
Definition flag_packet_compressed : Z := 0x00200000.

Record ChunkHeader := mkHeader { length : Z; flags : Z }.

Definition encode (h : ChunkHeader) : Enc unit :=
  Writer.u32le (length h) ;;;
  Writer.u32le (flags h).

Definition decode_header : Dec ChunkHeader :=
  let* l := ReaderOps.u32le in
  let* f := ReaderOps.u32le in
  dret (mkHeader l f).

Definition negotiated_chunk_length (server_chunk_size client_chunk_size : option Z) : Z :=
  match server_chunk_size, client_chunk_size with
  | Some s, Some _ => if s <? chunk_length then chunk_length
                      else if max_chunk_length <? s then max_chunk_length else s
  | _, _ => chunk_length
  end.

(** One iteration of the loop of [encode_chunks]: the chunk at [offset]. *)
Definition encode_chunk (message : list byte) (total common_flags offset size : Z) : Enc unit :=
  let fl := common_flags in
  let fl := if offset =? 0 then Z.lor fl flag_first else fl in
  let fl := if offset + size =? len message then Z.lor fl flag_last else fl in
  encode (mkHeader total fl) ;;;
  Writer.bytes (take (Z.to_nat size) (drop (Z.to_nat offset) message)).

(** The [do ... while (offset < message.size())] loop. *)
Fixpoint chunk_loop (fuel : nat) (message : list byte) (max_chunk total common_flags offset : Z)
  : option (list (list byte)) :=
  let size := Z.min max_chunk (len message - offset) in
  match Writer.run (encode_chunk message total common_flags offset size) with
  | None => None
  | Some chunk =>
      let offset := offset + size in
      if offset <? len message then
        match fuel with
        | O => None
        | S fuel' => (chunk ::.) <$> chunk_loop fuel' message max_chunk total common_flags offset
        end
      else Some [chunk]
  end.

(** [None]: a failed [FARLAND_ASSERT]. *)
Definition encode_chunks (message : list byte) (max_chunk : Z) : option (list (list byte)) :=
  if (0 <? max_chunk) && (len message <=? 2 ^ 32 - 1) then
    let total := wrap 32 (len message) in
    let common_flags := if max_chunk <? len message then flag_show_protocol else 0 in
    chunk_loop (List.length message) message max_chunk total common_flags 0
  else None.

(** ** Reassembler *)

Record Reassembler := mkReassembler {
  max_message_size_ : Z;
  max_chunk_ : Z;
  total_ : option Z;
  buffer_ : list byte }.

Definition make (max_message_size max_chunk : Z) : Reassembler :=
  mkReassembler max_message_size max_chunk None [].

Definition in_progress (r : Reassembler) : bool := bool_decide (is_Some (total_ r)).

Definition set (r : Reassembler) (total : option Z) (buffer : list byte) : Reassembler :=
  mkReassembler (max_message_size_ r) (max_chunk_ r) total buffer.

(** The chunk's data after its header was read and checked. *)
Definition process_chunk (r : Reassembler) (h : ChunkHeader) (data : list byte)
  : Result (option (list byte)) * Reassembler :=
  let first := has_bits (flags h) flag_first in
  let last := has_bits (flags h) flag_last in
  if first then
    match total_ r with
    | Some _ => (fail invalid_value "first static virtual channel chunk inside a message" 4, r)
    | None =>
        if last then
          if negb (len data =? length h)
          then (fail invalid_length "static virtual channel chunk disagrees with its length" 0, r)
          else (Ok (Some data), r)
        else if length h <=? len data
        then (fail invalid_length "first static virtual channel chunk holds the whole message" 0, r)
        else (Ok None, set r (Some (length h)) data)
    end
  else
    match total_ r with
    | None => (fail invalid_value "static virtual channel chunk without a first chunk" 4, r)
    | Some total =>
        if negb (length h =? total)
        then (fail invalid_length "static virtual channel length changed between chunks" 0, r)
        else if wrap 64 (total - len (buffer_ r)) <? len data
        then (fail invalid_length "static virtual channel chunks overrun the message" header_size, r)
        else
          let r := set r (Some total) (buffer_ r ++ data) in
          if negb last then (Ok None, r)
          else if negb (len (buffer_ r) =? total)
          then (fail invalid_length "last static virtual channel chunk ends early" header_size, r)
          else (Ok (Some (buffer_ r)), set r None [])
    end.

Definition process (r : Reassembler) (pdu : list byte) : Result (option (list byte)) * Reassembler :=
  match decode_header (Reader.make pdu 0) with
  | Err e => (Err e, r)
  | Ok (h, rd) =>
      let data := Reader.rest rd in
      if has_bits (flags h) flag_packet_compressed
      then (fail unsupported "compressed static virtual channel data" 4, r)
      else if max_chunk_ r <? len data
      then (fail limit_exceeded "static virtual channel chunk above the chunk size" header_size, r)
      else if max_message_size_ r <? length h
      then (fail limit_exceeded "static virtual channel message too large" 0, r)
      else process_chunk r h data
  end.

Definition add (r : Reassembler) (pdu : list byte) : Result (option (list byte)) * Reassembler :=
  match process r pdu with
  | (Err e, r) => (Err e, set r None [])
  | ok => ok
  end.

(** ** The transport *)

(** The limits of a channel: sender's chunk size, receiver's limits. *)
Record Limits := mkLimits { send_chunk : Z; max_message : Z; recv_chunk : Z }.

Definition svc_transport (l : Limits) : Transport (list byte) (list byte) Reassembler := {|
  t_admissible m := len m <= max_message l /\ len m < 2 ^ 32 /\ 0 < send_chunk l <= recv_chunk l;
  t_send m := encode_chunks m (send_chunk l);
  t_idle := make (max_message l) (recv_chunk l);
  t_feed := add |}.

(** ** Chunks *)

Definition chunk_bytes (total fl : Z) (d : list byte) : list byte :=
  Writer.le_bytes 4 total ++ Writer.le_bytes 4 fl ++ d.

Definition chunk_flags (m : list byte) (common offset size : Z) : Z :=
  let fl := if offset =? 0 then Z.lor common flag_first else common in
  if offset + size =? len m then Z.lor fl flag_last else fl.

Lemma run_encode_chunk m total common offset size :
  Writer.run (encode_chunk m total common offset size) =
    Some (chunk_bytes total (chunk_flags m common offset size)
                      (take (Z.to_nat size) (drop (Z.to_nat offset) m))).
Proof.
  apply writes_run. unfold encode_chunk, encode, chunk_bytes, chunk_flags. cbn [length flags].
  rewrite app_assoc. apply writes_seq; repeat wstep.
Qed.

Lemma decode_chunk total fl d :
  0 <= total < 2 ^ 32 -> 0 <= fl < 2 ^ 32 ->
  decode_header (Reader.make (chunk_bytes total fl d) 0) =
    Ok (mkHeader total fl, Reader.mk (Writer.le_bytes 4 total ++ Writer.le_bytes 4 fl) d 0).
Proof.
  intros Ht Hf. unfold chunk_bytes.
  assert (reads decode_header (Writer.le_bytes 4 total ++ Writer.le_bytes 4 fl) d (eq (mkHeader total fl))) as H.
  { unfold decode_header. eapply reads_bind; [by apply reads_u32le|]. intros ? <-.
    eapply reads_bind_nil; [by apply reads_u32le|]. intros ? <-. by apply reads_ret. }
  destruct (H [] 0) as (h & Hh & <-). rewrite <- app_assoc in Hh. exact Hh.
Qed.

(** Which flags the chunks of a message carry. *)
Lemma chunk_flags_spec m common offset size :
  common = 0 \/ common = flag_show_protocol ->
  let fl := chunk_flags m common offset size in
  0 <= fl < 2 ^ 32 /\ has_bits fl flag_packet_compressed = false /\
  has_bits fl flag_first = (offset =? 0) /\ has_bits fl flag_last = (offset + size =? len m).
Proof.
  intros Hc. unfold chunk_flags.
  destruct Hc as [-> | ->]; destruct (offset =? 0), (offset + size =? len m); vm_compute; by split_and!.
Qed.

(** The receiver in the middle of the message [m]. *)
Definition partial (l : Limits) (m : list byte) (offset : Z) : Reassembler :=
  if offset =? 0 then make (max_message l) (recv_chunk l)
  else mkReassembler (max_message l) (recv_chunk l) (Some (len m)) (take (Z.to_nat offset) m).

Definition size_at (l : Limits) (m : list byte) (offset : Z) : Z := Z.min (send_chunk l) (len m - offset).

Definition data_at (l : Limits) (m : list byte) (offset : Z) : list byte :=
  take (Z.to_nat (size_at l m offset)) (drop (Z.to_nat offset) m).

Lemma svc_add_chunk l m common offset :
  t_admissible (svc_transport l) m ->
  common = 0 \/ common = flag_show_protocol ->
  0 <= offset <= len m -> (offset = len m -> offset = 0) ->
  let size := size_at l m offset in
  add (partial l m offset)
      (chunk_bytes (len m) (chunk_flags m common offset size) (data_at l m offset)) =
    if offset + size <? len m then (Ok None, partial l m (offset + size))
    else (Ok (Some m), make (max_message l) (recv_chunk l)).
Proof.
  intros (Hmax & H32 & Hs) Hc Ho Hend size. pose proof (len_nonneg m).
  destruct (chunk_flags_spec m common offset size Hc) as (Hfl & F1 & F2 & F3).
  assert (len (data_at l m offset) = size) as Hd by (unfold data_at, size_at in *; subst size; len_lia).
  assert (take (Z.to_nat offset) m ++ data_at l m offset = take (Z.to_nat (offset + size)) m) as Et.
  { unfold data_at. fold size. subst size. unfold size_at. rewrite Z2Nat.inj_add by lia. by rewrite take_take_drop. }
  assert (max_chunk_ (partial l m offset) = recv_chunk l /\ max_message_size_ (partial l m offset) = max_message l)
    as [Hmc Hmm] by (unfold partial; by destruct (offset =? 0)).
  assert (size <= recv_chunk l /\ 0 <= size <= len m - offset) as [? ?] by (subst size; unfold size_at; lia).
  unfold add, process. rewrite decode_chunk by lia. cbn [Reader.rest length flags]. rewrite F1, Hmc, Hmm, Hd.
  destruct (Z.ltb_spec (recv_chunk l) size); [lia|].
  destruct (Z.ltb_spec (max_message l) (len m)); [lia|].
  unfold process_chunk. cbn [length flags]. rewrite F2, F3, Hd. unfold partial.
  assert (offset + size = len m -> take (Z.to_nat (offset + size)) m = m) as Hall.
  { intros ->. unfold len. by rewrite Nat2Z.id, firstn_all. }
  destruct (Z.eqb_spec offset 0) as [E0|E0]; cbn [total_ make set max_message_size_ max_chunk_ buffer_].
  - rewrite E0 in *. change (data_at l m 0 = take (Z.to_nat (0 + size)) m) in Et.
    destruct (Z.eqb_spec (0 + size) (len m)) as [El|El].
    + rewrite (proj2 (Z.eqb_eq size (len m))) by lia. cbn [negb]. destruct (Z.ltb_spec (0 + size) (len m)); [lia|].
      by rewrite Et, Hall.
    + destruct (Z.leb_spec (len m) size); [lia|]. destruct (Z.ltb_spec (0 + size) (len m)); [|lia].
      assert (0 + size <> 0) as Hne by (subst size; unfold size_at in *; lia).
      by rewrite (proj2 (Z.eqb_neq (0 + size) 0) Hne), Et.
  - rewrite Z.eqb_refl. cbn [negb]. rewrite Et. unfold wrap.
    rewrite Z.mod_small by len_lia.
    destruct (Z.ltb_spec (len m - len (take (Z.to_nat offset) m)) size); [len_lia|].
    destruct (Z.eqb_spec (offset + size) (len m)) as [El|El]; cbn [negb].
    + destruct (Z.ltb_spec (offset + size) (len m)); [lia|]. rewrite Hall by done. by rewrite Z.eqb_refl.
    + destruct (Z.ltb_spec (offset + size) (len m)); [|lia].
      by rewrite (proj2 (Z.eqb_neq (offset + size) 0)) by lia.
Qed.

Lemma chunk_loop_delivers l m common fuel offset :
  t_admissible (svc_transport l) m ->
  common = 0 \/ common = flag_show_protocol ->
  0 <= offset <= len m -> (offset = len m -> offset = 0) -> len m - offset <= Z.of_nat fuel ->
  exists ps, chunk_loop fuel m (send_chunk l) (len m) common offset = Some ps /\
    feed_all (svc_transport l) (partial l m offset) ps = Ok ([m], t_idle (svc_transport l)) /\
    Forall (fun p => len p <= header_size + send_chunk l) ps.
Proof.
  intros Ha Hc. revert offset. induction fuel as [|fuel IH]; intros offset Ho Hend Hf;
    pose proof (svc_add_chunk l m common offset Ha Hc Ho Hend) as Hadd; cbn zeta in Hadd;
    destruct Ha as (Hmax & H32 & Hs); cbn [chunk_loop]; rewrite run_encode_chunk;
    fold (size_at l m offset); fold (data_at l m offset);
    set (p := chunk_bytes _ _ _) in *;
    assert (0 <= size_at l m offset <= send_chunk l /\ (offset < len m -> 0 < size_at l m offset) /\
            offset + size_at l m offset <= len m) as (Hsz & Hpos & Hle) by (unfold size_at; lia);
    assert (len p <= header_size + send_chunk l) as Hp
      by (subst p; unfold chunk_bytes, data_at, header_size; len_lia).
  - assert (offset = len m) as E by lia. destruct (Z.ltb_spec (offset + size_at l m offset) (len m)); [lia|].
    exists [p]. split_and!; [done| |by constructor]. cbn [feed_all t_feed svc_transport]. by rewrite Hadd.
  - destruct (Z.ltb_spec (offset + size_at l m offset) (len m)) as [Hlt|Hge].
    + destruct (IH (offset + size_at l m offset)) as (ps & Hps & Hfeed & Hall); [lia..|].
      exists (p :: ps). rewrite Hps. split_and!; [done| |by constructor].
      cbn [feed_all t_feed svc_transport]. rewrite Hadd. by rewrite Hfeed.
    + exists [p]. split_and!; [done| |by constructor]. cbn [feed_all t_feed svc_transport]. by rewrite Hadd.
Qed.

Lemma svc_delivers l m :
  t_admissible (svc_transport l) m ->
  exists ps, t_send (svc_transport l) m = Some ps /\
    feed_all (svc_transport l) (t_idle (svc_transport l)) ps = Ok ([m], t_idle (svc_transport l)) /\
    Forall (fun p => len p <= header_size + send_chunk l) ps.
Proof.
  intros Ha. pose proof Ha as (Hmax & H32 & Hs). pose proof (len_nonneg m).
  cbn [t_send svc_transport]. unfold encode_chunks.
  destruct (Z.ltb_spec 0 (send_chunk l)); [|lia]. destruct (Z.leb_spec (len m) (2 ^ 32 - 1)); [|lia].
  cbn [andb]. unfold wrap. rewrite Z.mod_small by lia.
  apply (chunk_loop_delivers l m _ _ 0 Ha); [destruct (_ <? _); auto|lia|done|unfold len; lia].
Qed.

#[export] Instance svc_reliable l : Reliable (svc_transport l).
Proof. intros m Hm. destruct (svc_delivers l m Hm) as (ps & ? & ? & _). eauto. Qed.

(** any sequence of messages within the limits, chunked one after the other
    by [encode_chunks] and fed chunk by chunk to a fresh [Reassembler], comes out
    complete, unaltered and in order, whatever the chunk size; no chunk exceeds
    the chunk size plus the 8-byte header, and no assertion fails. *)
Theorem svc_messages_delivered (l : Limits) (ms : list (list byte)) :
  Forall (t_admissible (svc_transport l)) ms ->
  exists chunks,
    send_all (svc_transport l) ms = Some chunks /\
    feed_all (svc_transport l) (make (max_message l) (recv_chunk l)) chunks =
      Ok (ms, make (max_message l) (recv_chunk l)) /\
    Forall (fun c => len c <= header_size + send_chunk l) chunks.
Proof.
  intros H. destruct (messages_in_order (svc_transport l) ms H) as (chunks & Hs & Hf).
  exists chunks. split_and!; [done|done|]. clear Hf. revert chunks Hs.
  induction H as [|m ms Hm _ IH]; intros chunks Hs; cbn [send_all] in Hs.
  - injection Hs as <-. constructor.
  - destruct (svc_delivers l m Hm) as (ps & E & _ & Hl). rewrite E in Hs.
    destruct (send_all _ ms) as [ps'|]; [|done]. injection Hs as <-. apply Forall_app. auto.
Qed.

Lemma svc_messages_delivered_witness :
  Forall (t_admissible (svc_transport (mkLimits 2 100 2))) [byte_of <$> [1; 2; 3; 4; 5]; []] /\
  exists chunks,
    send_all (svc_transport (mkLimits 2 100 2)) [byte_of <$> [1; 2; 3; 4; 5]; []] = Some chunks /\
    feed_all (svc_transport (mkLimits 2 100 2)) (make 100 2) chunks =
      Ok ([byte_of <$> [1; 2; 3; 4; 5]; []], make 100 2) /\
    Forall (fun c => len c <= header_size + 2) chunks.
Proof.
  assert (Forall (t_admissible (svc_transport (mkLimits 2 100 2))) [byte_of <$> [1; 2; 3; 4; 5]; []]) as H
    by (repeat constructor; vm_compute; congruence).
  split; [exact H|]. exact (svc_messages_delivered (mkLimits 2 100 2) _ H).
Defined.

(** ** The receiver's invariant *)

Definition wf (r : Reassembler) : Prop :=
  match total_ r with
  | None => buffer_ r = []
  | Some total => len (buffer_ r) <= total <= max_message_size_ r /\ total < 2 ^ 32
  end.

Lemma decode_header_range pdu h rd :
  decode_header (Reader.make pdu 0) = Ok (h, rd) -> 0 <= length h < 2 ^ 32.
Proof.
  unfold decode_header. intros (t & r1 & H1 & H)%dbind_inv.
  apply dbind_inv in H as (f & r2 & _ & H). injection H as <- _.
  apply read_le_inv in H1 as (? & _ & _ & H & _). exact H.
Qed.

Lemma svc_add_wf r pdu res r' :
  wf r -> add r pdu = (res, r') ->
  wf r' /\ max_message_size_ r' = max_message_size_ r /\ max_chunk_ r' = max_chunk_ r /\
  match res with
  | Err _ => r' = make (max_message_size_ r) (max_chunk_ r)
  | Ok (Some m) => len m <= max_message_size_ r /\ in_progress r' = false
  | Ok None => in_progress r' = true
  end.
Proof.
  unfold add, process, process_chunk, wf, make, in_progress. intros Hwf H.
  destruct (decode_header (Reader.make pdu 0)) as [[h rd]|] eqn:Ed.
  { apply decode_header_range in Ed. destruct h as [t fl]. cbn [length flags] in *.
    set (d := Reader.rest rd) in *. pose proof (len_nonneg d). pose proof (len_nonneg (buffer_ r)).
    destruct (total_ r) as [total|] eqn:Et; repeat match type of H with
      | context [if ?c then _ else _] => let E := fresh "E" in destruct c eqn:E
      end; injection H as <- <-; bools; subst; cbn [total_ buffer_ max_message_size_ max_chunk_ set] in *;
      unfold wrap in *; rewrite ?Z.mod_small in * by lia; rewrite ?len_app in *;
      rewrite ?Et; split_and!; try done; try lia. }
  injection H as <- <-. by split_and!.
Qed.

(** A peer's chunks in any order, the results and the final state. *)
Fixpoint add_pdus (r : Reassembler) (pdus : list (list byte))
  : list (Result (option (list byte))) * Reassembler :=
  match pdus with
  | [] => ([], r)
  | p :: pdus' =>
      let (res, r1) := add r p in
      let (ress, r2) := add_pdus r1 pdus' in (res :: ress, r2)
  end.

(** whatever bytes a peer sends on the channel, the reassembler buffers
    nothing between messages and never more than the length the message
    announced, which is within [max_message_size]; every message delivered is
    within that limit; and after an error the partial message is dropped and the
    reassembler is as new. *)
Theorem svc_reassembler_bounded (max_message_size max_chunk : Z) (pdus : list (list byte)) ress r :
  add_pdus (make max_message_size max_chunk) pdus = (ress, r) ->
  wf r /\ max_message_size_ r = max_message_size /\
  Forall (fun res => match res with Ok (Some m) => len m <= max_message_size | _ => True end) ress /\
  (forall e, last ress = Some (Err e) -> r = make max_message_size max_chunk).
Proof.
  assert (wf (make max_message_size max_chunk)) as Hwf by done. revert Hwf.
  assert (max_message_size_ (make max_message_size max_chunk) = max_message_size) as Hm by done. revert Hm.
  assert (max_chunk_ (make max_message_size max_chunk) = max_chunk) as Hc by done. revert Hc.
  generalize (make max_message_size max_chunk) at 1 2 3 4 as r0. revert ress r.
  induction pdus as [|p pdus IH]; intros ress r r0 Hc Hm Hwf H; cbn [add_pdus] in H.
  - injection H as <- <-. split_and!; [done|done|constructor|done].
  - destruct (add r0 p) as [res r1] eqn:Ea. destruct (add_pdus r1 pdus) as [ress' r2] eqn:Ep.
    injection H as <- <-. apply svc_add_wf in Ea as (Hw1 & Hm1 & Hc1 & Hres); [|done].
    destruct (IH ress' r2 r1) as (H1 & H2 & H3 & H4); [congruence..|done|done|].
    split_and!; [done|done| |].
    + constructor; [|done]. destruct res as [[m|]|]; [|done..]. rewrite <- Hm. tauto.
    + intros e Hl. destruct ress' as [|res' ress'].
      * cbn in Hl. injection Hl as ->. destruct pdus as [|q pdus]; cbn in Ep.
        { injection Ep as <-. by rewrite Hres, Hm, Hc. }
        destruct (add r1 q) as [? r3]. by destruct (add_pdus r3 pdus).
      * apply (H4 e). by rewrite last_cons_cons in Hl.
Qed.

Lemma svc_reassembler_bounded_witness :
  let r := mkReassembler 10 4 (Some 3) (byte_of <$> [7; 8]) in
  wf r /\ max_message_size_ r = 10 /\
  Forall (fun res => match res with Ok (Some m) => len m <= 10 | _ => True end) [Ok None : Result (option (list byte))] /\
  (forall e, last [Ok None : Result (option (list byte))] = Some (Err e) -> r = make 10 4).
Proof.
  apply (svc_reassembler_bounded 10 4 [byte_of <$> [3; 0; 0; 0; 1; 0; 0; 0; 7; 8]]). vm_compute. reflexivity.
Defined.

End Svc.
