(* ===== verification/Drdynvc.v ===== *)
(** * Dynamic virtual channel PDUs

    Models [src/src/farland/channels/drdynvc.hpp] and [drdynvc.cpp]: the PDUs of
    the [drdynvc] static channel in both directions, the splitting of a channel
    message into data PDUs and the [MessageReassembler] of one channel.
    [dvc_transport] is a channel seen through [Transport]. *)

From S2P Require Import Prelude Buffers CodecLogic Transport Svc.
Open Scope Z_scope.

Module Drdynvc.

Definition max_pdu_size : Z := 1600.
Definition max_single_data_size : Z := 1590.
Definition max_channel_name_size : nat := 256.

(** Namespace [cmd]. *)
Definition cmd_create : Z := 0x01.
Definition cmd_data_first : Z := 0x02.
Definition cmd_data : Z := 0x03.
Definition cmd_close : Z := 0x04.
Definition cmd_capabilities : Z := 0x05.
Definition cmd_data_first_compressed : Z := 0x06.
Definition cmd_data_compressed : Z := 0x07.
Definition cmd_soft_sync_request : Z := 0x08.
Definition cmd_soft_sync_response : Z := 0x09.

Definition version1 : Z := 1.
Definition version2 : Z := 2.
Definition version3 : Z := 3.

Definition default_priority_charges : list Z := [936; 3276; 9362; 21845].

Definition tcp_flushed : Z := 0x01.
Definition channel_list_present : Z := 0x02.

Record SoftSyncChannelList := mkChannelList { tunnel_type : Z; channel_ids : list Z }.

(** The PDUs that are the same in both directions. *)
Inductive CommonPdu :=
  | DataFirst (channel_id length : Z) (data : list byte)
  | Data (channel_id : Z) (data : list byte)
  | DataFirstCompressed (channel_id length : Z) (data : list byte)
  | DataCompressed (channel_id : Z) (data : list byte)
  | Close (channel_id : Z).

Inductive ClientPdu :=
  | CapsResponse (version : Z)
  | CreateResponse (channel_id creation_status : Z)
  | ClientCommon (pdu : CommonPdu)
  | SoftSyncResponse (tunnels : list Z).

Inductive ServerPdu :=
  | CapsRequest (version : Z) (priority_charges : list Z)
  | CreateRequest (channel_id priority : Z) (name : list byte)
  | ServerCommon (pdu : CommonPdu)
  | SoftSyncRequest (flags number_of_tunnels : Z) (channel_lists : list SoftSyncChannelList).

(** ** Header and variable-length fields *)

Record Header := mkHeader { command : Z; sp : Z; cb_id : Z }.

Definition header_byte (c s i : Z) : Enc Z :=
  eassert ((c <=? 0x0F) && (s <=? 3) && (i <=? 3)) ;;;
  eret (wrap 8 (Z.lor (Z.lor (Z.shiftl c 4) (Z.shiftl s 2)) i)).

Definition read_header : Dec Header :=
  let* byte := ReaderOps.u8 in
  dret (mkHeader (Z.shiftr byte 4) (Z.land (Z.shiftr byte 2) 0x03) (Z.land byte 0x03)).

Definition size_code (value : Z) : Z :=
  if value <=? 0xFF then 0 else if value <=? 0xFFFF then 1 else 2.

Definition field_size (code : Z) : Z :=
  if code =? 0 then 1 else if code =? 1 then 2 else 4.

Definition read_var (code : Z) : Dec Z :=
  if code =? 0 then ReaderOps.u8
  else if code =? 1 then ReaderOps.u16le
  else if code =? 2 then ReaderOps.u32le
  else
    let* o := dask Reader.offset in
    dfail invalid_value "drdynvc field size code 3" o.

Definition write_var (value : Z) : Enc unit :=
  if size_code value =? 0 then Writer.u8 (wrap 8 value)
  else if size_code value =? 1 then Writer.u16le (wrap 16 value)
  else Writer.u32le value.

Definition write_id_pdu (c s channel_id : Z) : Enc unit :=
  let! h := header_byte c s (size_code channel_id) in
  Writer.u8 h ;;;
  write_var channel_id.

(** ** Decoding *)

(** [left] is [max_channel_name_size - name.size()]. *)
Fixpoint name_loop (left : nat) (name : list byte) : Dec (list byte) :=
  let* c := ReaderOps.u8 in
  if c =? 0 then dret name
  else
    match left with
    | O => let* o := dask Reader.offset in dfail limit_exceeded "DVC channel name too long" o
    | S left' => name_loop left' (name ++ [byte_of c])
    end.

Definition read_channel_name : Dec (list byte) :=
  let* name := name_loop max_channel_name_size [] in
  let* o := dask Reader.offset in
  if bool_decide (name = []) then dfail invalid_value "empty DVC channel name" o
  else dret name.

Fixpoint read_u32s (count : nat) : Dec (list Z) :=
  match count with
  | O => dret []
  | S count' =>
      let* v := ReaderOps.u32le in
      let* vs := read_u32s count' in
      dret (v :: vs)
  end.

Fixpoint read_channel_lists (count : nat) : Dec (list SoftSyncChannelList) :=
  match count with
  | O => dret []
  | S count' =>
      let* type := ReaderOps.u32le in
      let* n := ReaderOps.u16le in
      let* remaining := dask Reader.remaining in
      let* o := dask Reader.offset in
      if remaining <? n * 4 then dfail truncated "Soft-Sync channel list exceeds the PDU" o
      else
        let* ids := read_u32s (Z.to_nat n) in
        let* ls := read_channel_lists count' in
        dret (mkChannelList type ids :: ls)
  end.

Definition read_soft_sync_request : Dec ServerPdu :=
  let* _ := ReaderOps.skip 1 in
  let* length := ReaderOps.u32le in
  let* remaining := dask Reader.remaining in
  let* o := dask Reader.offset in
  if (length <? 8) || negb (length - 4 =? remaining)
  then dfail invalid_length "Soft-Sync Request length disagrees with the PDU" o
  else
    let* fl := ReaderOps.u16le in
    let* tunnels := ReaderOps.u16le in
    let* lists := if has_bits fl channel_list_present then read_channel_lists (Z.to_nat tunnels)
                  else dret [] in
    let* _ := ReaderOps.expect_end "Soft-Sync Request" in
    dret (SoftSyncRequest fl tunnels lists).

Definition read_soft_sync_response : Dec ClientPdu :=
  let* _ := ReaderOps.skip 1 in
  let* count := ReaderOps.u32le in
  let* remaining := dask Reader.remaining in
  let* o := dask Reader.offset in
  if (remaining / 4 <? count) || negb (count * 4 =? remaining)
  then dfail invalid_length "Soft-Sync Response tunnel count disagrees with the PDU" o
  else
    let* tunnels := read_u32s (Z.to_nat count) in
    dret (SoftSyncResponse tunnels).

(** [decode_common<Pdu>]; [r.rest()] does not consume. *)
Definition decode_common (h : Header) : Dec CommonPdu :=
  if (command h =? cmd_data_first) || (command h =? cmd_data_first_compressed) then
    let* id := read_var (cb_id h) in
    let* length := read_var (sp h) in
    let* data := dask Reader.rest in
    let* o := dask Reader.offset in
    if command h =? cmd_data_first_compressed then dret (DataFirstCompressed id length data)
    else if length <? len data then dfail invalid_length "DVC Data First holds more than its Length" o
    else dret (DataFirst id length data)
  else if (command h =? cmd_data) || (command h =? cmd_data_compressed) then
    let* id := read_var (cb_id h) in
    let* data := dask Reader.rest in
    if command h =? cmd_data_compressed then dret (DataCompressed id data)
    else dret (Data id data)
  else if command h =? cmd_close then
    let* id := read_var (cb_id h) in
    let* _ := ReaderOps.expect_end "DVC Close" in
    dret (Close id)
  else dfail invalid_value "unknown or misdirected drdynvc command" 0.

(** [std::bit_cast] between a 32-bit pattern and [std::int32_t]. *)
Definition to_int32 (bits : Z) : Z := if bits <? 2 ^ 31 then bits else bits - 2 ^ 32.

Definition read_client_pdu : Dec ClientPdu :=
  let* h := read_header in
  if command h =? cmd_capabilities then
    let* _ := ReaderOps.skip 1 in
    let* v := ReaderOps.u16le in
    let* _ := ReaderOps.expect_end "DVC Capabilities Response" in
    dret (CapsResponse v)
  else if command h =? cmd_create then
    let* id := read_var (cb_id h) in
    let* status := ReaderOps.u32le in
    let* _ := ReaderOps.expect_end "DVC Create Response" in
    dret (CreateResponse id (to_int32 status))
  else if command h =? cmd_soft_sync_response then read_soft_sync_response
  else let* c := decode_common h in dret (ClientCommon c).

Definition decode_client_pdu (message : list byte) : Result ClientPdu :=
  match read_client_pdu (Reader.make message 0) with Ok (p, _) => Ok p | Err e => Err e end.

Fixpoint read_charges (count : nat) : Dec (list Z) :=
  match count with
  | O => dret []
  | S count' =>
      let* c := ReaderOps.u16le in
      let* cs := read_charges count' in
      dret (c :: cs)
  end.

Definition read_server_pdu : Dec ServerPdu :=
  let* h := read_header in
  if command h =? cmd_capabilities then
    let* _ := ReaderOps.skip 1 in
    let* v := ReaderOps.u16le in
    let* charges :=
      if (v =? version2) || (v =? version3) then read_charges 4
      else if negb (v =? version1) then dfail invalid_value "unknown DVC capabilities version" 2
      else dret [0; 0; 0; 0] in
    let* _ := ReaderOps.expect_end "DVC Capabilities Request" in
    dret (CapsRequest v charges)
  else if command h =? cmd_create then
    let* id := read_var (cb_id h) in
    let* name := read_channel_name in
    let* _ := ReaderOps.expect_end "DVC Create Request" in
    dret (CreateRequest id (sp h) name)
  else if command h =? cmd_soft_sync_request then read_soft_sync_request
  else let* c := decode_common h in dret (ServerCommon c).

Definition decode_server_pdu (message : list byte) : Result ServerPdu :=
  match read_server_pdu (Reader.make message 0) with Ok (p, _) => Ok p | Err e => Err e end.

(** ** Encoding *)

Definition write_byte (c s i : Z) : Enc unit :=
  let! h := header_byte c s i in Writer.u8 h.

Fixpoint write_u32s (vs : list Z) : Enc unit :=
  match vs with
  | [] => eret tt
  | v :: vs' => Writer.u32le v ;;; write_u32s vs'
  end.

Fixpoint write_charges (vs : list Z) : Enc unit :=
  match vs with
  | [] => eret tt
  | v :: vs' => Writer.u16le v ;;; write_charges vs'
  end.

Definition encode_common (pdu : CommonPdu) : Enc unit :=
  match pdu with
  | DataFirst id length data =>
      eassert (len data <=? length) ;;;
      write_id_pdu cmd_data_first (size_code length) id ;;;
      write_var length ;;;
      Writer.bytes data
  | Data id data =>
      write_id_pdu cmd_data 0 id ;;;
      Writer.bytes data
  | DataFirstCompressed id length data =>
      write_id_pdu cmd_data_first_compressed (size_code length) id ;;;
      write_var length ;;;
      Writer.bytes data
  | DataCompressed id data =>
      write_id_pdu cmd_data_compressed 0 id ;;;
      Writer.bytes data
  | Close id => write_id_pdu cmd_close 0 id
  end.

Definition soft_sync_length (lists : list SoftSyncChannelList) : Z :=
  fold_left (fun l x => l + (6 + 4 * len (channel_ids x))) lists 8.

Fixpoint write_channel_lists (lists : list SoftSyncChannelList) : Enc unit :=
  match lists with
  | [] => eret tt
  | l :: lists' =>
      Writer.u32le (tunnel_type l) ;;;
      Writer.u16le (wrap 16 (len (channel_ids l))) ;;;
      write_u32s (channel_ids l) ;;;
      write_channel_lists lists'
  end.

Definition encode_server (pdu : ServerPdu) : Enc unit :=
  match pdu with
  | CapsRequest version priority_charges =>
      eassert ((version1 <=? version) && (version <=? version3)) ;;;
      write_byte cmd_capabilities 0 0 ;;;
      Writer.u8 0 ;;;
      Writer.u16le version ;;;
      if version2 <=? version then write_charges priority_charges else eret tt
  | CreateRequest id priority name =>
      eassert (priority <=? 3) ;;;
      eassert (negb (len name =? 0) && (len name <=? Z.of_nat max_channel_name_size)) ;;;
      eassert (bool_decide (byte_of 0 ∉ name)) ;;;
      write_id_pdu cmd_create priority id ;;;
      Writer.bytes name ;;;
      Writer.u8 0
  | ServerCommon pdu => encode_common pdu
  | SoftSyncRequest fl tunnels lists =>
      let present := has_bits fl channel_list_present in
      eassert (if present then len lists =? tunnels else bool_decide (lists = [])) ;;;
      eassert (forallb (fun l => len (channel_ids l) <=? 0xFFFF) lists) ;;;
      let length := soft_sync_length lists in
      eassert (length <=? 2 ^ 32 - 1) ;;;
      write_byte cmd_soft_sync_request 0 0 ;;;
      Writer.u8 0 ;;;
      Writer.u32le (wrap 32 length) ;;;
      Writer.u16le fl ;;;
      Writer.u16le tunnels ;;;
      write_channel_lists lists
  end.

Definition encode_client (pdu : ClientPdu) : Enc unit :=
  match pdu with
  | CapsResponse version =>
      write_byte cmd_capabilities 0 0 ;;;
      Writer.u8 0 ;;;
      Writer.u16le version
  | CreateResponse id status =>
      write_id_pdu cmd_create 0 id ;;;
      Writer.u32le (wrap 32 status)
  | ClientCommon pdu => encode_common pdu
  | SoftSyncResponse tunnels =>
      eassert (len tunnels <=? 2 ^ 32 - 1) ;;;
      write_byte cmd_soft_sync_response 0 0 ;;;
      Writer.u8 0 ;;;
      Writer.u32le (wrap 32 (len tunnels)) ;;;
      write_u32s tunnels
  end.

Definition encode_client_pdu (pdu : ClientPdu) : option (list byte) := Writer.run (encode_client pdu).
Definition encode_server_pdu (pdu : ServerPdu) : option (list byte) := Writer.run (encode_server pdu).

(** The blocks after DATA_FIRST. *)
Fixpoint data_loop (fuel : nat) (channel_id : Z) (message : list byte) (block offset : Z)
  : option (list (list byte)) :=
  if offset <? len message then
    match fuel with
    | O => None
    | S fuel' =>
        let size := Z.min block (len message - offset) in
        match Writer.run (encode_common (Data channel_id (take (Z.to_nat size) (drop (Z.to_nat offset) message)))),
              data_loop fuel' channel_id message block (offset + size) with
        | Some p, Some ps => Some (p :: ps)
        | _, _ => None
        end
    end
  else Some [].

Definition encode_data (channel_id : Z) (message : list byte) : option (list (list byte)) :=
  if len message <=? 2 ^ 32 - 1 then
    if len message <=? max_single_data_size then
      match Writer.run (encode_common (Data channel_id message)) with
      | Some p => Some [p]
      | None => None
      end
    else
      let total := wrap 32 (len message) in
      let id_size := field_size (size_code channel_id) in
      let first_block := max_pdu_size - (1 + id_size + field_size (size_code total)) in
      let block := max_pdu_size - (1 + id_size) in
      let offset := Z.min first_block (len message) in
      match Writer.run (encode_common (DataFirst channel_id total (take (Z.to_nat offset) message))),
            data_loop (List.length message) channel_id message block offset with
      | Some p, Some ps => Some (p :: ps)
      | _, _ => None
      end
  else None.

(** ** MessageReassembler *)

Record MessageReassembler := mkReassembler {
  max_size_ : Z;
  total_ : option Z;
  buffer_ : list byte }.

Definition make (max_message_size : Z) : MessageReassembler := mkReassembler max_message_size None [].

Definition in_progress (r : MessageReassembler) : bool := bool_decide (is_Some (total_ r)).

Definition reset (r : MessageReassembler) : MessageReassembler := mkReassembler (max_size_ r) None [].

Definition first (r : MessageReassembler) (length : Z) (block : list byte)
  : Result (option (list byte)) * MessageReassembler :=
  match total_ r with
  | Some _ => (fail invalid_value "DVC Data First inside a fragmented message" 0, reset r)
  | None =>
      if max_size_ r <? length then (fail limit_exceeded "DVC message too large" 0, r)
      else if length <? len block
      then (fail invalid_length "DVC Data First block exceeds the message length" 0, r)
      else if len block =? length then (Ok (Some block), r)
      else (Ok None, mkReassembler (max_size_ r) (Some length) block)
  end.

Definition next (r : MessageReassembler) (block : list byte)
  : Result (option (list byte)) * MessageReassembler :=
  match total_ r with
  | None =>
      if max_size_ r <? len block then (fail limit_exceeded "DVC message too large" 0, r)
      else (Ok (Some block), r)
  | Some total =>
      if wrap 64 (total - len (buffer_ r)) <? len block
      then (fail invalid_length "DVC data overruns the message length" 0, reset r)
      else
        let buffer := buffer_ r ++ block in
        if len buffer <? total then (Ok None, mkReassembler (max_size_ r) (Some total) buffer)
        else (Ok (Some buffer), mkReassembler (max_size_ r) None [])
  end.

(** ** Headers read back *)

Definition u32 (v : Z) : bool := (0 <=? v) && (v <? 2 ^ 32).
Definition u16 (v : Z) : bool := (0 <=? v) && (v <? 2 ^ 16).

Definition var_bytes (v : Z) : list byte :=
  if v <=? 0xFF then [byte_of v] else if v <=? 0xFFFF then Writer.le_bytes 2 v else Writer.le_bytes 4 v.

Lemma size_code_range v : 0 <= size_code v <= 2.
Proof. unfold size_code. destruct (v <=? 0xFF), (v <=? 0xFFFF); lia. Qed.

Lemma len_var_bytes v : len (var_bytes v) = field_size (size_code v).
Proof. unfold var_bytes, size_code. destruct (v <=? 0xFF), (v <=? 0xFFFF); done. Qed.

Lemma field_size_range c : 1 <= field_size c <= 4.
Proof. unfold field_size. destruct (c =? 0), (c =? 1); lia. Qed.

Lemma writes_var v : u32 v = true -> writes (write_var v) (var_bytes v).
Proof.
  unfold u32, write_var, var_bytes, size_code, wrap. intros H. bools.
  destruct (Z.leb_spec v 0xFF); [rewrite Z.mod_small by lia; apply writes_bytes|].
  destruct (Z.leb_spec v 0xFFFF); cbn [Z.eqb Pos.eqb]; cbn match;
    [rewrite Z.mod_small by lia|]; apply writes_bytes.
Qed.

Lemma reads_var v k : u32 v = true -> reads (read_var (size_code v)) (var_bytes v) k (eq v).
Proof.
  unfold u32, read_var, var_bytes, size_code. intros H. bools.
  destruct (Z.leb_spec v 0xFF); [apply reads_u8; lia|].
  destruct (Z.leb_spec v 0xFFFF); [apply reads_u16le; lia|]. apply reads_u32le; lia.
Qed.

Definition head (c s i : Z) : list byte := [byte_of (16 * c + 4 * s + i)].

Lemma header_byte_value c s i w :
  0 <= c <= 15 -> 0 <= s <= 3 -> 0 <= i <= 3 -> header_byte c s i w = Some (16 * c + 4 * s + i, w).
Proof.
  intros Hc Hs Hi. unfold header_byte, ebind, eassert, eret.
  destruct (Z.leb_spec c 15); [|lia]. destruct (Z.leb_spec s 3); [|lia]. destruct (Z.leb_spec i 3); [|lia].
  cbn [andb]. rewrite (Z.shiftl_mul_pow2 s) by lia. change (2 ^ 2) with 4.
  rewrite lor_disjoint by lia. change (2 ^ 4) with 16.
  replace (c * 16 + s * 4) with (Z.shiftl (c * 4 + s) 2) by (rewrite Z.shiftl_mul_pow2; lia).
  rewrite lor_disjoint by lia. unfold wrap. rewrite Z.mod_small by lia. do 2 f_equal. lia.
Qed.

Lemma writes_byte c s i :
  0 <= c <= 15 -> 0 <= s <= 3 -> 0 <= i <= 3 -> writes (write_byte c s i) (head c s i).
Proof. intros Hc Hs Hi w. unfold write_byte, ebind. by rewrite header_byte_value. Qed.

Lemma writes_id_pdu c s id :
  0 <= c <= 15 -> 0 <= s <= 3 -> u32 id = true ->
  writes (write_id_pdu c s id) (head c s (size_code id) ++ var_bytes id).
Proof.
  intros Hc Hs Hid w. pose proof (size_code_range id). unfold write_id_pdu. unfold ebind at 1.
  rewrite header_byte_value by lia. apply (writes_seq _ _ [_]); [apply writes_bytes|by apply writes_var].
Qed.

Lemma reads_header c s i k :
  0 <= c <= 15 -> 0 <= s <= 3 -> 0 <= i <= 3 -> reads read_header (head c s i) k (eq (mkHeader c s i)).
Proof.
  intros Hc Hs Hi. unfold read_header, head. rstep. apply reads_ret.
  rewrite !(land_low _ 3 2), !Z.shiftr_div_pow2 by (done || lia).
  change (2 ^ 2) with 4. change (2 ^ 4) with 16. f_equal; lia.
Qed.

(** ** PDUs of both directions read back *)

(** Every data PDU fits the wire when its fields have their widths. *)
Definition common_ok (pdu : CommonPdu) : bool :=
  match pdu with
  | DataFirst id length data => u32 id && u32 length && (len data <=? length)
  | Data id _ | DataCompressed id _ | Close id => u32 id
  | DataFirstCompressed id length _ => u32 id && u32 length
  end.

Definition common_bytes (pdu : CommonPdu) : list byte :=
  match pdu with
  | DataFirst id length data =>
      head cmd_data_first (size_code length) (size_code id) ++ var_bytes id ++ var_bytes length ++ data
  | Data id data => head cmd_data 0 (size_code id) ++ var_bytes id ++ data
  | DataFirstCompressed id length data =>
      head cmd_data_first_compressed (size_code length) (size_code id) ++ var_bytes id ++ var_bytes length ++ data
  | DataCompressed id data => head cmd_data_compressed 0 (size_code id) ++ var_bytes id ++ data
  | Close id => head cmd_close 0 (size_code id) ++ var_bytes id
  end.

Lemma writes_common pdu : common_ok pdu = true -> writes (encode_common pdu) (common_bytes pdu).
Proof.
  intros H. destruct pdu as [id l d|id d|id l d|id d|id]; cbn [common_ok encode_common common_bytes] in *; bools;
    try (apply writes_assert; [by apply Z.leb_le|]);
    try pose proof (size_code_range l); rewrite ?app_assoc; rewrite <- ?(app_assoc _ (var_bytes l));
    repeat first [apply writes_id_pdu; [done|lia|done] | apply writes_var; done | apply writes_bytes
                 | apply writes_seq].
Qed.

Ltac pick_command :=
  cbn [Z.eqb Pos.eqb orb cmd_data cmd_data_first cmd_data_first_compressed cmd_data_compressed cmd_close
       cmd_create cmd_capabilities cmd_soft_sync_request cmd_soft_sync_response].

(** The command a data PDU is sent with and what [decode_common] makes of the rest. *)
Lemma common_reads pdu :
  common_ok pdu = true ->
  exists h e, common_bytes pdu = head (command h) (sp h) (cb_id h) ++ e /\
    command h ∈ [cmd_data_first; cmd_data; cmd_close; cmd_data_first_compressed; cmd_data_compressed] /\
    0 <= sp h <= 3 /\ 0 <= cb_id h <= 3 /\
    forall s b, exists r', decode_common h (Reader.mk s e b) = Ok (pdu, r').
Proof.
  intros H. destruct pdu as [id l d|id d|id l d|id d|id]; cbn [common_ok common_bytes] in *; bools;
    pose proof (size_code_range id); try pose proof (size_code_range l).
  - exists (mkHeader cmd_data_first (size_code l) (size_code id)). eexists.
    split_and!; [done|by apply (bool_decide_unpack _)|cbn [sp cb_id]; lia..|]. intros s b. unfold decode_common. cbn [command sp cb_id].
    pick_command.
    destruct (reads_var id (var_bytes l ++ d) ltac:(done) s b) as (? & E1 & <-).
    destruct (reads_var l d ltac:(done) (s ++ var_bytes id) b) as (? & E2 & <-).
    unfold dbind at 1. rewrite E1. unfold dbind at 1. rewrite E2, !dbind_ask. cbn [Reader.rest].
    destruct (Z.ltb_spec l (len d)); [lia|]. by eexists.
  - exists (mkHeader cmd_data 0 (size_code id)). eexists.
    split_and!; [done|by apply (bool_decide_unpack _)|cbn [sp cb_id]; lia..|]. intros s b. unfold decode_common. cbn [command sp cb_id].
    destruct (reads_var id d ltac:(done) s b) as (? & E1 & <-). pick_command.
    unfold dbind at 1. rewrite E1. by eexists.
  - exists (mkHeader cmd_data_first_compressed (size_code l) (size_code id)). eexists.
    split_and!; [done|by apply (bool_decide_unpack _)|cbn [sp cb_id]; lia..|]. intros s b. unfold decode_common. cbn [command sp cb_id].
    pick_command.
    destruct (reads_var id (var_bytes l ++ d) ltac:(done) s b) as (? & E1 & <-).
    destruct (reads_var l d ltac:(done) (s ++ var_bytes id) b) as (? & E2 & <-).
    unfold dbind at 1. rewrite E1. unfold dbind at 1. rewrite E2, !dbind_ask. by eexists.
  - exists (mkHeader cmd_data_compressed 0 (size_code id)). eexists.
    split_and!; [done|by apply (bool_decide_unpack _)|cbn [sp cb_id]; lia..|]. intros s b. unfold decode_common. cbn [command sp cb_id].
    destruct (reads_var id d ltac:(done) s b) as (? & E1 & <-). pick_command.
    unfold dbind at 1. rewrite E1. by eexists.
  - exists (mkHeader cmd_close 0 (size_code id)). eexists.
    split_and!; [done|by apply (bool_decide_unpack _)|cbn [sp cb_id]; lia..|]. intros s b. unfold decode_common. cbn [command sp cb_id].
    destruct (reads_var id [] ltac:(done) s b) as (? & E1 & <-). rewrite app_nil_r in E1.
    pick_command. unfold dbind at 1. rewrite E1.
    unfold dbind, ReaderOps.expect_end. rewrite empty_mk, bool_decide_true by done. by eexists.
Qed.

(** Byte sequences of the repeated fields. *)
Definition u32s_bytes (vs : list Z) : list byte := concat (Writer.le_bytes 4 <$> vs).
Definition charges_bytes (vs : list Z) : list byte := concat (Writer.le_bytes 2 <$> vs).

Lemma len_u32s_bytes vs : len (u32s_bytes vs) = 4 * len vs.
Proof. induction vs as [|v vs IH]; [done|]. unfold u32s_bytes in *. cbn. len_lia. Qed.

Lemma writes_u32s vs : writes (write_u32s vs) (u32s_bytes vs).
Proof. induction vs as [|v vs IH]; [apply writes_ret|]. apply writes_seq; [apply writes_bytes|done]. Qed.

Lemma writes_charges vs : writes (write_charges vs) (charges_bytes vs).
Proof. induction vs as [|v vs IH]; [apply writes_ret|]. apply writes_seq; [apply writes_bytes|done]. Qed.

Lemma reads_u32s vs k :
  forallb u32 vs = true -> reads (read_u32s (length vs)) (u32s_bytes vs) k (eq vs).
Proof.
  revert k. induction vs as [|v vs IH]; intros k H; [by apply reads_ret|]. cbn in H. bools. unfold u32 in H. bools.
  cbn [read_u32s List.length]. unfold u32s_bytes. cbn [concat fmap list_fmap].
  eapply reads_bind; [apply reads_u32le; lia|]. intros ? <-.
  eapply reads_bind_nil; [by apply IH|]. intros ? <-. by apply reads_ret.
Qed.

Lemma reads_charges vs k :
  forallb u16 vs = true -> reads (read_charges (length vs)) (charges_bytes vs) k (eq vs).
Proof.
  revert k. induction vs as [|v vs IH]; intros k H; [by apply reads_ret|]. cbn in H. bools. unfold u16 in H. bools.
  cbn [read_charges List.length]. unfold charges_bytes. cbn [concat fmap list_fmap].
  eapply reads_bind; [apply reads_u16le; lia|]. intros ? <-.
  eapply reads_bind_nil; [by apply IH|]. intros ? <-. by apply reads_ret.
Qed.

(** A data PDU gets past the header and the switch of either direction. *)
Definition is_common (c : Z) : Prop :=
  c = cmd_data_first \/ c = cmd_data \/ c = cmd_close \/ c = cmd_data_first_compressed \/ c = cmd_data_compressed.

Lemma decode_common_run pdu b :
  common_ok pdu = true ->
  exists h r1 r2, read_header (Reader.make (common_bytes pdu) b) = Ok (h, r1) /\
    is_common (command h) /\ decode_common h r1 = Ok (pdu, r2).
Proof.
  intros Hok. destruct (common_reads pdu Hok) as (h & e & -> & Hcmd & Hsp & Hcb & Hdec).
  assert (is_common (command h)) as Hi.
  { rewrite !list_elem_of_In in Hcmd. cbn in Hcmd. unfold is_common. intuition. }
  assert (0 <= command h <= 15) as Hc.
  { unfold is_common, cmd_data_first, cmd_data, cmd_close, cmd_data_first_compressed, cmd_data_compressed in Hi. lia. }
  destruct (reads_header (command h) (sp h) (cb_id h) e Hc Hsp Hcb [] b) as (h' & Hh & <-).
  destruct h as [c s i]. cbn [command sp cb_id] in *.
  destruct (Hdec (head c s i) b) as [r2 Hr]. eauto 6.
Qed.

(** ** Client PDUs *)

Definition client_ok (pdu : ClientPdu) : bool :=
  match pdu with
  | CapsResponse v => u16 v
  | CreateResponse id st => u32 id && (- 2 ^ 31 <=? st) && (st <? 2 ^ 31)
  | ClientCommon c => common_ok c
  | SoftSyncResponse ts => forallb u32 ts && (len ts <? 2 ^ 32)
  end.

Lemma to_int32_wrap v : - 2 ^ 31 <= v < 2 ^ 31 -> to_int32 (wrap 32 v) = v.
Proof.
  intros H. unfold to_int32, wrap. change (2 ^ 32) with 4294967296 in *. change (2 ^ 31) with 2147483648 in *.
  destruct (Z.ltb_spec (v mod 4294967296) 2147483648); lia.
Qed.

Lemma drdynvc_client_roundtrip pdu :
  client_ok pdu = true ->
  exists e, encode_client_pdu pdu = Some e /\ decode_client_pdu e = Ok pdu.
Proof.
  intros H. unfold encode_client_pdu, decode_client_pdu. destruct pdu as [v|id st|c|ts]; cbn [client_ok] in H; bools.
  - unfold u16 in H. bools. eexists. split.
    { apply writes_run. apply writes_seq; [by apply writes_byte|]. repeat wstep. }
    erewrite reads_run; [done|]. eapply reads_bind; [by apply reads_header|]. intros ? <-.
    cbn [command]. pick_command. do 3 rstep. by apply reads_ret.
  - pose proof (size_code_range id). eexists. split.
    { apply writes_run. apply writes_seq; [by apply writes_id_pdu|apply writes_bytes]. }
    erewrite reads_run; [done|]. rewrite <- app_assoc. eapply reads_bind; [apply reads_header; [done|done|lia]|]. intros ? <-.
    cbn [command cb_id]. pick_command. eapply reads_bind; [by apply reads_var|]. intros ? <-.
    eapply reads_bind_nil; [apply reads_u32le; unfold wrap; apply Z.mod_pos_bound; lia|]. intros ? <-.
    rstep. apply reads_ret. by rewrite to_int32_wrap.
  - exists (common_bytes c). split; [by apply writes_run, writes_common|].
    destruct (decode_common_run c 0 H) as (h & r1 & r2 & H1 & Hi & H2).
    unfold read_client_pdu, dbind at 1. rewrite H1.
    destruct Hi as [E|[E|[E|[E|E]]]]; rewrite E; pick_command; unfold dbind; by rewrite H2.
  - pose proof (len_nonneg ts). eexists. split.
    { apply writes_run. apply writes_assert; [apply Z.leb_le; lia|]. apply writes_seq; [by apply writes_byte|].
      apply writes_seq; [apply writes_bytes|]. apply writes_seq; [apply writes_bytes|apply writes_u32s]. }
    erewrite reads_run; [done|]. eapply reads_bind; [by apply reads_header|]. intros ? <-.
    cbn [command]. pick_command. unfold read_soft_sync_response. rstep. unfold wrap. rewrite Z.mod_small by lia.
    do 3 rstep. rewrite remaining_mk, app_nil_r, len_u32s_bytes.
    destruct (Z.ltb_spec (4 * len ts / 4) (len ts)); [lia|].
    destruct (Z.eqb_spec (len ts * 4) (4 * len ts)); [|lia]. cbn [orb negb].
    unfold len. rewrite Nat2Z.id. eapply reads_bind_nil; [by apply reads_u32s|]. intros ? <-. by apply reads_ret.
Qed.

(** ** Server PDUs *)

Definition list_ok (l : SoftSyncChannelList) : bool :=
  u32 (tunnel_type l) && (len (channel_ids l) <=? 0xFFFF) && forallb u32 (channel_ids l).

Definition server_ok (pdu : ServerPdu) : bool :=
  match pdu with
  | CapsRequest v cs =>
      (version1 <=? v) && (v <=? version3) && (length cs =? 4)%nat && forallb u16 cs &&
      (negb (v =? version1) || bool_decide (cs = [0; 0; 0; 0]))
  | CreateRequest id pri name =>
      u32 id && (0 <=? pri) && (pri <=? 3) && negb (len name =? 0) &&
      (len name <=? Z.of_nat max_channel_name_size) && bool_decide (byte_of 0 ∉ name)
  | ServerCommon c => common_ok c
  | SoftSyncRequest fl tunnels lists =>
      u16 fl && u16 tunnels && forallb list_ok lists && (soft_sync_length lists <? 2 ^ 32) &&
      (if has_bits fl channel_list_present then len lists =? tunnels else bool_decide (lists = []))
  end.

Definition list_bytes (l : SoftSyncChannelList) : list byte :=
  Writer.le_bytes 4 (tunnel_type l) ++ Writer.le_bytes 2 (len (channel_ids l)) ++ u32s_bytes (channel_ids l).

Definition lists_bytes (ls : list SoftSyncChannelList) : list byte := concat (list_bytes <$> ls).

Lemma writes_lists ls : forallb list_ok ls = true -> writes (write_channel_lists ls) (lists_bytes ls).
Proof.
  induction ls as [|l ls IH]; intros H; [apply writes_ret|]. cbn in H. unfold list_ok in H. bools.
  cbn [write_channel_lists]. unfold lists_bytes. cbn [fmap list_fmap concat]. unfold list_bytes at 1.
  unfold wrap. rewrite Z.mod_small by len_lia. rewrite <- !app_assoc.
  apply writes_seq; [apply writes_bytes|]. apply writes_seq; [apply writes_bytes|].
  apply writes_seq; [apply writes_u32s|by apply IH].
Qed.

Lemma reads_lists ls k :
  forallb list_ok ls = true -> reads (read_channel_lists (length ls)) (lists_bytes ls) k (eq ls).
Proof.
  revert k. induction ls as [|l ls IH]; intros k H; [by apply reads_ret|]. cbn in H. unfold list_ok, u32 in H. bools.
  cbn [read_channel_lists List.length]. unfold lists_bytes. cbn [fmap list_fmap concat]. unfold list_bytes at 1.
  pose proof (len_nonneg (channel_ids l)). rewrite <- !app_assoc. do 4 rstep.
  rewrite remaining_mk. match goal with |- context [if ?c then _ else _] => destruct c eqn:E end.
  { bools. rewrite <- !app_assoc, !len_app, len_u32s_bytes in E. len_lia. }
  unfold len at 1. rewrite Nat2Z.id. eapply reads_bind; [by apply reads_u32s|]. intros ? <-.
  eapply reads_bind_nil; [by apply IH|]. intros ? <-. apply reads_ret. by destruct l.
Qed.

Lemma len_lists_bytes ls : soft_sync_length ls = 8 + len (lists_bytes ls).
Proof.
  unfold soft_sync_length. generalize 8 as n. induction ls as [|l ls IH]; intros n.
  { unfold lists_bytes. cbn [fold_left fmap list_fmap concat]. len_lia. }
  cbn [fold_left]. rewrite IH. unfold lists_bytes. cbn [fmap list_fmap concat]. unfold list_bytes at 2.
  rewrite !len_app, len_u32s_bytes, !len_le_bytes. lia.
Qed.

Lemma reads_name name : forall left acc k,
  (length name <= left)%nat -> byte_of 0 ∉ name ->
  reads (name_loop left acc) (name ++ [byte_of 0]) k (eq (acc ++ name)).
Proof.
  induction name as [|c name IH]; intros left acc k Hl Hn.
  - cbn [app]. destruct left; cbn [name_loop]; rstep; rewrite app_nil_r; by apply reads_ret.
  - destruct left as [|left]; [cbn in Hl; lia|]. cbn [name_loop].
    change ((c :: name) ++ [byte_of 0]) with ([c] ++ (name ++ [byte_of 0])).
    eapply reads_bind; [apply reads_byte|]. intros ? <-.
    apply not_elem_of_cons in Hn as [Hc Hn].
    destruct (Z.eqb_spec (u8_of c) 0) as [E|_]; [destruct Hc; by rewrite <- (byte_of_u8_of c), E|].
    rewrite byte_of_u8_of. rewrite (app_assoc acc [c] name : acc ++ c :: name = _).
    apply IH; [cbn in Hl; lia|done].
Qed.

Lemma caps_request_roundtrip v cs :
  server_ok (CapsRequest v cs) = true ->
  exists e, encode_server_pdu (CapsRequest v cs) = Some e /\ decode_server_pdu e = Ok (CapsRequest v cs).
Proof.
  cbn [server_ok]. intros H. unfold encode_server_pdu, decode_server_pdu.
  apply andb_prop in H as [[[[Hv1 Hv2]%andb_prop Hl]%andb_prop Hcs]%andb_prop Hv]. apply Nat.eqb_eq in Hl.
  eexists. split.
  { apply writes_run, writes_assert; [by rewrite Hv1, Hv2|]. apply writes_seq; [by apply writes_byte|].
    do 2 (apply writes_seq; [apply writes_bytes|]).
    instantiate (1 := if version2 <=? v then charges_bytes cs else []).
    destruct (version2 <=? v); [apply writes_charges|apply writes_ret]. }
  unfold version1, version2, version3 in *. bools.
  erewrite reads_run; [done|]. eapply reads_bind; [by apply reads_header|]. intros ? <-.
  cbn [command]. pick_command. do 2 rstep. unfold version1, version2, version3.
  apply reads_bind_nil with (P := eq cs).
  - destruct (Z.leb_spec 2 v) as [Hv3|Hv3].
    + assert ((v =? 2) || (v =? 3) = true) as -> by (apply orb_true_iff; rewrite !Z.eqb_eq; lia).
      rewrite <- Hl. by apply reads_charges.
    + assert (v = 1) as -> by lia. destruct Hv as [Hv|Hv]; [done|]. bools. subst cs. by apply reads_ret.
  - intros ? <-. rstep. by apply reads_ret.
Qed.

Lemma create_request_roundtrip id pri name :
  server_ok (CreateRequest id pri name) = true ->
  exists e, encode_server_pdu (CreateRequest id pri name) = Some e /\ decode_server_pdu e = Ok (CreateRequest id pri name).
Proof.
  cbn [server_ok]. intros H. unfold encode_server_pdu, decode_server_pdu.
  bools. pose proof (size_code_range id). eexists. split.
  { apply writes_run, writes_assert; [by apply Z.leb_le|].
    apply writes_assert; [rewrite (proj2 (Z.eqb_neq _ _)) by done; by apply Z.leb_le|].
    apply writes_assert; [by apply bool_decide_true|].
    apply writes_seq; [by apply writes_id_pdu|]. apply writes_seq; apply writes_bytes. }
  erewrite reads_run; [done|]. rewrite <- app_assoc.
  eapply reads_bind; [apply reads_header; [done|lia|lia]|]. intros ? <-.
  cbn [command cb_id sp]. pick_command. eapply reads_bind; [by apply reads_var|]. intros ? <-.
  apply reads_bind_nil with (P := eq name).
  - eapply reads_bind_nil; [apply reads_name; [unfold len in *; lia|done]|]. intros ? <-. rstep.
    rewrite bool_decide_false by (intros E; cbn in E; by rewrite E in *). by apply reads_ret.
  - intros ? <-. rstep. by apply reads_ret.
Qed.

Lemma soft_sync_request_roundtrip fl tn ls :
  server_ok (SoftSyncRequest fl tn ls) = true ->
  exists e, encode_server_pdu (SoftSyncRequest fl tn ls) = Some e /\ decode_server_pdu e = Ok (SoftSyncRequest fl tn ls).
Proof.
  cbn [server_ok]. intros H. unfold encode_server_pdu, decode_server_pdu.
  apply andb_prop in H as [[[[Hfl Htn]%andb_prop Hls]%andb_prop Hlen]%andb_prop Hp].
  unfold u16 in *. bools. pose proof (len_lists_bytes ls) as Hll. pose proof (len_nonneg (lists_bytes ls)).
  eexists. split.
  { apply writes_run, writes_assert; [done|]. apply writes_assert.
    { apply forallb_forall. intros l Hl. rewrite forallb_forall in Hls. specialize (Hls l Hl).
      unfold list_ok in Hls. bools. by apply Z.leb_le. }
    apply writes_assert; [apply Z.leb_le; lia|]. apply writes_seq; [by apply writes_byte|].
    do 4 (apply writes_seq; [apply writes_bytes|]). by apply writes_lists. }
  erewrite reads_run; [done|]. eapply reads_bind; [by apply reads_header|]. intros ? <-.
  cbn [command]. pick_command. unfold read_soft_sync_request. rstep. unfold wrap. rewrite Z.mod_small by lia.
  do 3 rstep. rewrite remaining_mk, app_nil_r, !len_app, !len_le_bytes.
  destruct (Z.ltb_spec (soft_sync_length ls) 8); [lia|].
  destruct (Z.eqb_spec (soft_sync_length ls - 4) (Z.of_nat 2 + (Z.of_nat 2 + len (lists_bytes ls)))); [|lia].
  cbn [orb negb]. do 2 rstep. apply reads_bind_nil with (P := eq ls).
  - destruct (has_bits fl channel_list_present).
    + bools. subst tn. unfold len. rewrite Nat2Z.id. by apply reads_lists.
    + bools. subst ls. by apply reads_ret.
  - intros ? <-. rstep. by apply reads_ret.
Qed.

Lemma drdynvc_server_roundtrip pdu :
  server_ok pdu = true ->
  exists e, encode_server_pdu pdu = Some e /\ decode_server_pdu e = Ok pdu.
Proof.
  destruct pdu as [v cs|id pri name|c|fl tn ls];
    [apply caps_request_roundtrip|apply create_request_roundtrip| |apply soft_sync_request_roundtrip].
  cbn [server_ok]. intros H. unfold encode_server_pdu, decode_server_pdu.
  exists (common_bytes c). split; [by apply writes_run, writes_common|].
  destruct (decode_common_run c 0 H) as (h & r1 & r2 & H1 & Hi & H2).
  unfold read_server_pdu, dbind at 1. rewrite H1.
  destruct Hi as [E|[E|[E|[E|E]]]]; rewrite E; pick_command; unfold dbind; by rewrite H2.
Qed.

(** ** A channel as a transport *)

(** What the other side does with a data PDU of its channel [id]. *)
Definition receive_data (id : Z) (r : MessageReassembler) (message : list byte)
  : Result (option (list byte)) * MessageReassembler :=
  match decode_server_pdu message with
  | Err e => (Err e, r)
  | Ok (ServerCommon (DataFirst i length data)) => if i =? id then first r length data else (Ok None, r)
  | Ok (ServerCommon (Data i data)) => if i =? id then next r data else (Ok None, r)
  | Ok _ => (Ok None, r)
  end.

Definition dvc_transport (id max : Z) : Transport (list byte) (list byte) MessageReassembler := {|
  t_admissible m := len m <= max /\ len m < 2 ^ 32 /\ u32 id = true;
  t_send m := encode_data id m;
  t_idle := make max;
  t_feed := receive_data id |}.

Lemma receive_common id r pdu :
  common_ok pdu = true ->
  receive_data id r (common_bytes pdu) =
    match pdu with
    | DataFirst i length data => if i =? id then first r length data else (Ok None, r)
    | Data i data => if i =? id then next r data else (Ok None, r)
    | _ => (Ok None, r)
    end.
Proof.
  intros H. destruct (drdynvc_server_roundtrip (ServerCommon pdu) H) as (e & He & Hd).
  unfold encode_server_pdu in He. cbn [encode_server] in He.
  rewrite (writes_run _ _ (writes_common pdu H)) in He. injection He as <-.
  unfold receive_data. rewrite Hd. by destruct pdu.
Qed.

Lemma len_data_bytes id d : len (common_bytes (Data id d)) = 1 + field_size (size_code id) + len d.
Proof. cbn [common_bytes]. rewrite !len_app, len_var_bytes. unfold head. len_lia. Qed.

(** The receiver after the bytes before [offset]. *)
Definition partial (max : Z) (m : list byte) (offset : Z) : MessageReassembler :=
  mkReassembler max (Some (len m)) (take (Z.to_nat offset) m).

Lemma next_partial max m offset size :
  len m < 2 ^ 32 -> 0 <= offset -> 0 < size -> offset + size <= len m ->
  next (partial max m offset) (take (Z.to_nat size) (drop (Z.to_nat offset) m)) =
    if offset + size <? len m then (Ok None, partial max m (offset + size)) else (Ok (Some m), make max).
Proof.
  intros H32 Ho Hs Hle. unfold next, partial. cbn [total_ buffer_ max_size_]. unfold wrap.
  rewrite Z.mod_small by len_lia.
  match goal with |- context [if ?c then _ else _] => destruct c eqn:E end; [bools; len_lia|]. clear E.
  rewrite take_take_drop, <- Z2Nat.inj_add by lia.
  assert (len (take (Z.to_nat (offset + size)) m) = offset + size) as -> by len_lia.
  destruct (Z.ltb_spec (offset + size) (len m)); [done|].
  replace (offset + size) with (len m) by lia. unfold len. by rewrite Nat2Z.id, firstn_all.
Qed.

Lemma data_loop_delivers id max m block fuel offset :
  u32 id = true -> len m < 2 ^ 32 ->
  0 < block <= max_pdu_size - (1 + field_size (size_code id)) ->
  0 <= offset < len m -> len m - offset <= Z.of_nat fuel ->
  exists ps, data_loop fuel id m block offset = Some ps /\
    feed_all (dvc_transport id max) (partial max m offset) ps = Ok ([m], make max) /\
    Forall (fun p => len p <= max_pdu_size) ps.
Proof.
  intros Hid H32 Hb. revert offset. induction fuel as [|fuel IH]; intros offset Ho Hf; [lia|].
  cbn [data_loop]. destruct (Z.ltb_spec offset (len m)); [|lia].
  set (size := Z.min block (len m - offset)).
  pose proof (next_partial max m offset size H32 ltac:(lia) ltac:(lia) ltac:(lia)) as Hn.
  set (d := take _ (drop _ m)) in *.
  rewrite (writes_run _ _ (writes_common (Data id d) Hid)).
  pose proof (receive_common id (partial max m offset) (Data id d) Hid) as Hrc. cbn beta iota in Hrc.
  rewrite Z.eqb_refl, Hn in Hrc.
  assert (len (common_bytes (Data id d)) <= max_pdu_size) as Hp by (rewrite len_data_bytes; subst d; len_lia).
  destruct (Z.ltb_spec (offset + size) (len m)) as [Hlt|Hge].
  - destruct (IH (offset + size)) as (ps & Hps & Hfeed & Hall); [lia..|].
    exists (common_bytes (Data id d) :: ps). rewrite Hps. split_and!; [done| |by constructor].
    cbn [feed_all t_feed dvc_transport]. by rewrite Hrc, Hfeed.
  - exists [common_bytes (Data id d)]. split_and!; [| |by constructor].
    + destruct fuel; cbn [data_loop]; by destruct (Z.ltb_spec (offset + size) (len m)); [lia|].
    + cbn [feed_all t_feed dvc_transport]. by rewrite Hrc.
Qed.

Lemma dvc_delivers id max m :
  t_admissible (dvc_transport id max) m ->
  exists ps, encode_data id m = Some ps /\
    feed_all (dvc_transport id max) (make max) ps = Ok ([m], make max) /\
    Forall (fun p => len p <= max_pdu_size) ps.
Proof.
  intros (Hmax & H32 & Hid). pose proof (len_nonneg m). pose proof (field_size_range (size_code id)).
  unfold encode_data. destruct (Z.leb_spec (len m) (2 ^ 32 - 1)); [|lia].
  unfold max_single_data_size. destruct (Z.leb_spec (len m) 1590).
  - rewrite (writes_run _ _ (writes_common (Data id m) Hid)).
    pose proof (receive_common id (make max) (Data id m) Hid) as Hrc. cbn beta iota in Hrc.
    rewrite Z.eqb_refl in Hrc. unfold next in Hrc. cbn [total_ make max_size_] in Hrc.
    destruct (Z.ltb_spec max (len m)); [lia|].
    eexists. split_and!; [done| |].
    + cbn [feed_all t_feed dvc_transport]. by rewrite Hrc.
    + constructor; [rewrite len_data_bytes; unfold max_pdu_size; lia|constructor].
  - unfold wrap. rewrite (Z.mod_small (len m)) by lia.
    set (fs := field_size (size_code (len m))). pose proof (field_size_range (size_code (len m))) as Hfs. fold fs in Hfs.
    set (offset := Z.min _ (len m)). set (d := take (Z.to_nat offset) m).
    assert (0 < offset <= len m) as Hoff by (subst offset; unfold max_pdu_size; lia).
    assert (len d = offset) as Hd by (subst d; len_lia).
    assert (common_ok (DataFirst id (len m) d) = true) as Hok.
    { cbn. unfold u32 at 2. rewrite Hid, !andb_true_iff, Z.leb_le, Z.ltb_lt, Z.leb_le. lia. }
    rewrite (writes_run _ _ (writes_common _ Hok)).
    pose proof (receive_common id (make max) _ Hok) as Hrc. cbn beta iota in Hrc.
    rewrite Z.eqb_refl in Hrc. unfold first in Hrc. cbn [total_ make max_size_] in Hrc.
    destruct (Z.ltb_spec max (len m)); [lia|]. destruct (Z.ltb_spec (len m) (len d)); [lia|].
    assert (len (common_bytes (DataFirst id (len m) d)) <= max_pdu_size) as Hp.
    { cbn [common_bytes]. rewrite !len_app, !len_var_bytes, Hd. fold fs. unfold head.
      rewrite len_cons, len_nil. subst offset. lia. }
    destruct (Z.eqb_spec (len d) (len m)) as [El|El].
    + exists [common_bytes (DataFirst id (len m) d)]. split_and!; [| |by constructor].
      * destruct (List.length m); cbn [data_loop]; by destruct (Z.ltb_spec offset (len m)); [lia|].
      * cbn [feed_all t_feed dvc_transport]. rewrite Hrc. cbn. do 3 f_equal.
        unfold d; apply take_ge; unfold len in *; lia.
    + destruct (data_loop_delivers id max m (max_pdu_size - (1 + field_size (size_code id))) (List.length m) offset)
        as (ps & Hps & Hfeed & Hall); [done|done|unfold max_pdu_size; lia|lia|unfold len in *; lia|].
      exists (common_bytes (DataFirst id (len m) d) :: ps). rewrite Hps. split_and!; [done| |by constructor].
      cbn [feed_all t_feed dvc_transport]. rewrite Hrc.
      change (mkReassembler max (Some (len m)) d) with (partial max m offset). by rewrite Hfeed.
Qed.

#[export] Instance dvc_reliable id max : Reliable (dvc_transport id max).
Proof. intros m Hm. destruct (dvc_delivers id max m Hm) as (ps & ? & ? & _). eauto. Qed.

(** every drdynvc PDU with field values in range, in either direction
    (capabilities, create, data with and without compression, close, soft-sync),
    is encoded without an assertion and decoded to itself by the other side. *)
Theorem drdynvc_pdu_roundtrip (c : ClientPdu) (s : ServerPdu) :
  client_ok c = true -> server_ok s = true ->
  (exists e, encode_client_pdu c = Some e /\ decode_client_pdu e = Ok c) /\
  (exists e, encode_server_pdu s = Some e /\ decode_server_pdu e = Ok s).
Proof. intros Hc Hs. split; [by apply drdynvc_client_roundtrip|by apply drdynvc_server_roundtrip]. Qed.

Definition sample_create : ServerPdu := CreateRequest 300 2 (byte_of <$> [69; 67; 72; 79]).

Lemma drdynvc_pdu_roundtrip_witness :
  (exists e, encode_client_pdu (CreateResponse 300 (-1)) = Some e /\
             decode_client_pdu e = Ok (CreateResponse 300 (-1))) /\
  (exists e, encode_server_pdu sample_create = Some e /\ decode_server_pdu e = Ok sample_create).
Proof. apply drdynvc_pdu_roundtrip; vm_compute; reflexivity. Defined.

(** Dynamic channel [id] inside the drdynvc static channel. *)
Definition dvc_over_svc (id max : Z) (l : Svc.Limits) :
  Transport (list byte) (list byte) (MessageReassembler * Svc.Reassembler) :=
  layered (dvc_transport id max) (Svc.svc_transport l).

#[export] Instance dvc_over_svc_reliable id max l : Reliable (dvc_over_svc id max l).
Proof. apply layered_reliable; [apply dvc_reliable|apply Svc.svc_reliable]. Qed.

(** C29: any sequence of messages on a dynamic channel, split into data PDUs by
    [encode_data] and each PDU chunked onto the static channel by
    [encode_chunks], is delivered complete and in order to a receiver that
    reassembles static chunks, decodes the PDUs and reassembles the messages; the
    static channel only has to admit messages of 1600 bytes, since no data PDU is
    larger. *)
Theorem dvc_messages_delivered (id max : Z) (l : Svc.Limits) (ms : list (list byte)) :
  u32 id = true -> max_pdu_size <= Svc.max_message l -> 0 < Svc.send_chunk l <= Svc.recv_chunk l ->
  Forall (fun m => len m <= max /\ len m < 2 ^ 32) ms ->
  exists chunks,
    send_all (dvc_over_svc id max l) ms = Some chunks /\
    feed_all (dvc_over_svc id max l) (make max, Svc.make (Svc.max_message l) (Svc.recv_chunk l)) chunks =
      Ok (ms, (make max, Svc.make (Svc.max_message l) (Svc.recv_chunk l))).
Proof.
  intros Hid Hl Hs Hms. apply (messages_in_order (dvc_over_svc id max l)).
  eapply Forall_impl; [exact Hms|]. intros m [Hm1 Hm2].
  assert (t_admissible (dvc_transport id max) m) as Ha by done. split; [done|]. intros ps Hps.
  destruct (dvc_delivers id max m Ha) as (ps' & E & _ & Hall). cbn in Hps. rewrite E in Hps. injection Hps as <-.
  eapply Forall_impl; [exact Hall|]. intros p Hp. cbn beta in Hp. unfold max_pdu_size in *. cbn. lia.
Qed.

Lemma dvc_messages_delivered_witness :
  exists chunks,
    send_all (dvc_over_svc 7 4000 (Svc.mkLimits 1600 2000 1600)) [replicate 2000 (byte_of 5); []] = Some chunks /\
    feed_all (dvc_over_svc 7 4000 (Svc.mkLimits 1600 2000 1600)) (make 4000, Svc.make 2000 1600) chunks =
      Ok ([replicate 2000 (byte_of 5); []], (make 4000, Svc.make 2000 1600)).
Proof.
  apply (dvc_messages_delivered 7 4000 (Svc.mkLimits 1600 2000 1600)).
  - reflexivity.
  - vm_compute. congruence.
  - vm_compute. split; congruence.
  - repeat constructor; vm_compute; congruence.
Defined.

(** ** The receiver's invariant *)

Definition wf (r : MessageReassembler) : Prop :=
  match total_ r with
  | None => buffer_ r = []
  | Some total => len (buffer_ r) < total <= max_size_ r /\ total < 2 ^ 32
  end.

Inductive Block := FirstBlock (length : Z) (block : list byte) | NextBlock (block : list byte).

Definition take_block (r : MessageReassembler) (b : Block) : Result (option (list byte)) * MessageReassembler :=
  match b with
  | FirstBlock length block => first r length block
  | NextBlock block => next r block
  end.

Definition block_ok (b : Block) : Prop :=
  match b with FirstBlock length _ => 0 <= length < 2 ^ 32 | NextBlock _ => True end.

Lemma take_block_wf r b res r' :
  wf r -> block_ok b -> take_block r b = (res, r') ->
  wf r' /\ max_size_ r' = max_size_ r /\
  match res with
  | Err _ => r' = make (max_size_ r)
  | Ok (Some m) => len m <= max_size_ r /\ r' = make (max_size_ r)
  | Ok None => in_progress r' = true
  end.
Proof.
  destruct r as [max t buf]. intros Hwf Hb H.
  unfold wf in *. cbn [total_ buffer_ max_size_] in *. pose proof (len_nonneg buf).
  destruct b as [length block|block]; cbn [take_block block_ok] in *; unfold first, next, reset, make in *;
    cbn [total_ buffer_ max_size_] in *; pose proof (len_nonneg block);
    destruct t as [t|]; repeat match type of H with
      | context [if ?c then _ else _] => let E := fresh "E" in destruct c eqn:E
      end; injection H as <- <-; bools; subst; unfold wrap in *; rewrite ?Z.mod_small in * by lia;
    cbn [total_ buffer_ max_size_]; rewrite ?len_app in *; split_and!; try done; try lia.
Qed.

(** The blocks a peer sends on a channel, in any order. *)
Fixpoint take_blocks (r : MessageReassembler) (bs : list Block)
  : list (Result (option (list byte))) * MessageReassembler :=
  match bs with
  | [] => ([], r)
  | b :: bs' =>
      let (res, r1) := take_block r b in
      let (ress, r2) := take_blocks r1 bs' in (res :: ress, r2)
  end.

(** whatever sequence of data blocks a peer sends on a channel, the
    reassembler holds a strict prefix of a message of announced, admitted length
    or nothing at all, every message it delivers is within the limit, and an
    error leaves it idle. *)
Theorem dvc_reassembler_bounded (max : Z) (bs : list Block) ress r :
  Forall block_ok bs -> take_blocks (make max) bs = (ress, r) ->
  wf r /\ max_size_ r = max /\
  Forall (fun res => match res with Ok (Some m) => len m <= max | _ => True end) ress /\
  (forall e, last ress = Some (Err e) -> r = make max).
Proof.
  assert (wf (make max)) as Hwf by done. revert Hwf.
  assert (max_size_ (make max) = max) as Hm by done. revert Hm.
  generalize (make max) at 1 2 3 as r0. intros r0 Hm Hwf Hbs. revert r0 Hm Hwf ress r.
  induction Hbs as [|b bs Hb _ IH]; intros r0 Hm Hwf ress r H; cbn [take_blocks] in H.
  - injection H as <- <-. split_and!; [done|done|constructor|done].
  - destruct (take_block r0 b) as [res r1] eqn:Ea. destruct (take_blocks r1 bs) as [ress' r2] eqn:Ep.
    injection H as <- <-. apply take_block_wf in Ea as (Hw1 & Hm1 & Hres); [|done..]. rewrite Hm in *.
    destruct (IH r1 Hm1 Hw1 ress' r2 Ep) as (H1 & H2 & H3 & H4). split_and!; [done|done| |].
    + constructor; [|done]. destruct res as [[m|]|]; [|done..]. tauto.
    + intros e Hl. destruct ress' as [|res' ress']; [|apply (H4 e); by rewrite last_cons_cons in Hl].
      cbn in Hl. injection Hl as ->. destruct bs as [|q bs]; cbn in Ep; [by injection Ep as <-|].
      destruct (take_block r1 q) as [? r3]. by destruct (take_blocks r3 bs).
Qed.

Lemma dvc_reassembler_bounded_witness :
  let r := mkReassembler 10 (Some 4) (byte_of <$> [1; 2; 3]) in
  wf r /\ max_size_ r = 10 /\
  Forall (fun res => match res with Ok (Some m) => len m <= 10 | _ => True end)
         ([Ok None; Ok None] : list (Result (option (list byte)))) /\
  (forall e, last ([Ok None; Ok None] : list (Result (option (list byte)))) = Some (Err e) -> r = make 10).
Proof.
  apply (dvc_reassembler_bounded 10 [FirstBlock 4 (byte_of <$> [1; 2]); NextBlock [byte_of 3]]).
  - repeat constructor; vm_compute; congruence.
  - vm_compute. reflexivity.
Defined.

End Drdynvc.
