(* ===== verification/DvcServer.v ===== *)
(** * The dynamic virtual channel server

    Models [src/src/farland/channels/dvc_server.hpp] and [dvc_server.cpp]: the
    multiplexer of dynamic channels over the messages of the [drdynvc] static
    channel, with its capabilities exchange, channel table, per-channel
    reassembly and error latch.

    The decompressor of a channel is a callback of the configuration; it is the
    parameter [decompress_with] with its internal history [D], and
    [make_decompressor] is the history a new channel starts with. *)

From S2P Require Import Prelude Buffers CodecLogic Transport Drdynvc.
From stdpp Require Import gmap.
Open Scope Z_scope.

Module DvcServer.

Inductive DvcEvent :=
  | CapabilitiesReady (version : Z)
  | ChannelOpened (id : Z) (name : list byte)
  | ChannelOpenFailed (id : Z) (name : list byte) (status : Z)
  | ChannelData (id : Z) (data : list byte)
  | ChannelClosed (id : Z).

Inductive State := idle | waiting_caps | ready.
Inductive ChannelState := pending | opening | open_.

#[export] Instance State_eq_dec : EqDecision State.
Proof. solve_decision. Defined.
#[export] Instance ChannelState_eq_dec : EqDecision ChannelState.
Proof. solve_decision. Defined.

Definition default_max_dvc_message_size : Z := 16 * 1024 * 1024.

Section Server.
Context {D : Type} (decompress_with : D -> list byte -> Result (list byte) * D).

Record DvcServerConfig := mkConfig {
  max_version : Z;
  priority_charges : list Z;
  max_message_size : Z;
  make_decompressor : option D }.

Record DvcChannelOptions := mkOptions { opt_priority : Z; opt_max_message_size : option Z }.

Record Channel := mkChannel {
  name : list byte;
  priority : Z;
  state : ChannelState;
  reassembler : Drdynvc.MessageReassembler;
  decompressor : option D }.

Record t := mk {
  config_ : DvcServerConfig;
  state_ : State;
  offered_ : Z;
  version_ : option Z;
  next_id_ : Z;
  channels_ : gmap Z Channel;
  pending_ : list Z;
  output_ : list (list byte);
  events_ : list DvcEvent;
  error_ : option Error }.

(** Field updates. *)
Definition set_channel_state (c : Channel) (s : ChannelState) : Channel :=
  mkChannel (name c) (priority c) s (reassembler c) (decompressor c).
Definition set_reassembler (c : Channel) (r : Drdynvc.MessageReassembler) : Channel :=
  mkChannel (name c) (priority c) (state c) r (decompressor c).
Definition set_decompressor (c : Channel) (d : D) : Channel :=
  mkChannel (name c) (priority c) (state c) (reassembler c) (Some d).

Definition with_channels (s : t) (cs : gmap Z Channel) : t :=
  mk (config_ s) (state_ s) (offered_ s) (version_ s) (next_id_ s) cs (pending_ s) (output_ s) (events_ s) (error_ s).
Definition with_pending (s : t) (p : list Z) : t :=
  mk (config_ s) (state_ s) (offered_ s) (version_ s) (next_id_ s) (channels_ s) p (output_ s) (events_ s) (error_ s).
Definition with_next_id (s : t) (n : Z) : t :=
  mk (config_ s) (state_ s) (offered_ s) (version_ s) n (channels_ s) (pending_ s) (output_ s) (events_ s) (error_ s).
Definition with_output (s : t) (o : list (list byte)) : t :=
  mk (config_ s) (state_ s) (offered_ s) (version_ s) (next_id_ s) (channels_ s) (pending_ s) o (events_ s) (error_ s).
Definition with_events (s : t) (e : list DvcEvent) : t :=
  mk (config_ s) (state_ s) (offered_ s) (version_ s) (next_id_ s) (channels_ s) (pending_ s) (output_ s) e (error_ s).
Definition with_error (s : t) (e : Error) : t :=
  mk (config_ s) (state_ s) (offered_ s) (version_ s) (next_id_ s) (channels_ s) (pending_ s) (output_ s) (events_ s) (Some e).
Definition with_ready (s : t) (v : Z) : t :=
  mk (config_ s) ready (offered_ s) (Some v) (next_id_ s) (channels_ s) (pending_ s) (output_ s) (events_ s) (error_ s).
Definition with_offer (s : t) (v : Z) : t :=
  mk (config_ s) waiting_caps v (version_ s) (next_id_ s) (channels_ s) (pending_ s) (output_ s) (events_ s) (error_ s).

(** A member function: [None] is a failed assertion; the state a failing
    handler leaves behind is kept beside its error. *)
Definition M (A : Type) : Type := t -> option (Result A * t).

Definition sret {A} (a : A) : M A := fun s => Some (Ok a, s).
Definition sfail {A} (c : Errc) (w : string) (o : Z) : M A := fun s => Some (fail c w o, s).
Definition sbind {A B} (m : M A) (f : A -> M B) : M B :=
  fun s => match m s with
           | Some (Ok a, s') => f a s'
           | Some (Err e, s') => Some (Err e, s')
           | None => None
           end.
Definition sget {A} (f : t -> A) : M A := fun s => Some (Ok (f s), s).
Definition smod (f : t -> t) : M unit := fun s => Some (Ok tt, f s).
Definition sassert (b : bool) : M unit := fun s => if b then Some (Ok tt, s) else None.

Notation "'let$' x ':=' m 'in' k" := (sbind m (fun x => k))
  (at level 10, x pattern, m at level 100, k at level 200).

(** [Writer w; encode(w, pdu); output_.push_back(std::move(w).take());] *)
Definition push_output (m : Enc unit) : M unit := fun s =>
  match Writer.run m with
  | Some bytes => Some (Ok tt, with_output s (output_ s ++ [bytes]))
  | None => None
  end.

Definition emplace_event (e : DvcEvent) : M unit := smod (fun s => with_events s (events_ s ++ [e])).

(** ** Construction and the API *)

Definition make (config : DvcServerConfig) : option t :=
  if (Drdynvc.version1 <=? max_version config) && (max_version config <=? Drdynvc.version3)
  then Some (mk config idle 0 None 1 ∅ [] [] [] None)
  else None.

Definition start : M unit :=
  let$ _ := (fun s => sassert (bool_decide (state_ s = idle)) s) in
  let$ c := sget config_ in
  let offered := match make_decompressor c with
                 | Some _ => max_version c
                 | None => Z.min (max_version c) Drdynvc.version2
                 end in
  let$ _ := push_output (Drdynvc.encode_server (Drdynvc.CapsRequest offered (priority_charges c))) in
  smod (fun s => with_offer s offered).

(** The loop of [allocate_id]. *)
Fixpoint allocate_loop (fuel : nat) : M Z :=
  match fuel with
  | O => fun _ => None
  | S fuel' =>
      let$ id := sget next_id_ in
      let$ _ := smod (fun s => with_next_id s (if id =? 2 ^ 32 - 1 then 1 else id + 1)) in
      let$ found := sget (fun s => channels_ s !! id) in
      match found with
      | None => sret id
      | Some _ => allocate_loop fuel'
      end
  end.

(** One more attempt than there are channels always suffices. *)
Definition allocate_id : M Z := fun s =>
  if Z.of_nat (size (channels_ s)) <? 2 ^ 32 - 1 then allocate_loop (S (size (channels_ s))) s else None.

Definition send_create (id : Z) (channel : Channel) : M unit :=
  let$ _ := push_output (Drdynvc.encode_server (Drdynvc.CreateRequest id (priority channel) (name channel))) in
  smod (fun s => with_channels s (<[id := set_channel_state channel opening]> (channels_ s))).

Definition open (nm : list byte) (options : DvcChannelOptions) : M Z :=
  let$ _ := sassert (negb (len nm =? 0) && (len nm <=? Z.of_nat Drdynvc.max_channel_name_size)) in
  let$ _ := sassert (bool_decide (byte_of 0 ∉ nm)) in
  let$ _ := sassert (opt_priority options <=? 3) in
  let$ id := allocate_id in
  let$ c := sget config_ in
  let channel := mkChannel nm (opt_priority options) pending
                   (Drdynvc.make (default (max_message_size c) (opt_max_message_size options))) None in
  let$ _ := (fun s => sassert (bool_decide (channels_ s !! id = None)) s) in
  let$ _ := smod (fun s => with_channels s (<[id := channel]> (channels_ s))) in
  let$ now := sget (fun s => bool_decide (state_ s = ready) && bool_decide (error_ s = None)) in
  let$ _ := if now : bool then send_create id channel
            else smod (fun s => with_pending s (pending_ s ++ [id])) in
  sret id.

Definition send (id : Z) (message : list byte) : M bool := fun s =>
  match error_ s, channels_ s !! id with
  | None, Some c =>
      if bool_decide (state c = open_) then
        match Drdynvc.encode_data id message with
        | Some pdus => Some (Ok true, with_output s (output_ s ++ pdus))
        | None => None
        end
      else Some (Ok false, s)
  | _, _ => Some (Ok false, s)
  end.

Definition close (id : Z) : M unit := fun s =>
  match channels_ s !! id with
  | None => Some (Ok tt, s)
  | Some c =>
      (let$ _ := if bool_decide (state c = pending)
                 then smod (fun s => with_pending s (filter (fun i => i <> id) (pending_ s)))
                 else push_output (Drdynvc.encode_common (Drdynvc.Close id)) in
       smod (fun s => with_channels s (delete id (channels_ s)))) s
  end.

Definition take_output : M (list (list byte)) :=
  let$ o := sget output_ in
  let$ _ := smod (fun s => with_output s []) in
  sret o.

Definition poll_event : M (option DvcEvent) := fun s =>
  match events_ s with
  | [] => Some (Ok None, s)
  | e :: es => Some (Ok (Some e), with_events s es)
  end.

Definition is_open (id : Z) (s : t) : bool :=
  match channels_ s !! id with Some c => bool_decide (state c = open_) | None => false end.

(** ** Handlers *)

Definition require_ready : M unit := fun s =>
  if bool_decide (state_ s = ready) then Some (Ok tt, s)
  else Some (fail invalid_value "drdynvc PDU before the capabilities exchange" 0, s).

(** [None] is the null pointer returned for an unknown id. *)
Definition data_channel (id : Z) : M (option Channel) :=
  let$ _ := require_ready in
  let$ found := sget (fun s => channels_ s !! id) in
  match found with
  | None => sret None
  | Some c =>
      if bool_decide (state c = open_) then sret (Some c)
      else sfail invalid_value "DVC data on a channel that is not open" 1
  end.

(** The requests queued before the exchange finished. *)
Fixpoint send_pending (ids : list Z) : M unit :=
  match ids with
  | [] => sret tt
  | id :: ids' =>
      let$ found := sget (fun s => channels_ s !! id) in
      let$ _ := match found with Some c => send_create id c | None => sret tt end in
      send_pending ids'
  end.

Definition handle_caps (version : Z) : M unit :=
  let$ st := sget state_ in
  match st with
  | idle => sfail invalid_value "DVC Capabilities Response before the request" 0
  | ready => sfail invalid_value "second DVC Capabilities Response" 0
  | waiting_caps =>
      if version =? 0 then sfail invalid_value "DVC Capabilities Response with version 0" 2
      else
        let$ offered := sget offered_ in
        let v := Z.min version offered in
        let$ _ := smod (fun s => with_ready s v) in
        let$ _ := emplace_event (CapabilitiesReady v) in
        let$ ids := sget pending_ in
        let$ _ := smod (fun s => with_pending s []) in
        send_pending ids
  end.

Definition handle_create (id status : Z) : M unit :=
  let$ _ := require_ready in
  let$ found := sget (fun s => channels_ s !! id) in
  match found with
  | None => sret tt
  | Some c =>
      match state c with
      | pending => sfail invalid_value "DVC Create Response for a channel not requested yet" 1
      | open_ => sfail invalid_value "second DVC Create Response" 1
      | opening =>
          if status <? 0 then
            let$ _ := emplace_event (ChannelOpenFailed id (name c) status) in
            smod (fun s => with_channels s (delete id (channels_ s)))
          else
            let$ _ := smod (fun s => with_channels s (<[id := set_channel_state c open_]> (channels_ s))) in
            emplace_event (ChannelOpened id (name c))
      end
  end.

Definition deliver (id : Z) (message : option (list byte)) : M unit :=
  match message with
  | Some m => emplace_event (ChannelData id m)
  | None => sret tt
  end.

(** [channel->reassembler.f(...)]: the reassembler is updated in place. *)
Definition reassemble (id : Z)
  (f : Drdynvc.MessageReassembler -> Result (option (list byte)) * Drdynvc.MessageReassembler)
  : M (option (list byte)) := fun s =>
  match channels_ s !! id with
  | None => None
  | Some c =>
      let (res, r) := f (reassembler c) in
      Some (res, with_channels s (<[id := set_reassembler c r]> (channels_ s)))
  end.

Definition decompress (id : Z) (c : Channel) (data : list byte) : M (list byte) :=
  let$ v := sget version_ in
  if default 0 v <? Drdynvc.version3 then sfail invalid_value "compressed DVC data without version 3" 0
  else
    let$ cfg := sget config_ in
    match match decompressor c with Some d => Some d | None => make_decompressor cfg end with
    | None => sfail unsupported "compressed DVC data without a decompressor" 0
    | Some d =>
        fun s => let (res, d') := decompress_with d data in
                 Some (res, with_channels s (<[id := set_decompressor c d']> (channels_ s)))
    end.

Definition handle_common (pdu : Drdynvc.CommonPdu) : M unit :=
  match pdu with
  | Drdynvc.DataFirst id length data =>
      let$ channel := data_channel id in
      match channel with
      | None => sret tt
      | Some _ =>
          let$ message := reassemble id (fun r => Drdynvc.first r length data) in
          deliver id message
      end
  | Drdynvc.Data id data =>
      let$ channel := data_channel id in
      match channel with
      | None => sret tt
      | Some _ =>
          let$ message := reassemble id (fun r => Drdynvc.next r data) in
          deliver id message
      end
  | Drdynvc.DataFirstCompressed id length data =>
      let$ channel := data_channel id in
      match channel with
      | None => sret tt
      | Some c =>
          let$ block := decompress id c data in
          let$ message := reassemble id (fun r => Drdynvc.first r length block) in
          deliver id message
      end
  | Drdynvc.DataCompressed id data =>
      let$ channel := data_channel id in
      match channel with
      | None => sret tt
      | Some c =>
          let$ block := decompress id c data in
          let$ message := reassemble id (fun r => Drdynvc.next r block) in
          deliver id message
      end
  | Drdynvc.Close id =>
      let$ _ := require_ready in
      let$ found := sget (fun s => channels_ s !! id) in
      match found with
      | None => sret tt
      | Some c =>
          if bool_decide (state c = open_) then
            let$ _ := smod (fun s => with_channels s (delete id (channels_ s))) in
            emplace_event (ChannelClosed id)
          else sfail invalid_value "DVC Close for a channel that is not open" 1
      end
  end.

(** The overloads of [handle], as [std::visit] picks them. *)
Definition handle (pdu : Drdynvc.ClientPdu) : M unit :=
  match pdu with
  | Drdynvc.CapsResponse v => handle_caps v
  | Drdynvc.CreateResponse id status => handle_create id status
  | Drdynvc.ClientCommon c => handle_common c
  | Drdynvc.SoftSyncResponse _ => require_ready
  end.

Definition receive (message : list byte) : M unit := fun s =>
  match error_ s with
  | Some e => Some (Err e, s)
  | None =>
      match Drdynvc.decode_client_pdu message with
      | Err e => Some (Err e, with_error s e)
      | Ok pdu =>
          match handle pdu s with
          | Some (Err e, s') => Some (Err e, with_error s' e)
          | r => r
          end
      end
  end.

(** ** Invariant *)

Definition name_ok (n : list byte) : Prop :=
  0 < len n <= Z.of_nat Drdynvc.max_channel_name_size /\ byte_of 0 ∉ n.

Definition channel_ok (st : State) (queue : list Z) (id : Z) (c : Channel) : Prop :=
  0 < id < 2 ^ 32 /\ name_ok (name c) /\ 0 <= priority c <= 3 /\ Drdynvc.wf (reassembler c) /\
  (state c = pending -> id ∈ queue) /\ (st <> ready -> state c = pending).

Definition config_ok (c : DvcServerConfig) : Prop :=
  1 <= max_version c <= 3 /\ length (priority_charges c) = 4%nat.

(** [queue] holds the channels whose Create Request is still to be queued. *)
Record wfq (queue : list Z) (s : t) : Prop := mkWf {
  wf_config : config_ok (config_ s);
  wf_next : 1 <= next_id_ s < 2 ^ 32;
  wf_channels : map_Forall (channel_ok (state_ s) queue) (channels_ s);
  wf_offered : state_ s <> idle ->
    1 <= offered_ s <= max_version (config_ s) /\ (make_decompressor (config_ s) = None -> offered_ s <= 2);
  wf_version : match version_ s with Some v => state_ s = ready /\ 1 <= v <= offered_ s | None => state_ s <> ready end;
  wf_pending : state_ s = ready -> error_ s = None -> pending_ s = [];
  wf_output : Forall (fun p => len p <= Drdynvc.max_pdu_size) (output_ s) }.

Definition wf (s : t) : Prop := wfq (pending_ s) s.

(** A member function run from a state satisfying [P] trips no assertion; on
    success [Q] holds, after an error the invariant does. *)
Definition triple {A} (P : t -> Prop) (m : M A) (Q : A -> t -> Prop) : Prop :=
  forall s, P s -> match m s with
                   | Some (Ok a, s') => Q a s'
                   | Some (Err _, s') => wf s'
                   | None => False
                   end.

Lemma triple_bind {A B} P (m : M A) (f : A -> M B) Q R :
  triple P m Q -> (forall a, triple (Q a) (f a) R) -> triple P (sbind m f) R.
Proof.
  intros Hm Hf s Hs. specialize (Hm s Hs). unfold sbind. destruct (m s) as [[[a|] s']|]; [|done..].
  by apply Hf.
Qed.

Lemma triple_ret {A} (a : A) P Q : (forall s, P s -> Q a s) -> triple P (sret a) Q.
Proof. intros H s Hs. by apply H. Qed.

Lemma triple_fail {A} c w o P (Q : A -> t -> Prop) : (forall s, P s -> wf s) -> triple P (sfail c w o) Q.
Proof. intros H s Hs. by apply H. Qed.

Lemma triple_get {A B} (f : t -> A) (k : A -> M B) P R :
  (forall a, triple (fun s => P s /\ f s = a) (k a) R) -> triple P (sbind (sget f) k) R.
Proof. intros H s Hs. exact (H (f s) s (conj Hs eq_refl)). Qed.

Lemma triple_mod f P (Q : unit -> t -> Prop) : (forall s, P s -> Q tt (f s)) -> triple P (smod f) Q.
Proof. intros H s Hs. by apply H. Qed.

Lemma triple_pre {A} (P P' : t -> Prop) (m : M A) Q : (forall s, P s -> P' s) -> triple P' m Q -> triple P m Q.
Proof. intros H Hm s Hs. by apply Hm, H. Qed.

Lemma wf_insert q s id c :
  wfq q s -> channel_ok (state_ s) q id c -> wfq q (with_channels s (<[id := c]> (channels_ s))).
Proof. intros [] Hc. split; try done. by apply map_Forall_insert_2. Qed.

Lemma wf_delete q s id : wfq q s -> wfq q (with_channels s (delete id (channels_ s))).
Proof. intros []. split; try done. by apply map_Forall_delete. Qed.

Lemma wf_events s es : wf s -> wf (with_events s es).
Proof. intros []. by split. Qed.

Lemma wf_next_id s n : 1 <= n < 2 ^ 32 -> wf s -> wf (with_next_id s n).
Proof. intros Hn []. by split. Qed.

Lemma wf_error s e : wf s -> wf (with_error s e).
Proof. intros []. by split. Qed.

Lemma wf_push q s o :
  wfq q s -> Forall (fun p => len p <= Drdynvc.max_pdu_size) o -> wfq q (with_output s (output_ s ++ o)).
Proof. intros [] Ho. split; try done. by apply Forall_app. Qed.

Lemma triple_push m e P Q :
  writes m e -> len e <= Drdynvc.max_pdu_size ->
  (forall s, P s -> Q tt (with_output s (output_ s ++ [e]))) ->
  triple P (push_output m) Q.
Proof. intros W L H s Hs. unfold push_output. rewrite (writes_run _ _ W). by apply H. Qed.

Lemma triple_event e P : (forall s, P s -> wf s) -> triple P (emplace_event e) (fun _ s => wf s).
Proof. intros H. apply triple_mod. intros s Hs. by apply wf_events, H. Qed.

(** *** The encodings the server queues *)

Lemma create_request_fits id pri nm :
  0 < id < 2 ^ 32 -> 0 <= pri <= 3 -> name_ok nm ->
  exists e, writes (Drdynvc.encode_server (Drdynvc.CreateRequest id pri nm)) e /\ len e <= Drdynvc.max_pdu_size.
Proof.
  intros Hid Hpri [Hn Hz]. assert (Drdynvc.u32 id = true) as Hu.
  { unfold Drdynvc.u32. rewrite andb_true_iff, Z.leb_le, Z.ltb_lt. lia. }
  eexists. split.
  - cbn [Drdynvc.encode_server]. apply writes_assert; [apply Z.leb_le; lia|].
    apply writes_assert; [rewrite andb_true_iff, negb_true_iff, Z.eqb_neq, Z.leb_le; lia|].
    apply writes_assert; [by apply bool_decide_true|].
    apply writes_seq; [by apply Drdynvc.writes_id_pdu|]. apply writes_seq; apply writes_bytes.
  - pose proof (Drdynvc.field_size_range (Drdynvc.size_code id)).
    rewrite !len_app, Drdynvc.len_var_bytes. unfold Drdynvc.head, Drdynvc.max_channel_name_size, Drdynvc.max_pdu_size in *.
    len_lia.
Qed.

Lemma close_fits id :
  0 < id < 2 ^ 32 ->
  exists e, writes (Drdynvc.encode_common (Drdynvc.Close id)) e /\ len e <= Drdynvc.max_pdu_size.
Proof.
  intros Hid. eexists. split.
  - apply Drdynvc.writes_common. cbn. unfold Drdynvc.u32. rewrite andb_true_iff, Z.leb_le, Z.ltb_lt. lia.
  - cbn [Drdynvc.common_bytes]. pose proof (Drdynvc.field_size_range (Drdynvc.size_code id)).
    rewrite len_app, Drdynvc.len_var_bytes. unfold Drdynvc.head, Drdynvc.max_pdu_size. len_lia.
Qed.

Lemma caps_request_fits v charges :
  1 <= v <= 3 -> length charges = 4%nat ->
  exists e, writes (Drdynvc.encode_server (Drdynvc.CapsRequest v charges)) e /\ len e <= Drdynvc.max_pdu_size.
Proof.
  intros Hv Hl. exists (Drdynvc.head 5 0 0 ++ [byte_of 0] ++ Writer.le_bytes 2 v ++
    if Drdynvc.version2 <=? v then Drdynvc.charges_bytes charges else []). split.
  - cbn [Drdynvc.encode_server]. apply writes_assert; [unfold Drdynvc.version1, Drdynvc.version3; rewrite andb_true_iff, !Z.leb_le; lia|].
    apply writes_seq; [by apply Drdynvc.writes_byte|]. do 2 (apply writes_seq; [apply writes_bytes|]).
    destruct (Drdynvc.version2 <=? v); [apply Drdynvc.writes_charges|apply writes_ret].
  - assert (len (Drdynvc.charges_bytes charges) = 8) as Hc.
    { destruct charges as [|? [|? [|? [|? [|? ?]]]]]; done. }
    unfold Drdynvc.head, Drdynvc.max_pdu_size. destruct (Drdynvc.version2 <=? v); len_lia.
Qed.

Ltac chan_ok := unfold channel_ok; cbn; split_and!; try done; try lia; try congruence.

(** *** The operations keep the invariant *)

(** Queuing the Create Request of a channel of the table takes it off the queue. *)
Lemma triple_send_create id c queue :
  triple (fun s => wfq queue s /\ pending_ s = [] /\ state_ s = ready /\ channels_ s !! id = Some c)
         (send_create id c)
         (fun _ s => wfq (filter (fun i => i <> id) queue) s /\ pending_ s = [] /\ state_ s = ready).
Proof.
  intros s (Hwf & Hp & Hr & Hc). pose proof (wf_channels _ _ Hwf id c Hc) as (Hid & Hn & Hpri & Hra & _ & _).
  destruct (create_request_fits id (priority c) (name c) Hid Hpri Hn) as (e & We & Le).
  unfold send_create, sbind, push_output. rewrite (writes_run _ _ We). cbn [smod].
  split; [|done]. pose proof (wf_push queue s [e] Hwf ltac:(by constructor)) as Hw.
  destruct Hw as [H1 H2 H3 H4 H5 H6 H7]. split; try done. cbn in *.
  intros j cj [[<- <-]|[Hne Hj]]%lookup_insert_Some.
  - chan_ok.
  - specialize (H3 j cj Hj) as (? & ? & ? & ? & Hq & ?). chan_ok.
    intros Hpe. apply list_elem_of_filter. split; [done|by apply Hq].
Qed.

Lemma triple_send_pending queue :
  triple (fun s => wfq queue s /\ pending_ s = [] /\ state_ s = ready) (send_pending queue) (fun _ s => wf s).
Proof.
  induction queue as [|id queue IH]; cbn [send_pending].
  - apply triple_ret. intros s (H & Hp & _). unfold wf. by rewrite Hp.
  - apply triple_get. intros [c|].
    + eapply triple_bind.
      * eapply triple_pre; [|apply (triple_send_create id c (id :: queue))].
        intros s [(H1 & H2 & H3) H4]. by split_and!.
      * intros []. eapply triple_pre; [|apply IH]. intros s (Hw & Hp & Hr). split; [|done].
        destruct Hw as [H1 H2 H3 H4 H5 H6 H7]. split; try done.
        eapply map_Forall_impl; [exact H3|]. intros j cj (? & ? & ? & ? & Hq & ?). chan_ok.
        intros Hpe. specialize (Hq Hpe). apply list_elem_of_filter in Hq as [Hne Hq].
        apply elem_of_cons in Hq as [->|Hq]; [done|exact Hq].
    + eapply triple_bind; [apply (triple_ret tt _ (fun _ s => wfq queue s /\ pending_ s = [] /\ state_ s = ready))|].
      * intros s [(Hw & Hp & Hr) Hc]. split; [|done]. destruct Hw as [H1 H2 H3 H4 H5 H6 H7]. split; try done.
        intros j cj Hj. specialize (H3 j cj Hj) as (? & ? & ? & ? & Hq & ?). chan_ok.
        intros Hpe. specialize (Hq Hpe). apply elem_of_cons in Hq as [->|Hq]; [congruence|exact Hq].
      * intros []. exact IH.
Qed.

Lemma triple_start : triple (fun s => wf s /\ state_ s = idle) start (fun _ s => wf s).
Proof.
  intros s [Hwf Hi]. unfold start, sbind, sassert, sget. rewrite Hi, bool_decide_true by done.
  pose proof (wf_config _ _ Hwf) as [Hv Hl].
  set (o := match make_decompressor (config_ s) with Some _ => _ | None => _ end).
  assert (1 <= o <= max_version (config_ s) /\ (make_decompressor (config_ s) = None -> o <= 2)) as [Ho Hno].
  { subst o. unfold Drdynvc.version2. destruct (make_decompressor (config_ s)); split; try done; lia. }
  destruct (caps_request_fits o (priority_charges (config_ s))) as (e & We & Le); [lia|done|].
  unfold push_output. rewrite (writes_run _ _ We). cbn [smod].
  pose proof (wf_push _ s [e] Hwf ltac:(by constructor)) as [H1 H2 H3 H4 H5 H6 H7].
  split; try done; cbn in *.
  - eapply map_Forall_impl; [exact H3|]. intros j cj (? & ? & ? & ? & ? & Hp). rewrite Hi in Hp.
    chan_ok. intros _. by apply Hp.
  - destruct (version_ s); [by destruct H5 as [E _]; rewrite Hi in E|done].
Qed.

Lemma triple_caps v : 0 <= v -> triple wf (handle_caps v) (fun _ s => wf s).
Proof.
  intros Hv0. apply triple_get. intros [| |]; [apply triple_fail; tauto| |apply triple_fail; tauto].
  destruct (Z.eqb_spec v 0) as [|Hv]; [apply triple_fail; tauto|].
  apply triple_get. intros o. intros s [[Hwf Hst] Ho]. unfold sbind, smod, emplace_event, sget.
  cbn [pending_ with_events with_ready]. cbn [smod].
  match goal with |- match send_pending _ ?s1 with _ => _ end => pose proof (triple_send_pending (pending_ s) s1) as H end.
  apply H. destruct Hwf as [H1 H2 H3 H4 H5 H6 H7]. split; [|done]. split; try done; cbn in *.
  - eapply map_Forall_impl; [exact H3|]. intros j cj (? & ? & ? & ? & ? & Hp). chan_ok.
  - intros _. apply H4. by rewrite Hst.
  - rewrite Hst in H4. destruct (H4 ltac:(done)). split; [done|]. lia.
Qed.

(** *** Channel ids *)

Definition id_succ (id : Z) : Z := if id =? 2 ^ 32 - 1 then 1 else id + 1.

(** The id tried in the [k]-th iteration from [n]: ids cycle through 1..2^32-1. *)
Definition id_at (n : Z) (k : nat) : Z := 1 + (n - 1 + Z.of_nat k) mod (2 ^ 32 - 1).

Lemma id_at_0 n : 1 <= n < 2 ^ 32 -> id_at n 0 = n.
Proof. intros Hn. unfold id_at. rewrite Z.mod_small; lia. Qed.

Lemma id_succ_range n : 1 <= n < 2 ^ 32 -> 1 <= id_succ n < 2 ^ 32.
Proof. intros H. unfold id_succ. destruct (Z.eqb_spec n (2 ^ 32 - 1)); lia. Qed.

Lemma id_at_S n k : 1 <= n < 2 ^ 32 -> id_at n (S k) = id_at (id_succ n) k.
Proof.
  intros H. unfold id_at, id_succ. destruct (Z.eqb_spec n (2 ^ 32 - 1)) as [->|]; f_equal.
  - replace (2 ^ 32 - 1 - 1 + Z.of_nat (S k)) with (1 - 1 + Z.of_nat k + 1 * (2 ^ 32 - 1)) by lia.
    by rewrite Z.mod_add by lia.
  - f_equal. lia.
Qed.

Lemma id_at_inj n j k :
  Z.of_nat j < 2 ^ 32 - 1 -> Z.of_nat k < 2 ^ 32 - 1 -> id_at n j = id_at n k -> j = k.
Proof. unfold id_at. change (2 ^ 32) with 4294967296. intros. lia. Qed.

(** Pigeonhole: one of any [size + 1] consecutive ids is free. *)
Lemma free_id_exists (cs : gmap Z Channel) n :
  Z.of_nat (size cs) < 2 ^ 32 - 1 ->
  exists k, (k < S (size cs))%nat /\ cs !! id_at n k = None.
Proof.
  intros Hs. destruct (decide (Exists (fun k => cs !! id_at n k = None) (seq 0 (S (size cs))))) as [He|Hne].
  { apply Exists_exists in He as (k & Hk & Hn). apply elem_of_seq in Hk. exists k. split; [lia|done]. }
  exfalso. apply not_Exists_Forall in Hne; [|apply _]. rewrite Forall_forall in Hne.
  set (l := id_at n <$> seq 0 (S (size cs))).
  assert (NoDup l) as Hnd.
  { apply NoDup_fmap_2_strong; [|apply NoDup_seq]. intros x y Hx Hy E.
    apply elem_of_seq in Hx, Hy. apply (id_at_inj n); [lia..|done]. }
  assert ((list_to_set l : gset Z) ⊆ dom cs) as Hsub.
  { intros i Hi. apply elem_of_list_to_set, list_elem_of_fmap in Hi as (k & -> & Hk).
    apply elem_of_dom. specialize (Hne k Hk). cbn beta in Hne. by apply not_eq_None_Some. }
  apply subseteq_size in Hsub. rewrite size_list_to_set, size_dom in Hsub by done.
  subst l. rewrite length_fmap, length_seq in Hsub. lia.
Qed.

Lemma allocate_loop_spec fuel : forall s,
  1 <= next_id_ s < 2 ^ 32 ->
  (exists k, (k < fuel)%nat /\ channels_ s !! id_at (next_id_ s) k = None) ->
  exists id, allocate_loop fuel s = Some (Ok id, with_next_id s (id_succ id)) /\
    channels_ s !! id = None /\ 1 <= id < 2 ^ 32 /\
    (channels_ s !! next_id_ s = None -> id = next_id_ s).
Proof.
  induction fuel as [|fuel IH]; intros s Hn (k & Hk & Hf); [lia|]. cbn [allocate_loop].
  unfold sbind at 1, sget at 1, sbind at 1, smod at 1, sbind at 1, sget at 1. cbn [channels_ with_next_id].
  fold (id_succ (next_id_ s)).
  destruct (channels_ s !! next_id_ s) eqn:E.
  - destruct k as [|k]; [by rewrite id_at_0, E in Hf|].
    rewrite id_at_S in Hf by done.
    destruct (IH (with_next_id s (id_succ (next_id_ s)))) as (id & Ha & Hc & Hr & _); cbn [channels_ with_next_id next_id_] in *.
    + by apply id_succ_range.
    + exists k. split; [lia|done].
    + exists id. by rewrite Ha.
  - exists (next_id_ s). split_and!; try done; lia.
Qed.

Lemma allocate_id_spec s :
  1 <= next_id_ s < 2 ^ 32 -> Z.of_nat (size (channels_ s)) < 2 ^ 32 - 1 ->
  exists id, allocate_id s = Some (Ok id, with_next_id s (id_succ id)) /\
    channels_ s !! id = None /\ 1 <= id < 2 ^ 32 /\ (channels_ s !! next_id_ s = None -> id = next_id_ s).
Proof.
  intros Hn Hs. unfold allocate_id. destruct (Z.ltb_spec (Z.of_nat (size (channels_ s))) (2 ^ 32 - 1)); [|lia].
  by apply allocate_loop_spec, free_id_exists.
Qed.

(** *** open, send, close *)

Definition open_ok (nm : list byte) (o : DvcChannelOptions) (s : t) : Prop :=
  name_ok nm /\ 0 <= opt_priority o <= 3 /\ Z.of_nat (size (channels_ s)) < 2 ^ 32 - 1.

Lemma open_spec nm o s :
  wf s -> open_ok nm o s ->
  exists id s', open nm o s = Some (Ok id, s') /\ wf s' /\ channels_ s !! id = None /\
    is_Some (channels_ s' !! id) /\ next_id_ s' = id_succ id /\ 1 <= id < 2 ^ 32 /\
    (channels_ s !! next_id_ s = None -> id = next_id_ s).
Proof.
  intros Hwf ([Hn Hz] & Hpri & Hsz).
  destruct (allocate_id_spec s (wf_next _ _ Hwf) Hsz) as (id & Ha & Hfree & Hid & Hseq).
  unfold open, sbind, sassert.
  assert (negb (len nm =? 0) && (len nm <=? Z.of_nat Drdynvc.max_channel_name_size) = true) as ->
    by (rewrite andb_true_iff, negb_true_iff, Z.eqb_neq, Z.leb_le; lia).
  rewrite bool_decide_true by done. destruct (Z.leb_spec (opt_priority o) 3); [|lia]. rewrite Ha.
  unfold sget, smod. cbn [channels_ with_next_id]. rewrite bool_decide_true by done.
  set (c := mkChannel nm _ _ _ _). set (s1 := with_next_id s (id_succ id)).
  assert (wf s1) as Hw1 by (apply wf_next_id; [by apply id_succ_range|done]).
  assert (forall q, id ∈ q -> channel_ok (state_ s1) q id c) as Hc.
  { intros q Hq. subst c s1. chan_ok. }
  set (s2 := with_channels s1 _). exists id.
  destruct (bool_decide (state_ s2 = ready) && bool_decide (error_ s2 = None)) eqn:En.
  - bools. pose proof (wf_pending _ _ Hw1 H0 H1) as Hp.
    assert (wfq [id] s2) as Hw2.
    { apply wf_insert; [|by apply Hc; constructor]. unfold wf in Hw1. rewrite Hp in Hw1.
      destruct Hw1 as [X1 X2 X3 X4 X5 X6 X7]. split; try done.
      eapply map_Forall_impl; [exact X3|]. intros j cj (? & ? & ? & ? & Hq & ?). chan_ok.
      intros Hpe. by apply Hq, elem_of_nil in Hpe. }
    pose proof (triple_send_create id c [id] s2) as Ht.
    specialize (Ht (conj Hw2 (conj Hp (conj H0 (lookup_insert_eq _ _ _))))).
    destruct (send_create id c s2) as [[[[]|e] s3]|] eqn:Es; [|..].
    + exists s3. destruct Ht as (Hw3 & Hp3 & _). split_and!; try done; try lia.
      * unfold wf. rewrite Hp3. rewrite filter_cons_False, filter_nil in Hw3 by tauto. exact Hw3.
      * unfold send_create, sbind, push_output in Es. destruct (Writer.run _); [|done].
        cbn in Es. injection Es as <-. cbn. by rewrite lookup_insert_eq.
      * unfold send_create, sbind, push_output in Es. destruct (Writer.run _); [|done].
        cbn in Es. by injection Es as <-.
    + unfold send_create, sbind, push_output in Es. by destruct (Writer.run _).
    + done.
  - exists (with_pending s2 (pending_ s2 ++ [id])). cbn. split_and!; try done; try lia.
    + destruct Hw1 as [X1 X2 X3 X4 X5 X6 X7]. split; try done; cbn in *.
      * apply map_Forall_insert_2; [apply Hc; apply elem_of_app; right; by constructor|].
        eapply map_Forall_impl; [exact X3|]. intros j cj (? & ? & ? & ? & Hq & ?). chan_ok.
        intros Hpe. apply elem_of_app. auto.
      * intros Hr He. bools. rewrite Hr, He in En. by destruct En.
    + by rewrite lookup_insert_eq.
Qed.

Lemma u32_id id : 0 < id < 2 ^ 32 -> Drdynvc.u32 id = true.
Proof. intros H. unfold Drdynvc.u32. rewrite andb_true_iff, Z.leb_le, Z.ltb_lt. lia. Qed.

Lemma send_spec id m s :
  wf s -> len m < 2 ^ 32 ->
  exists r s', send id m s = Some (Ok r, s') /\ wf s' /\
    (r = false -> s' = s) /\ (r = true <-> error_ s = None /\ is_open id s = true) /\
    (r = true -> exists pdus, Drdynvc.encode_data id m = Some pdus /\ s' = with_output s (output_ s ++ pdus)).
Proof.
  intros Hwf Hm. unfold send, is_open. destruct (error_ s) eqn:Ee; [exists false, s; by split_and!; [..|split; [|intros []]|]|].
  destruct (channels_ s !! id) as [c|] eqn:Ec; [|exists false, s; by split_and!; [..|split; [|intros []]|]].
  destruct (bool_decide (state c = open_)) eqn:Eo; [|exists false, s; by split_and!; [..|split; [|intros []]|]].
  pose proof (wf_channels _ _ Hwf id c Ec) as (Hid & _).
  destruct (Drdynvc.dvc_delivers id (len m) m) as (pdus & E & _ & Hall).
  { cbn. split_and!; [lia|done|by apply u32_id]. }
  rewrite E. exists true. eexists. split_and!; [done|by apply wf_push|done|done|eauto].
Qed.

Lemma close_spec id s : wf s -> exists s', close id s = Some (Ok tt, s') /\ wf s' /\ channels_ s' !! id = None.
Proof.
  intros Hwf. unfold close. destruct (channels_ s !! id) as [c|] eqn:Ec; [|by exists s].
  pose proof (wf_channels _ _ Hwf id c Ec) as (Hid & _).
  unfold sbind. destruct (bool_decide (state c = pending)).
  - cbn [smod]. eexists. split_and!; [done| |cbn; by rewrite lookup_delete_eq].
    destruct Hwf as [H1 H2 H3 H4 H5 H6 H7]. split; try done; cbn in *.
    + intros j cj [Hne Hj]%lookup_delete_Some. specialize (H3 j cj Hj) as (? & ? & ? & ? & Hq & ?). chan_ok.
      intros Hp. apply list_elem_of_filter. auto.
    + intros Hr He. by rewrite (H6 Hr He).
  - destruct (close_fits id Hid) as (e & We & Le). unfold push_output. rewrite (writes_run _ _ We). cbn [smod].
    eexists. split_and!; [done| |cbn; by rewrite lookup_delete_eq].
    apply (wf_delete _ (with_output s (output_ s ++ [e]))). apply wf_push; [done|by constructor].
Qed.

(** *** Handlers *)

Lemma triple_require_ready : triple wf require_ready (fun _ s => wf s /\ state_ s = ready).
Proof.
  intros s Hs. unfold require_ready. destruct (bool_decide (state_ s = ready)) eqn:E; [|done]. by bools.
Qed.

Lemma triple_data_channel id :
  triple wf (data_channel id)
    (fun r s => wf s /\ state_ s = ready /\
       match r with Some c => channels_ s !! id = Some c /\ state c = open_ | None => True end).
Proof.
  eapply triple_bind; [apply triple_require_ready|]. intros []. apply triple_get. intros [c|].
  - destruct (bool_decide (state c = open_)) eqn:E; bools.
    + apply triple_ret. intros s [[? ?] ?]. by split_and!.
    + apply triple_fail. tauto.
  - apply triple_ret. tauto.
Qed.

Lemma triple_create id status : triple wf (handle_create id status) (fun _ s => wf s).
Proof.
  eapply triple_bind; [apply triple_require_ready|]. intros []. apply triple_get. intros [c|]; [|apply triple_ret; tauto].
  destruct (state c) eqn:Es; [apply triple_fail; tauto| |apply triple_fail; tauto].
  destruct (status <? 0).
  - eapply triple_bind.
    + apply (triple_event _ _). tauto.
    + intros []. apply triple_mod. intros s Hs. by apply wf_delete.
  - apply triple_bind with (Q := fun _ s => wf s); [|intros []; by apply triple_event].
    apply triple_mod. intros s [[Hwf Hr] Hc]. apply wf_insert; [done|].
    pose proof (wf_channels _ _ Hwf id c Hc) as (? & ? & ? & ? & ? & ?). chan_ok.
Qed.

(** A reassembler step that keeps the reassembler's own invariant. *)
Definition good_step (f : Drdynvc.MessageReassembler -> Result (option (list byte)) * Drdynvc.MessageReassembler) : Prop :=
  forall r res r', Drdynvc.wf r -> f r = (res, r') -> Drdynvc.wf r'.

Lemma good_first l d : 0 <= l < 2 ^ 32 -> good_step (fun r => Drdynvc.first r l d).
Proof. intros Hl r res r' Hr H. by apply (Drdynvc.take_block_wf r (Drdynvc.FirstBlock l d) res r'). Qed.

Lemma good_next d : good_step (fun r => Drdynvc.next r d).
Proof. intros r res r' Hr H. by apply (Drdynvc.take_block_wf r (Drdynvc.NextBlock d) res r'). Qed.

Lemma triple_reassemble id f :
  good_step f ->
  triple (fun s => wf s /\ state_ s = ready /\ exists c, channels_ s !! id = Some c /\ state c = open_)
    (let$ message := reassemble id f in deliver id message) (fun _ s => wf s).
Proof.
  intros Hf. apply triple_bind with (Q := fun _ s => wf s).
  - intros s (Hwf & Hr & c & Hc & Ho). unfold reassemble. rewrite Hc.
    destruct (f (reassembler c)) as [res r] eqn:E.
    pose proof (wf_channels _ _ Hwf id c Hc) as (? & ? & ? & Hra & ? & ?).
    assert (wf (with_channels s (<[id := set_reassembler c r]> (channels_ s)))) as Hw.
    { apply wf_insert; [done|]. chan_ok. by apply (Hf _ _ _ Hra E). }
    by destruct res.
  - intros [m|]; [by apply triple_event|by apply triple_ret].
Qed.

Lemma triple_decompress id c d :
  triple (fun s => wf s /\ state_ s = ready /\ channels_ s !! id = Some c /\ state c = open_)
    (decompress id c d)
    (fun _ s => wf s /\ state_ s = ready /\ exists c', channels_ s !! id = Some c' /\ state c' = open_).
Proof.
  apply triple_get. intros v. destruct (default 0 v <? Drdynvc.version3); [apply triple_fail; tauto|].
  apply triple_get. intros cfg. destruct (match decompressor c with Some d => Some d | None => _ end) as [x|];
    [|apply triple_fail; tauto].
  intros s [[(Hwf & Hr & Hc & Ho) _] _]. destruct (decompress_with x d) as [res x'].
  pose proof (wf_channels _ _ Hwf id c Hc) as (? & ? & ? & ? & ? & ?).
  assert (wf (with_channels s (<[id := set_decompressor c x']> (channels_ s)))) as Hw.
  { apply wf_insert; [done|]. chan_ok. }
  destruct res; [|done]. split_and!; [done|done|]. exists (set_decompressor c x'). cbn.
  by rewrite lookup_insert_eq.
Qed.

Definition common_range (pdu : Drdynvc.CommonPdu) : Prop :=
  match pdu with
  | Drdynvc.DataFirst _ l _ | Drdynvc.DataFirstCompressed _ l _ => 0 <= l < 2 ^ 32
  | _ => True
  end.

Lemma triple_common pdu : common_range pdu -> triple wf (handle_common pdu) (fun _ s => wf s).
Proof.
  intros Hr. destruct pdu as [id l d|id d|id l d|id d|id]; cbn [handle_common common_range] in *.
  - eapply triple_bind; [apply triple_data_channel|]. intros [c|]; [|apply triple_ret; tauto].
    eapply triple_pre; [|by apply triple_reassemble, good_first]. intros s (? & ? & ? & ?). eauto.
  - eapply triple_bind; [apply triple_data_channel|]. intros [c|]; [|apply triple_ret; tauto].
    eapply triple_pre; [|apply triple_reassemble, good_next]. intros s (? & ? & ? & ?). eauto.
  - eapply triple_bind; [apply triple_data_channel|]. intros [c|]; [|apply triple_ret; tauto].
    eapply triple_bind; [eapply triple_pre; [|apply triple_decompress]; tauto|].
    intros b. by apply triple_reassemble, good_first.
  - eapply triple_bind; [apply triple_data_channel|]. intros [c|]; [|apply triple_ret; tauto].
    eapply triple_bind; [eapply triple_pre; [|apply triple_decompress]; tauto|].
    intros b. apply triple_reassemble, good_next.
  - eapply triple_bind; [apply triple_require_ready|]. intros []. apply triple_get.
    intros [c|]; [|apply triple_ret; tauto]. destruct (bool_decide (state c = open_)); [|apply triple_fail; tauto].
    apply triple_bind with (Q := fun _ s => wf s); [|intros []; by apply triple_event].
    apply triple_mod. intros s [[Hs _] _]. by apply wf_delete.
Qed.

(** *** What the decoder lets through *)

Lemma read_var_range code r v r' : Drdynvc.read_var code r = Ok (v, r') -> 0 <= v < 2 ^ 32.
Proof.
  unfold Drdynvc.read_var. destruct (code =? 0); [|destruct (code =? 1); [|destruct (code =? 2); [|done]]];
    intros (? & ? & ? & H & _)%read_le_inv; cbn in H; lia.
Qed.

Lemma decode_common_range h r pdu r' : Drdynvc.decode_common h r = Ok (pdu, r') -> common_range pdu.
Proof.
  unfold Drdynvc.decode_common. intros H. destruct (_ || _).
  - apply dbind_inv in H as (id & r1 & _ & H). apply dbind_inv in H as (l & r2 & Hl & H).
    apply read_var_range in Hl. rewrite !dbind_ask in H.
    destruct (_ =? _); [by injection H as <- _|]. destruct (_ <? _); [done|by injection H as <- _].
  - destruct (_ || _).
    + apply dbind_inv in H as (id & r1 & _ & H). rewrite dbind_ask in H. destruct (_ =? _); by injection H as <- _.
    + destruct (_ =? _); [|done]. apply dbind_inv in H as (id & r1 & _ & H).
      apply dbind_inv in H as (? & r2 & _ & H). by injection H as <- _.
Qed.

Definition client_range (pdu : Drdynvc.ClientPdu) : Prop :=
  match pdu with
  | Drdynvc.CapsResponse v => 0 <= v
  | Drdynvc.ClientCommon c => common_range c
  | _ => True
  end.

Lemma decode_client_range m pdu : Drdynvc.decode_client_pdu m = Ok pdu -> client_range pdu.
Proof.
  unfold Drdynvc.decode_client_pdu. destruct (Drdynvc.read_client_pdu _) as [[p r]|] eqn:E; [|done].
  intros [= <-]. unfold Drdynvc.read_client_pdu in E. apply dbind_inv in E as (h & r1 & _ & E).
  destruct (_ =? _).
  { apply dbind_inv in E as (? & r2 & _ & E). apply dbind_inv in E as (v & r3 & Hv & E).
    apply dbind_inv in E as (? & r4 & _ & E). injection E as <- _.
    apply read_le_inv in Hv as (? & _ & _ & Hv & _). cbn. lia. }
  destruct (_ =? _).
  { do 3 (apply dbind_inv in E as (? & ? & _ & E)). by injection E as <- _. }
  destruct (_ =? _).
  { unfold Drdynvc.read_soft_sync_response in E. do 2 (apply dbind_inv in E as (? & ? & _ & E)).
    rewrite !dbind_ask in E. destruct (_ || _); [done|]. apply dbind_inv in E as (? & ? & _ & E). by injection E as <- _. }
  apply dbind_inv in E as (c & r2 & Hc & E). injection E as <- _. by eapply decode_common_range.
Qed.

Lemma receive_spec m s :
  wf s -> exists r s', receive m s = Some (r, s') /\ wf s' /\
    match r with Ok _ => error_ s = None | Err e => error_ s' = Some e end.
Proof.
  intros Hwf. unfold receive. destruct (error_ s) as [e|] eqn:Ee; [exists (Err e), s; by rewrite Ee|].
  destruct (Drdynvc.decode_client_pdu m) as [pdu|e] eqn:Ed; [|exists (Err e), (with_error s e); by split_and!; [|apply wf_error|]].
  apply decode_client_range in Ed.
  assert (triple wf (handle pdu) (fun _ s => wf s)) as Ht.
  { destruct pdu as [v|id st|c|ts]; cbn [handle client_range] in *.
    - by apply triple_caps.
    - apply triple_create.
    - by apply triple_common.
    - intros s0 Hs0. pose proof (triple_require_ready s0 Hs0) as H.
      destruct (require_ready s0) as [[[[]|] ?]|]; [tauto|done..]. }
  specialize (Ht s Hwf). destruct (handle pdu s) as [[[[]|e] s']|]; [| |done].
  - exists (Ok tt), s'. by split_and!.
  - exists (Err e), (with_error s' e). by split_and!; [|apply wf_error|].
Qed.

(** ** The API as a transition system *)

Inductive Op :=
  | OpStart
  | OpOpen (nm : list byte) (options : DvcChannelOptions)
  | OpSend (id : Z) (message : list byte)
  | OpClose (id : Z)
  | OpReceive (message : list byte)
  | OpTakeOutput
  | OpPollEvent.

(** What the class requires of its caller. *)
Definition op_ok (op : Op) (s : t) : Prop :=
  match op with
  | OpStart => state_ s = idle
  | OpOpen nm o => open_ok nm o s
  | OpSend _ m => len m < 2 ^ 32
  | _ => True
  end.

Definition apply_op (op : Op) (s : t) : option t :=
  match op with
  | OpStart => snd <$> start s
  | OpOpen nm o => snd <$> open nm o s
  | OpSend id m => snd <$> send id m s
  | OpClose id => snd <$> close id s
  | OpReceive m => snd <$> receive m s
  | OpTakeOutput => snd <$> take_output s
  | OpPollEvent => snd <$> poll_event s
  end.

Inductive reachable (cfg : DvcServerConfig) : t -> Prop :=
  | reach_init s : make cfg = Some s -> reachable cfg s
  | reach_step s op s' : reachable cfg s -> op_ok op s -> apply_op op s = Some s' -> reachable cfg s'.

Lemma dvc_make_wf cfg s : config_ok cfg -> make cfg = Some s -> wf s.
Proof.
  intros Hc. unfold make. destruct (_ && _); [|done]. intros [= <-].
  split; cbn; try done; apply map_Forall_empty.
Qed.

Lemma dvc_apply_op_wf op s : wf s -> op_ok op s -> exists s', apply_op op s = Some s' /\ wf s'.
Proof.
  intros Hwf Hok. destruct op; cbn [apply_op op_ok] in *.
  - pose proof (triple_start s (conj Hwf Hok)) as H. destruct (start s) as [[[[]|] s']|]; [| |done]; by exists s'.
  - destruct (open_spec nm options s Hwf Hok) as (id & s' & -> & Hw & _). by exists s'.
  - destruct (send_spec id message s Hwf Hok) as (r & s' & -> & Hw & _). by exists s'.
  - destruct (close_spec id s Hwf) as (s' & -> & Hw & _). by exists s'.
  - destruct (receive_spec message s Hwf) as (r & s' & -> & Hw & _). by exists s'.
  - exists (with_output s []). split; [done|]. destruct Hwf. by split.
  - unfold poll_event. destruct (events_ s); eexists; (split; [done|]); [done|by apply wf_events].
Qed.

Lemma dvc_reachable_wf cfg s : config_ok cfg -> reachable cfg s -> wf s.
Proof.
  intros Hc. induction 1 as [s Hm|s op s' _ IH Hok Ha]; [by eapply dvc_make_wf|].
  destruct (dvc_apply_op_wf op s IH Hok) as (s'' & E & Hw). congruence.
Qed.

(** ** Events *)

Definition event_ok (s : t) (e : DvcEvent) : Prop :=
  match e with
  | CapabilitiesReady v => state_ s = waiting_caps /\ 1 <= v <= offered_ s
  | ChannelOpened id n => exists c, channels_ s !! id = Some c /\ state c = opening /\ name c = n
  | ChannelOpenFailed id n st => st < 0 /\ exists c, channels_ s !! id = Some c /\ state c = opening /\ name c = n
  | ChannelData id d => exists c, channels_ s !! id = Some c /\ state c = open_ /\
                                  len d <= Drdynvc.max_size_ (reassembler c)
  | ChannelClosed id => exists c, channels_ s !! id = Some c /\ state c = open_
  end.

(** [s'] has the events of [s] and then justified new ones. *)
Definition grows (s0 s s' : t) : Prop := exists new, events_ s' = events_ s ++ new /\ Forall (event_ok s0) new.

Lemma grows_same s0 s s' : events_ s' = events_ s -> grows s0 s s'.
Proof. intros E. exists []. by rewrite app_nil_r. Qed.

Lemma grows_one s0 s s' e : events_ s' = events_ s ++ [e] -> event_ok s0 e -> grows s0 s s'.
Proof. intros E He. exists [e]. split; [done|by constructor]. Qed.

Lemma send_pending_events ids : forall s r s', send_pending ids s = Some (r, s') -> events_ s' = events_ s.
Proof.
  induction ids as [|id ids IH]; intros s r s' H; cbn [send_pending] in H; [by injection H as _ <-|].
  unfold sbind at 1, sget in H. unfold sbind at 1 in H. destruct (channels_ s !! id) as [c|].
  - unfold send_create, sbind at 1, push_output in H. destruct (Writer.run _); [|done]. cbn in H.
    apply IH in H. by rewrite H.
  - cbn in H. by apply IH in H.
Qed.

Lemma data_channel_inv id s r s' :
  data_channel id s = Some (r, s') ->
  s' = s /\ match r with
            | Ok (Some c) => channels_ s !! id = Some c /\ state c = open_
            | _ => True
            end.
Proof.
  unfold data_channel, sbind, require_ready, sget. destruct (bool_decide (state_ s = ready)); [|by intros [= <- <-]].
  destruct (channels_ s !! id) as [c|]; [|by intros [= <- <-]].
  destruct (bool_decide (state c = open_)) eqn:E; bools; by intros [= <- <-].
Qed.

Lemma decompress_inv id c d s r s' :
  decompress id c d s = Some (r, s') -> channels_ s !! id = Some c ->
  events_ s' = events_ s /\ exists c', channels_ s' !! id = Some c' /\ reassembler c' = reassembler c.
Proof.
  unfold decompress, sbind, sget, sfail. intros H Hc.
  destruct (default 0 (version_ s) <? Drdynvc.version3); [injection H as _ <-; eauto|].
  destruct (match decompressor c with Some x => Some x | None => _ end) as [x|]; [|injection H as _ <-; eauto].
  destruct (decompress_with x d) as [res x']. injection H as _ <-. split; [done|].
  exists (set_decompressor c x'). cbn. by rewrite lookup_insert_eq.
Qed.

Lemma reassemble_events id b s0 c0 c s r s' :
  Drdynvc.wf (reassembler c0) -> Drdynvc.block_ok b ->
  channels_ s0 !! id = Some c0 -> state c0 = open_ ->
  channels_ s !! id = Some c -> reassembler c = reassembler c0 ->
  (let$ message := reassemble id (fun x => Drdynvc.take_block x b) in deliver id message) s = Some (r, s') ->
  grows s0 s s'.
Proof.
  intros Hw Hb Hc0 Ho Hc Hr H. unfold sbind, reassemble in H. rewrite Hc, Hr in H.
  destruct (Drdynvc.take_block (reassembler c0) b) as [res x] eqn:E.
  apply Drdynvc.take_block_wf in E as (_ & _ & Hres); [|done..].
  destruct res as [[m|]|]; cbn in H; injection H as _ <-; [|by apply grows_same..].
  eapply grows_one; [done|]. cbn. exists c0. tauto.
Qed.

Lemma handle_events pdu s r s' :
  wf s -> client_range pdu -> handle pdu s = Some (r, s') -> grows s s s'.
Proof.
  intros Hwf Hr H. destruct pdu as [v|id st|c|ts]; cbn [handle client_range] in *.
  - unfold handle_caps, sbind at 1, sget at 1 in H. destruct (state_ s) eqn:Es; [by injection H as _ <-; apply grows_same| |by injection H as _ <-; apply grows_same].
    destruct (Z.eqb_spec v 0) as [|Hv]; [by injection H as _ <-; apply grows_same|].
    unfold sbind, sget, smod, emplace_event in H. cbn in H. apply send_pending_events in H.
    eapply grows_one; [exact H|]. cbn. pose proof (wf_offered _ _ Hwf ltac:(by rewrite Es)). split; [done|lia].
  - unfold handle_create, sbind at 1, require_ready in H.
    destruct (bool_decide (state_ s = ready)); [|by injection H as _ <-; apply grows_same].
    unfold sbind at 1, sget in H. destruct (channels_ s !! id) as [c|] eqn:Ec; [|by injection H as _ <-; apply grows_same].
    destruct (state c) eqn:Es; [by injection H as _ <-; apply grows_same| |by injection H as _ <-; apply grows_same].
    destruct (Z.ltb_spec st 0); cbn in H; injection H as _ <-.
    + eapply grows_one; [done|]. cbn. eauto.
    + eapply grows_one; [done|]. cbn. eauto.
  - destruct c as [id l d|id d|id l d|id d|id]; cbn [handle_common common_range] in *;
      try (unfold sbind at 1 in H; destruct (data_channel id s) as [[[[c|]|] s1]|] eqn:Ed; try done;
           apply data_channel_inv in Ed as [-> Hd]; try (by injection H as _ <-; apply grows_same);
           destruct Hd as [Hc Ho]; pose proof (wf_channels _ _ Hwf id c Hc) as (_ & _ & _ & Hra & _)).
    + by apply (reassemble_events id (Drdynvc.FirstBlock l d) s c c s r s').
    + by apply (reassemble_events id (Drdynvc.NextBlock d) s c c s r s').
    + unfold sbind at 1 in H. destruct (decompress id c d s) as [[res s1]|] eqn:Ex; [|done].
      destruct (decompress_inv _ _ _ _ _ _ Ex Hc) as (He & c' & Hc' & Hre).
      destruct res as [b|]; [|injection H as _ <-; by apply grows_same].
      unfold grows. rewrite <- He. by apply (reassemble_events id (Drdynvc.FirstBlock l b) s c c' s1 r s').
    + unfold sbind at 1 in H. destruct (decompress id c d s) as [[res s1]|] eqn:Ex; [|done].
      destruct (decompress_inv _ _ _ _ _ _ Ex Hc) as (He & c' & Hc' & Hre).
      destruct res as [b|]; [|injection H as _ <-; by apply grows_same].
      unfold grows. rewrite <- He. by apply (reassemble_events id (Drdynvc.NextBlock b) s c c' s1 r s').
    + unfold sbind at 1, require_ready in H.
      destruct (bool_decide (state_ s = ready)); [|by injection H as _ <-; apply grows_same].
      unfold sbind at 1, sget in H. destruct (channels_ s !! id) as [c|] eqn:Ec; [|by injection H as _ <-; apply grows_same].
      destruct (bool_decide (state c = open_)) eqn:Eo; [|by injection H as _ <-; apply grows_same].
      cbn in H. injection H as _ <-. bools. eapply grows_one; [done|]. cbn. eauto.
  - unfold require_ready in H. destruct (bool_decide _); injection H as _ <-; by apply grows_same.
Qed.

(** ** Theorems *)

(** C28: in every state a caller can reach through the API (any interleaving of
    start, open, send, close, receive of arbitrary bytes, take_output and
    poll_event that respects the documented preconditions) the invariant holds:
    ids in 1..2^32-1, valid names and priorities, reassemblers within their
    limits, a negotiated version between 1 and what was offered, only pending
    channels before the exchange, and every queued message at most 1600 bytes.
    No further call can trip an assertion. *)
Theorem dvc_server_safe (cfg : DvcServerConfig) (s : t) :
  config_ok cfg -> reachable cfg s ->
  wf s /\ forall op, op_ok op s -> exists s', apply_op op s = Some s'.
Proof.
  intros Hc Hr. pose proof (dvc_reachable_wf cfg s Hc Hr) as Hwf. split; [done|].
  intros op Hop. destruct (dvc_apply_op_wf op s Hwf Hop) as (s' & E & _). by exists s'.
Qed.

(** C33: [open] always returns an unused non-zero 32-bit id, although its search
    loop has no bound of its own (one of any [size + 1] consecutive ids is free);
    the id is the next in sequence unless that one is still in use after a
    wrap-around, so a late PDU for a closed channel cannot meet a new one. *)
Theorem dvc_open_fresh (cfg : DvcServerConfig) (s : t) (nm : list byte) (o : DvcChannelOptions) :
  config_ok cfg -> reachable cfg s -> open_ok nm o s ->
  exists id s', open nm o s = Some (Ok id, s') /\ channels_ s !! id = None /\ is_Some (channels_ s' !! id) /\
    1 <= id < 2 ^ 32 /\ next_id_ s' = id_succ id /\ (channels_ s !! next_id_ s = None -> id = next_id_ s).
Proof.
  intros Hc Hr Ho. destruct (open_spec nm o s (dvc_reachable_wf cfg s Hc Hr) Ho) as (id & s' & H). exists id, s'. tauto.
Qed.

(** C31: whatever message arrives, [receive] returns; it only appends events, and
    each new one is justified by the state before: data and close only for a
    channel the client had accepted (the data within that channel's limit),
    opened and refused only for a channel with an outstanding Create Request,
    the capabilities event only once, with a version in 1..offered. *)
Theorem dvc_events_justified (cfg : DvcServerConfig) (s : t) (m : list byte) :
  config_ok cfg -> reachable cfg s ->
  exists r s', receive m s = Some (r, s') /\ grows s s s'.
Proof.
  intros Hc Hr. pose proof (dvc_reachable_wf cfg s Hc Hr) as Hwf.
  destruct (receive_spec m s Hwf) as (r & s' & E & _). exists r, s'. split; [done|].
  unfold receive in E. destruct (error_ s); [injection E as _ <-; by apply grows_same|].
  destruct (Drdynvc.decode_client_pdu m) as [pdu|e] eqn:Ed; [|injection E as _ <-; by apply grows_same].
  apply decode_client_range in Ed. destruct (handle pdu s) as [[[x|e] s1]|] eqn:Eh; [| |done].
  - injection E as _ <-. by eapply handle_events.
  - injection E as _ <-. apply (handle_events pdu s (Err e) s1); done.
Qed.

(** C32: a message sent on an open channel is queued as data PDUs which the
    client, decoding and reassembling them, turns back into that message; on a
    channel that is not open (or after an error) nothing is queued and [send]
    says so. *)
Theorem dvc_send_delivers (cfg : DvcServerConfig) (s : t) (id : Z) (m : list byte) :
  config_ok cfg -> reachable cfg s -> len m < 2 ^ 32 ->
  (error_ s = None /\ is_open id s = true ->
     exists pdus, send id m s = Some (Ok true, with_output s (output_ s ++ pdus)) /\
       feed_all (Drdynvc.dvc_transport id (len m)) (Drdynvc.make (len m)) pdus = Ok ([m], Drdynvc.make (len m))) /\
  (~ (error_ s = None /\ is_open id s = true) -> send id m s = Some (Ok false, s)).
Proof.
  intros Hc Hr Hm. pose proof (dvc_reachable_wf cfg s Hc Hr) as Hwf.
  destruct (send_spec id m s Hwf Hm) as (r & s' & E & _ & Hf & Ht & Hout). split.
  - intros Ho. apply Ht in Ho. destruct (Hout Ho) as (pdus & Ep & ->). exists pdus. rewrite E, Ho. split; [done|].
    assert (is_open id s = true) as Hop by tauto. unfold is_open in Hop.
    destruct (channels_ s !! id) as [c|] eqn:Ec; [|done].
    pose proof (wf_channels _ _ Hwf id c Ec) as (Hid & _).
    destruct (Drdynvc.dvc_delivers id (len m) m) as (ps & Eps & Hfeed & _).
    { cbn. split_and!; [lia|done|by apply u32_id]. }
    congruence.
  - intros Hn. destruct r; [by destruct Hn; apply Ht|]. by rewrite E, Hf.
Qed.

Lemma allocate_id_inv s r s' : allocate_id s = Some (r, s') -> exists n, s' = with_next_id s n.
Proof.
  unfold allocate_id. destruct (_ <? _); [|done]. generalize (S (size (channels_ s))) as fuel. intros fuel. revert s.
  induction fuel as [|fuel IH]; intros s H; [done|]. cbn [allocate_loop] in H.
  unfold sbind, sget, smod in H. cbn [channels_ with_next_id] in H.
  destruct (channels_ s !! next_id_ s).
  - apply IH in H as [n ->]. by exists n.
  - injection H as _ <-. by eexists.
Qed.

Lemma push_output_inv m s r s' : push_output m s = Some (r, s') -> r = Ok tt /\ exists o, s' = with_output s o.
Proof. unfold push_output. destruct (Writer.run m); [|done]. intros [= <- <-]. eauto. Qed.

Lemma open_error nm o s r s' e :
  error_ s = Some e -> open nm o s = Some (r, s') -> error_ s' = Some e /\ events_ s' = events_ s.
Proof.
  intros He. unfold open, sbind, sassert. repeat (destruct (_ : bool); [|done]).
  destruct (allocate_id s) as [[[id|] s1]|] eqn:Ea; [| |done]; apply allocate_id_inv in Ea as [n ->].
  - unfold sget, smod. cbn [channels_ with_next_id]. destruct (bool_decide _); [|done]. cbn.
    rewrite He, (bool_decide_false (Some e = None)), andb_false_r by done. by intros [= _ <-].
  - by intros [= _ <-].
Qed.

(** an error is final: once a message was refused, every later [receive]
    returns that same error and changes nothing, [send] queues nothing, and no
    call whatsoever clears the error or adds an event. *)
Theorem dvc_error_latched (s : t) (e : Error) :
  error_ s = Some e ->
  (forall m, receive m s = Some (Err e, s)) /\
  (forall id m, send id m s = Some (Ok false, s)) /\
  (forall op s', apply_op op s = Some s' -> error_ s' = Some e /\ events_ s' `suffix_of` events_ s).
Proof.
  intros He. split_and!.
  - intros m. unfold receive. by rewrite He.
  - intros id m. unfold send. by rewrite He.
  - intros op s' H. destruct op; cbn [apply_op] in H.
    + unfold start, sbind, sassert, sget in H. destruct (bool_decide _); [|done].
      destruct (push_output _ s) as [[r s1]|] eqn:E; [|done].
      apply push_output_inv in E as [-> [o ->]]. by injection H as <-.
    + destruct (open nm options s) as [[r s1]|] eqn:E; [|done]. cbn in H. injection H as <-.
      apply (open_error _ _ _ _ _ e) in E as [-> ->]; done.
    + unfold send in H. rewrite He in H. cbn in H. by injection H as <-.
    + unfold close, sbind in H. destruct (channels_ s !! id); [|by injection H as <-].
      destruct (bool_decide _); [by injection H as <-|].
      destruct (push_output _ s) as [[r s1]|] eqn:E; [|done].
      apply push_output_inv in E as [-> [o ->]]. by injection H as <-.
    + unfold receive in H. rewrite He in H. cbn in H. by injection H as <-.
    + cbn in H. by injection H as <-.
    + unfold poll_event in H. destruct (events_ s) as [|x es] eqn:Ev; cbn in H; injection H as <-; [by rewrite Ev|].
      cbn. split; [done|]. by apply suffix_cons_r.
Qed.

Definition late_pdu (id : Z) (pdu : Drdynvc.ClientPdu) : Prop :=
  match pdu with
  | Drdynvc.CreateResponse i _ => i = id
  | Drdynvc.ClientCommon (Drdynvc.DataFirst i _ _) | Drdynvc.ClientCommon (Drdynvc.Data i _)
  | Drdynvc.ClientCommon (Drdynvc.DataFirstCompressed i _ _) | Drdynvc.ClientCommon (Drdynvc.DataCompressed i _)
  | Drdynvc.ClientCommon (Drdynvc.Close i) => i = id
  | _ => False
  end.

(** after [close] the client's traffic still in flight for that channel
    (create responses, data of every kind, its own Close) is accepted and has no
    effect at all once the exchange is done. *)
Theorem dvc_closed_channel_ignored (cfg : DvcServerConfig) (s : t) (id : Z) (m : list byte) (pdu : Drdynvc.ClientPdu) :
  config_ok cfg -> reachable cfg s -> state_ s = ready -> error_ s = None ->
  Drdynvc.decode_client_pdu m = Ok pdu -> late_pdu id pdu ->
  exists s', close id s = Some (Ok tt, s') /\ receive m s' = Some (Ok tt, s').
Proof.
  intros Hc Hr Hs He Hd Hl.
  destruct (close_spec id s (dvc_reachable_wf cfg s Hc Hr)) as (s' & Ec & _ & Hn). exists s'. split; [done|].
  assert (state_ s' = ready /\ error_ s' = None) as [Hs' He'].
  { unfold close, sbind in Ec. destruct (channels_ s !! id); [|by injection Ec as <-].
    destruct (bool_decide _); [by injection Ec as <-|].
    destruct (push_output _ s) as [[r s1]|] eqn:E; [|done].
    apply push_output_inv in E as [-> [o ->]]. by injection Ec as <-. }
  unfold receive. rewrite He', Hd.
  assert (handle pdu s' = Some (Ok tt, s')) as ->; [|done].
  destruct pdu as [v|i st|c|ts]; cbn [late_pdu handle] in *; [done| |destruct c; subst; cbn [handle_common]|done];
    subst; unfold handle_create, data_channel, sbind, require_ready, sget; rewrite bool_decide_true, Hn by done; done.
Qed.

(** Runs of the API, for concrete states. *)
Fixpoint run_ops (ops : list Op) (s : t) : option t :=
  match ops with
  | [] => Some s
  | op :: ops' => match apply_op op s with Some s' => run_ops ops' s' | None => None end
  end.

(** [op_ok] decided. *)
Definition op_okb (op : Op) (s : t) : bool :=
  match op with
  | OpStart => bool_decide (state_ s = idle)
  | OpOpen nm o =>
      (0 <? len nm) && (len nm <=? Z.of_nat Drdynvc.max_channel_name_size) && bool_decide (byte_of 0 ∉ nm) &&
      (0 <=? opt_priority o) && (opt_priority o <=? 3) && (Z.of_nat (size (channels_ s)) <? 2 ^ 32 - 1)
  | OpSend _ m => len m <? 2 ^ 32
  | _ => true
  end.

Lemma op_okb_ok op s : op_okb op s = true -> op_ok op s.
Proof.
  destruct op; cbn; intros H; bools; done.
Qed.

Fixpoint run_okb (ops : list Op) (s : t) : bool :=
  match ops with
  | [] => true
  | op :: ops' => op_okb op s && match apply_op op s with Some s' => run_okb ops' s' | None => false end
  end.

Lemma reachable_run cfg ops : forall s s',
  reachable cfg s -> run_okb ops s = true -> run_ops ops s = Some s' -> reachable cfg s'.
Proof.
  induction ops as [|op ops IH]; intros s s' Hr Hok H; cbn in *; [by injection H as <-|].
  apply andb_prop in Hok as [Hop Hok]. destruct (apply_op op s) as [s1|] eqn:E; [|done].
  apply (IH s1 s'); [|done..]. by eapply reach_step; [|apply op_okb_ok|].
Qed.

End Server.

(** ** Witnesses

    A server that offers version 2, is asked for a channel before the exchange
    and then hears the client's capabilities and its acceptance. *)

Definition stored (d : unit) (b : list byte) : Result (list byte) * unit := (Ok b, d).

Definition sample_config : DvcServerConfig (D := unit) :=
  mkConfig 2 Drdynvc.default_priority_charges default_max_dvc_message_size None.

Definition sample_options : DvcChannelOptions := mkOptions 0 (Some 100).

Definition sample_ops : list Op :=
  [OpStart; OpOpen (byte_of <$> [69; 67; 72; 79]) sample_options;
   OpReceive (byte_of <$> [0x50; 0; 3; 0]); OpReceive (byte_of <$> [0x10; 1; 0; 0; 0; 0])].

Definition sample_make : t := Eval vm_compute in
  match make sample_config with
  | Some s => s
  | None => mk sample_config idle 0 None 1 ∅ [] [] [] None
  end.

Definition sample_state : t := Eval vm_compute in
  match run_ops stored sample_ops sample_make with Some s => s | None => sample_make end.

Lemma dvc_sample_reachable : reachable stored sample_config sample_state.
Proof.
  apply (reachable_run stored sample_config sample_ops sample_make sample_state).
  - apply reach_init. vm_compute. reflexivity.
  - vm_compute. reflexivity.
  - vm_compute. reflexivity.
Qed.

Lemma sample_config_ok : config_ok sample_config.
Proof. split; [cbn; lia|done]. Qed.

Lemma dvc_server_safe_witness :
  wf sample_state /\ forall op, op_ok op sample_state -> exists s', apply_op stored op sample_state = Some s'.
Proof. exact (dvc_server_safe stored sample_config sample_state sample_config_ok dvc_sample_reachable). Defined.

Lemma dvc_open_fresh_witness :
  exists id s', open [byte_of 65] sample_options sample_state = Some (Ok id, s') /\
    channels_ sample_state !! id = None /\ is_Some (channels_ s' !! id) /\
    1 <= id < 2 ^ 32 /\ next_id_ s' = id_succ id /\
    (channels_ sample_state !! next_id_ sample_state = None -> id = next_id_ sample_state).
Proof.
  apply (dvc_open_fresh stored sample_config sample_state [byte_of 65] sample_options sample_config_ok dvc_sample_reachable).
  exact (op_okb_ok (OpOpen [byte_of 65] sample_options) sample_state eq_refl).
Defined.

Lemma dvc_events_justified_witness :
  exists r s', receive stored (byte_of <$> [0x30; 1; 65]) sample_state = Some (r, s') /\
               grows sample_state sample_state s'.
Proof.
  exact (dvc_events_justified stored sample_config sample_state (byte_of <$> [0x30; 1; 65])
           sample_config_ok dvc_sample_reachable).
Defined.

Lemma dvc_send_delivers_witness :
  exists pdus, send 1 [byte_of 7] sample_state = Some (Ok true, with_output sample_state (output_ sample_state ++ pdus)) /\
    feed_all (Drdynvc.dvc_transport 1 (len [byte_of 7])) (Drdynvc.make (len [byte_of 7])) pdus =
      Ok ([[byte_of 7]], Drdynvc.make (len [byte_of 7])).
Proof.
  apply (dvc_send_delivers stored sample_config sample_state 1 [byte_of 7] sample_config_ok dvc_sample_reachable);
    [vm_compute; reflexivity|split; vm_compute; reflexivity].
Defined.

Definition sample_error : Error := mkError truncated "unexpected end of input" 0.

Lemma dvc_error_latched_witness :
  receive stored [] (with_error sample_state sample_error) = Some (Err sample_error, with_error sample_state sample_error).
Proof.
  destruct (dvc_error_latched stored (with_error sample_state sample_error) sample_error eq_refl) as [H _]. exact (H []).
Defined.

Lemma dvc_closed_channel_ignored_witness :
  exists s', close 1 sample_state = Some (Ok tt, s') /\ receive stored (byte_of <$> [0x30; 1; 65]) s' = Some (Ok tt, s').
Proof.
  apply (dvc_closed_channel_ignored stored sample_config sample_state 1 (byte_of <$> [0x30; 1; 65])
           (Drdynvc.ClientCommon (Drdynvc.Data 1 [byte_of 65])) sample_config_ok dvc_sample_reachable);
    vm_compute; reflexivity.
Defined.

End DvcServer.
