(* ===== verification/PreAuth.v ===== *)
(** * Pre-authentication

    Models [src/src/farland/server/preauth.hpp] and [preauth.cpp]: the stage
    before anyone is authenticated, from the first client byte to the end of
    TLS and CredSSP.  The CredSSP handshake is reached through the interface
    [auth::NlaAcceptor] ([src/src/farland/auth/gss.hpp]), here the class
    [NlaAcceptor]; every theorem holds for every implementation of it. *)

From S2P Require Import Prelude Buffers CodecLogic Framing X224.
Open Scope Z_scope.
#[local] Existing Instance X224.TpduCode_eq_dec.

Module PreAuth.

Record Identity := mkIdentity { user : string; domain : string }.
Record PasswordCredentials := mkCredentials { cred_domain : string; cred_user : string; password : string }.

Inductive Status := in_progress | succeeded | nla_failed.

(** [auth::NlaAcceptor]; [N] is the acceptor's private state. *)
Class NlaAcceptor (N : Type) := {
  nla_receive : N -> list byte -> N;
  nla_take_output : N -> list byte * N;
  nla_status : N -> Status;
  nla_take_remaining_input : N -> list byte * N;
  nla_identity : N -> Identity;
  nla_take_credentials : N -> option PasswordCredentials * N;
  nla_failure_reason : N -> string }.

Record Negotiation := mkNegotiation {
  cookie : list byte;
  requested_protocols : Z;
  selected_protocol : Z;
  identity : option Identity }.

Record PreAuthConfig := mkConfig {
  supported_protocols : Z;
  require_nla : bool;
  advertise_gfx : bool }.

Definition early_auth_success : Z := 0.

Inductive PreAuthEvent :=
  | StartTls
  | Authenticated (i : Identity) (credentials : option PasswordCredentials)
  | Ready
  | Failed (reason : string).

Inductive State := wait_connection_request | wait_tls | nla | ready | failed.

#[export] Instance State_eq_dec : EqDecision State.
Proof. solve_decision. Defined.

Definition max_connection_request : Z := 4 + 255.
Definition nla_protocols : Z := Z.lor X224.hybrid X224.hybrid_ex.
Definition extended_client_data_supported : Z := 0x01.
Definition dynvc_gfx_protocol_supported : Z := 0x02.
Definition ssl_required_by_server : Z := 1.
Definition hybrid_required_by_server : Z := 5.

(** [std::format("{:x}")] of a 32-bit number. *)
Definition hex_digit (d : Z) : string :=
  default "0" (["0"; "1"; "2"; "3"; "4"; "5"; "6"; "7"; "8"; "9"; "a"; "b"; "c"; "d"; "e"; "f"] !! Z.to_nat d).

Fixpoint hex_loop (fuel : nat) (v : Z) : string :=
  match fuel with
  | O => ""
  | S fuel' => if v =? 0 then "" else hex_loop fuel' (Z.shiftr v 4) +:+ hex_digit (Z.land v 15)
  end.

Definition hex (v : Z) : string := if v =? 0 then "0" else hex_loop 8 v.

Section Server.
Context {N : Type} `{NlaAcceptor N}.

Record t := mk {
  config_ : PreAuthConfig;
  make_nla_ : option N;
  state_ : State;
  negotiation_ : Negotiation;
  nla_ : option N;
  input_ : list byte;
  output_ : list byte;
  events_ : list PreAuthEvent }.

Definition make (config : PreAuthConfig) (make_nla : option N) : t :=
  let c := match make_nla with
           | Some _ => config
           | None => mkConfig (Z.ldiff (supported_protocols config) nla_protocols)
                              (require_nla config) (advertise_gfx config)
           end in
  mk c make_nla wait_connection_request (mkNegotiation [] 0 0 None) None [] [] [].

(** Field updates. *)
Definition with_state (s : t) (st : State) : t :=
  mk (config_ s) (make_nla_ s) st (negotiation_ s) (nla_ s) (input_ s) (output_ s) (events_ s).
Definition with_negotiation (s : t) (n : Negotiation) : t :=
  mk (config_ s) (make_nla_ s) (state_ s) n (nla_ s) (input_ s) (output_ s) (events_ s).
Definition with_nla (s : t) (n : option N) : t :=
  mk (config_ s) (make_nla_ s) (state_ s) (negotiation_ s) n (input_ s) (output_ s) (events_ s).
Definition with_input (s : t) (b : list byte) : t :=
  mk (config_ s) (make_nla_ s) (state_ s) (negotiation_ s) (nla_ s) b (output_ s) (events_ s).
Definition with_output (s : t) (b : list byte) : t :=
  mk (config_ s) (make_nla_ s) (state_ s) (negotiation_ s) (nla_ s) (input_ s) b (events_ s).
Definition emplace_event (s : t) (e : PreAuthEvent) : t :=
  mk (config_ s) (make_nla_ s) (state_ s) (negotiation_ s) (nla_ s) (input_ s) (output_ s) (events_ s ++ [e]).

Definition fail_ (s : t) (reason : string) : t := emplace_event (with_state s failed) (Failed reason).
Definition finish (s : t) : t := emplace_event (with_state s ready) Ready.

(** The strongest protocol both sides can use. *)
Definition select (c : PreAuthConfig) (requested : Z) : option Z :=
  let usable := Z.land requested (supported_protocols c) in
  if has_bits usable X224.hybrid_ex then Some X224.hybrid_ex
  else if has_bits usable X224.hybrid then Some X224.hybrid
  else if negb (require_nla c) && has_bits usable X224.ssl then Some X224.ssl
  else None.

(** The answer to a request. *)
Definition answer (c : PreAuthConfig) (selected : option Z) : X224.ConnectionConfirm :=
  X224.mkConfirm
    match selected with
    | Some p => X224.NegotiationResponse (Z.lor extended_client_data_supported
                  (if advertise_gfx c then dynvc_gfx_protocol_supported else 0)) p
    | None =>
        X224.NegotiationFailure
          (if has_bits (supported_protocols c) nla_protocols && require_nla c
           then hybrid_required_by_server else ssl_required_by_server)
    end.

(** [None]: a failed assertion of the encoder, or a null acceptor. *)
Definition on_connection_request (s : t) (packet : list byte) : option (Result unit * t) :=
  match X224.read_tpkt (Reader.make packet 0) with
  | Err e => Some (Err e, s)
  | Ok (tpdu, _) =>
      match X224.peek_tpdu_code tpdu with
      | Err e => Some (Err e, s)
      | Ok code =>
          if negb (bool_decide (code = X224.connection_request))
          then Some (fail invalid_value "expected an X.224 Connection Request" (Reader.offset tpdu), s)
          else
            match X224.decode_connection_request tpdu with
            | Err e => Some (Err e, s)
            | Ok (request, _) =>
                let n := negotiation_ s in
                let s := with_negotiation s (mkNegotiation (X224.cookie request) (requested_protocols n)
                                                           (selected_protocol n) (identity n)) in
                match X224.negotiation request with
                | None => Some (Ok tt, fail_ s "client does not negotiate a security protocol (Standard RDP Security is not supported)")
                | Some neg =>
                    let requested := X224.requested_protocols neg in
                    let n := negotiation_ s in
                    let selected := select (config_ s) requested in
                    let s := with_negotiation s (mkNegotiation (cookie n) requested
                               (match selected with Some p => p | None => selected_protocol n end) (identity n)) in
                    match X224.encode_connection_confirm (answer (config_ s) selected) (output_ s) with
                    | None => None
                    | Some (_, out) =>
                        let s := with_output s out in
                        match selected with
                        | None =>
                            Some (Ok tt, fail_ s ("client requested protocols 0x" +:+ hex requested +:+
                                                  ", none of which this server accepts"))
                        | Some _ => Some (Ok tt, emplace_event (with_state s wait_tls) StartTls)
                        end
                    end
                end
            end
      end
  end.

Definition pump_nla (s : t) : option t :=
  match nla_ s with
  | None => None
  | Some n =>
      let (out, n) := nla_take_output n in
      let s := with_nla (with_output s (output_ s ++ out)) (Some n) in
      match nla_status n with
      | in_progress => Some s
      | nla_failed => Some (with_nla (fail_ s ("NLA failed: " +:+ nla_failure_reason n)) None)
      | succeeded =>
          let g := negotiation_ s in
          let s := with_negotiation s (mkNegotiation (cookie g) (requested_protocols g) (selected_protocol g)
                                                     (Some (nla_identity n))) in
          let (credentials, n') := nla_take_credentials n in
          let s := emplace_event s (Authenticated (nla_identity n) credentials) in
          let s := if selected_protocol (negotiation_ s) =? X224.hybrid_ex
                   then with_output s (output_ s ++ Writer.le_bytes 4 early_auth_success) else s in
          let (rest, _) := nla_take_remaining_input n' in
          Some (finish (with_nla (with_input s rest) None))
      end
  end.

Definition receive (s : t) (bytes : list byte) : option t :=
  match state_ s with
  | wait_connection_request =>
      let s := with_input s (input_ s ++ bytes) in
      match Framing.peek_frame (input_ s) with
      | Err e => Some (fail_ s (message e))
      | Ok None => Some s
      | Ok (Some header) =>
          if match Framing.kind header with Framing.tpkt => false | Framing.fastpath => true end
             || (max_connection_request <? Framing.length header)
          then Some (fail_ s "expected an X.224 Connection Request")
          else if len (input_ s) <? Framing.length header then Some s
          else if Framing.length header <? len (input_ s)
          then Some (fail_ s "client data after the X.224 Connection Request")
          else
            match on_connection_request (with_input s []) (input_ s) with
            | None => None
            | Some (Ok _, s') => Some s'
            | Some (Err e, s') => Some (fail_ s' (message e))
            end
      end
  | wait_tls => Some (fail_ s "client data before the TLS handshake completed")
  | nla =>
      match nla_ s with
      | None => None
      | Some n => pump_nla (with_nla s (Some (nla_receive n bytes)))
      end
  | ready => Some (with_input s (input_ s ++ bytes))
  | failed => Some s
  end.

Definition tls_established (s : t) : option t :=
  if negb (bool_decide (state_ s = wait_tls)) then Some (fail_ s "TLS established in the wrong state")
  else if selected_protocol (negotiation_ s) =? X224.ssl then Some (finish s)
  else
    match make_nla_ s with
    | None => None
    | Some n => pump_nla (with_state (with_nla s (Some n)) nla)
    end.

Definition take_output (s : t) : list byte * t := (output_ s, with_output s []).

Definition poll_event (s : t) : option PreAuthEvent * t :=
  match events_ s with
  | [] => (None, s)
  | e :: es => (Some e, mk (config_ s) (make_nla_ s) (state_ s) (negotiation_ s) (nla_ s) (input_ s) (output_ s) es)
  end.

Definition take_remaining_input (s : t) : list byte * t := (input_ s, with_input s []).

(** ** Invariant *)

(** States of an acceptor made by the factory and driven by the stage. *)
Inductive nla_reachable (made : option N) : N -> Prop :=
  | nla_made n : made = Some n -> nla_reachable made n
  | nla_received n b : nla_reachable made n -> nla_reachable made (nla_receive n b)
  | nla_output n : nla_reachable made n -> nla_reachable made (snd (nla_take_output n)).

(** What may be selected: a single protocol both sides support, and not plain
    TLS where NLA is required. *)
Definition selection_ok (c : PreAuthConfig) (requested selected : Z) : Prop :=
  (selected = X224.ssl \/ selected = X224.hybrid \/ selected = X224.hybrid_ex) /\
  has_bits (Z.land requested (supported_protocols c)) selected = true /\
  (require_nla c = true -> selected <> X224.ssl).

(** The identity was vouched for by an acceptor whose handshake succeeded. *)
Definition vouched (made : option N) (i : Identity) : Prop :=
  exists n, nla_reachable made n /\ nla_status n = succeeded /\ nla_identity n = i.

Record wf (s : t) : Prop := mkWf {
  wf_config : make_nla_ s = None -> Z.land (supported_protocols (config_ s)) nla_protocols = 0;
  wf_nla : state_ s = nla -> exists n, nla_ s = Some n /\ nla_reachable (make_nla_ s) n;
  wf_selected : state_ s <> wait_connection_request -> state_ s <> failed ->
    selection_ok (config_ s) (requested_protocols (negotiation_ s)) (selected_protocol (negotiation_ s));
  wf_identity : match identity (negotiation_ s) with
                | Some i => vouched (make_nla_ s) i
                | None => state_ s = ready -> selected_protocol (negotiation_ s) = X224.ssl
                end;
  wf_fresh : state_ s = wait_connection_request -> identity (negotiation_ s) = None }.

Lemma land_bit_sub x y p : has_bits (Z.land x y) p = true -> has_bits y p = true.
Proof.
  unfold has_bits. rewrite !negb_true_iff, !Z.eqb_neq. intros Hne E. apply Hne.
  by rewrite <- Z.land_assoc, E, Z.land_0_r.
Qed.

Lemma select_ok c requested p : select c requested = Some p -> selection_ok c requested p.
Proof.
  unfold select, selection_ok. destruct (has_bits _ X224.hybrid_ex) eqn:E1.
  { intros [= <-]. split_and!; auto. }
  destruct (has_bits _ X224.hybrid) eqn:E2; [intros [= <-]; split_and!; auto|].
  destruct (require_nla c); cbn [negb andb]; [done|]. destruct (has_bits _ X224.ssl) eqn:E3; [|done].
  intros [= <-]. split_and!; auto.
Qed.

(** Without a factory only plain TLS can be selected. *)
Lemma selection_needs_factory s :
  wf s -> selection_ok (config_ s) (requested_protocols (negotiation_ s)) (selected_protocol (negotiation_ s)) ->
  selected_protocol (negotiation_ s) <> X224.ssl -> exists n, make_nla_ s = Some n.
Proof.
  intros Hwf (Hp & Hb & _) Hne. destruct (make_nla_ s) as [n|] eqn:E; [by exists n|]. exfalso.
  apply land_bit_sub in Hb. pose proof (wf_config _ Hwf E) as H0.
  assert (has_bits nla_protocols (selected_protocol (negotiation_ s)) = true /\
          Z.land nla_protocols (selected_protocol (negotiation_ s)) = selected_protocol (negotiation_ s)) as [_ Hin].
  { destruct Hp as [E1|[E1|E1]]; [done| |]; by rewrite E1. }
  unfold has_bits in Hb. rewrite negb_true_iff, Z.eqb_neq in Hb. apply Hb.
  rewrite <- Hin, Z.land_assoc, H0. apply Z.land_0_l.
Qed.

Lemma wf_fail s reason : wf s -> wf (fail_ s reason).
Proof.
  intros [H1 H2 H3 H4 H5]. split; cbn; try done. by destruct (identity (negotiation_ s)).
Qed.

Lemma wf_finish s :
  wf s -> state_ s <> wait_connection_request -> state_ s <> failed ->
  (identity (negotiation_ s) = None -> selected_protocol (negotiation_ s) = X224.ssl) -> wf (finish s).
Proof.
  intros [H1 H2 H3 H4 H5] Hs Hf Hi. split; cbn; try done; [intros _ _; by apply H3|].
  destruct (identity (negotiation_ s)); [done|]. intros _. by apply Hi.
Qed.

Lemma pump_nla_wf s : wf s -> state_ s = nla -> exists s', pump_nla s = Some s' /\ wf s'.
Proof.
  intros Hwf Hs. destruct (wf_nla _ Hwf Hs) as (n & Hn & Hr). unfold pump_nla. rewrite Hn.
  destruct (nla_take_output n) as [out n1] eqn:Eo.
  assert (nla_reachable (make_nla_ s) n1) as Hr1 by (pose proof (nla_output _ _ Hr) as X; by rewrite Eo in X).
  destruct Hwf as [H1 H2 H3 H4 H5]. destruct (nla_status n1) eqn:Est.
  - eexists. split; [done|]. split; cbn; try done. intros _. eauto.
  - destruct (nla_take_credentials n1) as [cr n2]. destruct (nla_take_remaining_input n2) as [rest n3].
    eexists. split; [done|]. assert (vouched (make_nla_ s) (nla_identity n1)) as Hv by (by exists n1).
    rewrite Hs in H3. specialize (H3 ltac:(done) ltac:(done)).
    destruct (selected_protocol _ =? X224.hybrid_ex); split; cbn; try done; intros; by apply H3.
  - eexists. split; [done|]. split; cbn; try done. by destruct (identity (negotiation_ s)).
Qed.

Lemma on_connection_request_wf s packet :
  wf s -> state_ s = wait_connection_request -> identity (negotiation_ s) = None ->
  exists r s', on_connection_request s packet = Some (r, s') /\ wf s'.
Proof.
  intros Hwf Hs Hi. unfold on_connection_request.
  destruct (X224.read_tpkt (Reader.make packet 0)) as [[tpdu ?]|]; [|eauto].
  destruct (X224.peek_tpdu_code tpdu) as [code|]; [|eauto]. destruct (negb _); [eauto|].
  destruct (X224.decode_connection_request tpdu) as [[request ?]|]; [|eauto].
  destruct Hwf as [H1 H2 H3 H4 H5].
  assert (forall s' st e, config_ s' = config_ s -> make_nla_ s' = make_nla_ s ->
    identity (negotiation_ s') = None -> st <> nla -> st <> ready ->
    (st <> wait_connection_request -> st <> failed ->
     selection_ok (config_ s) (requested_protocols (negotiation_ s')) (selected_protocol (negotiation_ s'))) ->
    wf (emplace_event (with_state s' st) e)) as Hmk.
  { intros s' st e E1 E2 Hid Hnn Hnr Hsel. split; cbn; rewrite ?E1, ?E2, ?Hid; try done. }
  destruct (X224.negotiation request) as [neg|].
  - cbn [config_ with_negotiation negotiation_ output_].
    destruct (X224.encode_connection_confirm _ (output_ s)) as [[[] out]|] eqn:Ee.
    + destruct (select (config_ s) (X224.requested_protocols neg)) as [p|] eqn:Es.
      * do 2 eexists. split; [done|]. apply Hmk; try done. intros _ _. by apply select_ok.
      * do 2 eexists. split; [done|]. by apply Hmk.
    + by rewrite X224.writes_confirm in Ee.
  - do 2 eexists. split; [done|]. by apply Hmk.
Qed.

Lemma wf_input s b : wf s -> wf (with_input s b).
Proof. intros []. by split. Qed.

Lemma receive_wf s b : wf s -> exists s', receive s b = Some s' /\ wf s'.
Proof.
  intros Hwf. unfold receive. destruct (state_ s) eqn:Es.
  - set (s1 := with_input s (input_ s ++ b)). assert (wf s1) as Hw1 by (by apply wf_input).
    destruct (Framing.peek_frame (input_ s1)) as [[h|]|e]; [|by eauto|eexists; split; [done|by apply wf_fail]].
    destruct (_ || _); [eexists; split; [done|by apply wf_fail]|].
    destruct (len (input_ s1) <? Framing.length h); [by eauto|].
    destruct (Framing.length h <? len (input_ s1)); [eexists; split; [done|by apply wf_fail]|].
    destruct (on_connection_request_wf (with_input s1 []) (input_ s1)) as (r & s2 & E & Hw2);
      [by apply wf_input|done|by apply (wf_fresh _ Hwf)|].
    rewrite E. destruct r; eexists; (split; [done|]); [done|by apply wf_fail].
  - eexists. split; [done|by apply wf_fail].
  - destruct (wf_nla _ Hwf Es) as (n & Hn & Hr). rewrite Hn. apply pump_nla_wf; [|done].
    destruct Hwf as [H1 H2 H3 H4 H5]. split; cbn; try done. intros _. eexists. split; [done|]. by constructor.
  - eexists. split; [done|by apply wf_input].
  - by eauto.
Qed.

Lemma tls_established_wf s : wf s -> exists s', tls_established s = Some s' /\ wf s'.
Proof.
  intros Hwf. unfold tls_established. destruct (bool_decide (state_ s = wait_tls)) eqn:Es; cbn [negb];
    [|eexists; split; [done|by apply wf_fail]]. bools.
  destruct (Z.eqb_spec (selected_protocol (negotiation_ s)) X224.ssl) as [El|El].
  - eexists. split; [done|]. apply wf_finish; [done|by rewrite Es..|done].
  - pose proof (wf_selected _ Hwf ltac:(by rewrite Es) ltac:(by rewrite Es)) as Hsel.
    destruct (selection_needs_factory s Hwf Hsel El) as [n Hn]. rewrite Hn.
    apply pump_nla_wf; [|done]. destruct Hwf as [H1 H2 H3 H4 H5]. split; cbn; try done.
    + intros _. exists n. split; [done|]. by constructor.
    + by destruct (identity (negotiation_ s)).
Qed.

Inductive Op := OpReceive (b : list byte) | OpTls | OpTakeOutput | OpPollEvent | OpTakeRemaining.

Definition apply_op (op : Op) (s : t) : option t :=
  match op with
  | OpReceive b => receive s b
  | OpTls => tls_established s
  | OpTakeOutput => Some (snd (take_output s))
  | OpPollEvent => Some (snd (poll_event s))
  | OpTakeRemaining => Some (snd (take_remaining_input s))
  end.

Lemma preauth_apply_op_wf op s : wf s -> exists s', apply_op op s = Some s' /\ wf s'.
Proof.
  intros Hwf. destruct op; cbn [apply_op].
  - by apply receive_wf.
  - by apply tls_established_wf.
  - eexists. split; [done|]. destruct Hwf. by split.
  - eexists. split; [done|]. unfold poll_event. destruct Hwf, (events_ s); by split.
  - eexists. split; [done|]. by apply wf_input.
Qed.

Inductive reachable (cfg : PreAuthConfig) (made : option N) : t -> Prop :=
  | reach_init : reachable cfg made (make cfg made)
  | reach_step s op s' : reachable cfg made s -> apply_op op s = Some s' -> reachable cfg made s'.

Lemma preauth_make_wf cfg made : wf (make cfg made).
Proof.
  split; try done. cbn. intros ->. cbn. apply Z.bits_inj'. intros i Hi.
  rewrite Z.land_spec, Z.ldiff_spec, Z.bits_0. by destruct (Z.testbit nla_protocols i); rewrite ?andb_false_r.
Qed.

Lemma preauth_reachable_wf cfg made s : reachable cfg made s -> wf s.
Proof.
  induction 1 as [|s op s' _ IH Ha]; [apply preauth_make_wf|].
  destruct (preauth_apply_op_wf op s IH) as (s'' & E & Hw). congruence.
Qed.

(** What never changes. *)
Lemma reachable_config cfg made s :
  reachable cfg made s -> make_nla_ s = made /\ config_ s = config_ (make cfg made).
Proof.
  induction 1 as [|s op s' Hr [IH1 IH2] Ha]; [done|]. rewrite <- IH2, <- IH1. clear IH1 IH2 Hr.
  destruct op; cbn [apply_op] in Ha.
  - unfold receive, on_connection_request, pump_nla in Ha. repeat (case_match; simplify_eq/=; try done).
  - unfold tls_established, pump_nla in Ha. repeat (case_match; simplify_eq/=; try done).
  - by injection Ha as <-.
  - unfold poll_event in Ha. destruct (events_ s); by injection Ha as <-.
  - by injection Ha as <-.
Qed.

(** ** Theorems *)

(** C34: the security policy of pre-authentication, for every acceptor and every
    client: once a Connection Request was accepted, the selected protocol is one
    the client asked for and the server supports, never plain TLS when NLA is
    required; the stage reaches [ready] with an NLA protocol only with the
    identity of a CredSSP handshake that succeeded; and no input makes it
    dereference a missing acceptor or trip an encoder's assertion. *)
Theorem preauth_policy (cfg : PreAuthConfig) (made : option N) (s : t) :
  reachable cfg made s ->
  (state_ s = wait_tls \/ state_ s = nla \/ state_ s = ready ->
     selection_ok (config_ (make cfg made)) (requested_protocols (negotiation_ s)) (selected_protocol (negotiation_ s))) /\
  (state_ s = ready -> selected_protocol (negotiation_ s) <> X224.ssl ->
     exists i, identity (negotiation_ s) = Some i /\ vouched made i) /\
  (state_ s = ready -> require_nla cfg = true -> exists i, identity (negotiation_ s) = Some i /\ vouched made i) /\
  (forall op, exists s', apply_op op s = Some s').
Proof.
  intros Hr. pose proof (preauth_reachable_wf _ _ _ Hr) as Hwf. destruct (reachable_config _ _ _ Hr) as [Hm Hc].
  assert (state_ s = wait_tls \/ state_ s = nla \/ state_ s = ready ->
     selection_ok (config_ (make cfg made)) (requested_protocols (negotiation_ s)) (selected_protocol (negotiation_ s))) as Hsel.
  { rewrite <- Hc. intros Hs. apply (wf_selected _ Hwf); destruct Hs as [->|[->| ->]]; done. }
  assert (state_ s = ready -> selected_protocol (negotiation_ s) <> X224.ssl ->
     exists i, identity (negotiation_ s) = Some i /\ vouched made i) as Hid.
  { intros Hs Hne. pose proof (wf_identity _ Hwf) as Hi. rewrite <- Hm.
    destruct (identity (negotiation_ s)) as [i|]; [by eauto|]. by destruct Hne, Hi. }
  split_and!; [done|done| |].
  - intros Hs Hreq. apply Hid; [done|]. apply (Hsel (or_intror (or_intror Hs))). by destruct made.
  - intros op. destruct (preauth_apply_op_wf op s Hwf) as (s' & E & _). by exists s'.
Qed.

(** The client's bytes as they arrive. *)
Fixpoint receive_all (s : t) (segments : list (list byte)) : option t :=
  match segments with
  | [] => Some s
  | b :: segments' => match receive s b with Some s' => receive_all s' segments' | None => None end
  end.

(** A proper prefix of a frame is only buffered. *)
Lemma receive_prefix s b e :
  state_ s = wait_connection_request -> len e <= 259 ->
  (forall rest, Framing.peek_frame (e ++ rest) = Ok (Some (Framing.mkFrame Framing.tpkt (len e)))) ->
  (exists rest, rest <> [] /\ e = input_ s ++ b ++ rest) ->
  receive s b = Some (with_input s (input_ s ++ b)).
Proof.
  intros Hs Hl Hf (rest & Hne & He). unfold receive. rewrite Hs. cbn [input_ with_input].
  destruct (Framing.peek_frame (input_ s ++ b)) as [f|er] eqn:Ep.
  - destruct f as [f|]; [|done]. pose proof (Framing.peek_frame_app _ rest _ Ep ltac:(done)) as Hp.
    rewrite <- app_assoc, <- He in Hp. specialize (Hf []). rewrite app_nil_r in Hf. rewrite Hf in Hp. injection Hp as <-.
    cbn [Framing.kind Framing.length orb]. unfold max_connection_request.
    destruct (Z.ltb_spec (4 + 255) (len e)); [lia|].
    destruct (Z.ltb_spec (len (input_ s ++ b)) (len e)) as [|Hge]; [done|].
    assert (0 < len rest) by (destruct rest; [done|len_lia]). rewrite He in Hge. len_lia.
  - pose proof (Framing.peek_frame_app _ rest _ Ep ltac:(done)) as Hp.
    rewrite <- app_assoc, <- He in Hp. specialize (Hf []). rewrite app_nil_r in Hf. by rewrite Hf in Hp.
Qed.

Lemma receive_prefixes segments : forall s e tail,
  state_ s = wait_connection_request -> len e <= 259 ->
  (forall rest, Framing.peek_frame (e ++ rest) = Ok (Some (Framing.mkFrame Framing.tpkt (len e)))) ->
  tail <> [] -> e = input_ s ++ concat segments ++ tail ->
  receive_all s (segments ++ [tail]) = receive (with_input s (input_ s ++ concat segments)) tail.
Proof.
  induction segments as [|b segments IH]; intros s e tail Hs Hl Hf Hne He.
  - cbn. rewrite app_nil_r. replace (with_input s (input_ s)) with s by (by destruct s). by destruct (receive s tail).
  - cbn [app receive_all concat] in *. rewrite (receive_prefix s b e Hs Hl Hf).
    2: { exists (concat segments ++ tail). split; [by destruct (concat segments), tail|]. by rewrite He, <- app_assoc. }
    rewrite (IH _ e) by (done || cbn; rewrite He; by rewrite !app_assoc). cbn. by rewrite app_assoc.
Qed.

(** ** The answer to a Connection Request, by the numbers of [MS-RDPBCGR]

    A protocol that can be chosen: PROTOCOL_SSL (1), PROTOCOL_HYBRID (2) or
    PROTOCOL_HYBRID_EX (8), asked for by the client and supported by the server,
    NLA only where there is an acceptor, and TLS only where NLA is not required. *)
Definition choosable (cfg : PreAuthConfig) (made : option N) (requested p : Z) : Prop :=
  (p = 1 \/ p = 2 \/ p = 8) /\ has_bits requested p = true /\ has_bits (supported_protocols cfg) p = true /\
  (p <> 1 -> is_Some made) /\ (require_nla cfg = true -> p <> 1).

(** HYBRID_REQUIRED_BY_SERVER (5) where NLA is required and there is any, else
    SSL_REQUIRED_BY_SERVER (1). *)
Definition failure_code (cfg : PreAuthConfig) (made : option N) : Z :=
  if require_nla cfg && bool_decide (is_Some made) &&
     (has_bits (supported_protocols cfg) 2 || has_bits (supported_protocols cfg) 8)
  then 5 else 1.

Lemma has_bit_land x y p : p = 1 \/ p = 2 \/ p = 8 -> has_bits (Z.land x y) p = has_bits x p && has_bits y p.
Proof.
  intros Hp. assert (exists k, 0 <= k /\ p = 2 ^ k) as (k & Hk & ->) by (destruct Hp as [->|[->| ->]]; [by exists 0|by exists 1|by exists 3]).
  rewrite !has_bits_testbit by done. apply Z.land_spec.
Qed.

Lemma has_bits_nla x : has_bits x nla_protocols = has_bits x 2 || has_bits x 8.
Proof.
  unfold has_bits, nla_protocols. change X224.hybrid with 2. change X224.hybrid_ex with 8. rewrite Z.land_lor_distr_r.
  apply eq_bool_prop_intro. rewrite <- !negb_andb. rewrite !Is_true_true, !negb_true_iff, andb_false_iff, !Z.eqb_neq, Z.lor_eq_0_iff.
  destruct (Z.eqb_spec (Z.land x 2) 0), (Z.eqb_spec (Z.land x 8) 0); intuition congruence.
Qed.

(** What the server supports once the constructor has seen the factory. *)
Lemma supported_made cfg made p : p = 1 \/ p = 2 \/ p = 8 ->
  has_bits (supported_protocols (config_ (make cfg made))) p = has_bits (supported_protocols cfg) p && (bool_decide (is_Some made) || (p =? 1)).
Proof.
  intros Hp. unfold make. destruct made as [n|]; cbn [config_]; [by rewrite andb_true_r|]. cbn [supported_protocols].
  assert (forall k, 0 <= k -> has_bits (Z.ldiff (supported_protocols cfg) nla_protocols) (2 ^ k) =
    has_bits (supported_protocols cfg) (2 ^ k) && negb (Z.testbit nla_protocols k)) as Hk.
  { intros k Hk. by rewrite !has_bits_testbit, Z.ldiff_spec by done. }
  destruct Hp as [->|[->| ->]]; [exact (Hk 0 ltac:(done))|exact (Hk 1 ltac:(done))|exact (Hk 3 ltac:(done))].
Qed.

Lemma choosable_bits cfg made requested p : choosable cfg made requested p <->
  (p = 1 \/ p = 2 \/ p = 8) /\ has_bits (Z.land requested (supported_protocols (config_ (make cfg made)))) p = true /\
  (require_nla cfg = true -> p <> 1).
Proof.
  unfold choosable. split.
  - intros (Hp & Hr & Hs & Hm & Hn). split_and!; [done| |done]. rewrite has_bit_land, supported_made, Hr, Hs by done. cbn [andb].
    destruct (Z.eqb_spec p 1); [apply orb_true_r|]. by rewrite bool_decide_true by auto.
  - intros (Hp & Hb & Hn). rewrite has_bit_land, supported_made in Hb by done. apply andb_prop in Hb as [Hr [Hs Hm]%andb_prop].
    split_and!; try done. intros H1. apply orb_true_iff in Hm as [Hm%bool_decide_eq_true|Hm%Z.eqb_eq]; done.
Qed.

(** [select] finds the highest of the numbers that can be chosen. *)
Lemma select_strongest cfg made requested :
  match select (config_ (make cfg made)) requested with
  | Some p => choosable cfg made requested p /\ forall p', choosable cfg made requested p' -> p' <= p
  | None => forall p, ~ choosable cfg made requested p
  end.
Proof.
  pose proof (choosable_bits cfg made requested) as Hbits. unfold select. set (usable := Z.land _ _) in *.
  change X224.hybrid_ex with 8. change X224.hybrid with 2. change X224.ssl with 1.
  assert (require_nla (config_ (make cfg made)) = require_nla cfg) as -> by (by destruct made).
  destruct (has_bits usable 8) eqn:E8.
  { split; [apply Hbits; split_and!; auto; lia|]. intros p' ([->|[->| ->]] & _)%Hbits; lia. }
  destruct (has_bits usable 2) eqn:E2.
  { split; [apply Hbits; split_and!; auto; lia|]. intros p' ([->|[->| ->]] & Hb & _)%Hbits; [lia..|congruence]. }
  destruct (negb (require_nla cfg) && has_bits usable 1) eqn:E1.
  - apply andb_prop in E1 as [Hn E1]. apply negb_true_iff in Hn. split; [apply Hbits; split_and!; auto; congruence|].
    intros p' ([->|[->| ->]] & Hb & _)%Hbits; [lia|congruence..].
  - intros p ([->|[->| ->]] & Hb & Hn)%Hbits; [|congruence..]. rewrite Hb, andb_true_r in E1. apply negb_false_iff in E1. by apply Hn.
Qed.

Lemma answer_refusal cfg made : answer (config_ (make cfg made)) None = X224.mkConfirm (X224.NegotiationFailure (failure_code cfg made)).
Proof.
  unfold answer, failure_code. do 2 f_equal. rewrite has_bits_nla, !supported_made by auto. cbn [Z.eqb Pos.eqb].
  rewrite !orb_false_r. destruct made; cbn [make config_ require_nla is_Some].
  - rewrite bool_decide_true by done. rewrite !andb_true_r. by rewrite andb_comm.
  - rewrite bool_decide_false by (by intros [? ?]). by rewrite !andb_false_r.
Qed.

Lemma answer_choice cfg made p :
  answer (config_ (make cfg made)) (Some p) = X224.mkConfirm (X224.NegotiationResponse (if advertise_gfx cfg then 3 else 1) p).
Proof. unfold answer. do 2 f_equal. assert (advertise_gfx (config_ (make cfg made)) = advertise_gfx cfg) as -> by (by destruct made). by destruct (advertise_gfx cfg). Qed.

(** C35: a client's Connection Request, however the network cuts it into
    segments, is answered once.  If it negotiates, the answer is a Connection
    Confirm: with the highest of the protocols that can be chosen, HYBRID_EX
    before HYBRID before TLS, the flags for extended client data and where
    configured graphics, and a request to start TLS; or, when none can be chosen,
    with the failure that tells the client what the server requires, and the
    connection has failed.  A request that does not negotiate has no answer and
    fails the connection. *)
Theorem connection_request_answered (cfg : PreAuthConfig) (made : option N)
  (q : X224.ConnectionRequest) (e : list byte) (segments : list (list byte)) (tail : list byte) :
  X224.request_ok q = true -> Writer.run (X224.encode_connection_request q) = Some e ->
  concat segments ++ tail = e -> tail <> [] ->
  exists s, receive_all (make cfg made) (segments ++ [tail]) = Some s /\ cookie (negotiation_ s) = X224.cookie q /\
    match X224.negotiation q with
    | None => output_ s = [] /\ state_ s = failed /\ exists reason, events_ s = [Failed reason]
    | Some neg =>
        (exists p, choosable cfg made (X224.requested_protocols neg) p /\
           (forall p', choosable cfg made (X224.requested_protocols neg) p' -> p' <= p) /\
           Writer.run (X224.encode_connection_confirm (X224.mkConfirm (X224.NegotiationResponse (if advertise_gfx cfg then 3 else 1) p))) =
             Some (output_ s) /\
           state_ s = wait_tls /\ selected_protocol (negotiation_ s) = p /\ events_ s = [StartTls]) \/
        ((forall p, ~ choosable cfg made (X224.requested_protocols neg) p) /\
           Writer.run (X224.encode_connection_confirm (X224.mkConfirm (X224.NegotiationFailure (failure_code cfg made)))) = Some (output_ s) /\
           state_ s = failed /\ exists reason, events_ s = [Failed reason])
    end.
Proof.
  intros Hq He Hsplit Hne. destruct (X224.request_received q Hq) as (e' & tpdu & r & E & Hl & (Hf & Ht & Hk) & Hd).
  rewrite E in He. injection He as ->.
  rewrite (receive_prefixes segments (make cfg made) e) by (done || by cbn). cbn [input_ make app].
  unfold receive. cbn [state_ with_input make input_]. rewrite Hsplit.
  specialize (Hf []). rewrite app_nil_r in Hf. rewrite Hf. cbn [Framing.kind Framing.length orb].
  unfold max_connection_request. destruct (Z.ltb_spec (4 + 255) (len e)); [lia|]. rewrite Z.ltb_irrefl.
  unfold on_connection_request. rewrite Ht, Hk, bool_decide_true, Hd by done. cbn [negb].
  cbn [config_ with_negotiation with_input negotiation_ output_ make]. fold (make cfg made).
  change (match made with Some _ => cfg | None => _ end) with (config_ (make cfg made)).
  destruct (X224.negotiation q) as [neg|]; [|eexists; split_and!; eauto].
  pose proof (select_strongest cfg made (X224.requested_protocols neg)) as Hs.
  destruct (select _ _) as [p|]; [rewrite answer_choice|rewrite answer_refusal]; rewrite X224.writes_confirm;
    (eexists; split; [reflexivity|]; split; [reflexivity|]); rewrite (writes_run _ _ (X224.writes_confirm _)).
  - left. destruct Hs. exists p. by split_and!.
  - right. split_and!; [done..|by eexists].
Qed.

End Server.

(** ** Witnesses: an acceptor that takes one token *)

Record OneToken := mkOneToken { token_status : Status }.

#[export] Instance one_token : NlaAcceptor OneToken := {|
  nla_receive n b := mkOneToken (match b with [] => nla_failed | _ => succeeded end);
  nla_take_output n := ([], n);
  nla_status n := token_status n;
  nla_take_remaining_input n := ([], n);
  nla_identity n := mkIdentity "ada" "";
  nla_take_credentials n := (None, n);
  nla_failure_reason n := "no token" |}.

Definition sample_config : PreAuthConfig := mkConfig 11 true false.
Definition sample_factory : option OneToken := Some (mkOneToken in_progress).

Definition sample_bytes : list byte := Eval vm_compute in
  default [] (Writer.run (X224.encode_connection_request X224.sample_request)).

(** The client negotiated, TLS is up, the token arrived. *)
Definition sample_wait_tls : t := Eval vm_compute in
  default (make sample_config sample_factory) (receive (make sample_config sample_factory) sample_bytes).
Definition sample_nla : t := Eval vm_compute in default sample_wait_tls (tls_established sample_wait_tls).
Definition sample_ready : t := Eval vm_compute in default sample_nla (receive sample_nla [byte_of 1]).

Lemma preauth_sample_reachable : reachable sample_config sample_factory sample_ready.
Proof.
  apply (reach_step _ _ sample_nla (OpReceive [byte_of 1])); [|vm_compute; reflexivity].
  apply (reach_step _ _ sample_wait_tls OpTls); [|vm_compute; reflexivity].
  apply (reach_step _ _ (make sample_config sample_factory) (OpReceive sample_bytes)); [apply reach_init|vm_compute; reflexivity].
Qed.

Lemma preauth_policy_witness :
  state_ sample_ready = ready /\
  exists i, identity (negotiation_ sample_ready) = Some i /\ vouched sample_factory i.
Proof.
  split; [reflexivity|].
  destruct (preauth_policy sample_config sample_factory sample_ready preauth_sample_reachable) as (_ & _ & H & _).
  apply H; reflexivity.
Defined.

Lemma connection_request_answered_witness :
  exists s, receive_all (make sample_config sample_factory) ([take 3 sample_bytes] ++ [drop 3 sample_bytes]) = Some s /\
    Writer.run (X224.encode_connection_confirm (X224.mkConfirm (X224.NegotiationResponse 1 8))) = Some (output_ s) /\
    cookie (negotiation_ s) = X224.cookie X224.sample_request /\
    state_ s = wait_tls /\ selected_protocol (negotiation_ s) = 8 /\ events_ s = [StartTls].
Proof.
  destruct (connection_request_answered sample_config sample_factory X224.sample_request sample_bytes [take 3 sample_bytes] (drop 3 sample_bytes))
    as (s & R & C & A); [vm_compute; reflexivity..|vm_compute; congruence|].
  exists s. split; [exact R|]. cbn [X224.negotiation X224.sample_request] in A.
  destruct A as [(p & (Hp & _) & Hmax & W & S & P & E)|[Hno _]].
  - assert (p = 8) as ->.
    { pose proof (Hmax 8) as H8. destruct Hp as [->|[->| ->]]; [exfalso|exfalso|done];
        (assert (8 <= _) by (apply H8; split_and!; [by auto|reflexivity|reflexivity|by eexists|done]); lia). }
    split_and!; [exact W|exact C|done..].
  - destruct (Hno 8). split_and!; [by auto|reflexivity|reflexivity|by eexists|done].
Defined.

End PreAuth.
