(* ===== verification/FrameScheduler.v ===== *)
(** * When to send the next frame

    Models [src/src/farland/server/frame_scheduler.hpp] and
    [frame_scheduler.cpp].  Time points and durations are integers of
    nanoseconds, the representation of [std::chrono::steady_clock]; they are
    not wrapped, a 64-bit count of nanoseconds lasts for centuries.

    The theorems are about the scheduler driven the way its callers drive it:
    time does not run backwards and a frame is sent only when [due] said so. *)

From S2P Require Import Prelude.
From Stdlib Require Import Sorting.Sorted.
Open Scope Z_scope.

Module FrameScheduler.

Record Config := mkConfig {
  max_fps : Z;
  max_frames_in_flight : Z;
  cfg_ack_timeout : Z;
  ack_timeout_rtt_factor : Z;
  max_ack_timeout : Z;
  acknowledgements : bool }.

Record InFlight := mkInFlight { frame_id : Z; sent : Z }.

Record t := mk {
  config_ : Config;
  interval_ : Z;
  pending_ : bool;
  suspended_ : bool;
  last_sent_ : option Z;
  in_flight_ : list InFlight;
  round_trip_ : option Z }.

(** Microseconds per frame, cast to nanoseconds. *)
Definition frame_interval (fps : Z) : Z := (1000000 / Z.max fps 1) * 1000.

Definition make (c : Config) : t :=
  let c' := mkConfig (max_fps c) (Z.max (max_frames_in_flight c) 1) (cfg_ack_timeout c)
                     (ack_timeout_rtt_factor c) (max_ack_timeout c) (acknowledgements c) in
  mk c' (frame_interval (max_fps c)) false false None [] None.

Definition set_max_fps (s : t) (fps : Z) : t :=
  let c := config_ s in
  mk (mkConfig fps (max_frames_in_flight c) (cfg_ack_timeout c) (ack_timeout_rtt_factor c)
               (max_ack_timeout c) (acknowledgements c))
     (frame_interval fps) (pending_ s) (suspended_ s) (last_sent_ s) (in_flight_ s) (round_trip_ s).

Definition damage (s : t) : t :=
  mk (config_ s) (interval_ s) true (suspended_ s) (last_sent_ s) (in_flight_ s) (round_trip_ s).

Definition gated_by_acks (s : t) : bool := acknowledgements (config_ s) && negb (suspended_ s).

Definition with_in_flight (s : t) (q : list InFlight) : t :=
  mk (config_ s) (interval_ s) (pending_ s) (suspended_ s) (last_sent_ s) q (round_trip_ s).

Definition frame_sent (s : t) (id now : Z) : t :=
  mk (config_ s) (interval_ s) false (suspended_ s) (Some now)
     (if gated_by_acks s then in_flight_ s ++ [mkInFlight id now] else in_flight_ s) (round_trip_ s).

(** [std::ranges::find] by id, and the queue after the frame found. *)
Fixpoint find_frame (q : list InFlight) (id : Z) : option (InFlight * list InFlight) :=
  match q with
  | [] => None
  | f :: q' => if frame_id f =? id then Some (f, q') else find_frame q' id
  end.

Definition frame_acknowledged (s : t) (id now : Z) : t :=
  match find_frame (in_flight_ s) id with
  | None => s
  | Some (found, later) =>
      let sample := now - sent found in
      let rt := match round_trip_ s with
                | Some r => Z.quot (r * 7 + sample) 8
                | None => sample
                end in
      mk (config_ s) (interval_ s) (pending_ s) (suspended_ s) (last_sent_ s) later (Some rt)
  end.

Definition set_acknowledgements_suspended (s : t) (suspended : bool) : t :=
  mk (config_ s) (interval_ s) (pending_ s) suspended (last_sent_ s)
     (if suspended then [] else in_flight_ s) (round_trip_ s).

(** [std::clamp]. *)
Definition clamp (v lo hi : Z) : Z := if v <? lo then lo else if hi <? v then hi else v.

Definition ack_timeout (s : t) : Z :=
  match round_trip_ s with
  | None => cfg_ack_timeout (config_ s)
  | Some r =>
      let scaled := r * ack_timeout_rtt_factor (config_ s) in
      let floor := Z.min (cfg_ack_timeout (config_ s)) (max_ack_timeout (config_ s)) in
      clamp scaled floor (max_ack_timeout (config_ s))
  end.

Fixpoint expire_loop (timeout now : Z) (q : list InFlight) : list InFlight :=
  match q with
  | f :: q' => if timeout <=? now - sent f then expire_loop timeout now q' else q
  | [] => []
  end.

Definition expire (s : t) (now : Z) : t := with_in_flight s (expire_loop (ack_timeout s) now (in_flight_ s)).

Definition window_full (s : t) : bool :=
  gated_by_acks s && (max_frames_in_flight (config_ s) <=? len (in_flight_ s)).

Definition due (s : t) (now : Z) : bool * t :=
  if negb (pending_ s) then (false, s)
  else
    let s := expire s now in
    if window_full s then (false, s)
    else (match last_sent_ s with None => true | Some l => interval_ s <=? now - l end, s).

(** [in_flight_.front()] is read only when the window is full, hence not empty. *)
Definition wait (s : t) (now : Z) : option Z * t :=
  if negb (pending_ s) then (None, s)
  else
    let s := expire s now in
    let w := match last_sent_ s with None => 0 | Some l => Z.max 0 (l + interval_ s - now) end in
    let w := if window_full s then
               match in_flight_ s with
               | f :: _ => Z.max w (sent f + ack_timeout s - now)
               | [] => w
               end
             else w in
    (Some w, s).

(** ** Reachable states *)

Definition before (a b : InFlight) : Prop := sent a <= sent b.

Record wf (now : Z) (s : t) : Prop := mkWf {
  wf_window : 1 <= max_frames_in_flight (config_ s);
  wf_count : len (in_flight_ s) <= max_frames_in_flight (config_ s);
  wf_gated : in_flight_ s <> [] -> gated_by_acks s = true;
  wf_last : match last_sent_ s with Some l => l <= now | None => in_flight_ s = [] end;
  wf_ordered : StronglySorted before (in_flight_ s) /\ Forall (fun f => sent f <= now) (in_flight_ s);
  wf_interval : interval_ s = frame_interval (max_fps (config_ s));
  wf_rtt : match round_trip_ s with Some r => 0 <= r | None => True end }.

Inductive Event :=
  | Damage
  | Sent (id : Z)
  | Acknowledged (id : Z)
  | Suspend (b : bool)
  | SetFps (fps : Z)
  | AskDue
  | AskWait.

Definition step (s : t) (e : Event) (now : Z) : t :=
  match e with
  | Damage => damage s
  | Sent id => frame_sent (snd (due s now)) id now
  | Acknowledged id => frame_acknowledged s id now
  | Suspend b => set_acknowledgements_suspended s b
  | SetFps fps => set_max_fps s fps
  | AskDue => snd (due s now)
  | AskWait => snd (wait s now)
  end.

(** A frame is sent in the same instant [due] allowed it. *)
Definition allowed (s : t) (e : Event) (now : Z) : Prop :=
  match e with Sent _ => fst (due s now) = true | _ => True end.

Inductive reachable (c : Config) (from : Z) : Z -> t -> Prop :=
  | reach_init : reachable c from from (make c)
  | reach_tick now now' s : reachable c from now s -> now <= now' -> reachable c from now' s
  | reach_step now s e : reachable c from now s -> allowed s e now -> reachable c from now (step s e now).

(** ** The queue only loses frames from the front *)

Lemma find_frame_suffix q id f later : find_frame q id = Some (f, later) -> later `suffix_of` q /\ f ∈ q /\ frame_id f = id.
Proof.
  induction q as [|g q IH]; cbn; [done|]. destruct (Z.eqb_spec (frame_id g) id).
  - intros [= <- <-]. split_and!; [by apply suffix_cons_r|by constructor|done].
  - intros H. destruct (IH H) as (H1 & H2 & H3). split_and!; [by apply suffix_cons_r|by constructor|done].
Qed.

Lemma expire_loop_suffix timeout now q : expire_loop timeout now q `suffix_of` q.
Proof. induction q as [|f q IH]; cbn; [done|]. destruct (_ <=? _); [by apply suffix_cons_r|done]. Qed.

Lemma expire_loop_head timeout now q f q' :
  expire_loop timeout now q = f :: q' -> now - sent f < timeout.
Proof.
  induction q as [|g q IH]; cbn; [done|]. destruct (Z.leb_spec timeout (now - sent g)); [done|]. by intros [= -> ->].
Qed.

Lemma suffix_queue q' q now :
  q' `suffix_of` q -> StronglySorted before q -> Forall (fun f => sent f <= now) q ->
  StronglySorted before q' /\ Forall (fun f => sent f <= now) q' /\ len q' <= len q.
Proof.
  intros [p ->] Hs Hf. apply Forall_app in Hf as [_ Hf]. split_and!; [|done|len_lia].
  induction p as [|f p IH]; [done|]. inversion Hs; subst. by apply IH.
Qed.

(** A state whose queue is a later part of a good state's queue. *)
Lemma wf_suffix now s q : wf now s -> q `suffix_of` in_flight_ s -> wf now (with_in_flight s q).
Proof.
  intros [H1 H2 H3 H4 [H5 H6] H7 H8] Hq. destruct (suffix_queue _ _ _ Hq H5 H6) as (S1 & S2 & S3).
  split; cbn; try done.
  - lia.
  - intros Hne. apply H3. intros E. rewrite E in Hq. by apply suffix_nil_inv in Hq.
  - destruct (last_sent_ s); [done|]. rewrite H4 in Hq. by apply suffix_nil_inv in Hq.
Qed.

Lemma wf_expire now s : wf now s -> wf now (expire s now).
Proof. intros H. apply wf_suffix; [done|apply expire_loop_suffix]. Qed.

Lemma wf_due now s : wf now s -> wf now (snd (due s now)).
Proof.
  intros H. unfold due. destruct (negb _); [done|]. apply wf_expire in H. by destruct (window_full _).
Qed.

Lemma wf_wait now s : wf now s -> wf now (snd (wait s now)).
Proof. intros H. unfold wait. destruct (negb _); [done|]. by apply wf_expire in H. Qed.

Lemma wf_tick now now' s : wf now s -> now <= now' -> wf now' s.
Proof.
  intros [H1 H2 H3 H4 [H5 H6] H7 H8] Hn. split; try done.
  - destruct (last_sent_ s); [lia|done].
  - split; [done|]. eapply Forall_impl; [exact H6|]. cbn. lia.
Qed.

Lemma due_true now s :
  fst (due s now) = true ->
  let s' := snd (due s now) in
  pending_ s = true /\ window_full s' = false /\
  match last_sent_ s' with None => True | Some l => interval_ s' <= now - l end /\
  last_sent_ s' = last_sent_ s /\ interval_ s' = interval_ s /\ config_ s' = config_ s.
Proof.
  unfold due. destruct (pending_ s); cbn [negb]; [|done]. destruct (window_full (expire s now)) eqn:E; cbn; [done|].
  intros H. split_and!; try done. destruct (last_sent_ s); [by apply Z.leb_le|done].
Qed.

Lemma sorted_snoc q f : StronglySorted before q -> Forall (fun g => sent g <= sent f) q -> StronglySorted before (q ++ [f]).
Proof.
  induction 1 as [|g q Hq IH Hg]; intros Hf; [repeat constructor|]. inversion Hf; subst. cbn. constructor; [by apply IH|].
  apply Forall_app. split; [done|by constructor].
Qed.

Lemma wf_sent now s id : wf now s -> fst (due s now) = true -> wf now (frame_sent (snd (due s now)) id now).
Proof.
  intros Hwf Hd. destruct (due_true now s Hd) as (_ & Hw & _). pose proof (wf_due now s Hwf) as [H1 H2 H3 H4 [H5 H6] H7 H8].
  set (s' := snd (due s now)) in *. unfold window_full in Hw.
  split; unfold frame_sent, gated_by_acks in *; cbn; try done;
    destruct (acknowledgements (config_ s') && negb (suspended_ s')) eqn:Eg; cbn [andb] in *; bools; try done; try lia.
  - len_lia.
  - split; [by apply sorted_snoc|]. apply Forall_app. split; [done|]. constructor; [cbn; lia|done].
Qed.

Lemma wf_ack now s id : wf now s -> wf now (frame_acknowledged s id now).
Proof.
  intros Hwf. unfold frame_acknowledged. destruct (find_frame (in_flight_ s) id) as [[f later]|] eqn:E; [|done].
  apply find_frame_suffix in E as (Hs & Hf & _).
  pose proof (wf_suffix now s later Hwf Hs) as [H1 H2 H3 H4 H5 H6 H7]. split; cbn in *; try done.
  destruct (wf_ordered _ _ Hwf) as [_ Hle]. rewrite Forall_forall in Hle. specialize (Hle f Hf). cbn in Hle.
  pose proof (wf_rtt _ _ Hwf). destruct (round_trip_ s); [|lia]. apply Z.quot_pos; lia.
Qed.

Lemma sched_reachable_wf c from now s : reachable c from now s -> wf now s.
Proof.
  induction 1 as [|now now' s _ IH Hn|now s e _ IH Ha].
  - split; cbn; rewrite ?len_nil; try done; try lia. split; constructor.
  - by eapply wf_tick.
  - destruct e; cbn [step allowed] in *.
    + destruct IH. by split.
    + by apply wf_sent.
    + by apply wf_ack.
    + destruct IH as [H1 H2 H3 H4 [H5 H6] H7 H8].
      destruct b; split; unfold gated_by_acks in *; cbn; rewrite ?len_nil; try done; try lia.
      * by destruct (last_sent_ s).
      * split; constructor.
      * intros Hne. by apply H3, andb_prop in Hne as [-> _].
    + destruct IH. by split.
    + by apply wf_due.
    + by apply wf_wait.
Qed.

(** ** Theorems *)

(** C36: however the client acknowledges, suspends, stays silent or repeats
    itself, never more than the configured number of frames (at least one) await
    an acknowledgement, and they are kept in sending order; a frame that [due]
    allows while acknowledgements gate the output leaves room in the window. *)
Theorem window_bounded (c : Config) (from now : Z) (s : t) :
  reachable c from now s ->
  len (in_flight_ s) <= max_frames_in_flight (config_ s) /\ 1 <= max_frames_in_flight (config_ s) /\
  StronglySorted before (in_flight_ s) /\
  (fst (due s now) = true -> gated_by_acks s = true ->
   len (in_flight_ (snd (due s now))) < max_frames_in_flight (config_ s)).
Proof.
  intros Hr%sched_reachable_wf. destruct (wf_ordered _ _ Hr). split_and!; [apply Hr|apply Hr|done|].
  intros Hd Hg. apply due_true in Hd as (Hp & Hw & _ & _ & _ & Hc). unfold window_full in Hw. rewrite Hc in Hw.
  assert (gated_by_acks (snd (due s now)) = true) as Hg'.
  { unfold due. destruct (negb _); [done|]. by destruct (window_full _). }
  rewrite Hg' in Hw. cbn [andb] in Hw. by bools.
Qed.

Lemma expire_loop_none timeout now q :
  (forall f q', q = f :: q' -> now - sent f < timeout) -> expire_loop timeout now q = q.
Proof.
  destruct q as [|f q]; [done|]. intros H. cbn. specialize (H f q eq_refl).
  destruct (Z.leb_spec timeout (now - sent f)); [lia|done].
Qed.

Lemma expire_loop_pops timeout now f q :
  timeout <= now - sent f -> len (expire_loop timeout now (f :: q)) <= len q.
Proof.
  intros H. cbn. destruct (Z.leb_spec timeout (now - sent f)); [|lia].
  destruct (expire_loop_suffix timeout now q) as [p Hp]. rewrite Hp at 2. len_lia.
Qed.

(** *** due and wait as conditions on the time *)

Lemma due_pending s later :
  pending_ s = true ->
  fst (due s later) = negb (window_full (expire s later)) &&
    match last_sent_ s with None => true | Some l => interval_ s <=? later - l end.
Proof. intros H. unfold due. rewrite H. cbn [negb]. by destruct (window_full (expire s later)). Qed.

Definition rate_wait (s : t) (now : Z) : Z :=
  match last_sent_ s with None => 0 | Some l => Z.max 0 (l + interval_ s - now) end.

Lemma rate_later s now later :
  now <= later ->
  match last_sent_ s with None => true | Some l => interval_ s <=? later - l end = (now + rate_wait s now <=? later).
Proof.
  intros H. unfold rate_wait. destruct (last_sent_ s) as [l|]; [|symmetry; apply Z.leb_le; lia].
  destruct (Z.leb_spec (interval_ s) (later - l)), (Z.leb_spec (now + Z.max 0 (l + interval_ s - now)) later); lia.
Qed.

Lemma rate_wait_bound s now : wf now s -> 0 <= rate_wait s now <= Z.max 0 (interval_ s).
Proof. intros H. pose proof (wf_last _ _ H). unfold rate_wait. destruct (last_sent_ s); lia. Qed.

(** A window that is not full stays so; a full one opens exactly when its
    oldest frame times out. *)
Lemma window_stays_open s later : window_full s = false -> window_full (expire s later) = false.
Proof.
  unfold window_full, gated_by_acks. cbn. destruct (acknowledgements _ && _); [|done]. cbn [andb]. intros H. bools.
  apply Z.leb_gt. destruct (expire_loop_suffix (ack_timeout s) later (in_flight_ s)) as [p Hp]. rewrite Hp in H. len_lia.
Qed.

Lemma window_opens now s f q later :
  wf now s -> window_full s = true -> in_flight_ s = f :: q ->
  window_full (expire s later) = (later <? sent f + ack_timeout s).
Proof.
  intros Hr Hf Eq. pose proof (wf_count _ _ Hr) as Hc. unfold window_full, gated_by_acks in *. cbn.
  apply andb_prop in Hf as [-> Hl]. cbn [andb]. rewrite Eq in *. bools.
  destruct (Z.ltb_spec later (sent f + ack_timeout s)) as [Hb|Hb].
  - rewrite expire_loop_none by (intros ? ? [= <- <-]; lia). by apply Z.leb_le.
  - apply Z.leb_gt. pose proof (expire_loop_pops (ack_timeout s) later f q ltac:(lia)). rewrite len_cons in Hc. lia.
Qed.

(** [wait] is exact.  While damage is pending it names a delay [d], at most
    the longer of the frame interval and the acknowledgement timeout, such that
    with no further event no frame is due before [now + d] and one is due at
    [now + d]: the caller never sleeps too long and never polls for nothing, and
    damage is always followed by a frame even if the client never answers. *)
Theorem wait_exact (c : Config) (from now : Z) (s : t) :
  reachable c from now s -> pending_ s = true ->
  exists d s', wait s now = (Some d, s') /\ 0 <= d <= Z.max 0 (Z.max (interval_ s) (ack_timeout s)) /\
    fst (due s' (now + d)) = true /\
    (forall later, now <= later < now + d -> fst (due s' later) = false).
Proof.
  intros Hr%sched_reachable_wf Hp. unfold wait. rewrite Hp. cbn [negb].
  pose proof (wf_expire now s Hr) as Hr'.
  assert (forall f q, in_flight_ (expire s now) = f :: q -> now - sent f < ack_timeout s) as Hhead
    by (intros f q E; exact (expire_loop_head _ _ _ _ _ E)).
  assert (pending_ (expire s now) = true) as Hp' by done.
  change (interval_ s) with (interval_ (expire s now)). change (ack_timeout s) with (ack_timeout (expire s now)) in *.
  generalize dependent (expire s now). intros s' Hr' Hhead Hp'. clear Hr Hp.
  fold (rate_wait s' now). pose proof (rate_wait_bound s' now Hr') as Hw.
  destruct (window_full s') eqn:Ef.
  - destruct (in_flight_ s') as [|f q] eqn:Eq.
    { unfold window_full in Ef. bools. pose proof (wf_window _ _ Hr'). rewrite Eq, len_nil in *. lia. }
    destruct (wf_ordered _ _ Hr') as [_ Hs]. rewrite Eq in Hs. apply Forall_cons in Hs as [Hs _].
    specialize (Hhead f q eq_refl). do 2 eexists. split_and!; [done|lia|lia| |].
    + rewrite due_pending, (window_opens now s' f q), (rate_later s' now) by (done || lia).
      apply andb_true_iff. rewrite negb_true_iff, Z.ltb_ge, Z.leb_le. lia.
    + intros later Hla. rewrite due_pending, (window_opens now s' f q), (rate_later s' now) by (done || lia).
      apply andb_false_iff. rewrite negb_false_iff, Z.ltb_lt, Z.leb_gt. lia.
  - do 2 eexists. split_and!; [done|lia|lia| |].
    + rewrite due_pending, (window_stays_open s' _ Ef), (rate_later s' now) by (done || lia). apply Z.leb_le. lia.
    + intros later Hla. rewrite due_pending, (window_stays_open s' _ Ef), (rate_later s' now) by (done || lia).
      apply Z.leb_gt. lia.
Qed.

(** ** Frame rate *)

(** Timed events, in order. *)
Fixpoint run (s : t) (now : Z) (es : list (Z * Event)) : t * Z :=
  match es with
  | [] => (s, now)
  | (at_, e) :: es' => run (step s e at_) at_ es'
  end.

(** Time moves forward, frames are sent only when due, the cap is not changed. *)
Fixpoint allowed_run (s : t) (now : Z) (es : list (Z * Event)) : Prop :=
  match es with
  | [] => True
  | (at_, e) :: es' =>
      now <= at_ /\ allowed s e at_ /\ match e with SetFps _ => False | _ => True end /\
      allowed_run (step s e at_) at_ es'
  end.

Fixpoint sends (es : list (Z * Event)) : Z :=
  match es with
  | [] => 0
  | (_, e) :: es' => (match e with Sent _ => 1 | _ => 0 end) + sends es'
  end.

Lemma step_keeps s e at_ :
  match e with SetFps _ | Sent _ => False | _ => True end ->
  last_sent_ (step s e at_) = last_sent_ s /\ interval_ (step s e at_) = interval_ s.
Proof.
  destruct e; cbn; try done; intros _.
  - unfold frame_acknowledged. by destruct (find_frame _ _) as [[? ?]|].
  - unfold due. destruct (negb _); [done|]. by destruct (window_full _).
  - unfold wait. by destruct (negb _).
Qed.

Lemma run_rate es : forall s now l,
  allowed_run s now es -> 0 <= interval_ s -> last_sent_ s = Some l -> l <= now ->
  exists l', last_sent_ (fst (run s now es)) = Some l' /\ l + sends es * interval_ s <= l' <= snd (run s now es) /\
             interval_ (fst (run s now es)) = interval_ s.
Proof.
  induction es as [|[a e] es IH]; intros s now l Ha Hi Hl Hn; cbn [run].
  - exists l. cbn. split_and!; [done|lia..|done].
  - destruct Ha as (Hna & Hal & Hf & Ha). cbn [sends].
    assert (match e with Sent _ => True | _ => last_sent_ (step s e a) = Some l end /\
            interval_ (step s e a) = interval_ s) as [Hls Hst].
    { assert ((exists id, e = Sent id) \/ match e with SetFps _ | Sent _ => False | _ => True end) as [[id ->]|Hs]
        by (destruct e; eauto).
      - split; [done|]. cbn. unfold due. destruct (negb _); [done|]. by destruct (window_full _).
      - destruct (step_keeps s e a Hs) as [K1 K2]. rewrite K1, K2. by destruct e. }
    assert (exists l1, last_sent_ (step s e a) = Some l1 /\
              l + (match e with Sent _ => 1 | _ => 0 end) * interval_ s <= l1 <= a) as (l1 & Hl1 & Hb).
    { destruct e; try (exists l; split; [exact Hls|lia]). exists a. split; [done|].
      cbn in Hal. apply due_true in Hal as (_ & _ & Hd & E1 & E2 & _). rewrite E1, E2, Hl in Hd. lia. }
    destruct (IH (step s e a) a l1) as (l' & H1 & H2 & H3); [done|lia|done|lia|].
    exists l'. rewrite Hst in *. split_and!; [done|lia|lia|done].
Qed.

(** the frame-rate cap holds over any stretch of time: from the moment a
    frame was sent, further frames under an unchanged cap take at least one frame
    interval each, whatever damage, acknowledgements and queries come between. *)
Theorem frame_rate_capped (c : Config) (from now : Z) (s : t) (es : list (Z * Event)) (l : Z) :
  reachable c from now s -> last_sent_ s = Some l -> allowed_run s now es ->
  sends es * frame_interval (max_fps (config_ s)) <= snd (run s now es) - l.
Proof.
  intros Hr%sched_reachable_wf Hl Ha. pose proof (wf_last _ _ Hr) as Hn. rewrite Hl in Hn.
  rewrite <- (wf_interval _ _ Hr).
  destruct (run_rate es s now l Ha) as (l' & _ & H & _); [|done|done|lia].
  rewrite (wf_interval _ _ Hr). unfold frame_interval. apply Z.mul_nonneg_nonneg; [|lia]. apply Z.div_pos; lia.
Qed.

(** the smoothed round trip never leaves the range of its old value and the
    new sample, and the timeout derived from it never exceeds the configured
    ceiling nor falls below the configured floor (the smaller of the two when
    they are inverted). *)
Theorem round_trip_smoothed (s : t) (id now r lo hi : Z) :
  round_trip_ s = Some r -> lo <= r <= hi -> 0 <= lo ->
  (forall f, f ∈ in_flight_ s -> frame_id f = id -> lo <= now - sent f <= hi) ->
  let s' := frame_acknowledged s id now in
  exists r', round_trip_ s' = Some r' /\ lo <= r' <= hi /\
    Z.min (cfg_ack_timeout (config_ s)) (max_ack_timeout (config_ s)) <= ack_timeout s' <= max_ack_timeout (config_ s).
Proof.
  intros Hr Hb Hlo Hs s'. subst s'. unfold frame_acknowledged, ack_timeout.
  assert (forall v, Z.min (cfg_ack_timeout (config_ s)) (max_ack_timeout (config_ s)) <=
    clamp v (Z.min (cfg_ack_timeout (config_ s)) (max_ack_timeout (config_ s))) (max_ack_timeout (config_ s))
    <= max_ack_timeout (config_ s)) as Hc.
  { intros v. unfold clamp. destruct (Z.ltb_spec v (Z.min (cfg_ack_timeout (config_ s)) (max_ack_timeout (config_ s)))); [lia|].
    destruct (Z.ltb_spec (max_ack_timeout (config_ s)) v); lia. }
  destruct (find_frame (in_flight_ s) id) as [[f later]|] eqn:E.
  - apply find_frame_suffix in E as (_ & Hf & Hid). specialize (Hs f Hf Hid). cbn. rewrite Hr.
    eexists. split_and!; [done| | |apply Hc..]; rewrite Z.quot_div_nonneg by lia; lia.
  - rewrite Hr. exists r. split_and!; [done|lia|lia|apply Hc..].
Qed.

(** ** Witnesses *)

Definition sample_config : Config := mkConfig 30 2 1000000000 4 10000000000 true.

(** Damage, a frame, damage again: one frame in flight and one wanted. *)
Definition sample_state : t := damage (step (damage (make sample_config)) (Sent 1) 5).

Lemma sched_sample_reachable : reachable sample_config 5 5 sample_state.
Proof.
  apply (reach_step _ _ _ _ Damage); [|done]. apply (reach_step _ _ _ _ (Sent 1)); [|vm_compute; reflexivity].
  apply (reach_step _ _ _ _ Damage); [|done]. apply reach_init.
Qed.

Lemma window_bounded_witness :
  len (in_flight_ sample_state) <= max_frames_in_flight (config_ sample_state).
Proof. exact (proj1 (window_bounded sample_config 5 5 sample_state sched_sample_reachable)). Defined.

Lemma wait_exact_witness :
  exists d s', wait sample_state 5 = (Some d, s') /\
    0 <= d <= Z.max 0 (Z.max (interval_ sample_state) (ack_timeout sample_state)) /\
    fst (due s' (5 + d)) = true /\
    (forall later, 5 <= later < 5 + d -> fst (due s' later) = false).
Proof. exact (wait_exact sample_config 5 5 sample_state sched_sample_reachable eq_refl). Defined.

Lemma frame_rate_capped_witness :
  sends [(33333005, Sent 2); (40000000, Damage)] * frame_interval 30 <= 40000000 - 5.
Proof.
  apply (frame_rate_capped sample_config 5 5 sample_state [(33333005, Sent 2); (40000000, Damage)] 5 sched_sample_reachable).
  - reflexivity.
  - cbn [allowed_run]. split_and!; [lia|vm_compute; reflexivity|exact I|lia|exact I|exact I|exact I].
Defined.

Lemma round_trip_smoothed_witness :
  let s := mk sample_config 33333000 false false (Some 5) [mkInFlight 7 5] (Some 100) in
  exists r', round_trip_ (frame_acknowledged s 7 205) = Some r' /\ 100 <= r' <= 200 /\
    1000000000 <= ack_timeout (frame_acknowledged s 7 205) <= 10000000000.
Proof.
  apply (round_trip_smoothed (mk sample_config 33333000 false false (Some 5) [mkInFlight 7 5] (Some 100)) 7 205 100 100 200);
    [reflexivity|lia|lia|].
  intros f Hf _. apply list_elem_of_singleton in Hf as ->. cbn. lia.
Defined.

End FrameScheduler.
