(* ===== verification/AutodetectCodec.v ===== *)
(** * Auto-detect messages

    Models [src/src/farland/proto/autodetect.hpp] and [autodetect.cpp]: the
    requests and responses of network characteristics detection and the
    Heartbeat PDU. *)

From S2P Require Import Prelude Buffers CodecLogic.
Open Scope Z_scope.

Module AutodetectCodec.

Definition type_id_request : Z := 0x00.
Definition type_id_response : Z := 0x01.

(** Namespace [request_type]. *)
Definition rtt_continuous : Z := 0x0001.
Definition rtt_connect_time : Z := 0x1001.
Definition bw_start_continuous : Z := 0x0014.
Definition bw_start_lossy_udp : Z := 0x0114.
Definition bw_start_connect_time : Z := 0x1014.
Definition bw_payload : Z := 0x0002.
Definition bw_stop_connect_time : Z := 0x002B.
Definition bw_stop_continuous : Z := 0x0429.
Definition bw_stop_lossy_udp : Z := 0x0629.
Definition netchar_base_rtt_average_rtt : Z := 0x0840.
Definition netchar_bandwidth_average_rtt : Z := 0x0880.
Definition netchar_all : Z := 0x08C0.

(** Namespace [response_type]. *)
Definition rtt : Z := 0x0000.
Definition bw_results_connect_time : Z := 0x0003.
Definition bw_results_continuous : Z := 0x000B.
Definition netchar_sync : Z := 0x0018.

Definition max_payload_size : Z := 15000.

(** [NetworkCharacteristicsResult]. *)
Record NetworkCharacteristicsResult := mkResult {
  res_sequence : Z;
  base_rtt_ms : option Z;
  bandwidth_kbps : option Z;
  average_rtt_ms : Z }.

Inductive Request :=
  | RttRequest (sequence request_type : Z)
  | BandwidthStart (sequence request_type : Z)
  | BandwidthPayload (sequence : Z) (payload : list byte)
  | BandwidthStop (sequence request_type : Z) (payload : list byte)
  | NetworkResult (result : NetworkCharacteristicsResult).

Inductive Response :=
  | RttResponse (sequence : Z)
  | BandwidthResults (sequence response_type time_delta_ms byte_count : Z)
  | NetworkCharacteristicsSync (sequence bandwidth_kbps rtt_ms : Z).

Record Heartbeat := mkHeartbeat { period_seconds : Z; warning_count : Z; reconnect_count : Z }.

Definition short_header : Z := 0x06.
Definition payload_header : Z := 0x08.
Definition result_header : Z := 0x0E.
Definition netchar_all_header : Z := 0x12.

Record Header := mkHeader { length : Z; type_id : Z; sequence : Z; type : Z }.

Definition read_header (expected_type_id : Z) : Dec Header :=
  let* start := dask Reader.offset in
  let* l := ReaderOps.u8 in
  let* id := ReaderOps.u8 in
  let* s := ReaderOps.u16le in
  let* t := ReaderOps.u16le in
  if negb (id =? expected_type_id)
  then dfail invalid_value "auto-detect headerTypeId does not match the direction" start
  else dret (mkHeader l id s t).

Definition expect_length (h : Header) (expected offset : Z) : Dec unit :=
  if negb (length h =? expected)
  then dfail invalid_length "auto-detect headerLength does not match the message type" offset
  else dret tt.

Definition write_header (l id s t : Z) : Enc unit :=
  Writer.u8 l ;;;
  Writer.u8 id ;;;
  Writer.u16le s ;;;
  Writer.u16le t.

Definition read_payload : Dec (list byte) :=
  let* l := ReaderOps.u16le in
  ReaderOps.bytes l.

Definition write_payload (payload : list byte) : Enc unit :=
  eassert (len payload <=? 0xFFFF) ;;;
  Writer.u16le (wrap 16 (len payload)) ;;;
  Writer.bytes payload.

Definition request_type_of (result : NetworkCharacteristicsResult) : Z :=
  match base_rtt_ms result, bandwidth_kbps result with
  | Some _, Some _ => netchar_all
  | _, Some _ => netchar_bandwidth_average_rtt
  | _, None => netchar_base_rtt_average_rtt
  end.

(** The branch of [decode_request] for the three Network Characteristics Results. *)
Definition read_result (h : Header) : Dec NetworkCharacteristicsResult :=
  let* base := if negb (type h =? netchar_bandwidth_average_rtt)
               then let* v := ReaderOps.u32le in dret (Some v) else dret None in
  let* bandwidth := if negb (type h =? netchar_base_rtt_average_rtt)
                    then let* v := ReaderOps.u32le in dret (Some v) else dret None in
  let* average := ReaderOps.u32le in
  dret (mkResult (sequence h) base bandwidth average).

(** The [switch] of [decode_request]. *)
Definition read_request (start : Z) (h : Header) : Dec Request :=
  if (type h =? rtt_continuous) || (type h =? rtt_connect_time) then
    let* _ := expect_length h short_header start in
    dret (RttRequest (sequence h) (type h))
  else if (type h =? bw_start_continuous) || (type h =? bw_start_lossy_udp)
          || (type h =? bw_start_connect_time) then
    let* _ := expect_length h short_header start in
    dret (BandwidthStart (sequence h) (type h))
  else if type h =? bw_payload then
    let* _ := expect_length h payload_header start in
    let* payload := read_payload in
    dret (BandwidthPayload (sequence h) payload)
  else if type h =? bw_stop_connect_time then
    let* _ := expect_length h payload_header start in
    let* length_offset := dask Reader.offset in
    let* payload := read_payload in
    if bool_decide (payload = [])
    then dfail invalid_length "connect-time Bandwidth Measure Stop without payload" length_offset
    else dret (BandwidthStop (sequence h) (type h) payload)
  else if (type h =? bw_stop_continuous) || (type h =? bw_stop_lossy_udp) then
    let* _ := expect_length h short_header start in
    dret (BandwidthStop (sequence h) (type h) [])
  else if (type h =? netchar_base_rtt_average_rtt) || (type h =? netchar_bandwidth_average_rtt)
          || (type h =? netchar_all) then
    let* _ := expect_length h (if type h =? netchar_all then netchar_all_header else result_header) start in
    let* result := read_result h in
    dret (NetworkResult result)
  else dfail unsupported "unknown auto-detect requestType" (start + 4).

Definition decode_request : Dec Request :=
  let* start := dask Reader.offset in
  let* h := read_header type_id_request in
  read_request start h.

Definition write_optional (v : option Z) : Enc unit :=
  match v with Some v => Writer.u32le v | None => eret tt end.

Definition encode_request (request : Request) : Enc unit :=
  match request with
  | RttRequest s t | BandwidthStart s t => write_header short_header type_id_request s t
  | BandwidthPayload s payload =>
      write_header payload_header type_id_request s bw_payload ;;;
      write_payload payload
  | BandwidthStop s t payload =>
      if t =? bw_stop_connect_time then
        eassert (negb (bool_decide (payload = []))) ;;;
        write_header payload_header type_id_request s t ;;;
        write_payload payload
      else
        eassert (bool_decide (payload = [])) ;;;
        write_header short_header type_id_request s t
  | NetworkResult m =>
      eassert (bool_decide (is_Some (base_rtt_ms m)) || bool_decide (is_Some (bandwidth_kbps m))) ;;;
      write_header (if request_type_of m =? netchar_all then netchar_all_header else result_header)
                   type_id_request (res_sequence m) (request_type_of m) ;;;
      write_optional (base_rtt_ms m) ;;;
      write_optional (bandwidth_kbps m) ;;;
      Writer.u32le (average_rtt_ms m)
  end.

(** The [switch] of [decode_response]. *)
Definition read_response (start : Z) (h : Header) : Dec Response :=
  if type h =? rtt then
    let* _ := expect_length h short_header start in
    dret (RttResponse (sequence h))
  else if (type h =? bw_results_connect_time) || (type h =? bw_results_continuous) then
    let* _ := expect_length h result_header start in
    let* time_delta := ReaderOps.u32le in
    let* count := ReaderOps.u32le in
    dret (BandwidthResults (sequence h) (type h) time_delta count)
  else if type h =? netchar_sync then
    let* _ := expect_length h result_header start in
    let* bandwidth := ReaderOps.u32le in
    let* rtt_ms := ReaderOps.u32le in
    dret (NetworkCharacteristicsSync (sequence h) bandwidth rtt_ms)
  else dfail unsupported "unknown auto-detect responseType" (start + 4).

Definition decode_response : Dec Response :=
  let* start := dask Reader.offset in
  let* h := read_header type_id_response in
  read_response start h.

Definition encode_response (response : Response) : Enc unit :=
  match response with
  | RttResponse s => write_header short_header type_id_response s rtt
  | BandwidthResults s t time_delta count =>
      write_header result_header type_id_response s t ;;;
      Writer.u32le time_delta ;;;
      Writer.u32le count
  | NetworkCharacteristicsSync s bandwidth rtt_ms =>
      write_header result_header type_id_response s netchar_sync ;;;
      Writer.u32le bandwidth ;;;
      Writer.u32le rtt_ms
  end.

Definition decode_heartbeat : Dec Heartbeat :=
  let* _ := ReaderOps.skip 1 in
  let* period := ReaderOps.u8 in
  let* warning := ReaderOps.u8 in
  let* reconnect := ReaderOps.u8 in
  dret (mkHeartbeat period warning reconnect).

Definition encode_heartbeat (h : Heartbeat) : Enc unit :=
  Writer.u8 0 ;;;
  Writer.u8 (period_seconds h) ;;;
  Writer.u8 (warning_count h) ;;;
  Writer.u8 (reconnect_count h).

(** ** The messages of the protocol *)

Definition u16 (v : Z) : bool := (0 <=? v) && (v <? 65536).
Definition u32 (v : Z) : bool := (0 <=? v) && (v <? 4294967296).
Definition among (t : Z) (l : list Z) : bool := existsb (Z.eqb t) l.
Definition optional_u32 (v : option Z) : bool := match v with Some v => u32 v | None => true end.

(** The field widths, the request types of each message and what
    [MS-RDPBCGR] 2.2.14.1 says of payloads and result fields. *)
Definition request_ok (m : Request) : bool :=
  match m with
  | RttRequest s t => u16 s && among t [rtt_continuous; rtt_connect_time]
  | BandwidthStart s t => u16 s && among t [bw_start_continuous; bw_start_lossy_udp; bw_start_connect_time]
  | BandwidthPayload s p => u16 s && (len p <=? 0xFFFF)
  | BandwidthStop s t p =>
      u16 s && (len p <=? 0xFFFF) &&
      (if bool_decide (p = []) then among t [bw_stop_continuous; bw_stop_lossy_udp]
       else t =? bw_stop_connect_time)
  | NetworkResult m =>
      u16 (res_sequence m) && optional_u32 (base_rtt_ms m) && optional_u32 (bandwidth_kbps m) &&
      u32 (average_rtt_ms m) &&
      (bool_decide (is_Some (base_rtt_ms m)) || bool_decide (is_Some (bandwidth_kbps m)))
  end.

Definition response_ok (m : Response) : bool :=
  match m with
  | RttResponse s => u16 s
  | BandwidthResults s t d c => u16 s && among t [bw_results_connect_time; bw_results_continuous] && u32 d && u32 c
  | NetworkCharacteristicsSync s b r => u16 s && u32 b && u32 r
  end.

Definition u8 (v : Z) : bool := (0 <=? v) && (v <? 256).
Definition heartbeat_ok (h : Heartbeat) : bool :=
  u8 (period_seconds h) && u8 (warning_count h) && u8 (reconnect_count h).

(** ** Headers and payloads *)

Definition header_bytes (l id s t : Z) : list byte :=
  [byte_of l] ++ [byte_of id] ++ Writer.le_bytes 2 s ++ Writer.le_bytes 2 t.

Lemma writes_header l id s t : writes (write_header l id s t) (header_bytes l id s t).
Proof. unfold write_header, header_bytes. repeat wstep. Qed.

Lemma ad_reads_header l id s t k :
  0 <= l < 256 -> 0 <= id < 256 -> u16 s = true -> 0 <= t < 65536 ->
  reads (read_header id) (header_bytes l id s t) k (eq (mkHeader l id s t)).
Proof.
  unfold u16. intros Hl Hid Hs Ht. bools. unfold read_header, header_bytes.
  do 5 rstep. rewrite Z.eqb_refl. by apply reads_ret.
Qed.

Definition payload_bytes (p : list byte) : list byte := Writer.le_bytes 2 (len p) ++ p.

Lemma writes_payload p : (len p <=? 0xFFFF) = true -> writes (write_payload p) (payload_bytes p).
Proof.
  intros H. unfold write_payload, payload_bytes. apply writes_assert; [done|]. bools.
  unfold wrap. rewrite Z.mod_small by len_lia. repeat wstep.
Qed.

Lemma reads_payload p k : (len p <=? 0xFFFF) = true -> reads read_payload (payload_bytes p) k (eq p).
Proof.
  intros H. bools. unfold read_payload, payload_bytes. pose proof (len_nonneg p). rstep. by apply reads_bytes.
Qed.

Definition optional_bytes (v : option Z) : list byte :=
  match v with Some v => Writer.le_bytes 4 v | None => [] end.

Lemma writes_optional v : writes (write_optional v) (optional_bytes v).
Proof. destruct v; [apply writes_bytes|apply writes_ret]. Qed.

#[local] Hint Resolve writes_header writes_payload writes_optional : farland.

(** What was read of the integers, put back into bytes. *)
Lemma le_inv n r v r' :
  ReaderOps.read_le n r = Ok (v, r') ->
  0 <= v < 256 ^ Z.of_nat n /\ took r (Writer.le_bytes n v) r'.
Proof.
  intros (raw & Hl & -> & Hr & Ht)%read_le_inv. split; [done|]. rewrite <- Hl at 1. by rewrite le_bytes_le_val.
Qed.

Lemma u32_inv r v r' : ReaderOps.u32le r = Ok (v, r') -> u32 v = true /\ took r (Writer.le_bytes 4 v) r'.
Proof. intros [Hv Ht]%(le_inv 4). split; [|done]. unfold u32. apply andb_true_iff. lia. Qed.

Lemma read_header_inv id r h r' :
  read_header id r = Ok (h, r') ->
  type_id h = id /\ u16 (sequence h) = true /\ took r (header_bytes (length h) id (sequence h) (type h)) r'.
Proof.
  intros H. apply dask_inv in H.
  apply dbind_inv in H as (l & r1 & (bl & -> & T1)%u8_inv & H).
  apply dbind_inv in H as (i & r2 & (bi & -> & T2)%u8_inv & H).
  apply dbind_inv in H as (s & r3 & [Hs T3]%(le_inv 2) & H).
  apply dbind_inv in H as (t & r4 & [Ht T4]%(le_inv 2) & H).
  destruct (negb (u8_of bi =? id)) eqn:E; [done|]. bools. injection H as <- <-. cbn [type_id sequence length type].
  split_and!; [done|unfold u16; apply andb_true_iff; lia|].
  unfold header_bytes. rewrite <- E, !byte_of_u8_of.
  eapply took_trans; [exact T1|]. eapply took_trans; [exact T2|]. by eapply took_trans.
Qed.

Lemma read_payload_inv r p r' :
  read_payload r = Ok (p, r') -> (len p <=? 0xFFFF) = true /\ took r (payload_bytes p) r'.
Proof.
  intros H. apply dbind_inv in H as (l & r1 & [Hl T1]%(le_inv 2) & H).
  apply bytes_inv in H as [<- T2]; [|lia]. split; [apply Z.leb_le; cbn in Hl; lia|by eapply took_trans].
Qed.

Lemma expect_length_inv {A} h l o (q : unit -> Dec A) r a r' :
  dbind (expect_length h l o) q r = Ok (a, r') -> length h = l /\ q tt r = Ok (a, r').
Proof. unfold expect_length, dbind. destruct (Z.eqb_spec (length h) l); cbn; [done|done]. Qed.

Lemma reads_expect_length {A} h l o (q : unit -> Dec A) e k Q :
  length h = l -> reads (q tt) e k Q -> reads (dbind (expect_length h l o) q) e k Q.
Proof. intros <- H. unfold expect_length. rewrite Z.eqb_refl. exact H. Qed.

(** ** Whole messages *)

Definition result_header_of (m : NetworkCharacteristicsResult) : Z :=
  if request_type_of m =? netchar_all then netchar_all_header else result_header.

Definition request_bytes (m : Request) : list byte :=
  match m with
  | RttRequest s t | BandwidthStart s t => header_bytes short_header type_id_request s t
  | BandwidthPayload s p => header_bytes payload_header type_id_request s bw_payload ++ payload_bytes p
  | BandwidthStop s t p =>
      if bool_decide (p = []) then header_bytes short_header type_id_request s t
      else header_bytes payload_header type_id_request s t ++ payload_bytes p
  | NetworkResult m =>
      header_bytes (result_header_of m) type_id_request (res_sequence m) (request_type_of m) ++
      optional_bytes (base_rtt_ms m) ++ optional_bytes (bandwidth_kbps m) ++ Writer.le_bytes 4 (average_rtt_ms m)
  end.

Definition response_bytes (m : Response) : list byte :=
  match m with
  | RttResponse s => header_bytes short_header type_id_response s rtt
  | BandwidthResults s t d c =>
      header_bytes result_header type_id_response s t ++ Writer.le_bytes 4 d ++ Writer.le_bytes 4 c
  | NetworkCharacteristicsSync s b r =>
      header_bytes result_header type_id_response s netchar_sync ++ Writer.le_bytes 4 b ++ Writer.le_bytes 4 r
  end.

(** [ands] splits conjunctions of boolean conditions and keeps the conditions. *)
Ltac ands := repeat match goal with H : _ && _ = true |- _ => apply andb_prop in H as [? ?] end.

(** [among_cases H] splits a membership test into its alternatives. *)
Ltac among_cases H :=
  cbn [among existsb] in H; rewrite ?orb_false_r in H;
  repeat (apply orb_prop in H as [H|H]); apply Z.eqb_eq in H; subst.

Lemma ad_writes_request m : request_ok m = true -> writes (encode_request m) (request_bytes m).
Proof.
  destruct m as [s t|s t|s p|s t p|m]; cbn [request_ok encode_request request_bytes]; intros H; ands.
  - apply writes_header.
  - apply writes_header.
  - apply writes_seq; auto with farland.
  - case_bool_decide.
    + match goal with H : among _ _ = true |- _ => among_cases H end; apply writes_assert; try done; apply writes_header.
    + match goal with H : (t =? _) = true |- _ => apply Z.eqb_eq in H; subst t end. apply writes_assert; [done|].
      apply writes_seq; auto with farland.
  - apply writes_assert; [done|].
    repeat (apply writes_seq; [eauto with farland|]). apply writes_bytes.
Qed.

Lemma writes_response m : writes (encode_response m) (response_bytes m).
Proof. destruct m; cbn [encode_response response_bytes]; repeat wstep. Qed.

(** A header and what the switch on its type reads after it. *)
Lemma reads_message {A} id (q : Z -> Header -> Dec A) l s t e k Q :
  0 <= l < 256 -> 0 <= id < 256 -> u16 s = true -> 0 <= t < 65536 ->
  (forall start, reads (q start (mkHeader l id s t)) e k Q) ->
  reads (let* start := dask Reader.offset in let* h := read_header id in q start h)
        (header_bytes l id s t ++ e) k Q.
Proof.
  intros Hl Hid Hs Ht H. apply reads_ask. intros ? ?. eapply reads_bind; [by apply ad_reads_header|]. intros ? <-. apply H.
Qed.

(** [by_type] evaluates the switch on the type of the header. *)
Ltac by_type := cbv beta iota delta [read_request read_response type length sequence];
  repeat lazymatch goal with
  | |- reads (if ?c then _ else _) _ _ _ => let b := eval vm_compute in c in change c with b; cbv iota
  end.

Lemma reads_optional (c : bool) v k :
  c = bool_decide (is_Some v) -> optional_u32 v = true ->
  reads (if c then let* v := ReaderOps.u32le in dret (Some v) else dret None) (optional_bytes v) k (eq v).
Proof.
  intros -> H. destruct v as [v|]; cbn [optional_u32 optional_bytes] in *.
  - rewrite bool_decide_true by done. unfold u32 in H. bools. rstep. by apply reads_ret.
  - by apply reads_ret.
Qed.

Lemma reads_result l id m k :
  optional_u32 (base_rtt_ms m) = true -> optional_u32 (bandwidth_kbps m) = true -> u32 (average_rtt_ms m) = true ->
  bool_decide (is_Some (base_rtt_ms m)) || bool_decide (is_Some (bandwidth_kbps m)) = true ->
  reads (read_result (mkHeader l id (res_sequence m) (request_type_of m)))
    (optional_bytes (base_rtt_ms m) ++ optional_bytes (bandwidth_kbps m) ++ Writer.le_bytes 4 (average_rtt_ms m))
    k (eq m).
Proof.
  intros Hb Hw Ha Hone. unfold read_result. cbn [type sequence].
  eapply reads_bind; [apply reads_optional; [|done]|intros ? <-].
  { by destruct m as [s [b|] [w|] a]. }
  eapply reads_bind; [apply reads_optional; [|done]|intros ? <-].
  { by destruct m as [s [b|] [w|] a]. }
  unfold u32 in Ha. bools. rstep. apply reads_ret. by destruct m.
Qed.

(** [header_only] runs a message that is its header, for each of its types. *)
Ltac header_only :=
  rewrite <- (app_nil_r (header_bytes _ _ _ _));
  try match goal with H : among _ _ = true |- _ => among_cases H end;
  (apply reads_message; [done..|]; intros ?; by_type; apply reads_expect_length; [done|by apply reads_ret]).

Lemma ad_reads_request m k : request_ok m = true -> reads decode_request (request_bytes m) k (eq m).
Proof.
  destruct m as [s t|s t|s p|s t p|m]; cbn [request_ok request_bytes]; intros H; ands; unfold decode_request.
  - header_only.
  - header_only.
  - apply reads_message; [done..|]. intros start. by_type. apply reads_expect_length; [done|].
    eapply reads_bind_nil; [by apply reads_payload|]. intros ? <-. by apply reads_ret.
  - case_bool_decide as Hp; [subst p; header_only|].
    match goal with H : (t =? _) = true |- _ => apply Z.eqb_eq in H; subst t end.
    apply reads_message; [done..|]. intros start. by_type. apply reads_expect_length; [done|].
    apply reads_ask. intros ? ?. eapply reads_bind_nil; [by apply reads_payload|]. intros ? <-.
    rewrite bool_decide_false by done. by apply reads_ret.
  - apply reads_message; [|done|done| |].
    1-2: by destruct m as [s [b|] [w|] a].
    intros start.
    assert (reads (let* result := read_result (mkHeader (result_header_of m) type_id_request (res_sequence m)
                                                        (request_type_of m)) in dret (NetworkResult result))
      (optional_bytes (base_rtt_ms m) ++ optional_bytes (bandwidth_kbps m) ++ Writer.le_bytes 4 (average_rtt_ms m))
      k (eq (NetworkResult m))) as R.
    { eapply reads_bind_nil; [by apply reads_result|]. intros ? <-. by apply reads_ret. }
    destruct m as [s [b|] [w|] a]; [..|done]; apply reads_expect_length; [done|exact R|done|exact R|done|exact R].
Qed.

Lemma reads_response m k : response_ok m = true -> reads decode_response (response_bytes m) k (eq m).
Proof.
  destruct m as [s|s t d c|s b r]; cbn [response_ok response_bytes]; intros H; ands; unfold decode_response;
    [header_only|..]; try match goal with H : among _ _ = true |- _ => among_cases H end;
    (apply reads_message; [done..|]; intros start; by_type; apply reads_expect_length; [done|];
     unfold u32 in *; bools; do 2 rstep; by apply reads_ret).
Qed.

(** ** What the decoders accept *)

(** [switch H] follows the branch of the switch that a successful run took. *)
Ltac switch H :=
  repeat match type of H with
  | (if ?c then _ else _) _ = _ => let E := fresh "E" in destruct c eqn:E
  end.

Lemma read_optional_inv (c : bool) r v r' :
  (if c then let* v := ReaderOps.u32le in dret (Some v) else dret None) r = Ok (v, r') ->
  bool_decide (is_Some v) = c /\ optional_u32 v = true /\ took r (optional_bytes v) r'.
Proof.
  destruct c; intros H.
  - apply dbind_inv in H as (x & r1 & [Hx T]%u32_inv & [= <- <-]). by split_and!.
  - injection H as <- <-. split_and!; [done|done|apply took_nil].
Qed.

Lemma read_result_inv h r m r' :
  read_result h r = Ok (m, r') ->
  among (type h) [netchar_base_rtt_average_rtt; netchar_bandwidth_average_rtt; netchar_all] = true ->
  res_sequence m = sequence h /\ request_type_of m = type h /\
  optional_u32 (base_rtt_ms m) = true /\ optional_u32 (bandwidth_kbps m) = true /\ u32 (average_rtt_ms m) = true /\
  bool_decide (is_Some (base_rtt_ms m)) || bool_decide (is_Some (bandwidth_kbps m)) = true /\
  took r (optional_bytes (base_rtt_ms m) ++ optional_bytes (bandwidth_kbps m) ++ Writer.le_bytes 4 (average_rtt_ms m)) r'.
Proof.
  intros H Hin.
  apply dbind_inv in H as (b & r1 & (Cb & Ob & Tb)%read_optional_inv & H).
  apply dbind_inv in H as (w & r2 & (Cw & Ow & Tw)%read_optional_inv & H).
  apply dbind_inv in H as (a & r3 & [Ha Ta]%u32_inv & [= <- <-]). cbn.
  assert (took r (optional_bytes b ++ optional_bytes w ++ Writer.le_bytes 4 a) r3) as T.
  { eapply took_trans; [exact Tb|]. by eapply took_trans. }
  destruct h as [l i s t]. cbn [type sequence] in *. split_and!; try done.
  - among_cases Hin; destruct b, w; done.
  - rewrite Cb, Cw. by among_cases Hin.
Qed.

Lemma decode_request_inv r m r' :
  decode_request r = Ok (m, r') -> request_ok m = true /\ took r (request_bytes m) r'.
Proof.
  intros H. unfold decode_request in H. apply dask_inv in H. cbn beta in H. apply dbind_inv in H as ([l i s t] & r1 & (Hi & Hs & Th)%read_header_inv & H).
  cbn [type_id sequence length type] in *. subst i. unfold read_request in H. cbn [type sequence] in H.
  switch H; [..|done]; apply expect_length_inv in H as [Hl H]; cbn [length] in Hl; subst l.
  - injection H as <- <-. split; [|done]. cbn [request_ok among existsb]. by rewrite Hs, orb_false_r.
  - injection H as <- <-. split; [|done]. cbn [request_ok among existsb]. by rewrite Hs, orb_false_r, orb_assoc.
  - apply dbind_inv in H as (p & r2 & [Hp Tp]%read_payload_inv & [= <- <-]). apply Z.eqb_eq in E1 as ->.
    split; [cbn [request_ok]; by rewrite Hs, Hp|by eapply took_trans].
  - apply dask_inv in H. apply dbind_inv in H as (p & r2 & [Hp Tp]%read_payload_inv & H).
    switch H; [done|]. injection H as <- <-. cbn [request_ok request_bytes].
    rewrite Hs, Hp, E3, E2. split; [done|by eapply took_trans].
  - injection H as <- <-. split; [|done]. cbn [request_ok among existsb]. rewrite Hs, orb_false_r. done.
  - apply dbind_inv in H as (x & r2 & H & [= <- <-]). apply read_result_inv in H as (Es & Et & Ob & Ow & Ha & Ho & T).
    + cbn [sequence type] in *. cbn [request_ok request_bytes]. unfold result_header_of.
      rewrite Es, Et, Hs, Ob, Ow, Ha, Ho. split; [done|by eapply took_trans].
    + cbn [type among existsb]. by rewrite orb_false_r, orb_assoc.
Qed.

Lemma decode_response_inv r m r' :
  decode_response r = Ok (m, r') -> response_ok m = true /\ took r (response_bytes m) r'.
Proof.
  intros H. unfold decode_response in H. apply dask_inv in H. cbn beta in H.
  apply dbind_inv in H as ([l i s t] & r1 & (Hi & Hs & Th)%read_header_inv & H).
  cbn [type_id sequence length type] in *. subst i. unfold read_response in H. cbn [type sequence] in H.
  switch H; [..|done]; apply expect_length_inv in H as [Hl H]; cbn [length] in Hl; subst l.
  - injection H as <- <-. bools. by subst t.
  - apply dbind_inv in H as (d & r2 & [Hd Td]%u32_inv & H).
    apply dbind_inv in H as (c & r3 & [Hc Tc]%u32_inv & [= <- <-]).
    cbn [response_ok among existsb response_bytes]. rewrite orb_false_r, Hs, E0, Hd, Hc. split; [done|].
    eapply took_trans; [done|]. by eapply took_trans.
  - apply dbind_inv in H as (d & r2 & [Hd Td]%u32_inv & H).
    apply dbind_inv in H as (c & r3 & [Hc Tc]%u32_inv & [= <- <-]). apply Z.eqb_eq in E1 as ->.
    cbn [response_ok response_bytes]. rewrite Hs, Hd, Hc. split; [done|].
    eapply took_trans; [done|]. by eapply took_trans.
Qed.

Lemma heartbeat_encodes h : heartbeat_ok h = true -> encodes (encode_heartbeat h) decode_heartbeat h 4.
Proof.
  unfold heartbeat_ok, u8. intros H. bools. unfold encode_heartbeat, decode_heartbeat.
  exists ([byte_of 0] ++ [byte_of (period_seconds h)] ++ [byte_of (warning_count h)] ++ [byte_of (reconnect_count h)]).
  split_and!; [repeat wstep|done|]. intros k. do 4 rstep. apply reads_ret. by destruct h.
Qed.

(** ** The claims *)

(** the auto-detect codec is exact in both directions.  [decode_request] and
    [decode_response] succeed on a reader if and only if what is in front of them
    is the encoding of the message they return, a message whose fields have their
    widths and whose types and payloads are the protocol's; the encoder of such a
    message trips no assertion.  Hence every message of the protocol reads back,
    whatever follows it, and no two byte sequences decode to one message.  A
    Heartbeat with 8-bit fields reads back as well (its reserved octet is not
    looked at). *)
Theorem autodetect_codec_exact (r r' : Reader.t) (request : Request) (response : Response) (h : Heartbeat) :
  (decode_request r = Ok (request, r') <->
   request_ok request = true /\ exists e, Writer.run (encode_request request) = Some e /\ took r e r') /\
  (decode_response r = Ok (response, r') <->
   response_ok response = true /\ exists e, Writer.run (encode_response response) = Some e /\ took r e r') /\
  (heartbeat_ok h = true ->
   exists e, Writer.run (encode_heartbeat h) = Some e /\
             decode_heartbeat (Reader.make e 0) = Ok (h, Reader.mk e [] 0)).
Proof.
  split_and!.
  - split.
    + intros [Hok T]%decode_request_inv. split; [done|]. eexists. split; [by apply writes_run, ad_writes_request|done].
    + intros (Hok & e & We & T). rewrite (writes_run _ _ (ad_writes_request _ Hok)) in We. injection We as <-.
      destruct (reads_took _ _ _ _ _ _ (ad_reads_request request _ Hok) T eq_refl) as (m & Hm & <-). done.
  - split.
    + intros [Hok T]%decode_response_inv. split; [done|]. eexists. split; [by apply writes_run, writes_response|done].
    + intros (Hok & e & We & T). rewrite (writes_run _ _ (writes_response _)) in We. injection We as <-.
      destruct (reads_took _ _ _ _ _ _ (reads_response response _ Hok) T eq_refl) as (m & Hm & <-). done.
  - intros Hok. eapply encodes_run. by apply heartbeat_encodes.
Qed.

(** A response with two bytes behind it, a request, and a heartbeat. *)
Definition sample_result : Request := NetworkResult (mkResult 9 (Some 20) None 25).
Definition sample_input : Reader.t := Reader.make (response_bytes (RttResponse 7) ++ [byte_of 1; byte_of 2]) 0.
Definition sample_rest : Reader.t := Reader.mk (response_bytes (RttResponse 7)) [byte_of 1; byte_of 2] 0.

Lemma autodetect_codec_exact_witness :
  decode_response sample_input = Ok (RttResponse 7, sample_rest) /\
  exists e, Writer.run (encode_heartbeat (mkHeartbeat 5 3 4)) = Some e /\
            decode_heartbeat (Reader.make e 0) = Ok (mkHeartbeat 5 3 4, Reader.mk e [] 0).
Proof.
  destruct (autodetect_codec_exact sample_input sample_rest sample_result (RttResponse 7) (mkHeartbeat 5 3 4))
    as (_ & [_ Hdec] & Hbeat).
  split; [|apply Hbeat; reflexivity].
  apply Hdec. split; [reflexivity|]. exists (response_bytes (RttResponse 7)).
  split; [reflexivity|split; reflexivity].
Defined.

End AutodetectCodec.
