(* ===== verification/AutoDetect.v ===== *)
(** * Network characteristics detection

    Models [src/src/farland/server/autodetect.hpp] and [autodetect.cpp]: the
    schedule of auto-detect requests and the estimates made of the client's
    answers.  As in [FrameScheduler], time points and durations are integers of
    nanoseconds; [Clock::time_point::min()] is [time_min].  The log calls are
    left out.  The spans of [start_connect_time] are the bytes they point to,
    which nothing changes before the next [start_connect_time]. *)

From S2P Require Import Prelude Buffers CodecLogic AutodetectCodec.
From Stdlib Require Import Sorting.Sorted.
Open Scope Z_scope.

Module AutoDetect.

Definition time_min : Z := - 2 ^ 63.

Record NetworkEstimate := mkEstimate {
  rtt : option Z;
  jitter : Z;
  last_rtt : option Z;
  base_rtt : option Z;
  unanswered : Z;
  bandwidth_kbps : option Z;
  last_bandwidth_kbps : option Z;
  bandwidth_at : option Z;
  rtt_samples : Z;
  bandwidth_samples : Z }.

Definition no_estimate : NetworkEstimate := mkEstimate None 0 None None 0 None None None 0 0.

Record Config := mkConfig {
  rtt_interval : Z;
  rtt_timeout : Z;
  max_unanswered_probes : Z;
  base_rtt_window : Z;
  connect_time_bytes : Z;
  connect_time_timeout : Z;
  bandwidth_interval : Z;
  min_burst_bytes : Z }.

Definition default_config : Config :=
  mkConfig 1000000000 5000000000 5 120 (64 * 1024) 2000000000 2000000000 (32 * 1024).

Record Probe := mkProbe { probe_sequence : Z; sent : Z }.

Record t := mk {
  config_ : Config;
  estimate_ : NetworkEstimate;
  sequence_ : Z;
  probes_ : list Probe;
  recent_rtt_ : list Z;
  last_probe_ : option Z;
  probes_lost_ : Z;
  probing_ : bool;
  payload_ : list byte;
  connect_time_started_ : option Z;
  connect_time_rtt_ : bool;
  connect_time_bandwidth_ : bool;
  bandwidth_sequence_ : option Z;
  bandwidth_response_type_ : Z;
  last_bandwidth_measurement_ : option Z }.

(** Assignments to one member. *)
Definition with_estimate (s : t) v := mk (config_ s) v (sequence_ s) (probes_ s) (recent_rtt_ s) (last_probe_ s)
  (probes_lost_ s) (probing_ s) (payload_ s) (connect_time_started_ s) (connect_time_rtt_ s)
  (connect_time_bandwidth_ s) (bandwidth_sequence_ s) (bandwidth_response_type_ s) (last_bandwidth_measurement_ s).
Definition with_sequence (s : t) v := mk (config_ s) (estimate_ s) v (probes_ s) (recent_rtt_ s) (last_probe_ s)
  (probes_lost_ s) (probing_ s) (payload_ s) (connect_time_started_ s) (connect_time_rtt_ s)
  (connect_time_bandwidth_ s) (bandwidth_sequence_ s) (bandwidth_response_type_ s) (last_bandwidth_measurement_ s).
Definition with_probes (s : t) v := mk (config_ s) (estimate_ s) (sequence_ s) v (recent_rtt_ s) (last_probe_ s)
  (probes_lost_ s) (probing_ s) (payload_ s) (connect_time_started_ s) (connect_time_rtt_ s)
  (connect_time_bandwidth_ s) (bandwidth_sequence_ s) (bandwidth_response_type_ s) (last_bandwidth_measurement_ s).
Definition with_recent_rtt (s : t) v := mk (config_ s) (estimate_ s) (sequence_ s) (probes_ s) v (last_probe_ s)
  (probes_lost_ s) (probing_ s) (payload_ s) (connect_time_started_ s) (connect_time_rtt_ s)
  (connect_time_bandwidth_ s) (bandwidth_sequence_ s) (bandwidth_response_type_ s) (last_bandwidth_measurement_ s).
Definition with_last_probe (s : t) v := mk (config_ s) (estimate_ s) (sequence_ s) (probes_ s) (recent_rtt_ s) v
  (probes_lost_ s) (probing_ s) (payload_ s) (connect_time_started_ s) (connect_time_rtt_ s)
  (connect_time_bandwidth_ s) (bandwidth_sequence_ s) (bandwidth_response_type_ s) (last_bandwidth_measurement_ s).
Definition with_probing (s : t) lost v := mk (config_ s) (estimate_ s) (sequence_ s) (probes_ s) (recent_rtt_ s)
  (last_probe_ s) lost v (payload_ s) (connect_time_started_ s) (connect_time_rtt_ s)
  (connect_time_bandwidth_ s) (bandwidth_sequence_ s) (bandwidth_response_type_ s) (last_bandwidth_measurement_ s).
Definition with_connect_time (s : t) payload started got_rtt got_bandwidth := mk (config_ s) (estimate_ s) (sequence_ s)
  (probes_ s) (recent_rtt_ s) (last_probe_ s) (probes_lost_ s) (probing_ s) payload started got_rtt
  got_bandwidth (bandwidth_sequence_ s) (bandwidth_response_type_ s) (last_bandwidth_measurement_ s).
Definition with_bandwidth (s : t) seq type last := mk (config_ s) (estimate_ s) (sequence_ s) (probes_ s)
  (recent_rtt_ s) (last_probe_ s) (probes_lost_ s) (probing_ s) (payload_ s) (connect_time_started_ s)
  (connect_time_rtt_ s) (connect_time_bandwidth_ s) seq type last.

(** ** Payload and helpers *)

(** The xorshift step on [std::uint32_t]. *)
Definition xorshift (state : Z) : Z :=
  let state := Z.lxor state (wrap 32 (Z.shiftl state 13)) in
  let state := Z.lxor state (Z.shiftr state 17) in
  Z.lxor state (wrap 32 (Z.shiftl state 5)).

Fixpoint payload_loop (size : nat) (state : Z) : list byte :=
  match size with
  | O => []
  | S size' => let state := xorshift state in byte_of (Z.land state 0xFF) :: payload_loop size' state
  end.

Definition make_payload (size : Z) : list byte := payload_loop (Z.to_nat size) 0x9E3779B9.

(** [duration_cast] rounds towards zero. *)
Definition to_ms (d : Z) : Z :=
  let ms := Z.quot d 1000000 in
  if ms <? 0 then 0 else if 2 ^ 32 - 1 <? ms then 2 ^ 32 - 1 else ms.

Definition make (c : Config) : t :=
  mk (mkConfig (rtt_interval c) (rtt_timeout c) (Z.max (max_unanswered_probes c) 1) (Z.max (base_rtt_window c) 1)
               (connect_time_bytes c) (connect_time_timeout c) (bandwidth_interval c) (min_burst_bytes c))
     no_estimate 1 [] [] None 0 true [] None false false None 0 None.

(** Returns the old value: [sequence_++] on [std::uint16_t]. *)
Definition next_sequence (s : t) : Z * t := (sequence_ s, with_sequence s (wrap 16 (sequence_ s + 1))).

(** ** Connect time *)

(** [while (rest.size() > max_payload_size)], and the Stop after it.  Each
    iteration takes bytes off [rest]: its length is fuel enough. *)
Fixpoint burst_loop (fuel : nat) (sequence : Z) (rest : list byte) : list AutodetectCodec.Request :=
  if AutodetectCodec.max_payload_size <? len rest then
    match fuel with
    | O => []
    | S fuel' =>
        let n := Z.to_nat AutodetectCodec.max_payload_size in
        AutodetectCodec.BandwidthPayload sequence (take n rest) :: burst_loop fuel' sequence (drop n rest)
    end
  else [AutodetectCodec.BandwidthStop sequence AutodetectCodec.bw_stop_connect_time rest].

Definition start_connect_time (s : t) (now : Z) : list AutodetectCodec.Request * t :=
  let s := with_connect_time s (payload_ s) (Some now) (connect_time_rtt_ s) (connect_time_bandwidth_ s) in
  let (rtt, s) := next_sequence s in
  let s := with_probes s (probes_ s ++ [mkProbe rtt now]) in
  let (bandwidth, s) := next_sequence s in
  let s := with_bandwidth s (Some bandwidth) AutodetectCodec.bw_results_connect_time (last_bandwidth_measurement_ s) in
  let payload := make_payload (Z.max (connect_time_bytes (config_ s)) 1) in
  let s := with_connect_time s payload (connect_time_started_ s) (connect_time_rtt_ s) (connect_time_bandwidth_ s) in
  (AutodetectCodec.RttRequest rtt AutodetectCodec.rtt_connect_time
   :: AutodetectCodec.BandwidthStart bandwidth AutodetectCodec.bw_start_connect_time
   :: burst_loop (List.length payload) bandwidth payload, s).

Definition connect_time_complete (s : t) (now : Z) : bool :=
  match connect_time_started_ s with
  | None => true
  | Some started =>
      (connect_time_rtt_ s && connect_time_bandwidth_ s) || (connect_time_timeout (config_ s) <=? now - started)
  end.

Definition network_characteristics_result (s : t) : option AutodetectCodec.NetworkCharacteristicsResult * t :=
  let e := estimate_ s in
  if negb (bool_decide (is_Some (rtt e))) && negb (bool_decide (is_Some (bandwidth_kbps e))) then (None, s)
  else
    let (sequence, s) := next_sequence s in
    let base := to_ms <$> base_rtt e in
    let average := match rtt e with Some r => to_ms r | None => 0 end in
    if negb (bool_decide (is_Some base)) && negb (bool_decide (is_Some (bandwidth_kbps e))) then (None, s)
    else (Some (AutodetectCodec.mkResult sequence base (bandwidth_kbps e) average), s).

(** ** Continuous detection *)

(** The loop of [expire_probes] on [probes_] and [probes_lost_]. *)
Fixpoint expire_loop (timeout now : Z) (probes : list Probe) (lost : Z) : list Probe * Z :=
  match probes with
  | p :: probes' =>
      if timeout <=? now - sent p then expire_loop timeout now probes' (wrap 32 (lost + 1)) else (probes, lost)
  | [] => ([], lost)
  end.

Definition set_unanswered (e : NetworkEstimate) (v : Z) : NetworkEstimate :=
  mkEstimate (rtt e) (jitter e) (last_rtt e) (base_rtt e) v (bandwidth_kbps e) (last_bandwidth_kbps e)
             (bandwidth_at e) (rtt_samples e) (bandwidth_samples e).

Definition expire_probes (s : t) (now : Z) : t :=
  let (probes, lost) := expire_loop (rtt_timeout (config_ s)) now (probes_ s) (probes_lost_ s) in
  let s := with_probing (with_probes s probes) lost (probing_ s) in
  let s := if probing_ s && (rtt_samples (estimate_ s) =? 0) && (max_unanswered_probes (config_ s) <=? probes_lost_ s)
           then with_probing (with_probes s []) (probes_lost_ s) false else s in
  with_estimate s (set_unanswered (estimate_ s)
    (match probes_ s with
     | p :: _ => if 0 <? rtt_samples (estimate_ s) then now - sent p else 0
     | [] => 0
     end)).

Definition next_rtt_request (s : t) : option Z :=
  if negb (probing_ s) then None
  else match last_probe_ s with
       | None => Some time_min
       | Some l => Some (l + rtt_interval (config_ s))
       end.

(** The [RttRequest] is its sequence; its type is [rtt_continuous]. *)
Definition poll_rtt_request (s : t) (now : Z) : option AutodetectCodec.Request * t :=
  let s := expire_probes s now in
  match next_rtt_request s with
  | None => (None, s)
  | Some next =>
      if now <? next then (None, s)
      else
        let s := with_last_probe s (Some now) in
        let (sequence, s) := next_sequence s in
        let s := with_probes s (probes_ s ++ [mkProbe sequence now]) in
        (Some (AutodetectCodec.RttRequest sequence AutodetectCodec.rtt_continuous), s)
  end.

Definition bandwidth_measurement_due (s : t) (now burst_bytes : Z) : bool :=
  if burst_bytes <? min_burst_bytes (config_ s) then false
  else match last_bandwidth_measurement_ s with
       | None => true
       | Some l =>
           let since := now - l in
           (bandwidth_interval (config_ s) <=? since) &&
           (negb (bool_decide (is_Some (bandwidth_sequence_ s))) || (rtt_timeout (config_ s) <=? since))
       end.

Definition start_bandwidth_measurement (s : t) (now : Z) : AutodetectCodec.Request * t :=
  let (sequence, s) := next_sequence s in
  (AutodetectCodec.BandwidthStart sequence AutodetectCodec.bw_start_continuous,
   with_bandwidth s (Some sequence) AutodetectCodec.bw_results_continuous (Some now)).

Definition stop_bandwidth_measurement (s : t) : AutodetectCodec.Request :=
  AutodetectCodec.BandwidthStop (default 0 (bandwidth_sequence_ s)) AutodetectCodec.bw_stop_continuous [].

(** ** Samples and responses *)

(** [*std::ranges::min_element], on a sequence that is not empty. *)
Definition min_element (l : list Z) : option Z :=
  match l with
  | [] => None
  | x :: l' => Some (fold_left (fun m y => if y <? m then y else m) l' x)
  end.

Definition push_recent (window : Z) (recent : list Z) (sample : Z) : list Z :=
  let recent := recent ++ [sample] in
  if window <? len recent then tail recent else recent.

Definition smooth_rtt (e : NetworkEstimate) (sample : Z) : Z * Z :=
  match rtt e with
  | None => (sample, Z.quot sample 2)
  | Some r =>
      let deviation := if r <? sample then sample - r else r - sample in
      (Z.quot (r * 7 + sample) 8, Z.quot (jitter e * 3 + deviation) 4)
  end.

Definition add_rtt_sample (s : t) (sample : Z) : t :=
  let sample := Z.max sample 0 in
  let e := estimate_ s in
  let (r, j) := smooth_rtt e sample in
  let recent := push_recent (base_rtt_window (config_ s)) (recent_rtt_ s) sample in
  with_estimate (with_recent_rtt s recent)
    (mkEstimate (Some r) j (Some sample) (min_element recent) (unanswered e) (bandwidth_kbps e)
                (last_bandwidth_kbps e) (bandwidth_at e) (wrap 64 (rtt_samples e + 1)) (bandwidth_samples e)).

Definition smooth_bandwidth (old : option Z) (kbps : Z) : Z :=
  match old with
  | None => kbps
  | Some b => if kbps <? b then wrap 32 ((b + kbps) / 2) else wrap 32 ((b * 3 + kbps) / 4)
  end.

Definition add_bandwidth_sample (s : t) (kbps now : Z) : t :=
  let e := estimate_ s in
  with_estimate s
    (mkEstimate (rtt e) (jitter e) (last_rtt e) (base_rtt e) (unanswered e)
                (Some (smooth_bandwidth (bandwidth_kbps e) kbps)) (Some kbps) (Some now)
                (rtt_samples e) (wrap 64 (bandwidth_samples e + 1))).

(** [std::ranges::find] by sequence, and the probes after the one found. *)
Fixpoint find_probe (probes : list Probe) (sequence : Z) : option (Probe * list Probe) :=
  match probes with
  | [] => None
  | p :: probes' => if probe_sequence p =? sequence then Some (p, probes') else find_probe probes' sequence
  end.

Definition on_rtt_response (s : t) (sequence now : Z) : t :=
  match find_probe (probes_ s) sequence with
  | None => s
  | Some (found, later) =>
      let connect_time := bool_decide (is_Some (connect_time_started_ s)) && negb (connect_time_rtt_ s) in
      let s := add_rtt_sample s (now - sent found) in
      let s := with_probes s later in
      let s := with_connect_time s (payload_ s) (connect_time_started_ s) (connect_time_rtt_ s || connect_time)
                                 (connect_time_bandwidth_ s) in
      expire_probes s now
  end.

(** kbit/s, as [std::uint64_t] and then capped to 32 bits. *)
Definition measured_kbps (byte_count time_delta_ms : Z) : Z :=
  Z.min (wrap 64 (byte_count * 8) / Z.max time_delta_ms 1) 0xFFFFFFFF.

Definition on_bandwidth_results (s : t) (sequence response_type time_delta_ms byte_count now : Z) : t :=
  match bandwidth_sequence_ s with
  | None => s
  | Some awaited =>
      if negb (sequence =? awaited) || negb (response_type =? bandwidth_response_type_ s) then s
      else
        let s := with_bandwidth s None (bandwidth_response_type_ s) (last_bandwidth_measurement_ s) in
        if response_type =? AutodetectCodec.bw_results_connect_time then
          let s := with_connect_time s (payload_ s) (connect_time_started_ s) (connect_time_rtt_ s) true in
          add_bandwidth_sample s (measured_kbps byte_count time_delta_ms) now
        else if byte_count <? min_burst_bytes (config_ s) / 2 then s
        else add_bandwidth_sample s (measured_kbps byte_count time_delta_ms) now
  end.

Definition on_sync (s : t) (kbps rtt_ms now : Z) : t :=
  let s := if bool_decide (is_Some (connect_time_started_ s)) && negb (connect_time_rtt_ s && connect_time_bandwidth_ s)
           then with_connect_time
                  (with_bandwidth (with_probes s []) None (bandwidth_response_type_ s) (last_bandwidth_measurement_ s))
                  (payload_ s) (connect_time_started_ s) true true
           else s in
  add_bandwidth_sample (add_rtt_sample s (rtt_ms * 1000000)) kbps now.

Definition on_response (s : t) (response : AutodetectCodec.Response) (now : Z) : t :=
  match response with
  | AutodetectCodec.RttResponse sequence => on_rtt_response s sequence now
  | AutodetectCodec.BandwidthResults sequence type time_delta_ms byte_count =>
      on_bandwidth_results s sequence type time_delta_ms byte_count now
  | AutodetectCodec.NetworkCharacteristicsSync _ kbps rtt_ms => on_sync s kbps rtt_ms now
  end.

(** ** Runs

    The calls [server::Connection] makes, each at the time it passes. *)

Inductive Op :=
  | StartConnectTime (now : Z)
  | ReportResult
  | Poll (now : Z)
  | StartBandwidth (now : Z)
  | Receive (response : AutodetectCodec.Response) (now : Z).

Definition step (s : t) (o : Op) : t :=
  match o with
  | StartConnectTime now => snd (start_connect_time s now)
  | ReportResult => snd (network_characteristics_result s)
  | Poll now => snd (poll_rtt_request s now)
  | StartBandwidth now => snd (start_bandwidth_measurement s now)
  | Receive response now => on_response s response now
  end.

Definition run (s : t) (ops : list Op) : t := fold_left step ops s.

(** What each operation of a run contributes to a log. *)
Fixpoint collect {A} (f : t -> Op -> list A) (s : t) (ops : list Op) : list A :=
  match ops with
  | [] => []
  | o :: ops' => f s o ++ collect f (step s o) ops'
  end.

Lemma run_ind_ok {A} (G : Op -> Prop) (f : t -> Op -> list A) (P : t -> list A -> Prop) s :
  P s [] -> (forall s l o, G o -> P s l -> P (step s o) (l ++ f s o)) ->
  forall ops, Forall G ops -> P (run s ops) (collect f s ops).
Proof.
  intros H0 Hstep ops Hops.
  assert (forall s l, P s l -> P (run s ops) (l ++ collect f s ops)) as H.
  { clear H0 s. induction Hops as [|o ops Ho Hops IH]; intros s l Hl; cbn [collect run fold_left].
    - by rewrite app_nil_r.
    - rewrite app_assoc. by apply IH, Hstep. }
  exact (H s [] H0).
Qed.

Lemma run_ind {A} (f : t -> Op -> list A) (P : t -> list A -> Prop) s :
  P s [] -> (forall s l o, P s l -> P (step s o) (l ++ f s o)) ->
  forall ops, P (run s ops) (collect f s ops).
Proof.
  intros H0 Hstep ops. apply (run_ind_ok (fun _ => True)); [done|auto|]. by apply Forall_true.
Qed.

Lemma run_snoc s ops o : run s (ops ++ [o]) = step (run s ops) o.
Proof. unfold run. by rewrite fold_left_app. Qed.

Lemma collect_snoc {A} (f : t -> Op -> list A) s ops o :
  collect f s (ops ++ [o]) = collect f s ops ++ f (run s ops) o.
Proof.
  revert s. induction ops as [|o' ops IH]; intros s; cbn [collect app run fold_left].
  - by rewrite app_nil_r.
  - by rewrite IH, app_assoc.
Qed.

(** The RTT samples an operation takes: the age of the probe that is answered,
    or what a reconnecting client reports. *)
Definition rtt_sample (s : t) (o : Op) : list Z :=
  match o with
  | Receive (AutodetectCodec.RttResponse sequence) now =>
      match find_probe (probes_ s) sequence with
      | Some (found, _) => [Z.max (now - sent found) 0]
      | None => []
      end
  | Receive (AutodetectCodec.NetworkCharacteristicsSync _ _ rtt_ms) _ => [Z.max (rtt_ms * 1000000) 0]
  | _ => []
  end.

(** ** The round-trip estimate, as a function of the samples *)

Record RttView := mkView {
  v_rtt : option Z; v_jitter : Z; v_last : option Z; v_base : option Z; v_recent : list Z; v_count : Z }.

Definition view (s : t) : RttView :=
  let e := estimate_ s in mkView (rtt e) (jitter e) (last_rtt e) (base_rtt e) (recent_rtt_ s) (rtt_samples e).

Definition view_add (window : Z) (v : RttView) (x : Z) : RttView :=
  let recent := push_recent window (v_recent v) x in
  match v_rtt v with
  | None => mkView (Some x) (Z.quot x 2) (Some x) (min_element recent) recent (wrap 64 (v_count v + 1))
  | Some r => mkView (Some (Z.quot (r * 7 + x) 8)) (Z.quot (v_jitter v * 3 + Z.abs (x - r)) 4) (Some x)
                     (min_element recent) recent (wrap 64 (v_count v + 1))
  end.

Lemma view_add_rtt_sample s x :
  view (add_rtt_sample s x) = view_add (base_rtt_window (config_ s)) (view s) (Z.max x 0).
Proof.
  unfold add_rtt_sample, smooth_rtt, view_add, view. cbn [v_rtt v_recent v_count v_jitter].
  destruct (rtt (estimate_ s)) as [r|]; [|done]. cbn. do 3 f_equal.
  destruct (Z.ltb_spec r (Z.max x 0)); lia.
Qed.

(** The operations that leave the round-trip estimate alone. *)
Lemma view_expire s now : view (expire_probes s now) = view s.
Proof.
  unfold expire_probes. destruct (expire_loop _ _ _ _) as [ps lost]. cbn [probing_ with_probing with_probes].
  by destruct (_ && _).
Qed.

Lemma config_expire s now : config_ (expire_probes s now) = config_ s.
Proof.
  unfold expire_probes. destruct (expire_loop _ _ _ _) as [ps lost]. cbn [probing_ with_probing with_probes].
  by destruct (_ && _).
Qed.

Lemma config_step s o : config_ (step s o) = config_ s.
Proof.
  destruct o as [now| |now|now|r now]; cbn [step].
  - done.
  - unfold network_characteristics_result. destruct (_ && _); [done|]. cbn. by destruct (_ && _).
  - unfold poll_rtt_request. rewrite <- (config_expire s now). destruct (next_rtt_request _); [|done].
    by destruct (now <? z).
  - done.
  - destruct r as [q|q ty d c|q b r]; cbn [on_response].
    + unfold on_rtt_response. destruct (find_probe _ _) as [[p later]|]; [|done]. rewrite config_expire.
      cbn. unfold add_rtt_sample. by destruct (smooth_rtt _ _).
    + unfold on_bandwidth_results. destruct (bandwidth_sequence_ s); [|done].
      destruct (_ || _); [done|]. destruct (ty =? _); [done|]. by destruct (c <? _).
    + unfold on_sync, add_bandwidth_sample, add_rtt_sample. destruct (_ && _); cbn; by destruct (smooth_rtt _ _).
Qed.

Lemma view_step s o :
  view (step s o) = fold_left (view_add (base_rtt_window (config_ s))) (rtt_sample s o) (view s).
Proof.
  destruct o as [now| |now|now|r now]; cbn [step rtt_sample fold_left].
  - done.
  - unfold network_characteristics_result. destruct (_ && _); [done|]. cbn. by destruct (_ && _).
  - unfold poll_rtt_request. rewrite <- (view_expire s now). destruct (next_rtt_request _); [|done].
    by destruct (now <? z).
  - done.
  - destruct r as [q|q ty d c|q b r]; cbn [on_response].
    + unfold on_rtt_response. destruct (find_probe _ _) as [[p later]|]; [|done].
      rewrite view_expire. apply view_add_rtt_sample.
    + unfold on_bandwidth_results. destruct (bandwidth_sequence_ s); [|done].
      destruct (_ || _); [done|]. destruct (ty =? _); [done|]. by destruct (c <? _).
    + unfold on_sync. destruct (_ && _);
        match goal with |- view (add_bandwidth_sample ?a _ _) = _ => change (view a = fold_left (view_add
          (base_rtt_window (config_ s))) [Z.max (r * 1000000) 0] (view s)) end; by rewrite view_add_rtt_sample.
Qed.

Lemma view_run c ops :
  view (run (make c) ops) =
    fold_left (view_add (Z.max (base_rtt_window c) 1)) (collect rtt_sample (make c) ops) (view (make c)) /\
  config_ (run (make c) ops) = config_ (make c).
Proof.
  apply (run_ind rtt_sample (fun s ss => view s = fold_left (view_add (Z.max (base_rtt_window c) 1)) ss
           (view (make c)) /\ config_ s = config_ (make c))); [done|].
  intros s ss o [Hv Hc]. rewrite config_step, fold_left_app, <- Hv, view_step, Hc. done.
Qed.

(** The last [n] elements. *)
Definition lastn {A} (n : Z) (l : list A) : list A := drop (length l - Z.to_nat n) l.

Lemma push_recent_lastn w ss x : 1 <= w -> push_recent w (lastn w ss) x = lastn w (ss ++ [x]).
Proof.
  intros Hw. unfold push_recent, lastn, len. rewrite !length_app, length_drop. cbn [length].
  destruct (Z.ltb_spec w (Z.of_nat (length ss - (length ss - Z.to_nat w) + 1))).
  - rewrite <- drop_app_le by lia. change (@tail Z) with (fun l : list Z => drop 1 l). cbn beta.
    rewrite drop_drop. f_equal. lia.
  - rewrite <- drop_app_le by lia. f_equal. lia.
Qed.

(** Everything the estimate is expected to say of the samples [ss]. *)
Record rtt_spec (window : Z) (ss : list Z) (v : RttView) : Prop := {
  spec_samples : Forall (fun x => 0 <= x) ss;
  spec_none : ss = [] -> v_rtt v = None /\ v_base v = None /\ v_last v = None;
  spec_rtt : forall lo hi, ss <> [] -> Forall (fun x => lo <= x <= hi) ss ->
    exists r, v_rtt v = Some r /\ lo <= r <= hi /\ 0 <= v_jitter v <= hi;
  spec_base : ss <> [] -> exists b, v_base v = Some b /\ b ∈ lastn window ss /\ Forall (fun x => b <= x) (lastn window ss);
  spec_last : ss <> [] -> v_last v = last ss;
  spec_count : v_count v = wrap 64 (len ss) }.

Lemma fold_min_spec l x :
  let m := fold_left (fun m y => if y <? m then y else m) l x in m ∈ x :: l /\ Forall (fun y => m <= y) (x :: l).
Proof.
  revert x. induction l as [|y l IH]; intros x; cbn [fold_left].
  - split; [by constructor|]. repeat constructor. lia.
  - cbn zeta. destruct (IH (if y <? x then y else x)) as [Hin Hall]. inversion_clear Hall as [|? ? Hh Ht].
    split.
    + apply elem_of_cons in Hin as [->|Hin]; [|by do 2 constructor].
      destruct (y <? x); [right; left|left].
    + repeat constructor; [..|done]; destruct (Z.ltb_spec y x); lia.
Qed.

Lemma min_element_spec l :
  l <> [] -> exists b, min_element l = Some b /\ b ∈ l /\ Forall (fun x => b <= x) l.
Proof. destruct l as [|x l]; [done|]. intros _. eexists. split; [done|]. apply fold_min_spec. Qed.

Lemma lastn_nonempty {A} w (l : list A) x : 1 <= w -> lastn w (l ++ [x]) <> [].
Proof.
  intros Hw H. apply (f_equal length) in H. unfold lastn in H. rewrite length_drop, length_app in H. cbn in H. lia.
Qed.

Definition empty_view : RttView := mkView None 0 None None [] 0.

Lemma view_add_spec w v ss x :
  1 <= w -> 0 <= x -> v_recent v = lastn w ss -> rtt_spec w ss v ->
  v_recent (view_add w v x) = lastn w (ss ++ [x]) /\ rtt_spec w (ss ++ [x]) (view_add w v x).
Proof.
  intros Hw Hx Hrec [Hpos Hnone Hrtt Hbase Hlast Hcount].
  assert (v_base (view_add w v x) = min_element (lastn w (ss ++ [x])) /\
          v_recent (view_add w v x) = lastn w (ss ++ [x]) /\ v_last (view_add w v x) = Some x /\
          v_count (view_add w v x) = wrap 64 (len (ss ++ [x]))) as (Eb & Er & El & Ec).
  { assert (wrap 64 (v_count v + 1) = wrap 64 (len (ss ++ [x]))) as E.
    { rewrite Hcount. unfold wrap. rewrite Zplus_mod_idemp_l. f_equal. len_lia. }
    unfold view_add. destruct (v_rtt v); cbn; by rewrite Hrec, push_recent_lastn. }
  split; [done|]. split.
  - apply Forall_app. by repeat constructor.
  - by destruct ss.
  - intros lo hi _ [H1 H2]%Forall_app. inversion_clear H2 as [|? ? Hr _].
    unfold view_add. destruct ss as [|y ss].
    + destruct Hnone as (-> & _); [done|]. cbn. exists x. split_and!; [done|lia..].
    + destruct (Hrtt lo hi) as (r & Er' & Hr' & Hj); [done..|].
      destruct (Hrtt 0 hi) as (r0 & E0 & Hr0 & _); [done|..].
      { revert H1 Hpos. rewrite !Forall_forall. intros H1 H2 z Hz. specialize (H1 z Hz). specialize (H2 z Hz). lia. }
      simplify_eq. rewrite Er'. cbn. eexists. split_and!; [done|lia..].
  - intros _. rewrite Eb. apply min_element_spec, lastn_nonempty, Hw.
  - intros _. by rewrite El, last_snoc.
  - done.
Qed.

Lemma view_fold_spec w ss :
  1 <= w -> Forall (fun x => 0 <= x) ss ->
  let v := fold_left (view_add w) ss empty_view in v_recent v = lastn w ss /\ rtt_spec w ss v.
Proof.
  intros Hw. induction ss as [|x ss IH] using rev_ind.
  - intros _. split; [done|]. by split.
  - intros [H1 H2]%Forall_app. inversion_clear H2. cbn zeta. rewrite fold_left_app. cbn [fold_left].
    destruct (IH H1). by apply view_add_spec.
Qed.

Lemma rtt_samples_nonneg s ops : Forall (fun x => 0 <= x) (collect rtt_sample s ops).
Proof.
  apply (run_ind rtt_sample (fun _ ss => Forall (fun x => 0 <= x) ss)); [constructor|].
  intros s' ss o H. apply Forall_app. split; [done|].
  destruct o as [ | | | |[q|q ty d c|q b r] now]; cbn; repeat constructor; try lia.
  destruct (find_probe _ _) as [[p l]|]; repeat constructor. lia.
Qed.

(** ** Bandwidth *)

(** The bandwidth samples an operation takes. *)
Definition bandwidth_sample (s : t) (o : Op) : list Z :=
  match o with
  | Receive (AutodetectCodec.BandwidthResults sequence type time_delta_ms byte_count) _ =>
      if bool_decide (bandwidth_sequence_ s = Some sequence) && (type =? bandwidth_response_type_ s) &&
         ((type =? AutodetectCodec.bw_results_connect_time) || (min_burst_bytes (config_ s) / 2 <=? byte_count))
      then [measured_kbps byte_count time_delta_ms] else []
  | Receive (AutodetectCodec.NetworkCharacteristicsSync _ kbps _) _ => [kbps]
  | _ => []
  end.

Definition bandwidth_view (s : t) : option Z * option Z :=
  (AutoDetect.bandwidth_kbps (estimate_ s), last_bandwidth_kbps (estimate_ s)).

Definition bandwidth_add (v : option Z * option Z) (x : Z) : option Z * option Z :=
  (Some (smooth_bandwidth (fst v) x), Some x).

Lemma bandwidth_expire s now : bandwidth_view (expire_probes s now) = bandwidth_view s.
Proof.
  unfold expire_probes. destruct (expire_loop _ _ _ _) as [ps lost]. cbn [probing_ with_probing with_probes].
  by destruct (_ && _).
Qed.

Lemma bandwidth_add_rtt s x : bandwidth_view (add_rtt_sample s x) = bandwidth_view s.
Proof. unfold add_rtt_sample. by destruct (smooth_rtt _ _). Qed.

Lemma bandwidth_step s o :
  bandwidth_view (step s o) = fold_left bandwidth_add (bandwidth_sample s o) (bandwidth_view s).
Proof.
  destruct o as [now| |now|now|r now]; cbn [step bandwidth_sample fold_left].
  - done.
  - unfold network_characteristics_result. destruct (_ && _); [done|]. cbn. by destruct (_ && _).
  - unfold poll_rtt_request. rewrite <- (bandwidth_expire s now). destruct (next_rtt_request _); [|done].
    by destruct (now <? z).
  - done.
  - destruct r as [q|q ty d c|q b r]; cbn [on_response].
    + unfold on_rtt_response. destruct (find_probe _ _) as [[p later]|]; [|done].
      rewrite bandwidth_expire. apply bandwidth_add_rtt.
    + unfold on_bandwidth_results. destruct (bandwidth_sequence_ s) as [a|]; [|done].
      destruct (Z.eqb_spec q a) as [->|Hne]; cbn [negb orb].
      * rewrite bool_decide_true by done. destruct (ty =? bandwidth_response_type_ s); [|done]. cbn [negb andb].
        destruct (ty =? _); [done|]. cbn [orb config_ with_bandwidth]. rewrite Z.leb_antisym.
        by destruct (c <? _).
      * by rewrite bool_decide_false by naive_solver.
    + unfold on_sync. destruct (_ && _);
        match goal with |- bandwidth_view (add_bandwidth_sample ?a _ _) = _ =>
          change (bandwidth_add (bandwidth_view a) b = bandwidth_add (bandwidth_view s) b) end;
        by rewrite bandwidth_add_rtt.
Qed.

(** What the decoder hands over has fields of their widths. *)
Definition op_ok (o : Op) : bool :=
  match o with Receive r _ => AutodetectCodec.response_ok r | _ => true end.

Lemma measured_kbps_range c d : 0 <= c < 2 ^ 32 -> 0 <= d -> 0 <= measured_kbps c d < 2 ^ 32.
Proof.
  intros Hc Hd. unfold measured_kbps, wrap. rewrite Z.mod_small by lia.
  assert (0 <= c * 8 / Z.max d 1) by (apply Z.div_pos; lia). lia.
Qed.

Lemma bandwidth_sample_range s o :
  op_ok o = true -> Forall (fun x => 0 <= x < 2 ^ 32) (bandwidth_sample s o).
Proof.
  destruct o as [ | | | |[q|q ty d c|q b r] now]; cbn [op_ok bandwidth_sample AutodetectCodec.response_ok];
    intros H; [constructor..| |].
  - apply andb_prop in H as [H Hc]. apply andb_prop in H as [_ Hd]. unfold AutodetectCodec.u32 in *. bools.
    destruct (bool_decide _ && _ && _); [|constructor]. apply Forall_singleton, measured_kbps_range; lia.
  - apply andb_prop in H as [H _]. unfold AutodetectCodec.u32 in *. bools. apply Forall_singleton. lia.
Qed.

Record bandwidth_spec (ss : list Z) (v : option Z * option Z) : Prop := {
  bw_samples : Forall (fun x => 0 <= x < 2 ^ 32) ss;
  bw_none : ss = [] -> v = (None, None);
  bw_range : forall lo hi, ss <> [] -> Forall (fun x => lo <= x <= hi) ss ->
    exists b, fst v = Some b /\ lo <= b <= hi;
  bw_last : ss <> [] -> snd v = last ss }.

Lemma bandwidth_add_spec ss v x :
  0 <= x < 2 ^ 32 -> bandwidth_spec ss v -> bandwidth_spec (ss ++ [x]) (bandwidth_add v x).
Proof.
  intros Hx [Hs Hn Hr Hl]. split.
  - apply Forall_app. split; [done|by apply Forall_singleton].
  - by destruct ss.
  - intros lo hi _ [H1 H2]%Forall_app. inversion_clear H2 as [|? ? Hx' _].
    cbn. eexists. split; [done|]. destruct ss as [|y ss]; [by rewrite Hn by done|].
    destruct (Hr lo hi) as (b & Eb & Hb); [done..|].
    destruct (Hr 0 (2 ^ 32 - 1)) as (b' & E & Hb'); [done|..].
    { eapply Forall_impl; [exact Hs|]. intros z Hz. cbn beta in *. lia. }
    simplify_eq. rewrite Eb. unfold smooth_bandwidth, wrap.
    destruct (x <? b); rewrite Z.mod_small; lia.
  - intros _. by rewrite last_snoc.
Qed.

Lemma bandwidth_run c ops :
  Forall (fun o => op_ok o = true) ops ->
  bandwidth_spec (collect bandwidth_sample (make c) ops) (bandwidth_view (run (make c) ops)).
Proof.
  apply (run_ind_ok _ bandwidth_sample (fun s ss => bandwidth_spec ss (bandwidth_view s))); [by split|].
  intros s ss o Ho H. rewrite bandwidth_step. pose proof (bandwidth_sample_range s o Ho) as Hr.
  revert ss H. generalize (bandwidth_view s). induction Hr as [|x xs Hx _ IH]; intros v ss H; cbn [fold_left].
  - by rewrite app_nil_r.
  - change (x :: xs) with ([x] ++ xs). rewrite app_assoc. by apply IH, bandwidth_add_spec.
Qed.

(** ** Probes and measurements accounted for *)

(** The RTT requests an operation sends. *)
Definition probe_requests (s : t) (o : Op) : list AutodetectCodec.Request :=
  match o with
  | StartConnectTime now => take 1 (fst (start_connect_time s now))
  | Poll now => match fst (poll_rtt_request s now) with Some r => [r] | None => [] end
  | _ => []
  end.

(** The bandwidth measurements an operation starts. *)
Definition measurement_requests (s : t) (o : Op) : list unit :=
  match o with StartConnectTime _ | StartBandwidth _ => [tt] | _ => [] end.

(** A client's report of what it measured in an earlier connection. *)
Definition syncs (s : t) (o : Op) : list unit :=
  match o with Receive (AutodetectCodec.NetworkCharacteristicsSync _ _ _) _ => [tt] | _ => [] end.

Definition awaiting (s : t) : Z := match bandwidth_sequence_ s with Some _ => 1 | None => 0 end.

(** [expire_loop] drops probes from the front, [find_probe] one and those before it. *)
Lemma probe_loop_suffix timeout now ps lost :
  exists dead, ps = dead ++ fst (expire_loop timeout now ps lost).
Proof.
  revert lost. induction ps as [|p ps IH]; intros lost; cbn [expire_loop]; [by exists []|].
  destruct (timeout <=? now - sent p); [|by exists []].
  destruct (IH (wrap 32 (lost + 1))) as [dead Hd]. exists (p :: dead). cbn. by f_equal.
Qed.

Lemma find_probe_suffix ps q p later :
  find_probe ps q = Some (p, later) -> exists dead, ps = dead ++ p :: later.
Proof.
  induction ps as [|x ps IH]; cbn [find_probe]; [done|]. destruct (_ =? _).
  - intros [= -> ->]. by exists [].
  - intros [dead ->]%IH. by exists (x :: dead).
Qed.

Lemma probes_expire s now : exists dead, probes_ s = dead ++ probes_ (expire_probes s now).
Proof.
  unfold expire_probes. destruct (probe_loop_suffix (rtt_timeout (config_ s)) now (probes_ s) (probes_lost_ s)) as [dead Hd].
  destruct (expire_loop _ _ _ _) as [ps lost]. cbn [fst] in Hd. cbn [probing_ with_probing with_probes].
  destruct (_ && _); cbn; [|by exists dead]. exists (probes_ s). by rewrite app_nil_r.
Qed.

Lemma len_probes_expire s now : len (probes_ (expire_probes s now)) <= len (probes_ s).
Proof. destruct (probes_expire s now) as [dead ->]. len_lia. Qed.

Lemma probes_add_rtt s x : probes_ (add_rtt_sample s x) = probes_ s.
Proof. unfold add_rtt_sample. by destruct (smooth_rtt _ _). Qed.

(** [flat] shows the members an operation left alone. *)
Ltac flat := cbn [snd fst probes_ bandwidth_sequence_ with_sequence with_probes with_bandwidth with_estimate
                  with_connect_time with_last_probe start_connect_time start_bandwidth_measurement
                  next_sequence add_bandwidth_sample take].

Lemma report_keeps s :
  probes_ (snd (network_characteristics_result s)) = probes_ s /\
  bandwidth_sequence_ (snd (network_characteristics_result s)) = bandwidth_sequence_ s.
Proof. unfold network_characteristics_result. destruct (_ && _); [done|]. flat. by destruct (_ && _). Qed.

Lemma probes_step s o :
  len (rtt_sample s o) + len (probes_ (step s o)) <= len (probes_ s) + len (probe_requests s o) + len (syncs s o).
Proof.
  destruct o as [now| |now|now|r now]; cbn [step rtt_sample syncs probe_requests].
  - flat. len_lia.
  - destruct (report_keeps s) as [-> ?]. len_lia.
  - unfold poll_rtt_request. pose proof (len_probes_expire s now). destruct (next_rtt_request _); [|flat; len_lia].
    destruct (now <? z); flat; len_lia.
  - flat. len_lia.
  - destruct r as [q|q ty d c|q b r]; cbn [on_response].
    + unfold on_rtt_response. destruct (find_probe _ _) as [[p later]|] eqn:E; [|len_lia].
      apply find_probe_suffix in E as [dead Ed].
      match goal with |- context [expire_probes ?a now] => pose proof (len_probes_expire a now) end.
      cbn [probes_ with_connect_time with_probes] in *. rewrite Ed. len_lia.
    + unfold on_bandwidth_results. destruct (bandwidth_sequence_ s); [|len_lia].
      destruct (_ || _); [len_lia|]. destruct (ty =? _); [flat; len_lia|]. destruct (c <? _); flat; len_lia.
    + unfold on_sync. destruct (_ && _); cbn [probes_ add_bandwidth_sample with_estimate];
        rewrite probes_add_rtt; flat; len_lia.
Qed.

Lemma bandwidth_sequence_expire s now : bandwidth_sequence_ (expire_probes s now) = bandwidth_sequence_ s.
Proof.
  unfold expire_probes. destruct (expire_loop _ _ _ _) as [ps lost]. cbn [probing_ with_probing with_probes].
  by destruct (_ && _).
Qed.

Lemma bandwidth_sequence_add_rtt s x : bandwidth_sequence_ (add_rtt_sample s x) = bandwidth_sequence_ s.
Proof. unfold add_rtt_sample. by destruct (smooth_rtt _ _). Qed.

Lemma measurements_step s o :
  len (bandwidth_sample s o) + awaiting (step s o) <= awaiting s + len (measurement_requests s o) + len (syncs s o).
Proof.
  unfold awaiting.
  destruct o as [now| |now|now|r now]; cbn [step bandwidth_sample syncs measurement_requests].
  - flat. destruct (bandwidth_sequence_ s); len_lia.
  - destruct (report_keeps s) as [? ->]. len_lia.
  - unfold poll_rtt_request. rewrite <- (bandwidth_sequence_expire s now). destruct (next_rtt_request _); [|flat; len_lia].
    destruct (now <? z); flat; len_lia.
  - flat. destruct (bandwidth_sequence_ s); len_lia.
  - destruct r as [q|q ty d c|q b r]; cbn [on_response].
    + unfold on_rtt_response. destruct (find_probe _ _) as [[p later]|] eqn:E; [|len_lia].
      rewrite bandwidth_sequence_expire. cbn [bandwidth_sequence_ with_connect_time with_probes].
      rewrite bandwidth_sequence_add_rtt. len_lia.
    + unfold on_bandwidth_results. destruct (bandwidth_sequence_ s) as [a|] eqn:Ea; [|by rewrite Ea].
      destruct (Z.eqb_spec q a) as [->|Hne]; cbn [negb orb].
      * rewrite bool_decide_true by done. destruct (ty =? bandwidth_response_type_ s); cbn [negb andb]; [|rewrite Ea; len_lia].
        destruct (ty =? _); [cbn [orb]; flat; len_lia|]. cbn [orb config_ with_bandwidth]. rewrite Z.leb_antisym.
        destruct (c <? _); cbn [negb]; flat; len_lia.
      * rewrite bool_decide_false by naive_solver. rewrite Ea. len_lia.
    + unfold on_sync. destruct (_ && _); cbn [bandwidth_sequence_ add_bandwidth_sample with_estimate];
        rewrite bandwidth_sequence_add_rtt; flat; destruct (bandwidth_sequence_ s); len_lia.
Qed.

(** ** The connect-time burst *)

Lemma burst_loop_spec q rest : forall fuel, (length rest <= fuel)%nat -> 0 < len rest ->
  exists ps stop,
    burst_loop fuel q rest =
      (AutodetectCodec.BandwidthPayload q <$> ps)
        ++ [AutodetectCodec.BandwidthStop q AutodetectCodec.bw_stop_connect_time stop] /\
    concat ps ++ stop = rest /\
    Forall (fun p => len p = AutodetectCodec.max_payload_size) ps /\
    0 < len stop <= AutodetectCodec.max_payload_size.
Proof.
  intros fuel. revert rest. induction fuel as [|fuel IH]; intros rest Hf Hr.
  - unfold len in Hr. lia.
  - cbn [burst_loop]. destruct (Z.ltb_spec AutodetectCodec.max_payload_size (len rest)) as [Hb|Hb].
    + set (n := Z.to_nat AutodetectCodec.max_payload_size).
      assert (Z.of_nat n = 15000) as Hn by done. unfold AutodetectCodec.max_payload_size in *. clearbody n.
      destruct (IH (drop n rest)) as (ps & stop & -> & Hc & Hp & Hs).
      * rewrite length_drop. unfold len in Hb. lia.
      * rewrite len_drop. lia.
      * exists (take n rest :: ps), stop. split_and!; [done| | |lia|lia].
        -- cbn [concat]. by rewrite <- app_assoc, Hc, take_drop.
        -- constructor; [rewrite len_take; lia|done].
    + exists [], rest. split_and!; [done..|constructor|lia|lia].
Qed.

Lemma len_payload_loop n state : len (payload_loop n state) = Z.of_nat n.
Proof. revert state. induction n as [|n IH]; intros state; [done|]. cbn [payload_loop]. rewrite len_cons, IH. lia. Qed.

Lemma len_make_payload n : 0 <= n -> len (make_payload n) = n.
Proof. intros H. unfold make_payload. rewrite len_payload_loop. lia. Qed.

(** A request of the protocol is written, in the bytes of its header and payload. *)
Lemma encoded_size (r : AutodetectCodec.Request) n :
  AutodetectCodec.request_ok r = true ->
  match r with
  | AutodetectCodec.BandwidthPayload _ p | AutodetectCodec.BandwidthStop _ _ p => len p <= n
  | _ => True
  end -> 0 <= n ->
  exists e, Writer.run (AutodetectCodec.encode_request r) = Some e /\ len e <= Z.max 18 (n + 8).
Proof.
  intros Hok Hn Hn0. exists (AutodetectCodec.request_bytes r).
  split; [by apply writes_run, AutodetectCodec.ad_writes_request|].
  destruct r as [q ty|q ty|q p|q ty p|[q [b|] [w|] a]];
    cbn [AutodetectCodec.request_bytes AutodetectCodec.base_rtt_ms AutodetectCodec.bandwidth_kbps
         AutodetectCodec.optional_bytes AutodetectCodec.average_rtt_ms];
    try case_bool_decide; unfold AutodetectCodec.header_bytes, AutodetectCodec.payload_bytes; len_lia.
Qed.

Lemma u16_wire q : 0 <= q < 2 ^ 16 -> AutodetectCodec.u16 q = true.
Proof. intros H. unfold AutodetectCodec.u16. apply andb_true_iff. lia. Qed.

Lemma burst_encodable q q' ps stop :
  0 <= q < 2 ^ 16 -> 0 <= q' < 2 ^ 16 ->
  Forall (fun p => len p = AutodetectCodec.max_payload_size) ps -> 0 < len stop <= AutodetectCodec.max_payload_size ->
  Forall (fun r => exists e, Writer.run (AutodetectCodec.encode_request r) = Some e /\ len e <= 15008)
    (AutodetectCodec.RttRequest q AutodetectCodec.rtt_connect_time
     :: AutodetectCodec.BandwidthStart q' AutodetectCodec.bw_start_connect_time
     :: (AutodetectCodec.BandwidthPayload q' <$> ps)
     ++ [AutodetectCodec.BandwidthStop q' AutodetectCodec.bw_stop_connect_time stop]).
Proof.
  unfold AutodetectCodec.max_payload_size. intros Hq Hq' Hp Hs.
  apply u16_wire in Hq, Hq'. repeat apply Forall_cons_2; [| |apply Forall_app; split].
  1-2: apply (encoded_size _ 15000); cbn [AutodetectCodec.request_ok]; rewrite ?Hq, ?Hq'; done.
  - apply Forall_fmap. eapply Forall_impl; [exact Hp|]. intros p Hlen. cbn beta in *.
    apply (encoded_size _ 15000); [|cbn iota; lia|lia]. cbn [AutodetectCodec.request_ok]. rewrite Hq'. apply Z.leb_le. lia.
  - apply Forall_singleton, (encoded_size _ 15000); [|cbn iota; lia|lia]. cbn [AutodetectCodec.request_ok]. rewrite Hq'.
    rewrite bool_decide_false by (intros E; apply (f_equal len) in E; rewrite len_nil in E; lia). rewrite (proj2 (Z.leb_le _ _)) by lia. done.
Qed.

(** ** Outstanding probes

    A run as [server::Connection] makes it: the connect-time detection first, if
    at all, and time does not run backwards. *)

Definition time_after (now : Z) (o : Op) : Z :=
  match o with
  | StartConnectTime now' | Poll now' | StartBandwidth now' | Receive _ now' => now'
  | ReportResult => now
  end.

Definition starts (o : Op) : bool := match o with StartConnectTime _ => true | _ => false end.

Inductive timed : Z -> list Op -> Prop :=
  | timed_new now : timed now []
  | timed_connect now : timed now [StartConnectTime now]
  | timed_step now ops o :
      timed now ops -> starts o = false -> now <= time_after now o -> timed (time_after now o) (ops ++ [o]).

(** Consecutive continuous probes are an interval apart. *)
Definition apart (i : Z) (a b : Probe) : Prop := sent a + i <= sent b.

(** The probes of a timed run: at most one of the connect-time detection, then
    continuous ones, none younger than the last one sent, so few that the
    timeout covers them all. *)
Record spaced (c : Config) (now : Z) (probes : list Probe) (last : option Z) : Prop := mkSpaced {
  sp_split : exists pre cont, probes = pre ++ cont /\ len pre <= 1 /\
    len cont <= (rtt_timeout c - 1) / rtt_interval c + 1 /\
    StronglySorted (apart (rtt_interval c)) cont /\
    Forall (fun p => Forall (fun q => sent p <= sent q) cont) pre /\
    Forall (fun p => exists l, last = Some l /\ sent p <= l) cont;
  sp_sent : Forall (fun p => sent p <= now) probes;
  sp_last : match last with Some l => l <= now | None => True end }.

Lemma spaced_later c now now' ps last : spaced c now ps last -> now <= now' -> spaced c now' ps last.
Proof.
  intros [Hs Hn Hl] H. split; [done| |destruct last; lia].
  eapply Forall_impl; [exact Hn|]. intros p Hp. cbn beta in *. lia.
Qed.

Lemma StronglySorted_suffix {A} (R : A -> A -> Prop) l k : StronglySorted R (l ++ k) -> StronglySorted R k.
Proof. induction l as [|x l IH]; [done|]. intros H. apply IH. by inversion H. Qed.

(** Dropping probes from the front keeps the rest spaced. *)
Lemma spaced_suffix c now dead ps last : spaced c now (dead ++ ps) last -> spaced c now ps last.
Proof.
  intros [(pre & cont & E & Hp & Hc & Hs & Hle & Hl) Hn Hla]. apply Forall_app in Hn as [_ Hn].
  split; [|done|done].
  apply app_eq_app in E as (m & [[Ep Ec]|[Ed Er]]).
  - exists [], ps. subst. apply Forall_app in Hl as [_ Hl].
    split_and!; [done|done|len_lia|by eapply StronglySorted_suffix|constructor|done].
  - exists m, cont. subst. apply Forall_app in Hle as [_ Hle]. split_and!; try done. len_lia.
Qed.

Lemma spaced_nil c now last :
  0 < rtt_interval c -> 0 < rtt_timeout c -> match last with Some l => l <= now | None => True end ->
  spaced c now [] last.
Proof.
  intros Hi Ht Hl. split; [|constructor|done]. exists [], []. split_and!; try constructor; try done.
  rewrite len_nil. pose proof (Z.div_pos (rtt_timeout c - 1) (rtt_interval c)). lia.
Qed.

Lemma StronglySorted_snoc {A} (R : A -> A -> Prop) l x :
  StronglySorted R l -> Forall (fun y => R y x) l -> StronglySorted R (l ++ [x]).
Proof.
  induction 1 as [|y l Hl IH Hy]; intros H; cbn; [by repeat constructor|].
  inversion_clear H. constructor; [by apply IH|]. apply Forall_app. split; [done|by repeat constructor].
Qed.

(** So many probes an interval apart take so long. *)
Lemma apart_length i l : forall p hi,
  0 < i -> StronglySorted (apart i) (p :: l) -> Forall (fun q => sent q <= hi) (p :: l) -> sent p + i * len l <= hi.
Proof.
  induction l as [|q l IH]; intros p hi Hi Hs Hh.
  - inversion_clear Hh. rewrite len_nil. lia.
  - inversion_clear Hs as [|? ? Hs' Hq]. inversion_clear Hq as [|? ? Hpq _]. inversion_clear Hh.
    unfold apart in Hpq. pose proof (IH q hi Hi Hs' ltac:(done)). rewrite len_cons. lia.
Qed.

Definition fresh (c : Config) (now : Z) (probes : list Probe) : Prop :=
  match probes with p :: _ => now - sent p < rtt_timeout c | [] => True end.

Lemma fresh_length c now cont :
  0 < rtt_interval c -> 0 < rtt_timeout c -> fresh c now cont -> StronglySorted (apart (rtt_interval c)) cont ->
  Forall (fun p => sent p + rtt_interval c <= now) cont -> len cont <= (rtt_timeout c - 1) / rtt_interval c.
Proof.
  intros Hi Ht Hf Hs Hl. apply Z.div_le_lower_bound; [done|]. destruct cont as [|p cont]; [rewrite len_nil; lia|].
  cbn [fresh] in Hf. pose proof (apart_length _ _ p (now - rtt_interval c) Hi Hs) as H. rewrite len_cons.
  enough (Forall (fun q => sent q <= now - rtt_interval c) (p :: cont)) as Hh by (specialize (H Hh); lia).
  eapply Forall_impl; [exact Hl|]. intros q Hq. cbn beta in *. lia.
Qed.

Lemma spaced_push c now ps last q :
  0 < rtt_interval c -> 0 < rtt_timeout c -> spaced c now ps last -> fresh c now ps ->
  match last with Some l => l + rtt_interval c <= now | None => True end ->
  spaced c now (ps ++ [mkProbe q now]) (Some now).
Proof.
  intros Hi Ht [(pre & cont & -> & Hp & Hc & Hs & Hle & Hl) Hn Hla] Hf Hnext.
  assert (Forall (fun p => sent p + rtt_interval c <= now) cont) as Hold.
  { eapply Forall_impl; [exact Hl|]. intros p (l & -> & Hpl). cbn beta. lia. }
  split; [|apply Forall_app; split; [done|by apply Forall_singleton]|lia].
  exists pre, (cont ++ [mkProbe q now]). split_and!.
  - by rewrite app_assoc.
  - done.
  - rewrite len_app. enough (len cont <= (rtt_timeout c - 1) / rtt_interval c) by len_lia.
    apply (fresh_length c now); [done|done| |done|done].
    destruct pre as [|p pre]; [done|]. inversion_clear Hle as [|? ? Hpc _].
    destruct cont as [|p' cont]; [done|]. inversion_clear Hpc. cbn [fresh app] in *. lia.
  - by apply StronglySorted_snoc.
  - apply Forall_app in Hn as [Hn _]. apply Forall_forall. intros p Hin.
    apply Forall_app. split; [by eapply Forall_forall in Hle|].
    apply Forall_singleton. cbn. eapply Forall_forall in Hn; [exact Hn|done].
  - apply Forall_app. split.
    + eapply Forall_impl; [exact Hold|]. intros p Hpo. cbn beta in *. exists now. split; [done|lia].
    + apply Forall_singleton. exists now. cbn. split; [done|lia].
Qed.

Lemma expire_fresh s now : fresh (config_ s) now (probes_ (expire_probes s now)).
Proof.
  assert (forall ps lost, fresh (config_ s) now (fst (expire_loop (rtt_timeout (config_ s)) now ps lost))) as H.
  { induction ps as [|p ps IH]; intros lost; cbn [expire_loop]; [done|].
    destruct (Z.leb_spec (rtt_timeout (config_ s)) (now - sent p)); [apply IH|]. cbn. lia. }
  specialize (H (probes_ s) (probes_lost_ s)). unfold expire_probes.
  destruct (expire_loop _ _ _ _) as [ps lost]. cbn [probing_ with_probing with_probes]. by destruct (_ && _).
Qed.

Lemma last_probe_expire s now : last_probe_ (expire_probes s now) = last_probe_ s.
Proof.
  unfold expire_probes. destruct (expire_loop _ _ _ _) as [ps lost]. cbn [probing_ with_probing with_probes].
  by destruct (_ && _).
Qed.

Lemma last_probe_add_rtt s x : last_probe_ (add_rtt_sample s x) = last_probe_ s.
Proof. unfold add_rtt_sample. by destruct (smooth_rtt _ _). Qed.

(** Every operation but [Poll] drops probes from the front or leaves them alone. *)
Lemma other_steps s o :
  starts o = false -> match o with Poll _ => False | _ => True end ->
  last_probe_ (step s o) = last_probe_ s /\ exists dead, probes_ s = dead ++ probes_ (step s o).
Proof.
  destruct o as [now| |now|now|r now]; cbn [step starts]; intros Hst Hp; try done.
  - destruct (report_keeps s) as [-> _]. split; [|by exists []].
    unfold network_characteristics_result. destruct (_ && _); [done|]. cbn. by destruct (_ && _).
  - split; [done|by exists []].
  - destruct r as [q|q ty d c|q b r]; cbn [on_response].
    + unfold on_rtt_response. destruct (find_probe _ _) as [[p later]|] eqn:E; [|by split; [|exists []]].
      apply find_probe_suffix in E as [dead Ed]. rewrite last_probe_expire.
      cbn [last_probe_ with_connect_time with_probes]. rewrite last_probe_add_rtt. split; [done|].
      match goal with |- context [expire_probes ?a now] => destruct (probes_expire a now) as [dead' Ed'] end.
      cbn [probes_ with_connect_time with_probes] in Ed'.
      exists (dead ++ p :: dead'). rewrite Ed. rewrite Ed' at 1. by rewrite <- app_assoc.
    + unfold on_bandwidth_results. destruct (bandwidth_sequence_ s); [|by split; [|exists []]].
      destruct (_ || _); [by split; [|exists []]|].
      destruct (ty =? _); [by split; [|exists []]|]. destruct (c <? _); by split; [|exists []].
    + unfold on_sync, add_bandwidth_sample. cbn [last_probe_ probes_ with_estimate].
      rewrite last_probe_add_rtt, probes_add_rtt. destruct (_ && _); cbn; split; try done; [exists (probes_ s)|by exists []].
      by rewrite app_nil_r.
Qed.

Section Schedule.
Context (c : Config) (Hi : 0 < rtt_interval c) (Ht : 0 < rtt_timeout c).

Lemma spaced_step now s o :
  config_ s = c -> spaced c now (probes_ s) (last_probe_ s) -> starts o = false -> now <= time_after now o ->
  spaced c (time_after now o) (probes_ (step s o)) (last_probe_ (step s o)).
Proof using Hi Ht.
  intros Hc Hs Hst Hnow. apply (spaced_later _ _ _ _ _ Hs) in Hnow.
  destruct o as [now'| |now'|now'|r now']; try done; cbn [time_after] in *.
  1,3: lazymatch goal with |- context [step ?s0 ?o] =>
           destruct (other_steps s0 o eq_refl I) as [-> [dead Ed]]; revert Hnow; rewrite Ed; apply spaced_suffix
         end.
  cbn [step]. unfold poll_rtt_request.
  pose proof (expire_fresh s now') as Hf. destruct (probes_expire s now') as [dead Ed]. rewrite Ed in Hnow.
  apply spaced_suffix in Hnow. rewrite Hc in Hf. pose proof (last_probe_expire s now') as El.
  pose proof (config_expire s now') as Ec.
  set (s' := expire_probes s now') in *. unfold next_rtt_request.
  destruct (negb (probing_ s')); [by cbn; rewrite El|]. rewrite Ec, Hc.
  destruct (last_probe_ s') as [l|] eqn:E.
  - destruct (Z.ltb_spec now' (l + rtt_interval c)); [by cbn; rewrite E, El|]. flat. cbn.
    rewrite <- El in Hnow. apply (spaced_push c now' _ (Some l)); done.
  - destruct (Z.ltb_spec now' time_min); [by cbn; rewrite E, El|]. flat. cbn.
    rewrite <- El in Hnow. apply (spaced_push c now' _ None); done.
Qed.

End Schedule.

Lemma config_run c ops : config_ (run (make c) ops) = config_ (make c).
Proof. apply (view_run c ops). Qed.

Lemma spaced_run c now ops :
  0 < rtt_interval c -> 0 < rtt_timeout c -> timed now ops ->
  let s := run (make c) ops in spaced (config_ (make c)) now (probes_ s) (last_probe_ s).
Proof.
  intros Hi Ht H. induction H as [now|now|now ops o H IH Hst Hn]; cbn zeta in *.
  - by apply spaced_nil.
  - cbn. split; [|by apply Forall_singleton|done]. exists [mkProbe 1 now], []. split_and!; try done; try by repeat constructor.
    rewrite len_nil. cbn [config_ make rtt_timeout rtt_interval]. pose proof (Z.div_pos (rtt_timeout c - 1) (rtt_interval c)). lia.
  - rewrite run_snoc. apply spaced_step; [done|done|apply config_run|done..].
Qed.

Lemma spaced_bound c now ps last : spaced c now ps last -> len ps <= (rtt_timeout c - 1) / rtt_interval c + 2.
Proof. intros [(pre & cont & -> & ? & ? & _) _ _]. len_lia. Qed.

(** ** A client that never answers *)

Lemma expire_loop_count timeout now ps : forall lost,
  0 <= lost -> lost + len ps < 2 ^ 32 ->
  let '(rest, lost') := expire_loop timeout now ps lost in
  lost' + len rest = lost + len ps /\ lost <= lost'.
Proof.
  induction ps as [|p ps IH]; intros lost H0 H; cbn [expire_loop]; [lia|].
  destruct (timeout <=? now - sent p); [|lia]. rewrite len_cons in H. pose proof (len_nonneg ps).
  unfold wrap. rewrite Z.mod_small by lia. specialize (IH (lost + 1) ltac:(lia) ltac:(lia)).
  destruct (expire_loop _ _ _ _). rewrite len_cons. lia.
Qed.

(** After [n] RTT requests, while no sample was taken. *)
Record silent (c : Config) (n : Z) (s : t) : Prop := mkSilent {
  si_samples : rtt_samples (estimate_ s) = 0;
  si_probing : probing_ s = true ->
    n = probes_lost_ s + len (probes_ s) /\ 0 <= probes_lost_ s < max_unanswered_probes c;
  si_bound : n <= max_unanswered_probes c + (rtt_timeout c - 1) / rtt_interval c + 1 }.

Lemma silent_expire c n s now :
  config_ s = c -> silent c n s -> n < 2 ^ 32 -> silent c n (expire_probes s now).
Proof.
  intros Hc [Hs Hp Hb] Hn. unfold expire_probes.
  destruct (probing_ s) eqn:E.
  - destruct (Hp eq_refl) as [Hcount Hl].
    pose proof (expire_loop_count (rtt_timeout (config_ s)) now (probes_ s) (probes_lost_ s) ltac:(lia) ltac:(lia)) as H.
    destruct (expire_loop _ _ _ _) as [rest lost']. destruct H as [H1 H2].
    cbn [probing_ with_probing with_probes estimate_ probes_lost_ config_]. rewrite Hs, Z.eqb_refl. cbn [andb].
    destruct (Z.leb_spec (max_unanswered_probes (config_ s)) lost'); split; cbn; try done. rewrite Hc in *. lia.
  - destruct (expire_loop _ _ _ _) as [rest lost']. by split.
Qed.

Lemma silent_same c n s s' :
  rtt_samples (estimate_ s') = rtt_samples (estimate_ s) -> probing_ s' = probing_ s -> probes_lost_ s' = probes_lost_ s -> probes_ s' = probes_ s ->
  silent c n s -> silent c n s'.
Proof. intros E1 E2 E3 E4 [Hs Hp Hb]. split; [by rewrite E1|by rewrite E2, E3, E4|done]. Qed.

Lemma silent_step c n s o now :
  config_ s = c -> starts o = false -> rtt_sample s o = [] ->
  max_unanswered_probes c + (rtt_timeout c - 1) / rtt_interval c + 1 < 2 ^ 32 ->
  spaced c now (probes_ (step s o)) (last_probe_ (step s o)) ->
  silent c n s -> silent c (n + len (probe_requests s o)) (step s o).
Proof.
  intros Hc Hst Hno Hmax Hsp H. destruct o as [now'| |now'|now'|r now']; try done; cbn [probe_requests].
  - rewrite len_nil, Z.add_0_r. cbn [step]. unfold network_characteristics_result.
    destruct (_ && _); [done|]. flat. revert H. destruct (_ && _); by apply silent_same.
  - cbn [step] in *. apply (silent_expire c n s now' Hc) in H; [|destruct H; lia].
    revert Hsp. unfold poll_rtt_request. set (s' := expire_probes s now') in *.
    destruct (next_rtt_request s') as [next|] eqn:En; [|cbn; by rewrite len_nil, Z.add_0_r].
    destruct (now' <? next); [cbn; by rewrite len_nil, Z.add_0_r|].
    assert (probing_ s' = true) as Hp by (unfold next_rtt_request in En; by destruct (probing_ s')).
    destruct H as [Hs Hc' Hb]. destruct (Hc' Hp) as [Hn Hl]. intros Hsp%spaced_bound. flat.
    cbn [fst snd with_probes probes_ next_sequence with_last_probe with_sequence] in Hsp.
    rewrite len_app, len_cons, len_nil in Hsp. rewrite len_cons, len_nil.
    split; [done|intros _; cbn [probes_ probes_lost_ with_probes with_sequence with_last_probe]; len_lia|lia].
  - rewrite len_nil, Z.add_0_r. revert H. by apply silent_same.
  - rewrite len_nil, Z.add_0_r. destruct r as [q|q ty d b|q b r]; cbn [step on_response rtt_sample] in *.
    + unfold on_rtt_response. by destruct (find_probe _ _) as [[p later]|].
    + unfold on_bandwidth_results. destruct (bandwidth_sequence_ s); [|done].
      destruct (_ || _); [done|]. revert H. apply silent_same; destruct (ty =? _); try done; by destruct (b <? _).
    + done.
Qed.

Ltac sched := cbn [config_ make max_unanswered_probes rtt_timeout rtt_interval run fold_left step
                   probes_lost_ probes_ collect probe_requests start_connect_time next_sequence with_sequence
                   with_probes with_bandwidth with_connect_time fst snd take app length].

Lemma silent_run c now ops :
  let c' := config_ (make c) in
  0 < rtt_interval c -> 0 < rtt_timeout c ->
  max_unanswered_probes c' + (rtt_timeout c - 1) / rtt_interval c + 1 < 2 ^ 32 ->
  timed now ops -> collect rtt_sample (make c) ops = [] ->
  silent c' (len (collect probe_requests (make c) ops)) (run (make c) ops).
Proof.
  intros c' Hi Ht Hmax H. assert (0 <= (rtt_timeout c - 1) / rtt_interval c) as Hq by (apply Z.div_pos; lia).
  induction H as [now|now|now ops o H IH Hst Hn]; cbn zeta in *.
  - intros _. split; [done|intros _|]; unfold c', len; cbn [length Z.of_nat]; sched; lia.
  - intros _. split; [done|intros _|]; unfold c', len; cbn [length Z.of_nat]; sched; lia.
  - intros Hno. rewrite collect_snoc in Hno. apply app_eq_nil in Hno as [Hno Hno'].
    rewrite collect_snoc, run_snoc, len_app.
    apply (silent_step c' _ _ _ (time_after now o)); [apply config_run|done..| |by apply IH].
    rewrite <- run_snoc. by apply spaced_run, timed_step.
Qed.

(** ** A client that answered once *)

Lemma expire_keeps_probing s now :
  probing_ s = true -> 0 < rtt_samples (estimate_ s) -> probing_ (expire_probes s now) = true.
Proof.
  intros Hp Hs. unfold expire_probes. destruct (expire_loop _ _ _ _) as [ps lost].
  cbn [probing_ with_probing with_probes estimate_]. rewrite Hp.
  destruct (Z.eqb_spec (rtt_samples (estimate_ s)) 0); [lia|]. done.
Qed.

Lemma poll_keeps_probing s now :
  probing_ s = true -> 0 < rtt_samples (estimate_ s) -> probing_ (step s (Poll now)) = true.
Proof.
  intros Hp Hs. cbn [step]. unfold poll_rtt_request. pose proof (expire_keeps_probing s now Hp Hs).
  destruct (next_rtt_request _); [|done]. by destruct (now <? z).
Qed.

(** ** The claims *)

(** whatever the client answers and whenever, the round-trip estimate of the
    server is the one its samples call for: the smoothed RTT lies between the
    lowest and the highest sample and the deviation between zero and the highest,
    the base RTT is the minimum of the last [base_rtt_window] samples (and that
    window is all that is kept), the newest sample is reported as such, and no
    sample is negative.  Without samples nothing is reported. *)
Theorem rtt_estimate_sound (c : Config) (ops : list Op) :
  let s := run (make c) ops in
  let window := Z.max (base_rtt_window c) 1 in
  rtt_spec window (collect rtt_sample (make c) ops) (view s) /\ len (recent_rtt_ s) <= window.
Proof.
  intros s window. destruct (view_run c ops) as [Hv _].
  destruct (view_fold_spec window (collect rtt_sample (make c) ops)) as [Hr Hs]; [lia|apply rtt_samples_nonneg|].
  change (view (make c)) with empty_view in Hv. fold window in Hv. unfold s. rewrite Hv. split; [done|].
  change (recent_rtt_ (run (make c) ops)) with (v_recent (view (run (make c) ops))).
  rewrite Hv, Hr. unfold lastn, len. rewrite length_drop. lia.
Qed.

(** the bandwidth estimate stays between the lowest and the highest
    measurement, always a 32-bit number of kbit/s: the smoothing (half of a
    fall, a quarter of a rise) neither overflows nor drifts, and the newest
    measurement is reported as such. *)
Theorem bandwidth_estimate_sound (c : Config) (ops : list Op) :
  Forall (fun o => op_ok o = true) ops ->
  bandwidth_spec (collect bandwidth_sample (make c) ops) (bandwidth_view (run (make c) ops)).
Proof. apply bandwidth_run. Qed.

(** A connect-time burst that measured 8000 kbit/s, then a slower continuous one. *)
Definition sample_ops : list Op :=
  [StartConnectTime 0;
   Receive (AutodetectCodec.RttResponse 1) 12;
   Receive (AutodetectCodec.BandwidthResults 2 AutodetectCodec.bw_results_connect_time 20 20000) 25;
   StartBandwidth 100;
   Receive (AutodetectCodec.BandwidthResults 3 AutodetectCodec.bw_results_continuous 10 5000) 130].
Definition link_config : Config := mkConfig 10 50 3 4 64 20 20 1000.

Lemma bandwidth_estimate_sound_witness :
  bandwidth_spec [8000; 4000] (bandwidth_view (run (make link_config) sample_ops)).
Proof.
  assert (collect bandwidth_sample (make link_config) sample_ops = [8000; 4000]) as <- by (vm_compute; reflexivity).
  apply (bandwidth_estimate_sound link_config sample_ops).
  repeat constructor.
Defined.

(** the connect-time detection asks for one RTT and one bandwidth
    measurement, in this order: the probe, a Start, Payloads and a Stop.  The
    payload is cut without loss into blocks of 15000 bytes and a Stop that is not
    empty, every request is one the encoder writes without tripping an assertion,
    in at most 15008 bytes, and the probe and the measurement are what the
    answers are then matched with. *)
Theorem connect_time_burst (s : t) (now : Z) :
  0 <= sequence_ s < 2 ^ 16 ->
  let '(requests, s') := start_connect_time s now in
  let q := sequence_ s in
  let q' := wrap 16 (q + 1) in
  (exists ps stop,
    requests = AutodetectCodec.RttRequest q AutodetectCodec.rtt_connect_time
               :: AutodetectCodec.BandwidthStart q' AutodetectCodec.bw_start_connect_time
               :: (AutodetectCodec.BandwidthPayload q' <$> ps)
               ++ [AutodetectCodec.BandwidthStop q' AutodetectCodec.bw_stop_connect_time stop] /\
    concat ps ++ stop = payload_ s' /\ len (payload_ s') = Z.max (connect_time_bytes (config_ s)) 1 /\
    Forall (fun p => len p = AutodetectCodec.max_payload_size) ps /\
    0 < len stop <= AutodetectCodec.max_payload_size) /\
  Forall (fun r => exists e, Writer.run (AutodetectCodec.encode_request r) = Some e /\ len e <= 15008) requests /\
  probes_ s' = probes_ s ++ [mkProbe q now] /\
  bandwidth_sequence_ s' = Some q' /\ bandwidth_response_type_ s' = AutodetectCodec.bw_results_connect_time /\
  0 <= sequence_ s' < 2 ^ 16.
Proof.
  intros Hq. unfold start_connect_time, next_sequence. cbn [sequence_ with_sequence with_probes with_connect_time
    probes_ payload_ with_bandwidth bandwidth_sequence_ bandwidth_response_type_ config_].
  set (payload := make_payload _).
  assert (len payload = Z.max (connect_time_bytes (config_ s)) 1) as Hl by (apply len_make_payload; lia).
  destruct (burst_loop_spec (wrap 16 (sequence_ s + 1)) payload (length payload)) as (ps & stop & -> & Hc & Hp & Hs);
    [done|lia|].
  assert (0 <= wrap 16 (sequence_ s + 1) < 2 ^ 16) as Hq' by (apply Z.mod_pos_bound; lia).
  split_and!; [by exists ps, stop| |done..|apply Z.mod_pos_bound; lia|apply Z.mod_pos_bound; lia].
  by apply burst_encodable.
Qed.

Definition burst_config : Config := mkConfig 10 50 3 4 20000 20 20 1000.

Lemma connect_time_burst_witness :
  exists ps stop,
    fst (start_connect_time (make burst_config) 0) =
      AutodetectCodec.RttRequest 1 AutodetectCodec.rtt_connect_time
      :: AutodetectCodec.BandwidthStart 2 AutodetectCodec.bw_start_connect_time
      :: (AutodetectCodec.BandwidthPayload 2 <$> ps)
      ++ [AutodetectCodec.BandwidthStop 2 AutodetectCodec.bw_stop_connect_time stop] /\
    len (concat ps ++ stop) = 20000.
Proof.
  assert (0 <= sequence_ (make burst_config) < 2 ^ 16) as Hq by (cbn; lia).
  pose proof (connect_time_burst (make burst_config) 0 Hq) as H.
  destruct (start_connect_time (make burst_config) 0) as [requests s'].
  destruct H as ((ps & stop & Hr & Hc & Hl & _) & _). exists ps, stop. split; [exact Hr|].
  rewrite Hc. exact Hl.
Defined.

(** no answer counts twice.  In every run the RTT samples taken and the
    probes still waiting are at most the RTT requests sent, and the bandwidth
    samples at most the measurements started, each plus the Network
    Characteristics Syncs received: those are taken as they come, also after the
    connection sequence and without any request. *)
Theorem samples_accounted (c : Config) (ops : list Op) :
  let s := run (make c) ops in
  len (collect rtt_sample (make c) ops) + len (probes_ s)
    <= len (collect probe_requests (make c) ops) + len (collect syncs (make c) ops) /\
  len (collect bandwidth_sample (make c) ops) + awaiting s
    <= len (collect measurement_requests (make c) ops) + len (collect syncs (make c) ops).
Proof.
  induction ops as [|o ops IH] using rev_ind; [done|]. cbn zeta in *.
  rewrite !collect_snoc, run_snoc, !len_app.
  pose proof (probes_step (run (make c) ops) o). pose proof (measurements_step (run (make c) ops) o). lia.
Qed.

(** C37: the server never has more probes outstanding than fit into the timeout,
    one of the connect-time detection included, and a client that answers none is
    left alone: it is sent at most [max_unanswered_probes] probes more than can be
    outstanding at a time, however long the session lasts. *)
Theorem silent_client_left_alone (c : Config) (now : Z) (ops : list Op) :
  0 < rtt_interval c -> 0 < rtt_timeout c ->
  Z.max (max_unanswered_probes c) 1 + (rtt_timeout c - 1) / rtt_interval c + 1 < 2 ^ 32 ->
  timed now ops ->
  len (probes_ (run (make c) ops)) <= (rtt_timeout c - 1) / rtt_interval c + 2 /\
  (collect rtt_sample (make c) ops = [] ->
   len (collect probe_requests (make c) ops)
     <= Z.max (max_unanswered_probes c) 1 + (rtt_timeout c - 1) / rtt_interval c + 1).
Proof.
  intros Hi Ht Hmax H. split.
  - exact (spaced_bound _ _ _ _ (spaced_run c now ops Hi Ht H)).
  - intros Hno. exact (si_bound _ _ _ (silent_run c now ops Hi Ht Hmax H Hno)).
Qed.

(** A thousand polls of a client that answers nothing. *)
Definition silent_ops : list Op := (fun n => Poll (10 * Z.of_nat n)) <$> seq 0 1000.

Lemma timed_polls n : timed (10 * Z.of_nat n) ((fun n => Poll (10 * Z.of_nat n)) <$> seq 0 (S n)).
Proof.
  induction n as [|n IH].
  - exact (timed_step 0 [] (Poll 0) (timed_new 0) eq_refl ltac:(cbn; lia)).
  - rewrite seq_S, fmap_app. apply (timed_step (10 * Z.of_nat n) _ (Poll (10 * Z.of_nat (S n)))); [done|done|cbn; lia].
Qed.

Lemma silent_client_left_alone_witness :
  len (collect probe_requests (make link_config) silent_ops) <= 3 + 4 + 1 /\
  len (collect probe_requests (make link_config) silent_ops) = 7.
Proof.
  split; [|vm_compute; reflexivity].
  apply (silent_client_left_alone link_config (10 * Z.of_nat 999) silent_ops).
  - reflexivity.
  - reflexivity.
  - reflexivity.
  - exact (timed_polls 999).
  - vm_compute. reflexivity.
Defined.

(** probing stops only while no sample was ever taken.  Once the client
    answered a single probe, be it the one of the connect-time detection, any
    number of polls that it leaves unanswered keeps the probes coming: at the next
    due time [poll_rtt_request] has another one.  So a client that answers in the
    connection sequence and never after it, the case the comment in
    [expire_probes] describes, is asked for the whole session. *)
Theorem answered_once_probed_forever (s : t) (times : list Z) (now : Z) :
  probing_ s = true -> 0 < rtt_samples (estimate_ s) ->
  let s' := run s (Poll <$> times) in
  probing_ s' = true /\
  exists next, next_rtt_request s' = Some next /\
    (next <= now -> exists q, fst (poll_rtt_request s' now) =
                              Some (AutodetectCodec.RttRequest q AutodetectCodec.rtt_continuous)).
Proof.
  intros Hp Hs s'.
  assert (probing_ s' = true /\ 0 < rtt_samples (estimate_ s')) as [Hp' Hs'].
  { subst s'. revert s Hp Hs. induction times as [|x times IH]; intros s Hp Hs; [done|].
    cbn [fmap list_fmap run fold_left]. apply IH; [by apply poll_keeps_probing|].
    change (rtt_samples (estimate_ (step s (Poll x)))) with (v_count (view (step s (Poll x)))). by rewrite view_step. }
  split; [done|].
  assert (exists next, next_rtt_request s' = Some next) as [next Hn].
  { unfold next_rtt_request. rewrite Hp'. destruct (last_probe_ s'); by eexists. }
  exists next. split; [done|]. intros Hnow. unfold poll_rtt_request.
  assert (next_rtt_request (expire_probes s' now) = Some next) as ->.
  { rewrite <- Hn. unfold next_rtt_request.
    by rewrite config_expire, last_probe_expire, expire_keeps_probing, Hp' by done. }
  destruct (Z.ltb_spec now next); [lia|]. by eexists.
Qed.

(** The session of a client that answers the connect-time probe only. *)
Lemma answered_once_probed_forever_witness :
  let s := run (make link_config) [StartConnectTime 0; Receive (AutodetectCodec.RttResponse 1) 12] in
  exists q, fst (poll_rtt_request (run s (Poll <$> [20; 100; 200; 300; 400; 500; 600; 700; 800; 900])) 1000)
            = Some (AutodetectCodec.RttRequest q AutodetectCodec.rtt_continuous).
Proof.
  intros s.
  assert (probing_ s = true) as Hp by (vm_compute; reflexivity).
  assert (0 < rtt_samples (estimate_ s)) as Hs by (vm_compute; reflexivity).
  destruct (answered_once_probed_forever s [20; 100; 200; 300; 400; 500; 600; 700; 800; 900] 1000 Hp Hs)
    as (_ & next & Hn & Hpoll).
  apply Hpoll. assert (Some next = Some 910) as [= ->]; [|lia]. rewrite <- Hn. vm_compute. reflexivity.
Defined.

End AutoDetect.
