(* ===== verification/Machine.v ===== *)
(** * Member functions that can fail and abort

    The state monad in which a class of the program is written whose member
    functions change its state, return a [Result] and run encoders that assert:
    [None] is a failed assertion, and the state that a failing handler leaves
    behind is kept beside its error.  [wp] is the weakest precondition of such a
    function: that it trips no assertion is part of it.  No component of the
    program is modelled here. *)

From S2P Require Import Prelude Buffers CodecLogic.
Open Scope Z_scope.

Definition M (S A : Type) : Type := S -> option (Result A * S).

Definition mret {S A} (a : A) : M S A := fun s => Some (Ok a, s).
(** [return farland::fail(...)]. *)
Definition mfail {S A} (c : Errc) (w : string) (o : Z) : M S A := fun s => Some (fail c w o, s).
Definition mbind {S A B} (m : M S A) (f : A -> M S B) : M S B := fun s =>
  match m s with
  | Some (Ok a, s') => f a s'
  | Some (Err e, s') => Some (Err e, s')
  | None => None
  end.
Definition mget {S A} (f : S -> A) : M S A := fun s => Some (Ok (f s), s).
Definition mmod {S} (f : S -> S) : M S unit := fun s => Some (Ok tt, f s).
Definition massert {S} (b : bool) : M S unit := fun s => if b then Some (Ok tt, s) else None.
(** [FARLAND_TRY] of a [Result] computed without the state. *)
Definition mlift {S A} (r : Result A) : M S A := fun s => Some (r, s).
(** A decoder run on a reader: the value and the advanced reader. *)
Definition mread {S A} (p : Dec A) (r : Reader.t) : M S (A * Reader.t) := mlift (p r).
(** A [Result] that the caller looks at itself. *)
Definition mcatch {S A} (m : M S A) : M S (Result A) := fun s =>
  match m s with Some (r, s') => Some (Ok r, s') | None => None end.
(** A local [Writer] and its [view()]. *)
Definition mlocal {S} (m : Enc unit) : M S (list byte) := fun s =>
  match Writer.run m with Some bytes => Some (Ok bytes, s) | None => None end.

Notation "'let$' x ':=' m 'in' k" := (mbind m (fun x => k))
  (at level 10, x pattern, m at level 100, k at level 200,
   format "'[v' 'let$'  x  ':='  m  'in' '/' k ']'") : farland_scope.

(** ** Weakest preconditions *)

Definition wp {S A} (m : M S A) (s : S) (Q : Result A -> S -> Prop) : Prop :=
  exists r s', m s = Some (r, s') /\ Q r s'.

Section Rules.
Context {S : Type}.
Implicit Types s : S.

Lemma wp_ret {A} (a : A) s (Q : Result A -> S -> Prop) : Q (Ok a) s -> wp (mret a) s Q.
Proof. intros H. by exists (Ok a), s. Qed.

Lemma wp_fail {A} c w o s (Q : Result A -> S -> Prop) : Q (fail c w o) s -> wp (mfail c w o) s Q.
Proof. intros H. eexists _, s. split; [done|exact H]. Qed.

Lemma wp_bind {A B} (m : M S A) (f : A -> M S B) s Q :
  wp m s (fun r s' => match r with Ok a => wp (f a) s' Q | Err e => Q (Err e) s' end) -> wp (mbind m f) s Q.
Proof.
  intros (r & s' & Hm & H). unfold wp, mbind. rewrite Hm. destruct r as [a|e]; [exact H|eauto].
Qed.

Lemma wp_get {A} (f : S -> A) s (Q : Result A -> S -> Prop) : Q (Ok (f s)) s -> wp (mget f) s Q.
Proof. intros H. by exists (Ok (f s)), s. Qed.

Lemma wp_mod (f : S -> S) s (Q : Result unit -> S -> Prop) : Q (Ok tt) (f s) -> wp (mmod f) s Q.
Proof. intros H. by exists (Ok tt), (f s). Qed.

Lemma wp_assert b s (Q : Result unit -> S -> Prop) : b = true -> Q (Ok tt) s -> wp (massert b) s Q.
Proof. intros -> H. by exists (Ok tt), s. Qed.

Lemma wp_lift {A} (r : Result A) s (Q : Result A -> S -> Prop) : Q r s -> wp (mlift r) s Q.
Proof. intros H. by exists r, s. Qed.

Lemma wp_read {A} (p : Dec A) r s (Q : Result (A * Reader.t) -> S -> Prop) :
  (forall x, p r = x -> Q x s) -> wp (mread p r) s Q.
Proof. intros H. apply wp_lift. by apply H. Qed.

Lemma wp_local m e s (Q : Result (list byte) -> S -> Prop) : writes m e -> Q (Ok e) s -> wp (mlocal m) s Q.
Proof. intros W H. exists (Ok e), s. unfold mlocal. by rewrite (writes_run _ _ W). Qed.

Lemma wp_catch {A} (m : M S A) s (Q : Result (Result A) -> S -> Prop) :
  wp m s (fun r s' => Q (Ok r) s') -> wp (mcatch m) s Q.
Proof. intros (r & s' & Hm & H). exists (Ok r), s'. unfold mcatch. by rewrite Hm. Qed.

Lemma wp_mono {A} (m : M S A) s (P Q : Result A -> S -> Prop) :
  wp m s P -> (forall r s', P r s' -> Q r s') -> wp m s Q.
Proof. intros (r & s' & Hm & H) HPQ. exists r, s'. auto. Qed.

Lemma wp_run {A} (m : M S A) s r s' Q : wp m s Q -> m s = Some (r, s') -> Q r s'.
Proof. intros (r0 & s0 & Hm & H) E. rewrite Hm in E. by injection E as -> ->. Qed.
End Rules.

(** One step through a member function. *)
Ltac wp_step :=
  lazymatch goal with
  | |- wp (mbind _ _) _ _ => apply wp_bind; cbv beta iota
  | |- wp (mret _) _ _ => apply wp_ret
  | |- wp (mfail _ _ _) _ _ => apply wp_fail
  | |- wp (mget _) _ _ => apply wp_get
  | |- wp (mmod _) _ _ => apply wp_mod
  | |- wp (mcatch _) _ _ => apply wp_catch
  | |- wp (mread _ _) _ _ => apply wp_read; let E := fresh "E" in intros [[? ?]|?] E
  | |- wp (let '(_, _) := ?p in _) _ _ => destruct p
  end; cbv beta iota.
