(* ===== verification/Bits.v ===== *)
(** * Bit streams as lists of bits, most significant bit first

    The mathematics that the bit-oriented codecs share: numbers of [n] bits as
    lists, the value of a list, and the bits of a byte sequence.  No component of
    the program is modelled here. *)

From S2P Require Import Prelude.
Open Scope Z_scope.

(** The low [n] bits of [v]. *)
Fixpoint bits (n : nat) (v : Z) : list bool :=
  match n with
  | O => []
  | S n' => Z.testbit v (Z.of_nat n') :: bits n' v
  end.

(** The number a list of bits spells. *)
Definition val (l : list bool) : Z := fold_left (fun a b => 2 * a + Z.b2z b) l 0.

Definition bytes_bits (l : list byte) : list bool := concat ((fun b => bits 8 (u8_of b)) <$> l).

Lemma length_bits n v : length (bits n v) = n.
Proof. induction n as [|n IH]; [done|]. cbn [bits length]. by rewrite IH. Qed.

Lemma len_bits n v : len (bits n v) = Z.of_nat n.
Proof. unfold len. by rewrite length_bits. Qed.

#[export] Hint Rewrite len_bits : len.

Lemma fold_val l : forall a, fold_left (fun a b => 2 * a + Z.b2z b) l a = a * 2 ^ len l + val l.
Proof.
  unfold val. induction l as [|b l IH]; intros a; cbn [fold_left]; [rewrite len_nil, Z.pow_0_r; lia|].
  rewrite (IH (2 * a + Z.b2z b)), (IH (2 * 0 + Z.b2z b)), len_cons. pose proof (len_nonneg l).
  rewrite Z.pow_add_r by lia. lia.
Qed.

Lemma val_nil : val [] = 0.
Proof. done. Qed.

Lemma val_cons b l : val (b :: l) = Z.b2z b * 2 ^ len l + val l.
Proof. unfold val at 1. cbn [fold_left]. by rewrite fold_val. Qed.

Lemma val_app a b : val (a ++ b) = val a * 2 ^ len b + val b.
Proof. unfold val at 1. rewrite fold_left_app. by rewrite fold_val. Qed.

Lemma val_range l : 0 <= val l < 2 ^ len l.
Proof.
  induction l as [|b l IH]; [done|]. rewrite val_cons, len_cons. pose proof (len_nonneg l).
  rewrite Z.pow_add_r by lia. destruct b; cbn [Z.b2z]; lia.
Qed.

Lemma val_bits n v : val (bits n v) = v mod 2 ^ Z.of_nat n.
Proof.
  induction n as [|n IH]; [cbn; by rewrite Z.mod_1_r|]. cbn [bits]. rewrite val_cons, IH, len_bits.
  rewrite Nat2Z.inj_succ, Z.pow_succ_r by lia. rewrite Z.testbit_spec' by lia.
  rewrite (Z.mul_comm 2), Z.rem_mul_r by lia. lia.
Qed.

Lemma val_bits_small n v : 0 <= v < 2 ^ Z.of_nat n -> val (bits n v) = v.
Proof. intros H. rewrite val_bits. by apply Z.mod_small. Qed.

Lemma val_inj a : forall b, length a = length b -> val a = val b -> a = b.
Proof.
  induction a as [|x a IH]; intros [|y b] Hl Hv; try done.
  rewrite !val_cons in Hv. injection Hl as Hl. assert (len a = len b) as El by (unfold len; by rewrite Hl).
  pose proof (val_range a). pose proof (val_range b). rewrite El in *.
  destruct x, y; cbn [Z.b2z] in Hv; f_equal; try (apply IH; [done|lia]); lia.
Qed.

Lemma bits_val l : bits (length l) (val l) = l.
Proof.
  apply val_inj; [by rewrite length_bits|]. apply val_bits_small. apply val_range.
Qed.

Lemma bits_mod n v : bits n (v mod 2 ^ Z.of_nat n) = bits n v.
Proof.
  apply val_inj; [by rewrite !length_bits|]. rewrite !val_bits. apply Z.mod_mod. lia.
Qed.

Lemma bits_app n m v : bits (n + m) v = bits n (v / 2 ^ Z.of_nat m) ++ bits m v.
Proof.
  apply val_inj; [by rewrite length_app, !length_bits|].
  rewrite val_app, !val_bits, len_bits, Nat2Z.inj_add, Z.pow_add_r by lia.
  rewrite (Z.mul_comm (2 ^ Z.of_nat n)), Z.rem_mul_r by lia. lia.
Qed.

(** ** Bytes *)

Lemma bytes_bits_app a b : bytes_bits (a ++ b) = bytes_bits a ++ bytes_bits b.
Proof. unfold bytes_bits. by rewrite fmap_app, concat_app. Qed.

Lemma bytes_bits_cons b l : bytes_bits (b :: l) = bits 8 (u8_of b) ++ bytes_bits l.
Proof. done. Qed.

Lemma len_bytes_bits l : len (bytes_bits l) = 8 * len l.
Proof.
  induction l as [|b l IH]; [done|]. rewrite bytes_bits_cons, len_app, IH, len_bits, len_cons. lia.
Qed.

#[export] Hint Rewrite len_bytes_bits : len.

Lemma bytes_bits_inj a : forall b, bytes_bits a = bytes_bits b -> a = b.
Proof.
  induction a as [|x a IH]; intros [|y b] H; try done.
  rewrite !bytes_bits_cons in H. apply app_inj_1 in H as [Hx Hl]; [|by rewrite !length_bits].
  f_equal; [|by apply IH]. apply u8_of_inj. pose proof (u8_of_range x). pose proof (u8_of_range y).
  rewrite <- (val_bits_small 8 (u8_of x)), <- (val_bits_small 8 (u8_of y)) by (change (2 ^ Z.of_nat 8) with 256; lia).
  by rewrite Hx.
Qed.

Lemma bytes_bits_take n l : bytes_bits (take n l) = take (8 * n) (bytes_bits l).
Proof.
  revert n. induction l as [|b l IH]; intros [|n]; [done..|]. cbn [take]. rewrite !bytes_bits_cons.
  replace (8 * S n)%nat with (length (bits 8 (u8_of b)) + 8 * n)%nat by (rewrite length_bits; lia).
  by rewrite IH, firstn_app_2.
Qed.

Lemma bytes_bits_drop n l : bytes_bits (drop n l) = drop (8 * n) (bytes_bits l).
Proof.
  assert (length (bytes_bits (take n l)) = 8 * length (take n l))%nat as Hl.
  { pose proof (len_bytes_bits (take n l)). unfold len in *. lia. }
  destruct (le_lt_dec n (length l)) as [H|H].
  - rewrite <- (take_drop n l) at 2. rewrite bytes_bits_app, drop_app_length'; [done|].
    by rewrite Hl, length_take_le.
  - rewrite !drop_ge; [done| |lia]. pose proof (len_bytes_bits l). unfold len in *. lia.
Qed.

(** The bits of a byte cut from a number. *)
Lemma bits_byte_of v : bits 8 (u8_of (byte_of v)) = bits 8 v.
Proof. rewrite u8_of_byte_of. change 256 with (2 ^ Z.of_nat 8). by rewrite bits_mod. Qed.

Lemma val_zeros n : val (replicate n false) = 0.
Proof.
  induction n as [|n IH]; [done|]. cbn [replicate]. by rewrite val_cons, IH.
Qed.

Lemma bits_zero n : bits n 0 = replicate n false.
Proof. apply val_inj; [by rewrite length_bits, length_replicate|]. by rewrite val_bits, val_zeros, Z.mod_0_l by lia. Qed.

(** Taking off the front is dividing by the weight of the rest. *)
Lemma val_take (n : nat) l : (n <= length l)%nat -> val (take n l) = val l / 2 ^ (len l - Z.of_nat n).
Proof.
  intros H. rewrite <- (take_drop n l) at 2. rewrite val_app, len_drop.
  assert (Z.max 0 (len l - Z.of_nat n) = len l - Z.of_nat n) as -> by (unfold len; lia).
  pose proof (val_range (drop n l)) as Hr. rewrite len_drop in Hr.
  assert (Z.max 0 (len l - Z.of_nat n) = len l - Z.of_nat n) as E by (unfold len; lia). rewrite E in Hr.
  rewrite Z.div_add_l by (apply Z.pow_nonzero; unfold len; lia). rewrite Z.div_small by done. lia.
Qed.

Lemma val_drop (n : nat) l : (n <= length l)%nat -> val (drop n l) = val l mod 2 ^ (len l - Z.of_nat n).
Proof.
  intros H. rewrite <- (take_drop n l) at 2. rewrite val_app, len_drop.
  assert (Z.max 0 (len l - Z.of_nat n) = len l - Z.of_nat n) as E by (unfold len; lia). rewrite E.
  pose proof (val_range (drop n l)) as Hr. rewrite len_drop, E in Hr.
  rewrite Z.add_comm, Z.mod_add by (apply Z.pow_nonzero; unfold len; lia). by rewrite Z.mod_small.
Qed.
