(* ===== verification/Zgfx.v ===== *)
(** * ZGFX, the bulk compression of the graphics channel

    Models [src/src/farland/codec/zgfx.hpp] and [zgfx.cpp]: LZ77 over a history
    that lives as long as the channel, with a static prefix code, in the variants
    RDP 8.0 and RDP 8.0 Lite.  [ZgfxBits] has the theorems on the two bit streams,
    [ZgfxRoundtrip] those on the two ends.

    A [std::vector] or [std::span] is a list; an access out of its range, undefined
    behaviour in C++, is [None], as is a failed assertion.  Positions in the stream
    of a compressor, [std::uint64_t], are unbounded; the 32-bit integers that the
    hash table keeps are not.  The tables [head] and [chain] start as zeros and are
    kept as finite maps with a size.  Capacities are left out. *)

From stdpp Require Import gmap.
From S2P Require Import Prelude Buffers CodecLogic Machine.
Open Scope Z_scope.

Module Zgfx.

(** ** Format *)

Definition descriptor_single : Z := 0xE0.
Definition descriptor_multipart : Z := 0xE1.
Definition compression_type_mask : Z := 0x0F.
Definition packet_compressed : Z := 0x20.
Definition packet_compr_type_rdp8 : Z := 0x04.
Definition packet_compr_type_rdp8_lite : Z := 0x06.
Definition max_segment_size : Z := 65535.
Definition history_size : Z := 2500000.
Definition max_segment_count : Z := 65535.
Definition lite_max_segment_size : Z := 8192.
Definition lite_history_size : Z := 8192.
Definition default_max_output_size : Z := Z.shiftl 64 20.

Inductive ZgfxVariant := rdp8 | rdp8_lite.
Inductive ZgfxMode := compress_ | store.

#[export] Instance ZgfxVariant_eq_dec : EqDecision ZgfxVariant.
Proof. solve_decision. Defined.
#[export] Instance ZgfxMode_eq_dec : EqDecision ZgfxMode.
Proof. solve_decision. Defined.

Definition zgfx_max_input_size (variant : ZgfxVariant) : Z :=
  match variant with rdp8 => max_segment_size * max_segment_count | rdp8_lite => lite_max_segment_size end.

(** ** The token code *)

Record Token := mkToken { prefix_length : Z; prefix : Z; value_bits : Z; is_match : bool; token_base : Z }.

Definition match_token_first : nat := 1.
Definition match_token_count : nat := 11.

Definition tokens : list Token :=
  [ mkToken 1 0 8 false 0;
    mkToken 5 17 5 true 0; mkToken 5 18 7 true 32; mkToken 5 19 9 true 160; mkToken 5 20 10 true 672;
    mkToken 5 21 12 true 1696; mkToken 6 44 14 true 5792; mkToken 6 45 15 true 22176; mkToken 7 92 18 true 54944;
    mkToken 7 93 20 true 317088; mkToken 8 188 20 true 1365664; mkToken 8 189 21 true 2414240;
    mkToken 5 24 0 false 0x00; mkToken 5 25 0 false 0x01; mkToken 6 52 0 false 0x02; mkToken 6 53 0 false 0x03;
    mkToken 6 54 0 false 0xFF; mkToken 7 110 0 false 0x04; mkToken 7 111 0 false 0x05; mkToken 7 112 0 false 0x06;
    mkToken 7 113 0 false 0x07; mkToken 7 114 0 false 0x08; mkToken 7 115 0 false 0x09; mkToken 7 116 0 false 0x0A;
    mkToken 7 117 0 false 0x0B; mkToken 7 118 0 false 0x3A; mkToken 7 119 0 false 0x3B; mkToken 7 120 0 false 0x3C;
    mkToken 7 121 0 false 0x3D; mkToken 7 122 0 false 0x3E; mkToken 7 123 0 false 0x3F; mkToken 7 124 0 false 0x40;
    mkToken 7 125 0 false 0x80; mkToken 8 252 0 false 0x0C; mkToken 8 253 0 false 0x38; mkToken 8 254 0 false 0x39;
    mkToken 8 255 0 false 0x66 ].

Definition match_tokens : list Token := take match_token_count (drop match_token_first tokens).

Definition no_token : Token := mkToken 0 0 0 false 0.
Definition zero_token : Token := default no_token (head match_tokens).

Definition lookup_bits : Z := 9.
Definition reserved_token : Z := 0xFF.

(** [std::fill_n]. *)
Definition fill (first count : nat) (v : Z) (l : list Z) : list Z :=
  take first l ++ replicate count v ++ drop (first + count) l.

Fixpoint fill_tokens (ts : list Token) (t : Z) (lookup : list Z) : list Z :=
  match ts with
  | [] => lookup
  | tok :: ts' =>
      let free_bits := lookup_bits - prefix_length tok in
      let first := Z.shiftl (prefix tok) free_bits in
      fill_tokens ts' (t + 1) (fill (Z.to_nat first) (Z.to_nat (Z.shiftl 1 free_bits)) t lookup)
  end.

Definition build_token_lookup : list Z :=
  fill_tokens tokens 0 (replicate (Z.to_nat (Z.shiftl 1 lookup_bits)) reserved_token).

(** No prefix starts another one's. *)
Definition is_prefix_code : bool :=
  forallb (fun a => forallb (fun b =>
    negb (negb (a.1 =? b.1)%nat && (prefix_length a.2 <=? prefix_length b.2)
      && (Z.shiftr (prefix b.2) (prefix_length b.2 - prefix_length a.2) =? prefix a.2)))
    (imap pair tokens)) (imap pair tokens).

Definition token_lookup : list Z := Eval vm_compute in build_token_lookup.

Record Code := mkCode { code_bits : Z; code_length : Z }.

Definition build_literal_codes : list Code :=
  fold_left (fun codes t =>
      if negb (is_match t) && (value_bits t =? 0)
      then <[Z.to_nat (token_base t) := mkCode (prefix t) (prefix_length t)]> codes else codes)
    tokens ((fun b => mkCode b 9) <$> Zupto 256).

Definition literal_codes : list Code := Eval vm_compute in build_literal_codes.

Definition literal_code (b : byte) : Code := nth (Z.to_nat (u8_of b)) literal_codes (mkCode 0 0).

Definition min_match : Z := 3.
Definition max_match : Z := 65535.
Definition max_length_ones : Z := 14.

(** [std::bit_width]. *)
Definition bit_width (n : Z) : Z := if n =? 0 then 0 else Z.log2 n + 1.

Definition length_code (length : Z) : Code :=
  if length =? min_match then mkCode 0 1
  else
    let k := bit_width length - 2 in
    let prefix := Z.shiftl (Z.shiftl 1 k - 1) 1 in
    let value := wrap 32 (length - Z.shiftl 1 (k + 1)) in
    mkCode (Z.lor (wrap 32 (Z.shiftl prefix (k + 1))) value) (2 * k + 2).

Record DistanceCode := mkDistance { d_prefix : Code; d_value : Code }.

(** The last row whose base is not above the distance, searched from the end. *)
Fixpoint search_tokens (ts : list Token) (distance : Z) : Token :=
  match ts with
  | [] => no_token
  | t :: ts' => if distance <? token_base t then search_tokens ts' distance else t
  end.

Definition distance_code (distance : Z) : DistanceCode :=
  let token := search_tokens (rev match_tokens) distance in
  mkDistance (mkCode (prefix token) (prefix_length token)) (mkCode (distance - token_base token) (value_bits token)).

Record Params := mkParams { history : Z; max_segment : Z; type : Z }.

Definition params (variant : ZgfxVariant) : Params :=
  match variant with
  | rdp8_lite => mkParams lite_history_size lite_max_segment_size packet_compr_type_rdp8_lite
  | rdp8 => mkParams history_size max_segment_size packet_compr_type_rdp8
  end.

(** ** Bit output *)

Module BitWriter.
Record t := mk { out_ : list byte; acc_ : Z; pending_ : Z }.

Definition make (out : list byte) : t := mk out 0 0.

Fixpoint flush (fuel : nat) (w : t) : t :=
  match fuel with
  | O => w
  | S fuel' =>
      if 8 <=? pending_ w
      then let pending := pending_ w - 8 in
           flush fuel' (mk (out_ w ++ [byte_of (Z.shiftr (acc_ w) pending)]) (acc_ w) pending)
      else w
  end.

Definition put (value count : Z) (w : t) : t :=
  let pending := pending_ w + count in
  flush (Z.to_nat (pending / 8)) (mk (out_ w) (Z.lor (wrap 64 (Z.shiftl (acc_ w) count)) value) pending).

Definition put_code (c : Code) (w : t) : t := put (code_bits c) (code_length c) w.

Definition align (w : t) : t := if pending_ w =? 0 then w else put 0 (8 - pending_ w) w.

Definition bytes (data : list byte) (w : t) : option t :=
  if pending_ w =? 0 then Some (mk (out_ w ++ data) (acc_ w) (pending_ w)) else None.

Definition finish (w : t) : t :=
  let unused := (8 - pending_ w) mod 8 in
  let w := align w in
  mk (out_ w ++ [byte_of unused]) (acc_ w) (pending_ w).
End BitWriter.

(** ** Bit input *)

Module BitReader.
Record t := mk { r_ : Reader.t; acc_ : Z; buffered_ : Z; remaining_ : Z }.

Definition make (bytes : Reader.t) (bit_count : Z) : option t :=
  if bit_count <=? Reader.size bytes * 8 then Some (mk bytes 0 0 bit_count) else None.

Fixpoint fetch (fuel : nat) (count : Z) (b : t) : t :=
  match fuel with
  | O => b
  | S fuel' =>
      if (buffered_ b <? count) && negb (Reader.empty (r_ b))
      then match ReaderOps.u8 (r_ b) with
           | Ok (v, r) => fetch fuel' count
               (mk r (Z.lor (acc_ b) (wrap 64 (Z.shiftl v (56 - buffered_ b)))) (buffered_ b + 8) (remaining_ b))
           | Err _ => b
           end
      else b
  end.

Definition peek (count : Z) : M t Z := fun b =>
  let b := fetch (length (Reader.rest (r_ b))) count b in
  Some (Ok (wrap 32 (Z.shiftr (acc_ b) (64 - count))), b).

Definition offset (b : t) : Z := Reader.offset (r_ b).

Definition skip (count : Z) : M t unit := fun b =>
  if remaining_ b <? count
  then Some (fail truncated "ZGFX token runs past the end of the bit stream" (offset b), b)
  else if count <=? buffered_ b
  then Some (Ok tt, mk (r_ b) (wrap 64 (Z.shiftl (acc_ b) count)) (buffered_ b - count) (remaining_ b - count))
  else None.

Definition read (count : Z) : M t Z :=
  if count =? 0 then mret 0
  else
    let$ value := peek count in
    let$ _ := skip count in
    mret value.

(** The loop that empties the buffer, and what is left of [count]. *)
Fixpoint unbuffer (fuel : nat) (count : Z) (b : t) (out : list byte) : Z * t * list byte :=
  match fuel with
  | O => (count, b, out)
  | S fuel' =>
      if (0 <? count) && (8 <=? buffered_ b)
      then unbuffer fuel' (count - 1)
             (mk (r_ b) (wrap 64 (Z.shiftl (acc_ b) 8)) (buffered_ b - 8) (remaining_ b))
             (out ++ [byte_of (Z.shiftr (acc_ b) 56)])
      else (count, b, out)
  end.

Definition read_aligned (count : Z) (out : list byte) : M t (list byte) := fun b =>
  let drop := buffered_ b mod 8 in
  let b := mk (r_ b) (wrap 64 (Z.shiftl (acc_ b) drop)) (buffered_ b - drop) (remaining_ b - Z.min drop (remaining_ b)) in
  if remaining_ b / 8 <? count
  then Some (fail truncated "ZGFX unencoded run runs past the end of the bit stream" (offset b), b)
  else
    let b := mk (r_ b) (acc_ b) (buffered_ b) (remaining_ b - count * 8) in
    let '(count, b, out) := unbuffer (Z.to_nat (buffered_ b / 8)) count b out in
    match ReaderOps.bytes count (r_ b) with
    | Ok (run, r) => Some (Ok (out ++ run), mk r (acc_ b) (buffered_ b) (remaining_ b))
    | Err e => Some (Err e, b)
    end.
End BitReader.

(** ** Match finding *)

Definition hash_bits_rdp8 : Z := 16.
Definition hash_bits_lite : Z := 12.
Definition max_chain : nat := 16.
Definition nice_length : Z := 128.
Definition max_insert_length : Z := 256.
Definition tail_insert : Z := 16.
Definition skip_trigger : Z := 5.

(** [span::subspan] and [span::operator[]]. *)
Definition subspan (w : list byte) (k count : Z) : option (list byte) :=
  if (0 <=? k) && (0 <=? count) && (k + count <=? len w)
  then Some (take (Z.to_nat count) (drop (Z.to_nat k) w)) else None.
Definition at_ (w : list byte) (k : Z) : option Z :=
  if (0 <=? k) && (k <? len w) then u8_of <$> w !! Z.to_nat k else None.

(** A vector of integers that starts as zeros. *)
Definition get (m : gmap Z Z) (size i : Z) : option Z :=
  if (0 <=? i) && (i <? size) then Some (default 0 (m !! i)) else None.
Definition set (m : gmap Z Z) (size i v : Z) : option (gmap Z Z) :=
  if (0 <=? i) && (i <? size) then Some (<[i := v]> m) else None.

Definition le_value (bytes : list byte) : Z := ReaderOps.le_loop (8 * len bytes) 0 bytes 0.

Definition hash3 (w : list byte) (k shift : Z) : option Z :=
  t ← subspan w k 3;
  Some (Z.shiftr (wrap 32 (le_value t * 2654435761)) shift).

Definition load64 (w : list byte) (k : Z) : option Z := le_value <$> subspan w k 8.

Fixpoint trailing_zeros (p : positive) : Z :=
  match p with
  | xO p' => 1 + trailing_zeros p'
  | _ => 0
  end.
(** [std::countr_zero]. *)
Definition countr_zero (x : Z) : Z := match x with Zpos p => trailing_zeros p | _ => 64 end.

Fixpoint common_bytes (fuel : nat) (w : list byte) (a b n limit : Z) : option Z :=
  match fuel with
  | O => None
  | S fuel' =>
      if n <? limit
      then x ← at_ w (a + n); y ← at_ w (b + n);
           if x =? y then common_bytes fuel' w a b (n + 1) limit else Some n
      else Some n
  end.

Fixpoint common_loop (fuel : nat) (w : list byte) (a b n limit : Z) : option Z :=
  match fuel with
  | O => None
  | S fuel' =>
      if n + 8 <=? limit
      then x ← load64 w (a + n); y ← load64 w (b + n);
           let d := Z.lxor x y in
           if d =? 0 then common_loop fuel' w a b (n + 8) limit else Some (n + countr_zero d / 8)
      else common_bytes 8 w a b n limit
  end.

(** On a little-endian machine. *)
Definition common_length (w : list byte) (a b limit : Z) : option Z :=
  common_loop (Z.to_nat (limit / 8) + 1) w a b 0 limit.

Definition match_cost (distance length : Z) : Z :=
  let d := distance_code distance in
  code_length (d_prefix d) + code_length (d_value d) + code_length (length_code length).

Definition literal_cost (bytes : list byte) : Z :=
  fold_left (fun bits b => bits + code_length (literal_code b)) bytes 0.

Definition max_run : Z := 32767.
Definition run_header_bits : Z := 5 + 5 + 15.

(** ** Compressor *)

Module Compressor.
Record t := mk {
  variant : ZgfxVariant;
  mode : ZgfxMode;
  p : Params;
  hash_shift : Z;
  window : list byte;
  max_window : Z;
  window_start : Z;
  reset_pos : Z;
  head_size : Z;
  head : gmap Z Z;
  chain_size : Z;
  chain : gmap Z Z;
  chain_mask : Z;
  insert_pos : Z
}.

Definition make (v : ZgfxVariant) (m : ZgfxMode) : t :=
  let p := params v in
  match m with
  | store => mk v m p 0 [] 0 0 0 0 ∅ 0 ∅ 0 0
  | compress_ =>
      let hash_bits := match v with rdp8 => hash_bits_rdp8 | rdp8_lite => hash_bits_lite end in
      mk v m p (32 - hash_bits) [] (2 * history p + max_segment p) 0 0 (Z.shiftl 1 hash_bits) ∅ 0 ∅ 0 0
  end.

Definition with_window (w : list byte) (start : Z) (s : t) : t :=
  mk (variant s) (mode s) (p s) (hash_shift s) w (max_window s) start (reset_pos s) (head_size s) (head s)
     (chain_size s) (chain s) (chain_mask s) (insert_pos s).
Definition with_chain_size (size : Z) (s : t) : t :=
  mk (variant s) (mode s) (p s) (hash_shift s) (window s) (max_window s) (window_start s) (reset_pos s) (head_size s)
     (head s) size (chain s) (size - 1) (insert_pos s).
Definition with_tables (h c : gmap Z Z) (s : t) : t :=
  mk (variant s) (mode s) (p s) (hash_shift s) (window s) (max_window s) (window_start s) (reset_pos s) (head_size s)
     h (chain_size s) c (chain_mask s) (insert_pos s).
Definition with_insert_pos (pos : Z) (s : t) : t :=
  mk (variant s) (mode s) (p s) (hash_shift s) (window s) (max_window s) (window_start s) (reset_pos s) (head_size s)
     (head s) (chain_size s) (chain s) (chain_mask s) pos.

Definition window_end (s : t) : Z := window_start s + len (window s).
Definition chain_index (pos : Z) (s : t) : Z := Z.land (pos - reset_pos s) (chain_mask s).

Definition reset (s : t) : t :=
  let end_ := window_end s in
  mk (variant s) (mode s) (p s) (hash_shift s) [] (max_window s) end_ end_ (head_size s) ∅
     (chain_size s) (chain s) (chain_mask s) end_.

(** [std::bit_ceil]. *)
Definition bit_ceil (n : Z) : Z := Z.shiftl 1 (Z.log2_up n).

Definition slide (data : list byte) (s : t) : t :=
  if max_window s <? len (window s) + len data
  then
    let keep := Z.min (len (window s)) (history (p s)) in
    let shift := len (window s) - keep in
    with_window (drop (Z.to_nat shift) (window s)) (window_start s + shift) s
  else s.

Definition append (data : list byte) (s : t) : t :=
  let s := slide data s in
  let s := with_window (window s ++ data) (window_start s) s in
  let needed := bit_ceil (Z.min (history (p s)) (window_end s - reset_pos s)) in
  if chain_size s <? needed then with_chain_size needed s else s.

Definition insert (pos : Z) (s : t) : option t :=
  h ← hash3 (window s) (pos - window_start s) (hash_shift s);
  entry ← get (head s) (head_size s) h;
  c ← set (chain s) (chain_size s) (chain_index pos s) entry;
  hd ← set (head s) (head_size s) h (wrap 32 (pos + 1));
  Some (with_tables hd c s).

Definition hashable_end (s : t) : Z :=
  if min_match - 1 <=? len (window s) then window_end s - (min_match - 1) else window_start s.

Fixpoint insert_loop (fuel : nat) (pos : Z) (s : t) : option t :=
  match fuel with
  | O => Some s
  | S fuel' => s ← insert pos s; insert_loop fuel' (pos + 1) s
  end.

(** The positions from [from] up to [to_] that have three bytes. *)
Definition insert_range (from to_ : Z) (s : t) : option t :=
  insert_loop (Z.to_nat (Z.min to_ (hashable_end s) - from)) from s.

Record Match := mkMatch { length : Z; distance : Z }.

Fixpoint walk (fuel : nat) (s : t) (pos limit max_distance : Z) (entry : Z) (best : Match) (best_score last_distance : Z)
    : option Match :=
  match fuel with
  | O => Some best
  | S fuel' =>
      if entry =? 0 then Some best
      else
        let at' := pos - window_start s in
        let d := wrap 32 (wrap 32 pos - wrap 32 (entry - 1)) in
        if (d <=? last_distance) || (max_distance <? d) then Some best
        else
          let cand := at' - d in
          next ← get (chain s) (chain_size s) (chain_index (pos - d) s);
          x ← at_ (window s) (cand + length best);
          y ← at_ (window s) (at' + length best);
          if negb (x =? y) then walk fuel' s pos limit max_distance next best best_score d
          else
            n ← common_length (window s) cand at' limit;
            if n <? min_match then walk fuel' s pos limit max_distance next best best_score d
            else
              let score := 9 * n - match_cost d n in
              if best_score <? score
              then if Z.min limit nice_length <=? n then Some (mkMatch n d)
                   else walk fuel' s pos limit max_distance next (mkMatch n d) score d
              else walk fuel' s pos limit max_distance next best best_score d
  end.

Definition find_match (pos limit : Z) (s : t) : option (Match * t) :=
  h ← hash3 (window s) (pos - window_start s) (hash_shift s);
  entry ← get (head s) (head_size s) h;
  c ← set (chain s) (chain_size s) (chain_index pos s) entry;
  hd ← set (head s) (head_size s) h (wrap 32 (pos + 1));
  let s := with_tables hd c s in
  let max_distance := wrap 32 (Z.min (history (p s)) (pos - reset_pos s)) in
  best ← walk max_chain s pos limit max_distance entry (mkMatch 0 0) 0 0;
  Some (best, s).

Fixpoint put_literals (fuel : nat) (bytes : list byte) (bw : BitWriter.t) : option BitWriter.t :=
  match fuel with
  | O => None
  | S fuel' =>
      if bool_decide (bytes = []) then Some bw
      else
        let size := Z.to_nat (Z.min (len bytes) max_run) in
        let chunk := take size bytes in
        let pad := (8 - (BitWriter.pending_ bw + run_header_bits) mod 8) mod 8 in
        let run_bits := run_header_bits + pad + 8 * len chunk in
        if run_bits <? literal_cost chunk
        then
          let bw := BitWriter.put (prefix zero_token) (prefix_length zero_token) bw in
          let bw := BitWriter.put 0 (value_bits zero_token) bw in
          let bw := BitWriter.put (wrap 32 (len chunk)) 15 bw in
          bw ← BitWriter.bytes chunk (BitWriter.align bw);
          put_literals fuel' (drop size bytes) bw
        else put_literals fuel' (drop size bytes) (fold_left (fun w b => BitWriter.put_code (literal_code b) w) chunk bw)
  end.

(** [bytes(from, to)] of [compress_segment]. *)
Definition window_bytes (from to_ : Z) (s : t) : option (list byte) := subspan (window s) (from - window_start s) (to_ - from).

Definition emit_literals (from to_ : Z) (s : t) (bw : BitWriter.t) : option BitWriter.t :=
  bytes ← window_bytes from to_ s;
  put_literals (S (List.length bytes)) bytes bw.

Definition put_match (m : Match) (bw : BitWriter.t) : BitWriter.t :=
  let d := distance_code (distance m) in
  BitWriter.put_code (length_code (length m)) (BitWriter.put_code (d_value d) (BitWriter.put_code (d_prefix d) bw)).

Definition worth (m : Match) (pos : Z) (s : t) : option bool :=
  if length m <? min_match then Some false
  else if 8 <=? length m then Some true
  else bytes ← window_bytes pos (pos + length m) s; Some (match_cost (distance m) (length m) <? literal_cost bytes).

Fixpoint segment_loop (fuel : nat) (pos literals misses end_ : Z) (s : t) (bw : BitWriter.t)
    : option (Z * Z * t * BitWriter.t) :=
  match fuel with
  | O => None
  | S fuel' =>
      if pos + min_match <=? end_
      then
        let limit := Z.min (end_ - pos) max_match in
        found ← find_match pos limit s;
        let '(m, s) := found in
        take_it ← worth m pos s;
        if negb take_it
        then segment_loop fuel' (pos + (1 + Z.shiftr (misses + 1) skip_trigger)) literals (misses + 1) end_ s bw
        else
          bw ← emit_literals literals pos s bw;
          let bw := put_match m bw in
          let match_end := pos + length m in
          let first := if length m <=? max_insert_length then pos + 1 else Z.max (pos + 1) (match_end - tail_insert) in
          s ← insert_range first match_end s;
          segment_loop fuel' match_end match_end 0 end_ s bw
      else Some (pos, literals, s, bw)
  end.

(** The positions that the segment before has left out. *)
Definition catch_up (begin : Z) (s : t) : option t :=
  if wrap 64 (begin - insert_pos s) <? min_match
  then s' ← insert_range (insert_pos s) begin s;
       Some (with_insert_pos (Z.max (insert_pos s') (Z.min begin (hashable_end s'))) s')
  else Some (with_insert_pos begin s).

Definition compress_segment (begin end_ : Z) (s : t) (bw : BitWriter.t) : option (t * BitWriter.t) :=
  s ← catch_up begin s;
  done_ ← segment_loop (S (Z.to_nat (end_ - begin))) begin begin 0 end_ s bw;
  let '(pos, literals, s, bw) := done_ in
  bw ← emit_literals literals end_ s bw;
  Some (with_insert_pos (Z.max (insert_pos s) (Z.min pos (hashable_end s))) s, bw).

(** A computation that does not write. *)
Definition elift {A} (o : option A) : Enc A := fun w => match o with Some a => Some (a, w) | None => None end.

Definition encode_segment (data : list byte) (s : t) : Enc t :=
  eassert (len data <=? max_segment (p s)) ;;;
  match mode s with
  | store =>
      Writer.u8 (type (p s)) ;;;
      Writer.bytes data ;;;
      eret s
  | compress_ =>
      let s := append data s in
      let end_ := window_end s in
      let! (s, bw) := elift (compress_segment (end_ - len data) end_ s (BitWriter.make [])) in
      let scratch := BitWriter.out_ (BitWriter.finish bw) in
      if len scratch <? len data
      then
        Writer.u8 (Z.lor (type (p s)) packet_compressed) ;;;
        Writer.bytes scratch ;;;
        eret s
      else
        Writer.u8 (type (p s)) ;;;
        Writer.bytes data ;;;
        eret s
  end.

Fixpoint segments_loop (fuel : nat) (data : list byte) (s : t) : Enc t :=
  match fuel with
  | O => elift None
  | S fuel' =>
      if bool_decide (data = []) then eret s
      else
        let size := Z.to_nat (Z.min (len data) (max_segment (p s))) in
        let! size_at := Writer.size in
        Writer.u32le 0 ;;;
        let! s := encode_segment (take size data) s in
        let! total := Writer.size in
        Writer.patch_u32le size_at (wrap 32 (total - size_at - 4)) ;;;
        segments_loop fuel' (drop size data) s
  end.

Definition compress (data : list byte) (s : t) : Enc t :=
  eassert (len data <=? zgfx_max_input_size (variant s)) ;;;
  if bool_decide (data = []) then
    Writer.u8 descriptor_single ;;;
    Writer.u8 (Z.lor (type (p s)) packet_compressed) ;;;
    Writer.u8 0 ;;;
    eret s
  else if len data <=? max_segment (p s) then
    Writer.u8 descriptor_single ;;;
    encode_segment data s
  else
    let count := (len data + max_segment (p s) - 1) / max_segment (p s) in
    Writer.u8 descriptor_multipart ;;;
    Writer.u16le (wrap 16 count) ;;;
    Writer.u32le (wrap 32 (len data)) ;;;
    segments_loop (S (List.length data)) data s.
End Compressor.

(** ** Decompressor *)

Module Decompressor.
Record t := mk { variant : ZgfxVariant; p : Params; max_output : Z; ring : list byte; ring_pos : Z }.

Definition make (v : ZgfxVariant) (limit : Z) : t := mk v (params v) limit [] 0.
Definition reset (s : t) : t := mk (variant s) (p s) (max_output s) [] 0.
Definition with_ring (r : list byte) (pos : Z) (s : t) : t := mk (variant s) (p s) (max_output s) r pos.

(** Bytes over those of a ring from [at_] on. *)
Definition overwrite (at_ : Z) (bytes r : list byte) : list byte :=
  take (Z.to_nat at_) r ++ bytes ++ drop (Z.to_nat at_ + length bytes) r.

Fixpoint record_loop (fuel : nat) (bytes : list byte) (s : t) : option t :=
  if bool_decide (bytes = []) then Some s
  else
    match fuel with
    | O => None
    | S fuel' =>
        let r := ring s in
        let n := Z.min (len bytes) (len r - ring_pos s) in
        if (0 <=? n) && (ring_pos s + n <=? len r)
        then record_loop fuel' (drop (Z.to_nat n) bytes)
               (with_ring (overwrite (ring_pos s) (take (Z.to_nat n) bytes) r) ((ring_pos s + n) mod len r) s)
        else None
    end.

Definition record (bytes : list byte) (s : t) : option t :=
  let bytes := if history (p s) <? len bytes then drop (Z.to_nat (len bytes - history (p s))) bytes else bytes in
  let '(bytes, s) :=
    if len (ring s) <? history (p s)
    then
      let n := Z.to_nat (Z.min (len bytes) (history (p s) - len (ring s))) in
      let r := ring s ++ take n bytes in
      (drop n bytes, with_ring r (len r mod history (p s)) s)
    else (bytes, s) in
  record_loop 2 bytes s.

(** Doubles the bytes copied so far until there are [length] of them. *)
Fixpoint repeat_loop (fuel : nat) (have length : Z) (dst : list byte) : option (list byte) :=
  if length <=? have then Some dst
  else
    match fuel with
    | O => None
    | S fuel' =>
        let n := Z.min have (length - have) in
        repeat_loop fuel' (have + n) length (dst ++ take (Z.to_nat n) dst)
    end.

Definition copy_match (distance length : Z) (out : list byte) (s : t) : option (list byte) :=
  let r := ring s in
  let from_history := Z.min length distance in
  let src := (ring_pos s + len r - distance) mod len r in
  let before_wrap := Z.min from_history (len r - src) in
  a ← subspan r src before_wrap;
  b ← subspan r 0 (from_history - before_wrap);
  dst ← repeat_loop (Z.to_nat length) from_history length (a ++ b);
  Some (out ++ dst).

Record Bounds := mkBounds { segment_start : Z; limit : Z; limit_error : Errc }.

Definition check_room (p : Params) (b : Bounds) (have more offset : Z) : Result unit :=
  if wrap 64 (max_segment p - wrap 64 (have - segment_start b)) <? more
  then fail invalid_length "ZGFX segment decodes to more than the segment limit" offset
  else if wrap 64 (limit b - have) <? more
  then fail (limit_error b) "ZGFX output exceeds its limit" offset
  else Ok tt.

(** The locals of [decode_segment]'s loop beside the object. *)
Record Loop := mkLoop { self : t; br : BitReader.t; out : list byte; recorded : Z }.

Definition on_bits {A} (m : M BitReader.t A) : M Loop A := fun l =>
  match m (br l) with
  | Some (r, b) => Some (r, mkLoop (self l) b (out l) (recorded l))
  | None => None
  end.

Definition push (bytes : list byte) : M Loop unit := mmod (fun l => mkLoop (self l) (br l) (out l ++ bytes) (recorded l)).
Definition set_out (bytes : list byte) : M Loop unit := mmod (fun l => mkLoop (self l) (br l) bytes (recorded l)).

Definition sync : M Loop unit := fun l =>
  match record (drop (Z.to_nat (recorded l)) (out l)) (self l) with
  | Some s => Some (Ok tt, mkLoop s (br l) (out l) (len (out l)))
  | None => None
  end.

Definition copy (distance length : Z) : M Loop unit := fun l =>
  match copy_match distance length (out l) (self l) with
  | Some o => Some (Ok tt, mkLoop (self l) (br l) o (recorded l))
  | None => None
  end.

Definition room (b : Bounds) (more offset : Z) : M Loop unit := fun l =>
  Some (check_room (p (self l)) b (len (out l)) more offset, l).

(** The ones behind the first one of a length. *)
Fixpoint ones_loop (fuel : nat) (ones token_at : Z) : M Loop Z :=
  match fuel with
  | O => fun _ => None
  | S fuel' =>
      let$ bit := on_bits (BitReader.read 1) in
      if bit =? 0 then mret ones
      else if max_length_ones <? ones + 1
      then mfail invalid_value "ZGFX match length prefix is too long" token_at
      else ones_loop fuel' (ones + 1) token_at
  end.

Definition read_length (token_at : Z) : M Loop Z :=
  let$ first := on_bits (BitReader.read 1) in
  if first =? 0 then mret min_match
  else
    let$ ones := ones_loop 15 1 token_at in
    let$ extra := on_bits (BitReader.read (ones + 1)) in
    mret (Z.shiftl 1 (ones + 1) + extra).

Definition decode_token (b : Bounds) : M Loop unit :=
  let$ token_at := mget (fun l => BitReader.offset (br l)) in
  let$ bits := on_bits (BitReader.peek lookup_bits) in
  let index := nth (Z.to_nat bits) token_lookup reserved_token in
  if index =? reserved_token then mfail invalid_value "reserved ZGFX token" token_at
  else
    let token := nth (Z.to_nat index) tokens no_token in
    let$ _ := on_bits (BitReader.skip (prefix_length token)) in
    let$ value := on_bits (BitReader.read (value_bits token)) in
    if negb (is_match token) then
      let$ _ := room b 1 token_at in
      push [byte_of (token_base token + value)]
    else
      let distance := token_base token + value in
      if distance =? 0 then
        let$ count := on_bits (BitReader.read 15) in
        let$ _ := room b count token_at in
        let$ o := mget out in
        let$ o := on_bits (BitReader.read_aligned count o) in
        set_out o
      else
        let$ length := read_length token_at in
        let$ _ := sync in
        let$ ring_size := mget (fun l => len (ring (self l))) in
        if ring_size <? distance
        then mfail invalid_value "ZGFX match distance reaches before the history" token_at
        else
          let$ _ := room b length token_at in
          copy distance length.

Fixpoint decode_loop (fuel : nat) (b : Bounds) : M Loop unit :=
  match fuel with
  | O => fun _ => None
  | S fuel' =>
      let$ bits_left := mget (fun l => BitReader.remaining_ (br l)) in
      if 0 <? bits_left then
        let$ _ := decode_token b in
        decode_loop fuel' b
      else sync
  end.

(** A compressed segment behind its header. *)
Definition decode_bits (b : Bounds) (stream : Reader.t) (unused : Z) (out : list byte) : M t (list byte) := fun s =>
  let bit_count := Reader.size stream * 8 - unused in
  match BitReader.make stream bit_count with
  | None => None
  | Some br =>
      match decode_loop (S (Z.to_nat bit_count)) b (mkLoop s br out (len out)) with
      | Some (Ok _, l) => Some (Ok (Decompressor.out l), self l)
      | Some (Err e, l) => Some (Err e, self l)
      | None => None
      end
  end.

Definition decode_segment (seg : Reader.t) (out : list byte) (limit : Z) (limit_error : Errc) : M t (list byte) :=
  let$ s := mget (fun s => s) in
  let bounds := mkBounds (len out) limit limit_error in
  let header_at := Reader.offset seg in
  let$ (header, seg) := mread ReaderOps.u8 seg in
  if negb (Z.land header compression_type_mask =? type (p s))
  then mfail unsupported "RDP8_BULK_ENCODED_DATA has an unexpected compression type" header_at
  else if negb (has_bits header packet_compressed) then
    let data := Reader.rest seg in
    let$ _ := mlift (check_room (p s) bounds (len out) (len data) (Reader.offset seg)) in
    match record data s with
    | Some s' => let$ _ := mmod (fun _ => s') in mret (out ++ data)
    | None => fun _ => None
    end
  else if Reader.empty seg
  then mfail truncated "compressed ZGFX segment has no trailer byte" (Reader.offset seg)
  else
    let$ (stream, seg) := mread (ReaderOps.sub (Reader.remaining seg - 1)) seg in
    let trailer_at := Reader.offset seg in
    let$ (unused, _) := mread ReaderOps.u8 seg in
    if 7 <? unused then mfail invalid_value "ZGFX segment trailer is above 7" trailer_at
    else if Reader.size stream * 8 <? unused
    then mfail invalid_length "ZGFX segment trailer exceeds the bit stream" trailer_at
    else decode_bits bounds stream unused out.

Fixpoint parts_loop (count : nat) (size : Z) (r : Reader.t) (out : list byte) : M t (Reader.t * list byte) :=
  match count with
  | O => mret (r, out)
  | S count' =>
      let$ (segment_size, r) := mread ReaderOps.u32le r in
      let$ (segment, r) := mread (ReaderOps.sub segment_size) r in
      let$ out := decode_segment segment out size invalid_length in
      parts_loop count' size r out
  end.

Definition decompress (data : list byte) : M t (list byte) :=
  let$ s := mget (fun s => s) in
  let r := Reader.make data 0 in
  let$ (descriptor, r) := mread ReaderOps.u8 r in
  if descriptor =? descriptor_single then
    let$ (segment, _) := mread (ReaderOps.sub (Reader.remaining r)) r in
    decode_segment segment [] (max_output s) limit_exceeded
  else if negb (descriptor =? descriptor_multipart)
  then mfail invalid_value "unknown RDP_SEGMENTED_DATA descriptor" 0
  else
    let header_at := Reader.offset r in
    let$ (count, r) := mread ReaderOps.u16le r in
    let$ (size, r) := mread ReaderOps.u32le r in
    if count =? 0 then mfail invalid_value "MULTIPART RDP_SEGMENTED_DATA without segments" header_at
    else if max_output s <? size
    then mfail limit_exceeded "ZGFX uncompressedSize exceeds the output limit" header_at
    else if count * max_segment (p s) <? size
    then mfail invalid_length "ZGFX uncompressedSize exceeds what its segments can hold" header_at
    else if Reader.remaining r / 5 <? count
    then mfail truncated "ZGFX segmentCount exceeds the input" header_at
    else
      let$ (r, out) := parts_loop (Z.to_nat count) size r [] in
      let$ _ := mread (ReaderOps.expect_end "trailing data after the last ZGFX segment") r in
      if negb (len out =? size)
      then mfail invalid_length "ZGFX segments do not add up to uncompressedSize" header_at
      else mret out.
End Decompressor.
End Zgfx.
