(* ===== verification/ZgfxBits.v ===== *)
(** * The bit streams of ZGFX

    [Zgfx.BitWriter] appends the bits it is given, and [Zgfx.BitReader] yields the
    bits of its bytes in order, whatever they have buffered. *)

From S2P Require Import Prelude Buffers CodecLogic Machine Bits Zgfx.
Open Scope Z_scope.

Module ZgfxBits.
Import Zgfx.

(** ** The writer *)

(** All bits written so far. *)
Definition content (w : BitWriter.t) : list bool :=
  bytes_bits (BitWriter.out_ w) ++ bits (Z.to_nat (BitWriter.pending_ w)) (BitWriter.acc_ w).

Definition writing (w : BitWriter.t) : Prop := 0 <= BitWriter.pending_ w < 8.

Lemma bits_split p v : 8 <= p -> bits (Z.to_nat p) v = bits 8 (Z.shiftr v (p - 8)) ++ bits (Z.to_nat (p - 8)) v.
Proof.
  intros H. replace (Z.to_nat p) with (8 + Z.to_nat (p - 8))%nat by lia. rewrite bits_app, Z.shiftr_div_pow2 by lia.
  by rewrite Z2Nat.id by lia.
Qed.

Lemma flush_content fuel : forall w, 0 <= BitWriter.pending_ w ->
  content (BitWriter.flush fuel w) = content w /\ 0 <= BitWriter.pending_ (BitWriter.flush fuel w) /\
  (BitWriter.pending_ w < 8 * (Z.of_nat fuel + 1) -> BitWriter.pending_ (BitWriter.flush fuel w) < 8).
Proof.
  induction fuel as [|fuel IH]; intros w Hw; [cbn; split_and!; [done|done|lia]|]. cbn [BitWriter.flush].
  destruct (Z.leb_spec 8 (BitWriter.pending_ w)) as [H|H]; [|split_and!; [done|done|lia]].
  destruct (IH (BitWriter.mk (BitWriter.out_ w ++ [byte_of (Z.shiftr (BitWriter.acc_ w) (BitWriter.pending_ w - 8))])
    (BitWriter.acc_ w) (BitWriter.pending_ w - 8))) as (E & P & L); [cbn; lia|]. cbn in L. split_and!; [|done|lia].
  rewrite E. unfold content. cbn [BitWriter.out_ BitWriter.acc_ BitWriter.pending_].
  rewrite bytes_bits_app, (bits_split (BitWriter.pending_ w)), <- app_assoc by done.
  unfold bytes_bits at 2. cbn [fmap list_fmap concat]. by rewrite bits_byte_of, app_nil_r.
Qed.

Lemma bits_put p c acc v : 0 <= p -> 0 <= c -> p + c <= 64 -> 0 <= v < 2 ^ c ->
  bits (Z.to_nat (p + c)) (Z.lor (wrap 64 (Z.shiftl acc c)) v) = bits (Z.to_nat p) acc ++ bits (Z.to_nat c) v.
Proof.
  intros Hp Hc Hl Hv.
  assert (wrap 64 (Z.shiftl acc c) = Z.shiftl (acc mod 2 ^ (64 - c)) c) as ->.
  { unfold wrap. rewrite !Z.shiftl_mul_pow2 by done. replace 64 with ((64 - c) + c) at 1 by lia.
    rewrite Z.pow_add_r by lia. rewrite Z.mul_mod_distr_r; [done|apply Z.pow_nonzero; lia..]. }
  rewrite lor_disjoint by done. rewrite Z2Nat.inj_add, bits_app by done. rewrite Z2Nat.id by done.
  rewrite Z.div_add_l by (apply Z.pow_nonzero; lia). rewrite Z.div_small, Z.add_0_r by done. f_equal.
  - apply val_inj; [by rewrite !length_bits|]. rewrite !val_bits. rewrite Z2Nat.id by done.
    replace (64 - c) with (p + (64 - c - p)) by lia. rewrite Z.pow_add_r by lia.
    rewrite Z.rem_mul_r by (try apply Z.pow_nonzero; try apply Z.pow_pos_nonneg; lia).
    rewrite Z.mul_comm, Z.mod_add by (apply Z.pow_nonzero; lia). apply Z.mod_mod. apply Z.pow_nonzero; lia.
  - rewrite <- bits_mod, Z2Nat.id by done. rewrite Z.add_comm, Z.mod_add by (apply Z.pow_nonzero; lia).
    by rewrite Z.mod_small.
Qed.

Lemma put_content v c w : writing w -> 0 <= c <= 32 -> 0 <= v < 2 ^ c ->
  writing (BitWriter.put v c w) /\ content (BitWriter.put v c w) = content w ++ bits (Z.to_nat c) v.
Proof.
  unfold writing. intros Hw Hc Hv. unfold BitWriter.put.
  set (w' := BitWriter.mk _ _ _). destruct (flush_content (Z.to_nat ((BitWriter.pending_ w + c) / 8)) w') as (E & P & L);
    [subst w'; cbn; lia|]. split; [split; [done|apply L; subst w'; cbn; lia]|].
  rewrite E. subst w'. unfold content. cbn [BitWriter.out_ BitWriter.acc_ BitWriter.pending_].
  rewrite bits_put by lia. by rewrite app_assoc.
Qed.

(** The padding to a whole byte. *)
Definition padding (l : list bool) : list bool := replicate (Z.to_nat ((- len l) mod 8)) false.

Lemma content_pending w : writing w -> (- len (content w)) mod 8 = (8 - BitWriter.pending_ w) mod 8.
Proof. unfold writing, content. intros H. rewrite len_app, len_bytes_bits, len_bits, Z2Nat.id by lia. lia. Qed.

Lemma align_content w : writing w ->
  BitWriter.pending_ (BitWriter.align w) = 0 /\ content (BitWriter.align w) = content w ++ padding (content w).
Proof.
  intros H. unfold padding. rewrite content_pending by done. unfold writing in H. unfold BitWriter.align.
  destruct (Z.eqb_spec (BitWriter.pending_ w) 0) as [E|E].
  - rewrite E. split; [done|]. by rewrite app_nil_r.
  - destruct (put_content 0 (8 - BitWriter.pending_ w) w) as [W C]; [done|lia|split; [lia|apply Z.pow_pos_nonneg; lia]|].
    split.
    + apply (f_equal len) in C. unfold content in C. rewrite !len_app, !len_bytes_bits, !len_bits in C.
      unfold writing in W. lia.
    + rewrite C, bits_zero. do 2 f_equal. f_equal. rewrite Z.mod_small by lia. done.
Qed.

Lemma whole_content w : BitWriter.pending_ w = 0 -> content w = bytes_bits (BitWriter.out_ w).
Proof. unfold content. intros ->. by rewrite app_nil_r. Qed.

Lemma bytes_content data w : BitWriter.pending_ w = 0 ->
  exists w', BitWriter.bytes data w = Some w' /\ BitWriter.pending_ w' = 0 /\ content w' = content w ++ bytes_bits data.
Proof.
  intros E. unfold BitWriter.bytes. rewrite E. eexists. split; [done|]. split; [done|].
  rewrite !whole_content by done. cbn [BitWriter.out_]. by rewrite bytes_bits_app.
Qed.

(** The stream a reader gets back: whole bytes, and the count of padding bits. *)
Lemma finish_content w : writing w -> exists s,
  BitWriter.out_ (BitWriter.finish w) = s ++ [byte_of ((- len (content w)) mod 8)] /\
  bytes_bits s = content w ++ padding (content w).
Proof.
  intros H. destruct (align_content w H) as [P C]. exists (BitWriter.out_ (BitWriter.align w)).
  rewrite content_pending by done. split; [done|]. by rewrite <- C, whole_content.
Qed.

(** ** The reader *)

(** [B] is what [b] has buffered. *)
Record buffers (b : BitReader.t) (B : list bool) : Prop := mkBuffers {
  buf_count : BitReader.buffered_ b = len B;
  buf_fits : len B <= 64;
  buf_acc : BitReader.acc_ b = val B * 2 ^ (64 - len B)
}.

(** [b] is about to yield the first [n] bits of [s]. *)
Definition holds (b : BitReader.t) (s : list bool) (n : Z) : Prop :=
  exists B, buffers b B /\ s = B ++ bytes_bits (Reader.rest (BitReader.r_ b)) /\ BitReader.remaining_ b = n /\ 0 <= n <= len s.

(** [count] bits are in the buffer, or all there are. *)
Definition ready (count : Z) (b : BitReader.t) : Prop :=
  count <= BitReader.buffered_ b \/ Reader.rest (BitReader.r_ b) = [].

Lemma read_u8 r x xs : Reader.rest r = x :: xs ->
  ReaderOps.u8 r = Ok (u8_of x, Reader.mk (Reader.seen r ++ [x]) xs (Reader.base r)).
Proof.
  intros E. destruct r as [s rs b]. cbn in E. subst rs. destruct (reads_byte x xs s b) as (a & Ha & <-). exact Ha.
Qed.

Lemma empty_rest r : Reader.empty r = true <-> Reader.rest r = [].
Proof.
  unfold Reader.empty, Reader.position, Reader.size, Reader.data. rewrite Z.eqb_eq, len_app. split.
  - intros H. apply len_0. lia.
  - intros ->. rewrite len_nil. lia.
Qed.

Lemma buffers_byte b B x xs : buffers b B -> len B <= 56 -> Reader.rest (BitReader.r_ b) = x :: xs ->
  forall r, Reader.rest r = xs ->
  buffers (BitReader.mk r (Z.lor (BitReader.acc_ b) (wrap 64 (Z.shiftl (u8_of x) (56 - BitReader.buffered_ b))))
    (BitReader.buffered_ b + 8) (BitReader.remaining_ b)) (B ++ bits 8 (u8_of x)).
Proof.
  intros [C F A] L Hr r Hxs. pose proof (len_nonneg B). pose proof (u8_of_range x) as Hx.
  split; cbn [BitReader.buffered_ BitReader.acc_].
  - rewrite C, len_app, len_bits. lia.
  - rewrite len_app, len_bits. lia.
  - rewrite val_app, len_app, !len_bits, val_bits_small by (change (2 ^ Z.of_nat 8) with 256; lia).
    change (Z.of_nat 8) with 8. rewrite C, A. unfold wrap. rewrite Z.shiftl_mul_pow2 by lia.
    assert (u8_of x * 2 ^ (56 - len B) < 2 ^ (64 - len B)) as Hlt.
    { replace (64 - len B) with (8 + (56 - len B)) by lia. rewrite Z.pow_add_r by lia. change (2 ^ 8) with 256.
      apply Z.mul_lt_mono_pos_r; [apply Z.pow_pos_nonneg; lia|lia]. }
    assert (2 ^ (64 - len B) <= 2 ^ 64) as Hle by (apply Z.pow_le_mono_r; lia).
    assert (0 <= u8_of x * 2 ^ (56 - len B)) as H0 by (apply Z.mul_nonneg_nonneg; [lia|apply Z.pow_nonneg; lia]).
    rewrite Z.mod_small by lia. rewrite <- (Z.shiftl_mul_pow2 (val B)) by lia. rewrite lor_disjoint by lia.
    replace (64 - (len B + 8)) with (56 - len B) by lia.
    replace (64 - len B) with (8 + (56 - len B)) by lia. rewrite Z.pow_add_r by lia. lia.
Qed.

Lemma fetch_ready fuel count : forall b s n, holds b s n -> 0 <= count <= 32 -> (length (Reader.rest (BitReader.r_ b)) <= fuel)%nat ->
  holds (BitReader.fetch fuel count b) s n /\ ready count (BitReader.fetch fuel count b).
Proof.
  unfold ready. induction fuel as [|fuel IH]; intros b s n H Hc Hf; cbn [BitReader.fetch].
  { split; [done|]. right. destruct (Reader.rest _); [done|cbn in Hf; lia]. }
  destruct (Z.ltb_spec (BitReader.buffered_ b) count) as [Hlt|Hge]; cbn [andb]; [|by auto].
  destruct (Reader.empty (BitReader.r_ b)) eqn:E; cbn [negb]; [split; [done|right; by apply empty_rest]|].
  destruct (Reader.rest (BitReader.r_ b)) as [|x xs] eqn:Hr; [apply empty_rest in Hr; congruence|].
  rewrite (read_u8 _ _ _ Hr). apply IH; [|done|cbn in *; lia].
  destruct H as (B & HB & Hs & Hn & Hl). exists (B ++ bits 8 (u8_of x)). split_and!; [| |done|lia..].
  - eapply buffers_byte; [exact HB|rewrite <- (buf_count _ _ HB); lia|exact Hr|done].
  - rewrite Hs, Hr, bytes_bits_cons. cbn. by rewrite <- app_assoc.
Qed.

(** What [peek] returns: the next bits, with zeros behind the end. *)
Definition next_bits (count : Z) (s : list bool) : Z :=
  val (take (Z.to_nat count) (s ++ replicate (Z.to_nat count) false)).

Lemma next_bits_prefix count p s : len p = count -> next_bits count (p ++ s) = val p.
Proof. intros <-. unfold next_bits. rewrite <- app_assoc, take_app_length'; [done|unfold len; lia]. Qed.

Lemma next_bits_take count s : 0 <= count <= len s -> next_bits count s = val (take (Z.to_nat count) s).
Proof. intros H. unfold next_bits. rewrite take_app_le; [done|unfold len in *; lia]. Qed.

Lemma next_bits_range count s : 0 <= count -> 0 <= next_bits count s < 2 ^ count.
Proof.
  intros H. unfold next_bits. pose proof (val_range (take (Z.to_nat count) (s ++ replicate (Z.to_nat count) false))) as Hr.
  rewrite len_take, len_app, len_replicate in Hr. pose proof (len_nonneg s). by rewrite Z.min_l, Z2Nat.id in Hr by lia.
Qed.

Lemma acc_next b B count rest : buffers b B -> 0 < count <= 32 -> count <= len B \/ rest = [] ->
  wrap 32 (Z.shiftr (BitReader.acc_ b) (64 - count)) = next_bits count (B ++ rest).
Proof.
  intros [C F A] Hc Hr. pose proof (val_range B) as HB. pose proof (len_nonneg B).
  assert (Z.shiftr (BitReader.acc_ b) (64 - count) = next_bits count (B ++ rest)) as ->.
  { rewrite A, Z.shiftr_div_pow2 by lia. destruct (Z.le_gt_cases count (len B)) as [Hle|Hgt].
    - rewrite next_bits_take by (rewrite len_app; pose proof (len_nonneg rest); lia).
      rewrite take_app_le by (unfold len in *; lia). rewrite val_take by (unfold len in *; lia). rewrite Z2Nat.id by lia.
      replace (64 - count) with ((len B - count) + (64 - len B)) by lia. rewrite Z.pow_add_r by lia.
      by rewrite Z.div_mul_cancel_r by (apply Z.pow_nonzero; lia).
    - destruct Hr as [?| ->]; [lia|]. rewrite app_nil_r. unfold next_bits.
      rewrite take_app_ge by (unfold len in *; lia). rewrite take_replicate.
      replace (Z.to_nat count - length B)%nat with (Z.to_nat (count - len B)) by (unfold len in *; lia).
      rewrite Nat.min_l by lia. rewrite val_app, val_zeros, len_replicate, Z2Nat.id by lia.
      replace (64 - len B) with ((count - len B) + (64 - count)) by lia. rewrite Z.pow_add_r by lia.
      rewrite Z.mul_assoc, Z.div_mul by (apply Z.pow_nonzero; lia). lia. }
  unfold wrap. apply Z.mod_small. pose proof (next_bits_range count (B ++ rest) ltac:(lia)) as Hn.
  pose proof (Z.pow_le_mono_r 2 count 32 ltac:(lia) ltac:(lia)). lia.
Qed.

Lemma wp_peek count b s n (Q : Result Z -> BitReader.t -> Prop) : holds b s n -> 0 < count <= 32 ->
  (forall b', holds b' s n -> ready count b' -> Q (Ok (next_bits count s)) b') -> wp (BitReader.peek count) b Q.
Proof.
  intros H Hc HQ. unfold BitReader.peek. destruct (fetch_ready _ count b s n H ltac:(lia) (le_n _)) as [H' R].
  set (b' := BitReader.fetch _ _ _) in *.
  exists (Ok (wrap 32 (Z.shiftr (BitReader.acc_ b') (64 - count)))), b'. split; [done|].
  destruct H' as (B & HB & Hs & Hn & Hl). pose proof HB as [C F A].
  rewrite (acc_next b' B count (bytes_bits (Reader.rest (BitReader.r_ b')))); [|done|lia|].
  - rewrite <- Hs. apply HQ; [|done]. by exists B.
  - destruct R as [R|R]; [left; lia|right; by rewrite R].
Qed.

Lemma ready_buffered count b s n : holds b s n -> ready count b -> count <= n -> count <= BitReader.buffered_ b.
Proof.
  intros (B & [C F A] & Hs & Hn & Hl) [R|R] Hc; [done|]. rewrite R, app_nil_r in Hs. subst s. lia.
Qed.

Lemma ready_le a b c : ready a b -> c <= a -> ready c b.
Proof. intros [R|R] H; [left; lia|by right]. Qed.

Lemma buffers_skip b B count : buffers b B -> 0 <= count <= len B ->
  buffers (BitReader.mk (BitReader.r_ b) (wrap 64 (Z.shiftl (BitReader.acc_ b) count)) (BitReader.buffered_ b - count)
    (BitReader.remaining_ b - count)) (drop (Z.to_nat count) B).
Proof.
  intros [C F A] Hc. pose proof (val_range B) as HB.
  split; cbn [BitReader.buffered_ BitReader.acc_].
  - rewrite C, len_drop, Z2Nat.id by lia. lia.
  - rewrite len_drop. lia.
  - rewrite len_drop, Z2Nat.id by lia. rewrite Z.max_r by lia. rewrite val_drop by (unfold len in *; lia). rewrite Z2Nat.id by lia.
    rewrite A, Z.shiftl_mul_pow2 by lia. unfold wrap.
    replace (val B * 2 ^ (64 - len B) * 2 ^ count) with (val B * 2 ^ (64 - (len B - count))).
    2: { rewrite <- Z.mul_assoc, <- Z.pow_add_r by lia. do 2 f_equal. lia. }
    replace 64 with ((len B - count) + (64 - (len B - count))) at 2 by lia. rewrite Z.pow_add_r by lia.
    rewrite Z.mul_mod_distr_r by (apply Z.pow_nonzero; lia). done.
Qed.

Lemma wp_skip count b s n (Q : Result unit -> BitReader.t -> Prop) : holds b s n -> ready count b -> 0 <= count ->
  (count <= n -> forall b', holds b' (drop (Z.to_nat count) s) (n - count) -> Q (Ok tt) b') ->
  (n < count -> forall e, holds b s n -> Q (Err e) b) -> wp (BitReader.skip count) b Q.
Proof.
  intros H R Hc HQ HE. unfold BitReader.skip. pose proof H as (B & HB & Hs & Hn & Hl). unfold wp. rewrite Hn.
  destruct (Z.ltb_spec n count) as [Hlt|Hge]; [eexists _, _; split; [done|]; by apply HE|].
  pose proof (ready_buffered _ _ _ _ H R Hge) as Hbuf. rewrite (proj2 (Z.leb_le _ _) Hbuf).
  eexists _, _. split; [done|]. apply HQ; [done|]. exists (drop (Z.to_nat count) B). pose proof HB as [C F A].
  split_and!; [| |cbn; lia|lia|].
  - rewrite <- Hn. apply buffers_skip; [done|lia].
  - rewrite Hs. cbn. rewrite drop_app_le; [done|unfold len in *; lia].
  - rewrite len_drop. lia.
Qed.

(** [read] takes the bits of a number. *)
Lemma wp_read_bits count b s n (Q : Result Z -> BitReader.t -> Prop) : holds b s n -> 0 <= count <= 32 ->
  (count <= n -> forall b', holds b' (drop (Z.to_nat count) s) (n - count) -> Q (Ok (val (take (Z.to_nat count) s))) b') ->
  (n < count -> forall b' e, holds b' s n -> Q (Err e) b') -> wp (BitReader.read count) b Q.
Proof.
  intros H Hc HQ HE. unfold BitReader.read. pose proof H as (B & _ & _ & _ & Hl).
  destruct (Z.eqb_spec count 0) as [->|Hz].
  { apply wp_ret. apply (HQ ltac:(lia)). cbn. by rewrite Z.sub_0_r, drop_0. }
  wp_step. eapply wp_peek; [done|lia|]. intros b1 H1 R1. cbv beta iota. wp_step.
  eapply wp_skip; [done|done|lia|..].
  - intros Hn b2 H2. cbv beta iota. apply wp_ret. rewrite next_bits_take by lia. by apply HQ.
  - intros Hn e He. cbv beta iota. by apply HE.
Qed.

(** A whole byte at the front of the buffer. *)
Lemma buffers_front b B : buffers b B -> 8 <= len B -> bits 8 (u8_of (byte_of (Z.shiftr (BitReader.acc_ b) 56))) = take 8 B.
Proof.
  intros [C F A] L. pose proof (val_range B). pose proof (val_range (take 8 B)) as Ht. rewrite len_take in Ht.
  rewrite Z.min_l in Ht by lia.
  assert (Z.shiftr (BitReader.acc_ b) 56 = val (take 8 B)) as ->.
  { rewrite A, Z.shiftr_div_pow2 by lia. rewrite val_take by (unfold len in *; lia).
    replace 56 with ((len B - Z.of_nat 8) + (64 - len B)) by lia. rewrite Z.pow_add_r by lia.
    by rewrite Z.div_mul_cancel_r by (apply Z.pow_nonzero; lia). }
  rewrite bits_byte_of. apply val_inj; [rewrite length_bits, length_take; unfold len in *; lia|].
  by rewrite val_bits_small.
Qed.

Lemma unbuffer_spec fuel : forall count b B out, buffers b B -> 0 <= count -> len B < 8 * (Z.of_nat fuel + 1) ->
  exists used run b', BitReader.unbuffer fuel count b out = (count - used, b', out ++ run) /\
    0 <= used <= count /\ 8 * used <= len B /\ bytes_bits run = take (Z.to_nat (8 * used)) B /\
    buffers b' (drop (Z.to_nat (8 * used)) B) /\ BitReader.r_ b' = BitReader.r_ b /\
    BitReader.remaining_ b' = BitReader.remaining_ b /\ (used = count \/ len B - 8 * used < 8).
Proof.
  induction fuel as [|fuel IH]; intros count b B out HB Hc Hf; pose proof (len_nonneg B); cbn [BitReader.unbuffer].
  { exists 0, [], b. rewrite Z.sub_0_r, app_nil_r, drop_0. split_and!; try done; lia. }
  pose proof HB as [C F A]. rewrite C.
  destruct (Z.ltb_spec 0 count) as [H0|H0]; cbn [andb].
  2: { exists 0, [], b. rewrite Z.sub_0_r, app_nil_r, drop_0. split_and!; try done; lia. }
  destruct (Z.leb_spec 8 (len B)) as [H8|H8].
  2: { exists 0, [], b. rewrite Z.sub_0_r, app_nil_r, drop_0. split_and!; try done; lia. }
  pose proof (buffers_skip b B 8 HB ltac:(lia)) as HB'. rewrite C in HB'.
  set (x := byte_of _). destruct (IH (count - 1) (BitReader.mk (BitReader.r_ b) (wrap 64 (BitReader.acc_ b ≪ 8))
    (len B - 8) (BitReader.remaining_ b)) (drop 8 B) (out ++ [x])) as (used & run & b' & E & Hu & Hl & Hb & HB2 & Hr & Hrem & Hd).
  { destruct HB' as [C' F' A']. by split. } { lia. } { rewrite len_drop. lia. }
  rewrite len_drop in Hl, Hd. exists (used + 1), (x :: run), b'. cbn in Hr, Hrem.
  replace (Z.to_nat (8 * (used + 1))) with (8 + Z.to_nat (8 * used))%nat by lia.
  split_and!; [|lia..| | |done|done|lia].
  - rewrite E, <- app_assoc. do 2 f_equal. lia.
  - rewrite bytes_bits_cons, Hb. subst x. rewrite (buffers_front b B) by done.
    by rewrite take_take_drop.
  - by rewrite drop_drop in HB2.
Qed.

Lemma reads_n r count : 0 <= count <= len (Reader.rest r) ->
  exists r', ReaderOps.bytes count r = Ok (take (Z.to_nat count) (Reader.rest r), r') /\
    Reader.rest r' = drop (Z.to_nat count) (Reader.rest r).
Proof.
  intros H. unfold ReaderOps.bytes, Reader.remaining, Reader.size, Reader.position, Reader.data. rewrite len_app.
  rewrite (proj2 (Z.ltb_ge _ _)) by lia. eexists. split; [done|]. done.
Qed.

Lemma wp_read_aligned count out b s n (Q : Result (list byte) -> BitReader.t -> Prop) : holds b s n -> 0 <= count ->
  let d := len s mod 8 in
  let m := n - Z.min d n in
  (8 * count <= m -> forall run b', bytes_bits run = take (Z.to_nat (8 * count)) (drop (Z.to_nat d) s) ->
     holds b' (drop (Z.to_nat (8 * count)) (drop (Z.to_nat d) s)) (m - 8 * count) -> Q (Ok (out ++ run)) b') ->
  (m < 8 * count -> forall b' s' n' e, holds b' s' n' -> Q (Err e) b') -> wp (BitReader.read_aligned count out) b Q.
Proof.
  intros (B & HB & Hs & Hn & Hl) Hc d m HQ HE. pose proof HB as [C F A]. pose proof (len_nonneg B).
  set (rest := Reader.rest (BitReader.r_ b)) in *.
  assert (len s = len B + 8 * len rest) as Hlen by (rewrite Hs; len_lia).
  assert (BitReader.buffered_ b mod 8 = d) as Hd by (rewrite C; subst d; lia).
  unfold BitReader.read_aligned. unfold wp. rewrite Hd, Hn. fold m.
  pose proof (buffers_skip b B d HB ltac:(subst d; lia)) as HB'.
  set (b1 := BitReader.mk (BitReader.r_ b) (wrap 64 (BitReader.acc_ b ≪ d)) (BitReader.buffered_ b - d) m).
  assert (buffers b1 (drop (Z.to_nat d) B)) as HB1 by (destruct HB' as [C' F' A']; by split).
  assert (drop (Z.to_nat d) s = drop (Z.to_nat d) B ++ bytes_bits rest) as Hs1.
  { rewrite Hs, drop_app_le; [done|]. unfold len in *. lia. }
  assert (holds b1 (drop (Z.to_nat d) s) m) as Hh1.
  { exists (drop (Z.to_nat d) B). split_and!; [done|done|done|lia|]. rewrite len_drop. lia. }
  cbn [BitReader.remaining_ BitReader.r_ BitReader.acc_ BitReader.buffered_ b1].
  destruct (Z.ltb_spec (m / 8) count) as [Hlt|Hge].
  { eexists _, _. split; [done|]. eapply HE; [lia|exact Hh1]. }
  set (b2 := BitReader.mk _ _ _ _). change (BitReader.buffered_ b - d) with (BitReader.buffered_ b2).
  destruct (unbuffer_spec (Z.to_nat (BitReader.buffered_ b2 / 8)) count b2 (drop (Z.to_nat d) B) out)
    as (used & run & b3 & E & Hu & Hul & Hrun & HB3 & Hr3 & Hm3 & Hdone).
  { destruct HB1 as [C1 F1 A1]. by split. } { done. } { subst b2. cbn. rewrite len_drop. lia. }
  rewrite E, Hr3. cbn [BitReader.r_ b2]. rewrite len_drop in Hul, Hdone.
  destruct (reads_n (BitReader.r_ b) (count - used)) as (r' & Er & Hr').
  { fold rest. split; [lia|]. destruct Hdone as [->|Hdone]; [pose proof (len_nonneg rest); lia|lia]. }
  rewrite Er. eexists _, _. split; [done|]. rewrite <- app_assoc. fold rest in Hr' |- *.
  rewrite Hs1 in HQ. set (dB := drop (Z.to_nat d) B) in *.
  assert (used = count \/ Z.to_nat (8 * used) = length dB) as Hcase.
  { destruct Hdone as [?|?]; [by left|right]. subst dB. rewrite length_drop. unfold len in *. lia. }
  assert (length dB = Z.to_nat (len B - d)) as HdB by (subst dB; rewrite length_drop; unfold len in *; lia).
  assert (8 * count <= m) as H8m by (clear -Hge; lia).
  apply HQ; [done|..].
  - rewrite bytes_bits_app, Hrun. destruct Hcase as [->|Hu8].
    + rewrite Z.sub_diag, take_0, app_nil_r, take_app_le; [done|lia].
    + rewrite bytes_bits_take, Hu8, firstn_all. replace (Z.to_nat (8 * count)) with (length dB + 8 * Z.to_nat (count - used))%nat by lia.
      by rewrite firstn_app_2.
  - exists (drop (Z.to_nat (8 * used)) dB). split_and!;
      [by destruct HB3 as [C3 F3 A3]; split| |cbn [BitReader.remaining_]; rewrite Hm3; cbn [BitReader.remaining_ b2]; clear; lia|clear -H8m; lia|].
    + cbn. rewrite Hr', bytes_bits_drop. destruct Hcase as [->|Hu8].
      * rewrite Z.sub_diag, Nat.mul_0_r, drop_0, drop_app_le; [done|lia].
      * rewrite Hu8. rewrite (drop_ge dB) by lia. rewrite drop_app_ge by lia. cbn [app]. f_equal. clear -Hu8 Hu. lia.
    + rewrite <- Hs1, !len_drop. lia.
Qed.
End ZgfxBits.
