(* ===== verification/ZgfxHistory.v ===== *)
(** * The history of the ZGFX decompressor

    The ring of [Zgfx.Decompressor] against what it stands for: the last bytes of
    everything that was decoded.  [is_copy] says which bytes a match repeats. *)

From S2P Require Import Prelude Buffers CodecLogic Machine Zgfx.
Open Scope Z_scope.

Module ZgfxHistory.
Import Zgfx.

(** ** The end of a list *)

(** The last [n] elements, or all of them. *)
Definition suffix {A} (n : Z) (l : list A) : list A := drop (Z.to_nat (len l - n)) l.

Section Suffix.
Context {A : Type}.
Implicit Types l k : list A.

Lemma len_suffix n l : 0 <= n -> len (suffix n l) = Z.min n (len l).
Proof. intros H. unfold suffix. len_lia. Qed.

Lemma suffix_all n l : len l <= n -> suffix n l = l.
Proof. intros H. unfold suffix. by replace (Z.to_nat (len l - n)) with 0%nat by lia. Qed.

Lemma suffix_app_le n l k : 0 <= n <= len k -> suffix n (l ++ k) = suffix n k.
Proof.
  intros H. unfold suffix. rewrite len_app, drop_app_ge by (unfold len in *; lia). f_equal. unfold len in *. lia.
Qed.

Lemma suffix_app n l k : len k <= n -> suffix n (l ++ k) = suffix (n - len k) l ++ k.
Proof.
  intros H. unfold suffix. rewrite len_app. replace (len l + len k - n) with (len l - (n - len k)) by lia.
  pose proof (len_nonneg k). rewrite drop_app_le; [done|unfold len in *; lia].
Qed.

Lemma suffix_suffix n m l : 0 <= n <= m -> suffix n (suffix m l) = suffix n l.
Proof.
  intros H. unfold suffix. rewrite len_drop, drop_drop. f_equal. pose proof (len_nonneg l). lia.
Qed.

Lemma suffix_as_drop n l : 0 <= n <= len l -> suffix (len l - n) l = drop (Z.to_nat n) l.
Proof. intros H. unfold suffix. f_equal. lia. Qed.

Lemma suffix_lookup n l (i : nat) : 0 <= n <= len l -> suffix n l !! i = l !! (Z.to_nat (len l - n) + i)%nat.
Proof. intros H. unfold suffix. by rewrite lookup_drop. Qed.
End Suffix.

(** ** What a match stands for *)

(** [l] is the [n] bytes that start [d] bytes back: they may overlap themselves. *)
Definition is_copy (d n : Z) (G l : list byte) : Prop :=
  len l = n /\ forall i, 0 <= i < n -> l !! Z.to_nat i = (G ++ l) !! Z.to_nat (len G - d + i).

Lemma is_copy_unique d n G l l' : 0 < d <= len G -> is_copy d n G l -> is_copy d n G l' -> l = l'.
Proof.
  intros Hd [L H] [L' H'].
  assert (forall k, 0 <= k -> forall i, 0 <= i < n -> i < k -> l !! Z.to_nat i = l' !! Z.to_nat i) as E.
  { intros k Hk. pattern k. apply natlike_ind; [lia| |done]. intros j Hj IH i Hi Hij.
    rewrite H, H' by done. destruct (Z.lt_ge_cases (len G - d + i) (len G)) as [Hlt|Hge].
    - rewrite !lookup_app_l by (unfold len in *; lia). done.
    - rewrite !lookup_app_r by (unfold len in *; lia).
      replace (Z.to_nat (len G - d + i) - length G)%nat with (Z.to_nat (i - d)) by (unfold len in *; lia).
      apply IH; lia. }
  apply list_eq. intros i. destruct (Nat.lt_ge_cases i (length l)) as [Hi|Hi].
  - rewrite <- (Nat2Z.id i). apply (E n); unfold len in *; lia.
  - rewrite !lookup_ge_None_2 by (unfold len in *; lia). done.
Qed.

(** A list that repeats the last [d] bytes is such a copy. *)
Definition cycles (d : Z) (S l : list byte) : Prop :=
  forall i, 0 <= i < len l -> l !! Z.to_nat i = S !! Z.to_nat (i mod d).

Lemma cycles_copy d n G l : 0 < d <= len G -> len l = n -> cycles d (suffix d G) l -> is_copy d n G l.
Proof.
  intros Hd L H. split; [done|]. intros i Hi. rewrite H by lia. destruct (Z.lt_ge_cases i d) as [Hlt|Hge].
  - rewrite Z.mod_small by lia. rewrite suffix_lookup by lia. rewrite lookup_app_l by (unfold len in *; lia). f_equal. lia.
  - rewrite lookup_app_r by (unfold len in *; lia).
    replace (Z.to_nat (len G - d + i) - length G)%nat with (Z.to_nat (i - d)) by (unfold len in *; lia).
    rewrite H by lia. do 2 f_equal. replace i with ((i - d) + 1 * d) at 1 by lia. apply Z.mod_add. lia.
Qed.

Lemma repeat_loop_spec fuel : forall have length d S dst, 0 < d ->
  len dst = have -> 0 < have <= length -> (d | have) \/ have = length -> cycles d S dst -> length - have <= Z.of_nat fuel ->
  exists r, Decompressor.repeat_loop fuel have length dst = Some r /\ len r = length /\ cycles d S r.
Proof.
  induction fuel as [|fuel IH]; intros have length d S dst Hd Hl Hh Hdiv Hc Hf; cbn [Decompressor.repeat_loop].
  { rewrite (proj2 (Z.leb_le _ _)) by lia. exists dst. split_and!; [done|lia|done]. }
  destruct (Z.leb_spec length have) as [Hle|Hgt]; [exists dst; split_and!; [done|lia|done]|].
  destruct Hdiv as [Hdiv|?]; [|lia]. set (n := Z.min have (length - have)).
  assert (len (take (Z.to_nat n) dst) = n) as Hn by (rewrite len_take; subst n; lia).
  apply (IH _ _ d S); [done|rewrite len_app; lia|lia| |..].
  - destruct (Z.le_gt_cases have (length - have)); [left|right; lia].
    apply Z.divide_add_r; [done|]. subst n. by rewrite Z.min_l by lia.
  - intros i Hi. rewrite len_app in Hi. destruct (Z.lt_ge_cases i have) as [Hlt|Hge].
    + rewrite lookup_app_l by (unfold len in *; lia). apply Hc. lia.
    + rewrite lookup_app_r by (unfold len in *; lia).
      replace (Z.to_nat i - List.length dst)%nat with (Z.to_nat (i - have)) by (unfold len in *; lia).
      rewrite lookup_take_lt by lia. rewrite Hc by lia. destruct Hdiv as [q ->].
      do 2 f_equal. replace i with ((i - q * d) + q * d) at 2 by lia. symmetry. apply Z.mod_add. lia.
  - subst n. lia.
Qed.

(** ** The ring *)

(** The ring of [s] is the end of [G]. *)
Record ring_ok (s : Decompressor.t) (G : list byte) : Prop := mkRing {
  ring_len : len (Decompressor.ring s) = Z.min (len G) (history (Decompressor.p s));
  ring_pos_ok : 0 <= Decompressor.ring_pos s < history (Decompressor.p s) /\ Decompressor.ring_pos s <= len (Decompressor.ring s);
  ring_short : len (Decompressor.ring s) < history (Decompressor.p s) -> Decompressor.ring_pos s = len (Decompressor.ring s);
  ring_bytes : drop (Z.to_nat (Decompressor.ring_pos s)) (Decompressor.ring s) ++ take (Z.to_nat (Decompressor.ring_pos s)) (Decompressor.ring s)
    = suffix (history (Decompressor.p s)) G
}.

Definition params_ok (p : Params) : Prop := 0 < history p.

Lemma params_variant v : params_ok (params v).
Proof. by destruct v. Qed.

Lemma ring_empty v pr limit : params_ok pr -> ring_ok (Decompressor.mk v pr limit [] 0) [].
Proof.
  unfold params_ok. intros H. split; cbn [Decompressor.ring Decompressor.ring_pos Decompressor.p]; rewrite ?len_nil; try lia.
  - done.
  - symmetry. apply drop_nil.
Qed.

(** Bytes appended while the ring is still growing. *)
Lemma ring_grow s G x : ring_ok s G -> len (Decompressor.ring s) + len x <= history (Decompressor.p s) -> len (Decompressor.ring s) < history (Decompressor.p s) ->
  ring_ok (Decompressor.with_ring (Decompressor.ring s ++ x) ((len (Decompressor.ring s ++ x)) mod history (Decompressor.p s)) s) (G ++ x).
Proof.
  intros [L P S B] H Hs. rewrite (S Hs) in B. pose proof (len_nonneg x).
  assert (Decompressor.ring s = G) as E.
  { rewrite suffix_all in B by lia. unfold len in B. rewrite Nat2Z.id, drop_all, firstn_all in B. done. }
  rewrite len_app. set (h := history _) in *. split; cbn [Decompressor.ring Decompressor.ring_pos Decompressor.p Decompressor.with_ring]; fold h.
  - rewrite E, !len_app in *. lia.
  - rewrite len_app. pose proof (len_nonneg (Decompressor.ring s)). split; [apply Z.mod_pos_bound; lia|apply Z.mod_le; lia].
  - rewrite len_app. intros Hl. apply Z.mod_small. pose proof (len_nonneg (Decompressor.ring s)). lia.
  - rewrite E in *. rewrite suffix_all by (rewrite len_app; lia).
    destruct (Z.eq_dec (len G + len x) h) as [Eh|Nh].
    + rewrite Eh, Z.mod_same by lia. cbn. by rewrite app_nil_r.
    + rewrite Z.mod_small by lia. rewrite <- len_app. unfold len. rewrite Nat2Z.id. by rewrite drop_all, firstn_all.
Qed.

(** Bytes written over the oldest ones of a full ring, up to its end. *)
Lemma ring_over s G x : ring_ok s G -> len (Decompressor.ring s) = history (Decompressor.p s) ->
  Decompressor.ring_pos s + len x <= history (Decompressor.p s) ->
  ring_ok (Decompressor.with_ring (Decompressor.overwrite (Decompressor.ring_pos s) x (Decompressor.ring s))
    ((Decompressor.ring_pos s + len x) mod len (Decompressor.ring s)) s) (G ++ x).
Proof.
  intros [L P _ B] Hs H. rewrite Hs. set (h := history _) in *. set (r := Decompressor.ring s) in *. set (q := Decompressor.ring_pos s) in *.
  pose proof (len_nonneg x). pose proof (len_nonneg G).
  assert (len (Decompressor.overwrite q x r) = h) as Hlen.
  { unfold Decompressor.overwrite. rewrite !len_app, len_take, len_drop. unfold len in *. lia. }
  split; cbn [Decompressor.ring Decompressor.ring_pos Decompressor.p Decompressor.with_ring]; fold h; rewrite ?Hlen.
  - rewrite len_app. lia.
  - pose proof (Z.mod_pos_bound (q + len x) h). lia.
  - lia.
  - rewrite suffix_app by lia.
    assert (suffix (h - len x) G = drop (length x) (suffix h G)) as ->.
    { rewrite <- (suffix_suffix (h - len x) h) by lia. unfold suffix at 1. rewrite len_suffix by lia. f_equal. unfold len in *. lia. }
    rewrite <- B. unfold Decompressor.overwrite.
    assert (length (take (Z.to_nat q) r) = Z.to_nat q) as Hq by (rewrite length_take; unfold len in *; lia).
    destruct (Z.eq_dec (q + len x) h) as [E|N].
    + rewrite E, Z.mod_same by lia. change (Z.to_nat 0) with 0%nat. rewrite drop_0, take_0, app_nil_r.
      rewrite (drop_ge r (Z.to_nat q + length x)) by (unfold len in *; lia).
      rewrite drop_app_ge by (rewrite length_drop; unfold len in *; lia). rewrite app_nil_r. f_equal.
      replace (length x - length (drop (Z.to_nat q) r))%nat with 0%nat by (rewrite length_drop; unfold len in *; lia). done.
    + rewrite Z.mod_small by lia. replace (Z.to_nat (q + len x)) with (length (take (Z.to_nat q) r) + length x)%nat by (unfold len in *; lia).
      rewrite (app_assoc (take _ r)), <- (length_app (take _ r)), drop_app_length, take_app_length.
      rewrite (drop_app_le (drop _ r)) by (rewrite length_drop; unfold len in *; lia). rewrite drop_drop. by rewrite app_assoc.
Qed.

Lemma record_loop_spec s G x : ring_ok s G -> len x <= history (Decompressor.p s) ->
  x = [] \/ len (Decompressor.ring s) = history (Decompressor.p s) ->
  exists r pos, Decompressor.record_loop 2 x s = Some (Decompressor.with_ring r pos s) /\ ring_ok (Decompressor.with_ring r pos s) (G ++ x).
Proof.
  intros R Hl Hx. cbn [Decompressor.record_loop]. destruct (bool_decide_reflect (x = [])) as [->|Hn].
  { exists (Decompressor.ring s), (Decompressor.ring_pos s). destruct s. rewrite app_nil_r. done. }
  destruct Hx as [?|Hs]; [done|]. pose proof (ring_pos_ok _ _ R) as P. set (n := Z.min _ _).
  pose proof (len_nonneg x). assert (0 < len x) by (destruct x; [done|rewrite len_cons; len_lia]).
  assert (len (take (Z.to_nat n) x) = n) as Hn' by (rewrite len_take; subst n; lia).
  rewrite (proj2 (Z.leb_le 0 n)), (proj2 (Z.leb_le _ (len (Decompressor.ring s)))) by (subst n; lia). cbn [andb].
  pose proof (ring_over s G (take (Z.to_nat n) x) R Hs ltac:(subst n; lia)) as R1. rewrite Hn' in R1.
  set (s1 := Decompressor.with_ring _ _ s) in *. cbn [Decompressor.record_loop].
  destruct (bool_decide_reflect (drop (Z.to_nat n) x = [])) as [E|N].
  { assert (G ++ x = G ++ take (Z.to_nat n) x) as ->; [|by eexists _, _].
    rewrite <- (take_drop (Z.to_nat n) x) at 1. by rewrite E, app_nil_r. }
  assert (n < len x) as Hlt.
  { destruct (Z.lt_ge_cases n (len x)); [done|]. rewrite drop_ge in N by (unfold len in *; lia). done. }
  pose proof (ring_len _ _ R1) as L1. rewrite len_app in L1. cbn [Decompressor.p s1 Decompressor.with_ring] in L1.
  pose proof (ring_len _ _ R) as L0. pose proof (len_nonneg G).
  assert (Decompressor.ring_pos s1 = 0) as P1.
  { subst s1. cbn. replace (Decompressor.ring_pos s + n) with (len (Decompressor.ring s)) by (subst n; lia). apply Z.mod_same. lia. }
  set (m := Z.min _ _). assert (m = len x - n) as Hm by (subst m; rewrite len_drop; lia).
  rewrite P1. rewrite (proj2 (Z.leb_le 0 m)), (proj2 (Z.leb_le _ (len (Decompressor.ring s1)))) by lia. cbn [andb].
  rewrite take_ge by (rewrite length_drop; unfold len in *; lia). rewrite drop_ge by (rewrite length_drop; unfold len in *; lia).
  pose proof (ring_over s1 (G ++ take (Z.to_nat n) x) (drop (Z.to_nat n) x) R1) as R2.
  rewrite P1, len_drop in R2. replace (Z.max 0 (len x - Z.of_nat (Z.to_nat n))) with m in R2 by lia.
  rewrite <- app_assoc, take_drop in R2. eexists _, _. split; [reflexivity|]. apply R2; [|cbn; lia].
  rewrite L1. cbn. lia.
Qed.

Lemma record_spec s G x : ring_ok s G ->
  exists r pos, Decompressor.record x s = Some (Decompressor.with_ring r pos s) /\ ring_ok (Decompressor.with_ring r pos s) (G ++ x).
Proof.
  intros R. unfold Decompressor.record.
  set (y := if history (Decompressor.p s) <? len x then _ else x).
  assert (len y <= history (Decompressor.p s) /\ (y = x \/ history (Decompressor.p s) < len x /\ y = suffix (history (Decompressor.p s)) x /\ len y = history (Decompressor.p s))) as [Hy Hyx].
  { pose proof (ring_pos_ok _ _ R) as P. subst y. destruct (Z.ltb_spec (history (Decompressor.p s)) (len x)) as [Hlt|Hge]; [|split; [lia|by left]].
    fold (suffix (history (Decompressor.p s)) x). rewrite len_suffix by lia. split; [lia|right; split_and!; [done|done|lia]]. }
  assert (forall s', ring_ok s' (G ++ y) -> Decompressor.p s' = Decompressor.p s -> ring_ok s' (G ++ x)) as Hfin.
  { destruct Hyx as [->|(Hl & -> & Hls)]; [done|]. intros s' [L P S B] Hp. pose proof (len_nonneg G). rewrite Hp in *.
    split; rewrite ?Hp;  [|done|done|].
    - rewrite L, !len_app. rewrite Hls. lia.
    - rewrite B. rewrite !suffix_app_le by lia. apply suffix_suffix. lia. }
  clearbody y. destruct (Z.ltb_spec (len (Decompressor.ring s)) (history (Decompressor.p s))) as [Hlt|Hge].
  - set (n := Z.min _ _). set (y1 := take (Z.to_nat n) y). pose proof (len_nonneg y).
    assert (len y1 = n) as Hn by (subst y1; rewrite len_take; subst n; lia).
    pose proof (ring_grow s G y1 R ltac:(subst n; lia) Hlt) as R1. set (s1 := Decompressor.with_ring _ _ s) in *.
    destruct (record_loop_spec s1 (G ++ y1) (drop (Z.to_nat n) y) R1) as (r & pos & E & R2).
    + rewrite len_drop. cbn. lia.
    + destruct (Z.le_gt_cases (len y) n); [left; apply drop_ge; unfold len in *; lia|right].
      subst s1. cbn. rewrite len_app. lia.
    + exists r, pos. rewrite E. split; [by destruct s|]. apply Hfin; [|done]. rewrite <- app_assoc in R2. subst y1.
      rewrite take_drop in R2. by destruct s.
  - destruct (record_loop_spec s G y R) as (r & pos & E & R2); [done|right; pose proof (ring_len _ _ R);  lia|].
    exists r, pos. split; [done|]. by apply Hfin.
Qed.

(** ** Copying out of the ring *)

Lemma subspan_some w k c : 0 <= k -> 0 <= c -> k + c <= len w -> subspan w k c = Some (take (Z.to_nat c) (drop (Z.to_nat k) w)).
Proof.
  intros Hk Hc H. unfold subspan. by rewrite (proj2 (Z.leb_le 0 k)), (proj2 (Z.leb_le 0 c)), (proj2 (Z.leb_le _ (len w))) by done.
Qed.

(** The two pieces around the end of the ring. *)
Lemma ring_pieces (r : list byte) pos d f : 0 <= pos <= len r -> 0 < d <= len r -> 0 <= f <= d ->
  let src := (pos + len r - d) mod len r in
  let before_wrap := Z.min f (len r - src) in
  0 <= src /\ take (Z.to_nat before_wrap) (drop (Z.to_nat src) r) ++ take (Z.to_nat (f - before_wrap)) r
    = take (Z.to_nat f) (suffix d (drop (Z.to_nat pos) r ++ take (Z.to_nat pos) r)).
Proof.
  intros Hp Hd Hf src w. unfold suffix. rewrite len_app, len_drop, len_take.
  replace (Z.to_nat (_ - d)) with (Z.to_nat (len r - d)) by lia. destruct (Z.le_gt_cases d pos) as [Hle|Hgt].
  - assert (src = pos - d) as ->.
    { subst src. replace (pos + len r - d) with ((pos - d) + 1 * len r) by lia. rewrite Z.mod_add, Z.mod_small by lia. done. }
    assert (w = f) as -> by (subst w; lia). split; [lia|].
    rewrite Z.sub_diag, take_0, app_nil_r, drop_app_ge by (rewrite length_drop; unfold len in *; lia).
    rewrite length_drop, skipn_firstn_comm, take_take.
    replace (Z.to_nat (len r - d) - (length r - Z.to_nat pos))%nat with (Z.to_nat (pos - d)) by (unfold len in *; lia).
    f_equal. lia.
  - assert (src = pos + len r - d) as -> by (subst src; apply Z.mod_small; lia). split; [lia|].
    rewrite drop_app_le, drop_drop by (rewrite length_drop; unfold len in *; lia).
    replace (Z.to_nat pos + Z.to_nat (len r - d))%nat with (Z.to_nat (pos + len r - d)) by lia.
    rewrite take_app, length_drop, take_take. f_equal.
    + destruct (Z.le_gt_cases f (d - pos)) as [H|H]; [by replace w with f by lia|].
      rewrite !take_ge; [done|rewrite length_drop; unfold len in *; lia..].
    + f_equal. unfold len in *. lia.
Qed.

Lemma copy_match_spec s G d n out : ring_ok s G -> 0 < d <= len (Decompressor.ring s) -> 0 <= n ->
  exists l, Decompressor.copy_match d n out s = Some (out ++ l) /\ is_copy d n G l.
Proof.
  intros [L P _ B] Hd Hn. unfold Decompressor.copy_match. set (r := Decompressor.ring s) in *. set (pos := Decompressor.ring_pos s) in *.
  pose proof (len_nonneg G).
  destruct (ring_pieces r pos d (Z.min n d)) as [Hs E]; [lia..|]. cbv zeta in Hs, E. rewrite B in E.
  set (src := (pos + len r - d) mod len r) in *. set (w := Z.min (Z.min n d) (len r - src)) in *.
  assert (src < len r) as Hsrc by (subst src; apply Z.mod_pos_bound; lia).
  assert (suffix d (suffix (history (Decompressor.p s)) G) = suffix d G) as Es by (apply suffix_suffix; lia). rewrite Es in E.
  rewrite (subspan_some r src w), (subspan_some r 0) by lia.
  change (Z.to_nat 0) with 0%nat. rewrite drop_0. cbn [base.mbind option_bind]. rewrite E.
  assert (len (suffix d G) = d) as Hls by (rewrite len_suffix; lia).
  destruct (Z.eq_dec n 0) as [->|Hn0].
  { rewrite Z.min_l by lia. exists []. cbn. split; [done|]. split; [done|]. intros i Hi. lia. }
  destruct (repeat_loop_spec (Z.to_nat n) (Z.min n d) n d (suffix d G) (take (Z.to_nat (Z.min n d)) (suffix d G)))
    as (l & Hr & Hl & Hc); [lia|rewrite len_take; lia|lia| |..|lia|].
  - destruct (Z.le_gt_cases n d); [right; lia|left]. rewrite Z.min_r by lia. apply Z.divide_refl.
  - intros i Hi. rewrite len_take in Hi. rewrite Z.mod_small by lia. apply lookup_take_lt. lia.
  - rewrite Hr. exists l. cbn. split; [done|]. apply cycles_copy; [lia|done|done].
Qed.
End ZgfxHistory.
