(* ===== verification/ZgfxDecode.v ===== *)
(** * The ZGFX decompressor on any input

    [Zgfx.Decompressor] never aborts, reads and writes inside its vectors and keeps
    its ring the end of what it has decoded, whatever bytes it is given; the rules
    for its token loop are shared with [ZgfxRoundtrip]. *)

From S2P Require Import Prelude Buffers CodecLogic Machine Bits Zgfx ZgfxBits ZgfxHistory.
Open Scope Z_scope.

Module ZgfxDecode.
Import Zgfx ZgfxBits ZgfxHistory.
Import Decompressor.

(** ** Rules for the locals of the loop *)

Definition same (s s' : t) : Prop := exists r pos, s' = with_ring r pos s.

Lemma same_refl s : same s s.
Proof. exists (ring s), (ring_pos s). by destruct s. Qed.

Lemma same_trans a b c : same a b -> same b c -> same a c.
Proof. intros (r & q & ->) (r' & q' & ->). by exists r', q'. Qed.

Lemma same_p s s' : same s s' -> p s' = p s.
Proof. by intros (r & q & ->). Qed.

(** Everything decoded is the history with what the loop has not recorded yet. *)
Definition loop_ok (l : Loop) (G : list byte) : Prop :=
  exists Hr, ring_ok (self l) Hr /\ G = Hr ++ drop (Z.to_nat (recorded l)) (out l) /\ 0 <= recorded l <= len (out l).

Definition with_bits (b : BitReader.t) (l : Loop) : Loop := mkLoop (self l) b (out l) (recorded l).

Lemma loop_ok_bits b l G : loop_ok l G -> loop_ok (with_bits b l) G.
Proof. done. Qed.

Lemma wp_on_bits {A} (m : M BitReader.t A) l (Q : Result A -> Loop -> Prop) :
  wp m (br l) (fun r b => Q r (with_bits b l)) -> wp (on_bits m) l Q.
Proof. intros (r & b & E & H). unfold wp, on_bits. rewrite E. by eexists _, _. Qed.

Lemma wp_push x l (Q : Result unit -> Loop -> Prop) :
  Q (Ok tt) (mkLoop (self l) (br l) (out l ++ x) (recorded l)) -> wp (push x) l Q.
Proof. intros H. unfold push. by apply wp_mod. Qed.

Lemma loop_ok_push x l G b : loop_ok l G -> loop_ok (mkLoop (self l) b (out l ++ x) (recorded l)) (G ++ x).
Proof.
  intros (Hr & R & -> & Hl). exists Hr. split_and!; [done| |cbn; len_lia..].
  cbn. rewrite drop_app_le by (unfold len in *; lia). by rewrite app_assoc.
Qed.

Lemma wp_sync l G (Q : Result unit -> Loop -> Prop) : loop_ok l G ->
  (forall s', same (self l) s' -> ring_ok s' G -> Q (Ok tt) (mkLoop s' (br l) (out l) (len (out l)))) -> wp sync l Q.
Proof.
  intros (Hr & R & -> & Hl) HQ. unfold sync, wp.
  destruct (record_spec (self l) Hr (drop (Z.to_nat (recorded l)) (out l)) R) as (r & pos & E & R').
  rewrite E. eexists _, _. split; [done|]. apply HQ; [by exists r, pos|done].
Qed.

Lemma loop_ok_synced s b o G : ring_ok s G -> loop_ok (mkLoop s b o (len o)) G.
Proof.
  intros R. exists G. split_and!; [done| |cbn; len_lia..]. cbn. unfold len. by rewrite Nat2Z.id, drop_all, app_nil_r.
Qed.

Lemma wp_copy d n l G (Q : Result unit -> Loop -> Prop) : ring_ok (self l) G -> 0 < d <= len (ring (self l)) -> 0 <= n ->
  (forall x, is_copy d n G x -> Q (Ok tt) (mkLoop (self l) (br l) (out l ++ x) (recorded l))) -> wp (copy d n) l Q.
Proof.
  intros R Hd Hn HQ. unfold copy, wp. destruct (copy_match_spec (self l) G d n (out l) R Hd Hn) as (x & E & Hx).
  rewrite E. eexists _, _. split; [done|]. by apply HQ.
Qed.

(** ** Room *)

(** [n] bytes of output are within both limits. *)
Definition room_for (b : Bounds) (pr : Params) (n : Z) : Prop :=
  segment_start b <= n /\ n - segment_start b <= max_segment pr /\ n <= limit b.

Definition bounds_ok (b : Bounds) (pr : Params) : Prop := 0 <= segment_start b /\ 0 <= limit b < 2 ^ 64 /\ 0 <= max_segment pr < 2 ^ 64.

Lemma check_room_ok pr b n more off : bounds_ok b pr -> room_for b pr n -> room_for b pr (n + more) -> 0 <= more ->
  check_room pr b n more off = Ok tt.
Proof.
  unfold bounds_ok, room_for, check_room, wrap. intros Hb Hn Hm H. change (2 ^ 64) with 18446744073709551616 in *.
  rewrite (Z.mod_small (n - _)), (Z.mod_small (max_segment pr - _)), (Z.mod_small (limit b - n)) by lia.
  by rewrite !(proj2 (Z.ltb_ge _ _)) by lia.
Qed.

Lemma check_room_inv pr b n more off : bounds_ok b pr -> room_for b pr n -> 0 <= more ->
  check_room pr b n more off = Ok tt -> room_for b pr (n + more).
Proof.
  unfold bounds_ok, room_for, check_room, wrap. intros Hb Hn H. change (2 ^ 64) with 18446744073709551616 in *.
  rewrite (Z.mod_small (n - _)), (Z.mod_small (max_segment pr - _)), (Z.mod_small (limit b - n)) by lia.
  destruct (Z.ltb_spec (max_segment pr - (n - segment_start b)) more); [done|].
  destruct (Z.ltb_spec (limit b - n) more); [done|]. lia.
Qed.

Lemma wp_room b more off l (Q : Result unit -> Loop -> Prop) : bounds_ok b (p (self l)) -> room_for b (p (self l)) (len (out l)) -> 0 <= more ->
  (room_for b (p (self l)) (len (out l) + more) -> Q (Ok tt) l) -> (forall e, Q (Err e) l) -> wp (room b more off) l Q.
Proof.
  intros Hb Hr Hm HQ HE. unfold room. exists (check_room (p (self l)) b (len (out l)) more off), l. split; [done|].
  destruct (check_room _ _ _ _ _) as [[]|e] eqn:E; [|apply HE]. apply HQ. by eapply check_room_inv.
Qed.

(** ** Any bits *)

Definition bits_ok (b : BitReader.t) (n : Z) : Prop := exists s, holds b s n.

Lemma bits_ok_nonneg b n : bits_ok b n -> 0 <= n.
Proof. intros (s & B & _ & _ & _ & H). lia. Qed.

Lemma bits_ok_remaining b n : bits_ok b n -> BitReader.remaining_ b = n.
Proof. by intros (s & B & _ & _ & E & _). Qed.

Lemma wp_read_any count b n (Q : Result Z -> BitReader.t -> Prop) : bits_ok b n -> 0 <= count <= 32 ->
  (forall v b', 0 <= v < 2 ^ count -> bits_ok b' (n - count) -> Q (Ok v) b') -> (forall e b', bits_ok b' n -> Q (Err e) b') ->
  wp (BitReader.read count) b Q.
Proof.
  intros (s & H) Hc HQ HE. eapply wp_read_bits; [done|done|..].
  - intros Hn b' H'. apply HQ; [|by eexists]. pose proof (val_range (take (Z.to_nat count) s)) as Hr. rewrite len_take in Hr.
    destruct H as (B & _ & _ & _ & Hl). by rewrite Z.min_l, Z2Nat.id in Hr by lia.
  - intros _ b' e H'. apply HE. by eexists.
Qed.

Lemma wp_ones fuel : forall ones off l n (Q : Result Z -> Loop -> Prop), bits_ok (br l) n -> 1 <= ones -> ones + Z.of_nat fuel = 16 ->
  ones <= 14 ->
  (forall v b n', 1 <= v <= 14 -> bits_ok b n' -> n' <= n -> Q (Ok v) (with_bits b l)) ->
  (forall e b n', bits_ok b n' -> n' <= n -> Q (Err e) (with_bits b l)) -> wp (ones_loop fuel ones off) l Q.
Proof.
  induction fuel as [|fuel IH]; intros ones off l n Q H H1 Hf H14 HQ HE; [lia|]. cbn [ones_loop]. wp_step. apply wp_on_bits.
  eapply wp_read_any; [done|lia|..].
  - intros v b' Hv Hb'. cbv beta iota. destruct (v =? 0); [apply wp_ret; eapply HQ; [lia|done|lia]|].
    destruct (Z.ltb_spec max_length_ones (ones + 1)) as [Hlt|Hge]; [apply wp_fail; eapply HE; [done|lia]|].
    unfold max_length_ones in Hge. eapply IH; [exact Hb'|lia..| |].
    + intros v' b2 n' Hv' Hb2 Hn'. eapply (HQ v' b2 n'); [done|done|lia].
    + intros e b2 n' Hb2 Hn'. eapply (HE e b2 n'); [done|lia].
  - intros e b' Hb'. cbv beta iota. eapply HE; [done|lia].
Qed.

Lemma wp_read_length off l n (Q : Result Z -> Loop -> Prop) : bits_ok (br l) n ->
  (forall v b n', 3 <= v < 65536 -> bits_ok b n' -> n' <= n -> Q (Ok v) (with_bits b l)) ->
  (forall e b n', bits_ok b n' -> n' <= n -> Q (Err e) (with_bits b l)) -> wp (read_length off) l Q.
Proof.
  intros H HQ HE. unfold read_length. wp_step. apply wp_on_bits. eapply wp_read_any; [done|lia|..].
  2: { intros e b' Hb'. cbv beta iota. by eapply HE. }
  intros v b' Hv Hb'. cbv beta iota. destruct (v =? 0); [apply wp_ret; eapply HQ; [unfold min_match; lia|done|lia]|].
  wp_step. eapply (wp_ones 15 1); [exact Hb'|lia..| |].
  2: { intros e b2 n2 Hb2 Hn2. cbv beta iota. eapply (HE e b2); [done|lia]. }
  intros o b2 n2 Ho Hb2 Hn2. cbv beta iota. wp_step. apply wp_on_bits. eapply wp_read_any; [exact Hb2|lia|..].
  2: { intros e b3 Hb3. cbv beta iota. eapply (HE e b3); [done|lia]. }
  intros x b3 Hx Hb3. cbv beta iota. apply wp_ret. eapply (HQ _ b3); [|exact Hb3|lia].
  rewrite Z.shiftl_1_l. pose proof (Z.pow_le_mono_r 2 (o + 1) 15 ltac:(lia) ltac:(lia)).
  pose proof (Z.pow_le_mono_r 2 2 (o + 1) ltac:(lia) ltac:(lia)). change (2 ^ 15) with 32768 in *. lia.
Qed.

(** ** The token table *)

Definition token_of (index : Z) : Token := nth (Z.to_nat index) tokens no_token.

Definition sound_token (t : Token) : bool :=
  (1 <=? prefix_length t) && (prefix_length t <=? 9) && (0 <=? value_bits t) && (value_bits t <=? 32) && (0 <=? token_base t).

Lemma lookup_sound v : 0 <= v < 2 ^ lookup_bits ->
  let index := nth (Z.to_nat v) token_lookup reserved_token in
  index = reserved_token \/ sound_token (token_of index) = true.
Proof.
  intros H. assert (forallb (fun v => let index := nth (Z.to_nat v) token_lookup reserved_token in
    (index =? reserved_token) || sound_token (token_of index)) (Zupto 512) = true) as Hall by (vm_compute; reflexivity).
  pose proof (Zupto_forall 512 _ Hall v H) as Hv. cbv zeta beta in Hv |- *. apply orb_prop in Hv as [E|E]; [left|by right].
  by apply Z.eqb_eq.
Qed.

(** ** One token *)

(** What the loop keeps: the object's parameters, its history, its room. *)
Record inv (b : Bounds) (l0 l : Loop) (n : Z) : Prop := mkInv {
  inv_same : same (self l0) (self l);
  inv_hist : exists G, loop_ok l G;
  inv_room : room_for b (p (self l0)) (len (out l));
  inv_bits : bits_ok (br l) n
}.

Lemma inv_with b l0 l n bits n' : inv b l0 l n -> bits_ok bits n' -> inv b l0 (with_bits bits l) n'.
Proof. intros [S H R B] B'. by split. Qed.

Section Token.
Context (b : Bounds) (l0 : Loop) (B0 : bounds_ok b (p (self l0))).

Lemma inv_bounds l n : inv b l0 l n -> bounds_ok b (p (self l)) /\ room_for b (p (self l)) (len (out l)).
Proof using B0. intros [S _ R _]. by rewrite (same_p _ _ S). Qed.

(** The result of a token: fewer bits are left, and an error may come at any time. *)
Definition progress (n : Z) (r : Result unit) (l : Loop) : Prop :=
  exists n', inv b l0 l n' /\ match r with Ok _ => n' < n | Err _ => True end.

Lemma progress_err n e l n' : inv b l0 l n' -> progress n (Err e) l.
Proof using. intros H. by exists n'. Qed.

Lemma wp_literal l m n off v : inv b l0 l m -> m < n ->
  wp (let$ _ := room b 1 off in push [byte_of v]) l (progress n).
Proof using B0.
  intros I Hm. pose proof (inv_bounds _ _ I) as [HB HR]. wp_step. apply wp_room; [done|done|lia|..].
  - intros Hr. cbv beta iota. apply wp_push. exists m. split; [|done]. destruct I as [S [G H] _ Bi]. split; [done| | |done].
    + exists (G ++ [byte_of v]). by apply loop_ok_push.
    + cbn. rewrite len_app, <- (same_p _ _ S). exact Hr.
  - intros e. cbv beta iota. by eapply progress_err.
Qed.

Lemma wp_unencoded l m n off : inv b l0 l m -> m < n ->
  wp (let$ count := on_bits (BitReader.read 15) in
      let$ _ := room b count off in
      let$ o := mget out in
      let$ o := on_bits (BitReader.read_aligned count o) in
      set_out o) l (progress n).
Proof using B0.
  intros I Hm. wp_step. apply wp_on_bits. pose proof (inv_bits _ _ _ _ I) as Hb. eapply wp_read_any; [exact Hb|lia|..].
  2: { intros e b' Hb'. cbv beta iota. eapply progress_err, inv_with; [exact I|exact Hb']. }
  intros count b' Hc Hb'. cbv beta iota. pose proof (inv_with _ _ _ _ _ _ I Hb') as I'. pose proof (inv_bounds _ _ I') as [HB HR].
  wp_step. apply wp_room; [done|done|lia|..].
  2: { intros e. cbv beta iota. by eapply progress_err. }
  intros Hr. cbv beta iota. wp_step. apply wp_get. cbv beta iota. wp_step. apply wp_on_bits.
  destruct Hb' as (s & Hs). eapply wp_read_aligned; [exact Hs|lia|..].
  2: { intros _ b2 s2 n2 e H2. cbv beta iota. eapply progress_err, inv_with; [exact I'|by exists s2]. }
  intros Hle run b2 Hrun H2. cbv beta iota. apply wp_mod. eexists. split.
  - destruct I' as [S [G H] _ _]. split; [done| | |eexists; exact H2].
    + exists (G ++ run). by apply (loop_ok_push run (with_bits b' l) G b2).
    + cbn in Hr |- *. apply (f_equal len) in Hrun. rewrite len_bytes_bits, len_take, len_drop in Hrun.
      rewrite len_app.
      assert (len run = count) as ->; [|by rewrite <- (same_p _ _ S)]. pose proof (bits_ok_nonneg _ _ (ex_intro _ s Hs)).
      destruct Hs as (B & _ & _ & _ & Hl). lia.
  - cbv beta iota. pose proof (bits_ok_nonneg _ _ (ex_intro _ s Hs)). lia.
Qed.

Lemma wp_match l m n off d : inv b l0 l m -> m < n -> 0 < d ->
  wp (let$ length := read_length off in
      let$ _ := sync in
      let$ ring_size := mget (fun l => len (ring (self l))) in
      if ring_size <? d then mfail invalid_value "ZGFX match distance reaches before the history" off
      else
        let$ _ := room b length off in
        copy d length) l (progress n).
Proof using B0.
  intros I Hm Hd. wp_step. eapply wp_read_length; [exact (inv_bits _ _ _ _ I)|..].
  2: { intros e b' n' Hb' Hn'. cbv beta iota. eapply progress_err, inv_with; [exact I|exact Hb']. }
  intros len' b' n' Hl Hb' Hn'. cbv beta iota. pose proof (inv_with _ _ _ _ _ _ I Hb') as I'.
  wp_step. destruct (inv_hist _ _ _ _ I') as [G HG]. eapply wp_sync; [exact HG|]. intros s' Ss R. cbv beta iota.
  set (l2 := mkLoop _ _ _ _). assert (inv b l0 l2 n') as I2.
  { destruct I' as [S _ Rm Bi]. split; [by eapply same_trans|exists G; by apply loop_ok_synced|exact Rm|exact Bi]. }
  wp_step. apply wp_get. cbv beta iota. destruct (Z.ltb_spec (len (ring (self l2))) d) as [Hlt|Hge].
  { apply wp_fail. by eapply progress_err. }
  pose proof (inv_bounds _ _ I2) as [HB HR]. wp_step. apply wp_room; [done|done|lia|..].
  2: { intros e. cbv beta iota. by eapply progress_err. }
  intros Hr. cbv beta iota. apply (wp_copy d len' l2 G); [exact R|lia|lia|]. intros x [Hx _].
  exists n'. split; [|lia]. destruct I2 as [S [G2 H2] _ Bi]. split; [done| | |done].
  - exists (G2 ++ x). by apply loop_ok_push.
  - cbn [out]. rewrite len_app, Hx, <- (same_p _ _ S). exact Hr.
Qed.

Lemma decode_token_safe l n : inv b l0 l n -> 0 < n -> wp (decode_token b) l (progress n).
Proof using B0.
  intros I Hn. unfold decode_token. wp_step. apply wp_get. cbv beta iota. set (off := BitReader.offset _). clearbody off.
  wp_step. apply wp_on_bits. destruct (inv_bits _ _ _ _ I) as (s & Hs). eapply wp_peek; [exact Hs|unfold lookup_bits; lia|].
  intros b' Hb' Rd. cbv beta iota. pose proof (next_bits_range lookup_bits s ltac:(unfold lookup_bits; lia)) as Hr.
  pose proof (lookup_sound _ Hr) as Hi. cbv zeta in Hi. set (index := nth _ token_lookup _) in *.
  pose proof (inv_with _ _ _ _ _ _ I (ex_intro _ s Hb')) as I1.
  destruct (Z.eqb_spec index reserved_token) as [E|N]; [apply wp_fail; by eapply progress_err|].
  destruct Hi as [?|Ht]; [done|]. fold (token_of index). set (token := token_of index) in *. clearbody token. clear N.
  unfold sound_token in Ht. bools. wp_step. apply wp_on_bits. eapply (wp_skip (prefix_length token)); [exact Hb'| |lia|..].
  { eapply ready_le; [exact Rd|]. unfold lookup_bits. lia. }
  2: { intros _ e He. cbv beta iota. eapply progress_err. exact I1. }
  intros Hp b2 Hb2. cbv beta iota. wp_step. apply wp_on_bits. eapply (wp_read_any (value_bits token)); [by eexists|lia|..].
  2: { intros e b3 Hb3. cbv beta iota. eapply progress_err. exact (inv_with _ _ _ _ _ _ I1 Hb3). }
  intros v b3 Hv Hb3. cbv beta iota. pose proof (inv_with _ _ _ _ _ _ I1 Hb3) as I3.
  destruct (negb (is_match token)); [eapply wp_literal; [exact I3|lia]|].
  destruct (Z.eqb_spec (token_base token + v) 0) as [E0|N0]; [eapply wp_unencoded; [exact I3|lia]|].
  eapply wp_match; [exact I3|lia|lia].
Qed.

Lemma decode_loop_safe fuel : forall l n, inv b l0 l n -> n < Z.of_nat fuel ->
  wp (decode_loop fuel b) l (fun r l' => exists n', inv b l0 l' n' /\ match r with Ok _ => recorded l' = len (out l') | Err _ => True end).
Proof using B0.
  induction fuel as [|fuel IH]; intros l n I Hf; [pose proof (bits_ok_nonneg _ _ (inv_bits _ _ _ _ I)); lia|].
  cbn [decode_loop]. wp_step. apply wp_get. cbv beta iota. rewrite (bits_ok_remaining _ _ (inv_bits _ _ _ _ I)).
  destruct (Z.ltb_spec 0 n) as [Hn|Hn].
  - wp_step. eapply wp_mono; [by apply decode_token_safe|]. intros r l' (n' & I' & Hr). destruct r as [[]|e].
    + apply (IH l' n'); [done|lia].
    + by exists n'.
  - destruct (inv_hist _ _ _ _ I) as [G HG]. eapply wp_sync; [exact HG|]. intros s' Ss R. exists n. split; [|done].
    destruct I as [S _ Rm Bi]. split; [by eapply same_trans|exists G; by apply loop_ok_synced|exact Rm|exact Bi].
Qed.
End Token.

(** ** Segments and messages *)

(** The limits of an object are those of its variant, and fit their types. *)
Definition params_fit (s : t) : Prop := p s = params (variant s) /\ 0 <= max_output s < 2 ^ 64.

Lemma params_fit_same s s' : same s s' -> params_fit s -> params_fit s'.
Proof. by intros (r & q & ->). Qed.

Lemma max_segment_fits v : 0 < max_segment (params v) < 2 ^ 64.
Proof. by destruct v. Qed.

(** The result of decoding from [s]: its history is known whatever happens. *)
Definition decoded (s : t) (limit : Z) (r : Result (list byte)) (s' : t) : Prop :=
  same s s' /\ (exists G, ring_ok s' G) /\ match r with Ok o => len o <= limit | Err _ => True end.

Lemma decoded_err s G limit e : ring_ok s G -> decoded s limit (Err e) s.
Proof. intros H. split_and!; [apply same_refl|by exists G|done]. Qed.

Lemma reader_make_holds r : Reader.seen r = [] -> forall n, 0 <= n <= Reader.size r * 8 ->
  exists b, BitReader.make r n = Some b /\ holds b (bytes_bits (Reader.rest r)) n.
Proof.
  intros Hs n Hn. unfold BitReader.make. rewrite (proj2 (Z.leb_le _ _)) by lia. eexists. split; [done|].
  assert (Reader.size r = len (Reader.rest r)) as Hr by (unfold Reader.size, Reader.data; by rewrite Hs).
  exists []. split_and!; [split; cbn; done|done|done|lia|rewrite len_bytes_bits; lia].
Qed.

Lemma sub_seen n r sr r' : ReaderOps.sub n r = Ok (sr, r') -> Reader.seen sr = [].
Proof. intros (o & r1 & [= <- <-] & (v & r2 & _ & [= <- <-])%dbind_inv)%dbind_inv. done. Qed.

Lemma decode_segment_safe seg o limit err s G : ring_ok s G -> params_fit s -> len o <= limit < 2 ^ 64 ->
  wp (decode_segment seg o limit err) s (decoded s limit).
Proof.
  intros R [Hp Hm] Ho. unfold decode_segment. wp_step. apply wp_get. cbv beta iota zeta. pose proof (max_segment_fits (variant s)) as Hms.
  wp_step. apply wp_read. intros [[header seg1]|e] E; [|by eapply decoded_err]. cbv beta iota.
  destruct (negb (_ =? type (p s))); [apply wp_fail; by eapply decoded_err|].
  assert (bounds_ok (mkBounds (len o) limit err) (p s)) as HB by (split_and!; cbn; rewrite ?Hp; len_lia).
  assert (room_for (mkBounds (len o) limit err) (p s) (len o)) as HR by (split_and!; cbn; rewrite ?Hp; lia).
  destruct (negb (has_bits header packet_compressed)).
  { wp_step. apply wp_lift. destruct (check_room _ _ _ _ _) as [[]|e] eqn:Ec; [|by eapply decoded_err]. cbv beta iota.
    apply check_room_inv in Ec as (_ & _ & Hc); [|done|done|apply len_nonneg]. cbn in Hc.
    destruct (record_spec s G (Reader.rest seg1) R) as (r & q & Er & R'). rewrite Er. wp_step. apply wp_mod. cbv beta iota. apply wp_ret.
    split_and!; [by exists r, q|by eexists|]. by rewrite len_app. }
  destruct (Reader.empty seg1); [apply wp_fail; by eapply decoded_err|].
  wp_step. apply wp_read. intros [[stream seg2]|e] Es; [|by eapply decoded_err]. cbv beta iota zeta.
  wp_step. apply wp_read. intros [[unused seg3]|e] Eu; [|by eapply decoded_err]. cbv beta iota zeta.
  destruct (7 <? unused); [apply wp_fail; by eapply decoded_err|].
  destruct (Z.ltb_spec (Reader.size stream * 8) unused) as [Hlt|Hge]; [apply wp_fail; by eapply decoded_err|].
  apply read_le_inv in Eu as (raw & _ & _ & Hu & _). unfold decode_bits.
  destruct (reader_make_holds stream (sub_seen _ _ _ _ Es) (Reader.size stream * 8 - unused)) as (b & Eb & Hb); [lia|].
  set (n := Reader.size stream * 8 - unused) in *. set (l0 := mkLoop s b o (len o)).
  destruct (decode_loop_safe (mkBounds (len o) limit err) l0 HB (S (Z.to_nat n)) l0 n) as (r & l & El & n' & I & _).
  { split; [apply same_refl|exists G; by apply loop_ok_synced|done|by eexists]. }
  { lia. }
  unfold wp. cbv zeta. fold n. rewrite Eb. fold l0. rewrite El. destruct I as [S [G' (Hr & R' & _)] (_ & _ & Hl) _].
  destruct r as [[]|e]; eexists _, _; split; [done|by split_and!; [|exists Hr|]|done|by split_and!; [|exists Hr|]].
Qed.

Lemma parts_loop_safe k : forall size r o s G, ring_ok s G -> params_fit s -> len o <= size < 2 ^ 64 ->
  wp (parts_loop k size r o) s (fun x s' => decoded s size (match x with Ok (_, o') => Ok o' | Err e => Err e end) s').
Proof.
  induction k as [|k IH]; intros size r o s G R F Ho; cbn [parts_loop].
  { apply wp_ret. split_and!; [apply same_refl|by exists G|lia]. }
  wp_step. apply wp_read. intros [[n r1]|e] _; [|by eapply decoded_err]. cbv beta iota.
  wp_step. apply wp_read. intros [[seg r2]|e] _; [|by eapply decoded_err]. cbv beta iota.
  wp_step. eapply wp_mono; [eapply decode_segment_safe; [exact R|exact F|lia]|]. intros x s1 (S & [G1 R1] & Hl).
  destruct x as [o1|e]; [|by split_and!; [|exists G1|]].
  eapply wp_mono; [eapply (IH size r2 o1 s1 G1); [done|by eapply params_fit_same|lia]|].
  intros x s2 (S2 & H2 & Hl2). split_and!; [by eapply same_trans|done|done].
Qed.

Lemma decompress_decoded data s G : ring_ok s G -> params_fit s -> wp (decompress data) s (decoded s (max_output s)).
Proof.
  intros R F. pose proof F as [Hp Hm]. pose proof (fun e => decoded_err s G (max_output s) e R) as HE.
  unfold decompress. wp_step. apply wp_get. cbv beta iota zeta.
  wp_step. apply wp_read. intros [[d r]|e] _; [|apply HE]. cbv beta iota.
  destruct (d =? descriptor_single).
  { wp_step. apply wp_read. intros [[seg r1]|e] _; [|apply HE]. cbv beta iota.
    eapply decode_segment_safe; [exact R|done|rewrite len_nil; lia]. }
  destruct (negb (d =? descriptor_multipart)); [apply wp_fail, HE|].
  wp_step. apply wp_read. intros [[count r1]|e] _; [|apply HE]. cbv beta iota.
  wp_step. apply wp_read. intros [[size r2]|e] Es; [|apply HE]. cbv beta iota.
  apply read_le_inv in Es as (raw & _ & _ & Hs & _).
  destruct (count =? 0); [apply wp_fail, HE|]. destruct (Z.ltb_spec (max_output s) size); [apply wp_fail, HE|].
  destruct (count * max_segment (p s) <? size); [apply wp_fail, HE|].
  destruct (Reader.remaining r2 / 5 <? count); [apply wp_fail, HE|].
  wp_step. eapply wp_mono; [eapply (parts_loop_safe (Z.to_nat count) size r2 [] s G); [done|done|rewrite len_nil; lia]|].
  intros x s1 (S & R1 & Hl). destruct x as [[r3 o]|e]; [|by split_and!].
  wp_step. apply wp_read. intros [[[] r4]|e] _; [|by split_and!]. cbv beta iota.
  destruct (negb (len o =? size)); [apply wp_fail; by split_and!|]. apply wp_ret. split_and!; [done|done|lia].
Qed.

(** ** Every state *)

(** A decompressor after any calls, with any bytes, errors included. *)
Inductive reached (v : ZgfxVariant) (limit : Z) : t -> Prop :=
  | reached_make : reached v limit (make v limit)
  | reached_reset s : reached v limit s -> reached v limit (reset s)
  | reached_decompress s data r s' : reached v limit s -> decompress data s = Some (r, s') -> reached v limit s'.

Lemma reached_ok v limit s : 0 <= limit < 2 ^ 64 -> reached v limit s ->
  (exists G, ring_ok s G) /\ params_fit s /\ variant s = v /\ max_output s = limit.
Proof.
  intros Hl H. induction H as [|s _ ((G & R) & F & Hv & Hm)|s data r s' _ ((G & R) & F & Hv & Hm) E].
  - split_and!; [exists []; apply ring_empty, params_variant|done|done|done].
  - split_and!; [exists []; apply ring_empty|done|done|done]. destruct F as [-> _]. apply params_variant.
  - pose proof (decompress_decoded data s G R F) as W. eapply wp_run in W as (S & H' & _); [|exact E].
    split_and!; [done|by eapply params_fit_same|by destruct S as (? & ? & ->)..].
Qed.

(** C20: Whatever messages a peer has sent, malformed ones and resets among them, a
    ZGFX decompressor takes any further bytes without an access outside a vector
    or a failed assertion and returns; what it returns is within the output
    limit, and its ring within the history of its variant. *)
Theorem zgfx_decompress_safe v limit s data : 0 <= limit < 2 ^ 64 -> reached v limit s ->
  exists r s', decompress data s = Some (r, s') /\
    match r with Ok o => len o <= limit | Err _ => True end /\
    len (ring s') <= history (params v) /\ 0 <= ring_pos s' < history (params v).
Proof.
  intros Hl H. destruct (reached_ok v limit s Hl H) as ((G & R) & F & Hv & Hm).
  destruct (decompress_decoded data s G R F) as (r & s' & E & S & (G' & R') & Ho). exists r, s'. rewrite Hm in Ho.
  destruct F as [Hp _]. rewrite Hv in Hp. rewrite <- Hp, <- (same_p _ _ S). destruct R' as [L P _ _].
  split_and!; [done|done|lia|lia|lia].
Qed.

(** A segment that announces more than it has, and one behind it. *)
Lemma zgfx_decompress_safe_witness :
  let s := make rdp8_lite 100 in
  let bad := byte_of <$> [0xE0; 0x26; 0x88; 0x00] in
  exists r s', decompress bad (reset s) = Some (r, s') /\
    match r with Ok o => len o <= 100 | Err _ => True end /\
    len (ring s') <= history (params rdp8_lite) /\ 0 <= ring_pos s' < history (params rdp8_lite).
Proof.
  intros s bad. apply (zgfx_decompress_safe rdp8_lite 100); [done|]. apply reached_reset, reached_make.
Defined.
End ZgfxDecode.
