(* ===== verification/ZgfxTokens.v ===== *)
(** * The token code of ZGFX

    What a bit stream spells: [spelled] and [spells] say which bits stand for
    which bytes after a history.  [Zgfx.Decompressor] reads back whatever is
    spelled; that [Zgfx.Compressor] writes only such streams is in
    [ZgfxCompressor]. *)

From S2P Require Import Prelude Buffers CodecLogic Machine Bits Zgfx ZgfxBits ZgfxHistory ZgfxDecode.
Open Scope Z_scope.

Module ZgfxTokens.
Import Zgfx ZgfxBits ZgfxHistory ZgfxDecode.

(** ** Codes *)

Definition spelling (c : Code) : list bool := bits (Z.to_nat (code_length c)) (code_bits c).

Definition code_ok (c : Code) : bool :=
  (0 <=? code_length c) && (code_length c <=? 32) && (0 <=? code_bits c) && (code_bits c <? 2 ^ code_length c).

Lemma put_code_content c w : writing w -> code_ok c = true ->
  writing (BitWriter.put_code c w) /\ content (BitWriter.put_code c w) = content w ++ spelling c.
Proof. intros W H. unfold code_ok in H. bools. apply put_content; [done|lia|lia]. Qed.

Definition value_ok (t : Token) (v : Z) : Prop := 0 <= v < 2 ^ value_bits t.

(** The bits of a token with its value. *)
Definition token_bits (t : Token) (v : Z) : list bool :=
  bits (Z.to_nat (prefix_length t)) (prefix t) ++ bits (Z.to_nat (value_bits t)) v.

(** The compile-time checks of the tables. *)
Lemma prefix_code : is_prefix_code = true /\ len (filter (fun i => i = reserved_token) token_lookup) = 16 + 4.
Proof. split; vm_compute; reflexivity. Qed.

(** *** Literals *)

Definition spells_literal (i b : Z) : bool :=
  let t := token_of i in
  let c := literal_code (byte_of b) in
  let v := b - token_base t in
  negb (is_match t) && (0 <=? v) && (v <? 2 ^ value_bits t)
  && (code_length c =? prefix_length t + value_bits t) && (code_bits c =? prefix t * 2 ^ value_bits t + v).

Lemma literal_token b : exists i, 0 <= i < 37 /\ code_ok (literal_code b) = true /\ spells_literal i (u8_of b) = true.
Proof.
  assert (forallb (fun b => code_ok (literal_code (byte_of b)) && existsb (fun i => spells_literal i b) (Zupto 37)) (Zupto 256) = true)
    as H by (vm_compute; reflexivity).
  pose proof (Zupto_forall 256 _ H (u8_of b) (u8_of_range b)) as Hb. cbv beta in Hb. rewrite byte_of_u8_of in Hb.
  apply andb_prop in Hb as [Hc (i & Hi & E)%existsb_exists]. exists i. split; [|exact (conj Hc E)].
  unfold Zupto in Hi. apply list_elem_of_In, list_elem_of_fmap in Hi as (k & -> & Hk). apply list_elem_of_In, in_seq in Hk. lia.
Qed.

(** *** The prefixes *)

Definition token_ok (i : Z) : bool :=
  let t := token_of i in
  let free := 9 - prefix_length t in
  sound_token t && code_ok (mkCode (prefix t) (prefix_length t)) &&
  forallb (fun r => negb (r <? 2 ^ free) || (nth (Z.to_nat (prefix t * 2 ^ free + r)) token_lookup reserved_token =? i)) (Zupto 256).

Lemma tokens_ok i : 0 <= i < 37 -> token_ok i = true.
Proof.
  assert (forallb token_ok (Zupto 37) = true) as H by (vm_compute; reflexivity). exact (Zupto_forall 37 _ H i).
Qed.

(** The lookup finds a token by the bits it starts with. *)
Lemma token_found i r : 0 <= i < 37 -> 0 <= r < 2 ^ (9 - prefix_length (token_of i)) ->
  nth (Z.to_nat (prefix (token_of i) * 2 ^ (9 - prefix_length (token_of i)) + r)) token_lookup reserved_token = i.
Proof.
  intros Hi Hr. pose proof (tokens_ok i Hi) as H. unfold token_ok, sound_token in H. bools.
  assert (2 ^ (9 - prefix_length (token_of i)) <= 2 ^ 8) as Hle by (apply Z.pow_le_mono_r; lia). change (2 ^ 8) with 256 in Hle.
  match goal with Hf : forallb _ _ = true |- _ => pose proof (Zupto_forall 256 _ Hf r ltac:(lia)) as E end.
  cbv beta in E. rewrite (proj2 (Z.ltb_lt r _)) in E by lia. cbn [negb orb] in E. by apply Z.eqb_eq.
Qed.

Lemma next_bits_app n m q s : len q = n -> 0 <= m -> next_bits (n + m) (q ++ s) = val q * 2 ^ m + next_bits m s.
Proof.
  intros <- Hm. pose proof (len_nonneg q). unfold next_bits. rewrite Z2Nat.inj_add by lia. unfold len at 1. rewrite Nat2Z.id.
  rewrite <- app_assoc, firstn_app_2, val_app, len_take, len_app, len_replicate.
  f_equal; [do 2 f_equal; len_lia|]. rewrite !take_app, !take_replicate. do 3 f_equal. lia.
Qed.

Lemma bits_token_app i v s : 0 <= i < 37 -> value_ok (token_of i) v ->
  nth (Z.to_nat (next_bits lookup_bits (token_bits (token_of i) v ++ s))) token_lookup reserved_token = i.
Proof.
  intros Hi Hv. pose proof (tokens_ok i Hi) as H. unfold token_ok, sound_token, code_ok in H. cbn [code_bits code_length] in H. bools.
  unfold token_bits. rewrite <- app_assoc.
  replace lookup_bits with (prefix_length (token_of i) + (9 - prefix_length (token_of i))) by (unfold lookup_bits; lia).
  rewrite next_bits_app by (rewrite ?len_bits; lia). rewrite val_bits_small by (rewrite Z2Nat.id by lia; lia).
  apply token_found; [done|]. apply next_bits_range. lia.
Qed.

(** *** Match lengths and distances *)

Lemma length_code_eq n : 3 < n < 65536 -> exists k, 1 <= k <= 14 /\ 2 ^ (k + 1) <= n < 2 ^ (k + 2) /\
  length_code n = mkCode ((2 ^ k - 1) * 2 ^ (k + 2) + (n - 2 ^ (k + 1))) (2 * k + 2).
Proof.
  intros H. set (k := Z.log2 n - 1). exists k. destruct (Z.log2_spec n) as [L1 L2]; [lia|].
  assert (2 <= Z.log2 n) as Hlo by (change 2 with (Z.log2 4); apply Z.log2_le_mono; lia).
  assert (Z.log2 n <= 15) as Hhi by (change 15 with (Z.log2 65535); apply Z.log2_le_mono; lia).
  replace (Z.log2 n) with (k + 1) in L1, L2 by lia. replace (Z.succ (k + 1)) with (k + 2) in L2 by lia.
  split_and!; [lia..|]. unfold length_code, min_match, bit_width. rewrite (proj2 (Z.eqb_neq n 3)), (proj2 (Z.eqb_neq n 0)) by lia.
  replace (Z.log2 n + 1 - 2) with k by lia. f_equal. rewrite !Z.shiftl_1_l.
  assert (2 ^ (k + 2) <= 2 ^ 16) as Hp by (apply Z.pow_le_mono_r; lia). change (2 ^ 16) with 65536 in Hp.
  assert (2 ^ (k + 2) = 2 * 2 ^ (k + 1)) as Hd by (rewrite <- Z.pow_succ_r by lia; f_equal; lia).
  assert (2 ^ (k + 1) = 2 * 2 ^ k) as Hd1 by (rewrite <- Z.pow_succ_r by lia; f_equal; lia).
  unfold wrap. change (2 ^ 32) with 4294967296. rewrite (Z.mod_small (n - _)) by lia.
  rewrite (Z.shiftl_mul_pow2 _ 1) by lia. change (2 ^ 1) with 2. rewrite Z.shiftl_mul_pow2 by lia.
  assert (0 <= (2 ^ k - 1) * 2 * 2 ^ (k + 1) < 4294967296) as Hr by nia.
  rewrite Z.mod_small by done. rewrite <- (Z.shiftl_mul_pow2 _ (k + 1)) by lia. rewrite lor_disjoint by lia. nia.
Qed.

Ltac row i :=
  exists i; split; [lia|split; [reflexivity|]];
  let t := eval vm_compute in (token_of i) in change (token_of i) with t; cbn [token_base value_bits];
  lazymatch goal with |- context [2 ^ ?n] => let k := eval vm_compute in (2 ^ n) in change (2 ^ n) with k end; lia.

(** The row of a distance: its base is not above it, and its values reach it. *)
Lemma search_row d : 0 < d <= 2500000 -> exists i, 1 <= i <= 11 /\ search_tokens (rev match_tokens) d = token_of i /\
  0 <= d - token_base (token_of i) < 2 ^ value_bits (token_of i).
Proof.
  intros H. let l := eval vm_compute in (rev match_tokens) in change (rev match_tokens) with l. cbn [search_tokens token_base].
  repeat match goal with |- context [d <? ?k] => destruct (Z.ltb_spec d k) end;
    first [lia | row 1 | row 2 | row 3 | row 4 | row 5 | row 6 | row 7 | row 8 | row 9 | row 10 | row 11].
Qed.

Lemma distance_token d : 0 < d <= 2500000 -> exists i, 1 <= i <= 11 /\
  value_ok (token_of i) (d - token_base (token_of i)) /\
  distance_code d = mkDistance (mkCode (prefix (token_of i)) (prefix_length (token_of i)))
    (mkCode (d - token_base (token_of i)) (value_bits (token_of i))).
Proof.
  intros H. destruct (search_row d H) as (i & Hi & E & Hv). exists i. unfold distance_code. by rewrite E.
Qed.

Lemma match_token i : 1 <= i <= 11 -> is_match (token_of i) = true.
Proof.
  intros H. assert (forallb (fun i => (i <? 1) || is_match (token_of i)) (Zupto 12) = true) as Hall by (vm_compute; reflexivity).
  pose proof (Zupto_forall 12 _ Hall i ltac:(lia)) as E. cbv beta in E. by rewrite (proj2 (Z.ltb_ge i 1)) in E by lia.
Qed.

Lemma token_sizes i : 0 <= i < 37 -> 1 <= prefix_length (token_of i) <= 9 /\ 0 <= value_bits (token_of i) <= 32 /\
  0 <= prefix (token_of i) < 2 ^ prefix_length (token_of i).
Proof.
  intros Hi. pose proof (tokens_ok i Hi) as H. unfold token_ok, sound_token, code_ok in H. cbn [code_bits code_length] in H. bools. lia.
Qed.

Lemma len_token_bits i v : 0 <= i < 37 -> len (token_bits (token_of i) v) = prefix_length (token_of i) + value_bits (token_of i).
Proof. intros Hi. pose proof (token_sizes i Hi). unfold token_bits. rewrite len_app, !len_bits. lia. Qed.

(** ** What bits stand for *)

(** The head of an unencoded run of [n] bytes. *)
Definition run_head (n : Z) : list bool := token_bits zero_token 0 ++ bits 15 n.

Definition match_bits (d n : Z) : list bool :=
  spelling (d_prefix (distance_code d)) ++ spelling (d_value (distance_code d)) ++ spelling (length_code n).

(** One token: with history [G], of which [h] bytes are kept, and the bits [c] in
    front of it, it stands for these bytes. *)
Inductive spelled (h : Z) (G : list byte) (c : list bool) : list bool -> list byte -> Prop :=
  | spelled_literal b : spelled h G c (spelling (literal_code b)) [b]
  | spelled_run x : len x < 32768 -> spelled h G c (run_head (len x) ++ padding (c ++ run_head (len x)) ++ bytes_bits x) x
  | spelled_match d n x : 0 < d <= Z.min (len G) h -> 3 <= n < 65536 -> is_copy d n G x -> spelled h G c (match_bits d n) x.

Inductive spells (h : Z) (G : list byte) (c : list bool) : list bool -> list byte -> Prop :=
  | spells_nil : spells h G c [] []
  | spells_cons e x e' x' : spelled h G c e x -> spells h (G ++ x) (c ++ e) e' x' -> spells h G c (e ++ e') (x ++ x').

Lemma spells_app h G c e x e' x' : spells h G c e x -> spells h (G ++ x) (c ++ e) e' x' -> spells h G c (e ++ e') (x ++ x').
Proof.
  induction 1 as [G c|G c e1 x1 e2 x2 H1 H2 IH]; intros H; [by rewrite !app_nil_r in H|].
  rewrite <- !app_assoc. apply spells_cons; [done|]. apply IH. by rewrite !app_assoc in *.
Qed.

Lemma spells_one h G c e x : spelled h G c e x -> spells h G c e x.
Proof. intros H. rewrite <- (app_nil_r e), <- (app_nil_r x). apply spells_cons; [done|]. apply spells_nil. Qed.

(** ** Reading a token *)

(** What is done with a token and its value. *)
Definition token_body (b : Decompressor.Bounds) (t : Token) (v off : Z) : M Decompressor.Loop unit :=
  if negb (is_match t) then
    let$ _ := Decompressor.room b 1 off in
    Decompressor.push [byte_of (token_base t + v)]
  else
    let d := token_base t + v in
    if d =? 0 then
      let$ count := Decompressor.on_bits (BitReader.read 15) in
      let$ _ := Decompressor.room b count off in
      let$ o := mget Decompressor.out in
      let$ o := Decompressor.on_bits (BitReader.read_aligned count o) in
      Decompressor.set_out o
    else
      let$ n := Decompressor.read_length off in
      let$ _ := Decompressor.sync in
      let$ size := mget (fun l => len (Decompressor.ring (Decompressor.self l))) in
      if size <? d then mfail invalid_value "ZGFX match distance reaches before the history" off
      else
        let$ _ := Decompressor.room b n off in
        Decompressor.copy d n.

(** Taking exactly the bits of a number off the front. *)
Lemma wp_read_front k v b s n (Q : Result Z -> BitReader.t -> Prop) : holds b (bits (Z.to_nat k) v ++ s) n -> 0 <= k <= 32 ->
  0 <= v < 2 ^ k -> k <= n -> (forall b', holds b' s (n - k) -> Q (Ok v) b') -> wp (BitReader.read k) b Q.
Proof.
  intros H Hk Hv Hn HQ. eapply wp_read_bits; [exact H|done| |lia]. intros _ b' H'.
  rewrite take_app_length', drop_app_length' in * by (by rewrite length_bits).
  rewrite val_bits_small by (by rewrite Z2Nat.id by lia). by apply HQ.
Qed.

Lemma wp_token b l i v s n (Q : Result unit -> Decompressor.Loop -> Prop) : 0 <= i < 37 -> value_ok (token_of i) v ->
  holds (Decompressor.br l) (token_bits (token_of i) v ++ s) n -> len (token_bits (token_of i) v) <= n ->
  (forall off b', holds b' s (n - len (token_bits (token_of i) v)) -> wp (token_body b (token_of i) v off) (with_bits b' l) Q) ->
  wp (Decompressor.decode_token b) l Q.
Proof.
  intros Hi Hv H Hn HQ. pose proof (token_sizes i Hi) as (Hp & Hb & Hr). rewrite len_token_bits in * by done.
  unfold Decompressor.decode_token. wp_step. apply wp_get. cbv beta iota. set (off := BitReader.offset _). clearbody off.
  wp_step. apply wp_on_bits. eapply wp_peek; [exact H|unfold lookup_bits; lia|]. intros b1 H1 R1. cbv beta iota.
  rewrite bits_token_app by done. rewrite (proj2 (Z.eqb_neq i reserved_token)) by (unfold reserved_token; lia).
  fold (token_of i). set (t := token_of i) in *. unfold token_bits in H1. rewrite <- app_assoc in H1.
  wp_step. apply wp_on_bits. eapply (wp_skip (prefix_length t)); [exact H1| |lia| |lia].
  { eapply ready_le; [exact R1|]. unfold lookup_bits. lia. }
  intros _ b2 H2. cbv beta iota. rewrite drop_app_length' in H2 by (by rewrite length_bits).
  wp_step. apply wp_on_bits. eapply (wp_read_front (value_bits t)); [exact H2|lia|exact Hv|lia|].
  intros b3 H3. cbv beta iota. apply (HQ off b3). by replace (n - (prefix_length t + value_bits t)) with (n - prefix_length t - value_bits t) by lia.
Qed.

(** *** Match lengths *)

Lemma bits_ones k : bits k (2 ^ Z.of_nat k - 1) = replicate k true.
Proof.
  apply val_inj; [by rewrite length_bits, length_replicate|]. pose proof (Z.pow_pos_nonneg 2 (Z.of_nat k)).
  rewrite val_bits_small by lia. induction k as [|k IH]; [done|]. cbn [replicate]. rewrite val_cons, <- IH, len_replicate by lia.
  rewrite Nat2Z.inj_succ, Z.pow_succ_r by lia. cbn [Z.b2z]. lia.
Qed.

(** [k] ones and a zero, then the [k + 1] bits of the value. *)
Lemma length_bits_eq n : 3 < n < 65536 -> exists k : nat, (1 <= k <= 14)%nat /\
  2 ^ (Z.of_nat k + 1) <= n < 2 ^ (Z.of_nat k + 1) + 2 ^ (Z.of_nat k + 1) /\
  spelling (length_code n) = replicate k true ++ bits 1 0 ++ bits (S k) (n - 2 ^ (Z.of_nat k + 1)).
Proof.
  intros H. destruct (length_code_eq n H) as (kz & Hk & Hn & ->). exists (Z.to_nat kz). rewrite Z2Nat.id by lia.
  assert (2 ^ (kz + 2) = 2 * 2 ^ (kz + 1)) as Hd by (rewrite <- Z.pow_succ_r by lia; f_equal; lia).
  split_and!; [lia..|]. unfold spelling. cbn [code_length code_bits]. set (v := n - 2 ^ (kz + 1)).
  assert (0 <= v < 2 ^ (kz + 1)) as Hv by lia. pose proof (Z.pow_pos_nonneg 2 (kz + 1) ltac:(lia) ltac:(lia)) as Hpos.
  replace (Z.to_nat (2 * kz + 2)) with (Z.to_nat kz + (1 + S (Z.to_nat kz)))%nat by lia. rewrite bits_app.
  replace (Z.of_nat (1 + S (Z.to_nat kz))) with (kz + 2) by lia. rewrite Z.div_add_l by lia.
  rewrite (Z.div_small v) by lia. rewrite Z.add_0_r. rewrite <- (bits_ones (Z.to_nat kz)), Z2Nat.id by lia. f_equal.
  rewrite bits_app. replace (Z.of_nat (S (Z.to_nat kz))) with (kz + 1) by lia. rewrite Hd, Z.mul_assoc, Z.div_add_l by lia.
  rewrite (Z.div_small v) by lia. rewrite Z.add_0_r. f_equal.
  - rewrite <- bits_mod. change (2 ^ Z.of_nat 1) with 2. by rewrite Z.mod_mul by lia.
  - rewrite <- bits_mod. replace (Z.of_nat (S (Z.to_nat kz))) with (kz + 1) by lia.
    by rewrite Z.add_comm, Z.mod_add, Z.mod_small by lia.
Qed.

Lemma wp_ones_exact off s j : forall fuel ones l m (Q : Result Z -> Decompressor.Loop -> Prop),
  holds (Decompressor.br l) (replicate j true ++ bits 1 0 ++ s) m -> Z.of_nat j + 1 <= m -> ones + Z.of_nat j <= 14 -> (j < fuel)%nat ->
  (forall b', holds b' s (m - Z.of_nat j - 1) -> Q (Ok (ones + Z.of_nat j)) (with_bits b' l)) ->
  wp (Decompressor.ones_loop fuel ones off) l Q.
Proof.
  induction j as [|j IH]; intros [|fuel] ones l m Q H Hm Ho Hf HQ; try lia; cbn [Decompressor.ones_loop]; wp_step; apply wp_on_bits.
  - eapply (wp_read_front 1 0); [exact H|lia|lia|lia|]. intros b' H'. cbv beta iota. rewrite Z.eqb_refl. apply wp_ret.
    rewrite <- (Z.add_0_r ones). apply HQ. by replace (m - Z.of_nat 0 - 1) with (m - 1) by lia.
  - change (replicate (S j) true) with (bits 1 1 ++ replicate j true) in H. rewrite <- app_assoc in H.
    eapply (wp_read_front 1 1); [exact H|lia|lia|lia|]. intros b' H'. cbv beta iota. change (1 =? 0) with false. cbv beta iota.
    rewrite (proj2 (Z.ltb_ge _ _)) by (unfold max_length_ones; lia).
    apply (IH fuel (ones + 1) (with_bits b' l) (m - 1)); [exact H'|lia..|]. intros b2 H2.
    replace (ones + 1 + Z.of_nat j) with (ones + Z.of_nat (S j)) by lia. apply (HQ b2).
    by replace (m - Z.of_nat (S j) - 1) with (m - 1 - Z.of_nat j - 1) by lia.
Qed.

Lemma wp_read_length_exact off n s l m (Q : Result Z -> Decompressor.Loop -> Prop) : 3 <= n < 65536 ->
  holds (Decompressor.br l) (spelling (length_code n) ++ s) m -> len (spelling (length_code n)) <= m ->
  (forall b', holds b' s (m - len (spelling (length_code n))) -> Q (Ok n) (with_bits b' l)) ->
  wp (Decompressor.read_length off) l Q.
Proof.
  intros Hn H Hm HQ. unfold Decompressor.read_length. wp_step. apply wp_on_bits. destruct (Z.eq_dec n 3) as [->|N].
  { change (spelling (length_code 3)) with (bits (Z.to_nat 1) 0) in *.
    eapply (wp_read_front 1 0); [exact H|lia|lia|exact Hm|]. intros b' H'. cbv beta iota. rewrite Z.eqb_refl. apply wp_ret. by apply HQ. }
  destruct (length_bits_eq n) as (k & Hk & Hr & E); [lia|]. rewrite E in *. destruct k as [|k]; [lia|].
  rewrite !len_app, len_replicate, !len_bits in *. rewrite <- !app_assoc in H.
  change (replicate (S k) true) with (bits (Z.to_nat 1) 1 ++ replicate k true) in H. rewrite <- app_assoc in H.
  eapply (wp_read_front 1 1); [exact H|lia|lia|lia|]. intros b1 H1. cbv beta iota. change (1 =? 0) with false. cbv beta iota.
  wp_step. eapply (wp_ones_exact off _ k 15 1 (with_bits b1 l)); [exact H1|lia..|]. intros b2 H2. cbv beta iota.
  replace (1 + Z.of_nat k) with (Z.of_nat (S k)) by lia. wp_step. apply wp_on_bits.
  replace (S (S k)) with (Z.to_nat (Z.of_nat (S k) + 1)) in H2 by lia.
  eapply (wp_read_front (Z.of_nat (S k) + 1) (n - 2 ^ (Z.of_nat (S k) + 1))); [exact H2|lia|lia|lia|].
  intros b3 H3. cbv beta iota. apply wp_ret. rewrite Z.shiftl_1_l.
  replace (2 ^ (Z.of_nat (S k) + 1) + (n - 2 ^ (Z.of_nat (S k) + 1))) with n by lia.
  match type of H3 with holds _ _ ?a => match goal with HQ : forall b, holds b s ?c -> _ |- _ => replace a with c in H3 by lia end end.
  exact (HQ b3 H3).
Qed.

(** *** The three kinds of token *)

Lemma wp_room_ok b more off l (Q : Result unit -> Decompressor.Loop -> Prop) : bounds_ok b (Decompressor.p (Decompressor.self l)) ->
  room_for b (Decompressor.p (Decompressor.self l)) (len (Decompressor.out l)) ->
  room_for b (Decompressor.p (Decompressor.self l)) (len (Decompressor.out l) + more) -> 0 <= more ->
  Q (Ok tt) l -> wp (Decompressor.room b more off) l Q.
Proof. intros HB HR HR' Hm HQ. unfold Decompressor.room. eexists _, l. split; [done|]. by rewrite check_room_ok. Qed.

(** The bytes [x] have been read, and [s] is what follows. *)
Definition took_bits (l : Decompressor.Loop) (G x : list byte) (s : list bool) (n : Z) (r : Result unit) (l' : Decompressor.Loop) : Prop :=
  r = Ok tt /\ same (Decompressor.self l) (Decompressor.self l') /\ loop_ok l' (G ++ x) /\
  Decompressor.out l' = Decompressor.out l ++ x /\ holds (Decompressor.br l') s n.

Section Read.
Context (b : Decompressor.Bounds) (pr : Params) (B0 : bounds_ok b pr) (G : list byte) (s : list bool).
Implicit Types l : Decompressor.Loop.

(** The object's parameters, the history and room for [x]. *)
Definition fits l (x : list byte) : Prop := Decompressor.p (Decompressor.self l) = pr /\ loop_ok l G /\
  room_for b pr (len (Decompressor.out l)) /\ room_for b pr (len (Decompressor.out l) + len x).

Lemma read_literal x l n : fits l [x] -> holds (Decompressor.br l) (spelling (literal_code x) ++ s) n ->
  len (spelling (literal_code x)) <= n -> wp (Decompressor.decode_token b) l (took_bits l G [x] s (n - len (spelling (literal_code x)))).
Proof using B0.
  intros (Hp & HG & HR & HR') H Hn. destruct (literal_token x) as (i & Hi & Hc & Hl). unfold spells_literal in Hl. rewrite byte_of_u8_of in Hl. bools.
  set (v := u8_of x - token_base (token_of i)) in *. pose proof (token_sizes i Hi) as (Hpl & Hvl & Hpr).
  assert (spelling (literal_code x) = token_bits (token_of i) v) as E.
  { unfold spelling, token_bits.
    match goal with HL : code_length _ = _, HC : code_bits _ = _ |- _ => rewrite HL, HC end.
    rewrite Z2Nat.inj_add by lia. rewrite bits_app, Z2Nat.id by lia. rewrite Z.div_add_l by lia.
    rewrite Z.div_small, Z.add_0_r by lia. f_equal. rewrite <- bits_mod, Z2Nat.id by lia.
    by rewrite Z.add_comm, Z.mod_add, Z.mod_small by lia. }
  rewrite E in *. eapply wp_token; [done|split; done|exact H|done|]. intros off b' H'. unfold token_body.
  match goal with HM : is_match _ = false |- _ => rewrite HM end. cbn [negb]. wp_step. apply wp_room_ok; [cbn [Decompressor.self Decompressor.out with_bits]; by rewrite Hp..|lia|].
  cbv beta iota. replace (token_base (token_of i) + v) with (u8_of x) by (subst v; lia). rewrite byte_of_u8_of.
  apply wp_push. split_and!; [done|apply same_refl|by apply loop_ok_push|done|exact H'].
Qed.

Lemma zero_token_eq : zero_token = token_of 1.
Proof using. reflexivity. Qed.

Lemma read_run c x l n : fits l x -> len x < 32768 ->
  holds (Decompressor.br l) (run_head (len x) ++ padding (c ++ run_head (len x)) ++ bytes_bits x ++ s) n ->
  (len c + len (run_head (len x) ++ padding (c ++ run_head (len x)) ++ bytes_bits x ++ s)) mod 8 = 0 ->
  len (run_head (len x) ++ padding (c ++ run_head (len x)) ++ bytes_bits x) <= n ->
  wp (Decompressor.decode_token b) l (took_bits l G x s (n - len (run_head (len x) ++ padding (c ++ run_head (len x)) ++ bytes_bits x))).
Proof using B0.
  intros (Hp & HG & HR & HR') Hx H Ha Hn. unfold run_head in *. rewrite zero_token_eq in *. set (pad := padding _) in *. pose proof (len_nonneg x) as Hx0.
  assert (len pad = (- len (c ++ token_bits (token_of 1) 0 ++ bits 15 (len x))) mod 8) as Hpad.
  { subst pad. unfold padding. rewrite len_replicate. lia. }
  rewrite !len_app, len_bytes_bits, !len_bits in *. rewrite <- !app_assoc in H. pose proof (len_nonneg pad) as Hpad0.
  set (tl := len (token_bits (token_of 1) 0)) in *. change (Z.of_nat 15) with 15 in *.
  eapply (wp_token b l 1 0); [lia|by split|exact H|fold tl; lia|]. fold tl. intros off b1 H1. unfold token_body.
  rewrite match_token by lia. cbn [negb]. change (token_base (token_of 1) + 0 =? 0) with true. cbv beta iota zeta.
  wp_step. apply wp_on_bits. eapply (wp_read_front 15 (len x)); [exact H1|lia|lia|lia|]. intros b2 H2. cbv beta iota.
  wp_step. apply wp_room_ok; [cbn [Decompressor.self Decompressor.out with_bits]; by rewrite Hp..|lia|]. cbv beta iota. wp_step. apply wp_get. cbv beta iota.
  wp_step. apply wp_on_bits.
  assert (len (pad ++ bytes_bits x ++ s) mod 8 = len pad) as Hd by (rewrite !len_app, len_bytes_bits; lia).
  eapply (wp_read_aligned (len x)); [exact H2|lia|rewrite Hd..].
  2: { intros Hlt. lia. }
  intros Hle run b3 Hrun H3. cbv beta iota. rewrite drop_app_length' in Hrun, H3 by (unfold len; lia).
  assert (length (bytes_bits x) = Z.to_nat (8 * len x)) as Hlx by (pose proof (len_bytes_bits x); unfold len in *; lia).
  rewrite take_app_length' in Hrun by done. rewrite drop_app_length' in H3 by done. apply bytes_bits_inj in Hrun as ->.
  apply wp_mod. split_and!; [done|apply same_refl| |done|].
  - by apply (loop_ok_push x l G b3).
  - cbn [Decompressor.br]. match type of H3 with holds _ _ ?a => match goal with |- holds _ _ ?a' => replace a' with a by lia end end. exact H3.
Qed.

Lemma read_match d k x l n : fits l x -> 0 < d <= Z.min (len G) (history pr) -> history pr <= 2500000 -> 3 <= k < 65536 -> is_copy d k G x ->
  holds (Decompressor.br l) (match_bits d k ++ s) n -> len (match_bits d k) <= n ->
  wp (Decompressor.decode_token b) l (took_bits l G x s (n - len (match_bits d k))).
Proof using B0.
  intros (Hp & HG & HR & HR') Hd Hh Hk Hx H Hn. destruct (distance_token d) as (i & Hi & Hv & E); [lia|].
  assert (match_bits d k = token_bits (token_of i) (d - token_base (token_of i)) ++ spelling (length_code k)) as Em.
  { unfold match_bits, token_bits, spelling. rewrite E. cbn [d_prefix d_value code_length code_bits]. by rewrite app_assoc. }
  rewrite Em in *. rewrite len_app, <- app_assoc in *. set (tl := len (token_bits _ _)) in *. set (v := d - token_base (token_of i)) in *.
  pose proof (len_nonneg (spelling (length_code k))).
  eapply (wp_token b l i v); [lia|done|exact H|fold tl; lia|]. fold tl. intros off b1 H1. unfold token_body.
  rewrite match_token by done. cbn [negb]. replace (token_base (token_of i) + v) with d by (subst v; lia). cbv zeta.
  rewrite (proj2 (Z.eqb_neq d 0)) by lia. wp_step. eapply (wp_read_length_exact off k s); [done|exact H1|lia|].
  intros b2 H2. cbv beta iota. wp_step. eapply (wp_sync _ G); [exact HG|]. intros s' Ss R. cbv beta iota. wp_step. apply wp_get. cbv beta iota.
  cbn [Decompressor.self]. pose proof (ring_len _ _ R) as Hr. rewrite (same_p _ _ Ss) in Hr. cbn [Decompressor.self with_bits] in Hr. rewrite Hp in Hr.
  rewrite (proj2 (Z.ltb_ge _ d)) by lia. destruct Hx as [Hxl Hxc]. rewrite Hxl in HR'.
  assert (Decompressor.p s' = pr) as Hps by (rewrite (same_p _ _ Ss); exact Hp).
  wp_step. apply wp_room_ok; [cbn [Decompressor.self]; by rewrite Hps..|lia|]. cbv beta iota.
  apply (wp_copy d k _ G); [exact R|cbn [Decompressor.self]; lia|lia|]. intros y Hy.
  assert (y = x) as -> by (eapply is_copy_unique; [|exact Hy|by split]; lia).
  split_and!; [done|exact Ss| |done|].
  - apply (loop_ok_push x (Decompressor.mkLoop s' b2 (Decompressor.out l) (len (Decompressor.out l))) G b2). by apply loop_ok_synced.
  - cbn [Decompressor.br]. by replace (n - (tl + len (spelling (length_code k)))) with (n - tl - len (spelling (length_code k))) by lia.
Qed.
End Read.

(** ** Reading a stream *)

Lemma spelled_nonempty h G c e x : spelled h G c e x -> 0 < len e.
Proof.
  intros H. destruct H as [y|y Hy|d n y Hd Hn Hc].
  - destruct (literal_token y) as (i & Hi & Hc & Hl). unfold spells_literal in Hl. bools. pose proof (token_sizes i Hi).
    unfold spelling. rewrite len_bits. match goal with HL : code_length _ = _ |- _ => rewrite byte_of_u8_of in HL; lia end.
  - unfold run_head. rewrite !len_app, !len_bits. len_lia.
  - unfold match_bits. rewrite !len_app. destruct (Z.eq_dec n 3) as [->|N].
    + change (len (spelling (length_code 3))) with 1. len_lia.
    + destruct (length_bits_eq n) as (k & Hk & _ & E); [lia|]. rewrite E, !len_app, len_replicate. len_lia.
Qed.

Lemma read_spelled b pr G c e x s l n : bounds_ok b pr -> history pr <= 2500000 -> spelled (history pr) G c e x -> fits b pr G l x ->
  holds (Decompressor.br l) (e ++ s) n -> (len c + len (e ++ s)) mod 8 = 0 -> len e <= n ->
  wp (Decompressor.decode_token b) l (took_bits l G x s (n - len e)).
Proof.
  intros B0 Hh H F Hb Ha Hn. destruct H as [y|y Hy|d k y Hd Hk Hc].
  - by eapply read_literal.
  - rewrite <- !app_assoc in Hb, Ha. by eapply read_run.
  - by eapply read_match.
Qed.

Lemma read_spells b pr G c e x : bounds_ok b pr -> history pr <= 2500000 -> spells (history pr) G c e x ->
  forall fuel l pad, fits b pr G l x -> holds (Decompressor.br l) (e ++ pad) (len e) -> (len c + len (e ++ pad)) mod 8 = 0 ->
    len e < Z.of_nat fuel ->
    wp (Decompressor.decode_loop fuel b) l (fun r l' => r = Ok tt /\ same (Decompressor.self l) (Decompressor.self l') /\
      ring_ok (Decompressor.self l') (G ++ x) /\ Decompressor.out l' = Decompressor.out l ++ x).
Proof.
  intros B0 Hh. induction 1 as [G c|G c e x e' x' H1 H2 IH]; intros [|fuel] l pad (Hp & HG & HR & HR') Hb Ha Hf; [len_lia| |len_lia|].
  all: cbn [Decompressor.decode_loop]; wp_step; apply wp_get; cbv beta iota; rewrite (bits_ok_remaining _ (len _) (ex_intro _ (_ ++ pad) Hb)).
  - cbn. eapply wp_sync; [exact HG|]. intros s' Ss R. by rewrite !app_nil_r.
  - pose proof (spelled_nonempty _ _ _ _ _ H1). pose proof (len_nonneg e'). pose proof (len_nonneg x). pose proof (len_nonneg x').
    rewrite !len_app in *. rewrite (proj2 (Z.ltb_lt 0 _)) by lia. rewrite <- app_assoc in Hb.
    assert (room_for b pr (len (Decompressor.out l) + len x)) as HRx by (unfold room_for in *; lia).
    wp_step. eapply wp_mono.
    + eapply (read_spelled b pr G c e x (e' ++ pad)); [done|done|done|by split_and!|exact Hb|rewrite !len_app; lia|lia].
    + intros r l' (-> & Ss & HG' & Ho & Hb'). replace (len e + len e' - len e) with (len e') in Hb' by lia.
      eapply wp_mono; [apply (IH fuel l' pad)|].
      * split_and!; [by rewrite (same_p _ _ Ss)|done|by rewrite Ho, len_app|]. by rewrite Ho, len_app, <- Z.add_assoc.
      * exact Hb'.
      * rewrite !len_app. lia.
      * lia.
      * intros r2 l2 (-> & Ss2 & R2 & Ho2). rewrite Ho in Ho2. rewrite <- app_assoc in R2, Ho2.
        split_and!; [done|by eapply same_trans|done|done].
Qed.

(** ** Segments *)

(** The segments that stand for [x] after [G]: the bytes themselves, or a bit
    stream with the count of its unused bits. *)
Inductive segment_of (pr : Params) (G : list byte) : list byte -> list byte -> Prop :=
  | segment_raw x : segment_of pr G (byte_of (type pr) :: x) x
  | segment_packed e st x : spells (history pr) G [] e x -> bytes_bits st = e ++ padding e ->
      segment_of pr G (byte_of (Z.lor (type pr) packet_compressed) :: st ++ [byte_of ((- len e) mod 8)]) x.

Definition header_ok (v : ZgfxVariant) : bool :=
  let ty := type (params v) in
  let c := Z.lor ty packet_compressed in
  (0 <=? ty) && (ty <? 256) && (0 <=? c) && (c <? 256) && (Z.land ty compression_type_mask =? ty)
  && (Z.land c compression_type_mask =? ty) && negb (has_bits ty packet_compressed) && has_bits c packet_compressed
  && (history (params v) <=? 2500000).

Lemma header_oks v : header_ok v = true.
Proof. by destruct v. Qed.

Lemma read_segment s G sg x o limit err base : ring_ok s G -> params_fit s -> segment_of (Decompressor.p s) G sg x ->
  len x <= max_segment (Decompressor.p s) -> len o + len x <= limit < 2 ^ 64 ->
  wp (Decompressor.decode_segment (Reader.make sg base) o limit err) s
    (fun r s' => r = Ok (o ++ x) /\ same s s' /\ ring_ok s' (G ++ x)).
Proof.
  intros R F H Hx Hl. pose proof F as [Hp Hm]. unfold Decompressor.decode_segment. wp_step. apply wp_get. cbv beta iota zeta.
  pose proof (max_segment_fits (Decompressor.variant s)) as Hms. pose proof (len_nonneg o). pose proof (len_nonneg x).
  set (b := Decompressor.mkBounds (len o) limit err).
  assert (bounds_ok b (Decompressor.p s)) as HB by (split_and!; cbn; rewrite ?Hp; lia).
  assert (room_for b (Decompressor.p s) (len o)) as HR by (split_and!; cbn; rewrite ?Hp; lia).
  assert (room_for b (Decompressor.p s) (len o + len x)) as HR' by (split_and!; cbn; rewrite ?Hp in *; lia).
  pose proof (header_oks (Decompressor.variant s)) as Hh. unfold header_ok in Hh. rewrite <- Hp in Hh. cbv zeta in Hh. bools.
  destruct H as [x|e st x Hs Hst].
  - wp_step. apply wp_lift. unfold Reader.make. rewrite u8_mk. cbv beta iota. rewrite u8_of_byte_of_small by lia.
    match goal with HT : Z.land (type _) _ = _, HN : has_bits (type _) _ = false |- _ => rewrite HT, HN end.
    rewrite Z.eqb_refl. cbn [negb Reader.rest]. wp_step. apply wp_lift. rewrite check_room_ok by done. cbv beta iota.
    destruct (record_spec s G x R) as (r & q & Er & R'). rewrite Er. wp_step. apply wp_mod. cbv beta iota. apply wp_ret.
    split_and!; [done|by exists r, q|done].
  - wp_step. apply wp_lift. unfold Reader.make at 1. rewrite u8_mk. cbv beta iota. rewrite u8_of_byte_of_small by lia.
    match goal with HT : Z.land (Z.lor _ _) _ = _, HN : has_bits (Z.lor _ _) _ = true |- _ => rewrite HT, HN end.
    rewrite Z.eqb_refl. cbn [negb]. rewrite empty_mk, bool_decide_false by (by destruct st). rewrite remaining_mk.
    pose proof (len_nonneg e). assert (len e <= 8 * len st /\ 8 * len st - len e = (- len e) mod 8) as [Hle Hpad].
    { apply (f_equal len) in Hst. unfold padding in Hst. rewrite len_bytes_bits, len_app, len_replicate in Hst. lia. }
    wp_step. apply wp_lift.
    destruct (reads_sub (len st) st [byte_of ((- len e) mod 8)] eq_refl ([] ++ [byte_of (Z.lor (type (Decompressor.p s)) packet_compressed)]) base)
      as (sr & Esr & b0 & ->).
    replace (len (st ++ [byte_of ((- len e) mod 8)]) - 1) with (len st) by len_lia. rewrite Esr. cbv beta iota zeta.
    wp_step. apply wp_lift. rewrite u8_mk. cbv beta iota. rewrite u8_of_byte_of_small by lia.
    rewrite (proj2 (Z.ltb_ge 7 _)) by lia. unfold Reader.make. rewrite size_mk, len_nil, Z.add_0_l. rewrite (proj2 (Z.ltb_ge (len st * 8) _)) by lia.
    unfold Decompressor.decode_bits. rewrite size_mk, len_nil, Z.add_0_l. replace (len st * 8 - (- len e) mod 8) with (len e) by lia.
    destruct (reader_make_holds (Reader.mk [] st b0) eq_refl (len e)) as (br & Ebr & Hbr); [unfold Reader.size, Reader.data; cbn [Reader.seen Reader.rest app]; lia|].
    cbn [Reader.rest] in Hbr. rewrite Hst in Hbr. unfold wp. rewrite Ebr. set (l0 := Decompressor.mkLoop s br o (len o)).
    destruct (read_spells b (Decompressor.p s) G [] e x HB ltac:(lia) Hs (S (Z.to_nat (len e))) l0 (padding e)) as (r & l & El & -> & Ss & R' & Ho).
    + split_and!; [done|by apply loop_ok_synced|done|done].
    + exact Hbr.
    + rewrite <- Hst, len_bytes_bits, len_nil. lia.
    + lia.
    + fold b. rewrite El. eexists _, _. split; [reflexivity|]. rewrite Ho. by split_and!.
Qed.
End ZgfxTokens.
