(* ===== verification/ZgfxMessages.v ===== *)
(** * ZGFX messages

    RDP_SEGMENTED_DATA around the segments of [ZgfxTokens]: what a message stands
    for, and that [Zgfx.Decompressor] yields it. *)

From S2P Require Import Prelude Buffers CodecLogic Machine Zgfx ZgfxHistory ZgfxDecode ZgfxTokens.
Open Scope Z_scope.

Module ZgfxMessages.
Import Zgfx ZgfxHistory ZgfxDecode ZgfxTokens.

(** [n] segments with their sizes. *)
Inductive parts_of (pr : Params) (G : list byte) : nat -> list byte -> list byte -> Prop :=
  | parts_nil : parts_of pr G 0 [] []
  | parts_cons n sg x rest xs : segment_of pr G sg x -> len x <= max_segment pr -> len sg < 4294967296 ->
      parts_of pr (G ++ x) n rest xs -> parts_of pr G (S n) (Writer.le_bytes 4 (len sg) ++ sg ++ rest) (x ++ xs).

Inductive message_of (pr : Params) (G : list byte) : list byte -> list byte -> Prop :=
  | message_single sg x : segment_of pr G sg x -> len x <= max_segment pr ->
      message_of pr G (byte_of descriptor_single :: sg) x
  | message_multipart n parts x : parts_of pr G n parts x -> 0 < Z.of_nat n < 65536 -> len x < 4294967296 ->
      message_of pr G (byte_of descriptor_multipart :: Writer.le_bytes 2 (Z.of_nat n) ++ Writer.le_bytes 4 (len x) ++ parts) x.

Lemma segment_nonempty pr G sg x : segment_of pr G sg x -> 1 <= len sg.
Proof. intros [y|e st y _ _]; len_lia. Qed.

Lemma parts_sizes pr G n parts x : parts_of pr G n parts x -> len x <= Z.of_nat n * max_segment pr /\ 5 * Z.of_nat n <= len parts.
Proof.
  induction 1 as [|G n sg x rest xs Hs Hx Hl H [IH1 IH2]]; [split; [done|done]|].
  pose proof (segment_nonempty _ _ _ _ Hs). rewrite !len_app, len_le_bytes. lia.
Qed.

Lemma read_parts pr n : forall G parts x, parts_of pr G n parts x ->
  forall s size seen base o, Decompressor.p s = pr -> ring_ok s G -> params_fit s -> len o + len x <= size < 2 ^ 64 ->
  wp (Decompressor.parts_loop n size (Reader.mk seen parts base) o) s
    (fun r s' => r = Ok (Reader.mk (seen ++ parts) [] base, o ++ x) /\ same s s' /\ ring_ok s' (G ++ x)).
Proof.
  induction n as [|n IH]; intros G parts x H; inversion H as [|n' sg y rest xs Hs Hy Hl Hr]; subst; intros s size seen base o Hp R F Hsz.
  { cbn. apply wp_ret. rewrite !app_nil_r. split_and!; [done|apply same_refl|done]. }
  rewrite len_app in Hsz. pose proof (len_nonneg xs). pose proof (len_nonneg y). pose proof (len_nonneg sg).
  cbn [Decompressor.parts_loop]. wp_step. apply wp_lift.
  destruct (reads_u32le (len sg) (sg ++ rest) ltac:(lia) seen base) as (v & Ev & <-). rewrite Ev. cbv beta iota.
  wp_step. apply wp_lift.
  destruct (reads_sub (len sg) sg rest eq_refl (seen ++ Writer.le_bytes 4 (len sg)) base) as (sr & Es & b0 & ->). rewrite Es. cbv beta iota.
  subst pr. wp_step. eapply wp_mono; [eapply (read_segment s G sg y o size invalid_length b0); [done|done|done|done|lia]|].
  intros r s1 (-> & S1 & R1). eapply wp_mono.
  - eapply (IH (G ++ y) rest xs Hr s1); [by rewrite (same_p _ _ S1)|done|by eapply params_fit_same|rewrite len_app; lia].
  - intros r s2 (-> & S2 & R2). rewrite <- !app_assoc in *. split_and!; [done|by eapply same_trans|done].
Qed.

Lemma read_message s G msg x : ring_ok s G -> params_fit s -> message_of (Decompressor.p s) G msg x -> len x <= Decompressor.max_output s ->
  wp (Decompressor.decompress msg) s (fun r s' => r = Ok x /\ same s s' /\ ring_ok s' (G ++ x)).
Proof.
  intros R F H Hx. pose proof F as [Hp Hm]. pose proof (len_nonneg x).
  unfold Decompressor.decompress. wp_step. apply wp_get. cbv beta iota zeta. unfold Reader.make.
  destruct H as [sg x Hs Hl|n parts x Hs Hn Hl].
  - wp_step. apply wp_lift. rewrite u8_mk. cbv beta iota. change (u8_of (byte_of descriptor_single)) with descriptor_single.
    rewrite Z.eqb_refl. rewrite remaining_mk. wp_step. apply wp_lift.
    destruct (reads_sub (len sg) sg [] eq_refl ([] ++ [byte_of descriptor_single]) 0) as (sr & Es & b0 & ->). rewrite app_nil_r in Es.
    rewrite Es. cbv beta iota. eapply wp_mono; [eapply (read_segment s G sg x []); [done|done|done|done|rewrite len_nil; lia]|]. done.
  - wp_step. apply wp_lift. rewrite u8_mk. cbv beta iota. change (u8_of (byte_of descriptor_multipart)) with descriptor_multipart.
    change (descriptor_multipart =? descriptor_single) with false. rewrite Z.eqb_refl. cbn [negb].
    wp_step. apply wp_lift.
    destruct (reads_u16le (Z.of_nat n) (Writer.le_bytes 4 (len x) ++ parts) ltac:(lia) ([] ++ [byte_of descriptor_multipart]) 0) as (v & Ev & <-).
    rewrite Ev. cbv beta iota. wp_step. apply wp_lift.
    destruct (reads_u32le (len x) parts ltac:(lia) (([] ++ [byte_of descriptor_multipart]) ++ Writer.le_bytes 2 (Z.of_nat n)) 0) as (v & Ev2 & <-).
    rewrite Ev2. cbv beta iota. destruct (parts_sizes _ _ _ _ _ Hs) as [Hs1 Hs2]. rewrite remaining_mk.
    rewrite (proj2 (Z.eqb_neq (Z.of_nat n) 0)), (proj2 (Z.ltb_ge _ (len x))) by lia.
    rewrite (proj2 (Z.ltb_ge (Z.of_nat n * _) (len x))), (proj2 (Z.ltb_ge (len parts / 5) _)) by lia.
    rewrite Nat2Z.id. wp_step. eapply wp_mono; [eapply (read_parts (Decompressor.p s)); [done|done|done|done|rewrite len_nil; lia]|].
    intros r s1 (-> & S1 & R1). cbn [app]. wp_step. apply wp_lift. unfold ReaderOps.expect_end. rewrite empty_mk. cbv beta iota.
    rewrite bool_decide_true by done. cbv beta iota. rewrite Z.eqb_refl. cbn [negb]. by apply wp_ret.
Qed.
End ZgfxMessages.
