(* ===== verification/ZgfxSearch.v ===== *)
(** * The match finder of ZGFX

    Whatever the hash tables of [Zgfx.Compressor] hold, every access of the search
    is inside its vector, and what is found are equal bytes within the history. *)

From stdpp Require Import gmap.
From S2P Require Import Prelude Buffers CodecLogic Zgfx ZgfxHistory.
Open Scope Z_scope.

Module ZgfxSearch.
Import Zgfx ZgfxHistory.

Lemma Some_bind {A B} (a : A) (f : A -> option B) : (Some a ≫= f) = f a.
Proof. done. Qed.

(** ** Comparing bytes *)

Lemma le_value_eq bytes : le_value bytes = le_val bytes.
Proof.
  unfold le_value, len. pose proof (le_loop_spec (8 * Z.of_nat (length bytes)) bytes [] ltac:(cbn; lia)) as H. exact H.
Qed.

Lemma at_some w k : 0 <= k < len w -> exists c, w !! Z.to_nat k = Some c /\ at_ w k = Some (u8_of c).
Proof.
  intros H. destruct (lookup_lt_is_Some_2 w (Z.to_nat k)) as [c Hc]; [unfold len in *; lia|]. exists c. split; [done|].
  unfold at_. rewrite (proj2 (Z.leb_le 0 k)), (proj2 (Z.ltb_lt k _)) by lia. cbn [andb]. by rewrite Hc.
Qed.

(** The [n] bytes at [a] and at [b] are the same. *)
Definition agree (w : list byte) (a b n : Z) : Prop := forall i, 0 <= i < n -> w !! Z.to_nat (a + i) = w !! Z.to_nat (b + i).

Lemma agree_snoc w a b n : 0 <= n -> agree w a b n -> w !! Z.to_nat (a + n) = w !! Z.to_nat (b + n) -> agree w a b (n + 1).
Proof. intros Hn H E i Hi. destruct (Z.eq_dec i n) as [->|]; [done|]. apply H. lia. Qed.

Section Common.
Context (w : list byte) (a b limit : Z) (Ha : 0 <= a) (Hb : 0 <= b) (La : a + limit <= len w) (Lb : b + limit <= len w).

Lemma common_bytes_spec fuel : forall n, 0 <= n <= limit -> limit - n < Z.of_nat fuel -> agree w a b n ->
  exists m, common_bytes fuel w a b n limit = Some m /\ n <= m <= limit /\ agree w a b m.
Proof using Ha Hb La Lb.
  induction fuel as [|fuel IH]; intros n Hn Hf Hw; [lia|]. cbn [common_bytes].
  destruct (Z.ltb_spec n limit) as [Hlt|Hge]; [|exists n; split_and!; [done|lia..|done]].
  destruct (at_some w (a + n)) as (x & Hx & ->); [lia|]. destruct (at_some w (b + n)) as (y & Hy & ->); [lia|]. cbn [base.mbind option_bind].
  destruct (Z.eqb_spec (u8_of x) (u8_of y)) as [E|N]; [|exists n; split_and!; [done|lia..|done]].
  destruct (IH (n + 1)) as (m & Em & Hm & Hw'); [lia|lia| |exists m; split_and!; [done|lia..|done]].
  apply agree_snoc; [lia|done|]. apply u8_of_inj in E. by rewrite Hx, Hy, E.
Qed.

(** Where two words first differ. *)
Lemma trailing_zeros_low q : 0 <= trailing_zeros q <= Z.log2 (Zpos q) /\ forall j, 0 <= j < trailing_zeros q -> Z.testbit (Zpos q) j = false.
Proof using.
  induction q as [q [IH1 IH2]|q [IH1 IH2]|]; cbn [trailing_zeros]; [split; [split; [lia|apply Z.log2_nonneg]|lia]| |split; [done|lia]].
  change (Zpos (xO q)) with (2 * Zpos q). rewrite Z.log2_double by lia. split; [lia|]. intros j Hj.
  destruct (Z.eq_dec j 0) as [->|]; [by rewrite Z.testbit_even_0|]. replace j with (Z.succ (j - 1)) by lia.
  rewrite Z.testbit_even_succ by lia. apply IH2. lia.
Qed.

Lemma le_val_low (l : list byte) (n : nat) : (n <= length l)%nat -> le_val l mod 256 ^ Z.of_nat n = le_val (take n l).
Proof using.
  intros H. rewrite <- (take_drop n l) at 1. rewrite le_val_app, length_take_le by done.
  rewrite Z.mul_comm, Z.mod_add by (pose proof (pow256_pos n); lia). apply Z.mod_small.
  pose proof (le_val_range (take n l)) as Hr. by rewrite length_take_le in Hr by done.
Qed.

Lemma le_val_inj (k l : list byte) : length k = length l -> le_val k = le_val l -> k = l.
Proof using. intros HL HV. rewrite <- (le_bytes_le_val k), <- (le_bytes_le_val l). by rewrite HL, HV. Qed.

Lemma first_difference (k l : list byte) : length k = 8%nat -> length l = 8%nat -> Z.lxor (le_val k) (le_val l) <> 0 ->
  let t := countr_zero (Z.lxor (le_val k) (le_val l)) / 8 in
  0 <= t < 8 /\ take (Z.to_nat t) k = take (Z.to_nat t) l.
Proof using.
  intros Hk Hl Hd t. pose proof (le_val_range k) as Rk. pose proof (le_val_range l) as Rl. rewrite Hk in Rk. rewrite Hl in Rl.
  change (256 ^ Z.of_nat 8) with (2 ^ 64) in *.
  assert (0 <= Z.lxor (le_val k) (le_val l)) as Hn by (apply Z.lxor_nonneg; lia).
  assert (Z.log2 (Z.lxor (le_val k) (le_val l)) < 64) as Hlog.
  { assert (forall v, 0 <= v < 2 ^ 64 -> Z.log2 v < 64) as Hv.
    { intros v Hv. destruct (Z.eq_dec v 0) as [->|]; [done|]. apply Z.log2_lt_pow2; lia. }
    eapply Z.le_lt_trans; [apply Z.log2_lxor; lia|]. pose proof (Hv _ Rk). pose proof (Hv _ Rl). lia. }
  subst t. destruct (Z.lxor (le_val k) (le_val l)) as [|q|q] eqn:E; [done| |lia]. cbn [countr_zero].
  destruct (trailing_zeros_low q) as [H1 H2]. set (t := trailing_zeros q / 8).
  assert (0 <= t < 8) as Ht by (subst t; lia). split; [done|].
  apply le_val_inj; [by rewrite !length_take, Hk, Hl|]. rewrite <- !le_val_low by lia.
  rewrite <- pow256. apply Z.bits_inj'. intros j Hj.
  destruct (Z.lt_ge_cases j (8 * Z.of_nat (Z.to_nat t))) as [Hlt|Hge]; [|by rewrite !Z.mod_pow2_bits_high by lia].
  rewrite !Z.mod_pow2_bits_low by lia. pose proof (H2 j ltac:(subst t; lia)) as Hb'. rewrite <- E, Z.lxor_spec in Hb'.
  destruct (Z.testbit (le_val k) j), (Z.testbit (le_val l) j); done.
Qed.

Lemma take_agree c d (n t : nat) : take t (take n (drop c w)) = take t (take n (drop d w)) -> (t <= n)%nat ->
  forall i, (i < t)%nat -> w !! (c + i)%nat = w !! (d + i)%nat.
Proof using.
  intros E Hn i Hi. apply (f_equal (lookup i)) in E. rewrite !take_take, !lookup_take_lt, !lookup_drop in E by lia. exact E.
Qed.

Lemma load64_some k : 0 <= k -> k + 8 <= len w -> load64 w k = Some (le_val (take 8 (drop (Z.to_nat k) w))).
Proof using. intros H1 H2. unfold load64. rewrite subspan_some by lia. rewrite <- le_value_eq. done. Qed.

Lemma length_word k : 0 <= k -> k + 8 <= len w -> length (take 8 (drop (Z.to_nat k) w)) = 8%nat.
Proof using. intros H1 H2. rewrite length_take, length_drop. unfold len in *. lia. Qed.

Lemma agree_word n t : 0 <= n -> 0 <= t <= 8 -> agree w a b n ->
  take (Z.to_nat t) (take 8 (drop (Z.to_nat (a + n)) w)) = take (Z.to_nat t) (take 8 (drop (Z.to_nat (b + n)) w)) -> agree w a b (n + t).
Proof using Ha Hb.
  intros Hn Ht Hw E i Hi. destruct (Z.lt_ge_cases i n) as [Hlt|Hge]; [apply Hw; lia|].
  pose proof (take_agree _ _ _ _ E ltac:(lia) (Z.to_nat (i - n)) ltac:(lia)) as E'.
  replace (Z.to_nat (a + i)) with (Z.to_nat (a + n) + Z.to_nat (i - n))%nat by lia.
  by replace (Z.to_nat (b + i)) with (Z.to_nat (b + n) + Z.to_nat (i - n))%nat by lia.
Qed.

Lemma common_loop_spec fuel : forall n, 0 <= n <= limit -> limit - n < 8 * Z.of_nat fuel -> agree w a b n ->
  exists m, common_loop fuel w a b n limit = Some m /\ n <= m <= limit /\ agree w a b m.
Proof using Ha Hb La Lb.
  induction fuel as [|fuel IH]; intros n Hn Hf Hw; [lia|]. cbn [common_loop].
  destruct (Z.leb_spec (n + 8) limit) as [Hle|Hgt]; [|apply common_bytes_spec; [done|lia|done]].
  rewrite !load64_some by lia. cbn [base.mbind option_bind]. cbv zeta.
  set (k := take 8 (drop (Z.to_nat (a + n)) w)). set (l := take 8 (drop (Z.to_nat (b + n)) w)).
  assert (length k = 8%nat) as Hk by (apply length_word; lia). assert (length l = 8%nat) as Hl by (apply length_word; lia).
  destruct (Z.eqb_spec (Z.lxor (le_val k) (le_val l)) 0) as [E|N].
  - destruct (IH (n + 8)) as (m & Em & Hm & Hw'); [lia|lia| |exists m; split_and!; [done|lia..|done]].
    apply agree_word; [lia|lia|done|]. apply Z.lxor_eq in E. apply le_val_inj in E; [|by rewrite Hk, Hl]. fold k l. by rewrite E.
  - destruct (first_difference k l Hk Hl N) as [Ht E]. eexists. split; [done|]. split; [lia|]. apply agree_word; [lia|lia|done|exact E].
Qed.

Lemma common_length_spec : 0 <= limit -> exists n, common_length w a b limit = Some n /\ 0 <= n <= limit /\ agree w a b n.
Proof using Ha Hb La Lb.
  intros H. apply common_loop_spec; [lia|lia|]. intros i Hi. lia.
Qed.
End Common.

(** ** The tables *)

Import Compressor.

(** What the search relies on: [T] is everything since the last reset, and the
    window its end.  Nothing is said of the entries of the tables. *)
Record search_ok (s : t) (T : list byte) : Prop := mkSearch {
  hash_ok : 0 <= hash_shift s <= 32 /\ head_size s = 2 ^ (32 - hash_shift s);
  chain_ok : exists k, 0 <= k /\ chain_size s = 2 ^ k /\ chain_mask s = 2 ^ k - 1;
  window_ok : window s = drop (Z.to_nat (window_start s - reset_pos s)) T;
  start_ok : 0 <= window_start s - reset_pos s <= len T
}.

(** Only the tables have changed. *)
Definition tables (s s' : t) : Prop := exists h c, s' = with_tables h c s.

Lemma tables_trans a b c : tables a b -> tables b c -> tables a c.
Proof. intros (h & k & ->) (h' & k' & ->). by exists h', k'. Qed.

Lemma tables_refl s : tables s s.
Proof. exists (head s), (chain s). by destruct s. Qed.

Lemma tables_ok s s' T : tables s s' -> search_ok s T -> search_ok s' T.
Proof. intros (h & c & ->) [H C W S]. by split. Qed.

Lemma window_end_eq s T : search_ok s T -> window_end s = reset_pos s + len T.
Proof. intros [_ _ W S]. unfold window_end. rewrite W, len_drop. lia. Qed.

Lemma window_lookup s T i : search_ok s T -> window_start s <= i ->
  window s !! Z.to_nat (i - window_start s) = T !! Z.to_nat (i - reset_pos s).
Proof. intros [_ _ W S] Hi. rewrite W, lookup_drop. f_equal. lia. Qed.

Lemma get_some m size i : 0 <= i < size -> exists v, get m size i = Some v.
Proof. intros H. unfold get. rewrite (proj2 (Z.leb_le 0 i)), (proj2 (Z.ltb_lt i size)) by lia. by eexists. Qed.

Lemma set_some m size i v : 0 <= i < size -> set m size i v = Some (<[i := v]> m).
Proof. intros H. unfold set. by rewrite (proj2 (Z.leb_le 0 i)), (proj2 (Z.ltb_lt i size)) by lia. Qed.

Lemma chain_index_ok s T pos : search_ok s T -> 0 <= chain_index pos s < chain_size s.
Proof.
  intros [_ (k & Hk & Hs & Hm) _ _]. unfold chain_index. rewrite Hm, Hs, (land_low _ _ k) by (rewrite ?Z.ones_equiv; lia).
  apply Z.mod_pos_bound. apply Z.pow_pos_nonneg; lia.
Qed.

Lemma hash3_some w k shift : 0 <= k -> k + 3 <= len w -> 0 <= shift <= 32 ->
  exists h, hash3 w k shift = Some h /\ 0 <= h < 2 ^ (32 - shift).
Proof.
  intros H1 H2 H3. unfold hash3. rewrite subspan_some by lia. cbn [base.mbind option_bind]. eexists. split; [done|].
  set (v := wrap 32 _). assert (0 <= v < 2 ^ 32) as Hv by (apply Z.mod_pos_bound; lia).
  rewrite Z.shiftr_div_pow2 by lia. pose proof (Z.pow_pos_nonneg 2 shift ltac:(lia) ltac:(lia)).
  split; [apply Z.div_pos; lia|]. apply Z.div_lt_upper_bound; [lia|]. rewrite <- Z.pow_add_r by lia.
  replace (shift + (32 - shift)) with 32 by lia. lia.
Qed.

(** Entering a position, which [insert] and [find_match] both do. *)
Lemma enter s T pos : search_ok s T -> window_start s <= pos -> pos + 3 <= window_end s ->
  exists h entry c hd, hash3 (window s) (pos - window_start s) (hash_shift s) = Some h /\ get (head s) (head_size s) h = Some entry /\
    set (chain s) (chain_size s) (chain_index pos s) entry = Some c /\ set (head s) (head_size s) h (wrap 32 (pos + 1)) = Some hd.
Proof.
  intros O Hs He. unfold window_end in He. destruct (hash_ok _ _ O) as [Hsh Hhd].
  destruct (hash3_some (window s) (pos - window_start s) (hash_shift s)) as (h & Eh & Rh); [lia..|].
  destruct (get_some (head s) (head_size s) h) as [entry Ee]; [by rewrite Hhd|].
  exists h, entry, (<[chain_index pos s := entry]> (chain s)), (<[h := wrap 32 (pos + 1)]> (head s)).
  split_and!; [done|done|apply set_some; by eapply chain_index_ok|apply set_some; by rewrite Hhd].
Qed.

Lemma insert_spec s T pos : search_ok s T -> window_start s <= pos -> pos + 3 <= window_end s ->
  exists s', insert pos s = Some s' /\ tables s s'.
Proof.
  intros O Hs He. destruct (enter s T pos O Hs He) as (h & e & c & hd & E1 & E2 & E3 & E4).
  unfold insert. rewrite E1. cbn [base.mbind option_bind]. rewrite E2. cbn [base.mbind option_bind].
  rewrite E3. cbn [base.mbind option_bind]. rewrite E4. eexists. split; [done|]. by exists hd, c.
Qed.

Lemma insert_loop_spec T n : forall s pos, search_ok s T -> window_start s <= pos -> pos + Z.of_nat n + 2 <= window_end s \/ n = 0%nat ->
  exists s', insert_loop n pos s = Some s' /\ tables s s'.
Proof.
  induction n as [|n IH]; intros s pos O Hs He; cbn [insert_loop]; [exists s; split; [done|apply tables_refl]|].
  destruct (insert_spec s T pos O Hs ltac:(lia)) as (s1 & E1 & T1). rewrite E1. cbn [base.mbind option_bind].
  destruct (IH s1 (pos + 1)) as (s2 & E2 & T2); [by eapply tables_ok|destruct T1 as (? & ? & ->); cbn; lia| |].
  - destruct T1 as (? & ? & ->). destruct He as [He|]; [left|done]. unfold window_end in *. cbn. lia.
  - exists s2. split; [done|]. by eapply tables_trans.
Qed.

Lemma insert_range_spec s T from to_ : search_ok s T -> window_start s <= from ->
  exists s', insert_range from to_ s = Some s' /\ tables s s'.
Proof.
  intros O Hs. unfold insert_range. eapply insert_loop_spec; [done|done|].
  unfold hashable_end, window_end, min_match. destruct (Z.leb_spec (3 - 1) (len (window s))); lia.
Qed.

(** ** Matches *)

(** A match of [m] at [pos]: the bytes [distance m] back are the same. *)
Definition found (T : list byte) (at' limit far : Z) (m : Match) : Prop :=
  3 <= length m <= limit /\ 0 < distance m <= far /\ agree T (at' - distance m) at' (length m).

Section Walk.
Context (s : t) (T : list byte) (O : search_ok s T) (pos limit far : Z).
Context (Hp : window_start s <= pos) (Hl : 3 <= limit) (Hend : pos + limit <= window_end s) (Hfar : far <= pos - window_start s).

Lemma window_agree d n : 0 < d <= far -> 0 <= n -> agree (window s) (pos - window_start s - d) (pos - window_start s) n ->
  agree T (pos - reset_pos s - d) (pos - reset_pos s) n.
Proof using O Hp Hfar.
  intros Hd Hn H i Hi. specialize (H i Hi).
  replace (pos - window_start s - d + i) with (pos - d + i - window_start s) in H by lia.
  replace (pos - window_start s + i) with (pos + i - window_start s) in H by lia.
  rewrite !(window_lookup s T) in H by (done || lia).
  replace (pos - reset_pos s - d + i) with (pos - d + i - reset_pos s) by lia.
  by replace (pos - reset_pos s + i) with (pos + i - reset_pos s) by lia.
Qed.

Lemma walk_spec fuel : forall entry best score last, length best = 0 \/ found T (pos - reset_pos s) limit far best ->
  0 <= length best < limit -> 0 <= last ->
  exists m, walk fuel s pos limit far entry best score last = Some m /\ (length m = 0 \/ found T (pos - reset_pos s) limit far m).
Proof using O Hp Hl Hend Hfar.
  unfold window_end in Hend. induction fuel as [|fuel IH]; intros entry best score last Hb Hlt Hlast; cbn [walk]; [by exists best|].
  destruct (entry =? 0); [by exists best|]. set (d := wrap 32 (_ - _)).
  destruct (Z.leb_spec d last) as [Hd|Hd]; cbn [orb]; [by exists best|].
  destruct (Z.ltb_spec far d) as [Hd2|Hd2]; cbn [orb]; [by exists best|].
  destruct (get_some (chain s) (chain_size s) (chain_index (pos - d) s)) as [next En]; [by eapply chain_index_ok|].
  rewrite En. cbn [base.mbind option_bind].
  destruct (at_some (window s) (pos - window_start s - d + length best)) as (x & _ & ->); [lia|]. cbn [base.mbind option_bind].
  destruct (at_some (window s) (pos - window_start s + length best)) as (y & _ & ->); [lia|]. cbn [base.mbind option_bind].
  destruct (negb (u8_of x =? u8_of y)); [apply IH; done || lia|].
  destruct (common_length_spec (window s) (pos - window_start s - d) (pos - window_start s) limit) as (n & En' & Hn & Ha); [lia..|].
  rewrite En'. cbn [base.mbind option_bind]. destruct (Z.ltb_spec n min_match) as [Hn3|Hn3]; [apply IH; done || lia|].
  unfold min_match in Hn3. destruct (Z.ltb score _); [|apply IH; done || lia].
  assert (found T (pos - reset_pos s) limit far (mkMatch n d)) as Hf.
  { split_and!; cbn; [lia..|]. apply window_agree; [lia|lia|done]. }
  destruct (Z.leb_spec (Z.min limit nice_length) n); [exists (mkMatch n d); split; [done|by right]|].
  apply IH; [by right|cbn; lia|lia].
Qed.
End Walk.

Lemma find_match_eq s pos limit h e c hd : hash3 (window s) (pos - window_start s) (hash_shift s) = Some h ->
  get (head s) (head_size s) h = Some e -> set (chain s) (chain_size s) (chain_index pos s) e = Some c ->
  set (head s) (head_size s) h (wrap 32 (pos + 1)) = Some hd ->
  find_match pos limit s =
    (best ← walk max_chain (with_tables hd c s) pos limit (wrap 32 (Z.min (history (p s)) (pos - reset_pos s))) e (mkMatch 0 0) 0 0;
     Some (best, with_tables hd c s)).
Proof.
  intros E1 E2 E3 E4. unfold find_match. rewrite E1, Some_bind, E2, Some_bind, E3, Some_bind, E4, Some_bind. cbv zeta.
  change (history (p (with_tables hd c s))) with (history (p s)). change (reset_pos (with_tables hd c s)) with (reset_pos s).
  apply eq_refl.
Qed.

Lemma find_match_spec s T pos limit : search_ok s T -> window_start s <= pos -> 3 <= limit -> pos + limit <= window_end s ->
  0 <= history (p s) < 2 ^ 32 -> Z.min (history (p s)) (pos - reset_pos s) <= pos - window_start s ->
  exists m s', find_match pos limit s = Some (m, s') /\ tables s s' /\
    (length m = 0 \/ found T (pos - reset_pos s) limit (Z.min (history (p s)) (pos - reset_pos s)) m).
Proof.
  intros O Hp Hl He Hh Hfar. destruct (enter s T pos O Hp ltac:(lia)) as (h & e & c & hd & E1 & E2 & E3 & E4).
  rewrite (find_match_eq s pos limit h e c hd E1 E2 E3 E4). pose proof (start_ok _ _ O).
  assert (wrap 32 (Z.min (history (p s)) (pos - reset_pos s)) = Z.min (history (p s)) (pos - reset_pos s)) as ->
    by (apply Z.mod_small; lia).
  assert (tables s (with_tables hd c s)) as T1 by (by exists hd, c).
  destruct (walk_spec (with_tables hd c s) T (tables_ok _ _ _ T1 O) pos limit (Z.min (history (p s)) (pos - reset_pos s)) Hp Hl He Hfar
    max_chain e (mkMatch 0 0) 0 0) as (m & Em & Hm); [by left|cbn; lia|lia|].
  rewrite Em. exists m, (with_tables hd c s). split_and!; [reflexivity|exact T1|exact Hm].
Qed.
End ZgfxSearch.
