(* ===== verification/ZgfxCompressor.v ===== *)
(** * The ZGFX compressor

    [Zgfx.Compressor] writes streams that spell its input, whatever its tables
    hold, and never leaves its vectors. *)

From stdpp Require Import gmap.
From S2P Require Import Prelude Buffers CodecLogic Machine Bits Zgfx ZgfxBits ZgfxHistory ZgfxDecode ZgfxTokens ZgfxSearch ZgfxMessages.
Open Scope Z_scope.

Module ZgfxCompressor.
Import Zgfx ZgfxBits ZgfxHistory ZgfxDecode ZgfxTokens ZgfxSearch ZgfxMessages.
Import Compressor.

(** ** Slices of the stream *)

Definition slice (T : list byte) (a b : Z) : list byte := take (Z.to_nat (b - a)) (drop (Z.to_nat a) T).

Lemma len_slice T a b : 0 <= a <= b -> b <= len T -> len (slice T a b) = b - a.
Proof. intros H1 H2. unfold slice. rewrite len_take, len_drop. lia. Qed.

Lemma slice_nil T a : slice T a a = [].
Proof. unfold slice. by rewrite Z.sub_diag, take_0. Qed.

Lemma slice_app T a b c : 0 <= a <= b -> b <= c -> slice T a b ++ slice T b c = slice T a c.
Proof.
  intros H1 H2. unfold slice. replace (Z.to_nat b) with (Z.to_nat a + Z.to_nat (b - a))%nat by lia.
  rewrite <- drop_drop, take_take_drop. f_equal. lia.
Qed.

Lemma take_slice T a b : 0 <= a <= b -> take (Z.to_nat a) T ++ slice T a b = take (Z.to_nat b) T.
Proof. intros H. unfold slice. rewrite take_take_drop. f_equal. lia. Qed.

Lemma slice_lookup T a b i : 0 <= a -> 0 <= i < b - a -> slice T a b !! Z.to_nat i = T !! Z.to_nat (a + i).
Proof. intros H1 H2. unfold slice. rewrite lookup_take_lt, lookup_drop by lia. f_equal. lia. Qed.

(** A match of the search is a copy of the history. *)
Lemma found_copy T q limit far m : found T q limit far m -> far <= q -> q + limit <= len T ->
  is_copy (distance m) (length m) (take (Z.to_nat q) T) (slice T q (q + length m)).
Proof.
  intros (Hl & Hd & Ha) Hf Hq. split; [rewrite len_slice; lia|]. intros i Hi. rewrite slice_lookup by lia.
  rewrite take_slice by lia. rewrite len_take. rewrite Z2Nat.id, Z.min_l by lia. rewrite lookup_take_lt by lia.
  by rewrite <- (Ha i Hi).
Qed.

(** ** Writing tokens *)

Lemma literal_ok b : code_ok (literal_code b) = true.
Proof. by destruct (literal_token b) as (i & _ & H & _). Qed.

Lemma length_ok n : 3 <= n < 65536 -> code_ok (length_code n) = true.
Proof.
  intros H. destruct (Z.eq_dec n 3) as [->|N]; [done|]. destruct (length_code_eq n) as (k & Hk & Hr & ->); [lia|].
  assert (2 ^ (2 * k + 2) = 2 ^ k * 2 ^ (k + 2)) as E by (rewrite <- Z.pow_add_r by lia; f_equal; lia).
  assert (2 ^ (k + 2) = 2 * 2 ^ (k + 1)) as E2 by (rewrite <- Z.pow_succ_r by lia; f_equal; lia).
  pose proof (Z.pow_pos_nonneg 2 k ltac:(lia) ltac:(lia)). pose proof (Z.pow_pos_nonneg 2 (k + 1) ltac:(lia) ltac:(lia)).
  unfold code_ok. cbn [code_length code_bits]. rewrite E.
  rewrite (proj2 (Z.leb_le 0 _)), (proj2 (Z.leb_le (2 * k + 2) 32)), (proj2 (Z.leb_le 0 _)), (proj2 (Z.ltb_lt _ _)) by nia. done.
Qed.

Lemma distance_ok d : 0 < d <= 2500000 -> code_ok (d_prefix (distance_code d)) = true /\ code_ok (d_value (distance_code d)) = true.
Proof.
  intros H. destruct (distance_token d H) as (i & Hi & Hv & ->). cbn [d_prefix d_value]. destruct (token_sizes i) as (Hp & Hb & Hr); [lia|].
  unfold value_ok in Hv. unfold code_ok. cbn [code_length code_bits].
  split; rewrite (proj2 (Z.leb_le 0 _)), (proj2 (Z.leb_le _ 32)), (proj2 (Z.leb_le 0 _)), (proj2 (Z.ltb_lt _ _)) by lia; done.
Qed.

(** [w'] is [w] with the bits [e] behind it. *)
Definition appended (w : BitWriter.t) (e : list bool) (w' : BitWriter.t) : Prop := writing w' /\ content w' = content w ++ e.

Lemma appended_app w e w' e' w'' : appended w e w' -> appended w' e' w'' -> appended w (e ++ e') w''.
Proof. intros [W C] [W' C']. split; [done|]. by rewrite C', C, app_assoc. Qed.

Lemma put_match_spec m w : writing w -> 0 < distance m <= 2500000 -> 3 <= length m < 65536 ->
  appended w (match_bits (distance m) (length m)) (put_match m w).
Proof.
  intros W Hd Hl. destruct (distance_ok _ Hd) as [O1 O2]. pose proof (length_ok _ Hl) as O3. unfold put_match, match_bits. cbv zeta.
  pose proof (put_code_content _ w W O1) as A1. pose proof (put_code_content _ _ (proj1 A1) O2) as A2.
  pose proof (put_code_content _ _ (proj1 A2) O3) as A3. eapply appended_app; [exact A1|]. by eapply appended_app.
Qed.

(** *** Literals *)

Lemma put_chunk_spec h chunk : forall G w, writing w -> exists e,
  appended w e (fold_left (fun w b => BitWriter.put_code (literal_code b) w) chunk w) /\ spells h G (content w) e chunk.
Proof.
  induction chunk as [|b chunk IH]; intros G w W; cbn [fold_left].
  { exists []. split; [split; [done|by rewrite app_nil_r]|apply spells_nil]. }
  pose proof (put_code_content _ w W (literal_ok b)) as A. destruct (IH (G ++ [b]) _ (proj1 A)) as (e & A' & S).
  exists (spelling (literal_code b) ++ e). split; [by eapply appended_app|].
  apply (spells_cons h G _ _ [b]); [constructor|]. by rewrite <- (proj2 A).
Qed.

Lemma put_run_spec h G x w : writing w -> len x < 32768 ->
  exists w', BitWriter.bytes x (BitWriter.align (BitWriter.put (wrap 32 (len x)) 15 (BitWriter.put 0 (value_bits zero_token)
      (BitWriter.put (prefix zero_token) (prefix_length zero_token) w)))) = Some w' /\
    exists e, appended w e w' /\ spells h G (content w) e x.
Proof.
  intros W Hx. pose proof (len_nonneg x). rewrite zero_token_eq. destruct (token_sizes 1) as (Hp & Hb & Hr); [lia|].
  destruct (put_content (prefix (token_of 1)) (prefix_length (token_of 1)) w W ltac:(lia) Hr) as [W1 C1]. set (w1 := BitWriter.put (prefix _) _ w) in *.
  destruct (put_content 0 (value_bits (token_of 1)) w1 W1 ltac:(lia) ltac:(split; [lia|apply Z.pow_pos_nonneg; lia])) as [W2 C2].
  set (w2 := BitWriter.put 0 _ w1) in *.
  assert (wrap 32 (len x) = len x) as -> by (apply Z.mod_small; lia).
  destruct (put_content (len x) 15 w2 W2 ltac:(lia) ltac:(lia)) as [W3 C3]. set (w3 := BitWriter.put (len x) 15 w2) in *.
  destruct (align_content w3 W3) as [P4 C4]. destruct (bytes_content x (BitWriter.align w3) P4) as (w' & E & P & C).
  exists w'. split; [done|].
  assert (content w3 = content w ++ run_head (len x)) as C3'.
  { rewrite C3, C2, C1. unfold run_head, token_bits. rewrite zero_token_eq. by rewrite <- !app_assoc. }
  exists (run_head (len x) ++ padding (content w ++ run_head (len x)) ++ bytes_bits x). split.
  - split; [unfold writing; lia|]. rewrite C, C4, C3'. by rewrite <- !app_assoc.
  - apply spells_one. by apply spelled_run.
Qed.

Lemma put_literals_spec h fuel : forall G bytes w, writing w -> (List.length bytes < fuel)%nat ->
  exists w' e, put_literals fuel bytes w = Some w' /\ appended w e w' /\ spells h G (content w) e bytes.
Proof.
  induction fuel as [|fuel IH]; intros G bytes w W Hf; [lia|]. cbn [put_literals].
  destruct (bool_decide_reflect (bytes = [])) as [->|N].
  { exists w, []. split_and!; [done|split; [done|by rewrite app_nil_r]|apply spells_nil]. }
  cbv zeta. set (size := Z.to_nat (Z.min (len bytes) max_run)). set (chunk := take size bytes).
  assert (0 < len bytes) as Hb by (destruct bytes; [done|len_lia]).
  assert (len chunk < 32768) as Hc by (subst chunk size; rewrite len_take; unfold max_run; lia).
  assert (List.length (drop size bytes) < fuel)%nat as Hf' by (subst size; rewrite length_drop; unfold max_run, len in *; lia).
  assert (forall w1 e1, appended w e1 w1 -> spells h G (content w) e1 chunk -> exists w' e, put_literals fuel (drop size bytes) w1 = Some w' /\
    appended w e w' /\ spells h G (content w) e bytes) as Hrest.
  { intros w1 e1 A1 S1. destruct (IH (G ++ chunk) (drop size bytes) w1 (proj1 A1) Hf') as (w' & e' & E & A & S).
    exists w', (e1 ++ e'). split_and!; [done|by eapply appended_app|]. rewrite <- (take_drop size bytes). fold chunk.
    apply spells_app; [done|]. by rewrite <- (proj2 A1). }
  destruct (Z.ltb _ _).
  - destruct (put_run_spec h G chunk w W Hc) as (w1 & -> & e1 & A1 & S1). rewrite Some_bind. by eapply Hrest.
  - destruct (put_chunk_spec h chunk G w W) as (e1 & A1 & S1). by eapply Hrest.
Qed.

(** ** A segment *)

Lemma window_bytes_spec s T from to_ : search_ok s T -> window_start s <= from <= to_ -> to_ <= window_end s ->
  window_bytes from to_ s = Some (slice T (from - reset_pos s) (to_ - reset_pos s)).
Proof.
  intros O H1 H2. unfold window_bytes. unfold window_end in H2. rewrite subspan_some by lia. destruct O as [_ _ W S]. rewrite W, drop_drop.
  unfold slice. do 2 f_equal; [|f_equal]; lia.
Qed.

Lemma worth_spec s T m pos : search_ok s T -> window_start s <= pos -> 0 <= length m -> pos + length m <= window_end s ->
  exists take_it, worth m pos s = Some take_it /\ (take_it = true -> 3 <= length m).
Proof.
  intros O H1 H2 H3. unfold worth. destruct (Z.ltb_spec (length m) min_match) as [Hlt|Hge]; [by exists false|]. unfold min_match in Hge.
  destruct (8 <=? length m); [by exists true|]. rewrite (window_bytes_spec s T) by (done || lia). rewrite Some_bind. by eexists.
Qed.

Section Segment.
Context (T : list byte) (begin end_ : Z) (h : Z) (Hh : 0 <= h <= 2500000).

(** What the loop keeps at [pos], with the bytes from [literals] on not written yet. *)
Record seg_ok (s : t) (literals pos : Z) (bw : BitWriter.t) : Prop := mkSeg {
  seg_search : search_ok s T;
  seg_history : history (p s) = h;
  seg_order : window_start s <= begin <= literals /\ literals <= pos /\ literals <= end_;
  seg_end : window_end s = end_;
  seg_keep : window_start s = reset_pos s \/ h <= begin - window_start s;
  seg_writing : writing bw;
  seg_spells : spells h (take (Z.to_nat (begin - reset_pos s)) T) [] (content bw) (slice T (begin - reset_pos s) (literals - reset_pos s))
}.

Lemma seg_tables s s' literals pos pos' bw : tables s s' -> seg_ok s literals pos bw -> literals <= pos' -> seg_ok s' literals pos' bw.
Proof using. intros (hd & c & ->) [O H Or E K W S] Hp. split; try done. - by destruct O. - destruct Or; split_and!; cbn in *; lia. Qed.

(** The literals up to [pos]. *)
Lemma emit_spec s literals pos bw : seg_ok s literals pos bw -> pos <= end_ ->
  exists bw', emit_literals literals pos s bw = Some bw' /\ seg_ok s pos pos bw'.
Proof using.
  intros [O H Or E K W S] Hp. pose proof (start_ok _ _ O). unfold emit_literals. rewrite (window_bytes_spec s T) by (done || lia). rewrite Some_bind.
  set (x := slice _ _ _). set (G := take (Z.to_nat (begin - reset_pos s)) T ++ slice T (begin - reset_pos s) (literals - reset_pos s)).
  destruct (put_literals_spec h (Datatypes.S (List.length x)) G x bw W ltac:(lia)) as (bw' & e & E' & A & S').
  exists bw'. split; [done|]. split; [done..|lia|done|done|apply A|]. rewrite (proj2 A).
  rewrite <- (slice_app T _ (literals - reset_pos s)) by lia. by apply spells_app.
Qed.

Lemma put_match_seg s pos bw m : seg_ok s pos pos bw -> pos + length m <= end_ -> length m < 65536 ->
  (exists limit far, found T (pos - reset_pos s) limit far m /\ far = Z.min h (pos - reset_pos s) /\ pos + limit <= end_) ->
  seg_ok s (pos + length m) (pos + length m) (put_match m bw).
Proof using Hh.
  intros [O H Or E K W S] He Hl (limit & far & F & -> & Hlim). pose proof F as (F1 & F2 & F3). pose proof (window_end_eq _ _ O) as Ew. pose proof (start_ok _ _ O).
  destruct (put_match_spec m bw W) as [W' C']; [lia|lia|]. split; [done|done|lia|done|done|done|]. rewrite C'.
  replace (pos + length m - reset_pos s) with (pos - reset_pos s + length m) by lia.
  rewrite <- (slice_app T _ (pos - reset_pos s)) by lia. apply spells_app; [done|]. apply spells_one. apply spelled_match.
  - rewrite take_slice by lia. rewrite len_take. lia.
  - lia.
  - rewrite take_slice by lia. eapply found_copy; [exact F|lia|lia].
Qed.

Lemma segment_loop_spec fuel : forall s pos literals misses bw, seg_ok s literals pos bw -> 0 <= misses -> Z.max 0 (end_ - pos) < Z.of_nat fuel ->
  exists pos' literals' s' bw', segment_loop fuel pos literals misses end_ s bw = Some (pos', literals', s', bw') /\
    tables s s' /\ seg_ok s' literals' pos' bw' /\ end_ < pos' + 3.
Proof using Hh.
  induction fuel as [|fuel IH]; intros s pos literals misses bw K Hm Hf; [lia|]. cbn [segment_loop].
  destruct (Z.leb_spec (pos + min_match) end_) as [Hle|Hgt]; unfold min_match in *.
  2: { exists pos, literals, s, bw. split_and!; [done|apply tables_refl|done|lia]. }
  cbv zeta. set (limit := Z.min (end_ - pos) max_match). assert (3 <= limit <= end_ - pos /\ limit < 65536) as Hlim by (subst limit; unfold max_match; lia).
  pose proof (seg_search _ _ _ _ K) as O. pose proof (seg_order _ _ _ _ K) as Or. pose proof (seg_end _ _ _ _ K) as Ee.
  pose proof (seg_history _ _ _ _ K) as EH. pose proof (seg_keep _ _ _ _ K) as Kp. pose proof (start_ok _ _ O).
  destruct (find_match_spec s T pos limit O) as (m & s1 & Em & T1 & Fm); [lia|lia|lia|rewrite EH; lia|rewrite EH; lia|].
  rewrite Em, Some_bind. rewrite EH in Fm. cbv beta iota. pose proof (seg_tables _ _ _ _ pos _ T1 K ltac:(lia)) as K1.
  assert (0 <= length m <= limit) as Hlen by (destruct Fm as [->|((? & ?) & _)]; lia).
  destruct (worth_spec s1 T m pos) as (b & Eb & Hb); [apply K1|destruct T1 as (? & ? & ->); cbn; lia|lia|rewrite (seg_end _ _ _ _ K1); lia|].
  rewrite Eb, Some_bind. destruct b; cbn [negb].
  - specialize (Hb eq_refl). destruct Fm as [?|F]; [lia|].
    assert (reset_pos s1 = reset_pos s) as Er by (by destruct T1 as (? & ? & ->)).
    destruct (emit_spec s1 literals pos bw K1) as (bw1 & E1 & K2); [lia|]. rewrite E1, Some_bind.
    assert (seg_ok s1 (pos + length m) (pos + length m) (put_match m bw1)) as K3.
    { apply put_match_seg; [done|lia|lia|]. exists limit, (Z.min h (pos - reset_pos s)). rewrite Er. split_and!; [done|done|lia]. }
    set (first := if length m <=? max_insert_length then _ else _).
    destruct (insert_range_spec s1 T first (pos + length m)) as (s2 & E2 & T2); [apply K3| |].
    { destruct T1 as (? & ? & ->). subst first. cbn. destruct (_ <=? _); lia. }
    rewrite E2, Some_bind. destruct (IH s2 (pos + length m) (pos + length m) 0 (put_match m bw1)) as (q & l & s3 & bw3 & E3 & T3 & K4 & Hq).
    + eapply seg_tables; [exact T2|exact K3|lia].
    + lia.
    + lia.
    + exists q, l, s3, bw3. split_and!; [done| |done|done]. eapply tables_trans; [exact T1|]. by eapply tables_trans.
  - assert (0 <= Z.shiftr (misses + 1) skip_trigger) as Hs by (apply Z.shiftr_nonneg; lia).
    destruct (IH s1 (pos + (1 + Z.shiftr (misses + 1) skip_trigger)) literals (misses + 1) bw) as (q & l & s3 & bw3 & E3 & T3 & K4 & Hq).
    + eapply seg_tables; [apply tables_refl|exact K1|lia].
    + lia.
    + lia.
    + exists q, l, s3, bw3. split_and!; [done| |done|done]. by eapply tables_trans.
Qed.
End Segment.

(** ** The object between calls *)

(** A compressor that has compressed [G] since its last reset. *)
Record packed_ok (s : t) (G : list byte) : Prop := mkPacked {
  packed_hash : 0 <= hash_shift s <= 32 /\ head_size s = 2 ^ (32 - hash_shift s);
  packed_chain : chain_size s = 0 \/ exists k, 0 <= k /\ chain_size s = 2 ^ k /\ chain_mask s = 2 ^ k - 1;
  packed_window : window s = drop (Z.to_nat (window_start s - reset_pos s)) G;
  packed_start : 0 <= window_start s - reset_pos s <= len G;
  packed_max : max_window s = 2 * history (p s) + max_segment (p s);
  packed_keep : window_start s = reset_pos s \/ history (p s) <= len (window s);
  packed_insert : window_end s - 2 <= insert_pos s <= window_end s /\ reset_pos s <= insert_pos s
}.

Record comp_ok (s : t) (G : list byte) : Prop := mkComp {
  comp_params : p s = params (variant s);
  comp_packed : mode s = compress_ -> packed_ok s G
}.

Lemma history_range v : 2 <= history (params v) <= 2500000 /\ 0 < max_segment (params v) <= 65535.
Proof. by destruct v. Qed.

Lemma comp_make v m : comp_ok (make v m) [].
Proof. split; [by destruct m|]. intros Hm. destruct m; [|done]. by destruct v; split; try done; left. Qed.

Lemma comp_reset s G : comp_ok s G -> comp_ok (reset s) [].
Proof.
  intros [P H]. split; [done|]. intros Hm. destruct (H Hm) as [Hh Hc _ _ Hx _ _].
  assert (window_end (reset s) = window_end s) as E by (unfold window_end at 1; cbn [reset window window_start]; apply Z.add_0_r).
  split; [done|done|symmetry; apply drop_nil|cbn [reset window_start reset_pos]; rewrite Z.sub_diag; done|done|by left|].
  rewrite E. cbn [reset insert_pos reset_pos]. lia.
Qed.

(** What [slide] keeps: the end of the stream, and enough of it. *)
Lemma slide_spec s G data : packed_ok s G -> 0 < history (p s) ->
  exists w start, slide data s = with_window w start s /\ w = drop (Z.to_nat (start - reset_pos s)) G /\
    0 <= start - reset_pos s <= len G /\ start + len w = window_end s /\ (start = reset_pos s \/ history (p s) <= len w).
Proof.
  intros [_ _ Hw Hs _ Hk _] Hh. pose proof (len_nonneg (window s)) as Hl. unfold slide.
  destruct (Z.ltb_spec (max_window s) (len (window s) + len data)) as [Hlt|Hge].
  2: { exists (window s), (window_start s). split_and!; [by destruct s|done|lia|lia|done|done]. }
  assert (len (window s) = len G - (window_start s - reset_pos s)) as Lw by (rewrite Hw, len_drop; lia).
  set (keep := Z.min (len (window s)) (history (p s))). eexists _, _. split; [reflexivity|]. rewrite len_drop. unfold window_end. split_and!.
  - etransitivity; [apply f_equal; exact Hw|]. rewrite drop_drop. f_equal. subst keep. lia.
  - subst keep. lia.
  - subst keep. lia.
  - subst keep. lia.
  - destruct Hk as [Hk|Hk]; [|right; subst keep; lia]. destruct (Z.eq_dec keep (len (window s))); [left; lia|right; subst keep; lia].
Qed.

Lemma bit_ceil_power n : exists k, 0 <= k /\ bit_ceil n = 2 ^ k.
Proof. exists (Z.log2_up n). split; [apply Z.log2_up_nonneg|apply Z.shiftl_1_l]. Qed.

(** Growing the chain. *)
Lemma grow_spec s n : 0 < n -> (chain_size s = 0 \/ exists k, 0 <= k /\ chain_size s = 2 ^ k /\ chain_mask s = 2 ^ k - 1) ->
  (exists k, 0 <= k /\ n = 2 ^ k) ->
  exists size mask, (if chain_size s <? n then with_chain_size n s else s) =
    mk (variant s) (mode s) (p s) (hash_shift s) (window s) (max_window s) (window_start s) (reset_pos s) (head_size s) (head s)
       size (chain s) mask (insert_pos s) /\ exists k, 0 <= k /\ size = 2 ^ k /\ mask = 2 ^ k - 1.
Proof.
  intros Hn Hc (k & Hk & ->). destruct (Z.ltb_spec (chain_size s) (2 ^ k)) as [Hlt|Hge].
  - exists (2 ^ k), (2 ^ k - 1). split; [done|]. by exists k.
  - destruct Hc as [Hc|Hc]; [lia|]. exists (chain_size s), (chain_mask s). split; [by destruct s|done].
Qed.

(** [append] makes the window ready for the search. *)
Lemma append_spec s G data : comp_ok s G -> mode s = compress_ -> exists start size mask,
  append data s = mk (variant s) (mode s) (p s) (hash_shift s) (drop (Z.to_nat (start - reset_pos s)) (G ++ data)) (max_window s) start
    (reset_pos s) (head_size s) (head s) size (chain s) mask (insert_pos s) /\
  search_ok (append data s) (G ++ data) /\ window_end (append data s) = window_end s + len data /\
  (start = reset_pos s \/ history (p s) <= window_end s - start) /\ start <= window_end s.
Proof.
  intros [P H] Hm. pose proof (H Hm) as K. pose proof (len_nonneg data). pose proof (history_range (variant s)) as Hr. rewrite <- P in Hr.
  destruct (slide_spec s G data K ltac:(lia)) as (w & start & E & W & S & We & Kp). unfold append. rewrite E.
  cbv zeta. cbn [window window_start with_window].
  assert (w ++ data = drop (Z.to_nat (start - reset_pos s)) (G ++ data)) as Ww by (rewrite W, drop_app_le; [done|unfold len in *; lia]).
  set (s2 := with_window (w ++ data) start _). destruct (bit_ceil_power (Z.min (history (p s2)) (window_end s2 - reset_pos s2))) as (k & Hk & Ek).
  destruct (grow_spec s2 (2 ^ k)) as (size & mask & E2 & Hc); [apply Z.pow_pos_nonneg; lia|apply (packed_chain _ _ K)|by exists k|].
  rewrite Ek, E2. exists start, size, mask. subst s2. cbn [variant mode p hash_shift window max_window window_start reset_pos head_size head
    chain_size chain chain_mask insert_pos with_window]. rewrite <- Ww. pose proof (len_nonneg w). split_and!; [done| | | |lia].
  - split; cbn; [apply (packed_hash _ _ K)|done|exact Ww|rewrite len_app; lia].
  - unfold window_end at 1. cbn [window window_start]. rewrite len_app. lia.
  - destruct Kp as [Kp|Kp]; [by left|right; lia].
Qed.

(** *** One segment of the stream *)

Lemma hashable_range s : window_end s - 2 <= hashable_end s <= window_end s.
Proof.
  unfold hashable_end, min_match, window_end. pose proof (len_nonneg (window s)). destruct (Z.leb_spec (3 - 1) (len (window s))); lia.
Qed.

(** Only the tables and the position have changed. *)
Definition moved (s s' : t) : Prop := exists h c q, s' = with_insert_pos q (with_tables h c s).

Lemma catch_up_spec s T begin : search_ok s T -> window_start s <= begin -> window_start s <= insert_pos s -> begin - 2 <= insert_pos s <= begin ->
  exists s', catch_up begin s = Some s' /\ moved s s' /\ insert_pos s <= insert_pos s' <= begin.
Proof.
  intros O Hb Hi Hr. unfold catch_up, wrap, min_match. rewrite Z.mod_small by (change (2 ^ 64) with 18446744073709551616; lia).
  rewrite (proj2 (Z.ltb_lt _ 3)) by lia. destruct (insert_range_spec s T (insert_pos s) begin O Hi) as (s1 & -> & h & c & ->). rewrite Some_bind.
  eexists. split; [done|]. split; [by eexists h, c, _|]. cbn [insert_pos with_insert_pos with_tables]. lia.
Qed.

Lemma moved_search s s' T : moved s s' -> search_ok s T -> search_ok s' T.
Proof. intros (h & c & q & ->) [H C W S]. by split. Qed.

Lemma compress_segment_spec s G data : search_ok s (G ++ data) -> 0 <= history (p s) <= 2500000 ->
  let begin := window_end s - len data in
  window_start s <= begin -> window_start s = reset_pos s \/ history (p s) <= begin - window_start s ->
  window_start s <= insert_pos s -> begin - 2 <= insert_pos s <= begin ->
  exists s' bw, compress_segment begin (window_end s) s (BitWriter.make []) = Some (s', bw) /\ moved s s' /\
    Z.max (insert_pos s) (window_end s - 2) <= insert_pos s' <= window_end s /\ writing bw /\ spells (history (p s)) G [] (content bw) data.
Proof.
  intros O Hh begin Hb Hk Hi Hr. pose proof (len_nonneg data) as Hd. pose proof (window_end_eq _ _ O) as We. rewrite len_app in We.
  destruct (catch_up_spec s _ begin O Hb Hi Hr) as (s1 & E1 & M1 & I1). unfold compress_segment. rewrite E1, Some_bind.
  pose proof (moved_search _ _ _ M1 O) as O1. destruct M1 as (h1 & c1 & q1 & Es1).
  assert (begin - reset_pos s = len G) as Eb by (subst begin; lia).
  assert (seg_ok (G ++ data) begin (window_end s) (history (p s)) s1 begin begin (BitWriter.make [])) as K0.
  { rewrite Es1 in O1 |- *. split; try done; cbn [window_start reset_pos with_insert_pos with_tables].
    - subst begin. lia.
    - rewrite slice_nil. apply spells_nil. }
  destruct (segment_loop_spec (G ++ data) begin (window_end s) (history (p s)) Hh (S (Z.to_nat (window_end s - begin))) s1 begin begin 0 _ K0)
    as (pos & lit & s2 & bw & E2 & T2 & K2 & Hp); [lia|lia|]. rewrite E2, Some_bind. cbv beta iota.
  pose proof (seg_order _ _ _ _ _ _ _ _ K2) as Or2. pose proof (seg_end _ _ _ _ _ _ _ _ K2) as We2.
  destruct (emit_spec (G ++ data) begin (window_end s) (history (p s)) s2 lit (window_end s) bw) as (bw' & E3 & K3); [|lia|].
  { eapply seg_tables; [apply tables_refl|exact K2|lia]. }
  rewrite E3, Some_bind. destruct T2 as (h2 & c2 & Es2). eexists _, bw'. split; [reflexivity|]. split_and!.
  - rewrite Es2, Es1. by eexists h2, c2, _.
  - cbn [insert_pos with_insert_pos]. pose proof (hashable_range s2) as Hs2. rewrite We2 in Hs2.
    assert (insert_pos s2 = insert_pos s1) as -> by (by rewrite Es2). lia.
  - cbn [insert_pos with_insert_pos]. pose proof (hashable_range s2) as Hs2. rewrite We2 in Hs2.
    assert (insert_pos s2 = insert_pos s1) as -> by (by rewrite Es2). subst begin. lia.
  - apply K3.
  - pose proof (seg_spells _ _ _ _ _ _ _ _ K3) as Sp.
    assert (reset_pos s2 = reset_pos s) as Er by (rewrite Es2, Es1; done). rewrite Er, Eb in Sp.
    unfold len at 1 in Sp. rewrite Nat2Z.id, take_app_length in Sp. unfold slice in Sp.
    replace (Z.to_nat (len G)) with (List.length G) in Sp by (unfold len; lia). rewrite drop_app_length in Sp.
    rewrite take_ge in Sp by (unfold len in *; lia). exact Sp.
Qed.

(** ** What is written *)

(** [m] appends [e] to any buffer and returns [a]. *)
Definition emits {A} (m : Enc A) (a : A) (e : list byte) : Prop := forall w, m w = Some (a, w ++ e).

Lemma emits_bind {A B} (m : Enc A) (f : A -> Enc B) a b e e' : emits m a e -> emits (f a) b e' -> emits (ebind m f) b (e ++ e').
Proof. intros H H' w. unfold ebind. by rewrite H, H', app_assoc. Qed.

Lemma emits_ret {A} (a : A) : emits (eret a) a [].
Proof. intros w. by rewrite app_nil_r. Qed.

Lemma emits_some {A B} (o : option A) (f : A -> Enc B) a b e : o = Some a -> emits (f a) b e -> emits (ebind (elift o) f) b e.
Proof. intros -> H. exact H. Qed.

Lemma emits_assert {A} c (m : Enc A) a e : c = true -> emits m a e -> emits (eassert c ;;; m) a e.
Proof. intros -> H. exact H. Qed.

Lemma emits_u8 v : emits (Writer.u8 v) tt [byte_of v].
Proof. done. Qed.

Lemma emits_bytes e : emits (Writer.bytes e) tt e.
Proof. done. Qed.

(** A header and its bytes. *)
Lemma emits_framed {A} v e (a : A) : emits (Writer.u8 v ;;; Writer.bytes e ;;; eret a) a (byte_of v :: e).
Proof.
  replace (byte_of v :: e) with ([byte_of v] ++ e ++ []) by (by rewrite app_nil_r). eapply emits_bind; [apply emits_u8|].
  eapply emits_bind; [apply emits_bytes|apply emits_ret].
Qed.

Lemma encode_segment_spec s G data : comp_ok s G -> len data <= max_segment (p s) ->
  exists s' sg, emits (encode_segment data s) s' sg /\ segment_of (p s) G sg data /\ comp_ok s' (G ++ data) /\
    p s' = p s /\ variant s' = variant s /\ len sg <= len data + 1.
Proof.
  intros C Hl. pose proof C as [P H]. unfold encode_segment. destruct (mode s) eqn:Em.
  2: { exists s, (byte_of (type (p s)) :: data). split_and!; [|constructor|split; [done|by rewrite Em]|done|done|len_lia].
    apply emits_assert; [by apply Z.leb_le|apply emits_framed]. }
  destruct (append_spec s G data C Em) as (start & size & mask & Ea & O & We & Kp & Hst). specialize (H eq_refl).
  pose proof (history_range (variant s)) as Hr. rewrite <- P in Hr. pose proof (packed_insert _ _ H) as Hi. pose proof (len_nonneg data) as Hd.
  set (s1 := append data s) in *. clearbody s1.
  assert (p s1 = p s /\ window_start s1 = start /\ reset_pos s1 = reset_pos s /\ insert_pos s1 = insert_pos s) as (Q1 & Q2 & Q3 & Q4) by (by rewrite Ea).
  destruct (compress_segment_spec s1 G data O) as (s2 & bw & E2 & (h & c & q & Es2) & I2 & W2 & Sp); [rewrite Q1; lia|rewrite Q2; lia| | |rewrite Q4; lia|].
  { rewrite Q1, Q2, Q3. destruct Kp; [by left|right; lia]. } { rewrite Q2, Q4. destruct Kp; lia. }
  assert (comp_ok s2 (G ++ data)) as C2.
  { rewrite Es2 in I2 |- *. rewrite Ea in O, I2, We |- *. split; [done|]. intros _. destruct O as [Oh Oc Ow Os]. cbn in Oh, Oc, Ow, Os. split; cbn.
    - done. - by right. - done. - done. - apply (packed_max _ _ H).
    - destruct Kp as [Kp|Kp]; [by left|right]. unfold window_end in We at 1. cbn in We. lia.
    - cbn in I2. unfold window_end in *. cbn in *. lia. }
  assert (p s2 = p s /\ variant s2 = variant s) as [P2 V2] by (rewrite Es2, Ea; done).
  set (scratch := BitWriter.out_ (BitWriter.finish bw)). destruct (finish_content bw W2) as (st & Eo & Es). rewrite Q1 in Sp.
  assert (forall v e, segment_of (p s) G (byte_of v :: e) data -> len e <= len data ->
    emits (Writer.u8 v ;;; Writer.bytes e ;;; eret s2) s2 (byte_of v :: e) /\ segment_of (p s) G (byte_of v :: e) data /\ comp_ok s2 (G ++ data) /\
      p s2 = p s /\ variant s2 = variant s /\ len (byte_of v :: e) <= len data + 1) as Hout.
  { intros v e Hs He. split_and!; [apply emits_framed|done..|len_lia]. }
  destruct (Z.ltb_spec (len scratch) (len data)) as [Hlt|Hge].
  - destruct (Hout (Z.lor (type (p s)) packet_compressed) scratch) as (Hem & Hrest); [|lia|].
    { subst scratch. rewrite Eo. by apply segment_packed. }
    exists s2, (byte_of (Z.lor (type (p s)) packet_compressed) :: scratch). split; [|exact Hrest].
    apply emits_assert; [by apply Z.leb_le|]. apply (emits_some _ _ (s2, bw)); [exact E2|]. cbv beta iota zeta. fold scratch.
    rewrite (proj2 (Z.ltb_lt _ _)) by done. by rewrite P2.
  - destruct (Hout (type (p s)) data) as (Hem & Hrest); [constructor|lia|].
    exists s2, (byte_of (type (p s)) :: data). split; [|exact Hrest].
    apply emits_assert; [by apply Z.leb_le|]. apply (emits_some _ _ (s2, bw)); [exact E2|]. cbv beta iota zeta. fold scratch.
    rewrite (proj2 (Z.ltb_ge _ _)) by done. by rewrite P2.
Qed.
End ZgfxCompressor.
