(* ===== verification/ZgfxRoundtrip.v ===== *)
(** * ZGFX from end to end

    A compressor and a decompressor that start together stay together: whatever
    messages are sent, in either variant and mode, the messages come out. *)

From S2P Require Import Prelude Buffers CodecLogic Machine Zgfx ZgfxHistory ZgfxDecode ZgfxTokens ZgfxMessages ZgfxCompressor.
Open Scope Z_scope.

Module ZgfxRoundtrip.
Import Zgfx ZgfxHistory ZgfxDecode ZgfxTokens ZgfxMessages ZgfxCompressor.

(** ** Messages of the compressor *)

Lemma emits_size {B} (f : Z -> Enc B) b e : (forall n, emits (f n) b e) -> emits (ebind Writer.size f) b e.
Proof. intros H w. unfold ebind, Writer.size. apply H. Qed.

(** The size of a segment, patched in front of it. *)
Lemma emits_patched {B} sg (m : Enc Compressor.t) s' (k : Compressor.t -> Enc B) b e : emits m s' sg -> len sg < 4294967296 -> emits (k s') b e ->
  emits (let! size_at := Writer.size in
         Writer.u32le 0 ;;;
         let! s := m in
         let! total := Writer.size in
         Writer.patch_u32le size_at (wrap 32 (total - size_at - 4)) ;;;
         k s) b (Writer.le_bytes 4 (len sg) ++ sg ++ e).
Proof.
  intros Hm Hl Hk w. unfold ebind, Writer.size, Writer.u32le, Writer.write_le, Writer.bytes. rewrite Hm.
  assert (len ((w ++ Writer.le_bytes 4 0) ++ sg) - len w - 4 = len sg) as -> by (rewrite !len_app, len_le_bytes; lia).
  assert (wrap 32 (len sg) = len sg) as -> by (apply Z.mod_small; pose proof (len_nonneg sg); lia).
  unfold Writer.patch_u32le, Writer.patch. rewrite !len_app, !len_le_bytes. pose proof (len_nonneg w). pose proof (len_nonneg sg).
  rewrite (proj2 (Z.leb_le _ _)), (proj2 (Z.leb_le _ _)) by lia. cbn [andb]. rewrite Hk. do 2 f_equal.
  unfold Writer.overwrite. rewrite length_le_bytes. unfold len at 1. rewrite Nat2Z.id. rewrite <- !app_assoc, take_app_length. f_equal. f_equal. f_equal.
  rewrite (app_assoc w). rewrite drop_app_length'; [done|]. rewrite length_app, length_le_bytes. unfold len. lia.
Qed.

Definition segments (pr : Params) (n : Z) : Z := (n + max_segment pr - 1) / max_segment pr.

Lemma segments_step v n : 0 < n -> segments (params v) n = 1 + segments (params v) (n - Z.min n (max_segment (params v))).
Proof. destruct v; unfold segments; cbn [max_segment params]; unfold max_segment_size, lite_max_segment_size; lia. Qed.

Lemma segments_nil v : segments (params v) 0 = 0.
Proof. by destruct v. Qed.

Lemma segments_loop_spec fuel : forall s G data, comp_ok s G -> (length data < fuel)%nat ->
  exists s' parts n, emits (Compressor.segments_loop fuel data s) s' parts /\ parts_of (Compressor.p s) G n parts data /\
    Z.of_nat n = segments (Compressor.p s) (len data) /\ comp_ok s' (G ++ data) /\ Compressor.variant s' = Compressor.variant s /\
    len parts <= len data + 5 * Z.of_nat n.
Proof.
  induction fuel as [|fuel IH]; intros s G data C Hf; [lia|]. pose proof (comp_params _ _ C) as P. cbn [Compressor.segments_loop].
  destruct (bool_decide_reflect (data = [])) as [->|N].
  { exists s, [], 0%nat. split_and!; [apply emits_ret|constructor|by rewrite P, segments_nil|by rewrite app_nil_r|done|done]. }
  assert (0 < len data) as Hd by (destruct data; [done|len_lia]). pose proof (history_range (Compressor.variant s)) as Hr. rewrite <- P in Hr.
  cbv zeta. set (size := Z.to_nat (Z.min (len data) (max_segment (Compressor.p s)))).
  assert (len (take size data) = Z.min (len data) (max_segment (Compressor.p s))) as Ls by (subst size; rewrite len_take; lia).
  destruct (encode_segment_spec s G (take size data) C) as (s1 & sg & Em & Hs & C1 & P1 & V1 & Lsg); [lia|].
  destruct (IH s1 (G ++ take size data) (drop size data) C1) as (s2 & parts & n & Em2 & Hp & Hn & C2 & V2 & Lp).
  { subst size. rewrite length_drop. unfold len in *. lia. }
  rewrite <- app_assoc, take_drop in C2. rewrite P1 in Hp, Hn. rewrite len_drop in Hn, Lp.
  exists s2, (Writer.le_bytes 4 (len sg) ++ sg ++ parts), (S n). split_and!.
  - apply (emits_patched sg _ s1); [done|lia|done].
  - rewrite <- (take_drop size data) at 1. constructor; [done|lia|lia|done].
  - rewrite P, segments_step by done. rewrite <- P, Nat2Z.inj_succ, Hn.
    replace (Z.max 0 (len data - Z.of_nat size)) with (len data - Z.min (len data) (max_segment (Compressor.p s))) by (subst size; lia). lia.
  - done.
  - congruence.
  - rewrite !len_app, len_le_bytes. subst size. lia.
Qed.

(** What one call costs beside the bytes themselves. *)
Definition overhead (pr : Params) (n : Z) : Z :=
  if n =? 0 then 3 else if n <=? max_segment pr then 2 else 7 + 5 * segments pr n.

Lemma emits_first {A} v (m : Enc A) a e : emits m a e -> emits (Writer.u8 v ;;; m) a (byte_of v :: e).
Proof. intros H. change (byte_of v :: e) with ([byte_of v] ++ e). by eapply emits_bind; [apply emits_u8|]. Qed.

Lemma compress_spec s G data : comp_ok s G -> len data <= zgfx_max_input_size (Compressor.variant s) ->
  exists s' msg, emits (Compressor.compress data s) s' msg /\ message_of (Compressor.p s) G msg data /\ comp_ok s' (G ++ data) /\
    Compressor.variant s' = Compressor.variant s /\ len msg <= len data + overhead (Compressor.p s) (len data).
Proof.
  intros C Hl. pose proof (comp_params _ _ C) as P. unfold Compressor.compress, overhead. pose proof (len_nonneg data).
  destruct (bool_decide_reflect (data = [])) as [->|N].
  { exists s, (byte_of descriptor_single :: byte_of (Z.lor (type (Compressor.p s)) packet_compressed) :: [byte_of 0]). split_and!.
    - apply emits_assert; [by apply Z.leb_le|]. do 2 apply emits_first. change [byte_of 0] with ([byte_of 0] ++ []).
      eapply emits_bind; [apply emits_u8|apply emits_ret].
    - constructor; [|rewrite P; by destruct (Compressor.variant s)]. apply (segment_packed _ _ [] []); [constructor|done].
    - by rewrite app_nil_r. - done. - done. }
  assert (0 < len data) as Hd by (destruct data; [done|len_lia]). rewrite (proj2 (Z.eqb_neq _ 0)) by lia.
  destruct (Z.leb_spec (len data) (max_segment (Compressor.p s))) as [Hle|Hgt].
  { destruct (encode_segment_spec s G data C Hle) as (s' & sg & Em & Hs & C' & _ & V' & Ls). exists s', (byte_of descriptor_single :: sg).
    split_and!; [|by constructor|done|done|rewrite len_cons; lia]. apply emits_assert; [by apply Z.leb_le|]. by apply emits_first. }
  destruct (segments_loop_spec (S (length data)) s G data C ltac:(lia)) as (s' & parts & n & Em & Hp & Hn & C' & V' & Lp).
  assert (len data < 4294967296 /\ 0 < segments (Compressor.p s) (len data) < 65536) as [Hl32 Hs16].
  { rewrite P in Hgt |- *. destruct (Compressor.variant s); unfold segments; cbn in *;
      unfold max_segment_size, lite_max_segment_size, max_segment_count in *; lia. }
  exists s', (byte_of descriptor_multipart :: Writer.le_bytes 2 (Z.of_nat n) ++ Writer.le_bytes 4 (len data) ++ parts). split_and!.
  - apply emits_assert; [by apply Z.leb_le|]. apply emits_first. fold (segments (Compressor.p s) (len data)). rewrite <- Hn.
    unfold wrap at 1. rewrite Z.mod_small by (change (2 ^ 16) with 65536; lia).
    assert (wrap 32 (len data) = len data) as -> by (apply Z.mod_small; lia).
    eapply emits_bind; [by intros w|]. eapply emits_bind; [by intros w|]. exact Em.
  - constructor; [done|lia|done].
  - done.
  - done.
  - rewrite len_cons, !len_app, !len_le_bytes. lia.
Qed.

(** ** Both ends *)

(** A compressor after any calls within the contract. *)
Inductive compressing (v : ZgfxVariant) (m : ZgfxMode) : Compressor.t -> Prop :=
  | compressing_make : compressing v m (Compressor.make v m)
  | compressing_reset s : compressing v m s -> compressing v m (Compressor.reset s)
  | compressing_compress s data s' e : compressing v m s -> len data <= zgfx_max_input_size v ->
      Compressor.compress data s [] = Some (s', e) -> compressing v m s'.

Lemma compressing_ok v m s : compressing v m s -> exists G, comp_ok s G /\ Compressor.variant s = v.
Proof.
  induction 1 as [|s _ (G & C & V)|s data s' e _ (G & C & V) Hl E].
  - exists []. split; [apply comp_make|by destruct m].
  - exists []. split; [by eapply comp_reset|done].
  - rewrite <- V in Hl. destruct (compress_spec s G data C Hl) as (s1 & msg & Em & _ & C1 & V1 & _). rewrite Em in E.
    injection E as <- _. exists (G ++ data). split; [done|congruence].
Qed.

(** C21: A compressor never aborts and never leaves its window and tables: after any
    calls within the contract, compressing a further message appends to any buffer,
    and what it appends exceeds the message by 2 bytes if it is one segment, by 7
    and 5 for each segment if it is several, and is 3 bytes for none. *)
Theorem zgfx_compress_bounded v m s data buf : compressing v m s -> len data <= zgfx_max_input_size v ->
  exists s' e, Compressor.compress data s buf = Some (s', buf ++ e) /\
    len e <= len data + (if len data =? 0 then 3 else if len data <=? max_segment (params v) then 2
                         else 7 + 5 * ((len data + max_segment (params v) - 1) / max_segment (params v))).
Proof.
  intros H Hl. destruct (compressing_ok v m s H) as (G & C & <-). destruct (compress_spec s G data C Hl) as (s' & e & Em & _ & _ & _ & L).
  exists s', e. rewrite (comp_params _ _ C) in L. split; [apply Em|exact L].
Qed.

Lemma zgfx_compress_bounded_witness : exists s' e,
  Compressor.compress (byte_of <$> [1; 2; 3; 4]) (Compressor.make rdp8 compress_) [byte_of 9] = Some (s', [byte_of 9] ++ e) /\ len e <= 4 + 2.
Proof.
  apply (zgfx_compress_bounded rdp8 compress_); [apply compressing_make|done].
Defined.

(** Messages from one end to the other, and resets of both. *)
Inductive Op := Message (data : list byte) | Reset.

Fixpoint session (ops : list Op) (c : Compressor.t) (d : Decompressor.t) : option (list (Result (list byte))) :=
  match ops with
  | [] => Some []
  | Reset :: ops' => session ops' (Compressor.reset c) (Decompressor.reset d)
  | Message data :: ops' =>
      match Compressor.compress data c [] with
      | None => None
      | Some (c', e) =>
          match Decompressor.decompress e d with
          | None => None
          | Some (r, d') => match session ops' c' d' with Some rs => Some (r :: rs) | None => None end
          end
      end
  end.

Fixpoint messages (ops : list Op) : list (list byte) :=
  match ops with
  | [] => []
  | Message data :: ops' => data :: messages ops'
  | Reset :: ops' => messages ops'
  end.

Definition op_fits (v : ZgfxVariant) (limit : Z) (o : Op) : Prop :=
  match o with Message data => len data <= zgfx_max_input_size v /\ len data <= limit | Reset => True end.

Lemma session_ok v limit ops : Forall (op_fits v limit) ops -> forall c d G, comp_ok c G -> ring_ok d G -> params_fit d ->
  Compressor.variant c = v -> Decompressor.variant d = v -> Decompressor.max_output d = limit ->
  session ops c d = Some (Ok <$> messages ops).
Proof.
  induction 1 as [|[data|] ops Hf _ IH]; intros c d G C R F Vc Vd Hm; [done| |].
  - destruct Hf as [Hl Hlim]. rewrite <- Vc in Hl. destruct (compress_spec c G data C Hl) as (c' & e & Em & Hmsg & C' & Vc' & _).
    cbn [session messages]. rewrite Em. cbn [app].
    assert (Compressor.p c = Decompressor.p d) as Ep by (rewrite (comp_params _ _ C), (proj1 F); congruence). rewrite Ep in Hmsg.
    destruct (read_message d G e data R F Hmsg) as (r & d' & Ed & -> & S & R'); [congruence|]. rewrite Ed.
    rewrite (IH c' d' (G ++ data)); [done|done|done|by eapply params_fit_same|congruence| |]; by destruct S as (? & ? & ->).
  - cbn [session messages]. apply (IH _ _ []); [by eapply comp_reset| |done|done|done|done].
    apply ring_empty. rewrite (proj1 F). apply params_variant.
Qed.

(** C19: ZGFX is lossless: in either variant and mode, any sequence of messages within
    the limits, with resets of both ends in between, is compressed without an
    abort into messages that the decompressor turns back into exactly the
    originals, in order, matches across messages included. *)
Theorem zgfx_roundtrip v m limit ops : 0 <= limit < 2 ^ 64 -> Forall (op_fits v limit) ops ->
  session ops (Compressor.make v m) (Decompressor.make v limit) = Some (Ok <$> messages ops).
Proof.
  intros Hl H. eapply session_ok; [exact H|apply comp_make|apply ring_empty, params_variant|done|by destruct m|done|done].
Qed.

(** A message that repeats an earlier one, and an empty one. *)
Lemma zgfx_roundtrip_witness :
  let x := byte_of <$> [104; 101; 108; 108; 111; 104; 101; 108; 108; 111; 104; 101; 108; 108; 111] in
  session [Message x; Message []; Reset; Message x; Message x] (Compressor.make rdp8_lite compress_) (Decompressor.make rdp8_lite 1000)
    = Some [Ok x; Ok []; Ok x; Ok x].
Proof.
  intros x. apply (zgfx_roundtrip rdp8_lite compress_ 1000 [Message x; Message []; Reset; Message x; Message x]); [done|].
  repeat (apply Forall_cons; split); try apply Forall_nil; try exact I; vm_compute; (split; discriminate).
Defined.
End ZgfxRoundtrip.
