(* ===== verification/Connection.v ===== *)
(** * The RDP connection

    Models [src/src/farland/server/connection.hpp] and [connection.cpp]: the
    server side of a connection after pre-authentication, from the MCS Connect
    Initial to the end, as the sans-IO state machine it is.

    A [Connection] is the record [t]; its member functions are computations in
    the monad of [Machine] over [t].  Time points are integers of nanoseconds,
    as in [AutoDetect].  The logging of the code is left out.  The theorems are
    in [ConnectionSafety], [ConnectionStream] and [ConnectionHandshake]. *)

From S2P Require Import Prelude Buffers CodecLogic Framing X224 Mcs Fastpath Fields SessionInfo.
From S2P Require Import Input Capabilities Share Gcc ClientInfo Pointer PreAuth AutodetectCodec AutoDetect Machine.
Open Scope Z_scope.
#[local] Existing Instance X224.TpduCode_eq_dec.

Module Connection.

(** ** Configuration, session, events *)

Inductive AutoDetectMode := off | continuous | full.

Record ServerConfig := mkConfig {
  min_desktop_size : Z;
  max_desktop_size : Z;
  max_bits_per_pixel : Z;
  cfg_desktop_size : option (Z * Z);
  choose_desktop_size : option (Gcc.ClientData -> Z * Z);
  cfg_autodetect : AutoDetectMode;
  autodetect_config : AutoDetect.Config;
  heartbeat_period : Z
}.

Inductive State :=
  | wait_connect_initial
  | wait_erect_domain
  | wait_attach_user
  | wait_channel_joins
  | connect_time_autodetect
  | wait_confirm_active
  | finalizing
  | active
  | closed.

#[export] Instance AutoDetectMode_eq_dec : EqDecision AutoDetectMode.
Proof. solve_decision. Defined.
#[export] Instance State_eq_dec : EqDecision State.
Proof. solve_decision. Defined.

Record PointerSupport := mkPointerSupport {
  color_pointer_cache_size : Z; pointer_cache_size : Z; large_pointer_flags : Z }.

Record Session := mkSession {
  negotiation : PreAuth.Negotiation;
  client_data : Gcc.ClientData;
  user_channel_id : Z;
  message_channel_id : option Z;
  static_channels : list (list byte * Z);
  user_name : list byte;
  domain : list byte;
  info_flags : Z;
  share_id : Z;
  desktop_width : Z;
  desktop_height : Z;
  bits_per_pixel : Z;
  client_capabilities : Capabilities.CapabilitySets;
  fastpath_output : bool;
  no_bitmap_compression_header : bool;
  max_request_size : Z;
  supports_error_info : bool;
  pointer : PointerSupport;
  autodetect : bool;
  heartbeat : bool
}.

Inductive Event :=
  | ClientInfo (domain user_name password : list byte) (flags : Z) (cookie : option ClientInfo.AutoReconnectCookie)
  | Activated (reactivation : bool)
  | Input (events : list Input.InputEvent)
  | RefreshRequested (areas : list Share.Rectangle16)
  | OutputSuppressed (suppressed : bool) (area : option Share.Rectangle16)
  | ChannelData (channel_id : Z) (data : list byte)
  | ShutdownRequested
  | Closed (reason : string) (error : bool).

Record t := mk {
  config_ : ServerConfig;
  state_ : State;
  session_ : Session;
  input_ : list byte;
  output_ : list byte;
  events_ : list Event;
  reactivating_ : bool;
  joined_channels_ : list Z;
  autodetect_ : AutoDetect.t;
  now_ : Z;
  last_output_ : Z
}.

(** ** Assignments *)

Definition with_state (v : State) (s : t) : t :=
  mk (config_ s) v (session_ s) (input_ s) (output_ s) (events_ s) (reactivating_ s) (joined_channels_ s)
     (autodetect_ s) (now_ s) (last_output_ s).
Definition with_session (v : Session) (s : t) : t :=
  mk (config_ s) (state_ s) v (input_ s) (output_ s) (events_ s) (reactivating_ s) (joined_channels_ s)
     (autodetect_ s) (now_ s) (last_output_ s).
Definition with_input (v : list byte) (s : t) : t :=
  mk (config_ s) (state_ s) (session_ s) v (output_ s) (events_ s) (reactivating_ s) (joined_channels_ s)
     (autodetect_ s) (now_ s) (last_output_ s).
Definition with_output (v : list byte) (s : t) : t :=
  mk (config_ s) (state_ s) (session_ s) (input_ s) v (events_ s) (reactivating_ s) (joined_channels_ s)
     (autodetect_ s) (now_ s) (last_output_ s).
Definition with_events (v : list Event) (s : t) : t :=
  mk (config_ s) (state_ s) (session_ s) (input_ s) (output_ s) v (reactivating_ s) (joined_channels_ s)
     (autodetect_ s) (now_ s) (last_output_ s).
Definition with_reactivating (v : bool) (s : t) : t :=
  mk (config_ s) (state_ s) (session_ s) (input_ s) (output_ s) (events_ s) v (joined_channels_ s)
     (autodetect_ s) (now_ s) (last_output_ s).
Definition with_joined (v : list Z) (s : t) : t :=
  mk (config_ s) (state_ s) (session_ s) (input_ s) (output_ s) (events_ s) (reactivating_ s) v
     (autodetect_ s) (now_ s) (last_output_ s).
Definition with_autodetect (v : AutoDetect.t) (s : t) : t :=
  mk (config_ s) (state_ s) (session_ s) (input_ s) (output_ s) (events_ s) (reactivating_ s) (joined_channels_ s)
     v (now_ s) (last_output_ s).
Definition with_times (now last : Z) (s : t) : t :=
  mk (config_ s) (state_ s) (session_ s) (input_ s) (output_ s) (events_ s) (reactivating_ s) (joined_channels_ s)
     (autodetect_ s) now last.

(** Assignments to members of the session, those of one handler together. *)
Definition set_client_data (d : Gcc.ClientData) (x : Session) : Session :=
  mkSession (negotiation x) d (user_channel_id x) (message_channel_id x) (static_channels x) (user_name x) (domain x)
    (info_flags x) (share_id x) (desktop_width x) (desktop_height x) (bits_per_pixel x) (client_capabilities x)
    (fastpath_output x) (no_bitmap_compression_header x) (max_request_size x) (supports_error_info x) (pointer x)
    (autodetect x) (heartbeat x).
Definition set_desktop (width height bpp : Z) (error_info : bool) (x : Session) : Session :=
  mkSession (negotiation x) (client_data x) (user_channel_id x) (message_channel_id x) (static_channels x) (user_name x)
    (domain x) (info_flags x) (share_id x) width height bpp (client_capabilities x)
    (fastpath_output x) (no_bitmap_compression_header x) (max_request_size x) error_info (pointer x)
    (autodetect x) (heartbeat x).
Definition set_channels (user : Z) (message : option Z) (channels : list (list byte * Z)) (x : Session) : Session :=
  mkSession (negotiation x) (client_data x) user message channels (user_name x)
    (domain x) (info_flags x) (share_id x) (desktop_width x) (desktop_height x) (bits_per_pixel x) (client_capabilities x)
    (fastpath_output x) (no_bitmap_compression_header x) (max_request_size x) (supports_error_info x) (pointer x)
    (autodetect x) (heartbeat x).
Definition set_info (user dom : list byte) (flags : Z) (x : Session) : Session :=
  mkSession (negotiation x) (client_data x) (user_channel_id x) (message_channel_id x) (static_channels x) user
    dom flags (share_id x) (desktop_width x) (desktop_height x) (bits_per_pixel x) (client_capabilities x)
    (fastpath_output x) (no_bitmap_compression_header x) (max_request_size x) (supports_error_info x) (pointer x)
    (autodetect x) (heartbeat x).
Definition set_detection (detect beat : bool) (x : Session) : Session :=
  mkSession (negotiation x) (client_data x) (user_channel_id x) (message_channel_id x) (static_channels x) (user_name x)
    (domain x) (info_flags x) (share_id x) (desktop_width x) (desktop_height x) (bits_per_pixel x) (client_capabilities x)
    (fastpath_output x) (no_bitmap_compression_header x) (max_request_size x) (supports_error_info x) (pointer x)
    detect beat.
Definition set_share_id (id : Z) (x : Session) : Session :=
  mkSession (negotiation x) (client_data x) (user_channel_id x) (message_channel_id x) (static_channels x) (user_name x)
    (domain x) (info_flags x) id (desktop_width x) (desktop_height x) (bits_per_pixel x) (client_capabilities x)
    (fastpath_output x) (no_bitmap_compression_header x) (max_request_size x) (supports_error_info x) (pointer x)
    (autodetect x) (heartbeat x).
Definition set_capabilities (caps : Capabilities.CapabilitySets) (fast plain : bool) (request : Z) (p : PointerSupport)
    (x : Session) : Session :=
  mkSession (negotiation x) (client_data x) (user_channel_id x) (message_channel_id x) (static_channels x) (user_name x)
    (domain x) (info_flags x) (share_id x) (desktop_width x) (desktop_height x) (bits_per_pixel x) caps
    fast plain request (supports_error_info x) p (autodetect x) (heartbeat x).

(** ** Helpers *)

Definition max_buffered_input : Z := Z.shiftl 1 20.
Definition max_rdp_version : Z := 0x00080011.
Definition channel_chunk_length : Z := 1600.
Definition slow_path_update_limit : Z := 0x3FFF - 64.
Definition pointer_cache_slots : Z := 25.
Definition heartbeat_warning_count : Z := 3.
Definition heartbeat_reconnect_count : Z := 5.

(** [std::clamp]. *)
Definition clamp (v low high : Z) : Z := if v <? low then low else if high <? v then high else v.

Definition choose_bits_per_pixel (core : Gcc.ClientCoreData) (max_bpp : Z) : Z :=
  let supported := default 0 (Gcc.supported_color_depths core) in
  if (32 <=? max_bpp) && has_bits supported Gcc.bpp32 then 32
  else if (24 <=? max_bpp) &&
          (has_bits supported Gcc.bpp24 || match Gcc.high_color_depth core with Some d => d =? 24 | None => false end)
  then 24
  else 16.

(** The members that are not assigned have the defaults of [capabilities.hpp]. *)
Definition server_capabilities (x : Session) : Capabilities.CapabilitySets :=
  let extra_flags := Z.lor (Z.lor Capabilities.fastpath_output_supported Capabilities.long_credentials_supported)
                           Capabilities.no_bitmap_compression_hdr in
  let input_flags :=
    Z.lor (Z.lor (Z.lor (Z.lor (Z.lor Capabilities.input_scancodes Capabilities.input_mousex)
      Capabilities.input_unicode) Capabilities.input_fastpath_input) Capabilities.input_fastpath_input2)
      Capabilities.input_mouse_hwheel in
  let tiles := wrap 32 (wrap 32 (desktop_width x + 63) / 64 * (wrap 32 (desktop_height x + 63) / 64)) in
  Capabilities.mkSets
    (Some (Capabilities.mkGeneral Capabilities.os_major_unix 0 0x0200 0 extra_flags 0 0 0 1 1))
    (Some (Capabilities.mkBitmap (bits_per_pixel x) 1 1 1 (desktop_width x) (desktop_height x) 1 1 0 0 1))
    (Some (Capabilities.mkOrder (replicate 16 Corelib.Init.Byte.x00) 1 20 1 0 (Z.lor (Z.lor 0x0002 0x0008) 0x0020)
             (replicate 32 0) 0 0 (480 * 480) 0))
    (Some (Capabilities.mkPointer 1 pointer_cache_slots (Some pointer_cache_slots)))
    (Some (Capabilities.mkInput input_flags 0 0 0 0 []))
    (Some (Capabilities.mkVirtualChannel 0 (Some channel_chunk_length)))
    (Some (Capabilities.mkShare Mcs.server_channel_id))
    (Some (Capabilities.mkFont 0x0001))
    None
    (Some (Capabilities.mkMultifragment (wrap 32 (wrap 32 (tiles + 1) * 16384))))
    (Some (Capabilities.mkLargePointer (Z.lor Capabilities.size_96x96 Capabilities.size_384x384)))
    None None [].

Definition to_string (s : State) : string :=
  match s with
  | wait_connect_initial => "wait-connect-initial"
  | wait_erect_domain => "wait-erect-domain"
  | wait_attach_user => "wait-attach-user"
  | wait_channel_joins => "wait-channel-joins"
  | connect_time_autodetect => "connect-time-autodetect"
  | wait_confirm_active => "wait-confirm-active"
  | finalizing => "finalizing"
  | active => "active"
  | closed => "closed"
  end.

(** [lower] of an ASCII character. *)
Definition lower (c : byte) : Z := let v := u8_of c in if (65 <=? v) && (v <=? 90) then v - 65 + 97 else v.

Definition same_name (a b : list byte) : bool := bool_decide (lower <$> a = lower <$> b).

Fixpoint find_channel (channels : list (list byte * Z)) (name : list byte) : option Z :=
  match channels with
  | [] => None
  | (n, id) :: channels' => if same_name n name then Some id else find_channel channels' name
  end.

Definition static_channel_id (x : Session) (name : list byte) : option Z := find_channel (static_channels x) name.

Definition drdynvc : list byte := X224.text "drdynvc".

Definition supports_gfx (x : Session) : bool :=
  Gcc.has_early_flag (Gcc.core (client_data x)) Gcc.support_dynvc_gfx_protocol && (bits_per_pixel x =? 32) &&
  bool_decide (is_Some (static_channel_id x drdynvc)).

Definition known_channel (x : Session) (id : Z) : bool := existsb (fun c => snd c =? id) (static_channels x).

(** The session of a new connection. *)
Definition no_session (n : PreAuth.Negotiation) : Session :=
  mkSession n (fst Gcc.client_start) 0 None [] [] [] 0 0 0 0 32 Capabilities.no_sets false false 0 false
    (mkPointerSupport 0 0 0) false false.

(** [now_] and [last_output_] are the clock's epoch. *)
Definition make (config : ServerConfig) (n : PreAuth.Negotiation) : t :=
  mk config wait_connect_initial (no_session n) [] [] [] false [] (AutoDetect.make (autodetect_config config)) 0 0.

(** ** Output *)

Definition state : M t State := mget state_.
Definition session : M t Session := mget session_.
Definition in_state (st : State) : M t bool := mget (fun s => bool_decide (state_ s = st)).
Definition put_state (st : State) : M t unit := mmod (with_state st).
Definition put_session (f : Session -> Session) : M t unit := mmod (fun s => with_session (f (session_ s)) s).
Definition emplace_event (e : Event) : M t unit := mmod (fun s => with_events (events_ s ++ [e]) s).

(** An encoder run on [output_]. *)
Definition emit (m : Enc unit) : M t unit := fun s =>
  match m (output_ s) with Some (_, out) => Some (Ok tt, with_output out s) | None => None end.

(** [begin_data_tpdu], [mcs::encode], [end_tpkt]. *)
Definition mcs_pdu (pdu : Mcs.DomainPdu) : Enc unit :=
  let! tpkt := X224.begin_data_tpdu in
  Mcs.encode pdu ;;;
  X224.end_tpkt tpkt.

Definition send_io (payload : list byte) : M t unit :=
  emit (mcs_pdu (Mcs.SendDataIndication Mcs.server_channel_id Mcs.io_channel_id payload)).

Definition write_message_channel (x : Session) (flags : Z) (payload : list byte) : Enc unit :=
  eassert (bool_decide (is_Some (message_channel_id x))) ;;;
  let! data := elocal (SessionInfo.write_basic_security_header flags ;;; Writer.bytes payload) in
  mcs_pdu (Mcs.SendDataIndication Mcs.server_channel_id (default 0 (message_channel_id x)) data).

Definition send_autodetect (x : Session) (request : AutodetectCodec.Request) : Enc unit :=
  let! payload := elocal (AutodetectCodec.encode_request request) in
  write_message_channel x SessionInfo.autodetect_req payload.

Fixpoint send_autodetects (x : Session) (requests : list AutodetectCodec.Request) : Enc unit :=
  match requests with
  | [] => eret tt
  | r :: requests' => send_autodetect x r ;;; send_autodetects x requests'
  end.

(** The template, for a PDU whose [encode] is [payload]. *)
Definition send_data_pdu (pdu : Share.DataPdu) : M t unit :=
  let$ x := session in
  match Share.encode pdu with
  | None => fun _ => None
  | Some payload =>
      let$ p := mlocal payload in
      let$ data := mlocal (Share.write_data_pdu (share_id x) Mcs.server_channel_id (Share.type2_of pdu) p) in
      send_io data
  end.

(** [fail] and [close]. *)
Definition fail_ (reason : string) : M t unit :=
  let$ _ := put_state closed in emplace_event (Closed reason true).
Definition close (reason : string) : M t unit :=
  let$ _ := put_state closed in emplace_event (Closed reason false).

Definition activate : M t unit :=
  let$ _ := put_state active in
  let$ reactivating := mget reactivating_ in
  let$ _ := emplace_event (Activated reactivating) in
  mmod (with_reactivating false).

(** The default [DemandActive::source_descriptor]. *)
Definition source_descriptor : list byte := X224.text "RDP".

Definition send_demand_active : M t unit :=
  let$ x := session in
  let$ pdu := mlocal (Share.encode_demand_active Mcs.server_channel_id
                        (Share.mkDemand (share_id x) source_descriptor (server_capabilities x) 0)) in
  let$ _ := send_io pdu in
  put_state wait_confirm_active.

(** Licensing and the Demand Active. *)
Definition start_licensing : M t unit :=
  let$ license := mlocal SessionInfo.encode_license_valid_client in
  let$ _ := send_io license in
  let$ _ := put_session (fun x => set_share_id (Z.lor 0x00010000 (user_channel_id x)) x) in
  send_demand_active.

Definition finish_connect_time_autodetect : M t unit :=
  let$ a := mget autodetect_ in
  let (result, a) := AutoDetect.network_characteristics_result a in
  let$ _ := mmod (with_autodetect a) in
  let$ x := session in
  let$ _ := match result with
            | Some r => emit (send_autodetect x (AutodetectCodec.NetworkResult r))
            | None => mret tt
            end in
  start_licensing.

(** ** The connection sequence *)

(** The channel ids of [on_connect_initial], and the next one. *)
Fixpoint assign_channels (channels : list Gcc.ChannelDef) (next_id : Z) : list (list byte * Z) * Z :=
  match channels with
  | [] => ([], next_id)
  | c :: channels' =>
      let (assigned, next) := assign_channels channels' (wrap 16 (next_id + 1)) in
      ((Gcc.name c, next_id) :: assigned, next)
  end.

Definition desktop_request (config : ServerConfig) (client : Gcc.ClientData) : Z * Z :=
  match choose_desktop_size config with
  | Some choose => choose client
  | None =>
      match cfg_desktop_size config with
      | Some size => size
      | None => (Gcc.desktop_width (Gcc.core client), Gcc.desktop_height (Gcc.core client))
      end
  end.

(** The session after the Connect Initial, and the server's answer. *)
Definition agree (config : ServerConfig) (client : Gcc.ClientData) (x : Session) : Session :=
  let core := Gcc.core client in
  let (width, height) := desktop_request config client in
  let x := set_desktop (clamp width (min_desktop_size config) (max_desktop_size config))
                       (clamp height (min_desktop_size config) (max_desktop_size config))
                       (choose_bits_per_pixel core (max_bits_per_pixel config))
                       (Gcc.has_early_flag core Gcc.support_errinfo_pdu) x in
  let requested := match Gcc.network client with Some n => Gcc.channels n | None => [] end in
  let (channels, next_id) := assign_channels requested (Mcs.io_channel_id + 1) in
  match Gcc.message_channel client with
  | Some _ => set_channels (wrap 16 (next_id + 1)) (Some next_id) (static_channels x ++ channels) x
  | None => set_channels next_id (message_channel_id x) (static_channels x ++ channels) x
  end.

Definition server_data (client : Gcc.ClientData) (x : Session) : Gcc.ServerData :=
  let core := Gcc.core client in
  let requested := match Gcc.network client with Some n => Gcc.channels n | None => [] end in
  let (channels, next_id) := assign_channels requested (Mcs.io_channel_id + 1) in
  Gcc.mkServerData
    (Gcc.mkServerCore (clamp (Gcc.version core) Gcc.rdp_version_5_plus max_rdp_version)
       (Some (PreAuth.requested_protocols (negotiation x)))
       (Some (if Gcc.has_early_flag core Gcc.support_skip_channeljoin then Gcc.skip_channeljoin_supported else 0)))
    (Gcc.mkServerSecurity 0 0)
    (Gcc.mkServerNetwork Mcs.io_channel_id (snd <$> channels))
    (match Gcc.message_channel client with Some _ => Some next_id | None => None end)
    None.

Definition on_connect_initial (data : Reader.t) : M t unit :=
  let$ (initial, _) := mread Mcs.decode_connect_initial data in
  let$ (blocks, _) := mread Gcc.decode_conference_create_request (Reader.make (Mcs.user_data initial) 0) in
  let$ (client, _) := mread Gcc.decode_client_data (Reader.make blocks 0) in
  let$ _ := put_session (set_client_data client) in
  let$ x := session in
  let core := Gcc.core client in
  if match Gcc.server_selected_protocol core with
     | Some p => negb (p =? PreAuth.selected_protocol (negotiation x))
     | None => false
     end
  then close "serverSelectedProtocol does not match the negotiated protocol"
  else
    let$ config := mget config_ in
    let$ _ := put_session (agree config client) in
    let$ server_blocks := mlocal (Gcc.encode_server_data (server_data client x)) in
    let$ conference := mlocal (Gcc.encode_conference_create_response server_blocks) in
    let response := Mcs.mkResponse Mcs.successful 0 (Mcs.negotiate_domain_parameters initial) conference in
    let$ _ := emit (let! start := X224.begin_data_tpdu in
                    Mcs.encode_connect_response response ;;;
                    X224.end_tpkt start) in
    put_state wait_erect_domain.

Definition on_channel_join (initiator channel_id : Z) : M t unit :=
  let$ x := session in
  if negb (initiator =? user_channel_id x)
  then mfail invalid_value "Channel Join Request from an unknown user" 0
  else
    let allowed := (channel_id =? user_channel_id x) || (channel_id =? Mcs.io_channel_id) ||
                   bool_decide (message_channel_id x = Some channel_id) || known_channel x channel_id in
    let result := if allowed then Mcs.successful else Mcs.no_such_channel in
    let$ _ := if allowed then mmod (fun s => with_joined (joined_channels_ s ++ [channel_id]) s) else mret tt in
    emit (mcs_pdu (Mcs.ChannelJoinConfirm result (user_channel_id x) channel_id
                     (if allowed then Some channel_id else None))).

Definition message_channel_joined (s : t) : bool :=
  match message_channel_id (session_ s) with
  | None => false
  | Some id =>
      Gcc.has_early_flag (Gcc.core (client_data (session_ s))) Gcc.support_skip_channeljoin ||
      bool_decide (id ∈ joined_channels_ s)
  end.

Definition on_client_info (data : Reader.t) : M t unit :=
  let$ (flags, data) := mread SessionInfo.read_basic_security_header data in
  if negb (has_bits flags SessionInfo.info_pkt)
  then mfail invalid_value "expected the Client Info PDU" (Reader.offset data)
  else
    let$ (info, _) := mread ClientInfo.decode_client_info data in
    let$ _ := put_session (set_info (ClientInfo.user_name info) (ClientInfo.domain info) (ClientInfo.flags info)) in
    let cookie := match ClientInfo.extended info with
                  | Some e => ClientInfo.auto_reconnect_cookie e
                  | None => None
                  end in
    let$ _ := emplace_event (ClientInfo (ClientInfo.domain info) (ClientInfo.user_name info) (ClientInfo.password info)
                               (ClientInfo.flags info) cookie) in
    let$ channel := mget message_channel_joined in
    let$ config := mget config_ in
    let$ x := session in
    let core := Gcc.core (client_data x) in
    let detect := channel && negb (bool_decide (cfg_autodetect config = off)) &&
                  Gcc.has_early_flag core Gcc.support_netchar_autodetect in
    let$ _ := put_session (set_detection detect (channel && Gcc.has_early_flag core Gcc.support_heartbeat_pdu)) in
    if detect && bool_decide (cfg_autodetect config = full) then
      let$ _ := put_state connect_time_autodetect in
      let$ a := mget autodetect_ in
      let$ now := mget now_ in
      let (requests, a) := AutoDetect.start_connect_time a now in
      let$ _ := mmod (with_autodetect a) in
      let$ x := session in
      emit (send_autodetects x requests)
    else start_licensing.

(** [proto::FontMap{}]. *)
Definition default_font_map : Share.DataPdu := Share.FontMap 0 0 0x0003 0x0004.

(** [fastpath::update_code::bitmap]. *)
Definition fastpath_bitmap : Z := 0x1.

(** The current state and time say that the connect-time detection is over. *)
Definition detection_over (s : t) : bool :=
  bool_decide (state_ s = connect_time_autodetect) && AutoDetect.connect_time_complete (autodetect_ s) (now_ s).

Definition on_message_channel (data : Reader.t) : M t unit :=
  let$ (flags, data) := mread SessionInfo.read_basic_security_header data in
  if negb (has_bits flags SessionInfo.autodetect_rsp) then mret tt
  else
    match AutodetectCodec.decode_response data with
    | Err _ => mret tt
    | Ok (response, _) =>
        let$ _ := mmod (fun s => with_autodetect (AutoDetect.on_response (autodetect_ s) response (now_ s)) s) in
        let$ complete := mget detection_over in
        if complete then finish_connect_time_autodetect else mret tt
    end.

(** ** The share *)

Definition clear_other (c : Capabilities.CapabilitySets) : Capabilities.CapabilitySets :=
  Capabilities.mkSets (Capabilities.general c) (Capabilities.bitmap c) (Capabilities.order c) (Capabilities.pointer c)
    (Capabilities.input c) (Capabilities.virtual_channel c) (Capabilities.share c) (Capabilities.font c)
    (Capabilities.color_cache c) (Capabilities.multifragment_update c) (Capabilities.large_pointer c)
    (Capabilities.surface_commands c) (Capabilities.frame_acknowledge c) [].

Definition pointer_support (c : Capabilities.CapabilitySets) : PointerSupport :=
  let (color, new) := match Capabilities.pointer c with
                      | Some p => (Z.min (Capabilities.color_pointer_cache_size p) pointer_cache_slots,
                                   Z.min (default 0 (Capabilities.pointer_cache_size p)) pointer_cache_slots)
                      | None => (0, 0)
                      end in
  mkPointerSupport color new
    match Capabilities.large_pointer c with
    | Some l => Z.land (Capabilities.support_flags l) (Z.lor Capabilities.size_96x96 Capabilities.size_384x384)
    | None => 0
    end.

Definition on_confirm_active (body : Reader.t) : M t unit :=
  let start := Reader.offset body in
  let$ (confirm, _) := mread Share.decode_confirm_active body in
  let$ x := session in
  if negb (Share.ca_share_id confirm =? share_id x)
  then mfail invalid_value "Confirm Active for another share" start
  else
    let caps := clear_other (Share.ca_capabilities confirm) in
    match Capabilities.general caps, Capabilities.bitmap caps with
    | Some general, Some _ =>
        let$ _ := put_session (set_capabilities caps
          (has_bits (Capabilities.extra_flags general) Capabilities.fastpath_output_supported)
          (has_bits (Capabilities.extra_flags general) Capabilities.no_bitmap_compression_hdr)
          (match Capabilities.multifragment_update caps with
           | Some m => Capabilities.max_request_size m
           | None => 0
           end)
          (pointer_support caps)) in
        let$ _ := put_state finalizing in
        let$ _ := send_data_pdu (Share.Synchronize 1 (user_channel_id x)) in
        send_data_pdu (Share.Control Share.cooperate 0 0)
    | _, _ => mfail invalid_value "Confirm Active without general or bitmap capabilities" start
    end.

Definition on_data_pdu (body : Reader.t) : M t unit :=
  let$ (data, _) := mread Share.read_share_data body in
  let$ x := session in
  if negb (Share.sd_share_id data =? share_id x) then mret tt
  else
    let$ pdu := mlift (Share.decode_data_pdu data) in
    match pdu with
    | Share.Control action _ _ =>
        if action =? Share.request_control
        then send_data_pdu (Share.Control Share.granted_control (user_channel_id x) Mcs.server_channel_id)
        else mret tt
    | Share.FontList _ _ _ _ =>
        let$ _ := send_data_pdu default_font_map in
        let$ now := in_state finalizing in
        if now : bool then activate else mret tt
    | Share.InputPdu events => if bool_decide (events = []) then mret tt else emplace_event (Input events)
    | Share.RefreshRect areas => emplace_event (RefreshRequested areas)
    | Share.SuppressOutput allow rect => emplace_event (OutputSuppressed (negb allow) rect)
    | Share.ShutdownRequest => emplace_event ShutdownRequested
    | _ => mret tt
    end.

Definition on_io_data (data : Reader.t) : M t unit :=
  let$ (control, _) := mread Share.read_share_control data in
  let type := Share.sc_type control in
  if type =? Share.flow then mret tt
  else if type =? Share.confirm_active then
    let$ expected := in_state wait_confirm_active in
    if expected : bool then on_confirm_active (Share.sc_body control) else mret tt
  else if type =? Share.data then
    let$ reactivating := in_state wait_confirm_active in
    if reactivating : bool then mret tt else on_data_pdu (Share.sc_body control)
  else mret tt.

Definition on_fastpath_input (pdu : Reader.t) : M t unit :=
  let$ st := state in
  if bool_decide (st <> finalizing) && bool_decide (st <> active) && bool_decide (st <> wait_confirm_active)
  then mfail invalid_value "fast-path input before the capability exchange" 0
  else
    let$ (events, _) := mread Input.decode_fastpath_input pdu in
    if negb (bool_decide (events = [])) && negb (bool_decide (st = wait_confirm_active))
    then emplace_event (Input events) else mret tt.

(** What [on_domain_pdu] does behind the states with one expected PDU. *)
Definition on_channel_pdu (start : Z) (pdu : Mcs.DomainPdu) : M t unit :=
  let$ st := state in
  let$ x := session in
  match pdu with
  | Mcs.ChannelJoinRequest initiator channel_id =>
      if negb (bool_decide (st = wait_channel_joins))
      then mfail invalid_value "MCS Channel Join Request after the joins" start
      else on_channel_join initiator channel_id
  | Mcs.SendDataRequest initiator channel_id data =>
      if negb (initiator =? user_channel_id x) then mfail invalid_value "MCS data from an unknown user" start
      else
        let payload := Reader.make data start in
        if channel_id =? Mcs.io_channel_id then
          if bool_decide (st = wait_channel_joins) then on_client_info payload else on_io_data payload
        else if bool_decide (message_channel_id x = Some channel_id) then on_message_channel payload
        else if negb (known_channel x channel_id) then mfail invalid_value "MCS data on an unknown channel" start
        else emplace_event (ChannelData channel_id data)
  | _ => mfail invalid_value "unexpected MCS domain PDU" start
  end.

Definition on_domain_pdu (data : Reader.t) : M t unit :=
  let start := Reader.offset data in
  let$ (pdu, _) := mread Mcs.decode_domain_pdu data in
  let$ st := state in
  let$ x := session in
  match pdu with
  | Mcs.DisconnectProviderUltimatum _ => close "client disconnected"
  | _ =>
      match st with
      | wait_erect_domain =>
          match pdu with
          | Mcs.ErectDomainRequest _ _ => put_state wait_attach_user
          | _ => mfail invalid_value "expected MCS Erect Domain Request" start
          end
      | wait_attach_user =>
          match pdu with
          | Mcs.AttachUserRequest =>
              let$ _ := emit (mcs_pdu (Mcs.AttachUserConfirm Mcs.successful (Some (user_channel_id x)))) in
              put_state wait_channel_joins
          | _ => mfail invalid_value "expected MCS Attach User Request" start
          end
      | _ => on_channel_pdu start pdu
      end
  end.

Definition handle_pdu (kind : Framing.FrameKind) (pdu : list byte) : M t unit :=
  let r := Reader.make pdu 0 in
  match kind with
  | Framing.fastpath => on_fastpath_input r
  | Framing.tpkt =>
      let$ (tpdu, _) := mread X224.read_tpkt r in
      let$ code := mlift (X224.peek_tpdu_code tpdu) in
      if bool_decide (code = X224.disconnect_request) then close "client sent an X.224 Disconnect Request"
      else if negb (bool_decide (code = X224.data))
      then mfail invalid_value "unexpected X.224 TPDU" (Reader.offset tpdu)
      else
        let$ (data, _) := mread X224.decode_data_tpdu tpdu in
        let$ initial := in_state wait_connect_initial in
        if initial : bool then on_connect_initial data else on_domain_pdu data
  end.

(** ** The interface *)

(** The loop of [receive]; the result says whether it returned from the
    function.  Each frame is at least two octets long. *)
Fixpoint receive_loop (fuel : nat) : M t bool :=
  match fuel with
  | O => fun _ => None
  | S fuel' =>
      let$ over := in_state closed in
      if over : bool then mret false
      else
        let$ input := mget input_ in
        match Framing.peek_frame input with
        | Err e => let$ _ := fail_ (message e) in mret true
        | Ok None => mret false
        | Ok (Some frame) =>
            let length := Framing.length frame in
            if len input <? length then mret false
            else
              let n := Z.to_nat length in
              let$ _ := mmod (with_input (drop n input)) in
              let$ handled := mcatch (handle_pdu (Framing.kind frame) (take n input)) in
              match handled with
              | Err e => let$ _ := fail_ (message e) in mret true
              | Ok _ => receive_loop fuel'
              end
        end
  end.

Definition receive (bytes : list byte) : M t unit :=
  let$ over := in_state closed in
  if over : bool then mret tt
  else
    let$ _ := mmod (fun s => with_input (input_ s ++ bytes) s) in
    let$ returned := (fun s => receive_loop (S (length (input_ s))) s) in
    if returned : bool then mret tt
    else
      let$ input := mget input_ in
      if max_buffered_input <? len input then fail_ "too much unframed input" else mret tt.

(** [send_autodetect(framed, start)], the bytes, [send_autodetect(framed, stop)]. *)
Definition framed (x : Session) (start stop : AutodetectCodec.Request) (bytes : list byte) : Enc unit :=
  send_autodetect x start ;;;
  Writer.bytes bytes ;;;
  send_autodetect x stop.

Definition take_output : M t (list byte) :=
  let$ bytes := mget output_ in
  let$ _ := mmod (with_output []) in
  if bool_decide (bytes = []) then mret bytes
  else
    let$ _ := mmod (fun s => with_times (now_ s) (now_ s) s) in
    let$ is_active := in_state active in
    let$ config := mget config_ in
    let$ x := session in
    let$ due := mget (fun s => AutoDetect.bandwidth_measurement_due (autodetect_ s) (now_ s) (len bytes)) in
    if negb is_active || negb (autodetect x) || bool_decide (cfg_autodetect config = off) || negb due
    then mret bytes
    else
      let$ a := mget autodetect_ in
      let$ now := mget now_ in
      let (start, a) := AutoDetect.start_bandwidth_measurement a now in
      let$ _ := mmod (with_autodetect a) in
      mlocal (framed x start (AutoDetect.stop_bandwidth_measurement a) bytes).

Definition nanoseconds (seconds : Z) : Z := seconds * 1000000000.

Definition send_heartbeat (x : Session) (period : Z) : Enc unit :=
  let! payload := elocal (AutodetectCodec.encode_heartbeat
    (AutodetectCodec.mkHeartbeat (wrap 8 (Z.min period 0xFF)) heartbeat_warning_count heartbeat_reconnect_count)) in
  write_message_channel x SessionInfo.heartbeat payload.

Definition tick (now : Z) : M t unit :=
  let$ _ := mmod (fun s => with_times now (last_output_ s) s) in
  let$ complete := mget detection_over in
  if complete : bool then finish_connect_time_autodetect
  else
    let$ is_active := in_state active in
    if negb is_active then mret tt
    else
      let$ x := session in
      let$ _ :=
        if autodetect x then
          let$ a := mget autodetect_ in
          let (probe, a) := AutoDetect.poll_rtt_request a now in
          let$ _ := mmod (with_autodetect a) in
          match probe with
          | Some p =>
              let$ _ := emit (send_autodetect x p) in
              mmod (with_times now now)
          | None => mret tt
          end
        else mret tt in
      let$ config := mget config_ in
      let$ last_output := mget last_output_ in
      if heartbeat x && (0 <? heartbeat_period config) && (nanoseconds (heartbeat_period config) <=? now - last_output)
      then
        let$ _ := emit (send_heartbeat x (heartbeat_period config)) in
        mmod (with_times now now)
      else mret tt.

Definition poll_event : M t (option Event) := fun s =>
  match events_ s with
  | [] => Some (Ok None, s)
  | e :: es => Some (Ok (Some e), with_events es s)
  end.

Definition max_update_size (x : Session) : Z :=
  if negb (fastpath_output x) then slow_path_update_limit
  else if max_request_size x =? 0 then Fastpath.max_fragment_size
  else Z.min (max_request_size x) (Z.shiftl 1 20).

(** A data PDU of a payload, on the I/O channel. *)
Definition send_share_pdu (type2 : Z) (payload : list byte) : M t unit :=
  let$ x := session in
  let$ pdu := mlocal (Share.write_data_pdu (share_id x) Mcs.server_channel_id type2 payload) in
  send_io pdu.

Definition send_bitmap_update (update_data : list byte) : M t unit :=
  let$ is_active := in_state active in
  let$ x := session in
  if negb is_active then mret tt
  else if fastpath_output x
  then emit (Fastpath.encode_update fastpath_bitmap update_data Fastpath.max_fragment_size)
  else send_share_pdu Share.update update_data.

Definition send_pointer (update : Pointer.Update) : M t unit :=
  let$ is_active := in_state active in
  let$ x := session in
  if negb is_active then mret tt
  else if fastpath_output x then
    let$ data := mlocal (let! code := Pointer.encode_fastpath update in eret tt) in
    emit (Fastpath.encode_update (Pointer.fastpath_code update) data Fastpath.max_fragment_size)
  else
    let$ payload := mlocal (Pointer.encode_slow_path update) in
    send_share_pdu Share.pointer payload.

Definition send_save_session_info (info : SessionInfo.LogonInfoExtended) : M t unit :=
  let$ is_active := in_state active in
  if negb is_active then mret tt
  else
    let$ payload := mlocal (SessionInfo.encode_save_session_info info) in
    send_share_pdu Share.save_session_info payload.

Definition reactivate (width height : Z) : M t unit :=
  let$ is_active := in_state active in
  if negb is_active then mret tt
  else
    let$ x := session in
    let$ pdu := mlocal (Share.encode_deactivate_all Mcs.server_channel_id (share_id x)) in
    let$ _ := send_io pdu in
    let$ config := mget config_ in
    let$ _ := put_session (fun x => set_share_id (wrap 32 (share_id x + 0x00010000))
      (set_desktop (clamp width (min_desktop_size config) (max_desktop_size config))
                   (clamp height (min_desktop_size config) (max_desktop_size config))
                   (bits_per_pixel x) (supports_error_info x) x)) in
    let$ _ := mmod (with_reactivating true) in
    send_demand_active.

Definition disconnect (error_info : Z) : M t unit :=
  let$ st := state in
  let$ x := session in
  if bool_decide (st = closed) then mret tt
  else
    let share_exists := bool_decide (st = wait_confirm_active) || bool_decide (st = finalizing) ||
                        bool_decide (st = active) in
    let$ _ := if share_exists && supports_error_info x && negb (error_info =? Share.errinfo_none)
              then send_data_pdu (Share.SetErrorInfo error_info) else mret tt in
    let$ _ := if negb (bool_decide (st = wait_connect_initial))
              then emit (mcs_pdu (Mcs.DisconnectProviderUltimatum
                     (if error_info =? Share.logoff_by_user then Mcs.user_requested else Mcs.provider_initiated)))
              else mret tt in
    close "server disconnected the session".

Definition send_channel_data (channel_id : Z) (chunk : list byte) : M t unit :=
  let$ st := state in
  let$ x := session in
  if bool_decide (st = closed) then mret tt
  else
    let$ _ := massert (bool_decide (st = wait_confirm_active) || bool_decide (st = finalizing) ||
                       bool_decide (st = active)) in
    let$ _ := massert (known_channel x channel_id) in
    emit (mcs_pdu (Mcs.SendDataIndication Mcs.server_channel_id channel_id chunk)).

End Connection.
