(* ===== verification/ConnectionSafety.v ===== *)
(** * The connection never aborts

    An invariant of the states of [Connection] under which no member function
    trips an assertion, whatever the client sends and whenever; what the session
    holds in each state. *)

From S2P Require Import Prelude Buffers CodecLogic Framing X224 Per Mcs Fastpath Fields SessionInfo.
From S2P Require Import Input Capabilities Share Gcc ClientInfo Pointer PreAuth AutodetectCodec AutoDetect Machine.
From S2P Require Import Connection.
Open Scope Z_scope.

Module ConnectionSafety.
Import Connection.

(** ** Encoders that trip no assertion *)

Definition sends (m : Enc unit) : Prop := exists e, writes m e.

Lemma wp_says m s (Q : Result unit -> t -> Prop) :
  sends m -> (forall out, writes m out -> Q (Ok tt) (with_output (output_ s ++ out) s)) -> wp (emit m) s Q.
Proof. intros [e W] H. eexists _, _. unfold emit. rewrite W. split; [done|by apply H]. Qed.

Lemma wp_emit m s (Q : Result unit -> t -> Prop) :
  sends m -> (forall out, Q (Ok tt) (with_output (output_ s ++ out) s)) -> wp (emit m) s Q.
Proof. intros Hm H. by apply wp_says. Qed.

Lemma sends_seq m1 m2 : sends m1 -> sends m2 -> sends (m1 ;;; m2).
Proof. intros [e1 W1] [e2 W2]. exists (e1 ++ e2). by apply writes_seq. Qed.

Lemma sends_tpdu (body : Enc unit) e : writes body e -> 7 + len e <= X224.max_tpkt_size ->
  sends (let! start := X224.begin_data_tpdu in body ;;; X224.end_tpkt start).
Proof. intros W L. eexists. by apply (X224.writes_data_tpdu (fun start => body ;;; X224.end_tpkt start) body e). Qed.

Lemma sends_mcs pdu : Mcs.pdu_ok pdu = true -> 7 + Mcs.size_bound pdu <= X224.max_tpkt_size -> sends (mcs_pdu pdu).
Proof.
  intros H L. destruct (Mcs.mcs_encodes pdu H) as (e & W & Le & _). apply (sends_tpdu _ e W). lia.
Qed.

Lemma sends_indication channel data : Mcs.u16_from 0 channel = true -> len data <= Per.max_length ->
  sends (mcs_pdu (Mcs.SendDataIndication Mcs.server_channel_id channel data)).
Proof.
  intros Hc Hd. apply sends_mcs.
  - cbn [Mcs.pdu_ok]. rewrite Hc. apply andb_true_intro. split; [done|by apply Z.leb_le].
  - cbn [Mcs.size_bound]. unfold Mcs.send_data_header_max, X224.max_tpkt_size, Per.max_length in *. lia.
Qed.

Lemma wp_send_io payload s (Q : Result unit -> t -> Prop) : len payload <= Per.max_length ->
  (forall out, Q (Ok tt) (with_output (output_ s ++ out) s)) -> wp (send_io payload) s Q.
Proof. intros L. apply wp_emit. by apply sends_indication. Qed.

(** A PDU of the server on the I/O channel, as one encoder. *)
Definition indicates (m : Enc unit) : Enc unit :=
  let! payload := elocal m in
  mcs_pdu (Mcs.SendDataIndication Mcs.server_channel_id Mcs.io_channel_id payload).

Lemma wp_indicates m payload s (Q : Result unit -> t -> Prop) : writes m payload -> len payload <= Per.max_length ->
  (forall out, writes (indicates m) out -> Q (Ok tt) (with_output (output_ s ++ out) s)) -> wp (send_io payload) s Q.
Proof.
  intros W L H. apply wp_says; [by apply sends_indication|]. intros out Wo. apply H. by apply (writes_local _ _ payload); [apply writes_run|].
Qed.

Lemma sends_message_channel x flags payload id : message_channel_id x = Some id -> Mcs.u16_from 0 id = true ->
  len payload + 4 <= Per.max_length -> sends (write_message_channel x flags payload).
Proof.
  intros Hid Hc L. unfold write_message_channel. rewrite Hid. cbn [default].
  destruct (sends_indication id (SessionInfo.header_bytes flags ++ payload) Hc) as [e W].
  { unfold SessionInfo.header_bytes. len_lia. }
  exists e. apply writes_assert; [by apply bool_decide_eq_true; eauto|].
  eapply writes_local; [|exact W]. apply writes_run, writes_seq; [apply SessionInfo.writes_security_header|apply writes_bytes].
Qed.

Definition encodable (r : AutodetectCodec.Request) : Prop :=
  exists e, Writer.run (AutodetectCodec.encode_request r) = Some e /\ len e <= 15008.

Lemma sends_autodetect x request id : message_channel_id x = Some id -> Mcs.u16_from 0 id = true ->
  encodable request -> sends (send_autodetect x request).
Proof.
  intros Hid Hc (p & Hp & L). destruct (sends_message_channel x SessionInfo.autodetect_req p id Hid Hc) as [e W].
  { unfold Per.max_length. lia. }
  exists e. unfold send_autodetect. by eapply writes_local.
Qed.

Lemma sends_autodetects x requests id : message_channel_id x = Some id -> Mcs.u16_from 0 id = true ->
  Forall encodable requests -> sends (send_autodetects x requests).
Proof.
  intros Hid Hc. induction 1 as [|r rs Hr _ IH]; [exists []; apply writes_ret|].
  apply sends_seq; [by eapply sends_autodetect|done].
Qed.

(** A data PDU in a share. *)
Definition data_pdu (share source : Z) (pdu : Share.DataPdu) : Enc unit :=
  match Share.encode pdu with
  | Some m => let! payload := elocal m in Share.write_data_pdu share source (Share.type2_of pdu) payload
  | None => eassert false
  end.

Lemma wp_says_data pdu s (Q : Result unit -> t -> Prop) : Share.pdu_ok pdu = true ->
  (forall out, writes (indicates (data_pdu (share_id (session_ s)) Mcs.server_channel_id pdu)) out ->
     Q (Ok tt) (with_output (output_ s ++ out) s)) -> wp (send_data_pdu pdu) s Q.
Proof.
  intros Hp HQ. unfold send_data_pdu, session. do 2 wp_step. unfold data_pdu in HQ.
  destruct (Share.encode pdu) as [m|] eqn:E; [|by destruct pdu].
  destruct (Share.encodes_data_pdu pdu m Hp E) as (p & W & L & _). unfold Share.max_payload in L.
  assert (writes (Share.write_data_pdu (share_id (session_ s)) Mcs.server_channel_id (Share.type2_of pdu) p)
    (Share.data_bytes (share_id (session_ s)) Mcs.server_channel_id (Share.type2_of pdu) p)) as Wd.
  { apply Share.writes_data_pdu. lia. }
  wp_step. apply (wp_local _ p); [done|]. wp_step. eapply wp_local; [exact Wd|].
  eapply wp_indicates; [|rewrite Share.len_data; unfold Per.max_length; lia|exact HQ].
  by apply (writes_local _ _ p); [apply writes_run|].
Qed.

Lemma wp_data_pdu pdu s (Q : Result unit -> t -> Prop) : Share.pdu_ok pdu = true ->
  (forall out, Q (Ok tt) (with_output (output_ s ++ out) s)) -> wp (send_data_pdu pdu) s Q.
Proof. intros Hp HQ. by apply wp_says_data. Qed.

Lemma wp_share_pdu type2 payload s (Q : Result unit -> t -> Prop) : 18 + len payload <= Per.max_length ->
  (forall out, Q (Ok tt) (with_output (output_ s ++ out) s)) -> wp (send_share_pdu type2 payload) s Q.
Proof.
  intros L HQ. unfold send_share_pdu, session. unfold Per.max_length in L. do 2 wp_step. wp_step.
  apply (wp_local _ (Share.data_bytes (share_id (session_ s)) Mcs.server_channel_id type2 payload)).
  { apply Share.writes_data_pdu. lia. }
  apply wp_send_io; [|done]. rewrite Share.len_data. unfold Per.max_length. lia.
Qed.

(** ** The capability exchange *)

Definition session_widths (x : Session) : bool :=
  u16_ok (desktop_width x) && u16_ok (desktop_height x) && u16_ok (bits_per_pixel x) && u32_ok (share_id x).

Lemma server_capabilities_ok x : session_widths x = true -> Capabilities.sets_ok (server_capabilities x) = true.
Proof.
  unfold session_widths. intros H. bools.
  unfold Capabilities.sets_ok, server_capabilities. cbn [Capabilities.general Capabilities.bitmap Capabilities.order
    Capabilities.pointer Capabilities.input Capabilities.virtual_channel Capabilities.share Capabilities.font
    Capabilities.color_cache Capabilities.multifragment_update Capabilities.large_pointer Capabilities.surface_commands
    Capabilities.frame_acknowledge Capabilities.other opt_ok].
  assert (u32_ok (wrap 32 (wrap 32 (wrap 32 (wrap 32 (desktop_width x + 63) / 64 *
    (wrap 32 (desktop_height x + 63) / 64)) + 1) * 16384)) = true) as Hm.
  { pose proof (wrap_range 32 (wrap 32 (wrap 32 (wrap 32 (desktop_width x + 63) / 64 *
      (wrap 32 (desktop_height x + 63) / 64)) + 1) * 16384) ltac:(lia)). unfold u32_ok. apply andb_true_intro.
    change (2 ^ 32) with 4294967296 in *. lia. }
  unfold Capabilities.bitmap_ok.
  cbn [Capabilities.preferred_bits_per_pixel Capabilities.desktop_width Capabilities.desktop_height
    Capabilities.max_request_size].
  rewrite Hm. repeat match goal with H : u16_ok _ = true |- _ => rewrite H; clear H end. vm_compute. reflexivity.
Qed.

Lemma demand_ok x : session_widths x = true ->
  Share.demand_ok (Share.mkDemand (share_id x) source_descriptor (server_capabilities x) 0) = true.
Proof.
  intros H. unfold Share.demand_ok, Share.exchange_ok. cbn [Share.da_share_id Share.session_id
    Share.da_source_descriptor Share.da_capabilities]. rewrite (server_capabilities_ok x H).
  unfold session_widths in H. bools. by repeat match goal with H : u32_ok _ = true |- _ => rewrite H; clear H end.
Qed.

(** The Demand Active of a session. *)
Definition demands (x : Session) : Enc unit :=
  indicates (Share.encode_demand_active Mcs.server_channel_id
    (Share.mkDemand (share_id x) source_descriptor (server_capabilities x) 0)).

Lemma wp_demand_active s (Q : Result unit -> t -> Prop) : session_widths (session_ s) = true ->
  (forall out, writes (demands (session_ s)) out ->
     Q (Ok tt) (with_state wait_confirm_active (with_output (output_ s ++ out) s))) ->
  wp send_demand_active s Q.
Proof.
  intros Hx HQ. unfold send_demand_active, session, put_state. do 2 wp_step. wp_step.
  destruct (Share.exchanged_demand Mcs.server_channel_id _ (demand_ok _ Hx)) as (e & W & L & _).
  apply (wp_local _ _ _ _ W). wp_step. eapply wp_indicates; [exact W| |].
  { cbn [Share.da_capabilities server_capabilities Capabilities.other Capabilities.raw_size] in L.
    rewrite Share.len_control. unfold Per.max_length. lia. }
  intros out Wo. apply wp_mod. by apply HQ.
Qed.

(** The session in its first share. *)
Definition shared (x : Session) : Session := set_share_id (Z.lor 0x00010000 (user_channel_id x)) x.

Lemma wp_licensing_says s (Q : Result unit -> t -> Prop) :
  u16_ok (user_channel_id (session_ s)) = true -> session_widths (session_ s) = true ->
  (forall out1 out2, writes (indicates SessionInfo.encode_license_valid_client) out1 ->
     writes (demands (shared (session_ s))) out2 ->
     Q (Ok tt) (with_state wait_confirm_active (with_output (output_ s ++ out1 ++ out2) (with_session (shared (session_ s)) s)))) ->
  wp start_licensing s Q.
Proof.
  intros Hu Hx HQ. unfold start_licensing, put_session. wp_step.
  apply (wp_local _ _ _ _ SessionInfo.writes_license). wp_step.
  eapply wp_indicates; [exact SessionInfo.writes_license|by vm_compute|].
  intros out W1. cbv beta iota. do 2 wp_step. apply wp_demand_active.
  - cbn [session_ with_output with_session]. unfold session_widths in *. cbn [desktop_width desktop_height
      bits_per_pixel share_id set_share_id]. bools. widths.
    assert (0 <= Z.lor 0x00010000 (user_channel_id (session_ s)) < 4294967296) as Hl.
    { split; [by apply Z.lor_nonneg|]. rewrite (lor_disjoint 1 _ 16) by lia. lia. }
    unfold u16_ok, u32_ok. rewrite !andb_true_iff, !Z.leb_le, !Z.ltb_lt. lia.
  - intros out2 W2. cbn [output_ with_output with_session session_] in *. rewrite <- app_assoc. by apply HQ.
Qed.

Lemma wp_licensing s (Q : Result unit -> t -> Prop) :
  u16_ok (user_channel_id (session_ s)) = true -> session_widths (session_ s) = true ->
  (forall out, Q (Ok tt) (with_state wait_confirm_active (with_output (output_ s ++ out) (with_session (shared (session_ s)) s)))) ->
  wp start_licensing s Q.
Proof. intros Hu Hx HQ. by apply wp_licensing_says. Qed.

(** ** Auto-detection stays encodable *)

Record link_ok (a : AutoDetect.t) : Prop := mkLinkOk {
  link_sequence : 0 <= AutoDetect.sequence_ a < 2 ^ 16;
  link_bandwidth : forall q, AutoDetect.bandwidth_sequence_ a = Some q -> 0 <= q < 2 ^ 16;
  link_kbps : AutodetectCodec.optional_u32 (AutoDetect.bandwidth_kbps (AutoDetect.estimate_ a)) = true
}.

Lemma link_make c : link_ok (AutoDetect.make c).
Proof. by split. Qed.

Lemma wrap16_range v : 0 <= wrap 16 v < 2 ^ 16.
Proof. by apply wrap_range. Qed.
#[local] Hint Resolve wrap16_range : farland.

Lemma link_connect_time a now : link_ok a ->
  link_ok (snd (AutoDetect.start_connect_time a now)) /\ Forall encodable (fst (AutoDetect.start_connect_time a now)).
Proof.
  intros [Hs Hb Hk]. unfold AutoDetect.start_connect_time, AutoDetect.next_sequence. cbn.
  set (payload := AutoDetect.make_payload _).
  assert (0 < len payload) as Hl by (unfold payload; rewrite AutoDetect.len_make_payload; lia).
  destruct (AutoDetect.burst_loop_spec (wrap 16 (AutoDetect.sequence_ a + 1)) payload (length payload))
    as (ps & stop & -> & _ & Hp & Hst); [done|done|].
  split; [split; cbn; auto with farland; intros q [= <-]; auto with farland|].
  by apply AutoDetect.burst_encodable; auto with farland.
Qed.

Lemma encodable_small r : AutodetectCodec.request_ok r = true ->
  match r with AutodetectCodec.BandwidthPayload _ p | AutodetectCodec.BandwidthStop _ _ p => p = [] | _ => True end ->
  encodable r.
Proof.
  intros Hr Hp. destruct (AutoDetect.encoded_size r 0 Hr) as (e & He & L); [by destruct r; subst|done|].
  exists e. split; [done|lia].
Qed.

Lemma to_ms_range d : AutodetectCodec.u32 (AutoDetect.to_ms d) = true.
Proof.
  unfold AutoDetect.to_ms, AutodetectCodec.u32. destruct (Z.ltb_spec (Z.quot d 1000000) 0); [done|].
  destruct (Z.ltb_spec (2 ^ 32 - 1) (Z.quot d 1000000)); [done|].
  apply andb_true_intro. rewrite Z.leb_le, Z.ltb_lt. lia.
Qed.

Lemma link_result a : link_ok a ->
  link_ok (snd (AutoDetect.network_characteristics_result a)) /\
  forall r, fst (AutoDetect.network_characteristics_result a) = Some r -> encodable (AutodetectCodec.NetworkResult r).
Proof.
  intros [Hs Hb Hk]. unfold AutoDetect.network_characteristics_result, AutoDetect.next_sequence. cbn.
  destruct (_ && _); [by split|]. destruct (_ && _) eqn:E; (split; [split; cbn; auto with farland|]); [done|].
  intros r [= <-]. apply encodable_small; [|done]. cbn [AutodetectCodec.request_ok AutodetectCodec.res_sequence
    AutodetectCodec.base_rtt_ms AutodetectCodec.bandwidth_kbps AutodetectCodec.average_rtt_ms].
  apply andb_false_iff in E. rewrite Hk, (AutoDetect.u16_wire _ Hs).
  assert (AutodetectCodec.u32 (match AutoDetect.rtt (AutoDetect.estimate_ a) with
    | Some r => AutoDetect.to_ms r | None => 0 end) = true) as -> by (destruct (AutoDetect.rtt _); [apply to_ms_range|done]).
  assert (AutodetectCodec.optional_u32 (AutoDetect.to_ms <$> AutoDetect.base_rtt (AutoDetect.estimate_ a)) = true) as ->
    by (destruct (AutoDetect.base_rtt _); [apply to_ms_range|done]).
  cbn [andb]. apply orb_true_iff. rewrite !negb_false_iff in E. exact E.
Qed.

Lemma link_expire a now : link_ok a -> link_ok (AutoDetect.expire_probes a now).
Proof.
  intros [Hs Hb Hk]. unfold AutoDetect.expire_probes. destruct (AutoDetect.expire_loop _ _ _ _) as [ps lost].
  cbv zeta. by destruct (_ && _).
Qed.

Lemma link_poll a now : link_ok a ->
  link_ok (snd (AutoDetect.poll_rtt_request a now)) /\
  forall r, fst (AutoDetect.poll_rtt_request a now) = Some r -> encodable r.
Proof.
  intros H. pose proof (link_expire a now H) as He. unfold AutoDetect.poll_rtt_request.
  set (b := AutoDetect.expire_probes a now) in *. clearbody b. destruct He as [Hs Hb Hk].
  destruct (AutoDetect.next_rtt_request b) as [next|]; [|by split].
  destruct (now <? next); [by split|]. cbn. split; [split; cbn; auto with farland|].
  intros r [= <-]. apply encodable_small; [|done]. cbn [AutodetectCodec.request_ok].
  by rewrite (AutoDetect.u16_wire _ Hs).
Qed.

Lemma link_measure a now : link_ok a ->
  let (start, b) := AutoDetect.start_bandwidth_measurement a now in
  link_ok b /\ encodable start /\ encodable (AutoDetect.stop_bandwidth_measurement b).
Proof.
  intros [Hs Hb Hk]. unfold AutoDetect.start_bandwidth_measurement, AutoDetect.next_sequence,
    AutoDetect.stop_bandwidth_measurement. cbn [AutoDetect.with_bandwidth AutoDetect.bandwidth_sequence_ default].
  split; [split; cbn; auto with farland; by intros q [= <-]|].
  unfold id. split; apply encodable_small; try done; cbn [AutodetectCodec.request_ok]; by rewrite (AutoDetect.u16_wire _ Hs).
Qed.

Lemma kbps_wrap v : AutodetectCodec.u32 (wrap 32 v) = true.
Proof.
  pose proof (wrap_range 32 v ltac:(lia)). unfold AutodetectCodec.u32. change (2 ^ 32) with 4294967296 in *.
  apply andb_true_intro. lia.
Qed.

Lemma link_bandwidth_sample a kbps now : link_ok a -> AutodetectCodec.u32 kbps = true ->
  link_ok (AutoDetect.add_bandwidth_sample a kbps now).
Proof.
  intros [Hs Hb Hk] Hv. split; [done|done|]. cbn. unfold AutoDetect.smooth_bandwidth.
  destruct (AutoDetect.bandwidth_kbps _) as [b|]; [|done]. destruct (kbps <? b); apply kbps_wrap.
Qed.

Lemma link_rtt_sample a v : link_ok a -> link_ok (AutoDetect.add_rtt_sample a v).
Proof.
  intros [Hs Hb Hk]. unfold AutoDetect.add_rtt_sample. destruct (AutoDetect.smooth_rtt _ _). by split.
Qed.

Lemma measured_kbps_u32 b d : AutodetectCodec.u32 (AutoDetect.measured_kbps b d) = true.
Proof.
  unfold AutoDetect.measured_kbps, AutodetectCodec.u32.
  assert (0 <= wrap 64 (b * 8) / Z.max d 1) by (apply Z.div_pos; [apply wrap_range; lia|lia]).
  apply andb_true_intro. rewrite Z.leb_le, Z.ltb_lt. lia.
Qed.

Lemma link_response a r now : link_ok a -> AutodetectCodec.response_ok r = true -> link_ok (AutoDetect.on_response a r now).
Proof.
  intros H Hr. destruct r as [q|q ty d c|q b rt]; cbn [AutoDetect.on_response].
  - unfold AutoDetect.on_rtt_response. destruct (AutoDetect.find_probe _ _) as [[p later]|]; [|done].
    apply link_expire. destruct (link_rtt_sample a (now - AutoDetect.sent p) H) as [Hs Hb Hk]. by split.
  - unfold AutoDetect.on_bandwidth_results. destruct H as [Hs Hb Hk].
    destruct (AutoDetect.bandwidth_sequence_ a) as [w|] eqn:E; [|by split; rewrite ?E].
    destruct (_ || _); [by split; rewrite ?E|]. destruct (_ =? _).
    + apply link_bandwidth_sample; [by split|apply measured_kbps_u32].
    + destruct (_ <? _); [by split|]. apply link_bandwidth_sample; [by split|apply measured_kbps_u32].
  - unfold AutoDetect.on_sync. cbn [AutodetectCodec.response_ok] in Hr. bools.
    apply link_bandwidth_sample; [apply link_rtt_sample|done]. destruct H as [Hs Hb Hk].
    destruct (_ && _); by split.
Qed.

(** ** The protocol of events

    What a caller may see: channel data at most before the Client Info, then
    anything until the first [Activated], which is no reactivation, then anything
    with reactivations in between, and nothing after [Closed]. *)

Inductive Phase := opening | admitted | running | ended.

Definition next (p : Phase) (e : Event) : option Phase :=
  match p, e with
  | ended, _ => None
  | _, Closed _ _ => Some ended
  | opening, ClientInfo _ _ _ _ _ => Some admitted
  | opening, ChannelData _ _ => Some opening
  | opening, _ => None
  | _, ClientInfo _ _ _ _ _ => None
  | admitted, Activated false => Some running
  | admitted, Activated true => None
  | running, Activated false => None
  | p, _ => Some p
  end.

Fixpoint accepts (p : Phase) (es : list Event) : option Phase :=
  match es with
  | [] => Some p
  | e :: es' => match next p e with Some p' => accepts p' es' | None => None end
  end.

Lemma accepts_app p es fs : accepts p (es ++ fs) = match accepts p es with Some q => accepts q fs | None => None end.
Proof. revert p. induction es as [|e es IH]; intros p; [done|]. cbn. destruct (next p e); [apply IH|done]. Qed.

(** The phase is a function of the state. *)
Definition phase_of (st : State) (reactivating : bool) : Phase :=
  match st with
  | wait_connect_initial | wait_erect_domain | wait_attach_user | wait_channel_joins => opening
  | connect_time_autodetect => admitted
  | wait_confirm_active | finalizing => if reactivating then running else admitted
  | active => running
  | closed => ended
  end.
Definition phase (s : t) : Phase := phase_of (state_ s) (reactivating_ s).

(** ** The invariant *)

Definition config_ok (c : ServerConfig) : bool :=
  (0 <=? min_desktop_size c) && (min_desktop_size c <=? max_desktop_size c) && (max_desktop_size c <? 65536).

Definition first_channel : Z := Mcs.io_channel_id + 1.

(** The ids of [n] channels from [first] on. *)
Fixpoint ids (n : nat) (first : Z) : list Z :=
  match n with O => [] | S n' => first :: ids n' (first + 1) end.

(** What the session holds once the Connect Initial is answered. *)
Record agreed (c : ServerConfig) (x : Session) : Prop := mkAgreed {
  ag_count : len (static_channels x) <= Gcc.max_static_channels;
  ag_ids : snd <$> static_channels x = ids (length (static_channels x)) first_channel;
  ag_message : message_channel_id x = None \/ message_channel_id x = Some (first_channel + len (static_channels x));
  ag_user : user_channel_id x = first_channel + len (static_channels x) +
                                match message_channel_id x with Some _ => 1 | None => 0 end;
  ag_desktop : min_desktop_size c <= desktop_width x <= max_desktop_size c /\
               min_desktop_size c <= desktop_height x <= max_desktop_size c;
  ag_depth : bits_per_pixel x = 16 \/ bits_per_pixel x = 24 \/ bits_per_pixel x = 32
}.

Definition sharing (st : State) : bool :=
  match st with wait_confirm_active | finalizing | active => true | _ => false end.
Definition settled (st : State) : bool :=
  match st with wait_connect_initial | closed => false | _ => true end.

(** The invariant, of the members it depends on. *)
Record core (c : ServerConfig) (st : State) (x : Session) (a : AutoDetect.t) (re : bool) : Prop := mkCore {
  wf_config : config_ok c = true;
  wf_requested : u32_ok (PreAuth.requested_protocols (negotiation x)) = true;
  wf_widths : session_widths x = true;
  wf_link : link_ok a;
  wf_fresh : st = wait_connect_initial -> static_channels x = [] /\ message_channel_id x = None;
  wf_agreed : settled st = true -> agreed c x;
  wf_detect : autodetect x || heartbeat x = true -> settled st = true -> exists id, message_channel_id x = Some id;
  wf_early : phase_of st re = opening -> autodetect x = false /\ heartbeat x = false /\ re = false;
  wf_probe : st = connect_time_autodetect -> autodetect x = true /\ re = false;
  wf_share : sharing st = true -> share_id x mod 65536 = user_channel_id x;
  wf_reactivating : re = true -> sharing st = true \/ st = closed;
  wf_active : st = active -> re = false
}.

Definition wf (s : t) : Prop := core (config_ s) (state_ s) (session_ s) (autodetect_ s) (reactivating_ s).

(** How a handler changes the state. *)
Record evolves (s s' : t) : Prop := mkEvolves {
  ev_wf : wf s';
  ev_config : config_ s' = config_ s;
  ev_input : input_ s' = input_ s;
  ev_now : now_ s' = now_ s;
  ev_output : exists out, output_ s' = output_ s ++ out;
  ev_events : exists new, events_ s' = events_ s ++ new /\ accepts (phase s) new = Some (phase s')
}.

Lemma evolves_refl s : wf s -> evolves s s.
Proof. intros H. split; try done; [exists []; by rewrite app_nil_r|]. exists []. by rewrite app_nil_r. Qed.

Lemma evolves_trans s1 s2 s3 : evolves s1 s2 -> evolves s2 s3 -> evolves s1 s3.
Proof.
  intros [W1 C1 I1 N1 [o1 O1] [e1 [E1 A1]]] [W2 C2 I2 N2 [o2 O2] [e2 [E2 A2]]]. split; try done; try congruence.
  - exists (o1 ++ o2). by rewrite O2, O1, app_assoc.
  - exists (e1 ++ e2). split; [by rewrite E2, E1, app_assoc|]. by rewrite accepts_app, A1.
Qed.

Lemma evolves_output s out : wf s -> evolves s (with_output (output_ s ++ out) s).
Proof. intros H. split; try done; [by exists out|]. exists []. by rewrite app_nil_r. Qed.

(** An event that does not change the phase. *)
Lemma evolves_event s e : wf s -> next (phase s) e = Some (phase s) -> evolves s (with_events (events_ s ++ [e]) s).
Proof.
  intros H Hn. split; try done; [exists []; by rewrite app_nil_r|]. exists [e]. split; [done|].
  cbn [accepts]. by rewrite Hn.
Qed.

(** Closing is possible from every state that is not closed. *)
Lemma core_closed c st x a re : core c st x a re -> core c closed x a re.
Proof.
  intros [H1 H2 H3 H4 H5 H6 H7 H8 H9 H10 H11 H12]. split; try done; auto.
Qed.

Lemma evolves_closed s e : wf s -> state_ s <> closed -> (exists r b, e = Closed r b) ->
  evolves s (with_events (events_ s ++ [e]) (with_state closed s)).
Proof.
  intros H Hs (r & b & ->). split; try done; [by eapply core_closed|exists []; by rewrite app_nil_r|].
  exists [Closed r b]. split; [done|]. unfold phase, phase_of. cbn. by destruct (state_ s), (reactivating_ s).
Qed.

(** Specification of a handler: it trips no assertion, and where it returns an
    error it has changed nothing. *)
Definition outcome {A} (s : t) (r : Result A) (s' : t) : Prop :=
  evolves s s' /\ match r with Err _ => s' = s | Ok _ => True end.
Definition safe {A} (m : M t A) (s : t) : Prop := wp m s (outcome s).
(** One that does not fail. *)
Definition sure (m : M t unit) (s : t) : Prop := wp m s (fun r s' => r = Ok tt /\ evolves s s').

Lemma outcome_refl {A} s (r : Result A) : wf s -> outcome s r s.
Proof. intros H. split; [by apply evolves_refl|by destruct r]. Qed.

Lemma outcome_ok {A} s (a : A) s' : evolves s s' -> outcome s (Ok a) s'.
Proof. by split. Qed.

Lemma sure_safe m s : sure m s -> safe m s.
Proof. intros H. eapply wp_mono; [exact H|]. by intros r s' [-> E]. Qed.

Lemma sure_after m s s' : evolves s s' -> sure m s' -> wp m s' (fun r s'' => r = Ok tt /\ evolves s s'').
Proof. intros H1 H2. eapply wp_mono; [exact H2|]. intros r s'' [-> H]. split; [done|by eapply evolves_trans]. Qed.

Lemma safe_after m s s' : evolves s s' -> sure m s' -> wp m s' (outcome s).
Proof. intros H1 H2. eapply wp_mono; [by apply (sure_after m s)|]. by intros r s'' [-> E]. Qed.

Lemma wp_close r s (Q : Result unit -> t -> Prop) :
  Q (Ok tt) (with_events (events_ s ++ [Closed r false]) (with_state closed s)) -> wp (close r) s Q.
Proof. intros H. unfold close, put_state, emplace_event. do 2 wp_step. by wp_step. Qed.

Lemma wp_fail_ r s (Q : Result unit -> t -> Prop) :
  Q (Ok tt) (with_events (events_ s ++ [Closed r true]) (with_state closed s)) -> wp (fail_ r) s Q.
Proof. intros H. unfold fail_, put_state, emplace_event. do 2 wp_step. by wp_step. Qed.

Lemma close_sure r s : wf s -> state_ s <> closed -> sure (close r) s.
Proof. intros H Hs. apply wp_close. split; [done|]. apply evolves_closed; eauto. Qed.

Lemma agreed_user c x : agreed c x -> first_channel <= user_channel_id x <= first_channel + 32.
Proof.
  intros [Hc _ _ Hu _ _]. pose proof (len_nonneg (static_channels x)). unfold Gcc.max_static_channels in Hc.
  destruct (message_channel_id x); lia.
Qed.

Lemma agreed_message c x id : agreed c x -> message_channel_id x = Some id ->
  first_channel <= id <= first_channel + 31.
Proof.
  intros [Hc _ Hm _ _ _] E. pose proof (len_nonneg (static_channels x)). unfold Gcc.max_static_channels in Hc.
  destruct Hm as [Hm|Hm]; rewrite Hm in E; [done|]. injection E as <-. lia.
Qed.

Lemma u16_channel v : first_channel <= v <= first_channel + 32 ->
  Mcs.u16_from 0 v = true /\ Mcs.u16_from Mcs.user_id_base v = true /\ u16_ok v = true.
Proof.
  unfold first_channel, Mcs.io_channel_id, Mcs.u16_from, Mcs.user_id_base, u16_ok. intros H.
  rewrite !andb_true_iff, !Z.leb_le, !Z.ltb_lt. lia.
Qed.

(** ** The Connect Initial *)

Lemma assign_channels_spec l : forall next, 0 <= next -> next + len l < 65536 ->
  snd (assign_channels l next) = next + len l /\
  length (fst (assign_channels l next)) = length l /\
  snd <$> fst (assign_channels l next) = ids (length l) next /\
  fst <$> fst (assign_channels l next) = Gcc.name <$> l.
Proof.
  induction l as [|c l IH]; intros next Hn Hl; cbn [assign_channels].
  - cbn. rewrite len_nil. split_and!; try done. lia.
  - rewrite len_cons in Hl. pose proof (len_nonneg l). rewrite wrap_small by lia.
    destruct (IH (next + 1)) as (H1 & H2 & H3 & H4); [lia..|].
    destruct (assign_channels l (next + 1)) as [assigned n]. cbn in *. rewrite len_cons. split_and!; [lia|lia| |].
    + by rewrite H3.
    + by rewrite H4.
Qed.

Definition requested_channels (client : Gcc.ClientData) : list Gcc.ChannelDef :=
  match Gcc.network client with Some n => Gcc.channels n | None => [] end.

Lemma clamp_range v lo hi : lo <= hi -> lo <= clamp v lo hi <= hi.
Proof. intros. unfold clamp. destruct (Z.ltb_spec v lo), (Z.ltb_spec hi v); lia. Qed.

Lemma choose_depth core m :
  choose_bits_per_pixel core m = 16 \/ choose_bits_per_pixel core m = 24 \/ choose_bits_per_pixel core m = 32.
Proof. unfold choose_bits_per_pixel. destruct (_ && _); [auto|]. destruct (_ && _); auto. Qed.

(** The session after the Connect Initial, member by member. *)
Lemma agree_spec c client x : config_ok c = true -> len (requested_channels client) <= Gcc.max_static_channels ->
  static_channels x = [] -> message_channel_id x = None ->
  agreed c (agree c client x) /\
  fst <$> static_channels (agree c client x) = Gcc.name <$> requested_channels client /\
  negotiation (agree c client x) = negotiation x /\ client_data (agree c client x) = client_data x /\
  share_id (agree c client x) = share_id x /\ autodetect (agree c client x) = autodetect x /\
  heartbeat (agree c client x) = heartbeat x /\
  message_channel_id (agree c client x) =
    match Gcc.message_channel client with Some _ => Some (first_channel + len (requested_channels client)) | None => None end.
Proof.
  intros Hc Hl Hs Hm. unfold config_ok in Hc. bools. unfold Gcc.max_static_channels in Hl.
  destruct (assign_channels_spec (requested_channels client) (Mcs.io_channel_id + 1)) as (K1 & K2 & K3 & K4);
    [done|unfold Mcs.io_channel_id; lia|].
  unfold agree. fold (requested_channels client). destruct (desktop_request c client) as [w h].
  destruct (assign_channels _ _) as [channels next] eqn:E. cbn [fst snd] in *.
  assert (len channels = len (requested_channels client)) as Hlen by (unfold len; by rewrite K2).
  pose proof (len_nonneg channels). unfold first_channel in *. unfold Mcs.io_channel_id in *.
  set (desk := set_desktop _ _ _ _ _).
  assert (min_desktop_size c <= desktop_width desk <= max_desktop_size c /\
          min_desktop_size c <= desktop_height desk <= max_desktop_size c) as Hd by (split; by apply clamp_range).
  assert (bits_per_pixel desk = 16 \/ bits_per_pixel desk = 24 \/ bits_per_pixel desk = 32) as Hb by apply choose_depth.
  change (static_channels desk) with (static_channels x). rewrite Hs. cbn [app].
  destruct (Gcc.message_channel client) as [mc|].
  - rewrite wrap_small by lia. split; [|split_and!; try done; cbn; by rewrite K1].
    split; try done; cbn; unfold Gcc.max_static_channels, first_channel, Mcs.io_channel_id; try lia;
      [by rewrite K2|right; f_equal; lia].
  - split; [|split_and!; try done].
    split; try done; cbn; rewrite ?Hm; unfold Gcc.max_static_channels, first_channel, Mcs.io_channel_id; try lia;
      [by rewrite K2|auto].
Qed.

Lemma length_ids n : forall first, length (ids n first) = n.
Proof. induction n as [|n IH]; intros first; [done|]. cbn [ids length]. by rewrite IH. Qed.

Lemma ids_range n : forall first v, v ∈ ids n first -> first <= v < first + Z.of_nat n.
Proof.
  induction n as [|n IH]; intros first v Hv; [by apply not_elem_of_nil in Hv|].
  cbn [ids] in Hv. apply elem_of_cons in Hv as [->|Hv]; [lia|]. apply IH in Hv. lia.
Qed.

Lemma ids_forall n first : 0 <= first -> first + Z.of_nat n <= 65536 -> forallb u16_ok (ids n first) = true.
Proof.
  intros H1 H2. apply forallb_forall. intros v Hv%list_elem_of_In%ids_range. unfold u16_ok.
  rewrite andb_true_iff, Z.leb_le, Z.ltb_lt. lia.
Qed.

Lemma server_data_ok client x : u32_ok (PreAuth.requested_protocols (negotiation x)) = true ->
  len (requested_channels client) <= Gcc.max_static_channels -> Gcc.server_ok (server_data client x) = true.
Proof.
  intros Hr Hl. unfold Gcc.max_static_channels in Hl.
  destruct (assign_channels_spec (requested_channels client) (Mcs.io_channel_id + 1)) as (H1 & H2 & H3 & _);
    [done|unfold Mcs.io_channel_id; lia|]. pose proof (len_nonneg (requested_channels client)).
  unfold server_data. fold (requested_channels client). destruct (assign_channels _ _) as [channels next].
  cbn [fst snd] in *. unfold Gcc.server_ok. cbn [Gcc.server_core Gcc.server_security Gcc.server_network
    Gcc.message_channel_id Gcc.multitransport_flags Gcc.encryption_method Gcc.encryption_level].
  unfold Gcc.server_core_ok, Gcc.server_network_ok. cbn [Gcc.server_version Gcc.client_requested_protocols
    Gcc.server_early_capability_flags Gcc.io_channel_id Gcc.channel_ids opt_ok Gcc.present].
  rewrite Hr, H3, ids_forall by (unfold Mcs.io_channel_id in *; unfold len in *; lia).
  assert (u32_ok (clamp (Gcc.version (Gcc.core client)) Gcc.rdp_version_5_plus max_rdp_version) = true) as ->.
  { pose proof (clamp_range (Gcc.version (Gcc.core client)) Gcc.rdp_version_5_plus max_rdp_version ltac:(done)) as Hv.
    revert Hv. generalize (clamp (Gcc.version (Gcc.core client)) Gcc.rdp_version_5_plus max_rdp_version).
    unfold Gcc.rdp_version_5_plus, max_rdp_version, u32_ok. intros v Hv. rewrite andb_true_iff, Z.leb_le, Z.ltb_lt. lia. }
  assert (len (ids (length (requested_channels client)) (Mcs.io_channel_id + 1)) = len (requested_channels client)) as ->.
  { unfold len. by rewrite length_ids. }
  assert (opt_ok u16_ok (match Gcc.message_channel client with Some _ => Some next | None => None end) = true) as ->.
  { destruct (Gcc.message_channel client); [|done]. cbn. unfold u16_ok. rewrite H1. unfold Mcs.io_channel_id in *.
    rewrite andb_true_iff, Z.leb_le, Z.ltb_lt. lia. }
  rewrite (proj2 (Z.leb_le _ _)) by (unfold Gcc.max_static_channels; lia).
  by destruct (Gcc.has_early_flag _ _).
Qed.

(** ** The handlers

    [try_read x E]: a decoder of the handler; its errors leave the state alone. *)
Ltac try_read x r E :=
  wp_step; apply wp_read; intros [[x r]|?] E; cbv beta iota; [|by apply outcome_refl].

(** Steps that neither branch nor emit. *)
Ltac run_steps :=
  repeat lazymatch goal with
  | |- wp (mbind _ _) _ _ => wp_step
  | |- wp (mget _) _ _ => apply wp_get; cbv beta iota
  | |- wp (mmod _) _ _ => apply wp_mod; cbv beta iota
  | |- wp (mret _) _ _ => apply wp_ret; cbv beta iota
  | |- wp (mfail _ _ _) _ _ => apply wp_fail; cbv beta iota
  | |- wp session _ _ => apply wp_get; cbv beta iota
  | |- wp state _ _ => apply wp_get; cbv beta iota
  | |- wp (in_state _) _ _ => apply wp_get; cbv beta iota
  | |- wp (put_state _) _ _ => apply wp_mod; cbv beta iota
  | |- wp (put_session _) _ _ => apply wp_mod; cbv beta iota
  | |- wp (emplace_event _) _ _ => apply wp_mod; cbv beta iota
  end.

Lemma fresh_facts s : wf s -> state_ s = wait_connect_initial ->
  static_channels (session_ s) = [] /\ message_channel_id (session_ s) = None /\
  autodetect (session_ s) = false /\ heartbeat (session_ s) = false /\ reactivating_ s = false.
Proof.
  intros H E. destruct (wf_fresh _ _ _ _ _ H E). destruct (wf_early _ _ _ _ _ H) as (? & ? & ?); [by rewrite E|].
  by split_and!.
Qed.

(** The client's data may be kept in any state. *)
Lemma core_client_data c st x a re d : core c st x a re -> core c st (set_client_data d x) a re.
Proof.
  intros [H1 H2 H3 H4 H5 H6 H7 H8 H9 H10 H11 H12]. split; try done. intros Hs. by destruct (H6 Hs).
Qed.

Lemma core_agree c x a client : core c wait_connect_initial x a false ->
  len (requested_channels client) <= Gcc.max_static_channels ->
  core c wait_erect_domain (agree c client x) a false.
Proof.
  intros H Hl. destruct (wf_fresh _ _ _ _ _ H eq_refl) as [Hs Hm].
  destruct (wf_early _ _ _ _ _ H eq_refl) as (Ha & Hh & _).
  destruct (agree_spec c client x (wf_config _ _ _ _ _ H) Hl Hs Hm) as (A & _ & En & _ & Ei & Ea & Eh & _).
  pose proof (wf_config _ _ _ _ _ H) as Hc. unfold config_ok in Hc. pose proof (wf_widths _ _ _ _ _ H) as Hw.
  split; try done; rewrite ?En, ?Ea, ?Eh, ?Ha, ?Hh; try done.
  - apply (wf_requested _ _ _ _ _ H).
  - destruct A as [_ _ _ _ [Hdw Hdh] Hbp]. unfold session_widths in *. rewrite Ei. bools.
    rewrite !andb_true_iff. widths. unfold u16_ok, u32_ok. rewrite !andb_true_iff, !Z.leb_le, !Z.ltb_lt. lia.
  - apply (wf_link _ _ _ _ _ H).
Qed.

Lemma sends_connect_response initial conference : Mcs.domain_ok (Mcs.negotiate_domain_parameters initial) = true ->
  len conference <= 200 ->
  sends (let! start := X224.begin_data_tpdu in
         Mcs.encode_connect_response
           (Mcs.mkResponse Mcs.successful 0 (Mcs.negotiate_domain_parameters initial) conference) ;;;
         X224.end_tpkt start).
Proof.
  intros Hd Hl. pose proof (len_nonneg conference).
  destruct (Mcs.mcs_encodes_response
    (Mcs.mkResponse Mcs.successful 0 (Mcs.negotiate_domain_parameters initial) conference)) as (e & W & L & _).
  - unfold Mcs.response_ok. cbn [Mcs.result Mcs.called_connect_id Mcs.parameters Mcs.response_data]. rewrite Hd.
    by rewrite (proj2 (Z.ltb_lt (len conference) (2 ^ 31))) by lia.
  - apply (sends_tpdu _ e W). cbn [Mcs.response_data] in L. unfold X224.max_tpkt_size. lia.
Qed.

Lemma on_connect_initial_safe data s : wf s -> state_ s = wait_connect_initial -> safe (on_connect_initial data) s.
Proof.
  intros H Hs. unfold safe, on_connect_initial. try_read initial r0 E0. try_read blocks r1 E1. try_read client r2 E2.
  destruct (Mcs.decode_connect_initial_inv _ _ _ E0) as [Ht Hm].
  pose proof (Gcc.client_channels _ (proj1 (Gcc.decode_client_data_inv _ _ _ E2))) as Hl.
  destruct (fresh_facts s H Hs) as (Hst & Hmc & Ha & Hh & Hr).
  assert (core (config_ s) wait_connect_initial (set_client_data client (session_ s)) (autodetect_ s) false) as H1.
  { apply core_client_data. unfold wf in H. by rewrite Hs, Hr in H. }
  run_steps. cbn [session_ with_session].
  destruct (match Gcc.server_selected_protocol _ with Some p => _ | None => false end).
  { apply wp_close, outcome_ok. split; try done; [|exists []; by rewrite app_nil_r|].
    - unfold wf. cbn. rewrite Hr. by eapply core_closed.
    - eexists. split; [done|]. unfold phase. by rewrite Hs. }
  run_steps. cbn [session_ with_session config_].
  destruct (Gcc.writes_server _ (server_data_ok client (set_client_data client (session_ s))
    (wf_requested _ _ _ _ _ H1) Hl)) as (eb & Wb & Lb). unfold Gcc.server_size in Lb.
  apply (wp_local _ eb); [done|]. wp_step.
  destruct (Gcc.encodes_response eb) as (ec & Wc & Lc & _); [unfold Per.max_length; lia|].
  apply (wp_local _ ec); [done|]. wp_step.
  apply wp_emit; [apply sends_connect_response; [by apply Mcs.negotiate_ok|lia]|].
  intros out. run_steps. apply outcome_ok. split; try done; [|by exists out|].
  - unfold wf. cbn. rewrite Hr. by apply core_agree.
  - exists []. split; [by rewrite app_nil_r|]. unfold phase. by rewrite Hs.
Qed.

Lemma on_channel_join_safe i c s : wf s -> settled (state_ s) = true -> Mcs.u16_from 0 c = true -> safe (on_channel_join i c) s.
Proof.
  intros H Hs Hc. unfold safe, on_channel_join. run_steps.
  pose proof (wf_agreed _ _ _ _ _ H Hs) as A. destruct (u16_channel _ (agreed_user _ _ A)) as (Hu & Hu2 & _).
  destruct (negb _); [run_steps; by apply outcome_refl|].
  set (allowed := _ || _ || _ || _). clearbody allowed. wp_step.
  assert (forall s', session_ s' = session_ s -> sends (mcs_pdu (Mcs.ChannelJoinConfirm
    (if allowed then Mcs.successful else Mcs.no_such_channel) (user_channel_id (session_ s)) c
    (if allowed then Some c else None)))) as Hp.
  { intros s' _. apply sends_mcs; [|by destruct allowed]. cbn [Mcs.pdu_ok]. rewrite Hu2, Hc.
    destruct allowed; [by rewrite Hc|done]. }
  destruct allowed; run_steps.
  - apply wp_emit; [by apply (Hp s)|]. intros out. apply outcome_ok. split; try done; [by exists out|].
    exists []. by rewrite app_nil_r.
  - apply wp_emit; [by apply (Hp s)|]. intros out. by apply outcome_ok, evolves_output.
Qed.

Lemma share_of_user u : 0 <= u < 65536 ->
  Z.lor 0x00010000 u = 65536 + u /\ Z.lor 0x00010000 u mod 65536 = u /\ u32_ok (Z.lor 0x00010000 u) = true.
Proof.
  intros Hu. assert (Z.lor 0x00010000 u = 65536 + u) as E.
  { pose proof (lor_disjoint 1 u 16 ltac:(lia) ltac:(lia)) as E. change (Z.shiftl 1 16) with 65536 in E. lia. }
  rewrite E. split_and!; [done| |].
  - change (65536 + u) with (1 * 65536 + u). rewrite Z.add_comm, Z.mod_add by lia. apply Z.mod_small. lia.
  - unfold u32_ok. rewrite andb_true_iff, Z.leb_le, Z.ltb_lt. lia.
Qed.

Lemma agreed_set_share_id c x id : agreed c x -> agreed c (set_share_id id x).
Proof. by intros [H1 H2 H3 H4 H5 H6]. Qed.

Lemma core_licensing c st x a : core c st x a false -> settled st = true ->
  core c wait_confirm_active (set_share_id (Z.lor 0x00010000 (user_channel_id x)) x) a false.
Proof.
  intros H Hs. pose proof (wf_agreed _ _ _ _ _ H Hs) as A. pose proof (agreed_user _ _ A) as Hu.
  unfold first_channel, Mcs.io_channel_id in Hu.
  destruct (share_of_user (user_channel_id x)) as (_ & Hm & H32); [lia|].
  pose proof (wf_widths _ _ _ _ _ H) as Hw. pose proof (wf_detect _ _ _ _ _ H) as Hd.
  destruct H as [H1 H2 H3 H4 H5 H6 H7 H8 H9 H10 H11 H12]. split; try done.
  - unfold session_widths in *. cbn. bools. by rewrite !andb_true_iff.
  - intros _. by apply agreed_set_share_id.
  - intros Hx _. by apply Hd.
Qed.

Lemma widths_user s : wf s -> settled (state_ s) = true -> u16_ok (user_channel_id (session_ s)) = true.
Proof. intros H Hs. by destruct (u16_channel _ (agreed_user _ _ (wf_agreed _ _ _ _ _ H Hs))) as (_ & _ & ?). Qed.

(** The session with what the Client Info says. *)
Lemma core_client_info c x a u d f detect beat : core c wait_channel_joins x a false ->
  (detect || beat = true -> exists id, message_channel_id x = Some id) ->
  (detect = true -> core c connect_time_autodetect (set_detection detect beat (set_info u d f x)) a false) /\
  core c wait_confirm_active (set_share_id (Z.lor 0x00010000 (user_channel_id x))
    (set_detection detect beat (set_info u d f x))) a false.
Proof.
  intros H Hid.
  assert (agreed c (set_detection detect beat (set_info u d f x))) as A.
  { by destruct (wf_agreed _ _ _ _ _ H eq_refl) as [A1 A2 A3 A4 A5 A6]. }
  destruct (agreed_user _ _ A) as [Hu1 Hu2]. unfold first_channel, Mcs.io_channel_id in Hu1, Hu2.
  destruct (share_of_user (user_channel_id x)) as (_ & Hm & H32); [cbn in *; lia|].
  destruct H as [H1 H2 H3 H4 H5 H6 H7 H8 H9 H10 H11 H12]. split.
  - intros ->. by split.
  - split; try done.
    + unfold session_widths in *. cbn. bools. by rewrite !andb_true_iff.
    + intros _. by apply agreed_set_share_id.
    + intros Hx _. by apply Hid.
Qed.

Lemma joined_message s : message_channel_joined s = true -> exists id, message_channel_id (session_ s) = Some id.
Proof. unfold message_channel_joined. destruct (message_channel_id (session_ s)); [eauto|done]. Qed.

Lemma core_link c st x a b re : core c st x a re -> link_ok b -> core c st x b re.
Proof. by intros [H1 H2 H3 H4 H5 H6 H7 H8 H9 H10 H11 H12] Hb. Qed.

Lemma on_client_info_safe data s : wf s -> state_ s = wait_channel_joins -> safe (on_client_info data) s.
Proof.
  intros H Hs. unfold safe, on_client_info. try_read flags r0 E0.
  destruct (negb _); [run_steps; by apply outcome_refl|]. try_read info r1 E1.
  assert (reactivating_ s = false) as Hr by (eapply wf_early; [exact H|by rewrite Hs]).
  assert (core (config_ s) wait_channel_joins (session_ s) (autodetect_ s) false) as HC by (unfold wf in H; by rewrite Hs, Hr in H).
  assert (message_channel_joined s = true -> exists id, message_channel_id (session_ s) = Some id) as Hj by apply joined_message.
  run_steps. change (message_channel_joined (with_events _ _)) with (message_channel_joined s).
  cbn [session_ with_events with_session config_ client_data set_info].
  set (early := Gcc.has_early_flag _). set (joined := message_channel_joined s) in *. clearbody joined early.
  set (mode := negb (bool_decide (cfg_autodetect (config_ s) = off))). clearbody mode.
  set (detect := joined && mode && early Gcc.support_netchar_autodetect).
  set (beat := joined && early Gcc.support_heartbeat_pdu).
  assert (detect || beat = true -> exists id, message_channel_id (session_ s) = Some id) as Hid.
  { intros Hx. apply Hj. subst detect beat. by destruct joined. }
  destruct (core_client_info _ _ _ (ClientInfo.user_name info) (ClientInfo.domain info) (ClientInfo.flags info)
    detect beat HC Hid) as [C1 C2].
  destruct (detect && _) eqn:Ed.
  - apply andb_prop in Ed as [Ed _]. specialize (C1 Ed). run_steps. cbn [autodetect_ now_ with_state with_session with_events].
    destruct (link_connect_time (autodetect_ s) (now_ s) (wf_link _ _ _ _ _ H)) as [La Le].
    destruct (AutoDetect.start_connect_time _ _) as [requests a]. cbn [fst snd] in *. run_steps.
    destruct (Hid ltac:(by rewrite Ed)) as [id Em].
    pose proof (agreed_message _ _ _ (wf_agreed _ _ _ _ _ H ltac:(by rewrite Hs)) Em) as Hrange.
    apply wp_emit.
    { eapply (sends_autodetects _ _ id); [exact Em|by apply u16_channel; lia|done]. }
    intros out. apply outcome_ok. split; try done; [|by exists out|].
    + unfold wf. cbn. rewrite Hr. by eapply core_link.
    + eexists. split; [done|]. unfold phase. cbn. by rewrite Hs.
  - apply wp_licensing; [exact (widths_user s H ltac:(by rewrite Hs))|exact (wf_widths _ _ _ _ _ H)|].
    intros out. apply outcome_ok. split; try done; [|by exists out|].
    + unfold wf. cbn. by rewrite Hr.
    + eexists. split; [done|]. unfold phase. cbn. by rewrite Hs, Hr.
Qed.

Lemma evolves_link s b : wf s -> link_ok b -> evolves s (with_autodetect b s).
Proof.
  intros H Hb. split; try done; [by eapply core_link|exists []; by rewrite app_nil_r|].
  exists []. by rewrite app_nil_r.
Qed.

Lemma message_id s : wf s -> settled (state_ s) = true -> autodetect (session_ s) || heartbeat (session_ s) = true ->
  exists id, message_channel_id (session_ s) = Some id /\ Mcs.u16_from 0 id = true.
Proof.
  intros H Hs Hd. destruct (wf_detect _ _ _ _ _ H Hd Hs) as [id E]. exists id. split; [done|].
  pose proof (agreed_message _ _ _ (wf_agreed _ _ _ _ _ H Hs) E). by apply u16_channel; lia.
Qed.

Lemma licensing_sure s : wf s -> state_ s = connect_time_autodetect -> sure start_licensing s.
Proof.
  intros H Hs. assert (settled (state_ s) = true) as Hset by (by rewrite Hs).
  destruct (wf_probe _ _ _ _ _ H Hs) as [_ Hr].
  apply wp_licensing; [by apply widths_user|exact (wf_widths _ _ _ _ _ H)|]. intros out. split; [done|].
  split; try done; [|by exists out|].
  - unfold wf in *. cbn. rewrite Hs, Hr in *. by eapply core_licensing.
  - exists []. split; [by rewrite app_nil_r|]. unfold phase. cbn. by rewrite Hs, Hr.
Qed.

Lemma finish_sure s : wf s -> state_ s = connect_time_autodetect -> sure finish_connect_time_autodetect s.
Proof.
  intros H Hs. unfold sure, finish_connect_time_autodetect. run_steps.
  destruct (link_result (autodetect_ s) (wf_link _ _ _ _ _ H)) as [La Lr].
  destruct (AutoDetect.network_characteristics_result _) as [result a]. cbn [fst snd] in *. run_steps.
  pose proof (evolves_link s a H La) as Ea. cbn [session_ with_autodetect].
  destruct (wf_probe _ _ _ _ _ H Hs) as [Hd _].
  destruct (message_id s H ltac:(by rewrite Hs) ltac:(by rewrite Hd)) as (id & Em & Hid).
  destruct result as [r|].
  - apply wp_emit; [eapply sends_autodetect; [exact Em|done|by apply Lr]|]. intros out. cbv beta iota.
    apply sure_after; [|apply licensing_sure; [by eapply core_link|done]].
    eapply evolves_trans; [exact Ea|]. apply evolves_output. exact (ev_wf _ _ Ea).
  - run_steps. apply sure_after; [done|]. apply licensing_sure; [exact (ev_wf _ _ Ea)|done].
Qed.

Lemma over_state s : detection_over s = true -> state_ s = connect_time_autodetect.
Proof. unfold detection_over. intros H. by bools. Qed.

Lemma on_message_channel_safe data s : wf s -> safe (on_message_channel data) s.
Proof.
  intros H. unfold safe, on_message_channel. try_read flags r0 E0.
  destruct (negb _); [run_steps; by apply outcome_refl|].
  destruct (AutodetectCodec.decode_response r0) as [[response r1]|e] eqn:E; [|run_steps; by apply outcome_refl].
  apply AutodetectCodec.decode_response_inv in E as [Hr _]. run_steps.
  pose proof (evolves_link s _ H (link_response _ response (now_ s) (wf_link _ _ _ _ _ H) Hr)) as Ea.
  set (s1 := with_autodetect _ s) in *. destruct (detection_over s1) eqn:Eo; [|run_steps; by apply outcome_ok].
  apply safe_after; [done|]. apply finish_sure; [exact (ev_wf _ _ Ea)|by apply over_state].
Qed.

(** ** The share *)

Lemma core_capabilities c x a re caps f p m ps : core c wait_confirm_active x a re ->
  core c finalizing (set_capabilities caps f p m ps x) a re.
Proof.
  intros [H1 H2 H3 H4 H5 H6 H7 H8 H9 H10 H11 H12]. split; try done.
  - intros _. by destruct (H6 eq_refl).
  - intros Hr. by left.
Qed.

Lemma on_confirm_active_safe body s : wf s -> state_ s = wait_confirm_active -> safe (on_confirm_active body) s.
Proof.
  intros H Hs. unfold safe, on_confirm_active. try_read confirm r0 E0. run_steps.
  destruct (negb _); [run_steps; by apply outcome_refl|].
  destruct (Capabilities.general _) as [g|]; [|run_steps; by apply outcome_refl].
  destruct (Capabilities.bitmap _) as [b|]; [|run_steps; by apply outcome_refl].
  run_steps. pose proof (widths_user s H ltac:(by rewrite Hs)) as Hu.
  apply wp_data_pdu; [cbn [Share.pdu_ok]; by rewrite Hu|]. intros out1. cbv beta iota.
  apply wp_data_pdu; [done|]. intros out2. apply outcome_ok. split; try done.
  - unfold wf in *. cbn. rewrite Hs in H. by apply core_capabilities.
  - exists (out1 ++ out2). cbn. by rewrite app_assoc.
  - exists []. split; [by rewrite app_nil_r|]. unfold phase. cbn. by rewrite Hs.
Qed.

Lemma core_activate c x a re : core c finalizing x a re -> core c active x a false.
Proof.
  by intros [H1 H2 H3 H4 H5 H6 H7 H8 H9 H10 H11 H12].
Qed.

(** The first activation is no reactivation, all others are. *)
Lemma activate_sure s : wf s -> state_ s = finalizing -> sure activate s.
Proof.
  intros H Hs. unfold sure, activate. run_steps. split; [done|]. split; try done.
  - unfold wf in *. cbn. rewrite Hs in H. by eapply core_activate.
  - exists []. by rewrite app_nil_r.
  - exists [Activated (reactivating_ s)]. split; [done|]. unfold phase. cbn. rewrite Hs. by destruct (reactivating_ s).
Qed.

Lemma on_data_pdu_safe body s : wf s -> settled (state_ s) = true -> phase s <> opening -> safe (on_data_pdu body) s.
Proof.
  intros H Hs Hp. unfold safe, on_data_pdu. try_read data r0 E0. run_steps.
  destruct (negb _); [run_steps; by apply outcome_refl|]. wp_step. apply wp_lift.
  destruct (Share.decode_data_pdu data) as [pdu|e]; cbv beta iota; [|by apply outcome_refl].
  assert (phase s <> ended) as He by (unfold phase; by destruct (state_ s), (reactivating_ s)).
  pose proof (widths_user s H Hs) as Hu.
  destruct pdu; run_steps; try (by apply outcome_refl).
  - destruct (_ =? _); [|run_steps; by apply outcome_refl].
    apply wp_data_pdu; [cbn [Share.pdu_ok]; by rewrite Hu|]. intros out. by apply outcome_ok, evolves_output.
  - apply wp_data_pdu; [done|]. intros out. cbv beta iota. run_steps. cbn [state_ with_output].
    pose proof (evolves_output s out H) as Eo. case_bool_decide as Ef.
    + apply safe_after; [done|]. apply activate_sure; [exact (ev_wf _ _ Eo)|done].
    + run_steps. by apply outcome_ok.
  - apply outcome_ok, evolves_event; [done|]. by destruct (phase s).
  - apply outcome_ok, evolves_event; [done|]. by destruct (phase s).
  - apply outcome_ok, evolves_event; [done|]. by destruct (phase s).
  - case_bool_decide; run_steps; [by apply outcome_refl|]. apply outcome_ok, evolves_event; [done|]. by destruct (phase s).
Qed.

Lemma on_io_data_safe data s : wf s -> settled (state_ s) = true -> phase s <> opening -> safe (on_io_data data) s.
Proof.
  intros H Hs Hp. unfold safe, on_io_data. try_read control r0 E0.
  destruct (_ =? _); [run_steps; by apply outcome_refl|].
  destruct (_ =? _); run_steps.
  - case_bool_decide; [by apply on_confirm_active_safe|]. run_steps. by apply outcome_refl.
  - destruct (_ =? _); run_steps; [|by apply outcome_refl].
    case_bool_decide; [run_steps; by apply outcome_refl|]. by apply on_data_pdu_safe.
Qed.

Lemma on_fastpath_input_safe pdu s : wf s -> safe (on_fastpath_input pdu) s.
Proof.
  intros H. unfold safe, on_fastpath_input. run_steps.
  destruct (_ && _ && _) eqn:Es; [run_steps; by apply outcome_refl|]. try_read events r0 E0.
  assert (next (phase s) (Input events) = Some (phase s)) as Hn.
  { unfold phase. destruct (state_ s); try discriminate Es; by destruct (reactivating_ s). }
  clear Es. destruct (negb _ && negb _); run_steps; [by apply outcome_ok, evolves_event|by apply outcome_refl].
Qed.

Lemma on_channel_pdu_safe start pdu s : wf s ->
  state_ s <> wait_connect_initial -> state_ s <> wait_erect_domain -> state_ s <> wait_attach_user -> state_ s <> closed ->
  (forall i c, pdu = Mcs.ChannelJoinRequest i c -> Mcs.u16_from 0 c = true) -> safe (on_channel_pdu start pdu) s.
Proof.
  intros H H1 H2 H3 H4 Hj. unfold safe, on_channel_pdu. run_steps.
  assert (settled (state_ s) = true) as Hset by (by destruct (state_ s)).
  destruct pdu as [| | | |i c| |i c d|]; try (run_steps; by apply outcome_refl).
  - case_bool_decide; cbn [negb]; [|run_steps; by apply outcome_refl].
    apply on_channel_join_safe; [done|done|by eapply Hj].
  - destruct (negb _); [run_steps; by apply outcome_refl|].
    destruct (_ =? _).
    + case_bool_decide as Ej; [by apply on_client_info_safe|]. apply on_io_data_safe; [done|done|].
      unfold phase. by destruct (state_ s), (reactivating_ s).
    + case_bool_decide; [by apply on_message_channel_safe|].
      destruct (negb _); [run_steps; by apply outcome_refl|]. run_steps. apply outcome_ok, evolves_event; [done|].
      unfold phase. by destruct (state_ s), (reactivating_ s).
Qed.

(** The states before the joins change without an event. *)
Lemma evolves_state s st out : wf s -> settled (state_ s) = true -> phase s = opening -> phase_of st false = opening ->
  settled st = true -> sharing st = false -> evolves s (with_state st (with_output (output_ s ++ out) s)).
Proof.
  intros H Hs Hp Hst Hset Hsh. destruct (wf_early _ _ _ _ _ H Hp) as (Ha & Hh & Hr).
  split; try done; [|by exists out|].
  - unfold wf in *. cbn. rewrite Hr in *. destruct H as [H1 H2 H3 H4 H5 H6 H7 H8 H9 H10 H11 H12].
    split; try done; try (intros ->; done); [by intros _; apply H6|by rewrite Ha, Hh|congruence].
  - exists []. split; [by rewrite app_nil_r|]. rewrite Hp. unfold phase. cbn. by rewrite Hr, Hst.
Qed.

Lemma on_domain_pdu_safe data s : wf s -> state_ s <> closed -> state_ s <> wait_connect_initial -> safe (on_domain_pdu data) s.
Proof.
  intros H Hc Hi. unfold safe, on_domain_pdu. try_read pdu r0 E0. run_steps.
  assert (forall i c, pdu = Mcs.ChannelJoinRequest i c -> Mcs.u16_from 0 c = true) as Hj.
  { intros i c ->. by eapply Mcs.decode_join_inv. }
  assert (settled (state_ s) = true) as Hset by (by destruct (state_ s)).
  destruct (state_ s) eqn:Es; try done;
    try (destruct pdu; try (by apply on_channel_pdu_safe; rewrite ?Es); by apply sure_safe, close_sure; rewrite ?Es).
  - destruct pdu; run_steps; try (by apply outcome_refl); [|by apply sure_safe, close_sure; rewrite ?Es].
    pose proof (evolves_state s wait_attach_user [] H) as E. rewrite app_nil_r in E.
    change (with_output (output_ s) s) with (mk (config_ s) (state_ s) (session_ s) (input_ s) (output_ s) (events_ s)
      (reactivating_ s) (joined_channels_ s) (autodetect_ s) (now_ s) (last_output_ s)) in E.
    apply outcome_ok, E; try done; [by rewrite Es|unfold phase; by rewrite Es].
  - destruct pdu; run_steps; try (by apply outcome_refl); [by apply sure_safe, close_sure; rewrite ?Es|].
    pose proof (agreed_user _ _ (wf_agreed _ _ _ _ _ H ltac:(by rewrite Es))) as Hu.
    apply wp_emit.
    { apply sends_mcs; [|done]. cbn [Mcs.pdu_ok]. by destruct (u16_channel _ Hu) as (_ & -> & _). }
    intros out. run_steps. apply outcome_ok, evolves_state; try done; [by rewrite Es|unfold phase; by rewrite Es].
Qed.

Lemma handle_pdu_safe kind pdu s : wf s -> state_ s <> closed -> safe (handle_pdu kind pdu) s.
Proof.
  intros H Hc. unfold safe, handle_pdu. destruct kind; [|by apply on_fastpath_input_safe].
  try_read tpdu r0 E0. wp_step. apply wp_lift. destruct (X224.peek_tpdu_code tpdu) as [code|e]; cbv beta iota;
    [|by apply outcome_refl].
  case_bool_decide; [by apply sure_safe, close_sure|]. destruct (negb _); [run_steps; by apply outcome_refl|].
  try_read data r1 E1. run_steps. case_bool_decide; [by apply on_connect_initial_safe|by apply on_domain_pdu_safe].
Qed.

(** ** The interface

    What holds between calls: [evolves] without the input. *)
Record advances (s s' : t) : Prop := mkAdvances {
  ad_wf : wf s';
  ad_config : config_ s' = config_ s;
  ad_output : exists out, output_ s' = output_ s ++ out;
  ad_events : exists new, events_ s' = events_ s ++ new /\ accepts (phase s) new = Some (phase s')
}.

Lemma evolves_advances s s' : evolves s s' -> advances s s'.
Proof. by intros [H1 H2 _ _ H5 H6]. Qed.

Lemma advances_trans s1 s2 s3 : advances s1 s2 -> advances s2 s3 -> advances s1 s3.
Proof.
  intros [W1 C1 [o1 O1] [e1 [E1 A1]]] [W2 C2 [o2 O2] [e2 [E2 A2]]]. split; [done|congruence| |].
  - exists (o1 ++ o2). by rewrite O2, O1, app_assoc.
  - exists (e1 ++ e2). split; [by rewrite E2, E1, app_assoc|]. by rewrite accepts_app, A1.
Qed.

Lemma advances_refl s : wf s -> advances s s.
Proof. intros H. by apply evolves_advances, evolves_refl. Qed.

Lemma advances_input s b : wf s -> advances s (with_input b s).
Proof. intros H. split; try done; [exists []; by rewrite app_nil_r|]. exists []. by rewrite app_nil_r. Qed.

(** The loop empties the buffer of whole frames, or closes the connection. *)
Lemma receive_loop_safe fuel : forall s, wf s -> (length (input_ s) < fuel)%nat ->
  wp (receive_loop fuel) s (fun r s' => advances s s' /\ len (input_ s') <= len (input_ s) /\
    exists returned, r = Ok returned /\ (returned = true -> state_ s' = closed) /\
      (returned = false -> state_ s' = closed \/ len (input_ s') < 65536)).
Proof.
  induction fuel as [|fuel IH]; intros s H Hf; [lia|]. cbn [receive_loop]. run_steps.
  case_bool_decide as Hc.
  { run_steps. split_and!; [by apply advances_refl|lia|]. exists false. auto. }
  run_steps. destruct (Framing.peek_frame (input_ s)) as [[frame|]|e] eqn:Ep.
  - pose proof (Framing.peek_frame_size _ _ Ep) as Hn.
    destruct (Z.ltb_spec (len (input_ s)) (Framing.length frame)) as [Hl|Hl].
    { run_steps. split_and!; [by apply advances_refl|lia|]. exists false. split_and!; [done|done|]. right. lia. }
    run_steps. wp_step.
    pose proof (advances_input s (drop (Z.to_nat (Framing.length frame)) (input_ s)) H) as Ha.
    set (s1 := with_input _ s) in *.
    assert ((length (input_ s1) < fuel)%nat /\ len (input_ s1) <= len (input_ s)) as [Hf1 Hl1].
    { subst s1. cbn [input_ with_input]. rewrite len_drop, length_drop. unfold len in *. lia. }
    eapply wp_mono; [apply (handle_pdu_safe _ _ s1); [exact (ad_wf _ _ Ha)|done]|]. cbv beta. intros r s2 [He Hr].
    pose proof (ev_input _ _ He) as Hi. destruct r as [[]|e].
    + eapply wp_mono; [apply IH; [exact (ev_wf _ _ He)|by rewrite Hi]|]. cbv beta. intros r s3 (A & L & R).
      split_and!; [|rewrite Hi in L; lia|done].
      eapply advances_trans; [exact Ha|]. eapply advances_trans; [by apply evolves_advances|done].
    + subst s2. wp_step. apply wp_fail_. run_steps. split_and!; [|done|exists true; auto].
      eapply advances_trans; [exact Ha|]. apply evolves_advances, evolves_closed; [exact (ad_wf _ _ Ha)|done|eauto].
  - run_steps. split_and!; [by apply advances_refl|lia|]. exists false. split_and!; [done|done|].
    right. pose proof (Framing.peek_frame_short _ Ep). lia.
  - wp_step. apply wp_fail_. run_steps. split_and!; [by apply evolves_advances, evolves_closed; eauto|done|].
    exists true. auto.
Qed.

Definition buffer_ok (s : t) : Prop := state_ s <> closed -> len (input_ s) < 65536.

(** Segments that cannot reach the limit on buffered input. *)
Definition max_segment : Z := max_buffered_input - 65536.

(** [fail], which closes with an error. *)
Definition failed (reason : string) (s : t) : t :=
  with_events (events_ s ++ [Closed reason true]) (with_state closed s).

(** The limit on buffered input strikes a connection that the segment has closed
    already, with more than a mebibyte behind the PDU that closed it. *)
Definition overruns (bytes : list byte) (s s' : t) : Prop :=
  state_ s <> closed /\ max_segment < len bytes /\
  exists s2, advances s s2 /\ state_ s2 = closed /\ s' = failed "too much unframed input" s2.

Lemma wf_failed reason s : wf s -> wf (failed reason s).
Proof. intros H. by eapply core_closed. Qed.

Lemma receive_safe bytes s : wf s -> buffer_ok s ->
  wp (receive bytes) s (fun r s' => r = Ok tt /\ wf s' /\ buffer_ok s' /\ (advances s s' \/ overruns bytes s s')).
Proof.
  intros H Hb. unfold receive. run_steps. case_bool_decide as Hc.
  { run_steps. split_and!; [done..|]. left. by apply advances_refl. }
  specialize (Hb Hc). run_steps. pose proof (advances_input s (input_ s ++ bytes) H) as Ha.
  set (s1 := with_input _ s) in *.
  assert (len (input_ s1) < 65536 + len bytes) as Hl1 by (subst s1; cbn [input_ with_input]; len_lia).
  eapply wp_mono; [apply (receive_loop_safe (S (length (input_ s1))) s1); [exact (ad_wf _ _ Ha)|lia]|]. cbv beta.
  intros r s2 (A & L & returned & -> & Ht & Hf). pose proof (advances_trans _ _ _ Ha A) as A2.
  pose proof (ad_wf _ _ A2) as W2. destruct returned; run_steps.
  - split_and!; [done|done| |by left]. intros Hn. by destruct (Hn (Ht eq_refl)).
  - unfold max_buffered_input. change (Z.shiftl 1 20) with 1048576.
    destruct (Z.ltb_spec 1048576 (len (input_ s2))) as [Hx|Hx].
    + apply wp_fail_. destruct (Hf eq_refl) as [Hcl|?]; [|lia].
      split_and!; [done|by apply wf_failed|intros Hn; by destruct Hn|]. right. split_and!; [done| |by exists s2].
      unfold max_segment, max_buffered_input. change (Z.shiftl 1 20) with 1048576. lia.
    + run_steps. split_and!; [done|done| |by left]. intros Hn. by destruct (Hf eq_refl).
Qed.

Lemma evolves_times s now last : wf s -> advances s (with_times now last s).
Proof. intros H. split; try done; [exists []; by rewrite app_nil_r|]. exists []. by rewrite app_nil_r. Qed.

Definition advances_buffer (s s' : t) : Prop := advances s s' /\ input_ s' = input_ s.

Lemma ab_trans s1 s2 s3 : advances_buffer s1 s2 -> advances_buffer s2 s3 -> advances_buffer s1 s3.
Proof. intros [A1 I1] [A2 I2]. split; [by eapply advances_trans|congruence]. Qed.

Lemma ab_evolves s s' : evolves s s' -> advances_buffer s s'.
Proof. intros H. split; [by apply evolves_advances|by apply ev_input]. Qed.

Lemma ab_refl s : wf s -> advances_buffer s s.
Proof. intros H. by apply ab_evolves, evolves_refl. Qed.

(** Specification of a command. *)
Definition command (m : M t unit) (s : t) : Prop := wp m s (fun r s' => r = Ok tt /\ advances_buffer s s').

Lemma command_after m s s' : advances_buffer s s' -> command m s' ->
  wp m s' (fun r s'' => r = Ok tt /\ advances_buffer s s'').
Proof. intros H1 H2. eapply wp_mono; [exact H2|]. intros r s'' [-> H]. split; [done|by eapply ab_trans]. Qed.

Lemma sure_command m s : sure m s -> command m s.
Proof. intros H. eapply wp_mono; [exact H|]. intros r s' [-> E]. split; [done|by apply ab_evolves]. Qed.

Lemma ab_output_times s out now last : wf s ->
  advances_buffer s (with_times now last (with_output (output_ s ++ out) s)).
Proof.
  intros H. split; [|done]. eapply advances_trans; [apply evolves_advances, evolves_output; exact H|].
  apply evolves_times. exact H.
Qed.

Lemma sends_heartbeat x period id : message_channel_id x = Some id -> Mcs.u16_from 0 id = true -> sends (send_heartbeat x period).
Proof.
  intros Hid Hc. unfold send_heartbeat.
  destruct (AutodetectCodec.heartbeat_encodes (AutodetectCodec.mkHeartbeat (wrap 8 (Z.min period 0xFF))
    heartbeat_warning_count heartbeat_reconnect_count)) as (p & W & L & _).
  { unfold AutodetectCodec.heartbeat_ok, AutodetectCodec.u8. cbn. pose proof (wrap_range 8 (Z.min period 0xFF) ltac:(lia)).
    change (2 ^ 8) with 256 in *. rewrite !andb_true_iff, !Z.leb_le, !Z.ltb_lt. lia. }
  destruct (sends_message_channel x SessionInfo.heartbeat p id Hid Hc) as [e We]; [unfold Per.max_length; lia|].
  exists e. eapply writes_local; [by apply writes_run|done].
Qed.

(** The second half of [tick]. *)
Lemma heartbeat_command now x s : wf s -> state_ s = active -> x = session_ s ->
  command (let$ config := mget config_ in
           let$ last_output := mget last_output_ in
           if heartbeat x && (0 <? heartbeat_period config) && (nanoseconds (heartbeat_period config) <=? now - last_output)
           then let$ _ := emit (send_heartbeat x (heartbeat_period config)) in mmod (with_times now now)
           else mret tt) s.
Proof.
  intros H Hs ->. unfold command. run_steps. destruct (heartbeat (session_ s) && _ && _) eqn:Eh; run_steps.
  - assert (heartbeat (session_ s) = true) as Hh by (by destruct (heartbeat (session_ s))).
    destruct (message_id s H ltac:(by rewrite Hs) ltac:(by rewrite Hh, orb_true_r)) as (id & Em & Hid).
    apply wp_emit; [by eapply sends_heartbeat|]. intros out. run_steps. split; [done|]. by apply ab_output_times.
  - split; [done|by apply ab_refl].
Qed.

Lemma tick_safe now s : wf s -> command (tick now) s.
Proof.
  intros H. unfold command, tick. run_steps.
  pose proof (evolves_times s now (last_output_ s) H) as Ha.
  assert (advances_buffer s (with_times now (last_output_ s) s)) as Hb by (by split).
  set (s1 := with_times _ _ s) in *. destruct (detection_over s1) eqn:Eo.
  { apply command_after; [done|]. apply sure_command, finish_sure; [exact (ad_wf _ _ Ha)|by apply over_state]. }
  run_steps. case_bool_decide as Es; cbn [negb]; [|by run_steps]. run_steps.
  destruct (autodetect (session_ s1)) eqn:Ed; run_steps; [|by apply command_after, heartbeat_command].
  destruct (link_poll (autodetect_ s1) now (wf_link _ _ _ _ _ H)) as [La Lr].
  destruct (AutoDetect.poll_rtt_request _ _) as [probe a]. cbn [fst snd] in *. run_steps.
  pose proof (evolves_link s1 a (ad_wf _ _ Ha) La) as Ea. set (s2 := with_autodetect a s1) in *.
  assert (advances_buffer s s2) as Hb2 by (eapply ab_trans; [exact Hb|by apply ab_evolves]).
  destruct probe as [p|]; run_steps; [|by apply command_after, heartbeat_command; [|exact (ev_wf _ _ Ea)|..]].
  destruct (message_id s1 (ad_wf _ _ Ha) ltac:(by rewrite Es) ltac:(by rewrite Ed)) as (id & Em & Hid).
  apply wp_emit; [eapply sends_autodetect; [exact Em|done|by apply Lr]|]. intros out. run_steps.
  pose proof (ab_output_times s2 out now now (ev_wf _ _ Ea)) as Hb3.
  apply command_after; [by eapply ab_trans|]. by apply heartbeat_command; [exact (ad_wf _ _ (proj1 Hb3))|..].
Qed.

(** ** Commands *)

Lemma command_idle s : wf s -> command (mret tt) s.
Proof. intros H. apply wp_ret. split; [done|by apply ab_refl]. Qed.

Lemma ab_output s out : wf s -> advances_buffer s (with_output (output_ s ++ out) s).
Proof. intros H. by apply ab_evolves, evolves_output. Qed.

Lemma sends_update code d : 0 <= code <= 0x0F -> sends (Fastpath.encode_update code d Fastpath.max_fragment_size).
Proof.
  intros Hc. destruct (Fastpath.writes_update code (len d) Fastpath.max_fragment_size d Hc) as (e & W & _);
    [by unfold Fastpath.max_fragment_size|lia|by exists e].
Qed.

Lemma send_bitmap_update_safe d s : wf s -> len d <= max_update_size (session_ s) -> command (send_bitmap_update d) s.
Proof.
  intros H Hd. unfold command, send_bitmap_update. run_steps.
  case_bool_decide; cbn [negb]; [|by apply command_idle]. unfold max_update_size in Hd.
  destruct (fastpath_output (session_ s)); cbn [negb] in Hd.
  - apply wp_emit; [by apply sends_update|]. intros out. split; [done|by apply ab_output].
  - apply wp_share_pdu; [unfold slow_path_update_limit, Per.max_length in *; lia|].
    intros out. split; [done|by apply ab_output].
Qed.

(** What fits behind the data PDU header into one MCS PDU. *)
Definition pointer_fits (x : Session) (u : Pointer.Update) : bool :=
  Pointer.update_ok u &&
  (fastpath_output x || (negb (Pointer.is_large u) && (18 + len (Pointer.slow_bytes u) <=? Per.max_length))).

Lemma send_pointer_safe u s : wf s -> pointer_fits (session_ s) u = true -> command (send_pointer u) s.
Proof.
  intros H Hu. unfold command, send_pointer. run_steps.
  case_bool_decide; cbn [negb]; [|by apply command_idle].
  unfold pointer_fits in Hu. apply andb_prop in Hu as [Hok Hf].
  destruct (fastpath_output (session_ s)); cbn [orb] in Hf; wp_step.
  - apply (wp_local _ (Pointer.fastpath_bytes u)).
    { intros w. unfold Pointer.encode_fastpath, ebind. by rewrite (Pointer.writes_fastpath u Hok). }
    apply wp_emit; [apply sends_update; by destruct u|]. intros out. split; [done|by apply ab_output].
  - apply andb_prop in Hf as [Hl Hf]. apply negb_true_iff in Hl. apply Z.leb_le in Hf.
    apply (wp_local _ (Pointer.slow_bytes u)); [by apply Pointer.writes_slow|].
    apply wp_share_pdu; [done|]. intros out. split; [done|by apply ab_output].
Qed.

Lemma send_save_session_info_safe i s : wf s -> SessionInfo.info_ok i = true -> command (send_save_session_info i) s.
Proof.
  intros H Hi. unfold command, send_save_session_info. run_steps.
  case_bool_decide; cbn [negb]; [|by apply command_idle]. wp_step.
  apply (wp_local _ _ _ _ (SessionInfo.writes_info i)). apply wp_share_pdu.
  - rewrite (SessionInfo.len_info i Hi). unfold Per.max_length.
    assert (SessionInfo.encoded_length i <= 1000) by (by destruct i as [[] []]). lia.
  - intros out. split; [done|by apply ab_output].
Qed.

Lemma next_share id : u32_ok id = true ->
  u32_ok (wrap 32 (id + 0x00010000)) = true /\ wrap 32 (id + 0x00010000) mod 65536 = id mod 65536.
Proof.
  intros H. widths. pose proof (wrap_range 32 (id + 0x00010000) ltac:(lia)) as Hr. change (2 ^ 32) with 4294967296 in Hr.
  split; [unfold u32_ok; rewrite andb_true_iff, Z.leb_le, Z.ltb_lt; lia|].
  unfold wrap. change (2 ^ 32) with 4294967296. lia.
Qed.

Lemma core_reactivate c x a w h : core c active x a false ->
  core c wait_confirm_active (set_share_id (wrap 32 (share_id x + 0x00010000))
    (set_desktop (clamp w (min_desktop_size c) (max_desktop_size c)) (clamp h (min_desktop_size c) (max_desktop_size c))
       (bits_per_pixel x) (supports_error_info x) x)) a true.
Proof.
  intros [H1 H2 H3 H4 H5 H6 H7 H8 H9 H10 H11 H12].
  pose proof H1 as Hc. unfold config_ok in Hc. bools.
  pose proof (clamp_range w (min_desktop_size c) (max_desktop_size c) ltac:(done)).
  pose proof (clamp_range h (min_desktop_size c) (max_desktop_size c) ltac:(done)).
  pose proof H3 as Hw. unfold session_widths in Hw. apply andb_prop in Hw as [Hw Hid].
  destruct (next_share (share_id x) Hid) as [Hn1 Hn2]. specialize (H10 eq_refl). destruct (H6 eq_refl).
  split; try done.
  - unfold session_widths. cbn. rewrite Hn1. bools. widths. unfold u16_ok.
    rewrite !andb_true_iff, !Z.leb_le, !Z.ltb_lt. lia.
  - cbn. by rewrite Hn2.
  - by left.
Qed.

Lemma reactivate_safe w h s : wf s -> command (reactivate w h) s.
Proof.
  intros H. unfold command, reactivate. run_steps.
  case_bool_decide as Hs; cbn [negb]; [|by apply command_idle].
  assert (reactivating_ s = false) as Hr by (by apply (wf_active _ _ _ _ _ H)).
  run_steps. pose proof (wf_widths _ _ _ _ _ H) as Hw. unfold session_widths in Hw. apply andb_prop in Hw as [_ Hid].
  destruct (Share.exchanged_deactivate Mcs.server_channel_id (share_id (session_ s)) Hid) as (e & W & L & _).
  apply (wp_local _ _ _ _ W). wp_step. apply wp_send_io; [rewrite Share.len_control; unfold Per.max_length; lia|].
  intros out. run_steps. cbn [session_ with_output with_session with_reactivating config_].
  assert (core (config_ s) active (session_ s) (autodetect_ s) false) as HC by (unfold wf in H; by rewrite Hs, Hr in H).
  pose proof (core_reactivate _ _ _ w h HC) as HR.
  apply wp_demand_active; [exact (wf_widths _ _ _ _ _ HR)|]. intros out2 _. split; [done|]. apply ab_evolves. split; try done.
  - exists (out ++ out2). cbn. by rewrite app_assoc.
  - exists []. split; [by rewrite app_nil_r|]. unfold phase. cbn. by rewrite Hs.
Qed.

Lemma disconnect_safe e s : wf s -> u32_ok e = true -> command (disconnect e) s.
Proof.
  intros H He. unfold command, disconnect. run_steps.
  case_bool_decide as Hc; [by apply command_idle|]. set (share := _ || _ || _). clearbody share. wp_step.
  assert (forall out, wf (with_output (output_ s ++ out) s)) as Hwf by (intros out; exact H).
  assert (forall out, wp (let$ _ := if negb (bool_decide (state_ s = wait_connect_initial))
              then emit (mcs_pdu (Mcs.DisconnectProviderUltimatum
                     (if e =? Share.logoff_by_user then Mcs.user_requested else Mcs.provider_initiated)))
              else mret tt in close "server disconnected the session") (with_output (output_ s ++ out) s)
      (fun r s' => r = Ok tt /\ advances_buffer s s')) as Hrest.
  { intros out. wp_step. case_bool_decide; cbn [negb]; run_steps.
    - apply command_after; [by apply ab_output|]. by apply sure_command, close_sure.
    - apply wp_emit; [by apply sends_mcs|]. intros out2. cbv beta iota.
      apply command_after; [|by apply sure_command, close_sure].
      eapply ab_trans; [by apply (ab_output s out)|]. apply ab_output. apply Hwf. }
  destruct (share && _ && _).
  - apply wp_data_pdu; [done|]. intros out. apply Hrest.
  - wp_step. specialize (Hrest []). rewrite app_nil_r in Hrest.
    assert (with_output (output_ s) s = s) as E by (by destruct s). by rewrite E in Hrest.
Qed.

Lemma known_range c x id : agreed c x -> known_channel x id = true -> first_channel <= id <= first_channel + 30.
Proof.
  intros [Hcount Hids _ _ _ _] Hk. unfold known_channel in Hk.
  apply existsb_exists in Hk as ((n & i) & Hin & Hi). cbn in Hi. apply Z.eqb_eq in Hi as ->.
  assert (id ∈ snd <$> static_channels x) as He.
  { apply list_elem_of_In. change id with (snd (n, id)). by apply in_map. }
  rewrite Hids in He. apply ids_range in He. unfold Gcc.max_static_channels, len in *. lia.
Qed.

Lemma send_channel_data_safe id chunk s : wf s ->
  (state_ s <> closed -> sharing (state_ s) = true /\ known_channel (session_ s) id = true /\ len chunk <= Per.max_length) ->
  command (send_channel_data id chunk) s.
Proof.
  intros H Hok. unfold command, send_channel_data. run_steps.
  case_bool_decide as Hc; [by apply command_idle|]. destruct (Hok Hc) as (Hs & Hk & Hl). wp_step.
  apply wp_assert; [by destruct (state_ s)|]. wp_step. apply wp_assert; [done|]. cbv beta iota.
  apply wp_emit; [apply sends_indication; [|done]|].
  - pose proof (known_range _ _ _ (wf_agreed _ _ _ _ _ H ltac:(by destruct (state_ s))) Hk). by apply u16_channel; lia.
  - intros out. split; [done|by apply ab_output].
Qed.

(** ** Runs *)

Inductive Op :=
  | Receive (bytes : list byte)
  | Tick (now : Z)
  | SendBitmapUpdate (data : list byte)
  | SendPointer (update : Pointer.Update)
  | SendSaveSessionInfo (info : SessionInfo.LogonInfoExtended)
  | Reactivate (width height : Z)
  | Disconnect (error_info : Z)
  | SendChannelData (channel_id : Z) (chunk : list byte).

Definition call (o : Op) : M t unit :=
  match o with
  | Receive bytes => receive bytes
  | Tick now => tick now
  | SendBitmapUpdate data => send_bitmap_update data
  | SendPointer update => send_pointer update
  | SendSaveSessionInfo info => send_save_session_info info
  | Reactivate width height => reactivate width height
  | Disconnect error_info => disconnect error_info
  | SendChannelData channel_id chunk => send_channel_data channel_id chunk
  end.

(** What the header asks of a caller: updates no larger than [max_update_size],
    pointers and session information the encoders take, channel data on a channel
    of the session from the capability exchange on.  Nothing is asked of the
    client: any bytes may come, in segments of any size. *)
Definition call_ok (s : t) (o : Op) : Prop :=
  match o with
  | Receive _ | Tick _ | Reactivate _ _ => True
  | SendBitmapUpdate data => len data <= max_update_size (session_ s)
  | SendPointer update => pointer_fits (session_ s) update = true
  | SendSaveSessionInfo info => SessionInfo.info_ok info = true
  | Disconnect error_info => u32_ok error_info = true
  | SendChannelData id chunk =>
      state_ s <> closed -> sharing (state_ s) = true /\ known_channel (session_ s) id = true /\ len chunk <= Per.max_length
  end.

(** What a call does: it advances the connection, or it is a segment that overruns. *)
Definition moves (o : Op) (s s' : t) : Prop :=
  advances s s' \/ exists bytes, o = Receive bytes /\ overruns bytes s s'.

Lemma call_safe o s : wf s -> buffer_ok s -> call_ok s o ->
  wp (call o) s (fun r s' => r = Ok tt /\ wf s' /\ buffer_ok s' /\ moves o s s').
Proof.
  intros H Hb Ho.
  assert (forall m, command m s -> wp m s (fun r s' => r = Ok tt /\ wf s' /\ buffer_ok s' /\ moves o s s')) as Hc.
  { intros m Hm. eapply wp_mono; [exact Hm|]. intros r s' (-> & A & I). split_and!; [done|exact (ad_wf _ _ A)| |by left].
    intros Hs. rewrite I. apply Hb. intros E. apply Hs. pose proof (ad_events _ _ A) as (new & _ & Ha).
    unfold phase, phase_of in Ha. rewrite E in Ha. destruct new as [|e new]; [|done]. cbn in Ha.
    by destruct (state_ s'), (reactivating_ s'). }
  destruct o as [bytes| | | | | | |]; cbn [call call_ok] in *; [|apply Hc..].
  - eapply wp_mono; [by apply receive_safe|]. intros r s' (-> & W & B & [A|O]); split_and!; try done; [by left|].
    right. eauto.
  - by apply tick_safe.
  - by apply send_bitmap_update_safe.
  - by apply send_pointer_safe.
  - by apply send_save_session_info_safe.
  - by apply reactivate_safe.
  - by apply disconnect_safe.
  - by apply send_channel_data_safe.
Qed.

(** [take_output] leaves everything but the output, the times and auto-detection. *)
Record drained (s s' : t) : Prop := mkDrained {
  dr_wf : wf s';
  dr_state : state_ s' = state_ s;
  dr_session : session_ s' = session_ s;
  dr_config : config_ s' = config_ s;
  dr_input : input_ s' = input_ s;
  dr_events : events_ s' = events_ s;
  dr_reactivating : reactivating_ s' = reactivating_ s;
  dr_output : output_ s' = []
}.

(** The measurement goes around the bytes, which leave unchanged. *)
Lemma take_output_safe s : wf s ->
  wp take_output s (fun r s' => drained s s' /\ exists pre post, r = Ok (pre ++ output_ s ++ post)).
Proof.
  intros H. unfold take_output. run_steps.
  assert (drained s (with_output [] s)) as Hd by (by split).
  case_bool_decide as Ee; run_steps.
  { split; [done|]. exists [], []. by rewrite app_nil_r. }
  cbn [state_ with_times with_output session_ config_ autodetect_ now_ last_output_ output_].
  case_bool_decide as Es; cbn [negb orb]; run_steps.
  2: { split; [by split|]. exists [], []. by rewrite app_nil_r. }
  destruct (autodetect (session_ s)) eqn:Ea; cbn [negb orb]; run_steps.
  2: { split; [by split|]. exists [], []. by rewrite app_nil_r. }
  destruct (_ || _); run_steps.
  { split; [by split|]. exists [], []. by rewrite app_nil_r. }
  cbn [autodetect_ now_ with_times with_output].
  pose proof (link_measure (autodetect_ s) (now_ s) (wf_link _ _ _ _ _ H)) as Hl.
  destruct (AutoDetect.start_bandwidth_measurement _ _) as [start a]. destruct Hl as (La & Hs1 & Hs2). run_steps.
  destruct (message_id s H ltac:(by rewrite Es) ltac:(by rewrite Ea)) as (id & Em & Hid).
  destruct (sends_autodetect _ _ id Em Hid Hs1) as [e1 W1]. destruct (sends_autodetect _ _ id Em Hid Hs2) as [e2 W2].
  apply (wp_local _ (e1 ++ output_ s ++ e2)).
  { unfold framed. apply writes_seq; [done|]. apply writes_seq; [apply writes_bytes|done]. }
  split; [|by exists e1, e2]. split; try done. unfold wf. cbn. by eapply core_link.
Qed.

Lemma next_ended p e q : next p e = Some q -> q = ended <-> exists r b, e = Closed r b.
Proof. destruct p, e; cbn; try destruct reactivation; intros [= <-]; split; try done; try eauto; by intros (? & ? & ?). Qed.

Lemma accepts_snoc p es e q : accepts p (es ++ [e]) = Some q -> exists p', accepts p es = Some p' /\ next p' e = Some q.
Proof.
  rewrite accepts_app. destruct (accepts p es) as [p'|]; [|done]. cbn. destruct (next p' e) as [q'|] eqn:E; [|done].
  intros [= <-]. eauto.
Qed.

(** The automaton ends with the event [Closed] and nothing else. *)
Lemma accepts_last es q : accepts opening es = Some q -> q = ended <-> exists r b, last es = Some (Closed r b).
Proof.
  destruct es as [|e es _] using rev_ind; [intros [= <-]; split; [done|by intros (? & ? & ?)]|].
  intros (p & _ & E)%accepts_snoc. rewrite last_snoc. etrans; [by eapply next_ended|].
  split; intros (r & b & H); exists r, b; congruence.
Qed.

Lemma accepts_ended es q : accepts ended es = Some q -> es = [].
Proof. by destruct es. Qed.

Lemma accepts_closed p before r b after q : accepts p (before ++ Closed r b :: after) = Some q -> after = [].
Proof.
  rewrite accepts_app. destruct (accepts p before) as [p'|]; [|done]. cbn [accepts].
  destruct (next p' (Closed r b)) as [q'|] eqn:E; [|done].
  assert (q' = ended) as -> by (by eapply next_ended; eauto). apply accepts_ended.
Qed.

Lemma ids_nodup n : forall first, NoDup (ids n first).
Proof.
  induction n as [|n IH]; intros first; cbn [ids]; [constructor|]. constructor; [|apply IH].
  intros Hin%ids_range. lia.
Qed.

Lemma ids_snoc n : forall first, ids (S n) first = ids n first ++ [first + Z.of_nat n].
Proof.
  induction n as [|n IH]; intros first; [cbn; f_equal; lia|].
  change (ids (S (S n)) first) with (first :: ids (S n) (first + 1)). rewrite IH. cbn [ids app]. do 3 f_equal. lia.
Qed.

(** The ids in the order of their assignment are consecutive. *)
Lemma agreed_consecutive c x : agreed c x -> exists m,
  Mcs.io_channel_id :: (snd <$> static_channels x) ++ option_list (message_channel_id x) ++ [user_channel_id x]
  = ids m Mcs.io_channel_id.
Proof.
  intros [_ Hi Hm Hu _ _]. rewrite Hi, Hu. set (n := length (static_channels x)).
  assert (len (static_channels x) = Z.of_nat n) as El by done. rewrite El in *. destruct Hm as [->| ->]; cbn [option_list app].
  - exists (S (S n)). change (ids (S (S n)) Mcs.io_channel_id) with (Mcs.io_channel_id :: ids (S n) first_channel).
    rewrite ids_snoc. by rewrite Z.add_0_r.
  - exists (S (S (S n))). change (ids (S (S (S n))) Mcs.io_channel_id) with (Mcs.io_channel_id :: ids (S (S n)) first_channel).
    rewrite ids_snoc, ids_snoc, <- app_assoc. cbn [app].
    by replace (first_channel + Z.of_nat (S n)) with (first_channel + Z.of_nat n + 1) by lia.
Qed.

Lemma agreed_nodup c x : agreed c x ->
  NoDup (Mcs.io_channel_id :: (snd <$> static_channels x) ++ option_list (message_channel_id x) ++ [user_channel_id x]).
Proof. intros (m & ->)%agreed_consecutive. apply ids_nodup. Qed.

(** What a call leaves. *)
Definition after (o : Op) (s : t) : t := match call o s with Some (_, s') => s' | None => s end.

Section Reached.
Context (config : ServerConfig) (n : PreAuth.Negotiation).

(** The states a connection can be in under calls of a kind, with the events its
    caller has polled. *)
Inductive reaches (fits : Op -> Prop) : list Event -> t -> Prop :=
  | reached_make : reaches fits [] (make config n)
  | reached_call es s o s' : reaches fits es s -> fits o -> call_ok s o -> call o s = Some (Ok tt, s') -> reaches fits es s'
  | reached_output es s bytes s' : reaches fits es s -> take_output s = Some (Ok bytes, s') -> reaches fits es s'
  | reached_poll es s e s' : reaches fits es s -> poll_event s = Some (Ok (Some e), s') -> reaches fits (es ++ [e]) s'.

(** Under any calls. *)
Definition reached : list Event -> t -> Prop := reaches (fun _ => True).

Hypothesis config_fits : config_ok config = true.
Hypothesis negotiation_fits : u32_ok (PreAuth.requested_protocols n) = true.

#[local] Lemma wf_make : wf (make config n).
Proof.
  unfold wf, make. by split.
Qed.

(** The event behind the last one. *)
Definition overrun (fits : Op -> Prop) (s : t) (late : list Event) : Prop :=
  late = [Closed "too much unframed input" true] /\ state_ s = closed /\
  exists bytes, fits (Receive bytes) /\ max_segment < len bytes.

(** The events of [es], and what came behind them. *)
Definition ordered (fits : Op -> Prop) (es : list Event) (s : t) : Prop :=
  exists seen late, es = seen ++ late /\ accepts opening seen = Some (phase s) /\ (late = [] \/ overrun fits s late).

Lemma phase_closed s : phase s = ended <-> state_ s = closed.
Proof. unfold phase, phase_of. destruct (state_ s), (reactivating_ s); split; congruence. Qed.

Lemma ordered_moves fits o es s s' : fits o -> moves o s s' -> ordered fits (es ++ events_ s) s ->
  ordered fits (es ++ events_ s') s'.
Proof.
  intros Hf Hs (seen & late & E & A & L).
  assert (forall s2, advances s s2 -> exists new, es ++ events_ s2 = seen ++ late ++ new /\
    accepts (phase s) new = Some (phase s2) /\ (late = [] \/ overrun fits s late /\ new = [] /\ state_ s2 = closed)) as Ha.
  { intros s2 [_ _ _ (new & En & An)]. exists new. rewrite En, app_assoc, E, <- app_assoc. split_and!; [done..|].
    destruct L as [->|L]; [by left|]. right. pose proof (proj2 (phase_closed s) (proj1 (proj2 L))) as Hp. rewrite Hp in An.
    pose proof (accepts_ended _ _ An) as ->. injection An as An. split_and!; [done..|]. by apply phase_closed. }
  destruct Hs as [Hs|(bytes & -> & Ho & Hl & s2 & A2 & C2 & ->)].
  - destruct (Ha s' Hs) as (new & En & An & [->|(L2 & -> & C)]).
    + exists (seen ++ new), []. rewrite app_nil_r. split_and!; [done|by rewrite accepts_app, A|by left].
    + exists seen, late. rewrite app_nil_r in En. destruct L2 as (? & Cs & ?).
      split_and!; [done| |by right]. by rewrite A, (proj2 (phase_closed s) Cs), (proj2 (phase_closed s') C).
  - destruct (Ha s2 A2) as (new & En & An & [->|(L2 & _)]); [|by destruct L2 as (_ & ? & _)].
    exists (seen ++ new), [Closed "too much unframed input" true]. split_and!.
    + cbn [events_ failed with_events]. by rewrite app_assoc, En.
    + rewrite accepts_app, A, An. by rewrite (proj2 (phase_closed s2) C2).
    + right. split_and!; [done..|by exists bytes].
Qed.

Lemma reached_inv fits es s : reaches fits es s ->
  wf s /\ buffer_ok s /\ config_ s = config /\ ordered fits (es ++ events_ s) s.
Proof.
  induction 1 as [|es s o s' _ (W & B & C & A) Hf Ho E|es s bytes s' _ (W & B & C & A) E|es s e s' _ (W & B & C & A) E].
  - split_and!; [apply wf_make|done|done|]. exists [], []. split_and!; [done..|by left].
  - destruct (wp_run _ _ _ _ _ (call_safe o s W B Ho) E) as (_ & W' & B' & S').
    split_and!; [done|done| |by eapply ordered_moves].
    destruct S' as [A'|(bytes & _ & _ & _ & s2 & A' & _ & ->)]; pose proof (ad_config _ _ A'); [congruence|].
    cbn. congruence.
  - destruct (wp_run _ _ _ _ _ (take_output_safe s W) E) as ([W' S' X' C' I' E' R' _] & _).
    split_and!; [done| |congruence|].
    + unfold buffer_ok. by rewrite S', I'.
    + unfold ordered, overrun, phase. by rewrite E', S', R'.
  - unfold poll_event in E. destruct (events_ s) as [|e' es'] eqn:Ev; [done|]. injection E as <- <-.
    split_and!; [exact W|exact B|done|]. cbn [events_ with_events]. by rewrite <- app_assoc.
Qed.

Lemma reached_after (fits : Op -> Prop) es s o : reaches fits es s -> fits o -> call_ok s o -> reaches fits es (after o s).
Proof.
  intros R Hf Ho. pose proof (reached_inv fits es s R) as (W & B & _). destruct (call_safe o s W B Ho) as (r & s' & E & -> & _).
  eapply reached_call; [exact R|exact Hf|exact Ho|]. unfold after. by rewrite E.
Qed.

(** C1: the connection never aborts.  In every state that any client and any
    caller within the contract can bring it into, every call within the contract
    returns without tripping an assertion, whatever bytes arrive, in segments of
    whatever size, and whatever the clock says: also the PDUs the server answers
    with always fit, the requests of auto-detection are encodable, and the message
    channel exists whenever something is sent on it.  As long as the connection is
    open fewer than 65536 octets are buffered between calls; what a closed
    connection still holds is not bounded. *)
Theorem connection_never_aborts es s o : reached es s ->
  (call_ok s o -> exists s', call o s = Some (Ok tt, s')) /\
  (exists bytes s', take_output s = Some (Ok bytes, s') /\ exists pre post, bytes = pre ++ output_ s ++ post) /\
  (state_ s <> closed -> len (input_ s) < 65536).
Proof.
  intros (W & B & _ & _)%reached_inv. split_and!; [| |done].
  - intros Ho. destruct (call_safe o s W B Ho) as (r & s' & E & -> & _). by exists s'.
  - destruct (take_output_safe s W) as (r & s' & E & _ & pre & post & ->). eauto 6.
Qed.

(** C3: a caller sees the events in the order of the protocol, an automaton that
    the states of the connection refine: before the Client Info at most channel
    data, one Client Info, one first [Activated] that is no reactivation and then
    only reactivations, and [Closed] as the last of them, exactly when the
    connection is closed.  So a caller that waits for [Activated] has had the
    credentials.  At most one event comes behind that [Closed]: a second one, of
    the limit on unframed input, and only where a segment of more than
    [max_segment] octets was delivered
    ([ConnectionStream.oversized_segment_closes_twice] is such a run); with
    smaller segments [Closed] comes once.  ([fits] is any property of the calls
    that were made, such as [segment_small] below.) *)
Theorem connection_events_in_order fits es s : reaches fits es s ->
  exists seen late, es ++ events_ s = seen ++ late /\
    accepts opening seen = Some (phase s) /\
    (phase s = ended <-> state_ s = closed) /\
    (state_ s = closed <-> exists r b, last seen = Some (Closed r b)) /\
    (forall before r b after, seen = before ++ Closed r b :: after -> after = []) /\
    (late = [] \/ late = [Closed "too much unframed input" true] /\ state_ s = closed /\
       exists bytes, fits (Receive bytes) /\ max_segment < len bytes).
Proof.
  intros (_ & _ & _ & seen & late & E & A & L)%reached_inv. exists seen, late.
  split_and!; [done|done|apply phase_closed| | |done].
  - rewrite <- phase_closed. by apply accepts_last.
  - intros before r b after ->. by eapply accepts_closed.
Qed.

(** C4: what a connection has agreed on holds as long as it is open: channel ids
    are assigned without gap or overlap, 1003 to the I/O channel, then the static
    channels in the order of the request, the message channel and the user; the
    desktop is within the configured range and the depth 16, 24 or 32; while a
    share exists its id ends in the user id; and auto-detection and heartbeats run
    only where the message channel exists. *)
Theorem connection_session_agreed es s : reached es s -> settled (state_ s) = true ->
  let x := session_ s in
  agreed config x /\
  NoDup (Mcs.io_channel_id :: (snd <$> static_channels x) ++ option_list (message_channel_id x) ++ [user_channel_id x]) /\
  (sharing (state_ s) = true -> share_id x mod 65536 = user_channel_id x) /\
  (autodetect x || heartbeat x = true -> exists id, message_channel_id x = Some id) /\
  (state_ s = connect_time_autodetect -> autodetect x = true) /\ (state_ s = active -> reactivating_ s = false).
Proof.
  intros (W & _ & C & _)%reached_inv Hs. cbv zeta.
  pose proof (wf_agreed _ _ _ _ _ W Hs) as A. split_and!.
  - by rewrite <- C.
  - by eapply agreed_nodup.
  - by apply (wf_share _ _ _ _ _ W).
  - intros Hd. by apply (wf_detect _ _ _ _ _ W).
  - intros E. by apply (wf_probe _ _ _ _ _ W).
  - by apply (wf_active _ _ _ _ _ W).
Qed.
End Reached.

(** ** A connection that has answered the Connect Initial *)

Definition sample_config : ServerConfig := mkConfig 64 8192 32 None None off AutoDetect.default_config 5.
Definition sample_negotiation : PreAuth.Negotiation := PreAuth.mkNegotiation [] 3 2 None.
Definition sample_initial : list byte :=
  default [] (Writer.run (
    let! blocks := elocal (Gcc.encode_client_data Gcc.sample_client) in
    let! conference := elocal (Gcc.encode_conference_create_request blocks) in
    let! start := X224.begin_data_tpdu in
    Mcs.encode_connect_initial
      (Mcs.mkInitial [byte_of 1] [byte_of 1] true Mcs.sample_domain Mcs.sample_minimum Mcs.sample_maximum conference) ;;;
    X224.end_tpkt start)).
Definition sample_state : t := after (Receive sample_initial) (make sample_config sample_negotiation).

(** Calls with segments below the limit. *)
Definition segment_small (o : Op) : Prop :=
  match o with Receive bytes => len bytes <= max_segment | _ => True end.

Lemma sample_small : reaches sample_config sample_negotiation segment_small [] sample_state.
Proof. apply reached_after; [done..|apply reached_make| |exact I]. by apply Z.leb_le. Qed.

Lemma sample_reached : reached sample_config sample_negotiation [] sample_state.
Proof. apply reached_after; [done..|apply reached_make|exact I|exact I]. Qed.

Lemma sample_settled : state_ sample_state = wait_erect_domain.
Proof. vm_compute. reflexivity. Qed.

Lemma connection_never_aborts_witness :
  exists s', call (Disconnect Share.logoff_by_user) sample_state = Some (Ok tt, s').
Proof.
  apply (connection_never_aborts sample_config sample_negotiation eq_refl eq_refl [] sample_state
    (Disconnect Share.logoff_by_user) sample_reached). reflexivity.
Defined.

Lemma connection_events_in_order_witness :
  accepts opening (events_ sample_state) = Some (phase sample_state) /\ state_ sample_state <> closed.
Proof.
  split; [|rewrite sample_settled; discriminate].
  destruct (connection_events_in_order sample_config sample_negotiation eq_refl eq_refl segment_small [] sample_state sample_small)
    as (seen & late & E & A & _ & _ & _ & [->|(_ & _ & bytes & Hs & Hl)]).
  - rewrite (app_nil_r seen) in E. change (events_ sample_state = seen) in E. rewrite E. exact A.
  - apply Z.lt_nge in Hl. destruct (Hl Hs).
Defined.

Lemma connection_session_agreed_witness :
  agreed sample_config (session_ sample_state) /\ user_channel_id (session_ sample_state) = 1006.
Proof.
  split; [|vm_compute; reflexivity].
  refine (proj1 (connection_session_agreed sample_config sample_negotiation eq_refl eq_refl [] sample_state sample_reached _)).
  rewrite sample_settled. reflexivity.
Defined.

End ConnectionSafety.
