(* ===== verification/ConnectionStream.v ===== *)
(** * The connection and the stream of bytes

    [receive] of [Connection] as a function of the stream: it does not matter
    how the bytes are cut into segments, a PDU that is refused closes the
    connection and changes nothing else, and what an oversized segment does. *)

From S2P Require Import Prelude Buffers CodecLogic Framing X224 Mcs Fastpath Fields SessionInfo.
From S2P Require Import Input Capabilities Share Gcc ClientInfo Pointer PreAuth AutodetectCodec AutoDetect Machine.
From S2P Require Import Connection ConnectionSafety.
Open Scope Z_scope.

Module ConnectionStream.
Import Connection ConnectionSafety.

(** ** Handlers do not look at the buffer

    [blind m]: what [m] does is independent of [input_], which it leaves alone. *)
Definition blind {A} (m : M t A) : Prop := forall s i,
  m (with_input i s) = match m s with Some (r, s') => Some (r, with_input i s') | None => None end.

Lemma blind_ret {A} (a : A) : blind (mret a).
Proof. by intros s i. Qed.
Lemma blind_fail {A} c w o : blind (mfail (A := A) c w o).
Proof. by intros s i. Qed.
Lemma blind_lift {A} (r : Result A) : blind (mlift r).
Proof. by intros s i. Qed.
Lemma blind_read {A} (p : Dec A) r : blind (mread p r).
Proof. by intros s i. Qed.
Lemma blind_local m : blind (mlocal m).
Proof. intros s i. unfold mlocal. by destruct (Writer.run m). Qed.
Lemma blind_emit m : blind (emit m).
Proof. intros s i. unfold emit. cbn. by destruct (m (output_ s)) as [[]|]. Qed.
Lemma blind_get {A} (f : t -> A) : (forall s i, f (with_input i s) = f s) -> blind (mget f).
Proof. intros H s i. unfold mget. by rewrite H. Qed.
Lemma blind_mod f : (forall s i, f (with_input i s) = with_input i (f s)) -> blind (mmod f).
Proof. intros H s i. unfold mmod. by rewrite H. Qed.
Lemma blind_none {A} : blind (A := A) (fun _ => None).
Proof. by intros s i. Qed.
Lemma blind_bind {A B} (m : M t A) (f : A -> M t B) : blind m -> (forall a, blind (f a)) -> blind (mbind m f).
Proof.
  intros Hm Hf s i. unfold mbind. rewrite Hm. destruct (m s) as [[[a|e] s']|]; [apply Hf|done|done].
Qed.

Create HintDb blind.
#[local] Hint Resolve blind_ret blind_fail blind_lift blind_read blind_local blind_emit blind_none : blind.

Ltac blinds :=
  repeat first
    [ progress auto with blind nocore
    | apply blind_bind; [|intros ?]
    | apply blind_get; done
    | apply blind_mod; done
    | match goal with |- blind (match ?x with _ => _ end) => destruct x end
    | match goal with |- blind (if ?x then _ else _) => destruct x end
    | match goal with |- blind (let '(_, _) := ?x in _) => destruct x end ].

Lemma blind_data_pdu pdu : blind (send_data_pdu pdu).
Proof. unfold send_data_pdu, session, send_io. blinds. Qed.
Lemma blind_close r : blind (close r).
Proof. unfold close, put_state, emplace_event. blinds. Qed.
Lemma blind_fail_ r : blind (fail_ r).
Proof. unfold fail_, put_state, emplace_event. blinds. Qed.
Lemma blind_activate : blind activate.
Proof. unfold activate, put_state, emplace_event. blinds. Qed.
Lemma blind_licensing : blind start_licensing.
Proof. unfold start_licensing, send_demand_active, put_session, put_state, session, send_io. blinds. Qed.
Lemma blind_finish : blind finish_connect_time_autodetect.
Proof. unfold finish_connect_time_autodetect, session. pose proof blind_licensing. blinds. Qed.
#[local] Hint Resolve blind_data_pdu blind_close blind_fail_ blind_activate blind_licensing blind_finish : blind.

Lemma blind_connect_initial data : blind (on_connect_initial data).
Proof. unfold on_connect_initial, put_session, put_state, session. blinds. Qed.
Lemma blind_channel_join i c : blind (on_channel_join i c).
Proof. unfold on_channel_join, session. blinds. Qed.
Lemma blind_client_info data : blind (on_client_info data).
Proof. unfold on_client_info, put_session, put_state, session, emplace_event. blinds. Qed.
Lemma blind_message_channel data : blind (on_message_channel data).
Proof. unfold on_message_channel. blinds. Qed.
Lemma blind_confirm_active body : blind (on_confirm_active body).
Proof. unfold on_confirm_active, put_session, put_state, session. blinds. Qed.
Lemma blind_on_data_pdu body : blind (on_data_pdu body).
Proof. unfold on_data_pdu, session, in_state, emplace_event. blinds. Qed.
#[local] Hint Resolve blind_connect_initial blind_channel_join blind_client_info blind_message_channel
  blind_confirm_active blind_on_data_pdu : blind.

Lemma blind_io data : blind (on_io_data data).
Proof. unfold on_io_data, in_state. blinds. Qed.
Lemma blind_fastpath pdu : blind (on_fastpath_input pdu).
Proof. unfold on_fastpath_input, state, emplace_event. blinds. Qed.
#[local] Hint Resolve blind_io blind_fastpath : blind.
Lemma blind_channel_pdu start pdu : blind (on_channel_pdu start pdu).
Proof. unfold on_channel_pdu, state, session, emplace_event. blinds. Qed.
#[local] Hint Resolve blind_channel_pdu : blind.
Lemma blind_domain data : blind (on_domain_pdu data).
Proof. unfold on_domain_pdu, state, session, put_state. blinds. Qed.
#[local] Hint Resolve blind_domain : blind.
Lemma blind_handle kind pdu : blind (handle_pdu kind pdu).
Proof. unfold handle_pdu, in_state. blinds. Qed.

Lemma handle_input kind pdu s r s' : handle_pdu kind pdu s = Some (r, s') -> input_ s' = input_ s.
Proof.
  intros E. pose proof (blind_handle kind pdu s (input_ s)) as H.
  assert (with_input (input_ s) s = s) as Es by (by destruct s). rewrite Es, E in H. injection H as H. by rewrite H at 1.
Qed.

(** ** One frame at a time

    [unframed s]: the connection is closed or what it buffers is no whole frame. *)
Definition unframed (s : t) : Prop :=
  state_ s = closed \/
  match Framing.peek_frame (input_ s) with
  | Ok None => True
  | Ok (Some f) => len (input_ s) < Framing.length f
  | Err _ => False
  end.

(** One step of the loop: a frame taken off and handled ([None]), or the end of
    the loop and whether it returns from the function. *)
Definition loop_step (s : t) : option (option bool * t) :=
  if bool_decide (state_ s = closed) then Some (Some false, s)
  else
    match Framing.peek_frame (input_ s) with
    | Err e => Some (Some true, failed (message e) s)
    | Ok None => Some (Some false, s)
    | Ok (Some frame) =>
        if len (input_ s) <? Framing.length frame then Some (Some false, s)
        else
          let n := Z.to_nat (Framing.length frame) in
          match handle_pdu (Framing.kind frame) (take n (input_ s)) (with_input (drop n (input_ s)) s) with
          | None => None
          | Some (Err e, s') => Some (Some true, failed (message e) s')
          | Some (Ok _, s') => Some (None, s')
          end
    end.

Lemma loop_unfold fuel s :
  receive_loop (S fuel) s =
  match loop_step s with
  | Some (Some returned, s') => Some (Ok returned, s')
  | Some (None, s') => receive_loop fuel s'
  | None => None
  end.
Proof.
  cbn [receive_loop]. unfold loop_step, mbind, in_state, mget, mret, mmod, mcatch, fail_, put_state, emplace_event.
  case_bool_decide; [done|]. destruct (Framing.peek_frame (input_ s)) as [[frame|]|e]; [|done..].
  destruct (_ <? _); [done|].
  by destruct (handle_pdu _ _ _) as [[[[]|e] s']|].
Qed.

(** A step takes a frame off the buffer or ends the loop. *)
Lemma loop_step_shrinks s s' : loop_step s = Some (None, s') -> (length (input_ s') < length (input_ s))%nat.
Proof.
  unfold loop_step. case_bool_decide; [done|].
  destruct (Framing.peek_frame (input_ s)) as [[frame|]|e] eqn:Ep; [|done..].
  destruct (Z.ltb_spec (len (input_ s)) (Framing.length frame)); [done|].
  destruct (handle_pdu _ _ _) as [[[[]|e] s1]|] eqn:Eh; [|done..]. intros [= <-].
  apply handle_input in Eh as ->. cbn [input_ with_input]. apply Framing.peek_frame_size in Ep.
  rewrite length_drop. unfold len in *. lia.
Qed.

(** Fuel beyond the length of the buffer changes nothing. *)
Lemma loop_fuel f1 : forall f2 s, (length (input_ s) < f1)%nat -> (length (input_ s) < f2)%nat ->
  receive_loop f1 s = receive_loop f2 s.
Proof.
  induction f1 as [|f1 IH]; intros [|f2] s H1 H2; [lia..|]. rewrite !loop_unfold.
  destruct (loop_step s) as [[[returned|] s']|] eqn:E; [done| |done].
  apply loop_step_shrinks in E. apply IH; lia.
Qed.

(** The loop as [receive] runs it. *)
Definition drain (s : t) : option (Result bool * t) := receive_loop (S (length (input_ s))) s.

Lemma drain_unfold s :
  drain s = match loop_step s with
            | Some (Some returned, s') => Some (Ok returned, s')
            | Some (None, s') => drain s'
            | None => None
            end.
Proof.
  unfold drain at 1. rewrite loop_unfold. destruct (loop_step s) as [[[returned|] s']|] eqn:E; [done| |done].
  apply loop_step_shrinks in E. apply loop_fuel; lia.
Qed.

(** Bytes behind the buffer do not change a step that closes or handles. *)
Lemma loop_step_more s more :
  match loop_step s with
  | Some (Some false, s') => s' = s /\ unframed s
  | Some (r, s') => loop_step (with_input (input_ s ++ more) s) = Some (r, with_input (input_ s' ++ more) s')
  | None => True
  end.
Proof.
  unfold loop_step, unframed. cbn [state_ with_input input_]. case_bool_decide as Hc; [by split; [|left]|].
  destruct (Framing.peek_frame (input_ s)) as [[frame|]|e] eqn:Ep.
  - pose proof (Framing.peek_frame_size _ _ Ep) as Hn. rewrite (Framing.peek_frame_app _ more _ Ep) by done.
    destruct (Z.ltb_spec (len (input_ s)) (Framing.length frame)) as [Hl|Hl]; [by split; [|right]|].
    pose proof (len_nonneg more). rewrite len_app. rewrite (proj2 (Z.ltb_ge _ _)) by lia.
    assert ((Z.to_nat (Framing.length frame) <= length (input_ s))%nat) as Hle by (unfold len in *; lia).
    rewrite take_app_le, drop_app_le by done. set (n := Z.to_nat (Framing.length frame)) in *.
    set (s1 := with_input (drop n (input_ s)) s).
    change (with_input (drop n (input_ s) ++ more) (with_input (input_ s ++ more) s))
      with (with_input (drop n (input_ s) ++ more) s1).
    rewrite (blind_handle _ _ s1 (drop n (input_ s) ++ more)).
    destruct (handle_pdu _ _ s1) as [[[[]|e] s2]|] eqn:Eh; [| |done]; apply handle_input in Eh; cbn in Eh |- *;
      by rewrite Eh.
  - by split; [|right].
  - by rewrite (Framing.peek_frame_app _ more _ Ep).
Qed.

(** What was handled before [more] arrived stays handled. *)
Lemma drain_more n : forall s more, (length (input_ s) < n)%nat ->
  match drain s with
  | Some (Ok false, s') =>
      unframed s' /\ drain (with_input (input_ s ++ more) s) = drain (with_input (input_ s' ++ more) s')
  | Some (r, s') => drain (with_input (input_ s ++ more) s) = Some (r, with_input (input_ s' ++ more) s')
  | None => True
  end.
Proof.
  induction n as [|n IH]; intros s more Hn; [lia|]. rewrite (drain_unfold s).
  pose proof (loop_step_more s more) as H.
  destruct (loop_step s) as [[[[]|] s']|] eqn:E; [| | |done].
  - by rewrite drain_unfold, H.
  - by destruct H as [-> Hu].
  - apply loop_step_shrinks in E. specialize (IH s' more ltac:(lia)).
    rewrite (drain_unfold (with_input (input_ s ++ more) s)), H. exact IH.
Qed.

(** ** Segments *)

(** [receive] is the loop on the extended buffer and then the limit, which
    strikes only a connection that the loop has closed. *)
Definition limited (returned : bool) (s : t) : t :=
  if negb returned && (max_buffered_input <? len (input_ s)) then failed "too much unframed input" s else s.

Lemma receive_drains bytes s : wf s -> buffer_ok s -> state_ s <> closed ->
  exists returned d s', drain (with_input (input_ s ++ bytes) s) = Some (Ok returned, d) /\
    receive bytes s = Some (Ok tt, s') /\ s' = limited returned d /\ advances s d /\ wf s' /\ buffer_ok s' /\
    (returned = true -> state_ d = closed) /\
    (s' = d \/ state_ d = closed /\ max_segment < len bytes /\ s' = failed "too much unframed input" d).
Proof.
  intros H Hb Hc. specialize (Hb Hc). pose proof (advances_input s (input_ s ++ bytes) H) as Ha.
  unfold receive, mbind at 1, in_state, mget. rewrite bool_decide_false by done. unfold mbind at 1, mmod.
  set (s1 := with_input _ s) in *.
  assert (len (input_ s1) < 65536 + len bytes) as Hl1 by (subst s1; cbn [input_ with_input]; len_lia).
  destruct (receive_loop_safe (S (length (input_ s1))) s1 (ad_wf _ _ Ha) ltac:(lia))
    as (r & d & E & A & L & returned & -> & Ht & Hf).
  pose proof (advances_trans _ _ _ Ha A) as A2. pose proof (ad_wf _ _ A2) as W.
  exists returned, d. unfold mbind, limited. rewrite E. destruct returned.
  { exists d. split_and!; try done; [|by left]. intros Hn. by destruct (Hn (Ht eq_refl)). }
  destruct (max_buffered_input <? len (input_ d)) eqn:Ex.
  - apply Z.ltb_lt in Ex. unfold max_buffered_input in Ex. change (Z.shiftl 1 20) with 1048576 in Ex.
    destruct (Hf eq_refl) as [Hcl|?]; [|lia]. exists (failed "too much unframed input" d).
    split_and!; try done; [by apply wf_failed|intros Hn; by destruct Hn|]. right. split_and!; [done| |done].
    unfold max_segment, max_buffered_input. change (Z.shiftl 1 20) with 1048576. lia.
  - exists d. split_and!; try done; [|by left]. intros Hn. by destruct (Hf eq_refl).
Qed.

(** The limit has no effect on a segment that cannot reach it. *)
Lemma receive_drain bytes s : wf s -> buffer_ok s -> state_ s <> closed -> len bytes <= max_segment ->
  exists returned s', drain (with_input (input_ s ++ bytes) s) = Some (Ok returned, s') /\
    receive bytes s = Some (Ok tt, s') /\ wf s' /\ buffer_ok s' /\ (returned = true -> state_ s' = closed).
Proof.
  intros H Hb Hc Hl. destruct (receive_drains bytes s H Hb Hc) as (r & d & s' & E & R & _ & _ & W & B & T & [->|(_ & ? & _)]);
    [|lia]. by exists r, d.
Qed.

(** Equal but for what a closed connection has left in its buffer. *)
Definition alike (s1 s2 : t) : Prop :=
  with_input [] s1 = with_input [] s2 /\ (state_ s1 <> closed -> input_ s1 = input_ s2).

Lemma alike_refl s : alike s s.
Proof. by split. Qed.

Lemma alike_trans s1 s2 s3 : alike s1 s2 -> alike s2 s3 -> alike s1 s3.
Proof.
  intros [E1 I1] [E2 I2]. split; [congruence|]. intros H. rewrite I1 by done. apply I2. intros H2. apply H.
  pose proof (f_equal state_ E1) as E. cbn in E. congruence.
Qed.

Lemma receive_closed bytes s : state_ s = closed -> receive bytes s = Some (Ok tt, s).
Proof. intros H. unfold receive, mbind, in_state, mget. by rewrite bool_decide_true. Qed.

Lemma receive_two a b s : wf s -> buffer_ok s -> len a + len b <= max_segment ->
  exists s1 sa s2, receive (a ++ b) s = Some (Ok tt, s1) /\ receive a s = Some (Ok tt, sa) /\
    receive b sa = Some (Ok tt, s2) /\ alike s1 s2 /\ wf sa /\ buffer_ok sa.
Proof.
  intros H Hb Hl. pose proof (len_nonneg a). pose proof (len_nonneg b).
  destruct (decide (state_ s = closed)) as [Hc|Hc].
  { exists s, s, s. rewrite !receive_closed by done. split_and!; [done..|apply alike_refl|done|done]. }
  destruct (receive_drain (a ++ b) s H Hb Hc ltac:(len_lia)) as (rab & s1 & Eab & R1 & _ & _ & _).
  destruct (receive_drain a s H Hb Hc ltac:(lia)) as (ra & sa & Ea & R2 & Wa & Ba & Ca).
  exists s1, sa. set (xa := with_input (input_ s ++ a) s) in *.
  assert (with_input (input_ s ++ a ++ b) s = with_input (input_ xa ++ b) xa) as Ex.
  { subst xa. cbn [input_ with_input]. by rewrite app_assoc. }
  pose proof (drain_more (S (length (input_ xa))) xa b ltac:(lia)) as Hm. rewrite Ea, <- Ex, Eab in Hm.
  destruct ra.
  - injection Hm as _ ->. exists sa. rewrite (receive_closed b sa) by auto.
    split_and!; try done. split; [done|]. intros Hn. by destruct (Hn (Ca eq_refl)).
  - destruct Hm as [_ Hm]. destruct (decide (state_ sa = closed)) as [Hca|Hca].
    + exists sa. rewrite (receive_closed b sa) by done.
      assert (drain (with_input (input_ sa ++ b) sa) = Some (Ok false, with_input (input_ sa ++ b) sa)) as Ed.
      { rewrite drain_unfold. unfold loop_step. by rewrite bool_decide_true. }
      rewrite Ed in Hm. injection Hm as _ ->. split_and!; try done.
    + destruct (receive_drain b sa Wa Ba Hca ltac:(lia)) as (rb & s2 & Eb & R3 & _). exists s2.
      rewrite Eb in Hm. injection Hm as -> ->. by split_and!.
Qed.

(** ** Segments of any size

    The events up to the first [Closed]. *)
Fixpoint until_closed (es : list Event) : list Event :=
  match es with
  | [] => []
  | Closed r b :: _ => [Closed r b]
  | e :: es' => e :: until_closed es'
  end.

Lemma until_closed_app before r b late :
  until_closed ((before ++ [Closed r b]) ++ late) = until_closed (before ++ [Closed r b]).
Proof. induction before as [|e before IH]; [done|]. cbn. destruct e; by rewrite ?IH. Qed.

(** The same connection; once it is closed, but for what it has left in its
    buffer and for events behind the first [Closed]. *)
Definition same (s1 s2 : t) : Prop :=
  with_input [] (with_events (until_closed (events_ s1)) s1) = with_input [] (with_events (until_closed (events_ s2)) s2) /\
  (state_ s1 <> closed -> s1 = s2).

Lemma same_connection_refl s : same s s.
Proof. by split. Qed.

Lemma same_connection_trans s1 s2 s3 : same s1 s2 -> same s2 s3 -> same s1 s3.
Proof. intros [E1 I1] [E2 I2]. split; [congruence|]. intros H. rewrite (I1 H) in H |- *. by apply I2. Qed.

(** [s'] is the closed connection [d] with another buffer and later events. *)
Definition later (d s' : t) : Prop := exists i late, s' = with_input i (with_events (events_ d ++ late) d).

Lemma later_same d s1 s2 before r b : state_ d = closed -> events_ d = before ++ [Closed r b] ->
  later d s1 -> later d s2 -> same s1 s2.
Proof.
  intros Hc He (i1 & l1 & ->) (i2 & l2 & ->). split; [|by intros Hn; destruct Hn].
  cbn. by rewrite He, !until_closed_app.
Qed.

Lemma later_input d i s' : state_ d = closed ->
  s' = with_input i d \/ s' = failed "too much unframed input" (with_input i d) -> later d s'.
Proof.
  intros Hc [->| ->].
  - exists i, []. rewrite app_nil_r. by destruct d.
  - eexists i, _. unfold failed. cbn. by destruct d; cbn in Hc; subst.
Qed.

Lemma advances_closes s d : advances s d -> state_ s <> closed -> state_ d = closed ->
  exists before r b, events_ d = before ++ [Closed r b].
Proof.
  intros [_ _ _ (new & E & A)] Hs Hd. rewrite (proj2 (phase_closed d) Hd) in A.
  destruct new as [|e new _] using rev_ind.
  - injection A as A. by apply phase_closed in A.
  - apply accepts_snoc in A as (p & _ & N). destruct (proj1 (next_ended _ _ _ N) eq_refl) as (r & b & ->).
    exists (events_ s ++ new), r, b. by rewrite E, app_assoc.
Qed.

Lemma drain_closed s : state_ s = closed -> drain s = Some (Ok false, s).
Proof. intros H. rewrite drain_unfold. unfold loop_step. by rewrite bool_decide_true. Qed.

(** Two segments or one. *)
Lemma receive_pair a b s : wf s -> buffer_ok s ->
  exists s1 sa s2, receive (a ++ b) s = Some (Ok tt, s1) /\ receive a s = Some (Ok tt, sa) /\
    receive b sa = Some (Ok tt, s2) /\ same s1 s2 /\ wf sa /\ buffer_ok sa.
Proof.
  intros H Hb. destruct (decide (state_ s = closed)) as [Hc|Hc].
  { exists s, s, s. rewrite !receive_closed by done. split_and!; [done..|apply same_connection_refl|done|done]. }
  destruct (receive_drains (a ++ b) s H Hb Hc) as (rab & dab & s1 & Eab & R1 & F1 & _ & _ & _ & _ & O1).
  destruct (receive_drains a s H Hb Hc) as (ra & d & sa & Ea & R2 & _ & A2 & Wa & Ba & Ca & O2).
  exists s1, sa. set (xa := with_input (input_ s ++ a) s) in *.
  assert (with_input (input_ s ++ a ++ b) s = with_input (input_ xa ++ b) xa) as Ex.
  { subst xa. cbn [input_ with_input]. by rewrite app_assoc. }
  pose proof (drain_more (S (length (input_ xa))) xa b ltac:(lia)) as Hm. rewrite Ea, <- Ex, Eab in Hm.
  destruct (decide (state_ d = closed)) as [Hd|Hd].
  - assert (dab = with_input (input_ d ++ b) d) as ->.
    { destruct ra; [by injection Hm|]. destruct Hm as [_ Hm]. rewrite drain_closed in Hm by done. by injection Hm. }
    assert (later d sa) as La.
    { apply (later_input d (input_ d)); [done|]. assert (with_input (input_ d) d = d) as -> by (by destruct d).
      destruct O2 as [->|(_ & _ & ->)]; auto. }
    assert (later d s1) as L1 by (apply (later_input d (input_ d ++ b)); [done|]; destruct O1 as [->|(_ & _ & ->)]; auto).
    destruct (advances_closes _ _ A2 Hc Hd) as (before & r & e & Ev). exists sa. rewrite (receive_closed b sa).
    + split_and!; try done. by eapply later_same.
    + by destruct La as (i & late & ->).
  - destruct O2 as [->|(? & _)]; [|done]. destruct ra; [by destruct (Hd (Ca eq_refl))|]. destruct Hm as [_ Hm].
    destruct (receive_drains b d Wa Ba Hd) as (rb & db & s2 & Eb & R3 & F2 & _). exists s2. rewrite Eb in Hm. injection Hm as -> ->.
    rewrite F1, F2 in *. by split_and!.
Qed.

Fixpoint receive_all (segments : list (list byte)) : M t unit :=
  match segments with
  | [] => mret tt
  | b :: segments' => let$ _ := receive b in receive_all segments'
  end.

Lemma receive_nil s : wf s -> buffer_ok s -> unframed s -> exists s', receive [] s = Some (Ok tt, s') /\ alike s' s.
Proof.
  intros H Hb Hu. destruct (decide (state_ s = closed)) as [Hc|Hc].
  { exists s. rewrite receive_closed by done. split; [done|apply alike_refl]. }
  destruct (receive_drain [] s H Hb Hc ltac:(done)) as (r & s' & E & R & _). exists s'. split; [done|].
  rewrite app_nil_r in E. assert (with_input (input_ s) s = s) as Es by (by destruct s). rewrite Es in E.
  rewrite drain_unfold in E. unfold loop_step in E. rewrite bool_decide_false in E by done.
  destruct Hu as [?|Hu]; [done|]. destruct (Framing.peek_frame (input_ s)) as [[f|]|e]; [| |done].
  - rewrite (proj2 (Z.ltb_lt _ _) Hu) in E. injection E as _ ->. apply alike_refl.
  - injection E as _ ->. apply alike_refl.
Qed.

Lemma receive_split segments : forall s, wf s -> buffer_ok s -> segments <> [] -> len (concat segments) <= max_segment ->
  exists s1 s2, receive (concat segments) s = Some (Ok tt, s1) /\ receive_all segments s = Some (Ok tt, s2) /\ alike s1 s2.
Proof.
  induction segments as [|a [|b segments] IH]; intros s H Hb Hne Hl; [done| |].
  - cbn [concat receive_all] in *. rewrite app_nil_r in *.
    destruct (receive_safe a s H Hb) as (r & s' & E & -> & _). exists s', s'. unfold mbind. rewrite E.
    split_and!; [done..|apply alike_refl].
  - change (concat (a :: b :: segments)) with (a ++ concat (b :: segments)) in *. rewrite len_app in Hl.
    destruct (receive_two a (concat (b :: segments)) s H Hb Hl) as (s1 & sa & s2 & E1 & Ea & E2 & A & Wa & Ba).
    pose proof (len_nonneg a).
    destruct (IH sa Wa Ba ltac:(done) ltac:(lia)) as (s3 & s4 & E3 & E4 & A2). rewrite E2 in E3. injection E3 as <-.
    exists s1, s4. split_and!; [done| |by eapply alike_trans].
    change (receive_all (a :: b :: segments)) with (let$ _ := receive a in receive_all (b :: segments)).
    unfold mbind. by rewrite Ea.
Qed.

Lemma receive_parts segments : forall s, wf s -> buffer_ok s -> segments <> [] ->
  exists s1 s2, receive (concat segments) s = Some (Ok tt, s1) /\ receive_all segments s = Some (Ok tt, s2) /\ same s1 s2.
Proof.
  induction segments as [|a [|b segments] IH]; intros s H Hb Hne; [done| |].
  - cbn [concat receive_all]. rewrite app_nil_r.
    destruct (receive_safe a s H Hb) as (r & s' & E & -> & _). exists s', s'. unfold mbind. rewrite E.
    split_and!; [done..|apply same_connection_refl].
  - change (concat (a :: b :: segments)) with (a ++ concat (b :: segments)).
    destruct (receive_pair a (concat (b :: segments)) s H Hb) as (s1 & sa & s2 & E1 & Ea & E2 & A & Wa & Ba).
    destruct (IH sa Wa Ba ltac:(done)) as (s3 & s4 & E3 & E4 & A2). rewrite E2 in E3. injection E3 as <-.
    exists s1, s4. split_and!; [done| |by eapply same_connection_trans].
    change (receive_all (a :: b :: segments)) with (let$ _ := receive a in receive_all (b :: segments)).
    unfold mbind. by rewrite Ea.
Qed.

Section Claims.
Context (config : ServerConfig) (n : PreAuth.Negotiation).
Hypothesis config_fits : config_ok config = true.
Hypothesis negotiation_fits : u32_ok (PreAuth.requested_protocols n) = true.

(** C5: the connection is a function of the byte stream.  Whatever the state it
    is in, it does not matter whether the bytes come in one call of [receive] or
    cut into any number of segments, of any size: neither call aborts, and as
    long as the connection is open afterwards the two leave the same state.  When
    the bytes close it they leave the same but for two things: what the closed
    connection still has in its buffer, and, where the bytes are more than
    [max_segment] (a mebibyte less 65536), events behind the first [Closed]: a
    large segment can be followed by a second one, of the limit on unframed
    input, which the same bytes in smaller segments do not bring about. *)
Theorem receive_segmentation es s segments : reached config n es s -> segments <> [] ->
  exists s1 s2, receive (concat segments) s = Some (Ok tt, s1) /\ receive_all segments s = Some (Ok tt, s2) /\
    same s1 s2 /\ (len (concat segments) <= max_segment -> alike s1 s2).
Proof.
  intros (W & B & _)%reached_inv Hne; [|done..].
  destruct (receive_parts segments s W B Hne) as (s1 & s2 & E1 & E2 & S). exists s1, s2. split_and!; [done..|].
  intros Hl. destruct (receive_split segments s W B Hne Hl) as (s3 & s4 & E3 & E4 & A). congruence.
Qed.

(** C6: a PDU that is refused changes nothing but ends the connection.  When the
    handlers return an error for a frame, whatever they did before they noticed
    has left no trace in the state, and [receive] closes with the message of
    that error, exactly one [Closed] event and no output. *)
Theorem refused_pdu_closes es s frame f e s' : reached config n es s -> state_ s <> closed -> input_ s = [] ->
  Framing.peek_frame frame = Ok (Some f) -> len frame = Framing.length f ->
  handle_pdu (Framing.kind f) frame s = Some (Err e, s') ->
  s' = s /\ receive frame s = Some (Ok tt, with_events (events_ s ++ [Closed (message e) true]) (with_state closed s)).
Proof.
  intros (W & B & _)%reached_inv Hc Hi Hp Hl He; [|done..].
  assert (s' = s) as -> by exact (proj2 (wp_run _ _ _ _ _ (handle_pdu_safe _ _ s W Hc) He)). split; [done|].
  pose proof (Framing.peek_frame_size _ _ Hp) as Hn.
  destruct (receive_drain frame s W B Hc) as (r & s1 & E & R & _).
  { unfold max_segment, max_buffered_input. change (Z.shiftl 1 20) with 1048576. lia. }
  rewrite R. do 2 f_equal. rewrite Hi in E. cbn [app] in E. rewrite drain_unfold in E. unfold loop_step in E.
  cbn [state_ with_input input_] in E. rewrite bool_decide_false, Hp in E by done.
  rewrite (proj2 (Z.ltb_ge _ _)) in E by lia.
  rewrite firstn_all2, skipn_all2 in E by (unfold len in *; lia).
  assert (with_input [] (with_input frame s) = s) as Es by (destruct s; cbn in *; by subst). rewrite Es, He in E.
  by injection E as _ <-.
Qed.
End Claims.

(** An X.224 Disconnect Request in a TPKT. *)
Definition disconnect_request : list byte := byte_of <$> [3; 0; 0; 7; 2; 0x80; 0].

(** The limit on unframed input has no effect on an open connection, whose
    buffer never reaches it, but on a closed one: a segment that carries more than
    a mebibyte behind a PDU that ends the connection makes [receive] report
    [Closed] a second time, now as an error, although the connection was closed
    in good order. *)
Theorem oversized_segment_closes_twice s rest : state_ s <> closed -> input_ s = [] -> max_buffered_input < len rest ->
  exists s', receive (disconnect_request ++ rest) s = Some (Ok tt, s') /\
    events_ s' = events_ s ++ [Closed "client sent an X.224 Disconnect Request" false; Closed "too much unframed input" true].
Proof.
  intros Hc Hi Hl. unfold receive, mbind at 1, in_state, mget. rewrite bool_decide_false by done.
  unfold mbind at 1, mmod. rewrite Hi. cbn [app]. set (s1 := with_input _ s).
  assert (drain s1 = Some (Ok false, with_input rest (with_events (events_ s ++
    [Closed "client sent an X.224 Disconnect Request" false]) (with_state closed s)))) as Ed.
  { rewrite drain_unfold. unfold loop_step. cbn [state_ s1 with_input input_]. rewrite bool_decide_false by done.
    rewrite (Framing.peek_frame_app disconnect_request rest (Ok (Some (Framing.mkFrame Framing.tpkt 7)))) by done.
    cbn [Framing.length Framing.kind]. rewrite (proj2 (Z.ltb_ge _ _)).
    2: { rewrite len_app. pose proof (len_nonneg rest). change (len disconnect_request) with 7. lia. }
    change (take (Z.to_nat 7) (disconnect_request ++ rest)) with disconnect_request.
    change (drop (Z.to_nat 7) (disconnect_request ++ rest)) with rest.
    assert (forall x, handle_pdu Framing.tpkt disconnect_request x = close "client sent an X.224 Disconnect Request" x) as -> by done.
    cbn [close mbind put_state emplace_event mmod]. rewrite drain_unfold. unfold loop_step.
    rewrite bool_decide_true by done. done. }
  unfold drain in Ed. unfold mbind. rewrite Ed. cbn [input_ with_input mget].
  rewrite (proj2 (Z.ltb_lt _ _) Hl). eexists. split; [done|]. cbn. by rewrite <- app_assoc.
Qed.

(** ** Examples *)

(** The Erect Domain Request behind the sample's Connect Initial, whole and in
    two segments. *)
Definition sample_erect : list byte :=
  default [] (Writer.run (mcs_pdu (Mcs.ErectDomainRequest 0 0))).

Lemma receive_segmentation_witness :
  exists s1 s2, receive (concat [take 5 sample_erect; drop 5 sample_erect]) sample_state = Some (Ok tt, s1) /\
    receive_all [take 5 sample_erect; drop 5 sample_erect] sample_state = Some (Ok tt, s2) /\ same s1 s2 /\ alike s1 s2.
Proof.
  destruct (receive_segmentation sample_config sample_negotiation eq_refl eq_refl [] sample_state
    [take 5 sample_erect; drop 5 sample_erect] sample_reached) as (s1 & s2 & E1 & E2 & S & A); [discriminate|].
  exists s1, s2. split; [exact E1|]. split; [exact E2|]. split; [exact S|].
  apply A. apply Z.leb_le. vm_compute. reflexivity.
Defined.

(** An Attach User Request where an Erect Domain Request is due. *)
Definition sample_attach : list byte := default [] (Writer.run (mcs_pdu Mcs.AttachUserRequest)).
Definition refused : option Error :=
  match handle_pdu Framing.tpkt sample_attach sample_state with Some (Err e, _) => Some e | _ => None end.

Lemma refused_pdu_closes_witness : exists e,
  refused = Some e /\
  receive sample_attach sample_state =
    Some (Ok tt, with_events (events_ sample_state ++ [Closed (message e) true]) (with_state closed sample_state)).
Proof.
  destruct (handle_pdu Framing.tpkt sample_attach sample_state) as [[[[]|e] s']|] eqn:E;
    [vm_compute in E; discriminate E| |vm_compute in E; discriminate E].
  exists e. split; [unfold refused; rewrite E; reflexivity|].
  refine (proj2 (refused_pdu_closes sample_config sample_negotiation eq_refl eq_refl [] sample_state sample_attach
    (Framing.mkFrame Framing.tpkt (len sample_attach)) e s' sample_reached _ _ _ eq_refl E)).
  - rewrite sample_settled. discriminate.
  - vm_compute. reflexivity.
  - vm_compute. reflexivity.
Defined.

(** More than a mebibyte is a list no computation is needed to name. *)
Lemma oversized_segment_closes_twice_witness :
  exists s', receive (disconnect_request ++ replicate (Z.to_nat 1048577) (byte_of 0)) sample_state = Some (Ok tt, s') /\
    events_ s' = events_ sample_state ++
      [Closed "client sent an X.224 Disconnect Request" false; Closed "too much unframed input" true].
Proof.
  apply oversized_segment_closes_twice.
  - rewrite sample_settled. discriminate.
  - vm_compute. reflexivity.
  - unfold len. rewrite length_replicate, Z2Nat.id by lia. reflexivity.
Defined.

End ConnectionStream.
