(* ===== verification/ConnectionHandshake.v ===== *)
(** * A client that follows the connection sequence becomes active

    The liveness of [Connection]: from the Connect Initial to the Font List,
    every client that sends well-formed PDUs in the order of the protocol is
    answered with the server's PDUs of that order, through the measurement of the
    link where it runs, and its connection becomes active, with the session
    holding what the client said. *)

From S2P Require Import Prelude Buffers CodecLogic Framing X224 Per Mcs Fastpath Fields SessionInfo.
From S2P Require Import Input Capabilities Share Gcc ClientInfo Pointer PreAuth AutodetectCodec AutoDetect Machine.
From S2P Require Import Connection ConnectionSafety ConnectionStream.
Open Scope Z_scope.

Module ConnectionHandshake.
Import Connection ConnectionSafety ConnectionStream.

(** ** Delivering one PDU

    A data TPDU in its TPKT, as a client sends it. *)
Definition frame (e : list byte) : list byte :=
  X224.tpkt_bytes ([byte_of 2; byte_of 0xF0; byte_of 0x80] ++ e).

(** Everything but the output and the buffer. *)
Definition view (s : t) : t := with_input [] (with_output [] s).

Definition dispatch (data : Reader.t) (s : t) : option (Result unit * t) :=
  if bool_decide (state_ s = wait_connect_initial) then on_connect_initial data s else on_domain_pdu data s.

Lemma peek_data e b :
  X224.peek_tpdu_code (Reader.make ([byte_of 2; byte_of 0xF0; byte_of 0x80] ++ e) b) = Ok X224.data.
Proof.
  unfold X224.peek_tpdu_code.
  assert (reads (let* _ := ReaderOps.skip 1 in ReaderOps.u8) ([byte_of 2] ++ [byte_of 0xF0]) ([byte_of 0x80] ++ e)
    (eq 0xF0)) as H.
  { rstep. by apply reads_u8. }
  destruct (H [] b) as (v & E & <-). unfold Reader.make. change ([byte_of 2; byte_of 0xF0; byte_of 0x80] ++ e)
    with (([byte_of 2] ++ [byte_of 0xF0]) ++ [byte_of 0x80] ++ e). by rewrite E.
Qed.

Lemma handle_frame e s : 7 + len e <= X224.max_tpkt_size ->
  exists b, handle_pdu Framing.tpkt (frame e) s = dispatch (Reader.make e b) s.
Proof.
  intros L. unfold frame. set (tpdu := [byte_of 2; byte_of 0xF0; byte_of 0x80] ++ e).
  assert (len tpdu = 3 + len e) as Hl by (unfold tpdu; len_lia). pose proof (len_nonneg e).
  destruct (X224.reads_tpkt tpdu [] ltac:(lia) ltac:(lia) [] 0) as (r & Hr & b1 & ->). rewrite app_nil_r in Hr.
  destruct (X224.reads_data_tpdu e [] b1) as (r & Hd & b2 & ->). rewrite app_nil_r in Hd.
  exists b2. unfold handle_pdu, mbind at 1, mread, mlift at 1. unfold Reader.make at 1. rewrite Hr.
  unfold mbind at 1, mlift at 1.
  unfold tpdu at 1. rewrite peek_data.
  rewrite bool_decide_false by done. rewrite bool_decide_true by done. cbn [negb].
  unfold mbind at 1, mlift at 1. unfold Reader.make at 1. fold tpdu in Hd. rewrite Hd.
  unfold mbind, in_state, mget, dispatch. by case_bool_decide.
Qed.

(** One step of the conversation: the client sends a PDU, or time passes. *)
Inductive Act := Pdu (m : Enc unit) | At (now : Z).

Definition performs (a : Act) (s s' : t) : Prop :=
  match a with
  | Pdu m => exists e, Writer.run m = Some e /\ receive (frame e) s = Some (Ok tt, s')
  | At now => tick now s = Some (Ok tt, s')
  end.

(** Between two states the server has written these PDUs, and nothing else. *)
Definition says (answers : list (Enc unit)) (s s' : t) : Prop :=
  exists outs, Forall2 writes answers outs /\ output_ s' = output_ s ++ concat outs.

Lemma says_nil s s' : output_ s' = output_ s -> says [] s s'.
Proof. intros H. exists []. split; [constructor|]. by rewrite app_nil_r. Qed.

Lemma says_one m out s s' : writes m out -> output_ s' = output_ s ++ out -> says [m] s s'.
Proof. intros W H. exists [out]. split; [by repeat constructor|]. cbn. by rewrite app_nil_r. Qed.

Lemma says_two m1 m2 out1 out2 s s' : writes m1 out1 -> writes m2 out2 -> output_ s' = output_ s ++ out1 ++ out2 ->
  says [m1; m2] s s'.
Proof. intros W1 W2 H. exists [out1; out2]. split; [by repeat constructor|]. cbn. by rewrite app_nil_r. Qed.

(** What a step leaves: answers, an empty buffer, and the rest of the state. *)
Definition yields (answers : list (Enc unit)) (s v s' : t) : Prop :=
  input_ s' = [] /\ says answers s s' /\ view s' = v.

Lemma yielded answers s v s' : input_ s' = [] -> says answers s s' -> view s' = v ->
  Ok (A := unit) tt = Ok tt /\ yields answers s v s'.
Proof. done. Qed.

Definition leads (a : Act) (answers : list (Enc unit)) (s v : t) : Prop :=
  exists s', performs a s s' /\ yields answers s v s'.

(** When the handler succeeds on the PDU, [receive] leaves what it leaves. *)
Lemma receive_frame e s answers v : 7 + len e <= X224.max_tpkt_size -> state_ s <> closed -> input_ s = [] ->
  (forall b, wp (dispatch (Reader.make e b)) s (fun r s' => r = Ok tt /\ yields answers s v s')) ->
  exists s', receive (frame e) s = Some (Ok tt, s') /\ yields answers s v s'.
Proof.
  intros L Hc Hi H. destruct (handle_frame e s L) as [b Hb]. destruct (H b) as (r & s' & Hd & -> & HQ). pose proof (proj1 HQ) as Hi'.
  exists s'. split; [|done]. unfold receive, mbind at 1, in_state, mget. rewrite bool_decide_false by done.
  unfold mbind, mmod. rewrite Hi. cbn [app]. set (s1 := with_input (frame e) s).
  assert (drain s1 = Some (Ok false, s')) as Ed.
  { rewrite drain_unfold. unfold loop_step. cbn [state_ s1 with_input input_]. rewrite bool_decide_false by done.
    set (tpdu := [byte_of 2; byte_of 0xF0; byte_of 0x80] ++ e).
    assert (len tpdu = 3 + len e) as Hl by (unfold tpdu; len_lia). pose proof (len_nonneg e).
    pose proof (X224.peek_frame_tpkt_bytes tpdu [] ltac:(lia) ltac:(lia)) as Hp. rewrite app_nil_r in Hp.
    unfold frame. fold tpdu. rewrite Hp. cbn [Framing.length Framing.kind].
    pose proof (X224.len_tpkt_bytes tpdu) as Hlen.
    rewrite (proj2 (Z.ltb_ge _ _)) by lia.
    rewrite firstn_all2, skipn_all2 by (unfold len in *; lia).
    assert (with_input [] s1 = s) as Es by (destruct s; cbn in *; by subst). rewrite Es.
    change (X224.tpkt_bytes tpdu) with (frame e). rewrite Hb, Hd. rewrite drain_unfold. unfold loop_step.
    rewrite Hi'. cbn [Framing.peek_frame]. by case_bool_decide. }
  unfold drain in Ed. rewrite Ed. unfold mget. rewrite Hi'. done.
Qed.

(** ** The steps *)

(** A decoder whose result is known. *)
Ltac decoded H := wp_step; apply wp_read; intros ? <-; rewrite H; cbv beta iota.

(** A domain PDU the encoder writes, delivered to a connection past its first
    PDU; [k] is what [on_domain_pdu] does with it. *)
Lemma domain_decoded pdu s answers v : Mcs.pdu_ok pdu = true -> 7 + Mcs.size_bound pdu <= X224.max_tpkt_size ->
  state_ s <> closed -> state_ s <> wait_connect_initial -> input_ s = [] ->
  (forall e b, Mcs.decode_domain_pdu (Reader.make e b) = Ok (pdu, Reader.mk e [] b) ->
     wp (on_domain_pdu (Reader.make e b)) s (fun r s' => r = Ok tt /\ yields answers s v s')) ->
  leads (Pdu (Mcs.encode pdu)) answers s v.
Proof.
  intros Hp Hs Hc Hw Hi H. destruct (Mcs.mcs_encodes pdu Hp) as (e & W & L & R).
  destruct (receive_frame e s answers v) as (s' & Hr & HQ); [lia|done|done| |].
  - intros b. pose proof (reads_run _ _ _ b R) as D. specialize (H e b D).
    unfold dispatch. destruct H as (r & s' & E & H). exists r, s'. by rewrite bool_decide_false.
  - exists s'. split; [|done]. exists e. split; [by apply writes_run|done].
Qed.

Lemma erect_domain h i s : Mcs.u32 h = true -> Mcs.u32 i = true -> state_ s = wait_erect_domain -> input_ s = [] ->
  leads (Pdu (Mcs.encode (Mcs.ErectDomainRequest h i))) [] s (with_state wait_attach_user (view s)).
Proof.
  intros Hh Hi Hs Hin. apply domain_decoded; try (by rewrite ?Hs); [cbn; by rewrite Hh, Hi|].
  intros e b D. unfold on_domain_pdu. decoded D. run_steps. rewrite Hs. run_steps.
  apply yielded; [done|by apply says_nil|done].
Qed.

(** The Attach User Confirm. *)
Definition attach_confirm (u : Z) : Enc unit := mcs_pdu (Mcs.AttachUserConfirm Mcs.successful (Some u)).

Lemma attach_user s c : state_ s = wait_attach_user -> input_ s = [] -> agreed c (session_ s) ->
  leads (Pdu (Mcs.encode Mcs.AttachUserRequest)) [attach_confirm (user_channel_id (session_ s))] s
    (with_state wait_channel_joins (view s)).
Proof.
  intros Hs Hin A. apply domain_decoded; try (by rewrite ?Hs).
  intros e b D. unfold on_domain_pdu. decoded D. run_steps. rewrite Hs. wp_step. apply wp_says.
  { apply sends_mcs; [|done]. cbn [Mcs.pdu_ok]. by destruct (u16_channel _ (agreed_user _ _ A)) as (_ & -> & _). }
  intros out W. run_steps. apply yielded; [done|by eapply says_one|done].
Qed.

Definition joinable (x : Session) (id : Z) : bool :=
  (id =? user_channel_id x) || (id =? Mcs.io_channel_id) || bool_decide (message_channel_id x = Some id) ||
  known_channel x id.

Lemma joinable_range c x id : agreed c x -> joinable x id = true -> Mcs.u16_from 0 id = true.
Proof.
  intros A. unfold joinable. rewrite !orb_true_iff, !Z.eqb_eq. pose proof (agreed_user _ _ A) as Hu.
  intros [[[->| ->]|Hm%bool_decide_eq_true]|Hk]; [by apply u16_channel|done| |].
  - pose proof (agreed_message _ _ _ A Hm). apply u16_channel. lia.
  - pose proof (known_range _ _ _ A Hk). apply u16_channel. lia.
Qed.

(** The Channel Join Confirm of a channel that is joined. *)
Definition join_confirm (u id : Z) : Enc unit := mcs_pdu (Mcs.ChannelJoinConfirm Mcs.successful u id (Some id)).

Lemma channel_join id s c : state_ s = wait_channel_joins -> input_ s = [] -> agreed c (session_ s) ->
  joinable (session_ s) id = true ->
  let u := user_channel_id (session_ s) in
  leads (Pdu (Mcs.encode (Mcs.ChannelJoinRequest u id))) [join_confirm u id] s
    (with_joined (joined_channels_ s ++ [id]) (view s)).
Proof.
  intros Hs Hin A Hj u. pose proof (joinable_range _ _ _ A Hj) as Hid. destruct (u16_channel _ (agreed_user _ _ A)) as (_ & Hu & _).
  apply domain_decoded; try (by rewrite ?Hs); [cbn [Mcs.pdu_ok]; subst u; by rewrite Hu|].
  intros e b D. unfold on_domain_pdu. decoded D. run_steps. rewrite Hs. unfold on_channel_pdu. run_steps.
  rewrite bool_decide_true by done. cbn [negb]. unfold on_channel_join. run_steps. rewrite Z.eqb_refl. cbn [negb].
  unfold joinable in Hj. rewrite Hj. run_steps. apply wp_says.
  - apply sends_mcs; [|done]. cbn [Mcs.pdu_ok]. by rewrite Hu, Hid.
  - intros out W. apply yielded; [done|by eapply says_one|done].
Qed.

(** A PDU on a channel of the session. *)
Lemma channel_decoded id payload s c answers v : agreed c (session_ s) -> len payload <= Per.max_length ->
  Mcs.u16_from 0 id = true ->
  state_ s <> closed -> settled (state_ s) = true -> state_ s <> wait_erect_domain -> state_ s <> wait_attach_user -> input_ s = [] ->
  (forall b, wp (on_channel_pdu b (Mcs.SendDataRequest (user_channel_id (session_ s)) id payload)) s
     (fun r s' => r = Ok tt /\ yields answers s v s')) ->
  leads (Pdu (Mcs.encode (Mcs.SendDataRequest (user_channel_id (session_ s)) id payload))) answers s v.
Proof.
  intros A L Hid Hc Hset He Ha Hin H. destruct (u16_channel _ (agreed_user _ _ A)) as (_ & Hu & _).
  apply domain_decoded; [|cbn [Mcs.size_bound]; unfold Mcs.send_data_header_max, X224.max_tpkt_size, Per.max_length in *; lia
    |done|by destruct (state_ s)|done|].
  { cbn [Mcs.pdu_ok]. rewrite Hu, Hid. apply andb_true_intro. split; [done|by apply Z.leb_le]. }
  intros e b D. unfold on_domain_pdu. decoded D. run_steps. specialize (H b).
  assert (Reader.offset (Reader.make e b) = b) as Hb.
  { unfold Reader.offset, Reader.position. cbn. by rewrite Z.add_0_r. }
  rewrite Hb. by destruct (state_ s).
Qed.

(** What the I/O channel carries to its handler. *)
Definition on_io_pdu (payload : list byte) (b : Z) (s : t) : M t unit :=
  if bool_decide (state_ s = wait_channel_joins) then on_client_info (Reader.make payload b)
  else on_io_data (Reader.make payload b).

(** The Connect Initial around the client's data. *)
Definition client_initial (i : Mcs.ConnectInitial) (client : Gcc.ClientData) : Enc unit :=
  let! blocks := elocal (Gcc.encode_client_data client) in
  let! conference := elocal (Gcc.encode_conference_create_request blocks) in
  Mcs.encode_connect_initial
    (Mcs.mkInitial (Mcs.calling_domain_selector i) (Mcs.called_domain_selector i) (Mcs.upward_flag i)
       (Mcs.target i) (Mcs.minimum i) (Mcs.maximum i) conference).

Definition initial_fits (i : Mcs.ConnectInitial) : bool :=
  Mcs.domain_ok (Mcs.target i) && Mcs.domain_ok (Mcs.minimum i) && Mcs.domain_ok (Mcs.maximum i) &&
  (len (Mcs.calling_domain_selector i) + len (Mcs.called_domain_selector i) <=? 60000).

(** The client repeats the protocol that was negotiated, if any. *)
Definition repeats_protocol (n : PreAuth.Negotiation) (client : Gcc.ClientData) : bool :=
  match Gcc.server_selected_protocol (Gcc.core client) with
  | Some p => p =? PreAuth.selected_protocol n
  | None => true
  end.

Lemma wp_initial data s Q : state_ s = wait_connect_initial -> wp (on_connect_initial data) s Q -> wp (dispatch data) s Q.
Proof. intros Hs H. unfold wp, dispatch in *. by rewrite bool_decide_true. Qed.

(** The Connect Response to a client. *)
Definition connect_response (i : Mcs.ConnectInitial) (client : Gcc.ClientData) (x : Session) : Enc unit :=
  let! blocks := elocal (Gcc.encode_server_data (server_data client x)) in
  let! conference := elocal (Gcc.encode_conference_create_response blocks) in
  let! start := X224.begin_data_tpdu in
  Mcs.encode_connect_response (Mcs.mkResponse Mcs.successful 0 (Mcs.negotiate_domain_parameters i) conference) ;;;
  X224.end_tpkt start.

Lemma wp_response i client x s (Q : Result unit -> t -> Prop) : u32_ok (PreAuth.requested_protocols (negotiation x)) = true ->
  Mcs.domain_ok (Mcs.negotiate_domain_parameters i) = true -> len (requested_channels client) <= Gcc.max_static_channels ->
  (forall out, writes (connect_response i client x) out ->
     Q (Ok tt) (with_state wait_erect_domain (with_output (output_ s ++ out) s))) ->
  wp (let$ server_blocks := mlocal (Gcc.encode_server_data (server_data client x)) in
      let$ conference := mlocal (Gcc.encode_conference_create_response server_blocks) in
      let$ _ := emit (let! start := X224.begin_data_tpdu in
                      Mcs.encode_connect_response
                        (Mcs.mkResponse Mcs.successful 0 (Mcs.negotiate_domain_parameters i) conference) ;;;
                      X224.end_tpkt start) in
      put_state wait_erect_domain) s Q.
Proof.
  intros H Hd Hn HQ.
  destruct (Gcc.writes_server _ (server_data_ok client x
    H Hn)) as (eb & Wb & Lb). unfold Gcc.server_size in Lb.
  wp_step. apply (wp_local _ eb); [done|]. wp_step.
  destruct (Gcc.encodes_response eb) as (ec & Wc & Lc & _); [unfold Per.max_length; lia|].
  apply (wp_local _ ec); [done|]. wp_step.
  apply wp_says; [apply sends_connect_response; [done|lia]|].
  intros out W. cbv beta iota. apply wp_mod. apply HQ. unfold connect_response.
  apply (writes_local _ _ eb); [by apply writes_run|]. by apply (writes_local _ _ ec); [apply writes_run|].
Qed.

Lemma connect_initial i client s : wf s -> state_ s = wait_connect_initial -> input_ s = [] ->
  initial_fits i = true -> Gcc.client_ok client = true -> repeats_protocol (negotiation (session_ s)) client = true ->
  leads (Pdu (client_initial i client)) [connect_response i client (set_client_data client (session_ s))] s
    (with_state wait_erect_domain (with_session (agree (config_ s) client (set_client_data client (session_ s))) (view s))).
Proof.
  intros H Hs Hin Hi Hc Hp.
  destruct (Gcc.client_roundtrip client 0 Hc) as (blocks & conf & Wb & Lb & Wc & Rc & Rb).
  set (pdu := Mcs.mkInitial (Mcs.calling_domain_selector i) (Mcs.called_domain_selector i) (Mcs.upward_flag i)
       (Mcs.target i) (Mcs.minimum i) (Mcs.maximum i) conf).
  unfold initial_fits in Hi. bools. unfold Gcc.client_size in Lb.
  assert (len conf <= 26 + 1322) as Lc.
  { destruct (Gcc.encodes_request blocks) as (e & W & L & _); [unfold Per.max_length; lia|].
    apply writes_run in W. rewrite Wc in W. injection W as <-. lia. }
  assert (Mcs.initial_ok pdu = true) as Hok.
  { unfold Mcs.initial_ok. cbn. rewrite !andb_true_iff, Z.ltb_lt. split_and!; [done..|lia]. }
  destruct (Mcs.mcs_encodes_initial pdu Hok) as (e & W & L & R). cbn in L.
  eapply receive_frame in Hin as (s' & Hr & HQ); [exists s'; split; [exists e; split; [|exact Hr]|exact HQ]| | |].
  { apply writes_run. unfold client_initial. apply (writes_local _ _ blocks); [done|]. by apply (writes_local _ _ conf). }
  { unfold X224.max_tpkt_size. lia. }
  { by rewrite Hs. }
  intros b. apply wp_initial; [done|]. unfold on_connect_initial.
  decoded (reads_run _ _ _ b (R [])). change (Mcs.user_data pdu) with conf. decoded Rc. decoded Rb. run_steps.
  cbn [session_ with_session].
  assert (match Gcc.server_selected_protocol (Gcc.core client) with
     | Some p => negb (p =? PreAuth.selected_protocol (negotiation (set_client_data client (session_ s))))
     | None => false end = false) as ->.
  { unfold repeats_protocol in Hp. destruct (Gcc.server_selected_protocol _); [|done]. cbn. by rewrite Hp. }
  do 2 wp_step. wp_step. apply wp_mod. cbv beta iota. cbn [session_ with_session config_].
  apply (wp_response pdu client (set_client_data client (session_ s))); [exact (wf_requested _ _ _ _ _ H)|by apply Mcs.negotiate_ok| |].
  - exact (Gcc.client_channels _ (proj1 (Gcc.decode_client_data_inv _ _ _ Rb))).
  - intros out Wo. apply yielded; [done|by eapply says_one|done].
Qed.

(** A PDU of the user [u] on a channel. *)
Definition on_channel (u id : Z) (m : Enc unit) : Enc unit :=
  let! payload := elocal m in
  Mcs.encode (Mcs.SendDataRequest u id payload).
Definition on_io (u : Z) (m : Enc unit) : Enc unit := on_channel u Mcs.io_channel_id m.

Lemma run_local {A} (m : Enc A) (f : list byte -> Enc unit) payload : Writer.run m = Some payload ->
  Writer.run (ebind (elocal m) f) = Writer.run (f payload).
Proof. intros H. unfold Writer.run at 1, ebind, elocal. by rewrite H. Qed.

Definition exchanging (st : State) : bool :=
  match st with wait_channel_joins | connect_time_autodetect | wait_confirm_active | finalizing => true | _ => false end.

Lemma channel_delivered id m payload s c answers v : Writer.run m = Some payload -> agreed c (session_ s) ->
  len payload <= Per.max_length -> Mcs.u16_from 0 id = true -> exchanging (state_ s) = true -> input_ s = [] ->
  (forall b, wp (on_channel_pdu b (Mcs.SendDataRequest (user_channel_id (session_ s)) id payload)) s
     (fun r s' => r = Ok tt /\ yields answers s v s')) ->
  leads (Pdu (on_channel (user_channel_id (session_ s)) id m)) answers s v.
Proof.
  intros Hm A L Hid Hs Hin H.
  destruct (channel_decoded id payload s c answers v) as (s' & (e & W & R) & HQ);
    [done..|by destruct (state_ s)|by destruct (state_ s)|by destruct (state_ s)|by destruct (state_ s)|done|done|].
  exists s'. split; [|done]. exists e. split; [|done]. unfold on_channel. by rewrite (run_local _ _ _ Hm).
Qed.

Lemma io_delivered m payload s c answers v : Writer.run m = Some payload -> agreed c (session_ s) ->
  len payload <= Per.max_length -> exchanging (state_ s) = true -> input_ s = [] ->
  (forall b, wp (on_io_pdu payload b s) s (fun r s' => r = Ok tt /\ yields answers s v s')) ->
  leads (Pdu (on_io (user_channel_id (session_ s)) m)) answers s v.
Proof.
  intros Hm A L Hs Hin H. eapply channel_delivered; [done..|]. intros b. unfold on_channel_pdu. run_steps.
  rewrite Z.eqb_refl. cbn [negb]. rewrite Z.eqb_refl. specialize (H b).
  unfold on_io_pdu in H. by destruct (bool_decide (state_ s = wait_channel_joins)).
Qed.

(** The Client Info PDU. *)
Definition send_info (info : ClientInfo.ClientInfo) : Enc unit :=
  SessionInfo.write_basic_security_header SessionInfo.info_pkt ;;;
  ClientInfo.encode_client_info info.

(** What [on_client_info] keeps of the client's data and reports of it. *)
Definition told (info : ClientInfo.ClientInfo) (detect beat : bool) (x : Session) : Session :=
  set_detection detect beat
    (set_info (ClientInfo.user_name info) (ClientInfo.domain info) (ClientInfo.flags info) x).
Definition info_event (info : ClientInfo.ClientInfo) : Event :=
  ClientInfo (ClientInfo.domain info) (ClientInfo.user_name info) (ClientInfo.password info) (ClientInfo.flags info)
    (match ClientInfo.extended info with Some e => ClientInfo.auto_reconnect_cookie e | None => None end).

(** The client's early capability flags. *)
Definition flagged (x : Session) (bit : Z) : bool := Gcc.has_early_flag (Gcc.core (client_data x)) bit.

(** The message channel is joined, by request or because joins are skipped. *)
Definition message_joined (x : Session) (ids : list Z) : bool :=
  match message_channel_id x with
  | Some id => flagged x Gcc.support_skip_channeljoin || bool_decide (id ∈ ids)
  | None => false
  end.

(** The link is measured, at connect time in the mode [full] only, and heartbeats are sent. *)
Definition detects (config : ServerConfig) (x : Session) (ids : list Z) : bool :=
  message_joined x ids && negb (bool_decide (cfg_autodetect config = off)) && flagged x Gcc.support_netchar_autodetect.
Definition at_connect_time (config : ServerConfig) (x : Session) (ids : list Z) : bool :=
  detects config x ids && bool_decide (cfg_autodetect config = full).
Definition beats (x : Session) (ids : list Z) : bool := message_joined x ids && flagged x Gcc.support_heartbeat_pdu.

(** The license and the Demand Active of a session in its first share. *)
Definition licensing (x : Session) : list (Enc unit) := [indicates SessionInfo.encode_license_valid_client; demands x].

(** The state once the Client Info is read. *)
Definition introduced (info : ClientInfo.ClientInfo) (s : t) : t :=
  with_session (told info (detects (config_ s) (session_ s) (joined_channels_ s)) (beats (session_ s) (joined_channels_ s)) (session_ s))
    (with_events (events_ s ++ [info_event info]) s).

Lemma client_info_sent info s answers v : wf s -> state_ s = wait_channel_joins -> input_ s = [] ->
  ClientInfo.info_ok info = true ->
  (wp (if at_connect_time (config_ s) (session_ s) (joined_channels_ s) then
         let$ _ := put_state connect_time_autodetect in
         let$ a := mget autodetect_ in
         let$ now := mget now_ in
         let (requests, a) := AutoDetect.start_connect_time a now in
         let$ _ := mmod (with_autodetect a) in
         let$ x := session in
         emit (send_autodetects x requests)
       else start_licensing) (introduced info s) (fun r s' => r = Ok tt /\ yields answers s v s')) ->
  leads (Pdu (on_io (user_channel_id (session_ s)) (send_info info))) answers s v.
Proof.
  intros H Hs Hin Hi Hw. pose proof (wf_agreed _ _ _ _ _ H ltac:(by rewrite Hs)) as A.
  destruct (ClientInfo.encodes_info info Hi) as (e & W & L & R). unfold ClientInfo.info_size in L.
  assert (len (SessionInfo.header_bytes SessionInfo.info_pkt) = 4) as Lh by done.
  eapply (io_delivered (send_info info) (SessionInfo.header_bytes SessionInfo.info_pkt ++ e));
    [|exact A|rewrite len_app; unfold Per.max_length; lia|by rewrite Hs|done|].
  { apply writes_run, writes_seq; [apply SessionInfo.writes_security_header|done]. }
  intros b. unfold on_io_pdu. rewrite bool_decide_true by done. unfold on_client_info, Reader.make.
  destruct (SessionInfo.reads_security_header SessionInfo.info_pkt e ltac:(done) ltac:(done) [] b) as (? & E & <-).
  decoded E. change (has_bits SessionInfo.info_pkt SessionInfo.info_pkt) with true. cbn [negb].
  destruct (R (SessionInfo.header_bytes SessionInfo.info_pkt) b) as (? & E2 & <-). rewrite app_nil_r in E2.
  cbn [app]. decoded E2. run_steps. exact Hw.
Qed.

Lemma client_info_licensed info s : wf s -> state_ s = wait_channel_joins -> input_ s = [] -> ClientInfo.info_ok info = true ->
  at_connect_time (config_ s) (session_ s) (joined_channels_ s) = false ->
  leads (Pdu (on_io (user_channel_id (session_ s)) (send_info info))) (licensing (shared (session_ (introduced info s)))) s
    (with_state wait_confirm_active (with_session (shared (session_ (introduced info s))) (view (introduced info s)))).
Proof.
  intros H Hs Hin Hi Hc. apply client_info_sent; [done..|]. rewrite Hc.
  apply wp_licensing_says; [exact (widths_user s H ltac:(by rewrite Hs))|exact (wf_widths _ _ _ _ _ H)|].
  intros out1 out2 W1 W2. apply yielded; [done|by eapply says_two|done].
Qed.

(** The first requests of the auto-detection, and its state. *)
Definition first_requests (s : t) : list AutodetectCodec.Request := fst (AutoDetect.start_connect_time (autodetect_ s) (now_ s)).

Lemma client_info_probed info s : wf s -> state_ s = wait_channel_joins -> input_ s = [] -> ClientInfo.info_ok info = true ->
  at_connect_time (config_ s) (session_ s) (joined_channels_ s) = true ->
  leads (Pdu (on_io (user_channel_id (session_ s)) (send_info info)))
    [send_autodetects (session_ (introduced info s)) (first_requests s)] s
    (with_state connect_time_autodetect (with_autodetect (snd (AutoDetect.start_connect_time (autodetect_ s) (now_ s)))
       (view (introduced info s)))).
Proof.
  intros H Hs Hin Hi Hc. apply client_info_sent; [done..|]. rewrite Hc. run_steps.
  cbn [autodetect_ now_ with_state introduced with_session with_events]. unfold first_requests.
  destruct (link_connect_time (autodetect_ s) (now_ s) (wf_link _ _ _ _ _ H)) as [La Le].
  destruct (AutoDetect.start_connect_time _ _) as [requests a]. cbn [fst snd] in *. run_steps.
  assert (exists id, message_channel_id (session_ s) = Some id) as [id Em].
  { unfold at_connect_time, detects, message_joined in Hc. destruct (message_channel_id (session_ s)); [eauto|done]. }
  pose proof (agreed_message _ _ _ (wf_agreed _ _ _ _ _ H ltac:(by rewrite Hs)) Em) as Hrange.
  apply wp_says.
  { eapply (sends_autodetects _ _ id); [exact Em|by apply u16_channel; lia|done]. }
  intros out W. apply yielded; [done|by eapply says_one|done].
Qed.

(** ** The measurement of the link

    What the client and the clock do while the server measures, each on the
    message channel or by [tick]. *)
Inductive Step := Answer (response : AutodetectCodec.Response) | Time (now : Z).

Definition send_response (r : AutodetectCodec.Response) : Enc unit :=
  SessionInfo.write_basic_security_header SessionInfo.autodetect_rsp ;;;
  AutodetectCodec.encode_response r.

Definition step_act (u id : Z) (st : Step) : Act :=
  match st with Answer r => Pdu (on_channel u id (send_response r)) | Time now => At now end.

Definition step_ok (st : Step) : bool :=
  match st with Answer r => AutodetectCodec.response_ok r | Time _ => true end.

(** The estimator and the time after a step. *)
Definition step_link (a : AutoDetect.t) (now : Z) (st : Step) : AutoDetect.t * Z :=
  match st with Answer r => (AutoDetect.on_response a r now, now) | Time now' => (a, now') end.

(** What ends the measurement: the result, if there is one, and licensing. *)
Definition results (a : AutoDetect.t) (x : Session) : list (Enc unit) :=
  match fst (AutoDetect.network_characteristics_result a) with
  | Some r => [send_autodetect x (AutodetectCodec.NetworkResult r)]
  | None => []
  end ++ licensing (shared x).

Definition measured (a : AutoDetect.t) (now : Z) (s : t) : t := with_times now (last_output_ s) (with_autodetect a s).
Definition finished (s : t) : t :=
  with_state wait_confirm_active (with_session (shared (session_ s))
    (with_autodetect (snd (AutoDetect.network_characteristics_result (autodetect_ s))) s)).

Lemma wp_finished s (Q : Result unit -> t -> Prop) : wf s -> state_ s = connect_time_autodetect ->
  (forall outs, Forall2 writes (results (autodetect_ s) (session_ s)) outs ->
     Q (Ok tt) (with_output (output_ s ++ concat outs) (finished s))) ->
  wp finish_connect_time_autodetect s Q.
Proof.
  intros H Hs HQ. unfold finish_connect_time_autodetect. run_steps. unfold results, finished in HQ.
  destruct (link_result (autodetect_ s) (wf_link _ _ _ _ _ H)) as [La Lr].
  destruct (AutoDetect.network_characteristics_result _) as [result a]. cbn [fst snd] in *. run_steps.
  cbn [session_ with_autodetect]. pose proof (widths_user s H ltac:(by rewrite Hs)) as Hu.
  pose proof (wf_widths _ _ _ _ _ H) as Hw. destruct result as [r|].
  - destruct (message_id s H ltac:(by rewrite Hs)) as (id & Em & Hid).
    { by rewrite (proj1 (wf_probe _ _ _ _ _ H Hs)). }
    apply wp_says; [eapply sends_autodetect; [exact Em|done|by apply Lr]|]. intros out W. cbv beta iota.
    apply wp_licensing_says; [done..|]. intros out1 out2 W1 W2.
    specialize (HQ [out; out1; out2]). cbn [concat] in HQ. rewrite app_nil_r in HQ. cbn.
    rewrite <- !app_assoc. apply HQ. by repeat constructor.
  - run_steps. apply wp_licensing_says; [done..|]. intros out1 out2 W1 W2.
    specialize (HQ [out1; out2]). cbn [concat] in HQ. rewrite app_nil_r in HQ. apply HQ. by repeat constructor.
Qed.

(** One step of the measurement, which may end it. *)
Definition step_answers (a : AutoDetect.t) (now : Z) (s : t) : list (Enc unit) :=
  if AutoDetect.connect_time_complete a now then results a (session_ s) else [].
Definition step_state (a : AutoDetect.t) (now : Z) (s : t) : t :=
  if AutoDetect.connect_time_complete a now then finished (measured a now (view s)) else measured a now (view s).

(** What both kinds of step end with. *)
Lemma wp_over a now s : wf s -> state_ s = connect_time_autodetect -> input_ s = [] -> link_ok a ->
  wp (let$ complete := mget detection_over in if complete : bool then finish_connect_time_autodetect else mret tt)
    (measured a now s) (fun r s' => r = Ok tt /\ yields (step_answers a now s) s (step_state a now s) s').
Proof.
  intros H Hs Hin La. run_steps. unfold detection_over, step_answers, step_state. cbn [state_ measured with_times with_autodetect autodetect_ now_].
  rewrite bool_decide_true by done. cbn [andb]. destruct (AutoDetect.connect_time_complete a now).
  - apply wp_finished; [by eapply core_link|done|]. intros outs Wo. by apply yielded; [|exists outs|].
  - run_steps. by apply yielded; [|apply says_nil|].
Qed.

Lemma answer_step r s id c : wf s -> state_ s = connect_time_autodetect -> input_ s = [] -> agreed c (session_ s) ->
  message_channel_id (session_ s) = Some id -> AutodetectCodec.response_ok r = true ->
  let a := AutoDetect.on_response (autodetect_ s) r (now_ s) in
  leads (Pdu (on_channel (user_channel_id (session_ s)) id (send_response r))) (step_answers a (now_ s) s) s (step_state a (now_ s) s).
Proof.
  intros H Hs Hin A Em Hok a. pose proof (agreed_message _ _ _ A Em) as Hr.
  assert (Mcs.u16_from 0 id = true) as Hid by (by apply u16_channel; lia).
  unfold first_channel, Mcs.io_channel_id in Hr.
  assert (link_ok a) as La by (by apply link_response; [exact (wf_link _ _ _ _ _ H)|]).
  pose proof (AutodetectCodec.writes_response r) as W. pose proof (AutodetectCodec.reads_response r [] Hok) as R.
  assert (len (AutodetectCodec.response_bytes r) <= 100) as Lr by (by destruct r).
  eapply (channel_delivered id _ (SessionInfo.header_bytes SessionInfo.autodetect_rsp ++ AutodetectCodec.response_bytes r));
    [|exact A| |done|by rewrite Hs|done|].
  { apply writes_run, writes_seq; [apply SessionInfo.writes_security_header|done]. }
  { rewrite len_app. change (len (SessionInfo.header_bytes SessionInfo.autodetect_rsp)) with 4. unfold Per.max_length. lia. }
  intros b. unfold on_channel_pdu. run_steps. rewrite Z.eqb_refl. cbn [negb].
  rewrite (proj2 (Z.eqb_neq id Mcs.io_channel_id)) by (unfold Mcs.io_channel_id; lia).
  rewrite bool_decide_true by done. unfold on_message_channel, Reader.make.
  destruct (SessionInfo.reads_security_header SessionInfo.autodetect_rsp (AutodetectCodec.response_bytes r)
    ltac:(done) ltac:(done) [] b) as (? & E & <-). decoded E.
  change (has_bits SessionInfo.autodetect_rsp SessionInfo.autodetect_rsp) with true. cbn [negb].
  destruct (R (SessionInfo.header_bytes SessionInfo.autodetect_rsp) b) as (? & E2 & <-). rewrite app_nil_r in E2. cbn [app].
  rewrite E2. wp_step. apply wp_mod. cbv beta iota. by apply (wp_over a (now_ s) s).
Qed.

Lemma time_step now s : wf s -> state_ s = connect_time_autodetect -> input_ s = [] ->
  leads (At now) (step_answers (autodetect_ s) now s) s (step_state (autodetect_ s) now s).
Proof.
  intros H Hs Hin. destruct (wp_over (autodetect_ s) now s H Hs Hin (wf_link _ _ _ _ _ H)) as (r & s' & E & -> & Y).
  exists s'. split; [|done]. unfold performs, tick. unfold mbind in *. unfold mmod, mget in *. cbv beta iota in *.
  change (with_times now (last_output_ s) s) with (measured (autodetect_ s) now s).
  destruct (detection_over _); [done|]. unfold in_state, mget. cbn [state_ measured with_times with_autodetect].
  by rewrite bool_decide_false by (by rewrite Hs).
Qed.

Lemma measuring_step st s id c : wf s -> state_ s = connect_time_autodetect -> input_ s = [] -> agreed c (session_ s) ->
  message_channel_id (session_ s) = Some id -> step_ok st = true ->
  let (a, now) := step_link (autodetect_ s) (now_ s) st in
  leads (step_act (user_channel_id (session_ s)) id st) (step_answers a now s) s (step_state a now s).
Proof. intros H Hs Hin A Em Hok. destruct st; [by eapply answer_step|by apply time_step]. Qed.

(** Time that passes before the Client Info. *)
Lemma time_passes now s : state_ s = wait_channel_joins -> input_ s = [] ->
  leads (At now) [] s (with_times now (last_output_ s) (view s)).
Proof.
  intros Hs Hin. assert (wp (tick now) s (fun r s' => r = Ok tt /\ yields [] s (with_times now (last_output_ s) (view s)) s'))
    as (r & s' & E & -> & Y); [|by exists s'].
  unfold tick. run_steps. unfold detection_over at 1. cbn [state_ with_times]. rewrite bool_decide_false by (by rewrite Hs).
  cbn [andb]. run_steps. cbn [state_ with_times]. rewrite bool_decide_false by (by rewrite Hs). cbn [negb]. run_steps.
  by apply yielded; [|apply says_nil|].
Qed.

(** The Confirm Active PDU. *)
Definition confirmed (confirm : Share.ConfirmActive) (x : Session) : Session :=
  let caps := clear_other (Share.ca_capabilities confirm) in
  let flag bit := match Capabilities.general caps with
                  | Some g => has_bits (Capabilities.extra_flags g) bit
                  | None => false
                  end in
  set_capabilities caps (flag Capabilities.fastpath_output_supported) (flag Capabilities.no_bitmap_compression_hdr)
    (match Capabilities.multifragment_update caps with Some m => Capabilities.max_request_size m | None => 0 end)
    (pointer_support caps) x.

(** A share PDU opens to the body of its kind. *)
Lemma share_delivered {A} m s c (p : Dec A) v n type source answers w : agreed c (session_ s) ->
  Share.exchanged m type source p v n -> 0 <= type < 16 -> u16_ok source = true -> n <= Per.max_length ->
  exchanging (state_ s) = true -> state_ s <> wait_channel_joins -> input_ s = [] ->
  (forall data r body r', Share.read_share_control data = Ok (Share.mkControl type source body, r) ->
     p body = Ok (v, r') ->
     wp (on_io_data data) s (fun r s' => r = Ok tt /\ yields answers s w s')) ->
  leads (Pdu (on_io (user_channel_id (session_ s)) m)) answers s w.
Proof.
  intros A0 Hx Ht Hsrc Hn Hs Hw Hin H. unfold Per.max_length in Hn.
  destruct (Share.exchanged_opened 0 _ _ _ _ _ _ Hx Ht Hsrc ltac:(lia)) as (payload & W & L & _).
  apply (io_delivered m payload s c); [done|done|unfold Per.max_length; lia|done|done|].
  intros b. unfold on_io_pdu. rewrite bool_decide_false by done.
  destruct (Share.exchanged_opened b _ _ _ _ _ _ Hx Ht Hsrc ltac:(lia)) as (e & W2 & _ & body & r & Hc & r' & Hp).
  rewrite W in W2. injection W2 as <-. by eapply H.
Qed.

Lemma confirm_sent confirm s : wf s -> state_ s = wait_confirm_active -> input_ s = [] ->
  Share.confirm_ok confirm = true -> 420 + Capabilities.raw_size (Capabilities.other (Share.ca_capabilities confirm)) <= Per.max_length ->
  is_Some (Capabilities.general (Share.ca_capabilities confirm)) -> is_Some (Capabilities.bitmap (Share.ca_capabilities confirm)) ->
  Share.ca_share_id confirm = share_id (session_ s) ->
  leads (Pdu (on_io (user_channel_id (session_ s)) (Share.encode_confirm_active (user_channel_id (session_ s)) confirm)))
    [indicates (data_pdu (share_id (session_ s)) Mcs.server_channel_id (Share.Synchronize 1 (user_channel_id (session_ s))));
     indicates (data_pdu (share_id (session_ s)) Mcs.server_channel_id (Share.Control Share.cooperate 0 0))] s
    (with_state finalizing (with_session (confirmed confirm (session_ s)) (view s))).
Proof.
  intros H Hs Hin Hok Hsize [g Hg] [bm Hb] Hid. pose proof (wf_agreed _ _ _ _ _ H ltac:(by rewrite Hs)) as A.
  pose proof (widths_user s H ltac:(by rewrite Hs)) as Hu.
  eapply share_delivered; [exact A|by apply Share.exchanged_confirm|done|done|done|by rewrite Hs|by rewrite Hs|done|].
  intros data r body r' Hc Hp. unfold on_io_data. decoded Hc.
  cbv zeta. cbn [Share.sc_type Share.sc_body].
  change (Share.confirm_active =? Share.flow) with false. change (Share.confirm_active =? Share.confirm_active) with true.
  cbv iota. run_steps. rewrite bool_decide_true by done.
  unfold on_confirm_active. decoded Hp. run_steps. rewrite Hid, Z.eqb_refl. cbn [negb].
  unfold clear_other. cbn [Capabilities.general Capabilities.bitmap]. rewrite Hg, Hb. run_steps.
  apply wp_says_data; [cbn [Share.pdu_ok]; by rewrite Hu|]. intros out1 W1. cbv beta iota.
  apply wp_says_data; [done|]. intros out2 W2. apply yielded; [done| |].
  - eapply says_two; [exact W1|exact W2|]. cbn. by rewrite <- app_assoc.
  - unfold confirmed, clear_other. cbn [Capabilities.general]. by rewrite Hg, Hb.
Qed.

Lemma data_delivered pdu s answers w : wf s -> state_ s = finalizing -> input_ s = [] ->
  Share.pdu_ok pdu = true -> 
  (forall body sd r, Share.read_share_data body = Ok (sd, r) -> Share.sd_share_id sd = share_id (session_ s) ->
     Share.decode_data_pdu sd = Ok pdu ->
     wp (on_data_pdu body) s (fun r s' => r = Ok tt /\ yields answers s w s')) ->
  leads (Pdu (on_io (user_channel_id (session_ s))
      (data_pdu (share_id (session_ s)) (user_channel_id (session_ s)) pdu))) answers s w.
Proof.
  intros H Hs Hin Hok HQ. pose proof (wf_agreed _ _ _ _ _ H ltac:(by rewrite Hs)) as A.
  pose proof (widths_user s H ltac:(by rewrite Hs)) as Hu.
  pose proof (wf_widths _ _ _ _ _ H) as Hw. unfold session_widths in Hw. apply andb_prop in Hw as [_ Hw].
  destruct (Share.opened_data 0 pdu (share_id (session_ s)) (user_channel_id (session_ s)) Hu Hok Hw)
    as (m & p & e & Em & Wm & L & W & Le & _). unfold Share.max_payload in L.
  eapply (io_delivered _ e); [|exact A|unfold Per.max_length; lia|by rewrite Hs|done|].
  { unfold data_pdu. rewrite Em. by rewrite (run_local _ _ _ Wm). }
  intros b. unfold on_io_pdu. rewrite bool_decide_false by (by rewrite Hs).
  destruct (Share.opened_data b pdu (share_id (session_ s)) (user_channel_id (session_ s)) Hu Hok Hw)
    as (m2 & p2 & e2 & Em2 & Wm2 & _ & W2 & _ & sd & (body & r & Hc & r' & Hsd) & Hid & Hd).
  rewrite Em in Em2. injection Em2 as <-. rewrite Wm in Wm2. injection Wm2 as <-. rewrite W in W2. injection W2 as <-.
  unfold on_io_data. decoded Hc. cbv zeta. cbn [Share.sc_type Share.sc_body].
  change (Share.data =? Share.flow) with false. change (Share.data =? Share.confirm_active) with false.
  change (Share.data =? Share.data) with true. cbv iota. run_steps.
  rewrite bool_decide_false by (by rewrite Hs). by eapply HQ.
Qed.

(** The client's share of the finalization, and what the server answers. *)
Definition finalization (u share : Z) : list (Share.DataPdu * list Share.DataPdu) :=
  [(Share.Synchronize 1 Mcs.server_channel_id, []);
   (Share.Control Share.cooperate 0 0, []);
   (Share.Control Share.request_control 0 0, [Share.Control Share.granted_control u Mcs.server_channel_id]);
   (Share.FontList 0 0 3 50, [default_font_map])].

(** The Font List ends it. *)
Definition after_final (pdu : Share.DataPdu) (s : t) : t :=
  match pdu with
  | Share.FontList _ _ _ _ =>
      with_reactivating false (with_events (events_ s ++ [Activated (reactivating_ s)]) (with_state active (view s)))
  | _ => view s
  end.

Lemma data_sent pdu answers s : wf s -> state_ s = finalizing -> input_ s = [] ->
  let u := user_channel_id (session_ s) in
  let share := share_id (session_ s) in
  (pdu, answers) ∈ finalization u share ->
  leads (Pdu (on_io u (data_pdu share u pdu))) ((fun a => indicates (data_pdu share Mcs.server_channel_id a)) <$> answers) s
    (after_final pdu s).
Proof.
  intros H Hs Hin u share Hp. pose proof (widths_user s H ltac:(by rewrite Hs)) as Hu.
  unfold finalization in Hp. rewrite !elem_of_cons in Hp.
  apply data_delivered; [done..| |].
  { destruct Hp as [[= -> _]|[[= -> _]|[[= -> _]|[[= -> _]|[]%elem_of_nil]]]]; done. }
  intros body sd r Hr Hid Hd. unfold on_data_pdu. decoded Hr. run_steps. rewrite Hid, Z.eqb_refl. cbn [negb].
  wp_step. apply wp_lift. rewrite Hd. cbv beta iota.
  destruct Hp as [[= -> ->]|[[= -> ->]|[[= -> ->]|[[= -> ->]|[]%elem_of_nil]]]].
  - run_steps. by apply yielded; [|apply says_nil|].
  - change (Share.cooperate =? Share.request_control) with false. cbv iota. run_steps. by apply yielded; [|apply says_nil|].
  - change (Share.request_control =? Share.request_control) with true. cbv iota.
    apply wp_says_data; [cbn [Share.pdu_ok]; by rewrite Hu|]. intros out W. by apply yielded; [|by eapply says_one|].
  - wp_step. apply wp_says_data; [done|]. intros out W. cbv beta iota. run_steps. cbn [state_ with_output].
    rewrite bool_decide_true by done. unfold activate. run_steps. by apply yielded; [|by eapply says_one|].
Qed.

(** ** The whole sequence *)

(** What the client does, each step with the PDUs the server answers it with. *)
Definition Script : Type := list (Act * list (Enc unit)).

Fixpoint converses (script : Script) (s s' : t) : Prop :=
  match script with
  | [] => s = s'
  | (a, answers) :: script' => exists s1, performs a s s1 /\ says answers s s1 /\ converses script' s1 s'
  end.

(** A step that leaves nothing in the buffer keeps the invariant. *)
Lemma receive_keeps_wf bytes s s' : wf s -> receive bytes s = Some (Ok tt, s') -> input_ s' = [] -> wf s'.
Proof.
  intros H E Hi. unfold receive, mbind, in_state, mget, mmod in E. case_bool_decide; [by injection E as <-|].
  set (s1 := with_input _ s) in E. pose proof (advances_input s (input_ s ++ bytes) H) as Ha. fold s1 in Ha.
  destruct (receive_loop_safe (S (length (input_ s1))) s1 (ad_wf _ _ Ha) ltac:(lia)) as (r & s2 & El & A & _ & returned & -> & _).
  rewrite El in E. destruct returned; [injection E as <-; exact (ad_wf _ _ A)|].
  destruct (_ <? _) eqn:Et.
  - unfold fail_, mbind, put_state, emplace_event, mmod in E. injection E as <-. cbn in Hi.
    by rewrite Hi in Et.
  - injection E as <-. exact (ad_wf _ _ A).
Qed.

Lemma performs_wf a s s' : wf s -> performs a s s' -> input_ s' = [] -> wf s'.
Proof.
  intros H. destruct a as [m|now].
  - intros (e & _ & R). by eapply receive_keeps_wf.
  - intros E _. exact (ad_wf _ _ (proj1 (proj2 (wp_run _ _ _ _ _ (tick_safe now s H) E)))).
Qed.

Lemma converse_step a answers script s v (P : t -> Prop) : wf s -> leads a answers s v ->
  (forall s1, wf s1 -> input_ s1 = [] -> view s1 = v -> exists s', converses script s1 s' /\ P s') ->
  exists s', converses ((a, answers) :: script) s s' /\ P s'.
Proof.
  intros H (s1 & E & I & O & V) Hk. destruct (Hk s1 (performs_wf _ _ _ H E I) I V) as (s' & D & HP).
  exists s'. split; [|done]. by exists s1.
Qed.

(** The stage a connection has come to: its members but for the output. *)
Record stage (config : ServerConfig) (st : State) (x : Session) (es : list Event) (js : list Z) (a : AutoDetect.t) (now : Z)
    (s : t) : Prop := mkStage {
  stage_wf : wf s;
  stage_input : input_ s = [];
  stage_config : config_ s = config;
  stage_state : state_ s = st;
  stage_session : session_ s = x;
  stage_events : events_ s = es;
  stage_first : reactivating_ s = false;
  stage_joined : joined_channels_ s = js;
  stage_link : autodetect_ s = a;
  stage_now : now_ s = now
}.

Lemma stage_view config st x es js a now s v : wf s -> input_ s = [] -> view s = v ->
  config_ v = config -> state_ v = st -> session_ v = x -> events_ v = es -> reactivating_ v = false ->
  joined_channels_ v = js -> autodetect_ v = a -> now_ v = now -> stage config st x es js a now s.
Proof. intros H I <- ? ? ? ? ? ? ? ?. split; done. Qed.

Ltac staged W I V := eapply stage_view; [exact W|exact I|exact V|..]; cbn; try done; try congruence.

Definition joins (u : Z) (ids : list Z) : Script :=
  (fun id => (Pdu (Mcs.encode (Mcs.ChannelJoinRequest u id)), [join_confirm u id])) <$> ids.

Lemma joins_answered config x es ids script a now (P : t -> Prop) : forall js s,
  stage config wait_channel_joins x es js a now s -> forallb (joinable x) ids = true ->
  (forall s1, stage config wait_channel_joins x es (js ++ ids) a now s1 -> exists s', converses script s1 s' /\ P s') ->
  exists s', converses (joins (user_channel_id x) ids ++ script) s s' /\ P s'.
Proof.
  induction ids as [|id ids IH]; intros js s St Hj Hk; [apply Hk; by rewrite app_nil_r|].
  cbn [forallb] in Hj. apply andb_prop in Hj as [Hid Hj]. pose proof St as [W I C S X E R J L N].
  pose proof (wf_agreed _ _ _ _ _ W ltac:(by rewrite S)) as A. change (joins (user_channel_id x) (id :: ids) ++ script) with
    ((Pdu (Mcs.encode (Mcs.ChannelJoinRequest (user_channel_id x) id)), [join_confirm (user_channel_id x) id])
      :: joins (user_channel_id x) ids ++ script).
  eapply converse_step; [done|rewrite <- X; eapply channel_join; [done..|by rewrite X]|].
  intros s1 W1 I1 V1. apply (IH (js ++ [id])); [staged W1 I1 V1|done|]. intros s2. rewrite <- app_assoc. apply Hk.
Qed.

(** The measurement from the state it is in, with what ends it. *)
Fixpoint measurement (id : Z) (x : Session) (a : AutoDetect.t) (now : Z) (steps : list Step) : Script :=
  match steps with
  | [] => []
  | st :: steps' =>
      let (a', now') := step_link a now st in
      (step_act (user_channel_id x) id st, if AutoDetect.connect_time_complete a' now' then results a' x else [])
      :: measurement id x a' now' steps'
  end.

(** The last step completes it, and none before. *)
Fixpoint measures (a : AutoDetect.t) (now : Z) (steps : list Step) : bool :=
  match steps with
  | [] => false
  | st :: steps' =>
      let (a', now') := step_link a now st in
      if AutoDetect.connect_time_complete a' now' then match steps' with [] => true | _ => false end
      else measures a' now' steps'
  end.

Lemma measurement_answered config x es js script id steps (P : t -> Prop) : forall a now s,
  stage config connect_time_autodetect x es js a now s -> message_channel_id x = Some id ->
  forallb step_ok steps = true -> measures a now steps = true ->
  (forall s1 a' now', stage config wait_confirm_active (shared x) es js a' now' s1 -> exists s', converses script s1 s' /\ P s') ->
  exists s', converses (measurement id x a now steps ++ script) s s' /\ P s'.
Proof.
  induction steps as [|st steps IH]; intros a now s St Em Hok Hm Hk; [done|].
  cbn [forallb] in Hok. apply andb_prop in Hok as [Hst Hok]. destruct St as [W I C S X E R J L N].
  pose proof (wf_agreed _ _ _ _ _ W ltac:(by rewrite S)) as A.
  pose proof (measuring_step st s id _ W S I A ltac:(by rewrite X) Hst) as Hl. rewrite L, N in Hl.
  cbn [measurement measures] in *. destruct (step_link a now st) as [a1 now1] eqn:Es.
  unfold step_answers, step_state in Hl. rewrite !X in Hl.
  cbn [app]. eapply converse_step; [done|exact Hl|]. intros s1 W1 I1 V1. clear Hl.
  destruct (AutoDetect.connect_time_complete a1 now1).
  - destruct steps; [|done]. eapply Hk. staged W1 I1 V1.
  - apply IH; [staged W1 I1 V1|done..].
Qed.

(** What a client brings to the connection; [arrival] is the time of its Client
    Info, and [steps] what happens while the link is measured. *)
Record Client := mkClient {
  domains : Mcs.ConnectInitial;
  about : Gcc.ClientData;
  joined : list Z;
  arrival : Z;
  info : ClientInfo.ClientInfo;
  steps : list Step;
  confirm : Share.ConfirmActive
}.

(** The session the server and the client agree on, and what the Client Info makes of it. *)
Definition negotiated (config : ServerConfig) (n : PreAuth.Negotiation) (c : Client) : Session :=
  agree config (about c) (set_client_data (about c) (no_session n)).
Definition informed (config : ServerConfig) (x : Session) (c : Client) : Session :=
  told (info c) (detects config x (joined c)) (beats x (joined c)) x.

(** The estimator when the measurement starts. *)
Definition detection_start (config : ServerConfig) (c : Client) : list AutodetectCodec.Request * AutoDetect.t :=
  AutoDetect.start_connect_time (AutoDetect.make (autodetect_config config)) (arrival c).

(** The Client Info, and the measurement where it runs. *)
Definition introduction (config : ServerConfig) (x : Session) (c : Client) : Script :=
  let y := informed config x c in
  if at_connect_time config x (joined c) then
    (Pdu (on_io (user_channel_id x) (send_info (info c))), [send_autodetects y (fst (detection_start config c))])
    :: measurement (default 0 (message_channel_id x)) y (snd (detection_start config c)) (arrival c) (steps c)
  else [(Pdu (on_io (user_channel_id x) (send_info (info c))), licensing (shared y))].

(** The finalization of the user [u] in the share [share]. *)
Definition final_pdu (u share : Z) (p : Share.DataPdu * list Share.DataPdu) : Act * list (Enc unit) :=
  (Pdu (on_io u (data_pdu share u (fst p))), (fun a => indicates (data_pdu share Mcs.server_channel_id a)) <$> snd p).
Definition final (u share : Z) : Script := final_pdu u share <$> finalization u share.

(** The connection sequence ([MS-RDPBCGR] 1.3.1.1) between client and server. *)
Definition connection_sequence (config : ServerConfig) (n : PreAuth.Negotiation) (c : Client) : Script :=
  let x := negotiated config n c in
  let u := user_channel_id x in
  let share := Z.lor 0x00010000 u in
  (Pdu (client_initial (domains c) (about c)),
     [connect_response (domains c) (about c) (set_client_data (about c) (no_session n))]) ::
  (Pdu (Mcs.encode (Mcs.ErectDomainRequest 0 0)), []) ::
  (Pdu (Mcs.encode Mcs.AttachUserRequest), [attach_confirm u]) ::
  joins u (joined c) ++
  (At (arrival c), []) ::
  introduction config x c ++
  (Pdu (on_io u (Share.encode_confirm_active u (confirm c))),
     [indicates (data_pdu share Mcs.server_channel_id (Share.Synchronize 1 u));
      indicates (data_pdu share Mcs.server_channel_id (Share.Control Share.cooperate 0 0))]) ::
  final u share.

(** A well-formed client: its PDUs are encodable and fit their frames, it joins
    channels of the session, where the link is measured at connect time it stays
    until the measurement is over, and it confirms the share that was demanded
    with the general and the bitmap capability sets. *)
Definition client_fits (config : ServerConfig) (n : PreAuth.Negotiation) (c : Client) : bool :=
  let caps := Share.ca_capabilities (confirm c) in
  let x := negotiated config n c in
  initial_fits (domains c) && Gcc.client_ok (about c) && repeats_protocol n (about c) &&
  forallb (joinable x) (joined c) &&
  ClientInfo.info_ok (info c) &&
  (if at_connect_time config x (joined c)
   then forallb step_ok (steps c) && measures (snd (detection_start config c)) (arrival c) (steps c) else true) &&
  Share.confirm_ok (confirm c) &&
  (420 + Capabilities.raw_size (Capabilities.other caps) <=? Per.max_length) &&
  bool_decide (is_Some (Capabilities.general caps)) && bool_decide (is_Some (Capabilities.bitmap caps)) &&
  (Share.ca_share_id (confirm c) =? Z.lor 0x00010000 (user_channel_id x)).

Lemma wf_start config n : config_ok config = true -> u32_ok (PreAuth.requested_protocols n) = true -> wf (make config n).
Proof. intros. by split. Qed.

(** Up to the joins. *)
Lemma domain_answered config n c script (P : t -> Prop) :
  config_ok config = true -> u32_ok (PreAuth.requested_protocols n) = true -> client_fits config n c = true ->
  let x := negotiated config n c in
  let a := AutoDetect.make (autodetect_config config) in
  (forall s, stage config wait_channel_joins x [] (joined c) a (arrival c) s -> exists s', converses script s s' /\ P s') ->
  exists s', converses ((Pdu (client_initial (domains c) (about c)),
        [connect_response (domains c) (about c) (set_client_data (about c) (no_session n))]) ::
      (Pdu (Mcs.encode (Mcs.ErectDomainRequest 0 0)), []) ::
      (Pdu (Mcs.encode Mcs.AttachUserRequest), [attach_confirm (user_channel_id x)]) ::
      joins (user_channel_id x) (joined c) ++ (At (arrival c), []) :: script) (make config n) s' /\ P s'.
Proof.
  intros Hc Hn Hf x a Hk. unfold client_fits in Hf. fold x in Hf. bools.
  pose proof (wf_start config n Hc Hn) as W0.
  eapply converse_step; [exact W0|by apply (connect_initial (domains c) (about c) (make config n) W0)|]. intros s1 W1 I1 V1.
  assert (stage config wait_erect_domain x [] [] a 0 s1) as [_ _ C1 S1 X1 E1 R1 J1 L1 N1] by staged W1 I1 V1.
  eapply converse_step; [done|by apply erect_domain|]. intros s2 W2 I2 V2.
  assert (stage config wait_attach_user x [] [] a 0 s2) as [_ _ C2 S2 X2 E2 R2 J2 L2 N2] by staged W2 I2 V2.
  pose proof (wf_agreed _ _ _ _ _ W2 ltac:(by rewrite S2)) as A2.
  eapply converse_step; [done|rewrite <- X2; by eapply attach_user|]. intros s3 W3 I3 V3.
  apply (joins_answered config x [] (joined c) _ a 0 P []); [staged W3 I3 V3|done|].
  intros s4 [W4 I4 C4 S4 X4 E4 R4 J4 L4 N4].
  eapply converse_step; [done|by apply time_passes|]. intros s5 W5 I5 V5. apply Hk. staged W5 I5 V5.
Qed.

(** The Client Info up to the Demand Active. *)
Lemma introduction_answered config x c script s (P : t -> Prop) :
  stage config wait_channel_joins x [] (joined c) (AutoDetect.make (autodetect_config config)) (arrival c) s ->
  ClientInfo.info_ok (info c) = true ->
  (if at_connect_time config x (joined c)
   then forallb step_ok (steps c) && measures (snd (detection_start config c)) (arrival c) (steps c) else true) = true ->
  (forall s1 a' now', stage config wait_confirm_active (shared (informed config x c)) [info_event (info c)] (joined c) a' now' s1 ->
     exists s', converses script s1 s' /\ P s') ->
  exists s', converses (introduction config x c ++ script) s s' /\ P s'.
Proof.
  intros [W I C S X E R J L N] Hi Hm Hk.
  assert (at_connect_time (config_ s) (session_ s) (joined_channels_ s) = at_connect_time config x (joined c)) as Ec by (by rewrite C, X, J).
  assert (session_ (introduced (info c) s) = informed config x c) as Ey by (cbn; by rewrite C, X, J).
  assert (events_ (introduced (info c) s) = [info_event (info c)]) as Ee by (cbn; by rewrite E).
  unfold introduction. destruct (at_connect_time config x (joined c)) eqn:Ed; cbn [app].
  - apply andb_prop in Hm as [Hok Hm].
    pose proof (client_info_probed (info c) s W S I Hi Ec) as Hl. unfold first_requests in Hl. rewrite X, Ey, L, N in Hl.
    eapply converse_step; [done|exact Hl|]. intros s1 W1 I1 V1.
    assert (exists id, message_channel_id x = Some id) as [mid Em].
    { unfold at_connect_time, detects, message_joined in Ed. destruct (message_channel_id x); [eauto|done]. }
    rewrite Em. change (default 0 (Some mid)) with mid.
    eapply measurement_answered; [|done|done|exact Hm|exact Hk]. staged W1 I1 V1.
  - pose proof (client_info_licensed (info c) s W S I Hi Ec) as Hl. rewrite X, Ey in Hl.
    eapply converse_step; [done|exact Hl|]. intros s1 W1 I1 V1. eapply Hk. staged W1 I1 V1.
Qed.

(** The finalization. *)
Lemma final_step config y es js a now p script s (P : t -> Prop) : stage config finalizing y es js a now s ->
  p ∈ finalization (user_channel_id y) (share_id y) ->
  (forall s1, wf s1 -> input_ s1 = [] -> view s1 = after_final (fst p) s -> exists s', converses script s1 s' /\ P s') ->
  exists s', converses (final_pdu (user_channel_id y) (share_id y) p :: script) s s' /\ P s'.
Proof.
  intros [W I C S X E R J L N] Hp Hk. unfold final_pdu. eapply converse_step; [done| |exact Hk].
  rewrite <- X in *. apply data_sent; [done..|]. by destruct p.
Qed.

Lemma final_kept config y es js a now p script s (P : t -> Prop) : stage config finalizing y es js a now s ->
  p ∈ finalization (user_channel_id y) (share_id y) -> after_final (fst p) s = view s ->
  (forall s1, stage config finalizing y es js a now s1 -> exists s', converses script s1 s' /\ P s') ->
  exists s', converses (final_pdu (user_channel_id y) (share_id y) p :: script) s s' /\ P s'.
Proof.
  intros St Hp Hv Hk. eapply final_step; [done..|]. rewrite Hv. intros s1 W1 I1 V1. apply Hk.
  destruct St as [W I C S X E R J L N]. staged W1 I1 V1.
Qed.

Lemma final_answered config y es js a now s : stage config finalizing y es js a now s ->
  exists s', converses (final (user_channel_id y) (share_id y)) s s' /\
    stage config active y (es ++ [Activated false]) js a now s'.
Proof.
  intros St. unfold final, finalization. rewrite !fmap_cons.
  do 3 (eapply final_kept; [done|unfold finalization; set_solver|done|]; clear dependent s; intros s St).
  eapply final_step; [done|unfold finalization; set_solver|].
  destruct St as [W I C S X E R J L N]. intros s4 W4 I4 V4. exists s4. split; [done|]. cbn [after_final fst] in V4.
  rewrite E, R in V4. staged W4 I4 V4.
Qed.

(** C2: a client that follows the connection sequence becomes active.  Whatever
    the mode of auto-detection, the client's data, user and capabilities,
    whichever of its channels it joins and in whichever order, and, where the link
    is measured at connect time, whatever it reports until the measurement is
    over: every PDU from the Connect Initial to the Font List is encodable and
    accepted, and at every step the server writes exactly the PDUs that the
    sequence has there, and nothing else: the Connect Response, the Attach User
    Confirm, a Join Confirm for each join, the requests of the measurement and its
    result, the license and the Demand Active, Synchronize and Control, the control
    that was requested, and the Font Map.  The connection ends in the state [active]
    having reported the client's credentials and one [Activated], with the session
    that its data and capabilities call for and nothing left in the buffer.  The
    caller makes no other calls between these steps; the output accumulates. *)
Theorem handshake_activates config n c :
  config_ok config = true -> u32_ok (PreAuth.requested_protocols n) = true -> client_fits config n c = true ->
  exists s',
    converses (connection_sequence config n c) (make config n) s' /\
    state_ s' = active /\ events_ s' = [info_event (info c); Activated false] /\
    session_ s' = confirmed (confirm c) (shared (informed config (negotiated config n c) c)) /\ input_ s' = [].
Proof.
  intros Hc Hn Hf. pose proof Hf as Hk. unfold client_fits in Hk. set (x := negotiated config n c) in *. cbv zeta in Hk. bools.
  apply (domain_answered config n c); [done..|]. intros s St.
  eapply introduction_answered; [exact St|done|done|]. fold x. intros s1 a' now' [W1 I1 C1 S1 X1 E1 R1 J1 L1 N1].
  set (y := shared (informed config x c)) in *.
  assert (user_channel_id x = user_channel_id y) as Eu by done.
  assert (Z.lor 0x00010000 (user_channel_id x) = share_id y) as Es by done.
  rewrite Es, Eu. eapply converse_step; [exact W1|rewrite <- X1; apply confirm_sent; try done; [..|congruence]|].
  intros s2 W2 I2 V2. set (z := confirmed (confirm c) y).
  assert (stage config finalizing z [info_event (info c)] (joined c) a' now' s2) as St2 by (subst z; staged W2 I2 V2).
  destruct (final_answered _ _ _ _ _ _ _ St2) as (s3 & D & [_ I3 _ S3 X3 E3 _ _ _ _]).
  exists s3. split; [exact D|done].
Qed.

(** ** A measured connection *)

Definition measured_config : ServerConfig := mkConfig 64 8192 32 None None full AutoDetect.link_config 5.
Definition sample_caps : Capabilities.CapabilitySets :=
  Capabilities.set_share (Some (Capabilities.mkShare 0)) (server_capabilities
    (agree measured_config Gcc.sample_client (set_client_data Gcc.sample_client (no_session sample_negotiation)))).

(** A client that answers the request for the round trip and is slow to report
    the bandwidth, so that the time for it passes. *)
Definition sample_client : Client :=
  mkClient Mcs.sample_initial Gcc.sample_client [1006; 1003; 1005; 1004] 1000 ClientInfo.sample_info
    [Time 1008; Answer (AutodetectCodec.RttResponse 1); Time 1012; Time 1030]
    (Share.mkConfirm (Z.lor 0x00010000 1006) Mcs.server_channel_id (X224.text "MSTSC") sample_caps).

(** The last time to pass ends the measurement: the result, the license and the
    Demand Active answer it. *)
Lemma handshake_activates_witness : exists s',
  converses (connection_sequence measured_config sample_negotiation sample_client) (make measured_config sample_negotiation) s' /\
  (fun p => length (snd p)) <$> connection_sequence measured_config sample_negotiation sample_client =
    [1; 0; 1; 1; 1; 1; 1; 0; 1; 0; 0; 0; 3; 2; 0; 0; 1; 1]%nat /\ state_ s' = active.
Proof.
  destruct (handshake_activates measured_config sample_negotiation sample_client) as (s' & D & S & _);
    [reflexivity|reflexivity|vm_compute; reflexivity|].
  exists s'. split; [exact D|]. split; [vm_compute; reflexivity|exact S].
Defined.

End ConnectionHandshake.
