(* ===== verification/Rdpgfx.v ===== *)
(** * Graphics pipeline PDUs

    Models [src/src/farland/channels/rdpgfx.hpp] and [rdpgfx.cpp]: the 23
    messages of the graphics pipeline channel in both directions, capability
    sets, the framing of a stream of messages and the packed time of day.  A
    [std::span] of bitmap data is the bytes it refers to. *)

From S2P Require Import Prelude Buffers CodecLogic Fields.
Open Scope Z_scope.

Module Rdpgfx.

(** Namespace [cmd]. *)
Definition cmd_wire_to_surface_1 : Z := 0x0001.
Definition cmd_wire_to_surface_2 : Z := 0x0002.
Definition cmd_delete_encoding_context : Z := 0x0003.
Definition cmd_solid_fill : Z := 0x0004.
Definition cmd_surface_to_surface : Z := 0x0005.
Definition cmd_surface_to_cache : Z := 0x0006.
Definition cmd_cache_to_surface : Z := 0x0007.
Definition cmd_evict_cache_entry : Z := 0x0008.
Definition cmd_create_surface : Z := 0x0009.
Definition cmd_delete_surface : Z := 0x000A.
Definition cmd_start_frame : Z := 0x000B.
Definition cmd_end_frame : Z := 0x000C.
Definition cmd_frame_acknowledge : Z := 0x000D.
Definition cmd_reset_graphics : Z := 0x000E.
Definition cmd_map_surface_to_output : Z := 0x000F.
Definition cmd_cache_import_offer : Z := 0x0010.
Definition cmd_cache_import_reply : Z := 0x0011.
Definition cmd_caps_advertise : Z := 0x0012.
Definition cmd_caps_confirm : Z := 0x0013.
Definition cmd_map_surface_to_window : Z := 0x0015.
Definition cmd_qoe_frame_acknowledge : Z := 0x0016.
Definition cmd_map_surface_to_scaled_output : Z := 0x0017.
Definition cmd_map_surface_to_scaled_window : Z := 0x0018.

(** Namespace [codec]. *)
Definition codec_uncompressed : Z := 0x0000.
Definition codec_cavideo : Z := 0x0003.
Definition codec_clearcodec : Z := 0x0008.
Definition codec_progressive : Z := 0x0009.
Definition codec_planar : Z := 0x000A.
Definition codec_avc420 : Z := 0x000B.
Definition codec_alpha : Z := 0x000C.
Definition codec_avc444 : Z := 0x000E.
Definition codec_avc444v2 : Z := 0x000F.

(** Namespace [pixel_format]. *)
Definition xrgb_8888 : Z := 0x20.
Definition argb_8888 : Z := 0x21.

Definition valid_pixel_format (format : Z) : bool := (format =? xrgb_8888) || (format =? argb_8888).

(** Namespace [cap_version]. *)
Definition v8 : Z := 0x00080004.
Definition v8_1 : Z := 0x00080105.
Definition v10 : Z := 0x000A0002.
Definition v10_1 : Z := 0x000A0100.
Definition v10_2 : Z := 0x000A0200.
Definition v10_3 : Z := 0x000A0301.
Definition v10_4 : Z := 0x000A0400.
Definition v10_5 : Z := 0x000A0502.
Definition v10_6 : Z := 0x000A0600.
Definition v10_6_err : Z := 0x000A0601.
Definition v10_7 : Z := 0x000A0701.
Definition v11_1 : Z := 0x000B0101.
Definition v11_2 : Z := 0x000B0200.
Definition v11_3 : Z := 0x000B0300.

(** Namespace [caps_flag]. *)
Definition flag_thin_client : Z := 0x00000001.
Definition flag_small_cache : Z := 0x00000002.
Definition flag_avc420_enabled : Z := 0x00000010.
Definition flag_avc_disabled : Z := 0x00000020.
Definition flag_avc_thin_client : Z := 0x00000040.
Definition flag_scaledmap_disable : Z := 0x00000080.

Definition header_size : Z := 8.
Definition reset_graphics_pdu_size : Z := 340.
Definition max_monitors : Z := 16.
Definition max_output_size : Z := 32766.
Definition max_cache_import_entries : Z := 5461.
Definition max_cache_slots : Z := 25600.
Definition max_cache_slots_small : Z := 4096.
Definition cache_size : Z := 100 * 1024 * 1024.
Definition cache_size_small : Z := 16 * 1024 * 1024.
Definition queue_depth_unavailable : Z := 0x00000000.
Definition suspend_frame_acknowledgement : Z := 0xFFFFFFFF.
Definition max_caps_sets : Z := 64.
Definition max_unknown_caps_data_length : Z := 256.
Definition max_client_pdu_size : Z := header_size + 2 + max_cache_import_entries * 12.

Definition rect16_size : Z := 8.
Definition point16_size : Z := 4.
Definition monitor_def_size : Z := 20.
Definition cache_entry_size : Z := 12.
Definition cache_slot_size : Z := 2.
Definition caps_set_header_size : Z := 8.
Definition reset_graphics_fixed_size : Z := 12.
Definition caps_data_length_flags : Z := 4.
Definition caps_data_length_v10_1 : Z := 16.

(** ** Data *)

Record Point16 := mkPoint { px : Z; py : Z }.
Record Rect16 := mkRect { left : Z; top : Z; right : Z; bottom : Z }.
Record Color32 := mkColor { c_b : Z; c_g : Z; c_r : Z; c_xa : Z }.
Record MonitorDef := mkMonitor { m_left : Z; m_top : Z; m_right : Z; m_bottom : Z; m_flags : Z }.
Record CapabilitySet := mkCaps { cs_version : Z; cs_flags : Z; unknown_data : list byte }.
Record CacheEntryMetadata := mkMetadata { cache_key : Z; bitmap_length : Z }.

Definition monitor_primary : Z := 0x00000001.

Definition rect_empty (r : Rect16) : bool := (right r <=? left r) || (bottom r <=? top r).
Definition rect_width (r : Rect16) : Z := if rect_empty r then 0 else wrap 16 (right r - left r).
Definition rect_height (r : Rect16) : Z := if rect_empty r then 0 else wrap 16 (bottom r - top r).

Inductive Pdu :=
  | WireToSurface1 (surface_id codec_id pixel_format : Z) (dest_rect : Rect16) (bitmap_data : list byte)
  | WireToSurface2 (surface_id codec_id codec_context_id pixel_format : Z) (bitmap_data : list byte)
  | DeleteEncodingContext (surface_id codec_context_id : Z)
  | SolidFill (surface_id : Z) (fill_pixel : Color32) (fill_rects : list Rect16)
  | SurfaceToSurface (surface_id_src surface_id_dest : Z) (rect_src : Rect16) (dest_pts : list Point16)
  | SurfaceToCache (surface_id cache_key cache_slot : Z) (rect_src : Rect16)
  | CacheToSurface (cache_slot surface_id : Z) (dest_pts : list Point16)
  | EvictCacheEntry (cache_slot : Z)
  | CreateSurface (surface_id width height pixel_format : Z)
  | DeleteSurface (surface_id : Z)
  | StartFrame (timestamp frame_id : Z)
  | EndFrame (frame_id : Z)
  | FrameAcknowledge (queue_depth frame_id total_frames_decoded : Z)
  | ResetGraphics (width height : Z) (monitors : list MonitorDef)
  | MapSurfaceToOutput (surface_id output_origin_x output_origin_y : Z)
  | CacheImportOffer (entries : list CacheEntryMetadata)
  | CacheImportReply (cache_slots : list Z)
  | CapsAdvertise (caps_sets : list CapabilitySet)
  | CapsConfirm (caps_set : CapabilitySet)
  | MapSurfaceToWindow (surface_id window_id mapped_width mapped_height : Z)
  | QoeFrameAcknowledge (frame_id timestamp time_diff_se time_diff_edr : Z)
  | MapSurfaceToScaledOutput (surface_id output_origin_x output_origin_y target_width target_height : Z)
  | MapSurfaceToScaledWindow (surface_id window_id mapped_width mapped_height target_width target_height : Z).

(** ** Capability set versions *)

Definition caps_data_length (version : Z) : option Z :=
  if version =? v10_1 then Some caps_data_length_v10_1
  else if existsb (Z.eqb version) [v8; v8_1; v10; v10_2; v10_3; v10_4; v10_5; v10_6; v10_6_err; v10_7]
  then Some caps_data_length_flags
  else None.

Definition defined_caps_flags (version : Z) : Z :=
  if version =? v8 then Z.lor flag_thin_client flag_small_cache
  else if version =? v8_1 then Z.lor (Z.lor flag_thin_client flag_small_cache) flag_avc420_enabled
  else if (version =? v10) || (version =? v10_2) then Z.lor flag_small_cache flag_avc_disabled
  else if version =? v10_3 then Z.lor flag_avc_disabled flag_avc_thin_client
  else if existsb (Z.eqb version) [v10_4; v10_5; v10_6; v10_6_err]
  then Z.lor (Z.lor flag_small_cache flag_avc_disabled) flag_avc_thin_client
  else if version =? v10_7
  then Z.lor (Z.lor (Z.lor flag_small_cache flag_avc_disabled) flag_avc_thin_client) flag_scaledmap_disable
  else 0.

Definition version_name (version : Z) : string :=
  if version =? v8 then "8.0"
  else if version =? v8_1 then "8.1"
  else if version =? v10 then "10.0"
  else if version =? v10_1 then "10.1"
  else if version =? v10_2 then "10.2"
  else if version =? v10_3 then "10.3"
  else if version =? v10_4 then "10.4"
  else if version =? v10_5 then "10.5"
  else if version =? v10_6 then "10.6"
  else if version =? v10_6_err then "10.6 (errata value)"
  else if version =? v10_7 then "10.7"
  else if version =? v11_1 then "11.1"
  else if version =? v11_2 then "11.2"
  else if version =? v11_3 then "11.3"
  else "unknown".

Definition make_capability_set (version flags : Z) : CapabilitySet :=
  if version =? v10_1 then mkCaps version 0 []
  else
    match caps_data_length version with
    | Some _ => mkCaps version flags []
    | None => mkCaps version flags (Writer.le_bytes 4 flags)
    end.

(** ** The packed time of day *)

Definition valid_timestamp (timestamp : Z) : bool :=
  (Z.land timestamp 0x3FF <=? 999) && (Z.land (Z.shiftr timestamp 10) 0x3F <=? 59) &&
  (Z.land (Z.shiftr timestamp 16) 0x3F <=? 59) && (Z.shiftr timestamp 22 <=? 23).

(** [None]: the assertion. *)
Definition make_timestamp (hours minutes seconds milliseconds : Z) : option Z :=
  if (hours <=? 23) && (minutes <=? 59) && (seconds <=? 59) && (milliseconds <=? 999)
  then Some (Z.lor (Z.lor (Z.lor (wrap 32 (Z.shiftl hours 22)) (wrap 32 (Z.shiftl minutes 16)))
                          (wrap 32 (Z.shiftl seconds 10))) milliseconds)
  else None.

(** ** Common data types *)

Definition read_array {A} (count element_size : Z) (read_one : Dec A) : Dec (list A) :=
  let* remaining := dask Reader.remaining in
  let* offset := dask Reader.offset in
  if remaining / element_size <? count
  then dfail truncated "array extends past the end of the PDU" offset
  else dtimes (Z.to_nat count) read_one.

(** [checked_count] and [checked_length], written to the buffer. *)
Definition write_count (count : Z) : Enc unit :=
  eassert (count <=? 0xFFFF) ;;;
  Writer.u16le (wrap 16 count).

Definition read_rect16 : Dec Rect16 :=
  let* at_ := dask Reader.offset in
  let* l := ReaderOps.u16le in
  let* t := ReaderOps.u16le in
  let* r := ReaderOps.u16le in
  let* b := ReaderOps.u16le in
  let rect := mkRect l t r b in
  if rect_empty rect then dfail invalid_value "empty or inverted RDPGFX_RECT16" at_
  else dret rect.

Definition write_rect16 (rect : Rect16) : Enc unit :=
  Writer.u16le (left rect) ;;;
  Writer.u16le (top rect) ;;;
  Writer.u16le (right rect) ;;;
  Writer.u16le (bottom rect).

Definition read_point16 : Dec Point16 :=
  let* x := ReaderOps.u16le in
  let* y := ReaderOps.u16le in
  dret (mkPoint (signed 16 x) (signed 16 y)).

Definition write_point16 (point : Point16) : Enc unit :=
  Writer.u16le (wrap 16 (px point)) ;;;
  Writer.u16le (wrap 16 (py point)).

Definition read_color32 : Dec Color32 :=
  let* b := ReaderOps.u8 in
  let* g := ReaderOps.u8 in
  let* r := ReaderOps.u8 in
  let* xa := ReaderOps.u8 in
  dret (mkColor b g r xa).

Definition write_color32 (color : Color32) : Enc unit :=
  Writer.u8 (c_b color) ;;;
  Writer.u8 (c_g color) ;;;
  Writer.u8 (c_r color) ;;;
  Writer.u8 (c_xa color).

Definition read_pixel_format : Dec Z :=
  let* at_ := dask Reader.offset in
  let* format := ReaderOps.u8 in
  if negb (valid_pixel_format format) then dfail invalid_value "unknown RDPGFX_PIXELFORMAT" at_
  else dret format.

Definition read_cache_slot : Dec Z :=
  let* at_ := dask Reader.offset in
  let* slot := ReaderOps.u16le in
  if (slot =? 0) || (max_cache_slots <? slot) then dfail invalid_value "cacheSlot outside 1 to 25600" at_
  else dret slot.

Definition read_bitmap_data : Dec (list byte) :=
  let* length := ReaderOps.u32le in
  ReaderOps.bytes length.

Definition write_bitmap_data (data : list byte) : Enc unit :=
  eassert (len data <=? 0xFFFFFFFF) ;;;
  Writer.u32le (wrap 32 (len data)) ;;;
  Writer.bytes data.

Definition read_monitor_def : Dec MonitorDef :=
  let* l := ReaderOps.u32le in
  let* t := ReaderOps.u32le in
  let* r := ReaderOps.u32le in
  let* b := ReaderOps.u32le in
  let* flags := ReaderOps.u32le in
  dret (mkMonitor (signed 32 l) (signed 32 t) (signed 32 r) (signed 32 b) flags).

Definition write_monitor_def (monitor : MonitorDef) : Enc unit :=
  Writer.u32le (wrap 32 (m_left monitor)) ;;;
  Writer.u32le (wrap 32 (m_top monitor)) ;;;
  Writer.u32le (wrap 32 (m_right monitor)) ;;;
  Writer.u32le (wrap 32 (m_bottom monitor)) ;;;
  Writer.u32le (m_flags monitor).

Definition read_capability_set : Dec CapabilitySet :=
  let* version := ReaderOps.u32le in
  let* at_ := dask Reader.offset in
  let* length := ReaderOps.u32le in
  match caps_data_length version with
  | Some expected =>
      if negb (length =? expected)
      then dfail invalid_length "capsDataLength does not match the capability set version" at_
      else
        let* data := ReaderOps.sub length in
        if negb (version =? v10_1) then
          let* flags := within data ReaderOps.u32le in
          dret (mkCaps version flags [])
        else dret (mkCaps version 0 [])
  | None =>
      if max_unknown_caps_data_length <? length
      then dfail limit_exceeded "capsDataLength of an unknown capability set version" at_
      else
        let* data := ReaderOps.bytes length in
        if 4 <=? len data then
          let* flags := within (Reader.make data 0) ReaderOps.u32le in
          dret (mkCaps version flags data)
        else dret (mkCaps version 0 data)
  end.

Definition write_capability_set (set : CapabilitySet) : Enc unit :=
  Writer.u32le (cs_version set) ;;;
  match caps_data_length (cs_version set) with
  | Some length =>
      Writer.u32le length ;;;
      if cs_version set =? v10_1 then Writer.zeros caps_data_length_v10_1
      else Writer.u32le (cs_flags set)
  | None =>
      eassert (len (unknown_data set) <=? 0xFFFFFFFF) ;;;
      Writer.u32le (wrap 32 (len (unknown_data set))) ;;;
      Writer.bytes (unknown_data set)
  end.

(** ** Message bodies *)

Definition decode_wire_to_surface_1 : Dec Pdu :=
  let* surface_id := ReaderOps.u16le in
  let* codec_id := ReaderOps.u16le in
  let* pixel_format := read_pixel_format in
  let* dest_rect := read_rect16 in
  let* bitmap_data := read_bitmap_data in
  let* _ := ReaderOps.expect_end "RDPGFX_WIRE_TO_SURFACE_PDU_1 longer than its bitmapData" in
  dret (WireToSurface1 surface_id codec_id pixel_format dest_rect bitmap_data).

Definition body_wire_to_surface_1 (surface_id codec_id pixel_format : Z) (dest_rect : Rect16)
    (bitmap_data : list byte) : Enc unit :=
  Writer.u16le surface_id ;;;
  Writer.u16le codec_id ;;;
  Writer.u8 pixel_format ;;;
  write_rect16 dest_rect ;;;
  write_bitmap_data bitmap_data.

Definition decode_wire_to_surface_2 : Dec Pdu :=
  let* surface_id := ReaderOps.u16le in
  let* codec_id := ReaderOps.u16le in
  let* codec_context_id := ReaderOps.u32le in
  let* pixel_format := read_pixel_format in
  let* bitmap_data := read_bitmap_data in
  let* _ := ReaderOps.expect_end "RDPGFX_WIRE_TO_SURFACE_PDU_2 longer than its bitmapData" in
  dret (WireToSurface2 surface_id codec_id codec_context_id pixel_format bitmap_data).

Definition body_wire_to_surface_2 (surface_id codec_id codec_context_id pixel_format : Z)
    (bitmap_data : list byte) : Enc unit :=
  Writer.u16le surface_id ;;;
  Writer.u16le codec_id ;;;
  Writer.u32le codec_context_id ;;;
  Writer.u8 pixel_format ;;;
  write_bitmap_data bitmap_data.

Definition decode_delete_encoding_context : Dec Pdu :=
  let* surface_id := ReaderOps.u16le in
  let* codec_context_id := ReaderOps.u32le in
  let* _ := ReaderOps.expect_end "RDPGFX_DELETE_ENCODING_CONTEXT_PDU" in
  dret (DeleteEncodingContext surface_id codec_context_id).

Definition body_delete_encoding_context (surface_id codec_context_id : Z) : Enc unit :=
  Writer.u16le surface_id ;;;
  Writer.u32le codec_context_id.

Definition decode_solid_fill : Dec Pdu :=
  let* surface_id := ReaderOps.u16le in
  let* fill_pixel := read_color32 in
  let* count := ReaderOps.u16le in
  let* fill_rects := read_array count rect16_size read_rect16 in
  let* _ := ReaderOps.expect_end "RDPGFX_SOLIDFILL_PDU" in
  dret (SolidFill surface_id fill_pixel fill_rects).

Definition body_solid_fill (surface_id : Z) (fill_pixel : Color32) (fill_rects : list Rect16) : Enc unit :=
  Writer.u16le surface_id ;;;
  write_color32 fill_pixel ;;;
  write_count (len fill_rects) ;;;
  eeach write_rect16 fill_rects.

Definition decode_surface_to_surface : Dec Pdu :=
  let* surface_id_src := ReaderOps.u16le in
  let* surface_id_dest := ReaderOps.u16le in
  let* rect_src := read_rect16 in
  let* count := ReaderOps.u16le in
  let* dest_pts := read_array count point16_size read_point16 in
  let* _ := ReaderOps.expect_end "RDPGFX_SURFACE_TO_SURFACE_PDU" in
  dret (SurfaceToSurface surface_id_src surface_id_dest rect_src dest_pts).

Definition body_surface_to_surface (surface_id_src surface_id_dest : Z) (rect_src : Rect16)
    (dest_pts : list Point16) : Enc unit :=
  Writer.u16le surface_id_src ;;;
  Writer.u16le surface_id_dest ;;;
  write_rect16 rect_src ;;;
  write_count (len dest_pts) ;;;
  eeach write_point16 dest_pts.

Definition decode_surface_to_cache : Dec Pdu :=
  let* surface_id := ReaderOps.u16le in
  let* key := ReaderOps.u64le in
  let* cache_slot := read_cache_slot in
  let* rect_src := read_rect16 in
  let* _ := ReaderOps.expect_end "RDPGFX_SURFACE_TO_CACHE_PDU" in
  dret (SurfaceToCache surface_id key cache_slot rect_src).

Definition body_surface_to_cache (surface_id key cache_slot : Z) (rect_src : Rect16) : Enc unit :=
  Writer.u16le surface_id ;;;
  Writer.u64le key ;;;
  Writer.u16le cache_slot ;;;
  write_rect16 rect_src.

Definition decode_cache_to_surface : Dec Pdu :=
  let* cache_slot := read_cache_slot in
  let* surface_id := ReaderOps.u16le in
  let* count := ReaderOps.u16le in
  let* dest_pts := read_array count point16_size read_point16 in
  let* _ := ReaderOps.expect_end "RDPGFX_CACHE_TO_SURFACE_PDU" in
  dret (CacheToSurface cache_slot surface_id dest_pts).

Definition body_cache_to_surface (cache_slot surface_id : Z) (dest_pts : list Point16) : Enc unit :=
  Writer.u16le cache_slot ;;;
  Writer.u16le surface_id ;;;
  write_count (len dest_pts) ;;;
  eeach write_point16 dest_pts.

Definition decode_evict_cache_entry : Dec Pdu :=
  let* cache_slot := read_cache_slot in
  let* _ := ReaderOps.expect_end "RDPGFX_EVICT_CACHE_ENTRY_PDU" in
  dret (EvictCacheEntry cache_slot).

Definition body_evict_cache_entry (cache_slot : Z) : Enc unit := Writer.u16le cache_slot.

Definition decode_create_surface : Dec Pdu :=
  let* surface_id := ReaderOps.u16le in
  let* at_ := dask Reader.offset in
  let* width := ReaderOps.u16le in
  let* height := ReaderOps.u16le in
  if (width =? 0) || (height =? 0)
  then dfail invalid_value "RDPGFX_CREATE_SURFACE_PDU with an empty surface" at_
  else
    let* pixel_format := read_pixel_format in
    let* _ := ReaderOps.expect_end "RDPGFX_CREATE_SURFACE_PDU" in
    dret (CreateSurface surface_id width height pixel_format).

Definition body_create_surface (surface_id width height pixel_format : Z) : Enc unit :=
  Writer.u16le surface_id ;;;
  Writer.u16le width ;;;
  Writer.u16le height ;;;
  Writer.u8 pixel_format.

Definition decode_delete_surface : Dec Pdu :=
  let* surface_id := ReaderOps.u16le in
  let* _ := ReaderOps.expect_end "RDPGFX_DELETE_SURFACE_PDU" in
  dret (DeleteSurface surface_id).

Definition body_delete_surface (surface_id : Z) : Enc unit := Writer.u16le surface_id.

Definition decode_start_frame : Dec Pdu :=
  let* timestamp := ReaderOps.u32le in
  let* frame_id := ReaderOps.u32le in
  let* _ := ReaderOps.expect_end "RDPGFX_START_FRAME_PDU" in
  dret (StartFrame timestamp frame_id).

Definition body_start_frame (timestamp frame_id : Z) : Enc unit :=
  Writer.u32le timestamp ;;;
  Writer.u32le frame_id.

Definition decode_end_frame : Dec Pdu :=
  let* frame_id := ReaderOps.u32le in
  let* _ := ReaderOps.expect_end "RDPGFX_END_FRAME_PDU" in
  dret (EndFrame frame_id).

Definition body_end_frame (frame_id : Z) : Enc unit := Writer.u32le frame_id.

Definition decode_frame_acknowledge : Dec Pdu :=
  let* queue_depth := ReaderOps.u32le in
  let* frame_id := ReaderOps.u32le in
  let* total_frames_decoded := ReaderOps.u32le in
  let* _ := ReaderOps.expect_end "RDPGFX_FRAME_ACKNOWLEDGE_PDU" in
  dret (FrameAcknowledge queue_depth frame_id total_frames_decoded).

Definition body_frame_acknowledge (queue_depth frame_id total_frames_decoded : Z) : Enc unit :=
  Writer.u32le queue_depth ;;;
  Writer.u32le frame_id ;;;
  Writer.u32le total_frames_decoded.

(** [decode_reset_graphics] after the check of the size of the PDU. *)
Definition decode_reset_fields : Dec Pdu :=
  let* at_ := dask Reader.offset in
  let* width := ReaderOps.u32le in
  let* height := ReaderOps.u32le in
  if (width =? 0) || (height =? 0) || (max_output_size <? width) || (max_output_size <? height)
  then dfail invalid_value "RDPGFX_RESET_GRAPHICS_PDU size outside 1 to 32766" at_
  else
    let* count_at := dask Reader.offset in
    let* count := ReaderOps.u32le in
    if max_monitors <? count
    then dfail invalid_value "RDPGFX_RESET_GRAPHICS_PDU with more than 16 monitors" count_at
    else
      let* monitors := read_array count monitor_def_size read_monitor_def in
      let* remaining := dask Reader.remaining in
      let* _ := ReaderOps.skip remaining in
      dret (ResetGraphics width height monitors).

(** [r.size()] is the size of the whole PDU. *)
Definition decode_reset_graphics : Dec Pdu :=
  let* size := dask Reader.size in
  if negb (size =? reset_graphics_pdu_size)
  then dfail invalid_length "RDPGFX_RESET_GRAPHICS_PDU is not 340 bytes" 0
  else decode_reset_fields.

Definition body_reset_graphics (width height : Z) (monitors : list MonitorDef) : Enc unit :=
  eassert (len monitors <=? max_monitors) ;;;
  Writer.u32le width ;;;
  Writer.u32le height ;;;
  Writer.u32le (wrap 32 (len monitors)) ;;;
  eeach write_monitor_def monitors ;;;
  Writer.zeros (reset_graphics_pdu_size - header_size - reset_graphics_fixed_size - len monitors * monitor_def_size).

Definition decode_map_surface_to_output : Dec Pdu :=
  let* surface_id := ReaderOps.u16le in
  let* _ := ReaderOps.skip 2 in
  let* output_origin_x := ReaderOps.u32le in
  let* output_origin_y := ReaderOps.u32le in
  let* _ := ReaderOps.expect_end "RDPGFX_MAP_SURFACE_TO_OUTPUT_PDU" in
  dret (MapSurfaceToOutput surface_id output_origin_x output_origin_y).

Definition body_map_surface_to_output (surface_id output_origin_x output_origin_y : Z) : Enc unit :=
  Writer.u16le surface_id ;;;
  Writer.u16le 0 ;;;
  Writer.u32le output_origin_x ;;;
  Writer.u32le output_origin_y.

Definition read_cache_entry : Dec CacheEntryMetadata :=
  let* key := ReaderOps.u64le in
  let* length := ReaderOps.u32le in
  dret (mkMetadata key length).

(** The body of the loop of [encode_body(CacheImportOffer)]. *)
Definition write_cache_entry (entry : CacheEntryMetadata) : Enc unit :=
  Writer.u64le (cache_key entry) ;;;
  Writer.u32le (bitmap_length entry).

Definition decode_cache_import_offer : Dec Pdu :=
  let* at_ := dask Reader.offset in
  let* count := ReaderOps.u16le in
  if max_cache_import_entries <? count then dfail invalid_value "cacheEntriesCount not below 5462" at_
  else
    let* entries := read_array count cache_entry_size read_cache_entry in
    let* _ := ReaderOps.expect_end "RDPGFX_CACHE_IMPORT_OFFER_PDU" in
    dret (CacheImportOffer entries).

Definition body_cache_import_offer (entries : list CacheEntryMetadata) : Enc unit :=
  eassert (len entries <=? max_cache_import_entries) ;;;
  write_count (len entries) ;;;
  eeach write_cache_entry entries.

Definition decode_cache_import_reply : Dec Pdu :=
  let* at_ := dask Reader.offset in
  let* count := ReaderOps.u16le in
  if max_cache_import_entries <? count then dfail invalid_value "importedEntriesCount not below 5462" at_
  else
    let* cache_slots := read_array count cache_slot_size read_cache_slot in
    let* _ := ReaderOps.expect_end "RDPGFX_CACHE_IMPORT_REPLY_PDU" in
    dret (CacheImportReply cache_slots).

Definition body_cache_import_reply (cache_slots : list Z) : Enc unit :=
  eassert (len cache_slots <=? max_cache_import_entries) ;;;
  write_count (len cache_slots) ;;;
  eeach Writer.u16le cache_slots.

(** The loop of [decode_caps_advertise]: some version was met [before]. *)
Fixpoint version_twice (before : list Z) (sets : list CapabilitySet) : bool :=
  match sets with
  | [] => false
  | s :: sets' =>
      existsb (fun v => v =? cs_version s) before || version_twice (before ++ [cs_version s]) sets'
  end.

Definition decode_caps_advertise : Dec Pdu :=
  let* at_ := dask Reader.offset in
  let* count := ReaderOps.u16le in
  if count =? 0 then dfail invalid_value "RDPGFX_CAPS_ADVERTISE_PDU without capability sets" at_
  else if max_caps_sets <? count then dfail limit_exceeded "capsSetCount" at_
  else
    let* caps_sets := read_array count caps_set_header_size read_capability_set in
    if version_twice [] caps_sets then dfail invalid_value "capability set version advertised twice" at_
    else
      let* _ := ReaderOps.expect_end "RDPGFX_CAPS_ADVERTISE_PDU" in
      dret (CapsAdvertise caps_sets).

Definition body_caps_advertise (caps_sets : list CapabilitySet) : Enc unit :=
  write_count (len caps_sets) ;;;
  eeach write_capability_set caps_sets.

Definition decode_caps_confirm : Dec Pdu :=
  let* caps_set := read_capability_set in
  let* _ := ReaderOps.expect_end "RDPGFX_CAPS_CONFIRM_PDU" in
  dret (CapsConfirm caps_set).

Definition body_caps_confirm (caps_set : CapabilitySet) : Enc unit := write_capability_set caps_set.

Definition decode_map_surface_to_window : Dec Pdu :=
  let* surface_id := ReaderOps.u16le in
  let* window_id := ReaderOps.u64le in
  let* mapped_width := ReaderOps.u32le in
  let* mapped_height := ReaderOps.u32le in
  let* _ := ReaderOps.expect_end "RDPGFX_MAP_SURFACE_TO_WINDOW_PDU" in
  dret (MapSurfaceToWindow surface_id window_id mapped_width mapped_height).

Definition body_map_surface_to_window (surface_id window_id mapped_width mapped_height : Z) : Enc unit :=
  Writer.u16le surface_id ;;;
  Writer.u64le window_id ;;;
  Writer.u32le mapped_width ;;;
  Writer.u32le mapped_height.

Definition decode_qoe_frame_acknowledge : Dec Pdu :=
  let* frame_id := ReaderOps.u32le in
  let* timestamp := ReaderOps.u32le in
  let* time_diff_se := ReaderOps.u16le in
  let* time_diff_edr := ReaderOps.u16le in
  let* _ := ReaderOps.expect_end "RDPGFX_QOE_FRAME_ACKNOWLEDGE_PDU" in
  dret (QoeFrameAcknowledge frame_id timestamp time_diff_se time_diff_edr).

Definition body_qoe_frame_acknowledge (frame_id timestamp time_diff_se time_diff_edr : Z) : Enc unit :=
  Writer.u32le frame_id ;;;
  Writer.u32le timestamp ;;;
  Writer.u16le time_diff_se ;;;
  Writer.u16le time_diff_edr.

Definition decode_map_surface_to_scaled_output : Dec Pdu :=
  let* surface_id := ReaderOps.u16le in
  let* _ := ReaderOps.skip 2 in
  let* output_origin_x := ReaderOps.u32le in
  let* output_origin_y := ReaderOps.u32le in
  let* target_width := ReaderOps.u32le in
  let* target_height := ReaderOps.u32le in
  let* _ := ReaderOps.expect_end "RDPGFX_MAP_SURFACE_TO_SCALED_OUTPUT_PDU" in
  dret (MapSurfaceToScaledOutput surface_id output_origin_x output_origin_y target_width target_height).

Definition body_map_surface_to_scaled_output
    (surface_id output_origin_x output_origin_y target_width target_height : Z) : Enc unit :=
  Writer.u16le surface_id ;;;
  Writer.u16le 0 ;;;
  Writer.u32le output_origin_x ;;;
  Writer.u32le output_origin_y ;;;
  Writer.u32le target_width ;;;
  Writer.u32le target_height.

Definition decode_map_surface_to_scaled_window : Dec Pdu :=
  let* surface_id := ReaderOps.u16le in
  let* window_id := ReaderOps.u64le in
  let* mapped_width := ReaderOps.u32le in
  let* mapped_height := ReaderOps.u32le in
  let* target_width := ReaderOps.u32le in
  let* target_height := ReaderOps.u32le in
  let* _ := ReaderOps.expect_end "RDPGFX_MAP_SURFACE_TO_SCALED_WINDOW_PDU" in
  dret (MapSurfaceToScaledWindow surface_id window_id mapped_width mapped_height target_width target_height).

Definition body_map_surface_to_scaled_window
    (surface_id window_id mapped_width mapped_height target_width target_height : Z) : Enc unit :=
  Writer.u16le surface_id ;;;
  Writer.u64le window_id ;;;
  Writer.u32le mapped_width ;;;
  Writer.u32le mapped_height ;;;
  Writer.u32le target_width ;;;
  Writer.u32le target_height.

(** ** Whole messages *)

Definition cmd_id (pdu : Pdu) : Z :=
  match pdu with
  | WireToSurface1 _ _ _ _ _ => cmd_wire_to_surface_1
  | WireToSurface2 _ _ _ _ _ => cmd_wire_to_surface_2
  | DeleteEncodingContext _ _ => cmd_delete_encoding_context
  | SolidFill _ _ _ => cmd_solid_fill
  | SurfaceToSurface _ _ _ _ => cmd_surface_to_surface
  | SurfaceToCache _ _ _ _ => cmd_surface_to_cache
  | CacheToSurface _ _ _ => cmd_cache_to_surface
  | EvictCacheEntry _ => cmd_evict_cache_entry
  | CreateSurface _ _ _ _ => cmd_create_surface
  | DeleteSurface _ => cmd_delete_surface
  | StartFrame _ _ => cmd_start_frame
  | EndFrame _ => cmd_end_frame
  | FrameAcknowledge _ _ _ => cmd_frame_acknowledge
  | ResetGraphics _ _ _ => cmd_reset_graphics
  | MapSurfaceToOutput _ _ _ => cmd_map_surface_to_output
  | CacheImportOffer _ => cmd_cache_import_offer
  | CacheImportReply _ => cmd_cache_import_reply
  | CapsAdvertise _ => cmd_caps_advertise
  | CapsConfirm _ => cmd_caps_confirm
  | MapSurfaceToWindow _ _ _ _ => cmd_map_surface_to_window
  | QoeFrameAcknowledge _ _ _ _ => cmd_qoe_frame_acknowledge
  | MapSurfaceToScaledOutput _ _ _ _ _ => cmd_map_surface_to_scaled_output
  | MapSurfaceToScaledWindow _ _ _ _ _ _ => cmd_map_surface_to_scaled_window
  end.

(** [Ok None] while the stream holds less than the PDU at its start. *)
Definition frame_pdu (stream : list byte) (max_size : Z) : Result (option Z) :=
  if len stream <? header_size then Ok None
  else
    match (let* _ := ReaderOps.skip 4 in
           let* at_ := dask Reader.offset in
           let* length := ReaderOps.u32le in
           dret (at_, length)) (Reader.make stream 0) with
    | Err e => Err e
    | Ok ((at_, length), _) =>
        if length <? header_size then fail invalid_length "pduLength below the RDPGFX_HEADER size" at_
        else if max_size <? length then fail limit_exceeded "RDPGFX PDU above the size limit" at_
        else if len stream <? length then Ok None
        else Ok (Some length)
    end.

(** The [switch] of [decode_pdu]. *)
Definition decode_body (command : Z) : Dec Pdu :=
  if command =? cmd_wire_to_surface_1 then decode_wire_to_surface_1
  else if command =? cmd_wire_to_surface_2 then decode_wire_to_surface_2
  else if command =? cmd_delete_encoding_context then decode_delete_encoding_context
  else if command =? cmd_solid_fill then decode_solid_fill
  else if command =? cmd_surface_to_surface then decode_surface_to_surface
  else if command =? cmd_surface_to_cache then decode_surface_to_cache
  else if command =? cmd_cache_to_surface then decode_cache_to_surface
  else if command =? cmd_evict_cache_entry then decode_evict_cache_entry
  else if command =? cmd_create_surface then decode_create_surface
  else if command =? cmd_delete_surface then decode_delete_surface
  else if command =? cmd_start_frame then decode_start_frame
  else if command =? cmd_end_frame then decode_end_frame
  else if command =? cmd_frame_acknowledge then decode_frame_acknowledge
  else if command =? cmd_reset_graphics then decode_reset_graphics
  else if command =? cmd_map_surface_to_output then decode_map_surface_to_output
  else if command =? cmd_cache_import_offer then decode_cache_import_offer
  else if command =? cmd_cache_import_reply then decode_cache_import_reply
  else if command =? cmd_caps_advertise then decode_caps_advertise
  else if command =? cmd_caps_confirm then decode_caps_confirm
  else if command =? cmd_map_surface_to_window then decode_map_surface_to_window
  else if command =? cmd_qoe_frame_acknowledge then decode_qoe_frame_acknowledge
  else if command =? cmd_map_surface_to_scaled_output then decode_map_surface_to_scaled_output
  else if command =? cmd_map_surface_to_scaled_window then decode_map_surface_to_scaled_window
  else dfail unsupported "unknown RDPGFX cmdId" 0.

Definition read_pdu (size : Z) : Dec Pdu :=
  let* command := ReaderOps.u16le in
  let* _ := ReaderOps.skip 2 in
  let* at_ := dask Reader.offset in
  let* length := ReaderOps.u32le in
  if negb (length =? size) then dfail invalid_length "pduLength does not match the PDU size" at_
  else decode_body command.

Definition decode_pdu (bytes : list byte) : Result Pdu :=
  match read_pdu (len bytes) (Reader.make bytes 0) with Ok (p, _) => Ok p | Err e => Err e end.

(** [std::visit] of the overloads of [encode_body]. *)
Definition encode_body (pdu : Pdu) : Enc unit :=
  match pdu with
  | WireToSurface1 s c f r d => body_wire_to_surface_1 s c f r d
  | WireToSurface2 s c x f d => body_wire_to_surface_2 s c x f d
  | DeleteEncodingContext s x => body_delete_encoding_context s x
  | SolidFill s c rs => body_solid_fill s c rs
  | SurfaceToSurface s d r ps => body_surface_to_surface s d r ps
  | SurfaceToCache s k c r => body_surface_to_cache s k c r
  | CacheToSurface c s ps => body_cache_to_surface c s ps
  | EvictCacheEntry c => body_evict_cache_entry c
  | CreateSurface s w h f => body_create_surface s w h f
  | DeleteSurface s => body_delete_surface s
  | StartFrame t f => body_start_frame t f
  | EndFrame f => body_end_frame f
  | FrameAcknowledge q f t => body_frame_acknowledge q f t
  | ResetGraphics w h ms => body_reset_graphics w h ms
  | MapSurfaceToOutput s x y => body_map_surface_to_output s x y
  | CacheImportOffer es => body_cache_import_offer es
  | CacheImportReply ss => body_cache_import_reply ss
  | CapsAdvertise cs => body_caps_advertise cs
  | CapsConfirm c => body_caps_confirm c
  | MapSurfaceToWindow s i w h => body_map_surface_to_window s i w h
  | QoeFrameAcknowledge f t s e => body_qoe_frame_acknowledge f t s e
  | MapSurfaceToScaledOutput s x y w h => body_map_surface_to_scaled_output s x y w h
  | MapSurfaceToScaledWindow s i w h tw th => body_map_surface_to_scaled_window s i w h tw th
  end.

Definition encode_to (pdu : Pdu) : Enc unit :=
  let! start := Writer.size in
  Writer.u16le (cmd_id pdu) ;;;
  Writer.u16le 0 ;;;
  Writer.u32le 0 ;;;
  encode_body pdu ;;;
  let! size := Writer.size in
  eassert (size - start <=? 0xFFFFFFFF) ;;;
  Writer.patch_u32le (start + 4) (wrap 32 (size - start)).

Definition encode (pdu : Pdu) : option (list byte) := Writer.run (encode_to pdu).

(** ** Messages that can be encoded *)

Definition rect_ok (r : Rect16) : bool :=
  u16_ok (left r) && u16_ok (top r) && u16_ok (right r) && u16_ok (bottom r) && negb (rect_empty r).
Definition point_ok (p : Point16) : bool := i16_ok (px p) && i16_ok (py p).
Definition color_ok (c : Color32) : bool := u8_ok (c_b c) && u8_ok (c_g c) && u8_ok (c_r c) && u8_ok (c_xa c).
Definition monitor_ok (m : MonitorDef) : bool :=
  i32_ok (m_left m) && i32_ok (m_top m) && i32_ok (m_right m) && i32_ok (m_bottom m) && u32_ok (m_flags m).
Definition metadata_ok (m : CacheEntryMetadata) : bool := u64_ok (cache_key m) && u32_ok (bitmap_length m).
Definition slot_ok (slot : Z) : bool := (1 <=? slot) && (slot <=? max_cache_slots).

(** For versions that are not defined, the flags are the first four bytes. *)
Definition caps_ok (c : CapabilitySet) : bool :=
  u32_ok (cs_version c) &&
  match caps_data_length (cs_version c) with
  | Some _ =>
      bool_decide (unknown_data c = []) && u32_ok (cs_flags c) &&
      (negb (cs_version c =? v10_1) || (cs_flags c =? 0))
  | None =>
      (len (unknown_data c) <=? max_unknown_caps_data_length) &&
      (cs_flags c =? (if 4 <=? len (unknown_data c) then le_val (take 4 (unknown_data c)) else 0))
  end.

Definition output_size_ok (v : Z) : bool := (1 <=? v) && (v <=? max_output_size).
Definition count_ok {A} (ok : A -> bool) (max : Z) (l : list A) : bool := (len l <=? max) && forallb ok l.

Definition pdu_ok (p : Pdu) : bool :=
  match p with
  | WireToSurface1 s c f r d =>
      u16_ok s && u16_ok c && valid_pixel_format f && rect_ok r && (25 + len d <=? 0xFFFFFFFF)
  | WireToSurface2 s c x f d =>
      u16_ok s && u16_ok c && u32_ok x && valid_pixel_format f && (21 + len d <=? 0xFFFFFFFF)
  | DeleteEncodingContext s x => u16_ok s && u32_ok x
  | SolidFill s c rs => u16_ok s && color_ok c && count_ok rect_ok 0xFFFF rs
  | SurfaceToSurface s d r ps => u16_ok s && u16_ok d && rect_ok r && count_ok point_ok 0xFFFF ps
  | SurfaceToCache s k c r => u16_ok s && u64_ok k && slot_ok c && rect_ok r
  | CacheToSurface c s ps => slot_ok c && u16_ok s && count_ok point_ok 0xFFFF ps
  | EvictCacheEntry c => slot_ok c
  | CreateSurface s w h f =>
      u16_ok s && u16_ok w && u16_ok h && negb ((w =? 0) || (h =? 0)) && valid_pixel_format f
  | DeleteSurface s => u16_ok s
  | StartFrame t f => u32_ok t && u32_ok f
  | EndFrame f => u32_ok f
  | FrameAcknowledge q f t => u32_ok q && u32_ok f && u32_ok t
  | ResetGraphics w h ms => output_size_ok w && output_size_ok h && count_ok monitor_ok max_monitors ms
  | MapSurfaceToOutput s x y => u16_ok s && u32_ok x && u32_ok y
  | CacheImportOffer es => count_ok metadata_ok max_cache_import_entries es
  | CacheImportReply ss => count_ok slot_ok max_cache_import_entries ss
  | CapsAdvertise cs => negb (len cs =? 0) && count_ok caps_ok max_caps_sets cs && negb (version_twice [] cs)
  | CapsConfirm c => caps_ok c
  | MapSurfaceToWindow s i w h => u16_ok s && u64_ok i && u32_ok w && u32_ok h
  | QoeFrameAcknowledge f t s e => u32_ok f && u32_ok t && u16_ok s && u16_ok e
  | MapSurfaceToScaledOutput s x y w h => u16_ok s && u32_ok x && u32_ok y && u32_ok w && u32_ok h
  | MapSurfaceToScaledWindow s i w h tw th =>
      u16_ok s && u64_ok i && u32_ok w && u32_ok h && u32_ok tw && u32_ok th
  end.

(** ** Encoder and decoder of the common data types in step *)

Lemma encodes_count c : 0 <= c <= 0xFFFF -> encodes (write_count c) ReaderOps.u16le c 2.
Proof.
  intros H. apply encodes_assert; [lia|]. rewrite wrap_small by lia. apply encodes_u16le. lia.
Qed.

Lemma encodes_rect r : rect_ok r = true -> encodes (write_rect16 r) read_rect16 r 8.
Proof.
  unfold rect_ok. intros H. bools. apply encodes_query. intros at_.
  assert (rect_empty r = false) as E by done. destruct r as [l t r b]. cbn [left top right bottom] in *.
  unfold write_rect16. eapply encodes_le; [fields; eapply encodes_last; [field|]|lia].
  intros k. cbn [left top right bottom]. rewrite E. by apply reads_ret.
Qed.

Lemma encodes_point p : point_ok p = true -> encodes (write_point16 p) read_point16 p 4.
Proof.
  unfold point_ok. intros H. bools. destruct p as [x y]. cbn [px py] in *.
  eapply encodes_le; [|instantiate (1 := 2 + 2); reflexivity]. apply encodes_seq with (a := wrap 16 x).
  - apply encodes_u16le. apply (wrap_range 16). lia.
  - eapply encodes_last; [apply encodes_u16le, (wrap_range 16); lia|]. intros k. apply reads_ret.
    unfold i16_ok in *. bools. cbn [py]. by rewrite !signed_wrap by lia.
Qed.

Lemma encodes_color c : color_ok c = true -> encodes (write_color32 c) read_color32 c 4.
Proof.
  unfold color_ok, write_color32, read_color32. intros H. bools. eapply encodes_le; [fields; lastfield; by destruct c|lia].
Qed.

Lemma encodes_gfx_monitor m : monitor_ok m = true -> encodes (write_monitor_def m) read_monitor_def m 20.
Proof.
  unfold monitor_ok. intros H. bools. destruct m as [l t r b f]. cbn [m_left m_top m_right m_bottom m_flags] in *.
  assert (forall v, 0 <= wrap 32 v < 4294967296) as W by (intros; apply (wrap_range 32); lia).
  eapply encodes_le; [|instantiate (1 := 4 + (4 + (4 + (4 + 4)))); reflexivity].
  do 4 (eapply encodes_seq; [apply encodes_u32le, W|cbn beta]).
  eapply encodes_last; [by apply encodes_u32le, u32_le|]. intros k. apply reads_ret.
  unfold i32_ok in *. bools. cbn [m_left m_top m_right m_bottom m_flags]. by rewrite !signed_wrap by lia.
Qed.

Lemma encodes_metadata m : metadata_ok m = true -> encodes (write_cache_entry m) read_cache_entry m 12.
Proof.
  unfold metadata_ok, write_cache_entry, read_cache_entry. intros H. bools. eapply encodes_le; [fields; lastfield; by destruct m|lia].
Qed.

Lemma encodes_slot s : slot_ok s = true -> encodes (Writer.u16le s) read_cache_slot s 2.
Proof.
  unfold slot_ok, max_cache_slots. intros H. bools. apply encodes_query. intros at_.
  eapply encodes_last; [apply encodes_u16le; lia|]. intros k. cbn beta. unfold max_cache_slots. off. by apply reads_ret.
Qed.

Lemma encodes_format f : valid_pixel_format f = true -> encodes (Writer.u8 f) read_pixel_format f 1.
Proof.
  intros H. apply encodes_query. intros at_.
  assert (0 <= f < 256) by (unfold valid_pixel_format, xrgb_8888, argb_8888 in H; destruct (orb_prop _ _ H); lia).
  eapply encodes_last; [by apply encodes_u8|]. intros k. cbn beta. rewrite H. by apply reads_ret.
Qed.

Lemma encodes_bitmap d : len d <= 0xFFFFFFFF -> encodes (write_bitmap_data d) read_bitmap_data d (4 + len d).
Proof.
  intros H. pose proof (len_nonneg d). apply encodes_assert; [lia|]. rewrite wrap_small by lia.
  eapply encodes_seq; [apply encodes_u32le; lia|]. by apply encodes_bytes.
Qed.

Lemma reads_flags raw : 4 <= len raw -> exists r, ReaderOps.u32le (Reader.make raw 0) = Ok (le_val (take 4 raw), r).
Proof.
  intros H. assert (length (take 4 raw) = 4%nat) as L by (rewrite length_take; unfold len in H; lia).
  destruct (reads_u32le (le_val (take 4 raw)) (drop 4 raw) ltac:(pose proof (le_val_range (take 4 raw)); rewrite L in *; lia)
              [] 0) as (a & Ha & <-).
  pose proof (le_bytes_le_val (take 4 raw)) as E. rewrite L in E. cbn [app] in Ha. rewrite E, take_drop in Ha. by eexists.
Qed.

Lemma encodes_caps c : caps_ok c = true ->
  encodes (write_capability_set c) read_capability_set c (8 + Z.max 16 (len (unknown_data c))).
Proof.
  unfold caps_ok, write_capability_set. intros H. apply andb_prop in H as [Hv H]. destruct c as [v f d].
  cbn [cs_version cs_flags unknown_data] in *. pose proof (len_nonneg d).
  replace (8 + _) with (4 + (4 + Z.max 16 (len d))) by lia.
  eapply encodes_seq; [by apply encodes_u32le, u32_le|]. cbn beta.
  apply encodes_query. intros at_. destruct (caps_data_length v) as [n|] eqn:E.
  - bools. subst d. assert (n = if v =? v10_1 then 16 else 4) as ->.
    { unfold caps_data_length in E. destruct (v =? v10_1); [by injection E|].
      destruct (existsb _ _); [by injection E|done]. }
    eapply encodes_seq; [apply encodes_u32le; by destruct (v =? v10_1)|]. cbn beta. rewrite Z.eqb_refl. cbn [negb].
    destruct (v =? v10_1) eqn:Ev; cbn [negb].
    + exists (replicate 16 Corelib.Init.Byte.x00). split_and!; [apply writes_zeros|done|]. intros k.
      eapply reads_bind_nil; [by apply reads_sub|]. intros _ _. apply reads_ret.
      destruct H1; [done|]. f_equal. lia.
    + exists (Writer.le_bytes 4 f). split_and!; [apply writes_bytes|done|]. intros k.
      eapply reads_bind_nil; [by apply reads_sub|]. intros ? [b ->].
      eapply reads_bind_pure; [apply reads_within, reads_u32le, u32_le; done|]. intros ? <-. by apply reads_ret.
  - bools. unfold max_unknown_caps_data_length in *. apply encodes_assert; [lia|]. rewrite wrap_small by lia.
    eapply encodes_le; [eapply encodes_seq; [apply encodes_u32le; lia|]; cbn beta; off|instantiate (1 := len d); lia].
    eapply encodes_last; [by apply encodes_bytes|]. intros k. cbn beta. destruct (Z.leb_spec 4 (len d)).
    + destruct (reads_flags d ltac:(lia)) as [r Hr]. intros s b. exists (mkCaps v f d). split; [|done].
      unfold dbind, within. rewrite Hr. cbn. rewrite app_nil_r. by replace f with (le_val (take 4 d)) by lia.
    + apply reads_ret. f_equal. lia.
Qed.

#[local] Hint Resolve encodes_count encodes_rect encodes_color encodes_slot encodes_format encodes_bitmap
  encodes_caps : codec.

(** ** Arrays *)

(** An element of an array, of at least [n] and at most [N] bytes. *)
Definition element {A} (m : Enc unit) (p : Dec A) (x : A) (n N : Z) : Prop :=
  exists e, writes m e /\ n <= len e <= N /\ forall k, reads p e k (eq x).

Lemma element_of {A} m (p : Dec A) x e n N : encodes m p x N -> writes m e -> n <= len e -> element m p x n N.
Proof. intros (e' & W & L & R) W' H. rewrite (writes_det _ _ _ W W') in *. exists e. split_and!; done. Qed.

Lemma encodes_array {A} (m : A -> Enc unit) (p : Dec A) (l : list A) count n N :
  0 < n -> count = len l -> Forall (fun x => element (m x) p x n N) l ->
  encodes (eeach m l) (read_array count n p) l (N * len l).
Proof.
  intros Hn -> H.
  assert (exists e, writes (eeach m l) e /\ n * len l <= len e <= N * len l /\
            forall k, reads (dtimes (length l) p) e k (eq l)) as (e & W & L & R).
  { induction H as [|x l (e & W & L & R) _ (es & Ws & Ls & Rs)]; cbn [eeach length dtimes].
    - exists []. split_and!; [apply writes_ret|len_lia..|]. intros k. by apply reads_ret.
    - exists (e ++ es). rewrite len_app, len_cons. split_and!; [by apply writes_seq|lia|lia|]. intros k.
      eapply reads_bind; [apply R|]. intros ? <-. eapply reads_bind_nil; [apply Rs|]. intros ? <-. by apply reads_ret. }
  exists e. split_and!; [done|lia|]. intros k. do 2 (apply reads_ask; intros ? ?). rewrite remaining_mk.
  assert (len l <= len (e ++ k) / n) by (apply Z.div_le_lower_bound; [done|]; len_lia).
  destruct (Z.ltb_spec (len (e ++ k) / n) (len l)); [lia|]. unfold len. rewrite Nat2Z.id. apply R.
Qed.

Lemma Forall_forallb {A} (f : A -> bool) (P : A -> Prop) l :
  (forall x, f x = true -> P x) -> forallb f l = true -> Forall P l.
Proof. rewrite List.forallb_forall, List.Forall_forall. auto. Qed.

(** The same from a check of every element and what its encoder writes. *)
Lemma encodes_checked {A} (ok : A -> bool) (m : A -> Enc unit) (p : Dec A) (f : A -> list byte) l max count n :
  0 < n -> count = len l -> (forall x, ok x = true -> encodes (m x) p x n) ->
  (forall x, writes (m x) (f x) /\ len (f x) = n) ->
  count_ok ok max l = true -> encodes (eeach m l) (read_array count n p) l (n * len l).
Proof.
  intros Hn Hc He Hw [_ Hl]%andb_prop. apply encodes_array; [done..|].
  eapply Forall_forallb; [|exact Hl]. intros x Hx. destruct (Hw x) as [W L].
  eapply element_of; [by apply He|exact W|lia].
Qed.

Lemma encodes_rects l count max : count = len l -> count_ok rect_ok max l = true ->
  encodes (eeach write_rect16 l) (read_array count rect16_size read_rect16) l (8 * len l).
Proof.
  intros Hc. eapply (encodes_checked _ _ _ (fun r => _ ++ _ ++ _ ++ _)); [done|done|apply encodes_rect|].
  intros x. split; [unfold write_rect16; repeat wstep|len_lia].
Qed.

Lemma encodes_points l count max : count = len l -> count_ok point_ok max l = true ->
  encodes (eeach write_point16 l) (read_array count point16_size read_point16) l (4 * len l).
Proof.
  intros Hc. eapply (encodes_checked _ _ _ (fun r => _ ++ _)); [done|done|apply encodes_point|].
  intros x. split; [unfold write_point16; repeat wstep|len_lia].
Qed.

Definition monitor_bytes (m : MonitorDef) : list byte :=
  Writer.le_bytes 4 (wrap 32 (m_left m)) ++ Writer.le_bytes 4 (wrap 32 (m_top m)) ++
  Writer.le_bytes 4 (wrap 32 (m_right m)) ++ Writer.le_bytes 4 (wrap 32 (m_bottom m)) ++ Writer.le_bytes 4 (m_flags m).

Lemma writes_monitor m : writes (write_monitor_def m) (monitor_bytes m) /\ len (monitor_bytes m) = 20.
Proof. split; [unfold write_monitor_def, monitor_bytes; repeat wstep|unfold monitor_bytes; len_lia]. Qed.

Lemma encodes_monitors l count max : count = len l -> count_ok monitor_ok max l = true ->
  encodes (eeach write_monitor_def l) (read_array count monitor_def_size read_monitor_def) l (20 * len l).
Proof. intros Hc. eapply (encodes_checked _ _ _ monitor_bytes); [done|done|apply encodes_gfx_monitor|apply writes_monitor]. Qed.

Lemma encodes_entries l count max : count = len l -> count_ok metadata_ok max l = true ->
  encodes (eeach write_cache_entry l) (read_array count cache_entry_size read_cache_entry) l (12 * len l).
Proof.
  intros Hc. eapply (encodes_checked _ _ _ (fun r => _ ++ _)); [done|done|apply encodes_metadata|].
  intros x. split; [unfold write_cache_entry; repeat wstep|len_lia].
Qed.

Lemma encodes_slots l count max : count = len l -> count_ok slot_ok max l = true ->
  encodes (eeach Writer.u16le l) (read_array count cache_slot_size read_cache_slot) l (2 * len l).
Proof.
  intros Hc. eapply (encodes_checked _ _ _ (fun r => Writer.le_bytes 2 r)); [done|done|apply encodes_slot|].
  intros x. split; [apply writes_bytes|len_lia].
Qed.

Lemma caps_element c : caps_ok c = true -> element (write_capability_set c) read_capability_set c 8 264.
Proof.
  intros H. assert (len (unknown_data c) <= 256) as Hd.
  { unfold caps_ok in H. destruct (caps_data_length _); bools; [|done].
    match goal with E : unknown_data c = [] |- _ => by rewrite E end. }
  eapply element_of; [eapply encodes_le; [by apply encodes_caps|lia]|..].
  - unfold write_capability_set. apply writes_seq; [apply writes_bytes|].
    instantiate (1 := match caps_data_length (cs_version c) with Some _ => _ | None => _ end).
    destruct (caps_data_length _) as [n|].
    + apply writes_seq; [apply writes_bytes|]. instantiate (1 := if cs_version c =? v10_1 then _ else _).
      destruct (_ =? _); apply writes_bytes.
    + apply writes_assert; [lia|]. apply writes_seq; apply writes_bytes.
  - destruct (caps_data_length _); len_lia.
Qed.

Lemma encodes_caps_sets l count max : count = len l -> count_ok caps_ok max l = true ->
  encodes (eeach write_capability_set l) (read_array count caps_set_header_size read_capability_set) l (264 * len l).
Proof.
  intros Hc [_ Hl]%andb_prop. apply encodes_array; [done..|]. eapply Forall_forallb; [apply caps_element|done].
Qed.

(** ** Bodies *)

Lemma reads_done {A} w (v : A) : reads (let* _ := ReaderOps.expect_end w in dret v) [] [] (eq v).
Proof. eapply reads_bind_nil; [apply reads_expect_end|]. intros _ _. by apply reads_ret. Qed.

Lemma count_bound {A} (f : A -> bool) max l : count_ok f max l = true -> 0 <= len l <= max.
Proof. unfold count_ok. intros [H _]%andb_prop. pose proof (len_nonneg l). lia. Qed.

(** [body dec enc]: the fields of a body in order, the last of them followed by
    the end of the PDU. *)
Ltac array :=
  first [ eapply encodes_rects; [reflexivity|eassumption] | eapply encodes_points; [reflexivity|eassumption]
        | eapply encodes_entries; [reflexivity|eassumption] | eapply encodes_slots; [reflexivity|eassumption]
        | eapply encodes_caps_sets; [reflexivity|eassumption] ].
Ltac counted := try match goal with E : count_ok _ _ _ = true |- _ => pose proof (count_bound _ _ _ E) end.
Ltac body dec enc :=
  change (decode_body _) with dec; unfold enc, dec; bools; counted;
  eapply encodes_end_le;
    [fields; eapply encodes_last_end; [apply encodes_encodes_end; first [field|apply encodes_bitmap; lia|array]|cbn beta; apply reads_done]|lia].

(** What is left of the PDU is padding. *)
Lemma encodes_rest {A} n (v : A) : 0 <= n ->
  encodes_end (Writer.zeros n) (let* rem := dask Reader.remaining in let* _ := ReaderOps.skip rem in dret v) v n.
Proof.
  intros Hn. eexists. split_and!; [apply writes_zeros|len_lia|]. apply reads_ask. intros s b. rewrite remaining_mk, app_nil_r.
  eapply reads_bind_nil; [by apply reads_skip|]. intros _ _. by apply reads_ret.
Qed.

(** How many bytes a body takes at most. *)
Definition body_bound (p : Pdu) : Z :=
  match p with
  | WireToSurface1 _ _ _ _ d => 17 + len d
  | WireToSurface2 _ _ _ _ d => 13 + len d
  | SolidFill _ _ rs => 8 + 8 * len rs
  | SurfaceToSurface _ _ _ ps => 14 + 4 * len ps
  | CacheToSurface _ _ ps => 6 + 4 * len ps
  | CacheImportOffer es => 2 + 12 * len es
  | CacheImportReply ss => 2 + 2 * len ss
  | CapsAdvertise cs => 2 + 264 * len cs
  | CapsConfirm c => 8 + Z.max 16 (len (unknown_data c))
  | _ => 332
  end.

Definition is_reset (p : Pdu) : bool := match p with ResetGraphics _ _ _ => true | _ => false end.

Lemma body_bound_ok p : pdu_ok p = true -> 8 + body_bound p <= 0xFFFFFFFF.
Proof.
  destruct p; cbn [pdu_ok body_bound]; intros H; bools; try lia.
  all: try match goal with E : count_ok _ _ _ = true |- _ => apply count_bound in E end.
  all: unfold max_cache_import_entries, max_caps_sets in *; try lia.
  unfold caps_ok in H. destruct (caps_data_length _); bools; [|unfold max_unknown_caps_data_length in *; lia].
  match goal with E : unknown_data _ = [] |- _ => rewrite E end. done.
Qed.

Lemma encodes_drawing p : pdu_ok p = true ->
  match p with
  | WireToSurface1 _ _ _ _ _ | WireToSurface2 _ _ _ _ _ | DeleteEncodingContext _ _ | SolidFill _ _ _
  | SurfaceToSurface _ _ _ _ | SurfaceToCache _ _ _ _ | CacheToSurface _ _ _ | EvictCacheEntry _ =>
      encodes_end (encode_body p) (decode_body (cmd_id p)) p (body_bound p)
  | _ => True
  end.
Proof.
  destruct p; try done; cbn [pdu_ok encode_body cmd_id body_bound]; intros H.
  - body decode_wire_to_surface_1 body_wire_to_surface_1.
  - body decode_wire_to_surface_2 body_wire_to_surface_2.
  - body decode_delete_encoding_context body_delete_encoding_context.
  - body decode_solid_fill body_solid_fill.
  - body decode_surface_to_surface body_surface_to_surface.
  - body decode_surface_to_cache body_surface_to_cache.
  - body decode_cache_to_surface body_cache_to_surface.
  - body decode_evict_cache_entry body_evict_cache_entry.
Qed.

Lemma encodes_control p : pdu_ok p = true ->
  match p with
  | CreateSurface _ _ _ _ | DeleteSurface _ | StartFrame _ _ | EndFrame _ | FrameAcknowledge _ _ _
  | CacheImportOffer _ | CacheImportReply _ | CapsAdvertise _ | CapsConfirm _ | QoeFrameAcknowledge _ _ _ _ =>
      encodes_end (encode_body p) (decode_body (cmd_id p)) p (body_bound p)
  | _ => True
  end.
Proof.
  destruct p; try done; cbn [pdu_ok encode_body cmd_id body_bound]; intros H.
  - change (decode_body _) with decode_create_surface. unfold body_create_surface, decode_create_surface. bools.
    eapply encodes_end_le; [eapply encodes_seq_end; [field|]; cbn beta; apply encodes_end_ask; intros at_; fields; off|].
    + eapply encodes_last_end; [apply encodes_encodes_end; field|cbn beta; apply reads_done].
    + lia.
  - body decode_delete_surface body_delete_surface.
  - body decode_start_frame body_start_frame.
  - body decode_end_frame body_end_frame.
  - body decode_frame_acknowledge body_frame_acknowledge.
  - change (decode_body _) with decode_cache_import_offer. unfold body_cache_import_offer, decode_cache_import_offer.
    counted. unfold max_cache_import_entries in *. apply encodes_end_assert; [lia|]. apply encodes_end_ask. intros at_.
    eapply encodes_end_le; [eapply encodes_seq_end; [apply encodes_count; lia|]; cbn beta; off|].
    + eapply encodes_last_end; [apply encodes_encodes_end; array|cbn beta; apply reads_done].
    + lia.
  - change (decode_body _) with decode_cache_import_reply. unfold body_cache_import_reply, decode_cache_import_reply.
    counted. unfold max_cache_import_entries in *. apply encodes_end_assert; [lia|]. apply encodes_end_ask. intros at_.
    eapply encodes_end_le; [eapply encodes_seq_end; [apply encodes_count; lia|]; cbn beta; off|].
    + eapply encodes_last_end; [apply encodes_encodes_end; array|cbn beta; apply reads_done].
    + lia.
  - change (decode_body _) with decode_caps_advertise. unfold body_caps_advertise, decode_caps_advertise. bools.
    counted. unfold max_caps_sets in *. apply encodes_end_ask. intros at_.
    eapply encodes_end_le; [eapply encodes_seq_end; [apply encodes_count; lia|]; cbn beta; off; off|].
    + eapply encodes_last_end; [apply encodes_encodes_end; array|]. cbn beta.
      match goal with E : version_twice _ _ = false |- _ => rewrite E end. apply reads_done.
    + lia.
  - body decode_caps_confirm body_caps_confirm.
  - body decode_qoe_frame_acknowledge body_qoe_frame_acknowledge.
Qed.

Lemma encodes_mapping p : pdu_ok p = true ->
  match p with
  | MapSurfaceToOutput _ _ _ | MapSurfaceToWindow _ _ _ _ | MapSurfaceToScaledOutput _ _ _ _ _
  | MapSurfaceToScaledWindow _ _ _ _ _ _ =>
      encodes_end (encode_body p) (decode_body (cmd_id p)) p (body_bound p)
  | _ => True
  end.
Proof.
  destruct p; try done; cbn [pdu_ok encode_body cmd_id body_bound]; intros H.
  - body decode_map_surface_to_output body_map_surface_to_output.
  - body decode_map_surface_to_window body_map_surface_to_window.
  - body decode_map_surface_to_scaled_output body_map_surface_to_scaled_output.
  - body decode_map_surface_to_scaled_window body_map_surface_to_scaled_window.
Qed.

Lemma reset_reads w h ms : pdu_ok (ResetGraphics w h ms) = true ->
  exists e, writes (body_reset_graphics w h ms) e /\ len e = 332 /\
    forall s b, len s = 8 -> decode_reset_graphics (Reader.mk s e b) = Ok (ResetGraphics w h ms, Reader.mk (s ++ e) [] b).
Proof.
  cbn [pdu_ok]. unfold output_size_ok, body_reset_graphics. intros H. bools.
  pose proof (count_bound _ _ _ H0) as Hn. unfold max_monitors, max_output_size in *.
  assert (encodes_end
    (Writer.u32le w ;;; Writer.u32le h ;;; Writer.u32le (wrap 32 (len ms)) ;;; eeach write_monitor_def ms ;;;
     Writer.zeros (reset_graphics_pdu_size - header_size - reset_graphics_fixed_size - len ms * monitor_def_size))
    decode_reset_fields (ResetGraphics w h ms) 332) as (e & W & L & R).
  { rewrite wrap_small by lia. unfold reset_graphics_pdu_size, header_size, reset_graphics_fixed_size, monitor_def_size.
    apply encodes_end_ask. intros at_. unfold max_output_size, max_monitors.
    eapply encodes_end_le; [fields; off; apply encodes_end_ask; intros count_at; fields; off|].
    - eapply encodes_seq_end; [eapply encodes_monitors; [reflexivity|eassumption]|]. cbn beta. apply encodes_rest. lia.
    - lia. }
  assert (len e = 332) as He.
  { eassert (writes _ _) as W'; [|rewrite (writes_det _ _ _ W W')].
    { do 3 (apply writes_seq; [apply writes_bytes|]).
      apply writes_seq; [apply (writes_each _ monitor_bytes), List.Forall_forall; intros; apply writes_monitor|].
      apply writes_zeros. }
    rewrite !len_app, (len_each monitor_bytes _ 20) by (apply List.Forall_forall; intros; apply writes_monitor).
    unfold reset_graphics_pdu_size, header_size, reset_graphics_fixed_size, monitor_def_size. len_lia. }
  exists e. split_and!; [by apply writes_assert; [lia|]|done|].
  intros s b Hs. unfold decode_reset_graphics. rewrite dbind_ask, size_mk.
    destruct (R s b) as (a & Ha & <-). rewrite app_nil_r in Ha. rewrite <- Ha. by rewrite Hs, He.
Qed.

(** Any body, read behind the eight bytes of the header. *)
Lemma body_reads p : pdu_ok p = true ->
  exists e, writes (encode_body p) e /\ len e <= body_bound p /\
    forall s b, len s = 8 -> decode_body (cmd_id p) (Reader.mk s e b) = Ok (p, Reader.mk (s ++ e) [] b).
Proof.
  intros H. destruct (is_reset p) eqn:Hp.
  - destruct p; try done. destruct (reset_reads _ _ _ H) as (e & W & L & R). exists e. split_and!; [done|cbn; lia|].
    exact R.
  - assert (encodes_end (encode_body p) (decode_body (cmd_id p)) p (body_bound p)) as (e & W & L & R).
    { pose proof (encodes_drawing p H). pose proof (encodes_control p H). pose proof (encodes_mapping p H).
      by destruct p. }
    exists e. split_and!; [done|done|]. intros s b _. destruct (R s b) as (a & Ha & <-). by rewrite app_nil_r in Ha.
Qed.

Lemma cmd_id_range p : 0 <= cmd_id p < 65536.
Proof. by destruct p. Qed.

(** The header of a PDU of the length [n]. *)
Definition header_bytes (command n : Z) : list byte :=
  Writer.le_bytes 2 command ++ Writer.le_bytes 2 0 ++ Writer.le_bytes 4 n.

Lemma len_header c n : len (header_bytes c n) = 8.
Proof. unfold header_bytes. len_lia. Qed.

Lemma writes_message p e : writes (encode_body p) e -> 8 + len e <= 0xFFFFFFFF ->
  writes (encode_to p) (header_bytes (cmd_id p) (8 + len e) ++ e).
Proof.
  intros He Hn. unfold header_bytes. rewrite <- !app_assoc, (app_assoc (Writer.le_bytes 2 (cmd_id p))).
  unfold encode_to. pose proof (len_nonneg e).
  eapply (writes_patched _ (Writer.u16le (cmd_id p) ;;; Writer.u16le 0 ;;; Writer.u32le 0 ;;; encode_body p)
            (fun n => n <=? 0xFFFFFFFF) (fun n => Writer.le_bytes 4 (wrap 32 n)) 4 _ (Writer.le_bytes 4 0)).
  - intros start w. unfold ebind. cbn. by destruct (encode_body p _) as [[[] ?]|].
  - rewrite <- app_assoc. repeat (apply writes_seq; [apply writes_bytes|]). exact He.
  - len_lia.
  - apply Z.leb_le. len_lia.
  - cbn beta. rewrite wrap_small by len_lia. f_equal. len_lia.
  - len_lia.
Qed.

Lemma pdu_writes p : pdu_ok p = true ->
  exists e, writes (encode_to p) (header_bytes (cmd_id p) (8 + len e) ++ e) /\ 8 + len e <= 8 + body_bound p /\
    decode_pdu (header_bytes (cmd_id p) (8 + len e) ++ e) = Ok p.
Proof.
  intros H. destruct (body_reads p H) as (e & W & L & R). pose proof (body_bound_ok p H). pose proof (len_nonneg e).
  pose proof (cmd_id_range p).
  exists e. split_and!; [by apply writes_message; [|lia]|lia|].
  unfold decode_pdu, read_pdu, Reader.make. rewrite len_app, len_header. unfold header_bytes. rewrite <- !app_assoc.
  rewrite (dbind_reads ReaderOps.u16le _ (Writer.le_bytes 2 (cmd_id p)) _ (cmd_id p)) by (apply reads_u16le; lia).
  rewrite (dbind_reads (ReaderOps.skip 2) _ (Writer.le_bytes 2 0) _ tt)
    by (eapply reads_weaken; [by apply reads_skip|by intros []]).
  rewrite dbind_ask.
  rewrite (dbind_reads ReaderOps.u32le _ (Writer.le_bytes 4 (8 + len e)) _ (8 + len e)) by (apply reads_u32le; lia).
  rewrite Z.eqb_refl. cbn [negb]. by rewrite R by len_lia.
Qed.

(** ** What the decoder accepts *)

Ltac checks := repeat match goal with |- _ && _ = true => apply andb_true_intro; split end; try assumption; try done.

Lemma rect_read r x r' : read_rect16 r = Ok (x, r') -> rect_ok x = true.
Proof. unfold read_rect16. intros H. run H. unfold rect_ok. cbn [left top right bottom]. checks. by rewrite E. Qed.

Lemma point_read r x r' : read_point16 r = Ok (x, r') -> point_ok x = true.
Proof. unfold read_point16. intros H. run H. unfold point_ok. cbn [px py]. checks; by apply signed16_ok. Qed.

Lemma color_read r x r' : read_color32 r = Ok (x, r') -> color_ok x = true.
Proof. unfold read_color32. intros H. run H. unfold color_ok. cbn [c_b c_g c_r c_xa]. checks. Qed.

Lemma monitor_read r x r' : read_monitor_def r = Ok (x, r') -> monitor_ok x = true.
Proof.
  unfold read_monitor_def. intros H. run H. unfold monitor_ok. cbn [m_left m_top m_right m_bottom m_flags].
  checks; by apply signed32_ok.
Qed.

Lemma metadata_read r x r' : read_cache_entry r = Ok (x, r') -> metadata_ok x = true.
Proof. unfold read_cache_entry. intros H. run H. unfold metadata_ok. cbn [cache_key bitmap_length]. checks. Qed.

Lemma slot_read r x r' : read_cache_slot r = Ok (x, r') -> slot_ok x = true.
Proof. unfold read_cache_slot. intros H. run H. unfold slot_ok. widths. apply andb_true_iff. lia. Qed.

Lemma format_read r x r' : read_pixel_format r = Ok (x, r') -> valid_pixel_format x = true.
Proof. unfold read_pixel_format. intros H. run H. by apply negb_false_iff. Qed.

Lemma caps_read r x r' : read_capability_set r = Ok (x, r') -> caps_ok x = true.
Proof.
  unfold read_capability_set. intros H. run H. unfold caps_ok.
  destruct (caps_data_length v) as [n|] eqn:E; run H; cbn [cs_version cs_flags unknown_data]; rewrite ?E.
  - apply within_inv in R2 as (-> & ? & W%u32_width). checks. by rewrite E1.
  - by rewrite R, E1.
  - apply within_inv in R2 as (-> & ? & W). apply bytes_inv in R1 as [Hl _]; [|widths; lia].
    bools. destruct (reads_flags v1) as [r3 Hr]; [lia|]. rewrite Hr in W. injection W as <- _. checks.
    + apply Z.leb_le. lia.
    + destruct (Z.leb_spec 4 (len v1)); [apply Z.eqb_refl|lia].
  - apply bytes_inv in R1 as [Hl _]; [|widths; lia]. bools. checks; [apply Z.leb_le; lia|].
    by destruct (Z.leb_spec 4 (len v1)); [lia|].
Qed.

Lemma array_read {A} (ok : A -> bool) (p : Dec A) count n max r l r' :
  (forall r x r', p r = Ok (x, r') -> ok x = true) -> 0 <= count <= max ->
  read_array count n p r = Ok (l, r') -> count_ok ok max l = true.
Proof.
  intros Hp Hc H. unfold read_array in H. run H. apply (dtimes_inv _ (fun x => ok x = true)) in H as [Hl HF]; [|exact Hp].
  unfold count_ok. apply andb_true_iff. split; [unfold len; lia|].
  apply List.forallb_forall, List.Forall_forall. exact HF.
Qed.

(** How much the primitives consume. *)
Lemma le_consumes n r v r' : ReaderOps.read_le n r = Ok (v, r') -> Reader.remaining r = Z.of_nat n + Reader.remaining r'.
Proof. intros (raw & L & _ & _ & T)%read_le_inv. rewrite (took_remaining _ _ _ T). unfold len. lia. Qed.

Lemma bitmap_read r d r' : read_bitmap_data r = Ok (d, r') -> Reader.remaining r = 4 + len d + Reader.remaining r'.
Proof.
  unfold read_bitmap_data. intros (n & r1 & H1 & H2)%dbind_inv. pose proof (u32_width _ _ _ H1) as W.
  apply (le_consumes 4) in H1. apply bytes_inv in H2 as [L T]; [|widths; lia].
  rewrite (took_remaining _ _ _ T) in H1. lia.
Qed.

Lemma format_consumes r x r' : read_pixel_format r = Ok (x, r') -> Reader.remaining r = 1 + Reader.remaining r'.
Proof.
  unfold read_pixel_format. intros H. apply dask_inv in H. apply dbind_inv in H as (f & r1 & H1 & H).
  run H. by apply (le_consumes 1) in H1.
Qed.

Lemma rect_consumes r x r' : read_rect16 r = Ok (x, r') -> Reader.remaining r = 8 + Reader.remaining r'.
Proof.
  unfold read_rect16. intros H. apply dask_inv in H.
  do 4 (apply dbind_inv in H as (? & ? & ?%(le_consumes 2) & H)). run H. lia.
Qed.

(** A PDU of the wire is one that can be encoded. *)
Lemma expect_end_remaining w r u r' : ReaderOps.expect_end w r = Ok (u, r') -> Reader.remaining r' = 0.
Proof. intros [-> H]%expect_end_inv. destruct r as [? ? ?]. rewrite remaining_mk. cbn in H. by rewrite H. Qed.

Ltac read_ok :=
  repeat match goal with
  | W : read_rect16 _ = Ok _ |- _ => apply rect_read in W
  | W : read_color32 _ = Ok _ |- _ => apply color_read in W
  | W : read_cache_slot _ = Ok _ |- _ => apply slot_read in W
  | W : read_pixel_format _ = Ok _ |- _ => apply format_read in W
  | W : read_capability_set _ = Ok _ |- _ => apply caps_read in W
  | W : read_array _ _ read_rect16 _ = Ok _ |- _ => apply (array_read rect_ok _ _ _ 0xFFFF) in W; [|apply rect_read|widths; lia]
  | W : read_array _ _ read_point16 _ = Ok _ |- _ => apply (array_read point_ok _ _ _ 0xFFFF) in W; [|apply point_read|widths; lia]
  | W : read_array _ _ read_monitor_def _ = Ok _ |- _ =>
      apply (array_read monitor_ok _ _ _ max_monitors) in W; [|apply monitor_read|widths; lia]
  | W : read_array _ _ read_cache_entry _ = Ok _ |- _ =>
      apply (array_read metadata_ok _ _ _ max_cache_import_entries) in W; [|apply metadata_read|widths; lia]
  | W : read_array _ _ read_cache_slot _ = Ok _ |- _ =>
      apply (array_read slot_ok _ _ _ max_cache_import_entries) in W; [|apply slot_read|widths; lia]
  | W : read_array _ _ read_capability_set _ = Ok _ |- _ =>
      apply (array_read caps_ok _ _ _ max_caps_sets) in W; [|apply caps_read|widths; lia]
  end.

Lemma wire_1_read r p r' : decode_wire_to_surface_1 r = Ok (p, r') -> Reader.remaining r <= 0xFFFFFFFF - 8 -> pdu_ok p = true.
Proof.
  unfold decode_wire_to_surface_1. intros H Hr.
  apply dbind_inv in H as (s & r1 & H1 & H). apply dbind_inv in H as (c & r2 & H2 & H).
  apply dbind_inv in H as (f & r3 & H3 & H). apply dbind_inv in H as (rect & r4 & H4 & H).
  apply dbind_inv in H as (d & r5 & H5 & H). apply dbind_inv in H as (u & r6 & H6 & [= <- <-]).
  pose proof (le_consumes 2 _ _ _ H1). pose proof (le_consumes 2 _ _ _ H2). pose proof (format_consumes _ _ _ H3).
  pose proof (rect_consumes _ _ _ H4). apply bitmap_read in H5. apply expect_end_inv in H6 as [-> Hend].
  assert (0 <= Reader.remaining r5) by (destruct r5; rewrite remaining_mk; apply len_nonneg).
  apply u16_width in H1, H2. read_ok. cbn [pdu_ok]. checks. apply Z.leb_le. lia.
Qed.

Lemma wire_2_read r p r' : decode_wire_to_surface_2 r = Ok (p, r') -> Reader.remaining r <= 0xFFFFFFFF - 8 -> pdu_ok p = true.
Proof.
  unfold decode_wire_to_surface_2. intros H Hr.
  apply dbind_inv in H as (s & r1 & H1 & H). apply dbind_inv in H as (c & r2 & H2 & H).
  apply dbind_inv in H as (x & r3 & H3 & H). apply dbind_inv in H as (f & r4 & H4 & H).
  apply dbind_inv in H as (d & r5 & H5 & H). apply dbind_inv in H as (u & r6 & H6 & [= <- <-]).
  pose proof (le_consumes 2 _ _ _ H1). pose proof (le_consumes 2 _ _ _ H2). pose proof (le_consumes 4 _ _ _ H3).
  pose proof (format_consumes _ _ _ H4). apply bitmap_read in H5. apply expect_end_inv in H6 as [-> Hend].
  assert (0 <= Reader.remaining r5) by (destruct r5; rewrite remaining_mk; apply len_nonneg).
  apply u16_width in H1, H2. apply u32_width in H3. read_ok. cbn [pdu_ok]. checks. apply Z.leb_le. lia.
Qed.

Lemma reset_read r p r' : decode_reset_fields r = Ok (p, r') -> pdu_ok p = true.
Proof.
  unfold decode_reset_fields. intros H. run H. read_ok. cbn [pdu_ok]. unfold output_size_ok. widths. checks; apply Z.leb_le; lia.
Qed.

Lemma array_len {A} (p : Dec A) count n r l r' : 0 <= count -> read_array count n p r = Ok (l, r') -> len l = count.
Proof.
  intros Hc H. unfold read_array in H. run H. apply (dtimes_inv _ (fun _ => True)) in H as [Hl _]; [|done].
  unfold len. lia.
Qed.

Lemma advertise_read r p r' : decode_caps_advertise r = Ok (p, r') -> pdu_ok p = true.
Proof.
  unfold decode_caps_advertise. intros H. run H. assert (len v0 = v) as Hl by (eapply array_len; [|exact R0]; widths; lia).
  read_ok. cbn [pdu_ok]. rewrite Hl. checks; [by apply negb_true_iff|by rewrite E1].
Qed.

Lemma surface_read r p r' : decode_create_surface r = Ok (p, r') -> pdu_ok p = true.
Proof. unfold decode_create_surface. intros H. run H. read_ok. cbn [pdu_ok]. checks. by rewrite E. Qed.

Ltac decoded dec :=
  let H := fresh in intros H _; unfold dec in H; run H; read_ok; cbn [pdu_ok]; checks.

Ltac other_command c :=
  lazymatch goal with |- (if c =? ?x then _ else _) _ = _ -> _ => destruct (Z.eqb_spec c x) as [->|_] end.

Lemma body_drawing_read c : forall r p r', c < cmd_create_surface ->
  decode_body c r = Ok (p, r') -> Reader.remaining r <= 0xFFFFFFFF - 8 -> pdu_ok p = true.
Proof.
  unfold decode_body. intros r p r' Hc.
  destruct (_ =? cmd_wire_to_surface_1); [apply wire_1_read|]. destruct (_ =? cmd_wire_to_surface_2); [apply wire_2_read|].
  destruct (_ =? _); [decoded decode_delete_encoding_context|].
  destruct (_ =? _); [decoded decode_solid_fill|].
  destruct (_ =? _); [decoded decode_surface_to_surface|].
  destruct (_ =? _); [decoded decode_surface_to_cache|].
  destruct (_ =? _); [decoded decode_cache_to_surface|].
  destruct (_ =? _); [decoded decode_evict_cache_entry|].
  repeat (other_command c; [by vm_compute in Hc|]). done.
Qed.

Lemma body_control_read c : forall r p r', cmd_create_surface <= c ->
  decode_body c r = Ok (p, r') -> Reader.remaining r <= 0xFFFFFFFF - 8 -> pdu_ok p = true.
Proof.
  unfold decode_body. intros r p r' Hc.
  do 8 (other_command c; [by exfalso; vm_compute in Hc; apply Hc|]).
  destruct (_ =? _); [intros H _; by apply surface_read in H|].
  destruct (_ =? _); [decoded decode_delete_surface|].
  destruct (_ =? _); [decoded decode_start_frame|].
  destruct (_ =? _); [decoded decode_end_frame|].
  destruct (_ =? _); [decoded decode_frame_acknowledge|].
  destruct (_ =? _). { unfold decode_reset_graphics. intros H _. run H. by apply reset_read in H. }
  destruct (_ =? _); [decoded decode_map_surface_to_output|].
  destruct (_ =? _); [decoded decode_cache_import_offer|].
  destruct (_ =? _); [decoded decode_cache_import_reply|].
  destruct (_ =? _); [intros H _; by apply advertise_read in H|].
  destruct (_ =? _); [decoded decode_caps_confirm|].
  destruct (_ =? _); [decoded decode_map_surface_to_window|].
  destruct (_ =? _); [decoded decode_qoe_frame_acknowledge|].
  destruct (_ =? _); [decoded decode_map_surface_to_scaled_output|].
  destruct (_ =? _); [decoded decode_map_surface_to_scaled_window|]. done.
Qed.

Lemma decoded_ok bytes p : decode_pdu bytes = Ok p -> pdu_ok p = true.
Proof.
  unfold decode_pdu, read_pdu. destruct (dbind _ _ _) as [[q r']|] eqn:H; [|done]. intros [= ->].
  apply dbind_inv in H as (c & r1 & H1 & H). apply dbind_inv in H as (u & r2 & H2 & H). apply dask_inv in H.
  apply dbind_inv in H as (n & r3 & H3 & H). destruct (negb _) eqn:E; [done|]. bools.
  pose proof (u32_width _ _ _ H3). apply (le_consumes 2) in H1. apply (le_consumes 4) in H3.
  assert (Reader.remaining r1 = 2 + Reader.remaining r2) as E2.
  { apply dbind_inv in H2 as (x & r4 & [L T]%bytes_inv & [= _ <-]); [|lia]. rewrite (took_remaining _ _ _ T). lia. }
  unfold Reader.make in H1. rewrite remaining_mk in H1. widths.
  destruct (Z.lt_ge_cases c cmd_create_surface); [eapply body_drawing_read|eapply body_control_read]; try eassumption; lia.
Qed.

(** ** Framing *)

Lemma frame_pdu_header a b rest max : len a = 4 -> len b = 4 ->
  let n := le_val b in
  frame_pdu (a ++ b ++ rest) max =
    (if n <? header_size then fail invalid_length "pduLength below the RDPGFX_HEADER size" 4
     else if max <? n then fail limit_exceeded "RDPGFX PDU above the size limit" 4
     else if len (a ++ b ++ rest) <? n then Ok None else Ok (Some n)).
Proof.
  intros Ha Hb n. unfold frame_pdu. unfold header_size at 1.
  destruct (Z.ltb_spec (len (a ++ b ++ rest)) 8); [len_lia|]. unfold Reader.make.
  rewrite (dbind_reads (ReaderOps.skip 4) _ a _ tt) by (eapply reads_weaken; [by apply reads_skip|by intros []]).
  rewrite dbind_ask. replace b with (Writer.le_bytes 4 n) at 1.
  2: { unfold n. replace 4%nat with (length b) by (unfold len in Hb; lia). apply le_bytes_le_val. }
  assert (0 <= n < 4294967296).
  { unfold n. pose proof (le_val_range b). replace (length b) with 4%nat in * by (unfold len in Hb; lia). lia. }
  rewrite (dbind_reads ReaderOps.u32le _ (Writer.le_bytes 4 n) _ n) by (apply reads_u32le; lia).
  cbn -[header_size Z.ltb len]. unfold Reader.offset, Reader.position. cbn [Reader.base Reader.seen].
  by rewrite Ha.
Qed.

Lemma frame_encoded p e k max : pdu_ok p = true ->
  len e <= max -> encode p = Some e -> frame_pdu (e ++ k) max = Ok (Some (len e)).
Proof.
  intros H Hm He. destruct (pdu_writes p H) as (b & W & L & _). pose proof (body_bound_ok p H). pose proof (len_nonneg b).
  assert (e = header_bytes (cmd_id p) (8 + len b) ++ b) as -> by (unfold encode in He; rewrite (writes_run _ _ W) in He; congruence).
  rewrite len_app, len_header in Hm |- *. unfold header_bytes. rewrite <- !app_assoc, (app_assoc _ (Writer.le_bytes 2 0)).
  pose proof (frame_pdu_header (Writer.le_bytes 2 (cmd_id p) ++ Writer.le_bytes 2 0) (Writer.le_bytes 4 (8 + len b))
    (b ++ k) max ltac:(len_lia) ltac:(len_lia)) as F. cbv zeta in F.
  rewrite le_val_le_bytes, Z.mod_small in F by (cbn; lia). rewrite F. unfold header_size.
  destruct (Z.ltb_spec (8 + len b) 8); [lia|]. destruct (Z.ltb_spec max (8 + len b)); [lia|].
  pose proof (len_nonneg k). destruct (Z.ltb_spec (len ((Writer.le_bytes 2 (cmd_id p) ++ Writer.le_bytes 2 0) ++
    Writer.le_bytes 4 (8 + len b) ++ b ++ k)) (8 + len b)); [len_lia|done].
Qed.

Lemma encode_ok p : pdu_ok p = true -> exists e, encode p = Some e /\ decode_pdu e = Ok p.
Proof.
  intros H. destruct (pdu_writes p H) as (b & W & _ & D). eexists. split; [by apply writes_run|done].
Qed.

(** ** The packed time of day *)

Lemma timestamp_sum h m s ms : 0 <= h <= 23 -> 0 <= m <= 59 -> 0 <= s <= 59 -> 0 <= ms <= 999 ->
  make_timestamp h m s ms = Some (((h * 64 + m) * 64 + s) * 1024 + ms).
Proof.
  intros. unfold make_timestamp. destruct (Z.leb_spec h 23); [|lia]. destruct (Z.leb_spec m 59); [|lia].
  destruct (Z.leb_spec s 59); [|lia]. destruct (Z.leb_spec ms 999); [|lia]. cbn [andb]. f_equal.
  rewrite !Z.shiftl_mul_pow2 by lia. change (2 ^ 22) with 4194304. change (2 ^ 16) with 65536. change (2 ^ 10) with 1024.
  rewrite !wrap_small by (change (2 ^ 32) with 4294967296; lia).
  rewrite (lor_const _ h (m * 65536) 22) by (rewrite ?Z.shiftl_mul_pow2; lia).
  rewrite (lor_const _ (h * 64 + m) (s * 1024) 16) by (rewrite ?Z.shiftl_mul_pow2; lia).
  rewrite (lor_const _ ((h * 64 + m) * 64 + s) ms 10) by (rewrite ?Z.shiftl_mul_pow2; lia). lia.
Qed.

(** Fields of the sum. *)
Lemma timestamp_fields h m s ms : 0 <= h <= 23 -> 0 <= m <= 59 -> 0 <= s <= 59 -> 0 <= ms <= 999 ->
  let t := ((h * 64 + m) * 64 + s) * 1024 + ms in
  Z.land t 0x3FF = ms /\ Z.land (Z.shiftr t 10) 0x3F = s /\ Z.land (Z.shiftr t 16) 0x3F = m /\ Z.shiftr t 22 = h.
Proof.
  intros Hh Hm Hs Hms t. change 0x3FF with (Z.ones 10). change 0x3F with (Z.ones 6).
  rewrite !Z.land_ones, !Z.shiftr_div_pow2 by lia.
  change (2 ^ 10) with 1024. change (2 ^ 6) with 64. change (2 ^ 16) with 65536. change (2 ^ 22) with 4194304.
  unfold t. clear t. repeat split; Z.to_euclidean_division_equations; lia.
Qed.

(** ** The property *)

(** C24: every graphics pipeline message whose fields have the widths and ranges
    of the protocol is encoded without a failed assertion, and the bytes decode
    to the message again; in a stream of messages exactly these bytes are framed
    as the first, whatever follows, provided they are within the limit.  And
    whatever bytes [decode_pdu] accepts, the message it returns is one of
    these, so that nothing a peer can send leads to a message that cannot be
    encoded. *)
Theorem rdpgfx_roundtrip (p : Pdu) :
  (pdu_ok p = true ->
   exists e, encode p = Some e /\ decode_pdu e = Ok p /\
     forall k max, len e <= max -> frame_pdu (e ++ k) max = Ok (Some (len e))) /\
  (forall bytes, decode_pdu bytes = Ok p -> pdu_ok p = true).
Proof.
  split; [|intros bytes; apply decoded_ok]. intros H. destruct (encode_ok p H) as (e & He & Hd).
  exists e. split_and!; [done|done|]. intros k max Hm. by eapply frame_encoded.
Qed.

Definition sample_advertise : Pdu :=
  CapsAdvertise [mkCaps v10_7 0x22 []; mkCaps v10_1 0 []; mkCaps v11_1 0x04030201 (Writer.le_bytes 4 0x04030201 ++ [byte_of 5])].

Lemma rdpgfx_roundtrip_witness :
  (exists e, encode sample_advertise = Some e /\ decode_pdu e = Ok sample_advertise /\
     forall k max, len e <= max -> frame_pdu (e ++ k) max = Ok (Some (len e))) /\
  (forall bytes, decode_pdu bytes = Ok (EvictCacheEntry 7) -> pdu_ok (EvictCacheEntry 7) = true) /\
  decode_pdu (header_bytes cmd_evict_cache_entry 10 ++ Writer.le_bytes 2 7) = Ok (EvictCacheEntry 7).
Proof.
  split; [|split].
  - apply (rdpgfx_roundtrip sample_advertise). vm_compute. reflexivity.
  - apply (rdpgfx_roundtrip (EvictCacheEntry 7)).
  - vm_compute. reflexivity.
Defined.
End Rdpgfx.
