(* ===== verification/GfxServer.v ===== *)
(** * The graphics pipeline server

    Models [src/src/farland/channels/rdpgfx_server.hpp] and
    [rdpgfx_server.cpp]: capability negotiation, the output layout and the
    surfaces, frames and their acknowledgement, drawing commands and the map of
    the bitmap cache.  A member function is a state transformer that fails
    exactly where an assertion of the code does; the members of [GfxServer] are
    grouped in records ([Layout], [Frames], [Cache]).  [std::map] and
    [std::set] are stdpp's finite maps and sets, iterated in the order of their
    keys. *)

From stdpp Require Import gmap sorting.
From S2P Require Import Prelude Buffers CodecLogic Fields Rdpgfx.
Open Scope Z_scope.

Module GfxServer.
Import Rdpgfx.

(** Highest first. *)
Definition preferred_versions : list Z :=
  [v10_7; v10_6; v10_6_err; v10_5; v10_4; v10_3; v10_2; v10_1; v10; v8_1; v8].

Definition bytes_per_pixel : Z := 4.

Record GfxServerConfig := mkConfig { max_version : Z; cfg_avc420 : bool; cfg_avc444 : bool; cfg_avc444v2 : bool }.

Record Negotiated := mkNegotiated {
  version : Z;
  client_flags : Z;
  flags : Z;
  thin_client : bool;
  small_cache : bool;
  avc420 : bool;
  avc444 : bool;
  avc444v2 : bool;
  avc_thin_client : bool;
  scaled_output : bool;
  qoe : bool;
  n_max_cache_slots : Z;
  n_max_cache_bytes : Z }.

Definition derive (version client_flags : Z) (config : GfxServerConfig) : Negotiated :=
  let flags := Z.land client_flags (defined_caps_flags version) in
  let is_v10 := v10 <=? version in
  let thin := negb is_v10 && negb (Z.land flags flag_thin_client =? 0) in
  let small := negb (Z.land flags (Z.lor flag_thin_client flag_small_cache) =? 0) || (version =? v10_3) in
  let avc420_81 := cfg_avc420 config && negb (Z.land flags flag_avc420_enabled =? 0) in
  let flags := if (version =? v8_1) && negb avc420_81 then Z.ldiff flags flag_avc420_enabled else flags in
  let client_avc := Z.land flags flag_avc_disabled =? 0 in
  {| version := version;
     client_flags := client_flags;
     flags := flags;
     thin_client := thin;
     small_cache := small;
     avc420 := if is_v10 then client_avc && cfg_avc420 config && (v10_4 <=? version)
               else (version =? v8_1) && avc420_81;
     avc444 := is_v10 && (client_avc && cfg_avc444 config);
     avc444v2 := is_v10 && (client_avc && cfg_avc444v2 config);
     avc_thin_client := is_v10 && negb (Z.land flags flag_avc_thin_client =? 0);
     scaled_output := (version =? v10_7) && (Z.land flags flag_scaledmap_disable =? 0);
     qoe := is_v10 && negb (version =? v10_1);
     n_max_cache_slots := if small then max_cache_slots_small else max_cache_slots;
     n_max_cache_bytes := if small then cache_size_small else cache_size |}.

Definition inside (rect : Rect16) (width height : Z) : bool :=
  negb (rect_empty rect) && (right rect <=? width) && (bottom rect <=? height).

Definition fits (point : Point16) (width height dest_width dest_height : Z) : bool :=
  (0 <=? px point) && (0 <=? py point) && (px point + width <=? dest_width) && (py point + height <=? dest_height).

Definition allows (n : Negotiated) (codec_id : Z) : bool :=
  if existsb (Z.eqb codec_id) [codec_uncompressed; codec_cavideo; codec_clearcodec; codec_planar; codec_alpha] then true
  else if codec_id =? codec_progressive then negb (thin_client n)
  else if codec_id =? codec_avc420 then avc420 n
  else if codec_id =? codec_avc444 then avc444 n
  else if codec_id =? codec_avc444v2 then avc444v2 n
  else false.

(** The loop of [negotiate]. *)
Fixpoint negotiate_loop (versions : list Z) (caps_sets : list CapabilitySet) (config : GfxServerConfig)
  : option Negotiated :=
  match versions with
  | [] => None
  | version :: versions' =>
      if max_version config <? version then negotiate_loop versions' caps_sets config
      else
        match find (fun c => cs_version c =? version) caps_sets with
        | Some c => Some (derive version (cs_flags c) config)
        | None => negotiate_loop versions' caps_sets config
        end
  end.

Definition negotiate (caps_sets : list CapabilitySet) (config : GfxServerConfig) : option Negotiated :=
  negotiate_loop preferred_versions caps_sets config.

(** ** State *)

Inductive GfxState := wait_caps_advertise | ready | failed.

#[export] Instance GfxState_eq_dec : EqDecision GfxState.
Proof. solve_decision. Defined.

Inductive GfxEvent :=
  | Ready (negotiated : Negotiated) (reset : bool)
  | FrameAcked (frame_id queue_depth total_frames_decoded : Z) (known : bool)
  | QoeFrameAcked (frame_id timestamp time_diff_se time_diff_edr : Z)
  | CacheImportOffered (offered imported : Z)
  | Failed (reason : string).

Record Surface := mkSurface { s_width : Z; s_height : Z; s_format : Z }.

Record CacheEntry := mkEntry { e_key : Z; e_bytes : Z; e_width : Z; e_height : Z; e_used : bool }.

(** [CacheEntry{}] *)
Definition no_entry : CacheEntry := mkEntry 0 0 0 0 false.

Record Layout := mkLayout {
  graphics_reset_ : bool;
  surfaces_ : gmap Z Surface;
  codec_contexts_ : gset (Z * Z) }.

Record Frames := mkFrames {
  in_frame_ : bool;
  current_frame_ : Z;
  next_frame_id_ : Z;
  unacked_ : list Z;
  acks_suspended_ : bool;
  queue_depth_ : Z;
  total_frames_decoded_ : Z }.

Record Cache := mkCache {
  cache_ : list CacheEntry;
  cache_keys_ : gmap Z Z;
  cache_bytes_ : Z;
  cache_hint_ : Z }.

Record t := mk {
  config_ : GfxServerConfig;
  state_ : GfxState;
  failure_ : string;
  negotiated_ : option Negotiated;
  input_ : list byte;
  output_ : list (list byte);
  events_ : list GfxEvent;
  layout_ : Layout;
  frames_ : Frames;
  bitmaps_ : Cache }.

Definition no_layout : Layout := mkLayout false ∅ ∅.
Definition no_cache : Cache := mkCache [] ∅ 0 0.

Definition make (config : GfxServerConfig) : t :=
  mk config wait_caps_advertise "" None [] [] [] no_layout (mkFrames false 0 1 [] false 0 0) no_cache.

Definition with_input (s : t) (i : list byte) : t :=
  mk (config_ s) (state_ s) (failure_ s) (negotiated_ s) i (output_ s) (events_ s) (layout_ s) (frames_ s) (bitmaps_ s).
Definition with_output (s : t) (o : list (list byte)) : t :=
  mk (config_ s) (state_ s) (failure_ s) (negotiated_ s) (input_ s) o (events_ s) (layout_ s) (frames_ s) (bitmaps_ s).
Definition with_events (s : t) (e : list GfxEvent) : t :=
  mk (config_ s) (state_ s) (failure_ s) (negotiated_ s) (input_ s) (output_ s) e (layout_ s) (frames_ s) (bitmaps_ s).
Definition with_layout (s : t) (l : Layout) : t :=
  mk (config_ s) (state_ s) (failure_ s) (negotiated_ s) (input_ s) (output_ s) (events_ s) l (frames_ s) (bitmaps_ s).
Definition with_frames (s : t) (f : Frames) : t :=
  mk (config_ s) (state_ s) (failure_ s) (negotiated_ s) (input_ s) (output_ s) (events_ s) (layout_ s) f (bitmaps_ s).
Definition with_bitmaps (s : t) (b : Cache) : t :=
  mk (config_ s) (state_ s) (failure_ s) (negotiated_ s) (input_ s) (output_ s) (events_ s) (layout_ s) (frames_ s) b.
Definition with_failure (s : t) (reason : string) : t :=
  mk (config_ s) failed reason (negotiated_ s) (input_ s) (output_ s) (events_ s) (layout_ s) (frames_ s) (bitmaps_ s).
Definition with_ready (s : t) (n : Negotiated) : t :=
  mk (config_ s) ready (failure_ s) (Some n) (input_ s) (output_ s) (events_ s) (layout_ s) (frames_ s) (bitmaps_ s).

(** ** Member functions *)

(** [None]: a failed assertion. *)
Definition M (A : Type) : Type := t -> option (A * t).

Definition sret {A} (a : A) : M A := fun s => Some (a, s).
Definition sbind {A B} (m : M A) (f : A -> M B) : M B :=
  fun s => match m s with Some (a, s') => f a s' | None => None end.
Definition sget {A} (f : t -> A) : M A := fun s => Some (f s, s).
Definition smod (f : t -> t) : M unit := fun s => Some (tt, f s).
Definition sassert (b : bool) : M unit := fun s => if b then Some (tt, s) else None.

Notation "'let$' x ':=' m 'in' k" := (sbind m (fun x => k))
  (at level 10, x pattern, m at level 100, k at level 200).

Definition send (pdu : Pdu) : M unit := fun s =>
  match encode pdu with
  | Some bytes => Some (tt, with_output s (output_ s ++ [bytes]))
  | None => None
  end.

Definition emplace_event (e : GfxEvent) : M unit := smod (fun s => with_events s (events_ s ++ [e])).

Definition fail_ (reason : string) : M unit :=
  let$ _ := smod (fun s => with_failure s reason) in
  emplace_event (Failed reason).

Definition is_failed (s : t) : bool := bool_decide (state_ s = failed).

Definition usable : M bool :=
  let$ f := sget is_failed in
  if f then sret false
  else
    let$ _ := (fun s => sassert (bool_decide (state_ s = ready)) s) in
    sret true.

Definition caps : M Negotiated := fun s =>
  match negotiated_ s with Some n => Some (n, s) | None => None end.

Definition surface (surface_id : Z) : M Surface := fun s =>
  match surfaces_ (layout_ s) !! surface_id with Some v => Some (v, s) | None => None end.

(** The zero-based index of the slot, and its entry. *)
Definition cache_entry (cache_slot : Z) : M CacheEntry := fun s =>
  if (1 <=? cache_slot) && (cache_slot <=? len (cache_ (bitmaps_ s))) then
    match cache_ (bitmaps_ s) !! Z.to_nat (cache_slot - 1) with
    | Some entry => if e_used entry then Some (entry, s) else None
    | None => None
    end
  else None.

(** [next_frame_id_] and [current_frame_] are kept. *)
Definition reset_protocol : M unit := smod (fun s =>
  mk (config_ s) (state_ s) (failure_ s) (negotiated_ s) (input_ s) (output_ s) (events_ s)
     no_layout (mkFrames false (current_frame_ (frames_ s)) (next_frame_id_ (frames_ s)) [] false 0 0) no_cache).

Definition on_caps_advertise (caps_sets : list CapabilitySet) : M unit :=
  let$ reset := sget (fun s => bool_decide (state_ s = ready)) in
  let$ repeatable := sget (fun s => match negotiated_ s with Some n => v10_3 <=? version n | None => false end) in
  if reset && negb repeatable
  then fail_ "Caps Advertise repeated after confirming a version before 10.3"
  else
    let$ _ := if reset then reset_protocol else sret tt in
    let$ config := sget config_ in
    match negotiate caps_sets config with
    | None => fail_ "the client offered no RDPGFX capability set farland supports"
    | Some n =>
        let$ _ := smod (fun s => with_ready s n) in
        let$ _ := send (CapsConfirm (make_capability_set (version n) (flags n))) in
        emplace_event (Ready n reset)
    end.

(** [unacked_.erase(unacked_.begin(), std::next(it))] for the first [id]. *)
Fixpoint after_frame (id : Z) (unacked : list Z) : list Z :=
  match unacked with
  | [] => []
  | f :: fs => if f =? id then fs else after_frame id fs
  end.

Definition on_frame_acknowledge (queue_depth frame_id total_frames_decoded : Z) : M unit :=
  let$ f := sget frames_ in
  let known := existsb (Z.eqb frame_id) (unacked_ f) in
  let suspend := queue_depth =? suspend_frame_acknowledgement in
  let unacked := if suspend then [] else if known then after_frame frame_id (unacked_ f) else unacked_ f in
  let$ _ := smod (fun s => with_frames s (mkFrames (in_frame_ f) (current_frame_ f) (next_frame_id_ f) unacked suspend
                                            queue_depth total_frames_decoded)) in
  emplace_event (FrameAcked frame_id queue_depth total_frames_decoded known).

Definition on_qoe_frame_acknowledge (frame_id timestamp time_diff_se time_diff_edr : Z) : M unit :=
  emplace_event (QoeFrameAcked frame_id timestamp time_diff_se time_diff_edr).

Definition on_cache_import_offer (entries : list CacheEntryMetadata) : M unit :=
  let$ _ := send (CacheImportReply []) in
  emplace_event (CacheImportOffered (len entries) 0).

Definition handle_pdu (bytes : list byte) : M unit :=
  match decode_pdu bytes with
  | Err e => fail_ ("malformed RDPGFX PDU: " ++ message e)
  | Ok (CapsAdvertise caps_sets) => on_caps_advertise caps_sets
  | Ok pdu =>
      let$ is_ready := sget (fun s => bool_decide (state_ s = ready)) in
      if negb is_ready then fail_ "RDPGFX PDU before Caps Advertise"
      else
        match pdu with
        | FrameAcknowledge q f n => on_frame_acknowledge q f n
        | QoeFrameAcknowledge f ts se edr => on_qoe_frame_acknowledge f ts se edr
        | CacheImportOffer entries => on_cache_import_offer entries
        | _ => fail_ "server-to-client RDPGFX PDU received from the client"
        end
  end.

(** The loop of [receive]; returns what is left of the input. *)
Fixpoint receive_loop (fuel : nat) (rest : list byte) : M (list byte) :=
  let$ f := sget is_failed in
  if f then sret rest
  else
    match frame_pdu rest max_client_pdu_size with
    | Err e => let$ _ := fail_ ("malformed RDPGFX header: " ++ message e) in sret rest
    | Ok None => sret rest
    | Ok (Some size) =>
        match fuel with
        | O => fun _ => None
        | S fuel' =>
            let$ _ := handle_pdu (take (Z.to_nat size) rest) in
            receive_loop fuel' (drop (Z.to_nat size) rest)
        end
    end.

(** A PDU has at least one byte, so the length of the input is fuel enough. *)
Definition receive (bytes : list byte) : M unit :=
  let$ f := sget is_failed in
  if f then sret tt
  else
    let$ input := sget (fun s => input_ s ++ bytes) in
    let$ rest := receive_loop (length input) input in
    smod (fun s => with_input s (if is_failed s then [] else rest)).

Definition take_output : M (list (list byte)) := fun s => Some (output_ s, with_output s []).

Definition poll_event : M (option GfxEvent) := fun s =>
  match events_ s with
  | [] => Some (None, s)
  | e :: es => Some (Some e, with_events s es)
  end.

(** ** Output layout *)

(** Runs a command unless the server has failed, which returns [default]. *)
Definition when_usable {A} (default : A) (m : M A) : M A :=
  let$ u := usable in
  if u then m else sret default.

Definition reset_graphics (width height : Z) (monitors : list MonitorDef) : M unit :=
  when_usable tt (
    let$ f := sget frames_ in
    let$ _ := sassert (negb (in_frame_ f)) in
    let$ _ := sassert ((1 <=? width) && (width <=? max_output_size) && (1 <=? height) && (height <=? max_output_size)) in
    let$ _ := sassert (len monitors <=? max_monitors) in
    let whole := mkMonitor 0 0 (signed 32 width - 1) (signed 32 height - 1) monitor_primary in
    let monitors := match monitors with [] => [whole] | _ => monitors end in
    let$ _ := send (ResetGraphics width height monitors) in
    smod (fun s => with_layout s (mkLayout true (surfaces_ (layout_ s)) ∅))).

(** The ids in the order of the map. *)
Definition surface_ids (surfaces : gmap Z Surface) : list Z := merge_sort Z.le (fst <$> map_to_list surfaces).

(** The loop of [create_surface]; [++id] of a 16-bit integer. *)
Fixpoint unused_id (used : list Z) (id : Z) : Z :=
  match used with
  | [] => id
  | u :: used' => if negb (u =? id) then id else unused_id used' (wrap 16 (id + 1))
  end.

Definition create_surface (width height format : Z) : M Z :=
  when_usable 0 (
    let$ l := sget layout_ in
    let$ _ := sassert (graphics_reset_ l) in
    let$ _ := sassert ((0 <? width) && (0 <? height) && valid_pixel_format format) in
    let$ _ := sassert (Z.of_nat (size (surfaces_ l)) <=? 0xFFFF) in
    let id := unused_id (surface_ids (surfaces_ l)) 0 in
    let surfaces := <[id := mkSurface width height format]> (surfaces_ l) in
    let$ _ := smod (fun s => with_layout s (mkLayout (graphics_reset_ l) surfaces (codec_contexts_ l))) in
    let$ _ := send (CreateSurface id width height format) in
    sret id).

Definition delete_surface (surface_id : Z) : M unit :=
  when_usable tt (
    let$ _ := surface surface_id in
    let$ l := sget layout_ in
    let contexts := filter (fun c => c.1 <> surface_id) (codec_contexts_ l) in
    let$ _ := smod (fun s => with_layout s (mkLayout (graphics_reset_ l) (delete surface_id (surfaces_ l)) contexts)) in
    send (DeleteSurface surface_id)).

Definition map_surface_to_output (surface_id x y : Z) : M unit :=
  when_usable tt (
    let$ _ := surface surface_id in
    send (MapSurfaceToOutput surface_id x y)).

Definition map_surface_to_scaled_output (surface_id x y target_width target_height : Z) : M unit :=
  when_usable tt (
    let$ n := caps in
    let$ _ := sassert (scaled_output n) in
    let$ _ := surface surface_id in
    send (MapSurfaceToScaledOutput surface_id x y target_width target_height)).

Definition map_surface_to_window (surface_id window_id mapped_width mapped_height : Z) : M unit :=
  when_usable tt (
    let$ _ := surface surface_id in
    send (MapSurfaceToWindow surface_id window_id mapped_width mapped_height)).

Definition map_surface_to_scaled_window
    (surface_id window_id mapped_width mapped_height target_width target_height : Z) : M unit :=
  when_usable tt (
    let$ n := caps in
    let$ _ := sassert (scaled_output n) in
    let$ _ := surface surface_id in
    send (MapSurfaceToScaledWindow surface_id window_id mapped_width mapped_height target_width target_height)).

(** ** Frames *)

Definition start_frame (timestamp : Z) : M Z :=
  when_usable 0 (
    let$ f := sget frames_ in
    let$ _ := sassert (negb (in_frame_ f)) in
    let$ _ := sassert (valid_timestamp timestamp) in
    let frame := next_frame_id_ f in
    let$ _ := smod (fun s => with_frames s (mkFrames true frame (wrap 32 (frame + 1)) (unacked_ f) (acks_suspended_ f)
                                              (queue_depth_ f) (total_frames_decoded_ f))) in
    let$ _ := send (StartFrame timestamp frame) in
    sret frame).

Definition end_frame : M unit :=
  when_usable tt (
    let$ f := sget frames_ in
    let$ _ := sassert (in_frame_ f) in
    let$ _ := send (EndFrame (current_frame_ f)) in
    let unacked := if acks_suspended_ f then unacked_ f else unacked_ f ++ [current_frame_ f] in
    smod (fun s => with_frames s (mkFrames false (current_frame_ f) (next_frame_id_ f) unacked (acks_suspended_ f)
                                    (queue_depth_ f) (total_frames_decoded_ f)))).

(** ** Drawing *)

Definition assert_in_frame : M unit :=
  let$ f := sget frames_ in
  sassert (in_frame_ f).

Definition wire_to_surface_1 (surface_id codec_id format : Z) (dest_rect : Rect16) (bitmap_data : list byte) : M unit :=
  when_usable tt (
    let$ target := surface surface_id in
    let$ _ := assert_in_frame in
    let$ n := caps in
    let$ _ := sassert (negb (codec_id =? codec_progressive) && allows n codec_id) in
    let$ _ := sassert (valid_pixel_format format) in
    let$ _ := sassert (inside dest_rect (s_width target) (s_height target)) in
    send (WireToSurface1 surface_id codec_id format dest_rect bitmap_data)).

Definition wire_to_surface_2 (surface_id codec_id codec_context_id format : Z) (bitmap_data : list byte) : M unit :=
  when_usable tt (
    let$ _ := surface surface_id in
    let$ _ := assert_in_frame in
    let$ n := caps in
    let$ _ := sassert ((codec_id =? codec_progressive) && allows n codec_id) in
    let$ _ := sassert (valid_pixel_format format) in
    let$ l := sget layout_ in
    let contexts := {[ (surface_id, codec_context_id) ]} ∪ codec_contexts_ l in
    let$ _ := smod (fun s => with_layout s (mkLayout (graphics_reset_ l) (surfaces_ l) contexts)) in
    send (WireToSurface2 surface_id codec_id codec_context_id format bitmap_data)).

Definition delete_encoding_context (surface_id codec_context_id : Z) : M unit :=
  when_usable tt (
    let$ l := sget layout_ in
    let$ _ := sassert (bool_decide ((surface_id, codec_context_id) ∈ codec_contexts_ l)) in
    let contexts := codec_contexts_ l ∖ {[ (surface_id, codec_context_id) ]} in
    let$ _ := smod (fun s => with_layout s (mkLayout (graphics_reset_ l) (surfaces_ l) contexts)) in
    send (DeleteEncodingContext surface_id codec_context_id)).

(** [!list.empty() && list.size() <= 65535] *)
Definition countable {A} (l : list A) : bool := negb (len l =? 0) && (len l <=? 0xFFFF).

Definition solid_fill (surface_id : Z) (color : Color32) (rects : list Rect16) : M unit :=
  when_usable tt (
    let$ target := surface surface_id in
    let$ _ := assert_in_frame in
    let$ _ := sassert (countable rects) in
    let$ _ := sassert (forallb (fun rect => inside rect (s_width target) (s_height target)) rects) in
    send (SolidFill surface_id color rects)).

Definition surface_to_surface (src_surface_id dest_surface_id : Z) (src_rect : Rect16) (dest_points : list Point16)
  : M unit :=
  when_usable tt (
    let$ src := surface src_surface_id in
    let$ dest := surface dest_surface_id in
    let$ _ := assert_in_frame in
    let$ _ := sassert (inside src_rect (s_width src) (s_height src)) in
    let$ _ := sassert (countable dest_points) in
    let$ _ := sassert (forallb (fun point =>
                fits point (rect_width src_rect) (rect_height src_rect) (s_width dest) (s_height dest)) dest_points) in
    send (SurfaceToSurface src_surface_id dest_surface_id src_rect dest_points)).

(** ** Bitmap cache *)

(** The loop over used slots; [None] where [at] would throw, or without fuel. *)
Fixpoint free_index (fuel : nat) (cache : list CacheEntry) (index : Z) : option Z :=
  match cache !! Z.to_nat index with
  | None => None
  | Some entry =>
      if e_used entry then
        match fuel with
        | O => None
        | S fuel' => free_index fuel' cache ((index + 1) mod len cache)
        end
      else Some index
  end.

(** [std::uint32_t{width} * height * bytes_per_pixel] *)
Definition bitmap_bytes (rect : Rect16) : Z :=
  wrap 32 (wrap 32 (rect_width rect * rect_height rect) * bytes_per_pixel).

Definition surface_to_cache (surface_id : Z) (src_rect : Rect16) (cache_key : Z) : M (option Z) :=
  when_usable None (
    let$ src := surface surface_id in
    let$ _ := assert_in_frame in
    let$ _ := sassert (inside src_rect (s_width src) (s_height src)) in
    let$ b := sget bitmaps_ in
    let$ _ := sassert (bool_decide (cache_keys_ b !! cache_key = None)) in
    let bytes := bitmap_bytes src_rect in
    let$ n := caps in
    let total := wrap 64 (cache_bytes_ b + bytes) in
    if (n_max_cache_bytes n <? total) || (n_max_cache_slots n <=? Z.of_nat (size (cache_keys_ b)))
    then sret None
    else
      let cache := match cache_ b with
                   | [] => replicate (Z.to_nat (n_max_cache_slots n)) no_entry
                   | _ => cache_ b
                   end in
      match free_index (length cache) cache (cache_hint_ b) with
      | None => fun _ => None
      | Some index =>
          let entry := mkEntry cache_key bytes (rect_width src_rect) (rect_height src_rect) true in
          let slot := wrap 16 (index + 1) in
          let$ _ := smod (fun s => with_bitmaps s
                      (mkCache (<[Z.to_nat index := entry]> cache) (<[cache_key := slot]> (cache_keys_ b))
                               total ((index + 1) mod len cache))) in
          let$ _ := send (SurfaceToCache surface_id cache_key slot src_rect) in
          sret (Some slot)
      end).

Definition cache_to_surface (cache_slot surface_id : Z) (dest_points : list Point16) : M unit :=
  when_usable tt (
    let$ entry := cache_entry cache_slot in
    let$ dest := surface surface_id in
    let$ _ := assert_in_frame in
    let$ _ := sassert (countable dest_points) in
    let$ _ := sassert (forallb (fun point =>
                fits point (e_width entry) (e_height entry) (s_width dest) (s_height dest)) dest_points) in
    send (CacheToSurface cache_slot surface_id dest_points)).

Definition evict_cache_entry (cache_slot : Z) : M unit :=
  when_usable tt (
    let$ entry := cache_entry cache_slot in
    let$ _ := smod (fun s => with_bitmaps s
                (mkCache (<[Z.to_nat (cache_slot - 1) := no_entry]> (cache_ (bitmaps_ s)))
                         (delete (e_key entry) (cache_keys_ (bitmaps_ s)))
                         (wrap 64 (cache_bytes_ (bitmaps_ s) - e_bytes entry))
                         (Z.min (cache_hint_ (bitmaps_ s)) (cache_slot - 1)))) in
    send (EvictCacheEntry cache_slot)).

Definition cache_slot (cache_key : Z) (s : t) : option Z := cache_keys_ (bitmaps_ s) !! cache_key.
Definition cache_slots_used (s : t) : Z := Z.of_nat (size (cache_keys_ (bitmaps_ s))).
Definition frames_in_flight (s : t) : Z := len (unacked_ (frames_ s)).

(** ** Commands *)

(** The commands of the public interface with their arguments. *)
Inductive Command :=
  | CmdResetGraphics (width height : Z) (monitors : list MonitorDef)
  | CmdCreateSurface (width height format : Z)
  | CmdDeleteSurface (surface_id : Z)
  | CmdMapSurfaceToOutput (surface_id x y : Z)
  | CmdMapSurfaceToScaledOutput (surface_id x y target_width target_height : Z)
  | CmdMapSurfaceToWindow (surface_id window_id mapped_width mapped_height : Z)
  | CmdMapSurfaceToScaledWindow (surface_id window_id mapped_width mapped_height target_width target_height : Z)
  | CmdStartFrame (timestamp : Z)
  | CmdEndFrame
  | CmdWireToSurface1 (surface_id codec_id format : Z) (dest_rect : Rect16) (bitmap_data : list byte)
  | CmdWireToSurface2 (surface_id codec_id codec_context_id format : Z) (bitmap_data : list byte)
  | CmdDeleteEncodingContext (surface_id codec_context_id : Z)
  | CmdSolidFill (surface_id : Z) (color : Color32) (rects : list Rect16)
  | CmdSurfaceToSurface (src_surface_id dest_surface_id : Z) (src_rect : Rect16) (dest_points : list Point16)
  | CmdSurfaceToCache (surface_id : Z) (src_rect : Rect16) (cache_key : Z)
  | CmdCacheToSurface (cache_slot surface_id : Z) (dest_points : list Point16)
  | CmdEvictCacheEntry (cache_slot : Z).

Definition void {A} (m : M A) : M unit := let$ _ := m in sret tt.

Definition run (c : Command) : M unit :=
  match c with
  | CmdResetGraphics w h ms => reset_graphics w h ms
  | CmdCreateSurface w h f => void (create_surface w h f)
  | CmdDeleteSurface s => delete_surface s
  | CmdMapSurfaceToOutput s x y => map_surface_to_output s x y
  | CmdMapSurfaceToScaledOutput s x y w h => map_surface_to_scaled_output s x y w h
  | CmdMapSurfaceToWindow s i w h => map_surface_to_window s i w h
  | CmdMapSurfaceToScaledWindow s i w h tw th => map_surface_to_scaled_window s i w h tw th
  | CmdStartFrame t => void (start_frame t)
  | CmdEndFrame => end_frame
  | CmdWireToSurface1 s c f r d => wire_to_surface_1 s c f r d
  | CmdWireToSurface2 s c x f d => wire_to_surface_2 s c x f d
  | CmdDeleteEncodingContext s x => delete_encoding_context s x
  | CmdSolidFill s c rs => solid_fill s c rs
  | CmdSurfaceToSurface s d r ps => surface_to_surface s d r ps
  | CmdSurfaceToCache s r k => void (surface_to_cache s r k)
  | CmdCacheToSurface c s ps => cache_to_surface c s ps
  | CmdEvictCacheEntry c => evict_cache_entry c
  end.

Definition coordinates_ok (r : Rect16) : bool := u16_ok (left r) && u16_ok (top r) && u16_ok (right r) && u16_ok (bottom r).

(** A bitmap whose size is below 4 GiB, so that [bitmap_bytes], which the code
    computes with 32 bits, is its size (see [bitmap_bytes_wraps] for others). *)
Definition under_4_gib (r : Rect16) : bool := rect_width r * rect_height r * 4 <? 2 ^ 32.

(** The types of the arguments; bitmaps that fit in a PDU; no bitmap of 4 GiB or
    more for the cache. *)
Definition args_ok (c : Command) : bool :=
  match c with
  | CmdResetGraphics w h ms => u32_ok w && u32_ok h && forallb monitor_ok ms
  | CmdCreateSurface w h f => u16_ok w && u16_ok h && u8_ok f
  | CmdDeleteSurface s => u16_ok s
  | CmdMapSurfaceToOutput s x y => u16_ok s && u32_ok x && u32_ok y
  | CmdMapSurfaceToScaledOutput s x y w h => u16_ok s && u32_ok x && u32_ok y && u32_ok w && u32_ok h
  | CmdMapSurfaceToWindow s i w h => u16_ok s && u64_ok i && u32_ok w && u32_ok h
  | CmdMapSurfaceToScaledWindow s i w h tw th =>
      u16_ok s && u64_ok i && u32_ok w && u32_ok h && u32_ok tw && u32_ok th
  | CmdStartFrame t => u32_ok t
  | CmdEndFrame => true
  | CmdWireToSurface1 s c f r d => u16_ok s && u16_ok c && u8_ok f && coordinates_ok r && (25 + len d <=? 0xFFFFFFFF)
  | CmdWireToSurface2 s c x f d => u16_ok s && u16_ok c && u32_ok x && u8_ok f && (21 + len d <=? 0xFFFFFFFF)
  | CmdDeleteEncodingContext s x => u16_ok s && u32_ok x
  | CmdSolidFill s c rs => u16_ok s && color_ok c && forallb coordinates_ok rs
  | CmdSurfaceToSurface s d r ps => u16_ok s && u16_ok d && coordinates_ok r && forallb point_ok ps
  | CmdSurfaceToCache s r k => u16_ok s && coordinates_ok r && u64_ok k && under_4_gib r
  | CmdCacheToSurface c s ps => u16_ok c && u16_ok s && forallb point_ok ps
  | CmdEvictCacheEntry c => u16_ok c
  end.

(** ** The calling contract *)

Definition has_surface (s : t) (surface_id : Z) : bool := bool_decide (is_Some (surfaces_ (layout_ s) !! surface_id)).

(** The surface contains the rectangle, or a [w] by [h] bitmap at each point. *)
Definition surface_holds (s : t) (surface_id : Z) (rect : Rect16) : bool :=
  match surfaces_ (layout_ s) !! surface_id with
  | Some v => inside rect (s_width v) (s_height v)
  | None => false
  end.
Definition surface_fits (s : t) (surface_id w h : Z) (points : list Point16) : bool :=
  match surfaces_ (layout_ s) !! surface_id with
  | Some v => forallb (fun point => fits point w h (s_width v) (s_height v)) points
  | None => false
  end.
Definition slot_entry (s : t) (slot : Z) : option CacheEntry :=
  if (1 <=? slot) && (slot <=? len (cache_ (bitmaps_ s))) then
    match cache_ (bitmaps_ s) !! Z.to_nat (slot - 1) with
    | Some e => if e_used e then Some e else None
    | None => None
    end
  else None.
Definition may_use (s : t) (codec_id : Z) : bool :=
  match negotiated_ s with Some n => allows n codec_id | None => false end.
Definition may_scale (s : t) : bool := match negotiated_ s with Some n => scaled_output n | None => false end.

(** What a caller has to observe, from the comments of the public interface. *)
Definition contract (c : Command) (s : t) : bool :=
  let drawing := in_frame_ (frames_ s) in
  match c with
  | CmdResetGraphics w h ms => negb drawing && output_size_ok w && output_size_ok h && (len ms <=? max_monitors)
  | CmdCreateSurface w h f =>
      graphics_reset_ (layout_ s) && (0 <? w) && (0 <? h) && valid_pixel_format f &&
      (Z.of_nat (size (surfaces_ (layout_ s))) <=? 0xFFFF)
  | CmdDeleteSurface v => has_surface s v
  | CmdMapSurfaceToOutput v _ _ => has_surface s v
  | CmdMapSurfaceToScaledOutput v _ _ _ _ => may_scale s && has_surface s v
  | CmdMapSurfaceToWindow v _ _ _ => has_surface s v
  | CmdMapSurfaceToScaledWindow v _ _ _ _ _ => may_scale s && has_surface s v
  | CmdStartFrame ts => negb drawing && valid_timestamp ts
  | CmdEndFrame => drawing
  | CmdWireToSurface1 v c f r _ =>
      drawing && surface_holds s v r && negb (c =? codec_progressive) && may_use s c && valid_pixel_format f
  | CmdWireToSurface2 v c _ f _ =>
      drawing && has_surface s v && (c =? codec_progressive) && may_use s c && valid_pixel_format f
  | CmdDeleteEncodingContext v x => bool_decide ((v, x) ∈ codec_contexts_ (layout_ s))
  | CmdSolidFill v _ rs => drawing && countable rs && has_surface s v && forallb (surface_holds s v) rs
  | CmdSurfaceToSurface v d r ps =>
      drawing && countable ps && surface_holds s v r && surface_fits s d (rect_width r) (rect_height r) ps
  | CmdSurfaceToCache v r k => drawing && surface_holds s v r && bool_decide (cache_keys_ (bitmaps_ s) !! k = None)
  | CmdCacheToSurface slot v ps =>
      drawing && countable ps &&
      match slot_entry s slot with Some e => surface_fits s v (e_width e) (e_height e) ps | None => false end
  | CmdEvictCacheEntry slot => match slot_entry s slot with Some _ => true | None => false end
  end.

(** ** Reachable states *)

(** [reached config sent s]: [s] is the state after some calls, of which
    [take_output] has returned the messages [sent]. *)
Inductive reached (config : GfxServerConfig) : list (list byte) -> t -> Prop :=
  | reached_init : reached config [] (make config)
  | reached_receive sent s bytes s' :
      reached config sent s -> receive bytes s = Some (tt, s') -> reached config sent s'
  | reached_command sent s c s' :
      reached config sent s -> args_ok c = true -> run c s = Some (tt, s') -> reached config sent s'
  | reached_output sent s out s' :
      reached config sent s -> take_output s = Some (out, s') -> reached config (sent ++ out) s'
  | reached_event sent s e s' :
      reached config sent s -> poll_event s = Some (e, s') -> reached config sent s'.

End GfxServer.
