(* ===== verification/GfxClient.v ===== *)
(** * What a graphics client accepts

    A specification of the client's end of the graphics pipeline: the state a
    client keeps (surfaces, codec contexts, the frame being drawn, the bitmap
    cache with its size) and which messages are legal in it, by the capability
    set it confirmed.  Then the invariant of the states [GfxServer] can reach,
    when a state of the server agrees with one of the client, and what the
    capabilities and the cache map of [GfxServer] promise to both. *)

From stdpp Require Import gmap sorting.
From S2P Require Import Prelude Buffers CodecLogic Fields Rdpgfx GfxServer.
Open Scope Z_scope.

Module GfxClient.
Import Rdpgfx GfxServer.

(** ** The client *)

Record Client := mkClient {
  cl_caps : option CapabilitySet;
  cl_reset : bool;
  cl_surfaces : gmap Z Surface;
  cl_contexts : gset (Z * Z);
  cl_frame : option Z;
  cl_cache : gmap Z (Z * Z * Z);      (* slot: key, width, height *)
  cl_bytes : Z }.

Definition new_client : Client := mkClient None false ∅ ∅ None ∅ 0.

Definition has_flag (cap : CapabilitySet) (flag : Z) : bool := negb (Z.land (cs_flags cap) flag =? 0).

(** The codecs a client with these capabilities can decode. *)
Definition decodes_codec (cap : CapabilitySet) (codec_id : Z) : bool :=
  if existsb (Z.eqb codec_id) [codec_uncompressed; codec_cavideo; codec_clearcodec; codec_planar; codec_alpha] then true
  else if codec_id =? codec_progressive then (v10 <=? cs_version cap) || negb (has_flag cap flag_thin_client)
  else if codec_id =? codec_avc420 then
    ((cs_version cap =? v8_1) && has_flag cap flag_avc420_enabled) ||
    ((v10_4 <=? cs_version cap) && negb (has_flag cap flag_avc_disabled))
  else if existsb (Z.eqb codec_id) [codec_avc444; codec_avc444v2]
  then (v10 <=? cs_version cap) && negb (has_flag cap flag_avc_disabled)
  else false.

Definition scales (cap : CapabilitySet) : bool := (cs_version cap =? v10_7) && negb (has_flag cap flag_scaledmap_disable).

Definition small (cap : CapabilitySet) : bool :=
  has_flag cap flag_thin_client || has_flag cap flag_small_cache || (cs_version cap =? v10_3).
Definition slots_of (cap : CapabilitySet) : Z := if small cap then 4096 else 25600.
Definition bytes_of (cap : CapabilitySet) : Z := if small cap then 16 * 1024 * 1024 else 100 * 1024 * 1024.

Definition guard {A} (b : bool) (a : A) : option A := if b then Some a else None.

(** The rectangle, or a [w] by [h] bitmap at each of the points, lies in the surface. *)
Definition holds_rect (c : Client) (id : Z) (r : Rect16) : bool :=
  match cl_surfaces c !! id with
  | Some v => (left r <? right r) && (top r <? bottom r) && (right r <=? s_width v) && (bottom r <=? s_height v)
  | None => false
  end.
Definition holds_points (c : Client) (id w h : Z) (ps : list Point16) : bool :=
  match cl_surfaces c !! id with
  | Some v =>
      negb (len ps =? 0) &&
      forallb (fun p => (0 <=? px p) && (0 <=? py p) && (px p + w <=? s_width v) && (py p + h <=? s_height v)) ps
  | None => false
  end.
Definition known_surface (c : Client) (id : Z) : bool := bool_decide (is_Some (cl_surfaces c !! id)).
Definition drawing (c : Client) : bool := bool_decide (is_Some (cl_frame c)).

Definition with_cache (c : Client) (m : gmap Z (Z * Z * Z)) (bytes : Z) : Client :=
  mkClient (cl_caps c) (cl_reset c) (cl_surfaces c) (cl_contexts c) (cl_frame c) m bytes.
Definition with_frame (c : Client) (f : option Z) : Client :=
  mkClient (cl_caps c) (cl_reset c) (cl_surfaces c) (cl_contexts c) f (cl_cache c) (cl_bytes c).
Definition with_surfaces (c : Client) (m : gmap Z Surface) (x : gset (Z * Z)) : Client :=
  mkClient (cl_caps c) (cl_reset c) m x (cl_frame c) (cl_cache c) (cl_bytes c).

(** A message to a client that has confirmed capabilities: [None] is a
    violation of the protocol. *)
Definition client_draw (c : Client) (cap : CapabilitySet) (p : Pdu) : option Client :=
  match p with
  | ResetGraphics w h ms =>
      guard (negb (drawing c) && output_size_ok w && output_size_ok h && negb (len ms =? 0) && (len ms <=? 16))
        (mkClient (cl_caps c) true (cl_surfaces c) ∅ (cl_frame c) (cl_cache c) (cl_bytes c))
  | CreateSurface id w h f =>
      guard (cl_reset c && negb (known_surface c id) && (0 <? w) && (0 <? h) && valid_pixel_format f)
        (with_surfaces c (<[id := mkSurface w h f]> (cl_surfaces c)) (cl_contexts c))
  | DeleteSurface id =>
      guard (known_surface c id)
        (with_surfaces c (delete id (cl_surfaces c)) (filter (fun x => x.1 <> id) (cl_contexts c)))
  | MapSurfaceToOutput id _ _ | MapSurfaceToWindow id _ _ _ => guard (known_surface c id) c
  | MapSurfaceToScaledOutput id _ _ _ _ | MapSurfaceToScaledWindow id _ _ _ _ _ =>
      guard (scales cap && known_surface c id) c
  | StartFrame ts id => guard (negb (drawing c) && valid_timestamp ts) (with_frame c (Some id))
  | EndFrame id => guard (bool_decide (cl_frame c = Some id)) (with_frame c None)
  | WireToSurface1 id codec f r _ =>
      guard (drawing c && holds_rect c id r && decodes_codec cap codec && negb (codec =? codec_progressive) &&
             valid_pixel_format f) c
  | WireToSurface2 id codec x f _ =>
      guard (drawing c && known_surface c id && decodes_codec cap codec && (codec =? codec_progressive) &&
             valid_pixel_format f)
        (with_surfaces c (cl_surfaces c) ({[ (id, x) ]} ∪ cl_contexts c))
  | DeleteEncodingContext id x =>
      guard (bool_decide ((id, x) ∈ cl_contexts c))
        (with_surfaces c (cl_surfaces c) (cl_contexts c ∖ {[ (id, x) ]}))
  | SolidFill id _ rs => guard (drawing c && negb (len rs =? 0) && forallb (holds_rect c id) rs) c
  | SurfaceToSurface src dest r ps =>
      guard (drawing c && holds_rect c src r && holds_points c dest (right r - left r) (bottom r - top r) ps) c
  | SurfaceToCache id key slot r =>
      let w := right r - left r in
      let h := bottom r - top r in
      guard (drawing c && holds_rect c id r && (1 <=? slot) && (slot <=? slots_of cap) &&
             bool_decide (cl_cache c !! slot = None) &&
             bool_decide (map_Forall (fun _ e => e.1.1 <> key) (cl_cache c)) &&
             (cl_bytes c + w * h * 4 <=? bytes_of cap))
        (with_cache c (<[slot := (key, w, h)]> (cl_cache c)) (cl_bytes c + w * h * 4))
  | CacheToSurface slot id ps =>
      match cl_cache c !! slot with
      | Some e => guard (drawing c && holds_points c id e.1.2 e.2 ps) c
      | None => None
      end
  | EvictCacheEntry slot =>
      match cl_cache c !! slot with
      | Some e => Some (with_cache c (delete slot (cl_cache c)) (cl_bytes c - e.1.2 * e.2 * 4))
      | None => None
      end
  | CacheImportReply [] => Some c
  | _ => None
  end.

(** A Caps Confirm makes the client forget everything; a second one needs 10.3. *)
Definition client_step (c : Client) (p : Pdu) : option Client :=
  match p, cl_caps c with
  | CapsConfirm cap, None =>
      guard (bool_decide (is_Some (caps_data_length (cs_version cap)))) (mkClient (Some cap) false ∅ ∅ None ∅ 0)
  | CapsConfirm cap, Some old =>
      guard (bool_decide (is_Some (caps_data_length (cs_version cap))) && (v10_3 <=? cs_version old))
        (mkClient (Some cap) false ∅ ∅ None ∅ 0)
  | _, Some cap => client_draw c cap p
  | _, None => None
  end.

Fixpoint replay (c : Client) (ps : list Pdu) : option Client :=
  match ps with
  | [] => Some c
  | p :: ps' => match client_step c p with Some c' => replay c' ps' | None => None end
  end.

Lemma replay_snoc c ps p : replay c (ps ++ [p]) =
  match replay c ps with Some c' => client_step c' p | None => None end.
Proof.
  revert c. induction ps as [|q ps IH]; intros c; cbn [app replay].
  - by destruct (client_step c p).
  - destruct (client_step c q); [apply IH|done].
Qed.

(** ** The invariant of the server *)

Definition caps_inv (config : GfxServerConfig) (n : Negotiated) : Prop :=
  n = derive (version n) (client_flags n) config /\ In (version n) preferred_versions /\
  version n <= max_version config /\ u32_ok (client_flags n) = true.

Definition surface_ok (v : Surface) : bool :=
  (0 <? s_width v) && (s_width v <=? 0xFFFF) && (0 <? s_height v) && (s_height v <=? 0xFFFF) &&
  valid_pixel_format (s_format v).

Definition layout_inv (l : Layout) : Prop :=
  map_Forall (fun id v => u16_ok id = true /\ surface_ok v = true) (surfaces_ l) /\
  (forall id x, (id, x) ∈ codec_contexts_ l -> is_Some (surfaces_ l !! id) /\ u32_ok x = true).

Definition frames_inv (f : Frames) : Prop :=
  u32_ok (current_frame_ f) = true /\ u32_ok (next_frame_id_ f) = true /\ forallb u32_ok (unacked_ f) = true /\
  (acks_suspended_ f = true -> unacked_ f = []).

(** Sums over the entries of the cache. *)
Definition used_one (e : CacheEntry) : Z := if e_used e then 1 else 0.
Definition used_bytes (e : CacheEntry) : Z := if e_used e then e_bytes e else 0.
Fixpoint total (f : CacheEntry -> Z) (l : list CacheEntry) : Z :=
  match l with [] => 0 | e :: l' => f e + total f l' end.

Definition entry_ok (e : CacheEntry) : bool :=
  u64_ok (e_key e) && (1 <=? e_width e) && (e_width e <=? 0xFFFF) && (1 <=? e_height e) &&
  (e_height e <=? 0xFFFF) && (e_bytes e =? e_width e * e_height e * 4).

Record cache_inv (n : Negotiated) (b : Cache) : Prop := {
  cache_length : cache_ b = [] /\ cache_hint_ b = 0 \/ len (cache_ b) = n_max_cache_slots n /\ 0 <= cache_hint_ b < len (cache_ b);
  cache_entries : forall i e, cache_ b !! i = Some e -> e_used e = true -> entry_ok e = true;
  cache_keyed : forall i e, cache_ b !! i = Some e -> e_used e = true -> cache_keys_ b !! e_key e = Some (Z.of_nat i + 1);
  cache_mapped : forall k slot, cache_keys_ b !! k = Some slot ->
    exists e, 1 <= slot /\ cache_ b !! Z.to_nat (slot - 1) = Some e /\ e_used e = true /\ e_key e = k;
  cache_counted : Z.of_nat (size (cache_keys_ b)) = total used_one (cache_ b);
  cache_summed : cache_bytes_ b = total used_bytes (cache_ b);
  cache_bounded : cache_bytes_ b <= n_max_cache_bytes n;
  cache_packed : forall i, Z.of_nat i < cache_hint_ b -> exists e, cache_ b !! i = Some e /\ e_used e = true }.

Definition inv (config : GfxServerConfig) (s : t) : Prop :=
  config_ s = config /\ frames_inv (frames_ s) /\
  match state_ s with
  | wait_caps_advertise =>
      negotiated_ s = None /\ layout_ s = no_layout /\ in_frame_ (frames_ s) = false /\ bitmaps_ s = no_cache
  | ready => exists n, negotiated_ s = Some n /\ caps_inv config n /\ layout_inv (layout_ s) /\ cache_inv n (bitmaps_ s)
  | failed => True
  end.

(** ** Agreement of server and client *)

(** What the client has in a slot, from the server's list. *)
Definition cached (l : list CacheEntry) (slot : Z) : option (Z * Z * Z) :=
  if 1 <=? slot then
    match l !! Z.to_nat (slot - 1) with
    | Some e => if e_used e then Some (e_key e, e_width e, e_height e) else None
    | None => None
    end
  else None.

Definition confirmed (n : Negotiated) : CapabilitySet := make_capability_set (version n) (flags n).

Record agrees (s : t) (c : Client) : Prop := {
  agrees_caps : cl_caps c = confirmed <$> negotiated_ s;
  agrees_reset : cl_reset c = graphics_reset_ (layout_ s);
  agrees_surfaces : cl_surfaces c = surfaces_ (layout_ s);
  agrees_contexts : cl_contexts c = codec_contexts_ (layout_ s);
  agrees_frame : cl_frame c = if in_frame_ (frames_ s) then Some (current_frame_ (frames_ s)) else None;
  agrees_cache : forall slot, cl_cache c !! slot = cached (cache_ (bitmaps_ s)) slot;
  agrees_bytes : cl_bytes c = cache_bytes_ (bitmaps_ s) }.

(** The messages [sent] and those waiting in [output_] are legal in order, and
    the client's state then is the server's, unless the server has failed. *)
Definition in_step (sent : list (list byte)) (s : t) : Prop :=
  exists ps c, Forall2 (fun e p => decode_pdu e = Ok p) (sent ++ output_ s) ps /\ replay new_client ps = Some c /\
    (state_ s <> failed -> agrees s c).

Definition good (config : GfxServerConfig) (sent : list (list byte)) (s : t) : Prop := inv config s /\ in_step sent s.

(** ** What negotiation promises *)

Lemma land_clear f a b : Z.land a b = 0 -> Z.land (Z.ldiff f a) b = Z.land f b.
Proof.
  intros H. apply Z.bits_inj'. intros i Hi. rewrite !Z.land_spec, Z.ldiff_spec.
  assert (Z.testbit (Z.land a b) i = false) as E by (rewrite H; apply Z.bits_0). rewrite Z.land_spec in E.
  by destruct (Z.testbit f i), (Z.testbit a i), (Z.testbit b i).
Qed.

Lemma derive_version v f config : version (derive v f config) = v.
Proof. done. Qed.

(** In every version that is ever selected the capability set has flags. *)
Lemma preferred_defined v : In v preferred_versions -> is_Some (caps_data_length v).
Proof. unfold preferred_versions. intros H. repeat (destruct H as [<-|H]; [by eexists|]). done. Qed.

(** Flags of 10.1 are 0 since it defines none. *)
Lemma confirmed_caps config n : caps_inv config n ->
  confirmed n = mkCaps (version n) (flags n) [].
Proof.
  intros (E & Hv & _ & _). unfold confirmed, make_capability_set.
  destruct (Z.eqb_spec (version n) v10_1) as [Ev|_]; [|by destruct (preferred_defined _ Hv) as [k ->]].
  assert (flags n = 0) as ->; [|done]. rewrite E, Ev. unfold derive. cbn [flags]. change (defined_caps_flags v10_1) with 0.
  by rewrite Z.land_0_r.
Qed.

(** The flags that are confirmed, tested. *)
Lemma derive_flag v f config flag :
  Z.land flag_avc420_enabled flag = 0 ->
  Z.land (flags (derive v f config)) flag = Z.land (Z.land f (defined_caps_flags v)) flag.
Proof. intros H. unfold derive. cbn [flags]. destruct (_ && _); [by apply land_clear|done]. Qed.

Lemma derive_avc420_flag f config :
  Z.land (flags (derive v8_1 f config)) flag_avc420_enabled =
    if cfg_avc420 config then Z.land (Z.land f (defined_caps_flags v8_1)) flag_avc420_enabled else 0.
Proof.
  unfold derive. cbn [flags]. rewrite Z.eqb_refl. cbn [andb].
  set (x := Z.land f _). destruct (cfg_avc420 config); cbn [andb negb].
  - destruct (Z.eqb_spec (Z.land x flag_avc420_enabled) 0) as [E|E]; cbn [negb]; [|done]. rewrite E.
    apply Z.bits_inj'. intros i Hi. rewrite Z.land_spec, Z.ldiff_spec, Z.bits_0.
    destruct (Z.testbit x i), (Z.testbit flag_avc420_enabled i); done.
  - apply Z.bits_inj'. intros i Hi. rewrite Z.land_spec, Z.ldiff_spec, Z.bits_0.
    destruct (Z.testbit x i), (Z.testbit flag_avc420_enabled i); done.
Qed.

Section Negotiated.
Context (config : GfxServerConfig) (n : Negotiated) (Hn : caps_inv config n).

Lemma negotiated_flag flag : Z.land flag_avc420_enabled flag = 0 ->
  Z.land (cs_flags (confirmed n)) flag = Z.land (Z.land (client_flags n) (defined_caps_flags (version n))) flag.
Proof.
  intros H. rewrite (confirmed_caps _ _ Hn). cbn [cs_flags]. destruct Hn as (E & _). rewrite E at 1.
  by apply derive_flag.
Qed.

Lemma confirmed_version : cs_version (confirmed n) = version n.
Proof. by rewrite (confirmed_caps _ _ Hn). Qed.

Lemma confirmed_scales : scaled_output n = scales (confirmed n).
Proof.
  unfold scales, has_flag. rewrite confirmed_version, (negotiated_flag flag_scaledmap_disable) by done.
  destruct Hn as (E & _). rewrite E at 1. unfold derive. cbn [scaled_output].
  destruct (Z.eqb_spec (version n) v10_7) as [Ev|]; [|done]. rewrite Ev. cbn [andb]. by rewrite negb_involutive.
Qed.

Lemma confirmed_small : small_cache n = small (confirmed n).
Proof.
  unfold small, has_flag. rewrite confirmed_version, !negotiated_flag by done.
  destruct Hn as (E & _). rewrite E at 1. unfold derive. cbn [small_cache]. f_equal.
  rewrite Z.land_lor_distr_r. set (x := Z.land _ flag_thin_client). set (y := Z.land _ flag_small_cache).
  destruct (Z.eqb_spec x 0) as [->|Hx], (Z.eqb_spec y 0) as [->|Hy]; cbn [negb orb]; try done.
  1: by apply negb_true_iff, Z.eqb_neq. all: apply negb_true_iff, Z.eqb_neq; rewrite Z.lor_eq_0_iff; tauto.
Qed.

Lemma confirmed_slots : n_max_cache_slots n = slots_of (confirmed n).
Proof.
  unfold slots_of. rewrite <- confirmed_small. destruct Hn as (E & _). by rewrite E.
Qed.

Lemma confirmed_bytes : n_max_cache_bytes n = bytes_of (confirmed n).
Proof.
  unfold bytes_of. rewrite <- confirmed_small. destruct Hn as (E & _). by rewrite E.
Qed.

Lemma confirmed_flags : 0 <= flags n < 256.
Proof.
  assert (Z.land (flags n) 255 = flags n) as <-.
  2: { change 255 with (Z.ones 8). rewrite Z.land_ones by done. by apply Z.mod_pos_bound. }
  destruct Hn as (E & Hv & _). rewrite E.
  assert (Z.land (defined_caps_flags (version n)) 255 = defined_caps_flags (version n)) as D.
  { clear E. revert Hv. unfold preferred_versions. intros Hv. repeat (destruct Hv as [<-|Hv]; [done|]). done. }
  assert (forall f, Z.land (Z.land f (defined_caps_flags (version n))) 255 = Z.land f (defined_caps_flags (version n))) as D'.
  { intros f. by rewrite <- Z.land_assoc, D. }
  unfold derive. cbn [flags]. destruct (_ && _); [|apply D'].
  rewrite <- D' at 2. apply Z.bits_inj'. intros i Hi. rewrite !Z.land_spec, !Z.ldiff_spec, !Z.land_spec.
  by destruct (Z.testbit _ i), (Z.testbit _ i), (Z.testbit _ i), (Z.testbit _ i).
Qed.

Lemma confirmed_ok : caps_ok (confirmed n) = true.
Proof.
  pose proof confirmed_flags as Hf. rewrite (confirmed_caps _ _ Hn). destruct Hn as (E & Hv & _). unfold caps_ok.
  cbn [cs_version cs_flags unknown_data]. destruct (preferred_defined _ Hv) as [k Ek]. rewrite Ek.
  assert (u32_ok (version n) = true) as ->.
  { clear E Ek. revert Hv. unfold preferred_versions. intros Hv. repeat (destruct Hv as [<-|Hv]; [done|]). done. }
  assert (u32_ok (flags n) = true) as -> by (unfold u32_ok; apply andb_true_intro; lia).
  rewrite bool_decide_true by done. cbn [andb]. destruct (Z.eqb_spec (version n) v10_1) as [Ev|]; [|done]. cbn [negb orb].
  rewrite E, Ev. unfold derive. cbn [flags]. change (defined_caps_flags v10_1) with 0. by rewrite Z.land_0_r.
Qed.

(** The codecs the server lets through are those the client can decode. *)
Lemma confirmed_avc420 : avc420 n = true ->
  (version n =? v8_1) && negb (Z.land (flags n) flag_avc420_enabled =? 0) ||
  (v10_4 <=? version n) && (Z.land (flags n) flag_avc_disabled =? 0) = true.
Proof.
  destruct Hn as (E & _). intros H. rewrite E in H at 1. apply (f_equal flags) in E. rewrite E. clear E.
  unfold derive at 1 in H. cbn [avc420] in H. apply orb_true_iff.
  destruct (v10 <=? version n) eqn:Ev.
  - right. apply andb_prop in H as [[H _]%andb_prop Hv]. rewrite Hv. cbn [andb]. exact H.
  - left. apply andb_prop in H as [Hv H]. rewrite Hv. apply Z.eqb_eq in Hv. rewrite Hv in H |- *.
    rewrite derive_avc420_flag. apply andb_prop in H as [-> H]. by cbn [andb].
Qed.

Lemma confirmed_avc444 : avc444 n || avc444v2 n = true ->
  (v10 <=? version n) && (Z.land (flags n) flag_avc_disabled =? 0) = true.
Proof.
  destruct Hn as (E & _). intros H. rewrite E in H at 1 2. apply (f_equal flags) in E. rewrite E. clear E.
  unfold derive at 1 2 in H. cbn [avc444 avc444v2] in H.
  apply orb_true_iff in H as [[-> [H _]%andb_prop]%andb_prop|[-> [H _]%andb_prop]%andb_prop]; exact H.
Qed.

Lemma confirmed_allows codec : allows n codec = true -> decodes_codec (confirmed n) codec = true.
Proof.
  unfold allows, decodes_codec, has_flag. rewrite confirmed_version. destruct (existsb _ _); [done|].
  destruct (codec =? codec_progressive).
  { rewrite negotiated_flag by done. destruct Hn as (E & _). rewrite E at 1. unfold derive. cbn [thin_client].
    by destruct (v10 <=? version n), (_ =? 0). }
  rewrite (confirmed_caps _ _ Hn). cbn [cs_flags cs_version]. rewrite negb_involutive.
  destruct (codec =? codec_avc420); [apply confirmed_avc420|].
  cbn [existsb]. rewrite orb_false_r. destruct (codec =? codec_avc444); cbn [orb].
  - intros H. apply confirmed_avc444. by rewrite H.
  - destruct (codec =? codec_avc444v2); [|done]. intros H. apply confirmed_avc444. by rewrite H, orb_true_r.
Qed.
End Negotiated.

(** ** The bitmap cache *)

Lemma total_insert f l i x y : l !! i = Some x -> total f (<[i:=y]> l) = total f l - f x + f y.
Proof.
  revert i. induction l as [|e l IH]; intros [|i]; cbn; [done|done|intros [= ->]; lia|intros H]. rewrite IH by done. lia.
Qed.

Lemma total_zero f l : (forall i e, l !! i = Some e -> f e = 0) -> total f l = 0.
Proof.
  induction l as [|e l IH]; intros H; cbn; [done|]. rewrite (H 0%nat e) by done.
  rewrite IH; [done|]. intros i. exact (H (S i)).
Qed.

Lemma total_nonneg f l : (forall i e, l !! i = Some e -> 0 <= f e) -> 0 <= total f l.
Proof.
  induction l as [|e l IH]; intros H; cbn; [done|]. specialize (H 0%nat e eq_refl) as H0.
  assert (0 <= total f l) by (apply IH; intros i; exact (H (S i))). lia.
Qed.

Lemma total_member f l i x : (forall i e, l !! i = Some e -> 0 <= f e) -> l !! i = Some x -> f x <= total f l.
Proof.
  revert i. induction l as [|e l IH]; intros [|i] H; cbn; try done.
  - intros [= ->]. assert (0 <= total f l) by (apply total_nonneg; intros i; exact (H (S i))). lia.
  - intros Hx. specialize (H 0%nat e eq_refl) as H0. specialize (IH i (fun i => H (S i)) Hx). lia.
Qed.

(** While some slot is free, there is a first one. *)
Lemma first_free l : total used_one l < len l ->
  exists j e, l !! j = Some e /\ e_used e = false /\ forall i, (i < j)%nat -> exists e', l !! i = Some e' /\ e_used e' = true.
Proof.
  induction l as [|e l IH]; [done|]. cbn [total]. rewrite len_cons. unfold used_one at 1. destruct (e_used e) eqn:Eu; intros H.
  - destruct IH as (j & e' & Hj & Hu & Hb); [lia|]. exists (S j), e'. split_and!; [done|done|].
    intros [|i] Hi; [by exists e|]. apply (Hb i). lia.
  - exists 0%nat, e. split_and!; [done|done|]. intros i Hi. lia.
Qed.

Lemma free_index_spec l j e k : forall fuel index, (k <= fuel)%nat -> 0 <= index -> index + Z.of_nat k = Z.of_nat j ->
  l !! j = Some e -> e_used e = false ->
  (forall i, (i < j)%nat -> exists e', l !! i = Some e' /\ e_used e' = true) ->
  free_index fuel l index = Some (Z.of_nat j).
Proof.
  induction k as [|k IH]; intros fuel index Hk Hi Hj He Hu Hb.
  - assert (index = Z.of_nat j) as -> by lia. destruct fuel; cbn; rewrite Nat2Z.id, He, Hu; done.
  - destruct (Hb (Z.to_nat index)) as (e' & He' & Hu'); [lia|].
    assert (Z.of_nat j < len l) by (apply lookup_lt_Some in He; unfold len; lia).
    destruct fuel as [|fuel]; [lia|]. cbn. rewrite He', Hu', Z.mod_small by lia. apply IH; try done; lia.
Qed.

Lemma cached_insert l j x e slot : l !! j = Some x ->
  cached (<[j:=e]> l) slot =
    if slot =? Z.of_nat j + 1 then if e_used e then Some (e_key e, e_width e, e_height e) else None else cached l slot.
Proof.
  intros Hx. unfold cached. destruct (Z.leb_spec 1 slot).
  - destruct (Z.eqb_spec slot (Z.of_nat j + 1)) as [->|].
    + replace (Z.to_nat (Z.of_nat j + 1 - 1)) with j by lia. rewrite list_lookup_insert_eq; [done|].
      by eapply lookup_lt_Some.
    + rewrite list_lookup_insert_ne by lia. done.
  - destruct (Z.eqb_spec slot (Z.of_nat j + 1)); [lia|done].
Qed.

Section CacheInv.
Context (n : Negotiated) (Hslots : 0 < n_max_cache_slots n).

Lemma entry_bytes_range e : entry_ok e = true -> 4 <= e_bytes e <= 65535 * 65535 * 4.
Proof. unfold entry_ok. intros H. bools. nia. Qed.

Lemma used_bytes_nonneg b : cache_inv n b -> forall i e, cache_ b !! i = Some e -> 0 <= used_bytes e.
Proof.
  intros H i e He. unfold used_bytes. destruct (e_used e) eqn:Eu; [|done].
  pose proof (entry_bytes_range e (cache_entries _ _ H _ _ He Eu)). lia.
Qed.

Lemma cache_bytes_nonneg b : cache_inv n b -> 0 <= cache_bytes_ b.
Proof. intros H. rewrite (cache_summed _ _ H). by apply total_nonneg, used_bytes_nonneg. Qed.

(** The list as allocated on first use. *)
Definition allocated (b : Cache) : Cache :=
  mkCache (match cache_ b with [] => replicate (Z.to_nat (n_max_cache_slots n)) no_entry | _ => cache_ b end)
    (cache_keys_ b) (cache_bytes_ b) (cache_hint_ b).

Lemma allocated_inv b : cache_inv n b -> cache_inv n (allocated b) /\ len (cache_ (allocated b)) = n_max_cache_slots n.
Proof.
  intros H. pose proof (cache_length _ _ H) as HL. unfold allocated. destruct (cache_ b) as [|e l] eqn:E; cbn [cache_].
  - assert (len (replicate (Z.to_nat (n_max_cache_slots n)) no_entry) = n_max_cache_slots n) as L by (rewrite len_replicate; lia).
    split; [|done]. assert (forall i e, replicate (Z.to_nat (n_max_cache_slots n)) no_entry !! i = Some e -> e = no_entry) as R.
    { by intros i e [-> _]%lookup_replicate. }
    assert (cache_hint_ b = 0) as Hh by (destruct HL as [[_ ?]|[Hl ?]]; [done|rewrite len_nil in *; lia]).
    destruct H; rewrite E in *. split; cbn [cache_ cache_hint_ cache_keys_ cache_bytes_].
    + right. split; [done|lia].
    + by intros i e ->%R.
    + by intros i e ->%R.
    + intros k slot Hk. destruct (cache_mapped0 _ _ Hk) as (e & _ & He & _). by rewrite lookup_nil in He.
    + rewrite cache_counted0, (total_zero _ (replicate _ _)); [done|]. by intros i e ->%R.
    + rewrite cache_summed0, (total_zero _ (replicate _ _)); [done|]. by intros i e ->%R.
    + done.
    + intros i Hi. lia.
  - rewrite <- E. split; [by destruct b|]. destruct HL as [[? _]|[? _]]; [done|]. by rewrite E.
Qed.

(** The first free slot is found. *)
Lemma free_slot b : cache_inv n b -> len (cache_ b) = n_max_cache_slots n -> Z.of_nat (size (cache_keys_ b)) < n_max_cache_slots n ->
  exists j e, free_index (length (cache_ b)) (cache_ b) (cache_hint_ b) = Some (Z.of_nat j) /\
    cache_ b !! j = Some e /\ e_used e = false /\ (forall i, (i < j)%nat -> exists e', cache_ b !! i = Some e' /\ e_used e' = true).
Proof.
  intros H L Hs. rewrite (cache_counted _ _ H), <- L in Hs. destruct (first_free _ Hs) as (j & e & He & Hu & Hb).
  exists j, e. split_and!; [|done..]. pose proof (cache_packed _ _ H) as Hp.
  assert (0 <= cache_hint_ b) by (destruct (cache_length _ _ H) as [[_ ?]|[_ ?]]; lia).
  assert (cache_hint_ b <= Z.of_nat j).
  { destruct (Z.le_gt_cases (cache_hint_ b) (Z.of_nat j)) as [?|Hj]; [done|]. destruct (Hp j Hj) as (e' & He' & Hu'). congruence. }
  apply lookup_lt_Some in He as Hl.
  apply (free_index_spec _ j e (Z.to_nat (Z.of_nat j - cache_hint_ b))); try done; lia.
Qed.

(** Entries that are in use have different keys. *)
Lemma used_distinct b i j e e' : cache_inv n b -> cache_ b !! i = Some e -> e_used e = true ->
  cache_ b !! j = Some e' -> e_used e' = true -> e_key e = e_key e' -> i = j.
Proof.
  intros H Hi Hu Hj Hu' Hk. pose proof (cache_keyed _ _ H _ _ Hi Hu) as K. rewrite Hk in K.
  rewrite (cache_keyed _ _ H _ _ Hj Hu') in K. injection K. lia.
Qed.

Lemma store_inv b j old e : cache_inv n b -> len (cache_ b) = n_max_cache_slots n ->
  cache_ b !! j = Some old -> e_used old = false ->
  (forall i, (i < j)%nat -> exists e', cache_ b !! i = Some e' /\ e_used e' = true) ->
  e_used e = true -> entry_ok e = true -> cache_keys_ b !! e_key e = None ->
  cache_bytes_ b + e_bytes e <= n_max_cache_bytes n ->
  cache_inv n (mkCache (<[j:=e]> (cache_ b)) (<[e_key e:=Z.of_nat j + 1]> (cache_keys_ b)) (cache_bytes_ b + e_bytes e)
                 ((Z.of_nat j + 1) mod len (cache_ b))).
Proof.
  intros H L Hj Ho Hb Hu Hok Hk Hbytes. pose proof (lookup_lt_Some _ _ _ Hj) as Hlt.
  assert (len (<[j:=e]> (cache_ b)) = len (cache_ b)) as L' by (unfold len; by rewrite length_insert).
  assert (forall i x, <[j:=e]> (cache_ b) !! i = Some x -> (i = j /\ x = e) \/ (i <> j /\ cache_ b !! i = Some x)) as Hi.
  { intros i x Hx. apply list_lookup_insert_Some in Hx as [(-> & -> & _)|[? ?]]; [by left|right; auto]. }
  split; cbn [cache_ cache_keys_ cache_bytes_ cache_hint_].
  - right. rewrite L'. split; [done|]. apply Z.mod_pos_bound. lia.
  - intros i x [[-> ->]|[_ Hx]]%Hi; [done|by apply (cache_entries _ _ H i)].
  - intros i x [[-> ->]|[Hne Hx]]%Hi Hux; [by rewrite lookup_insert_eq|].
    pose proof (cache_keyed _ _ H _ _ Hx Hux) as K. rewrite lookup_insert_ne; [done|congruence].
  - intros k slot Hs. apply lookup_insert_Some in Hs as [[<- <-]|[Hne Hs]].
    + exists e. split_and!; [lia| |done|done]. replace (Z.to_nat _) with j by lia. by rewrite list_lookup_insert_eq.
    + destruct (cache_mapped _ _ H _ _ Hs) as (x & H1 & Hx & Hux & Hkx). exists x. split_and!; try done.
      rewrite list_lookup_insert_ne; [done|]. intros Ej. rewrite <- Ej in Hx. congruence.
  - rewrite map_size_insert_None by done. rewrite (total_insert _ _ _ old) by done. unfold used_one at 2 3. rewrite Ho, Hu.
    rewrite Nat2Z.inj_succ, (cache_counted _ _ H). lia.
  - rewrite (total_insert _ _ _ old) by done. unfold used_bytes at 2 3. rewrite Ho, Hu, (cache_summed _ _ H). lia.
  - done.
  - intros i Hh. destruct (Z.eq_dec (Z.of_nat j + 1) (len (cache_ b))) as [El|].
    + rewrite El, Z.mod_same in Hh by lia. lia.
    + rewrite Z.mod_small in Hh by (unfold len in *; lia). destruct (decide (i = j)) as [->|Hne].
      * exists e. split; [by apply list_lookup_insert_eq|done].
      * destruct (Hb i) as (x & Hx & Hux); [lia|]. exists x. by rewrite list_lookup_insert_ne.
Qed.

Lemma evict_inv b j e : cache_inv n b -> cache_ b !! j = Some e -> e_used e = true ->
  cache_inv n (mkCache (<[j:=no_entry]> (cache_ b)) (delete (e_key e) (cache_keys_ b)) (cache_bytes_ b - e_bytes e)
                 (Z.min (cache_hint_ b) (Z.of_nat j))) /\ 0 <= cache_bytes_ b - e_bytes e.
Proof.
  intros H Hj Hu. pose proof (lookup_lt_Some _ _ _ Hj) as Hlt.
  assert (e_bytes e <= cache_bytes_ b) as Hle.
  { rewrite (cache_summed _ _ H). pose proof (total_member used_bytes _ _ _ (used_bytes_nonneg _ H) Hj) as Hm.
    unfold used_bytes at 1 in Hm. by rewrite Hu in Hm. }
  pose proof (entry_bytes_range e (cache_entries _ _ H _ _ Hj Hu)).
  assert (len (<[j:=no_entry]> (cache_ b)) = len (cache_ b)) as L' by (unfold len; by rewrite length_insert).
  assert (forall i x, <[j:=no_entry]> (cache_ b) !! i = Some x -> e_used x = true -> i <> j /\ cache_ b !! i = Some x) as Hi.
  { intros i x Hx Hux. apply list_lookup_insert_Some in Hx as [(-> & <- & _)|[? ?]]; [done|auto]. }
  split; [split; cbn [cache_ cache_keys_ cache_bytes_ cache_hint_]|lia].
  - destruct (cache_length _ _ H) as [[E _]|[L Hh]]; [by rewrite E in Hj|]. right. rewrite L'. lia.
  - intros i x Hx Hux. destruct (Hi i x Hx Hux) as [_ Hx']. by apply (cache_entries _ _ H i).
  - intros i x Hx Hux. destruct (Hi i x Hx Hux) as [Hne Hx']. rewrite lookup_delete_ne; [by apply (cache_keyed _ _ H)|].
    intros Ek. apply Hne. by apply (used_distinct b _ _ x e).
  - intros k slot [Hne Hs]%lookup_delete_Some. destruct (cache_mapped _ _ H _ _ Hs) as (x & H1 & Hx & Hux & Hkx).
    exists x. split_and!; try done. rewrite list_lookup_insert_ne; [done|]. intros Ej. rewrite <- Ej in Hx. congruence.
  - assert (is_Some (cache_keys_ b !! e_key e)) as Hs by (rewrite (cache_keyed _ _ H _ _ Hj Hu); by eexists).
    rewrite map_size_delete_Some by done. rewrite (total_insert _ _ _ e) by done. unfold used_one at 2 3. rewrite Hu.
    pose proof (cache_counted _ _ H) as Hc. cbn [e_used no_entry].
    assert (size (cache_keys_ b) <> 0%nat) by (rewrite map_size_ne_0_lookup; eauto). lia.
  - rewrite (total_insert _ _ _ e) by done. unfold used_bytes at 2 3. rewrite Hu, (cache_summed _ _ H). cbn [e_used no_entry]. lia.
  - pose proof (cache_bounded _ _ H). lia.
  - intros i Hh. destruct (cache_packed _ _ H i ltac:(lia)) as (x & Hx & Hux). exists x.
    rewrite list_lookup_insert_ne by lia. done.
Qed.
End CacheInv.
End GfxClient.
