(* ===== verification/GfxRefinement.v ===== *)
(** * The graphics pipeline server keeps to what a client accepts

    A logic for the member functions of [GfxServer], and the proof that every
    call keeps the server in step with the client of [GfxClient]; the safety of
    every call; and the map of the bitmap cache. *)

From stdpp Require Import gmap sorting.
From S2P Require Import Prelude Buffers CodecLogic Fields Rdpgfx GfxServer GfxClient.
Open Scope Z_scope.

Module GfxRefinement.
Import Rdpgfx GfxServer GfxClient.

(** ** Reasoning about member functions

    [runs total m s Q]: run from [s], [m] returns and satisfies [Q]; when [total]
    is [false], it may also fail an assertion. *)

Definition runs {A} (total : bool) (m : M A) (s : t) (Q : A -> t -> Prop) : Prop :=
  match m s with Some (a, s') => Q a s' | None => total = false end.

Lemma runs_bind {A B} b (m : M A) (f : A -> M B) s Q : runs b m s (fun a s' => runs b (f a) s' Q) -> runs b (sbind m f) s Q.
Proof. unfold runs, sbind. by destruct (m s) as [[a s']|]. Qed.

Lemma runs_ret {A} b (a : A) s Q : Q a s -> runs b (sret a) s Q.
Proof. done. Qed.

Lemma runs_get {A} b (f : t -> A) s Q : Q (f s) s -> runs b (sget f) s Q.
Proof. done. Qed.

Lemma runs_mod b f s Q : Q tt (f s) -> runs b (smod f) s Q.
Proof. done. Qed.

Lemma runs_event b e s Q : Q tt (with_events s (events_ s ++ [e])) -> runs b (emplace_event e) s Q.
Proof. done. Qed.

Lemma runs_assert b c s Q : (b = true -> c = true) -> (c = true -> Q tt s) -> runs b (sassert c) s Q.
Proof. unfold runs, sassert. destruct c; [auto|]. intros H _. destruct b; [by specialize (H eq_refl)|done]. Qed.

Lemma runs_send b p s Q : pdu_ok p = true ->
  (forall e, decode_pdu e = Ok p -> Q tt (with_output s (output_ s ++ [e]))) -> runs b (send p) s Q.
Proof. intros Hp H. destruct (encode_ok p Hp) as (e & He & Hd). unfold runs, send. rewrite He. by apply H. Qed.

Lemma runs_caps b s n Q : negotiated_ s = Some n -> Q n s -> runs b caps s Q.
Proof. unfold runs, caps. by intros ->. Qed.

Lemma runs_surface b id s Q : (b = true -> has_surface s id = true) ->
  (forall v, surfaces_ (layout_ s) !! id = Some v -> Q v s) -> runs b (surface id) s Q.
Proof.
  unfold runs, surface, has_surface. intros Hb H. destruct (_ !! id) as [v|]; [by apply H|].
  destruct b; [|done]. by specialize (Hb eq_refl).
Qed.

Lemma runs_entry b slot s Q : (b = true -> is_Some (slot_entry s slot)) ->
  (forall e, slot_entry s slot = Some e -> Q e s) -> runs b (cache_entry slot) s Q.
Proof.
  unfold runs, cache_entry, slot_entry. intros Hb H. destruct (_ && _); [destruct (_ !! _) as [e|]; [destruct (e_used e)|]|].
  1: by apply H. all: destruct b; [destruct (Hb eq_refl); done|done].
Qed.

Lemma runs_in_frame b s Q : (b = true -> in_frame_ (frames_ s) = true) -> (in_frame_ (frames_ s) = true -> Q tt s) ->
  runs b assert_in_frame s Q.
Proof. intros. by apply runs_assert. Qed.

Lemma runs_weaken {A} b (m : M A) s (Q Q' : A -> t -> Prop) :
  runs b m s Q -> (forall a s', Q a s' -> Q' a s') -> runs b m s Q'.
Proof. unfold runs. destruct (m s) as [[a s']|]; [auto|done]. Qed.

(** A command: it does nothing once the server has failed. *)
Lemma runs_usable {A} b (d : A) m s Q : (state_ s <> wait_caps_advertise \/ b = false) ->
  (state_ s = failed -> Q d s) -> (state_ s = ready -> runs b m s Q) -> runs b (when_usable d m) s Q.
Proof.
  intros Hw Hf Hr. unfold when_usable. apply runs_bind. unfold usable. apply runs_bind, runs_get. unfold is_failed.
  case_bool_decide as E; [by apply runs_ret, runs_ret, Hf|]. apply runs_bind.
  apply runs_assert; intros H; [|apply runs_ret, Hr; by bools].
  destruct (state_ s); [destruct Hw; [done|congruence]|done|done].
Qed.

(** A message is sent, or none. *)
Lemma in_step_send sent s s' e p :
  in_step sent s -> state_ s <> failed -> decode_pdu e = Ok p -> output_ s' = output_ s ++ [e] ->
  (forall c, agrees s c -> exists c', client_step c p = Some c' /\ agrees s' c') -> in_step sent s'.
Proof.
  intros (ps & c & HF & HR & HA) Hs Hd Ho H. destruct (H c (HA Hs)) as (c' & Hc & HA').
  exists (ps ++ [p]), c'. split_and!; [|by rewrite replay_snoc, HR|done].
  rewrite Ho, app_assoc. apply Forall2_app; [done|]. by constructor.
Qed.

Lemma in_step_quiet sent s s' : in_step sent s -> output_ s' = output_ s ->
  (state_ s' <> failed -> state_ s <> failed /\ forall c, agrees s c -> agrees s' c) -> in_step sent s'.
Proof.
  intros (ps & c & HF & HR & HA) Ho H. exists ps, c. rewrite Ho. split_and!; [done|done|].
  intros Hs. destruct (H Hs) as [Hs0 HA']. auto.
Qed.


(** ** Every command keeps server and client in step *)

Lemma step_draw s c n p : agrees s c -> negotiated_ s = Some n ->
  match p with CapsConfirm _ => False | _ => True end -> client_step c p = client_draw c (confirmed n) p.
Proof. intros HA Hn Hp. unfold client_step. rewrite (agrees_caps _ _ HA), Hn. cbn. by destruct p. Qed.

Lemma known_agrees s c id : agrees s c -> known_surface c id = has_surface s id.
Proof. intros HA. unfold known_surface, has_surface. by rewrite (agrees_surfaces _ _ HA). Qed.

Lemma drawing_agrees s c : agrees s c -> drawing c = in_frame_ (frames_ s).
Proof. intros HA. unfold drawing. rewrite (agrees_frame _ _ HA). by destruct (in_frame_ _). Qed.

Lemma inside_sides r w h : inside r w h = true ->
  left r < right r /\ top r < bottom r /\ right r <= w /\ bottom r <= h.
Proof. unfold inside, rect_empty. intros H. bools. lia. Qed.

Lemma holds_agrees s c id v r : agrees s c -> surfaces_ (layout_ s) !! id = Some v ->
  inside r (s_width v) (s_height v) = true -> holds_rect c id r = true.
Proof.
  intros HA Hv Hr%inside_sides. unfold holds_rect. rewrite (agrees_surfaces _ _ HA), Hv.
  repeat (apply andb_true_intro; split); lia.
Qed.

Lemma points_agrees s c id v w h ps : agrees s c -> surfaces_ (layout_ s) !! id = Some v -> countable ps = true ->
  forallb (fun p => fits p w h (s_width v) (s_height v)) ps = true -> holds_points c id w h ps = true.
Proof.
  intros HA Hv Hc Hp. unfold holds_points. rewrite (agrees_surfaces _ _ HA), Hv. unfold countable in Hc.
  apply andb_prop in Hc as [-> _]. exact Hp.
Qed.

(** Side lengths of a rectangle that is not empty. *)
Lemma rect_sides r w h : coordinates_ok r = true -> inside r w h = true ->
  rect_width r = right r - left r /\ rect_height r = bottom r - top r.
Proof.
  intros Hc Hr. pose proof (inside_sides _ _ _ Hr). unfold rect_width, rect_height.
  replace (rect_empty r) with false by (unfold inside in Hr; bools; done).
  unfold coordinates_ok in Hc. widths. rewrite !wrap_small by lia. done.
Qed.

Lemma inside_ok r w h : coordinates_ok r = true -> inside r w h = true -> rect_ok r = true.
Proof.
  unfold coordinates_ok, inside, rect_ok. intros Hc Hr. rewrite Hc. by apply andb_prop in Hr as [[-> _]%andb_prop _].
Qed.

Section InStep.
Context (config : GfxServerConfig) (sent : list (list byte)).

(** What holds of a ready server. *)
Record ready_inv (s : t) (n : Negotiated) : Prop := {
  ri_state : state_ s = ready;
  ri_config : config_ s = config;
  ri_negotiated : negotiated_ s = Some n;
  ri_caps : caps_inv config n;
  ri_layout : layout_inv (layout_ s);
  ri_frames : frames_inv (frames_ s);
  ri_cache : cache_inv n (bitmaps_ s);
  ri_step : in_step sent s }.

Lemma ready_good s n : ready_inv s n -> good config sent s.
Proof.
  intros H. split; [|apply H]. split_and!; [apply H|apply H|]. rewrite (ri_state _ _ H). exists n.
  split_and!; apply H.
Qed.

Lemma good_ready s : good config sent s -> state_ s = ready -> exists n, ready_inv s n.
Proof. intros [(Hc & Hf & Hi) Hs] E. rewrite E in Hi. destruct Hi as (n & H1 & H2 & H3 & H4). by exists n. Qed.

Lemma runs_command {A} b (d : A) m s :
  good config sent s -> (b = true -> state_ s <> wait_caps_advertise) ->
  (forall n, ready_inv s n -> runs b m s (fun _ s' => good config sent s')) ->
  runs b (when_usable d m) s (fun _ s' => good config sent s').
Proof.
  intros Hg Hb Hm. apply runs_usable; [|done|].
  - destruct b; [left; auto|by right].
  - intros E. destruct (good_ready s Hg E) as [n Hn]. by apply (Hm n).
Qed.

(** A message that was sent, in the state that follows. *)
Lemma sent_good s s' n p e : ready_inv s n -> decode_pdu e = Ok p -> output_ s' = output_ s ++ [e] ->
  match p with CapsConfirm _ => False | _ => True end ->
  state_ s' = ready -> config_ s' = config -> negotiated_ s' = Some n ->
  layout_inv (layout_ s') -> frames_inv (frames_ s') -> cache_inv n (bitmaps_ s') ->
  (forall c, agrees s c -> exists c', client_draw c (confirmed n) p = Some c' /\ agrees s' c') -> good config sent s'.
Proof.
  intros Hs Hd Ho Hp H1 H2 H3 H4 H5 H6 H. apply (ready_good _ n). split; try done; [apply Hs|].
  eapply in_step_send; [apply Hs|by rewrite (ri_state _ _ Hs)|done|done|].
  intros c HA. rewrite (step_draw s c n p HA (ri_negotiated _ _ Hs) Hp). by apply H.
Qed.

(** A message that changes nothing. *)
Lemma sent_only s n p e : ready_inv s n -> decode_pdu e = Ok p ->
  match p with CapsConfirm _ => False | _ => True end ->
  (forall c, agrees s c -> client_draw c (confirmed n) p = Some c) ->
  good config sent (with_output s (output_ s ++ [e])).
Proof.
  intros Hs Hd Hp H. eapply sent_good; try done; try apply Hs. intros c HA. exists c. split; [by apply H|].
  destruct HA. by split.
Qed.

Lemma guard_true {A} b (a : A) : b = true -> guard b a = Some a.
Proof. by intros ->. Qed.
End InStep.

(** A conjunction of checks, each known or arithmetic. *)
Ltac allb :=
  repeat match goal with |- _ && _ = true => apply andb_true_intro; split end;
  first [assumption | reflexivity | lia | by auto].

(** [asked Hc]: the condition of an assertion is part of the contract. *)
Ltac asked Hc :=
  let E := fresh in
  intros E; specialize (Hc E); cbn [contract] in Hc; bools;
  repeat match goal with
  | |- _ && _ = true => apply andb_true_intro; split
  | |- negb _ = true => apply negb_true_iff
  end;
  first [done | lia | congruence].

(** [sent Hs He]: the message of [He] was sent in the ready state of [Hs]. *)
Ltac sent Hs He :=
  eapply (sent_good _ _ _ _ _ _ _ Hs He);
    [reflexivity|exact I|apply Hs|apply Hs|apply Hs|try apply Hs|try apply Hs|try apply Hs|].

Section Commands.
Context (config : GfxServerConfig) (sent : list (list byte)) (b : bool).

(** The command [c] keeps server and client in step. *)
Definition keeps (c : Command) : Prop := forall s,
  good config sent s -> args_ok c = true ->
  (b = true -> state_ s <> wait_caps_advertise /\ (state_ s = ready -> contract c s = true)) ->
  runs b (run c) s (fun _ s' => good config sent s').

Lemma keeps_ready {A} (d : A) m c :
  (forall s n, ready_inv config sent s n -> args_ok c = true -> (b = true -> contract c s = true) ->
     runs b m s (fun _ s' => good config sent s')) ->
  forall s, good config sent s -> args_ok c = true ->
  (b = true -> state_ s <> wait_caps_advertise /\ (state_ s = ready -> contract c s = true)) ->
  runs b (when_usable d m) s (fun _ s' => good config sent s').
Proof.
  intros H s Hg Ha Hb. apply runs_command; [done|by intros E; apply Hb|]. intros n Hn. apply (H s n Hn Ha).
  intros E. apply (Hb E), (ri_state _ _ _ _ Hn).
Qed.

Lemma keeps_void {A} (m : M A) s Q : runs b m s (fun _ s' => Q s') -> runs b (void m) s (fun _ s' => Q s').
Proof. intros H. apply runs_bind. eapply runs_weaken; [exact H|]. auto. Qed.

Lemma keeps_map_output id x y : keeps (CmdMapSurfaceToOutput id x y).
Proof.
  unfold keeps. cbn [run]. apply (keeps_ready tt). intros s n Hs Ha Hc. apply runs_bind, runs_surface; [done|]. intros v Hv. apply runs_send; [done|].
  intros e He. eapply sent_only; [done..|]. intros c HA. cbn [client_draw]. apply guard_true.
  rewrite (known_agrees _ _ _ HA). unfold has_surface. by rewrite Hv.
Qed.

Lemma keeps_map_window id i w h : keeps (CmdMapSurfaceToWindow id i w h).
Proof.
  unfold keeps. cbn [run]. apply (keeps_ready tt). intros s n Hs Ha Hc. apply runs_bind, runs_surface; [done|]. intros v Hv. apply runs_send; [done|].
  intros e He. eapply sent_only; [done..|]. intros c HA. cbn [client_draw]. apply guard_true.
  rewrite (known_agrees _ _ _ HA). unfold has_surface. by rewrite Hv.
Qed.

Lemma may_scale_ready s n : ready_inv config sent s n -> may_scale s = scaled_output n.
Proof. intros H. unfold may_scale. by rewrite (ri_negotiated _ _ _ _ H). Qed.

Lemma scaled_legal s n c id : ready_inv config sent s n -> agrees s c -> scaled_output n = true ->
  is_Some (surfaces_ (layout_ s) !! id) -> scales (confirmed n) && known_surface c id = true.
Proof.
  intros Hs HA Hn Hv. rewrite <- (confirmed_scales _ _ (ri_caps _ _ _ _ Hs)), Hn, (known_agrees _ _ _ HA).
  unfold has_surface. by rewrite bool_decide_true.
Qed.

Lemma keeps_scaled_output id x y w h : keeps (CmdMapSurfaceToScaledOutput id x y w h).
Proof.
  unfold keeps. cbn [run]. apply (keeps_ready tt). intros s n Hs Ha Hc. apply runs_bind. eapply runs_caps; [apply Hs|]. apply runs_bind, runs_assert.
  { intros E. specialize (Hc E). cbn [contract] in Hc. rewrite (may_scale_ready _ _ Hs) in Hc. by bools. }
  intros Hn. apply runs_bind, runs_surface; [asked Hc|].
  intros v Hv. apply runs_send; [done|]. intros e He. eapply sent_only; [done..|]. intros c HA. cbn [client_draw].
  apply guard_true. by apply (scaled_legal s).
Qed.

Lemma keeps_scaled_window id i w h tw th : keeps (CmdMapSurfaceToScaledWindow id i w h tw th).
Proof.
  unfold keeps. cbn [run]. apply (keeps_ready tt). intros s n Hs Ha Hc. apply runs_bind. eapply runs_caps; [apply Hs|]. apply runs_bind, runs_assert.
  { intros E. specialize (Hc E). cbn [contract] in Hc. rewrite (may_scale_ready _ _ Hs) in Hc. by bools. }
  intros Hn. apply runs_bind, runs_surface; [asked Hc|].
  intros v Hv. apply runs_send; [done|]. intros e He. eapply sent_only; [done..|]. intros c HA. cbn [client_draw].
  apply guard_true. by apply (scaled_legal s).
Qed.

(** ** The layout *)

Lemma keeps_reset w h ms : keeps (CmdResetGraphics w h ms).
Proof.
  unfold keeps. cbn [run]. apply (keeps_ready tt). intros s n Hs Ha Hc. cbn [args_ok contract] in *. unfold output_size_ok in Hc. apply runs_bind, runs_get.
  apply runs_bind, runs_assert; [asked Hc|]. intros Hf. apply runs_bind, runs_assert; [asked Hc|]. intros Hsize.
  apply runs_bind, runs_assert; [asked Hc|]. intros Hcount. cbv zeta.
  set (ms' := match ms with [] => _ | _ => ms end).
  assert (1 <= len ms' <= 16 /\ forallb monitor_ok ms' = true) as [Hl Hok].
  { unfold max_monitors, max_output_size in *. bools. destruct ms as [|m ms0]; unfold ms'; [|split; [len_lia|done]].
    split; [done|]. cbn [forallb]. unfold signed. change (2 ^ (32 - 1)) with 2147483648.
    rewrite !(proj2 (Z.ltb_lt _ _)) by lia. unfold monitor_ok. cbn [m_left m_top m_right m_bottom m_flags].
    rewrite !andb_true_r. unfold i32_ok, u32_ok. allb. }
  clearbody ms'. apply runs_bind, runs_send.
  { cbn [pdu_ok]. unfold output_size_ok, count_ok, max_monitors in *. bools. rewrite Hok.
    allb. }
  intros e He. apply runs_mod. sent Hs He.
  - split; [apply (ri_layout _ _ _ _ Hs)|]. intros id x H. cbn in H. set_solver.
  - intros c HA. eexists. split; [cbn [client_draw]; apply guard_true|by destruct HA; split].
    rewrite (drawing_agrees _ _ HA), Hf. unfold output_size_ok. bools. allb.
Qed.

(** The ids below the one chosen are in use. *)
Lemma unused_id_spec l : forall id, StronglySorted Z.lt l -> Forall (fun u => id <= u < 65536) l -> 0 <= id ->
  id + len l <= 65535 ->
  id <= unused_id l id <= id + len l /\ ~ (unused_id l id ∈ l) /\ (forall i, id <= i < unused_id l id -> i ∈ l).
Proof.
  induction l as [|u l IH]; intros id Hs Hf Hid Hn; cbn [unused_id].
  - split; [len_lia|]. split; [apply not_elem_of_nil|lia].
  - inversion_clear Hs as [|? ? Hs' Hlt]. inversion_clear Hf as [|? ? Hu Hf']. rewrite len_cons in Hn |- *.
    pose proof (len_nonneg l). destruct (Z.eqb_spec u id) as [->|Hne]; cbn [negb].
    + unfold wrap. rewrite Z.mod_small by lia. destruct (IH (id + 1)) as (H1 & H2 & H3); [done| |lia|lia|].
      * apply Forall_forall. intros x Hx. rewrite Forall_forall in Hlt, Hf'. specialize (Hlt x Hx). specialize (Hf' x Hx). lia.
      * split; [lia|]. split.
        -- intros [E|?]%elem_of_cons; [lia|done].
        -- intros i Hi. destruct (Z.eq_dec i id) as [->|]; [by left|]. right. apply H3. lia.
    + split; [lia|]. split; [|lia]. intros [E|E]%elem_of_cons; [done|]. rewrite Forall_forall in Hlt. specialize (Hlt _ E). lia.
Qed.

Lemma surface_ids_spec (m : gmap Z Surface) :
  (forall id, id ∈ surface_ids m <-> is_Some (m !! id)) /\ StronglySorted Z.lt (surface_ids m) /\ length (surface_ids m) = size m.
Proof.
  unfold surface_ids. set (ks := fst <$> map_to_list m). pose proof (merge_sort_Permutation Z.le ks) as HP.
  split_and!.
  - intros id. rewrite HP. unfold ks. rewrite list_elem_of_fmap. split.
    + intros ([k v] & -> & H%elem_of_map_to_list). by eexists.
    + intros [v Hv]. exists (id, v). split; [done|]. by apply elem_of_map_to_list.
  - assert (NoDup (merge_sort Z.le ks)) as Hnd by (rewrite HP; apply NoDup_fst_map_to_list).
    pose proof (StronglySorted_merge_sort Z.le ks) as Hs. revert Hnd Hs. generalize (merge_sort Z.le ks) as l.
    intros l Hnd Hs. induction Hs as [|x l Hs IH Hx]; [constructor|]. apply NoDup_cons in Hnd as [Hn Hnd].
    constructor; [by apply IH|]. rewrite Forall_forall in Hx |- *. intros y Hy. specialize (Hx y Hy).
    assert (x <> y) by (by intros ->). lia.
  - rewrite HP. unfold ks. rewrite length_fmap. apply length_map_to_list.
Qed.

Lemma new_surface_id l : layout_inv l -> Z.of_nat (size (surfaces_ l)) <= 65535 ->
  let id := unused_id (surface_ids (surfaces_ l)) 0 in
  u16_ok id = true /\ surfaces_ l !! id = None /\ forall i, 0 <= i < id -> is_Some (surfaces_ l !! i).
Proof.
  intros [Hm _] Hn. destruct (surface_ids_spec (surfaces_ l)) as (Hin & Hs & Hl).
  destruct (unused_id_spec (surface_ids (surfaces_ l)) 0 Hs) as (H1 & H2 & H3); [|done|unfold len; lia|].
  - apply Forall_forall. intros id [v Hv]%Hin. destruct (Hm id v Hv) as [Hid _]. widths. lia.
  - cbv zeta. split_and!.
    + unfold u16_ok. unfold len in H1. apply andb_true_intro. lia.
    + apply eq_None_not_Some. by rewrite <- Hin.
    + intros i Hi. apply Hin, H3, Hi.
Qed.

Lemma keeps_create w h f : keeps (CmdCreateSurface w h f).
Proof.
  unfold keeps. cbn [run]. intros s0 Hg0 Ha0 Hb0. apply keeps_void. revert s0 Hg0 Ha0 Hb0. apply (keeps_ready 0).
  intros s n Hs Ha Hc. cbn [args_ok] in Ha. apply runs_bind, runs_get.
  apply runs_bind, runs_assert; [asked Hc|]. intros Hr. apply runs_bind, runs_assert; [asked Hc|]. intros Hwh.
  apply runs_bind, runs_assert; [asked Hc|]. intros Hn. cbv zeta.
  destruct (new_surface_id _ (ri_layout _ _ _ _ Hs) ltac:(bools; lia)) as (Hid & Hfree & _).
  set (id := unused_id _ _) in *. clearbody id. apply runs_bind, runs_mod. apply runs_bind, runs_send.
  { cbn [pdu_ok]. bools. rewrite Hid. unfold u16_ok in *. bools.
    allb. }
  intros e He. apply runs_ret. sent Hs He.
  - destruct (ri_layout _ _ _ _ Hs) as [Hm Hx]. split.
    + apply map_Forall_insert_2; [|done]. split; [done|]. unfold surface_ok, u16_ok in *. cbn. bools.
      allb.
    + intros i x Hi. cbn in *. destruct (Hx i x Hi) as [Hsome ?]. split; [|done]. rewrite lookup_insert.
      by destruct (decide _).
  - intros c HA. eexists. split; [cbn [client_draw]; apply guard_true|].
    + rewrite (agrees_reset _ _ HA), Hr, (known_agrees _ _ _ HA). unfold has_surface. rewrite Hfree. bools.
      allb.
    + destruct HA. split; cbn; try done. congruence.
Qed.

Lemma keeps_delete id : keeps (CmdDeleteSurface id).
Proof.
  unfold keeps. cbn [run]. apply (keeps_ready tt). intros s n Hs Ha Hc. apply runs_bind, runs_surface; [asked Hc|]. intros v Hv.
  apply runs_bind, runs_get. cbv zeta. apply runs_bind, runs_mod. apply runs_send; [done|]. intros e He. sent Hs He.
  - destruct (ri_layout _ _ _ _ Hs) as [Hm Hx]. split; cbn; [by apply map_Forall_delete|].
    intros i x [Hne Hi]%elem_of_filter. destruct (Hx i x Hi) as [Hsome ?]. split; [|done]. by rewrite lookup_delete_ne.
  - intros c HA. eexists. split; [cbn [client_draw]; apply guard_true|].
    + rewrite (known_agrees _ _ _ HA). unfold has_surface. by rewrite Hv.
    + destruct HA. split; cbn; congruence.
Qed.

Lemma keeps_delete_context id x : keeps (CmdDeleteEncodingContext id x).
Proof.
  unfold keeps. cbn [run]. apply (keeps_ready tt). intros s n Hs Ha Hc. apply runs_bind, runs_get.
  apply runs_bind, runs_assert. { intros E. exact (Hc E). }
  intros Hin. apply runs_bind, runs_mod. apply runs_send; [done|]. intros e He. sent Hs He.
  - destruct (ri_layout _ _ _ _ Hs) as [Hm Hx]. split; cbn; [done|]. intros i y [Hi _]%elem_of_difference. by apply Hx.
  - intros c HA. eexists. split; [cbn [client_draw]; apply guard_true|].
    + by rewrite (agrees_contexts _ _ HA).
    + destruct HA. split; cbn; congruence.
Qed.

(** ** Frames *)

Lemma keeps_start ts : keeps (CmdStartFrame ts).
Proof.
  unfold keeps. cbn [run]. intros s0 Hg0 Ha0 Hb0. apply keeps_void. revert s0 Hg0 Ha0 Hb0. apply (keeps_ready 0).
  intros s n Hs Ha Hc. cbn [args_ok] in Ha. apply runs_bind, runs_get. apply runs_bind, runs_assert; [asked Hc|]. intros Hf.
  apply runs_bind, runs_assert; [asked Hc|]. intros Hts. cbv zeta.
  destruct (ri_frames _ _ _ _ Hs) as (H1 & H2 & H3 & H4). apply runs_bind, runs_mod. apply runs_bind, runs_send.
  { cbn [pdu_ok]. by rewrite Ha, H2. }
  intros e He. apply runs_ret. sent Hs He.
  - split_and!; cbn; try done. unfold u32_ok. pose proof (wrap_range 32 (next_frame_id_ (frames_ s) + 1) ltac:(lia)).
    apply andb_true_intro. lia.
  - intros c HA. eexists. split; [cbn [client_draw]; apply guard_true; by rewrite (drawing_agrees _ _ HA), Hf, Hts|].
    by destruct HA; split.
Qed.

Lemma keeps_end : keeps CmdEndFrame.
Proof.
  unfold keeps. cbn [run]. apply (keeps_ready tt). intros s n Hs Ha Hc. apply runs_bind, runs_get.
  apply runs_bind, runs_assert; [asked Hc|]. intros Hf. destruct (ri_frames _ _ _ _ Hs) as (H1 & H2 & H3 & H4).
  apply runs_bind, runs_send; [by cbn [pdu_ok]|]. intros e He. cbv zeta. apply runs_mod. sent Hs He.
  - split_and!; cbn; try done.
    + destruct (acks_suspended_ _); [done|]. rewrite forallb_app. cbn. by rewrite H3, H1.
    + intros E. rewrite E. auto.
  - intros c HA. eexists. split; [cbn [client_draw]; apply guard_true|by destruct HA; split].
    rewrite (agrees_frame _ _ HA), Hf. by apply bool_decide_true.
Qed.

(** ** Drawing *)

Lemma may_use_ready s n codec : ready_inv config sent s n -> may_use s codec = allows n codec.
Proof. intros H. unfold may_use. by rewrite (ri_negotiated _ _ _ _ H). Qed.

Lemma surface_found s id v : surfaces_ (layout_ s) !! id = Some v -> has_surface s id = true.
Proof. intros H. unfold has_surface. by rewrite H. Qed.

Lemma holds_found s id r : surface_holds s id r = true -> has_surface s id = true.
Proof. unfold surface_holds, has_surface. by destruct (_ !! id). Qed.

Lemma keeps_wire_1 id codec f r d : keeps (CmdWireToSurface1 id codec f r d).
Proof.
  unfold keeps. cbn [run]. apply (keeps_ready tt). intros s n Hs Ha Hc. cbn [args_ok] in Ha. cbn [contract] in Hc.
  rewrite (may_use_ready _ _ _ Hs) in Hc. apply runs_bind, runs_surface.
  { intros E. specialize (Hc E). bools. by eapply holds_found. }
  intros v Hv. apply runs_bind, runs_in_frame; [asked Hc|]. intros Hf. apply runs_bind. eapply runs_caps; [apply Hs|].
  apply runs_bind, runs_assert; [asked Hc|]. intros Hcodec. apply runs_bind, runs_assert; [asked Hc|]. intros Hfmt.
  apply runs_bind, runs_assert. { intros E. specialize (Hc E). unfold surface_holds in Hc. rewrite Hv in Hc. by bools. }
  intros Hr. bools. apply runs_send.
  { cbn [pdu_ok]. rewrite (inside_ok r _ _ ltac:(done) Hr). allb. }
  intros e He. eapply sent_only; [done..|]. intros c HA. cbn [client_draw]. apply guard_true.
  rewrite (drawing_agrees _ _ HA), Hf, (holds_agrees _ _ _ _ _ HA Hv Hr), (confirmed_allows _ _ (ri_caps _ _ _ _ Hs)) by done.
  allb.
Qed.

Lemma keeps_wire_2 id codec x f d : keeps (CmdWireToSurface2 id codec x f d).
Proof.
  unfold keeps. cbn [run]. apply (keeps_ready tt). intros s n Hs Ha Hc. cbn [args_ok] in Ha. cbn [contract] in Hc.
  rewrite (may_use_ready _ _ _ Hs) in Hc. apply runs_bind, runs_surface; [asked Hc|].
  intros v Hv. apply runs_bind, runs_in_frame; [asked Hc|]. intros Hf. apply runs_bind. eapply runs_caps; [apply Hs|].
  apply runs_bind, runs_assert; [asked Hc|]. intros Hcodec. apply runs_bind, runs_assert; [asked Hc|]. intros Hfmt. bools.
  apply runs_bind, runs_get. cbv zeta. apply runs_bind, runs_mod. apply runs_send.
  { cbn [pdu_ok]. allb. }
  intros e He. sent Hs He.
  - destruct (ri_layout _ _ _ _ Hs) as [Hm Hx]. split; cbn; [done|].
    intros i y [[= -> ->]%elem_of_singleton|Hi]%elem_of_union; [by rewrite Hv|by apply Hx].
  - intros c HA. eexists. split; [cbn [client_draw]; apply guard_true|destruct HA; split; cbn; congruence].
    rewrite (drawing_agrees _ _ HA), Hf, (known_agrees _ _ _ HA), (surface_found _ _ _ Hv),
      (confirmed_allows _ _ (ri_caps _ _ _ _ Hs)) by done.
    allb.
Qed.

Lemma keeps_fill id color rs : keeps (CmdSolidFill id color rs).
Proof.
  unfold keeps. cbn [run]. apply (keeps_ready tt). intros s n Hs Ha Hc. cbn [args_ok] in Ha. cbn [contract] in Hc.
  apply runs_bind, runs_surface; [asked Hc|]. intros v Hv. apply runs_bind, runs_in_frame; [asked Hc|]. intros Hf.
  apply runs_bind, runs_assert; [asked Hc|]. intros Hcount. apply runs_bind, runs_assert.
  { intros E. specialize (Hc E). bools. unfold surface_holds in *. by rewrite Hv in *. }
  intros Hr. bools. apply runs_send.
  { cbn [pdu_ok]. unfold count_ok, countable in *. apply andb_true_intro. split; [by apply andb_true_intro|].
    apply andb_prop in Hcount as [_ ->]. cbn [andb]. apply List.forallb_forall. intros r Hin.
    rewrite List.forallb_forall in Hr. rewrite List.forallb_forall in H0. by eapply inside_ok; [apply H0|apply Hr]. }
  intros e He. eapply sent_only; [done..|]. intros c HA. cbn [client_draw]. apply guard_true.
  rewrite (drawing_agrees _ _ HA), Hf. unfold countable in Hcount. apply andb_prop in Hcount as [-> _]. cbn [andb].
  rewrite List.forallb_forall in Hr |- *. intros r Hin. eapply holds_agrees; [done|done|by apply Hr].
Qed.

Lemma keeps_copy src dest r ps : keeps (CmdSurfaceToSurface src dest r ps).
Proof.
  unfold keeps. cbn [run]. apply (keeps_ready tt). intros s n Hs Ha Hc. cbn [args_ok] in Ha. cbn [contract] in Hc.
  apply runs_bind, runs_surface. { intros E. specialize (Hc E). bools. by eapply holds_found. }
  intros v Hv. apply runs_bind, runs_surface.
  { intros E. specialize (Hc E). bools. unfold surface_fits, has_surface in *. by destruct (_ !! dest). }
  intros w Hw. apply runs_bind, runs_in_frame; [asked Hc|]. intros Hf.
  apply runs_bind, runs_assert. { intros E. specialize (Hc E). unfold surface_holds in Hc. rewrite Hv in Hc. by bools. }
  intros Hr. apply runs_bind, runs_assert; [asked Hc|]. intros Hcount. apply runs_bind, runs_assert.
  { intros E. specialize (Hc E). unfold surface_fits in Hc. rewrite Hw in Hc. by bools. }
  intros Hp. bools. apply runs_send.
  { cbn [pdu_ok]. rewrite (inside_ok r _ _ ltac:(done) Hr). unfold count_ok, countable in *.
    apply andb_prop in Hcount as [_ Hn]. allb. }
  intros e He. eapply sent_only; [done..|]. intros c HA. cbn [client_draw]. apply guard_true.
  rewrite (drawing_agrees _ _ HA), Hf, (holds_agrees _ _ _ _ _ HA Hv Hr). cbn [andb].
  destruct (rect_sides r _ _ ltac:(done) Hr) as [<- <-]. by eapply points_agrees.
Qed.
End Commands.

(** ** The bitmap cache *)

Lemma slot_entry_inv s slot e : slot_entry s slot = Some e ->
  1 <= slot <= len (cache_ (bitmaps_ s)) /\ cache_ (bitmaps_ s) !! Z.to_nat (slot - 1) = Some e /\ e_used e = true.
Proof.
  unfold slot_entry. destruct (_ && _) eqn:E; [|done]. destruct (_ !! _) as [x|]; [|done].
  destruct (e_used x) eqn:Eu; [|done]. intros [= <-]. bools. done.
Qed.

Lemma slot_agrees s c slot e : agrees s c -> slot_entry s slot = Some e ->
  cl_cache c !! slot = Some (e_key e, e_width e, e_height e).
Proof.
  intros HA He. destruct (slot_entry_inv _ _ _ He) as (Hs & Hl & Hu). rewrite (agrees_cache _ _ HA). unfold cached.
  destruct (Z.leb_spec 1 slot); [|lia]. by rewrite Hl, Hu.
Qed.

Lemma slots_positive config n : caps_inv config n ->
  0 < n_max_cache_slots n <= 25600 /\ 0 < n_max_cache_bytes n <= 104857600.
Proof.
  intros H. rewrite (confirmed_slots _ _ H), (confirmed_bytes _ _ H). unfold slots_of, bytes_of. by destruct (small _).
Qed.

Section CacheCommands.
Context (config : GfxServerConfig) (sent : list (list byte)) (b : bool).

Lemma keeps_from_cache slot id ps : keeps config sent b (CmdCacheToSurface slot id ps).
Proof.
  unfold keeps. cbn [run]. apply (keeps_ready _ _ _ tt). intros s n Hs Ha Hc. cbn [args_ok] in Ha. cbn [contract] in Hc.
  apply runs_bind, runs_entry. { intros E. specialize (Hc E). destruct (slot_entry s slot); [done|by bools]. }
  intros e He. rewrite He in Hc. apply runs_bind, runs_surface.
  { intros E. specialize (Hc E). bools. unfold surface_fits, has_surface in *. by destruct (_ !! id). }
  intros v Hv. apply runs_bind, runs_in_frame; [asked Hc|]. intros Hf.
  apply runs_bind, runs_assert; [asked Hc|]. intros Hcount. apply runs_bind, runs_assert.
  { intros E. specialize (Hc E). unfold surface_fits in Hc. rewrite Hv in Hc. by bools. }
  intros Hp. destruct (slot_entry_inv _ _ _ He) as (Hslot & _). bools.
  pose proof (slots_positive _ _ (ri_caps _ _ _ _ Hs)) as [Hmax _].
  assert (slot <= n_max_cache_slots n).
  { destruct (cache_length _ _ (ri_cache _ _ _ _ Hs)) as [[E _]|[L _]]; [rewrite E, len_nil in Hslot|]; lia. }
  apply runs_send.
  { cbn [pdu_ok]. unfold count_ok, countable, slot_ok, max_cache_slots in *. apply andb_prop in Hcount as [_ Hn]. allb. }
  intros x Hx. eapply sent_only; [done..|]. intros c HA. cbn [client_draw]. rewrite (slot_agrees _ _ _ _ HA He).
  apply guard_true. cbn [fst snd]. rewrite (drawing_agrees _ _ HA), Hf. cbn [andb]. by eapply points_agrees.
Qed.

Lemma keeps_evict slot : keeps config sent b (CmdEvictCacheEntry slot).
Proof.
  unfold keeps. cbn [run]. apply (keeps_ready _ _ _ tt). intros s n Hs Ha Hc. cbn [args_ok] in Ha. cbn [contract] in Hc.
  apply runs_bind, runs_entry. { intros E. specialize (Hc E). by destruct (slot_entry s slot). }
  intros e He. clear Hc. destruct (slot_entry_inv _ _ _ He) as (Hslot & Hl & Hu).
  pose proof (slots_positive _ _ (ri_caps _ _ _ _ Hs)) as [Hmax _].
  assert (slot <= n_max_cache_slots n).
  { destruct (cache_length _ _ (ri_cache _ _ _ _ Hs)) as [[E _]|[L _]]; [rewrite E, len_nil in Hslot|]; lia. }
  destruct (evict_inv n (bitmaps_ s) _ _ (ri_cache _ _ _ _ Hs) Hl Hu) as [Hinv Hpos].
  assert (cache_bytes_ (bitmaps_ s) - e_bytes e < 2 ^ 64) as Hbig.
  { pose proof (entry_bytes_range e (cache_entries _ _ (ri_cache _ _ _ _ Hs) _ _ Hl Hu)).
    pose proof (cache_bounded _ _ (ri_cache _ _ _ _ Hs)). pose proof (slots_positive _ _ (ri_caps _ _ _ _ Hs)). lia. }
  apply runs_bind, runs_mod. apply runs_send.
  { cbn [pdu_ok]. unfold slot_ok, max_cache_slots. allb. }
  rewrite wrap_small by done. rewrite Z2Nat.id in Hinv by lia.
  intros x Hx. sent Hs Hx; [exact Hinv|].
  intros c HA. eexists. cbn [client_draw]. rewrite (slot_agrees _ _ _ _ HA He). split; [reflexivity|]. cbn [fst snd].
  pose proof (cache_entries _ _ (ri_cache _ _ _ _ Hs) _ _ Hl Hu) as Hok. unfold entry_ok in Hok. bools.
  destruct HA as [A1 A2 A3 A4 A5 A6 A7]. split; cbn; try done; [|congruence].
  intros i. rewrite (cached_insert _ _ e) by done. replace (Z.of_nat (Z.to_nat (slot - 1)) + 1) with slot by lia.
  cbn [e_used no_entry]. destruct (Z.eqb_spec i slot) as [->|]; [by rewrite lookup_delete_eq|by rewrite lookup_delete_ne].
Qed.

(** Below 4 GiB, the 32-bit size of a bitmap is exact. *)
Lemma bitmap_bytes_exact r v : coordinates_ok r = true -> surface_ok v = true -> inside r (s_width v) (s_height v) = true ->
  under_4_gib r = true -> bitmap_bytes r = rect_width r * rect_height r * 4 /\ 4 <= bitmap_bytes r < 2 ^ 32 /\
  1 <= rect_width r <= 0xFFFF /\ 1 <= rect_height r <= 0xFFFF.
Proof.
  intros Hc Hv Hr Hu. destruct (rect_sides r _ _ Hc Hr) as [Ew Eh]. pose proof (inside_sides _ _ _ Hr).
  unfold surface_ok, coordinates_ok, under_4_gib in *. change (2 ^ 32) with 4294967296 in *. widths.
  assert (1 <= rect_width r <= 65535 /\ 1 <= rect_height r <= 65535) as [? ?] by lia.
  assert (1 <= rect_width r * rect_height r) by nia.
  assert (bitmap_bytes r = rect_width r * rect_height r * 4) as ->; [|lia].
  unfold bitmap_bytes, bytes_per_pixel. rewrite (wrap_small 32 (_ * rect_height r)), wrap_small; lia.
Qed.

(** No entry of the client's cache has a key the server has not. *)
Lemma key_fresh s c n key : agrees s c -> cache_inv n (bitmaps_ s) -> cache_keys_ (bitmaps_ s) !! key = None ->
  map_Forall (fun _ e => e.1.1 <> key) (cl_cache c).
Proof.
  intros HA Hi Hk slot [[k w] h] He Ek. cbn in Ek. subst k. rewrite (agrees_cache _ _ HA) in He. unfold cached in He.
  destruct (1 <=? slot); [|done]. destruct (_ !! Z.to_nat (slot - 1)) as [e|] eqn:El; [|done].
  destruct (e_used e) eqn:Eu; [|done]. injection He as <- _ _. pose proof (cache_keyed _ _ Hi _ _ El Eu). congruence.
Qed.

Lemma cached_allocated n bm slot : cached (cache_ (allocated n bm)) slot = cached (cache_ bm) slot.
Proof.
  unfold allocated, cached. cbn [cache_]. destruct (1 <=? slot); [|done]. destruct (cache_ bm); [|done].
  rewrite lookup_nil. destruct (_ !! _) as [e|] eqn:E; [|done]. by apply lookup_replicate in E as [-> _].
Qed.

Lemma cached_free l j e : l !! j = Some e -> e_used e = false -> cached l (Z.of_nat j + 1) = None.
Proof.
  intros Hj Hu. unfold cached. destruct (_ <=? _); [|done].
  replace (Z.to_nat (Z.of_nat j + 1 - 1)) with j by lia. by rewrite Hj, Hu.
Qed.

(** What the client does with the message, and the state it is in then. *)
Lemma cache_agrees s n c id r key v j old :
  ready_inv config sent s n -> agrees s c -> in_frame_ (frames_ s) = true ->
  surfaces_ (layout_ s) !! id = Some v -> inside r (s_width v) (s_height v) = true -> coordinates_ok r = true -> under_4_gib r = true ->
  cache_keys_ (bitmaps_ s) !! key = None -> cache_bytes_ (bitmaps_ s) + bitmap_bytes r <= n_max_cache_bytes n ->
  cache_ (allocated n (bitmaps_ s)) !! j = Some old -> e_used old = false ->
  Z.of_nat j + 1 <= n_max_cache_slots n -> surface_ok v = true ->
  client_draw c (confirmed n) (SurfaceToCache id key (Z.of_nat j + 1) r) =
    Some (with_cache c (<[Z.of_nat j + 1 := (key, rect_width r, rect_height r)]> (cl_cache c)) (cl_bytes c + bitmap_bytes r)).
Proof.
  intros Hs HA Hf Hv Hr Hc Hsize Hk Hb Hj Hu Hn Hok. cbn [client_draw].
  destruct (rect_sides r _ _ Hc Hr) as [<- <-]. destruct (bitmap_bytes_exact r v Hc Hok Hr Hsize) as [<- _].
  apply guard_true. rewrite (drawing_agrees _ _ HA), Hf, (holds_agrees _ _ _ _ _ HA Hv Hr).
  rewrite <- (confirmed_slots _ _ (ri_caps _ _ _ _ Hs)), <- (confirmed_bytes _ _ (ri_caps _ _ _ _ Hs)).
  rewrite (agrees_bytes _ _ HA), (agrees_cache _ _ HA), <- (cached_allocated n), (cached_free _ _ _ Hj Hu).
  rewrite (bool_decide_true _ (key_fresh s c n key HA (ri_cache _ _ _ _ Hs) Hk)). allb.
Qed.

(** The server's cache after the entry is stored, as the client has it. *)
Lemma stored_agrees s n c r key j old e' :
  agrees s c -> cache_ (allocated n (bitmaps_ s)) !! j = Some old ->
  let entry := mkEntry key (bitmap_bytes r) (rect_width r) (rect_height r) true in
  agrees (with_output (with_bitmaps s (mkCache (<[j:=entry]> (cache_ (allocated n (bitmaps_ s))))
            (<[key:=Z.of_nat j + 1]> (cache_keys_ (bitmaps_ s))) (cache_bytes_ (bitmaps_ s) + bitmap_bytes r) 
            ((Z.of_nat j + 1) mod len (cache_ (allocated n (bitmaps_ s)))))) e')
    (with_cache c (<[Z.of_nat j + 1 := (key, rect_width r, rect_height r)]> (cl_cache c)) (cl_bytes c + bitmap_bytes r)).
Proof.
  intros [A1 A2 A3 A4 A5 A6 A7] Hj entry. split; cbn -[cached allocated]; try done; [|congruence].
  intros i. rewrite (cached_insert _ _ old) by exact Hj. cbn [entry e_used e_key e_width e_height].
  destruct (Z.eqb_spec i (Z.of_nat j + 1)) as [->|]; [by rewrite lookup_insert_eq|].
  rewrite lookup_insert_ne by congruence. by rewrite A6, cached_allocated.
Qed.

(** What [surface_to_cache] returns and leaves behind. *)
Definition stored (s : t) (n : Negotiated) (r : Rect16) (key : Z) (slot : option Z) (s' : t) : Prop :=
  let size := rect_width r * rect_height r * 4 in
  if (cache_bytes_ (bitmaps_ s) + size <=? n_max_cache_bytes n) && (cache_slots_used s <? n_max_cache_slots n) then
    exists i, slot = Some i /\ 1 <= i <= n_max_cache_slots n /\ cached (cache_ (bitmaps_ s)) i = None /\
      (forall j, 1 <= j < i -> is_Some (cached (cache_ (bitmaps_ s)) j)) /\
      cached (cache_ (bitmaps_ s')) i = Some (key, rect_width r, rect_height r) /\ cache_slot key s' = Some i /\
      cache_bytes_ (bitmaps_ s') = cache_bytes_ (bitmaps_ s) + size
  else slot = None /\ s' = s.

(** The slot that is found, and the cache with the entry in it. *)
Lemma to_cache_slot s n r key v : ready_inv config sent s n -> surface_ok v = true ->
  inside r (s_width v) (s_height v) = true -> coordinates_ok r = true -> under_4_gib r = true -> u64_ok key = true ->
  cache_keys_ (bitmaps_ s) !! key = None -> cache_bytes_ (bitmaps_ s) + bitmap_bytes r <= n_max_cache_bytes n ->
  Z.of_nat (size (cache_keys_ (bitmaps_ s))) < n_max_cache_slots n ->
  let al := allocated n (bitmaps_ s) in
  let entry := mkEntry key (bitmap_bytes r) (rect_width r) (rect_height r) true in
  exists j old, free_index (length (cache_ al)) (cache_ al) (cache_hint_ al) = Some (Z.of_nat j) /\
    cache_ al !! j = Some old /\ e_used old = false /\
    (forall i, (i < j)%nat -> exists e', cache_ al !! i = Some e' /\ e_used e' = true) /\
    Z.of_nat j + 1 <= n_max_cache_slots n /\
    cache_inv n (mkCache (<[j:=entry]> (cache_ al)) (<[key:=Z.of_nat j + 1]> (cache_keys_ al))
                   (cache_bytes_ al + bitmap_bytes r) ((Z.of_nat j + 1) mod len (cache_ al))).
Proof.
  intros Hs Hok Hr Hr0 Hsize Hkey Hk Hb Hn al entry. pose proof (slots_positive _ _ (ri_caps _ _ _ _ Hs)) as [Hmax _].
  destruct (bitmap_bytes_exact r v Hr0 Hok Hr Hsize) as (Hbytes & Hrange & Hw & Hh).
  destruct (allocated_inv n ltac:(lia) _ (ri_cache _ _ _ _ Hs)) as [Hinv Hlen].
  destruct (free_slot n _ Hinv Hlen Hn) as (j & old & Hfree & Hj & Hu & Hbelow).
  pose proof (lookup_lt_Some _ _ _ Hj) as Hlt. exists j, old. split_and!; try done; [unfold len in Hlen; lia|].
  apply (store_inv n ltac:(lia) _ j old entry Hinv Hlen Hj Hu Hbelow eq_refl); [|done|done].
  unfold entry_ok. cbn. rewrite Hkey. allb.
Qed.

Lemma stored_slot s n r key s' j old : ready_inv config sent s n -> 0 <= Z.of_nat j ->
  cache_bytes_ (bitmaps_ s) + rect_width r * rect_height r * 4 <= n_max_cache_bytes n ->
  Z.of_nat (size (cache_keys_ (bitmaps_ s))) < n_max_cache_slots n -> Z.of_nat j + 1 <= n_max_cache_slots n ->
  cache_ (allocated n (bitmaps_ s)) !! j = Some old -> e_used old = false ->
  (forall i, (i < j)%nat -> exists e', cache_ (allocated n (bitmaps_ s)) !! i = Some e' /\ e_used e' = true) ->
  cached (cache_ (bitmaps_ s')) (Z.of_nat j + 1) = Some (key, rect_width r, rect_height r) ->
  cache_keys_ (bitmaps_ s') = <[key := Z.of_nat j + 1]> (cache_keys_ (bitmaps_ s)) ->
  cache_bytes_ (bitmaps_ s') = cache_bytes_ (bitmaps_ s) + rect_width r * rect_height r * 4 ->
  stored s n r key (Some (Z.of_nat j + 1)) s'.
Proof.
  intros Hs _ Hb Hn Hmax Hj Hu Hbelow Hc Hk Hbytes. unfold stored, cache_slots_used.
  destruct (Z.leb_spec (cache_bytes_ (bitmaps_ s) + rect_width r * rect_height r * 4) (n_max_cache_bytes n)); [|lia].
  destruct (Z.ltb_spec (Z.of_nat (size (cache_keys_ (bitmaps_ s)))) (n_max_cache_slots n)); [|lia]. cbn [andb].
  exists (Z.of_nat j + 1). split_and!; try done; try lia.
  - by rewrite <- (cached_allocated n), (cached_free _ _ _ Hj Hu).
  - intros i Hi. destruct (Hbelow (Z.to_nat (i - 1)) ltac:(lia)) as (e & He & Hue). rewrite <- (cached_allocated n).
    unfold cached. destruct (Z.leb_spec 1 i); [|lia]. by rewrite He, Hue.
  - unfold cache_slot. by rewrite Hk, lookup_insert_eq.
Qed.

(** The body of [surface_to_cache] for a server that is ready. *)
Lemma runs_to_cache s n id r key : ready_inv config sent s n -> args_ok (CmdSurfaceToCache id r key) = true ->
  (b = true -> contract (CmdSurfaceToCache id r key) s = true) -> state_ s = ready ->
  runs b (surface_to_cache id r key) s (fun slot s' => good config sent s' /\ stored s n r key slot s').
Proof.
  intros Hs Ha Hc Hst. cbn [args_ok contract] in *. apply runs_usable; [by left; rewrite Hst|by rewrite Hst|]. intros _.
  apply runs_bind, runs_surface. { intros E. specialize (Hc E). bools. by eapply holds_found. }
  intros v Hv. apply runs_bind, runs_in_frame; [asked Hc|]. intros Hf. apply runs_bind, runs_assert.
  { intros E. specialize (Hc E). unfold surface_holds in Hc. rewrite Hv in Hc. by bools. }
  intros Hr. apply runs_bind, runs_get. apply runs_bind, runs_assert.
  { intros E. specialize (Hc E). by apply andb_prop in Hc as [_ Hc]. }
  intros Hk. apply bool_decide_eq_true in Hk. cbv zeta. apply runs_bind. eapply runs_caps; [apply Hs|].
  destruct (proj1 (ri_layout _ _ _ _ Hs) id v Hv) as [Hid Hok]. apply andb_prop in Ha as [[[_ Hr0]%andb_prop Hkey]%andb_prop Hsize].
  destruct (bitmap_bytes_exact r v Hr0 Hok Hr Hsize) as (Hbytes & Hrange & Hw & Hh).
  pose proof (slots_positive _ _ (ri_caps _ _ _ _ Hs)) as [Hmax Hmaxb].
  pose proof (cache_bounded _ _ (ri_cache _ _ _ _ Hs)). pose proof (cache_bytes_nonneg n _ (ri_cache _ _ _ _ Hs)).
  rewrite (wrap_small 64) by lia. destruct (_ || _) eqn:Efull.
  { apply runs_ret. split; [by apply (ready_good _ _ s n)|]. unfold stored, cache_slots_used. rewrite <- Hbytes.
    match goal with |- if ?c then _ else _ => destruct c eqn:E end; [|by split]. exfalso. apply orb_true_iff in Efull. bools. lia. }
  apply orb_false_elim in Efull as [Eb Es]. apply Z.ltb_ge in Eb. apply Z.leb_gt in Es.
  destruct (to_cache_slot s n r key v Hs Hok Hr Hr0 Hsize Hkey Hk Eb Es) as (j & old & Hfree & Hj & Hu & Hbelow & Hmj & Hinv).
  change (match cache_ (bitmaps_ s) with [] => _ | _ => _ end) with (cache_ (allocated n (bitmaps_ s))).
  change (cache_hint_ (bitmaps_ s)) with (cache_hint_ (allocated n (bitmaps_ s))). rewrite Hfree, (wrap_small 16), Nat2Z.id by lia.
  apply runs_bind, runs_mod. apply runs_bind, runs_send.
  { cbn [pdu_ok]. rewrite (inside_ok r _ _ Hr0 Hr), Hkey, Hid. unfold slot_ok, max_cache_slots. allb. }
  intros x Hx. apply runs_ret. split.
  - sent Hs Hx; [exact Hinv|]. intros c HA. eexists. split; [by eapply cache_agrees|].
    by apply (stored_agrees s n c r key j old).
  - rewrite Hbytes in Eb. apply (stored_slot s n r key _ j old); try done; [lia|..].
    + cbn [bitmaps_ with_output with_bitmaps cache_]. rewrite (cached_insert _ _ old) by exact Hj. by rewrite Z.eqb_refl.
    + cbn [bitmaps_ with_output with_bitmaps cache_bytes_]. by rewrite Hbytes.
Qed.

Lemma keeps_to_cache id r key : keeps config sent b (CmdSurfaceToCache id r key).
Proof.
  intros s Hg Ha Hb. cbn [run]. apply keeps_void. destruct (decide (state_ s = ready)) as [E|Hne].
  - destruct (good_ready _ _ s Hg E) as [n Hn]. eapply runs_weaken; [apply (runs_to_cache s n); [done|done| |done]|].
    + intros Et. by apply Hb.
    + by intros ? s' [? _].
  - unfold surface_to_cache. apply runs_usable; [|by intros|by intros ?%Hne]. destruct b; [left; by apply Hb|by right].
Qed.
End CacheCommands.

(** ** What the client sends *)

Lemma negotiate_loop_spec vs sets config n : negotiate_loop vs sets config = Some n ->
  exists v c, In v vs /\ v <= max_version config /\ In c sets /\ cs_version c = v /\ n = derive v (cs_flags c) config.
Proof.
  induction vs as [|v vs IH]; cbn [negotiate_loop]; [done|]. destruct (Z.ltb_spec (max_version config) v) as [Hlt|Hv].
  - intros H. destruct (IH H) as (v' & c & ? & ?). exists v', c. split; [by right|done].
  - destruct (find _ sets) as [c|] eqn:Ef.
    + intros [= <-]. apply List.find_some in Ef as [Hin Ev]. apply Z.eqb_eq in Ev. exists v, c. split_and!; [by left|done..].
    + intros H. destruct (IH H) as (v' & c & ? & ?). exists v', c. split; [by right|done].
Qed.

Lemma caps_ok_flags c : caps_ok c = true -> is_Some (caps_data_length (cs_version c)) -> u32_ok (cs_flags c) = true.
Proof. unfold caps_ok. intros H [k Hk]. rewrite Hk in H. by apply andb_prop in H as [_ [[_ Hu]%andb_prop _]%andb_prop]. Qed.

Lemma negotiate_inv sets config n : forallb caps_ok sets = true -> negotiate sets config = Some n -> caps_inv config n.
Proof.
  intros Hok H. destruct (negotiate_loop_spec _ _ _ _ H) as (v & c & Hv & Hmax & Hin & Ev & ->).
  rewrite List.forallb_forall in Hok. split_and!; cbn; [done|done|done|].
  apply caps_ok_flags; [by apply Hok|]. rewrite Ev. by apply preferred_defined.
Qed.

Lemma frame_some stream max size : frame_pdu stream max = Ok (Some size) -> 8 <= size <= len stream.
Proof.
  unfold frame_pdu. destruct (_ <? header_size); [done|]. destruct (dbind _ _ _) as [[[at_ n] r]|]; [|done].
  unfold header_size. destruct (Z.ltb_spec n 8); [done|]. destruct (_ <? n); [done|].
  destruct (Z.ltb_spec (len stream) n); [done|]. intros [= <-]. lia.
Qed.

Lemma after_frame_ok id l : forallb u32_ok l = true -> forallb u32_ok (after_frame id l) = true.
Proof.
  induction l as [|f l IH]; cbn [forallb after_frame]; [done|]. intros [_ Hl]%andb_prop.
  destruct (f =? id); [done|by apply IH].
Qed.

Section Receive.
Context (config : GfxServerConfig) (sent : list (list byte)).

Lemma fail_good b reason s : good config sent s -> runs b (fail_ reason) s (fun _ s' => good config sent s').
Proof.
  intros [(Hc & Hf & Hi) Hs]. apply runs_bind, runs_mod, runs_event. split; [by split_and!|].
  eapply in_step_quiet; [exact Hs|done|]. by intros [].
Qed.

Lemma event_good b e s : good config sent s -> runs b (emplace_event e) s (fun _ s' => good config sent s').
Proof.
  intros [(Hc & Hf & Hi) Hs]. apply runs_event. split; [by split_and!|].
  eapply in_step_quiet; [exact Hs|done|]. intros Hst. split; [exact Hst|]. intros c HA. destruct HA. by split.
Qed.

(** The states a Caps Confirm can be sent in. *)
Definition confirmable (s : t) : Prop :=
  config_ s = config /\ frames_inv (frames_ s) /\ in_step sent s /\ state_ s <> failed /\
  match negotiated_ s with Some n => v10_3 <= version n | None => True end.

Lemma good_confirmable s : good config sent s -> state_ s <> failed ->
  (if bool_decide (state_ s = ready) then match negotiated_ s with Some n => v10_3 <=? version n | None => false end else true) = true ->
  confirmable s.
Proof.
  intros [(Hc & Hf & Hi) Hs] Hst Hr. split_and!; try done.
  case_bool_decide as Er.
  - destruct (negotiated_ s); [by apply Z.leb_le|done].
  - destruct (state_ s); [by destruct Hi as (-> & _)|done|done].
Qed.

Definition fresh (s : t) : t :=
  mk (config_ s) (state_ s) (failure_ s) (negotiated_ s) (input_ s) (output_ s) (events_ s)
     no_layout (mkFrames false (current_frame_ (frames_ s)) (next_frame_id_ (frames_ s)) [] false 0 0) no_cache.

Lemma cache_empty n : 0 < n_max_cache_bytes n -> cache_inv n no_cache.
Proof. intros H. split; cbn; try done; [by left|lia|intros; lia]. Qed.

(** The server restarts with [n]: the client confirms [n] and has nothing. *)
Lemma confirm_good s s1 n : confirmable s -> caps_inv config n ->
  (s1 = fresh s \/ s1 = s /\ layout_ s = no_layout /\ in_frame_ (frames_ s) = false /\ bitmaps_ s = no_cache) ->
  runs true (send (CapsConfirm (confirmed n))) (with_ready s1 n) (fun _ s' => good config sent s').
Proof.
  intros (Hc & (H1 & H2 & H3 & H4) & Hs & Hst & Hv) Hn Hs1. apply runs_send; [apply (confirmed_ok _ _ Hn)|]. intros e He.
  pose proof (slots_positive _ _ Hn) as [_ Hb].
  assert (layout_ s1 = no_layout /\ in_frame_ (frames_ s1) = false /\ bitmaps_ s1 = no_cache /\ frames_inv (frames_ s1) /\
          config_ s1 = config /\ output_ s1 = output_ s) as (E1 & E2 & E3 & E4 & E5 & E6).
  { destruct Hs1 as [->|(-> & ? & ? & ?)]; [|by split_and!]. split_and!; done. }
  split; [split_and!; [done|done|]; exists n; split_and!; [done|done| |]|].
  - cbn. rewrite E1. split; [apply map_Forall_empty|]. intros id x Hx. by apply elem_of_empty in Hx.
  - cbn. rewrite E3. apply cache_empty. lia.
  - eapply in_step_send; [exact Hs|exact Hst|exact He|cbn; by rewrite E6|].
    intros c HA. exists (mkClient (Some (confirmed n)) false ∅ ∅ None ∅ 0). split.
    + assert (bool_decide (is_Some (caps_data_length (cs_version (confirmed n)))) = true) as Hd.
      { apply bool_decide_eq_true. rewrite (confirmed_version _ _ Hn). apply preferred_defined, Hn. }
      unfold client_step. rewrite (agrees_caps _ _ HA), Hd. destruct (negotiated_ s) as [m|]; cbn [fmap option_fmap option_map andb]; [|done].
      unfold confirmed at 1, make_capability_set.
      assert ((v10_3 <=? version m) = true) as Hm by lia.
      destruct (version m =? v10_1); [by cbn; rewrite Hm|]. by destruct (caps_data_length (version m)); cbn; rewrite Hm.
    + split; cbn; rewrite ?E1, ?E2, ?E3; try done. intros slot. rewrite lookup_empty. unfold cached.
      by destruct (_ <=? _).
Qed.

Lemma caps_good sets s : forallb caps_ok sets = true -> good config sent s -> state_ s <> failed ->
  runs true (on_caps_advertise sets) s (fun _ s' => good config sent s').
Proof.
  intros Hok Hg Hst. pose proof Hg as [(Hc & Hf & Hi) Hs]. unfold on_caps_advertise. apply runs_bind, runs_get, runs_bind, runs_get.
  destruct (bool_decide (state_ s = ready) && negb _) eqn:Er; [by apply fail_good|].
  assert (confirmable s) as Hcf.
  { apply good_confirmable; [done|done|]. case_bool_decide; [|done]. cbn [andb] in Er. by apply negb_false_iff in Er. }
  apply runs_bind. apply runs_weaken with (Q := fun _ s1 => config_ s1 = config /\ (forall r, runs true (fail_ r) s1 (fun _ s' => good config sent s')) /\
    (s1 = fresh s \/ s1 = s /\ layout_ s = no_layout /\ in_frame_ (frames_ s) = false /\ bitmaps_ s = no_cache)).
  - case_bool_decide as Eready.
    + apply runs_mod. split_and!; [done| |by left]. intros r. apply runs_bind, runs_mod, runs_event.
      destruct Hf as (? & ? & ? & ?). split; [split_and!; done|].
      eapply in_step_quiet; [exact Hs|done|]. by intros [].
    + apply runs_ret. split_and!; [done|intros r; by apply fail_good|]. right. destruct (state_ s); [|done|done]. tauto.
  - intros [] s1 (Hc1 & Hfail & Hs1). apply runs_bind, runs_get. rewrite Hc1.
    destruct (negotiate sets config) as [n|] eqn:En; [|apply Hfail]. apply runs_bind, runs_mod, runs_bind.
    eapply runs_weaken; [apply (confirm_good s s1 n Hcf (negotiate_inv _ _ _ Hok En) Hs1)|].
    intros ? s' Hg'. by apply event_good.
Qed.

Lemma ack_good q f n s : u32_ok q = true -> good config sent s -> runs true (on_frame_acknowledge q f n) s (fun _ s' => good config sent s').
Proof.
  intros Hq [(Hc & (H1 & H2 & H3 & H4) & Hi) Hs]. unfold on_frame_acknowledge. apply runs_bind, runs_get. cbv zeta.
  apply runs_bind, runs_mod. apply event_good. split.
  - split_and!; [done| |exact Hi]. split_and!; cbn; [done|done| |].
    + destruct (q =? _); [done|]. destruct (existsb _ _); [by apply after_frame_ok|done].
    + by intros ->.
  - eapply in_step_quiet; [exact Hs|done|]. intros Hst. split; [exact Hst|]. intros c HA. destruct HA. by split.
Qed.

Lemma offer_good entries s : good config sent s -> state_ s = ready -> runs true (on_cache_import_offer entries) s (fun _ s' => good config sent s').
Proof.
  intros Hg Hst. destruct (good_ready _ _ s Hg Hst) as [n Hn]. unfold on_cache_import_offer. apply runs_bind, runs_send; [done|].
  intros e He. apply event_good. by eapply sent_only.
Qed.

Lemma handle_good bytes s : good config sent s -> state_ s <> failed -> runs true (handle_pdu bytes) s (fun _ s' => good config sent s').
Proof.
  intros Hg Hst. unfold handle_pdu. destruct (decode_pdu bytes) as [p|e] eqn:Ed; [|by apply fail_good].
  pose proof (decoded_ok _ _ Ed) as Hok.
  assert (forall m : M unit, (state_ s = ready -> runs true m s (fun _ s' => good config sent s')) ->
            runs true (let$ is_ready := sget (fun s => bool_decide (state_ s = ready)) in
                     if negb is_ready then fail_ "RDPGFX PDU before Caps Advertise" else m) s (fun _ s' => good config sent s')) as Hr.
  { intros m Hm. apply runs_bind, runs_get. case_bool_decide; cbn [negb]; [by apply Hm|by apply fail_good]. }
  destruct p; try (apply Hr; intros _; by apply fail_good).
  - apply Hr. intros _. apply ack_good; [|done]. cbn in Hok. by bools.
  - apply Hr. intros E. by apply offer_good.
  - apply caps_good; [|done|done]. cbn [pdu_ok] in Hok. by apply andb_prop in Hok as [[_ [_ Hall]%andb_prop]%andb_prop _].
  - apply Hr. intros _. by apply event_good.
Qed.

Lemma loop_good fuel : forall rest s, len rest <= Z.of_nat fuel -> good config sent s ->
  runs true (receive_loop fuel rest) s (fun _ s' => good config sent s').
Proof.
  induction fuel as [|fuel IH]; intros rest s Hl Hg; cbn [receive_loop]; apply runs_bind, runs_get; unfold is_failed.
  all: case_bool_decide as Ef; [by apply runs_ret|].
  all: destruct (frame_pdu rest max_client_pdu_size) as [[size|]|e] eqn:Efr;
    [|by apply runs_ret|apply runs_bind; eapply runs_weaken; [by apply fail_good|]; intros; by apply runs_ret].
  all: apply frame_some in Efr as Hsize.
  - lia.
  - apply runs_bind. eapply runs_weaken; [by apply handle_good|]. intros ? s' Hg'. apply IH; [len_lia|done].
Qed.

Lemma receive_good bytes s : good config sent s -> runs true (receive bytes) s (fun _ s' => good config sent s').
Proof.
  intros Hg. unfold receive. apply runs_bind, runs_get. unfold is_failed. case_bool_decide; [by apply runs_ret|].
  apply runs_bind, runs_get, runs_bind. eapply runs_weaken; [apply loop_good; [|exact Hg]; unfold len; lia|].
  intros rest s' [(Hc & Hf & Hi) Hs]. apply runs_mod. split; [by split_and!|].
  eapply in_step_quiet; [exact Hs|done|]. intros Hst. split; [exact Hst|]. intros c HA. destruct HA. by split.
Qed.
End Receive.

(** ** Reachable states *)

Lemma command_keeps config sent b c : keeps config sent b c.
Proof.
  destruct c; [apply keeps_reset|apply keeps_create|apply keeps_delete|apply keeps_map_output|apply keeps_scaled_output
    |apply keeps_map_window|apply keeps_scaled_window|apply keeps_start|apply keeps_end|apply keeps_wire_1|apply keeps_wire_2
    |apply keeps_delete_context|apply keeps_fill|apply keeps_copy|apply keeps_to_cache|apply keeps_from_cache|apply keeps_evict].
Qed.

Lemma make_good config : good config [] (make config).
Proof.
  split; [by split_and!|]. exists [], new_client. split_and!; [constructor|done|]. intros _. split; try done.
  intros slot. cbn. unfold cached. destruct (_ <=? _); [|done]. by destruct (Z.to_nat _).
Qed.

Lemma reached_good config sent s : reached config sent s -> good config sent s.
Proof.
  induction 1 as [|sent s bytes s' _ IH H|sent s c s' _ IH Ha H|sent s out s' _ IH H|sent s e s' _ IH H].
  - apply make_good.
  - pose proof (receive_good config sent bytes s IH) as W. unfold runs in W. by rewrite H in W.
  - pose proof (command_keeps config sent false c s IH Ha ltac:(done)) as W. unfold runs in W. by rewrite H in W.
  - injection H as <- <-. destruct IH as [(Hc & Hf & Hi) (ps & c & HF & HR & HA)]. split; [by split_and!|].
    exists ps, c. cbn [output_ with_output]. rewrite app_nil_r. split_and!; [done|done|]. intros Hst. destruct (HA Hst). by split.
  - unfold poll_event in H. destruct (events_ s) as [|x es]; injection H as _ <-; [done|].
    destruct IH as [(Hc & Hf & Hi) (ps & c & HF & HR & HA)]. split; [by split_and!|].
    exists ps, c. split_and!; [done|done|]. intros Hst. destruct (HA Hst). by split.
Qed.

(** A size that does not fit in 32 bits wraps: a bitmap of 4 GiB counts as nothing. *)
Lemma bitmap_bytes_wraps :
  let rect := mkRect 0 0 32768 32768 in
  rect_width rect * rect_height rect * 4 = 4294967296 /\ bitmap_bytes rect = 0.
Proof. vm_compute. split; reflexivity. Qed.

(** ** Sessions *)

(** Calls one after the other, the messages taken after each. *)
Inductive Call := Feed (bytes : list byte) | Do (c : Command).

Definition call (k : Call) : M unit :=
  match k with
  | Feed bytes => receive bytes
  | Do c => let$ _ := sassert (args_ok c) in run c
  end.

Fixpoint session (calls : list Call) (sent : list (list byte)) (s : t) : option (list (list byte) * t) :=
  match calls with
  | [] => Some (sent, s)
  | k :: calls' =>
      match call k s with
      | Some (_, s') => session calls' (sent ++ output_ s') (with_output s' [])
      | None => None
      end
  end.

Lemma session_reached config calls : forall sent s sent' s',
  reached config sent s -> session calls sent s = Some (sent', s') -> reached config sent' s'.
Proof.
  induction calls as [|k calls IH]; intros sent s sent' s' Hr H; cbn [session] in H; [congruence|].
  destruct (call k s) as [[[] s1]|] eqn:E; [|done]. eapply IH; [|exact H].
  eapply reached_output; [|done]. destruct k as [bytes|c]; cbn [call] in E; [by eapply reached_receive|].
  unfold sbind, sassert in E. destruct (args_ok c) eqn:Ea; [|done]. by eapply reached_command.
Qed.

(** ** Theorems *)

(** C22: whatever the client sends and whatever the caller does with arguments of
    their types, surfaces of up to 65535 by 65535 included, as long as the data of
    a bitmap fits in a PDU, whose length has 32 bits, and it puts no bitmap of
    4 GiB or more in the cache ([under_4_gib] in [args_ok]: beyond that
    the code's 32-bit size wraps, [bitmap_bytes_wraps]), the messages of
    [GfxServer], in the order they leave it, decode to messages that are legal
    to a client of the confirmed capabilities: surfaces and codec contexts it
    has been told of, rectangles and bitmaps inside their surfaces, codecs and
    scaling it can do, frames that do not nest, cache slots and bytes within its
    cache.  And unless the server has failed, the surfaces, contexts, frame and
    cache it keeps track of are exactly those of the client. *)
Theorem gfx_refines_client (config : GfxServerConfig) (sent : list (list byte)) (s : t) :
  reached config sent s ->
  exists ps c, Forall2 (fun e p => decode_pdu e = Ok p) (sent ++ output_ s) ps /\
    replay new_client ps = Some c /\ (state_ s <> failed -> agrees s c).
Proof. intros H. apply (reached_good _ _ _ H). Qed.

Definition sample_config : GfxServerConfig := mkConfig v10_7 true true true.
Definition sample_caps : list byte :=
  match encode (CapsAdvertise [mkCaps v10_7 0x22 []; mkCaps v8 0x01 []]) with Some e => e | None => [] end.
Definition sample_calls : list Call :=
  [ Feed sample_caps; Do (CmdResetGraphics 64 48 []); Do (CmdCreateSurface 64 48 xrgb_8888);
    Do (CmdMapSurfaceToOutput 0 0 0); Do (CmdStartFrame 0);
    Do (CmdWireToSurface2 0 codec_progressive 1 xrgb_8888 [byte_of 1; byte_of 2]);
    Do (CmdSurfaceToCache 0 (mkRect 0 0 16 16) 42); Do (CmdCacheToSurface 1 0 [mkPoint 16 16]); Do CmdEndFrame ].

Lemma gfx_refines_client_witness :
  exists sent s, reached sample_config sent s /\ state_ s = ready /\
    exists ps c, Forall2 (fun e p => decode_pdu e = Ok p) (sent ++ output_ s) ps /\ length ps = 9%nat /\
      replay new_client ps = Some c /\ cl_cache c !! 1 = Some (42, 16, 16).
Proof.
  destruct (session sample_calls [] (make sample_config)) as [[sent s]|] eqn:E; [|vm_compute in E; discriminate].
  assert ((fun '(x, s) => (length (x ++ output_ s), state_ s, cached (cache_ (bitmaps_ s)) 1)) <$>
            session sample_calls [] (make sample_config) = Some (9%nat, ready, Some (42, 16, 16))) as F by (vm_compute; reflexivity).
  rewrite E in F. cbn in F. injection F as F1 F2 F3.
  assert (reached sample_config sent s) as Hr by (eapply session_reached; [apply reached_init|exact E]).
  exists sent, s. split; [exact Hr|]. split; [exact F2|].
  destruct (gfx_refines_client sample_config sent s Hr) as (ps & c & HF & HR & HA). exists ps, c.
  split; [exact HF|]. split; [by rewrite <- (Forall2_length _ _ _ HF)|]. split; [exact HR|].
  rewrite F2 in HA. by rewrite (agrees_cache _ _ (HA ltac:(discriminate))).
Defined.

(** C23: no assertion of [GfxServer] fails for anything a client sends, whatever
    state the calls so far have led to; and none fails in a command whose caller
    observes the contract of the public interface, nor in any command after a
    failure, in both cases with arguments of their types and, as in C22, no bitmap
    of 4 GiB or more for the cache. *)
Theorem gfx_server_safe (config : GfxServerConfig) (sent : list (list byte)) (s : t) :
  reached config sent s ->
  (forall bytes, exists s', receive bytes s = Some (tt, s')) /\
  (forall c, args_ok c = true -> state_ s = failed \/ state_ s = ready /\ contract c s = true ->
     exists s', run c s = Some (tt, s')).
Proof.
  intros H%reached_good. split.
  - intros bytes. pose proof (receive_good config sent bytes s H) as W. unfold runs in W.
    destruct (receive bytes s) as [[[] s']|]; [by eexists|done].
  - intros c Ha Hc. pose proof (command_keeps config sent true c s H Ha) as W. unfold runs in W.
    destruct (run c s) as [[[] s']|]; [by eexists|]. discriminate W. intros _.
    destruct Hc as [E|[E Hc]]; rewrite E; done.
Qed.

Lemma gfx_server_safe_witness :
  exists sent s, reached sample_config sent s /\
    (exists s', receive [byte_of 1; byte_of 2] s = Some (tt, s')) /\
    (exists s', run (CmdEvictCacheEntry 1) s = Some (tt, s')).
Proof.
  destruct (session sample_calls [] (make sample_config)) as [[sent s]|] eqn:E; [|vm_compute in E; discriminate].
  assert ((fun '(x, s) => (state_ s, contract (CmdEvictCacheEntry 1) s)) <$>
            session sample_calls [] (make sample_config) = Some (ready, true)) as F by (vm_compute; reflexivity).
  rewrite E in F. cbn [fmap option_fmap option_map] in F. injection F as F1 F2.
  assert (reached sample_config sent s) as Hr by (eapply session_reached; [apply reached_init|exact E]).
  exists sent, s. destruct (gfx_server_safe sample_config sent s Hr) as [H1 H2]. split; [exact Hr|]. split.
  - apply H1.
  - apply H2; [reflexivity|]. right. by split.
Defined.

(** [surface_to_cache] with its contract observed: the bitmap goes to the
    lowest free slot, within the slots and bytes of the negotiated cache, and the
    search for the slot ends; it is refused, with nothing sent and nothing
    changed, exactly when the slots or the bytes would not suffice. *)
Theorem gfx_cache_lowest_slot (config : GfxServerConfig) (sent : list (list byte)) (s : t) (n : Negotiated)
    (id key : Z) (r : Rect16) :
  reached config sent s -> state_ s = ready -> negotiated_ s = Some n ->
  args_ok (CmdSurfaceToCache id r key) = true -> contract (CmdSurfaceToCache id r key) s = true ->
  exists slot s', surface_to_cache id r key s = Some (slot, s') /\ stored s n r key slot s'.
Proof.
  intros H%reached_good E En Ha Hc. destruct (good_ready _ _ s H E) as [m Hm].
  assert (m = n) as -> by (pose proof (ri_negotiated _ _ _ _ Hm); congruence).
  pose proof (runs_to_cache config sent true s n id r key Hm Ha (fun _ => Hc) E) as W. unfold runs in W.
  destruct (surface_to_cache id r key s) as [[slot s']|]; [|done]. exists slot, s'. by destruct W.
Qed.

Lemma gfx_cache_lowest_slot_witness :
  exists sent s, reached sample_config sent s /\
    exists s', surface_to_cache 0 (mkRect 16 16 32 20) 43 s = Some (Some 2, s') /\ cache_bytes_ (bitmaps_ s') = 1280.
Proof.
  set (calls := removelast sample_calls).
  destruct (session calls [] (make sample_config)) as [[sent s]|] eqn:E; [|vm_compute in E; discriminate].
  assert ((fun '(x, s) => (state_ s, contract (CmdSurfaceToCache 0 (mkRect 16 16 32 20) 43) s,
             (fun n => (n_max_cache_slots n, n_max_cache_bytes n)) <$> negotiated_ s, cache_bytes_ (bitmaps_ s), cache_slots_used s,
             (cached (cache_ (bitmaps_ s)) 1, cached (cache_ (bitmaps_ s)) 2))) <$> session calls [] (make sample_config)
          = Some (ready, true, Some (4096, 16777216), 1024, 1, (Some (42, 16, 16), None))) as F by (vm_compute; reflexivity).
  rewrite E in F. cbn [fmap option_fmap option_map] in F. injection F as F1 F2 F3 F5 F6 F7 F8.
  assert (reached sample_config sent s) as Hr by (eapply session_reached; [apply reached_init|exact E]).
  exists sent, s. split; [exact Hr|]. destruct (negotiated_ s) as [n|] eqn:En; [|discriminate F3]. injection F3 as F3 F4.
  destruct (gfx_cache_lowest_slot sample_config sent s n 0 43 (mkRect 16 16 32 20) Hr F1 En eq_refl F2) as (slot & s' & Hrun & Hst).
  exists s'. unfold stored in Hst. rewrite F3, F4, F5, F6 in Hst.
  destruct Hst as (i & -> & Hi & Hfree & Hlow & _ & _ & Hb). assert (i = 2) as ->.
  { destruct (Z.lt_trichotomy i 2) as [Hlt|[->|Hgt]]; [|reflexivity|].
    - replace i with 1 in Hfree by lia. by rewrite F7 in Hfree.
    - destruct (Hlow 2 ltac:(lia)) as [x Hx]. by rewrite F8 in Hx. }
  split; [exact Hrun|exact Hb].
Defined.
End GfxRefinement.
