(* ===== verification/GfxSession.v ===== *)
(** * Sessions of the graphics pipeline server

    Properties of [GfxServer] over the messages of a client: what capability
    negotiation agrees on, and that only the bytes of the channel matter, not
    how they are cut into segments. *)

From stdpp Require Import gmap sorting.
From S2P Require Import Prelude Buffers CodecLogic Fields Rdpgfx GfxServer GfxClient GfxRefinement.
Open Scope Z_scope.

Module GfxSession.
Import Rdpgfx GfxServer GfxClient GfxRefinement.

(** ** The input buffer is only touched by [receive] *)

(** [m] does not look at [input_], nor change it. *)
Definition inert {A} (m : M A) : Prop := forall s i,
  m (with_input s i) = match m s with Some (a, s') => Some (a, with_input s' i) | None => None end.

Lemma inert_ret {A} (a : A) : inert (sret a).
Proof. done. Qed.

Lemma inert_bind {A B} (m : M A) (f : A -> M B) : inert m -> (forall a, inert (f a)) -> inert (sbind m f).
Proof. intros Hm Hf s i. unfold sbind. rewrite Hm. destruct (m s) as [[a s']|]; [apply Hf|done]. Qed.

Lemma inert_get {A} (f : t -> A) : (forall s i, f (with_input s i) = f s) -> inert (sget f).
Proof. intros Hf s i. unfold sget. by rewrite Hf. Qed.

Lemma inert_mod f : (forall s i, f (with_input s i) = with_input (f s) i) -> inert (smod f).
Proof. intros Hf s i. unfold smod. by rewrite Hf. Qed.

Lemma inert_send p : inert (send p).
Proof. intros s i. unfold send. by destruct (encode p). Qed.

Lemma inert_event e : inert (emplace_event e).
Proof. by apply inert_mod. Qed.

Lemma inert_fail r : inert (fail_ r).
Proof. apply inert_bind; [by apply inert_mod|]. intros _. apply inert_event. Qed.

Ltac inert :=
  repeat first [ apply inert_ret | apply inert_send | apply inert_event | apply inert_fail
               | apply inert_get; reflexivity | apply inert_mod; reflexivity | apply inert_bind; [|intros ?]
               | match goal with |- inert (if ?c then _ else _) => destruct c end ].

Lemma inert_caps sets : inert (on_caps_advertise sets).
Proof. unfold on_caps_advertise, reset_protocol. inert. destruct (negotiate _ _); inert. Qed.

Lemma inert_handle bytes : inert (handle_pdu bytes).
Proof.
  unfold handle_pdu. destruct (decode_pdu bytes) as [p|e]; [|inert].
  destruct p; try solve [inert]. apply inert_caps.
Qed.

Lemma inert_loop fuel : forall rest, inert (receive_loop fuel rest).
Proof.
  induction fuel as [|fuel IH]; intros rest; cbn [receive_loop]; (apply inert_bind; [by apply inert_get|]); intros f.
  all: destruct f; [inert|]; destruct (frame_pdu _ _) as [[n|]|e]; [|inert|inert].
  - done.
  - apply inert_bind; [apply inert_handle|]. intros ?. apply IH.
Qed.

(** ** Framing and the loop *)

Lemma frame_stable x y max : frame_pdu x max <> Ok None -> frame_pdu (x ++ y) max = frame_pdu x max.
Proof.
  destruct (Z.lt_ge_cases (len x) 8) as [Hl|Hl].
  { unfold frame_pdu at 1. unfold header_size. by destruct (Z.ltb_spec (len x) 8); [|lia]. }
  assert (exists a b r, x = a ++ b ++ r /\ len a = 4 /\ len b = 4) as (a & b & r & -> & Ha & Hb).
  { exists (take 4 x), (take 4 (drop 4 x)), (drop 4 (drop 4 x)). rewrite !take_drop. rewrite !len_take, len_drop. split_and!; [done|lia|lia]. }
  rewrite <- !app_assoc, !frame_pdu_header by done. destruct (_ <? header_size); [done|]. destruct (_ <? _); [done|].
  destruct (Z.ltb_spec (len (a ++ b ++ r)) (le_val b)) as [|H]; [done|]. intros _.
  destruct (Z.ltb_spec (len (a ++ b ++ r ++ y)) (le_val b)); [|done]. pose proof (len_nonneg y). rewrite !len_app in *. lia.
Qed.

Lemma loop_step fuel rest s : len rest <= Z.of_nat fuel -> receive_loop fuel rest s =
  if is_failed s then Some (rest, s)
  else
    match frame_pdu rest max_client_pdu_size with
    | Err e => match fail_ ("malformed RDPGFX header: " ++ message e) s with Some (_, s') => Some (rest, s') | None => None end
    | Ok None => Some (rest, s)
    | Ok (Some size) =>
        match handle_pdu (take (Z.to_nat size) rest) s with
        | Some (_, s') => receive_loop (pred fuel) (drop (Z.to_nat size) rest) s'
        | None => None
        end
    end.
Proof.
  intros Hf. destruct fuel as [|fuel]; cbn [receive_loop pred]; unfold sbind at 1, sget; destruct (is_failed s); try done.
  all: destruct (frame_pdu rest _) as [[n|]|e] eqn:E; try done. apply frame_some in E. lia.
Qed.

(** Fuel is enough when it is the length of the input. *)
Lemma gfx_loop_fuel k : forall f1 f2 rest s, (length rest <= k)%nat -> len rest <= Z.of_nat f1 -> len rest <= Z.of_nat f2 ->
  receive_loop f1 rest s = receive_loop f2 rest s.
Proof.
  induction k as [|k IH]; intros f1 f2 rest s Hk H1 H2; rewrite !loop_step by done; destruct (is_failed s); try done.
  all: destruct (frame_pdu rest _) as [[n|]|e] eqn:E; try done; apply frame_some in E.
  - unfold len in E. lia.
  - destruct (handle_pdu _ s) as [[_ s']|]; [|done]. unfold len in *. apply IH; unfold len; rewrite ?length_drop; lia.
Qed.

Lemma loop_app k : forall f1 f2 f3 x y s, (length x <= k)%nat ->
  len x <= Z.of_nat f1 -> len (x ++ y) <= Z.of_nat f2 -> len (x ++ y) <= Z.of_nat f3 ->
  receive_loop f2 (x ++ y) s =
    match receive_loop f1 x s with Some (r, s') => receive_loop f3 (r ++ y) s' | None => None end.
Proof.
  induction k as [|k IH]; intros f1 f2 f3 x y s Hk H1 H2 H3.
  all: rewrite (loop_step f1) by done; destruct (is_failed s) eqn:Ef; [by eapply gfx_loop_fuel|].
  all: destruct (frame_pdu x max_client_pdu_size) as [[n|]|e] eqn:E; [|by eapply gfx_loop_fuel|].
  - apply frame_some in E. unfold len in E. lia.
  - rewrite (loop_step f2), Ef, (frame_stable x y), E by (done || by rewrite E).
    cbn. symmetry. by rewrite (loop_step f3).
  - rewrite (loop_step f2), Ef, (frame_stable x y), E by (done || by rewrite E). apply frame_some in E. unfold len in E.
    rewrite take_app_le by lia. destruct (handle_pdu _ s) as [[_ s']|]; [|done].
    rewrite drop_app_le by lia. unfold len in *. rewrite length_app in *.
    apply IH; unfold len; rewrite ?length_app, ?length_drop; lia.
  - rewrite (loop_step f2), Ef, (frame_stable x y), E by (done || by rewrite E).
    cbn. symmetry. by rewrite (loop_step f3).
Qed.

Lemma receive_eq bytes s : receive bytes s =
  if is_failed s then Some (tt, s)
  else match receive_loop (length (input_ s ++ bytes)) (input_ s ++ bytes) s with
       | Some (r, s') => Some (tt, with_input s' (if is_failed s' then [] else r))
       | None => None
       end.
Proof.
  unfold receive, sbind, sget, smod, sret. destruct (is_failed s); [done|]. by destruct (receive_loop _ _ s) as [[r s']|].
Qed.

Lemma receive_app a b s : receive (a ++ b) s =
  match receive a s with Some (_, s1) => receive b s1 | None => None end.
Proof.
  rewrite (receive_eq (a ++ b)), (receive_eq a). destruct (is_failed s) eqn:Ef; [by rewrite receive_eq, Ef|].
  rewrite app_assoc. set (x := input_ s ++ a).
  destruct (receive_loop (length x) x s) as [[r s1]|] eqn:E1.
  - rewrite (loop_app (length x) (length x) _ (length (x ++ b) + length (r ++ b)) x b s), E1
      by (rewrite ?length_app; unfold len; rewrite ?length_app; lia).
    rewrite receive_eq. change (is_failed (with_input s1 _)) with (is_failed s1). destruct (is_failed s1) eqn:Ef1.
    + rewrite loop_step by (unfold len; rewrite ?length_app; lia). rewrite Ef1. by rewrite Ef1.
    + cbn [input_ with_input]. rewrite inert_loop.
      rewrite (gfx_loop_fuel (length (r ++ b)) (length (x ++ b) + length (r ++ b)) (length (r ++ b)))
        by (unfold len; rewrite ?length_app; lia).
      destruct (receive_loop _ (r ++ b) s1) as [[r2 s2]|]; [|done]. done.
  - by rewrite (loop_app (length x) (length x) _ (length (x ++ b)) x b s), E1 by (unfold len; rewrite ?length_app; lia).
Qed.

(** The segments one after the other. *)
Fixpoint feed (segments : list (list byte)) (s : t) : option (unit * t) :=
  match segments with
  | [] => Some (tt, s)
  | bytes :: segments' => match receive bytes s with Some (_, s') => feed segments' s' | None => None end
  end.

Lemma feed_concat segments : forall bytes s, receive (bytes ++ concat segments) s =
  match receive bytes s with Some (_, s') => feed segments s' | None => None end.
Proof.
  induction segments as [|x segments IH]; intros bytes s; cbn [concat feed].
  - rewrite app_nil_r. by destruct (receive bytes s) as [[[] s']|].
  - rewrite app_assoc, IH, receive_app. by destruct (receive bytes s) as [[[] s']|].
Qed.

(** ** Negotiation *)

Lemma negotiate_first vs sets config n : negotiate_loop vs sets config = Some n ->
  exists before after c, vs = before ++ version n :: after /\ version n <= max_version config /\
    find (fun c => cs_version c =? version n) sets = Some c /\ n = derive (version n) (cs_flags c) config /\
    forall v, v ∈ before -> max_version config < v \/ find (fun c => cs_version c =? v) sets = None.
Proof.
  induction vs as [|v vs IH]; cbn [negotiate_loop]; [done|].
  assert (negotiate_loop vs sets config = Some n -> max_version config < v \/ find (fun c => cs_version c =? v) sets = None ->
          exists before after c, v :: vs = before ++ version n :: after /\ version n <= max_version config /\
            find (fun c => cs_version c =? version n) sets = Some c /\ n = derive (version n) (cs_flags c) config /\
            forall v', v' ∈ before -> max_version config < v' \/ find (fun c => cs_version c =? v') sets = None) as Hskip.
  { intros Hn Hv. destruct (IH Hn) as (before & after & c' & -> & ? & ? & ? & Hb). exists (v :: before), after, c'.
    split_and!; try done. by intros w [->|Hw]%elem_of_cons; [|apply Hb]. }
  destruct (Z.ltb_spec (max_version config) v) as [Hlt|Hle]; [intros Hn; apply Hskip; [done|by left]|].
  destruct (find (fun c => cs_version c =? v) sets) as [c|] eqn:Ef; [|intros Hn; apply Hskip; [done|by right]].
  intros [= <-]. exists [], vs, c. cbn. split_and!; try done. by intros w Hw%elem_of_nil.
Qed.

Lemma negotiate_none vs sets config : negotiate_loop vs sets config = None ->
  forall v, v ∈ vs -> max_version config < v \/ find (fun c => cs_version c =? v) sets = None.
Proof.
  induction vs as [|v vs IH]; cbn [negotiate_loop]; [by intros _ v Hv%elem_of_nil|].
  destruct (Z.ltb_spec (max_version config) v) as [Hlt|Hle].
  - intros Hn w [->|Hw]%elem_of_cons; [by left|by apply IH].
  - destruct (find _ sets) as [c|] eqn:Ef; [done|]. intros Hn w [->|Hw]%elem_of_cons; [by right|by apply IH].
Qed.

Lemma land_subset f d : Z.land (Z.land f d) f = Z.land f d /\ Z.land (Z.land f d) d = Z.land f d.
Proof.
  split; apply Z.bits_inj'; intros i Hi; rewrite !Z.land_spec; by destruct (Z.testbit f i), (Z.testbit d i).
Qed.

Lemma ldiff_subset x a f : Z.land x f = x -> Z.land (Z.ldiff x a) f = Z.ldiff x a.
Proof.
  intros H. apply Z.bits_inj'. intros i Hi. rewrite Z.land_spec, Z.ldiff_spec.
  apply (f_equal (fun z => Z.testbit z i)) in H. rewrite Z.land_spec in H.
  by destruct (Z.testbit x i), (Z.testbit a i), (Z.testbit f i).
Qed.

Lemma derive_subset v f config :
  Z.land (flags (derive v f config)) f = flags (derive v f config) /\
  Z.land (flags (derive v f config)) (defined_caps_flags v) = flags (derive v f config).
Proof.
  destruct (land_subset f (defined_caps_flags v)) as [H1 H2]. unfold derive. cbn [flags].
  destruct (_ && _); [|done]. split; by apply ldiff_subset.
Qed.

(** ** Theorems *)

(** C25: capability negotiation.  The version agreed on is the most preferred
    one that the client offers and the configuration allows, none if there is
    none.  The flags confirmed are among those the client set and the version
    defines; and every codec the server then lets itself use is one that a client with the
    confirmed set can decode and that the configuration lets it encode. *)
Theorem gfx_negotiation (sets : list CapabilitySet) (config : GfxServerConfig) :
  match negotiate sets config with
  | Some n =>
      exists before after c, preferred_versions = before ++ version n :: after /\ version n <= max_version config /\
        find (fun c => cs_version c =? version n) sets = Some c /\ client_flags n = cs_flags c /\
        (forall v, v ∈ before -> max_version config < v \/ find (fun c => cs_version c =? v) sets = None) /\
        Z.land (flags n) (cs_flags c) = flags n /\ Z.land (flags n) (defined_caps_flags (version n)) = flags n /\
        (forallb caps_ok sets = true -> forall codec, allows n codec = true -> decodes_codec (confirmed n) codec = true) /\
        (allows n codec_avc420 = true -> cfg_avc420 config = true) /\
        (allows n codec_avc444 = true -> cfg_avc444 config = true) /\
        (allows n codec_avc444v2 = true -> cfg_avc444v2 config = true)
  | None => forall v, v ∈ preferred_versions -> max_version config < v \/ find (fun c => cs_version c =? v) sets = None
  end.
Proof.
  destruct (negotiate sets config) as [n|] eqn:E; [|by apply negotiate_none].
  destruct (negotiate_first _ _ _ _ E) as (before & after & c & Hp & Hmax & Hf & Hn & Hb).
  destruct (derive_subset (version n) (cs_flags c) config) as [H1 H2]. rewrite <- Hn in H1, H2.
  exists before, after, c. split_and!; try done.
  - by rewrite Hn.
  - intros Hok codec. apply (confirmed_allows config). by eapply negotiate_inv.
  - change (allows n codec_avc420) with (avc420 n). rewrite Hn. unfold derive. cbn [avc420]. destruct (v10 <=? _); intros H; bools; done.
  - change (allows n codec_avc444) with (avc444 n). rewrite Hn. unfold derive. cbn [avc444]. intros H. by bools.
  - change (allows n codec_avc444v2) with (avc444v2 n). rewrite Hn. unfold derive. cbn [avc444v2]. intros H. by bools.
Qed.

(** only the bytes of the channel matter: [receive] on the segments of a
    stream one after the other ends in the state that one call with the whole
    stream ends in, messages, events, failure and left-over input included. *)
Theorem gfx_receive_segmentation (s : t) (segments : list (list byte)) :
  segments <> [] -> receive (concat segments) s = feed segments s.
Proof. destruct segments as [|x segments]; [done|]. intros _. cbn [concat feed]. apply feed_concat. Qed.

Lemma gfx_receive_segmentation_witness :
  let s := make sample_config in
  let segments := [take 5 sample_caps; drop 5 sample_caps; [byte_of 1]] in
  receive (concat segments) s = feed segments s /\
  ((fun '(_, s') => (state_ s', input_ s', length (output_ s'))) <$> feed segments s) = Some (ready, [byte_of 1], 1%nat).
Proof.
  split; [apply gfx_receive_segmentation; discriminate|]. vm_compute. reflexivity.
Defined.
End GfxSession.
