(* ===== verification/Planar.v ===== *)
(** * The RDP 6.0 planar bitmap codec: the program

    Models [src/src/farland/codec/planar.cpp], its header and the [ImageView] of
    [codec/image.hpp]: the encoder, which writes the red, green and blue planes
    of an image raw or run-length coded, and the decoder, which fills a buffer
    of B, G, R, A pixels.

    A [std::span] or [std::vector] is a list of bytes; reading or writing an
    element that is not there aborts ([None]), so that a theorem that a function
    returns also says that it stays within its buffers.  The decoder's state [D]
    is its [Reader] and the output, which keeps what was written before an
    error.  A plane of [std::uint8_t] is a list of integers. *)

From S2P Require Import Prelude Buffers CodecLogic Machine.
Open Scope Z_scope.

Module Planar.

(** ** Constants and data *)

Definition header_cll_mask : Z := 0x07.
Definition header_cs : Z := 0x08.
Definition header_rle : Z := 0x10.
Definition header_na : Z := 0x20.

Definition bytes_per_pixel : Z := 4.
Definition offset_b : Z := 0.
Definition offset_g : Z := 1.
Definition offset_r : Z := 2.
Definition offset_a : Z := 3.

Definition max_raw_count : Z := 15.
Definition max_short_run : Z := 15.
Definition min_run : Z := 3.
Definition run_escape_16 : Z := 1.
Definition run_escape_32 : Z := 2.
Definition max_run : Z := 32 + 15.
Definition max_dimension : Z := 8192.

Record ImageView := mkImageView { data : list byte; view_width : Z; view_height : Z; stride : Z }.

Inductive Orientation := top_down | bottom_up.
Inductive Mode := mode_raw | mode_rle | mode_automatic.
Record EncodeOptions := mkOptions { mode : Mode; option_orientation : Orientation }.

Record Segment := mkSegment { raw_count : Z; run : Z }.

Definition parse_control_byte (control : Z) : Segment :=
  let raw_count := Z.shiftr control 4 in
  let run := Z.land control 0x0F in
  if run =? run_escape_16 then mkSegment 0 (16 + raw_count)
  else if run =? run_escape_32 then mkSegment 0 (32 + raw_count)
  else mkSegment raw_count run.

Definition delta_to_wire (value above : Z) : Z :=
  let delta := wrap 8 (value - above) in
  if delta <? 0x80 then wrap 8 (Z.shiftl delta 1)
  else
    let magnitude := 0x100 - delta in
    wrap 8 (Z.shiftl magnitude 1 - 1).

Definition wire_to_delta (wire : Z) : Z :=
  let half := Z.shiftr wire 1 in
  if Z.land wire 1 =? 0 then wrap 8 half else wrap 8 (0x100 - (half + 1)).

Record Geometry := mkGeometry { width : Z; height : Z; orientation : Orientation }.

Definition pixels (g : Geometry) : Z := width g * height g.

Definition image_row (g : Geometry) (scanline : Z) : Z :=
  match orientation g with bottom_up => height g - 1 - scanline | top_down => scanline end.

(** ** Spans *)

Definition subspan (l : list byte) (k count : Z) : option (list byte) :=
  if (0 <=? k) && (0 <=? count) && (k + count <=? len l)
  then Some (take (Z.to_nat count) (drop (Z.to_nat k) l)) else None.

Definition peek {A} (l : list A) (i : Z) : option A := if 0 <=? i then l !! Z.to_nat i else None.

Definition poke {A} (l : list A) (i : Z) (v : A) : option (list A) :=
  if (0 <=? i) && (i <? len l) then Some (<[Z.to_nat i := v]> l) else None.

(** ** Encoder *)

Abbreviation Plane := (list Z).
Record Planes := mkPlanes { reds : Plane; greens : Plane; blues : Plane }.

Definition planes_list (p : Planes) : list Plane := [reds p; greens p; blues p].

(** The pixels [x], [x + 1], ... of a row, appended to the planes; [n] are left. *)
Fixpoint split_row (n : nat) (row : list byte) (x : Z) (p : Planes) : option Planes :=
  match n with
  | O => Some p
  | S n' =>
      pixel ← subspan row (x * bytes_per_pixel) bytes_per_pixel;
      r ← peek pixel offset_r;
      g ← peek pixel offset_g;
      b ← peek pixel offset_b;
      split_row n' row (x + 1) (mkPlanes (reds p ++ [u8_of r]) (greens p ++ [u8_of g]) (blues p ++ [u8_of b]))
  end.

Fixpoint split_rows (n : nat) (image : ImageView) (g : Geometry) (scanline : Z) (p : Planes) : option Planes :=
  match n with
  | O => Some p
  | S n' =>
      row ← subspan (data image) (image_row g scanline * stride image) (width g * bytes_per_pixel);
      p ← split_row (Z.to_nat (width g)) row 0 p;
      split_rows n' image g (scanline + 1) p
  end.

Definition split_planes (image : ImageView) (g : Geometry) : option Planes :=
  split_rows (Z.to_nat (height g)) image g 0 (mkPlanes [] [] []).

Definition raw_stream_size (g : Geometry) : Z := 1 + 3 * pixels g + 1.

(** Each plane is copied to the front of what is left of the output. *)
Fixpoint copy_planes (planes : list Plane) (rest : list byte) : option (list byte) :=
  match planes with
  | [] => Some rest
  | plane :: planes' =>
      if len plane <=? len rest
      then tail ← copy_planes planes' (drop (length plane) rest); Some ((byte_of <$> plane) ++ tail)
      else None
  end.

Definition encode_raw (planes : Planes) (g : Geometry) : option (list byte) :=
  let out := replicate (Z.to_nat (raw_stream_size g)) Corelib.Init.Byte.x00 in
  rest ← copy_planes (planes_list planes) (drop 1 out);
  Some (byte_of header_na :: rest).

Definition control_byte (raw_count run_nibble : Z) : Enc Z :=
  eassert ((raw_count <=? 0x0F) && (run_nibble <=? 0x0F)) ;;;
  eret (wrap 8 (Z.lor (Z.shiftl raw_count 4) run_nibble)).

Definition write_control (raw_count run_nibble : Z) : Enc unit :=
  let! c := control_byte raw_count run_nibble in Writer.u8 c.

Definition eabort {A} : Enc A := fun _ => None.

Fixpoint write_runs (fuel : nat) (run : Z) : Enc unit :=
  if 0 <? run then
    match fuel with
    | O => eabort
    | S fuel' =>
        eassert (min_run <=? run) ;;;
        let piece := Z.min run max_run in
        let rest := run - piece in
        let piece := if (0 <? rest) && (rest <? min_run) then run - min_run else piece in
        (if 32 <=? piece then write_control (piece - 32) run_escape_32
         else if 16 <=? piece then write_control (piece - 16) run_escape_16
         else write_control 0 piece) ;;;
        write_runs fuel' (run - piece)
    end
  else eret tt.

Definition as_bytes (p : Plane) : list byte := byte_of <$> p.

(** The segments of [max_raw_count] raw values, then the rest of them. *)
Fixpoint write_raw_segments (fuel : nat) (raw : Plane) (k : Plane -> Enc unit) : Enc unit :=
  if max_raw_count <? len raw then
    match fuel with
    | O => eabort
    | S fuel' =>
        write_control max_raw_count 0 ;;;
        Writer.bytes (as_bytes (take (Z.to_nat max_raw_count) raw)) ;;;
        write_raw_segments fuel' (drop (Z.to_nat max_raw_count) raw) k
    end
  else k raw.

Definition inline_run_of (run : Z) : Z :=
  if run <=? max_short_run then run
  else if min_run <=? run - max_short_run then max_short_run
  else run - min_run.

Definition write_segments (raw : Plane) (run : Z) : Enc unit :=
  eassert ((run =? 0) || (min_run <=? run)) ;;;
  write_raw_segments (length raw) raw (fun raw =>
    if negb (bool_decide (raw = [])) then
      let inline_run := inline_run_of run in
      write_control (len raw) inline_run ;;;
      Writer.bytes (as_bytes raw) ;;;
      write_runs (Z.to_nat run) (run - inline_run)
    else write_runs (Z.to_nat run) run).

(** [while (end < symbols.size() && symbols[end] == symbols[i]) ++end;] *)
Fixpoint group_end (fuel : nat) (symbols : Plane) (v e : Z) : Z :=
  match fuel with
  | O => e
  | S fuel' =>
      match peek symbols e with
      | Some s => if s =? v then group_end fuel' symbols v (e + 1) else e
      | None => e
      end
  end.

Definition sub (symbols : Plane) (from count : Z) : Plane :=
  take (Z.to_nat count) (drop (Z.to_nat from) symbols).

Fixpoint scan_loop (fuel : nat) (symbols : Plane) (raw_begin i : Z) : Enc Z :=
  match peek symbols i with
  | None => eret raw_begin
  | Some v =>
      match fuel with
      | O => eabort
      | S fuel' =>
          let e := group_end (length symbols) symbols v (i + 1) in
          let n := e - i in
          if (i =? 0) && (v =? 0) && (min_run <=? n) then
            write_segments [] n ;;;
            scan_loop fuel' symbols e e
          else if min_run <? n then
            write_segments (sub symbols raw_begin (i + 1 - raw_begin)) (n - 1) ;;;
            scan_loop fuel' symbols e e
          else scan_loop fuel' symbols raw_begin e
      end
  end.

Definition write_rle_scanline (symbols : Plane) : Enc unit :=
  let! raw_begin := scan_loop (length symbols) symbols 0 0 in
  if raw_begin <? len symbols then write_segments (drop (Z.to_nat raw_begin) symbols) 0 else eret tt.

Fixpoint write_lines (n : nat) (values : Plane) (g : Geometry) (scanline : Z) : Enc unit :=
  match n with
  | O => eret tt
  | S n' =>
      let row := sub values (scanline * width g) (width g) in
      let symbols :=
        if scanline =? 0 then row
        else zip_with delta_to_wire row (sub values ((scanline - 1) * width g) (width g)) in
      write_rle_scanline symbols ;;;
      write_lines n' values g (scanline + 1)
  end.

Fixpoint write_planes (planes : list Plane) (g : Geometry) : Enc unit :=
  match planes with
  | [] => eret tt
  | plane :: planes' => write_lines (Z.to_nat (height g)) plane g 0 ;;; write_planes planes' g
  end.

Definition encode_rle (planes : Planes) (g : Geometry) : option (list byte) :=
  Writer.run (
    Writer.u8 (Z.lor header_na header_rle) ;;;
    write_planes (planes_list planes) g).

Definition image_ok (image : ImageView) : bool :=
  (1 <=? view_width image) && (view_width image <=? max_dimension) &&
  (1 <=? view_height image) && (view_height image <=? max_dimension) &&
  let row_bytes := view_width image * bytes_per_pixel in
  (row_bytes <=? stride image) &&
  (row_bytes <=? len (data image)) &&
  (view_height image - 1 <=? (len (data image) - row_bytes) / stride image).

Definition encode (image : ImageView) (options : EncodeOptions) : option (list byte) :=
  if image_ok image then
    let g := mkGeometry (view_width image) (view_height image) (option_orientation options) in
    planes ← split_planes image g;
    match mode options with
    | mode_raw => encode_raw planes g
    | mode_rle => encode_rle planes g
    | mode_automatic =>
        rle ← encode_rle planes g;
        if raw_stream_size g <? len rle then encode_raw planes g else Some rle
    end
  else None.

(** ** Decoder *)

Record D := mkD { rd : Reader.t; out : list byte }.

Definition on_reader {A} (p : Dec A) : M D A := fun d =>
  match p (rd d) with
  | Ok (a, r) => Some (Ok a, mkD r (out d))
  | Err e => Some (Err e, d)
  end.

(** [out[i]], read and written. *)
Definition load (i : Z) : M D Z := fun d =>
  match peek (out d) i with Some b => Some (Ok (u8_of b), d) | None => None end.
Definition set_out (i : Z) (v : byte) : M D unit := fun d =>
  match poke (out d) i v with Some o => Some (Ok tt, mkD (rd d) o) | None => None end.

Definition sample_index (pixel channel : Z) : Z := pixel * bytes_per_pixel + channel.

Fixpoint raw_columns (first x channel : Z) (values : list byte) : M D unit :=
  match values with
  | [] => mret tt
  | v :: values' =>
      let$ _ := set_out (sample_index (first + x) channel) v in
      raw_columns first (x + 1) channel values'
  end.

Fixpoint raw_lines (n : nat) (g : Geometry) (channel scanline : Z) : M D unit :=
  match n with
  | O => mret tt
  | S n' =>
      let$ values := on_reader (ReaderOps.bytes (width g)) in
      let first := image_row g scanline * width g in
      let$ _ := raw_columns first 0 channel values in
      raw_lines n' g channel (scanline + 1)
  end.

Definition decode_raw_plane (g : Geometry) (channel : Z) : M D unit :=
  raw_lines (Z.to_nat (height g)) g channel 0.

(** The line of an RLE plane that is being decoded. *)
Record Line := mkLine { scanline : Z; first : Z; first_above : Z }.

Definition line_of (g : Geometry) (scanline : Z) : Line :=
  mkLine scanline (image_row g scanline * width g)
    (if scanline =? 0 then 0 else image_row g (scanline - 1) * width g).

Definition store (l : Line) (channel last x : Z) : M D unit :=
  let$ above := (if scanline l =? 0 then mret 0 else load (sample_index (first_above l + x) channel)) in
  set_out (sample_index (first l + x) channel) (byte_of (wrap 8 (above + last))).

Fixpoint raw_values (l : Line) (channel : Z) (raw : list byte) (last x : Z) : M D (Z * Z) :=
  match raw with
  | [] => mret (last, x)
  | value :: raw' =>
      let wire := u8_of value in
      let last := if scanline l =? 0 then wire else wire_to_delta wire in
      let$ _ := store l channel last x in
      raw_values l channel raw' last (x + 1)
  end.

Fixpoint run_values (n : nat) (l : Line) (channel last x : Z) : M D Z :=
  match n with
  | O => mret x
  | S n' => let$ _ := store l channel last x in run_values n' l channel last (x + 1)
  end.

Definition mabort {S A} : M S A := fun _ => None.

(** Every segment takes at least its control byte, so the bytes left are fuel enough. *)
Fixpoint segments (fuel : nat) (w : Z) (l : Line) (channel last x : Z) : M D unit :=
  if x <? w then
    match fuel with
    | O => mabort
    | S fuel' =>
        let$ at_ := mget (fun d => Reader.offset (rd d)) in
        let$ control := on_reader ReaderOps.u8 in
        let segment := parse_control_byte control in
        if w - x <? raw_count segment + run segment
        then mfail invalid_length "planar RLE segment overruns the scanline" at_
        else
          let$ raw := on_reader (ReaderOps.bytes (raw_count segment)) in
          let$ (last, x) := raw_values l channel raw last x in
          let$ x := run_values (Z.to_nat (run segment)) l channel last x in
          segments fuel' w l channel last x
    end
  else mret tt.

Definition rle_line (g : Geometry) (channel scanline : Z) : M D unit :=
  let$ left_ := mget (fun d => Reader.rest (rd d)) in
  segments (S (length left_)) (width g) (line_of g scanline) channel 0 0.

Fixpoint rle_lines (n : nat) (g : Geometry) (channel scanline : Z) : M D unit :=
  match n with
  | O => mret tt
  | S n' =>
      let$ _ := rle_line g channel scanline in
      rle_lines n' g channel (scanline + 1)
  end.

Definition decode_rle_plane (g : Geometry) (channel : Z) : M D unit :=
  rle_lines (Z.to_nat (height g)) g channel 0.

Fixpoint decode_planes (channels : list Z) (rle : bool) (g : Geometry) : M D unit :=
  match channels with
  | [] => mret tt
  | channel :: channels' =>
      let$ _ := (if rle then decode_rle_plane g channel else decode_raw_plane g channel) in
      decode_planes channels' rle g
  end.

Fixpoint opaque (n : nat) (pixel : Z) : M D unit :=
  match n with
  | O => mret tt
  | S n' =>
      let$ _ := set_out (sample_index pixel offset_a) (byte_of 0xFF) in
      opaque n' (pixel + 1)
  end.

Definition plane_channels : list Z := [offset_a; offset_r; offset_g; offset_b].

(** [decode] from the header on. *)
Definition decode_stream (g : Geometry) : M D unit :=
  let$ header := on_reader ReaderOps.u8 in
  if has_bits header header_cll_mask
  then mfail unsupported "planar color loss reduction (YCoCg) is not supported" 0
  else if has_bits header header_cs
  then mfail unsupported "planar chroma subsampling is not supported" 0
  else
    let rle := has_bits header header_rle in
    let has_alpha := negb (has_bits header header_na) in
    let$ _ := decode_planes (drop (if has_alpha then 0 else 1)%nat plane_channels) rle g in
    let$ _ := (if has_alpha then mret tt else opaque (Z.to_nat (pixels g)) 0) in
    let$ remaining := mget (fun d => Reader.remaining (rd d)) in
    let$ _ := (if negb rle && (remaining =? 1) then on_reader (ReaderOps.skip 1) else mret tt) in
    on_reader (ReaderOps.expect_end "planar bitmap stream has trailing data").

Definition decode (stream : list byte) (width height : Z) (orientation : Orientation) : M (list byte) unit :=
  if (width =? 0) || (height =? 0) then mfail invalid_value "planar bitmap has no pixels" 0
  else if (max_dimension <? width) || (max_dimension <? height)
  then mfail limit_exceeded "planar bitmap exceeds planar::max_dimension" 0
  else
    let g := mkGeometry width height orientation in
    let$ size := mget len in
    let$ _ := massert (size =? pixels g * bytes_per_pixel) in
    fun out =>
      match decode_stream g (mkD (Reader.make stream 0) out) with
      | Some (r, d) => Some (r, Planar.out d)
      | None => None
      end.

End Planar.
