(* ===== verification/PlanarEncoder.v ===== *)
(** * The planar codec: what the encoder's segments stand for

    [codes l e s] says that the bytes [e] are run-length segments that stand for
    the symbols [s], read with [l] as the last symbol.  The run-length coder
    writes such bytes for every scanline, without an assertion; the decoder side
    is in [PlanarRoundtrip].  No code is modelled here. *)

From S2P Require Import Prelude Buffers CodecLogic Planar.
Open Scope Z_scope.

Module PlanarEncoder.
Import Planar.

(** ** Symbols and segments *)

Definition last_of (l : Z) (s : list Z) : Z := default l (last s).

Definition symbol (s : Z) : Prop := 0 <= s < 256.

Inductive codes : Z -> list byte -> list Z -> Prop :=
  | codes_nil l : codes l [] []
  | codes_segment l c raw n e s :
      parse_control_byte (u8_of c) = mkSegment (len raw) (Z.of_nat n) ->
      Forall symbol raw -> (0 < length raw + n)%nat ->
      codes (last_of l raw) e s ->
      codes l (c :: as_bytes raw ++ e) (raw ++ replicate n (last_of l raw) ++ s).

Lemma last_of_app l a b : last_of l (a ++ b) = last_of (last_of l a) b.
Proof. unfold last_of. rewrite last_app. by destruct (last b). Qed.

Lemma last_of_replicate l n : last_of l (replicate n l) = l.
Proof.
  induction n as [|n IH]; [done|]. change (replicate (S n) l) with ([l] ++ replicate n l).
  by rewrite last_of_app.
Qed.

Lemma codes_app l e s e' s' : codes l e s -> codes (last_of l s) e' s' -> codes l (e ++ e') (s ++ s').
Proof.
  induction 1 as [l|l c raw n e s Hp Hr Hn _ IH]; intros H; [done|].
  rewrite !last_of_app, last_of_replicate in H.
  rewrite <- !app_assoc. change ((c :: as_bytes raw ++ e) ++ e') with (c :: (as_bytes raw ++ e) ++ e').
  rewrite <- app_assoc. constructor; auto.
Qed.

(** ** Control bytes *)

Lemma parse_control a b :
  0 <= a <= 15 -> 0 <= b <= 15 ->
  parse_control_byte (u8_of (byte_of (wrap 8 (Z.lor (Z.shiftl a 4) b)))) =
    if b =? 1 then mkSegment 0 (16 + a) else if b =? 2 then mkSegment 0 (32 + a) else mkSegment a b.
Proof.
  intros Ha Hb. rewrite lor_disjoint by lia. unfold wrap. rewrite u8_of_byte_of_small, Z.mod_small by lia.
  unfold parse_control_byte. rewrite (land_low _ 0x0F 4), Z.shiftr_div_pow2 by (done || lia).
  replace ((a * 2 ^ 4 + b) mod 2 ^ 4) with b by lia. by replace ((a * 2 ^ 4 + b) / 2 ^ 4) with a by lia.
Qed.

(** A control byte and what it announces. *)
Definition control (a b : Z) : byte := byte_of (wrap 8 (Z.lor (Z.shiftl a 4) b)).

Lemma writes_control a b m e :
  0 <= a <= 15 -> 0 <= b <= 15 -> writes m e -> writes (write_control a b ;;; m) (control a b :: e).
Proof.
  intros Ha Hb H. apply (writes_seq _ _ [control a b]); [|done]. intros w.
  unfold write_control, control_byte, ebind, eassert.
  rewrite (proj2 (Z.leb_le a 0x0F)), (proj2 (Z.leb_le b 0x0F)) by lia. done.
Qed.

Lemma codes_short l raw n e s :
  len raw <= 15 -> (n = 0 \/ 3 <= n <= 15)%nat -> (0 < length raw + n)%nat -> Forall symbol raw ->
  codes (last_of l raw) e s ->
  codes l (control (len raw) (Z.of_nat n) :: as_bytes raw ++ e) (raw ++ replicate n (last_of l raw) ++ s).
Proof.
  intros Hr Hn Hp Hs H. pose proof (len_nonneg raw). constructor; auto. unfold control. rewrite parse_control by lia.
  by destruct (Z.eqb_spec (Z.of_nat n) 1), (Z.eqb_spec (Z.of_nat n) 2); try lia.
Qed.

Lemma codes_run l c n e s :
  parse_control_byte (u8_of c) = mkSegment 0 (Z.of_nat n) -> (0 < n)%nat ->
  codes l e s -> codes l (c :: e) (replicate n l ++ s).
Proof. intros Hp Hn H. by apply (codes_segment l c [] n e s). Qed.

(** ** Runs and raw values *)

Lemma runs_coded fuel n l :
  (n = 0 \/ 3 <= n)%nat -> (n <= fuel)%nat ->
  exists e, writes (write_runs fuel (Z.of_nat n)) e /\ codes l e (replicate n l).
Proof.
  revert n. induction fuel as [|fuel IH]; intros n Hn Hf; cbn [write_runs];
    (destruct (Z.ltb_spec 0 (Z.of_nat n)) as [Hp|Hp];
     [|exists []; replace n with 0%nat by lia; split; [apply writes_ret|constructor]]); [lia|].
  set (piece := if _ && _ then _ else _). remember (Z.to_nat piece) as q eqn:Eq.
  assert (3 <= piece <= 47 /\ (piece = Z.of_nat n \/ piece + 3 <= Z.of_nat n)) as (Hq & Hr).
  { subst piece. destruct (_ && _) eqn:E; unfold max_run, min_run in *; [bools; lia|].
    apply andb_false_iff in E as [?%Z.ltb_ge|?%Z.ltb_ge]; lia. }
  destruct (IH (n - q)%nat ltac:(lia) ltac:(lia)) as (e & W & C).
  replace (Z.of_nat n - piece) with (Z.of_nat (n - q)) by lia.
  replace (replicate n l) with (replicate q l ++ replicate (n - q) l)
    by (rewrite <- replicate_add; f_equal; lia).
  assert (exists c, codes l (c :: e) (replicate q l ++ replicate (n - q) l) /\
    forall m, writes m e ->
    writes ((if 32 <=? piece then write_control (piece - 32) run_escape_32
             else if 16 <=? piece then write_control (piece - 16) run_escape_16
             else write_control 0 piece) ;;; m) (c :: e)) as (c & Cc & Wc).
  { destruct (Z.leb_spec 32 piece); [|destruct (Z.leb_spec 16 piece)]; eexists;
      (split; [|intros m Hm; apply writes_control; [..|exact Hm]; unfold run_escape_16, run_escape_32; lia]);
      (apply codes_run; [unfold control; rewrite parse_control by (unfold run_escape_16, run_escape_32; lia)|lia|done]).
    - cbn. f_equal. lia.
    - cbn. f_equal. lia.
    - destruct (Z.eqb_spec piece 1), (Z.eqb_spec piece 2); try lia. f_equal. lia. }
  exists (c :: e). split; [|done]. apply writes_assert; [apply Z.leb_le; unfold min_run; lia|]. by apply Wc.
Qed.

Lemma last_of_drop l n s : (n < length s)%nat -> last_of l (drop n s) = last_of l s.
Proof.
  intros H. rewrite <- (take_drop n s) at 2. rewrite last_of_app. unfold last_of.
  destruct (last (drop n s)) eqn:E; [done|]. apply last_None in E. apply (f_equal length) in E.
  rewrite length_drop in E. cbn in E. lia.
Qed.

Lemma raw_segments_coded fuel raw k run l :
  Forall symbol raw -> (length raw <= fuel)%nat ->
  (forall raw' l', Forall symbol raw' -> len raw' <= 15 -> (raw' = [] -> raw = []) -> last_of l' raw' = last_of l raw ->
    exists e, writes (k raw') e /\ codes l' e (raw' ++ replicate run (last_of l' raw'))) ->
  exists e, writes (write_raw_segments fuel raw k) e /\ codes l e (raw ++ replicate run (last_of l raw)).
Proof.
  revert raw l. induction fuel as [|fuel IH]; intros raw l Hs Hf Hk; cbn [write_raw_segments]; unfold max_raw_count;
    (destruct (Z.ltb_spec 15 (len raw)) as [Hl|Hl]; [|apply Hk; auto]); [unfold len in Hl; lia|].
  change (Z.to_nat 15) with 15%nat.
  assert (length (take 15 raw) = 15)%nat as Ht by (rewrite length_take; unfold len in Hl; lia).
  assert (length (drop 15 raw) = length raw - 15)%nat as Hd by (by rewrite length_drop).
  assert (last_of (last_of l (take 15 raw)) (drop 15 raw) = last_of l raw) as Hlast
    by (by rewrite <- last_of_app, take_drop).
  destruct (IH (drop 15 raw) (last_of l (take 15 raw))) as (e & W & C).
  - by apply Forall_drop.
  - lia.
  - intros raw' l' Hs' Hl' Hn Hla. apply Hk; [done|done| |congruence].
    intros ->. specialize (Hn eq_refl). rewrite Hn in Hd. cbn in Hd. unfold len in Hl. lia.
  - exists (control 15 0 :: as_bytes (take 15 raw) ++ e). split.
    + apply writes_control; [lia|lia|]. apply writes_seq; [apply writes_bytes|done].
    + rewrite Hlast in C. pose proof (codes_short l (take 15 raw) 0 e _ ltac:(unfold len; lia) ltac:(lia) ltac:(lia)
        ltac:(by apply Forall_take) C) as Hc.
      unfold len in Hc. rewrite Ht in Hc. cbn [replicate app] in Hc. by rewrite app_assoc, take_drop in Hc.
Qed.

Lemma segments_coded raw n l :
  Forall symbol raw -> (n = 0 \/ 3 <= n)%nat ->
  exists e, writes (write_segments raw (Z.of_nat n)) e /\ codes l e (raw ++ replicate n (last_of l raw)).
Proof.
  intros Hs Hn.
  destruct (raw_segments_coded (length raw) raw (fun raw =>
    if negb (bool_decide (raw = [])) then
      let inline_run := inline_run_of (Z.of_nat n) in
      write_control (len raw) inline_run ;;;
      Writer.bytes (as_bytes raw) ;;;
      write_runs (Z.to_nat (Z.of_nat n)) (Z.of_nat n - inline_run)
    else write_runs (Z.to_nat (Z.of_nat n)) (Z.of_nat n)) n l Hs ltac:(lia)) as (e & W & C).
  - intros raw' l' Hs' Hl' _ _. rewrite Nat2Z.id. destruct (bool_decide_reflect (raw' = [])) as [->|Hne]; cbn [negb].
    + destruct (runs_coded n n l' Hn ltac:(lia)) as (e & ? & ?). exists e. split; [done|]. by cbn.
    + assert (exists i, inline_run_of (Z.of_nat n) = Z.of_nat i /\ (i = 0 \/ 3 <= i <= 15)%nat /\
        (i <= n)%nat /\ (n - i = 0 \/ 3 <= n - i)%nat) as (i & -> & Hi & Hin & Hrest).
      { exists (Z.to_nat (inline_run_of (Z.of_nat n))). unfold inline_run_of, max_short_run, min_run.
        destruct (Z.leb_spec (Z.of_nat n) 15); [|destruct (Z.leb_spec 3 (Z.of_nat n - 15))]; lia. }
      destruct (runs_coded n (n - i) (last_of l' raw') Hrest ltac:(lia)) as (e & W & C).
      pose proof (len_nonneg raw').
      exists (control (len raw') (Z.of_nat i) :: as_bytes raw' ++ e). cbv zeta.
      replace (Z.of_nat n - Z.of_nat i) with (Z.of_nat (n - i)) by lia. split.
      * apply writes_control; [lia|lia|]. apply writes_seq; [apply writes_bytes|done].
      * replace (replicate n (last_of l' raw')) with (replicate i (last_of l' raw') ++ replicate (n - i) (last_of l' raw'))
          by (rewrite <- replicate_add; f_equal; lia).
        apply codes_short; auto. destruct raw'; [done|cbn; lia].
  - exists e. split; [|done]. unfold write_segments. apply writes_assert; [|exact W].
    unfold min_run. destruct Hn as [->|]; [done|]. apply orb_true_iff. right. apply Z.leb_le. lia.
Qed.

(** ** Scanlines *)

Lemma peek_app_r {A} (a b : list A) i : 0 <= i -> peek (a ++ b) (len a + i) = peek b i.
Proof.
  intros Hi. unfold peek, len. rewrite (proj2 (Z.leb_le 0 i)), (proj2 (Z.leb_le 0 _)) by lia.
  rewrite lookup_app_r by lia. f_equal. lia.
Qed.

Lemma group_end_spec fuel a v n b :
  (n + length b < fuel)%nat -> head b <> Some v ->
  group_end fuel (a ++ replicate n v ++ b) v (len a) = len a + Z.of_nat n.
Proof.
  revert a n. induction fuel as [|fuel IH]; intros a n Hf Hb; cbn [group_end].
  - lia.
  - rewrite <- (Z.add_0_r (len a)) at 1. rewrite peek_app_r by lia. destruct n as [|n]; cbn [replicate app].
    + destruct b as [|y b]; [change (peek [] 0) with (@None Z); cbv iota beta; lia|]. cbn in Hb. change (peek (y :: b) 0) with (Some y). cbv iota beta.
      destruct (Z.eqb_spec y v); [congruence|lia].
    + change (peek (v :: replicate n v ++ b) 0) with (Some v). cbv iota beta. rewrite Z.eqb_refl.
      replace (a ++ v :: replicate n v ++ b) with ((a ++ [v]) ++ replicate n v ++ b) by (by rewrite <- app_assoc).
      replace (len a + 1) with (len (a ++ [v])) by len_lia.
      rewrite IH; [len_lia|lia|done].
Qed.

(** A list starts with a group of equal elements. *)
Lemma group_split (v : Z) s : exists n b, s = replicate n v ++ b /\ head b <> Some v.
Proof.
  induction s as [|y s (n & b & -> & Hb)]; [by exists 0%nat, []|].
  destruct (decide (y = v)) as [->|]; [by exists (S n), b|]. exists 0%nat, (y :: replicate n v ++ b). cbn. split; [done|congruence].
Qed.

(** [write_rle_scanline] from inside its loop on. *)
Definition scan_from (fuel : nat) (symbols : Plane) (raw_begin i : Z) : Enc unit :=
  let! raw_begin := scan_loop fuel symbols raw_begin i in
  if raw_begin <? len symbols then write_segments (drop (Z.to_nat raw_begin) symbols) 0 else eret tt.

Lemma scan_from_seq fuel symbols i j m e e' :
  writes m e -> writes (scan_from fuel symbols i j) e' ->
  writes (let! b := (m ;;; scan_loop fuel symbols i j) in
          if b <? len symbols then write_segments (drop (Z.to_nat b) symbols) 0 else eret tt) (e ++ e').
Proof.
  intros H H' w. specialize (H' (w ++ e)). rewrite app_assoc. unfold scan_from, ebind in *. by rewrite H.
Qed.

Lemma sub_middle a b c : sub (a ++ b ++ c) (len a) (len b) = b.
Proof. unfold sub, len. by rewrite !Nat2Z.id, drop_app_length, take_app_length. Qed.

Lemma finish_coded done pending symbols :
  symbols = done ++ pending ++ [] -> Forall symbol symbols ->
  exists e,
    writes (let! b := eret (len done) in
            if b <? len symbols then write_segments (drop (Z.to_nat b) symbols) 0 else eret tt) e /\
    codes (last_of 0 done) e (pending ++ []).
Proof.
  intros E Hs. rewrite app_nil_r in *. unfold writes, ebind, eret.
  destruct (Z.ltb_spec (len done) (len symbols)) as [Hl|Hl].
  - destruct (segments_coded pending 0 (last_of 0 done)) as (e & W & C); [|lia|].
    { rewrite E, Forall_app in Hs. apply Hs. }
    exists e. cbn [replicate] in C. rewrite app_nil_r in C. split; [|done].
    unfold len. by rewrite Nat2Z.id, E, drop_app_length.
  - assert (pending = []) as -> by (apply len_0; rewrite E in Hl; len_lia).
    exists []. split; [|constructor]. intros w. by rewrite app_nil_r.
Qed.

(** [done] is written, [pending] is not and follows it, [rest] is still to be looked at. *)
Lemma scan_coded fuel done pending rest symbols :
  symbols = done ++ pending ++ rest -> Forall symbol symbols -> (length rest <= fuel)%nat ->
  exists e, writes (scan_from fuel symbols (len done) (len (done ++ pending))) e /\
    codes (last_of 0 done) e (pending ++ rest).
Proof.
  revert done pending rest. induction fuel as [|fuel IH]; intros done pending rest E Hs Hf.
  all: assert (peek symbols (len (done ++ pending)) = head rest) as Hp
    by (rewrite E, app_assoc, <- (Z.add_0_r (len (done ++ pending))), peek_app_r by lia; by destruct rest).
  all: unfold scan_from; cbn [scan_loop]; rewrite Hp.
  all: destruct rest as [|v rest]; [|cbn in Hf; try lia].
  1,2: by apply finish_coded.
  cbn [head].
  destruct (group_split v rest) as (n & b & -> & Hb).
  assert (group_end (length symbols) symbols v (len (done ++ pending) + 1) = len (done ++ pending ++ replicate (S n) v)) as ->.
  { replace symbols with ((done ++ pending ++ [v]) ++ replicate n v ++ b) at 2 by (rewrite E, <- !app_assoc; done).
    replace (len (done ++ pending) + 1) with (len (done ++ pending ++ [v])) by len_lia.
    rewrite group_end_spec; [len_lia| |done]. rewrite E, !length_app. cbn. rewrite !length_app, length_replicate. lia. }
  set (e := len (done ++ pending ++ replicate (S n) v)).
  replace (e - len (done ++ pending)) with (Z.of_nat (S n)) by (subst e; len_lia).
  pose proof (len_nonneg (done ++ pending)). rewrite length_app, length_replicate in Hf.
  destruct (_ && _ && _) eqn:E1; [|destruct (Z.ltb_spec min_run (Z.of_nat (S n))) as [Hn|Hn]]; unfold min_run in *.
  - bools. assert (done = [] /\ pending = []) as [-> ->] by (apply app_nil, len_0; done). subst v.
    destruct (segments_coded [] (S n) 0 (Forall_nil_2 _) ltac:(lia)) as (e1 & W1 & C1).
    destruct (IH (replicate (S n) 0) [] b E Hs ltac:(lia)) as (e2 & W2 & C2).
    exists (e1 ++ e2). rewrite app_nil_r in W2. split; [by apply scan_from_seq|].
    apply (codes_app 0 e1 (replicate (S n) 0)); [exact C1|]. exact C2.
  - assert (sub symbols (len done) (len (done ++ pending) + 1 - len done) = pending ++ [v]) as ->.
    { replace (len (done ++ pending) + 1 - len done) with (len (pending ++ [v])) by len_lia.
      rewrite E. replace (pending ++ v :: replicate n v ++ b) with ((pending ++ [v]) ++ replicate n v ++ b)
        by (by rewrite <- app_assoc). apply sub_middle. }
    replace (Z.of_nat (S n) - 1) with (Z.of_nat n) by lia.
    assert (last_of (last_of 0 done) (pending ++ [v]) = v) as Hv by (by rewrite last_of_app).
    destruct (segments_coded (pending ++ [v]) n (last_of 0 done)) as (e1 & W1 & C1); [|lia|].
    { rewrite E, !Forall_app, Forall_cons in Hs. apply Forall_app. split; [apply Hs|]. apply Forall_singleton, Hs. }
    destruct (IH (done ++ pending ++ replicate (S n) v) [] b) as (e2 & W2 & C2); [|done|lia|].
    { rewrite E. cbn. by rewrite <- !app_assoc. }
    exists (e1 ++ e2). rewrite app_nil_r in W2. split; [by apply scan_from_seq|].
    replace (pending ++ v :: replicate n v ++ b) with (((pending ++ [v]) ++ replicate n v) ++ b) by (by rewrite <- !app_assoc).
    apply codes_app; [by rewrite Hv in C1|]. rewrite <- last_of_app, <- app_assoc. exact C2.
  - destruct (IH done (pending ++ replicate (S n) v) b) as (e2 & W2 & C2); [|done|lia|].
    { rewrite E. cbn. by rewrite <- !app_assoc. }
    exists e2. split; [exact W2|]. by rewrite <- app_assoc in C2.
Qed.

Lemma scanline_coded symbols :
  Forall symbol symbols -> exists e, writes (write_rle_scanline symbols) e /\ codes 0 e symbols.
Proof. intros H. by apply (scan_coded (length symbols) [] [] symbols symbols). Qed.
End PlanarEncoder.
