(* ===== verification/PlanarDecoder.v ===== *)
(** * The planar codec: the decoder and its output

    What the decoder does to the output, line by line: on any stream it stays
    within the buffer, and on a stream of [PlanarEncoder.codes] it writes the
    values that the symbols stand for and nothing else.  No code is modelled
    here. *)

From S2P Require Import Prelude Buffers CodecLogic Machine Planar PlanarEncoder.
Open Scope Z_scope.

Module PlanarDecoder.
Import Planar PlanarEncoder.

(** ** Reading and writing elements *)

Lemma peek_lt {A} (l : list A) i : 0 <= i < len l -> is_Some (peek l i).
Proof.
  intros H. unfold peek. rewrite (proj2 (Z.leb_le 0 i)) by lia. apply lookup_lt_is_Some. unfold len in H. lia.
Qed.

Lemma poke_ok {A} (l : list A) i v :
  0 <= i < len l ->
  exists l', poke l i v = Some l' /\ len l' = len l /\ forall j, peek l' j = if j =? i then Some v else peek l j.
Proof.
  intros H. unfold poke. rewrite (proj2 (Z.leb_le 0 i)), (proj2 (Z.ltb_lt i (len l))) by lia. cbn.
  eexists. split; [done|]. unfold len in *. rewrite length_insert. split; [done|]. intros j. unfold peek.
  destruct (Z.eqb_spec j i) as [->|Hn].
  - rewrite (proj2 (Z.leb_le 0 i)) by lia. apply list_lookup_insert_eq. lia.
  - destruct (Z.leb_spec 0 j); [|done]. apply list_lookup_insert_ne. lia.
Qed.

Definition in_line (l : Line) (w channel i : Z) : Prop := exists x, 0 <= x < w /\ i = sample_index (first l + x) channel.

(** [o] is [o0] with the samples of the line before column [x] set to [value]. *)
Record painted (o0 : list byte) (w : Z) (l : Line) (channel : Z) (value : Z -> Z) (x : Z) (o : list byte) : Prop := {
  painted_len : len o = len o0;
  painted_value y : 0 <= y < x -> peek o (sample_index (first l + y) channel) = Some (byte_of (value y));
  painted_frame i : ~ in_line l w channel i -> peek o i = peek o0 i }.

Definition line_fits (o : list byte) (w : Z) (l : Line) (channel : Z) : Prop :=
  forall x, 0 <= x < w -> 0 <= sample_index (first l + x) channel < len o.

Lemma painted_start o w l channel value : painted o w l channel value 0 o.
Proof. split; [done|lia|done]. Qed.

Lemma sample_index_inj p q channel : sample_index p channel = sample_index q channel -> p = q.
Proof. unfold sample_index, bytes_per_pixel. lia. Qed.

Lemma set_painted o0 w l channel value x r o v :
  painted o0 w l channel value x o -> line_fits o0 w l channel -> 0 <= x < w -> byte_of v = byte_of (value x) ->
  wp (set_out (sample_index (first l + x) channel) (byte_of v)) (mkD r o)
    (fun res d => res = Ok tt /\ exists o', d = mkD r o' /\ painted o0 w l channel value (x + 1) o').
Proof.
  intros P F Hx Hv. unfold wp, set_out. cbn [out rd].
  destruct (poke_ok o (sample_index (first l + x) channel) (byte_of v)) as (o' & -> & Hl & Hp).
  { rewrite (painted_len _ _ _ _ _ _ _ P). by apply F. }
  exists (Ok tt), (mkD r o'). split_and!; [done|done|]. exists o'. split; [done|]. split.
  - rewrite Hl. apply P.
  - intros y Hy. rewrite Hp. destruct (Z.eqb_spec (sample_index (first l + y) channel) (sample_index (first l + x) channel)) as [E|E].
    + apply sample_index_inj in E. rewrite Hv. do 3 f_equal. lia.
    + apply P. destruct (decide (y = x)) as [->|]; [done|lia].
  - intros i Hi. rewrite Hp. destruct (Z.eqb_spec i (sample_index (first l + x) channel)) as [->|]; [|by apply P].
    destruct Hi. by exists x.
Qed.

(** ** One line of a run-length coded plane *)

Definition conv (l : Line) (s : Z) : Z := if scanline l =? 0 then s else wire_to_delta s.

Lemma conv_0 l : conv l 0 = 0.
Proof. unfold conv. by destruct (scanline l =? 0). Qed.

(** The values above the line: zero above the first one. *)
Definition above_ok (o : list byte) (w : Z) (l : Line) (channel : Z) (above : Z -> Z) : Prop :=
  (scanline l = 0 /\ forall x, above x = 0) \/
  (scanline l <> 0 /\ forall x, 0 <= x < w -> 0 <= above x < 256 /\
     peek o (sample_index (first_above l + x) channel) = Some (byte_of (above x)) /\
     ~ in_line l w channel (sample_index (first_above l + x) channel)).

Section RleLine.
Context (o0 : list byte) (w : Z) (l : Line) (channel : Z) (above : Z -> Z) (symbols : list Z).
Hypothesis fits : line_fits o0 w l channel.
Hypothesis above_it : above_ok o0 w l channel above.

Definition symbol_at (x : Z) : Z := default 0 (peek symbols x).
Definition value_at (x : Z) : Z := above x + conv l (symbol_at x).
Abbreviation painted_to := (painted o0 w l channel value_at).

Lemma store_painted x r o last :
  painted_to x o -> 0 <= x < w -> last = conv l (symbol_at x) ->
  wp (store l channel last x) (mkD r o) (fun res d => res = Ok tt /\ exists o', d = mkD r o' /\ painted_to (x + 1) o').
Proof.
  intros P Hx ->. unfold store. apply wp_bind. destruct above_it as [[H0 Ha]|[H0 Ha]].
  - rewrite H0. cbn [Z.eqb]. apply wp_ret. apply set_painted; [done|done|done|].
    apply byte_of_mod. unfold value_at, wrap. rewrite Ha. change (2 ^ 8) with 256. by rewrite Z.mod_mod.
  - destruct (Z.eqb_spec (scanline l) 0) as [|_]; [done|]. destruct (Ha x Hx) as (Hr & Hp & Hn).
    unfold load, wp at 1. cbn [out]. rewrite (painted_frame _ _ _ _ _ _ _ P _ Hn), Hp.
    eexists _, _. split; [done|]. cbv iota beta. apply set_painted; [done|done|done|].
    apply byte_of_mod. unfold value_at, wrap. rewrite u8_of_byte_of_small by lia. change (2 ^ 8) with 256. by rewrite Z.mod_mod.
Qed.

Lemma peek_drop_cons x v s : 0 <= x -> drop (Z.to_nat x) symbols = v :: s -> symbol_at x = v.
Proof.
  intros Hx E. unfold symbol_at, peek. rewrite (proj2 (Z.leb_le 0 x)) by done.
  pose proof (lookup_drop symbols (Z.to_nat x) 0) as H. rewrite E, Nat.add_0_r in H. cbn in H. by rewrite <- H.
Qed.

Lemma drop_next x v s : 0 <= x -> drop (Z.to_nat x) symbols = v :: s -> drop (Z.to_nat (x + 1)) symbols = s.
Proof.
  intros Hx E. replace (Z.to_nat (x + 1)) with (Z.to_nat x + 1)%nat by lia. by rewrite <- drop_drop, E.
Qed.

Lemma raw_painted raw s last x r o :
  drop (Z.to_nat x) symbols = raw ++ s -> Forall symbol raw -> 0 <= x -> x + len raw <= w -> painted_to x o ->
  wp (raw_values l channel (as_bytes raw) (conv l last) x) (mkD r o)
    (fun res d => res = Ok (conv l (last_of last raw), x + len raw) /\
       exists o', d = mkD r o' /\ painted_to (x + len raw) o').
Proof.
  revert last x o. induction raw as [|v raw IH]; intros last x o E Hs Hx Hw P; cbn [as_bytes fmap list_fmap raw_values].
  - rewrite Z.add_0_r. apply wp_ret. eauto.
  - apply Forall_cons in Hs as [Hv Hs]. rewrite len_cons in *. pose proof (len_nonneg raw).
    rewrite u8_of_byte_of_small by exact Hv. apply wp_bind.
    eapply wp_mono; [apply store_painted; [exact P|lia|by rewrite (peek_drop_cons _ _ _ Hx E)]|].
    intros res d (-> & o' & -> & P').
    eapply wp_mono; [apply (IH v); [by rewrite (drop_next _ _ _ Hx E)|done|lia|lia|exact P']|].
    intros res d (-> & o'' & -> & P''). replace (x + (1 + len raw)) with (x + 1 + len raw) by lia.
    split; [|eauto]. change (v :: raw) with ([v] ++ raw). by rewrite last_of_app.
Qed.

Lemma run_painted n v s x r o :
  drop (Z.to_nat x) symbols = replicate n v ++ s -> 0 <= x -> x + Z.of_nat n <= w -> painted_to x o ->
  wp (run_values n l channel (conv l v) x) (mkD r o)
    (fun res d => res = Ok (x + Z.of_nat n) /\ exists o', d = mkD r o' /\ painted_to (x + Z.of_nat n) o').
Proof.
  revert x o. induction n as [|n IH]; intros x o E Hx Hw P; cbn [run_values].
  - rewrite Z.add_0_r. apply wp_ret. eauto.
  - cbn [replicate app] in E. apply wp_bind.
    eapply wp_mono; [apply store_painted; [exact P|lia|by rewrite (peek_drop_cons _ _ _ Hx E)]|].
    intros res d (-> & o' & -> & P').
    eapply wp_mono; [apply IH; [by rewrite (drop_next _ _ _ Hx E)|lia|lia|exact P']|].
    intros res d (-> & o'' & -> & P''). replace (x + Z.of_nat (S n)) with (x + 1 + Z.of_nat n) by lia. eauto.
Qed.

Lemma wp_on_reader {A} (p : Dec A) a r r' o (Q : Result A -> D -> Prop) :
  p r = Ok (a, r') -> Q (Ok a) (mkD r' o) -> wp (on_reader p) (mkD r o) Q.
Proof. intros H HQ. unfold wp, on_reader. cbn. rewrite H. eauto. Qed.

Lemma segments_painted last e s k b fuel sn x o :
  codes last e s -> (length e < fuel)%nat ->
  drop (Z.to_nat x) symbols = s -> 0 <= x -> x + len s = w -> painted_to x o ->
  wp (segments fuel w l channel (conv l last) x) (mkD (Reader.mk sn (e ++ k) b) o)
    (fun res d => res = Ok tt /\ exists o', d = mkD (Reader.mk (sn ++ e) k b) o' /\ painted_to w o').
Proof.
  intros H. revert fuel sn x o. induction H as [last|last c raw n e s Hp Hr Hn _ IH]; intros fuel sn x o Hf E Hx Hw P.
  - rewrite len_nil, Z.add_0_r in Hw. subst x. destruct fuel; cbn [segments]; rewrite Z.ltb_irrefl, app_nil_r; apply wp_ret; eauto.
  - autorewrite with len in Hw. unfold len at 1 in Hw. pose proof (len_nonneg s).
    destruct fuel as [|fuel]; [cbn in Hf; lia|]. cbn [segments]. rewrite (proj2 (Z.ltb_lt x w)) by lia.
    apply wp_bind, wp_get. cbn [app]. apply wp_bind.
    eapply wp_on_reader; [apply u8_mk|]. cbv zeta. rewrite Hp. cbn [raw_count run].
    destruct (Z.ltb_spec (w - x) (len raw + Z.of_nat n)) as [Hl|_]; [unfold len in Hl; lia|].
    apply wp_bind. rewrite <- app_assoc. eapply wp_on_reader; [apply bytes_mk; unfold as_bytes, len; by rewrite length_fmap|].
    apply wp_bind. eapply wp_mono; [eapply raw_painted; [exact E|done|done|unfold len; lia|exact P]|].
    intros res d (-> & o' & -> & P'). cbv iota beta. apply wp_bind. rewrite Nat2Z.id.
    assert (drop (Z.to_nat (x + len raw)) symbols = replicate n (last_of last raw) ++ s) as E'.
    { replace (Z.to_nat (x + len raw)) with (Z.to_nat x + length raw)%nat by (unfold len; lia).
      by rewrite <- drop_drop, E, drop_app_length. }
    eapply wp_mono; [eapply run_painted; [exact E'|unfold len; lia|unfold len; lia|exact P']|].
    intros res d (-> & o'' & -> & P'').
    eapply wp_mono; [apply IH; [cbn in Hf; rewrite length_app in Hf; lia| |unfold len; lia|unfold len in *; lia|exact P'']|].
    + replace (Z.to_nat (x + len raw + Z.of_nat n)) with (Z.to_nat (x + len raw) + n)%nat by (unfold len; lia).
      rewrite <- drop_drop, E'. rewrite <- (length_replicate n (last_of last raw)) at 1. by rewrite drop_app_length.
    + intros res d (-> & o3 & -> & P3). split; [done|]. exists o3. split; [|done]. by rewrite <- !app_assoc.
Qed.
End RleLine.
End PlanarDecoder.
