(* ===== verification/PlanarRoundtrip.v ===== *)
(** * The planar codec: lossless, bounded and safe

    The encoder's planes and the decoder's output meet here: what is encoded is
    decoded to the same pixels, whatever the row order and the mode, and no
    stream makes the decoder leave its buffers.  No code is modelled here. *)

From S2P Require Import Prelude Buffers CodecLogic Machine Planar PlanarEncoder PlanarDecoder.
Open Scope Z_scope.

Module PlanarRoundtrip.
Import Planar PlanarEncoder PlanarDecoder.

(** ** Deltas *)

Lemma delta_symbol v a : symbol (delta_to_wire v a).
Proof.
  unfold symbol, delta_to_wire, wrap. change (2 ^ 8) with 256.
  destruct (_ <? _); apply Z.mod_pos_bound; lia.
Qed.

Lemma delta_undone v a : (a + wire_to_delta (delta_to_wire v a)) mod 256 = v mod 256.
Proof.
  unfold wire_to_delta. pose proof (delta_symbol v a) as Hs. unfold symbol in Hs.
  rewrite (land_low _ 1 1), Z.shiftr_div_pow2 by (done || lia). change (2 ^ 1) with 2.
  revert Hs. unfold delta_to_wire, wrap. change (2 ^ 8) with 256. rewrite !Z.shiftl_mul_pow2 by lia. change (2 ^ 1) with 2.
  assert (exists d q, v - a = 256 * q + d /\ 0 <= d < 256) as (d & q & Hd & Hr)
    by (exists ((v - a) mod 256), ((v - a) / 256); lia).
  replace ((v - a) mod 256) with d by lia.
  destruct (Z.ltb_spec d 0x80) as [H|H].
  - rewrite (Z.mod_small (d * 2)) by lia. intros _. replace ((d * 2) mod 2) with 0 by lia. cbn [Z.eqb].
    rewrite Z.div_mul, (Z.mod_small d) by lia. lia.
  - rewrite (Z.mod_small (_ - 1)) by lia. intros _.
    replace (((0x100 - d) * 2 - 1) mod 2) with 1 by lia. cbn [Z.eqb].
    replace (((0x100 - d) * 2 - 1) / 2) with (0xFF - d) by lia. lia.
Qed.

Lemma bind_some {A B} (x : A) (f : A -> option B) : (Some x ≫= f) = f x.
Proof. done. Qed.

Lemma subspan_ok l k n :
  0 <= k -> 0 <= n -> k + n <= len l ->
  exists s, subspan l k n = Some s /\ len s = n /\ forall i, 0 <= i < n -> peek s i = peek l (k + i).
Proof.
  intros Hk Hn Hl. unfold subspan.
  rewrite (proj2 (Z.leb_le 0 k)), (proj2 (Z.leb_le 0 n)), (proj2 (Z.leb_le (k + n) _)) by lia. cbn.
  eexists. split; [done|]. split; [autorewrite with len; lia|]. intros i Hi. unfold peek.
  rewrite (proj2 (Z.leb_le 0 i)), (proj2 (Z.leb_le 0 (k + i))) by lia.
  rewrite lookup_take_lt, lookup_drop by lia. f_equal. lia.
Qed.

Section Image.
Context (image : ImageView) (g : Geometry).
Hypothesis wide : 1 <= width g.
Hypothesis high : 1 <= height g.
Hypothesis rows_fit : forall s, 0 <= s < height g ->
  0 <= image_row g s * stride image /\ image_row g s * stride image + width g * 4 <= len (data image).

(** The sample of a channel, scanline and column, and the planes they make. *)
Definition sample (channel s x : Z) : Z :=
  u8_of (default Corelib.Init.Byte.x00 (peek (data image) (image_row g s * stride image + (x * 4 + channel)))).

Definition from (k n : nat) : list Z := Z.of_nat <$> seq k n.

Definition samples (channel s : Z) : list Z := sample channel s <$> from 0 (Z.to_nat (width g)).

Definition lines_from (channel : Z) (k n : nat) : Plane := concat (samples channel <$> from k n).
Definition plane (channel : Z) : Plane := lines_from channel 0 (Z.to_nat (height g)).

Lemma from_S k n : from k (S n) = Z.of_nat k :: from (S k) n.
Proof. done. Qed.

Lemma length_from k n : length (from k n) = n.
Proof. unfold from. by rewrite length_fmap, length_seq. Qed.

Lemma sample_symbol channel s x : symbol (sample channel s x).
Proof. apply u8_of_range. Qed.

Lemma samples_symbols channel s : Forall symbol (samples channel s).
Proof. unfold samples. apply Forall_fmap, Forall_true. intros x. apply sample_symbol. Qed.

Lemma length_samples channel s : length (samples channel s) = Z.to_nat (width g).
Proof. unfold samples. by rewrite length_fmap, length_from. Qed.

Lemma samples_at channel s x : 0 <= x < width g -> peek (samples channel s) x = Some (sample channel s x).
Proof.
  intros Hx. unfold peek, samples, from. rewrite (proj2 (Z.leb_le 0 x)) by lia.
  rewrite !list_lookup_fmap, lookup_seq_lt by lia. cbn. do 2 f_equal. lia.
Qed.

Lemma length_lines channel k n : length (lines_from channel k n) = (n * Z.to_nat (width g))%nat.
Proof.
  unfold lines_from. revert k. induction n as [|n IH]; intros k; [done|].
  rewrite from_S. cbn [fmap list_fmap concat]. rewrite length_app, length_samples. unfold fmap in IH. rewrite IH. lia.
Qed.

(** ** The encoder's planes *)

Definition planes : Planes := mkPlanes (plane offset_r) (plane offset_g) (plane offset_b).

Lemma split_row_spec row s k n p :
  0 <= s < height g -> (k + n = Z.to_nat (width g))%nat ->
  subspan (data image) (image_row g s * stride image) (width g * bytes_per_pixel) = Some row ->
  split_row n row (Z.of_nat k) p = Some (mkPlanes (reds p ++ (sample offset_r s <$> from k n))
    (greens p ++ (sample offset_g s <$> from k n)) (blues p ++ (sample offset_b s <$> from k n))).
Proof.
  intros Hs. destruct (rows_fit s Hs) as [Hk Hl]. unfold bytes_per_pixel.
  destruct (subspan_ok (data image) (image_row g s * stride image) (width g * 4)) as (row' & -> & Hr & Hp); [lia..|].
  revert k p. induction n as [|n IH]; intros k p E; [intros _; cbn; by rewrite !app_nil_r; destruct p|].
  intros [= <-]. cbn [split_row]. unfold bytes_per_pixel.
  destruct (subspan_ok row' (Z.of_nat k * 4) 4) as (pixel & -> & Hx & Hq); [lia..|]. rewrite ?bind_some.
  assert (forall c, 0 <= c < 4 -> exists b, peek pixel c = Some b /\ u8_of b = sample c s (Z.of_nat k)) as Hc.
  { intros c Hc. destruct (peek_lt pixel c ltac:(lia)) as (b & Hb). exists b. split; [done|].
    unfold sample. rewrite <- Hp, <- Hq, Hb by lia. done. }
  destruct (Hc offset_r) as (r & -> & Er); [done|]. destruct (Hc offset_g) as (gr & -> & Eg); [done|].
  destruct (Hc offset_b) as (b & -> & Eb); [done|]. rewrite ?bind_some.
  replace (Z.of_nat k + 1) with (Z.of_nat (S k)) by lia. rewrite IH by (done || lia).
  cbn [reds greens blues]. rewrite Er, Eg, Eb, from_S. cbn [fmap list_fmap]. by rewrite <- !app_assoc.
Qed.

Lemma split_rows_spec k n p :
  (k + n = Z.to_nat (height g))%nat ->
  split_rows n image g (Z.of_nat k) p = Some (mkPlanes (reds p ++ lines_from offset_r k n)
    (greens p ++ lines_from offset_g k n) (blues p ++ lines_from offset_b k n)).
Proof.
  revert k p. induction n as [|n IH]; intros k p E; [cbn; by rewrite !app_nil_r; destruct p|].
  cbn [split_rows].
  destruct (rows_fit (Z.of_nat k) ltac:(lia)) as [Hk Hl].
  destruct (subspan_ok (data image) (image_row g (Z.of_nat k) * stride image) (width g * 4)) as (row & Hr & _ & _); [lia..|].
  change (width g * bytes_per_pixel) with (width g * 4). rewrite Hr. rewrite ?bind_some.
  pose proof (split_row_spec row (Z.of_nat k) 0 (Z.to_nat (width g)) p ltac:(lia) eq_refl Hr) as Hs.
  change (Z.of_nat 0) with 0 in Hs. rewrite Hs. rewrite ?bind_some.
  replace (Z.of_nat k + 1) with (Z.of_nat (S k)) by lia. rewrite IH by lia. cbn [reds greens blues].
  unfold lines_from. rewrite from_S. cbn [fmap list_fmap concat]. by rewrite <- !app_assoc.
Qed.

Lemma split_planes_spec : split_planes image g = Some planes.
Proof. exact (split_rows_spec 0 (Z.to_nat (height g)) (mkPlanes [] [] []) eq_refl). Qed.

(** ** What the encoder writes *)

Definition line_symbols (channel : Z) (k : nat) : list Z :=
  match k with
  | O => samples channel 0
  | S k' => zip_with delta_to_wire (samples channel (Z.of_nat k)) (samples channel (Z.of_nat k'))
  end.

Lemma length_line_symbols channel k : length (line_symbols channel k) = Z.to_nat (width g).
Proof. destruct k; cbn [line_symbols]; rewrite ?length_zip_with, !length_samples; lia. Qed.

Lemma line_symbols_ok channel k : Forall symbol (line_symbols channel k).
Proof.
  destruct k; cbn [line_symbols]; [apply samples_symbols|].
  apply Forall_lookup. intros i v Hv. apply lookup_zip_with_Some in Hv as (a & b & -> & _). apply delta_symbol.
Qed.

Lemma sub_lines channel k n i :
  (i < n)%nat -> sub (lines_from channel k n) (Z.of_nat i * width g) (width g) = samples channel (Z.of_nat (k + i)).
Proof.
  intros Hi. unfold sub. rewrite Z2Nat.inj_mul, Nat2Z.id by lia. revert k i Hi.
  induction n as [|n IH]; intros k i Hi; [lia|].
  unfold lines_from. rewrite from_S. cbn [fmap list_fmap concat].
  pose proof (length_samples channel (Z.of_nat k)) as Hl. destruct i as [|i].
  - rewrite Nat.mul_0_l, drop_0, Nat.add_0_r, <- Hl. apply take_app_length.
  - replace (S i * Z.to_nat (width g))%nat with (length (samples channel (Z.of_nat k)) + i * Z.to_nat (width g))%nat by lia.
    rewrite <- drop_drop, drop_app_length. rewrite <- Nat.add_succ_comm. apply (IH (S k)). lia.
Qed.

Lemma sub_plane channel k :
  (k < Z.to_nat (height g))%nat -> sub (plane channel) (Z.of_nat k * width g) (width g) = samples channel (Z.of_nat k).
Proof. intros H. by apply sub_lines. Qed.

(** The bytes of the scanlines [k], [k + 1], ..., [n] of them. *)
Inductive lines_coded (channel : Z) : nat -> nat -> list byte -> Prop :=
  | lines_end k : lines_coded channel k 0 []
  | lines_next k n e e' :
      codes 0 e (line_symbols channel k) -> lines_coded channel (S k) n e' -> lines_coded channel k (S n) (e ++ e').

Lemma write_lines_coded channel k n :
  (k + n = Z.to_nat (height g))%nat ->
  exists e, writes (write_lines n (plane channel) g (Z.of_nat k)) e /\ lines_coded channel k n e.
Proof.
  revert k. induction n as [|n IH]; intros k E; cbn [write_lines]; [exists []; split; [apply writes_ret|constructor]|].
  destruct (IH (S k) ltac:(lia)) as (e' & W' & C').
  destruct (scanline_coded _ (line_symbols_ok channel k)) as (e & W & C).
  exists (e ++ e'). split; [|by constructor].
  replace (Z.of_nat k + 1) with (Z.of_nat (S k)) by lia. apply writes_seq; [|done].
  rewrite sub_plane by lia. destruct k as [|k]; [done|].
  destruct (Z.eqb_spec (Z.of_nat (S k)) 0) as [|_]; [lia|].
  replace (Z.of_nat (S k) - 1) with (Z.of_nat k) by lia. by rewrite sub_plane by lia.
Qed.

(** The bytes of a plane, run-length coded or raw, and of several planes. *)
Definition plane_bytes (rle : bool) (channel : Z) (e : list byte) : Prop :=
  if rle then lines_coded channel 0 (Z.to_nat (height g)) e else e = as_bytes (plane channel).

Inductive planes_coded (rle : bool) : list Z -> list byte -> Prop :=
  | planes_end : planes_coded rle [] []
  | planes_next channel channels e e' :
      plane_bytes rle channel e -> planes_coded rle channels e' -> planes_coded rle (channel :: channels) (e ++ e').

Lemma write_planes_coded channels :
  exists e, writes (write_planes (plane <$> channels) g) e /\ planes_coded true channels e.
Proof.
  induction channels as [|channel channels (e' & W' & C')]; [exists []; split; [apply writes_ret|constructor]|].
  destruct (write_lines_coded channel 0 (Z.to_nat (height g)) eq_refl) as (e & W & C).
  exists (e ++ e'). split; [by apply writes_seq|by constructor].
Qed.

Lemma raw_planes_coded channels : planes_coded false channels (as_bytes (concat (plane <$> channels))).
Proof.
  induction channels as [|channel channels IH]; [constructor|].
  unfold as_bytes. cbn [fmap list_fmap concat]. rewrite fmap_app. by constructor.
Qed.

Definition colours : list Z := [offset_r; offset_g; offset_b].

Lemma encode_rle_coded :
  exists e, encode_rle planes g = Some (byte_of (Z.lor header_na header_rle) :: e) /\ planes_coded true colours e.
Proof.
  destruct (write_planes_coded colours) as (e & W & C). exists e. split; [|done].
  unfold encode_rle. apply writes_run. apply (writes_seq _ _ [_]); [apply writes_bytes|exact W].
Qed.

Lemma copy_planes_spec ps z :
  copy_planes ps (replicate (length (concat ps) + z) Corelib.Init.Byte.x00) =
    Some (as_bytes (concat ps) ++ replicate z Corelib.Init.Byte.x00).
Proof.
  induction ps as [|p ps IH]; [done|]. cbn [copy_planes concat]. rewrite length_app, len_replicate.
  destruct (Z.leb_spec (len p) (Z.of_nat (length p + length (concat ps) + z))) as [_|H]; [|unfold len in H; lia].
  rewrite drop_replicate. replace (length p + length (concat ps) + z - length p)%nat with (length (concat ps) + z)%nat by lia.
  rewrite IH, bind_some. unfold as_bytes. by rewrite fmap_app, <- app_assoc.
Qed.

Lemma encode_raw_spec :
  encode_raw planes g = Some (byte_of header_na :: as_bytes (concat (plane <$> colours)) ++ [Corelib.Init.Byte.x00]).
Proof.
  unfold encode_raw. rewrite drop_replicate.
  assert (Z.to_nat (raw_stream_size g) - 1 = length (concat (planes_list planes)) + 1)%nat as ->.
  { cbn. rewrite app_nil_r, !length_app. unfold plane. rewrite !length_lines.
    unfold raw_stream_size, pixels. nia. }
  by rewrite copy_planes_spec, bind_some.
Qed.
(** ** What the decoder makes of it *)

Lemma image_row_range s : 0 <= s < height g -> 0 <= image_row g s < height g.
Proof. unfold image_row. destruct (orientation g); lia. Qed.

Lemma image_row_inj s s' : image_row g s = image_row g s' -> s = s'.
Proof. unfold image_row. destruct (orientation g); lia. Qed.

Lemma image_row_involutive s : image_row g (image_row g s) = s.
Proof. unfold image_row. destruct (orientation g); lia. Qed.

Lemma pixel_inj r x r' x' :
  0 <= x < width g -> 0 <= x' < width g -> r * width g + x = r' * width g + x' -> r = r' /\ x = x'.
Proof.
  intros Hx Hx' E. destruct (Z.lt_trichotomy r r') as [|[->|]]; [nia|lia|nia].
Qed.

Lemma sample_index_range s x channel :
  0 <= s < height g -> 0 <= x < width g -> 0 <= channel < 4 ->
  0 <= sample_index (image_row g s * width g + x) channel < pixels g * 4.
Proof.
  intros Hs Hx Hc. pose proof (image_row_range s Hs). unfold sample_index, bytes_per_pixel, pixels. nia.
Qed.

(** [o] is [o0] with the scanlines of one channel before [n] decoded. *)
Record decoded (o0 : list byte) (channel n : Z) (o : list byte) : Prop := {
  decoded_len : len o = len o0;
  decoded_value s x : 0 <= s < n -> 0 <= x < width g ->
    peek o (sample_index (image_row g s * width g + x) channel) = Some (byte_of (sample channel s x));
  decoded_frame p c : 0 <= c < 4 -> c <> channel -> peek o (sample_index p c) = peek o0 (sample_index p c) }.

Lemma decoded_start o channel : decoded o channel 0 o.
Proof. split; [done|lia|done]. Qed.

Lemma decoded_line o0 channel s value o o' :
  decoded o0 channel s o -> 0 <= s < height g -> 0 <= channel < 4 ->
  painted o (width g) (line_of g s) channel value (width g) o' ->
  (forall x, 0 <= x < width g -> byte_of (value x) = byte_of (sample channel s x)) ->
  decoded o0 channel (s + 1) o'.
Proof.
  intros [Dl Dv Df] Hs Hc [Pl Pv Pf] Hv. split; [congruence|..].
  - intros s' x Hs' Hx. destruct (decide (s' = s)) as [->|Hne].
    + rewrite <- Hv by done. by apply Pv.
    + rewrite Pf; [apply Dv; lia|]. intros (x' & Hx' & E). apply sample_index_inj, pixel_inj in E as [E _]; [|done|done].
      by apply image_row_inj in E.
  - intros p c Hc' Hn. rewrite Pf; [by apply Df|]. intros (x' & _ & E). apply Hn.
    unfold sample_index, bytes_per_pixel in E. lia.
Qed.

Lemma line_fits_output o s channel :
  len o = pixels g * 4 -> 0 <= s < height g -> 0 <= channel < 4 -> line_fits o (width g) (line_of g s) channel.
Proof. intros Hl Hs Hc x Hx. rewrite Hl. by apply sample_index_range. Qed.

Definition above_of (channel s x : Z) : Z := if s =? 0 then 0 else sample channel (s - 1) x.

Lemma above_of_ok o0 channel s o :
  decoded o0 channel s o -> 0 <= s < height g -> above_ok o (width g) (line_of g s) channel (above_of channel s).
Proof.
  intros D Hs. unfold above_ok, above_of. cbn [line_of scanline first_above].
  destruct (Z.eqb_spec s 0) as [->|H0]; [by left|right]. split; [done|]. intros x Hx.
  split_and!; [apply u8_of_range..|apply D; lia|].
  intros (x' & Hx' & E). cbn [first line_of] in E. apply sample_index_inj, pixel_inj in E as [E _]; [|done|done].
  apply image_row_inj in E. lia.
Qed.

Lemma value_of_symbol channel k x :
  0 <= x < width g ->
  byte_of (value_at (line_of g (Z.of_nat k)) (above_of channel (Z.of_nat k)) (line_symbols channel k) x) =
  byte_of (sample channel (Z.of_nat k) x).
Proof.
  intros Hx. unfold value_at, symbol_at, above_of, conv. cbn [line_of scanline]. destruct k as [|k].
  - cbn [line_symbols Z.of_nat Z.eqb]. by rewrite samples_at.
  - destruct (Z.eqb_spec (Z.of_nat (S k)) 0) as [|_]; [lia|]. replace (Z.of_nat (S k) - 1) with (Z.of_nat k) by lia.
    assert (peek (line_symbols channel (S k)) x =
      Some (delta_to_wire (sample channel (Z.of_nat (S k)) x) (sample channel (Z.of_nat k) x))) as ->.
    { pose proof (samples_at channel (Z.of_nat (S k)) x Hx) as H1. pose proof (samples_at channel (Z.of_nat k) x Hx) as H2.
      unfold peek in *. rewrite (proj2 (Z.leb_le 0 x)) in * by lia. cbn [line_symbols]. by rewrite lookup_zip_with, H1, H2. }
    apply byte_of_mod. apply delta_undone.
Qed.

Lemma rle_line_decoded o0 channel k e s b rest o :
  codes 0 e (line_symbols channel k) -> (k < Z.to_nat (height g))%nat -> 0 <= channel < 4 -> len o0 = pixels g * 4 ->
  decoded o0 channel (Z.of_nat k) o ->
  wp (rle_line g channel (Z.of_nat k)) (mkD (Reader.mk s (e ++ rest) b) o)
    (fun res d => res = Ok tt /\ exists o', d = mkD (Reader.mk (s ++ e) rest b) o' /\ decoded o0 channel (Z.of_nat k + 1) o').
Proof.
  intros C Hk Hc Hl D. unfold rle_line. apply wp_bind, wp_get. cbn [rd Reader.rest].
  pose proof (above_of_ok o0 channel (Z.of_nat k) o D ltac:(lia)) as Ha.
  assert (line_fits o (width g) (line_of g (Z.of_nat k)) channel) as Hf
    by (apply line_fits_output; [rewrite (decoded_len _ _ _ _ D)|lia|]; done).
  rewrite <- (conv_0 (line_of g (Z.of_nat k))) at 1.
  eapply wp_mono; [eapply segments_painted; [exact Hf|exact Ha|exact C| |done|done| |apply painted_start]|].
  - rewrite length_app. lia.
  - unfold len. rewrite length_line_symbols. lia.
  - intros res d (-> & o' & -> & P). split; [done|]. exists o'. split; [done|].
    eapply decoded_line; [exact D|lia|done|exact P|]. intros x Hx. by apply value_of_symbol.
Qed.

Lemma rle_lines_decoded o0 channel k n e s b rest o :
  lines_coded channel k n e -> (k + n = Z.to_nat (height g))%nat -> 0 <= channel < 4 -> len o0 = pixels g * 4 ->
  decoded o0 channel (Z.of_nat k) o ->
  wp (rle_lines n g channel (Z.of_nat k)) (mkD (Reader.mk s (e ++ rest) b) o)
    (fun res d => res = Ok tt /\ exists o', d = mkD (Reader.mk (s ++ e) rest b) o' /\ decoded o0 channel (height g) o').
Proof.
  intros C. revert s o. induction C as [k|k n e e' C _ IH]; intros s o E Hc Hl D; cbn [rle_lines].
  - apply wp_ret. rewrite app_nil_r. replace (Z.of_nat k) with (height g) in D by lia. eauto.
  - rewrite <- app_assoc. apply wp_bind. eapply wp_mono; [eapply rle_line_decoded; [exact C|lia|done|done|exact D]|].
    intros res d (-> & o' & -> & D'). replace (Z.of_nat k + 1) with (Z.of_nat (S k)) in * by lia.
    rewrite app_assoc. apply IH; [lia|done..].
Qed.

Lemma raw_columns_painted o0 w l channel values xs r o x :
  painted o0 w l channel values x o -> line_fits o0 w l channel -> 0 <= x -> x + len xs <= w ->
  (forall i v, xs !! i = Some v -> byte_of (values (x + Z.of_nat i)) = v) ->
  wp (raw_columns (first l) x channel xs) (mkD r o)
    (fun res d => res = Ok tt /\ exists o', d = mkD r o' /\ painted o0 w l channel values (x + len xs) o').
Proof.
  revert x o. induction xs as [|v xs IH]; intros x o P F Hx Hw Hv; cbn [raw_columns].
  - apply wp_ret. rewrite Z.add_0_r. eauto.
  - rewrite len_cons in *. pose proof (len_nonneg xs). apply wp_bind. rewrite <- (byte_of_u8_of v).
    eapply wp_mono; [eapply set_painted; [exact P|done|lia|]|].
    + rewrite byte_of_u8_of, <- (Hv 0%nat v eq_refl). f_equal. f_equal. lia.
    + intros res d (-> & o' & -> & P'). replace (x + (1 + len xs)) with (x + 1 + len xs) by lia.
      apply IH; [done|done|lia|lia|]. intros i u Hi. rewrite <- (Hv (S i) u Hi). do 2 f_equal. lia.
Qed.

Lemma raw_lines_decoded o0 channel k n s b rest o :
  (k + n = Z.to_nat (height g))%nat -> 0 <= channel < 4 -> len o0 = pixels g * 4 ->
  decoded o0 channel (Z.of_nat k) o ->
  wp (raw_lines n g channel (Z.of_nat k)) (mkD (Reader.mk s (as_bytes (lines_from channel k n) ++ rest) b) o)
    (fun res d => res = Ok tt /\ exists o',
       d = mkD (Reader.mk (s ++ as_bytes (lines_from channel k n)) rest b) o' /\ decoded o0 channel (height g) o').
Proof.
  revert k s o. induction n as [|n IH]; intros k s o E Hc Hl D; cbn [raw_lines].
  - apply wp_ret. cbn. rewrite app_nil_r. replace (Z.of_nat k) with (height g) in D by lia. eauto.
  - assert (lines_from channel k (S n) = samples channel (Z.of_nat k) ++ lines_from channel (S k) n) as -> by done.
    unfold as_bytes. rewrite fmap_app, <- app_assoc. apply wp_bind.
    eapply wp_on_reader; [apply bytes_mk; unfold len; rewrite length_fmap, length_samples; lia|].
    cbv zeta. apply wp_bind. change (image_row g (Z.of_nat k) * width g) with (first (line_of g (Z.of_nat k))).
    eapply wp_mono; [eapply (raw_columns_painted o (width g) _ channel (sample channel (Z.of_nat k)));
      [apply painted_start| |done| |]|].
    + apply line_fits_output; [rewrite (decoded_len _ _ _ _ D)|lia|]; done.
    + unfold len. rewrite length_fmap, length_samples. lia.
    + intros i v. rewrite list_lookup_fmap. intros (u & Hu & ->)%fmap_Some. f_equal.
      pose proof (lookup_lt_Some _ _ _ Hu) as Hi. rewrite length_samples in Hi.
      pose proof (samples_at channel (Z.of_nat k) (Z.of_nat i) ltac:(lia)) as Hs. unfold peek in Hs.
      rewrite (proj2 (Z.leb_le 0 _)), Nat2Z.id in Hs by lia. rewrite Z.add_0_l. congruence.
    + intros res d (-> & o' & -> & P). rewrite Z.add_0_l in P.
      assert (len (byte_of <$> samples channel (Z.of_nat k)) = width g) as Ew
        by (unfold len; rewrite length_fmap, length_samples; lia).
      rewrite Ew in P. replace (Z.of_nat k + 1) with (Z.of_nat (S k)) by lia. rewrite app_assoc.
      apply IH; [lia|done|done|]. replace (Z.of_nat (S k)) with (Z.of_nat k + 1) by lia.
      eapply decoded_line; [exact D|lia|done|exact P|done].
Qed.
Lemma plane_decoded (rle : bool) channel e s b rest o :
  plane_bytes rle channel e -> 0 <= channel < 4 -> len o = pixels g * 4 ->
  wp (if rle then decode_rle_plane g channel else decode_raw_plane g channel) (mkD (Reader.mk s (e ++ rest) b) o)
    (fun res d => res = Ok tt /\ exists o', d = mkD (Reader.mk (s ++ e) rest b) o' /\ decoded o channel (height g) o').
Proof.
  intros C Hc Hl. destruct rle.
  - apply (rle_lines_decoded o channel 0); [exact C|done|done|done|apply decoded_start].
  - cbn in C. subst e. apply (raw_lines_decoded o channel 0); [done|done|done|apply decoded_start].
Qed.

(** [o'] shows the samples of some channels and is [o] in the others. *)
Record shown (o : list byte) (channels : list Z) (o' : list byte) : Prop := {
  shown_len : len o' = len o;
  shown_value c s x : c ∈ channels -> 0 <= s < height g -> 0 <= x < width g ->
    peek o' (sample_index (image_row g s * width g + x) c) = Some (byte_of (sample c s x));
  shown_frame c p : 0 <= c < 4 -> ~ (c ∈ channels) -> peek o' (sample_index p c) = peek o (sample_index p c) }.

Lemma planes_decoded (rle : bool) channels e s b rest o :
  planes_coded rle channels e -> NoDup channels -> Forall (fun c => 0 <= c < 4) channels -> len o = pixels g * 4 ->
  wp (decode_planes channels rle g) (mkD (Reader.mk s (e ++ rest) b) o)
    (fun res d => res = Ok tt /\ exists o', d = mkD (Reader.mk (s ++ e) rest b) o' /\ shown o channels o').
Proof.
  intros C. revert s o. induction C as [|channel channels e e' C _ IH]; intros s o Hn Hc Hl; cbn [decode_planes].
  - apply wp_ret. rewrite app_nil_r. split; [done|]. exists o. split; [done|]. split; [done| |done].
    intros c s' x Hin. by apply elem_of_nil in Hin.
  - apply NoDup_cons in Hn as [Hn Hd]. apply Forall_cons in Hc as [Hc Hcs].
    rewrite <- app_assoc. apply wp_bind. eapply wp_mono; [by apply plane_decoded|].
    intros res d (-> & o' & -> & [Dl Dv Df]). rewrite app_assoc.
    eapply wp_mono; [apply IH; [done|done|congruence]|].
    intros res d (-> & o'' & -> & [Sl Sv Sf]). split; [done|]. exists o''. split; [done|]. split; [congruence|..].
    + intros c s' x Hin Hs Hx. destruct (decide (c ∈ channels)) as [Hi|Hi]; [by apply Sv|].
      apply elem_of_cons in Hin as [->|?]; [|done]. rewrite Sf by done. by apply Dv.
    + intros c p Hc' Hi. apply not_elem_of_cons in Hi as [Hne Hi]. rewrite Sf by done. by apply Df.
Qed.

Lemma opaque_shown n p r o :
  len o = pixels g * 4 -> 0 <= p -> p + Z.of_nat n = pixels g ->
  wp (opaque n p) (mkD r o) (fun res d => res = Ok tt /\ exists o', d = mkD r o' /\ len o' = len o /\
    (forall q, p <= q < pixels g -> peek o' (sample_index q offset_a) = Some (byte_of 0xFF)) /\
    (forall q c, 0 <= c < 4 -> c <> offset_a \/ q < p -> peek o' (sample_index q c) = peek o (sample_index q c))).
Proof.
  unfold offset_a. revert p o. induction n as [|n IH]; intros p o Hl Hp Hn; cbn [opaque].
  - apply wp_ret. split; [done|]. exists o. split_and!; [done|done|lia|done].
  - apply wp_bind. unfold set_out, wp at 1. cbn [out rd].
    destruct (poke_ok o (sample_index p offset_a) (byte_of 0xFF)) as (o' & -> & Hl' & Hp').
    { unfold sample_index, bytes_per_pixel, offset_a. lia. }
    eexists _, _. split; [done|]. eapply wp_mono; [apply IH; [congruence|lia|lia]|].
    intros res d (-> & o'' & -> & Hl'' & Ha & Hf). split; [done|]. exists o''. split_and!; [done|congruence|..].
    + intros q Hq. destruct (decide (q = p)) as [->|]; [|apply Ha; lia].
      rewrite Hf by lia. rewrite Hp'. unfold offset_a. by rewrite Z.eqb_refl.
    + intros q c Hc H. rewrite Hf by lia. rewrite Hp'.
      destruct (Z.eqb_spec (sample_index q c) (sample_index p offset_a)) as [E|]; [|done].
      unfold sample_index, bytes_per_pixel, offset_a in E. lia.
Qed.

(** The picture as the decoder leaves it. *)
Definition picture (o : list byte) : Prop :=
  len o = pixels g * 4 /\
  forall s x c, 0 <= s < height g -> 0 <= x < width g -> 0 <= c < 4 ->
    peek o (sample_index (image_row g s * width g + x) c) = Some (if c =? 3 then byte_of 0xFF else byte_of (sample c s x)).

Lemma pad_mk s x b : ReaderOps.bytes 1 (Reader.mk s [x] b) = Ok ([x], Reader.mk (s ++ [x]) [] b).
Proof. exact (bytes_mk 1 s [x] [] b eq_refl). Qed.

Lemma stream_decoded (rle : bool) e pad o :
  planes_coded rle colours e -> (pad = [] \/ (rle = false /\ pad = [Corelib.Init.Byte.x00])) -> len o = pixels g * 4 ->
  wp (decode_stream g) (mkD (Reader.make (byte_of (if rle then Z.lor header_na header_rle else header_na) :: e ++ pad) 0) o)
    (fun res d => res = Ok tt /\ picture (out d)).
Proof.
  intros C Hpad Hl. unfold decode_stream. apply wp_bind. eapply wp_on_reader; [apply u8_mk|]. cbv zeta.
  set (header := if rle then _ else _).
  assert (has_bits (u8_of (byte_of header)) header_cll_mask = false /\ has_bits (u8_of (byte_of header)) header_cs = false /\
    has_bits (u8_of (byte_of header)) header_rle = rle /\ has_bits (u8_of (byte_of header)) header_na = true) as (-> & -> & -> & ->)
    by (by destruct rle).
  cbn [negb drop plane_channels]. apply wp_bind. cbn [app].
  eapply wp_mono; [apply planes_decoded; [exact C| | |done]|].
  { apply (bool_decide_unpack _). by vm_compute. }
  { apply (bool_decide_unpack _). by vm_compute. }
  intros res d (-> & o' & -> & [Sl Sv Sf]). apply wp_bind. pose proof wide. pose proof high.
  eapply wp_mono; [apply opaque_shown; [congruence|done|unfold pixels; nia]|].
  intros res d (-> & o'' & -> & Hl'' & Ha & Hf). apply wp_bind, wp_get. cbn [rd]. rewrite remaining_mk.
  assert (picture o'') as Hpic.
  { split; [congruence|]. intros s x c Hs Hx Hc. destruct (Z.eqb_spec c 3) as [->|Hne].
    - apply Ha. pose proof (image_row_range s Hs). unfold pixels. nia.
    - rewrite Hf by (done || (left; exact Hne)). apply Sv; [|done|done].
      assert (c = offset_r \/ c = offset_g \/ c = offset_b) as [-> | [-> | ->]] by (unfold offset_r, offset_g, offset_b; lia);
        apply (bool_decide_unpack _); by vm_compute. }
  destruct Hpad as [-> | [-> ->]].
  - rewrite len_nil. cbn [Z.eqb]. rewrite andb_false_r. apply wp_bind, wp_ret.
    eapply wp_on_reader; [unfold ReaderOps.expect_end; by rewrite empty_mk|done].
  - change (len [_] =? 1) with true. cbn [negb andb]. apply wp_bind.
    eapply wp_on_reader; [unfold ReaderOps.skip, dbind; by rewrite pad_mk|].
    eapply wp_on_reader; [unfold ReaderOps.expect_end; by rewrite empty_mk|done].
Qed.
End Image.

(** ** The codec *)

Lemma image_ok_fits image o :
  image_ok image = true ->
  let g := mkGeometry (view_width image) (view_height image) o in
  1 <= width g <= max_dimension /\ 1 <= height g <= max_dimension /\
  forall s, 0 <= s < height g ->
    0 <= image_row g s * stride image /\ image_row g s * stride image + width g * 4 <= len (data image).
Proof.
  unfold image_ok, bytes_per_pixel. intros H. bools. cbn [width height]. split_and!; try lia.
  intros s Hs. assert (0 <= image_row (mkGeometry (view_width image) (view_height image) o) s < view_height image) as Hr
    by (unfold image_row; cbn; destruct o; lia).
  remember (image_row _ s) as r eqn:Er.
  assert (r <= (len (data image) - view_width image * 4) / stride image) as Hd by lia.
  assert (r * stride image <= len (data image) - view_width image * 4); [|nia].
  pose proof (Z.mul_div_le (len (data image) - view_width image * 4) (stride image) ltac:(lia)). nia.
Qed.

Lemma length_planes image g :
  1 <= width g -> 1 <= height g -> len (concat (plane image g <$> colours)) = 3 * pixels g.
Proof.
  intros Hw Hh. cbn. unfold len. rewrite app_nil_r, !length_app. unfold plane. rewrite !length_lines by done.
  unfold pixels. nia.
Qed.

(** Whatever mode: the stream is one of the two kinds, and never longer than raw in automatic mode. *)
Lemma encode_streams image options :
  image_ok image = true ->
  let g := mkGeometry (view_width image) (view_height image) (option_orientation options) in
  exists (rle : bool) e pad, planes_coded image g rle colours e /\
    (pad = [] \/ (rle = false /\ pad = [Corelib.Init.Byte.x00])) /\
    encode image options = Some (byte_of (if rle then Z.lor header_na header_rle else header_na) :: e ++ pad) /\
    (mode options = mode_automatic -> 1 + len e + len pad <= raw_stream_size g).
Proof.
  intros Hok g. destruct (image_ok_fits image (option_orientation options) Hok) as ([Hw _] & [Hh _] & Hf).
  destruct (encode_rle_coded image g Hw Hh) as (e & Er & C).
  pose proof (encode_raw_spec image g Hw Hh) as Ea. pose proof (length_planes image g Hw Hh) as Hl.
  pose proof (raw_planes_coded image g colours) as Ca.
  assert (len (as_bytes (concat (plane image g <$> colours))) = 3 * pixels g) as Hb
    by (unfold len, as_bytes; rewrite length_fmap; exact Hl).
  unfold encode. rewrite Hok. cbv zeta. fold g. rewrite (split_planes_spec image g Hw Hh Hf), bind_some.
  destruct (mode options).
  - exists false, (as_bytes (concat (plane image g <$> colours))), [Corelib.Init.Byte.x00]. split_and!; [done|by right|done|done].
  - exists true, e, []. rewrite app_nil_r. split_and!; [done|by left|done|done].
  - rewrite Er, bind_some. destruct (Z.ltb_spec (raw_stream_size g) (len (byte_of (Z.lor header_na header_rle) :: e))) as [H|H].
    + exists false, (as_bytes (concat (plane image g <$> colours))), [Corelib.Init.Byte.x00].
      split_and!; [done|by right|done|]. intros _. unfold raw_stream_size. len_lia.
    + exists true, e, []. rewrite app_nil_r. split_and!; [done|by left|done|]. intros _. rewrite len_cons, len_nil in *. lia.
Qed.

(** C26: the planar codec is lossless.  An image that [encode] accepts is encoded
    without an assertion, in automatic mode in no more bytes than the raw planes
    take, and for every mode and row order [decode] with the same dimensions
    fills any buffer of the right size, whatever it held, with the blue, green
    and red bytes of every pixel of the image and an opaque alpha byte. *)
Theorem planar_roundtrip image options buffer :
  image_ok image = true ->
  len buffer = view_width image * view_height image * 4 ->
  exists e picture,
    encode image options = Some e /\
    (mode options = mode_automatic -> len e <= 2 + 3 * (view_width image * view_height image)) /\
    decode e (view_width image) (view_height image) (option_orientation options) buffer = Some (Ok tt, picture) /\
    len picture = len buffer /\
    forall x y c, 0 <= x < view_width image -> 0 <= y < view_height image -> 0 <= c < 4 ->
      peek picture ((y * view_width image + x) * 4 + c) =
        if c =? 3 then Some (byte_of 0xFF) else peek (data image) (y * stride image + x * 4 + c).
Proof.
  intros Hok Hl.
  destruct (image_ok_fits image (option_orientation options) Hok) as (Hw & Hh & Hf).
  destruct (encode_streams image options Hok) as (rle & e & pad & C & Hp & E & Hs).
  set (g := mkGeometry _ _ _) in *. unfold max_dimension in *.
  destruct (stream_decoded image g ltac:(lia) ltac:(lia) rle e pad buffer C Hp Hl) as (r & d & Hd & -> & [Hpl Hpv]).
  eexists _, (out d). split; [exact E|]. split; [intros Hm; specialize (Hs Hm); unfold raw_stream_size, pixels in Hs; cbn in Hs; len_lia|].
  split; [|split; [by rewrite Hpl, Hl|]].
  - unfold decode, max_dimension. cbn in Hw, Hh.
    destruct (Z.eqb_spec (view_width image) 0), (Z.eqb_spec (view_height image) 0); try lia. cbn [orb].
    destruct (Z.ltb_spec 8192 (view_width image)), (Z.ltb_spec 8192 (view_height image)); try lia. cbn [orb].
    fold g. unfold mbind, mget, massert. rewrite Hl. unfold pixels. cbn [width height g bytes_per_pixel].
    rewrite Z.eqb_refl. by rewrite Hd.
  - intros x y c Hx Hy Hc.
    pose proof (image_row_range g y Hy) as Hr.
    specialize (Hpv (image_row g y) x c Hr Hx Hc). rewrite image_row_involutive in Hpv.
    unfold sample_index, bytes_per_pixel in Hpv. cbn [width g] in Hpv. rewrite Hpv.
    destruct (Z.eqb_spec c 3) as [|Hne]; [done|]. unfold sample. rewrite image_row_involutive.
    destruct (Hf (image_row g y) Hr) as [Hf1 Hf2]. rewrite image_row_involutive in Hf1, Hf2. cbn [width g] in Hf2.
    destruct (peek_lt (data image) (y * stride image + (x * 4 + c)) ltac:(lia)) as (v & Hv).
    rewrite Hv. rewrite <- Z.add_assoc, Hv. cbn. by rewrite byte_of_u8_of.
Qed.
(** Six pixels of one colour above six of another, in rows of 26 bytes. *)
Definition two_rows : ImageView :=
  mkImageView (concat (replicate 6 (byte_of <$> [1; 2; 3; 4])) ++ (byte_of <$> [0; 0]) ++
               concat (replicate 6 (byte_of <$> [0; 200; 9; 4])) ++ (byte_of <$> [0; 0])) 6 2 26.

Lemma planar_roundtrip_witness :
  let options := mkOptions mode_automatic bottom_up in
  let buffer := replicate 48 (byte_of 170) in
  image_ok two_rows = true /\ len buffer = view_width two_rows * view_height two_rows * 4 /\
  exists e picture,
    encode two_rows options = Some e /\
    (mode options = mode_automatic -> len e <= 2 + 3 * (view_width two_rows * view_height two_rows)) /\
    decode e (view_width two_rows) (view_height two_rows) (option_orientation options) buffer = Some (Ok tt, picture) /\
    len picture = len buffer /\
    forall x y c, 0 <= x < view_width two_rows -> 0 <= y < view_height two_rows -> 0 <= c < 4 ->
      peek picture ((y * view_width two_rows + x) * 4 + c) =
        if c =? 3 then Some (byte_of 0xFF) else peek (data two_rows) (y * stride two_rows + x * 4 + c).
Proof.
  intros options buffer. split; [by vm_compute|]. split; [by vm_compute|].
  apply (planar_roundtrip two_rows options buffer); by vm_compute.
Defined.
End PlanarRoundtrip.
