(* ===== verification/PlanarSafety.v ===== *)
(** * The planar codec: any stream

    Two runs of the decoder on the same stream and on buffers with different
    contents, side by side: both stay within their buffers and return the same,
    and they agree on every sample that has been written.  No code is modelled
    here. *)

From S2P Require Import Prelude Buffers CodecLogic Machine Planar PlanarEncoder PlanarDecoder PlanarRoundtrip.
Open Scope Z_scope.

Module PlanarSafety.
Import Planar PlanarEncoder PlanarDecoder PlanarRoundtrip.

(** Readers are the same, outputs agree on the samples of [K]. *)
Record agree (n : Z) (r : Reader.t) (K : Z -> Prop) (d1 d2 : D) : Prop := {
  agree_rd1 : rd d1 = r;
  agree_rd2 : rd d2 = r;
  agree_len1 : len (out d1) = n;
  agree_len2 : len (out d2) = n;
  agree_on i : K i -> peek (out d1) i = peek (out d2) i }.

Definition sized (n : Z) (d1 d2 : D) : Prop := len (out d1) = n /\ len (out d2) = n.

(** Both runs return, with the same result; if it is a value, [Q] holds then. *)
Definition both {A} (m : M D A) (d1 d2 : D) (n : Z) (Q : A -> D -> D -> Prop) : Prop :=
  exists r d1' d2', m d1 = Some (r, d1') /\ m d2 = Some (r, d2') /\ sized n d1' d2' /\
    match r with Ok a => Q a d1' d2' | Err _ => True end.

Section Rules.
Context (n : Z) (r : Reader.t).

Lemma agree_sized K d1 d2 : agree n r K d1 d2 -> sized n d1 d2.
Proof. intros []. by split. Qed.

Lemma agree_weaken (K K' : Z -> Prop) d1 d2 : agree n r K d1 d2 -> (forall i, K' i -> K i) -> agree n r K' d1 d2.
Proof. intros [] H. split; auto. Qed.

Lemma both_ret {A} (a : A) d1 d2 (Q : A -> D -> D -> Prop) : sized n d1 d2 -> Q a d1 d2 -> both (mret a) d1 d2 n Q.
Proof. intros. exists (Ok a), d1, d2. auto. Qed.

Lemma both_fail {A} c w o d1 d2 (Q : A -> D -> D -> Prop) : sized n d1 d2 -> both (mfail c w o) d1 d2 n Q.
Proof. intros. exists (fail c w o), d1, d2. done. Qed.

Lemma both_bind {A B} (m : M D A) (f : A -> M D B) d1 d2 (Q : B -> D -> D -> Prop) :
  both m d1 d2 n (fun a d1' d2' => both (f a) d1' d2' n Q) -> both (mbind m f) d1 d2 n Q.
Proof.
  intros (res & d1' & d2' & E1 & E2 & S & H). unfold both, mbind. rewrite E1, E2.
  destruct res as [a|e]; [exact H|]. exists (Err e), d1', d2'. auto.
Qed.

Lemma both_mono {A} (m : M D A) d1 d2 (P Q : A -> D -> D -> Prop) :
  both m d1 d2 n P -> (forall a d1' d2', P a d1' d2' -> Q a d1' d2') -> both m d1 d2 n Q.
Proof. intros (res & d1' & d2' & E1 & E2 & S & H) HPQ. exists res, d1', d2'. destruct res; auto. Qed.

Lemma both_get {A} (f : Reader.t -> A) K d1 d2 (Q : A -> D -> D -> Prop) :
  agree n r K d1 d2 -> Q (f r) d1 d2 -> both (mget (fun d => f (rd d))) d1 d2 n Q.
Proof.
  intros H HQ. exists (Ok (f r)), d1, d2. unfold mget. rewrite (agree_rd1 _ _ _ _ _ H), (agree_rd2 _ _ _ _ _ H).
  split_and!; [done|done|by eapply agree_sized|done].
Qed.

Lemma both_read {A} (p : Dec A) K d1 d2 (Q : A -> D -> D -> Prop) :
  agree n r K d1 d2 ->
  (forall a r' d1' d2', p r = Ok (a, r') -> agree n r' K d1' d2' -> Q a d1' d2') ->
  both (on_reader p) d1 d2 n Q.
Proof.
  intros H HQ. unfold both, on_reader. rewrite (agree_rd1 _ _ _ _ _ H), (agree_rd2 _ _ _ _ _ H).
  destruct (p r) as [[a r']|e] eqn:E.
  - eexists _, _, _. split_and!; [done|done|destruct H; by split|]. apply (HQ a r'); [done|]. destruct H; by split.
  - eexists _, _, _. split_and!; [done|done|by eapply agree_sized|done].
Qed.

Lemma both_load K d1 d2 i (Q : Z -> D -> D -> Prop) :
  agree n r K d1 d2 -> 0 <= i < n -> K i -> (forall v, Q v d1 d2) -> both (load i) d1 d2 n Q.
Proof.
  intros H Hi HK HQ. unfold both, load. rewrite <- (agree_on _ _ _ _ _ H i HK).
  destruct (peek_lt (out d1) i) as (b & ->); [by rewrite (agree_len1 _ _ _ _ _ H)|].
  eexists _, _, _. split_and!; [done|done|by eapply agree_sized|apply HQ].
Qed.

Lemma both_set K d1 d2 i v (Q : unit -> D -> D -> Prop) :
  agree n r K d1 d2 -> 0 <= i < n ->
  (forall d1' d2', agree n r (fun j => K j \/ j = i) d1' d2' -> Q tt d1' d2') -> both (set_out i v) d1 d2 n Q.
Proof.
  intros [Hr1 Hr2 H1 H2 Ha] Hi HQ. unfold both, set_out.
  destruct (poke_ok (out d1) i v ltac:(lia)) as (o1 & -> & L1 & P1).
  destruct (poke_ok (out d2) i v ltac:(lia)) as (o2 & -> & L2 & P2).
  eexists _, _, _. split_and!; [done|done|split; cbn; congruence|]. apply HQ.
  split; cbn [rd out]; [done|done|congruence|congruence|]. intros j Hj. rewrite P1, P2.
  destruct (Z.eqb_spec j i); [done|]. apply Ha. by destruct Hj.
Qed.
End Rules.

(** ** Lines *)

Section Line.
Context (n w : Z) (l : Line) (channel : Z) (K : Z -> Prop).
Hypothesis fits : forall x, 0 <= x < w -> 0 <= sample_index (first l + x) channel < n.
Hypothesis fits_above : scanline l <> 0 -> forall x, 0 <= x < w ->
  0 <= sample_index (first_above l + x) channel < n /\ K (sample_index (first_above l + x) channel).

(** What is known after the columns before [x]. *)
Definition known (x i : Z) : Prop := K i \/ exists y, 0 <= y < x /\ i = sample_index (first l + y) channel.

Lemma set_known r x d1 d2 v (Q : unit -> D -> D -> Prop) :
  agree n r (known x) d1 d2 -> 0 <= x < w -> (forall d1' d2', agree n r (known (x + 1)) d1' d2' -> Q tt d1' d2') ->
  both (set_out (sample_index (first l + x) channel) v) d1 d2 n Q.
Proof.
  intros H Hx HQ. eapply both_set; [exact H|by apply fits|]. intros d1' d2' H'. apply HQ.
  eapply agree_weaken; [exact H'|]. intros i [HK|(y & Hy & ->)]; [by left; left|].
  destruct (decide (y = x)) as [->|]; [by right|]. left. right. exists y. split; [lia|done].
Qed.

Lemma store_both r last x d1 d2 (Q : unit -> D -> D -> Prop) :
  agree n r (known x) d1 d2 -> 0 <= x < w -> (forall d1' d2', agree n r (known (x + 1)) d1' d2' -> Q tt d1' d2') ->
  both (store l channel last x) d1 d2 n Q.
Proof.
  intros H Hx HQ. unfold store. apply both_bind. destruct (Z.eqb_spec (scanline l) 0) as [E|E].
  - apply both_ret; [by eapply agree_sized|]. by eapply set_known.
  - destruct (fits_above E x Hx) as [Hi HK].
    eapply both_load; [exact H|done|by left|]. intros v. by eapply set_known.
Qed.

Lemma raw_both r raw last x d1 d2 (Q : Z * Z -> D -> D -> Prop) :
  agree n r (known x) d1 d2 -> 0 <= x -> x + len raw <= w ->
  (forall v d1' d2', agree n r (known (x + len raw)) d1' d2' -> Q (v, x + len raw) d1' d2') ->
  both (raw_values l channel raw last x) d1 d2 n Q.
Proof.
  revert last x d1 d2 Q. induction raw as [|b raw IH]; intros last x d1 d2 Q H Hx Hw HQ; cbn [raw_values].
  - rewrite Z.add_0_r in HQ. apply both_ret; [by eapply agree_sized|by apply HQ].
  - rewrite len_cons in *. pose proof (len_nonneg raw). apply both_bind; eapply store_both; [done|lia|].
    intros d1' d2' H'. replace (x + (1 + len raw)) with (x + 1 + len raw) in HQ by lia.
    eapply IH; [done|lia|lia|exact HQ].
Qed.

Lemma run_both r k last x d1 d2 (Q : Z -> D -> D -> Prop) :
  agree n r (known x) d1 d2 -> 0 <= x -> x + Z.of_nat k <= w ->
  (forall d1' d2', agree n r (known (x + Z.of_nat k)) d1' d2' -> Q (x + Z.of_nat k) d1' d2') ->
  both (run_values k l channel last x) d1 d2 n Q.
Proof.
  revert x d1 d2 Q. induction k as [|k IH]; intros x d1 d2 Q H Hx Hw HQ; cbn [run_values].
  - rewrite Z.add_0_r in HQ. apply both_ret; [by eapply agree_sized|by apply HQ].
  - apply both_bind; eapply store_both; [done|lia|]. intros d1' d2' H'.
    replace (x + Z.of_nat (S k)) with (x + 1 + Z.of_nat k) in HQ by lia. eapply IH; [done|lia|lia|exact HQ].
Qed.

Lemma parse_nonneg c : 0 <= c < 256 -> 0 <= raw_count (parse_control_byte c) /\ 0 <= run (parse_control_byte c).
Proof.
  intros Hc. unfold parse_control_byte. rewrite (land_low c 0x0F 4), Z.shiftr_div_pow2 by (done || lia).
  destruct (_ =? _); [cbn; lia|]. destruct (_ =? _); cbn; lia.
Qed.

Lemma segments_both r fuel last x d1 d2 (Q : unit -> D -> D -> Prop) :
  agree n r (known x) d1 d2 -> 0 <= x <= w -> (length (Reader.rest r) < fuel)%nat ->
  (forall r' d1' d2', agree n r' (known w) d1' d2' -> Q tt d1' d2') -> both (segments fuel w l channel last x) d1 d2 n Q.
Proof.
  revert r last x d1 d2. induction fuel as [|fuel IH]; intros r last x d1 d2 H Hx Hf HQ; [lia|]. cbn [segments].
  destruct (Z.ltb_spec x w) as [Hlt|Hge]; [|replace x with w in H by lia; apply both_ret; [by eapply agree_sized|eauto]].
  apply both_bind. eapply (both_get n r Reader.offset); [exact H|]. apply both_bind.
  eapply both_read; [exact H|]. intros c r1 d1' d2' (b & -> & [Hb _])%u8_inv H1. cbv zeta.
  pose proof (parse_nonneg (u8_of b) (u8_of_range b)) as [Hrc Hrun].
  destruct (parse_control_byte (u8_of b)) as [rc rn]. cbn [raw_count run] in *.
  destruct (Z.ltb_spec (w - x) (rc + rn)) as [|Hfit]; [apply both_fail; by eapply agree_sized|].
  apply both_bind. eapply both_read; [exact H1|]. intros raw r2 d1'' d2'' Hraw H2.
  apply bytes_inv in Hraw as [Hl [Hr _]]; [|done].
  apply both_bind; eapply (raw_both r2); [exact H2|lia|lia|]. intros v e1 e2 H3. cbv iota beta.
  apply both_bind; eapply (run_both r2); [exact H3|lia|lia|]. intros f1 f2 H4.
  eapply IH; [exact H4|lia| |exact HQ].
  rewrite Hb, Hr in Hf. cbn in Hf. rewrite length_app in Hf. lia.
Qed.
End Line.

(** ** Planes *)

Section Planes.
Context (g : Geometry).
Hypothesis wide : 1 <= width g.
Hypothesis high : 1 <= height g.
Abbreviation n := (pixels g * 4).

(** What is known after the scanlines before [s] of a channel. *)
Definition scanned (K : Z -> Prop) (channel s i : Z) : Prop :=
  K i \/ exists s' x, 0 <= s' < s /\ 0 <= x < width g /\ i = sample_index (image_row g s' * width g + x) channel.

Lemma scanned_next K channel s r d1 d2 :
  agree n r (known (line_of g s) channel (scanned K channel s) (width g)) d1 d2 -> 0 <= s ->
  agree n r (scanned K channel (s + 1)) d1 d2.
Proof.
  intros H Hs. eapply agree_weaken; [exact H|]. intros i [HK|(s' & x & Hs' & Hx & ->)]; [by left; left|].
  destruct (decide (s' = s)) as [->|]; [right; by exists x|]. left. right. exists s', x. split; [lia|done].
Qed.

Lemma known_start l channel K r d1 d2 : agree n r K d1 d2 -> agree n r (known l channel K 0) d1 d2.
Proof. intros H. eapply agree_weaken; [exact H|]. intros i [?|(y & ? & _)]; [done|lia]. Qed.

Lemma rle_lines_both K channel k s r d1 d2 (Q : unit -> D -> D -> Prop) :
  0 <= channel < 4 -> 0 <= s -> s + Z.of_nat k = height g -> agree n r (scanned K channel s) d1 d2 ->
  (forall r' d1' d2', agree n r' (scanned K channel (height g)) d1' d2' -> Q tt d1' d2') ->
  both (rle_lines k g channel s) d1 d2 n Q.
Proof.
  revert s r d1 d2. induction k as [|k IH]; intros s r d1 d2 Hc Hs E H HQ; cbn [rle_lines].
  - replace s with (height g) in H by lia. apply both_ret; [by eapply agree_sized|eauto].
  - apply both_bind. unfold rle_line. apply both_bind. eapply (both_get n r Reader.rest); [exact H|].
    eapply segments_both with (K := scanned K channel s) (r := r); [| |by apply known_start|lia|lia|].
    + intros x Hx. apply sample_index_range; lia.
    + cbn [line_of scanline first_above]. intros H0 x Hx. destruct (Z.eqb_spec s 0) as [|_]; [done|].
      split; [apply sample_index_range; lia|]. right. exists (s - 1), x. split_and!; [lia|lia|lia|lia|done].
    + intros r' d1' d2' H'. eapply IH; [done|lia|lia|by apply scanned_next|exact HQ].
Qed.

Lemma raw_columns_both K l channel values x r d1 d2 (Q : unit -> D -> D -> Prop) :
  (forall x, 0 <= x < width g -> 0 <= sample_index (first l + x) channel < n) ->
  agree n r (known l channel K x) d1 d2 -> 0 <= x -> x + len values = width g ->
  (forall d1' d2', agree n r (known l channel K (width g)) d1' d2' -> Q tt d1' d2') ->
  both (raw_columns (first l) x channel values) d1 d2 n Q.
Proof.
  intros Hf. revert x d1 d2. induction values as [|v values IH]; intros x d1 d2 H Hx E HQ; cbn [raw_columns].
  - replace (width g) with x in HQ by len_lia. apply both_ret; [by eapply agree_sized|auto].
  - rewrite len_cons in E. pose proof (len_nonneg values). apply both_bind.
    eapply (set_known n (width g)); [exact Hf|exact H|lia|]. intros d1' d2' H'. eapply IH; [done|lia|lia|exact HQ].
Qed.

Lemma raw_lines_both K channel k s r d1 d2 (Q : unit -> D -> D -> Prop) :
  0 <= channel < 4 -> 0 <= s -> s + Z.of_nat k = height g -> agree n r (scanned K channel s) d1 d2 ->
  (forall r' d1' d2', agree n r' (scanned K channel (height g)) d1' d2' -> Q tt d1' d2') ->
  both (raw_lines k g channel s) d1 d2 n Q.
Proof.
  revert s r d1 d2. induction k as [|k IH]; intros s r d1 d2 Hc Hs E H HQ; cbn [raw_lines].
  - replace s with (height g) in H by lia. apply both_ret; [by eapply agree_sized|eauto].
  - apply both_bind. eapply both_read; [exact H|]. intros values r' d1' d2' Hv H'. cbv zeta.
    apply bytes_inv in Hv as [Hl _]; [|lia]. apply both_bind.
    change (image_row g s * width g) with (first (line_of g s)).
    eapply raw_columns_both; [|by apply known_start|done|lia|].
    + intros x Hx. apply sample_index_range; lia.
    + intros e1 e2 H''. eapply IH; [done|lia|lia|by apply scanned_next|exact HQ].
Qed.

Definition of_channels (channels : list Z) (i : Z) : Prop :=
  exists c s x, c ∈ channels /\ 0 <= s < height g /\ 0 <= x < width g /\ i = sample_index (image_row g s * width g + x) c.

Lemma planes_both (rle : bool) channels done_ r d1 d2 (Q : unit -> D -> D -> Prop) :
  Forall (fun c => 0 <= c < 4) channels -> agree n r (of_channels done_) d1 d2 ->
  (forall r' d1' d2', agree n r' (of_channels (channels ++ done_)) d1' d2' -> Q tt d1' d2') ->
  both (decode_planes channels rle g) d1 d2 n Q.
Proof.
  revert done_ r d1 d2. induction channels as [|c channels IH]; intros done_ r d1 d2 Hc H HQ; cbn [decode_planes].
  - apply both_ret; [by eapply agree_sized|eauto].
  - apply Forall_cons in Hc as [Hc Hcs]. apply both_bind.
    assert (agree n r (scanned (of_channels done_) c 0) d1 d2) as H0.
    { eapply agree_weaken; [exact H|]. intros i [?|(s & x & ? & _)]; [done|lia]. }
    assert (forall r' d1' d2', agree n r' (scanned (of_channels done_) c (height g)) d1' d2' ->
      both (decode_planes channels rle g) d1' d2' n Q) as Hnext.
    { intros r' d1' d2' H'. apply (IH (c :: done_) r'); [done| |].
      - eapply agree_weaken; [exact H'|]. intros i (c' & s & x & Hin & Hs & Hx & ->).
        apply elem_of_cons in Hin as [->|Hin]; [right; by exists s, x|left; by exists c', s, x].
      - intros r'' e1 e2 H''. eapply HQ. eapply agree_weaken; [exact H''|]. intros i (c' & s & x & Hin & Hr).
        exists c', s, x. split; [|exact Hr]. rewrite elem_of_app, elem_of_cons in *. tauto. }
    destruct rle; [eapply rle_lines_both|eapply raw_lines_both]; try exact H0; try exact Hnext; done || lia.
Qed.
Lemma opaque_both K k p r d1 d2 (Q : unit -> D -> D -> Prop) :
  0 <= p -> p + Z.of_nat k = pixels g ->
  agree n r (fun i => K i \/ exists q, 0 <= q < p /\ i = sample_index q offset_a) d1 d2 ->
  (forall d1' d2', agree n r (fun i => K i \/ exists q, 0 <= q < pixels g /\ i = sample_index q offset_a) d1' d2' -> Q tt d1' d2') ->
  both (opaque k p) d1 d2 n Q.
Proof.
  revert p d1 d2. induction k as [|k IH]; intros p d1 d2 Hp E H HQ; cbn [opaque].
  - replace p with (pixels g) in H by lia. apply both_ret; [by eapply agree_sized|auto].
  - apply both_bind. eapply both_set; [exact H|unfold sample_index, bytes_per_pixel, offset_a; lia|].
    intros d1' d2' H'. eapply IH; [lia|lia| |exact HQ].
    eapply agree_weaken; [exact H'|]. intros i [HK|(q & Hq & ->)]; [by left; left|].
    destruct (decide (q = p)) as [->|]; [by right|]. left. right. exists q. split; [lia|done].
Qed.

(** Every sample belongs to a pixel of a scanline. *)
Lemma sample_pixel i :
  0 <= i < n -> exists c s x, 0 <= c < 4 /\ 0 <= s < height g /\ 0 <= x < width g /\
    i = sample_index (image_row g s * width g + x) c.
Proof.
  intros Hi. set (p := i / 4). set (y := p / width g). exists (i mod 4), (image_row g y), (p mod width g).
  assert (0 <= p < pixels g /\ i = p * 4 + i mod 4 /\ 0 <= i mod 4 < 4) as (Hp & Ei & Hc) by (subst p; lia).
  assert (0 <= y < height g) as Hy.
  { subst y. split; [apply Z.div_pos; lia|]. apply Z.div_lt_upper_bound; [lia|]. unfold pixels in Hp. lia. }
  split; [exact Hc|]. split; [by apply image_row_range|]. split; [apply Z.mod_pos_bound; lia|].
  rewrite image_row_involutive. unfold sample_index, bytes_per_pixel, y.
  rewrite (Z.mul_comm (p / width g)), <- (Z.div_mod p (width g)) by lia. exact Ei.
Qed.

Lemma agree_equal (K : Z -> Prop) r d1 d2 : agree n r K d1 d2 -> (forall i, 0 <= i < n -> K i) -> out d1 = out d2.
Proof.
  intros [_ _ H1 H2 Ha] HK. apply list_eq. intros i. destruct (decide (Z.of_nat i < n)) as [Hi|Hi].
  - specialize (Ha (Z.of_nat i) (HK (Z.of_nat i) ltac:(lia))). unfold peek in Ha.
    by rewrite (proj2 (Z.leb_le 0 _)), Nat2Z.id in Ha by lia.
  - unfold len in *. rewrite !lookup_ge_None_2 by lia. done.
Qed.

(** What the planes and the loop over the alpha bytes have written together. *)
Definition channels_of (alpha : bool) : list Z := drop (if alpha then 0 else 1)%nat plane_channels.
Definition written (alpha : bool) (i : Z) : Prop :=
  of_channels (channels_of alpha) i \/ exists q, 0 <= q < (if alpha then 0 else pixels g) /\ i = sample_index q offset_a.

Lemma written_all alpha i : 0 <= i < n -> written alpha i.
Proof.
  intros Hi. destruct (sample_pixel i Hi) as (c & s & x & Hc & Hs & Hx & ->).
  destruct (decide (c ∈ channels_of alpha)) as [Hin|Hn]; [left; by exists c, s, x|]. right.
  assert (alpha = false /\ c = offset_a) as [-> ->].
  { assert (c = offset_a \/ c = offset_r \/ c = offset_g \/ c = offset_b) as Hcs
      by (unfold offset_a, offset_r, offset_g, offset_b; lia).
    destruct alpha, Hcs as [-> | [-> | [-> | ->]]]; try done;
      destruct Hn; apply (bool_decide_unpack _); by vm_compute. }
  eexists. split; [|reflexivity]. pose proof (image_row_range g s Hs). unfold pixels. nia.
Qed.

Lemma end_both alpha text r d1 d2 :
  agree n r (written alpha) d1 d2 ->
  both (on_reader (ReaderOps.expect_end text)) d1 d2 n (fun _ d1' d2' => out d1' = out d2').
Proof.
  intros H. eapply both_read; [exact H|]. intros a r' d1' d2' _ H'. eapply agree_equal; [exact H'|].
  intros i Hi. by apply written_all.
Qed.

Lemma pad_both alpha (b : bool) text r d1 d2 :
  agree n r (written alpha) d1 d2 ->
  both (let$ remaining := mget (fun d => Reader.remaining (rd d)) in
        let$ _ := (if b && (remaining =? 1) then on_reader (ReaderOps.skip 1) else mret tt) in
        on_reader (ReaderOps.expect_end text)) d1 d2 n
    (fun _ d1' d2' => out d1' = out d2').
Proof.
  intros H. apply both_bind. eapply (both_get n r Reader.remaining); [exact H|]. apply both_bind. destruct (_ && _).
  - eapply both_read; [exact H|]. intros a r' d1' d2' _ H'. by eapply end_both.
  - apply both_ret; [by eapply agree_sized|by eapply end_both].
Qed.

Lemma stream_both r d1 d2 :
  agree n r (fun _ => False) d1 d2 -> both (decode_stream g) d1 d2 n (fun _ d1' d2' => out d1' = out d2').
Proof.
  intros H. unfold decode_stream. apply both_bind. eapply both_read; [exact H|]. intros h r1 e1 e2 _ H1.
  destruct (has_bits h header_cll_mask); [apply both_fail; by eapply agree_sized|].
  destruct (has_bits h header_cs); [apply both_fail; by eapply agree_sized|]. cbv zeta.
  set (alpha := negb (has_bits h header_na)).
  apply both_bind. eapply (planes_both _ (channels_of alpha) [] r1).
  { destruct alpha; apply (bool_decide_unpack _); by vm_compute. }
  { eapply agree_weaken; [exact H1|]. intros i (c & _ & _ & Hc & _). by apply elem_of_nil in Hc. }
  intros r2 f1 f2 H2. rewrite app_nil_r in H2. apply both_bind.
  assert (agree n r2 (fun i => of_channels (channels_of alpha) i \/ exists q, 0 <= q < 0 /\ i = sample_index q offset_a) f1 f2) as H3.
  { eapply agree_weaken; [exact H2|]. intros i [?|(q & ? & _)]; [done|lia]. }
  clear H H1 H2. revert H3. destruct alpha; intros H3.
  - apply both_ret; [by eapply agree_sized|]. by eapply (pad_both true).
  - eapply (opaque_both (of_channels (channels_of false))); [done|unfold pixels; nia|exact H3|].
    intros g1 g2 H4. by eapply (pad_both false).
Qed.
End Planes.

(** C27: any bytes can be given to [decode].  With any dimensions and any buffer
    of the size they ask for it returns, neither reading nor writing outside of
    the stream and the buffer, and when it succeeds it has written every byte of
    the picture: another buffer with other contents ends up the same, so nothing
    of what the buffer held before is shown. *)
Theorem planar_decode_safe stream w h o buffer buffer' :
  0 <= w -> 0 <= h -> len buffer = w * h * 4 -> len buffer' = w * h * 4 ->
  exists r picture picture',
    decode stream w h o buffer = Some (r, picture) /\ decode stream w h o buffer' = Some (r, picture') /\
    len picture = len buffer /\ len picture' = len buffer' /\ (r = Ok tt -> picture = picture').
Proof.
  intros Hw Hh Hl Hl'. unfold decode.
  destruct (Z.eqb_spec w 0) as [|Hw0]; [subst; cbn; eexists _, _, _; by split_and!|].
  destruct (Z.eqb_spec h 0) as [|Hh0]; [subst; cbn; eexists _, _, _; by split_and!|]. cbn [orb].
  destruct (_ || _); [eexists _, _, _; by split_and!|].
  set (g := mkGeometry w h o). unfold mbind, mget, massert.
  assert (forall b : list byte, len b = w * h * 4 -> (len b =? pixels g * bytes_per_pixel) = true) as Hb
    by (intros b E; rewrite E; apply Z.eqb_refl).
  rewrite !Hb by done.
  destruct (stream_both g ltac:(cbn; lia) ltac:(cbn; lia) (Reader.make stream 0)
    (mkD (Reader.make stream 0) buffer) (mkD (Reader.make stream 0) buffer')) as (r & d & d' & -> & -> & [S1 S2] & E).
  { by split. }
  exists r, (out d), (out d'). unfold pixels in *. cbn [width height g] in *. split_and!; [done|done|lia|lia|by intros ->].
Qed.
Lemma planar_decode_safe_witness :
  let stream := byte_of <$> [0x30; 0x13; 7; 0x24; 1; 2; 0x04; 0x04] in
  let buffer := replicate 16 (byte_of 1) in
  let buffer' := replicate 16 (byte_of 2) in
  0 <= 4 /\ 0 <= 1 /\ len buffer = 4 * 1 * 4 /\ len buffer' = 4 * 1 * 4 /\
  exists r picture picture',
    decode stream 4 1 top_down buffer = Some (r, picture) /\ decode stream 4 1 top_down buffer' = Some (r, picture') /\
    len picture = len buffer /\ len picture' = len buffer' /\ (r = Ok tt -> picture = picture').
Proof.
  intros stream buffer buffer'. split; [done|]. split; [done|]. split; [by vm_compute|]. split; [by vm_compute|].
  apply (planar_decode_safe stream 4 1 top_down buffer buffer'); by vm_compute.
Defined.
End PlanarSafety.
