(* ===== verification/DerFields.v ===== *)
(** * Explicitly tagged DER fields

    The helpers that [src/src/farland/auth/spnego.cpp] and [credssp.cpp] each
    define for themselves: a look at the next tag, an explicitly tagged field
    and an OCTET STRING in one, with the text of the limit's error as an
    argument.  The second half relates writers and readers of SEQUENCEs whose
    fields are optional: a field that is absent is recognised by the tag of
    whatever follows. *)

From S2P Require Import Prelude Buffers CodecLogic Ber.
Open Scope Z_scope.

Module DerFields.
Import Ber.

Definition ctx (number : Z) : Tag := context number true.

Definition next_is (t : Tag) (r : Reader.t) : bool :=
  if Reader.empty r then false
  else match peek_tag der r with Ok (t', _) => bool_decide (t' = t) | Err _ => false end.

Definition read_field (number : Z) : Dec Reader.t := read_constructed (ctx number) der.

Definition read_octets_field (text : string) (number limit : Z) : Dec (list byte) :=
  let* field := read_field number in
  let* tlv := within field (
    let* tlv := expect_tlv tag_octet_string der in
    let* _ := ReaderOps.expect_end "explicitly tagged OCTET STRING" in
    dret tlv) in
  if limit <? len (value tlv) then dfail limit_exceeded text (value_offset tlv) else dret (value tlv).

(** [if (next_is(seq, context(number)))] around the reading of a field. *)
Definition optional {A} (number : Z) (p : Dec A) : Dec (option A) :=
  let* present := dask (next_is (ctx number)) in
  if present then let* x := p in dret (Some x) else dret None.

Definition write_field (number : Z) (body : Enc unit) : Enc unit := write_constructed (ctx number) body.

Definition write_octets_field (number : Z) (v : list byte) : Enc unit :=
  write_field number (write_octet_string v tag_octet_string).

Definition write_optional {A} (f : A -> Enc unit) (o : option A) : Enc unit :=
  match o with Some x => f x | None => eret tt end.

(** ** One field *)

Definition small (number : Z) : bool := (0 <=? number) && (number <? 31).

Lemma ctx_ok number : small number = true -> tag_ok (ctx number).
Proof. unfold small, tag_ok, max_tag_number. intros H. bools. cbn. lia. Qed.

(** What a reader of a field's contents sees: the contents and nothing after them. *)
Lemma field_encodes {A} number body (p : Dec A) v n :
  small number = true -> n < 2 ^ 32 -> encodes_end body p v n ->
  encodes (write_field number body) (let* field := read_field number in within field p) v (9 + n).
Proof. intros Hs Hn H. by apply ber_encodes_constructed; [apply ctx_ok| | |]. Qed.

Lemma octets_field_encodes text number limit v :
  small number = true -> len v <= limit -> limit < 2 ^ 31 ->
  encodes (write_octets_field number v) (read_octets_field text number limit) v (18 + len v).
Proof.
  intros Hs Hv Hl. unfold write_octets_field.
  destruct (field_encodes number (write_octet_string v tag_octet_string)
    (let* tlv := expect_tlv tag_octet_string der in
     let* _ := ReaderOps.expect_end "explicitly tagged OCTET STRING" in
     if limit <? len (value tlv) then dfail limit_exceeded text (value_offset tlv) else dret (value tlv)) v (9 + len v))
    as (e & W & L & R); [done|lia| |].
  { destruct (ber_encodes_tlv tag_octet_string v der) as (e & W & L & R); [done|lia|].
    exists e. split_and!; [exact W|done|]. eapply reads_bind_nil; [by eapply reads_expect_tlv|].
    intros tlv E. eapply reads_bind_nil; [apply reads_expect_end|]. intros _ _. rewrite E.
    destruct (Z.ltb_spec limit (len v)); [lia|]. by apply reads_ret. }
  exists e. split_and!; [done|lia|]. intros k s b. destruct (R k s b) as (a & Ha & <-). exists v. split; [|done].
  revert Ha. unfold read_octets_field, dbind, within. destruct (read_field _ _) as [[f r']|]; [|done].
  destruct (expect_tlv _ _ _) as [[tlv r1]|]; [|done]. destruct (ReaderOps.expect_end _ _) as [[u r2]|]; [|done].
  cbn. destruct (_ <? _); [done|]. cbn. intros [= -> ->]. done.
Qed.

(** ** Absent fields *)

(** Bytes that start with the tag of a field numbered [lo] or higher, if with any. *)
Definition from_field (lo : Z) (e : list byte) : Prop :=
  e = [] \/ exists m l, lo <= m /\ small m = true /\ e = byte_of (0xA0 + m) :: l.

Lemma from_field_le lo lo' e : from_field lo e -> lo' <= lo -> from_field lo' e.
Proof. intros [?|(m & l & Hm & Hs & ->)] Hle; [by left|]. right. exists m, l. split_and!; [lia|done|done]. Qed.

Lemma context_octet m :
  small m = true ->
  mkTag (class_of (Z.shiftr (0xA0 + m) class_shift)) (has_bits (0xA0 + m) constructed_bit) (Z.land (0xA0 + m) low_tag_mask) = ctx m /\
  (m =? low_tag_mask) = false /\ u8_of (byte_of (0xA0 + m)) = 0xA0 + m.
Proof.
  unfold small. intros H. bools.
  pose proof (Zupto_forall 31 (fun m => bool_decide
    (mkTag (class_of (Z.shiftr (0xA0 + m) class_shift)) (has_bits (0xA0 + m) constructed_bit) (Z.land (0xA0 + m) low_tag_mask) = ctx m))
    ltac:(vm_compute; done) m ltac:(lia)) as E. cbn beta in E. apply bool_decide_eq_true in E.
  split_and!; [exact E|unfold low_tag_mask; lia|apply u8_of_byte_of_small; lia].
Qed.

Lemma read_tag_context m s l b :
  small m = true -> read_tag der (Reader.mk s (byte_of (0xA0 + m) :: l) b) = Ok (ctx m, Reader.mk (s ++ [byte_of (0xA0 + m)]) l b).
Proof.
  intros H. destruct (context_octet m H) as (E1 & E2 & E3). unfold read_tag. rewrite dbind_ask, dbind_u8, E3, E1.
  cbn [number ctx context]. by rewrite E2.
Qed.

Lemma next_is_context number m s l b :
  small m = true -> next_is (ctx number) (Reader.mk s (byte_of (0xA0 + m) :: l) b) = (m =? number).
Proof.
  intros H. unfold next_is, peek_tag, dpeek. rewrite empty_mk, read_tag_context by done. cbn.
  destruct (Z.eqb_spec m number) as [->|Hne]; [by rewrite bool_decide_true|].
  apply bool_decide_false. unfold ctx, context. congruence.
Qed.

Lemma next_is_absent number e s b :
  from_field (number + 1) e -> next_is (ctx number) (Reader.mk s e b) = false.
Proof.
  intros [->|(m & l & Hm & Hs & ->)]; [unfold next_is; by rewrite empty_mk|].
  rewrite next_is_context by done. apply Z.eqb_neq. lia.
Qed.

Lemma write_length_appends n w u w' : write_length n w = Some (u, w') -> exists l, w' = w ++ l.
Proof.
  unfold write_length, ebind, eassert, Writer.u8, Writer.write_be, Writer.bytes.
  destruct (_ <? _); [intros E; exists [byte_of n]; congruence|]. destruct (_ <=? _); [|done].
  set (c := count_octets 8 n). intros E.
  exists ([byte_of (Z.lor long_form_bit c)] ++ Writer.be_bytes (Z.to_nat c) n). rewrite app_assoc. congruence.
Qed.

(** A field's bytes start with its tag. *)
Lemma write_field_starts number body e :
  small number = true -> writes (write_field number body) e -> exists l, e = byte_of (0xA0 + number) :: l.
Proof.
  intros Hs W. specialize (W []). revert W.
  unfold write_field, write_constructed, ebind, eassert, elocal. cbn [constructed ctx context].
  destruct (Writer.run body) as [c|]; [|done]. unfold write_tlv, write_tag, ebind. cbn [Ber.number ctx context cls constructed].
  unfold small in Hs. bools. destruct (Z.ltb_spec number low_tag_mask); [|unfold low_tag_mask in *; lia].
  assert (Z.lor (Z.lor (Z.shiftl (class_value context_class) class_shift) constructed_bit) number = 0xA0 + number) as ->.
  { change (Z.lor (Z.shiftl (class_value context_class) class_shift) constructed_bit) with 0xA0.
    rewrite (lor_const 0xA0 5 number 5); [done|done|done|cbn; lia]. }
  unfold Writer.u8, Writer.bytes. cbn [app]. intros E.
  destruct (write_length (len c) _) as [[u w]|] eqn:El; [|done].
  destruct (write_length_appends _ _ _ _ El) as (l & ->).
  assert (e = (byte_of (0xA0 + number) :: l) ++ c) as -> by (cbn [app] in *; congruence). eauto.
Qed.

(** ** Sequences of optional fields

    [tail m p v n lo]: [m] writes at most [n] bytes, starting with a field
    numbered [lo] or higher if with any, and [p] reads them back to their end. *)

Definition tail {A} (m : Enc unit) (p : Dec A) (v : A) (n lo : Z) : Prop :=
  exists e, writes m e /\ len e <= n /\ from_field lo e /\ reads p e [] (eq v).

Lemma tail_encodes_end {A} m (p : Dec A) v n lo : tail m p v n lo -> encodes_end m p v n.
Proof. intros (e & ? & ? & ? & ?). by exists e. Qed.

Lemma tail_le {A} m (p : Dec A) v n n' lo : tail m p v n lo -> n <= n' -> tail m p v n' lo.
Proof. intros (e & W & L & F & R) H. exists e. split_and!; [done|lia|done|done]. Qed.

Lemma tail_end {A} what (v : A) lo : tail (eret tt) (let* _ := ReaderOps.expect_end what in dret v) v 0 lo.
Proof.
  exists []. split_and!; [apply writes_ret|by cbn|by left|].
  eapply reads_bind_nil; [apply reads_expect_end|]. intros _ _. by apply reads_ret.
Qed.

Lemma tail_absent {A B} number m (p : Dec B) (q : option B -> Dec A) v n :
  tail m (q None) v n (number + 1) -> tail m (let* x := optional number p in q x) v n number.
Proof.
  intros (e & W & L & F & R). exists e. split_and!; [done|done|eapply from_field_le; [done|lia]|].
  intros s b. destruct (R s b) as (a & Ha & <-). exists v. split; [|done].
  unfold optional, dbind, dask. rewrite next_is_absent by (by rewrite app_nil_r). exact Ha.
Qed.

Lemma tail_present {A B} number body (x : B) m (p : Dec B) (q : option B -> Dec A) v n1 n2 :
  small number = true -> encodes (write_field number body) p x n1 -> tail m (q (Some x)) v n2 (number + 1) ->
  tail (write_field number body ;;; m) (let* x := optional number p in q x) v (n1 + n2) number.
Proof.
  intros Hs (e1 & W1 & L1 & R1) (e & W & L & F & R). destruct (write_field_starts _ _ _ Hs W1) as (l & ->).
  exists ((byte_of (0xA0 + number) :: l) ++ e). split_and!; [by apply writes_seq|len_lia|right|].
  { exists number, (l ++ e). split_and!; [lia|done|done]. }
  intros s b. destruct (R1 e s b) as (a & Ha & <-).
  destruct (R (s ++ byte_of (0xA0 + number) :: l) b) as (a' & Ha' & <-). exists v. split; [|done].
  unfold optional, dbind, dask, dret. rewrite app_nil_r in *. cbn [app] in *.
  rewrite next_is_context, Z.eqb_refl by done. rewrite Ha, Ha'. by rewrite <- app_assoc.
Qed.

(** A field that must be there. *)
Lemma tail_field {A B} number body (x : B) m (p : Dec B) (q : B -> Dec A) v n1 n2 lo :
  small number = true -> encodes (write_field number body) p x n1 -> tail m (q x) v n2 lo -> lo <= number + 1 ->
  tail (write_field number body ;;; m) (let* x := p in q x) v (n1 + n2) number.
Proof.
  intros Hs (e1 & W1 & L1 & R1) (e & W & L & F & R) _. destruct (write_field_starts _ _ _ Hs W1) as (l & ->).
  exists ((byte_of (0xA0 + number) :: l) ++ e). split_and!; [by apply writes_seq|len_lia|right|].
  { exists number, (l ++ e). split_and!; [lia|done|done]. }
  eapply reads_bind; [apply R1|]. intros ? <-. exact R.
Qed.

(** A field that is written when it has a value. *)
Lemma tail_optional {A B} number (f : B -> Enc unit) (o : option B) m (p : Dec B) (q : option B -> Dec A) v n1 n2 :
  small number = true -> 0 <= n1 ->
  (forall x, o = Some x -> encodes (f x) p x n1 /\ exists body, f x = write_field number body) ->
  tail m (q o) v n2 (number + 1) ->
  tail (write_optional f o ;;; m) (let* x := optional number p in q x) v (n1 + n2) number.
Proof.
  intros Hs Hn Ho H. destruct o as [x|].
  - destruct (Ho x eq_refl) as (E & body & Ef). cbn [write_optional]. rewrite Ef in *. by eapply tail_present.
  - destruct (tail_absent number m p q v n2 H) as (e & W & L & F & R). exists e. split_and!; [exact W|lia|done|done].
Qed.

(** An optional OCTET STRING. *)
Lemma tail_octets {A} text number limit (o : option (list byte)) m (q : option (list byte) -> Dec A) v n :
  small number = true -> 0 <= limit < 2 ^ 31 ->
  match o with Some x => len x <= limit | None => True end ->
  tail m (q o) v n (number + 1) ->
  tail (write_optional (write_octets_field number) o ;;; m)
    (let* x := optional number (read_octets_field text number limit) in q x) v (18 + limit + n) number.
Proof.
  intros Hs Hl Ho H. apply tail_optional; [done|lia| |done]. intros x ->. split; [|by eexists].
  eapply encodes_le; [by apply octets_field_encodes; [| |lia]|lia].
Qed.

Lemma tail_last {A} m (p : Dec A) v n lo : tail (m ;;; eret tt) p v n lo -> tail m p v n lo.
Proof.
  intros (e & W & L & F & R). exists e. split_and!; [|done|done|done]. intros w. specialize (W w). revert W.
  unfold ebind, eret. by destruct (m w) as [[[] ?]|].
Qed.

Lemma constructed_tlv t body c e :
  constructed t = true -> writes body c -> writes (write_constructed t body) e -> writes (write_tlv t c) e.
Proof.
  intros Hc Wc W w. specialize (W w). revert W. unfold write_constructed, ebind, eassert, elocal.
  by rewrite Hc, (writes_run _ _ Wc).
Qed.

Lemma tlv_prefix t v e :
  tag_ok t -> writes (write_tlv t v) e -> exists e1 l, writes (write_tag t) e1 /\ e = e1 ++ l.
Proof.
  intros Ht W. destruct (ber_encodes_tag t der Ht) as (e1 & W1 & _). exists e1.
  specialize (W []). unfold write_tlv, ebind, Writer.bytes in W. rewrite W1 in W.
  destruct (write_length (len v) _) as [[u w]|] eqn:El; [|done].
  destruct (write_length_appends _ _ _ _ El) as (l & ->). exists (l ++ v). split; [done|].
  rewrite app_assoc. cbn [app] in W. congruence.
Qed.

Lemma tlv_nonempty t v e : tag_ok t -> writes (write_tlv t v) e -> e <> [].
Proof.
  intros Ht W ->. destruct (tlv_prefix t v [] Ht W) as (e1 & l & W1 & E).
  symmetry in E. apply app_nil in E as [-> _].
  destruct (ber_encodes_tag t der Ht) as (e1 & W1' & _ & R). rewrite <- (writes_det _ _ _ W1 W1') in R.
  destruct (R [] [] 0) as (a & Ha & _). vm_compute in Ha. discriminate.
Qed.

(** The first octets of an encoding tell its tag. *)
Lemma tlv_peek t v e s b :
  tag_ok t -> writes (write_tlv t v) e -> peek_tag der (Reader.mk s (e ++ []) b) = Ok (t, Reader.mk s (e ++ []) b).
Proof.
  intros Ht W. destruct (tlv_prefix t v e Ht W) as (e1 & l & W1 & ->).
  destruct (ber_encodes_tag t der Ht) as (e1' & W1' & _ & R1). rewrite <- (writes_det _ _ _ W1 W1') in R1.
  unfold peek_tag, dpeek. rewrite <- app_assoc. destruct (R1 (l ++ []) s b) as (a & -> & <-). done.
Qed.

Lemma constructed_nonempty t body c e :
  tag_ok t -> constructed t = true -> writes body c -> writes (write_constructed t body) e -> e <> [].
Proof. intros Ht Hc Wc W. eapply tlv_nonempty; [exact Ht|exact (constructed_tlv t body c e Hc Wc W)]. Qed.

(** A structure that must fill its input. *)
Lemma structure_encodes {A} t what body (p : Dec A) v n :
  tag_ok t -> constructed t = true -> n < 2 ^ 32 -> encodes_end body p v n ->
  encodes_end (write_constructed t body)
    (let* seq := read_constructed t der in let* _ := ReaderOps.expect_end what in within seq p) v (9 + n).
Proof.
  intros Ht Hc Hn (e & W & L & R). destruct (ber_encodes_tlv t e der Ht ltac:(lia)) as (e' & W' & L' & R').
  exists e'. split_and!.
  - apply writes_assert; [done|]. eapply writes_local; [by apply writes_run|done].
  - lia.
  - eapply reads_bind_nil.
    { eapply reads_bind_nil; [by apply reads_expect_tlv|]. intros tlv Hv.
      apply (reads_ret _ _ (fun r => exists b, r = Reader.make e b)). exists (value_offset tlv).
      unfold tlv_reader. by rewrite Hv. }
    intros ? [b ->]. eapply reads_bind_nil; [apply reads_expect_end|]. intros _ _. by apply reads_within.
Qed.

(** The same when the contents are handed to another decoder. *)
Lemma structure_then {A B} t what body (p : Dec A) (f : A -> B) v n :
  tag_ok t -> constructed t = true -> n < 2 ^ 32 -> encodes_end body p v n ->
  encodes_end (write_constructed t body)
    (let* seq := read_constructed t der in let* _ := ReaderOps.expect_end what in
     let* x := within seq p in dret (f x)) (f v) (9 + n).
Proof.
  intros Ht Hc Hn H. destruct (structure_encodes t what body (dbind p (fun x => dret (f x))) (f v) n Ht Hc Hn)
    as (e & W & L & R).
  { destruct H as (e & W & L & R). exists e. split_and!; [done|done|].
    eapply reads_bind_nil; [apply R|]. intros ? <-. by apply reads_ret. }
  exists e. split_and!; [done|done|]. intros s b. destruct (R s b) as (a & Ha & <-). exists (f v). split; [|done].
  revert Ha. unfold dbind, within. destruct (read_constructed _ _ _) as [[q r]|]; [|done].
  destruct (ReaderOps.expect_end _ _) as [[u r2]|]; [|done]. by destruct (p q) as [[x ?]|].
Qed.

(** ** Writers that do not fail, with the size of what they write *)

Definition writable (m : Enc unit) (n : Z) : Prop := exists e, writes m e /\ len e <= n.

Lemma writable_le m n n' : writable m n -> n <= n' -> writable m n'.
Proof. intros (e & W & L) H. exists e. split; [done|lia]. Qed.

Lemma writable_ret : writable (eret tt) 0.
Proof. exists []. split; [apply writes_ret|done]. Qed.

Lemma writable_seq m1 m2 n1 n2 : writable m1 n1 -> writable m2 n2 -> writable (m1 ;;; m2) (n1 + n2).
Proof. intros (e1 & W1 & L1) (e2 & W2 & L2). exists (e1 ++ e2). split; [by apply writes_seq|len_lia]. Qed.

Lemma writable_tlv t v : tag_ok t -> len v < 2 ^ 32 -> writable (write_tlv t v) (9 + len v).
Proof. intros Ht Hv. destruct (ber_encodes_tlv t v der Ht Hv) as (e & W & L & _). by exists e. Qed.

Lemma writable_encodes {A} m (p : Dec A) v n : encodes m p v n -> writable m n.
Proof. intros (e & W & L & _). by exists e. Qed.

Lemma writable_constructed t body n :
  tag_ok t -> constructed t = true -> n < 2 ^ 32 -> writable body n -> writable (write_constructed t body) (9 + n).
Proof.
  intros Ht Hc Hn (e & W & L). destruct (writable_tlv t e Ht ltac:(lia)) as (e' & W' & L'). exists e'.
  split; [|lia]. apply writes_assert; [done|]. eapply writes_local; [by apply writes_run|done].
Qed.

Lemma writable_octets_field number v : small number = true -> len v < 2 ^ 31 -> writable (write_octets_field number v) (18 + len v).
Proof.
  intros Hs Hv. replace (18 + len v) with (9 + (9 + len v)) by lia.
  apply writable_constructed; [by apply ctx_ok|done|lia|]. apply writable_tlv; [done|lia].
Qed.

Lemma writable_optional {A} (f : A -> Enc unit) o (n : A -> Z) :
  (forall x, o = Some x -> writable (f x) (n x)) -> writable (write_optional f o) (match o with Some x => n x | None => 0 end).
Proof. intros H. destruct o; [by apply H|apply writable_ret]. Qed.

Lemma writable_run m n : writable m n -> exists e, Writer.run m = Some e /\ len e <= n.
Proof. intros (e & W & L). exists e. split; [by apply writes_run|done]. Qed.

(** The size of an optional field's contents. *)
Definition olen (o : option (list byte)) : Z := match o with Some x => len x | None => 0 end.

Lemma olen_nonneg o : 0 <= olen o.
Proof. destruct o; [apply len_nonneg|done]. Qed.

Lemma writable_optional_octets number o :
  small number = true -> olen o < 2 ^ 31 -> writable (write_optional (write_octets_field number) o) (18 + olen o).
Proof.
  intros Hs Ho. destruct o as [x|]; cbn [write_optional olen] in *; [by apply writable_octets_field|].
  eapply writable_le; [apply writable_ret|lia].
Qed.
End DerFields.
