(* ===== verification/Spnego.v ===== *)
(** * SPNEGO tokens

    Models [src/src/farland/auth/spnego.hpp] and [spnego.cpp]: the tokens of RFC
    4178 with which CredSSP negotiates a security mechanism.  An encoder returns
    the bytes, [None] where an assertion of the DER writer would fail.  The
    theorem is the round trip, for both kinds of token. *)

From S2P Require Import Prelude Buffers CodecLogic Ber DerFields.
Open Scope Z_scope.

Module Spnego.
Import Ber DerFields.

(** ** Constants and tokens *)

Definition tag_bit_string := mkTag universal false 3.
Definition tag_object_identifier := mkTag universal false 6.
Definition initial_context_token : Tag := application 0 true.

Abbreviation Oid := (list byte).

Definition spnego_oid : Oid := byte_of <$> [0x2b; 0x06; 0x01; 0x05; 0x05; 0x02].
Definition ntlm_oid : Oid := byte_of <$> [0x2b; 0x06; 0x01; 0x04; 0x01; 0x82; 0x37; 0x02; 0x02; 0x0a].
Definition kerberos_oid : Oid := byte_of <$> [0x2a; 0x86; 0x48; 0x86; 0xf7; 0x12; 0x01; 0x02; 0x02].
Definition ms_kerberos_oid : Oid := byte_of <$> [0x2a; 0x86; 0x48; 0x82; 0xf7; 0x12; 0x01; 0x02; 0x02].

Definition max_token_size : Z := 48000.
Definition max_mic_size : Z := 1024.
Definition max_mech_types : Z := 16.
Definition max_oid_size : Z := 32.

Inductive NegState := accept_completed | accept_incomplete | reject | request_mic.

#[export] Instance NegState_eq_dec : EqDecision NegState.
Proof. solve_decision. Defined.

Definition state_value (s : NegState) : Z :=
  match s with accept_completed => 0 | accept_incomplete => 1 | reject => 2 | request_mic => 3 end.

(** [static_cast<NegState>] of a number from 0 to 3. *)
Definition state_of (z : Z) : NegState :=
  if z =? 0 then accept_completed else if z =? 1 then accept_incomplete else if z =? 2 then reject else request_mic.

Record NegTokenInit := mkInit {
  mech_types : list Oid;
  mech_types_der : list byte;
  mech_token : option (list byte);
  init_mech_list_mic : option (list byte) }.

Record NegTokenResp := mkResp {
  neg_state : option NegState;
  supported_mech : option Oid;
  response_token : option (list byte);
  mech_list_mic : option (list byte) }.

Inductive NegotiationToken := TokenInit (t : NegTokenInit) | TokenResp (t : NegTokenResp).

(** ** Decoding *)

(** The loop over the octets: whether a subidentifier starts here, [None] for a leading 0x80. *)
Fixpoint oid_loop (oid : list byte) (at_start : bool) : option bool :=
  match oid with
  | [] => Some at_start
  | octet :: oid' =>
      let value := u8_of octet in
      if at_start && (value =? 0x80) then None else oid_loop oid' (Z.land value 0x80 =? 0)
  end.

Definition check_oid (oid : list byte) (offset : Z) : Result unit :=
  if bool_decide (oid = []) then fail invalid_length "OBJECT IDENTIFIER has no content octets" offset
  else if max_oid_size <? len oid then fail limit_exceeded "OBJECT IDENTIFIER too long" offset
  else match oid_loop oid true with
       | None => fail invalid_value "OBJECT IDENTIFIER subidentifier has a leading 0x80 octet" offset
       | Some at_start =>
           if at_start then Ok tt else fail invalid_value "OBJECT IDENTIFIER ends inside a subidentifier" offset
       end.

Definition read_oid : Dec Oid :=
  let* tlv := expect_tlv tag_object_identifier der in
  let* _ := dlift (check_oid (value tlv) (value_offset tlv)) in
  dret (value tlv).

Definition read_octets (number limit : Z) : Dec (list byte) :=
  read_octets_field "SPNEGO token field too large" number limit.

Fixpoint mech_types_loop (fuel : nat) (types : list Oid) : Dec (list Oid) := fun r =>
  match fuel with
  | O => Ok (types, r)
  | S fuel' =>
      if Reader.empty r then Ok (types, r)
      else if len types =? max_mech_types then fail limit_exceeded "too many entries in mechTypes" (Reader.offset r)
      else (let* oid := read_oid in mech_types_loop fuel' (types ++ [oid])) r
  end.

(** [mechTypes]: the entries and the exact DER of their list. *)
Definition decode_mech_types : Dec (list Oid * list byte) :=
  let* types_field := expect_tlv (ctx 0) der in
  let* list_ := within (tlv_reader types_field) (
    let* list_ := expect_tlv tag_sequence der in
    let* _ := ReaderOps.expect_end "mechTypes" in
    dret list_) in
  let* types := within (tlv_reader list_) (mech_types_loop (length (value list_)) []) in
  if bool_decide (types = []) then dfail invalid_length "mechTypes is empty" (value_offset list_)
  else dret (types, value types_field).

Definition skip_req_flags : Dec unit :=
  let* flags := read_field 1 in
  within flags (
    let* _ := expect_tlv tag_bit_string der in
    ReaderOps.expect_end "reqFlags").

(** Field [3]: the mechListMIC of RFC 4178 or the negHints of NegTokenInit2. *)
Definition read_field_3 : Dec (option (list byte)) :=
  let* field := read_field 3 in
  let* inner := within field (
    let* inner := read_tlv der in
    let* _ := ReaderOps.expect_end "NegTokenInit field [3]" in
    dret inner) in
  if bool_decide (tag inner = tag_octet_string) then
    if max_mic_size <? len (value inner) then dfail limit_exceeded "mechListMIC too large" (value_offset inner)
    else dret (Some (value inner))
  else if negb (bool_decide (tag inner = tag_sequence)) then
    dfail invalid_value "NegTokenInit field [3] is neither mechListMIC nor negHints" (value_offset inner)
  else dret None.

Definition decode_init : Dec NegTokenInit :=
  let* seq := read_constructed tag_sequence der in
  let* _ := ReaderOps.expect_end "NegTokenInit" in
  within seq (
    let* (types, types_der) := decode_mech_types in
    let* _ := optional 1 skip_req_flags in
    let* token := optional 2 (read_octets 2 max_token_size) in
    let* mic := optional 3 read_field_3 in
    let mic := default None mic in
    let* mic := (if bool_decide (mic = None) then optional 4 (read_octets 4 max_mic_size) else dret mic) in
    let* _ := ReaderOps.expect_end "NegTokenInit" in
    dret (mkInit types types_der token mic)).

Definition read_neg_state : Dec NegState :=
  let* field := read_field 0 in
  let offset := Reader.offset field in
  let* state := within field (
    let* state := read_integer der tag_enumerated in
    let* _ := ReaderOps.expect_end "negState" in
    dret state) in
  if (state <? 0) || (state_value request_mic <? state) then dfail invalid_value "unknown negState" offset
  else dret (state_of state).

Definition read_supported_mech : Dec Oid :=
  let* field := read_field 1 in
  within field (
    let* oid := read_oid in
    let* _ := ReaderOps.expect_end "supportedMech" in
    dret oid).

Definition decode_resp : Dec NegTokenResp :=
  let* seq := read_constructed tag_sequence der in
  let* _ := ReaderOps.expect_end "NegTokenResp" in
  within seq (
    let* state := optional 0 read_neg_state in
    let* mech := optional 1 read_supported_mech in
    let* token := optional 2 (read_octets 2 max_token_size) in
    let* mic := optional 3 (read_octets 3 max_mic_size) in
    let* _ := ReaderOps.expect_end "NegTokenResp" in
    dret (mkResp state mech token mic)).

Definition decode_context : Dec NegotiationToken :=
  let* inner := read_constructed initial_context_token der in
  let* _ := ReaderOps.expect_end "InitialContextToken" in
  within inner (
    let* oid_offset := dask Reader.offset in
    let* mech := read_oid in
    if negb (bool_decide (mech = spnego_oid)) then dfail unsupported "InitialContextToken is not for SPNEGO" oid_offset
    else
      let* choice := read_field 0 in
      let* _ := ReaderOps.expect_end "InitialContextToken" in
      let* init := within choice decode_init in
      dret (TokenInit init)).

Definition decode_token : Dec NegotiationToken :=
  let* t := peek_tag der in
  if bool_decide (t = initial_context_token) then decode_context
  else
    let* choice := read_field 1 in
    let* _ := ReaderOps.expect_end "NegotiationToken" in
    let* resp := within choice decode_resp in
    dret (TokenResp resp).

Definition decode (token : list byte) : Result NegotiationToken :=
  match decode_token (Reader.make token 0) with Ok (t, _) => Ok t | Err e => Err e end.

Definition ntlm_signature : list byte := String.list_byte_of_string "NTLMSSP" ++ [byte_of 0].

Definition is_raw_ntlm (token : list byte) : bool := bool_decide (take (length ntlm_signature) token = ntlm_signature).

(** ** Encoding *)

Fixpoint write_oids (oids : list Oid) : Enc unit :=
  match oids with
  | [] => eret tt
  | oid :: oids' => write_tlv tag_object_identifier oid ;;; write_oids oids'
  end.

Definition encode_mech_types (types : list Oid) : option (list byte) :=
  Writer.run (write_constructed tag_sequence (write_oids types)).

Definition make_neg_token_init (types : list Oid) (token : option (list byte)) : option NegTokenInit :=
  types_der ← encode_mech_types types; Some (mkInit types types_der token None).

Definition write_init (t : NegTokenInit) : Enc unit :=
  write_constructed tag_sequence (
    write_tlv (ctx 0) (mech_types_der t) ;;;
    write_optional (write_octets_field 2) (mech_token t) ;;;
    write_optional (write_octets_field 3) (init_mech_list_mic t)).

Definition encode_init (t : NegTokenInit) : option (list byte) :=
  Writer.run (
    write_constructed initial_context_token (
      write_tlv tag_object_identifier spnego_oid ;;;
      write_constructed (ctx 0) (write_init t))).

Definition write_resp (t : NegTokenResp) : Enc unit :=
  write_constructed tag_sequence (
    write_optional (fun s => write_field 0 (write_integer (state_value s) tag_enumerated)) (neg_state t) ;;;
    write_optional (fun oid => write_field 1 (write_tlv tag_object_identifier oid)) (supported_mech t) ;;;
    write_optional (write_octets_field 2) (response_token t) ;;;
    write_optional (write_octets_field 3) (mech_list_mic t)).

Definition encode_resp (t : NegTokenResp) : option (list byte) :=
  Writer.run (write_constructed (ctx 1) (write_resp t)).

(** ** Round trips *)

Definition oid_ok (oid : Oid) : bool := match check_oid oid 0 with Ok _ => true | Err _ => false end.

Definition bounded (limit : Z) (o : option (list byte)) : bool :=
  match o with Some x => len x <=? limit | None => true end.

Definition init_ok (t : NegTokenInit) : bool :=
  negb (bool_decide (mech_types t = [])) && (len (mech_types t) <=? max_mech_types) && forallb oid_ok (mech_types t) &&
  bool_decide (encode_mech_types (mech_types t) = Some (mech_types_der t)) &&
  bounded max_token_size (mech_token t) && bounded max_mic_size (init_mech_list_mic t).

Definition resp_ok (t : NegTokenResp) : bool :=
  match supported_mech t with Some oid => oid_ok oid | None => true end &&
  bounded max_token_size (response_token t) && bounded max_mic_size (mech_list_mic t).

Lemma oid_ok_spec oid offset : oid_ok oid = true -> check_oid oid offset = Ok tt /\ len oid <= 32.
Proof.
  unfold oid_ok, check_oid, max_oid_size. destruct (bool_decide _); [done|].
  destruct (Z.ltb_spec 32 (len oid)); [done|]. destruct (oid_loop oid true) as [[]|]; done.
Qed.

Lemma oid_encodes oid : oid_ok oid = true -> encodes (write_tlv tag_object_identifier oid) read_oid oid 41.
Proof.
  intros H. eapply encodes_le; [apply ber_encodes_expect; [done|destruct (oid_ok_spec oid 0 H); lia|]|].
  - intros tlv k E. eapply reads_bind_nil; [eapply reads_lift; [rewrite E; apply (oid_ok_spec oid _ H)|]|].
    + exact (eq_refl tt).
    + intros _ _. rewrite E. by apply reads_ret.
  - destruct (oid_ok_spec oid 0 H). lia.
Qed.

Lemma oids_encode oids :
  forallb oid_ok oids = true ->
  exists e, writes (write_oids oids) e /\ len e <= 41 * len oids /\ (length oids <= length e)%nat /\
    forall done_ fuel, len done_ + len oids <= max_mech_types -> (length oids <= fuel)%nat ->
      reads (mech_types_loop fuel done_) e [] (eq (done_ ++ oids)).
Proof.
  induction oids as [|oid oids IH]; intros Ho.
  - exists []. split_and!; [apply writes_ret|by cbn|done|]. intros done_ fuel _ _. rewrite app_nil_r. intros s b.
    exists done_. split; [|done]. destruct fuel; cbn [mech_types_loop]; [cbn; by rewrite !app_nil_r|]. rewrite empty_mk. cbn. by rewrite app_nil_r.
  - cbn [forallb] in Ho. bools.
    destruct (oid_encodes oid) as (e1 & W1 & L1 & R1); [done|].
    destruct IH as (e2 & W2 & L2 & Hn & R2); [done|].
    pose proof (tlv_nonempty tag_object_identifier oid e1 ltac:(done) W1) as He1.
    exists (e1 ++ e2). split_and!; [by apply writes_seq|len_lia|rewrite length_app; destruct e1; [done|cbn; lia]|].
    intros done_ fuel Hl Hf. rewrite len_cons in Hl. pose proof (len_nonneg oids).
    destruct fuel as [|fuel]; [cbn in Hf; lia|]. cbn [length] in Hf.
    intros s b. cbn [mech_types_loop]. rewrite empty_mk.
    rewrite bool_decide_false by (intros E; apply app_nil in E as [E _]; by apply app_nil in E as [E _]).
    destruct (Z.eqb_spec (len done_) max_mech_types); [lia|].
    destruct (reads_bind read_oid (fun o => mech_types_loop fuel (done_ ++ [o])) e1 e2 [] (eq oid) (eq (done_ ++ oid :: oids)))
      with (s := s) (b := b) as (a & Ha & <-); [apply R1| |exists (done_ ++ oid :: oids); done].
    intros ? <-. replace (done_ ++ oid :: oids) with ((done_ ++ [oid]) ++ oids) by (by rewrite <- app_assoc).
    apply R2; [len_lia|lia].
Qed.

Lemma mech_types_encode types types_der :
  forallb oid_ok types = true -> types <> [] -> len types <= max_mech_types ->
  encode_mech_types types = Some types_der ->
  encodes (write_tlv (ctx 0) types_der) decode_mech_types (types, types_der) 700.
Proof.
  unfold max_mech_types. intros Ho Hne Hl He.
  destruct (oids_encode types Ho) as (c & Wc & Lc & Hc & Rc).
  destruct (ber_encodes_tlv tag_sequence c der) as (e & W & L & R); [done|len_lia|].
  assert (writes (write_constructed tag_sequence (write_oids types)) e) as W'.
  { apply writes_assert; [done|]. eapply writes_local; [by apply writes_run|done]. }
  assert (types_der = e) as -> by (unfold encode_mech_types in He; rewrite (writes_run _ _ W') in He; congruence).
  eapply encodes_le; [eapply (ber_encodes_expect (ctx 0) e der); [done|len_lia|]|len_lia].
  intros tlv k E. eapply reads_bind_nil.
  { unfold tlv_reader. rewrite E. apply reads_within. eapply reads_bind_nil; [eapply reads_expect_tlv; apply R|].
    intros list_ Hv. eapply reads_bind_nil; [apply reads_expect_end|]. intros _ _.
    apply (reads_ret _ _ (fun t => value t = c)). exact Hv. }
  intros list_ Hv. cbn beta. eapply reads_bind_nil.
  { unfold tlv_reader. rewrite Hv. apply reads_within.
    apply (Rc []); [unfold max_mech_types; len_lia|done]. }
  intros ? <-. cbn beta. rewrite bool_decide_false by done. rewrite E. by apply reads_ret.
Qed.
Lemma mic_field_encodes mic :
  len mic <= max_mic_size -> encodes (write_octets_field 3 mic) read_field_3 (Some mic) 1042.
Proof.
  unfold max_mic_size. intros Hl.
  destruct (ber_encodes_tlv tag_octet_string mic der) as (e & W & L & R); [done|lia|].
  destruct (field_encodes 3 (write_octet_string mic tag_octet_string)
    (let* inner := read_tlv der in let* _ := ReaderOps.expect_end "NegTokenInit field [3]" in
     dret (tag inner, value inner)) (tag_octet_string, mic) 1033) as (e' & W' & L' & R'); [done|lia| |].
  { exists e. split_and!; [exact W|lia|]. eapply reads_bind_nil; [apply R|]. intros tlv [Et Ev].
    eapply reads_bind_nil; [apply reads_expect_end|]. intros _ _. rewrite Et, Ev. by apply reads_ret. }
  exists e'. split_and!; [exact W'|lia|]. intros k s b. destruct (R' k s b) as (a & Ha & <-).
  exists (Some mic). split; [|done]. revert Ha. unfold read_field_3, dbind, within.
  destruct (read_field _ _) as [[f r']|]; [|done]. destruct (read_tlv _ _) as [[tlv r1]|]; [|done].
  destruct (ReaderOps.expect_end _ _) as [[u r2]|]; [|done]. cbn. intros E.
  assert (tag tlv = tag_octet_string) as -> by congruence. assert (value tlv = mic) as -> by congruence.
  rewrite bool_decide_true by done. unfold max_mic_size. destruct (Z.ltb_spec 1024 (len mic)); [lia|].
  assert (r' = Reader.mk (s ++ e') k b) as -> by congruence. done.
Qed.

Lemma bounded_spec limit o : bounded limit o = true -> match o with Some x => len x <= limit | None => True end.
Proof. destruct o; cbn; [|done]. intros H. bools. done. Qed.

Lemma oid_field_encodes oid :
  oid_ok oid = true -> encodes (write_field 1 (write_tlv tag_object_identifier oid)) read_supported_mech oid 50.
Proof.
  intros H. change 50 with (9 + 41). apply field_encodes; [done|done|].
  eapply encodes_last_end; [by apply encodes_encodes_end, oid_encodes|].
  eapply reads_bind_nil; [apply reads_expect_end|]. intros _ _. by apply reads_ret.
Qed.

Lemma state_field_encodes s :
  encodes (write_field 0 (write_integer (state_value s) tag_enumerated)) read_neg_state s 26.
Proof.
  destruct (field_encodes 0 (write_integer (state_value s) tag_enumerated)
    (let* state := read_integer der tag_enumerated in let* _ := ReaderOps.expect_end "negState" in dret state)
    (state_value s) 17) as (e & W & L & R); [done|done| |].
  { eapply encodes_last_end; [apply encodes_encodes_end, ber_encodes_integer; [done|destruct s; cbn; lia]|].
    eapply reads_bind_nil; [apply reads_expect_end|]. intros _ _. by apply reads_ret. }
  exists e. split_and!; [exact W|lia|]. intros k r b. destruct (R k r b) as (a & Ha & <-). exists s. split; [|done].
  revert Ha. unfold read_neg_state, dbind, within. destruct (read_field _ _) as [[f r']|]; [|done].
  destruct (read_integer _ _ _) as [[v r1]|]; [|done]. destruct (ReaderOps.expect_end _ _) as [[u r2]|]; [|done].
  cbn. intros E. assert (v = state_value s) as -> by congruence. assert (r' = Reader.mk (r ++ e) k b) as -> by congruence.
  by destruct s.
Qed.

Lemma resp_encodes t : resp_ok t = true -> encodes_end (write_resp t) decode_resp t 60000.
Proof.
  destruct t as [state mech token mic]. unfold resp_ok. cbn [supported_mech response_token mech_list_mic].
  intros H. bools. unfold max_token_size, max_mic_size in *.
  eapply encodes_end_le; [apply (structure_encodes _ _ _ _ _ 50000); [done|done|done|]|lia].
  cbn [neg_state supported_mech response_token mech_list_mic].
  eapply tail_encodes_end, tail_le.
  - eapply tail_optional; [done| | |]; [shelve| |].
    { intros x _. split; [apply state_field_encodes|by eexists]. }
    eapply tail_optional; [done| | |]; [shelve| |].
    { intros x ->. split; [by apply oid_field_encodes|by eexists]. }
    eapply tail_octets; [done|done|by apply bounded_spec|].
    apply tail_last, tail_octets; [done|done|by apply bounded_spec|]. apply tail_end.
    Unshelve. all: lia.
  - unfold max_token_size, max_mic_size; lia.
Qed.

Lemma init_encodes t : init_ok t = true -> encodes_end (write_init t) decode_init t 60000.
Proof.
  destruct t as [types tder token mic]. unfold init_ok. cbn [mech_types mech_types_der mech_token init_mech_list_mic].
  intros H. bools. unfold max_token_size, max_mic_size in *.
  eapply encodes_end_le; [apply (structure_encodes _ _ _ _ _ 50000); [done|done|done|]|lia].
  eapply encodes_end_le.
  - eapply encodes_seq_end; [apply (mech_types_encode types tder); done|].
    cbn beta iota. cbn [mech_token init_mech_list_mic].
    eapply tail_encodes_end, tail_absent, tail_octets; [done|done|by apply bounded_spec|].
    destruct mic as [mic|].
    + apply tail_last. eapply (tail_present 3 _ (Some mic)); [done|apply mic_field_encodes; by apply (bounded_spec max_mic_size (Some mic))|].
      exact (tail_end "NegTokenInit" (mkInit types tder token (Some mic)) 4).
    + eapply tail_absent. cbn [default]. rewrite bool_decide_true by done.
      eapply tail_absent. cbn [write_optional].
      eapply tail_le; [apply (tail_end "NegTokenInit" (mkInit types tder token None))|lia].
  - unfold max_token_size, max_mic_size; lia.
Qed.
Definition token_ok (t : NegotiationToken) : bool :=
  match t with TokenInit i => init_ok i | TokenResp r => resp_ok r end.

Definition encode (t : NegotiationToken) : option (list byte) :=
  match t with TokenInit i => encode_init i | TokenResp r => encode_resp r end.

(** A token is not taken for a bare NTLM message, whose first octet is no tag of SPNEGO. *)
Lemma not_raw_ntlm e t r b : peek_tag der (Reader.mk [] (e ++ []) b) = Ok (t, r) -> Ber.constructed t = true -> is_raw_ntlm e = false.
Proof.
  intros H Ht. apply bool_decide_false. intros E. rewrite <- (take_drop (length ntlm_signature) e), E in H.
  assert (ntlm_signature = byte_of 0x4E :: tl ntlm_signature) as Es by done. rewrite Es in H. cbn [app] in H.
  unfold peek_tag, dpeek, read_tag in H. rewrite dbind_ask, dbind_u8 in H.
  vm_compute in H. injection H as <- _. discriminate Ht.
Qed.

Lemma decode_init_token t :
  init_ok t = true -> exists e, encode_init t = Some e /\ decode e = Ok (TokenInit t) /\ is_raw_ntlm e = false /\ len e <= 61000.
Proof.
  intros H. destruct (init_encodes t H) as (c & Wc & Lc & Rc).
  assert (encodes_end (write_tlv tag_object_identifier spnego_oid ;;; write_constructed (ctx 0) (write_init t))
    (let* oid_offset := dask Reader.offset in
     let* mech := read_oid in
     if negb (bool_decide (mech = spnego_oid)) then dfail unsupported "InitialContextToken is not for SPNEGO" oid_offset
     else
       let* choice := read_field 0 in
       let* _ := ReaderOps.expect_end "InitialContextToken" in
       let* init := within choice decode_init in
       dret (TokenInit init)) (TokenInit t) (41 + (9 + 60000))) as Hb.
  { apply encodes_end_ask. intros x. eapply encodes_seq_end; [by apply oid_encodes|]. cbn beta.
    rewrite bool_decide_true by done. cbn [negb].
    apply (structure_then (ctx 0) "InitialContextToken" (write_init t) decode_init TokenInit); [done|done|done|]. by apply init_encodes. }
  destruct (structure_encodes initial_context_token "InitialContextToken" _ _ _ (41 + (9 + 60000)) ltac:(done) ltac:(done) ltac:(done) Hb)
    as (e & W & L & R).
  exists e. split; [by apply writes_run|].
  destruct Hb as (e0 & W0 & L0 & _).
  pose proof (constructed_tlv initial_context_token _ _ _ eq_refl W0 W) as Wt.
  pose proof (tlv_peek initial_context_token e0 e [] 0 ltac:(done) Wt) as Hp.
  split; [|split; [exact (not_raw_ntlm _ _ _ _ Hp eq_refl)|lia]].
  unfold decode, decode_token, Reader.make, dbind. rewrite <- (app_nil_r e) at 1.
  rewrite Hp. rewrite bool_decide_true by done.
  destruct (R [] 0) as (a & Ha & <-). unfold decode_context, dbind in *. by rewrite Ha.
Qed.

Lemma decode_resp_token t :
  resp_ok t = true -> exists e, encode_resp t = Some e /\ decode e = Ok (TokenResp t) /\ is_raw_ntlm e = false /\ len e <= 61000.
Proof.
  intros H. pose proof (resp_encodes t H) as Hc.
  pose proof (structure_then (ctx 1) "NegotiationToken" (write_resp t) decode_resp TokenResp t 60000) as (e & W & L & R);
    [done|done|done|exact Hc|].
  exists e. split; [by apply writes_run|].
  destruct Hc as (e0 & W0 & L0 & _).
  pose proof (constructed_tlv (ctx 1) _ _ _ eq_refl W0 W) as Wt.
  pose proof (tlv_peek (ctx 1) e0 e [] 0 ltac:(done) Wt) as Hp.
  split; [|split; [exact (not_raw_ntlm _ _ _ _ Hp eq_refl)|lia]].
  unfold decode, decode_token, Reader.make, dbind. rewrite <- (app_nil_r e) at 1.
  rewrite Hp. rewrite bool_decide_false by done.
  destruct (R [] 0) as (a & Ha & <-). unfold read_field, dbind in *. by rewrite Ha.
Qed.
(** Every token within the limits is encoded without an assertion, decodes to
    itself and is not taken for a bare NTLM message. *)
Theorem spnego_roundtrip t :
  token_ok t = true -> exists e, encode t = Some e /\ decode e = Ok t /\ is_raw_ntlm e = false /\ len e <= 61000.
Proof. destruct t; [apply decode_init_token|apply decode_resp_token]. Qed.

Lemma make_init_ok types token :
  types <> [] -> len types <= max_mech_types -> forallb oid_ok types = true -> bounded max_token_size token = true ->
  exists t, make_neg_token_init types token = Some t /\ init_ok t = true /\ mech_types t = types /\ mech_token t = token /\
    init_mech_list_mic t = None.
Proof.
  intros Hn Hl Ho Hb. destruct (oids_encode types Ho) as (c & Wc & Lc & _).
  unfold max_mech_types in Hl.
  destruct (ber_encodes_tlv tag_sequence c der) as (e & W & _); [done|lia|].
  assert (encode_mech_types types = Some e) as He.
  { apply writes_run. apply writes_assert; [done|]. eapply writes_local; [by apply writes_run|done]. }
  unfold make_neg_token_init. rewrite He. eexists. split; [done|]. split_and!; [|done..].
  unfold init_ok, max_mech_types. cbn [mech_types mech_types_der mech_token init_mech_list_mic].
  rewrite He, Ho, Hb. rewrite bool_decide_false by done. rewrite bool_decide_true by done.
  rewrite (proj2 (Z.leb_le _ _) Hl). done.
Qed.

(** The size of an encoded reply, and that it is encoded whatever the sizes within 2^31. *)
Lemma resp_size t :
  olen (supported_mech t) <= 32 -> olen (response_token t) < 2 ^ 30 -> olen (mech_list_mic t) < 2 ^ 30 ->
  exists e, encode_resp t = Some e /\ len e <= 150 + olen (response_token t) + olen (mech_list_mic t).
Proof.
  destruct t as [state mech token mic]. cbn [supported_mech response_token mech_list_mic]. intros Hm Ht Hi.
  pose proof (olen_nonneg token). pose proof (olen_nonneg mic). apply writable_run.
  eapply writable_le; [apply (writable_constructed (ctx 1) _ (9 + (26 + (50 + ((18 + olen token) + (18 + olen mic))))));
    [done|done|lia|]|lia].
  apply writable_constructed; [done|done|lia|]. cbn [neg_state supported_mech response_token mech_list_mic].
  apply writable_seq.
  { eapply writable_le; [apply (writable_optional _ _ (fun _ => 26)); intros s _; eapply writable_encodes, state_field_encodes|].
    by destruct state. }
  apply writable_seq.
  { eapply writable_le; [apply (writable_optional _ _ (fun oid => 18 + len oid))|destruct mech; cbn in Hm |- *; lia].
    intros oid ->. cbn in Hm. replace (18 + len oid) with (9 + (9 + len oid)) by lia.
    apply writable_constructed; [done|done|lia|]. apply writable_tlv; [done|lia]. }
  apply writable_seq; (apply writable_optional_octets; [done|lia]).
Qed.

(** The mechanisms of a decoded token are well formed. *)
Lemma read_oid_ok r oid r' : read_oid r = Ok (oid, r') -> oid_ok oid = true.
Proof.
  unfold read_oid. intros (tlv & r1 & _ & E)%dbind_inv. apply dbind_inv in E as (u & r2 & E & E2).
  injection E2 as <- _. unfold dlift in E. destruct (check_oid (value tlv) _) eqn:Ec; [|done].
  unfold oid_ok. revert Ec. unfold check_oid. destruct (bool_decide _); [done|].
  destruct (_ <? _); [done|]. by destruct (oid_loop _ _) as [[]|].
Qed.

Lemma mech_types_loop_ok fuel : forall done_ r types r',
  Forall (fun o => oid_ok o = true) done_ -> mech_types_loop fuel done_ r = Ok (types, r') ->
  Forall (fun o => oid_ok o = true) types.
Proof.
  induction fuel as [|fuel IH]; intros done_ r types r' Hd; cbn [mech_types_loop]; [congruence|].
  destruct (Reader.empty r); [congruence|]. destruct (_ =? _); [done|].
  intros (oid & r1 & Eo & E)%dbind_inv. eapply IH; [|exact E]. apply Forall_app. split; [done|].
  apply Forall_singleton. eapply read_oid_ok. exact Eo.
Qed.

Lemma decoded_init token init : decode token = Ok (TokenInit init) -> Forall (fun o => oid_ok o = true) (mech_types init).
Proof.
  unfold decode. destruct (decode_token _) as [[x k]|] eqn:E; [|done]. intros [= ->]. revert E. unfold decode_token.
  intros (t & r & _ & E)%dbind_inv. destruct (bool_decide _).
  2: { apply dbind_inv in E as (? & ? & _ & E). apply dbind_inv in E as (? & ? & _ & E).
       apply dbind_inv in E as (? & ? & _ & E). discriminate. }
  unfold decode_context in E. apply dbind_inv in E as (inner & r1 & _ & E). apply dbind_inv in E as (? & r2 & _ & E).
  unfold within in E. destruct (dbind _ _ inner) as [[x' r3]|] eqn:E3; [|done]. injection E as -> _.
  rewrite dbind_ask in E3. apply dbind_inv in E3 as (mech & r4 & _ & E3). destruct (negb _); [done|].
  apply dbind_inv in E3 as (choice & r5 & _ & E3). apply dbind_inv in E3 as (? & r6 & _ & E3).
  apply dbind_inv in E3 as (i & r7 & Ei & E3). injection E3 as -> _.
  destruct (decode_init choice) as [[i' r8]|] eqn:Ed; [|done]. injection Ei as -> _. revert Ed. unfold decode_init.
  intros (seq & k1 & _ & E)%dbind_inv. apply dbind_inv in E as (? & k2 & _ & E). unfold within in E.
  destruct (dbind _ _ seq) as [[i2 k3]|] eqn:Eb; [|done]. injection E as -> _.
  apply dbind_inv in Eb as ([types der_] & k4 & Et & Eb). apply dbind_inv in Eb as (? & k5 & _ & Eb).
  apply dbind_inv in Eb as (? & k6 & _ & Eb). apply dbind_inv in Eb as (? & k7 & _ & Eb).
  apply dbind_inv in Eb as (? & k8 & _ & Eb). apply dbind_inv in Eb as (? & k9 & _ & Eb). injection Eb as <- _.
  cbn [mech_types]. unfold decode_mech_types in Et. apply dbind_inv in Et as (? & l1 & _ & Et).
  apply dbind_inv in Et as (list_ & l2 & _ & Et). apply dbind_inv in Et as (types' & l3 & El & Et).
  destruct (bool_decide _); [done|]. injection Et as <- _ _.
  unfold within in El. destruct (mech_types_loop (length (value list_)) [] (tlv_reader list_)) as [[ty ?]|] eqn:Em; [|done].
  injection El as -> _.
  eapply mech_types_loop_ok; [|exact Em]. constructor.
Qed.

Lemma init_size t :
  init_ok t = true -> exists e, encode_init t = Some e /\ len e <= 900 + olen (mech_token t) + olen (init_mech_list_mic t).
Proof.
  destruct t as [types tder token mic]. unfold init_ok. cbn [mech_types mech_types_der mech_token init_mech_list_mic].
  intros H. bools. destruct (mech_types_encode types tder) as (f & Wf & Lf & _); [done..|].
  pose proof (olen_nonneg token). pose proof (olen_nonneg mic).
  assert (olen token <= max_token_size) as Ht by (destruct token; cbn in *; bools; [done|done]).
  assert (olen mic <= max_mic_size) as Hm by (destruct mic; cbn in *; bools; [done|done]).
  unfold max_token_size, max_mic_size in *. apply writable_run.
  eapply writable_le; [apply (writable_constructed initial_context_token _
    (15 + (9 + (9 + (700 + ((18 + olen token) + (18 + olen mic))))))); [done|done|lia|]|cbn; lia].
  apply writable_seq; [by apply (writable_tlv tag_object_identifier spnego_oid)|].
  apply writable_constructed; [done|done|lia|]. apply writable_constructed; [done|done|lia|].
  apply writable_seq; [by exists f|]. cbn [mech_token init_mech_list_mic].
  apply writable_seq; (apply writable_optional_octets; [done|lia]).
Qed.
End Spnego.
