(* ===== verification/CredsspCodec.v ===== *)
(** * CredSSP messages

    Models the codecs of [src/src/farland/auth/credssp.hpp] and [credssp.cpp]:
    TSRequest and its framing, and TSCredentials with the three kinds of
    credentials of [MS-CSSP].  [SecretBytes] is its bytes: wiping memory is left
    out.  An encoder returns [None] where an assertion of the DER writer fails.
    The theorems are the round trips of requests and delegated passwords. *)

From S2P Require Import Prelude Buffers CodecLogic Text Ber DerFields PreAuth.
Open Scope Z_scope.

Module CredsspCodec.
Import Ber DerFields.

Definition max_ts_request_size : Z := 64 * 1024.
Definition max_field_size : Z := 48000.
Definition max_nego_tokens : Z := 4.
Definition max_supplemental_creds : Z := 16.
Definition nonce_size : Z := 32.
Definition min_version : Z := 2.
Definition max_version : Z := 6.
Definition status_logon_failure : Z := 0xC000006D.

(** ** Data *)

Record TsRequest := mkRequest {
  version : Z;
  nego_tokens : list (list byte);
  auth_info : option (list byte);
  pub_key_auth : option (list byte);
  error_code : option Z;
  client_nonce : option (list byte) }.

Record TsPasswordCreds := mkPassword {
  domain_name : list byte;
  user_name : list byte;
  secret : list byte }.

Inductive TsCredentials :=
  | PasswordCreds (c : TsPasswordCreds)
  | SmartCardCreds (bytes : list byte)
  | RemoteGuardCreds (bytes : list byte).

Definition read_octets (number : Z) : Dec (list byte) :=
  read_octets_field "CredSSP field too large" number max_field_size.

(** ** TSCredentials *)

Definition decode_password_creds : Dec TsPasswordCreds :=
  let* seq := read_constructed tag_sequence der in
  let* _ := ReaderOps.expect_end "TSPasswordCreds" in
  within seq (
    let* domain := read_octets 0 in
    let* user := read_octets 1 in
    let* password := read_octets 2 in
    let* _ := ReaderOps.expect_end "TSPasswordCreds" in
    dret (mkPassword domain user password)).

(** The loops over optional OCTET STRING fields. *)
Fixpoint check_optional_octets (numbers : list Z) : Dec unit :=
  match numbers with
  | [] => dret tt
  | number :: numbers' =>
      let* _ := optional number (read_octets number) in
      check_optional_octets numbers'
  end.

Definition check_csp_data : Dec unit :=
  let* csp := read_constructed tag_sequence der in
  let* _ := ReaderOps.expect_end "cspData" in
  within csp (
    let* key_spec := read_field 0 in
    let* _ := within key_spec (
      let* _ := read_integer der tag_integer in
      ReaderOps.expect_end "keySpec") in
    let* _ := check_optional_octets [1; 2; 3; 4] in
    ReaderOps.expect_end "TSCspDataDetail").

Definition check_smart_card_creds : Dec unit :=
  let* seq := read_constructed tag_sequence der in
  let* _ := ReaderOps.expect_end "TSSmartCardCreds" in
  within seq (
    let* _ := read_octets 0 in
    let* csp_field := read_field 1 in
    let* _ := within csp_field check_csp_data in
    let* _ := check_optional_octets [2; 3] in
    ReaderOps.expect_end "TSSmartCardCreds").

Definition check_package_cred : Dec unit :=
  let* seq := read_constructed tag_sequence der in
  within seq (
    let* _ := read_octets 0 in
    let* _ := read_octets 1 in
    ReaderOps.expect_end "TSRemoteGuardPackageCred").

Fixpoint supplemental_loop (fuel : nat) (count : Z) : Dec unit := fun r =>
  match fuel with
  | O => Ok (tt, r)
  | S fuel' =>
      if Reader.empty r then Ok (tt, r)
      else if count =? max_supplemental_creds then fail limit_exceeded "too many supplementalCreds" (Reader.offset r)
      else (let* _ := check_package_cred in supplemental_loop fuel' (count + 1)) r
  end.

Definition check_supplemental : Dec unit :=
  let* field := read_field 1 in
  let* list_ := within field (
    let* list_ := read_constructed tag_sequence der in
    let* _ := ReaderOps.expect_end "supplementalCreds" in
    dret list_) in
  within list_ (supplemental_loop (S (length (Reader.rest list_))) 0).

Definition check_remote_guard_creds : Dec unit :=
  let* seq := read_constructed tag_sequence der in
  let* _ := ReaderOps.expect_end "TSRemoteGuardCreds" in
  within seq (
    let* logon := read_field 0 in
    let* _ := within logon (
      let* _ := check_package_cred in
      ReaderOps.expect_end "logonCred") in
    let* _ := optional 1 check_supplemental in
    ReaderOps.expect_end "TSRemoteGuardCreds").

Definition cred_type_password : Z := 1.
Definition cred_type_smart_card : Z := 2.
Definition cred_type_remote_guard : Z := 6.

Definition cred_type (c : TsCredentials) : Z :=
  match c with
  | PasswordCreds _ => cred_type_password
  | SmartCardCreds _ => cred_type_smart_card
  | RemoteGuardCreds _ => cred_type_remote_guard
  end.

Definition write_inner (c : TsCredentials) : Enc unit :=
  match c with
  | PasswordCreds p =>
      write_constructed tag_sequence (
        write_octets_field 0 (domain_name p) ;;;
        write_octets_field 1 (user_name p) ;;;
        write_octets_field 2 (secret p))
  | SmartCardCreds bytes => Writer.bytes bytes
  | RemoteGuardCreds bytes => Writer.bytes bytes
  end.

Definition encode_credentials (c : TsCredentials) : option (list byte) :=
  inner ← Writer.run (write_inner c);
  Writer.run (
    write_constructed tag_sequence (
      write_field 0 (write_integer (cred_type c) tag_integer) ;;;
      write_octets_field 1 inner)).

(** [credType] and [credentials], the contents of the outer SEQUENCE. *)
Definition read_cred_fields : Dec (Z * Z * Tlv) :=
  let* type_field := read_field 0 in
  let type_offset := Reader.offset type_field in
  let* type := within type_field (
    let* type := read_integer der tag_integer in
    let* _ := ReaderOps.expect_end "credType" in
    dret type) in
  let* creds_field := read_field 1 in
  let* creds := within creds_field (
    let* creds := expect_tlv tag_octet_string der in
    let* _ := ReaderOps.expect_end "credentials" in
    dret creds) in
  let* _ := ReaderOps.expect_end "TSCredentials" in
  dret (type, type_offset, creds).

Definition decode_contents (fields : Z * Z * Tlv) : Dec TsCredentials :=
  let '(type, type_offset, creds) := fields in
  if type =? cred_type_password then
    within (tlv_reader creds) (let* password := decode_password_creds in dret (PasswordCreds password))
  else if type =? cred_type_smart_card then
    within (tlv_reader creds) (let* _ := check_smart_card_creds in dret (SmartCardCreds (value creds)))
  else if type =? cred_type_remote_guard then
    within (tlv_reader creds) (let* _ := check_remote_guard_creds in dret (RemoteGuardCreds (value creds)))
  else dfail unsupported "unknown TSCredentials credType" type_offset.

Definition decode_credentials : Dec TsCredentials :=
  let* seq := read_constructed tag_sequence der in
  let* _ := ReaderOps.expect_end "TSCredentials" in
  let* fields := within seq read_cred_fields in
  decode_contents fields.

Definition decode_ts_credentials (bytes : list byte) : Result TsCredentials :=
  match decode_credentials (Reader.make bytes 0) with Ok (c, _) => Ok c | Err e => Err e end.

Definition to_bytes (s : string) : list byte := String.list_byte_of_string s.
Definition of_bytes (b : list byte) : string := String.string_of_list_byte b.

Definition to_ts_credentials (c : PreAuth.PasswordCredentials) : TsCredentials :=
  PasswordCreds (mkPassword
    (Text.utf8_to_utf16le (to_bytes (PreAuth.cred_domain c)))
    (Text.utf8_to_utf16le (to_bytes (PreAuth.cred_user c)))
    (Text.utf8_to_utf16le (to_bytes (PreAuth.password c)))).

Definition to_password_credentials (c : TsPasswordCreds) : PreAuth.PasswordCredentials :=
  PreAuth.mkCredentials
    (of_bytes (Text.utf16le_to_utf8 (domain_name c)))
    (of_bytes (Text.utf16le_to_utf8 (user_name c)))
    (of_bytes (Text.utf16le_to_utf8 (secret c))).

(** ** TSRequest *)

Fixpoint write_tokens (tokens : list (list byte)) : Enc unit :=
  match tokens with
  | [] => eret tt
  | token :: tokens' => write_constructed tag_sequence (write_octets_field 0 token) ;;; write_tokens tokens'
  end.

(** [static_cast<std::int32_t>] of an unsigned value. *)
Definition to_int32 (v : Z) : Z := if wrap 32 v <? 2 ^ 31 then wrap 32 v else wrap 32 v - 2 ^ 32.

Definition write_request (r : TsRequest) : Enc unit :=
  write_constructed tag_sequence (
    write_field 0 (write_unsigned (version r) tag_integer) ;;;
    (if negb (bool_decide (nego_tokens r = []))
     then write_field 1 (write_constructed tag_sequence (write_tokens (nego_tokens r)))
     else eret tt) ;;;
    write_optional (write_octets_field 2) (auth_info r) ;;;
    write_optional (write_octets_field 3) (pub_key_auth r) ;;;
    write_optional (fun code => write_field 4 (write_integer (to_int32 code) tag_integer)) (error_code r) ;;;
    write_optional (write_octets_field 5) (client_nonce r)).

Definition encode_request (r : TsRequest) : option (list byte) := Writer.run (write_request r).

Definition read_version : Dec Z :=
  let* version_field := read_field 0 in
  let version_offset := Reader.offset version_field in
  let* v := within version_field (
    let* v := read_unsigned der tag_integer in
    let* _ := ReaderOps.expect_end "version" in
    dret v) in
  if 2 ^ 32 - 1 <? v then dfail invalid_value "TSRequest version out of range" version_offset else dret v.

Definition read_nego_data : Dec (list byte) :=
  let* data := read_constructed tag_sequence der in
  within data (
    let* token := read_octets 0 in
    let* _ := ReaderOps.expect_end "NegoData" in
    dret token).

Fixpoint tokens_loop (fuel : nat) (tokens : list (list byte)) : Dec (list (list byte)) := fun r =>
  match fuel with
  | O => Ok (tokens, r)
  | S fuel' =>
      if Reader.empty r then
        if bool_decide (tokens = []) then fail invalid_length "negoTokens is empty" (Reader.offset r) else Ok (tokens, r)
      else if len tokens =? max_nego_tokens then fail limit_exceeded "too many negoTokens" (Reader.offset r)
      else (let* token := read_nego_data in tokens_loop fuel' (tokens ++ [token])) r
  end.

Definition read_nego_tokens : Dec (list (list byte)) :=
  let* field := read_field 1 in
  let* list_ := within field (
    let* list_ := read_constructed tag_sequence der in
    let* _ := ReaderOps.expect_end "negoTokens" in
    dret list_) in
  within list_ (tokens_loop (S (length (Reader.rest list_))) []).

Definition read_error_code : Dec Z :=
  let* field := read_field 4 in
  let offset := Reader.offset field in
  let* code := within field (
    let* code := read_integer der tag_integer in
    let* _ := ReaderOps.expect_end "errorCode" in
    dret code) in
  if (code <? - 2 ^ 31) || (2 ^ 32 - 1 <? code)
  then dfail invalid_value "errorCode is not a 32-bit NTSTATUS" offset
  else dret (wrap 32 code).

Definition read_client_nonce : Dec (list byte) :=
  let* offset := dask Reader.offset in
  let* nonce := read_octets 5 in
  if negb (len nonce =? nonce_size) then dfail invalid_length "clientNonce is not 32 bytes" offset else dret nonce.

Definition decode_request : Dec TsRequest :=
  let* seq := read_constructed tag_sequence der in
  let* _ := ReaderOps.expect_end "TSRequest" in
  within seq (
    let* version := read_version in
    let* tokens := optional 1 read_nego_tokens in
    let* auth := optional 2 (read_octets 2) in
    let* key := optional 3 (read_octets 3) in
    let* code := optional 4 read_error_code in
    let* nonce := optional 5 read_client_nonce in
    let* _ := ReaderOps.expect_end "TSRequest" in
    dret (mkRequest version (default [] tokens) auth key code nonce)).

Definition decode_ts_request (bytes : list byte) : Result TsRequest :=
  if max_ts_request_size <? len bytes then fail limit_exceeded "TSRequest larger than 64 KiB" 0
  else match decode_request (Reader.make bytes 0) with Ok (r, _) => Ok r | Err e => Err e end.

(** [frame_ts_request]: [None] while the tag and length are incomplete. *)
Definition frame_ts_request (stream : list byte) : Result (option Z) :=
  match read_tag der (Reader.make stream 0) with
  | Err e => if bool_decide (code e = truncated) then Ok None else Err e
  | Ok (t, r) =>
      if negb (bool_decide (t = tag_sequence))
      then fail invalid_value "TSRequest does not start with a SEQUENCE" 0
      else match read_length der r with
           | Err e => if bool_decide (code e = truncated) then Ok None else Err e
           | Ok (length, r) =>
               if max_ts_request_size - Reader.position r <? length
               then fail limit_exceeded "TSRequest larger than 64 KiB" 0
               else Ok (Some (Reader.position r + length))
           end
  end.

(** ** Round trips *)

Definition bounded (o : option (list byte)) : bool := match o with Some x => len x <=? max_field_size | None => true end.

Definition request_ok (r : TsRequest) : bool :=
  (0 <=? version r) && (version r <? 2 ^ 32) &&
  (len (nego_tokens r) <=? max_nego_tokens) && forallb (fun t => len t <=? max_field_size) (nego_tokens r) &&
  bounded (auth_info r) && bounded (pub_key_auth r) &&
  match error_code r with Some c => (0 <=? c) && (c <? 2 ^ 32) | None => true end &&
  match client_nonce r with Some n => len n =? nonce_size | None => true end.

Lemma version_encodes v :
  0 <= v < 2 ^ 32 -> encodes (write_field 0 (write_unsigned v tag_integer)) read_version v 27.
Proof.
  intros Hv.
  destruct (field_encodes 0 (write_unsigned v tag_integer)
    (let* v := read_unsigned der tag_integer in let* _ := ReaderOps.expect_end "version" in dret v) v 18) as (e & W & L & R);
    [done|done| |].
  { eapply encodes_last_end; [apply encodes_encodes_end, ber_encodes_unsigned; [done|lia]|].
    eapply reads_bind_nil; [apply reads_expect_end|]. intros _ _. by apply reads_ret. }
  exists e. split_and!; [exact W|lia|]. intros k r b. destruct (R k r b) as (a & Ha & <-). exists v. split; [|done].
  revert Ha. unfold read_version, dbind, within. destruct (read_field _ _) as [[f r']|]; [|done].
  destruct (read_unsigned _ _ _) as [[x r1]|]; [|done]. destruct (ReaderOps.expect_end _ _) as [[u r2]|]; [|done].
  cbn [dret]. intros E. assert (x = v) as -> by congruence. assert (r' = Reader.mk (r ++ e) k b) as -> by congruence.
  cbv beta iota. destruct (Z.ltb_spec (2 ^ 32 - 1) v); [lia|done].
Qed.

Lemma int32_range c : 0 <= c < 2 ^ 32 -> - 2 ^ 31 <= to_int32 c < 2 ^ 31 /\ wrap 32 (to_int32 c) = c.
Proof. unfold to_int32, wrap. intros H. rewrite (Z.mod_small c) by lia. destruct (Z.ltb_spec c (2 ^ 31)); lia. Qed.

Lemma error_encodes c :
  0 <= c < 2 ^ 32 -> encodes (write_field 4 (write_integer (to_int32 c) tag_integer)) read_error_code c 26.
Proof.
  intros Hc. destruct (int32_range c Hc) as [Hr Hw].
  destruct (field_encodes 4 (write_integer (to_int32 c) tag_integer)
    (let* v := read_integer der tag_integer in let* _ := ReaderOps.expect_end "errorCode" in dret v) (to_int32 c) 17)
    as (e & W & L & R); [done|done| |].
  { eapply encodes_last_end; [apply encodes_encodes_end, ber_encodes_integer; [done|lia]|].
    eapply reads_bind_nil; [apply reads_expect_end|]. intros _ _. by apply reads_ret. }
  exists e. split_and!; [exact W|lia|]. intros k r b. destruct (R k r b) as (a & Ha & <-). exists c. split; [|done].
  revert Ha. unfold read_error_code, dbind, within. destruct (read_field _ _) as [[f r']|]; [|done].
  destruct (read_integer _ _ _) as [[x r1]|]; [|done]. destruct (ReaderOps.expect_end _ _) as [[u r2]|]; [|done].
  cbn [dret]. intros E. assert (x = to_int32 c) as -> by congruence. assert (r' = Reader.mk (r ++ e) k b) as -> by congruence.
  cbv beta iota. destruct (Z.ltb_spec (to_int32 c) (- 2 ^ 31)), (Z.ltb_spec (2 ^ 32 - 1) (to_int32 c)); try lia.
  cbn [orb]. by rewrite Hw.
Qed.

Lemma octets_encodes number v :
  small number = true -> len v <= max_field_size ->
  encodes (write_octets_field number v) (read_octets number) v (18 + max_field_size).
Proof.
  intros Hs Hv. eapply encodes_le; [by apply octets_field_encodes|lia].
Qed.

Lemma nonce_encodes n :
  len n = nonce_size -> encodes (write_octets_field 5 n) read_client_nonce n (18 + max_field_size).
Proof.
  intros Hn. apply encodes_ask. destruct (octets_encodes 5 n) as (e & W & L & R); [done|rewrite Hn; done|].
  exists e. split_and!; [done|done|]. intros x k. eapply reads_bind_nil; [apply R|]. intros ? <-.
  rewrite Hn, Z.eqb_refl. by apply reads_ret.
Qed.

Lemma nego_data_encodes token :
  len token <= max_field_size ->
  exists e, writes (write_constructed tag_sequence (write_octets_field 0 token)) e /\ len e <= 27 + max_field_size /\
    e <> [] /\ forall k, reads read_nego_data e k (eq token).
Proof.
  intros Ht. pose proof (octets_encodes 0 token eq_refl Ht) as Ho.
  destruct (ber_encodes_constructed tag_sequence (write_octets_field 0 token) der
    (let* token := read_octets 0 in let* _ := ReaderOps.expect_end "NegoData" in dret token) token (18 + max_field_size))
    as (e & W & L & R); [done|done|done| |].
  { eapply encodes_last_end; [by apply encodes_encodes_end|].
    eapply reads_bind_nil; [apply reads_expect_end|]. intros _ _. by apply reads_ret. }
  destruct Ho as (c & Wc & _).
  exists e. split_and!; [exact W|lia| |exact R]. exact (constructed_nonempty tag_sequence _ c e ltac:(done) eq_refl Wc W).
Qed.

Lemma tokens_encode ts :
  forallb (fun t => len t <=? max_field_size) ts = true ->
  exists e, writes (write_tokens ts) e /\ len e <= (27 + max_field_size) * len ts /\ (length ts <= length e)%nat /\
    forall done_ fuel, done_ ++ ts <> [] -> len done_ + len ts <= max_nego_tokens -> (length ts < fuel)%nat ->
      reads (tokens_loop fuel done_) e [] (eq (done_ ++ ts)).
Proof.
  induction ts as [|t ts IH]; intros Ht.
  - exists []. split_and!; [apply writes_ret|by cbn|done|]. intros done_ fuel Hn _ Hf. rewrite app_nil_r in *. intros s b.
    exists done_. split; [|done]. destruct fuel; [lia|]. cbn [tokens_loop]. rewrite empty_mk. cbn [app].
    rewrite bool_decide_true, bool_decide_false by done. by rewrite app_nil_r.
  - cbn [forallb] in Ht. bools.
    destruct (nego_data_encodes t) as (e1 & W1 & L1 & He1 & R1); [done|].
    destruct IH as (e2 & W2 & L2 & Hl & R2); [done|].
    exists (e1 ++ e2). split_and!; [by apply writes_seq|len_lia|rewrite length_app; destruct e1; [done|cbn; lia]|].
    intros done_ fuel Hn Hm Hf. rewrite len_cons in Hm. pose proof (len_nonneg ts).
    destruct fuel as [|fuel]; [lia|]. cbn [length] in Hf. intros s b. cbn [tokens_loop]. rewrite empty_mk.
    rewrite bool_decide_false by (intros E; apply app_nil in E as [E _]; by apply app_nil in E as [E _]).
    destruct (Z.eqb_spec (len done_) max_nego_tokens); [lia|].
    destruct (reads_bind read_nego_data (fun o => tokens_loop fuel (done_ ++ [o])) e1 e2 [] (eq t) (eq (done_ ++ t :: ts)))
      with (s := s) (b := b) as (a & Ha & <-); [apply R1| |exists (done_ ++ t :: ts); done].
    intros ? <-. replace (done_ ++ t :: ts) with ((done_ ++ [t]) ++ ts) by (by rewrite <- app_assoc).
    apply R2; [by destruct done_|len_lia|lia].
Qed.

Lemma nego_tokens_encode ts :
  forallb (fun t => len t <=? max_field_size) ts = true -> ts <> [] -> len ts <= max_nego_tokens ->
  encodes (write_field 1 (write_constructed tag_sequence (write_tokens ts))) read_nego_tokens ts 200000.
Proof.
  intros Ht Hn Hl. destruct (tokens_encode ts Ht) as (c & Wc & Lc & Hc & Rc).
  unfold max_field_size, max_nego_tokens in *. pose proof (len_nonneg ts).
  destruct (ber_encodes_tlv tag_sequence c der) as (e & W & L & R); [done|lia|].
  destruct (field_encodes 1 (write_constructed tag_sequence (write_tokens ts))
    (let* list_ := read_constructed tag_sequence der in let* _ := ReaderOps.expect_end "negoTokens" in
     within list_ (tokens_loop (S (length (Reader.rest list_))) [])) ts (9 + len c)) as (e' & W' & L' & R'); [done|lia| |].
  { exists e. split_and!; [|done|].
    { apply writes_assert; [done|]. eapply writes_local; [by apply writes_run|done]. }
    eapply reads_bind_nil.
    { eapply reads_bind_nil; [eapply reads_expect_tlv; apply R|]. intros tlv Hv.
      apply (reads_ret _ _ (fun r => exists b, r = Reader.make c b)). exists (value_offset tlv). unfold tlv_reader. by rewrite Hv. }
    intros ? [b ->]. eapply reads_bind_nil; [apply reads_expect_end|]. intros _ _. apply reads_within.
    apply (Rc []); [done|done|cbn; lia]. }
  exists e'. split_and!; [exact W'|lia|]. intros k s b. destruct (R' k s b) as (a & Ha & <-). exists ts. split; [|done].
  revert Ha. unfold read_nego_tokens, dbind, within. destruct (read_field _ _) as [[f r']|]; [|done].
  destruct (read_constructed _ _ f) as [[l r1]|]; [|done]. destruct (ReaderOps.expect_end _ _) as [[u r2]|]; [|done].
  cbn [dret]. destruct (tokens_loop _ _ _) as [[x r3]|]; [|done]. intros E. congruence.
Qed.
Definition request_body (r : TsRequest) : Enc unit :=
  write_field 0 (write_unsigned (version r) tag_integer) ;;;
  (if negb (bool_decide (nego_tokens r = []))
   then write_field 1 (write_constructed tag_sequence (write_tokens (nego_tokens r)))
   else eret tt) ;;;
  write_optional (write_octets_field 2) (auth_info r) ;;;
  write_optional (write_octets_field 3) (pub_key_auth r) ;;;
  write_optional (fun code => write_field 4 (write_integer (to_int32 code) tag_integer)) (error_code r) ;;;
  write_optional (write_octets_field 5) (client_nonce r).

Definition request_fields : Dec TsRequest :=
  let* version := read_version in
  let* tokens := optional 1 read_nego_tokens in
  let* auth := optional 2 (read_octets 2) in
  let* key := optional 3 (read_octets 3) in
  let* code := optional 4 read_error_code in
  let* nonce := optional 5 read_client_nonce in
  let* _ := ReaderOps.expect_end "TSRequest" in
  dret (mkRequest version (default [] tokens) auth key code nonce).

Lemma octets_bounded o : bounded o = true -> match o with Some x => len x <= max_field_size | None => True end.
Proof. destruct o; cbn; [|done]. intros H. bools. done. Qed.

(** The field of the tokens, absent when there are none. *)
Lemma tail_tokens {A} tokens m (q : option (list (list byte)) -> Dec A) v n :
  forallb (fun t => len t <=? max_field_size) tokens = true -> len tokens <= max_nego_tokens ->
  (forall ts, default [] ts = tokens -> tail m (q ts) v n 2) ->
  tail ((if negb (bool_decide (tokens = [])) then write_field 1 (write_constructed tag_sequence (write_tokens tokens)) else eret tt) ;;; m)
    (let* ts := optional 1 read_nego_tokens in q ts) v (200000 + n) 1.
Proof.
  intros Ht Hl H. destruct (bool_decide_reflect (tokens = [])) as [->|Hn]; cbn [negb].
  - destruct (tail_absent 1 m read_nego_tokens q v n (H None eq_refl)) as (e & W & L & F & R).
    exists e. split_and!; [exact W|lia|exact F|exact R].
  - eapply tail_present; [done|by apply nego_tokens_encode|]. by apply (H (Some tokens)).
Qed.

Lemma request_body_encodes r : request_ok r = true -> encodes_end (request_body r) request_fields r 400000.
Proof.
  destruct r as [v tokens auth key code nonce]. unfold request_ok, request_body, request_fields.
  cbn [version nego_tokens auth_info pub_key_auth error_code client_nonce]. intros H. bools.
  eapply encodes_end_le; [eapply encodes_seq_end; [by apply version_encodes|]; cbn beta|].
  - eapply tail_encodes_end, tail_tokens; [done|done|]. intros ts Hts.
    eapply tail_octets; [done|done|by apply octets_bounded|].
    eapply tail_octets; [done|done|by apply octets_bounded|].
    eapply (tail_optional 4 _ _ _ _ _ _ 26); [done|done| |].
    { intros x ->. bools. split; [by apply error_encodes|by eexists]. }
    apply tail_last, (tail_optional 5 _ _ _ _ _ _ (18 + max_field_size)); [done|done| |].
    { intros x ->. bools. split; [by apply nonce_encodes|by eexists]. }
    rewrite <- Hts. apply tail_end.
  - unfold max_field_size. lia.
Qed.

(** The header of a structure is enough to frame it, whatever follows. *)
Lemma frame_structure c e rest :
  writes (write_tlv tag_sequence c) e -> len e <= max_ts_request_size -> frame_ts_request (e ++ rest) = Ok (Some (len e)).
Proof.
  intros W Hl. unfold max_ts_request_size in Hl.
  destruct (ber_encodes_tag tag_sequence der ltac:(done)) as (e1 & W1 & _ & R1).
  assert (len c < 2 ^ 32) as Hc.
  { destruct (tlv_prefix tag_sequence c e ltac:(done) W) as (? & l & _ & E).
    specialize (W []). unfold write_tlv, ebind, Writer.bytes in W.
    destruct (write_tag _ _) as [[? w]|]; [|done]. destruct (write_length _ _) as [[? w']|]; [|done].
    assert (e = w' ++ c) as -> by (cbn [app] in W; congruence). len_lia. }
  destruct (ber_encodes_length (len c) der ltac:(len_lia)) as (e2 & W2 & _ & R2).
  assert (e = e1 ++ e2 ++ c) as -> by (eapply writes_det; [exact W|]; repeat (apply writes_seq; [done|]); apply writes_bytes).
  unfold frame_ts_request, Reader.make. rewrite <- !app_assoc.
  destruct (R1 (e2 ++ c ++ rest) [] 0) as (t & -> & <-). rewrite bool_decide_true by done. cbn [negb].
  destruct (R2 (c ++ rest) ([] ++ e1) 0) as (n & -> & <-).
  assert (Reader.position (Reader.mk (([] ++ e1) ++ e2) (c ++ rest) 0) = len e1 + len e2) as ->
    by (unfold Reader.position; cbn [Reader.seen]; len_lia).
  unfold max_ts_request_size. autorewrite with len in Hl |- *.
  destruct (Z.ltb_spec (64 * 1024 - (len e1 + len e2)) (len c)); [lia|]. do 2 f_equal. lia.
Qed.

(** C39: a request within the limits is encoded without an assertion; when the
    encoding is no longer than the limit it is framed as the first of any stream
    and decodes to itself. *)
Theorem ts_request_roundtrip r :
  request_ok r = true ->
  exists e, encode_request r = Some e /\
    (len e <= max_ts_request_size ->
     decode_ts_request e = Ok r /\ forall rest, frame_ts_request (e ++ rest) = Ok (Some (len e))).
Proof.
  intros H. pose proof (request_body_encodes r H) as Hb.
  destruct (structure_encodes tag_sequence "TSRequest" (request_body r) request_fields r 400000 ltac:(done) eq_refl ltac:(done) Hb)
    as (e & W & L & R).
  destruct Hb as (c & Wc & _). exists e. split; [by apply writes_run|]. intros Hl. split.
  - unfold decode_ts_request. destruct (Z.ltb_spec max_ts_request_size (len e)); [lia|].
    unfold Reader.make. destruct (R [] 0) as (a & Ha & <-). rewrite app_nil_r in Ha.
    change decode_request with (let* seq := read_constructed tag_sequence der in
      let* _ := ReaderOps.expect_end "TSRequest" in within seq request_fields). by rewrite Ha.
  - intros rest. eapply frame_structure; [|done]. exact (constructed_tlv tag_sequence _ _ _ eq_refl Wc W).
Qed.

(** A request with a token, a key proof, an error code and a nonce. *)
Definition sample_request : TsRequest :=
  mkRequest 6 [to_bytes "token"; []] None (Some (to_bytes "proof")) (Some status_logon_failure) (Some (repeat Byte.x07 32)).

Lemma ts_request_roundtrip_witness :
  exists e, encode_request sample_request = Some e /\
    (len e <= max_ts_request_size ->
     decode_ts_request e = Ok sample_request /\ forall rest, frame_ts_request (e ++ rest) = Ok (Some (len e))).
Proof. apply (ts_request_roundtrip sample_request). vm_compute. reflexivity. Defined.

(** ** Delegated passwords *)

Definition password_ok (c : TsPasswordCreds) : bool :=
  (len (domain_name c) <=? max_field_size) && (len (user_name c) <=? max_field_size) && (len (secret c) <=? max_field_size).

Lemma password_encodes c :
  password_ok c = true -> encodes_end (write_inner (PasswordCreds c)) decode_password_creds c 150000.
Proof.
  destruct c as [d u s]. unfold password_ok. cbn [domain_name user_name secret]. intros H. bools.
  eapply encodes_end_le; [apply (structure_encodes _ _ _ _ _ (3 * (18 + max_field_size))); [done|done|done|]|unfold max_field_size; lia].
  eapply encodes_end_le.
  - eapply encodes_seq_end; [by apply octets_encodes|]. cbn beta. eapply encodes_seq_end; [by apply octets_encodes|]. cbn beta.
    eapply encodes_last_end; [by apply encodes_encodes_end, octets_encodes|]. cbn beta.
    eapply reads_bind_nil; [apply reads_expect_end|]. intros _ _. by apply reads_ret.
  - unfold max_field_size. lia.
Qed.

(** What [read_cred_fields] finds, up to the offsets. *)
Lemma cred_fields_encode type inner :
  - 2 ^ 63 <= type < 2 ^ 63 -> len inner < 2 ^ 31 ->
  exists e, writes (write_field 0 (write_integer type tag_integer) ;;; write_octets_field 1 inner) e /\ len e <= 50 + len inner /\
    reads read_cred_fields e [] (fun x => fst (fst x) = type /\ value (snd x) = inner).
Proof.
  intros Ht Hi. pose proof (len_nonneg inner).
  destruct (ber_encodes_integer type tag_integer der ltac:(done) Ht) as (e1 & W1 & L1 & R1).
  destruct (ber_encodes_tlv (ctx 0) e1 der ltac:(done) ltac:(lia)) as (f1 & V1 & M1 & S1).
  destruct (ber_encodes_tlv tag_octet_string inner der ltac:(done) ltac:(lia)) as (e2 & W2 & L2 & R2).
  destruct (ber_encodes_tlv (ctx 1) e2 der ltac:(done) ltac:(lia)) as (f2 & V2 & M2 & S2).
  assert (forall number body e f, writes body e -> writes (write_tlv (ctx number) e) f -> writes (write_field number body) f) as Hf.
  { intros number body e f We Wf. apply writes_assert; [done|]. eapply writes_local; [by apply writes_run|done]. }
  exists (f1 ++ f2). split_and!; [by apply writes_seq; [eapply Hf|eapply Hf]|len_lia|].
  eapply reads_bind.
  { eapply reads_bind_nil; [eapply reads_expect_tlv; apply S1|]. intros tlv Hv.
    apply (reads_ret _ _ (fun r => exists b, r = Reader.make e1 b)). exists (value_offset tlv). unfold tlv_reader. by rewrite Hv. }
  intros ? [b ->]. eapply reads_bind_pure.
  { apply reads_within. eapply reads_bind_nil; [apply R1|]. intros ? <-.
    eapply reads_bind_nil; [apply reads_expect_end|]. intros _ _. by apply (reads_ret _ _ (eq type)). }
  intros ? <-. eapply reads_bind_nil.
  { eapply reads_bind_nil; [eapply reads_expect_tlv; apply S2|]. intros tlv Hv.
    apply (reads_ret _ _ (fun r => exists b, r = Reader.make e2 b)). exists (value_offset tlv). unfold tlv_reader. by rewrite Hv. }
  intros ? [b' ->]. eapply reads_bind_nil.
  { apply reads_within. eapply reads_bind_nil; [eapply reads_expect_tlv; apply R2|]. intros tlv Hv.
    eapply reads_bind_nil; [apply reads_expect_end|]. intros _ _. by apply (reads_ret _ _ (fun t => value t = inner)). }
  intros tlv Hv. eapply reads_bind_nil; [apply reads_expect_end|]. intros _ _. by apply reads_ret.
Qed.

(** Password credentials survive [encode] and [decode_ts_credentials]. *)
Theorem ts_credentials_roundtrip c :
  password_ok c = true ->
  exists e, encode_credentials (PasswordCreds c) = Some e /\ len e <= 150100 /\ decode_ts_credentials e = Ok (PasswordCreds c).
Proof.
  intros H. destruct (password_encodes c H) as (inner & Wi & Li & Ri).
  destruct (cred_fields_encode cred_type_password inner) as (c0 & W0 & L0 & R0); [done|lia|].
  destruct (ber_encodes_tlv tag_sequence c0 der ltac:(done) ltac:(lia)) as (e & W & L & R).
  exists e. split_and!; [|lia|].
  - unfold encode_credentials. rewrite (writes_run _ _ Wi). cbn [mbind option_bind]. apply writes_run.
    apply writes_assert; [done|]. eapply writes_local; [by apply writes_run|done].
  - assert (reads decode_credentials e [] (eq (PasswordCreds c))) as Hr.
    { eapply reads_bind_nil.
      { eapply reads_bind_nil; [eapply reads_expect_tlv; apply R|]. intros tlv Hv.
        apply (reads_ret _ _ (fun r => exists b, r = Reader.make c0 b)). exists (value_offset tlv). unfold tlv_reader. by rewrite Hv. }
      intros ? [b ->]. eapply reads_bind_nil; [apply reads_expect_end|]. intros _ _.
      eapply reads_bind_nil; [by apply reads_within|]. intros [[ty off] tlv] [Et Ev]. cbn [fst snd] in Et, Ev. subst ty.
      unfold decode_contents, tlv_reader. rewrite Z.eqb_refl, Ev. apply reads_within.
      eapply reads_bind_nil; [apply Ri|]. intros ? <-. by apply reads_ret. }
    destruct (Hr [] 0) as (a & Ha & <-). rewrite app_nil_r in Ha. unfold decode_ts_credentials, Reader.make. by rewrite Ha.
Qed.

(** Text that both encodings can hold: well-formed UTF-8 without a NUL, not too long. *)
Definition plain (s : string) : Prop :=
  exists cs, to_bytes s = Text.utf8 cs /\ Forall (fun c => Text.scalar c = true /\ c <> 0) cs /\
    len (Text.utf16 cs) <= max_field_size.

Definition plain_credentials (c : PreAuth.PasswordCredentials) : Prop :=
  plain (PreAuth.cred_domain c) /\ plain (PreAuth.cred_user c) /\ plain (PreAuth.password c).

Lemma until_nul_plain cs : Forall (fun c => Text.scalar c = true /\ c <> 0) cs -> Text.until_nul cs = cs.
Proof.
  induction 1 as [|c cs [_ Hc] _ IH]; [done|]. cbn [Text.until_nul]. rewrite IH.
  by rewrite (proj2 (Z.eqb_neq c 0) Hc).
Qed.

Lemma plain_roundtrip s :
  plain s -> of_bytes (Text.utf16le_to_utf8 (Text.utf8_to_utf16le (to_bytes s))) = s /\
    len (Text.utf8_to_utf16le (to_bytes s)) <= max_field_size.
Proof.
  intros (cs & E & Hc & Hl).
  assert (Forall (fun c => Text.scalar c = true) cs) as Hs by (eapply Forall_impl; [exact Hc|]; by intros c [? _]).
  destruct (Text.text_roundtrip cs Hs) as [E1 E2]. rewrite E, E1, E2, until_nul_plain by done. split; [|done].
  rewrite <- E. apply String.string_of_list_byte_of_string.
Qed.

Lemma credentials_delegated c :
  plain_credentials c ->
  exists p, to_ts_credentials c = PasswordCreds p /\ password_ok p = true /\ to_password_credentials p = c.
Proof.
  intros (Hd & Hu & Hp). eexists. split; [done|].
  destruct (plain_roundtrip _ Hd) as [Ed Ld], (plain_roundtrip _ Hu) as [Eu Lu], (plain_roundtrip _ Hp) as [Ep Lp].
  split.
  - unfold password_ok. cbn [domain_name user_name secret].
    by rewrite (proj2 (Z.leb_le _ _) Ld), (proj2 (Z.leb_le _ _) Lu), (proj2 (Z.leb_le _ _) Lp).
  - unfold to_password_credentials. cbn [domain_name user_name secret]. rewrite Ed, Eu, Ep. by destruct c.
Qed.

(** The size of an encoded request, and that it is encoded whatever the sizes within 2^30. *)
Lemma tokens_size ts : Forall (fun t => len t < 2 ^ 30) ts -> len ts <= 1 -> writable (write_tokens ts) (27 + len (concat ts)).
Proof.
  intros H Hl. destruct H as [|t ts Ht Hts]; cbn [write_tokens concat].
  - eapply writable_le; [apply writable_ret|done].
  - assert (ts = []) as -> by (rewrite len_cons in Hl; destruct ts; [done|rewrite len_cons in Hl; pose proof (len_nonneg ts); lia]).
    cbn [write_tokens concat]. rewrite app_nil_r.
    eapply writable_le; [apply writable_seq; [|apply writable_ret]|].
    + apply writable_constructed; [done|done| |by apply writable_octets_field; [|lia]]. lia.
    + lia.
Qed.

Definition request_sizes (r : TsRequest) : Prop :=
  0 <= version r < 2 ^ 32 /\ len (nego_tokens r) <= 1 /\ Forall (fun t => len t < 2 ^ 28) (nego_tokens r) /\
  olen (auth_info r) < 2 ^ 28 /\ olen (pub_key_auth r) < 2 ^ 28 /\ olen (client_nonce r) < 2 ^ 28 /\
  match error_code r with Some c => 0 <= c < 2 ^ 32 | None => True end.

Lemma request_size r :
  request_sizes r ->
  exists e, encode_request r = Some e /\
    len e <= 250 + len (concat (nego_tokens r)) + olen (auth_info r) + olen (pub_key_auth r) + olen (client_nonce r).
Proof.
  destruct r as [v tokens auth key code nonce]. unfold request_sizes.
  cbn [version nego_tokens auth_info pub_key_auth error_code client_nonce]. intros (Hv & Hl & Ht & Ha & Hk & Hn & Hc).
  pose proof (olen_nonneg auth). pose proof (olen_nonneg key). pose proof (olen_nonneg nonce).
  assert (len (concat tokens) < 2 ^ 28) as Hs.
  { destruct Ht as [|t ts Ht _]; [done|]. rewrite len_cons in Hl. destruct ts; [cbn; by rewrite app_nil_r|].
    rewrite len_cons in Hl. pose proof (len_nonneg ts). lia. }
  pose proof (len_nonneg (concat tokens)). apply writable_run.
  eapply writable_le; [apply (writable_constructed tag_sequence _
    (27 + (45 + len (concat tokens) + ((18 + olen auth) + ((18 + olen key) + (26 + (18 + olen nonce)))))));
    [done|done|lia|]|lia].
  cbn [version nego_tokens auth_info pub_key_auth error_code client_nonce].
  apply writable_seq; [eapply writable_encodes; by apply version_encodes|].
  apply writable_seq.
  { destruct (bool_decide_reflect (tokens = [])); cbn [negb].
    { eapply writable_le; [apply writable_ret|lia]. }
    replace (45 + len (concat tokens)) with (9 + (9 + (27 + len (concat tokens)))) by lia.
    apply writable_constructed; [done|done|lia|]. apply writable_constructed; [done|done|lia|].
    apply tokens_size; [|done]. eapply Forall_impl; [exact Ht|]. cbn. lia. }
  apply writable_seq; [apply writable_optional_octets; [done|lia]|].
  apply writable_seq; [apply writable_optional_octets; [done|lia]|].
  apply writable_seq; [|apply writable_optional_octets; [done|lia]].
  eapply writable_le; [apply (writable_optional _ _ (fun _ => 26))|by destruct code].
  intros c ->. eapply writable_encodes. by apply error_encodes.
Qed.

(** What the decoder has checked. *)
Lemma decoded_request bytes r :
  decode_ts_request bytes = Ok r ->
  version r < 2 ^ 32 /\ match client_nonce r with Some n => len n = nonce_size | None => True end.
Proof.
  unfold decode_ts_request. destruct (_ <? _); [done|].
  destruct (decode_request _) as [[r0 k]|] eqn:E; [|done]. intros [= ->]. revert E. unfold decode_request.
  intros (seq & r1 & _ & E)%dbind_inv. apply dbind_inv in E as (? & r2 & _ & E).
  unfold within in E. destruct (dbind _ _ seq) as [[r' r3]|] eqn:E3; [|done]. injection E as -> _.
  apply dbind_inv in E3 as (v & r4 & Ev & E3). apply dbind_inv in E3 as (ts & r5 & _ & E3).
  apply dbind_inv in E3 as (auth & r6 & _ & E3). apply dbind_inv in E3 as (key & r7 & _ & E3).
  apply dbind_inv in E3 as (code & r8 & _ & E3). apply dbind_inv in E3 as (nonce & r9 & En & E3).
  apply dbind_inv in E3 as (? & r10 & _ & E3). injection E3 as <- _. cbn [version client_nonce]. split.
  - unfold read_version in Ev. apply dbind_inv in Ev as (f & k1 & _ & Ev). apply dbind_inv in Ev as (v' & k2 & _ & Ev).
    destruct (Z.ltb_spec (2 ^ 32 - 1) v'); [done|]. injection Ev as <- _. lia.
  - destruct nonce as [n|]; [|done]. unfold optional in En. rewrite dbind_ask in En.
    destruct (next_is _ _); [|done]. apply dbind_inv in En as (n' & k1 & En & E). injection E as <- _.
    unfold read_client_nonce in En. rewrite dbind_ask in En. apply dbind_inv in En as (n0 & k2 & _ & En).
    destruct (Z.eqb_spec (len n0) nonce_size) as [Hl|]; cbn [negb] in En; [|done]. injection En as <- _. done.
Qed.
End CredsspCodec.
