(* ===== verification/Credssp.v ===== *)
(** * CredSSP: acceptor and initiator

    Models the state machines of [src/src/farland/auth/credssp.hpp] and
    [credssp.cpp] over the interface [SecurityContext] of [auth/gss.hpp]: the
    server's end of Network Level Authentication, which is an implementation of
    [PreAuth.NlaAcceptor], and the client's end.

    A mechanism (NTLM, Kerberos) is any instance of the class [SecurityContext]:
    its calls change its state [C].  SHA-256 and the random nonce come from
    OpenSSL and are parameters.  A handler is a function in the monad [P]: it
    changes the state, is refused with a text, or aborts ([None]) where the code
    would dereference a null mechanism or fail an assertion. *)

From S2P Require Import Prelude Buffers CodecLogic Ber DerFields Spnego PreAuth CredsspCodec.
From stdpp Require Import pretty.
Open Scope Z_scope.

Module Credssp.
Import CredsspCodec.
#[local] Existing Instance Spnego.NegState_eq_dec.
#[export] Instance Status_eq_dec : EqDecision PreAuth.Status.
Proof. solve_decision. Defined.

(** ** gss.hpp *)

Record Step := mkStep { step_token : list byte; step_complete : bool }.

Class SecurityContext (C : Type) := {
  mechanism : C -> list byte;
  step : C -> list byte -> Result Step * C;
  wrap_message : C -> list byte -> list byte * C;
  unwrap : C -> list byte -> Result (list byte) * C;
  get_mic : C -> list byte -> list byte * C;
  verify_mic : C -> list byte -> list byte -> Result unit * C;
  reset_cipher_state : C -> C;
  mech_identity : C -> PreAuth.Identity }.

(** ** Handlers *)

Definition P (S A : Type) : Type := S -> option ((A + string) * S).

Definition pret {S A} (a : A) : P S A := fun s => Some (inl a, s).
(** [return reject(...)]. *)
Definition reject {S A} (reason : string) : P S A := fun s => Some (inr reason, s).
Definition pbind {S A B} (m : P S A) (f : A -> P S B) : P S B := fun s =>
  match m s with
  | Some (inl a, s') => f a s'
  | Some (inr reason, s') => Some (inr reason, s')
  | None => None
  end.
Definition pget {S A} (f : S -> A) : P S A := fun s => Some (inl (f s), s).
Definition pmod {S} (f : S -> S) : P S unit := fun s => Some (inl tt, f s).
(** A value that an assertion may keep from being there. *)
Definition plift {S A} (o : option A) : P S A := fun s => match o with Some a => Some (inl a, s) | None => None end.

Notation "'let+' x ':=' m 'in' k" := (pbind m (fun x => k))
  (at level 10, x pattern, m at level 100, k at level 200,
   format "'[v' 'let+'  x  ':='  m  'in' '/' k ']'") : farland_scope.

Definition describe (what_ : string) (e : Error) : string := what_ +:+ ": " +:+ message e.

(** [FARLAND_TRY]-like: a [Result] whose error refuses with a description. *)
Definition ptry {S A} (what_ : string) (r : Result A) : P S A :=
  match r with Ok a => pret a | Err e => reject (describe what_ e) end.

(** [std::format("{:08X}")]. *)
Definition hex_upper (d : Z) : string :=
  default "0" (["0"; "1"; "2"; "3"; "4"; "5"; "6"; "7"; "8"; "9"; "A"; "B"; "C"; "D"; "E"; "F"] !! Z.to_nat d).
Fixpoint hex_fixed (digits : nat) (v : Z) : string :=
  match digits with
  | O => ""
  | S digits' => hex_fixed digits' (Z.shiftr v 4) +:+ hex_upper (Z.land v 15)
  end.

(** ** Public keys *)

Definition client_server_magic : list byte := to_bytes "CredSSP Client-To-Server Binding Hash" ++ [byte_of 0].
Definition server_client_magic : list byte := to_bytes "CredSSP Server-To-Client Binding Hash" ++ [byte_of 0].

(** [public_key_plus_one]; the assertion is that the key is not empty. *)
Definition public_key_plus_one (key : list byte) : option (list byte) :=
  match key with
  | [] => None
  | front :: rest => Some (byte_of (u8_of front + 1) :: rest)
  end.

(** Why it takes constant time is not modelled. *)
Definition equal_constant_time (a b : list byte) : bool := bool_decide (a = b).

Definition no_resp : Spnego.NegTokenResp := Spnego.mkResp None None None None.
Definition request_of (v : Z) : TsRequest := mkRequest v [] None None None None.

Definition with_tokens (ts : list (list byte)) (r : TsRequest) : TsRequest :=
  mkRequest (version r) ts (auth_info r) (pub_key_auth r) (error_code r) (client_nonce r).
Definition with_key (k : list byte) (r : TsRequest) : TsRequest :=
  mkRequest (version r) (nego_tokens r) (auth_info r) (Some k) (error_code r) (client_nonce r).
Definition with_auth (a : list byte) (r : TsRequest) : TsRequest :=
  mkRequest (version r) (nego_tokens r) (Some a) (pub_key_auth r) (error_code r) (client_nonce r).
Definition with_error (c : Z) (r : TsRequest) : TsRequest :=
  mkRequest (version r) (nego_tokens r) (auth_info r) (pub_key_auth r) (Some c) (client_nonce r).

Definition is_empty (b : list byte) : bool := bool_decide (b = []).
Definition is_some {A} (o : option A) : bool := match o with Some _ => true | None => false end.

Section Hashes.
Context (sha256 : list byte -> list byte).

Definition client_to_server_hash (nonce public_key : list byte) : list byte := sha256 (client_server_magic ++ nonce ++ public_key).
Definition server_to_client_hash (nonce public_key : list byte) : list byte := sha256 (server_client_magic ++ nonce ++ public_key).
End Hashes.

(** ** Acceptor *)

Module Acceptor.

Inductive Phase := negotiate | pub_key_auth_ | credentials_phase | done_.

#[export] Instance Phase_eq_dec : EqDecision Phase.
Proof. solve_decision. Defined.

Section Acceptor.
Context {C : Type} `{SecurityContext C} (sha256 : list byte -> list byte).

Record AcceptorConfig := mkConfig {
  server_public_key : list byte;
  make_mechanism : list byte -> option C;
  accept_credentials : option (PreAuth.PasswordCredentials -> PreAuth.Identity -> list byte -> bool);
  config_max_version : Z }.

Record t := mk {
  config_ : AcceptorConfig;
  public_key_ : list byte;
  status_ : PreAuth.Status;
  phase_ : Phase;
  failure_ : string;
  input_ : list byte;
  output_ : list byte;
  remaining_ : list byte;
  peer_version_ : Z;
  version_ : Z;
  nonce_ : option (list byte);
  mech_ : option C;
  spnego_ : bool;
  mech_types_der_ : list byte;
  mic_required_ : bool;
  client_mic_verified_ : bool;
  identity_ : PreAuth.Identity;
  credentials_ : option PreAuth.PasswordCredentials }.
Definition with_config (v : AcceptorConfig) (s : t) : t :=
  mk v (public_key_ s) (status_ s) (phase_ s) (failure_ s) (input_ s) (output_ s) (remaining_ s)
    (peer_version_ s) (version_ s) (nonce_ s) (mech_ s) (spnego_ s) (mech_types_der_ s) (mic_required_
    s) (client_mic_verified_ s) (identity_ s) (credentials_ s).
Definition with_public_key (v : list byte) (s : t) : t :=
  mk (config_ s) v (status_ s) (phase_ s) (failure_ s) (input_ s) (output_ s) (remaining_ s)
    (peer_version_ s) (version_ s) (nonce_ s) (mech_ s) (spnego_ s) (mech_types_der_ s) (mic_required_
    s) (client_mic_verified_ s) (identity_ s) (credentials_ s).
Definition with_status (v : PreAuth.Status) (s : t) : t :=
  mk (config_ s) (public_key_ s) v (phase_ s) (failure_ s) (input_ s) (output_ s) (remaining_ s)
    (peer_version_ s) (version_ s) (nonce_ s) (mech_ s) (spnego_ s) (mech_types_der_ s) (mic_required_
    s) (client_mic_verified_ s) (identity_ s) (credentials_ s).
Definition with_phase (v : Phase) (s : t) : t :=
  mk (config_ s) (public_key_ s) (status_ s) v (failure_ s) (input_ s) (output_ s) (remaining_ s)
    (peer_version_ s) (version_ s) (nonce_ s) (mech_ s) (spnego_ s) (mech_types_der_ s) (mic_required_
    s) (client_mic_verified_ s) (identity_ s) (credentials_ s).
Definition with_failure (v : string) (s : t) : t :=
  mk (config_ s) (public_key_ s) (status_ s) (phase_ s) v (input_ s) (output_ s) (remaining_ s)
    (peer_version_ s) (version_ s) (nonce_ s) (mech_ s) (spnego_ s) (mech_types_der_ s) (mic_required_
    s) (client_mic_verified_ s) (identity_ s) (credentials_ s).
Definition with_input (v : list byte) (s : t) : t :=
  mk (config_ s) (public_key_ s) (status_ s) (phase_ s) (failure_ s) v (output_ s) (remaining_ s)
    (peer_version_ s) (version_ s) (nonce_ s) (mech_ s) (spnego_ s) (mech_types_der_ s) (mic_required_
    s) (client_mic_verified_ s) (identity_ s) (credentials_ s).
Definition with_output (v : list byte) (s : t) : t :=
  mk (config_ s) (public_key_ s) (status_ s) (phase_ s) (failure_ s) (input_ s) v (remaining_ s)
    (peer_version_ s) (version_ s) (nonce_ s) (mech_ s) (spnego_ s) (mech_types_der_ s) (mic_required_
    s) (client_mic_verified_ s) (identity_ s) (credentials_ s).
Definition with_remaining (v : list byte) (s : t) : t :=
  mk (config_ s) (public_key_ s) (status_ s) (phase_ s) (failure_ s) (input_ s) (output_ s) v
    (peer_version_ s) (version_ s) (nonce_ s) (mech_ s) (spnego_ s) (mech_types_der_ s) (mic_required_
    s) (client_mic_verified_ s) (identity_ s) (credentials_ s).
Definition with_peer_version (v : Z) (s : t) : t :=
  mk (config_ s) (public_key_ s) (status_ s) (phase_ s) (failure_ s) (input_ s) (output_ s)
    (remaining_ s) v (version_ s) (nonce_ s) (mech_ s) (spnego_ s) (mech_types_der_ s) (mic_required_ s)
    (client_mic_verified_ s) (identity_ s) (credentials_ s).
Definition with_version (v : Z) (s : t) : t :=
  mk (config_ s) (public_key_ s) (status_ s) (phase_ s) (failure_ s) (input_ s) (output_ s)
    (remaining_ s) (peer_version_ s) v (nonce_ s) (mech_ s) (spnego_ s) (mech_types_der_ s)
    (mic_required_ s) (client_mic_verified_ s) (identity_ s) (credentials_ s).
Definition with_nonce (v : option (list byte)) (s : t) : t :=
  mk (config_ s) (public_key_ s) (status_ s) (phase_ s) (failure_ s) (input_ s) (output_ s)
    (remaining_ s) (peer_version_ s) (version_ s) v (mech_ s) (spnego_ s) (mech_types_der_ s)
    (mic_required_ s) (client_mic_verified_ s) (identity_ s) (credentials_ s).
Definition with_mech (v : option C) (s : t) : t :=
  mk (config_ s) (public_key_ s) (status_ s) (phase_ s) (failure_ s) (input_ s) (output_ s)
    (remaining_ s) (peer_version_ s) (version_ s) (nonce_ s) v (spnego_ s) (mech_types_der_ s)
    (mic_required_ s) (client_mic_verified_ s) (identity_ s) (credentials_ s).
Definition with_spnego (v : bool) (s : t) : t :=
  mk (config_ s) (public_key_ s) (status_ s) (phase_ s) (failure_ s) (input_ s) (output_ s)
    (remaining_ s) (peer_version_ s) (version_ s) (nonce_ s) (mech_ s) v (mech_types_der_ s)
    (mic_required_ s) (client_mic_verified_ s) (identity_ s) (credentials_ s).
Definition with_mech_types_der (v : list byte) (s : t) : t :=
  mk (config_ s) (public_key_ s) (status_ s) (phase_ s) (failure_ s) (input_ s) (output_ s)
    (remaining_ s) (peer_version_ s) (version_ s) (nonce_ s) (mech_ s) (spnego_ s) v (mic_required_ s)
    (client_mic_verified_ s) (identity_ s) (credentials_ s).
Definition with_mic_required (v : bool) (s : t) : t :=
  mk (config_ s) (public_key_ s) (status_ s) (phase_ s) (failure_ s) (input_ s) (output_ s)
    (remaining_ s) (peer_version_ s) (version_ s) (nonce_ s) (mech_ s) (spnego_ s) (mech_types_der_ s) v
    (client_mic_verified_ s) (identity_ s) (credentials_ s).
Definition with_client_mic_verified (v : bool) (s : t) : t :=
  mk (config_ s) (public_key_ s) (status_ s) (phase_ s) (failure_ s) (input_ s) (output_ s)
    (remaining_ s) (peer_version_ s) (version_ s) (nonce_ s) (mech_ s) (spnego_ s) (mech_types_der_ s)
    (mic_required_ s) v (identity_ s) (credentials_ s).
Definition with_identity (v : PreAuth.Identity) (s : t) : t :=
  mk (config_ s) (public_key_ s) (status_ s) (phase_ s) (failure_ s) (input_ s) (output_ s)
    (remaining_ s) (peer_version_ s) (version_ s) (nonce_ s) (mech_ s) (spnego_ s) (mech_types_der_ s)
    (mic_required_ s) (client_mic_verified_ s) v (credentials_ s).
Definition with_credentials (v : option PreAuth.PasswordCredentials) (s : t) : t :=
  mk (config_ s) (public_key_ s) (status_ s) (phase_ s) (failure_ s) (input_ s) (output_ s)
    (remaining_ s) (peer_version_ s) (version_ s) (nonce_ s) (mech_ s) (spnego_ s) (mech_types_der_ s)
    (mic_required_ s) (client_mic_verified_ s) (identity_ s) v.

(** The constructor and its assertions. *)
Definition make (config : AcceptorConfig) : option t :=
  if negb (is_empty (server_public_key config)) && (min_version <=? config_max_version config)
  then Some (mk config (server_public_key config) PreAuth.in_progress negotiate "" [] [] [] 0 0 None None false [] false false
                (PreAuth.mkIdentity "" "") None)
  else None.

(** A call of the mechanism, which must be there. *)
Definition on_mech {A} (f : C -> A * C) : P t A := fun s =>
  match mech_ s with
  | Some c => let (a, c') := f c in Some (inl a, with_mech (Some c') s)
  | None => None
  end.

Definition send (message : TsRequest) : P t unit :=
  let+ v := pget version_ in
  let+ bytes := plift (encode_request (CredsspCodec.mkRequest v (nego_tokens message) (auth_info message)
                         (pub_key_auth message) (error_code message) (client_nonce message))) in
  pmod (fun s => with_output (output_ s ++ bytes) s).

Definition fail_ (reason : string) : P t unit :=
  let+ _ := pmod (fun s => with_credentials None (with_input [] (with_failure reason (with_phase done_ (with_status PreAuth.nla_failed s))))) in
  let+ v := pget version_ in
  if (v =? 3) || (v =? 4) || (v =? 6)
  then send (with_error status_logon_failure (request_of max_version))
  else pret tt.

(** The acceptor's key binding: what it expects of the client and what it answers. *)
Definition bindings (v : Z) (nonce : option (list byte)) (key : list byte) : P t (list byte * list byte) :=
  if 5 <=? v then
    match nonce with
    | None => reject "CredSSP 5+ client sent pubKeyAuth without a clientNonce"
    | Some nonce => pret (client_to_server_hash sha256 nonce key, server_to_client_hash sha256 nonce key)
    end
  else
    let+ answer := plift (public_key_plus_one key) in
    pret (key, answer).

Definition answer_pub_key_auth (pub_key_auth : list byte) (nego_token : option (list byte)) : P t unit :=
  let+ plaintext := on_mech (fun c => unwrap c pub_key_auth) in
  let+ plaintext := ptry "pubKeyAuth does not unwrap" plaintext in
  let+ v := pget version_ in
  let+ nonce := pget nonce_ in
  let+ key := pget public_key_ in
  let+ (expected, answer) := bindings v nonce key in
  if negb (equal_constant_time plaintext expected) then
    reject "pubKeyAuth does not match the TLS public key (man in the middle, or a client binding to another key)"
  else
    let message := with_tokens (match nego_token with Some x => [x] | None => [] end) (request_of max_version) in
    let+ wrapped := on_mech (fun c => wrap_message c answer) in
    let+ _ := pmod (with_phase credentials_phase) in
    send (with_key wrapped message).

(** The acceptor's mechListMIC exchange at the end of the negotiation, on its reply. *)
Definition exchange_mics (mech_output : list byte) (client_mic : option (list byte)) (reply : Spnego.NegTokenResp)
    : P t (list byte) :=
  let+ types_der := pget mech_types_der_ in
  let+ required := pget mic_required_ in
  let+ _ := (match client_mic with
    | Some mic =>
        let+ verified := on_mech (fun c => verify_mic c types_der mic) in
        let+ _ := ptry "client mechListMIC does not verify" verified in
        pmod (with_client_mic_verified true)
    | None =>
        if required && is_empty mech_output
        then reject "client omitted the mechListMIC that RFC 4178 requires here"
        else pret tt
    end) in
  let+ mic := (if required || is_some client_mic
               then let+ mic := on_mech (fun c => get_mic c types_der) in pret (Some mic)
               else pret (Spnego.mech_list_mic reply)) in
  let+ verified := pget client_mic_verified_ in
  let+ _ := (if is_some mic || verified
             then on_mech (fun c => (tt, reset_cipher_state c)) else pret tt) in
  let reply := Spnego.mkResp
    (Some (if negb required || verified then Spnego.accept_completed else Spnego.accept_incomplete))
    (Spnego.supported_mech reply)
    (if negb (is_empty mech_output) then Some mech_output else Spnego.response_token reply)
    mic in
  plift (Spnego.encode_resp reply).

Definition finish_negotiation (request : TsRequest) (mech_output : list byte) (client_mic : option (list byte))
    (reply : Spnego.NegTokenResp) : P t unit :=
  let+ spnego := pget spnego_ in
  let+ nego_token := (if spnego : bool
    then let+ token := exchange_mics mech_output client_mic reply in pret (Some token)
    else pret (if negb (is_empty mech_output) then Some mech_output else None)) in
  let+ _ := pmod (with_phase pub_key_auth_) in
  match pub_key_auth request with
  | Some key => answer_pub_key_auth key nego_token
  | None =>
      match nego_token with
      | Some token => send (with_tokens [token] (request_of max_version))
      | None => pret tt
      end
  end.

(** The loop over the client's mechanisms: the first that is implemented, and its position. *)
Fixpoint choose (f : list byte -> option C) (types : list (list byte)) (chosen : Z) : option (Z * list byte * C) :=
  match types with
  | [] => None
  | oid :: types' => match f oid with Some c => Some (chosen, oid, c) | None => choose f types' (chosen + 1) end
  end.

Definition send_reply (reply : Spnego.NegTokenResp) : P t unit :=
  let+ token := plift (Spnego.encode_resp reply) in
  send (with_tokens [token] (request_of max_version)).

Definition step_mech (input : list byte) : P t Step :=
  let+ result := on_mech (fun c => step c input) in
  ptry "security mechanism rejected the client" result.

Definition start_spnego (init : Spnego.NegTokenInit) (request : TsRequest) : P t unit :=
  let+ _ := pmod (with_mech_types_der (Spnego.mech_types_der init)) in
  let+ config := pget config_ in
  match choose (make_mechanism config) (Spnego.mech_types init) 0 with
  | None => reject "client offers no security mechanism that farland supports"
  | Some (chosen, oid, c) =>
      let+ _ := pmod (with_mech (Some c)) in
      if negb (chosen =? 0) then
        let+ _ := pmod (with_mic_required true) in
        send_reply (Spnego.mkResp (Some Spnego.request_mic) (Some oid) None None)
      else
        let reply := Spnego.mkResp (Some Spnego.accept_incomplete) (Some oid) None None in
        match Spnego.mech_token init with
        | Some token =>
            let+ next := step_mech token in
            if step_complete next
            then finish_negotiation request (step_token next) (Spnego.init_mech_list_mic init) reply
            else send_reply (Spnego.mkResp (Some Spnego.accept_incomplete) (Some oid) (Some (step_token next)) None)
        | None => send_reply reply
        end
  end.

(** A later SPNEGO token of the client. *)
Definition read_resp (token : list byte) : P t (Spnego.NegTokenResp * list byte) :=
  let+ decoded := ptry "malformed SPNEGO token" (Spnego.decode token) in
  match decoded with
  | Spnego.TokenInit _ => reject "client sent a second NegTokenInit"
  | Spnego.TokenResp resp =>
      if bool_decide (Spnego.neg_state resp = Some Spnego.reject) then reject "client rejected the SPNEGO negotiation"
      else match Spnego.response_token resp with
           | None => reject "NegTokenResp during negotiation lacks a responseToken"
           | Some input => pret (resp, input)
           end
  end.

(** The mechanism's next step, once there is a mechanism. *)
Definition continue_negotiation (request : TsRequest) (token : list byte) : P t unit :=
  let+ spnego := pget spnego_ in
  let+ (resp, input) := (if spnego : bool
    then let+ (resp, input) := read_resp token in pret (Some resp, input)
    else pret (None, token)) in
  let+ next := step_mech input in
  if step_complete next then
    finish_negotiation request (step_token next)
      (match resp with Some r => Spnego.mech_list_mic r | None => None end) no_resp
  else if spnego then
    send_reply (Spnego.mkResp (Some Spnego.accept_incomplete) None (Some (step_token next)) None)
  else send (with_tokens [step_token next] (request_of max_version)).

Definition handle_negotiate (request : TsRequest) : P t unit :=
  match nego_tokens request with
  | [token] =>
      if is_some (auth_info request) then reject "client sent authInfo before public key authentication"
      else
        let+ mech := pget mech_ in
        match mech with
        | Some _ => continue_negotiation request token
        | None =>
            if negb (Spnego.is_raw_ntlm token) then
              let+ decoded := ptry "malformed SPNEGO token" (Spnego.decode token) in
              match decoded with
              | Spnego.TokenResp _ => reject "first SPNEGO token is not a NegTokenInit"
              | Spnego.TokenInit init =>
                  let+ _ := pmod (with_spnego true) in
                  start_spnego init request
              end
            else
              let+ config := pget config_ in
              let+ _ := pmod (with_mech (make_mechanism config Spnego.ntlm_oid)) in
              let+ mech := pget mech_ in
              match mech with
              | None => reject "client sent a raw NTLM token, but NTLM is not available"
              | Some _ => continue_negotiation request token
              end
        end
  | _ => reject "TSRequest during negotiation does not carry exactly one negoToken"
  end.

(** The client's final SPNEGO token, if there is one, and its MIC. *)
Definition final_token (tokens : list (list byte)) : P t unit :=
  match tokens with
  | [] => pret tt
  | token :: _ =>
      let+ spnego := pget spnego_ in
      if negb spnego || negb (len tokens =? 1)
      then reject "unexpected negoToken after the security mechanism completed"
      else
        let+ decoded := ptry "malformed SPNEGO token" (Spnego.decode token) in
        match decoded with
        | Spnego.TokenInit _ => reject "unexpected SPNEGO token after the security mechanism completed"
        | Spnego.TokenResp resp =>
            if bool_decide (Spnego.neg_state resp = Some Spnego.reject) ||
               match Spnego.response_token resp with Some x => negb (is_empty x) | None => false end
            then reject "unexpected SPNEGO token after the security mechanism completed"
            else
              let+ verified := pget client_mic_verified_ in
              match Spnego.mech_list_mic resp with
              | Some mic =>
                  if negb verified then
                    let+ types_der := pget mech_types_der_ in
                    let+ result := on_mech (fun c => verify_mic c types_der mic) in
                    let+ _ := ptry "client mechListMIC does not verify" result in
                    let+ _ := pmod (with_client_mic_verified true) in
                    on_mech (fun c => (tt, reset_cipher_state c))
                  else pret tt
              | None => pret tt
              end
        end
  end.

Definition handle_pub_key_auth (request : TsRequest) : P t unit :=
  if is_some (auth_info request) then reject "client sent authInfo before public key authentication"
  else
    let+ _ := final_token (nego_tokens request) in
    let+ required := pget mic_required_ in
    let+ verified := pget client_mic_verified_ in
    if required && negb verified then reject "client omitted the mechListMIC that RFC 4178 requires here"
    else match pub_key_auth request with
         | None => reject "expected pubKeyAuth"
         | Some key => answer_pub_key_auth key None
         end.

Definition handle_credentials (request : TsRequest) : P t unit :=
  match auth_info request with
  | None => reject "expected authInfo with the delegated credentials"
  | Some info =>
      let+ plaintext := on_mech (fun c => unwrap c info) in
      let+ plaintext := ptry "authInfo does not unwrap" plaintext in
      let+ credentials := ptry "malformed TSCredentials" (decode_ts_credentials plaintext) in
      match credentials with
      | SmartCardCreds _ =>
          reject "client delegated smart-card credentials (TSSmartCardCreds), which farland does not support"
      | RemoteGuardCreds _ =>
          reject "client delegated Remote Credential Guard credentials (TSRemoteGuardCreds), which farland does not support"
      | PasswordCreds password =>
          let delegated := to_password_credentials password in
          let+ config := pget config_ in
          let+ (identity, oid) := on_mech (fun c => ((mech_identity c, mechanism c), c)) in
          if match accept_credentials config with Some accept => negb (accept delegated identity oid) | None => false end
          then reject "delegated credentials rejected: they do not belong to the authenticated user"
          else pmod (fun s => with_status PreAuth.succeeded (with_phase done_ (with_identity identity (with_credentials (Some delegated) s))))
      end
  end.

(** The version negotiation at the head of [handle]. *)
Definition check_version (request : TsRequest) : P t unit :=
  let+ peer := pget peer_version_ in
  if peer =? 0 then
    if version request <? min_version
    then reject ("client offers CredSSP version " +:+ pretty (version request) +:+ ", below 2")
    else pmod (fun s => with_version (Z.min (version request) (config_max_version (config_ s)))
                          (with_peer_version (version request) s))
  else if negb (version request =? peer)
  then reject ("client changed its CredSSP version from " +:+ pretty peer +:+ " to " +:+ pretty (version request))
  else pret tt.

Definition handle (request : TsRequest) : P t unit :=
  let+ _ := check_version request in
  match error_code request with
  | Some code => reject ("client sent errorCode 0x" +:+ hex_fixed 8 code)
  | None =>
      let+ _ := (match client_nonce request with Some n => pmod (with_nonce (Some n)) | None => pret tt end) in
      let+ phase := pget phase_ in
      match phase with
      | negotiate => handle_negotiate request
      | pub_key_auth_ => handle_pub_key_auth request
      | credentials_phase => handle_credentials request
      | done_ => reject "TSRequest after the handshake ended"
      end
  end.

(** A handler whose refusal fails the handshake. *)
Definition or_fail (m : P t unit) : t -> option t := fun s =>
  match m s with
  | None => None
  | Some (inl _, s') => Some s'
  | Some (inr reason, s') => snd <$> fail_ reason s'
  end.

(** One iteration of the loop in [receive]: the next state, and whether to go on. *)
Definition receive_step (s : t) : option (t * bool) :=
  match frame_ts_request (input_ s) with
  | Err e => s' ← or_fail (reject (describe "malformed TSRequest" e)) s; Some (s', false)
  | Ok None => Some (s, false)
  | Ok (Some size) =>
      if len (input_ s) <? size then Some (s, false)
      else
        let frame := take (Z.to_nat size) (input_ s) in
        let s := with_input (drop (Z.to_nat size) (input_ s)) s in
        match decode_ts_request frame with
        | Err e => s' ← or_fail (reject (describe "malformed TSRequest" e)) s; Some (s', false)
        | Ok request => s' ← or_fail (handle request) s; Some (s', bool_decide (status_ s' = PreAuth.in_progress))
        end
  end.

Fixpoint receive_loop (fuel : nat) (s : t) : option t :=
  match fuel with
  | O => None
  | S fuel' =>
      next ← receive_step s;
      let '(s', more) := next in
      if more : bool then receive_loop fuel' s' else Some s'
  end.

Definition receive (bytes : list byte) (s : t) : option t :=
  match status_ s with
  | PreAuth.succeeded => Some (with_remaining (remaining_ s ++ bytes) s)
  | PreAuth.nla_failed => Some s
  | PreAuth.in_progress =>
      let s := with_input (input_ s ++ bytes) s in
      s ← receive_loop (S (length (input_ s))) s;
      Some (match status_ s with
            | PreAuth.succeeded => with_input [] (with_remaining (input_ s) s)
            | _ => s
            end)
  end.

Definition take_output (s : t) : list byte * t := (output_ s, with_output [] s).
Definition take_remaining_input (s : t) : list byte * t := (remaining_ s, with_remaining [] s).
Definition take_credentials (s : t) : option PreAuth.PasswordCredentials * t := (credentials_ s, with_credentials None s).
End Acceptor.
End Acceptor.

(** ** Initiator *)

Module Initiator.

Inductive Phase := negotiate | final_token_ | pub_key_auth_ | done_.

#[export] Instance Phase_eq_dec : EqDecision Phase.
Proof. solve_decision. Defined.

Section Initiator.
Context {C : Type} `{SecurityContext C} (sha256 : list byte -> list byte).

Record InitiatorConfig := mkConfig {
  use_spnego : bool;
  server_public_key : list byte;
  credentials : PreAuth.PasswordCredentials;
  config_version : Z;
  config_nonce : option (list byte);
  preferred_mech_types : list (list byte) }.

Record t := mk {
  config_ : InitiatorConfig;
  mech_ : C;
  nonce_ : list byte;
  status_ : PreAuth.Status;
  phase_ : Phase;
  failure_ : string;
  server_error_ : option Z;
  input_ : list byte;
  output_ : list byte;
  remaining_ : list byte;
  version_ : Z;
  server_version_ : Z;
  first_reply_ : bool;
  pending_first_step_ : bool;
  mech_types_der_ : list byte;
  mic_required_ : bool;
  server_mic_verified_ : bool }.
Definition with_config (v : InitiatorConfig) (s : t) : t :=
  mk v (mech_ s) (nonce_ s) (status_ s) (phase_ s) (failure_ s) (server_error_ s) (input_ s) (output_
    s) (remaining_ s) (version_ s) (server_version_ s) (first_reply_ s) (pending_first_step_ s)
    (mech_types_der_ s) (mic_required_ s) (server_mic_verified_ s).
Definition with_mech (v : C) (s : t) : t :=
  mk (config_ s) v (nonce_ s) (status_ s) (phase_ s) (failure_ s) (server_error_ s) (input_ s)
    (output_ s) (remaining_ s) (version_ s) (server_version_ s) (first_reply_ s) (pending_first_step_ s)
    (mech_types_der_ s) (mic_required_ s) (server_mic_verified_ s).
Definition with_nonce (v : list byte) (s : t) : t :=
  mk (config_ s) (mech_ s) v (status_ s) (phase_ s) (failure_ s) (server_error_ s) (input_ s) (output_
    s) (remaining_ s) (version_ s) (server_version_ s) (first_reply_ s) (pending_first_step_ s)
    (mech_types_der_ s) (mic_required_ s) (server_mic_verified_ s).
Definition with_status (v : PreAuth.Status) (s : t) : t :=
  mk (config_ s) (mech_ s) (nonce_ s) v (phase_ s) (failure_ s) (server_error_ s) (input_ s) (output_
    s) (remaining_ s) (version_ s) (server_version_ s) (first_reply_ s) (pending_first_step_ s)
    (mech_types_der_ s) (mic_required_ s) (server_mic_verified_ s).
Definition with_phase (v : Phase) (s : t) : t :=
  mk (config_ s) (mech_ s) (nonce_ s) (status_ s) v (failure_ s) (server_error_ s) (input_ s) (output_
    s) (remaining_ s) (version_ s) (server_version_ s) (first_reply_ s) (pending_first_step_ s)
    (mech_types_der_ s) (mic_required_ s) (server_mic_verified_ s).
Definition with_failure (v : string) (s : t) : t :=
  mk (config_ s) (mech_ s) (nonce_ s) (status_ s) (phase_ s) v (server_error_ s) (input_ s) (output_
    s) (remaining_ s) (version_ s) (server_version_ s) (first_reply_ s) (pending_first_step_ s)
    (mech_types_der_ s) (mic_required_ s) (server_mic_verified_ s).
Definition with_server_error (v : option Z) (s : t) : t :=
  mk (config_ s) (mech_ s) (nonce_ s) (status_ s) (phase_ s) (failure_ s) v (input_ s) (output_ s)
    (remaining_ s) (version_ s) (server_version_ s) (first_reply_ s) (pending_first_step_ s)
    (mech_types_der_ s) (mic_required_ s) (server_mic_verified_ s).
Definition with_input (v : list byte) (s : t) : t :=
  mk (config_ s) (mech_ s) (nonce_ s) (status_ s) (phase_ s) (failure_ s) (server_error_ s) v (output_
    s) (remaining_ s) (version_ s) (server_version_ s) (first_reply_ s) (pending_first_step_ s)
    (mech_types_der_ s) (mic_required_ s) (server_mic_verified_ s).
Definition with_output (v : list byte) (s : t) : t :=
  mk (config_ s) (mech_ s) (nonce_ s) (status_ s) (phase_ s) (failure_ s) (server_error_ s) (input_ s)
    v (remaining_ s) (version_ s) (server_version_ s) (first_reply_ s) (pending_first_step_ s)
    (mech_types_der_ s) (mic_required_ s) (server_mic_verified_ s).
Definition with_remaining (v : list byte) (s : t) : t :=
  mk (config_ s) (mech_ s) (nonce_ s) (status_ s) (phase_ s) (failure_ s) (server_error_ s) (input_ s)
    (output_ s) v (version_ s) (server_version_ s) (first_reply_ s) (pending_first_step_ s)
    (mech_types_der_ s) (mic_required_ s) (server_mic_verified_ s).
Definition with_version (v : Z) (s : t) : t :=
  mk (config_ s) (mech_ s) (nonce_ s) (status_ s) (phase_ s) (failure_ s) (server_error_ s) (input_ s)
    (output_ s) (remaining_ s) v (server_version_ s) (first_reply_ s) (pending_first_step_ s)
    (mech_types_der_ s) (mic_required_ s) (server_mic_verified_ s).
Definition with_server_version (v : Z) (s : t) : t :=
  mk (config_ s) (mech_ s) (nonce_ s) (status_ s) (phase_ s) (failure_ s) (server_error_ s) (input_ s)
    (output_ s) (remaining_ s) (version_ s) v (first_reply_ s) (pending_first_step_ s) (mech_types_der_
    s) (mic_required_ s) (server_mic_verified_ s).
Definition with_first_reply (v : bool) (s : t) : t :=
  mk (config_ s) (mech_ s) (nonce_ s) (status_ s) (phase_ s) (failure_ s) (server_error_ s) (input_ s)
    (output_ s) (remaining_ s) (version_ s) (server_version_ s) v (pending_first_step_ s)
    (mech_types_der_ s) (mic_required_ s) (server_mic_verified_ s).
Definition with_pending_first_step (v : bool) (s : t) : t :=
  mk (config_ s) (mech_ s) (nonce_ s) (status_ s) (phase_ s) (failure_ s) (server_error_ s) (input_ s)
    (output_ s) (remaining_ s) (version_ s) (server_version_ s) (first_reply_ s) v (mech_types_der_ s)
    (mic_required_ s) (server_mic_verified_ s).
Definition with_mech_types_der (v : list byte) (s : t) : t :=
  mk (config_ s) (mech_ s) (nonce_ s) (status_ s) (phase_ s) (failure_ s) (server_error_ s) (input_ s)
    (output_ s) (remaining_ s) (version_ s) (server_version_ s) (first_reply_ s) (pending_first_step_ s)
    v (mic_required_ s) (server_mic_verified_ s).
Definition with_mic_required (v : bool) (s : t) : t :=
  mk (config_ s) (mech_ s) (nonce_ s) (status_ s) (phase_ s) (failure_ s) (server_error_ s) (input_ s)
    (output_ s) (remaining_ s) (version_ s) (server_version_ s) (first_reply_ s) (pending_first_step_ s)
    (mech_types_der_ s) v (server_mic_verified_ s).
Definition with_server_mic_verified (v : bool) (s : t) : t :=
  mk (config_ s) (mech_ s) (nonce_ s) (status_ s) (phase_ s) (failure_ s) (server_error_ s) (input_ s)
    (output_ s) (remaining_ s) (version_ s) (server_version_ s) (first_reply_ s) (pending_first_step_ s)
    (mech_types_der_ s) (mic_required_ s) v.

Definition on_mech {A} (f : C -> A * C) : P t A := fun s =>
  let (a, c') := f (mech_ s) in Some (inl a, with_mech c' s).

Definition send (message : TsRequest) : P t unit :=
  let+ config := pget config_ in
  let+ v := pget version_ in
  let+ nonce := pget nonce_ in
  let+ bytes := plift (encode_request (CredsspCodec.mkRequest (config_version config) (nego_tokens message) (auth_info message)
                         (pub_key_auth message) (error_code message)
                         (if 5 <=? v then Some nonce else client_nonce message))) in
  pmod (fun s => with_output (output_ s ++ bytes) s).

Definition fail_ (reason : string) : P t unit :=
  pmod (fun s => with_input [] (with_failure reason (with_phase done_ (with_status PreAuth.nla_failed s)))).

Definition send_pub_key_auth (message : TsRequest) : P t unit :=
  let+ v := pget version_ in
  let+ nonce := pget nonce_ in
  let+ config := pget config_ in
  let+ wrapped := on_mech (fun c => wrap_message c
    (if 5 <=? v then client_to_server_hash sha256 nonce (server_public_key config) else server_public_key config)) in
  let+ _ := pmod (with_phase pub_key_auth_) in
  send (with_key wrapped message).

Definition send_step (next : Step) : P t unit :=
  let+ config := pget config_ in
  if negb (step_complete next) then
    if use_spnego config then
      let+ token := plift (Spnego.encode_resp (Spnego.mkResp None None (Some (step_token next)) None)) in
      send (with_tokens [token] (request_of max_version))
    else send (with_tokens [step_token next] (request_of max_version))
  else if negb (use_spnego config) then
    send_pub_key_auth (with_tokens (if negb (is_empty (step_token next)) then [step_token next] else []) (request_of max_version))
  else
    let token := if negb (is_empty (step_token next)) then Some (step_token next) else None in
    let+ required := pget mic_required_ in
    let+ types_der := pget mech_types_der_ in
    let+ mic := (if required : bool then let+ mic := on_mech (fun c => get_mic c types_der) in pret (Some mic) else pret None) in
    let+ verified := pget server_mic_verified_ in
    let+ _ := (if is_some mic || verified then on_mech (fun c => (tt, reset_cipher_state c)) else pret tt) in
    let+ tokens := (if is_some token || is_some mic
      then let+ bytes := plift (Spnego.encode_resp (Spnego.mkResp None None token mic)) in pret [bytes]
      else pret []) in
    let message := with_tokens tokens (request_of max_version) in
    if required && negb verified then
      let+ _ := pmod (with_phase final_token_) in
      send message
    else send_pub_key_auth message.

Definition start : P t unit :=
  let+ config := pget config_ in
  if negb (use_spnego config) then
    let+ next := on_mech (fun c => step c []) in
    let+ next := ptry "security mechanism failed" next in
    send_step next
  else
    let+ own := pget (fun s => mechanism (mech_ s)) in
    let types := preferred_mech_types config ++ [own] in
    let+ _ := pmod (with_mic_required (1 <? len types)) in
    let+ optimistic := (if bool_decide (preferred_mech_types config = []) then
        let+ next := on_mech (fun c => step c []) in
        let+ next := ptry "security mechanism failed" next in
        if step_complete next
        then reject "security mechanism completed without a round trip, which SPNEGO here does not support"
        else pret (Some (step_token next))
      else
        let+ _ := pmod (with_pending_first_step true) in
        pret None) in
    let+ init := plift (Spnego.make_neg_token_init types optimistic) in
    let+ _ := pmod (with_mech_types_der (Spnego.mech_types_der init)) in
    let+ token := plift (Spnego.encode_init init) in
    send (with_tokens [token] (request_of max_version)).

(** The checks on the acceptor's first reply. *)
Definition check_first_reply (resp : Spnego.NegTokenResp) : P t unit :=
  let+ first := pget first_reply_ in
  if first : bool then
    let+ _ := pmod (with_first_reply false) in
    if bool_decide (Spnego.neg_state resp = None) then reject "first NegTokenResp lacks negState"
    else
      let+ own := pget (fun s => mechanism (mech_ s)) in
      let+ pending := pget pending_first_step_ in
      let+ _ := (match Spnego.supported_mech resp with
        | Some oid => if bool_decide (oid = own) then pret tt else reject "server selected a mechanism the initiator cannot run"
        | None => if pending : bool then reject "server did not select a mechanism" else pret tt
        end) in
      if bool_decide (Spnego.neg_state resp = Some Spnego.request_mic) then pmod (with_mic_required true) else pret tt
  else pret tt.

(** The mechanism's next input, out of an SPNEGO reply. *)
Definition mech_input (resp : Spnego.NegTokenResp) : P t (list byte) :=
  let+ pending := pget pending_first_step_ in
  if pending : bool then
    let+ _ := pmod (with_pending_first_step false) in
    if match Spnego.response_token resp with Some x => negb (is_empty x) | None => false end
    then reject "server sent a responseToken before the mechanism started"
    else pret []
  else match Spnego.response_token resp with
       | Some input => pret input
       | None => reject "NegTokenResp during negotiation lacks a responseToken"
       end.

Definition read_reply (token : list byte) : P t (Spnego.NegTokenResp * list byte) :=
  let+ decoded := ptry "malformed SPNEGO token" (Spnego.decode token) in
  match decoded with
  | Spnego.TokenInit _ => reject "server sent a NegTokenInit"
  | Spnego.TokenResp resp =>
      if bool_decide (Spnego.neg_state resp = Some Spnego.reject) then reject "server rejected the SPNEGO negotiation"
      else
        let+ _ := check_first_reply resp in
        let+ input := mech_input resp in
        pret (resp, input)
  end.

Definition handle_negotiate (request : TsRequest) : P t unit :=
  match nego_tokens request with
  | [token] =>
      let+ config := pget config_ in
      let+ (resp, input) := (if use_spnego config
        then let+ (resp, input) := read_reply token in pret (Some resp, input)
        else pret (None, token)) in
      let+ next := on_mech (fun c => step c input) in
      let+ next := ptry "security mechanism failed" next in
      let+ _ := (match resp with
        | Some r =>
            match Spnego.mech_list_mic r with
            | Some mic =>
                if step_complete next then
                  let+ types_der := pget mech_types_der_ in
                  let+ result := on_mech (fun c => verify_mic c types_der mic) in
                  let+ _ := ptry "server mechListMIC does not verify" result in
                  pmod (with_server_mic_verified true)
                else pret tt
            | None => pret tt
            end
        | None => pret tt
        end) in
      send_step next
  | _ => reject "server reply during negotiation does not carry exactly one negoToken"
  end.

Definition handle_final_token (request : TsRequest) : P t unit :=
  match nego_tokens request with
  | [token] =>
      if is_some (pub_key_auth request) then reject "expected the acceptor's final SPNEGO token"
      else
        let+ decoded := ptry "malformed SPNEGO token" (Spnego.decode token) in
        match decoded with
        | Spnego.TokenInit _ => reject "server did not complete the SPNEGO negotiation"
        | Spnego.TokenResp resp =>
            if negb (bool_decide (Spnego.neg_state resp = Some Spnego.accept_completed)) ||
               match Spnego.response_token resp with Some x => negb (is_empty x) | None => false end
            then reject "server did not complete the SPNEGO negotiation"
            else match Spnego.mech_list_mic resp with
                 | None => reject "server omitted the mechListMIC that RFC 4178 requires here"
                 | Some mic =>
                     let+ types_der := pget mech_types_der_ in
                     let+ result := on_mech (fun c => verify_mic c types_der mic) in
                     let+ _ := ptry "server mechListMIC does not verify" result in
                     let+ _ := pmod (with_server_mic_verified true) in
                     let+ _ := on_mech (fun c => (tt, reset_cipher_state c)) in
                     send_pub_key_auth (request_of max_version)
                 end
        end
  | _ => reject "expected the acceptor's final SPNEGO token"
  end.

(** The SPNEGO token that may come with, or before, the acceptor's pubKeyAuth. *)
Definition closing_token (tokens : list (list byte)) : P t unit :=
  match tokens with
  | [] => pret tt
  | token :: _ =>
      let+ config := pget config_ in
      if negb (use_spnego config) || negb (len tokens =? 1)
      then reject "unexpected negoToken after the security mechanism completed"
      else
        let+ decoded := ptry "malformed SPNEGO token" (Spnego.decode token) in
        match decoded with
        | Spnego.TokenInit _ => reject "server did not complete the SPNEGO negotiation"
        | Spnego.TokenResp resp =>
            if match Spnego.neg_state resp with Some st => negb (bool_decide (st = Spnego.accept_completed)) | None => false end ||
               match Spnego.response_token resp with Some x => negb (is_empty x) | None => false end
            then reject "server did not complete the SPNEGO negotiation"
            else
              let+ verified := pget server_mic_verified_ in
              match Spnego.mech_list_mic resp with
              | Some mic =>
                  if negb verified then
                    let+ types_der := pget mech_types_der_ in
                    let+ result := on_mech (fun c => verify_mic c types_der mic) in
                    let+ _ := ptry "server mechListMIC does not verify" result in
                    pmod (with_server_mic_verified true)
                  else pret tt
              | None => pret tt
              end
        end
  end.

(** The server's binding of its public key that the client expects. *)
Definition expected_binding (v : Z) (nonce key : list byte) : option (list byte) :=
  if 5 <=? v then Some (server_to_client_hash sha256 nonce key) else public_key_plus_one key.

Definition check_server_key (wrapped : list byte) : P t unit :=
  let+ plaintext := on_mech (fun c => unwrap c wrapped) in
  let+ plaintext := ptry "server pubKeyAuth does not unwrap" plaintext in
  let+ v := pget version_ in
  let+ nonce := pget nonce_ in
  let+ config := pget config_ in
  let+ expected := plift (expected_binding v nonce (server_public_key config)) in
  if negb (equal_constant_time plaintext expected)
  then reject "server pubKeyAuth does not match its TLS public key (possible man in the middle)"
  else pret tt.

Definition handle_pub_key_auth (request : TsRequest) : P t unit :=
  let+ _ := closing_token (nego_tokens request) in
  match pub_key_auth request with
  | None =>
      if negb (bool_decide (nego_tokens request = [])) then pret tt
      else reject "server reply lacks pubKeyAuth"
  | Some wrapped =>
      let+ required := pget mic_required_ in
      let+ verified := pget server_mic_verified_ in
      if required && negb verified then reject "server omitted the mechListMIC that RFC 4178 requires here"
      else
        let+ _ := check_server_key wrapped in
        let+ config := pget config_ in
        let+ secret := plift (encode_credentials (to_ts_credentials (credentials config))) in
        let+ info := on_mech (fun c => wrap_message c secret) in
        let+ _ := pmod (fun s => with_status PreAuth.succeeded (with_phase done_ s)) in
        send (with_auth info (request_of max_version))
  end.

Definition check_version (request : TsRequest) : P t unit :=
  let+ server := pget server_version_ in
  if server =? 0 then
    if version request <? min_version
    then reject ("server offers CredSSP version " +:+ pretty (version request) +:+ ", below 2")
    else pmod (fun s => with_version (Z.min (config_version (config_ s)) (version request))
                          (with_server_version (version request) s))
  else pret tt.

Definition handle (request : TsRequest) : P t unit :=
  match error_code request with
  | Some code =>
      let+ _ := pmod (with_server_error (Some code)) in
      reject ("server reported NTSTATUS 0x" +:+ hex_fixed 8 code)
  | None =>
      let+ _ := check_version request in
      let+ phase := pget phase_ in
      match phase with
      | negotiate => handle_negotiate request
      | final_token_ => handle_final_token request
      | pub_key_auth_ => handle_pub_key_auth request
      | done_ => reject "TSRequest after the handshake ended"
      end
  end.

Definition or_fail (m : P t unit) : t -> option t := fun s =>
  match m s with
  | None => None
  | Some (inl _, s') => Some s'
  | Some (inr reason, s') => snd <$> fail_ reason s'
  end.

(** The constructor; [random] is what OpenSSL gives for a nonce. *)
Definition make (config : InitiatorConfig) (mech : C) (random : list byte) : option t :=
  if negb (is_empty (server_public_key config)) && (min_version <=? config_version config)
  then or_fail start (mk config mech (default random (config_nonce config)) PreAuth.in_progress negotiate "" None [] [] []
                         (config_version config) 0 true false [] false false)
  else None.

Definition receive_step (s : t) : option (t * bool) :=
  match frame_ts_request (input_ s) with
  | Err e => s' ← or_fail (reject (describe "malformed TSRequest" e)) s; Some (s', false)
  | Ok None => Some (s, false)
  | Ok (Some size) =>
      if len (input_ s) <? size then Some (s, false)
      else
        let frame := take (Z.to_nat size) (input_ s) in
        let s := with_input (drop (Z.to_nat size) (input_ s)) s in
        match decode_ts_request frame with
        | Err e => s' ← or_fail (reject (describe "malformed TSRequest" e)) s; Some (s', false)
        | Ok request => s' ← or_fail (handle request) s; Some (s', bool_decide (status_ s' = PreAuth.in_progress))
        end
  end.

Fixpoint receive_loop (fuel : nat) (s : t) : option t :=
  match fuel with
  | O => None
  | S fuel' =>
      next ← receive_step s;
      let '(s', more) := next in
      if more : bool then receive_loop fuel' s' else Some s'
  end.

Definition receive (bytes : list byte) (s : t) : option t :=
  match status_ s with
  | PreAuth.succeeded => Some (with_remaining (remaining_ s ++ bytes) s)
  | PreAuth.nla_failed => Some s
  | PreAuth.in_progress =>
      let s := with_input (input_ s ++ bytes) s in
      s ← receive_loop (S (length (input_ s))) s;
      Some (match status_ s with
            | PreAuth.succeeded => with_input [] (with_remaining (input_ s) s)
            | _ => s
            end)
  end.

Definition take_output (s : t) : list byte * t := (output_ s, with_output [] s).
Definition take_remaining_input (s : t) : list byte * t := (remaining_ s, with_remaining [] s).
End Initiator.
End Initiator.
End Credssp.
