(* ===== verification/CredsspLogic.v ===== *)
(** * Weakest preconditions for the CredSSP handlers

    [wp crash m Q E s]: the handler [m], started in [s], returns in a state where
    [Q] holds of its value, or refuses in one where [E] does; it aborts only if
    [crash].  With [crash := True] this is partial correctness, with [crash :=
    False] the handler does not abort either. *)

From S2P Require Import Prelude Buffers CodecLogic Credssp.
Open Scope Z_scope.

Module CredsspLogic.
Import Credssp.

Section Wp.
Context {S : Type} (crash : Prop).

Definition wp {A} (m : P S A) (Q : A -> S -> Prop) (E : S -> Prop) (s : S) : Prop :=
  match m s with
  | Some (inl a, s') => Q a s'
  | Some (inr _, s') => E s'
  | None => crash
  end.

Section Rules.
Context {A : Type} (Q : A -> S -> Prop) (E : S -> Prop).

Lemma pwp_ret a s : Q a s -> wp (pret a) Q E s.
Proof. done. Qed.
Lemma wp_reject reason s : E s -> wp (reject reason) Q E s.
Proof. done. Qed.
Lemma pwp_bind {B} (m : P S B) f s : wp m (fun b => wp (f b) Q E) E s -> wp (pbind m f) Q E s.
Proof. unfold wp, pbind. by destruct (m s) as [[[b|r] s']|]. Qed.
Lemma pwp_get {B} (g : S -> B) f s : wp (f (g s)) Q E s -> wp (pbind (pget g) f) Q E s.
Proof. done. Qed.
Lemma pwp_mod g f s : wp (f tt) Q E (g s) -> wp (pbind (pmod g) f) Q E s.
Proof. done. Qed.
Lemma pwp_lift {B} (o : option B) f s : (forall b, o = Some b -> wp (f b) Q E s) -> (o = None -> crash) -> wp (pbind (plift o) f) Q E s.
Proof. intros Hs Hn. unfold wp, pbind, plift. destruct o; [by apply Hs|by apply Hn]. Qed.
Lemma wp_try {B} what (r : Result B) f s : (forall b, r = Ok b -> wp (f b) Q E s) -> E s -> wp (pbind (ptry what r) f) Q E s.
Proof. intros Hs He. unfold wp, pbind, ptry. destruct r; [by apply Hs|done]. Qed.
End Rules.

Lemma pwp_mono {A} (m : P S A) (Q Q' : A -> S -> Prop) (E E' : S -> Prop) s :
  wp m Q E s -> (forall a s', Q a s' -> Q' a s') -> (forall s', E s' -> E' s') -> wp m Q' E' s.
Proof. unfold wp. destruct (m s) as [[[a|r] s']|]; auto. Qed.
End Wp.
Arguments pwp_mono {S crash A} m Q Q' E E' s _ _ _.

(** The steps that only read or write the state. *)
Ltac wps :=
  repeat match goal with
    | |- wp _ (pbind (pget _) _) _ _ _ => apply pwp_get
    | |- wp _ (pbind (pmod _) _) _ _ _ => apply pwp_mod
    | |- wp _ (pret _) _ _ _ => apply pwp_ret
    | |- wp _ (reject _) _ _ _ => apply wp_reject
    end.
End CredsspLogic.
