(* ===== verification/CredsspAcceptor.v ===== *)
(** * The CredSSP acceptor authenticates

    Theorems about [Credssp.Acceptor].  For any mechanism: a handshake that has
    succeeded went through every check of [MS-CSSP] in order; a handler that
    refuses has sent nothing, so all a client learns of a failure is that there
    was one; and with a mechanism whose tokens are of moderate size no assertion
    ever fails. *)

From S2P Require Import Prelude Buffers CodecLogic Ber DerFields Spnego PreAuth CredsspCodec Credssp CredsspLogic.
From stdpp Require Import relations.
Open Scope Z_scope.

Module CredsspAcceptor.
Import DerFields CredsspCodec Credssp Credssp.Acceptor CredsspLogic.

Section Acceptor.
Context {C : Type} `{SecurityContext C} (sha256 : list byte -> list byte).
Abbreviation t := (Acceptor.t (C := C)).

(** ** Histories of a mechanism *)

Inductive called : C -> C -> Prop :=
  | called_step c input : called c (snd (step c input))
  | called_wrap c bytes : called c (snd (wrap_message c bytes))
  | called_unwrap c bytes : called c (snd (unwrap c bytes))
  | called_get_mic c bytes : called c (snd (get_mic c bytes))
  | called_verify_mic c bytes mic : called c (snd (verify_mic c bytes mic))
  | called_reset c : called c (reset_cipher_state c).

Definition evolves : C -> C -> Prop := rtc called.

(** What the negotiation settled: the configuration, whether SPNEGO ran, the
    client's list of mechanisms and whether the lists had to be signed. *)
Record Origin := mkOrigin {
  o_config : AcceptorConfig (C := C);
  o_spnego : bool;
  o_types : list byte;
  o_required : bool }.

Definition origin (s : t) : Origin := mkOrigin (config_ s) (spnego_ s) (mech_types_der_ s) (mic_required_ s).

(** The mechanism came from the factory: the first of the client's list that
    there is, and the MICs are required if it was not the client's first. *)
Definition picked (o : Origin) (c : C) : Prop :=
  if o_spnego o then
    exists token init i oid, Spnego.decode token = Ok (Spnego.TokenInit init) /\ Spnego.mech_types_der init = o_types o /\
      choose (make_mechanism (o_config o)) (Spnego.mech_types init) 0 = Some (i, oid, c) /\ (i <> 0 -> o_required o = true)
  else make_mechanism (o_config o) Spnego.ntlm_oid = Some c /\ o_required o = false.

Definition started (o : Origin) (c : C) : Prop := exists c0, picked o c0 /\ evolves c0 c.

(** A step of the mechanism was its last, with the token [out] for the client:
    it has authenticated the client. *)
Definition established (o : Origin) (out : list byte) (c : C) : Prop :=
  exists c0 input c1, started o c0 /\ step c0 input = (Ok (mkStep out true), c1) /\ evolves c1 c.

(** The client's MIC over its list of mechanisms was verified. *)
Definition signed (o : Origin) (c : C) : Prop :=
  exists out c0 mic c1, established o out c0 /\ verify_mic c0 (o_types o) mic = (Ok tt, c1) /\ evolves c1 c.

(** What a client that sees the TLS key [key] wraps for the version [v]. *)
Definition client_binding (v : Z) (key plaintext : list byte) : Prop :=
  if 5 <=? v then exists nonce, len nonce = nonce_size /\ plaintext = client_to_server_hash sha256 nonce key
  else plaintext = key.

(** The client has proved that it sees our key.  Where the MICs are required its
    own was verified, unless the last step had a token to send back. *)
Definition bound (o : Origin) (v : Z) (key : list byte) (c : C) : Prop :=
  exists out c0 wrapped plaintext c1, established o out c0 /\ (o_required o = true -> out = [] -> signed o c0) /\
    unwrap c0 wrapped = (Ok plaintext, c1) /\ client_binding v key plaintext /\ evolves c1 c.

(** The credentials came through the mechanism, and were accepted for its identity. *)
Definition delegated (o : Origin) (v : Z) (key : list byte) (i : PreAuth.Identity) (credentials : PreAuth.PasswordCredentials) : Prop :=
  exists c0 wrapped plaintext password c1, bound o v key c0 /\ unwrap c0 wrapped = (Ok plaintext, c1) /\
    decode_ts_credentials plaintext = Ok (PasswordCreds password) /\ credentials = to_password_credentials password /\
    i = mech_identity c1 /\
    match accept_credentials (o_config o) with Some accept => accept credentials i (mechanism c1) = true | None => True end.

Definition authenticated (s : t) : Prop :=
  exists credentials,
    delegated (origin s) (version_ s) (public_key_ s) (identity_ s) credentials /\
    (credentials_ s = None \/ credentials_ s = Some credentials) /\
    min_version <= peer_version_ s /\ version_ s = Z.min (peer_version_ s) (config_max_version (config_ s)).

Lemma acceptor_evolves_refl c : evolves c c.
Proof. constructor. Qed.
Lemma evolves_then c0 c1 c2 : evolves c0 c1 -> called c1 c2 -> evolves c0 c2.
Proof. intros E Hc. eapply rtc_r; [exact E|exact Hc]. Qed.

Lemma started_then o c c' : started o c -> called c c' -> started o c'.
Proof. intros (c0 & ? & ?) ?. exists c0. eauto using evolves_then. Qed.
Lemma established_then o out c c' : established o out c -> called c c' -> established o out c'.
Proof. intros (c0 & i & c1 & ? & ? & ?) ?. exists c0, i, c1. eauto using evolves_then. Qed.
Lemma signed_then o c c' : signed o c -> called c c' -> signed o c'.
Proof. intros (out & c0 & mic & c1 & ? & ? & ?) ?. exists out, c0, mic, c1. eauto using evolves_then. Qed.
Lemma bound_then o v k c c' : bound o v k c -> called c c' -> bound o v k c'.
Proof. intros (out & c0 & w & p & c1 & ? & ? & ? & ? & ?) ?. exists out, c0, w, p, c1. eauto 8 using evolves_then. Qed.

(** ** Judgement

    Whether a handler may abort is [crash]: it may, or the outputs of the
    mechanism are bounded. *)

Record bounded_mechanism : Prop := {
  step_bound c input out c' : step c input = (Ok out, c') -> len (step_token out) <= 40000;
  mic_bound c bytes : len (fst (get_mic c bytes)) <= Spnego.max_mic_size;
  wrap_bound c bytes : len (fst (wrap_message c bytes)) <= 1024 + len bytes }.

Context (crash : Prop) (cfg : AcceptorConfig (C := C)).
Hypothesis key_there : server_public_key cfg <> [].
Hypothesis version_there : min_version <= config_max_version cfg.
Hypothesis sizes : crash \/
  (bounded_mechanism /\ (forall bytes, len (sha256 bytes) = 32) /\ len (server_public_key cfg) <= 16000).

Abbreviation wp := (CredsspLogic.wp crash).

Lemma wp_mech {A B} (Q : A -> t -> Prop) (E : t -> Prop) (g : C -> B * C) f s c : mech_ s = Some c ->
  (forall b c', g c = (b, c') -> wp (f b) Q E (with_mech (Some c') s)) -> wp (pbind (on_mech g) f) Q E s.
Proof. intros Hc Hw. unfold CredsspLogic.wp, pbind, on_mech. rewrite Hc. destruct (g c) as [b c'] eqn:Eg. by apply Hw. Qed.

(** ** Invariant *)

(** What a handler other than the last leaves alone. *)
Definition core (s : t) :=
  (config_ s, public_key_ s, status_ s, failure_ s, input_ s, remaining_ s, peer_version_ s, version_ s, nonce_ s,
   (identity_ s, credentials_ s)).

Definition phase_ok (s : t) : Prop :=
  match phase_ s with
  | negotiate =>
      client_mic_verified_ s = false /\
      match mech_ s with Some c => started (origin s) c | None => spnego_ s = false /\ mic_required_ s = false end
  | pub_key_auth_ =>
      exists out c, mech_ s = Some c /\ established (origin s) out c /\ (client_mic_verified_ s = true -> signed (origin s) c)
  | credentials_phase => exists c, mech_ s = Some c /\ bound (origin s) (version_ s) (public_key_ s) c
  | done_ => False
  end.

(** Before every handler. *)
Record live (s : t) : Prop := {
  live_config : config_ s = cfg;
  live_key : public_key_ s = server_public_key cfg;
  live_version : 0 <= version_ s < 2 ^ 32;
  live_nonce : match nonce_ s with Some n => len n = nonce_size | None => True end }.

Lemma live_core s s' : live s -> core s' = core s -> live s'.
Proof.
  intros [? ? ? ?] [= E1 E2 E3 E4 E5 E6 E7 E8 E9 E10 E11]. split; [congruence..| |]; [by rewrite E8|by rewrite E9].
Qed.

Definition handled (s0 s : t) : Prop :=
  core s = core s0 /\ (exists bytes, output_ s = output_ s0 ++ bytes) /\ phase_ok s.

Definition refused (s0 s : t) : Prop := core s = core s0 /\ output_ s = output_ s0.

(** ** Sending *)

Definition message_ok (message : TsRequest) : Prop :=
  len (nego_tokens message) <= 1 /\ Forall (fun t => len t < 2 ^ 28) (nego_tokens message) /\
  olen (auth_info message) < 2 ^ 28 /\ olen (pub_key_auth message) < 2 ^ 28 /\ olen (client_nonce message) < 2 ^ 28 /\
  match error_code message with Some c => 0 <= c < 2 ^ 32 | None => True end.

Lemma wp_send message (Q : unit -> t -> Prop) E s :
  (crash \/ message_ok message) -> 0 <= version_ s < 2 ^ 32 ->
  (forall bytes, Q tt (with_output (output_ s ++ bytes) s)) -> wp (send message) Q E s.
Proof.
  intros Hm Hv HQ. unfold send. apply pwp_get, pwp_lift; [intros b _; apply HQ|].
  intros En. destruct Hm as [?|Hm]; [done|]. exfalso.
  destruct (request_size (CredsspCodec.mkRequest (version_ s) (nego_tokens message) (auth_info message)
    (pub_key_auth message) (error_code message) (client_nonce message))) as (e & E1 & _); [|congruence].
  unfold message_ok, request_sizes in *. cbn. intuition.
Qed.

(** A request with a token and nothing else. *)
Lemma token_message token : len token < 2 ^ 28 -> message_ok (with_tokens [token] (request_of max_version)).
Proof. intros Hl. unfold message_ok. cbn. split_and!; try done. by constructor. Qed.

(** ** Handlers *)

(** A wrapped answer to the client's proof, and its token. *)
Lemma answer_ok (nego_token : option (list byte)) (wrapped answer : list byte) :
  match nego_token with Some x => len x < 2 ^ 28 | None => True end ->
  len answer <= 16000 -> len wrapped <= 1024 + len answer ->
  message_ok (with_key wrapped (with_tokens (match nego_token with Some x => [x] | None => [] end) (request_of max_version))).
Proof.
  intros Ht Ha Hw. unfold message_ok. destruct nego_token as [x|]; cbn; split_and!; try done; try lia; by constructor.
Qed.

Definition token_fits (nego_token : option (list byte)) : Prop :=
  crash \/ match nego_token with Some x => len x < 2 ^ 28 | None => True end.

Lemma plus_one_size key answer : public_key_plus_one key = Some answer -> len answer = len key.
Proof. destruct key; [done|]. intros [= <-]. by rewrite !len_cons. Qed.

Lemma wp_bindings v nonce key (Q : list byte * list byte -> t -> Prop) (E : t -> Prop) s :
  key <> [] -> match nonce with Some n => len n = nonce_size | None => True end -> E s ->
  (forall expected answer,
     (forall plaintext, plaintext = expected -> client_binding v key plaintext) ->
     ((forall bytes, len (sha256 bytes) = 32) -> len key <= 16000 -> len answer <= 16000) ->
     Q (expected, answer) s) ->
  wp (bindings sha256 v nonce key) Q E s.
Proof.
  intros Hk Hn He HQ. unfold bindings. destruct (5 <=? v) eqn:Ev.
  - destruct nonce as [n|]; [|by apply wp_reject]. apply pwp_ret, HQ.
    + intros p ->. unfold client_binding. rewrite Ev. by exists n.
    + intros Hs _. unfold server_to_client_hash. rewrite Hs. lia.
  - apply pwp_lift; [|destruct key; [done|discriminate]]. intros answer Ea. apply pwp_ret, HQ.
    + intros p ->. unfold client_binding. by rewrite Ev.
    + intros _ Hl. by rewrite (plus_one_size _ _ Ea).
Qed.

(** [answer_pub_key_auth] after a mechanism that has completed. *)
Lemma wp_answer s0 s out c wrapped nego_token :
  live s -> core s = core s0 -> output_ s = output_ s0 -> mech_ s = Some c -> established (origin s) out c ->
  (mic_required_ s = true -> out = [] -> signed (origin s) c) -> token_fits nego_token ->
  wp (answer_pub_key_auth sha256 wrapped nego_token) (fun _ => handled s0) (refused s0) s.
Proof.
  intros Hl Hc Ho Hm He Hs Ht. destruct Hl as [Hcfg Hkey Hv Hn]. unfold answer_pub_key_auth.
  eapply wp_mech; [exact Hm|]. intros r c' Eu. apply wp_try; [|by split].
  intros plaintext ->. wps. apply pwp_bind, wp_bindings; [by cbn; rewrite Hkey|exact Hn|by split|].
  intros expected answer Hb Ha. unfold equal_constant_time. case_bool_decide as Hp; cbn [negb]; [|by apply wp_reject].
  eapply wp_mech; [done|]. intros w c'' Ew. wps.
  apply wp_send; [|exact Hv|].
  - destruct sizes as [?|(Hm' & Hh & Hz)]; [by left|]. destruct Ht as [?|Ht]; [by left|]. right.
    cbn in Ha. eapply answer_ok; [exact Ht|apply Ha; [done|by rewrite Hkey]|].
    pose proof (wrap_bound Hm' c' answer) as Hw. by rewrite Ew in Hw.
  - intros bytes. split; [exact Hc|]. split; [exists bytes; cbn; by rewrite Ho|]. cbn. exists c''. split; [done|].
    exists out, c, wrapped, plaintext, c'. split_and!; [exact He|exact Hs|done|by apply Hb|].
    eapply evolves_then; [apply acceptor_evolves_refl|]. pose proof (called_wrap c' answer) as Hw. by rewrite Ew in Hw.
Qed.

(** The mechanism has completed with [out]; nothing was sent since [s0]. *)
Record completing (s0 : t) (out : list byte) (s : t) : Prop := {
  cp_core : core s = core s0;
  cp_output : output_ s = output_ s0;
  cp_mech : exists c, mech_ s = Some c /\ established (origin s) out c /\ (client_mic_verified_ s = true -> signed (origin s) c) }.

Lemma completing_refused s0 out s : completing s0 out s -> refused s0 s.
Proof. by intros []. Qed.

Lemma completing_called s0 out s c c' :
  completing s0 out s -> mech_ s = Some c -> called c c' -> completing s0 out (with_mech (Some c') s).
Proof.
  intros [Hc Ho (c0 & Hm & He & Hv)] E Hcall. assert (c0 = c) as -> by congruence. split; [exact Hc|exact Ho|].
  exists c'. split; [done|]. split; [by eapply established_then|]. intros V. eapply signed_then; [by apply Hv|done].
Qed.

(** A call of a mechanism that has completed. *)
Lemma wp_completing {A B} s0 out (g : C -> B * C) (f : B -> P t A) Q E s :
  completing s0 out s -> (forall c b c', g c = (b, c') -> called c c') ->
  (forall c b c', mech_ s = Some c -> g c = (b, c') -> completing s0 out (with_mech (Some c') s) -> wp (f b) Q E (with_mech (Some c') s)) ->
  wp (pbind (on_mech g) f) Q E s.
Proof.
  intros Hcp Hg Hw. destruct (cp_mech _ _ _ Hcp) as (c & Hm & _ & _). eapply wp_mech; [exact Hm|]. intros b c' Eg.
  eapply Hw; [exact Hm|exact Eg|]. eapply completing_called; [exact Hcp|exact Hm|]. by eapply Hg.
Qed.

Lemma called_of {B} (g : C -> B * C) : (forall c, called c (snd (g c))) -> forall c b c', g c = (b, c') -> called c c'.
Proof. intros Hg c b c' E. pose proof (Hg c) as X. by rewrite E in X. Qed.

(** The client's MIC: verified, or it need not be there. *)
Lemma wp_verify s0 out mic what s (Q : unit -> t -> Prop) :
  completing s0 out s ->
  (forall s', completing s0 out s' -> origin s' = origin s -> phase_ s' = phase_ s -> client_mic_verified_ s' = true -> Q tt s') ->
  wp (let+ result := on_mech (fun c => verify_mic c (mech_types_der_ s) mic) in
      let+ _ := ptry what result in
      pmod (with_client_mic_verified true)) Q (refused s0) s.
Proof.
  intros Hcp HQ. destruct (cp_mech _ _ _ Hcp) as (c & Hm & He & _). eapply wp_mech; [exact Hm|].
  intros r c' Ev. apply wp_try; [|split; apply Hcp].
  intros [] ->. apply HQ; [|done..]. split; [apply Hcp|apply Hcp|]. exists c'. split; [done|].
  assert (called c c') as Hcall by (pose proof (called_verify_mic c (mech_types_der_ s) mic) as X; by rewrite Ev in X).
  split; [by eapply established_then|]. intros _. exists out, c, mic, c'. split_and!; [exact He|exact Ev|apply acceptor_evolves_refl].
Qed.

Lemma resp_fits reply :
  olen (Spnego.supported_mech reply) <= 32 ->
  (crash \/ olen (Spnego.response_token reply) <= 40000 /\ olen (Spnego.mech_list_mic reply) <= 1024) ->
  (forall token, Spnego.encode_resp reply = Some token -> token_fits (Some token)) /\ (Spnego.encode_resp reply = None -> crash).
Proof.
  intros Hs [Hc|[Ht Hm]]; [by split; [left|]|].
  destruct (Spnego.resp_size reply) as (e & -> & Hl); [done|lia|lia|]. split; [|done].
  intros token [= <-]. right. lia.
Qed.

Lemma wp_exchange s0 out client_mic reply s :
  completing s0 out s -> olen (Spnego.supported_mech reply) <= 32 -> Spnego.response_token reply = None ->
  Spnego.mech_list_mic reply = None -> (crash \/ len out <= 40000) ->
  wp (exchange_mics out client_mic reply)
    (fun token s' => completing s0 out s' /\ token_fits (Some token) /\ origin s' = origin s /\
       (mic_required_ s' = true -> out = [] -> client_mic_verified_ s' = true)) (refused s0) s.
Proof.
  intros Hcp Hsize Hrt Hrm Hout. unfold exchange_mics. wps. apply pwp_bind.
  eapply (pwp_mono _ (fun _ s' => completing s0 out s' /\ origin s' = origin s /\
    (mic_required_ s = true -> out = [] -> client_mic_verified_ s' = true)) _ (refused s0)); [|clear Hcp|done].
  { destruct client_mic as [mic|].
    - by apply (wp_verify s0 out).
    - unfold is_empty. destruct (mic_required_ s) eqn:Er, (bool_decide_reflect (out = [])) as [Eo|Eo]; cbn [andb]; wps;
        first [by eapply completing_refused|by split_and!]. }
  intros _ s1 (Hcp & Ho & Hv). cbn beta.
  assert (mic_required_ s1 = mic_required_ s) as Er by (by injection Ho).
  apply pwp_bind. eapply (pwp_mono _ (fun mic s' => completing s0 out s' /\ origin s' = origin s /\
    client_mic_verified_ s' = client_mic_verified_ s1 /\ (crash \/ olen mic <= 1024)) _ (refused s0)); [|clear Hcp|done].
  { destruct (_ || _).
    - eapply wp_completing; [exact Hcp|apply called_of; intros; apply called_get_mic|].
      intros c mic c' Hm Eg Hcp'. wps. split_and!; [exact Hcp'|exact Ho|done|].
      destruct sizes as [?|(Hb & _)]; [by left|right]. pose proof (mic_bound Hb c (mech_types_der_ s)) as Hl.
      rewrite Eg in Hl. exact Hl.
    - wps. split_and!; [exact Hcp|exact Ho|done|]. right. by rewrite Hrm. }
  intros mic s2 (Hcp & Ho2 & Ev & Hmic). cbn beta. wps. apply pwp_bind.
  eapply (pwp_mono _ (fun _ s' => completing s0 out s' /\ origin s' = origin s /\
    client_mic_verified_ s' = client_mic_verified_ s2) _ (refused s0)); [|clear Hcp|done].
  { destruct (_ || _); [|by wps].
    destruct (cp_mech _ _ _ Hcp) as (c & Hm & _). unfold CredsspLogic.wp, on_mech. rewrite Hm.
    split_and!; [|exact Ho2|done]. eapply completing_called; [exact Hcp|exact Hm|constructor]. }
  intros _ s3 (Hcp & Ho3 & Ev3). cbn beta zeta.
  match goal with |- wp (plift (Spnego.encode_resp ?r)) _ _ _ => destruct (resp_fits r) as [Hf Hn] end.
  { exact Hsize. }
  { destruct Hout as [?|Hout]; [by left|]. destruct Hmic as [?|Hmic]; [by left|]. right. cbn.
    split; [|exact Hmic]. unfold is_empty. case_bool_decide; cbn; [by rewrite Hrt|done]. }
  unfold CredsspLogic.wp, plift. destruct (Spnego.encode_resp _) as [token|]; [|by apply Hn].
  split_and!; [exact Hcp|by apply Hf|exact Ho3|]. rewrite Ev3, Ev. injection Ho3 as _ _ _ ->. exact Hv.
Qed.

Lemma established_raw o out c : established o out c -> o_spnego o = false -> o_required o = false.
Proof. intros (? & ? & ? & (c0 & Hp & _) & _) E. unfold picked in Hp. rewrite E in Hp. apply Hp. Qed.

Lemma token_message_fits token : token_fits (Some token) -> crash \/ message_ok (with_tokens [token] (request_of max_version)).
Proof. intros [?|?]; [by left|right]. by apply token_message. Qed.

Lemma wp_finish s0 out client_mic reply request s :
  live s -> completing s0 out s -> olen (Spnego.supported_mech reply) <= 32 -> Spnego.response_token reply = None ->
  Spnego.mech_list_mic reply = None -> (crash \/ len out <= 40000) ->
  wp (finish_negotiation sha256 request out client_mic reply) (fun _ => handled s0) (refused s0) s.
Proof.
  intros Hl Hcp Hsize Hrt Hrm Hout. unfold finish_negotiation. wps. apply pwp_bind.
  eapply (pwp_mono _ (fun token s' => completing s0 out s' /\ token_fits token /\
    (mic_required_ s' = true -> out = [] -> client_mic_verified_ s' = true)) _ (refused s0)); [| |done].
  { destruct (spnego_ s) eqn:Es.
    - apply pwp_bind. eapply pwp_mono; [by apply wp_exchange| |done].
      intros token s' (Hcp' & Ht & _ & Hv). by wps.
    - wps. split; [done|]. split.
      + destruct Hout as [?|Hout]; [by left|right]. unfold is_empty. case_bool_decide; cbn; [done|lia].
      + destruct (cp_mech _ _ _ Hcp) as (c & _ & He & _). pose proof (established_raw _ _ _ He Es) as Er.
        cbn in Er. by rewrite Er. }
  intros token s1 (Hcp1 & Ht & Hv). cbn beta. wps. destruct Hcp1 as [Hc Ho (c & Hm & He & Hs)].
  assert (core s1 = core s) as Hc' by (rewrite Hc; symmetry; apply Hcp).
  pose proof (live_core _ _ Hl Hc') as Hl1.
  destruct (pub_key_auth request) as [key|].
  - eapply wp_answer; [by destruct Hl1; split|exact Hc|exact Ho|exact Hm|exact He| |done].
    intros Hr Hn. by apply Hs, Hv.
  - assert (forall bytes, handled s0 (with_output (output_ s1 ++ bytes) (with_phase pub_key_auth_ s1))) as Hh.
    { intros bytes. split; [exact Hc|]. split; [exists bytes; cbn; by rewrite Ho|]. cbn. by exists out, c. }
    destruct token as [token|].
    + apply wp_send; [by apply token_message_fits|apply Hl1|exact Hh].
    + wps. specialize (Hh []). rewrite app_nil_r in Hh. destruct s1; exact Hh.
Qed.

(** ** Negotiation *)

Lemma choose_spec f types : forall n i oid c,
  choose f types n = Some (i, oid, c :> C) -> oid ∈ types /\ f oid = Some c.
Proof.
  induction types as [|o types IH]; intros n i oid c; cbn [choose]; [done|].
  destruct (f o) eqn:Ef.
  - intros [= _ <- <-]. split; [by left|done].
  - intros E. apply IH in E as [? ?]. split; [by right|done].
Qed.

(** The mechanism is at work; nothing was sent since [s0]. *)
Record negotiating (s0 : t) (s : t) : Prop := {
  ng_core : core s = core s0;
  ng_output : output_ s = output_ s0;
  ng_phase : phase_ s = negotiate;
  ng_mic : client_mic_verified_ s = false;
  ng_mech : exists c, mech_ s = Some c /\ started (origin s) c }.

Lemma negotiating_refused s0 s : negotiating s0 s -> refused s0 s.
Proof. by intros []. Qed.

(** What is sent while the negotiation goes on. *)
Lemma negotiating_handled s0 s bytes : negotiating s0 s -> handled s0 (with_output (output_ s ++ bytes) s).
Proof.
  intros [Hc Ho Hp Hm (c & E & Hs)]. split; [exact Hc|]. split; [exists bytes; cbn; by rewrite Ho|].
  unfold phase_ok. cbn. rewrite Hp, E. done.
Qed.

Lemma wp_reply s0 s reply :
  live s -> negotiating s0 s -> olen (Spnego.supported_mech reply) <= 32 ->
  (crash \/ olen (Spnego.response_token reply) <= 40000 /\ olen (Spnego.mech_list_mic reply) <= 1024) ->
  wp (send_reply reply) (fun _ => handled s0) (refused s0) s.
Proof.
  intros Hl Hn Hs Hb. destruct (resp_fits reply Hs Hb) as [Hf He]. unfold send_reply. apply pwp_lift; [|done].
  intros token E. apply wp_send; [by apply token_message_fits, Hf|apply Hl|]. intros bytes. by apply negotiating_handled.
Qed.

(** A step of the mechanism: it goes on, it has completed, or it refuses. *)
Lemma wp_step s0 s input (f : Step -> P t unit) :
  live s -> negotiating s0 s ->
  (forall out s', live s' -> negotiating s0 s' -> spnego_ s' = spnego_ s -> (crash \/ len out <= 40000) ->
     wp (f (mkStep out false)) (fun _ => handled s0) (refused s0) s') ->
  (forall out s', live s' -> completing s0 out s' -> spnego_ s' = spnego_ s -> (crash \/ len out <= 40000) ->
     wp (f (mkStep out true)) (fun _ => handled s0) (refused s0) s') ->
  wp (let+ next := step_mech input in f next) (fun _ => handled s0) (refused s0) s.
Proof.
  intros Hl [Hc Ho Hp Hm (c & E & Hst)] Hgo Hdone. unfold step_mech. apply pwp_bind. eapply wp_mech; [exact E|].
  intros r c' Es. unfold CredsspLogic.wp at 1, ptry. destruct r as [[out complete]|e]; [|by split]. cbn beta iota.
  assert (crash \/ len out <= 40000) as Hb.
  { destruct sizes as [?|(Hb & _)]; [by left|right]. exact (step_bound Hb _ _ _ _ Es). }
  assert (live (with_mech (Some c') s)) as Hl' by (by destruct Hl; split).
  destruct complete.
  - apply Hdone; [exact Hl'| |done|exact Hb]. split; [exact Hc|exact Ho|]. exists c'. split; [done|]. split.
    + exists c, input, c'. split_and!; [exact Hst|exact Es|apply acceptor_evolves_refl].
    + cbn. congruence.
  - apply Hgo; [exact Hl'| |done|exact Hb]. split; [exact Hc|exact Ho|exact Hp|exact Hm|]. exists c'. split; [done|].
    eapply started_then; [exact Hst|]. pose proof (called_step c input) as X. by rewrite Es in X.
Qed.

Lemma wp_start_spnego s0 s token init request :
  live s -> core s = core s0 -> output_ s = output_ s0 -> phase_ s = negotiate -> client_mic_verified_ s = false ->
  spnego_ s = true -> Spnego.decode token = Ok (Spnego.TokenInit init) ->
  wp (start_spnego sha256 init request) (fun _ => handled s0) (refused s0) s.
Proof.
  intros Hl Hc Ho Hp Hm Hsp Hd. unfold start_spnego. wps.
  destruct (choose _ _ _) as [[[i oid] c]|] eqn:Ec; [|by wps]. cbn in Ec. wps.
  assert (len oid <= 32) as Hoid.
  { apply choose_spec in Ec as [Hin _]. pose proof (Spnego.decoded_init _ _ Hd) as Hf.
    rewrite Forall_forall in Hf. apply (Spnego.oid_ok_spec oid 0), Hf, Hin. }
  assert (forall required, (i <> 0 -> required = true) -> started (mkOrigin (config_ s) true (Spnego.mech_types_der init) required) c)
    as Hst.
  { intros required Hr. exists c. split; [|apply acceptor_evolves_refl]. unfold picked. cbn. by exists token, init, i, oid. }
  destruct (Z.eqb_spec i 0) as [Hi|Hi]; cbn [negb].
  - match goal with |- wp _ _ _ ?s1 => assert (live s1) as Hl1 by (by destruct Hl; split);
      assert (negotiating s0 s1) as Hn end.
    { split; [exact Hc|exact Ho|exact Hp|exact Hm|]. exists c. split; [done|].
      unfold origin. cbn. rewrite Hsp. by apply Hst. }
    destruct (Spnego.mech_token init) as [input|].
    + apply (wp_step s0); [done|done| |].
      * intros out s2 Hl2 Hn2 _ Hb. cbn [step_complete step_token]. apply wp_reply; [done|done|exact Hoid|].
        destruct Hb as [?|Hb]; [by left|by right].
      * intros out s2 Hl2 Hcp _ Hb. cbn [step_complete step_token]. by apply wp_finish.
    + apply wp_reply; [done|done|exact Hoid|by right].
  - wps. apply wp_reply; [by destruct Hl; split| |exact Hoid|by right].
    split; [exact Hc|exact Ho|exact Hp|exact Hm|]. exists c. split; [done|].
    unfold origin. cbn. rewrite Hsp. by apply Hst.
Qed.

Lemma wp_continue s0 s request token :
  live s -> negotiating s0 s -> wp (continue_negotiation sha256 request token) (fun _ => handled s0) (refused s0) s.
Proof.
  intros Hl Hn. unfold continue_negotiation. wps. apply pwp_bind.
  eapply (pwp_mono _ (fun x s' => s' = s) _ (refused s0)); [| |done].
  { destruct (spnego_ s); [|by wps]. apply pwp_bind. unfold read_resp.
    apply wp_try; [|by eapply negotiating_refused]. intros [|resp] _; [by eapply wp_reject, negotiating_refused|].
    case_bool_decide; [by eapply wp_reject, negotiating_refused|].
    destruct (Spnego.response_token resp); [by wps|by eapply wp_reject, negotiating_refused]. }
  intros [resp input] s' ->. cbn beta iota. apply wp_step; [done|done| |].
  - intros out s2 Hl2 Hn2 Es Hb. cbn [step_complete step_token]. destruct (spnego_ s).
    + apply wp_reply; [done|done|by cbn|]. destruct Hb as [?|Hb]; [by left|by right].
    + apply wp_send; [|apply Hl2|intros bytes; by apply negotiating_handled].
      apply token_message_fits. destruct Hb as [?|Hb]; [by left|right; lia].
  - intros out s2 Hl2 Hcp _ Hb. cbn [step_complete step_token]. by apply wp_finish.
Qed.

Lemma phase_ok_negotiating s : phase_ok s -> phase_ s = negotiate ->
  (exists c, mech_ s = Some c) -> negotiating s s.
Proof.
  unfold phase_ok. intros H1 Hp (c & E). rewrite Hp, E in H1. destruct H1 as [Hm Hs]. by split; [..|exists c].
Qed.

Lemma wp_handle_negotiate s request :
  live s -> phase_ok s -> phase_ s = negotiate ->
  wp (handle_negotiate sha256 request) (fun _ => handled s) (refused s) s.
Proof.
  intros Hl Hok Hp. unfold handle_negotiate.
  destruct (nego_tokens request) as [|token [|]]; [by wps| |by wps]. destruct (is_some _); [by wps|]. wps.
  destruct (mech_ s) as [c|] eqn:Em.
  { apply wp_continue; [done|]. apply phase_ok_negotiating; [done|done|by exists c]. }
  unfold phase_ok in Hok. rewrite Hp, Em in Hok. destruct Hok as (Hm & Hsp & Hr).
  destruct (Spnego.is_raw_ntlm token); cbn [negb].
  - wps. cbn [with_mech mech_]. destruct (make_mechanism _ _) as [c|] eqn:Ec; [|by wps].
    apply wp_continue; [by destruct Hl; split|]. split; [done|done|exact Hp|exact Hm|]. exists c. split; [done|].
    exists c. split; [|apply acceptor_evolves_refl]. unfold picked. cbn. by rewrite Hsp.
  - apply wp_try; [|done]. intros [init|resp] Ed; [|by wps]. wps.
    by apply (wp_start_spnego _ _ token); [destruct Hl; split|..].
Qed.

Lemma wp_final_token s out tokens (f : unit -> P t unit) Q :
  completing s out s ->
  (forall s', completing s out s' -> origin s' = origin s -> phase_ s' = phase_ s -> wp (f tt) Q (refused s) s') ->
  wp (pbind (final_token tokens) f) Q (refused s) s.
Proof.
  intros Hcp HQ. apply pwp_bind.
  eapply (pwp_mono _ (fun _ s' => completing s out s' /\ origin s' = origin s /\ phase_ s' = phase_ s)).
  2: { intros [] s' (? & ? & ?). by apply HQ. } 2: done.
  unfold final_token. destruct tokens as [|token tokens]; [by wps|]. wps.
  destruct (_ || _); [by wps|]. apply wp_try; [|done]. intros [|resp] _; [by wps|].
  destruct (_ || _); [by wps|]. wps. destruct (Spnego.mech_list_mic resp) as [mic|]; [|by wps].
  destruct (negb _); [|by wps]. wps.
  pose proof (wp_verify s out mic "client mechListMIC does not verify" s (fun _ s' => completing s out s' /\
    origin s' = origin s /\ phase_ s' = phase_ s) Hcp) as Hw. ospecialize (Hw _); [by intros|].
  revert Hw. unfold CredsspLogic.wp, pbind, on_mech, ptry, pmod. destruct (mech_ s) as [c|] eqn:Em; [|done].
  destruct (verify_mic c (mech_types_der_ s) mic) as [[u|e] c']; [|done]. cbn. intros (Hcp' & Ho & Hp).
  split_and!; [|exact Ho|exact Hp]. eapply (completing_called s out _ c'); [exact Hcp'|done|constructor].
Qed.

Lemma wp_handle_pub_key_auth s request :
  live s -> phase_ok s -> phase_ s = pub_key_auth_ ->
  wp (handle_pub_key_auth sha256 request) (fun _ => handled s) (refused s) s.
Proof.
  intros Hl Hok Hp. unfold phase_ok in Hok. rewrite Hp in Hok. destruct Hok as (out & c & Em & He & Hs).
  unfold handle_pub_key_auth. destruct (is_some _); [by wps|].
  assert (completing s out s) as Hcp by (split; [done|done|by exists c]).
  apply (wp_final_token _ out); [done|]. intros s' Hcp' Ho Hp'. wps.
  destruct (mic_required_ s' && negb (client_mic_verified_ s')) eqn:Er; [by eapply wp_reject, completing_refused|].
  destruct (pub_key_auth request) as [key|]; [|by eapply wp_reject, completing_refused].
  destruct Hcp' as [Hc Hout (c' & Em' & He' & Hs')].
  eapply wp_answer; [by eapply live_core|exact Hc|exact Hout|exact Em'|exact He'| |by right].
  intros Hr _. apply Hs'. rewrite Hr in Er. by destruct (client_mic_verified_ s').
Qed.

(** The last handler: the handshake has succeeded. *)
Definition finished (s0 s : t) : Prop :=
  config_ s = config_ s0 /\ public_key_ s = public_key_ s0 /\ input_ s = input_ s0 /\ output_ s = output_ s0 /\
  remaining_ s = remaining_ s0 /\ peer_version_ s = peer_version_ s0 /\ version_ s = version_ s0 /\ nonce_ s = nonce_ s0 /\
  status_ s = PreAuth.succeeded /\
  exists credentials, credentials_ s = Some credentials /\
    delegated (origin s) (version_ s) (public_key_ s) (identity_ s) credentials.

Lemma wp_handle_credentials s request :
  phase_ok s -> phase_ s = credentials_phase ->
  wp (handle_credentials request) (fun _ => finished s) (refused s) s.
Proof.
  intros Hok Hp. unfold phase_ok in Hok. rewrite Hp in Hok. destruct Hok as (c & Em & Hb). unfold handle_credentials.
  destruct (auth_info request) as [info|]; [|by wps].
  eapply wp_mech; [exact Em|]. intros r c1 Eu. apply wp_try; [|done]. intros plaintext ->.
  apply wp_try; [|done]. intros credentials Ed. destruct credentials as [password| |]; [|by wps..]. cbv zeta. wps.
  eapply wp_mech; [done|]. intros [i oid] c2 [= <- <- <-]. cbv beta iota.
  destruct (match accept_credentials _ with Some _ => _ | None => _ end) eqn:Ea; [by wps|].
  unfold CredsspLogic.wp, pmod. split_and!; [done..|]. exists (to_password_credentials password). split; [done|].
  exists c, info, plaintext, password, c1. split_and!; [exact Hb|exact Eu|exact Ed|done|done|].
  cbn in Ea |- *. destruct (accept_credentials (config_ s)) as [accept|]; [|done]. by destruct (accept _ _ _).
Qed.

(** ** A whole request *)

Definition negotiated (s : t) : Prop :=
  (peer_version_ s = 0 /\ version_ s = 0) \/
  (min_version <= peer_version_ s /\ version_ s = Z.min (peer_version_ s) (config_max_version (config_ s))).

Record inv (s : t) : Prop := {
  inv_live : live s;
  inv_negotiated : negotiated s;
  inv_status : match status_ s with
    | PreAuth.in_progress =>
        phase_ok s /\ credentials_ s = None /\ remaining_ s = [] /\ (peer_version_ s = 0 -> phase_ s = negotiate)
    | PreAuth.succeeded => authenticated s
    | PreAuth.nla_failed => credentials_ s = None
    end }.

(** After a request that was taken, and after one that was refused. *)
Definition taken (s0 s : t) : Prop :=
  inv s /\ status_ s <> PreAuth.nla_failed /\ input_ s = input_ s0 /\ remaining_ s = remaining_ s0 /\
  exists bytes, output_ s = output_ s0 ++ bytes.

Definition turned_down (s0 s : t) : Prop :=
  live s /\ negotiated s /\ output_ s = output_ s0 /\ remaining_ s = remaining_ s0.

Lemma refused_turned_down s0 s1 s :
  live s1 -> negotiated s1 -> output_ s1 = output_ s0 -> remaining_ s1 = remaining_ s0 -> refused s1 s -> turned_down s0 s.
Proof.
  intros Hl Hn Ho Hr [Hc Ho']. split; [by eapply live_core|]. injection Hc as E1 E2 E3 E4 E5 E6 E7 E8 E9 E10 E11.
  split; [unfold negotiated in *; congruence|]. split; congruence.
Qed.

Lemma handled_taken s0 s1 s :
  live s1 -> negotiated s1 -> min_version <= peer_version_ s1 -> status_ s1 = PreAuth.in_progress -> credentials_ s1 = None ->
  remaining_ s1 = [] -> input_ s1 = input_ s0 -> output_ s1 = output_ s0 -> remaining_ s1 = remaining_ s0 ->
  handled s1 s -> taken s0 s.
Proof.
  intros Hl Hn Hv Hst Hcr Hre Hi Ho Hr (Hc & [bytes Ho'] & Hp). pose proof (live_core _ _ Hl Hc) as Hl'.
  injection Hc as E1 E2 E3 E4 E5 E6 E7 E8 E9 E10 E11. assert (status_ s = PreAuth.in_progress) as Es by congruence.
  split; [|split_and!; [congruence..|exists bytes; congruence]].
  split; [done|unfold negotiated in *; congruence|]. rewrite Es. split_and!; [done|congruence..|].
  intros Hz. unfold min_version in Hv. lia.
Qed.

Lemma finished_taken s0 s1 s :
  live s1 -> negotiated s1 -> min_version <= peer_version_ s1 -> input_ s1 = input_ s0 -> output_ s1 = output_ s0 ->
  remaining_ s1 = remaining_ s0 -> finished s1 s -> taken s0 s.
Proof.
  intros [Hl1 Hl2 Hl3 Hl4] Hn Hv Hi Ho Hr (E1 & E2 & E3 & E4 & E5 & E6 & E7 & E8 & Es & credentials & Ec & Hd).
  split; [|split_and!; [congruence..|exists []; rewrite app_nil_r; congruence]].
  split; [split; [congruence|congruence|by rewrite E7|by rewrite E8]|unfold negotiated in *; congruence|]. rewrite Es.
  exists credentials. split; [exact Hd|]. split; [by right|]. split; [by rewrite E6|].
  destruct Hn as [[Hz _]|[_ Hn]]; [unfold min_version in Hv; lia|]. by rewrite E7, E6, E1.
Qed.

Lemma wp_check_version s request (f : unit -> P t unit) Q :
  inv s -> status_ s = PreAuth.in_progress -> version request < 2 ^ 32 ->
  (forall s', live s' -> negotiated s' -> min_version <= peer_version_ s' -> status_ s' = PreAuth.in_progress ->
     phase_ok s' -> credentials_ s' = None -> remaining_ s' = [] ->
     input_ s' = input_ s -> output_ s' = output_ s -> remaining_ s' = remaining_ s -> wp (f tt) Q (turned_down s) s') ->
  wp (pbind (check_version request) f) Q (turned_down s) s.
Proof.
  intros [Hl Hn Hst] Es Hv HQ. rewrite Es in Hst. destruct Hst as (Hp & Hc & Hr & H0).
  assert (turned_down s s) as Ht by done.
  apply pwp_bind. unfold check_version. wps. destruct (Z.eqb_spec (peer_version_ s) 0) as [Hz|Hz].
  - destruct (Z.ltb_spec (version request) min_version) as [?|Hm]; [by wps|].
    apply HQ; try done.
    + destruct Hl as [L1 L2 L3 L4]. split; [done..| |done]. cbn. rewrite L1. unfold min_version in *. lia.
    + right. done.
    + specialize (H0 Hz). unfold phase_ok in *. cbn. rewrite H0 in *. exact Hp.
  - destruct (Z.eqb_spec (version request) (peer_version_ s)); cbn [negb]; [|by wps].
    apply HQ; try done. destruct Hn as [[? _]|[? _]]; done.
Qed.

Lemma wp_handle s request :
  inv s -> status_ s = PreAuth.in_progress -> version request < 2 ^ 32 ->
  match client_nonce request with Some n => len n = nonce_size | None => True end ->
  wp (handle sha256 request) (fun _ => taken s) (turned_down s) s.
Proof.
  intros Hi Es Hv Hn. unfold handle. apply wp_check_version; [done..|].
  intros s1 Hl1 Hn1 Hv1 Es1 Hp1 Hc1 Hr1 Ei1 Eo1 Er1.
  destruct (error_code request); [by wps|]. apply pwp_bind.
  match goal with |- wp _ ?Q _ _ => assert (forall s2, live s2 -> negotiated s2 -> min_version <= peer_version_ s2 ->
    status_ s2 = PreAuth.in_progress -> phase_ok s2 -> credentials_ s2 = None -> remaining_ s2 = [] ->
    input_ s2 = input_ s -> output_ s2 = output_ s -> remaining_ s2 = remaining_ s -> Q tt s2) as HQ end.
  { intros s2 Hl2 Hn2 Hv2 Es2 Hp2 Hc2 Hr2 Ei2 Eo2 Er2. cbv beta. wps.
    assert (forall m : P t unit, wp m (fun _ => handled s2) (refused s2) s2 -> wp m (fun _ => taken s) (turned_down s) s2) as Hm.
    { intros m Hw. eapply pwp_mono; [exact Hw|intros u s3; by apply handled_taken|]. intros s3. by apply refused_turned_down. }
    destruct (phase_ s2) eqn:Ep.
    - apply Hm. by apply wp_handle_negotiate.
    - apply Hm. by apply wp_handle_pub_key_auth.
    - eapply pwp_mono; [by apply wp_handle_credentials|intros u s3; by apply finished_taken|].
      intros s3. by apply refused_turned_down.
    - unfold phase_ok in Hp2. by rewrite Ep in Hp2. }
  destruct (client_nonce request) as [n|]; [|by apply HQ].
  unfold CredsspLogic.wp, pmod. apply HQ; try done. by destruct Hl1; split.
Qed.
End Acceptor.
End CredsspAcceptor.
