(* ===== verification/CredsspReceive.v ===== *)
(** * The CredSSP acceptor and the stream of bytes

    [receive] of [Credssp.Acceptor] over everything a peer may send: it returns,
    keeps the invariant of [CredsspAcceptor], answers every failure alike and
    does not depend on how the bytes are cut into segments. *)

From S2P Require Import Prelude Buffers CodecLogic Ber DerFields Spnego PreAuth CredsspCodec Credssp CredsspLogic CredsspAcceptor.
From stdpp Require Import relations.
Open Scope Z_scope.

Module CredsspReceive.
Import DerFields CredsspCodec Credssp Credssp.Acceptor CredsspAcceptor.

(** ** Framing *)

Lemma frame_positive bytes n : frame_ts_request bytes = Ok (Some n) -> 0 < n <= max_ts_request_size.
Proof.
  unfold frame_ts_request. destruct (Ber.read_tag _ _) as [[tag r]|e]; [|by case_bool_decide].
  destruct (negb _); [done|]. destruct (Ber.read_length _ r) as [[l r']|e] eqn:El; [|by case_bool_decide].
  apply Ber.der_length_inv in El as (Hl & Ht). destruct (Z.ltb_spec (max_ts_request_size - Reader.position r') l); [done|].
  intros [= <-]. destruct Ht as [_ Ht]. apply (f_equal Reader.seen) in Ht. cbn in Ht. unfold Reader.position in *. rewrite Ht in *.
  assert (0 < len (Ber.length_octets l)) as Hp.
  { unfold Ber.length_octets. destruct (_ <? _); [done|]. rewrite len_cons. pose proof (len_nonneg (Writer.be_bytes
      (Z.to_nat (Ber.count_octets 8 l)) l)). lia. }
  rewrite len_app in *. pose proof (len_nonneg (Reader.seen r)). lia.
Qed.

(** A decoder that gives its answer on a prefix of the input gives it on all of
    it, unless the answer is that the input is truncated. *)
Definition extend (more : list byte) (r : Reader.t) : Reader.t := Reader.mk (Reader.seen r) (Reader.rest r ++ more) (Reader.base r).

Definition steady {A} (p : Dec A) : Prop := forall r more,
  match p r with
  | Ok (a, r') => p (extend more r) = Ok (a, extend more r')
  | Err e => code e = truncated \/ p (extend more r) = Err e
  end.

Lemma steady_ret {A} (a : A) : steady (dret a).
Proof. by intros r more. Qed.
Lemma steady_fail {A} c what offset : steady (dfail (A := A) c what offset).
Proof. intros r more. by right. Qed.
Lemma steady_ask {A} (f : Reader.t -> A) : (forall r more, f (extend more r) = f r) -> steady (dask f).
Proof. intros Hf r more. unfold dask. by rewrite Hf. Qed.
Lemma steady_bind {A B} (p : Dec A) (f : A -> Dec B) : steady p -> (forall a, steady (f a)) -> steady (dbind p f).
Proof.
  intros Hp Hf r more. unfold dbind. specialize (Hp r more). destruct (p r) as [[a r']|e].
  - rewrite Hp. apply Hf.
  - destruct Hp as [?|Hp]; [by left|right]. by rewrite Hp.
Qed.
Lemma steady_u8 : steady ReaderOps.u8.
Proof.
  intros [seen [|x rest] base] more.
  { unfold ReaderOps.u8, ReaderOps.read_le, dbind, ReaderOps.bytes. rewrite remaining_mk. by left. }
  unfold extend. cbn [Reader.seen Reader.rest Reader.base app].
  by rewrite !u8_mk.
Qed.

Create HintDb steady.
#[local] Hint Resolve steady_ret steady_fail steady_u8 : steady.

Ltac steadies :=
  repeat first
    [ progress auto with steady nocore
    | apply steady_bind; [|intros ?]
    | apply steady_ask; done
    | match goal with |- steady (if ?x then _ else _) => destruct x end ].

Lemma steady_tag_loop start left : forall i number, steady (Ber.tag_loop start left i number).
Proof. induction left as [|left IH]; intros i number; cbn [Ber.tag_loop]; steadies. Qed.

Lemma steady_tag : steady (Ber.read_tag Ber.der).
Proof. pose proof steady_tag_loop. unfold Ber.read_tag. steadies. Qed.

Lemma steady_length_loop n : forall v, steady (Ber.length_loop n v).
Proof. induction n as [|n IH]; intros v; cbn [Ber.length_loop]; steadies. Qed.

Lemma steady_length : steady (Ber.read_length Ber.der).
Proof. pose proof steady_length_loop. unfold Ber.read_length. steadies. Qed.

Lemma frame_more bytes more :
  frame_ts_request bytes <> Ok None -> frame_ts_request (bytes ++ more) = frame_ts_request bytes.
Proof.
  unfold frame_ts_request. pose proof (steady_tag (Reader.make bytes 0) more) as Ht.
  change (Reader.make (bytes ++ more) 0) with (extend more (Reader.make bytes 0)).
  destruct (Ber.read_tag _ (Reader.make bytes 0)) as [[tag r]|e].
  2: { destruct Ht as [->| ->]; [by rewrite bool_decide_true|done]. }
  rewrite Ht. destruct (negb _); [done|]. pose proof (steady_length r more) as Hl.
  destruct (Ber.read_length _ r) as [[n r']|e].
  2: { destruct Hl as [->| ->]; [by rewrite bool_decide_true|done]. }
  by rewrite Hl.
Qed.

(** ** Failure *)

(** All a client is told of a failure: a TSRequest with the errorCode, in the
    versions that know it. *)
Definition alert (v : Z) : list byte :=
  if (v =? 3) || (v =? 4) || (v =? 6)
  then default [] (encode_request (CredsspCodec.mkRequest v [] None None (Some status_logon_failure) None)) else [].

Section Receive.
Context {C : Type} `{SecurityContext C} (sha256 : list byte -> list byte).
Abbreviation t := (Acceptor.t (C := C)).

Definition failed (reason : string) (s : t) : t :=
  with_output (output_ s ++ alert (version_ s))
    (with_credentials None (with_input [] (with_failure reason (with_phase done_ (with_status PreAuth.nla_failed s))))).

Lemma fail_spec reason (s : t) : fail_ reason s = Some (inl tt, failed reason s).
Proof.
  unfold fail_, failed, alert. cbv beta iota delta [pbind pmod pget]. cbn [version_ with_credentials with_input with_failure with_phase with_status].
  destruct ((version_ s =? 3) || (version_ s =? 4) || (version_ s =? 6)) eqn:Ev.
  - assert (version_ s = 3 \/ version_ s = 4 \/ version_ s = 6) as Hv by (bools; lia).
    unfold send. cbv beta iota delta [pbind pmod pget plift]. cbn. destruct Hv as [->|[->| ->]]; by vm_compute (encode_request _).
  - unfold pret. by rewrite app_nil_r.
Qed.

Lemma failed_input reason i (s : t) : failed reason (with_input i s) = failed reason s.
Proof. by destruct s. Qed.

Lemma failed_ends reason (s : t) : bool_decide (status_ (failed reason s) = PreAuth.in_progress) = false.
Proof. by apply bool_decide_false. Qed.

Lemma or_fail_reject reason (s : t) : or_fail (reject reason) s = Some (failed reason s).
Proof. unfold or_fail, reject. by rewrite fail_spec. Qed.

(** ** Handlers do not look at the buffer *)

Definition blind {A} (m : P t A) : Prop := forall s i,
  m (with_input i s) = match m s with Some (r, s') => Some (r, with_input i s') | None => None end.

Lemma acceptor_blind_ret {A} (a : A) : blind (pret a).
Proof. by intros s i. Qed.
Lemma blind_reject {A} reason : blind (reject (A := A) reason).
Proof. by intros s i. Qed.
Lemma acceptor_blind_lift {A} (o : option A) : blind (plift o).
Proof. intros s i. by destruct o. Qed.
Lemma blind_try {A} what (r : Result A) : blind (ptry what r).
Proof. intros s i. by destruct r. Qed.
Lemma blind_mech {A} (f : C -> A * C) : blind (on_mech f).
Proof. intros s i. unfold on_mech. cbn [with_input mech_]. destruct (mech_ s) as [c|]; [|done]. by destruct (f c). Qed.
Lemma acceptor_blind_get {A} (f : t -> A) : (forall s i, f (with_input i s) = f s) -> blind (pget f).
Proof. intros Hf s i. unfold pget. by rewrite Hf. Qed.
Lemma acceptor_blind_mod f : (forall s i, f (with_input i s) = with_input i (f s)) -> blind (pmod f).
Proof. intros Hf s i. unfold pmod. by rewrite Hf. Qed.
Lemma acceptor_blind_bind {A B} (m : P t A) (f : A -> P t B) : blind m -> (forall a, blind (f a)) -> blind (pbind m f).
Proof.
  intros Hm Hf s i. unfold pbind. rewrite Hm. destruct (m s) as [[[a|e] s']|]; [apply Hf|done|done].
Qed.

Create HintDb cblind.
#[local] Hint Resolve acceptor_blind_ret blind_reject acceptor_blind_lift blind_try blind_mech : cblind.

Ltac blinds :=
  repeat first
    [ progress auto with cblind nocore
    | apply acceptor_blind_bind; [|intros ?]
    | apply acceptor_blind_get; done
    | apply acceptor_blind_mod; done
    | match goal with |- blind (match ?x with _ => _ end) => destruct x end ].

Lemma blind_send message : blind (send message).
Proof. unfold send. blinds. Qed.
#[local] Hint Resolve blind_send : cblind.
Lemma blind_answer key token : blind (answer_pub_key_auth sha256 key token).
Proof. unfold answer_pub_key_auth, bindings. blinds. Qed.
#[local] Hint Resolve blind_answer : cblind.
Lemma acceptor_blind_finish request out mic reply : blind (finish_negotiation sha256 request out mic reply).
Proof. unfold finish_negotiation, exchange_mics. blinds. Qed.
#[local] Hint Resolve acceptor_blind_finish : cblind.
Lemma blind_continue request token : blind (continue_negotiation sha256 request token).
Proof. unfold continue_negotiation, read_resp, step_mech, send_reply. blinds. Qed.
Lemma blind_start init request : blind (start_spnego sha256 init request).
Proof. unfold start_spnego, step_mech, send_reply. blinds. Qed.
#[local] Hint Resolve blind_continue blind_start : cblind.
Lemma acceptor_blind_handle request : blind (handle sha256 request).
Proof.
  unfold handle, check_version, handle_negotiate, handle_pub_key_auth, final_token, handle_credentials. blinds.
Qed.

Lemma acceptor_handle_input request s r s' : handle sha256 request s = Some (r, s') -> input_ s' = input_ s.
Proof.
  intros E. pose proof (acceptor_blind_handle request s (input_ s)) as Hb.
  assert (with_input (input_ s) s = s) as Es by (by destruct s). rewrite Es, E in Hb. injection Hb as Hb. by rewrite Hb at 1.
Qed.

(** ** One request at a time *)

Context (cfg : AcceptorConfig (C := C)).
Hypothesis key_there : server_public_key cfg <> [].
Hypothesis version_there : min_version <= config_max_version cfg.

Abbreviation inv := (inv sha256 cfg).
Abbreviation taken := (taken sha256 cfg).

(** No whole request is buffered. *)
Definition unframed (s : t) : Prop :=
  match frame_ts_request (input_ s) with
  | Ok None => True
  | Ok (Some size) => len (input_ s) < size
  | Err _ => False
  end.

(** What the loop does with [more] bytes behind the buffer. *)
Definition on_more (s : t) (more : list byte) : option (t * bool) := receive_step sha256 (with_input (input_ s ++ more) s).

(** The five ways an iteration ends.  In the last four a request, or its header,
    was there, and the bytes behind it do not matter. *)
Inductive outcome (s : t) : option (t * bool) -> Prop :=
  | Waits : unframed s -> outcome s (Some (s, false))
  | Aborts : (forall more, on_more s more = None) -> outcome s None
  | Fails reason s1 :
      turned_down cfg s s1 -> (forall more, on_more s more = Some (failed reason s1, false)) ->
      outcome s (Some (failed reason s1, false))
  | Ends s1 s' :
      status_ s' = PreAuth.succeeded -> s1 = with_input (input_ s') s -> taken s1 s' ->
      (forall more, on_more s more = Some (with_input (input_ s' ++ more) s', false)) ->
      outcome s (Some (s', false))
  | Goes s1 s' :
      status_ s' = PreAuth.in_progress -> s1 = with_input (input_ s') s -> taken s1 s' ->
      (length (input_ s') < length (input_ s))%nat ->
      (forall more, on_more s more = Some (with_input (input_ s' ++ more) s', true)) ->
      outcome s (Some (s', true)).

Lemma acceptor_inv_input s i : inv s -> inv (with_input i s).
Proof. intros [[L1 L2 L3 L4] Hn Hs]. by split; [split|..]. Qed.

Lemma turned_down_input s0 s i : turned_down cfg s0 s -> turned_down cfg s0 (with_input i s).
Proof. intros ([L1 L2 L3 L4] & Hr). by split; [split|]. Qed.

Lemma turned_down_from s i s1 : turned_down cfg (with_input i s) s1 -> turned_down cfg s s1.
Proof. by intros (Hl & Hn & Ho & Hr). Qed.

Lemma step_outcome s : inv s -> status_ s = PreAuth.in_progress -> outcome s (receive_step sha256 s).
Proof.
  intros Hi Es. pose proof (inv_live _ _ _ Hi) as Hl. pose proof (inv_negotiated _ _ _ Hi) as Hn.
  assert (turned_down cfg s s) as Hs by done.
  unfold receive_step. destruct (frame_ts_request (input_ s)) as [[size|]|e] eqn:Ef.
  - destruct (Z.ltb_spec (len (input_ s)) size) as [Hz|Hz]; [apply Waits; unfold unframed; by rewrite Ef|].
    pose proof (frame_positive _ _ Ef) as [Hpos _]. set (n := Z.to_nat size).
    assert ((n <= length (input_ s))%nat) as Hle by (unfold len in *; lia).
    assert (forall more, on_more s more =
      match decode_ts_request (take n (input_ s)) with
      | Err e => s' ← or_fail (reject (describe "malformed TSRequest" e)) (with_input (drop n (input_ s) ++ more) s); Some (s', false)
      | Ok request => s' ← or_fail (handle sha256 request) (with_input (drop n (input_ s) ++ more) s);
                      Some (s', bool_decide (status_ s' = PreAuth.in_progress))
      end) as Hmore.
    { intros more. unfold on_more, receive_step. cbn [with_input input_]. rewrite frame_more, Ef by congruence.
      rewrite len_app. pose proof (len_nonneg more). rewrite (proj2 (Z.ltb_ge _ _)) by lia. fold n.
      by rewrite take_app_le, drop_app_le by done. }
    destruct (decode_ts_request (take n (input_ s))) as [request|e] eqn:Ed.
    2: { rewrite or_fail_reject. apply (Fails s _ (with_input (drop n (input_ s)) s)); [by apply turned_down_input|].
         intros more. by rewrite Hmore, or_fail_reject, !failed_input. }
    apply decoded_request in Ed as [Hv Hnonce]. set (s0 := with_input (drop n (input_ s)) s).
    assert (forall more, handle sha256 request (with_input (drop n (input_ s) ++ more) s) =
      match handle sha256 request s0 with Some (r, s') => Some (r, with_input (drop n (input_ s) ++ more) s') | None => None end) as Hb.
    { intros more. exact (acceptor_blind_handle request s0 (drop n (input_ s) ++ more)). }
    pose proof (wp_handle sha256 True cfg key_there version_there (or_introl I) s0 request (acceptor_inv_input _ _ Hi) Es Hv Hnonce) as Hw.
    unfold CredsspLogic.wp in Hw. unfold or_fail at 1. unfold or_fail in Hmore.
    destruct (handle sha256 request s0) as [[[[]|reason] s']|] eqn:Eh; cbn [mbind option_bind].
    + pose proof (acceptor_handle_input _ _ _ _ Eh) as Ein. cbn in Ein.
      assert (s0 = with_input (input_ s') s) as E0 by (by rewrite Ein).
      destruct (status_ s') eqn:Es'; [| |by destruct Hw as (_ & Hw & _)].
      * rewrite bool_decide_true by done. apply (Goes s s0 s'); [done|done|exact Hw| |].
        { rewrite Ein, length_drop. unfold len in *. lia. }
        intros more. rewrite Hmore, Hb. cbn. by rewrite Es', Ein.
      * rewrite bool_decide_false by done. apply (Ends s s0 s'); [done|done|exact Hw|].
        intros more. rewrite Hmore, Hb. cbn. by rewrite Es', Ein.
    + rewrite fail_spec. cbn [fmap option_fmap option_map mbind option_bind snd]. rewrite failed_ends. apply (Fails s reason s'); [exact (turned_down_from _ _ _ Hw)|]. intros more. rewrite Hmore, Hb, fail_spec, failed_input.
      cbn [fmap option_fmap option_map mbind option_bind snd]. by rewrite failed_ends.
    + apply Aborts. intros more. by rewrite Hmore, Hb.
  - apply Waits. unfold unframed. by rewrite Ef.
  - rewrite or_fail_reject. apply (Fails s _ s); [done|]. intros more. unfold on_more, receive_step. cbn [with_input input_].
    rewrite frame_more, Ef by congruence. by rewrite or_fail_reject, failed_input.
Qed.

(** ** The loop *)

Abbreviation step_ := (receive_step sha256).

Lemma inv_failed reason s0 s1 : turned_down cfg s0 s1 -> inv (failed reason s1).
Proof. intros ([L1 L2 L3 L4] & Hn & _). by split; [split|..]. Qed.

Lemma goes_shorter s s' : inv s -> status_ s = PreAuth.in_progress -> step_ s = Some (s', true) ->
  inv s' /\ status_ s' = PreAuth.in_progress /\ (length (input_ s') < length (input_ s))%nat.
Proof.
  intros Hi Es E. pose proof (step_outcome s Hi Es) as Ho. rewrite E in Ho. inversion Ho; subst.
  split_and!; [|done|done]. apply H3.
Qed.

(** Fuel beyond the length of the buffer changes nothing. *)
Lemma acceptor_loop_fuel f1 : forall f2 s, inv s -> status_ s = PreAuth.in_progress ->
  (length (input_ s) < f1)%nat -> (length (input_ s) < f2)%nat -> receive_loop sha256 f1 s = receive_loop sha256 f2 s.
Proof.
  induction f1 as [|f1 IH]; intros [|f2] s Hi Es H1 H2; [lia..|]. cbn [receive_loop].
  destruct (step_ s) as [[s' []]|] eqn:E; [|done..]. cbn [mbind option_bind].
  destruct (goes_shorter s s' Hi Es E) as (? & ? & ?). apply IH; [done|done|lia..].
Qed.

(** The loop as [receive] runs it. *)
Definition drain (s : t) : option t := receive_loop sha256 (S (length (input_ s))) s.

Lemma acceptor_drain_unfold s : inv s -> status_ s = PreAuth.in_progress ->
  drain s = match step_ s with Some (s', true) => drain s' | Some (s', false) => Some s' | None => None end.
Proof.
  intros Hi Es. unfold drain at 1. cbn [receive_loop]. destruct (step_ s) as [[s' []]|] eqn:E; [|done..].
  cbn [mbind option_bind]. destruct (goes_shorter s s' Hi Es E) as (? & ? & ?). apply acceptor_loop_fuel; [done|done|lia..].
Qed.

(** Rule for what the loop leads to. *)
Lemma drain_ind (Q : t -> option t -> Prop) :
  (forall s, inv s -> status_ s = PreAuth.in_progress -> unframed s -> Q s (Some s)) ->
  (forall s, inv s -> status_ s = PreAuth.in_progress -> step_ s = None -> Q s None) ->
  (forall s s', inv s -> status_ s = PreAuth.in_progress -> step_ s = Some (s', false) -> status_ s' <> PreAuth.in_progress -> Q s (Some s')) ->
  (forall s s', inv s -> inv s' -> status_ s = PreAuth.in_progress -> step_ s = Some (s', true) -> drain s = drain s' ->
     Q s' (drain s') -> Q s (drain s')) ->
  forall s, inv s -> status_ s = PreAuth.in_progress -> Q s (drain s).
Proof.
  intros Hw Ha He Hg s. remember (length (input_ s)) as n eqn:En. revert s En.
  induction (lt_wf n) as [n _ IH]. intros s -> Hi Es. pose proof (step_outcome s Hi Es) as Ho.
  pose proof (acceptor_drain_unfold s Hi Es) as Ed. destruct (step_ s) as [[s' []]|] eqn:E; rewrite Ed.
  - destruct (goes_shorter s s' Hi Es E) as (Hi' & Es' & Hs). apply (Hg s s'); try done. by eapply IH.
  - inversion Ho; subst.
    + by apply Hw.
    + by apply He.
    + apply He; [done..|congruence].
  - by apply Ha.
Qed.

Lemma drain_inv s s' : inv s -> status_ s = PreAuth.in_progress -> drain s = Some s' ->
  inv s' /\ (status_ s' = PreAuth.in_progress -> unframed s').
Proof.
  intros Hi Es. revert s'. apply (drain_ind (fun _ o => forall s', o = Some s' -> inv s' /\ (status_ s' = PreAuth.in_progress -> unframed s')));
    [| |clear s Hi Es..|exact Hi|exact Es]; [by intros s1 ? ? ? ? [= <-]|done| |].
  - intros s s1 Hi Es E Hn s' [= <-]. split; [|done]. pose proof (step_outcome s Hi Es) as Ho. rewrite E in Ho.
    inversion Ho; subst; [done|by eapply inv_failed|]. apply H3.
  - intros s s1 Hi Hi1 Es E Ed IH s' Es'. by apply IH.
Qed.

(** Bytes that arrive while the loop runs, or after it. *)
Lemma acceptor_drain_more s more : inv s -> status_ s = PreAuth.in_progress ->
  match drain s with
  | None => drain (with_input (input_ s ++ more) s) = None
  | Some s' =>
      match status_ s' with
      | PreAuth.in_progress => drain (with_input (input_ s ++ more) s) = drain (with_input (input_ s' ++ more) s')
      | PreAuth.succeeded => drain (with_input (input_ s ++ more) s) = Some (with_input (input_ s' ++ more) s')
      | PreAuth.nla_failed => drain (with_input (input_ s ++ more) s) = Some s'
      end
  end.
Proof.
  apply (drain_ind (fun s o => match o with
    | None => drain (with_input (input_ s ++ more) s) = None
    | Some s' => match status_ s' with
      | PreAuth.in_progress => drain (with_input (input_ s ++ more) s) = drain (with_input (input_ s' ++ more) s')
      | PreAuth.succeeded => drain (with_input (input_ s ++ more) s) = Some (with_input (input_ s' ++ more) s')
      | PreAuth.nla_failed => drain (with_input (input_ s ++ more) s) = Some s' end end)); clear s.
  - intros s Hi Es _. by rewrite Es.
  - intros s Hi Es E. pose proof (step_outcome s Hi Es) as Ho. rewrite E in Ho. inversion Ho as [|Hm| | |].
    rewrite acceptor_drain_unfold by (try apply acceptor_inv_input; done). fold (on_more s more). by rewrite Hm.
  - intros s s' Hi Es E Hn. pose proof (step_outcome s Hi Es) as Ho. rewrite E in Ho.
    rewrite (acceptor_drain_unfold (with_input _ s)) by (try apply acceptor_inv_input; done). fold (on_more s more).
    inversion Ho as [| |reason s1 _ Hm| s1 s2 Hs _ _ Hm|]; subst; [done|by rewrite Hm|by rewrite Hs, Hm].
  - intros s s' Hi Hi' Es E Ed IH. pose proof (step_outcome s Hi Es) as Ho. rewrite E in Ho.
    inversion Ho as [| | | |s1 s2 _ _ _ _ Hm]; subst.
    rewrite (acceptor_drain_unfold (with_input _ s)) by (try apply acceptor_inv_input; done). fold (on_more s more). rewrite Hm. exact IH.
Qed.

Lemma inv_finish s : inv s -> status_ s <> PreAuth.in_progress -> forall i r, inv (with_input i (with_remaining r s)).
Proof.
  intros [[L1 L2 L3 L4] Hn Hs] Hp i r. split; [by split|exact Hn|]. cbn. by destruct (status_ s).
Qed.

(** What [receive] does when the loop has ended. *)
Definition settle (s : t) : t :=
  match status_ s with PreAuth.succeeded => with_input [] (with_remaining (input_ s) s) | _ => s end.

Lemma receive_running bytes s : status_ s = PreAuth.in_progress ->
  receive sha256 bytes s = s' ← drain (with_input (input_ s ++ bytes) s); Some (settle s').
Proof. intros Es. unfold receive. by rewrite Es. Qed.

Lemma receive_succeeded bytes s : status_ s = PreAuth.succeeded -> receive sha256 bytes s = Some (with_remaining (remaining_ s ++ bytes) s).
Proof. intros Es. unfold receive. by rewrite Es. Qed.

Lemma receive_failed bytes s : status_ s = PreAuth.nla_failed -> receive sha256 bytes s = Some s.
Proof. intros Es. unfold receive. by rewrite Es. Qed.

Lemma acceptor_receive_inv bytes s s' : inv s -> receive sha256 bytes s = Some s' -> inv s'.
Proof.
  intros Hi. destruct (status_ s) eqn:Es.
  - rewrite receive_running by done. set (s0 := with_input (input_ s ++ bytes) s).
    destruct (drain s0) as [s1|] eqn:Ed; [|done]. cbn [mbind option_bind].
    apply drain_inv in Ed as [Hi1 _]; [|by apply acceptor_inv_input|done]. unfold settle.
    destruct (status_ s1) eqn:E1; intros [= <-]; [done| |done]. apply inv_finish; [done|congruence].
  - rewrite receive_succeeded by done. intros [= <-]. destruct Hi as [[L1 L2 L3 L4] Hn Hs]. split; [by split|exact Hn|].
    cbn. rewrite Es in *. exact Hs.
  - rewrite receive_failed by done. by intros [= <-].
Qed.

(** Two segments or one: the same. *)
Lemma acceptor_receive_app a b s : inv s -> receive sha256 (a ++ b) s = s' ← receive sha256 a s; receive sha256 b s'.
Proof.
  intros Hi. destruct (status_ s) eqn:Es.
  - rewrite !receive_running by done. set (s0 := with_input (input_ s ++ a) s).
    assert (with_input (input_ s ++ a ++ b) s = with_input (input_ s0 ++ b) s0) as -> by (subst s0; cbn; by rewrite app_assoc).
    assert (inv s0) as Hi0 by (by apply acceptor_inv_input).
    pose proof (acceptor_drain_more s0 b Hi0 Es) as Hd. destruct (drain s0) as [s1|] eqn:E1; cbn [mbind option_bind].
    2: { by rewrite Hd. }
    unfold settle at 2. destruct (status_ s1) eqn:Es1; rewrite Hd; cbn [mbind option_bind].
    + by rewrite receive_running by done.
    + rewrite receive_succeeded by done. unfold settle. cbn. by rewrite Es1.
    + rewrite receive_failed by done. unfold settle. by rewrite Es1.
  - rewrite !receive_succeeded by done. cbn [mbind option_bind]. rewrite receive_succeeded by done. cbn. by rewrite app_assoc.
  - rewrite !receive_failed by done. cbn [mbind option_bind]. by rewrite receive_failed by done.
Qed.

(** ** No assertion fails *)

Hypothesis mechanism_bounded : bounded_mechanism.
Hypothesis hash_sized : forall bytes, len (sha256 bytes) = 32.
Hypothesis key_bounded : len (server_public_key cfg) <= 16000.

Lemma step_total s : inv s -> status_ s = PreAuth.in_progress -> step_ s <> None.
Proof.
  intros Hi Es. unfold receive_step. destruct (frame_ts_request (input_ s)) as [[size|]|e]; [|done|by rewrite or_fail_reject].
  destruct (_ <? _); [done|]. destruct (decode_ts_request _) as [request|e] eqn:Ed; [|by rewrite or_fail_reject].
  apply decoded_request in Ed as [Hv Hn]. set (s0 := with_input _ s).
  pose proof (wp_handle sha256 False cfg key_there version_there (or_intror (conj mechanism_bounded (conj hash_sized key_bounded)))
    s0 request (acceptor_inv_input _ _ Hi) Es Hv Hn) as Hw.
  unfold CredsspLogic.wp in Hw. unfold or_fail. destruct (handle sha256 request s0) as [[[[]|reason] s']|]; [done| |done].
  by rewrite fail_spec.
Qed.

Definition accepts (s s' : t) : Prop := step_ s = Some (s', true).

(** The loop returns; if the handshake has failed, the last request did nothing
    but clear the buffer and send the alert. *)
Lemma drain_total s : inv s -> status_ s = PreAuth.in_progress ->
  exists s', drain s = Some s' /\
    (status_ s' = PreAuth.nla_failed -> exists s1, rtc accepts s s1 /\ output_ s' = output_ s1 ++ alert (version_ s') /\
       input_ s' = [] /\ remaining_ s' = remaining_ s1).
Proof.
  apply (drain_ind (fun s o => exists s', o = Some s' /\
    (status_ s' = PreAuth.nla_failed -> exists s1, rtc accepts s s1 /\ output_ s' = output_ s1 ++ alert (version_ s') /\
       input_ s' = [] /\ remaining_ s' = remaining_ s1))); clear s.
  - intros s Hi Es _. exists s. split; [done|congruence].
  - intros s Hi Es E. by destruct (step_total s Hi Es).
  - intros s s' Hi Es E Hn. exists s'. split; [done|]. intros Ef. pose proof (step_outcome s Hi Es) as Ho. rewrite E in Ho.
    inversion Ho as [| |reason s1 Ht _| |]; subst; [congruence| |congruence].
    destruct Ht as (_ & _ & Ho' & Hr). exists s. split; [constructor|]. cbn. by rewrite Ho', Hr.
  - intros s s' Hi Hi' Es E Ed (s2 & E2 & Hf). exists s2. split; [done|]. intros Ef.
    destruct (Hf Ef) as (s1 & Hrt & Hrest). exists s1. split; [|exact Hrest]. by eapply rtc_l.
Qed.
End Receive.

(** Everything that a server may do with an acceptor and a peer with the stream. *)
Inductive reachable {C} `{SecurityContext C} (sha256 : list byte -> list byte) (config : AcceptorConfig (C := C)) : Acceptor.t (C := C) -> Prop :=
  | reach_made s : make config = Some s -> reachable sha256 config s
  | reach_received s bytes s' : reachable sha256 config s -> receive sha256 bytes s = Some s' -> reachable sha256 config s'
  | reach_output s : reachable sha256 config s -> reachable sha256 config (snd (take_output s))
  | reach_remaining s : reachable sha256 config s -> reachable sha256 config (snd (take_remaining_input s))
  | reach_credentials s : reachable sha256 config s -> reachable sha256 config (snd (take_credentials s)).

Section Reachable.
Context {C : Type} `{SecurityContext C} (sha256 : list byte -> list byte) (config : AcceptorConfig (C := C)).
Abbreviation t := (Acceptor.t (C := C)).

Lemma acceptor_reachable_config s : reachable sha256 config s -> server_public_key config <> [] /\ min_version <= config_max_version config.
Proof.
  induction 1 as [s E| | | |]; try done. unfold make, is_empty in E.
  destruct (bool_decide_reflect (server_public_key config = [])) as [|Hk]; cbn in E; [done|].
  destruct (Z.leb_spec min_version (config_max_version config)); done.
Qed.

Lemma acceptor_reachable_inv s : reachable sha256 config s -> inv sha256 config s.
Proof.
  intros Hr. destruct (acceptor_reachable_config s Hr) as [Hk Hv].
  induction Hr as [s E|s bytes s' Hr IH E|s Hr IH|s Hr IH|s Hr IH].
  - unfold make in E. destruct (_ && _); [|done]. injection E as <-. split; [split; done| |].
    + by left.
    + cbn. by split_and!.
  - eapply acceptor_receive_inv; [exact Hk|exact Hv|exact IH|exact E].
  - destruct IH as [[L1 L2 L3 L4] Hn Hs]. split; [by split|exact Hn|exact Hs].
  - destruct IH as [[L1 L2 L3 L4] Hn Hs]. split; [by split|exact Hn|]. cbn. destruct (status_ s); [|exact Hs..].
    by destruct Hs as (? & ? & ? & ?).
  - destruct IH as [[L1 L2 L3 L4] Hn Hs]. split; [by split|exact Hn|]. cbn. destruct (status_ s).
    + by destruct Hs as (? & ? & ? & ?).
    + destruct Hs as (c & Hd & _ & Hv'). exists c. split; [exact Hd|]. split; [by left|exact Hv'].
    + done.
Qed.
End Reachable.
End CredsspReceive.
