(* ===== verification/CredsspAuthentication.v ===== *)
(** * What a successful CredSSP handshake proves

    The theorems about the acceptor of [Credssp] in every state a server and a
    peer can bring it into: success means that every check was passed, failure
    tells the client nothing but that there was one, and as the implementation
    of [PreAuth.NlaAcceptor] it makes the pre-authentication stage demand the
    whole handshake. *)

From S2P Require Import Prelude Buffers CodecLogic Ber X224 DerFields Spnego PreAuth CredsspCodec Credssp CredsspAcceptor CredsspReceive.
From stdpp Require Import relations.
Open Scope Z_scope.

Module CredsspAuthentication.
Import CredsspCodec Credssp Credssp.Acceptor CredsspAcceptor CredsspReceive.

(** ** The acceptor behind the interface of the pre-authentication stage

    [None] is a process that has aborted: it never reports success. *)

#[export] Instance nla_acceptor {C} `{SecurityContext C} (sha256 : list byte -> list byte) :
    PreAuth.NlaAcceptor (option (Acceptor.t (C := C))) := {|
  PreAuth.nla_receive n bytes := s ← n; receive sha256 bytes s;
  PreAuth.nla_take_output n := match n with Some s => let (o, s') := take_output s in (o, Some s') | None => ([], None) end;
  PreAuth.nla_status n := match n with Some s => status_ s | None => PreAuth.in_progress end;
  PreAuth.nla_take_remaining_input n :=
    match n with Some s => let (o, s') := take_remaining_input s in (o, Some s') | None => ([], None) end;
  PreAuth.nla_identity n := match n with Some s => identity_ s | None => PreAuth.mkIdentity "" "" end;
  PreAuth.nla_take_credentials n :=
    match n with Some s => let (c, s') := take_credentials s in (c, Some s') | None => (None, None) end;
  PreAuth.nla_failure_reason n := match n with Some s => failure_ s | None => "" end |}.

Section Claims.
Context {C : Type} `{SecurityContext C} (sha256 : list byte -> list byte) (config : AcceptorConfig (C := C)).
Abbreviation t := (Acceptor.t (C := C)).

(** C9: an acceptor that reports success has authenticated the client, whatever
    the peer sent and whatever mechanism the factory made: the mechanism it chose
    (the first of the client's list that there is) completed; the client proved
    through it, in the way of the negotiated version, that it sees this server's
    TLS key; its MIC over the list was verified where the choice requires one and
    the mechanism's last step had no token left to send; and the identity is the
    mechanism's, with credentials that came through it and were accepted for it.
    Until then there are no credentials to take. *)
Theorem acceptor_authenticates (s : t) :
  reachable sha256 config s ->
  config_ s = config /\ public_key_ s = server_public_key config /\
  (status_ s = PreAuth.succeeded -> authenticated sha256 s) /\
  (status_ s <> PreAuth.succeeded -> credentials_ s = None).
Proof.
  intros Hr. destruct (acceptor_reachable_inv sha256 config s Hr) as [[L1 L2 _ _] _ Hs]. split_and!; [done|done| |].
  - intros E. by rewrite E in Hs.
  - intros E. destruct (status_ s); [apply Hs|done|exact Hs].
Qed.

(** C10: with a mechanism whose tokens are of moderate size [receive] always
    returns, in every reachable state and on every input; and when it ends in
    failure, whichever check it was, the state holds no credentials and no input,
    and the output is that of the requests accepted before, followed by one fixed
    message for the negotiated version: the client cannot tell the failures apart. *)
Theorem acceptor_fails_alike (s : t) (bytes : list byte) :
  bounded_mechanism (C := C) -> (forall b, len (sha256 b) = 32) -> len (server_public_key config) <= 16000 ->
  reachable sha256 config s ->
  exists s', receive sha256 bytes s = Some s' /\
    (status_ s = PreAuth.in_progress -> status_ s' = PreAuth.nla_failed ->
     credentials_ s' = None /\ input_ s' = [] /\
     exists s1, rtc (accepts sha256) (with_input (input_ s ++ bytes) s) s1 /\ output_ s' = output_ s1 ++ alert (version_ s')).
Proof.
  intros Hm Hh Hk Hr. destruct (acceptor_reachable_config sha256 config s Hr) as [Hne Hv].
  pose proof (acceptor_reachable_inv sha256 config s Hr) as Hi. destruct (status_ s) eqn:Es.
  - destruct (drain_total sha256 config Hne Hv Hm Hh Hk (with_input (input_ s ++ bytes) s)) as (s' & Ed & Hf);
      [by apply acceptor_inv_input|done|].
    exists (settle s'). rewrite receive_running, Ed by done. split; [done|]. intros _ Ef.
    assert (status_ s' = PreAuth.nla_failed) as Ef' by (unfold settle in Ef; destruct (status_ s') eqn:E; cbn in Ef; congruence).
    assert (settle s' = s') as -> by (unfold settle; by rewrite Ef').
    destruct (Hf Ef') as (s1 & Hrt & Ho & Hin & _). split_and!; [|exact Hin|by exists s1].
    apply (drain_inv sha256 config Hne Hv) in Ed as [Hi' _]; [|by apply acceptor_inv_input|done].
    destruct Hi' as [_ _ Hs]. by rewrite Ef' in Hs.
  - exists (with_remaining (remaining_ s ++ bytes) s). by rewrite receive_succeeded by done.
  - exists s. by rewrite receive_failed by done.
Qed.

Lemma nla_reachable_acceptor s0 (n : option t) :
  make config = Some s0 -> PreAuth.nla_reachable (H := nla_acceptor sha256) (Some (Some s0)) n ->
  match n with Some s => reachable sha256 config s | None => True end.
Proof.
  intros E Hr. induction Hr as [n [= <-]|n b Hr IH|n Hr IH].
  - by apply reach_made.
  - cbn. destruct n as [s|]; [|done]. cbn. destruct (receive sha256 b s) as [s'|] eqn:Er; [|done].
    by eapply reach_received.
  - destruct n as [s|]; [|done]. cbn. exact (reach_output sha256 config s IH).
Qed.

(** the pre-authentication stage with this acceptor.  A server that requires
    NLA hands a connection on only after a CredSSP handshake on this very
    configuration whose checks were all passed, and the identity it reports is
    the one that the mechanism authenticated. *)
Theorem nla_server_authenticates (cfg : PreAuth.PreAuthConfig) (s0 : t)
    (s : PreAuth.t (N := option t)) :
  make config = Some s0 ->
  PreAuth.reachable (H := nla_acceptor sha256) cfg (Some (Some s0)) s ->
  PreAuth.state_ s = PreAuth.ready -> PreAuth.require_nla cfg = true ->
  exists a, reachable sha256 config a /\ authenticated sha256 a /\ config_ a = config /\
    PreAuth.identity (PreAuth.negotiation_ s) = Some (identity_ a).
Proof.
  intros Em Hr Hs Hq.
  pose proof (PreAuth.preauth_reachable_wf _ _ _ Hr) as Hwf. destruct (PreAuth.reachable_config _ _ _ Hr) as [Hm Hc].
  assert (PreAuth.selected_protocol (PreAuth.negotiation_ s) <> X224.ssl) as Hne.
  { destruct (PreAuth.wf_selected _ Hwf) as (_ & _ & Hsel); [by rewrite Hs|by rewrite Hs|]. apply Hsel. rewrite Hc. exact Hq. }
  pose proof (PreAuth.wf_identity _ Hwf) as Hid. destruct (PreAuth.identity (PreAuth.negotiation_ s)) as [i|];
    [|by destruct (Hne (Hid Hs))].
  rewrite Hm in Hid. destruct Hid as (n & Hn & Est & <-). apply (nla_reachable_acceptor s0) in Hn; [|done].
  destruct n as [a|]; [|done]. cbn in Est |- *. pose proof (acceptor_reachable_inv sha256 config a Hn) as [[L1 L2 _ _] _ Ha].
  rewrite Est in Ha. by exists a.
Qed.
End Claims.

(** ** A mechanism for the witnesses

    It completes on any token, with a token for the client if authentication is
    mutual, wraps a message as itself and accepts no MIC. *)

Record Toy := mkToy { toy_oid : list byte; toy_mutual : bool }.

#[export] Instance toy_context : SecurityContext Toy := {|
  mechanism c := toy_oid c;
  step c _ := (Ok (mkStep (if toy_mutual c then [byte_of 2] else []) true), c);
  wrap_message c bytes := (bytes, c);
  unwrap c bytes := (Ok bytes, c);
  get_mic c _ := ([], c);
  verify_mic c _ _ := (Err (mkError invalid_value "no MIC is right" 0), c);
  reset_cipher_state c := c;
  mech_identity _ := PreAuth.mkIdentity "ada" "" |}.

Definition toy_hash (_ : list byte) : list byte := replicate 32 (byte_of 0).

Definition toy_config : AcceptorConfig (C := Toy) :=
  mkConfig [byte_of 1; byte_of 2; byte_of 3]
    (fun oid => if bool_decide (oid = Spnego.ntlm_oid) then Some (mkToy oid false)
                else if bool_decide (oid = Spnego.kerberos_oid) then Some (mkToy oid true) else None)
    (Some (fun credentials i _ => bool_decide (PreAuth.cred_user credentials = PreAuth.user i))) 6.

Definition toy_start : Acceptor.t (C := Toy) :=
  Eval vm_compute in default (mk toy_config [] PreAuth.nla_failed done_ "" [] [] [] 0 0 None None false [] false false
    (PreAuth.mkIdentity "" "") None) (make toy_config).

Definition toy_nonce : list byte := replicate 32 (byte_of 7).
Definition toy_request (token : list (list byte)) (key info : option (list byte)) : list byte :=
  default [] (encode_request (mkRequest 6 token info key None (Some toy_nonce))).
Definition toy_proof : list byte := client_to_server_hash toy_hash toy_nonce (server_public_key toy_config).
Definition toy_credentials (user : string) : list byte :=
  default [] (encode_credentials (to_ts_credentials (PreAuth.mkCredentials "" user "secret"))).

(** A raw NTLM token with pubKeyAuth, then the credentials. *)
Definition toy_stream (user : string) : list byte :=
  toy_request [Spnego.ntlm_signature ++ [byte_of 1]] (Some toy_proof) None ++ toy_request [] None (Some (toy_credentials user)).

Definition toy_end (user : string) : Acceptor.t (C := Toy) :=
  default toy_start (receive toy_hash (toy_stream user) toy_start).

Definition toy_success := Eval vm_compute in toy_end "ada".

Lemma toy_reachable : reachable toy_hash toy_config toy_success.
Proof.
  apply (reach_received _ _ toy_start (toy_stream "ada")); [apply reach_made; vm_compute; reflexivity|].
  vm_compute. reflexivity.
Qed.

Lemma acceptor_authenticates_witness :
  status_ toy_success = PreAuth.succeeded /\ authenticated toy_hash toy_success /\
  credentials_ toy_success = Some (PreAuth.mkCredentials "" "ada" "secret").
Proof.
  split; [reflexivity|]. split; [|reflexivity].
  destruct (acceptor_authenticates toy_hash toy_config toy_success toy_reachable) as (_ & _ & Ha & _).
  apply Ha. reflexivity.
Defined.

Lemma toy_bounded : bounded_mechanism (C := Toy).
Proof.
  split; cbn.
  - intros c input out c' [= <- _]. by destruct (toy_mutual c).
  - done.
  - intros c bytes. lia.
Qed.

(** The client delegates somebody else's password. *)
Definition toy_failure := Eval vm_compute in toy_end "eve".

Lemma acceptor_fails_alike_witness :
  receive toy_hash (toy_stream "eve") toy_start = Some toy_failure /\
  credentials_ toy_failure = None /\ input_ toy_failure = [] /\
  exists s1, rtc (accepts toy_hash) (with_input (input_ toy_start ++ toy_stream "eve") toy_start) s1 /\
    output_ toy_failure = output_ s1 ++ alert 6.
Proof.
  assert (reachable toy_hash toy_config toy_start) as Hr by (apply reach_made; vm_compute; reflexivity).
  destruct (acceptor_fails_alike toy_hash toy_config toy_start (toy_stream "eve") toy_bounded (fun _ => eq_refl)
    ltac:(vm_compute; congruence) Hr) as (s' & E & Hf).
  assert (s' = toy_failure) as -> by (vm_compute in E; injection E as <-; reflexivity).
  split; [exact E|]. exact (Hf eq_refl eq_refl).
Defined.

(** The stage of [PreAuth] driven by the same client. *)
Abbreviation Stage := (PreAuth.t (N := option (Acceptor.t (C := Toy)))).
Definition toy_apply (op : PreAuth.Op) (s : Stage) : Stage := default s (PreAuth.apply_op (H := nla_acceptor toy_hash) op s).
Definition stage_made : Stage := Eval vm_compute in PreAuth.make PreAuth.sample_config (Some (Some toy_start)).
Definition stage_wait : Stage := Eval vm_compute in toy_apply (PreAuth.OpReceive PreAuth.sample_bytes) stage_made.
Definition stage_nla : Stage := Eval vm_compute in toy_apply PreAuth.OpTls stage_wait.
Definition stage_ready : Stage := Eval vm_compute in toy_apply (PreAuth.OpReceive (toy_stream "ada")) stage_nla.

Lemma stage_reachable : PreAuth.reachable (H := nla_acceptor toy_hash) PreAuth.sample_config (Some (Some toy_start)) stage_ready.
Proof.
  apply (PreAuth.reach_step _ _ stage_nla (PreAuth.OpReceive (toy_stream "ada"))); [|vm_compute; reflexivity].
  apply (PreAuth.reach_step _ _ stage_wait PreAuth.OpTls); [|vm_compute; reflexivity].
  apply (PreAuth.reach_step _ _ stage_made (PreAuth.OpReceive PreAuth.sample_bytes)); [|vm_compute; reflexivity].
  apply PreAuth.reach_init.
Qed.

Lemma nla_server_authenticates_witness :
  PreAuth.state_ stage_ready = PreAuth.ready /\
  exists a, reachable toy_hash toy_config a /\ authenticated toy_hash a /\ config_ a = toy_config /\
    PreAuth.identity (PreAuth.negotiation_ stage_ready) = Some (identity_ a).
Proof.
  split; [reflexivity|].
  apply (nla_server_authenticates toy_hash toy_config PreAuth.sample_config toy_start stage_ready);
    [vm_compute; reflexivity|exact stage_reachable|reflexivity|reflexivity].
Defined.

(** ** A MIC that is required and not there

    Where the mechanism chosen is not the client's first, RFC 4178 requires the
    client's MIC; [finish_negotiation] defers the check while the mechanism has a
    token left to send, and if that request carries pubKeyAuth as well the later
    check in [handle_pub_key_auth] never runs. *)

Definition bypass_init : list byte :=
  default [] (t ← Spnego.make_neg_token_init [Spnego.ms_kerberos_oid; Spnego.kerberos_oid] None; Spnego.encode_init t).
Definition bypass_token : list byte :=
  default [] (Spnego.encode_resp (Spnego.mkResp None None (Some [byte_of 1]) None)).
Definition bypass_stream : list byte :=
  toy_request [bypass_init] None None ++ toy_request [bypass_token] (Some toy_proof) None ++
  toy_request [] None (Some (toy_credentials "ada")).
Definition bypass_end := Eval vm_compute in default toy_start (receive toy_hash bypass_stream toy_start).

(** The handshake succeeds with a mechanism that accepts no MIC at all. *)
Theorem mic_not_enforced :
  exists s, reachable toy_hash toy_config s /\ status_ s = PreAuth.succeeded /\
    mic_required_ s = true /\ client_mic_verified_ s = false.
Proof.
  exists bypass_end. split; [|by split_and!].
  apply (reach_received _ _ toy_start bypass_stream); [apply reach_made; vm_compute; reflexivity|].
  vm_compute. reflexivity.
Qed.
End CredsspAuthentication.
