(* ===== verification/CredsspInitiator.v ===== *)
(** * The CredSSP initiator guards its credentials

    Theorem about [Credssp.Initiator]: whatever a server sends, nothing that the
    initiator sends carries credentials before the server has proved, through a
    mechanism that completed, that it holds the TLS key the client saw. *)

From S2P Require Import Prelude Buffers CodecLogic Ber DerFields Spnego PreAuth CredsspCodec Credssp CredsspLogic.
From stdpp Require Import relations.
Open Scope Z_scope.

Module CredsspInitiator.
Import DerFields CredsspCodec Credssp Credssp.Initiator CredsspLogic.

Section Initiator.
Context {C : Type} `{SecurityContext C} (sha256 : list byte -> list byte).
Context (cfg : InitiatorConfig) (made : C).
Abbreviation t := (Initiator.t (C := C)).
Abbreviation wp := (CredsspLogic.wp True).

(** ** Histories of the mechanism, which the initiator was given as [made] *)

Inductive called : C -> C -> Prop :=
  | called_step c input : called c (snd (step c input))
  | called_wrap c bytes : called c (snd (wrap_message c bytes))
  | called_unwrap c bytes : called c (snd (unwrap c bytes))
  | called_get_mic c bytes : called c (snd (get_mic c bytes))
  | called_verify_mic c bytes mic : called c (snd (verify_mic c bytes mic))
  | called_reset c : called c (reset_cipher_state c).

Definition evolves : C -> C -> Prop := rtc called.

Definition established (c : C) : Prop :=
  exists c0 input out c1, evolves made c0 /\ step c0 input = (Ok (mkStep out true), c1) /\ evolves c1 c.

(** The server's MIC over the list of mechanisms [types] was verified. *)
Definition signed (types : list byte) (c : C) : Prop :=
  exists c0 mic c1, established c0 /\ verify_mic c0 types mic = (Ok tt, c1) /\ evolves c1 c.

(** The server has proved to hold the private key of the TLS key [cfg] names, in
    the way of the version [v]; where the MICs are required its own was verified. *)
Definition server_verified (types : list byte) (required : bool) (v : Z) (nonce : list byte) (c : C) : Prop :=
  exists c0 wrapped plaintext c1, established c0 /\ (required = true -> signed types c0) /\
    unwrap c0 wrapped = (Ok plaintext, c1) /\ expected_binding sha256 v nonce (server_public_key cfg) = Some plaintext /\
    evolves c1 c.

Lemma initiator_evolves_then c0 c1 c2 : evolves c0 c1 -> called c1 c2 -> evolves c0 c2.
Proof. intros E Hc. eapply rtc_r; [exact E|exact Hc]. Qed.
Lemma initiator_established_then c c' : established c -> called c c' -> established c'.
Proof. intros (c0 & i & out & c1 & ? & ? & ?) ?. exists c0, i, out, c1. eauto using initiator_evolves_then. Qed.
Lemma initiator_signed_then types c c' : signed types c -> called c c' -> signed types c'.
Proof. intros (c0 & mic & c1 & ? & ? & ?) ?. exists c0, mic, c1. eauto using initiator_evolves_then. Qed.

(** ** What was sent *)

(** A sequence of TSRequests without authInfo. *)
Definition harmless (bytes : list byte) : Prop :=
  exists messages frames, Forall (fun m => auth_info m = None) messages /\
    Forall2 (fun m e => encode_request m = Some e) messages frames /\ bytes = concat frames.

Lemma harmless_nil : harmless [].
Proof. by exists [], []. Qed.

Lemma harmless_app b m e : harmless b -> auth_info m = None -> encode_request m = Some e -> harmless (b ++ e).
Proof.
  intros (ms & fs & Ha & Hf & ->) Hm He. exists (ms ++ [m]), (fs ++ [e]). split_and!.
  - by apply Forall_app, conj, Forall_singleton.
  - apply Forall2_app; [done|]. by constructor.
  - rewrite concat_app. cbn [concat]. by rewrite app_nil_r.
Qed.

(** ** Invariant *)

(** What the handlers before the last leave alone. *)
Definition core (s : t) := (config_ s, status_ s, input_ s, remaining_ s, version_ s, nonce_ s).

Definition mechanism_ok (s : t) : Prop :=
  match phase_ s with
  | negotiate => evolves made (mech_ s) /\ server_mic_verified_ s = false
  | final_token_ => established (mech_ s)
  | pub_key_auth_ => established (mech_ s) /\ (server_mic_verified_ s = true -> signed (mech_types_der_ s) (mech_ s))
  | done_ => False
  end.

(** In a handler: nothing that was sent carries credentials, and what it leads to. *)
Definition guarded (s0 s : t) : Prop := core s = core s0 /\ harmless (output_ s).
Definition handled (s0 s : t) : Prop := guarded s0 s /\ mechanism_ok s.

Lemma initiator_wp_mech {A B} (Q : A -> t -> Prop) E (g : C -> B * C) f s :
  called (mech_ s) (snd (g (mech_ s))) ->
  (forall b c', g (mech_ s) = (b, c') -> called (mech_ s) c' -> wp (f b) Q E (with_mech c' s)) ->
  wp (pbind (on_mech g) f) Q E s.
Proof.
  intros Hc Hw. unfold CredsspLogic.wp, pbind, on_mech. destruct (g (mech_ s)) as [b c'] eqn:Eg. by apply Hw.
Qed.

Lemma initiator_wp_send message (Q : unit -> t -> Prop) E s :
  auth_info message = None -> harmless (output_ s) ->
  (forall out, harmless out -> Q tt (with_output out s)) -> wp (send message) Q E s.
Proof.
  intros Ha Hs HQ. unfold send. wps. apply pwp_lift; [|done]. intros e He. apply HQ.
  eapply harmless_app; [exact Hs| |exact He]. exact Ha.
Qed.

Lemma wp_send_pub_key_auth s0 s message :
  guarded s0 s -> auth_info message = None -> established (mech_ s) ->
  (server_mic_verified_ s = true -> signed (mech_types_der_ s) (mech_ s)) ->
  wp (send_pub_key_auth sha256 message) (fun _ => handled s0) (guarded s0) s.
Proof.
  intros [Hc Hh] Ha He Hs. unfold send_pub_key_auth. wps. apply initiator_wp_mech; [constructor|]. intros w c' _ Ew.
  wps. apply initiator_wp_send; [done|exact Hh|]. intros out Hout.
  split; [by split|]. cbn. split; [by eapply initiator_established_then|]. intros V. eapply initiator_signed_then; [by apply Hs|done].
Qed.

(** After a step of the mechanism, with what the last MIC, if any, has shown. *)
Lemma wp_send_step s0 s next :
  guarded s0 s -> phase_ s = negotiate -> evolves made (mech_ s) ->
  (step_complete next = true -> established (mech_ s)) ->
  (step_complete next = false -> server_mic_verified_ s = false) ->
  (server_mic_verified_ s = true -> signed (mech_types_der_ s) (mech_ s)) ->
  wp (send_step sha256 next) (fun _ => handled s0) (guarded s0) s.
Proof.
  intros [Hc Hh] Hp Hm He Hf Hs. unfold send_step. wps. destruct next as [out complete]. cbn [step_token step_complete] in *.
  assert (complete = false -> forall o, harmless o -> handled s0 (with_output o s)) as Hgo.
  { intros Ec o Ho. split; [by split|]. unfold mechanism_ok. cbn. rewrite Hp. by split; [|apply Hf]. }
  destruct complete; cbn [negb].
  2: { destruct (use_spnego (config_ s)); [apply pwp_lift; [intros token _|done]|]; apply initiator_wp_send; auto. }
  specialize (He eq_refl). destruct (use_spnego (config_ s)); cbn [negb]; [|by apply wp_send_pub_key_auth].
  wps. apply pwp_bind.
  apply (pwp_mono _ (fun _ s' => guarded s0 s' /\ phase_ s' = negotiate /\ established (mech_ s') /\
    (server_mic_verified_ s' = true -> signed (mech_types_der_ s') (mech_ s'))) _ (guarded s0)); [| |done].
  { destruct (mic_required_ s); [|by wps]. apply initiator_wp_mech; [constructor|]. intros mic c' _ Em. wps.
    split_and!; [by split|done|by eapply initiator_established_then|]. intros V. eapply initiator_signed_then; [by apply Hs|done]. }
  intros mic s1 ([Hc1 Hh1] & Hp1 & He1 & Hs1). cbn beta. wps. apply pwp_bind.
  apply (pwp_mono _ (fun _ s' => guarded s0 s' /\ established (mech_ s') /\
    (server_mic_verified_ s' = true -> signed (mech_types_der_ s') (mech_ s'))) _ (guarded s0)); [| |done].
  { destruct (_ || _); [|by wps]. unfold CredsspLogic.wp, on_mech. split_and!; [by split| |].
    - eapply initiator_established_then; [exact He1|constructor].
    - intros V. eapply initiator_signed_then; [by apply Hs1|constructor]. }
  intros _ s2 ([Hc2 Hh2] & He2 & Hs2). cbn beta. apply pwp_bind.
  apply (pwp_mono _ (fun _ s' => s' = s2) _ (guarded s0)); [| |done].
  { destruct (_ || _); [|by wps]. by apply pwp_lift; [intros b _; wps|]. }
  intros tokens s3 ->. cbv zeta beta. destruct (_ && _).
  - wps. by apply initiator_wp_send.
  - by apply wp_send_pub_key_auth.
Qed.

(** ** Negotiation *)

(** The parts of the state that reading a reply leaves alone. *)
Definition same (s0 s : t) : Prop :=
  core s = core s0 /\ output_ s = output_ s0 /\ mech_ s = mech_ s0 /\ phase_ s = phase_ s0 /\
  server_mic_verified_ s = server_mic_verified_ s0 /\ mech_types_der_ s = mech_types_der_ s0.

Lemma initiator_same_refl s : same s s.
Proof. done. Qed.
Lemma initiator_same_trans s1 s2 s3 : same s1 s2 -> same s2 s3 -> same s1 s3.
Proof. intros (? & ? & ? & ? & ? & ?) (? & ? & ? & ? & ? & ?). unfold same. split_and!; congruence. Qed.

Lemma wp_same {A} (m : P t A) Q E s0 s :
  wp m (fun _ => same s) (same s) s -> same s0 s -> (forall a s', same s0 s' -> Q a s') -> (forall s', same s0 s' -> E s') ->
  wp m Q E s.
Proof.
  intros Hw Hs HQ HE. eapply pwp_mono; [exact Hw|intros a s' Hs'; eapply HQ, initiator_same_trans; [exact Hs|exact Hs']|].
  intros s' Hs'. eapply HE, initiator_same_trans; [exact Hs|exact Hs'].
Qed.

Lemma wp_check_first_reply s resp : wp (check_first_reply resp) (fun _ => same s) (same s) s.
Proof.
  unfold check_first_reply. wps. destruct (first_reply_ s); [|by wps]. wps.
  case_bool_decide; [by wps|]. wps. apply pwp_bind.
  apply (pwp_mono _ (fun _ => same s) _ (same s)); [| |done].
  { destruct (Spnego.supported_mech resp); [case_bool_decide; by wps|]. destruct (pending_first_step_ _); by wps. }
  intros [] s' Hs. case_bool_decide; [|by wps]. unfold CredsspLogic.wp, pmod. eapply initiator_same_trans; [exact Hs|done].
Qed.

Lemma wp_mech_input s resp : wp (mech_input resp) (fun _ => same s) (same s) s.
Proof.
  unfold mech_input. wps. destruct (pending_first_step_ s).
  - wps. destruct (Spnego.response_token resp) as [x|]; [destruct (negb (is_empty x))|]; by wps.
  - destruct (Spnego.response_token resp); by wps.
Qed.

Lemma wp_read_reply s token : wp (read_reply token) (fun _ => same s) (same s) s.
Proof.
  unfold read_reply. apply wp_try; [|done]. intros [init|resp] _; [by wps|]. case_bool_decide; [by wps|].
  apply pwp_bind. eapply (pwp_mono _ (fun _ => same s)); [apply wp_check_first_reply| |done].
  intros [] s1 H1. cbn beta. apply pwp_bind. apply (wp_same _ _ _ s); [apply wp_mech_input|exact H1| |done].
  intros input s2 H2. by wps.
Qed.

Lemma guarded_same s0 s s' : guarded s0 s -> same s s' -> guarded s0 s'.
Proof. intros [Hc Hh] (E1 & E2 & _). split; [congruence|by rewrite E2]. Qed.

(** The MIC of a reply, if there is one to check. *)
Lemma initiator_wp_verify s0 s what mic (Q : unit -> t -> Prop) :
  guarded s0 s -> established (mech_ s) ->
  (forall s', guarded s0 s' -> phase_ s' = phase_ s -> established (mech_ s') -> server_mic_verified_ s' = true ->
     signed (mech_types_der_ s') (mech_ s') -> Q tt s') ->
  wp (let+ types_der := pget mech_types_der_ in
      let+ result := on_mech (fun c => verify_mic c types_der mic) in
      let+ _ := ptry what result in
      pmod (with_server_mic_verified true)) Q (guarded s0) s.
Proof.
  intros [Hc Hh] He HQ. wps. apply initiator_wp_mech; [constructor|]. intros r c' Ev Hcall. apply wp_try; [|by split].
  intros [] ->. unfold CredsspLogic.wp, pmod. apply HQ; [by split|done|by eapply initiator_established_then|done|].
  cbn. exists (mech_ s), mic, c'. split_and!; [exact He|exact Ev|constructor].
Qed.

Lemma initiator_wp_handle_negotiate s request :
  harmless (output_ s) -> mechanism_ok s -> phase_ s = negotiate ->
  wp (handle_negotiate sha256 request) (fun _ => handled s) (guarded s) s.
Proof.
  intros Hh Hm Hp. unfold mechanism_ok in Hm. rewrite Hp in Hm. destruct Hm as [Hm Hv]. unfold handle_negotiate.
  assert (guarded s s) as Hg by done.
  destruct (nego_tokens request) as [|token [|]]; [by wps| |by wps]. wps. apply pwp_bind.
  apply (pwp_mono _ (fun _ => same s) _ (guarded s)); [| |done].
  { destruct (use_spnego _); [|by wps]. apply pwp_bind.
    apply (wp_same _ _ _ s); [apply wp_read_reply|done| |intros s' Hs; by eapply guarded_same].
    intros [resp input] s1 H1. by wps. }
  intros [resp input] s1 Hs1. cbn beta iota. pose proof (guarded_same _ _ _ Hg Hs1) as [Hc1 Hh1].
  destruct Hs1 as (_ & _ & E1 & E2 & E3 & _). rewrite <- E1 in Hm. rewrite <- E2 in Hp. rewrite <- E3 in Hv.
  apply initiator_wp_mech; [constructor|]. intros r c' Es Hcall. apply wp_try; [|by split]. intros [out complete] ->.
  assert (evolves made c') as Hm' by (by eapply initiator_evolves_then).
  assert (complete = true -> established c') as He.
  { intros ->. exists (mech_ s1), input, out, c'. split_and!; [exact Hm|exact Es|constructor]. }
  apply pwp_bind. apply (pwp_mono _ (fun _ s' => guarded s s' /\ phase_ s' = negotiate /\ evolves made (mech_ s') /\
    (complete = true -> established (mech_ s')) /\ (complete = false -> server_mic_verified_ s' = false) /\
    (server_mic_verified_ s' = true -> signed (mech_types_der_ s') (mech_ s'))) _ (guarded s)); [| |done].
  { assert (forall s', s' = with_mech c' s1 -> guarded s s' /\ phase_ s' = negotiate /\ evolves made (mech_ s') /\
      (complete = true -> established (mech_ s')) /\ (complete = false -> server_mic_verified_ s' = false) /\
      (server_mic_verified_ s' = true -> signed (mech_types_der_ s') (mech_ s'))) as Hsame.
    { intros s' ->. split_and!; [by split|exact Hp|exact Hm'|exact He|done|cbn; congruence]. }
    destruct resp as [r|]; [|wps; by apply Hsame].
    destruct (Spnego.mech_list_mic r) as [mic|]; [|wps; by apply Hsame].
    destruct complete; cbn [step_complete]; [|wps; by apply Hsame].
    apply initiator_wp_verify; [by split|by apply He|]. intros s' Hg' Hp' He' _ Hs'. split_and!; [done|by rewrite Hp'| |done|done|done].
    destruct He' as (c0 & i & o & c1 & ? & E & ?). eapply rtc_trans; [eassumption|].
    eapply rtc_l; [|eassumption]. pose proof (called_step c0 i) as X. by rewrite E in X. }
  intros [] s2 (Hg2 & Hp2 & Hm2 & He2 & Hf2 & Hs2). cbn beta. by apply wp_send_step.
Qed.

Lemma wp_handle_final_token s request :
  harmless (output_ s) -> mechanism_ok s -> phase_ s = final_token_ ->
  wp (handle_final_token sha256 request) (fun _ => handled s) (guarded s) s.
Proof.
  intros Hh Hm Hp. unfold mechanism_ok in Hm. rewrite Hp in Hm. unfold handle_final_token.
  assert (guarded s s) as Hg by done.
  destruct (nego_tokens request) as [|token [|]]; [by wps| |by wps]. destruct (is_some _); [by wps|].
  apply wp_try; [|done]. intros [init|resp] _; [by wps|]. destruct (_ || _); [by wps|].
  destruct (Spnego.mech_list_mic resp) as [mic|]; [|by wps]. wps.
  apply initiator_wp_mech; [constructor|]. intros r c' Ev Hcall. apply wp_try; [|by split]. intros [] ->. wps.
  apply initiator_wp_mech; [constructor|]. intros [] c2 [= <-] _.
  assert (signed (mech_types_der_ s) (reset_cipher_state c')) as Hs.
  { exists (mech_ s), mic, c'. split_and!; [exact Hm|exact Ev|]. eapply rtc_l; [constructor|constructor]. }
  apply wp_send_pub_key_auth; [by split|done| |done]. cbn.
  eapply initiator_established_then; [|constructor]. by eapply initiator_established_then.
Qed.

(** ** The server's key and the credentials *)

(** The handshake has succeeded: the server was verified before the credentials were wrapped. *)
Definition delivered (s : t) : Prop :=
  exists c0 c1 secret,
    server_verified (mech_types_der_ s) (mic_required_ s) (version_ s) (nonce_ s) c0 /\
    encode_credentials (to_ts_credentials (credentials cfg)) = Some secret /\
    c1 = snd (wrap_message c0 secret) /\ mech_ s = c1.

Lemma wp_closing_token s tokens :
  harmless (output_ s) -> mechanism_ok s -> phase_ s = pub_key_auth_ ->
  wp (closing_token tokens) (fun _ s' => handled s s' /\ phase_ s' = pub_key_auth_) (guarded s) s.
Proof.
  intros Hh Hm Hp. assert (handled s s /\ phase_ s = pub_key_auth_) as Hs by done. assert (guarded s s) as Hg by done.
  unfold mechanism_ok in Hm. rewrite Hp in Hm. destruct Hm as [He Hv]. unfold closing_token.
  destruct tokens as [|token tokens]; [by wps|]. wps. destruct (_ || _); [by wps|].
  apply wp_try; [|done]. intros [init|resp] _; [by wps|]. destruct (_ || _); [by wps|]. wps.
  destruct (Spnego.mech_list_mic resp) as [mic|]; [|by wps]. destruct (negb _); [|by wps].
  apply initiator_wp_verify; [done|done|]. intros s' Hg' Hp' He' Hv' Hs'. rewrite Hp in Hp'. split; [|done]. split; [done|].
  unfold mechanism_ok. by rewrite Hp'.
Qed.

Lemma wp_check_server_key s wrapped (f : unit -> P t unit) Q s0 :
  config_ s = cfg -> guarded s0 s -> established (mech_ s) ->
  (mic_required_ s = true -> signed (mech_types_der_ s) (mech_ s)) ->
  (forall c', server_verified (mech_types_der_ s) (mic_required_ s) (version_ s) (nonce_ s) c' ->
     wp (f tt) Q (guarded s0) (with_mech c' s)) ->
  wp (pbind (check_server_key sha256 wrapped) f) Q (guarded s0) s.
Proof.
  intros Hcfg [Hc Hh] He Hs HQ. apply pwp_bind. unfold check_server_key. apply initiator_wp_mech; [constructor|].
  intros r c' Eu _. apply wp_try; [|by split]. intros plaintext ->. wps. apply pwp_lift; [|done]. intros expected Ee.
  unfold equal_constant_time. case_bool_decide as Hp; cbn [negb]; [|wps; by split]. wps. subst expected. cbn in Ee.
  apply HQ. exists (mech_ s), wrapped, plaintext, c'. rewrite Hcfg in Ee.
  split_and!; [exact He|exact Hs|exact Eu|exact Ee|constructor].
Qed.

(** After the last message. *)
Definition finished (s0 s : t) : Prop :=
  config_ s = config_ s0 /\ status_ s = PreAuth.succeeded /\ input_ s = input_ s0 /\ remaining_ s = remaining_ s0 /\ delivered s.

Lemma initiator_wp_handle_pub_key_auth s request :
  config_ s = cfg -> harmless (output_ s) -> mechanism_ok s -> phase_ s = pub_key_auth_ ->
  wp (handle_pub_key_auth sha256 request) (fun _ s' => handled s s' \/ finished s s') (guarded s) s.
Proof.
  intros Hcfg Hh Hm Hp. unfold handle_pub_key_auth. apply pwp_bind.
  apply (pwp_mono _ (fun _ s' => handled s s' /\ phase_ s' = pub_key_auth_) _ (guarded s)); [by apply wp_closing_token| |done].
  intros [] s1 [[Hg1 Hm1] Hp1]. cbn beta. destruct (pub_key_auth request) as [wrapped|].
  2: { case_bool_decide; cbn [negb]; wps; [done|by left]. }
  wps. destruct (mic_required_ s1 && negb (server_mic_verified_ s1)) eqn:Er; [by wps|].
  pose proof Hm1 as Hm1'. unfold mechanism_ok in Hm1'. rewrite Hp1 in Hm1'. destruct Hm1' as [He Hs].
  assert (config_ s1 = cfg) as Hcfg1 by (destruct Hg1 as [[= E _ _ _ _ _] _]; congruence).
  apply wp_check_server_key; [done|done|done| |].
  { intros Hr. apply Hs. rewrite Hr in Er. by destruct (server_mic_verified_ s1). }
  intros c' Hv. wps. apply pwp_lift; [|done]. intros secret Esec. destruct Hg1 as [Hc1 Hh1].
  apply initiator_wp_mech; [constructor|]. intros info c2 Ew _. wps. unfold send. wps. apply pwp_lift; [|done]. intros bytes _.
  unfold CredsspLogic.wp, pmod. right. injection Hc1 as E1 E2 E3 E4 E5 E6.
  split; [exact E1|]. split; [done|]. split; [exact E3|]. split; [exact E4|].
  exists c', c2, secret. cbn in Esec. rewrite Hcfg1 in Esec. split_and!; [exact Hv|exact Esec| |done].
  cbn in Ew. by rewrite Ew.
Qed.

(** ** A whole request, and all of them *)

Record inv (s : t) : Prop := {
  inv_config : config_ s = cfg;
  inv_status : match status_ s with
    | PreAuth.in_progress => harmless (output_ s) /\ mechanism_ok s
    | PreAuth.succeeded => delivered s
    | PreAuth.nla_failed => harmless (output_ s)
    end }.

Definition refused (s : t) : Prop := config_ s = cfg /\ harmless (output_ s).

Lemma handled_inv s0 s : config_ s0 = cfg -> status_ s0 = PreAuth.in_progress -> handled s0 s -> inv s.
Proof.
  intros Hcfg Hs [[[= E1 E2 E3 E4 E5 E6] Hh] Hm]. split; [congruence|]. rewrite E2, Hs. by split.
Qed.

Lemma guarded_refused s0 s : config_ s0 = cfg -> guarded s0 s -> refused s.
Proof. intros Hcfg [[= E1 _ _ _ _ _] Hh]. split; [congruence|done]. Qed.

Lemma initiator_wp_check_version s request (f : unit -> P t unit) Q :
  inv s -> status_ s = PreAuth.in_progress ->
  (forall s', inv s' -> status_ s' = PreAuth.in_progress -> wp (f tt) Q refused s') ->
  wp (pbind (check_version request) f) Q refused s.
Proof.
  intros Hi Es HQ. pose proof Hi as [Hc Hst]. rewrite Es in Hst. destruct Hst as [Hh Hm].
  apply pwp_bind. unfold check_version. wps. destruct (_ =? 0); [|wps; by apply HQ].
  destruct (_ <? _); [wps; by split|]. apply HQ; [|done]. split; [done|]. cbn. rewrite Es. by split.
Qed.

Lemma initiator_wp_handle s request :
  inv s -> status_ s = PreAuth.in_progress -> wp (handle sha256 request) (fun _ => inv) refused s.
Proof.
  intros Hi Es. unfold handle. destruct (error_code request) as [code|].
  { wps. destruct Hi as [Hc Hst]. rewrite Es in Hst. destruct Hst as [Hh _]. by split. }
  apply initiator_wp_check_version; [done|done|]. clear s Hi Es. intros s [Hc Hst] Es. rewrite Es in Hst. destruct Hst as [Hh Hm]. wps.
  assert (forall m : P t unit, wp m (fun _ => handled s) (guarded s) s -> wp m (fun _ => inv) refused s) as Hw.
  { intros m Hw. eapply pwp_mono; [exact Hw|intros u s'; by apply handled_inv|]. intros s'. by apply guarded_refused. }
  destruct (phase_ s) eqn:Ep.
  - apply Hw. by apply initiator_wp_handle_negotiate.
  - apply Hw. by apply wp_handle_final_token.
  - eapply pwp_mono; [by apply initiator_wp_handle_pub_key_auth| |intros s'; by apply guarded_refused].
    intros u s' [Hs'|(E1 & E2 & _ & _ & Hd)]; [by eapply handled_inv|]. split; [congruence|]. by rewrite E2.
  - unfold mechanism_ok in Hm. by rewrite Ep in Hm.
Qed.

Lemma wp_start s :
  config_ s = cfg -> mech_ s = made -> phase_ s = negotiate -> server_mic_verified_ s = false -> output_ s = [] ->
  status_ s = PreAuth.in_progress -> wp (start sha256) (fun _ => inv) refused s.
Proof.
  intros Hc Hm Hp Hv Ho Es. unfold start. wps.
  assert (forall s' e, config_ s' = cfg -> status_ s' = PreAuth.in_progress -> phase_ s' = negotiate ->
    server_mic_verified_ s' = false -> evolves made (mech_ s') -> harmless (output_ s') ->
    wp (send (with_tokens [e] (request_of max_version))) (fun _ => inv) refused s') as Hsend.
  { intros s' e Hc' Es' Hp' Hv' Hm' Hh'. apply initiator_wp_send; [done|done|]. intros out Hout. split; [done|]. cbn. rewrite Es'.
    split; [done|]. unfold mechanism_ok. cbn. by rewrite Hp'. }
  assert (harmless (output_ s)) as Hh by (rewrite Ho; apply harmless_nil).
  destruct (use_spnego _); cbn [negb].
  - wps. apply pwp_bind. apply (pwp_mono _ (fun _ s' => config_ s' = cfg /\ status_ s' = PreAuth.in_progress /\
      phase_ s' = negotiate /\ server_mic_verified_ s' = false /\ evolves made (mech_ s') /\ harmless (output_ s')) _ refused);
      [| |done].
    { case_bool_decide.
      - apply initiator_wp_mech; [constructor|]. intros r c' _ Hcall. apply wp_try; [|by split]. intros next _.
        destruct (step_complete next); [wps; by split|]. wps. split_and!; [done..| |done]. cbn. rewrite <- Hm.
        eapply initiator_evolves_then; [constructor|exact Hcall].
      - wps. split_and!; [done..| |done]. cbn. rewrite Hm. constructor. }
    intros optimistic s1 (Hc1 & Es1 & Hp1 & Hv1 & Hm1 & Hh1). cbn beta. apply pwp_lift; [|done]. intros init _. wps.
    apply pwp_lift; [|done]. intros token _. by apply Hsend.
  - apply initiator_wp_mech; [constructor|]. intros r c' Es' Hcall. apply wp_try; [|by split]. intros next ->.
    eapply pwp_mono; [apply (wp_send_step s)| |].
    + split; [reflexivity|exact Hh].
    + exact Hp.
    + cbn. rewrite <- Hm. eapply initiator_evolves_then; [constructor|exact Hcall].
    + intros Hn. destruct next as [out complete]. cbn in Hn |- *. subst complete. exists (mech_ s), [], out, c'.
      rewrite Hm in *. split_and!; [constructor|exact Es'|constructor].
    + intros _. exact Hv.
    + cbn. congruence.
    + intros u s'. by apply handled_inv.
    + intros s'. by apply guarded_refused.
Qed.

Lemma or_fail_inv m s s' : wp m (fun _ => inv) refused s -> or_fail m s = Some s' -> inv s'.
Proof.
  unfold CredsspLogic.wp, or_fail. destruct (m s) as [[[[]|reason] s1]|]; [by intros ? [= <-]| |done].
  intros [Hc Hh]. unfold fail_, pmod. cbn. by intros [= <-].
Qed.

Lemma make_inv random s : make sha256 cfg made random = Some s -> inv s.
Proof.
  unfold make. destruct (_ && _); [|done]. apply or_fail_inv. by apply wp_start.
Qed.

Lemma initiator_inv_input s i : inv s -> inv (with_input i s).
Proof. by intros [Hc Hs]. Qed.

Lemma receive_step_inv s s' more : inv s -> status_ s = PreAuth.in_progress -> receive_step sha256 s = Some (s', more) ->
  inv s' /\ (more = true -> status_ s' = PreAuth.in_progress).
Proof.
  intros Hi Es. unfold receive_step. assert (refused s) as Hr.
  { destruct Hi as [Hc Hs]. rewrite Es in Hs. by destruct Hs; split. }
  destruct (frame_ts_request _) as [[size|]|e].
  - destruct (_ <? _); [by intros [= <- <-]|]. destruct (decode_ts_request _) as [request|e].
    + destruct (or_fail _ _) as [s1|] eqn:E; [|done]. cbn [mbind option_bind]. intros [= <- <-].
      split; [|intros Hb; by apply bool_decide_eq_true in Hb].
      eapply or_fail_inv; [|exact E]. by apply initiator_wp_handle; [apply initiator_inv_input|].
    + destruct (or_fail _ _) as [s1|] eqn:E; [|done]. cbn [mbind option_bind]. intros [= <- <-]. split; [|done].
      by eapply or_fail_inv; [|exact E].
  - by intros [= <- <-].
  - destruct (or_fail _ _) as [s1|] eqn:E; [|done]. cbn [mbind option_bind]. intros [= <- <-]. split; [|done].
    by eapply or_fail_inv; [|exact E].
Qed.

Lemma receive_loop_inv fuel : forall s s', inv s -> status_ s = PreAuth.in_progress -> receive_loop sha256 fuel s = Some s' -> inv s'.
Proof.
  induction fuel as [|fuel IH]; intros s s' Hi Es; cbn [receive_loop]; [done|].
  destruct (receive_step sha256 s) as [[s1 more]|] eqn:E; [|done]. cbn [mbind option_bind].
  apply receive_step_inv in E as [Hi1 Hm]; [|done..]. destruct more; [by apply IH; auto|]. by intros [= <-].
Qed.

Lemma initiator_receive_inv bytes s s' : inv s -> receive sha256 bytes s = Some s' -> inv s'.
Proof.
  intros Hi. unfold receive. destruct (status_ s) eqn:Es.
  - destruct (receive_loop _ _ _) as [s1|] eqn:E; [|done]. cbn [mbind option_bind]. intros [= <-].
    apply receive_loop_inv in E; [|by apply initiator_inv_input|done]. destruct (status_ s1) eqn:E1; [done| |done].
    destruct E as [Hc Hs]. split; [done|]. cbn. by rewrite E1 in *.
  - intros [= <-]. destruct Hi as [Hc Hs]. split; [done|]. cbn. by rewrite Es in *.
  - by intros [= <-].
Qed.

(** The initiator in the hands of a client program and of any server. *)
Inductive reachable : t -> Prop :=
  | reach_made random s : make sha256 cfg made random = Some s -> reachable s
  | reach_received s bytes s' : reachable s -> receive sha256 bytes s = Some s' -> reachable s'
  | reach_output s : reachable s -> reachable (snd (take_output s))
  | reach_remaining s : reachable s -> reachable (snd (take_remaining_input s)).

Lemma initiator_reachable_inv s : reachable s -> inv s.
Proof.
  induction 1 as [random s E|s bytes s' Hr IH E|s Hr IH|s Hr IH].
  - by eapply make_inv.
  - by eapply initiator_receive_inv.
  - destruct IH as [Hc Hs]. split; [done|]. cbn. destruct (status_ s); [|done|apply harmless_nil].
    split; [apply harmless_nil|apply Hs].
  - by destruct IH.
Qed.

(** C11: whatever a server sends, all that an initiator has ready to send are
    TSRequests without authInfo until its handshake succeeds; and it succeeds only
    when a mechanism that completed has shown that the server holds the TLS key
    the client saw, in the way of the negotiated version, with the server's MIC
    verified where MICs are required: the credentials are wrapped right then,
    with the context that verified the server. *)
Theorem initiator_guards_credentials (s : t) :
  reachable s ->
  (status_ s <> PreAuth.succeeded -> harmless (output_ s)) /\
  (status_ s = PreAuth.succeeded -> delivered s).
Proof.
  intros Hr. destruct (initiator_reachable_inv s Hr) as [_ Hs]. split; intros E.
  - destruct (status_ s); [apply Hs|done|exact Hs].
  - by rewrite E in Hs.
Qed.
End Initiator.
End CredsspInitiator.
