(* ===== verification/CredsspHandshake.v ===== *)
(** * A CredSSP handshake between two honest ends

    An initiator and an acceptor of [Credssp] whose mechanisms belong together,
    connected to each other, complete the handshake, and the credentials arrive
    as they were given to the initiator. *)

From S2P Require Import Prelude Buffers CodecLogic Text Ber DerFields Spnego PreAuth CredsspCodec Credssp CredsspLogic CredsspAcceptor CredsspInitiator.
Open Scope Z_scope.

Module CredsspHandshake.
Import DerFields CredsspCodec Credssp CredsspLogic.

(** [m] returns from [s], in a state where [Q] holds of its value. *)
Definition runs {S A} (m : P S A) (Q : A -> S -> Prop) (s : S) : Prop := wp False m Q (fun _ => False) s.

Section Handshake.
Context {CI CA : Type} `{SecurityContext CI} `{SecurityContext CA} (sha256 : list byte -> list byte).
Abbreviation I := (Initiator.t (C := CI)).
Abbreviation A := (Acceptor.t (C := CA)).

(** ** Mechanisms that belong together

    What one end wraps the other unwraps, in order; and a dialog of tokens that
    leads there: the initiator has sent [token] and is in [ci], the acceptor will
    take it in [ca]. *)

Record pairing (paired : CI -> CA -> Prop) : Prop := {
  to_acceptor ci ca bytes w ci' : paired ci ca -> wrap_message ci bytes = (w, ci') ->
    len w <= 1024 + len bytes /\ exists ca', unwrap ca w = (Ok bytes, ca') /\ paired ci' ca';
  to_initiator ci ca bytes w ca' : paired ci ca -> wrap_message ca bytes = (w, ca') ->
    len w <= 1024 + len bytes /\ exists ci', unwrap ci w = (Ok bytes, ci') /\ paired ci' ca' }.

Context (paired : CI -> CA -> Prop) (is_pairing : pairing paired).

Inductive dialog : CI -> list byte -> CA -> Prop :=
  (** Neither has completed. *)
  | talk ci token ca token2 ca' token3 ci' :
      step ca token = (Ok (mkStep token2 false), ca') -> step ci token2 = (Ok (mkStep token3 false), ci') ->
      len token2 <= 40000 -> len token3 <= 40000 ->
      dialog ci' token3 ca' -> dialog ci token ca
  (** The initiator completes first, with a token that completes the acceptor, as in NTLM. *)
  | initiator_first ci token ca token2 ca' token3 ci' ca'' :
      step ca token = (Ok (mkStep token2 false), ca') -> step ci token2 = (Ok (mkStep token3 true), ci') ->
      len token2 <= 40000 -> 0 < len token3 <= 40000 ->
      step ca' token3 = (Ok (mkStep [] true), ca'') -> paired ci' ca'' -> dialog ci token ca
  (** The acceptor completes first, with a token that completes the initiator, as in Kerberos. *)
  | acceptor_first ci token ca token2 ca' ci' :
      step ca token = (Ok (mkStep token2 true), ca') -> 0 < len token2 <= 40000 ->
      step ci token2 = (Ok (mkStep [] true), ci') -> paired ci' ca' -> dialog ci token ca.

(** ** The two configurations *)

Context (ic : Initiator.InitiatorConfig) (ac : Acceptor.AcceptorConfig (C := CA)).
Abbreviation key := (Initiator.server_public_key ic).

Record matching : Prop := {
  spnego_on : Initiator.use_spnego ic = true;
  no_preference : Initiator.preferred_mech_types ic = [];
  same_key : Acceptor.server_public_key ac = key;
  key_size : 0 < len key <= 16000;
  initiator_version : min_version <= Initiator.config_version ic < 2 ^ 32;
  acceptor_version : min_version <= Acceptor.config_max_version ac;
  hash_size bytes : len (sha256 bytes) = 32;
  credentials_plain : plain_credentials (Initiator.credentials ic);
  credentials_size : match encode_credentials (to_ts_credentials (Initiator.credentials ic)) with
                     | Some secret => len secret <= 40000 | None => False end;
  credentials_accepted ci ca : paired ci ca ->
    match Acceptor.accept_credentials ac with
    | Some accept => accept (Initiator.credentials ic) (mech_identity ca) (mechanism ca) = true
    | None => True
    end }.

Context (match_ : matching).

Definition agreed : Z := Z.min (Initiator.config_version ic) (Acceptor.config_max_version ac).


(** ** Messages *)

Context (own : list byte) (own_ok : Spnego.oid_ok own = true) (nonce : list byte) (nonce_sized : len nonce = nonce_size).

(** The initiator's requests; before the first reply it goes by its own version. *)
Definition i_request (first : bool) (tokens : list (list byte)) (pub info : option (list byte)) : TsRequest :=
  mkRequest (Initiator.config_version ic) tokens info pub None
    (if 5 <=? (if first then Initiator.config_version ic else agreed) then Some nonce else None).

Definition a_request (tokens : list (list byte)) (pub : option (list byte)) : TsRequest :=
  mkRequest agreed tokens None pub None None.

Lemma agreed_range : min_version <= agreed < 2 ^ 32.
Proof. pose proof (initiator_version match_). pose proof (acceptor_version match_). unfold agreed. lia. Qed.

(** A request that arrives: it is one frame and decodes to itself. *)
Definition arrives (r : TsRequest) (e : list byte) : Prop :=
  encode_request r = Some e /\ decode_ts_request e = Ok r /\ frame_ts_request e = Ok (Some (len e)) /\ e <> [].

Lemma request_arrives r :
  request_ok r = true -> len (nego_tokens r) <= 1 ->
  len (concat (nego_tokens r)) + olen (auth_info r) + olen (pub_key_auth r) <= 60000 -> exists e, arrives r e.
Proof.
  intros Hok Hl Hs. destruct (ts_request_roundtrip r Hok) as (e & He & Hd). exists e.
  destruct r as [v tokens auth pub code n]. unfold request_ok in Hok.
  cbn [version nego_tokens auth_info pub_key_auth error_code client_nonce] in *. bools. unfold max_field_size, nonce_size in *.
  assert (Forall (fun t => len t <= 48000) tokens) as Ht.
  { apply List.Forall_forall. intros x Hx. match goal with Hf : forallb _ _ = true |- _ => rewrite forallb_forall in Hf; specialize (Hf x Hx) end.
    cbn beta in *. lia. }
  destruct (request_size (mkRequest v tokens auth pub code n)) as (e' & He' & Hl').
  { unfold request_sizes. cbn [version nego_tokens auth_info pub_key_auth error_code client_nonce].
    pose proof (octets_bounded auth ltac:(done)). pose proof (octets_bounded pub ltac:(done)). unfold max_field_size in *.
    split_and!; [lia|lia|done|..].
    - eapply Forall_impl; [exact Ht|]. cbn. lia.
    - destruct auth; cbn [olen] in *; lia.
    - destruct pub; cbn [olen] in *; lia.
    - destruct n; cbn [olen] in *; bools; lia.
    - destruct code; [bools; lia|done]. }
  assert (e' = e) as -> by congruence. cbn [nego_tokens auth_info pub_key_auth client_nonce] in Hl'.
  assert (olen n <= 32) by (destruct n; cbn [olen]; bools; lia).
  unfold max_ts_request_size in Hd. destruct Hd as [Hd Hf]; [lia|].
  specialize (Hf []). rewrite app_nil_r in Hf. split_and!; [done|done|done|]. intros ->. vm_compute in Hf. discriminate.
Qed.
(** ** Delivery *)

Definition settle_a (s : A) : A :=
  match Acceptor.status_ s with
  | PreAuth.succeeded => Acceptor.with_input [] (Acceptor.with_remaining (Acceptor.input_ s) s)
  | _ => s
  end.

Lemma step_a (s : A) r e :
  arrives r e -> Acceptor.input_ s = e ->
  Acceptor.receive_step sha256 s =
    (s' ← Acceptor.or_fail (Acceptor.handle sha256 r) (Acceptor.with_input [] s);
     Some (s', bool_decide (Acceptor.status_ s' = PreAuth.in_progress))).
Proof.
  intros (He & Hd & Hf & Hn) Ei. unfold Acceptor.receive_step. rewrite Ei, Hf, Z.ltb_irrefl.
  by rewrite take_ge, drop_ge, Hd by (unfold len; lia).
Qed.

Lemma idle_a f (s : A) : Acceptor.input_ s = [] -> Acceptor.receive_loop sha256 (S f) s = Some s.
Proof. intros Ei. cbn [Acceptor.receive_loop]. unfold Acceptor.receive_step. by rewrite Ei. Qed.

Lemma deliver_a (s : A) r e (Q : A -> Prop) :
  Acceptor.status_ s = PreAuth.in_progress -> Acceptor.input_ s = [] -> arrives r e ->
  runs (Acceptor.handle sha256 r) (fun _ s' => Acceptor.input_ s' = [] /\ Q s') s ->
  exists s', Acceptor.receive sha256 e s = Some (settle_a s') /\ Q s'.
Proof.
  intros Es Ei Ha Hw. assert (exists f, length e = S f) as [f El] by (destruct Ha as (_ & _ & _ & ?); destruct e; [done|by eexists]).
  unfold Acceptor.receive. rewrite Es, Ei. cbn [app]. set (s1 := Acceptor.with_input e s).
  change (length (Acceptor.input_ s1)) with (length e). rewrite El.
  change (Acceptor.receive_loop sha256 (S (S f)) s1) with
    (next ← Acceptor.receive_step sha256 s1; let '(s', more) := next in if more : bool then Acceptor.receive_loop sha256 (S f) s' else Some s').
  rewrite (step_a s1 r e) by done.
  assert (Acceptor.with_input [] s1 = s) as -> by (rewrite <- Ei; by destruct s).
  unfold runs, wp in Hw. unfold Acceptor.or_fail.
  destruct (Acceptor.handle sha256 r s) as [[[u|reason] s']|]; [|done..]. destruct Hw as [Ei' HQ].
  exists s'. split; [|done]. cbn [mbind option_bind]. unfold settle_a.
  destruct (Acceptor.status_ s') eqn:Es'.
  - rewrite bool_decide_true by done. rewrite idle_a by done. cbn [mbind option_bind]. by rewrite Es'.
  - rewrite bool_decide_false by done. cbn [mbind option_bind]. by rewrite Es'.
  - rewrite bool_decide_false by done. cbn [mbind option_bind]. by rewrite Es'.
Qed.

Definition settle_i (s : I) : I :=
  match Initiator.status_ s with
  | PreAuth.succeeded => Initiator.with_input [] (Initiator.with_remaining (Initiator.input_ s) s)
  | _ => s
  end.

Lemma step_i (s : I) r e :
  arrives r e -> Initiator.input_ s = e ->
  Initiator.receive_step sha256 s =
    (s' ← Initiator.or_fail (Initiator.handle sha256 r) (Initiator.with_input [] s);
     Some (s', bool_decide (Initiator.status_ s' = PreAuth.in_progress))).
Proof.
  intros (He & Hd & Hf & Hn) Ei. unfold Initiator.receive_step. rewrite Ei, Hf, Z.ltb_irrefl.
  by rewrite take_ge, drop_ge, Hd by (unfold len; lia).
Qed.

Lemma idle_i f (s : I) : Initiator.input_ s = [] -> Initiator.receive_loop sha256 (S f) s = Some s.
Proof. intros Ei. cbn [Initiator.receive_loop]. unfold Initiator.receive_step. by rewrite Ei. Qed.

Lemma deliver_i (s : I) r e (Q : I -> Prop) :
  Initiator.status_ s = PreAuth.in_progress -> Initiator.input_ s = [] -> arrives r e ->
  runs (Initiator.handle sha256 r) (fun _ s' => Initiator.input_ s' = [] /\ Q s') s ->
  exists s', Initiator.receive sha256 e s = Some (settle_i s') /\ Q s'.
Proof.
  intros Es Ei Ha Hw. assert (exists f, length e = S f) as [f El] by (destruct Ha as (_ & _ & _ & ?); destruct e; [done|by eexists]).
  unfold Initiator.receive. rewrite Es, Ei. cbn [app]. set (s1 := Initiator.with_input e s).
  change (length (Initiator.input_ s1)) with (length e). rewrite El.
  change (Initiator.receive_loop sha256 (S (S f)) s1) with
    (next ← Initiator.receive_step sha256 s1; let '(s', more) := next in if more : bool then Initiator.receive_loop sha256 (S f) s' else Some s').
  rewrite (step_i s1 r e) by done.
  assert (Initiator.with_input [] s1 = s) as -> by (rewrite <- Ei; by destruct s).
  unfold runs, wp in Hw. unfold Initiator.or_fail.
  destruct (Initiator.handle sha256 r s) as [[[u|reason] s']|]; [|done..]. destruct Hw as [Ei' HQ].
  exists s'. split; [|done]. cbn [mbind option_bind]. unfold settle_i.
  destruct (Initiator.status_ s') eqn:Es'.
  - rewrite bool_decide_true by done. rewrite idle_i by done. cbn [mbind option_bind]. by rewrite Es'.
  - rewrite bool_decide_false by done. cbn [mbind option_bind]. by rewrite Es'.
  - rewrite bool_decide_false by done. cbn [mbind option_bind]. by rewrite Es'.
Qed.

(** ** States of the two ends *)

Record a_state (ph : Acceptor.Phase) (ca : CA) (s : A) : Prop := {
  as_config : Acceptor.config_ s = ac;
  as_key : Acceptor.public_key_ s = key;
  as_status : Acceptor.status_ s = PreAuth.in_progress;
  as_phase : Acceptor.phase_ s = ph;
  as_input : Acceptor.input_ s = [];
  as_peer : Acceptor.peer_version_ s = Initiator.config_version ic;
  as_version : Acceptor.version_ s = agreed;
  as_nonce : 5 <= agreed -> Acceptor.nonce_ s = Some nonce;
  as_mech : Acceptor.mech_ s = Some ca;
  as_spnego : Acceptor.spnego_ s = true;
  as_required : Acceptor.mic_required_ s = false;
  as_verified : Acceptor.client_mic_verified_ s = false }.

(** [heard]: the acceptor's version is known; [first]: its first token is not yet read. *)
Record i_state (ph : Initiator.Phase) (heard first : bool) (ci : CI) (s : I) : Prop := {
  is_config : Initiator.config_ s = ic;
  is_mech : Initiator.mech_ s = ci;
  is_nonce : Initiator.nonce_ s = nonce;
  is_status : Initiator.status_ s = PreAuth.in_progress;
  is_phase : Initiator.phase_ s = ph;
  is_input : Initiator.input_ s = [];
  is_version : Initiator.version_ s = if heard then agreed else Initiator.config_version ic;
  is_server : Initiator.server_version_ s = if heard then agreed else 0;
  is_first : Initiator.first_reply_ s = first;
  is_pending : Initiator.pending_first_step_ s = false;
  is_required : Initiator.mic_required_ s = false;
  is_verified : Initiator.server_mic_verified_ s = false }.

(** The acceptor is made, and its factory has the initiator's mechanism. *)
Definition a_fresh (ca : CA) (s : A) : Prop :=
  Acceptor.make ac = Some s /\ Acceptor.make_mechanism ac own = Some ca.

Definition a_ready (first : bool) (ca : CA) (s : A) : Prop :=
  if first then a_fresh ca s else a_state Acceptor.negotiate ca s /\ Acceptor.output_ s = [].

(** A token of the initiator that carries [token] for the acceptor's mechanism. *)
Definition carries (first : bool) (bytes token : list byte) : Prop :=
  Spnego.is_raw_ntlm bytes = false /\
  if first then
    exists init, Spnego.decode bytes = Ok (Spnego.TokenInit init) /\ Spnego.mech_types init = [own] /\
      Spnego.mech_token init = Some token /\ Spnego.init_mech_list_mic init = None
  else Spnego.decode bytes = Ok (Spnego.TokenResp (Spnego.mkResp None None (Some token) None)).

(** The acceptor's first reply names the mechanism. *)
Definition supported (first : bool) : option (list byte) := if first then Some own else None.
Definition first_reply (first : bool) : Spnego.NegTokenResp :=
  if first then Spnego.mkResp (Some Spnego.accept_incomplete) (Some own) None None else no_resp.

(** ** The acceptor's moves *)

Lemma a_call {B X} (g : CA -> B * CA) (f : B -> P A X) Q s c b c' :
  Acceptor.mech_ s = Some c -> g c = (b, c') -> runs (f b) Q (Acceptor.with_mech (Some c') s) ->
  runs (pbind (Acceptor.on_mech g) f) Q s.
Proof. intros Hc Hg Hr. unfold runs, wp, pbind, Acceptor.on_mech. by rewrite Hc, Hg. Qed.

Lemma run_lift {S B X} (o : option B) (f : B -> P S X) Q s b : o = Some b -> runs (f b) Q s -> runs (pbind (plift o) f) Q s.
Proof. by intros ->. Qed.
Lemma run_try {S B X} what (r : Result B) (f : B -> P S X) Q s b : r = Ok b -> runs (f b) Q s -> runs (pbind (ptry what r) f) Q s.
Proof. by intros ->. Qed.
Lemma run_get {S B X} (g : S -> B) (f : B -> P S X) Q s : runs (f (g s)) Q s -> runs (pbind (pget g) f) Q s.
Proof. done. Qed.
Lemma run_mod {S X} g (f : unit -> P S X) Q s : runs (f tt) Q (g s) -> runs (pbind (pmod g) f) Q s.
Proof. done. Qed.
Lemma run_ret {S X} (a : X) (Q : X -> S -> Prop) s : Q a s -> runs (pret a) Q s.
Proof. done. Qed.
Lemma run_pure {S B X} (b : B) (f : B -> P S X) Q s : runs (f b) Q s -> runs (pbind (pret b) f) Q s.
Proof. done. Qed.
Lemma run_bind {S B X} (m : P S B) (f : B -> P S X) Q s : runs m (fun b => runs (f b) Q) s -> runs (pbind m f) Q s.
Proof. apply pwp_bind. Qed.
Lemma run_unit_bind {S X} (m : P S unit) s' (f : unit -> P S X) Q s : m s = Some (inl tt, s') -> runs (f tt) Q s' -> runs (pbind m f) Q s.
Proof. intros E Hr. unfold runs, wp, pbind. by rewrite E. Qed.

Ltac rs := repeat match goal with
  | |- runs (pbind (pget _) _) _ _ => apply run_get
  | |- runs (pbind (pmod _) _) _ _ => apply run_mod
  | |- runs (pbind (pret _) _) _ _ => apply run_pure
  | |- runs (pret _) _ _ => apply run_ret
  end.

(** What the acceptor has sent. *)
Definition a_sent (tokens : list (list byte)) (pub : option (list byte)) (s : A) : Prop :=
  arrives (a_request tokens pub) (Acceptor.output_ s).

Definition a_ok (tokens : list (list byte)) (pub : option (list byte)) : Prop :=
  len tokens <= 1 /\ Forall (fun t => len t <= 42000) tokens /\ olen pub <= 17100.

Lemma a_request_arrives tokens pub : a_ok tokens pub -> exists e, arrives (a_request tokens pub) e.
Proof.
  intros (Hl & Ht & Hp). pose proof agreed_range as Hv. unfold min_version in Hv.
  assert (len (concat tokens) <= 42000) as Hc.
  { destruct Ht as [|x xs Hx _]; [done|]. rewrite len_cons in Hl. destruct xs; [cbn; by rewrite app_nil_r|].
    rewrite len_cons in Hl. pose proof (len_nonneg xs). lia. }
  apply request_arrives; cbn [a_request version nego_tokens auth_info pub_key_auth olen]; [|done|lia].
  unfold request_ok. cbn [a_request version nego_tokens auth_info pub_key_auth error_code client_nonce bounded].
  unfold max_nego_tokens, max_field_size.
  assert (forallb (fun t : list byte => len t <=? 48000) tokens = true) as Hf.
  { apply forallb_forall. intros x Hx. rewrite List.Forall_forall in Ht. specialize (Ht x Hx). lia. }
  rewrite Hf. rewrite (proj2 (Z.leb_le 0 agreed)), (proj2 (Z.ltb_lt _ _)), (proj2 (Z.leb_le (len tokens) 4)) by lia.
  destruct pub as [x|]; cbn [olen] in Hp; [|done].
  unfold CredsspCodec.bounded, max_field_size. by rewrite (proj2 (Z.leb_le (len x) 48000)) by lia.
Qed.

Lemma a_send message tokens pub (Q : unit -> A -> Prop) (s : A) :
  Acceptor.version_ s = agreed -> Acceptor.output_ s = [] ->
  nego_tokens message = tokens -> auth_info message = None -> pub_key_auth message = pub -> error_code message = None ->
  client_nonce message = None -> a_ok tokens pub ->
  (forall e, arrives (a_request tokens pub) e -> Q tt (Acceptor.with_output e s)) -> runs (Acceptor.send message) Q s.
Proof.
  intros Ev Eo <- Ea <- Ec En Hok HQ. destruct (a_request_arrives _ _ Hok) as (e & He).
  unfold Acceptor.send. rs. apply (run_lift _ _ _ _ e).
  { rewrite Ev, Ea, Ec, En. apply He. }
  unfold runs, wp, pmod. rewrite Eo. by apply HQ.
Qed.

(** [handle] up to the handler of the phase, for any request of the initiator. *)
Definition a_settled (ph : Acceptor.Phase) (first : bool) (ca : CA) (s : A) : Prop :=
  if first then
    ph = Acceptor.negotiate /\ Acceptor.config_ s = ac /\ Acceptor.public_key_ s = key /\
    Acceptor.status_ s = PreAuth.in_progress /\ Acceptor.phase_ s = Acceptor.negotiate /\ Acceptor.input_ s = [] /\
    Acceptor.output_ s = [] /\ Acceptor.peer_version_ s = Initiator.config_version ic /\ Acceptor.version_ s = agreed /\
    (5 <= agreed -> Acceptor.nonce_ s = Some nonce) /\ Acceptor.mech_ s = None /\ Acceptor.spnego_ s = false /\
    Acceptor.mic_required_ s = false /\ Acceptor.client_mic_verified_ s = false /\ Acceptor.make_mechanism ac own = Some ca
  else a_state ph ca s /\ Acceptor.output_ s = [].

Definition dispatch (ph : Acceptor.Phase) (r : TsRequest) : P A unit :=
  match ph with
  | Acceptor.negotiate => Acceptor.handle_negotiate sha256 r
  | Acceptor.pub_key_auth_ => Acceptor.handle_pub_key_auth sha256 r
  | Acceptor.credentials_phase => Acceptor.handle_credentials r
  | Acceptor.done_ => reject "TSRequest after the handshake ended"
  end.

Lemma a_dispatch ph (first : bool) ca tokens pub info (Q : unit -> A -> Prop) (s : A) :
  (if first then ph = Acceptor.negotiate /\ a_fresh ca s else a_state ph ca s /\ Acceptor.output_ s = []) ->
  (forall s', a_settled ph first ca s' -> runs (dispatch ph (i_request first tokens pub info)) Q s') ->
  runs (Acceptor.handle sha256 (i_request first tokens pub info)) Q s.
Proof.
  intros Hs HQ. pose proof agreed_range as Ha. pose proof (initiator_version match_) as Hi. unfold min_version in *.
  unfold Acceptor.handle. destruct first.
  - destruct Hs as [-> [Hm Hf]]. unfold Acceptor.make in Hm.
    destruct (negb (is_empty _) && _); [|done]. injection Hm as <-.
    eapply run_unit_bind.
    { unfold Acceptor.check_version, pbind, pget. cbn. unfold min_version.
      destruct (Z.ltb_spec (Initiator.config_version ic) 2); [lia|]. reflexivity. }
    cbn [error_code i_request]. cbn [i_request client_nonce].
    destruct (Z.leb_spec 5 (Initiator.config_version ic)) as [H5|H5].
    + rs. apply HQ. unfold a_settled. cbn. split_and!; try done. by rewrite (same_key match_).
    + rs. apply HQ. unfold a_settled. cbn. split_and!; try done; [by rewrite (same_key match_)|]. unfold agreed. lia.
  - destruct Hs as [Hs Ho]. destruct Hs as [S1 S2 S3 S4 S5 S6 S7 S8 S9 S10 S11 S12]. eapply run_unit_bind.
    { unfold Acceptor.check_version, pbind, pget. rewrite S6. cbn [i_request version].
      destruct (Z.eqb_spec (Initiator.config_version ic) 0); [lia|]. rewrite Z.eqb_refl. reflexivity. }
    cbn [error_code i_request client_nonce].
    assert (runs (dispatch ph (i_request false tokens pub info)) Q s) as Hr by (by apply HQ).
    destruct (Z.leb_spec 5 agreed) as [H5|H5].
    + rs. cbn [Acceptor.phase_ Acceptor.with_nonce]. rewrite S4. change (runs (dispatch ph (i_request false tokens pub info)) Q
        (Acceptor.with_nonce (Some nonce) s)).
      assert (Acceptor.with_nonce (Some nonce) s = s) as ->; [|exact Hr].
      specialize (S8 H5). rewrite <- S8. by destruct s.
    + rs. rewrite S4. exact Hr.
Qed.

(** A step of its mechanism, and what the negotiation makes of it. *)
Definition a_continue (first : bool) (token : list byte) (request : TsRequest) : P A unit :=
  let+ next := Acceptor.step_mech token in
  if step_complete next
  then Acceptor.finish_negotiation sha256 request (step_token next) None (first_reply first)
  else Acceptor.send_reply (Spnego.mkResp (Some Spnego.accept_incomplete) (supported first) (Some (step_token next)) None).

Lemma a_reads (first : bool) ca s bytes token pub Q :
  a_settled Acceptor.negotiate first ca s -> carries first bytes token ->
  (forall s', a_state Acceptor.negotiate ca s' -> Acceptor.output_ s' = [] ->
     runs (a_continue first token (i_request first [bytes] pub None)) Q s') ->
  runs (dispatch Acceptor.negotiate (i_request first [bytes] pub None)) Q s.
Proof.
  intros Hs [Hraw Hd] HQ. cbn [dispatch]. unfold Acceptor.handle_negotiate. cbn [i_request nego_tokens auth_info is_some]. rs.
  destruct first; cbn [a_settled] in Hs.
  - destruct Hs as (_ & S1 & S2 & S3 & S4 & S5 & S6 & S7 & S8 & S9 & S10 & S11 & S12 & S13 & S14).
    destruct Hd as (init & Hd & Ht & Hm & Hmic). rewrite S10, Hraw. cbn [negb].
    eapply run_try; [exact Hd|]. cbn iota. rs. unfold Acceptor.start_spnego. rs.
    cbn [Acceptor.config_ Acceptor.with_mech_types_der Acceptor.with_spnego]. rewrite S1, Ht. cbn [Acceptor.choose].
    rewrite S14. cbn [Z.eqb negb]. rs. rewrite Hm. rewrite Hmic.
    match goal with |- runs _ _ ?s1 => apply (HQ s1) end; [|exact S6]. split; cbn; done.
  - destruct Hs as [Hs Ho]. rewrite (as_mech _ _ _ Hs). unfold Acceptor.continue_negotiation. rs.
    rewrite (as_spnego _ _ _ Hs). apply run_bind. unfold Acceptor.read_resp. apply run_bind.
    eapply run_try; [exact Hd|]. cbn [Spnego.neg_state Spnego.response_token]. rewrite bool_decide_false by done. rs.
    by apply HQ.
Qed.

Lemma step_mech_runs s ca token out complete ca' (f : Step -> P A unit) Q :
  Acceptor.mech_ s = Some ca -> step ca token = (Ok (mkStep out complete), ca') ->
  runs (f (mkStep out complete)) Q (Acceptor.with_mech (Some ca') s) -> runs (pbind (Acceptor.step_mech token) f) Q s.
Proof.
  intros Hm Hs Hr. apply run_bind. unfold Acceptor.step_mech. eapply a_call; [exact Hm|exact Hs|].
  unfold runs, wp, ptry, pret. exact Hr.
Qed.

Lemma a_state_mech ph ca ca' s : a_state ph ca s -> a_state ph ca' (Acceptor.with_mech (Some ca') s).
Proof. by intros []. Qed.
Lemma a_state_output ph ca s e : a_state ph ca s -> a_state ph ca (Acceptor.with_output e s).
Proof. by intros []. Qed.
Lemma a_state_phase ph ph' ca s : a_state ph ca s -> a_state ph' ca (Acceptor.with_phase ph' s).
Proof. by intros []. Qed.

Lemma reply_encodes r :
  Spnego.resp_ok r = true -> olen (Spnego.response_token r) <= 40000 ->
  exists e, Spnego.encode_resp r = Some e /\ Spnego.decode e = Ok (Spnego.TokenResp r) /\ Spnego.is_raw_ntlm e = false /\
    len e <= 150 + olen (Spnego.response_token r) + olen (Spnego.mech_list_mic r).
Proof.
  intros Hr Ht. destruct (Spnego.decode_resp_token r Hr) as (e & He & Hd & Hn & _). exists e. split_and!; try done.
  destruct (Spnego.resp_size r) as (e' & He' & Hl).
  - unfold Spnego.resp_ok in Hr. destruct (Spnego.supported_mech r) as [oid|]; [|done]. bools.
    by apply (Spnego.oid_ok_spec oid 0).
  - lia.
  - unfold Spnego.resp_ok, Spnego.bounded, Spnego.max_mic_size in Hr. destruct (Spnego.mech_list_mic r); cbn [olen]; bools; lia.
  - assert (e' = e) as -> by congruence. done.
Qed.

(** A reply whose parts are within the limits. *)
Lemma reply_ok (st : option Spnego.NegState) first token :
  olen token <= 40000 -> Spnego.resp_ok (Spnego.mkResp st (supported first) token None) = true.
Proof.
  intros Ht. unfold Spnego.resp_ok, Spnego.bounded, Spnego.max_token_size.
  cbn [Spnego.supported_mech Spnego.response_token Spnego.mech_list_mic].
  assert (match supported first with Some oid => Spnego.oid_ok oid | None => true end = true) as -> by (by destruct first).
  destruct token as [x|]; cbn [olen] in Ht; [|done]. by rewrite (proj2 (Z.leb_le (len x) 48000)) by lia.
Qed.

(** The acceptor's moves.  It answers a token: *)
Definition answered (first : bool) (st : Spnego.NegState) (out : option (list byte)) (pub : option (list byte)) (s : A) : Prop :=
  exists bytes, a_sent [bytes] pub s /\
    Spnego.decode bytes = Ok (Spnego.TokenResp (Spnego.mkResp (Some st) (supported first) out None)).

Lemma a_goes_on first ca s bytes token pub out ca' :
  a_settled Acceptor.negotiate first ca s -> carries first bytes token ->
  step ca token = (Ok (mkStep out false), ca') -> len out <= 40000 ->
  runs (dispatch Acceptor.negotiate (i_request first [bytes] pub None))
    (fun _ s' => a_state Acceptor.negotiate ca' s' /\ answered first Spnego.accept_incomplete (Some out) None s') s.
Proof.
  intros Hs Hc Hst Hl. eapply a_reads; [exact Hs|exact Hc|]. clear s Hs. intros s Hs Ho. unfold a_continue.
  eapply step_mech_runs; [exact (as_mech _ _ _ Hs)|exact Hst|]. cbn [step_complete step_token].
  destruct (reply_encodes (Spnego.mkResp (Some Spnego.accept_incomplete) (supported first) (Some out) None)) as (e & He & Hd & _ & Hle);
    [by apply reply_ok|done|]. cbn [Spnego.response_token Spnego.mech_list_mic olen] in Hle.
  unfold Acceptor.send_reply. eapply run_lift; [exact He|].
  eapply (a_send _ [e] None); [exact (as_version _ _ _ Hs)|exact Ho|done..| |].
  - split_and!; [done| |done]. apply Forall_singleton. lia.
  - intros b Hb. split; [by apply a_state_output, (a_state_mech _ ca)|]. exists e. by split.
Qed.

(** It completes without the client's proof, and says so: *)
Lemma a_completes first ca s bytes token out ca' :
  a_settled Acceptor.negotiate first ca s -> carries first bytes token ->
  step ca token = (Ok (mkStep out true), ca') -> 0 < len out <= 40000 ->
  runs (dispatch Acceptor.negotiate (i_request first [bytes] None None))
    (fun _ s' => a_state Acceptor.pub_key_auth_ ca' s' /\ answered first Spnego.accept_completed (Some out) None s') s.
Proof.
  intros Hs Hc Hst Hl. eapply a_reads; [exact Hs|exact Hc|]. clear s Hs. intros s Hs Ho. unfold a_continue.
  eapply step_mech_runs; [exact (as_mech _ _ _ Hs)|exact Hst|]. cbn [step_complete step_token].
  pose proof (a_state_mech _ _ ca' _ Hs) as Hs'. set (s1 := Acceptor.with_mech (Some ca') s) in *.
  assert (Acceptor.output_ s1 = []) as Ho1 by exact Ho. clearbody s1. clear s Hs Ho.
  destruct (reply_encodes (Spnego.mkResp (Some Spnego.accept_completed) (supported first) (Some out) None)) as (e & He & Hd & _ & Hle);
    [apply reply_ok; cbn [olen]; lia|cbn [olen Spnego.response_token]; lia|]. cbn [Spnego.response_token Spnego.mech_list_mic olen] in Hle.
  unfold Acceptor.finish_negotiation. rs. rewrite (as_spnego _ _ _ Hs'). apply run_bind, run_bind.
  unfold Acceptor.exchange_mics. rs. rewrite (as_required _ _ _ Hs').
  assert (is_empty out = false) as Hout by (apply bool_decide_false; intros ->; by destruct Hl). rewrite Hout.
  cbn [andb orb negb is_some]. rs. rewrite (as_verified _ _ _ Hs').
  assert (Spnego.mech_list_mic (first_reply first) = None) as -> by (by destruct first).
  assert (Spnego.supported_mech (first_reply first) = supported first) as -> by (by destruct first). cbn [is_some orb]. rs.
  unfold runs at 1, wp, plift. rewrite He. rs. cbn [i_request pub_key_auth].
  eapply (a_send _ [e] None); [exact (as_version _ _ _ Hs')|exact Ho1|done..| |].
  - split_and!; [done| |done]. apply Forall_singleton. lia.
  - intros b Hb. split; [by eapply a_state_output, a_state_phase|]. exists e. by split.
Qed.

(** What each end wraps to prove that it sees, or holds, the key. *)
Definition proof_of_client : list byte := if 5 <=? agreed then client_to_server_hash sha256 nonce key else key.
Definition proof_of_server : list byte :=
  if 5 <=? agreed then server_to_client_hash sha256 nonce key else default [] (public_key_plus_one key).

Lemma plus_one_there : public_key_plus_one key = Some (default [] (public_key_plus_one key)).
Proof. pose proof (key_size match_) as Hk. revert Hk. destruct key; [by intros [? _]|done]. Qed.

Lemma proof_sizes : len proof_of_client <= 16000 /\ len proof_of_server <= 16000.
Proof.
  pose proof (key_size match_). unfold proof_of_client, proof_of_server, client_to_server_hash, server_to_client_hash.
  destruct (5 <=? agreed); [rewrite !(hash_size match_); lia|]. split; [lia|].
  rewrite (CredsspAcceptor.plus_one_size _ _ plus_one_there). lia.
Qed.

Lemma a_bindings (Q : list byte * list byte -> A -> Prop) s :
  (5 <= agreed -> Acceptor.nonce_ s = Some nonce) -> Q (proof_of_client, proof_of_server) s ->
  runs (Acceptor.bindings sha256 agreed (Acceptor.nonce_ s) key) Q s.
Proof.
  intros Hn HQ. unfold Acceptor.bindings, proof_of_client, proof_of_server in *. destruct (Z.leb_spec 5 agreed) as [H5|H5].
  - by rewrite (Hn H5).
  - eapply run_lift; [exact plus_one_there|exact HQ].
Qed.

Lemma a_answers ci ca w ci' s token :
  a_state Acceptor.pub_key_auth_ ca s -> Acceptor.output_ s = [] -> paired ci ca ->
  wrap_message ci proof_of_client = (w, ci') -> match token with Some x => len x <= 42000 | None => True end ->
  runs (Acceptor.answer_pub_key_auth sha256 w token)
    (fun _ s' => exists w' ca2 ci2, a_state Acceptor.credentials_phase ca2 s' /\ paired ci2 ca2 /\
       unwrap ci' w' = (Ok proof_of_server, ci2) /\
       a_sent (match token with Some x => [x] | None => [] end) (Some w') s') s.
Proof.
  intros Hs Ho Hp Hw Ht. destruct (to_acceptor _ is_pairing _ _ _ _ _ Hp Hw) as (_ & ca1 & Hu & Hp1).
  unfold Acceptor.answer_pub_key_auth. eapply a_call; [exact (as_mech _ _ _ Hs)|exact Hu|].
  eapply run_try; [done|]. rs. cbn [Acceptor.version_ Acceptor.nonce_ Acceptor.public_key_ Acceptor.with_mech].
  rewrite (as_version _ _ _ Hs), (as_key _ _ _ Hs). apply run_bind.
  apply (a_bindings _ (Acceptor.with_mech (Some ca1) s)); [exact (as_nonce _ _ _ Hs)|]. cbn iota.
  unfold equal_constant_time. rewrite bool_decide_true by done. cbn [negb].
  destruct (wrap_message ca1 proof_of_server) as [w' ca2] eqn:Ew.
  destruct (to_initiator _ is_pairing _ _ _ _ _ Hp1 Ew) as (Hl & ci2 & Hu2 & Hp2).
  eapply a_call; [done|exact Ew|]. rs. pose proof proof_sizes as [_ Hps].
  eapply (a_send _ (match token with Some x => [x] | None => [] end) (Some w')); [exact (as_version _ _ _ Hs)|exact Ho|done..| |].
  - split_and!; [by destruct token|destruct token; by constructor|cbn [olen]; lia].
  - intros e He. exists w', ca2, ci2. split_and!; [|done|done|exact He].
    apply a_state_output, (a_state_phase Acceptor.pub_key_auth_), (a_state_mech _ ca1), (a_state_mech _ ca), Hs.
Qed.

(** It completes with the client's proof: *)
Lemma a_completes_and_answers ci ca s bytes token w ci' ca' :
  a_settled Acceptor.negotiate false ca s -> carries false bytes token ->
  step ca token = (Ok (mkStep [] true), ca') -> paired ci ca' -> wrap_message ci proof_of_client = (w, ci') ->
  runs (dispatch Acceptor.negotiate (i_request false [bytes] (Some w) None))
    (fun _ s' => exists w' ca2 ci2, a_state Acceptor.credentials_phase ca2 s' /\ paired ci2 ca2 /\
       unwrap ci' w' = (Ok proof_of_server, ci2) /\ answered false Spnego.accept_completed None (Some w') s') s.
Proof.
  intros Hs Hc Hst Hp Hw. eapply a_reads; [exact Hs|exact Hc|]. clear s Hs. intros s Hs Ho. unfold a_continue.
  eapply step_mech_runs; [exact (as_mech _ _ _ Hs)|exact Hst|]. cbn [step_complete step_token].
  pose proof (a_state_mech _ _ ca' _ Hs) as Hs'. set (s1 := Acceptor.with_mech (Some ca') s) in *.
  assert (Acceptor.output_ s1 = []) as Ho1 by exact Ho. clearbody s1. clear s Hs Ho.
  destruct (reply_encodes (Spnego.mkResp (Some Spnego.accept_completed) None None None)) as (e & He & Hd & _ & Hle);
    [by apply (reply_ok _ false)|done|]. cbn [Spnego.response_token Spnego.mech_list_mic olen] in Hle.
  unfold Acceptor.finish_negotiation. rs. rewrite (as_spnego _ _ _ Hs'). apply run_bind, run_bind.
  unfold Acceptor.exchange_mics. rs. rewrite (as_required _ _ _ Hs'). cbn [andb orb negb is_some]. rs.
  rewrite (as_verified _ _ _ Hs'). cbn [first_reply no_resp Spnego.mech_list_mic is_some orb]. rs.
  unfold runs at 1, wp, plift. cbn [is_empty Spnego.supported_mech Spnego.response_token first_reply no_resp].
  unfold is_empty. rewrite bool_decide_true by done. cbn [negb]. rewrite He. rs. cbn [i_request pub_key_auth].
  unfold runs. eapply pwp_mono; [eapply (a_answers ci ca' w ci'); [by eapply a_state_phase|exact Ho1|exact Hp|exact Hw|lia]| |done].
  intros u s' (w' & ca2 & ci2 & Hst' & Hp2 & Hu & Hsent). exists w', ca2, ci2. split_and!; [done..|]. by exists e.
Qed.

(** The client's proof arrives on its own: *)
Lemma a_answers_alone ci ca s w ci' :
  a_settled Acceptor.pub_key_auth_ false ca s -> paired ci ca -> wrap_message ci proof_of_client = (w, ci') ->
  runs (dispatch Acceptor.pub_key_auth_ (i_request false [] (Some w) None))
    (fun _ s' => exists w' ca2 ci2, a_state Acceptor.credentials_phase ca2 s' /\ paired ci2 ca2 /\
       unwrap ci' w' = (Ok proof_of_server, ci2) /\ a_sent [] (Some w') s') s.
Proof.
  intros [Hs Ho] Hp Hw. cbn [dispatch]. unfold Acceptor.handle_pub_key_auth. cbn [i_request auth_info is_some nego_tokens pub_key_auth].
  unfold Acceptor.final_token. rs. rewrite (as_required _ _ _ Hs). cbn [andb].
  by apply (a_answers ci ca w ci' s None).
Qed.

(** The credentials arrive: *)
Lemma a_accepts ci ca s info ci' secret :
  a_settled Acceptor.credentials_phase false ca s -> paired ci ca ->
  encode_credentials (to_ts_credentials (Initiator.credentials ic)) = Some secret -> wrap_message ci secret = (info, ci') ->
  runs (dispatch Acceptor.credentials_phase (i_request false [] None (Some info)))
    (fun _ s' => Acceptor.status_ s' = PreAuth.succeeded /\ Acceptor.input_ s' = [] /\ Acceptor.output_ s' = [] /\
       Acceptor.credentials_ s' = Some (Initiator.credentials ic) /\
       exists ca', paired ci' ca' /\ Acceptor.identity_ s' = mech_identity ca') s.
Proof.
  intros [Hs Ho] Hp Hsec Hw. destruct (to_acceptor _ is_pairing _ _ _ _ _ Hp Hw) as (_ & ca1 & Hu & Hp1).
  destruct (credentials_delegated _ (credentials_plain match_)) as (p & Ep & Hpok & Eback).
  rewrite Ep in Hsec. destruct (ts_credentials_roundtrip p Hpok) as (e & He & _ & Hd).
  assert (e = secret) as -> by congruence.
  cbn [dispatch]. unfold Acceptor.handle_credentials. cbn [i_request auth_info].
  eapply a_call; [exact (as_mech _ _ _ Hs)|exact Hu|]. eapply run_try; [done|]. eapply run_try; [exact Hd|]. cbv iota zeta. rs.
  cbn [Acceptor.config_ Acceptor.with_mech]. rewrite (as_config _ _ _ Hs). eapply a_call; [done|done|]. cbn iota.
  pose proof (credentials_accepted match_ _ _ Hp1) as Hacc. rewrite Eback.
  assert (match Acceptor.accept_credentials ac with
    | Some accept => negb (accept (Initiator.credentials ic) (mech_identity ca1) (mechanism ca1)) | None => false end = false) as ->.
  { destruct (Acceptor.accept_credentials ac); [|done]. by rewrite Hacc. }
  unfold runs, wp, pmod. split_and!; [done|exact (as_input _ _ _ Hs)|exact Ho|done|]. by exists ca1.
Qed.

(** ** The initiator's moves *)

Definition i_sent (first : bool) (tokens : list (list byte)) (pub info : option (list byte)) (s : I) : Prop :=
  arrives (i_request first tokens pub info) (Initiator.output_ s).

Definition i_ok (tokens : list (list byte)) (pub info : option (list byte)) : Prop :=
  len tokens <= 1 /\ Forall (fun t => len t <= 42000) tokens /\
  ((olen pub <= 17100 /\ info = None) \/ (tokens = [] /\ pub = None /\ olen info <= 42000)).

Lemma i_request_arrives first tokens pub info : i_ok tokens pub info -> exists e, arrives (i_request first tokens pub info) e.
Proof.
  intros (Hl & Ht & Hp). pose proof (initiator_version match_) as Hv. unfold min_version in Hv.
  assert (len (concat tokens) <= 42000) as Hc.
  { destruct Ht as [|x xs Hx _]; [done|]. rewrite len_cons in Hl. destruct xs; [cbn; by rewrite app_nil_r|].
    rewrite len_cons in Hl. pose proof (len_nonneg xs). lia. }
  apply request_arrives; cbn [i_request version nego_tokens auth_info pub_key_auth olen]; [|done|].
  2: { destruct Hp as [[Hp ->]|(-> & -> & Hi)]; cbn [olen]; [lia|]. change (len (concat [])) with 0. lia. }
  unfold request_ok. cbn [i_request version nego_tokens auth_info pub_key_auth error_code client_nonce].
  unfold CredsspCodec.bounded, max_nego_tokens, max_field_size.
  assert (forallb (fun t : list byte => len t <=? 48000) tokens = true) as Hf.
  { apply forallb_forall. intros x Hx. rewrite List.Forall_forall in Ht. specialize (Ht x Hx). lia. }
  assert (match pub with Some x => len x <=? 48000 | None => true end = true) as Hpub.
  { destruct pub as [x|]; [|done]. destruct Hp as [[Hp _]|(_ & ? & _)]; [cbn [olen] in Hp; lia|done]. }
  assert (match info with Some x => len x <=? 48000 | None => true end = true) as Hinfo.
  { destruct info as [x|]; [|done]. destruct Hp as [[_ ?]|(_ & _ & Hi)]; [done|cbn [olen] in Hi; lia]. }
  rewrite Hf, Hpub, Hinfo. rewrite (proj2 (Z.leb_le 0 _)), (proj2 (Z.ltb_lt _ _)), (proj2 (Z.leb_le (len tokens) 4)) by lia.
  destruct (5 <=? _); [|done]. by rewrite nonce_sized.
Qed.

Lemma i_send message heard (first : bool) tokens pub info (Q : unit -> I -> Prop) (s : I) ph ci :
  i_state ph heard first ci s -> Initiator.output_ s = [] ->
  nego_tokens message = tokens -> auth_info message = info -> pub_key_auth message = pub -> error_code message = None ->
  client_nonce message = None -> i_ok tokens pub info ->
  (forall e, arrives (i_request (negb heard) tokens pub info) e -> Q tt (Initiator.with_output e s)) ->
  runs (Initiator.send message) Q s.
Proof.
  intros Hs Eo <- <- <- Ec En Hok HQ. destruct (i_request_arrives (negb heard) _ _ _ Hok) as (e & He).
  unfold Initiator.send. rs. apply (run_lift _ _ _ _ e).
  { rewrite (is_config _ _ _ _ _ Hs), (is_version _ _ _ _ _ Hs), (is_nonce _ _ _ _ _ Hs), Ec, En.
    destruct He as [He _]. by destruct heard. }
  unfold runs, wp, pmod. rewrite Eo. by apply HQ.
Qed.

Lemma i_call {B X} (g : CI -> B * CI) (f : B -> P I X) Q s b c' :
  g (Initiator.mech_ s) = (b, c') -> runs (f b) Q (Initiator.with_mech c' s) -> runs (pbind (Initiator.on_mech g) f) Q s.
Proof. intros Hg Hr. unfold runs, wp, pbind, Initiator.on_mech. by rewrite Hg. Qed.

Definition i_dispatch (ph : Initiator.Phase) (r : TsRequest) : P I unit :=
  match ph with
  | Initiator.negotiate => Initiator.handle_negotiate sha256 r
  | Initiator.final_token_ => Initiator.handle_final_token sha256 r
  | Initiator.pub_key_auth_ => Initiator.handle_pub_key_auth sha256 r
  | Initiator.done_ => reject "TSRequest after the handshake ended"
  end.

Lemma i_dispatches ph heard first ci tokens pub (Q : unit -> I -> Prop) s :
  i_state ph heard first ci s -> Initiator.output_ s = [] ->
  (forall s', i_state ph true first ci s' -> Initiator.output_ s' = [] -> runs (i_dispatch ph (a_request tokens pub)) Q s') ->
  runs (Initiator.handle sha256 (a_request tokens pub)) Q s.
Proof.
  intros Hs Ho HQ. pose proof agreed_range as Ha. unfold min_version in *. unfold Initiator.handle. cbn [a_request error_code].
  assert (exists s', Initiator.check_version (a_request tokens pub) s = Some (inl tt, s') /\ i_state ph true first ci s' /\
    Initiator.output_ s' = []) as (s' & Ec & Hs' & Ho').
  { unfold Initiator.check_version, pbind, pget. rewrite (is_server _ _ _ _ _ Hs). destruct heard.
    - destruct (Z.eqb_spec agreed 0); [lia|]. by exists s.
    - cbn [Z.eqb a_request version]. unfold min_version. destruct (Z.ltb_spec agreed 2); [lia|]. eexists. split; [done|].
      split; [|exact Ho]. destruct Hs as [S1 S2 S3 S4 S5 S6 S7 S8 S9 S10 S11 S12]. split; cbn; try done.
      rewrite S1. unfold agreed. lia. }
  eapply run_unit_bind; [exact Ec|]. rs. rewrite (is_phase _ _ _ _ _ Hs'). by apply HQ.
Qed.

Lemma i_state_mech ph heard first ci ci' s : i_state ph heard first ci s -> i_state ph heard first ci' (Initiator.with_mech ci' s).
Proof. by intros []. Qed.
Lemma i_state_output ph heard first ci s e : i_state ph heard first ci s -> i_state ph heard first ci (Initiator.with_output e s).
Proof. by intros []. Qed.
Lemma i_state_phase ph ph' heard first ci s : i_state ph heard first ci s -> i_state ph' heard first ci (Initiator.with_phase ph' s).
Proof. by intros []. Qed.
Lemma i_state_first ph heard first ci s : i_state ph heard first ci s -> i_state ph heard false ci (Initiator.with_first_reply false s).
Proof. by intros []. Qed.

(** Reading an answer of the acceptor, up to the step of the mechanism. *)
Definition i_continue (token : list byte) : P I unit :=
  let+ next := Initiator.on_mech (fun c => step c token) in
  let+ next := ptry "security mechanism failed" next in
  Initiator.send_step sha256 next.

Lemma i_reads heard (first : bool) ci s bytes st token Q :
  i_state Initiator.negotiate heard first ci s -> Initiator.output_ s = [] -> (first = true -> mechanism ci = own) ->
  Spnego.decode bytes = Ok (Spnego.TokenResp (Spnego.mkResp (Some st) (supported first) (Some token) None)) ->
  st = Spnego.accept_incomplete \/ st = Spnego.accept_completed ->
  (forall s', i_state Initiator.negotiate heard false ci s' -> Initiator.output_ s' = [] -> runs (i_continue token) Q s') ->
  runs (i_dispatch Initiator.negotiate (a_request [bytes] None)) Q s.
Proof.
  intros Hs Ho Hown Hd Hst HQ. cbn [i_dispatch]. unfold Initiator.handle_negotiate. cbn [a_request nego_tokens]. rs.
  rewrite (is_config _ _ _ _ _ Hs), (spnego_on match_). apply run_bind, run_bind. unfold Initiator.read_reply.
  eapply run_try; [exact Hd|]. cbn [Spnego.neg_state]. rewrite bool_decide_false by (by destruct Hst as [->| ->]).
  assert (exists s', Initiator.check_first_reply (Spnego.mkResp (Some st) (supported first) (Some token) None) s = Some (inl tt, s') /\
    i_state Initiator.negotiate heard false ci s' /\ Initiator.output_ s' = []) as (s' & Ec & Hs' & Ho').
  { unfold Initiator.check_first_reply, pbind, pget. rewrite (is_first _ _ _ _ _ Hs). destruct first.
    - exists (Initiator.with_first_reply false s). split; [|by split; [eapply i_state_first|]].
      cbn [pmod Spnego.neg_state supported Spnego.supported_mech]. rewrite bool_decide_false by done.
      cbn [Initiator.mech_ Initiator.with_first_reply]. rewrite (is_mech _ _ _ _ _ Hs), Hown, bool_decide_true by done.
      cbn [pret]. rewrite bool_decide_false by (by destruct Hst as [->| ->]). done.
    - by exists s. }
  eapply run_unit_bind; [exact Ec|]. apply run_bind. unfold Initiator.mech_input. rs.
  rewrite (is_pending _ _ _ _ _ Hs'). cbn [Spnego.response_token]. rs.
  specialize (HQ s' Hs' Ho'). unfold i_continue in HQ.
  revert HQ. unfold runs, wp, pbind, Initiator.on_mech, ptry. cbn [Spnego.mech_list_mic].
  destruct (step (Initiator.mech_ s') token) as [[r|e] c']; done.
Qed.

Lemma token_encodes token :
  len token <= 40000 ->
  exists e, Spnego.encode_resp (Spnego.mkResp None None (Some token) None) = Some e /\ carries false e token /\ len e <= 40150.
Proof.
  intros Hl. destruct (reply_encodes (Spnego.mkResp None None (Some token) None)) as (e & He & Hd & Hr & Hle);
    [by apply (reply_ok None false)|done|]. cbn [Spnego.response_token Spnego.mech_list_mic olen] in Hle.
  exists e. split_and!; [done|by split|lia].
Qed.

Lemma i_goes_on ci s token out ci' :
  i_state Initiator.negotiate true false ci s -> Initiator.output_ s = [] ->
  step ci token = (Ok (mkStep out false), ci') -> len out <= 40000 ->
  runs (i_continue token) (fun _ s' => i_state Initiator.negotiate true false ci' s' /\
    exists e, i_sent false [e] None None s' /\ carries false e out) s.
Proof.
  intros Hs Ho Hst Hl. unfold i_continue. rewrite <- (is_mech _ _ _ _ _ Hs) in Hst. eapply i_call; [exact Hst|].
  eapply run_try; [done|]. unfold Initiator.send_step. rs. cbn [step_complete negb step_token].
  cbn [Initiator.config_ Initiator.with_mech]. rewrite (is_config _ _ _ _ _ Hs), (spnego_on match_).
  destruct (token_encodes out Hl) as (e & He & Hc & Hle). eapply run_lift; [exact He|].
  pose proof (i_state_mech _ _ _ _ ci' _ Hs) as Hs'.
  eapply (i_send _ true false [e] None None); [exact Hs'|exact Ho|done..| |].
  - split_and!; [done|apply Forall_singleton; lia|by left].
  - intros b Hb. split; [by apply i_state_output|]. exists e. by split.
Qed.

Lemma i_completes ci s token out ci' w ci2 :
  i_state Initiator.negotiate true false ci s -> Initiator.output_ s = [] ->
  step ci token = (Ok (mkStep out true), ci') -> len out <= 40000 -> wrap_message ci' proof_of_client = (w, ci2) ->
  len w <= 17024 ->
  runs (i_continue token) (fun _ s' => i_state Initiator.pub_key_auth_ true false ci2 s' /\
    if is_empty out then i_sent false [] (Some w) None s' else exists e, i_sent false [e] (Some w) None s' /\ carries false e out) s.
Proof.
  intros Hs Ho Hst Hl Hw Hlw. unfold i_continue. rewrite <- (is_mech _ _ _ _ _ Hs) in Hst. eapply i_call; [exact Hst|].
  eapply run_try; [done|]. unfold Initiator.send_step. rs. cbn [step_complete negb step_token].
  pose proof (i_state_mech _ _ _ _ ci' _ Hs) as Hs'. set (s1 := Initiator.with_mech ci' s) in *.
  assert (Initiator.output_ s1 = []) as Ho1 by exact Ho. clearbody s1. clear s Hs Ho Hst.
  rewrite (is_config _ _ _ _ _ Hs'), (spnego_on match_). cbn [negb]. rs. rewrite (is_required _ _ _ _ _ Hs'). rs.
  rewrite (is_verified _ _ _ _ _ Hs'). cbn [is_some orb andb]. rs.
  assert (forall tokens message, nego_tokens message = tokens -> auth_info message = None -> error_code message = None ->
    client_nonce message = None -> len tokens <= 1 -> Forall (fun t => len t <= 42000) tokens ->
    runs (Initiator.send_pub_key_auth sha256 message) (fun _ s' => i_state Initiator.pub_key_auth_ true false ci2 s' /\
      i_sent false tokens (Some w) None s') s1) as Hsend.
  { intros tokens message <- Ea Ec En Hlt Ht. unfold Initiator.send_pub_key_auth. rs.
    rewrite (is_version _ _ _ _ _ Hs'), (is_nonce _ _ _ _ _ Hs'), (is_config _ _ _ _ _ Hs').
    eapply i_call; [rewrite (is_mech _ _ _ _ _ Hs'); exact Hw|]. rs.
    eapply (i_send _ true false (nego_tokens message) (Some w) None);
      [by eapply i_state_phase, i_state_mech|exact Ho1|done|done|done|done|done| |].
    - split_and!; [done|done|]. left. cbn [olen]. split; [lia|done].
    - intros b Hb. split; [|exact Hb]. by eapply i_state_output, i_state_phase, i_state_mech. }
  destruct (is_empty out) eqn:Ee; cbn [negb is_some orb].
  - rs. by apply (Hsend []).
  - destruct (token_encodes out Hl) as (e & He & Hc & Hle). apply run_bind. eapply run_lift; [exact He|]. rs.
    unfold runs. eapply pwp_mono; [apply (Hsend [e]); try done; by constructor; [lia|]| |done].
    intros u s' [Hst' Hsent]. split; [done|]. exists e. by split.
Qed.

(** The server's proof arrives, with or without its last token. *)
Definition last_token (tokens : list (list byte)) : Prop :=
  tokens = [] \/ exists bytes, tokens = [bytes] /\
    Spnego.decode bytes = Ok (Spnego.TokenResp (Spnego.mkResp (Some Spnego.accept_completed) None None None)).

Lemma i_closing tokens s ci (f : unit -> P I unit) Q :
  i_state Initiator.pub_key_auth_ true false ci s -> last_token tokens -> runs (f tt) Q s ->
  runs (pbind (Initiator.closing_token tokens) f) Q s.
Proof.
  intros Hs Hl Hr. eapply run_unit_bind; [|exact Hr]. destruct Hl as [->|(bytes & -> & Hd)]; [done|].
  unfold Initiator.closing_token, pbind, pget, ptry. rewrite (is_config _ _ _ _ _ Hs), (spnego_on match_), Hd.
  cbn [negb orb pret Spnego.neg_state Spnego.response_token Spnego.mech_list_mic].
  change (len [bytes]) with 1. cbn [Z.eqb negb]. by rewrite bool_decide_true by done.
Qed.

Lemma expected_is_proof : Initiator.expected_binding sha256 agreed nonce key = Some proof_of_server.
Proof.
  unfold Initiator.expected_binding, proof_of_server. destruct (5 <=? agreed); [done|]. exact plus_one_there.
Qed.

Lemma i_delivers ci ca ci2 s tokens w secret :
  i_state Initiator.pub_key_auth_ true false ci s -> Initiator.output_ s = [] -> last_token tokens ->
  unwrap ci w = (Ok proof_of_server, ci2) -> paired ci2 ca ->
  encode_credentials (to_ts_credentials (Initiator.credentials ic)) = Some secret ->
  runs (i_dispatch Initiator.pub_key_auth_ (a_request tokens (Some w)))
    (fun _ s' => Initiator.status_ s' = PreAuth.succeeded /\ Initiator.input_ s' = [] /\
       exists info ci3, i_sent false [] None (Some info) s' /\ wrap_message ci2 secret = (info, ci3)) s.
Proof.
  intros Hs Ho Hl Hu Hp Hsec. cbn [i_dispatch]. unfold Initiator.handle_pub_key_auth. cbn [a_request nego_tokens pub_key_auth].
  eapply i_closing; [exact Hs|exact Hl|]. rs. rewrite (is_required _ _ _ _ _ Hs). cbn [andb].
  apply run_bind. unfold Initiator.check_server_key. eapply i_call; [rewrite (is_mech _ _ _ _ _ Hs); exact Hu|].
  eapply run_try; [done|]. rs. cbn [Initiator.version_ Initiator.nonce_ Initiator.config_ Initiator.with_mech].
  rewrite (is_version _ _ _ _ _ Hs), (is_nonce _ _ _ _ _ Hs), (is_config _ _ _ _ _ Hs).
  eapply run_lift; [exact expected_is_proof|]. unfold equal_constant_time. rewrite bool_decide_true by done. cbn [negb]. rs.
  cbn [Initiator.config_ Initiator.with_mech]. rewrite (is_config _ _ _ _ _ Hs). eapply run_lift; [exact Hsec|].
  destruct (wrap_message ci2 secret) as [info ci3] eqn:Ew. eapply i_call; [exact Ew|]. rs.
  pose proof (credentials_size match_) as Hcs. rewrite Hsec in Hcs.
  destruct (to_acceptor _ is_pairing _ _ _ _ _ Hp Ew) as (Hlw & _).
  destruct (i_request_arrives false [] None (Some info)) as (e & He).
  { split_and!; [done|done|]. right. split_and!; [done|done|cbn [olen]; lia]. }
  unfold Initiator.send. rs. eapply (run_lift _ _ _ _ e).
  { cbn [Initiator.config_ Initiator.version_ Initiator.nonce_ Initiator.with_status Initiator.with_phase Initiator.with_mech
      with_auth nego_tokens auth_info pub_key_auth error_code client_nonce request_of].
    rewrite (is_config _ _ _ _ _ Hs), (is_version _ _ _ _ _ Hs), (is_nonce _ _ _ _ _ Hs). exact (proj1 He). }
  unfold runs, wp, pmod. split_and!; [done|exact (is_input _ _ _ _ _ Hs)|]. exists info, ci3. split; [|done].
  unfold i_sent. cbn. by rewrite Ho.
Qed.

(** ** The dialog *)

(** The initiator has a token ready that the acceptor will take. *)
Definition under_way (first : bool) (ci : CI) (token : list byte) (ca : CA) (ends : I * A) : Prop :=
  i_state Initiator.negotiate (negb first) first ci (Initiator.with_output [] (fst ends)) /\ (first = true -> mechanism ci = own) /\
  (exists bytes, i_sent first [bytes] None None (fst ends) /\ carries first bytes token) /\ a_ready first ca (snd ends).

(** Both have succeeded and nothing is left to say. *)
Definition agreed_on_credentials (ends : I * A) : Prop :=
  Initiator.status_ (fst ends) = PreAuth.succeeded /\ Initiator.output_ (fst ends) = [] /\
  Acceptor.status_ (snd ends) = PreAuth.succeeded /\ Acceptor.output_ (snd ends) = [] /\
  Acceptor.credentials_ (snd ends) = Some (Initiator.credentials ic) /\
  exists ci ca, paired ci ca /\ Acceptor.identity_ (snd ends) = mech_identity ca.

(** Both ends deliver what they have to say to the other. *)
Definition round (ends : I * A) : option (I * A) :=
  let (o, i) := Initiator.take_output (fst ends) in
  a ← Acceptor.receive sha256 o (snd ends);
  let (o', a) := Acceptor.take_output a in
  i ← Initiator.receive sha256 o' i;
  Some (i, a).

Fixpoint rounds (n : nat) (ends : I * A) : option (I * A) :=
  match n with O => Some ends | S n' => ends' ← round ends; rounds n' ends' end.

Lemma receive_nothing (i : I) : Initiator.status_ i = PreAuth.succeeded ->
  Initiator.receive sha256 [] i = Some i.
Proof. intros E. unfold Initiator.receive. rewrite E. rewrite app_nil_r. by destruct i. Qed.

(** A round in which each end has one request for the other. *)
Lemma round_runs i a r (Qa : A -> Prop) (Qi : A -> I -> Prop) :
  Initiator.status_ i = PreAuth.in_progress -> Initiator.input_ i = [] -> arrives r (Initiator.output_ i) ->
  Acceptor.status_ a = PreAuth.in_progress -> Acceptor.input_ a = [] ->
  runs (Acceptor.handle sha256 r) (fun _ a' => Acceptor.input_ a' = [] /\ Acceptor.status_ a' = PreAuth.in_progress /\ Qa a') a ->
  (forall a', Qa a' -> exists r', arrives r' (Acceptor.output_ a') /\
     runs (Initiator.handle sha256 r') (fun _ i' => Initiator.input_ i' = [] /\ Qi a' i') (Initiator.with_output [] i)) ->
  exists i' a', round (i, a) = Some (settle_i i', Acceptor.with_output [] a') /\ Qa a' /\ Qi a' i'.
Proof.
  intros Es Ei Ha Es' Ei' Hra Hri.
  destruct (deliver_a a r (Initiator.output_ i) (fun a' => Acceptor.status_ a' = PreAuth.in_progress /\ Qa a') Es' Ei' Ha Hra)
    as (a' & Ea & Ea' & HQ).
  destruct (Hri a' HQ) as (r' & Hr' & Hi).
  destruct (deliver_i (Initiator.with_output [] i) r' (Acceptor.output_ a') (Qi a') Es Ei Hr' Hi) as (i' & Eri & HQi).
  exists i', a'. split; [|done]. unfold round. cbn [fst snd Initiator.take_output]. rewrite Ea. cbn [mbind option_bind].
  assert (settle_a a' = a') as -> by (unfold settle_a; by rewrite Ea'). cbn [Acceptor.take_output].
  rewrite Eri. done.
Qed.

Lemma a_ready_start first ca s : a_ready first ca s ->
  Acceptor.status_ s = PreAuth.in_progress /\ Acceptor.input_ s = [] /\
  (if first then Acceptor.negotiate = Acceptor.negotiate /\ a_fresh ca s else a_state Acceptor.negotiate ca s /\ Acceptor.output_ s = []).
Proof.
  destruct first; cbn [a_ready].
  - intros [Hm Hf]. pose proof Hm as Hm'. unfold Acceptor.make in Hm'. destruct (_ && _); [|done]. injection Hm' as <-. done.
  - intros [Hs Ho]. split_and!; [exact (as_status _ _ _ Hs)|exact (as_input _ _ _ Hs)|done|done].
Qed.

(** What remains of an initiator's state when its output is taken. *)
Lemma i_state_sent ph heard first ci i :
  i_state ph heard first ci (Initiator.with_output [] i) -> Initiator.status_ i = PreAuth.in_progress /\ Initiator.input_ i = [].
Proof. intros Hs. split; [exact (is_status _ _ _ _ _ Hs)|exact (is_input _ _ _ _ _ Hs)]. Qed.

Lemma settle_in_progress i : Initiator.status_ i = PreAuth.in_progress -> settle_i i = i.
Proof. intros E. unfold settle_i. by rewrite E. Qed.

(** Neither end completes: the dialog goes on. *)
Lemma round_goes_on first ci token ca token2 ca' token3 ci' ends :
  under_way first ci token ca ends ->
  step ca token = (Ok (mkStep token2 false), ca') -> step ci token2 = (Ok (mkStep token3 false), ci') ->
  len token2 <= 40000 -> len token3 <= 40000 ->
  exists ends', round ends = Some ends' /\ under_way false ci' token3 ca' ends'.
Proof.
  destruct ends as [i a]. intros (Hi & Hown & (bytes & Hsent & Hc) & Ha) Hsa Hsi Hl2 Hl3. cbn [fst snd] in *.
  destruct (i_state_sent _ _ _ _ _ Hi) as [Es Ei]. destruct (a_ready_start _ _ _ Ha) as (Es' & Ei' & Hst).
  destruct (round_runs i a (i_request first [bytes] None None)
    (fun a' => a_state Acceptor.negotiate ca' a' /\ answered first Spnego.accept_incomplete (Some token2) None a')
    (fun _ i' => i_state Initiator.negotiate true false ci' i' /\ exists e, i_sent false [e] None None i' /\ carries false e token3))
    as (i' & a' & Er & [Ha' _] & Hi' & e & Hsent' & Hc'); [done|done|exact Hsent|done|done| | |].
  - eapply a_dispatch; [exact Hst|]. intros s Hs. unfold runs. eapply pwp_mono; [by eapply a_goes_on| |done].
    intros u a' [Ha' Hans]. split_and!; [exact (as_input _ _ _ Ha')|exact (as_status _ _ _ Ha')|done|done].
  - intros a' [Ha' (reply & Hsent' & Hd)]. exists (a_request [reply] None). split; [exact Hsent'|].
    eapply i_dispatches; [exact Hi|done|]. intros s Hs Ho. eapply i_reads; [exact Hs|exact Ho|exact Hown|exact Hd|by left|].
    clear s Hs Ho. intros s Hs Ho. unfold runs. eapply pwp_mono; [by eapply i_goes_on| |done].
    intros u i' [Hi' Hx]. split_and!; [exact (is_input _ _ _ _ _ Hi')|done|done].
  - exists (settle_i i', Acceptor.with_output [] a'). split; [exact Er|].
    rewrite settle_in_progress by exact (is_status _ _ _ _ _ Hi'). split_and!; [by apply i_state_output|done| |by split; [apply a_state_output|]].
    by exists e.
Qed.

(** The initiator has sent its proof, with its last token or alone. *)
Definition proving (ci : CI) (ca : CA) (ends : I * A) : Prop :=
  exists ci0 w, wrap_message ci0 proof_of_client = (w, ci) /\
    i_state Initiator.pub_key_auth_ true false ci (Initiator.with_output [] (fst ends)) /\
    ((exists bytes token ca1, i_sent false [bytes] (Some w) None (fst ends) /\ carries false bytes token /\
        step ca token = (Ok (mkStep [] true), ca1) /\ paired ci0 ca1 /\ a_ready false ca (snd ends)) \/
     (i_sent false [] (Some w) None (fst ends) /\ paired ci0 ca /\
        a_state Acceptor.pub_key_auth_ ca (snd ends) /\ Acceptor.output_ (snd ends) = [])).

(** The initiator has sent the credentials. *)
Definition delivering (ends : I * A) : Prop :=
  exists ci ca info ci' secret,
    Initiator.status_ (fst ends) = PreAuth.succeeded /\ i_sent false [] None (Some info) (fst ends) /\
    encode_credentials (to_ts_credentials (Initiator.credentials ic)) = Some secret /\
    wrap_message ci secret = (info, ci') /\ paired ci ca /\
    a_state Acceptor.credentials_phase ca (snd ends) /\ Acceptor.output_ (snd ends) = [].

Lemma round_initiator_completes first ci token ca token2 ca' token3 ci' ca2 ends :
  under_way first ci token ca ends ->
  step ca token = (Ok (mkStep token2 false), ca') -> step ci token2 = (Ok (mkStep token3 true), ci') ->
  len token2 <= 40000 -> 0 < len token3 <= 40000 ->
  step ca' token3 = (Ok (mkStep [] true), ca2) -> paired ci' ca2 ->
  exists ends' ci2, round ends = Some ends' /\ proving ci2 ca' ends'.
Proof.
  destruct ends as [i a]. intros (Hi & Hown & (bytes & Hsent & Hc) & Ha) Hsa Hsi Hl2 Hl3 Hsa2 Hp. cbn [fst snd] in *.
  destruct (i_state_sent _ _ _ _ _ Hi) as [Es Ei]. destruct (a_ready_start _ _ _ Ha) as (Es' & Ei' & Hst).
  destruct (wrap_message ci' proof_of_client) as [w ci2] eqn:Ew.
  destruct (to_acceptor _ is_pairing _ _ _ _ _ Hp Ew) as [Hlw _]. pose proof proof_sizes as [Hps _].
  destruct (round_runs i a (i_request first [bytes] None None)
    (fun a' => a_state Acceptor.negotiate ca' a' /\ answered first Spnego.accept_incomplete (Some token2) None a')
    (fun _ i' => i_state Initiator.pub_key_auth_ true false ci2 i' /\ exists e, i_sent false [e] (Some w) None i' /\ carries false e token3))
    as (i' & a' & Er & [Ha' _] & Hi' & e & Hsent' & Hc'); [done|done|exact Hsent|done|done| | |].
  - eapply a_dispatch; [exact Hst|]. intros s Hs. unfold runs. eapply pwp_mono; [by eapply a_goes_on| |done].
    intros u a' [Ha' Hans]. split_and!; [exact (as_input _ _ _ Ha')|exact (as_status _ _ _ Ha')|done|done].
  - intros a' [Ha' (reply & Hsent' & Hd)]. exists (a_request [reply] None). split; [exact Hsent'|].
    eapply i_dispatches; [exact Hi|done|]. intros s Hs Ho. eapply i_reads; [exact Hs|exact Ho|exact Hown|exact Hd|by left|].
    clear s Hs Ho. intros s Hs Ho. unfold runs. eapply pwp_mono; [eapply i_completes; try done; lia| |done].
    assert (is_empty token3 = false) as -> by (apply bool_decide_false; intros ->; by destruct Hl3).
    intros u i' [Hi' Hx]. split_and!; [exact (is_input _ _ _ _ _ Hi')|done|done].
  - exists (settle_i i', Acceptor.with_output [] a'), ci2. split; [exact Er|].
    rewrite settle_in_progress by exact (is_status _ _ _ _ _ Hi'). exists ci', w. split; [exact Ew|].
    split; [by apply i_state_output|]. left. exists e, token3, ca2. split_and!; [done..|]. by split; [apply a_state_output|].
Qed.

Lemma round_acceptor_completes first ci token ca token2 ca' ci' ends :
  under_way first ci token ca ends ->
  step ca token = (Ok (mkStep token2 true), ca') -> 0 < len token2 <= 40000 ->
  step ci token2 = (Ok (mkStep [] true), ci') -> paired ci' ca' ->
  exists ends' ci2, round ends = Some ends' /\ proving ci2 ca' ends'.
Proof.
  destruct ends as [i a]. intros (Hi & Hown & (bytes & Hsent & Hc) & Ha) Hsa Hl2 Hsi Hp. cbn [fst snd] in *.
  destruct (i_state_sent _ _ _ _ _ Hi) as [Es Ei]. destruct (a_ready_start _ _ _ Ha) as (Es' & Ei' & Hst).
  destruct (wrap_message ci' proof_of_client) as [w ci2] eqn:Ew.
  destruct (to_acceptor _ is_pairing _ _ _ _ _ Hp Ew) as [Hlw _]. pose proof proof_sizes as [Hps _].
  destruct (round_runs i a (i_request first [bytes] None None)
    (fun a' => a_state Acceptor.pub_key_auth_ ca' a' /\ answered first Spnego.accept_completed (Some token2) None a')
    (fun _ i' => i_state Initiator.pub_key_auth_ true false ci2 i' /\ i_sent false [] (Some w) None i'))
    as (i' & a' & Er & [Ha' _] & Hi' & Hsent'); [done|done|exact Hsent|done|done| | |].
  - eapply a_dispatch; [exact Hst|]. intros s Hs. unfold runs. eapply pwp_mono; [by eapply a_completes| |done].
    intros u a' [Ha' Hans]. split_and!; [exact (as_input _ _ _ Ha')|exact (as_status _ _ _ Ha')|done|done].
  - intros a' [Ha' (reply & Hsent' & Hd)]. exists (a_request [reply] None). split; [exact Hsent'|].
    eapply i_dispatches; [exact Hi|done|]. intros s Hs Ho. eapply i_reads; [exact Hs|exact Ho|exact Hown|exact Hd|by right|].
    clear s Hs Ho. intros s Hs Ho. unfold runs. eapply pwp_mono; [eapply i_completes; try done; lia| |done].
    assert (is_empty [] = true) as -> by (by apply bool_decide_true).
    intros u i' [Hi' Hx]. split_and!; [exact (is_input _ _ _ _ _ Hi')|done|done].
  - exists (settle_i i', Acceptor.with_output [] a'), ci2. split; [exact Er|].
    rewrite settle_in_progress by exact (is_status _ _ _ _ _ Hi'). exists ci', w. split; [exact Ew|].
    split; [by apply i_state_output|]. right. split_and!; [done|done|by apply a_state_output|done].
Qed.

(** The proofs are exchanged and the credentials leave. *)
Lemma round_proves ci ca ends : proving ci ca ends -> exists ends', round ends = Some ends' /\ delivering ends'.
Proof.
  destruct ends as [i a]. intros (ci0 & w & Hw & Hi & Hcase). cbn [fst snd] in *.
  destruct (i_state_sent _ _ _ _ _ Hi) as [Es Ei].
  assert (exists secret, encode_credentials (to_ts_credentials (Initiator.credentials ic)) = Some secret) as [secret Hsec].
  { pose proof (credentials_size match_) as Hc. destruct (encode_credentials _) as [secret|]; [by exists secret|done]. }
  assert (exists r tokens, arrives r (Initiator.output_ i) /\ Acceptor.status_ a = PreAuth.in_progress /\ Acceptor.input_ a = [] /\
    last_token tokens /\
    runs (Acceptor.handle sha256 r) (fun _ a' => Acceptor.input_ a' = [] /\ Acceptor.status_ a' = PreAuth.in_progress /\
      exists w' ca2 ci2 tokens, a_state Acceptor.credentials_phase ca2 a' /\ paired ci2 ca2 /\ unwrap ci w' = (Ok proof_of_server, ci2) /\
        last_token tokens /\ a_sent tokens (Some w') a') a) as (r & _ & Hr & Es' & Ei' & _ & Hrun).
  { destruct Hcase as [(bytes & token & ca1 & Hsent & Hc & Hst & Hp & Ha)|(Hsent & Hp & Ha & Ho)].
    - destruct Ha as [Ha Ho]. exists (i_request false [bytes] (Some w) None), []. split; [exact Hsent|].
      split_and!; [exact (as_status _ _ _ Ha)|exact (as_input _ _ _ Ha)|by left|].
      eapply (a_dispatch Acceptor.negotiate false ca); [done|]. intros s Hs. unfold runs.
      eapply pwp_mono; [by eapply a_completes_and_answers| |done].
      intros u a' (w' & ca2 & ci2 & Ha' & Hp2 & Hu & e & He & Hd).
      split_and!; [exact (as_input _ _ _ Ha')|exact (as_status _ _ _ Ha')|]. exists w', ca2, ci2, [e].
      split_and!; [done..| |done]. right. by exists e.
    - exists (i_request false [] (Some w) None), []. split; [exact Hsent|].
      split_and!; [exact (as_status _ _ _ Ha)|exact (as_input _ _ _ Ha)|by left|].
      eapply (a_dispatch Acceptor.pub_key_auth_ false ca); [done|]. intros s Hs. unfold runs.
      eapply pwp_mono; [by eapply a_answers_alone| |done].
      intros u a' (w' & ca2 & ci2 & Ha' & Hp2 & Hu & He).
      split_and!; [exact (as_input _ _ _ Ha')|exact (as_status _ _ _ Ha')|]. exists w', ca2, ci2, [].
      split_and!; [done..|by left|done]. }
  destruct (round_runs i a r _
    (fun a' i' => Initiator.status_ i' = PreAuth.succeeded /\ exists ci2 ca2 info ci3, i_sent false [] None (Some info) i' /\
       wrap_message ci2 secret = (info, ci3) /\ paired ci2 ca2 /\ a_state Acceptor.credentials_phase ca2 a')
    Es Ei Hr Es' Ei' Hrun) as (i' & a' & Er & _ & Hs & ci2 & ca2 & info & ci3 & Hsent & Ew & Hp & Ha').
  - intros a' (w' & ca2 & ci2 & tokens & Ha' & Hp & Hu & Hl & Hsent). exists (a_request tokens (Some w')). split; [exact Hsent|].
    eapply i_dispatches; [exact Hi|done|]. intros s Hs Ho. unfold runs. eapply pwp_mono; [by eapply i_delivers| |done].
    intros u i' (Hs' & Hi' & info & ci3 & Hx & Ew). split_and!; [done|done|]. by exists ci2, ca2, info, ci3.
  - exists (settle_i i', Acceptor.with_output [] a'). split; [exact Er|]. exists ci2, ca2, info, ci3, secret. cbn [fst snd].
    unfold settle_i. rewrite Hs. split_and!; [exact Hs|exact Hsent|exact Hsec|exact Ew|exact Hp|by apply a_state_output|done].
Qed.

Lemma round_delivers ends : delivering ends -> exists ends', round ends = Some ends' /\ agreed_on_credentials ends'.
Proof.
  destruct ends as [i a]. intros (ci & ca & info & ci' & secret & Hs & Hsent & Hsec & Hw & Hp & Ha & Ho). cbn [fst snd] in *.
  destruct (deliver_a a (i_request false [] None (Some info)) (Initiator.output_ i)
    (fun a' => Acceptor.status_ a' = PreAuth.succeeded /\ Acceptor.output_ a' = [] /\
       Acceptor.credentials_ a' = Some (Initiator.credentials ic) /\
       exists ca', paired ci' ca' /\ Acceptor.identity_ a' = mech_identity ca')) as (a' & Er & Hs' & Ho' & Hc & ca' & Hp' & Hid);
    [exact (as_status _ _ _ Ha)|exact (as_input _ _ _ Ha)|exact Hsent| |].
  { eapply (a_dispatch Acceptor.credentials_phase false ca); [done|]. intros s Hst. unfold runs.
    eapply pwp_mono; [by eapply a_accepts| |done]. by intros u a' (E1 & E2 & E3 & E4 & E5). }
  exists (Initiator.with_output [] i, Acceptor.with_output [] (settle_a a')). split.
  - unfold round. cbn [fst snd Initiator.take_output]. rewrite Er. cbn [mbind option_bind Acceptor.take_output].
    assert (Acceptor.output_ (settle_a a') = []) as -> by (unfold settle_a; by rewrite Hs').
    by rewrite receive_nothing.
  - unfold agreed_on_credentials. cbn [fst snd]. assert (settle_a a' = Acceptor.with_input [] (Acceptor.with_remaining (Acceptor.input_ a') a')) as ->
      by (unfold settle_a; by rewrite Hs').
    split_and!; [exact Hs|done|exact Hs'|done|exact Hc|by exists ci', ca'].
Qed.

Lemma rounds_next n ends ends' : round ends = Some ends' -> rounds (S n) ends = rounds n ends'.
Proof. intros E. cbn [rounds]. by rewrite E. Qed.

(** However long the dialog of the mechanisms is, the handshake ends well. *)
Lemma dialog_completes ci token ca :
  dialog ci token ca -> forall first ends, under_way first ci token ca ends ->
  exists n ends', rounds n ends = Some ends' /\ agreed_on_credentials ends'.
Proof.
  assert (forall ci ca ends, proving ci ca ends -> exists n ends', rounds n ends = Some ends' /\ agreed_on_credentials ends') as Hend.
  { intros ci0 ca0 ends Hp. destruct (round_proves _ _ _ Hp) as (e1 & E1 & Hd).
    destruct (round_delivers _ Hd) as (e2 & E2 & Ha). exists 2%nat, e2. split; [|done].
    by rewrite (rounds_next _ _ _ E1), (rounds_next _ _ _ E2). }
  induction 1 as [ci token ca token2 ca' token3 ci' Hsa Hsi Hl2 Hl3 _ IH
                 |ci token ca token2 ca' token3 ci' ca2 Hsa Hsi Hl2 Hl3 Hsa2 Hp|ci token ca token2 ca' ci' Hsa Hl2 Hsi Hp]; intros first ends Hu.
  - destruct (round_goes_on _ _ _ _ _ _ _ _ _ Hu Hsa Hsi Hl2 Hl3) as (e1 & E1 & Hu1).
    destruct (IH false e1 Hu1) as (n & e2 & E2 & Ha). exists (S n), e2. split; [|done]. by rewrite (rounds_next _ _ _ E1).
  - destruct (round_initiator_completes _ _ _ _ _ _ _ _ _ _ Hu Hsa Hsi Hl2 Hl3 Hsa2 Hp) as (e1 & ci2 & E1 & Hp1).
    destruct (Hend _ _ _ Hp1) as (n & e2 & E2 & Ha). exists (S n), e2. split; [|done]. by rewrite (rounds_next _ _ _ E1).
  - destruct (round_acceptor_completes _ _ _ _ _ _ _ _ Hu Hsa Hl2 Hsi Hp) as (e1 & ci2 & E1 & Hp1).
    destruct (Hend _ _ _ Hp1) as (n & e2 & E2 & Ha). exists (S n), e2. split; [|done]. by rewrite (rounds_next _ _ _ E1).
Qed.

(** ** The start *)

Lemma start_runs s ci0 token ci :
  i_state Initiator.negotiate false true ci0 s -> Initiator.output_ s = [] -> mechanism ci0 = own ->
  step ci0 [] = (Ok (mkStep token false), ci) -> len token <= 40000 ->
  runs (Initiator.start sha256) (fun _ s' => i_state Initiator.negotiate false true ci (Initiator.with_output [] s') /\
    exists bytes, i_sent true [bytes] None None s' /\ carries true bytes token) s.
Proof.
  intros Hs Ho Hown Hst Hl. unfold Initiator.start. rs. rewrite (is_config _ _ _ _ _ Hs), (spnego_on match_). cbn [negb]. rs.
  rewrite (is_mech _ _ _ _ _ Hs), Hown, (no_preference match_). cbn [app]. change (1 <? len [own]) with false.
  apply run_bind. rewrite bool_decide_true by done. eapply i_call.
  { cbn [Initiator.mech_ Initiator.with_mic_required]. rewrite (is_mech _ _ _ _ _ Hs). exact Hst. }
  eapply run_try; [done|]. cbn [step_complete step_token]. rs.
  destruct (Spnego.make_init_ok [own] (Some token)) as (t & Em & Hok & Ht & Htok & Hmic); [done|done|by cbn; rewrite own_ok| |].
  { unfold Spnego.bounded, Spnego.max_token_size. apply Z.leb_le. lia. }
  eapply run_lift; [exact Em|]. rs.
  destruct (Spnego.decode_init_token t Hok) as (e & He & Hd & Hraw & _).
  destruct (Spnego.init_size t Hok) as (e' & He' & Hle). assert (e' = e) as -> by congruence. rewrite Htok, Hmic in Hle. cbn [olen] in Hle.
  eapply run_lift; [exact He|].
  assert (i_state Initiator.negotiate false true ci (Initiator.with_mech_types_der (Spnego.mech_types_der t)
    (Initiator.with_mech ci (Initiator.with_mic_required false s)))) as Hs' by (by destruct Hs; split).
  eapply (i_send _ false true [e] None None); [exact Hs'|exact Ho|done..| |].
  - split_and!; [done|apply Forall_singleton; lia|by left].
  - intros b Hb. split.
    + by apply i_state_output, i_state_output.
    + exists e. split; [exact Hb|]. split; [exact Hraw|]. by exists t.
Qed.
End Handshake.

Section Claim.
Context {CI CA : Type} `{SecurityContext CI} `{SecurityContext CA} (sha256 : list byte -> list byte).
Context (paired : CI -> CA -> Prop) (ic : Initiator.InitiatorConfig) (ac : Acceptor.AcceptorConfig (C := CA)).

(** two honest ends that see the same TLS key, an initiator that negotiates
    its own mechanism with SPNEGO and an acceptor whose factory has it, complete
    the handshake for every pair of mechanisms that belong together, however many
    tokens these exchange and whichever completes first, in every combination of
    CredSSP versions: both report success, and the acceptor has the very
    credentials that the initiator was given and the identity its mechanism
    authenticated. *)
Theorem handshake_delivers (ci0 ci : CI) (ca : CA) (token nonce random : list byte) (a : Acceptor.t (C := CA)) :
  pairing paired -> matching sha256 paired ic ac ->
  nonce = default random (Initiator.config_nonce ic) -> len nonce = nonce_size ->
  Spnego.oid_ok (mechanism ci0) = true -> mechanism ci = mechanism ci0 ->
  step ci0 [] = (Ok (mkStep token false), ci) -> len token <= 40000 ->
  Acceptor.make ac = Some a -> Acceptor.make_mechanism ac (mechanism ci0) = Some ca ->
  dialog paired ci token ca ->
  exists i, Initiator.make sha256 ic ci0 random = Some i /\
    exists n ends, rounds sha256 n (i, a) = Some ends /\ agreed_on_credentials paired ic ends.
Proof.
  intros Hp Hm En Hn Hoid Hown Hst Hl Ha Hf Hd. pose proof (key_size _ _ _ _ Hm). pose proof (initiator_version _ _ _ _ Hm).
  assert (exists i, Initiator.make sha256 ic ci0 random = Some i /\
    i_state ic ac nonce Initiator.negotiate false true ci (Initiator.with_output [] i) /\
    exists bytes, i_sent ic ac nonce true [bytes] None None i /\ carries (mechanism ci0) true bytes token) as (i & Em & Hi & Hs).
  { unfold Initiator.make. rewrite <- En.
    assert (is_empty (Initiator.server_public_key ic) = false) as -> by (apply bool_decide_false; intros E; rewrite E in *; by destruct H1).
    rewrite (proj2 (Z.leb_le _ _)) by lia. cbn [negb andb]. unfold Initiator.or_fail.
    match goal with |- context [Initiator.start sha256 ?s0] =>
      pose proof (start_runs sha256 paired ic ac Hm (mechanism ci0) Hoid nonce Hn s0 ci0 token ci) as Hr end.
    unfold runs, wp in Hr. destruct (Initiator.start sha256 _) as [[[[]|reason] s]|].
    - eexists. split; [done|]. by apply Hr.
    - by destruct Hr.
    - by destruct Hr. }
  exists i. split; [exact Em|].
  eapply (dialog_completes sha256 paired Hp ic ac Hm (mechanism ci0) Hoid nonce Hn ci token ca Hd true (i, a)).
  split_and!; [exact Hi|done|exact Hs|by split].
Qed.
End Claim.

(** ** Two honest ends for the witnesses

    A mechanism of three tokens, as NTLM's, that wraps a message as itself. *)

Record Honest := mkHonest { honest_initiator : bool; honest_steps : Z }.

#[export] Instance honest_context : SecurityContext Honest := {|
  mechanism _ := Spnego.ntlm_oid;
  step c _ :=
    let c' := mkHonest (honest_initiator c) (honest_steps c + 1) in
    (Ok (if honest_initiator c
         then if honest_steps c =? 0 then mkStep [byte_of 1] false else mkStep [byte_of 3] true
         else if honest_steps c =? 0 then mkStep [byte_of 2] false else mkStep [] true), c');
  wrap_message c bytes := (bytes, c);
  unwrap c bytes := (Ok bytes, c);
  get_mic c _ := ([], c);
  verify_mic c _ _ := (Ok tt, c);
  reset_cipher_state c := c;
  mech_identity _ := PreAuth.mkIdentity "ada" "" |}.

Definition honest_hash (_ : list byte) : list byte := replicate 32 (byte_of 0).
Definition honest_key : list byte := byte_of <$> [0x30; 0x03; 0x01].
Definition honest_nonce : list byte := replicate 32 (byte_of 7).

Definition honest_ic : Initiator.InitiatorConfig :=
  Initiator.mkConfig true honest_key (PreAuth.mkCredentials "" "ada" "secret") 6 (Some honest_nonce) [].
Definition honest_ac : Acceptor.AcceptorConfig (C := Honest) :=
  Acceptor.mkConfig honest_key (fun oid => if bool_decide (oid = Spnego.ntlm_oid) then Some (mkHonest false 0) else None)
    (Some (fun credentials i _ => bool_decide (PreAuth.cred_user credentials = PreAuth.user i))) 5.

Definition honest_pair (_ _ : Honest) : Prop := True.

Lemma honest_pairing : pairing honest_pair.
Proof. split; intros ? ? bytes w c' _ [= <- <-]; (split; [lia|by eexists]). Qed.

Lemma plain_ascii s cs : to_bytes s = Text.utf8 cs -> forallb (fun c => Text.scalar c && negb (c =? 0)) cs = true ->
  len (Text.utf16 cs) <= max_field_size -> plain s.
Proof.
  intros E Hc Hl. exists cs. split_and!; [exact E| |exact Hl]. apply Forall_forall. intros c Hin.
  rewrite forallb_forall in Hc. apply list_elem_of_In in Hin. specialize (Hc c Hin). cbn beta in Hc. bools. split; [done|lia].
Qed.

Lemma honest_matching : matching honest_hash honest_pair honest_ic honest_ac.
Proof.
  split; try done.
  split_and!; [apply (plain_ascii "" [])|apply (plain_ascii "ada" [97; 100; 97])|
    apply (plain_ascii "secret" [115; 101; 99; 114; 101; 116])]; by vm_compute.
Qed.

Lemma honest_dialog : dialog honest_pair (mkHonest true 1) [byte_of 1] (mkHonest false 0).
Proof.
  apply (initiator_first honest_pair _ _ _ [byte_of 2] (mkHonest false 1) [byte_of 3] (mkHonest true 2) (mkHonest false 2));
    first [reflexivity|done|by vm_compute].
Qed.

Definition honest_acceptor : Acceptor.t (C := Honest) :=
  Eval vm_compute in default (Acceptor.mk honest_ac [] PreAuth.nla_failed Acceptor.done_ "" [] [] [] 0 0 None None false [] false false
    (PreAuth.mkIdentity "" "") None) (Acceptor.make honest_ac).

Lemma handshake_delivers_witness :
  exists i, Initiator.make honest_hash honest_ic (mkHonest true 0) [] = Some i /\
    exists n ends, rounds honest_hash n (i, honest_acceptor) = Some ends /\ agreed_on_credentials honest_pair honest_ic ends.
Proof.
  apply (handshake_delivers honest_hash honest_pair honest_ic honest_ac (mkHonest true 0) (mkHonest true 1) (mkHonest false 0)
    [byte_of 1] honest_nonce [] honest_acceptor honest_pairing honest_matching).
  - reflexivity.
  - reflexivity.
  - reflexivity.
  - reflexivity.
  - reflexivity.
  - by vm_compute.
  - vm_compute. reflexivity.
  - reflexivity.
  - exact honest_dialog.
Defined.

(** The initiator's side of that handshake, step by step. *)
Definition honest_i0 : Initiator.t (C := Honest) :=
  Eval vm_compute in default (Initiator.mk honest_ic (mkHonest true 0) [] PreAuth.nla_failed Initiator.done_ "" None [] [] [] 0 0
    false false [] false false) (Initiator.make honest_hash honest_ic (mkHonest true 0) []).

(** The acceptor's answer in a round, and the initiator after it. *)
Definition honest_answer (n : nat) : list byte :=
  default [] (ends ← rounds honest_hash n (honest_i0, honest_acceptor);
    a ← Acceptor.receive honest_hash (Initiator.output_ (fst ends)) (snd ends); Some (Acceptor.output_ a)).
Definition honest_i (n : nat) : Initiator.t (C := Honest) :=
  default honest_i0 (fst <$> rounds honest_hash n (honest_i0, honest_acceptor)).
Definition honest_answer1 := Eval vm_compute in honest_answer 0.
Definition honest_answer2 := Eval vm_compute in honest_answer 1.
Definition honest_i1 := Eval vm_compute in honest_i 1.
Definition honest_i2 := Eval vm_compute in honest_i 2.

Lemma honest_reachable : CredsspInitiator.reachable honest_hash honest_ic (mkHonest true 0) honest_i2.
Proof.
  apply (CredsspInitiator.reach_received _ _ _ (snd (Initiator.take_output honest_i1)) honest_answer2); [|vm_compute; reflexivity].
  apply CredsspInitiator.reach_output.
  apply (CredsspInitiator.reach_received _ _ _ (snd (Initiator.take_output honest_i0)) honest_answer1); [|vm_compute; reflexivity].
  apply CredsspInitiator.reach_output.
  apply (CredsspInitiator.reach_made _ _ _ []). vm_compute. reflexivity.
Qed.

Lemma initiator_guards_credentials_witness :
  Initiator.status_ honest_i2 = PreAuth.succeeded /\
    CredsspInitiator.delivered honest_hash honest_ic (mkHonest true 0) honest_i2.
Proof.
  split; [reflexivity|].
  destruct (CredsspInitiator.initiator_guards_credentials honest_hash honest_ic (mkHonest true 0) _ honest_reachable) as [_ Hs].
  apply Hs. reflexivity.
Defined.
End CredsspHandshake.
