(* ===== verification/LegacyCrypto.v ===== *)
(** * MD4 and RC4, the primitives of NTLM that farland brings itself

    Models [src/src/farland/auth/legacy_crypto.cpp] but for MD5 and HMAC-MD5, which
    are OpenSSL's.  MD4 is shown equal to the algorithm as RFC 1320 states it, RC4
    to be a stream cipher that undoes itself.

    An access of an array at a [std::uint8_t] or at a constant cannot leave it, so
    arrays are lists with [!!!].  What [md4_block] asserts of its argument is
    [md4_blocks_full]. *)

From S2P Require Import Prelude Buffers CodecLogic.
Open Scope Z_scope.

Module LegacyCrypto.

(** ** MD4 *)

Definition rotl (x n : Z) : Z := Z.lor (wrap 32 (Z.shiftl x n)) (Z.shiftr x (32 - n)).
(** [~u] of a [std::uint32_t]. *)
Definition not32 (u : Z) : Z := Z.lxor u 0xFFFFFFFF.

Definition f (u v w : Z) : Z := Z.lor (Z.land u v) (Z.land (not32 u) w).
Definition g (u v w : Z) : Z := Z.lor (Z.lor (Z.land u v) (Z.land u w)) (Z.land v w).
Definition h (u v w : Z) : Z := Z.lxor (Z.lxor u v) w.
Definition round2 : Z := 0x5A827999.
Definition round3 : Z := 0x6ED9EBA1.

Record State := mkState { state0 : Z; state1 : Z; state2 : Z; state3 : Z }.

Definition initial : State := mkState 0x67452301 0xEFCDAB89 0x98BADCFE 0x10325476.

(** The words of a block. *)
Definition word_at (block : list byte) (i : nat) : Z :=
  foldl (fun word b => Z.lor word (Z.shiftl (u8_of (nth (i * 4 + b) block (byte_of 0))) (8 * Z.of_nat b))) 0 (seq 0 4).
Definition words (block : list byte) : list Z := word_at block <$> seq 0 16.

(** The bodies of the three loops. *)
Definition body1 (x : list Z) (s : State) (i : nat) : State :=
  let 'mkState a b c d := s in
  let a := rotl (wrap 32 (a + f b c d + x !!! i)) 3 in
  let d := rotl (wrap 32 (d + f a b c + x !!! (i + 1)%nat)) 7 in
  let c := rotl (wrap 32 (c + f d a b + x !!! (i + 2)%nat)) 11 in
  let b := rotl (wrap 32 (b + f c d a + x !!! (i + 3)%nat)) 19 in
  mkState a b c d.
Definition body2 (x : list Z) (s : State) (i : nat) : State :=
  let 'mkState a b c d := s in
  let a := rotl (wrap 32 (a + g b c d + x !!! i + round2)) 3 in
  let d := rotl (wrap 32 (d + g a b c + x !!! (i + 4)%nat + round2)) 5 in
  let c := rotl (wrap 32 (c + g d a b + x !!! (i + 8)%nat + round2)) 9 in
  let b := rotl (wrap 32 (b + g c d a + x !!! (i + 12)%nat + round2)) 13 in
  mkState a b c d.
Definition body3 (x : list Z) (s : State) (i : nat) : State :=
  let 'mkState a b c d := s in
  let a := rotl (wrap 32 (a + h b c d + x !!! i + round3)) 3 in
  let d := rotl (wrap 32 (d + h a b c + x !!! (i + 8)%nat + round3)) 9 in
  let c := rotl (wrap 32 (c + h d a b + x !!! (i + 4)%nat + round3)) 11 in
  let b := rotl (wrap 32 (b + h c d a + x !!! (i + 12)%nat + round3)) 15 in
  mkState a b c d.

Definition md4_block (state : State) (block : list byte) : State :=
  let x := words block in
  let s := foldl (body1 x) state [0; 4; 8; 12]%nat in
  let s := foldl (body2 x) s [0; 1; 2; 3]%nat in
  let s := foldl (body3 x) s [0; 2; 1; 3]%nat in
  mkState (wrap 32 (state0 state + state0 s)) (wrap 32 (state1 state + state1 s))
    (wrap 32 (state2 state + state2 s)) (wrap 32 (state3 state + state3 s)).

(** The loop over the full blocks: these, and what is left. *)
Fixpoint full_blocks (fuel : nat) (data : list byte) : list (list byte) * list byte :=
  match fuel with
  | O => ([], data)
  | S fuel' =>
      if 64 <=? len data
      then let (blocks, tail) := full_blocks fuel' (drop 64 data) in (take 64 data :: blocks, tail)
      else ([], data)
  end.

(** The padding: the one or two blocks in [last]. *)
Definition last_blocks (tail : list byte) (size : Z) : list (list byte) :=
  let last := Writer.overwrite 0 tail (replicate 128 (byte_of 0)) in
  let last := Writer.overwrite (length tail) [byte_of 0x80] last in
  let padded := if len tail <? 56 then 64%nat else 128%nat in
  let bits := wrap 64 (size * 8) in
  let last := Writer.overwrite (padded - 8) (Writer.le_bytes 8 bits) last in
  if len tail <? 56 then [take 64 last] else [take 64 last; take 64 (drop 64 last)].

Definition md4_blocks (data : list byte) : list (list byte) :=
  let (blocks, tail) := full_blocks (length data) data in
  blocks ++ last_blocks tail (len data).

Definition state_word (s : State) (i : nat) : Z :=
  match i with 0%nat => state0 s | 1%nat => state1 s | 2%nat => state2 s | _ => state3 s end.

Definition md4 (data : list byte) : list byte :=
  let state := foldl md4_block initial (md4_blocks data) in
  (fun i => byte_of (Z.shiftr (state_word state (i / 4)) (8 * Z.of_nat (i mod 4)))) <$> seq 0 16.

(** ** RC4 *)

Record Rc4 := mkRc4 { s_ : list Z; i_ : Z; j_ : Z }.

Definition swap (s : list Z) (i j : Z) : list Z :=
  let a := s !!! Z.to_nat i in
  let b := s !!! Z.to_nat j in
  <[Z.to_nat j := a]> (<[Z.to_nat i := b]> s).

(** One iteration of the key schedule, on the table and [j]. *)
Definition schedule (key : list byte) (sj : list Z * Z) (i : nat) : list Z * Z :=
  let '(s, j) := sj in
  let j := wrap 8 (j + s !!! i + u8_of (nth (i mod length key) key (byte_of 0))) in
  (swap s (Z.of_nat i) j, j).

(** The table after the key schedule. *)
Definition scheduled (key : list byte) : list Z := (foldl (schedule key) (Z.of_nat <$> seq 0 256, 0) (seq 0 256)).1.

(** The constructor and its assertion. *)
Definition make (key : list byte) : option Rc4 :=
  if negb (bool_decide (key = [])) && (len key <=? 256)
  then Some (mkRc4 (scheduled key) 0 0)
  else None.

(** The next byte of the keystream. *)
Definition next (c : Rc4) : Z * Rc4 :=
  let i := wrap 8 (i_ c + 1) in
  let j := wrap 8 (j_ c + s_ c !!! Z.to_nat i) in
  let s := swap (s_ c) i j in
  (s !!! Z.to_nat (wrap 8 (s !!! Z.to_nat i + s !!! Z.to_nat j)), mkRc4 s i j).

Fixpoint apply (c : Rc4) (data : list byte) : list byte * Rc4 :=
  match data with
  | [] => ([], c)
  | b :: data' =>
      let '(k, c) := next c in
      let '(out, c) := apply c data' in
      (byte_of (Z.lxor (u8_of b) k) :: out, c)
  end.

(** ** Test vectors (RFC 1320 A.5 for MD4) *)

Definition text (s : string) : list byte := String.list_byte_of_string s.

Example md4_empty : u8_of <$> md4 [] =
  [0x31; 0xd6; 0xcf; 0xe0; 0xd1; 0x6a; 0xe9; 0x31; 0xb7; 0x3c; 0x59; 0xd7; 0xe0; 0xc0; 0x89; 0xc0].
Proof. vm_compute. reflexivity. Qed.
Example md4_abc : u8_of <$> md4 (text "abc") =
  [0xa4; 0x48; 0x01; 0x7a; 0xaf; 0x21; 0xd8; 0x52; 0x5f; 0xc1; 0x0a; 0xe8; 0x7a; 0xa6; 0x72; 0x9d].
Proof. vm_compute. reflexivity. Qed.
Example md4_digits :
  u8_of <$> md4 (text "12345678901234567890123456789012345678901234567890123456789012345678901234567890") =
  [0xe3; 0x3b; 0x4d; 0xdc; 0x9c; 0x38; 0xf2; 0x19; 0x9c; 0x3e; 0x7b; 0x16; 0x4f; 0xcc; 0x05; 0x36].
Proof. vm_compute. reflexivity. Qed.
Example rc4_plaintext : (fun c => u8_of <$> (apply c (text "Plaintext")).1) <$> make (text "Key") =
  Some [0xBB; 0xF3; 0x16; 0xE8; 0xD9; 0x40; 0xAF; 0x0A; 0xD3].
Proof. vm_compute. reflexivity. Qed.

(** ** MD4 as RFC 1320 has it

    The message is padded as a whole and cut into blocks of sixteen words, and a
    round is sixteen operations [[abcd k s]] whose registers rotate. *)

Definition rfc_padding (size : Z) : list byte :=
  byte_of 0x80 :: replicate (Z.to_nat ((55 - size) mod 64)) (byte_of 0) ++ Writer.le_bytes 8 (size * 8).

Fixpoint chunks (fuel : nat) (data : list byte) : list (list byte) :=
  match fuel with
  | O => []
  | S fuel' => if bool_decide (data = []) then [] else take 64 data :: chunks fuel' (drop 64 data)
  end.

Definition rfc_words (block : list byte) : list Z := (fun j => le_val (take 4 (drop (4 * j) block))) <$> seq 0 16.

Definition operation (fn : Z -> Z -> Z -> Z) (constant : Z) (x : list Z) (r : State) (op : nat * Z) : State :=
  let 'mkState a b c d := r in
  mkState d (rotl (wrap 32 (a + fn b c d + x !!! op.1 + constant)) op.2) b c.

Definition shifts (s : list Z) : list Z := s ++ s ++ s ++ s.
Definition table1 : list (nat * Z) := combine (seq 0 16) (shifts [3; 7; 11; 19]).
Definition table2 : list (nat * Z) :=
  combine [0; 4; 8; 12; 1; 5; 9; 13; 2; 6; 10; 14; 3; 7; 11; 15]%nat (shifts [3; 5; 9; 13]).
Definition table3 : list (nat * Z) :=
  combine [0; 8; 4; 12; 2; 10; 6; 14; 1; 9; 5; 13; 3; 11; 7; 15]%nat (shifts [3; 9; 11; 15]).

Definition rfc_block (r : State) (block : list byte) : State :=
  let x := rfc_words block in
  let s := foldl (operation h round3 x) (foldl (operation g round2 x) (foldl (operation f 0 x) r table1) table2) table3 in
  mkState (wrap 32 (state0 r + state0 s)) (wrap 32 (state1 r + state1 s))
    (wrap 32 (state2 r + state2 s)) (wrap 32 (state3 r + state3 s)).

Definition rfc_md4 (data : list byte) : list byte :=
  let padded := data ++ rfc_padding (len data) in
  let s := foldl rfc_block initial (chunks (length padded) padded) in
  Writer.le_bytes 4 (state0 s) ++ Writer.le_bytes 4 (state1 s) ++ Writer.le_bytes 4 (state2 s) ++ Writer.le_bytes 4 (state3 s).

(** *** The blocks *)

Lemma overwrite_at (a x d e : list byte) :
  length x = length d -> Writer.overwrite (length a) d (a ++ x ++ e) = a ++ d ++ e.
Proof.
  intros Hx. unfold Writer.overwrite. rewrite take_app_length, <- Hx. by rewrite drop_app_add, drop_app_length.
Qed.

Lemma full_blocks_spec fuel : forall data, (length data <= fuel)%nat ->
  exists blocks tail, full_blocks fuel data = (blocks, tail) /\ data = concat blocks ++ tail /\
    Forall (fun b => length b = 64%nat) blocks /\ (length tail < 64)%nat.
Proof.
  induction fuel as [|fuel IH]; intros data Hf; cbn [full_blocks].
  { exists [], data. split_and!; [done|done|constructor|lia]. }
  destruct (Z.leb_spec 64 (len data)) as [Hl|Hl]; unfold len in Hl.
  - destruct (IH (drop 64 data)) as (blocks & tail & -> & E & Hb & Ht); [rewrite length_drop; lia|].
    exists (take 64 data :: blocks), tail. split_and!; [done| |constructor; [rewrite length_take; lia|done]|done].
    cbn [concat]. by rewrite <- app_assoc, <- E, take_drop.
  - exists [], data. split_and!; [done|done|constructor|lia].
Qed.

Lemma chunks_app blocks rest fuel :
  Forall (fun b => length b = 64%nat) blocks -> (length (concat blocks ++ rest) <= fuel)%nat ->
  chunks fuel (concat blocks ++ rest) = blocks ++ chunks (fuel - length blocks) rest.
Proof.
  intros Hb. revert fuel. induction Hb as [|b blocks Hl Hb IH]; intros fuel Hf; cbn [concat app length] in *.
  { by rewrite Nat.sub_0_r. }
  rewrite <- app_assoc in *. rewrite length_app in Hf. destruct fuel as [|fuel]; [lia|]. cbn [chunks].
  rewrite bool_decide_false by (intros E; destruct b; [done|discriminate E]).
  rewrite <- Hl at 1 2. rewrite take_app_length, drop_app_length, IH by lia. done.
Qed.

Lemma chunks_short block fuel : length block = 64%nat -> (0 < fuel)%nat -> chunks fuel block = [block].
Proof.
  intros Hl Hf. destruct fuel as [|fuel]; [lia|]. cbn [chunks]. rewrite bool_decide_false by (intros ->; done).
  rewrite take_ge, drop_ge by lia. by destruct fuel.
Qed.

Lemma le_bytes_wrap v : Writer.le_bytes 8 (wrap 64 v) = Writer.le_bytes 8 v.
Proof.
  rewrite <- (le_bytes_le_val (Writer.le_bytes 8 v)). rewrite length_le_bytes, le_val_le_bytes. done.
Qed.

(** The array [last], written in place, is the padded tail. *)
Lemma last_blocks_spec tail size :
  (length tail < 64)%nat -> size mod 64 = len tail ->
  Forall (fun b => length b = 64%nat) (last_blocks tail size) /\ concat (last_blocks tail size) = tail ++ rfc_padding size.
Proof.
  intros Ht Hs. unfold last_blocks, rfc_padding. set (bits := Writer.le_bytes 8 (wrap 64 (size * 8))).
  assert (length bits = 8%nat) as Hb by apply length_le_bytes.
  assert (Writer.overwrite (length tail) [byte_of 0x80] (Writer.overwrite 0 tail (replicate 128 (byte_of 0))) =
    tail ++ [byte_of 0x80] ++ replicate (127 - length tail) (byte_of 0)) as ->.
  { replace 128%nat with (length tail + (1 + (127 - length tail)))%nat by lia. rewrite !replicate_add.
    pose proof (overwrite_at [] (replicate (length tail) (byte_of 0)) tail
      (replicate 1 (byte_of 0) ++ replicate (127 - length tail) (byte_of 0))) as E0. cbn [length app] in E0.
    rewrite E0 by (by rewrite length_replicate). by rewrite overwrite_at. }
  rewrite <- le_bytes_wrap. fold bits. destruct (Z.ltb_spec (len tail) 56) as [H|H]; unfold len in H, Hs.
  - replace (Z.to_nat ((55 - size) mod 64)) with (55 - length tail)%nat by lia.
    replace (127 - length tail)%nat with ((55 - length tail) + (8 + 64))%nat by lia. rewrite !replicate_add, !app_assoc.
    replace (64 - 8)%nat with (length ((tail ++ [byte_of 0x80]) ++ replicate (55 - length tail) (byte_of 0)))
      by (rewrite !length_app, length_replicate; cbn; lia).
    rewrite <- (app_assoc _ (replicate 8 _)), overwrite_at by (by rewrite length_replicate). rewrite app_assoc, take_app_length'
      by (rewrite !length_app, length_replicate; cbn; lia).
    split; [repeat constructor; rewrite !length_app, length_replicate; cbn; lia|]. cbn [concat]. by rewrite app_nil_r, <- !app_assoc.
  - replace (Z.to_nat ((55 - size) mod 64)) with (119 - length tail)%nat by lia.
    replace (127 - length tail)%nat with ((119 - length tail) + 8)%nat by lia. rewrite !replicate_add, !app_assoc.
    replace (128 - 8)%nat with (length ((tail ++ [byte_of 0x80]) ++ replicate (119 - length tail) (byte_of 0)))
      by (rewrite !length_app, length_replicate; cbn; lia).
    rewrite <- (app_nil_r (replicate 8 _)), overwrite_at by (by rewrite length_replicate). rewrite app_nil_r.
    set (last := _ ++ bits). assert (length last = 128%nat) as Hl by (unfold last; rewrite !length_app, length_replicate, Hb; cbn; lia).
    split; [repeat constructor; rewrite length_take, ?length_drop; lia|]. cbn [concat].
    rewrite app_nil_r, (take_ge (drop _ _)), take_drop by (rewrite length_drop; lia). unfold last. by rewrite <- !app_assoc.
Qed.

(** Every block that [md4_block] is given has 64 bytes, as it asserts, and
    together they are the message with the padding of RFC 1320. *)
Lemma md4_blocks_full data :
  Forall (fun b => length b = 64%nat) (md4_blocks data) /\ concat (md4_blocks data) = data ++ rfc_padding (len data).
Proof.
  unfold md4_blocks. destruct (full_blocks_spec (length data) data (le_n _)) as (blocks & tail & -> & E & Hb & Ht).
  destruct (last_blocks_spec tail (len data) Ht) as [Hl Hc].
  { rewrite E. unfold len. rewrite length_app. assert (exists n, length (concat blocks) = (64 * n)%nat) as (n & ->); [|lia].
    clear E. induction Hb as [|b blocks Hn Hb (n & IH)]; [by exists 0%nat|]. exists (S n). cbn [concat]. rewrite length_app. lia. }
  split; [by apply Forall_app|]. rewrite concat_app, Hc, app_assoc. by rewrite E at 2.
Qed.

(** *** One block *)

Lemma word_le (b0 b1 b2 b3 : byte) :
  Z.lor (Z.lor (Z.lor (Z.lor 0 (Z.shiftl (u8_of b0) 0)) (Z.shiftl (u8_of b1) 8)) (Z.shiftl (u8_of b2) 16)) (Z.shiftl (u8_of b3) 24) =
  le_val [b0; b1; b2; b3].
Proof.
  pose proof (u8_of_range b0). pose proof (u8_of_range b1). pose proof (u8_of_range b2). pose proof (u8_of_range b3).
  rewrite Z.lor_0_l, Z.shiftl_0_r, (Z.lor_comm (u8_of b0)), (lor_disjoint _ _ 8) by lia.
  rewrite (Z.lor_comm (_ + _)), (lor_disjoint _ _ 16) by lia.
  rewrite (Z.lor_comm (_ + _)), (lor_disjoint _ _ 24) by lia. cbn [le_val]. lia.
Qed.

Lemma words_rfc block : length block = 64%nat -> words block = rfc_words block.
Proof.
  intros Hl. unfold words, rfc_words. apply list_fmap_ext. intros k i Hi. apply lookup_seq in Hi as [-> Hi].
  assert (exists b0 b1 b2 b3, take 4 (drop (4 * k) block) = [b0; b1; b2; b3]) as (b0 & b1 & b2 & b3 & E).
  { assert (length (take 4 (drop (4 * k) block)) = 4%nat) as L by (rewrite length_take, length_drop; lia).
    destruct (take 4 (drop (4 * k) block)) as [|b0 [|b1 [|b2 [|b3 [|]]]]]; try discriminate L. by exists b0, b1, b2, b3. }
  cbn [Nat.add]. rewrite E, <- word_le. unfold word_at.
  assert (forall j, (j < 4)%nat -> nth (k * 4 + j) block (byte_of 0) = nth j [b0; b1; b2; b3] (byte_of 0)) as Hn.
  { intros j Hj. rewrite <- E, !nth_lookup, lookup_take_lt, lookup_drop by done. do 2 f_equal. lia. }
  cbn [seq foldl]. by rewrite !Hn by lia.
Qed.

Lemma body1_operations x s i :
  body1 x s i = foldl (operation f 0 x) s [(i, 3); ((i + 1)%nat, 7); ((i + 2)%nat, 11); ((i + 3)%nat, 19)].
Proof. destruct s. cbn. by rewrite !Z.add_0_r. Qed.
Lemma body2_operations x s i :
  body2 x s i = foldl (operation g round2 x) s [(i, 3); ((i + 4)%nat, 5); ((i + 8)%nat, 9); ((i + 12)%nat, 13)].
Proof. by destruct s. Qed.
Lemma body3_operations x s i :
  body3 x s i = foldl (operation h round3 x) s [(i, 3); ((i + 8)%nat, 9); ((i + 4)%nat, 11); ((i + 12)%nat, 15)].
Proof. by destruct s. Qed.

(** A loop of four bodies of four operations is a round of sixteen. *)
Lemma rounds (body : State -> nat -> State) op group table s steps :
  (forall s i, body s i = foldl op s (group i)) -> concat (group <$> steps) = table ->
  foldl body s steps = foldl op s (table : list (nat * Z)).
Proof.
  intros Hb <-. revert s. induction steps as [|i steps IH]; intros s; [done|].
  cbn [foldl fmap list_fmap concat]. by rewrite foldl_app, Hb, IH.
Qed.

Lemma md4_block_rfc s block : length block = 64%nat -> md4_block s block = rfc_block s block.
Proof.
  intros Hl. unfold md4_block, rfc_block. rewrite <- words_rfc by done. set (x := words block).
  erewrite (rounds (body1 x) _ _ table1 s) by (apply body1_operations || reflexivity).
  erewrite (rounds (body2 x) _ _ table2) by (apply body2_operations || reflexivity).
  by erewrite (rounds (body3 x) _ _ table3) by (apply body3_operations || reflexivity).
Qed.

(** C17: MD4 is the algorithm of RFC 1320 on every message, although it never holds
    the padded message as one. *)
Theorem md4_is_rfc_1320 data : md4 data = rfc_md4 data.
Proof.
  unfold md4, rfc_md4. destruct (md4_blocks_full data) as [Hb Hc]. rewrite <- Hc.
  pose proof (chunks_app (md4_blocks data) [] _ Hb (le_n _)) as E. rewrite !app_nil_r in E. rewrite E.
  assert (forall n, chunks n [] = []) as -> by (by intros []). rewrite app_nil_r.
  assert (foldl md4_block initial (md4_blocks data) = foldl rfc_block initial (md4_blocks data)) as ->; [|reflexivity].
  generalize initial. clear - Hb. induction Hb as [|b bs Hl Hb IH]; intros s; [done|]. cbn [foldl]. by rewrite md4_block_rfc.
Qed.

Lemma length_md4 data : length (md4 data) = 16%nat.
Proof. reflexivity. Qed.

(** ** RC4 undoes itself *)

Lemma xor_twice b k : Z.lxor (u8_of (byte_of (Z.lxor (u8_of b) k))) k mod 256 = u8_of b.
Proof.
  rewrite u8_of_byte_of. change 256 with (2 ^ 8). apply Z.bits_inj'. intros i Hi.
  pose proof (u8_of_range b). destruct (Z.lt_ge_cases i 8).
  - rewrite Z.mod_pow2_bits_low, Z.lxor_spec, Z.mod_pow2_bits_low, Z.lxor_spec by lia.
    by rewrite xorb_assoc, xorb_nilpotent, xorb_false_r.
  - rewrite Z.mod_pow2_bits_high by lia. rewrite Z.testbit_eqb by done.
    assert (u8_of b / 2 ^ i = 0) as ->; [|done]. apply Z.div_small. split; [lia|].
    eapply Z.lt_le_trans; [apply H|]. change 256 with (2 ^ 8). apply Z.pow_le_mono_r; lia.
Qed.

Lemma length_apply c data : length (apply c data).1 = length data.
Proof.
  revert c. induction data as [|b data IH]; intros c; cbn [apply]; [done|]. destruct (next c) as [k c']. specialize (IH c').
  destruct (apply c' data). cbn in *. lia.
Qed.

Lemma len_apply c data : len (apply c data).1 = len data.
Proof. unfold len. by rewrite length_apply. Qed.

(** Two ends with the same state: what one applies the other takes off, and the
    states stay the same. *)
Lemma apply_inverse c data out c' : apply c data = (out, c') -> apply c out = (data, c').
Proof.
  revert c out c'. induction data as [|b data IH]; intros c out c'; cbn [apply].
  { by intros [= <- <-]. }
  destruct (next c) as [k c1] eqn:En. destruct (apply c1 data) as [out1 c2] eqn:Ea. intros [= <- <-].
  cbn [apply]. rewrite En, (IH _ _ _ Ea). do 2 f_equal. apply u8_of_inj. by rewrite u8_of_byte_of, xor_twice.
Qed.

(** The state after a message depends on its length only. *)
Lemma apply_state c a b : length a = length b -> (apply c a).2 = (apply c b).2.
Proof.
  revert c b. induction a as [|x a IH]; intros c [|y b]; cbn [length]; try done. intros [= H]. cbn [apply].
  destruct (next c) as [k c1]. specialize (IH c1 b H). destruct (apply c1 a), (apply c1 b). exact IH.
Qed.

Lemma apply_app c a b : apply c (a ++ b) =
  (let (o1, c1) := apply c a in let (o2, c2) := apply c1 b in (o1 ++ o2, c2)).
Proof.
  revert c. induction a as [|x a IH]; intros c; cbn [apply app].
  { by destruct (apply c b). }
  destruct (next c) as [k c1]. rewrite IH. destruct (apply c1 a) as [o1 c2]. by destruct (apply c2 b).
Qed.

(** The table is always a permutation of the bytes. *)
Definition is_table (s : list Z) : Prop := s ≡ₚ Z.of_nat <$> seq 0 256.

Lemma swap_permutes s i j : (Z.to_nat i < length s)%nat -> (Z.to_nat j < length s)%nat -> swap s i j ≡ₚ s.
Proof.
  intros Hi Hj. apply lookup_lt_is_Some in Hi as [a Ha], Hj as [b Hb]. unfold swap.
  rewrite (list_lookup_total_correct _ _ _ Ha), (list_lookup_total_correct _ _ _ Hb).
  by apply Permutation_insert_swap.
Qed.

Lemma length_table s : is_table s -> length s = 256%nat.
Proof. intros H. by rewrite (Permutation_length H). Qed.

Lemma wrap_byte_nat z : (Z.to_nat (wrap 8 z) < 256)%nat.
Proof. unfold wrap. change (2 ^ 8) with 256. lia. Qed.

Lemma table_swap s i j : is_table s -> (Z.to_nat i < 256)%nat -> (Z.to_nat j < 256)%nat -> is_table (swap s i j).
Proof. intros H Hi Hj. unfold is_table. rewrite swap_permutes; [exact H|rewrite length_table by done; lia..]. Qed.

Lemma make_table key c : make key = Some c -> is_table (s_ c).
Proof.
  unfold make. destruct (_ && _); [|done]. intros [= <-]. cbn [s_]. unfold scheduled.
  assert (forall is_ s j, Forall (fun i => (i < 256)%nat) is_ -> is_table s -> is_table (foldl (schedule key) (s, j) is_).1) as H.
  { induction is_ as [|i is_ IH]; intros s j Hi Hs; [done|]. inversion Hi as [|? ? Hi1 Hi2]; subst. cbn [foldl schedule].
    apply IH; [done|]. apply table_swap; [done|lia|apply wrap_byte_nat]. }
  apply H; [|exact (Permutation_refl _)]. apply Forall_forall. intros i Hi. apply elem_of_seq in Hi. lia.
Qed.

Lemma next_table c k c' : is_table (s_ c) -> next c = (k, c') -> is_table (s_ c') /\ 0 <= k < 256.
Proof.
  intros Hs. unfold next. intros [= <- <-]. cbn [s_].
  assert (is_table (swap (s_ c) (wrap 8 (i_ c + 1)) (wrap 8 (j_ c + s_ c !!! Z.to_nat (wrap 8 (i_ c + 1)))))) as Ht
    by (apply table_swap; [done|apply wrap_byte_nat..]).
  split; [done|]. set (s := swap _ _ _) in *.
  match goal with |- context [s !!! ?n] => destruct (lookup_lt_is_Some_2 s n) as [x Hx] end.
  { rewrite length_table by done. apply wrap_byte_nat. }
  rewrite (list_lookup_total_correct _ _ _ Hx). apply list_elem_of_lookup_2 in Hx. unfold is_table in Ht. rewrite Ht in Hx.
  apply list_elem_of_fmap in Hx as (n & -> & Hn). apply elem_of_seq in Hn. lia.
Qed.

(** RC4 from any key the constructor takes: after any message the table is still
    a permutation of the bytes, so no index ever leaves it, and the message comes
    back from the same state. *)
Theorem rc4_inverse key c data : make key = Some c ->
  exists out c', apply c data = (out, c') /\ length out = length data /\ is_table (s_ c') /\ apply c out = (data, c').
Proof.
  intros Hm. pose proof (length_apply c data) as Hl. destruct (apply c data) as [out c'] eqn:Ea. exists out, c'.
  split_and!; [done|done| |by eapply apply_inverse].
  apply make_table in Hm. clear Hl. revert c out Hm Ea. induction data as [|b data IH]; intros c out Hs; cbn [apply].
  { by intros [= <- <-]. }
  destruct (next c) as [k c1] eqn:En. destruct (apply c1 data) as [o c2] eqn:Ea. intros [= <- <-].
  eapply (IH c1 o); [by eapply next_table|done].
Qed.

Lemma rc4_inverse_witness :
  exists c out c', make (text "Key") = Some c /\ apply c (text "Plaintext") = (out, c') /\
    length out = length (text "Plaintext") /\ is_table (s_ c') /\ apply c out = (text "Plaintext", c').
Proof.
  eexists. destruct (rc4_inverse (text "Key") _ (text "Plaintext") eq_refl) as (out & c' & H). exists out, c'. by split.
Defined.
End LegacyCrypto.
