(* ===== verification/NtlmCodec.v ===== *)
(** * NTLM messages

    Models the first half of [src/src/farland/auth/ntlm.cpp] with its part of
    [ntlm.hpp]: AV pairs and the codecs of the NEGOTIATE, CHALLENGE and
    AUTHENTICATE messages, whose payload fields lie anywhere behind a header that
    names their lengths and offsets.  Names are UTF-8 byte sequences.

    The theorems are in [NtlmMessages]: the messages come back as they were encoded;
    the fields of a message that is accepted lie behind the header, inside the
    message, and apart ([check_fields_exact]). *)

From S2P Require Import Prelude Buffers CodecLogic Fields Text.
Open Scope Z_scope.

Module NtlmCodec.

(** ** Constants *)

Definition ntlmssp_signature : list byte := String.list_byte_of_string "NTLMSSP" ++ [byte_of 0].
Definition message_negotiate : Z := 1.
Definition message_challenge : Z := 2.
Definition message_authenticate : Z := 3.

Definition negotiate_unicode : Z := 0x00000001.
Definition request_target : Z := 0x00000004.
Definition negotiate_sign : Z := 0x00000010.
Definition negotiate_seal : Z := 0x00000020.
Definition negotiate_ntlm : Z := 0x00000200.
Definition anonymous : Z := 0x00000800.
Definition negotiate_always_sign : Z := 0x00008000.
Definition target_type_domain : Z := 0x00010000.
Definition negotiate_extended_sessionsecurity : Z := 0x00080000.
Definition negotiate_target_info : Z := 0x00800000.
Definition negotiate_version : Z := 0x02000000.
Definition negotiate_128 : Z := 0x20000000.
Definition negotiate_key_exch : Z := 0x40000000.
Definition negotiate_56 : Z := 0x80000000.

Definition av_eol : Z := 0x0000.
Definition av_nb_computer_name : Z := 0x0001.
Definition av_nb_domain_name : Z := 0x0002.
Definition av_dns_computer_name : Z := 0x0003.
Definition av_dns_domain_name : Z := 0x0004.
Definition av_flags : Z := 0x0006.
Definition av_timestamp : Z := 0x0007.
Definition av_target_name : Z := 0x0009.
Definition av_channel_bindings : Z := 0x000A.

Definition av_flag_mic_present : Z := 0x00000002.

Definition max_name_chars : Z := 256.
Definition max_name_bytes : Z := max_name_chars * 2.
Definition max_av_pairs : Z := 32.
Definition mic_size : Z := 16.

(** ** Data *)

Record AvPair := mkAv { av_id : Z; av_value : list byte }.

Record Version := mkVersion { major : Z; minor : Z; build : Z; revision : Z }.
Definition default_version : Version := mkVersion 10 0 20348 15.

Record NegotiateMessage := mkNegotiate {
  neg_flags : Z;
  neg_domain : list byte;
  neg_workstation : list byte;
  neg_version : option Version }.

Record ChallengeMessage := mkChallenge {
  ch_flags : Z;
  server_challenge : list byte;
  target_name : list byte;
  target_info : list AvPair;
  ch_version : option Version }.

Record AuthenticateMessage := mkAuthenticate {
  auth_flags : Z;
  lm_challenge_response : list byte;
  nt_challenge_response : list byte;
  domain : list byte;
  user : list byte;
  workstation : list byte;
  encrypted_random_session_key : list byte;
  auth_version : option Version;
  mic : option (list byte) }.

Definition authenticate_mic_offset (flags : Z) : Z := if has_bits flags negotiate_version then 72 else 64.

(** ** Payload fields *)

Record Field := mkField { f_length : Z; f_offset : Z }.

Definition read_field : Dec Field :=
  let* length := ReaderOps.u16le in
  let* _ := ReaderOps.skip 2 in
  let* offset := ReaderOps.u32le in
  dret (mkField length offset).

Definition read_header (type : Z) : Dec unit :=
  let* signature := ReaderOps.bytes (len ntlmssp_signature) in
  if negb (bool_decide (signature = ntlmssp_signature)) then dfail invalid_value "not an NTLMSSP message" 0
  else
    let* at_ := dask Reader.offset in
    let* message_type := ReaderOps.u32le in
    if negb (message_type =? type) then dfail invalid_value "unexpected NTLM message type" at_ else dret tt.

Definition nonempty (f : Field) : bool := negb (f_length f =? 0).

Definition payload_begin (fields : list Field) (message_size : Z) : Z :=
  foldl (fun begin f => if nonempty f then Z.min begin (f_offset f) else begin) message_size fields.

(** The first loop of [check_fields]: the fields in use, each in its place. *)
Fixpoint used_fields (fields : list Field) (header_end message_size : Z) : Result (list Field) :=
  match fields with
  | [] => Ok []
  | field :: fields' =>
      if f_length field =? 0 then used_fields fields' header_end message_size
      else if f_offset field <? header_end
      then fail invalid_length "NTLM payload field overlaps the header" (f_offset field)
      else if (message_size <? f_offset field) || (message_size - f_offset field <? f_length field)
      then fail invalid_length "NTLM payload field outside the message" (f_offset field)
      else let? used := used_fields fields' header_end message_size in Ok (field :: used)
  end.

(** [std::ranges::sort] by offset; fields at the same offset overlap, in any order. *)
Fixpoint insert_field (f : Field) (fields : list Field) : list Field :=
  match fields with
  | [] => [f]
  | g :: fields' => if f_offset f <=? f_offset g then f :: g :: fields' else g :: insert_field f fields'
  end.
Definition sort_fields (fields : list Field) : list Field := foldr insert_field [] fields.

Fixpoint check_apart (sorted : list Field) : Result unit :=
  match sorted with
  | f :: (g :: _) as rest =>
      if f_offset g <? f_offset f + f_length f then fail invalid_length "NTLM payload fields overlap" (f_offset g)
      else check_apart rest
  | _ => Ok tt
  end.

Definition check_fields (fields : list Field) (header_end message_size : Z) : Result unit :=
  let? used := used_fields fields header_end message_size in
  check_apart (sort_fields used).

Definition payload (message : list byte) (field : Field) : Result (list byte) :=
  if f_length field =? 0 then Ok []
  else match (let* _ := ReaderOps.skip (f_offset field) in ReaderOps.bytes (f_length field)) (Reader.make message 0) with
       | Ok (b, _) => Ok b
       | Err e => Err e
       end.

Definition field_placeholder : Enc Z :=
  let! position := Writer.size in
  Writer.zeros 8 ;;;
  eret position.

Definition append_payload (field : Z) (data : list byte) : Enc unit :=
  let! size := Writer.size in
  eassert ((len data <=? 0xFFFF) && (size <=? 0xFFFFFFFF)) ;;;
  Writer.patch_u16le field (len data) ;;;
  Writer.patch_u16le (field + 2) (len data) ;;;
  Writer.patch_u32le (field + 4) size ;;;
  Writer.bytes data.

Definition read_version : Dec Version :=
  let* major := ReaderOps.u8 in
  let* minor := ReaderOps.u8 in
  let* build := ReaderOps.u16le in
  let* _ := ReaderOps.skip 3 in
  let* revision := ReaderOps.u8 in
  dret (mkVersion major minor build revision).

Definition write_version (v : Version) : Enc unit :=
  Writer.u8 (major v) ;;;
  Writer.u8 (minor v) ;;;
  Writer.u16le (build v) ;;;
  Writer.zeros 3 ;;;
  Writer.u8 (revision v).

(** The loop of [decode_name]: where a NUL is. *)
Fixpoint nul_at (bytes : list byte) (i : Z) : option Z :=
  match bytes with
  | lo :: hi :: bytes' => if (u8_of lo =? 0) && (u8_of hi =? 0) then Some i else nul_at bytes' (i + 2)
  | _ => None
  end.

Definition decode_name (bytes : list byte) (at_ : Z) : Result (list byte) :=
  if negb (len bytes mod 2 =? 0) then fail invalid_length "odd-length UTF-16 name" at_
  else if max_name_bytes <? len bytes then fail limit_exceeded "NTLM name too long" at_
  else match nul_at bytes 0 with
       | Some i => fail invalid_value "NUL in NTLM name" (at_ + i)
       | None => Ok (Text.utf16le_to_utf8 bytes)
       end.

(** ** AV pairs *)

Definition av_pair_length (id : Z) : option Z :=
  if id =? av_flags then Some 4
  else if id =? av_timestamp then Some 8
  else if id =? av_channel_bindings then Some 16
  else None.

(** The loop: no more than [max_av_pairs] pairs and the end of the list. *)
Fixpoint av_loop (fuel : nat) (pairs : list AvPair) : Dec (list AvPair) :=
  match fuel with
  | O => dfail limit_exceeded "too many AV pairs" 0
  | S fuel' =>
      let* at_ := dask Reader.offset in
      let* id := ReaderOps.u16le in
      let* length := ReaderOps.u16le in
      let* value := ReaderOps.bytes length in
      if id =? av_eol then
        if negb (length =? 0) then dfail invalid_length "MsvAvEOL has a value" at_ else dret pairs
      else if len pairs =? max_av_pairs then dfail limit_exceeded "too many AV pairs" at_
      else if existsb (fun pair => av_id pair =? id) pairs then dfail invalid_value "duplicate AV pair" at_
      else if match av_pair_length id with Some expected => negb (expected =? length) | None => false end
      then dfail invalid_length "AV pair has the wrong length" at_
      else av_loop fuel' (pairs ++ [mkAv id value])
  end.
Definition decode_av_pairs : Dec (list AvPair) := av_loop 33 [].

Definition write_av (pair : AvPair) : Enc unit :=
  eassert (negb (av_id pair =? av_eol) && (len (av_value pair) <=? 0xFFFF)) ;;;
  Writer.u16le (av_id pair) ;;;
  Writer.u16le (len (av_value pair)) ;;;
  Writer.bytes (av_value pair).
Definition encode_av_pairs (pairs : list AvPair) : Enc unit :=
  eeach write_av pairs ;;;
  Writer.u16le av_eol ;;;
  Writer.u16le 0.

Definition find_av_pair (pairs : list AvPair) (id : Z) : option (list byte) :=
  av_value <$> List.find (fun pair => av_id pair =? id) pairs.

(** ** Messages *)

Definition result {A} (m : Dec A) (message : list byte) : Result A :=
  match m (Reader.make message 0) with Ok (a, _) => Ok a | Err e => Err e end.

(** The Version field, if the payload leaves room for it, and the end of the header so far. *)
Definition maybe_version (flags begin : Z) : Dec (option Version * Z) :=
  let* header_end := dask Reader.position in
  if has_bits flags negotiate_version && (header_end + 8 <=? begin) then
    let* version := read_version in
    let* header_end := dask Reader.position in
    dret (Some version, header_end)
  else dret (None, header_end).

Definition write_negotiate (m : NegotiateMessage) : Enc unit :=
  Writer.bytes ntlmssp_signature ;;;
  Writer.u32le message_negotiate ;;;
  Writer.u32le (neg_flags m) ;;;
  let! domain := field_placeholder in
  let! workstation := field_placeholder in
  ewhen (neg_version m) write_version ;;;
  append_payload domain (neg_domain m) ;;;
  append_payload workstation (neg_workstation m).
Definition encode_negotiate (m : NegotiateMessage) : option (list byte) := Writer.run (write_negotiate m).

Definition decode_negotiate (message : list byte) : Result NegotiateMessage :=
  result (
    let* _ := read_header message_negotiate in
    let* flags := ReaderOps.u32le in
    let* domain := read_field in
    let* workstation := read_field in
    let fields := [domain; workstation] in
    let* (version, header_end) := maybe_version flags (payload_begin fields (len message)) in
    let* _ := dlift (check_fields fields header_end (len message)) in
    let* domain := dlift (payload message domain) in
    let* workstation := dlift (payload message workstation) in
    if (max_name_bytes <? len domain) || (max_name_bytes <? len workstation)
    then dfail limit_exceeded "NTLM name too long" header_end
    else dret (mkNegotiate flags domain workstation version)) message.

Definition write_challenge (m : ChallengeMessage) : Enc unit :=
  Writer.bytes ntlmssp_signature ;;;
  Writer.u32le message_challenge ;;;
  let! target_name_ := field_placeholder in
  Writer.u32le (ch_flags m) ;;;
  Writer.bytes (server_challenge m) ;;;
  Writer.zeros 8 ;;;
  let! target_info_ := field_placeholder in
  ewhen (ch_version m) write_version ;;;
  append_payload target_name_ (target_name m) ;;;
  if negb (bool_decide (target_info m = [])) || has_bits (ch_flags m) negotiate_target_info then
    let! pairs := elocal (encode_av_pairs (target_info m)) in
    append_payload target_info_ pairs
  else eret tt.
Definition encode_challenge (m : ChallengeMessage) : option (list byte) := Writer.run (write_challenge m).

Definition decode_challenge (message : list byte) : Result ChallengeMessage :=
  result (
    let* _ := read_header message_challenge in
    let* target_name := read_field in
    let* flags := ReaderOps.u32le in
    let* challenge := ReaderOps.bytes 8 in
    let* _ := ReaderOps.skip 8 in
    let* target_info := read_field in
    let fields := [target_name; target_info] in
    let* (version, header_end) := maybe_version flags (payload_begin fields (len message)) in
    let* _ := dlift (check_fields fields header_end (len message)) in
    let* name := dlift (payload message target_name) in
    let* pairs := (if negb (f_length target_info =? 0) then
        let* info := dlift (payload message target_info) in
        within (Reader.make info (f_offset target_info)) decode_av_pairs
      else dret []) in
    dret (mkChallenge flags challenge name pairs version)) message.

Definition write_authenticate (m : AuthenticateMessage) : Enc unit :=
  let version_flag := has_bits (auth_flags m) negotiate_version in
  Writer.bytes ntlmssp_signature ;;;
  Writer.u32le message_authenticate ;;;
  let! lm := field_placeholder in
  let! nt := field_placeholder in
  let! domain_field := field_placeholder in
  let! user_field := field_placeholder in
  let! workstation_field := field_placeholder in
  let! session_key := field_placeholder in
  Writer.u32le (auth_flags m) ;;;
  (if bool_decide (auth_version m <> None) || (bool_decide (mic m <> None) && version_flag)
   then write_version (default default_version (auth_version m)) else eret tt) ;;;
  ewhen (mic m) (fun mic =>
    let! size := Writer.size in
    eassert (size =? authenticate_mic_offset (auth_flags m)) ;;;
    Writer.bytes mic) ;;;
  append_payload domain_field (Text.utf8_to_utf16le (domain m)) ;;;
  append_payload user_field (Text.utf8_to_utf16le (user m)) ;;;
  append_payload workstation_field (Text.utf8_to_utf16le (workstation m)) ;;;
  append_payload lm (lm_challenge_response m) ;;;
  append_payload nt (nt_challenge_response m) ;;;
  append_payload session_key (encrypted_random_session_key m).
Definition encode_authenticate (m : AuthenticateMessage) : option (list byte) := Writer.run (write_authenticate m).

(** The MIC, if the header ends where it would begin and the payload leaves room for it. *)
Definition maybe_mic (flags begin header_end : Z) : Dec (option (list byte) * Z) :=
  if (header_end =? authenticate_mic_offset flags) && (header_end + mic_size <=? begin) then
    let* mic := ReaderOps.bytes mic_size in
    let* header_end := dask Reader.position in
    dret (Some mic, header_end)
  else dret (None, header_end).

Definition decode_authenticate (message : list byte) : Result AuthenticateMessage :=
  result (
    let* _ := read_header message_authenticate in
    let* lm := read_field in
    let* nt := read_field in
    let* domain := read_field in
    let* user := read_field in
    let* workstation := read_field in
    let* session_key := read_field in
    let* flags_at := dask Reader.offset in
    let* flags := ReaderOps.u32le in
    if negb (has_bits flags negotiate_unicode) then dfail unsupported "OEM AUTHENTICATE_MESSAGE" flags_at
    else
      let fields := [lm; nt; domain; user; workstation; session_key] in
      let begin := payload_begin fields (len message) in
      let* (version, header_end) := maybe_version flags begin in
      let* (mic, header_end) := maybe_mic flags begin header_end in
      let* _ := dlift (check_fields fields header_end (len message)) in
      let* lm := dlift (payload message lm) in
      let* nt := dlift (payload message nt) in
      let* key := dlift (payload message session_key) in
      let* domain_bytes := dlift (payload message domain) in
      let* user_bytes := dlift (payload message user) in
      let* workstation_bytes := dlift (payload message workstation) in
      let* domain := dlift (decode_name domain_bytes (f_offset domain)) in
      let* user := dlift (decode_name user_bytes (f_offset user)) in
      let* workstation := dlift (decode_name workstation_bytes (f_offset workstation)) in
      dret (mkAuthenticate flags lm nt domain user workstation key version mic)) message.
End NtlmCodec.
