(* ===== verification/NtlmMessages.v ===== *)
(** * NTLM messages come back

    Theorems about [NtlmCodec]: what [check_fields] accepts, AV pairs and names,
    and the round trips of the three messages. *)

From S2P Require Import Prelude Buffers CodecLogic Fields Text NtlmCodec.
Open Scope Z_scope.

Module NtlmMessages.
Import NtlmCodec.

(** ** Payload fields *)

Definition field_end (f : Field) : Z := f_offset f + f_length f.
Definition apart (f g : Field) : Prop := field_end f <= f_offset g \/ field_end g <= f_offset f.
Definition inside (header_end size : Z) (f : Field) : Prop := header_end <= f_offset f /\ field_end f <= size.
Definition in_use (fields : list Field) : list Field := List.filter nonempty fields.

Lemma in_use_cons f fields : in_use (f :: fields) = if f_length f =? 0 then in_use fields else f :: in_use fields.
Proof. unfold in_use. cbn [List.filter]. unfold nonempty at 1. by destruct (f_length f =? 0). Qed.

Lemma used_fields_spec fields header_end size :
  Forall (fun f => 0 <= f_length f) fields ->
  match used_fields fields header_end size with
  | Ok used => used = in_use fields /\ Forall (inside header_end size) used
  | Err _ => ~ Forall (inside header_end size) (in_use fields)
  end.
Proof.
  induction 1 as [|f fields Hf Hfs IH]; [done|]. cbn [used_fields]. rewrite in_use_cons.
  destruct (Z.eqb_spec (f_length f) 0) as [E|E]; [exact IH|].
  assert (~ inside header_end size f -> ~ Forall (inside header_end size) (f :: in_use fields)) as Hi
    by (intros Hn Hfa; by inversion Hfa).
  destruct (Z.ltb_spec (f_offset f) header_end); [apply Hi; unfold inside, field_end; lia|].
  destruct (Z.ltb_spec size (f_offset f)); [apply Hi; unfold inside, field_end; lia|].
  destruct (Z.ltb_spec (size - f_offset f) (f_length f)); [apply Hi; unfold inside, field_end; lia|]. cbn [orb].
  destruct (used_fields fields header_end size) as [used|e]; cbn [rbind].
  - destruct IH as [-> IH]. split; [done|]. constructor; [unfold inside, field_end; lia|done].
  - intros Hfa. inversion Hfa. by apply IH.
Qed.

(** Pairwise apart, each used field once. *)
Definition all_apart : list Field -> Prop := ForallOrdPairs apart.

Lemma apart_sym f g : apart f g -> apart g f.
Proof. unfold apart. tauto. Qed.

Lemma all_apart_cons f fields : all_apart (f :: fields) <-> Forall (apart f) fields /\ all_apart fields.
Proof. split; [by inversion 1|]. intros [? ?]. by constructor. Qed.

Lemma insert_perm f fields : insert_field f fields ≡ₚ f :: fields.
Proof.
  induction fields as [|g fields IH]; cbn [insert_field]; [done|]. destruct (_ <=? _); [done|]. rewrite IH. apply Permutation_swap.
Qed.

Lemma sort_perm fields : sort_fields fields ≡ₚ fields.
Proof. induction fields as [|f fields IH]; cbn; [done|]. by rewrite insert_perm, IH. Qed.

Lemma all_apart_perm l l' : l ≡ₚ l' -> all_apart l -> all_apart l'.
Proof.
  induction 1 as [|f l l' Hp IH|f g l|l1 l2 l3 _ IH1 _ IH2]; [done| | |by auto].
  - rewrite !all_apart_cons. intros [Hf Hl]. split; [by rewrite <- Hp|by apply IH].
  - rewrite !all_apart_cons, !Forall_cons. intros [[? ?] [? ?]]. split_and!; [by apply apart_sym|done..].
Qed.

(** By offset. *)
Inductive in_order : list Field -> Prop :=
  | order_nil : in_order []
  | order_cons f l : Forall (fun g => f_offset f <= f_offset g) l -> in_order l -> in_order (f :: l).

Lemma insert_order f l : in_order l -> in_order (insert_field f l).
Proof.
  induction 1 as [|g l Hg Hl IH]; cbn [insert_field]; [repeat constructor|].
  destruct (Z.leb_spec (f_offset f) (f_offset g)).
  - constructor; [|by constructor]. constructor; [done|]. eapply Forall_impl; [exact Hg|]. cbn. lia.
  - constructor; [|done]. rewrite insert_perm. constructor; [lia|done].
Qed.

Lemma sort_order l : in_order (sort_fields l).
Proof. induction l as [|f l IH]; cbn; [constructor|by apply insert_order]. Qed.

Lemma check_apart_spec l : in_order l -> Forall (fun f => 0 < f_length f) l ->
  match check_apart l with Ok _ => all_apart l | Err _ => ~ all_apart l end.
Proof.
  induction 1 as [|f l Hf Hl IH]; intros Hp; [constructor|]. inversion Hp as [|? ? Hf0 Hp']; subst. specialize (IH Hp').
  destruct l as [|g l]; [by repeat constructor|].
  change (check_apart (f :: g :: l)) with (if f_offset g <? f_offset f + f_length f
    then fail invalid_length "NTLM payload fields overlap" (f_offset g) else check_apart (g :: l)).
  inversion Hf as [|? ? Hfg Hf']; subst. inversion Hp' as [|? ? Hg0 ?]; subst.
  destruct (Z.ltb_spec (f_offset g) (f_offset f + f_length f)) as [Hlt|Hlt].
  { change (~ all_apart (f :: g :: l)). rewrite all_apart_cons, Forall_cons. unfold apart, field_end. lia. }
  destruct (check_apart (g :: l)) as [u|e].
  - apply all_apart_cons. split; [|done]. inversion Hl as [|? ? Hg Hl']; subst. constructor; [left; unfold field_end; lia|].
    eapply Forall_impl; [exact Hg|]. intros x Hx. left. unfold field_end. cbn in Hx. lia.
  - rewrite all_apart_cons. tauto.
Qed.

Lemma in_use_pos fields : Forall (fun f => 0 <= f_length f) fields -> Forall (fun f => 0 < f_length f) (in_use fields).
Proof.
  intros H. apply Forall_forall. intros f Hf. apply list_elem_of_In, filter_In in Hf as [Hin Hn].
  rewrite Forall_forall in H. apply list_elem_of_In in Hin. specialize (H f Hin). unfold nonempty in Hn. bools. lia.
Qed.

(** What is accepted: the fields that are not empty lie behind the header, inside
    the message and apart from each other, in whatever order; and nothing else. *)
Lemma check_fields_exact fields header_end size :
  Forall (fun f => 0 <= f_length f) fields ->
  check_fields fields header_end size = Ok tt <->
  Forall (inside header_end size) (in_use fields) /\ all_apart (in_use fields).
Proof.
  intros H0. pose proof (used_fields_spec fields header_end size H0) as Hu. unfold check_fields.
  destruct (used_fields fields header_end size) as [used|e]; cbn [rbind]; [|split; [done|tauto]].
  destruct Hu as [-> Hi]. pose proof (in_use_pos fields H0) as Hp. rewrite <- (sort_perm (in_use fields)) in Hp.
  pose proof (check_apart_spec _ (sort_order (in_use fields)) Hp) as Hc.
  destruct (check_apart (sort_fields (in_use fields))) as [[]|e].
  - split; [intros _; split; [done|]|done]. eapply all_apart_perm; [apply sort_perm|done].
  - split; [done|]. intros [_ Ha]. destruct Hc. eapply all_apart_perm; [symmetry; apply sort_perm|done].
Qed.

(** ** Payloads one after the other *)

Fixpoint place (offset : Z) (datas : list (list byte)) : list Field :=
  match datas with
  | [] => []
  | d :: datas' => mkField (len d) offset :: place (offset + len d) datas'
  end.

Lemma place_lengths o datas : Forall (fun f => 0 <= f_length f) (place o datas).
Proof. revert o. induction datas as [|d datas IH]; intros o; constructor; [apply len_nonneg|apply IH]. Qed.

Lemma place_bounds o datas : Forall (fun f => o <= f_offset f /\ field_end f <= o + len (concat datas)) (place o datas).
Proof.
  revert o. induction datas as [|d datas IH]; intros o; [constructor|]. cbn [place concat]. pose proof (len_nonneg d).
  pose proof (len_nonneg (concat datas)). constructor; [unfold field_end; cbn; len_lia|].
  eapply Forall_impl; [apply IH|]. cbn. intros f. len_lia.
Qed.

Lemma place_apart o datas : all_apart (place o datas).
Proof.
  revert o. induction datas as [|d datas IH]; intros o; [constructor|]. cbn [place]. apply all_apart_cons. split; [|apply IH].
  eapply Forall_impl; [apply place_bounds|]. intros f [Hf _]. left. exact Hf.
Qed.

Lemma all_apart_filter l : all_apart l -> all_apart (in_use l).
Proof.
  induction 1 as [|f l Hf Hl IH]; [constructor|]. rewrite in_use_cons. destruct (f_length f =? 0); [done|].
  apply all_apart_cons. split; [|done]. apply Forall_forall. intros g Hg. apply list_elem_of_In, filter_In in Hg as [Hg _].
  rewrite Forall_forall in Hf. by apply Hf, list_elem_of_In.
Qed.

Lemma placed_checks fields o datas : fields ≡ₚ place o datas -> check_fields fields o (o + len (concat datas)) = Ok tt.
Proof.
  intros Hp. apply check_fields_exact; [rewrite Hp; apply place_lengths|]. split.
  - apply Forall_forall. intros f Hf. apply list_elem_of_In, filter_In in Hf as [Hf _]. apply list_elem_of_In in Hf. rewrite Hp in Hf.
    pose proof (place_bounds o datas) as Hb. rewrite Forall_forall in Hb. exact (Hb f Hf).
  - apply all_apart_filter. eapply all_apart_perm; [symmetry; exact Hp|apply place_apart].
Qed.

Lemma payload_begin_perm l l' : l ≡ₚ l' -> forall size, payload_begin l size = payload_begin l' size.
Proof.
  unfold payload_begin. induction 1 as [|f l l' Hp IH|f g l|l1 l2 l3 _ IH1 _ IH2]; intros size; cbn [foldl]; auto.
  - f_equal. destruct (nonempty f), (nonempty g); lia.
  - by rewrite IH1.
Qed.

(** The payload begins where it was placed. *)
Lemma payload_begin_place datas : forall o size,
  payload_begin (place o datas) size = if bool_decide (concat datas = []) then size else Z.min size o.
Proof.
  induction datas as [|d datas IH]; intros o size; [done|]. unfold payload_begin in *. cbn [place foldl concat].
  rewrite IH. unfold nonempty. cbn [f_length f_offset]. destruct d as [|b d].
  - cbn [len length app]. rewrite Z.add_0_r. by destruct (bool_decide _).
  - pose proof (len_nonneg d). rewrite (bool_decide_false ((b :: d) ++ _ = [])) by done.
    destruct (Z.eqb_spec (len (b :: d)) 0); [len_lia|]. cbn [negb]. destruct (bool_decide _); [done|]. len_lia.
Qed.

Lemma placed_begin fields o datas : fields ≡ₚ place o datas -> payload_begin fields (o + len (concat datas)) = o.
Proof.
  intros Hp. rewrite (payload_begin_perm _ _ Hp), payload_begin_place. pose proof (len_nonneg (concat datas)).
  case_bool_decide as E; [rewrite E, len_nil|]; lia.
Qed.

Lemma reads_pad n e k : n = len e -> reads (ReaderOps.skip n) e k (eq tt).
Proof. intros H. eapply reads_weaken; [by apply reads_skip|]. by intros []. Qed.

Lemma placed_payload message header pre d post o :
  message = header ++ concat (pre ++ d :: post) -> o = len header + len (concat pre) ->
  payload message (mkField (len d) o) = Ok d.
Proof.
  intros -> ->. unfold payload. cbn [f_length f_offset]. destruct (Z.eqb_spec (len d) 0) as [E|E]; [by apply len_0 in E as ->|].
  unfold Reader.make. rewrite concat_app. cbn [concat]. rewrite app_assoc.
  erewrite dbind_reads by (apply reads_pad; len_lia). by rewrite bytes_mk.
Qed.

(** ** Writing a message *)

Definition field_bytes (f : Field) : list byte :=
  Writer.le_bytes 2 (f_length f) ++ Writer.le_bytes 2 (f_length f) ++ Writer.le_bytes 4 (f_offset f).

Lemma len_field_bytes f : len (field_bytes f) = 8.
Proof. unfold field_bytes. len_lia. Qed.
#[export] Hint Rewrite len_field_bytes : len.

Lemma patch_at pos a x d e buf : pos = len a -> buf = a ++ x ++ e -> len x = len d -> Writer.patch pos d buf = Some (tt, a ++ d ++ e).
Proof. intros -> -> Hx. pose proof (patch_mk a [] x d e Hx) as H. cbn [app] in H. rewrite len_nil, Z.add_0_r in H. exact H. Qed.

(** A placeholder is filled in, and the data goes to the end. *)
Lemma append_at {A} pos a x e data buf (k : Enc A) :
  buf = a ++ x ++ e -> pos = len a -> length x = 8%nat -> len data <= 0xFFFF -> len buf <= 0xFFFFFFFF ->
  (append_payload pos data ;;; k) buf = k (a ++ field_bytes (mkField (len data) (len buf)) ++ e ++ data).
Proof.
  intros -> -> Hx Hd Hb. destruct x as [|x0 [|x1 [|x2 [|x3 [|x4 [|x5 [|x6 [|x7 [|]]]]]]]]]; try discriminate Hx.
  unfold append_payload, ebind, Writer.size, eassert. set (size := len _) in *.
  rewrite (proj2 (Z.leb_le _ _) Hd), (proj2 (Z.leb_le _ _) Hb). cbn [andb].
  unfold Writer.patch_u16le, Writer.patch_u32le, Writer.bytes, field_bytes. cbn [f_length f_offset].
  rewrite (patch_at _ a [x0; x1] _ ([x2; x3; x4; x5; x6; x7] ++ e)) by len_lia || done.
  rewrite (patch_at _ (a ++ Writer.le_bytes 2 (len data)) [x2; x3] _ ([x4; x5; x6; x7] ++ e)); [|len_lia|by rewrite <- !app_assoc|len_lia].
  rewrite (patch_at _ ((a ++ Writer.le_bytes 2 (len data)) ++ Writer.le_bytes 2 (len data)) [x4; x5; x6; x7] _ e);
    [|len_lia|by rewrite <- !app_assoc|len_lia].
  by rewrite <- !app_assoc.
Qed.

Lemma seq_at {A} (m : Enc unit) (k : Enc A) w e : writes m e -> (m ;;; k) w = k (w ++ e).
Proof. intros H. unfold ebind. by rewrite H. Qed.

Definition blank : list byte := replicate 8 (byte_of 0).

Lemma placeholder_at {A} (k : Z -> Enc A) w : (let! p := field_placeholder in k p) w = k (len w) (w ++ blank).
Proof. done. Qed.

Lemma append_last pos a x e data buf :
  buf = a ++ x ++ e -> pos = len a -> length x = 8%nat -> len data <= 0xFFFF -> len buf <= 0xFFFFFFFF ->
  append_payload pos data buf = Some (tt, a ++ field_bytes (mkField (len data) (len buf)) ++ e ++ data).
Proof.
  intros E1 E2 E3 E4 E5. pose proof (append_at pos a x e data buf (eret tt) E1 E2 E3 E4 E5) as H. unfold ebind at 1, eret in H.
  by destruct (append_payload pos data buf) as [[[] w]|].
Qed.

Definition version_bytes (v : Version) : list byte :=
  [byte_of (major v)] ++ [byte_of (minor v)] ++ Writer.le_bytes 2 (build v) ++ replicate 3 (byte_of 0) ++ [byte_of (revision v)].
Definition version_ok (v : Version) : bool := u8_ok (major v) && u8_ok (minor v) && u16_ok (build v) && u8_ok (revision v).

Lemma len_version_bytes v : len (version_bytes v) = 8.
Proof. unfold version_bytes. len_lia. Qed.
#[export] Hint Rewrite len_version_bytes : len.

Lemma writes_version v : writes (write_version v) (version_bytes v).
Proof. unfold write_version, version_bytes. repeat (apply writes_seq; [apply writes_bytes|]). apply writes_bytes. Qed.

Lemma reads_version v k : version_ok v = true -> reads read_version (version_bytes v) k (eq v).
Proof.
  destruct v as [a b c d]. unfold version_ok. cbn [major minor build revision]. intros H. widths. unfold read_version, version_bytes.
  cbn [major minor build revision]. repeat rstep. done.
Qed.

(** ** Reading it *)

Definition small_field (f : Field) : Prop := 0 <= f_length f < 65536 /\ 0 <= f_offset f < 4294967296.

Lemma reads_field f k : small_field f -> reads read_field (field_bytes f) k (eq f).
Proof. destruct f as [l o]. unfold small_field, read_field, field_bytes. cbn [f_length f_offset]. intros [? ?]. by repeat rstep. Qed.

Definition signature_bytes (type : Z) : list byte := ntlmssp_signature ++ Writer.le_bytes 4 type.

Lemma reads_ntlm_header type k : 0 <= type < 4294967296 -> reads (read_header type) (signature_bytes type) k (eq tt).
Proof.
  intros Ht. unfold read_header, signature_bytes. rstep. rewrite bool_decide_true by done. cbn [negb]. rstep. rstep.
  rewrite Z.eqb_refl. by apply reads_ret.
Qed.

(** The optional Version field, where it is, and nothing where it is not. *)
Definition version_part (v : option Version) : list byte := match v with Some v => version_bytes v | None => [] end.

Lemma maybe_version_at flags begin v s k b :
  opt_ok version_ok v = true -> has_bits flags negotiate_version = bool_decide (v <> None) ->
  len s + len (version_part v) <= begin ->
  maybe_version flags begin (Reader.mk s (version_part v ++ k) b) =
  Ok ((v, len s + len (version_part v)), Reader.mk (s ++ version_part v) k b).
Proof.
  intros Hv Hf Hb. unfold maybe_version. rewrite dbind_ask. change (Reader.position _) with (len s). rewrite Hf.
  destruct v as [v|]; cbn [version_part] in *.
  - rewrite bool_decide_true by done. rewrite len_version_bytes in *. rewrite (proj2 (Z.leb_le _ _) Hb). cbn [andb].
    erewrite dbind_reads by (by apply reads_version). rewrite dbind_ask. unfold dret, Reader.position. cbn [Reader.seen].
    do 3 f_equal. len_lia.
  - rewrite bool_decide_false by (intros Hn; by apply Hn). cbn [andb app]. rewrite len_nil, Z.add_0_r, app_nil_r. done.
Qed.
(** ** AV pairs *)

Definition av_ok (p : AvPair) : bool :=
  u16_ok (av_id p) && negb (av_id p =? av_eol) && (len (av_value p) <=? 0xFFFF) &&
  match av_pair_length (av_id p) with Some n => n =? len (av_value p) | None => true end.
Definition avs_ok (pairs : list AvPair) : bool :=
  forallb av_ok pairs && (len pairs <=? max_av_pairs) && bool_decide (NoDup (av_id <$> pairs)).

Definition av_bytes (p : AvPair) : list byte :=
  Writer.le_bytes 2 (av_id p) ++ Writer.le_bytes 2 (len (av_value p)) ++ av_value p.
Definition avs_bytes (pairs : list AvPair) : list byte :=
  concat (av_bytes <$> pairs) ++ Writer.le_bytes 2 av_eol ++ Writer.le_bytes 2 0.

Lemma writes_avs pairs : forallb av_ok pairs = true -> writes (encode_av_pairs pairs) (avs_bytes pairs).
Proof.
  intros H. unfold encode_av_pairs, avs_bytes. apply writes_seq; [|apply writes_seq; apply writes_bytes].
  rewrite forallb_forall in H. apply writes_each, Forall_forall. intros p Hp. apply list_elem_of_In, H in Hp. unfold av_ok in Hp. bools.
  unfold write_av. apply writes_assert; [rewrite andb_true_iff, negb_true_iff, Z.eqb_neq, Z.leb_le; done|].
  unfold av_bytes. repeat (apply writes_seq; [apply writes_bytes|]). apply writes_bytes.
Qed.

Lemma existsb_id pairs id : ~ In id (av_id <$> pairs) -> existsb (fun pair => av_id pair =? id) pairs = false.
Proof.
  intros H. apply not_true_iff_false. rewrite existsb_exists. intros (p & Hp & E). apply Z.eqb_eq in E as <-.
  apply H. by apply (in_map av_id).
Qed.

Lemma reads_av_loop todo : forall fuel done_ k,
  forallb av_ok todo = true -> (length todo < fuel)%nat -> len done_ + len todo <= max_av_pairs ->
  NoDup (av_id <$> (done_ ++ todo)) -> reads (av_loop fuel done_) (avs_bytes todo) k (eq (done_ ++ todo)).
Proof.
  induction todo as [|p todo IH]; intros [|fuel] done_ k Hok Hf Hl Hn; try (cbn in Hf; lia).
  - cbn [av_loop]. unfold avs_bytes. cbn [fmap list_fmap concat app]. apply reads_ask. intros s b.
    eapply reads_bind; [by apply (reads_u16le av_eol)|]. intros ? <-.
    eapply reads_bind_nil; [by apply (reads_u16le 0)|]. intros ? <-.
    eapply reads_bind_pure; [by apply (reads_bytes 0 [])|]. intros ? <-. change (av_eol =? av_eol) with true. cbn [negb Z.eqb].
    apply reads_ret. by rewrite app_nil_r.
  - cbn [forallb] in Hok. apply andb_prop in Hok as [Hp Hok]. unfold av_ok in Hp. bools. widths. unfold avs_bytes.
    cbn [fmap list_fmap concat]. unfold av_bytes at 1. rewrite <- !app_assoc. cbn [av_loop]. apply reads_ask. intros s b.
    pose proof (len_nonneg (av_value p)). eapply reads_bind; [apply reads_u16le; lia|]. intros ? <-.
    eapply reads_bind; [apply reads_u16le; lia|]. intros ? <-. eapply reads_bind; [by apply reads_bytes|]. intros ? <-.
    rewrite (proj2 (Z.eqb_neq _ _)) by done. rewrite len_cons in Hl. pose proof (len_nonneg todo).
    rewrite (proj2 (Z.eqb_neq (len done_) max_av_pairs)) by lia.
    rewrite fmap_app, fmap_cons in Hn. pose proof Hn as Hn'. apply NoDup_app in Hn' as (_ & Hd & _).
    rewrite existsb_id by (intros Hin; apply list_elem_of_In in Hin; apply (Hd _ Hin); left).
    assert (match av_pair_length (av_id p) with Some n => negb (n =? len (av_value p)) | None => false end = false) as ->
      by (destruct (av_pair_length (av_id p)); [by apply negb_false_iff|done]).
    destruct p as [id v]. cbn [av_id av_value] in *. replace (done_ ++ mkAv id v :: todo) with ((done_ ++ [mkAv id v]) ++ todo)
      by (by rewrite <- app_assoc). apply IH; [done|cbn in Hf; lia|len_lia|]. rewrite <- app_assoc, fmap_app. exact Hn.
Qed.

Lemma reads_avs pairs k : avs_ok pairs = true -> reads decode_av_pairs (avs_bytes pairs) k (eq pairs).
Proof.
  unfold avs_ok, max_av_pairs. intros H. bools. apply (reads_av_loop pairs 33 []); [done| |unfold max_av_pairs; len_lia|done].
  unfold len in *. lia.
Qed.

Lemma find_av_app pairs p : find_av_pair (pairs ++ [p]) (av_id p) = Some (av_value p) \/ In (av_id p) (av_id <$> pairs).
Proof.
  unfold find_av_pair. induction pairs as [|q pairs IH]; cbn [app List.find fmap list_fmap].
  - rewrite Z.eqb_refl. by left.
  - destruct (Z.eqb_spec (av_id q) (av_id p)) as [E|E]; [right; by left|]. destruct IH as [IH|IH]; [by left|right; by right].
Qed.

(** ** Names *)

Definition name_ok (t : list byte) : bool := text_ok max_name_bytes t.

Lemma text_scalars n t : text_ok n t = true ->
  exists cs, Forall (fun c => Text.scalar c = true /\ c <> 0) cs /\ t = Text.utf8 cs /\ Text.utf8_to_utf16le t = Text.utf16 cs.
Proof.
  unfold text_ok. intros H. bools. destruct (Text.utf8_loop_total t (length t) [] (le_n _)) as (cs & Hcs & E & _).
  change (Text.utf8_loop (length t) t []) with (Text.utf8_to_utf16le t) in E. cbn [app] in E. exists (Text.until_nul cs).
  destruct (Text.text_roundtrip cs Hcs) as [_ Hu]. rewrite E, Hu in *.
  assert (Forall (fun c => Text.scalar c = true /\ c <> 0) (Text.until_nul cs)) as Hf.
  { clear - Hcs. induction Hcs as [|c cs Hc Hcs IH]; cbn [Text.until_nul]; [constructor|]. destruct (Z.eqb_spec c 0); [constructor|].
    by constructor. }
  split_and!; [done|congruence|]. destruct (Text.text_roundtrip (Text.until_nul cs)) as [Ht _].
  { eapply Forall_impl; [exact Hf|]. by intros c []. }
  congruence.
Qed.

Lemma nul_at_utf16 cs : forall i, Forall (fun c => Text.scalar c = true /\ c <> 0) cs ->
  nul_at (Text.utf16 cs) i = None /\ len (Text.utf16 cs) mod 2 = 0.
Proof.
  induction cs as [|c cs IH]; intros i Hs; [done|]. inversion_clear Hs as [|? ? [Hc Hn] Hcs].
  assert (forall u, 0 < u < 65536 -> (u8_of (byte_of u) =? 0) && (u8_of (byte_of (Z.shiftr u 8)) =? 0) = false) as Hu.
  { intros u Hu. rewrite !u8_of_byte_of, Z.shiftr_div_pow2 by done. change (2 ^ 8) with 256.
    apply andb_false_iff. rewrite !Z.eqb_neq. lia. }
  destruct (Text.scalar_range c Hc) as (Hr & _). rewrite Text.utf16_cons. unfold Text.append_code_point, Text.append_utf16le.
  destruct (Z.leb_spec 0x10000 c); cbn [app nul_at].
  - destruct (Text.pair_units c ltac:(lia)) as (H1 & H2 & ? & ? & ?). unfold Text.is_high_surrogate, Text.is_low_surrogate in *. bools.
    rewrite !Hu by lia. destruct (IH (i + 2 + 2) Hcs) as [-> ?]. split; [done|]. len_lia.
  - rewrite Hu by lia. destruct (IH (i + 2) Hcs) as [-> ?]. split; [done|]. len_lia.
Qed.

Lemma name_decodes t at_ : name_ok t = true -> decode_name (Text.utf8_to_utf16le t) at_ = Ok t.
Proof.
  intros H. destruct (text_scalars _ _ H) as (cs & Hcs & Et & Eu). unfold name_ok, text_ok in H. bools.
  unfold decode_name. rewrite Eu. destruct (nul_at_utf16 cs 0 Hcs) as [-> ->]. cbn [Z.eqb negb]. rewrite <- Eu.
  destruct (Z.ltb_spec max_name_bytes (len (Text.utf8_to_utf16le t))); [lia|]. congruence.
Qed.

(** ** The NEGOTIATE message *)

Lemma writes_version_part v : writes (ewhen v write_version) (version_part v).
Proof. destruct v; [apply writes_version|apply writes_ret]. Qed.

Definition version_field_ok (flags : Z) (v : option Version) : bool :=
  opt_ok version_ok v && Bool.eqb (has_bits flags negotiate_version) (bool_decide (v <> None)).

Definition negotiate_ok (m : NegotiateMessage) : bool :=
  u32_ok (neg_flags m) && version_field_ok (neg_flags m) (neg_version m) &&
  (len (neg_domain m) <=? max_name_bytes) && (len (neg_workstation m) <=? max_name_bytes).

Definition negotiate_datas (m : NegotiateMessage) : list (list byte) := [neg_domain m; neg_workstation m].
Definition negotiate_header (m : NegotiateMessage) : list byte :=
  let h := 32 + len (version_part (neg_version m)) in
  signature_bytes message_negotiate ++ Writer.le_bytes 4 (neg_flags m) ++
  field_bytes (mkField (len (neg_domain m)) h) ++ field_bytes (mkField (len (neg_workstation m)) (h + len (neg_domain m))) ++
  version_part (neg_version m).
Definition negotiate_bytes (m : NegotiateMessage) : list byte := negotiate_header m ++ concat (negotiate_datas m).

Lemma len_signature_bytes type : len (signature_bytes type) = 12.
Proof. unfold signature_bytes. by rewrite len_app, len_le_bytes. Qed.
#[export] Hint Rewrite len_signature_bytes : len.

Lemma len_signature : len ntlmssp_signature = 8.
Proof. done. Qed.
#[export] Hint Rewrite len_signature : len.

Lemma len_blank : len blank = 8.
Proof. done. Qed.
#[export] Hint Rewrite len_blank : len.

Lemma len_version_part v : 0 <= len (version_part v) <= 8.
Proof. destruct v as [v|]; cbn [version_part]; len_lia. Qed.

(** [layout]: the buffer is cut where the lemma wants it. *)
Ltac layout := rewrite ?app_nil_l, <- ?app_assoc; reflexivity.

Lemma negotiate_encodes m : negotiate_ok m = true -> encode_negotiate m = Some (negotiate_bytes m).
Proof.
  destruct m as [flags d w v]. unfold negotiate_ok, max_name_bytes, max_name_chars, negotiate_bytes, negotiate_header, negotiate_datas.
  cbn [neg_flags neg_domain neg_workstation neg_version concat]. intros H. bools. pose proof (len_version_part v).
  unfold encode_negotiate, Writer.run, write_negotiate. cbn [neg_flags neg_domain neg_workstation neg_version].
  do 3 (erewrite seq_at by apply writes_bytes). rewrite !placeholder_at. erewrite seq_at by apply writes_version_part.
  erewrite (append_at _ (signature_bytes message_negotiate ++ Writer.le_bytes 4 flags) blank (blank ++ version_part v));
    [|layout|len_lia|done|lia|len_lia].
  erewrite (append_last _ (signature_bytes message_negotiate ++ Writer.le_bytes 4 flags ++ field_bytes _) blank (version_part v ++ d));
    [|layout|len_lia|done|lia|len_lia].
  cbn [fmap option_fmap option_map snd]. rewrite app_nil_r, <- !app_assoc. repeat f_equal; len_lia.
Qed.
Lemma dbind_ok {A B} (m : Dec A) (f : A -> Dec B) r a r' : m r = Ok (a, r') -> dbind m f r = f a r'.
Proof. intros H. unfold dbind. by rewrite H. Qed.

Lemma dlift_ok {A B} (x : Result A) (f : A -> Dec B) r a : x = Ok a -> dbind (dlift x) f r = f a r.
Proof. by intros ->. Qed.

Lemma version_field flags v : version_field_ok flags v = true ->
  opt_ok version_ok v = true /\ has_bits flags negotiate_version = bool_decide (v <> None).
Proof. unfold version_field_ok. intros H. by bools. Qed.

(** [get] reads what the next decoder finds in front. *)
Ltac get H := erewrite dbind_reads by (apply H; (done || assumption || len_lia)).

Lemma negotiate_decodes m : negotiate_ok m = true -> decode_negotiate (negotiate_bytes m) = Ok m.
Proof.
  intros Hok. destruct m as [flags d w v] eqn:Em. rewrite <- Em in *. assert (negotiate_datas m = [d; w]) as Ed by (by subst).
  unfold decode_negotiate, result. remember (negotiate_bytes m) as message eqn:E. unfold negotiate_bytes in E. rewrite Ed in E.
  set (h := 32 + len (version_part v)) in *. set (fields := place h [d; w]).
  assert (len (negotiate_header m) = h) as Hh by (unfold negotiate_header, h; subst m; cbn; len_lia).
  assert (len message = h + len (concat [d; w])) as Hl by (rewrite E; len_lia).
  unfold negotiate_ok, max_name_bytes, max_name_chars in Hok. subst m. cbn [neg_flags neg_domain neg_workstation neg_version] in *. bools.
  widths. pose proof (len_version_part v). pose proof (len_nonneg d). pose proof (len_nonneg w).
  match goal with Hv : version_field_ok _ _ = true |- _ => apply version_field in Hv as [Hv Hf] end.
  unfold Reader.make. rewrite E at 1. unfold negotiate_header. cbn [neg_flags neg_domain neg_workstation neg_version].
  rewrite <- !app_assoc. erewrite dbind_reads by (by apply reads_ntlm_header). erewrite dbind_reads by (by apply reads_u32le).
  erewrite dbind_reads by (apply reads_field; unfold small_field; cbn; lia).
  erewrite dbind_reads by (apply reads_field; unfold small_field; cbn; lia).
  change [mkField (len d) _; mkField (len w) _] with fields. rewrite Hl, (placed_begin _ h [d; w]) by done.
  erewrite dbind_ok by (apply maybe_version_at; [done|done|unfold h; len_lia]).
  replace (len _ + len (version_part v)) with h by (unfold h; len_lia).
  erewrite dlift_ok by (by apply placed_checks).
  erewrite dlift_ok by (apply (placed_payload _ _ [] d [w] _ E); rewrite Hh; cbn [concat]; len_lia).
  erewrite dlift_ok by (apply (placed_payload _ _ [d] w [] _ E); rewrite Hh; cbn [concat]; len_lia).
  rewrite !(proj2 (Z.ltb_ge _ _)) by (unfold max_name_bytes, max_name_chars; lia). done.
Qed.
(** A NEGOTIATE message within the limits is encoded without an assertion and
    decodes to itself. *)
Lemma negotiate_roundtrip m :
  negotiate_ok m = true -> exists e, encode_negotiate m = Some e /\ decode_negotiate e = Ok m.
Proof. intros H. exists (negotiate_bytes m). split; [by apply negotiate_encodes|by apply negotiate_decodes]. Qed.

(** ** The CHALLENGE message *)

Definition challenge_ok (m : ChallengeMessage) : bool :=
  u32_ok (ch_flags m) && version_field_ok (ch_flags m) (ch_version m) && has_bits (ch_flags m) negotiate_target_info &&
  (len (server_challenge m) =? 8) && (len (target_name m) <=? 0xFFFF) &&
  avs_ok (target_info m) && (len (avs_bytes (target_info m)) <=? 0xFFFF).

Definition challenge_datas (m : ChallengeMessage) : list (list byte) := [target_name m; avs_bytes (target_info m)].
Definition challenge_header (m : ChallengeMessage) : list byte :=
  let h := 48 + len (version_part (ch_version m)) in
  signature_bytes message_challenge ++ field_bytes (mkField (len (target_name m)) h) ++
  Writer.le_bytes 4 (ch_flags m) ++ server_challenge m ++ blank ++
  field_bytes (mkField (len (avs_bytes (target_info m))) (h + len (target_name m))) ++ version_part (ch_version m).
Definition challenge_bytes (m : ChallengeMessage) : list byte := challenge_header m ++ concat (challenge_datas m).

Lemma challenge_encodes m : challenge_ok m = true -> encode_challenge m = Some (challenge_bytes m).
Proof.
  destruct m as [flags ch name info v]. unfold challenge_ok, challenge_bytes, challenge_header, challenge_datas.
  cbn [ch_flags server_challenge target_name target_info ch_version concat]. intros H. bools. pose proof (len_version_part v).
  unfold encode_challenge, Writer.run, write_challenge. cbn [ch_flags server_challenge target_name target_info ch_version].
  match goal with Hb : has_bits flags negotiate_target_info = true |- _ => rewrite Hb end. rewrite orb_true_r.
  do 2 (erewrite seq_at by apply writes_bytes). rewrite placeholder_at. do 3 (erewrite seq_at by apply writes_bytes).
  rewrite placeholder_at. erewrite seq_at by apply writes_version_part.
  erewrite (append_at _ (signature_bytes message_challenge) blank (Writer.le_bytes 4 flags ++ ch ++ blank ++ blank ++ version_part v));
    [|layout|len_lia|done|lia|len_lia].
  unfold ebind at 1, elocal. unfold avs_ok in *. bools. erewrite writes_run by (by apply writes_avs).
  erewrite (append_last _ (signature_bytes message_challenge ++ field_bytes _ ++ Writer.le_bytes 4 flags ++ ch ++ blank) blank
    (version_part v ++ name)); [|layout|len_lia|done|lia|len_lia].
  cbn [fmap option_fmap option_map snd]. rewrite app_nil_r, <- !app_assoc. repeat f_equal; len_lia.
Qed.

Lemma challenge_decodes m : challenge_ok m = true -> decode_challenge (challenge_bytes m) = Ok m.
Proof.
  intros Hok. destruct m as [flags ch name info v] eqn:Em. rewrite <- Em in *.
  assert (challenge_datas m = [name; avs_bytes info]) as Ed by (by subst).
  unfold decode_challenge, result. remember (challenge_bytes m) as message eqn:E. unfold challenge_bytes in E. rewrite Ed in E.
  set (h := 48 + len (version_part v)) in *. set (fields := place h [name; avs_bytes info]).
  unfold challenge_ok in Hok. subst m. cbn [ch_flags server_challenge target_name target_info ch_version] in *. bools. widths.
  assert (len (challenge_header (mkChallenge flags ch name info v)) = h) as Hh by (unfold challenge_header, h; cbn; len_lia).
  assert (len message = h + len (concat [name; avs_bytes info])) as Hl by (rewrite E; len_lia).
  pose proof (len_version_part v). pose proof (len_nonneg name). pose proof (len_nonneg (avs_bytes info)).
  match goal with Hv : version_field_ok _ _ = true |- _ => apply version_field in Hv as [Hv Hf] end.
  unfold Reader.make. rewrite E at 1. unfold challenge_header. cbn [ch_flags server_challenge target_name target_info ch_version].
  rewrite <- !app_assoc. erewrite dbind_reads by (by apply reads_ntlm_header).
  erewrite dbind_reads by (apply reads_field; unfold small_field; cbn; lia).
  erewrite dbind_reads by (by apply reads_u32le). erewrite dbind_reads by (by apply reads_bytes).
  erewrite dbind_reads by (by apply reads_pad).
  erewrite dbind_reads by (apply reads_field; unfold small_field; cbn; lia).
  change [mkField (len name) _; mkField (len (avs_bytes info)) _] with fields. rewrite Hl, (placed_begin _ h [name; avs_bytes info]) by done.
  erewrite dbind_ok by (apply maybe_version_at; [done|done|unfold h; len_lia]).
  replace (len _ + len (version_part v)) with h by (unfold h; len_lia).
  erewrite dlift_ok by (by apply placed_checks).
  erewrite dlift_ok by (apply (placed_payload _ _ [] name [avs_bytes info] _ E); rewrite Hh; cbn [concat]; len_lia).
  cbn [f_length f_offset]. rewrite (proj2 (Z.eqb_neq _ _)) by (unfold avs_bytes; len_lia). cbn [negb].
  erewrite dbind_ok; [reflexivity|].
  erewrite dlift_ok by (apply (placed_payload _ _ [name] (avs_bytes info) [] _ E); rewrite Hh; cbn [concat]; len_lia).
  unfold within. by erewrite reads_run by (by apply reads_avs).
Qed.

(** A CHALLENGE message with its target info is encoded without an assertion and
    decodes to itself. *)
Lemma challenge_roundtrip m :
  challenge_ok m = true -> exists e, encode_challenge m = Some e /\ decode_challenge e = Ok m.
Proof. intros H. exists (challenge_bytes m). split; [by apply challenge_encodes|by apply challenge_decodes]. Qed.
(** ** The AUTHENTICATE message *)

Definition authenticate_ok (m : AuthenticateMessage) : bool :=
  u32_ok (auth_flags m) && has_bits (auth_flags m) negotiate_unicode && version_field_ok (auth_flags m) (auth_version m) &&
  name_ok (domain m) && name_ok (user m) && name_ok (workstation m) &&
  (len (lm_challenge_response m) <=? 0xFFFF) && (len (nt_challenge_response m) <=? 0xFFFF) &&
  (len (encrypted_random_session_key m) <=? 0xFFFF) && opt_ok (fun x => len x =? mic_size) (mic m).

Definition wide (t : list byte) : list byte := Text.utf8_to_utf16le t.
Definition authenticate_datas (m : AuthenticateMessage) : list (list byte) :=
  [wide (domain m); wide (user m); wide (workstation m);
   lm_challenge_response m; nt_challenge_response m; encrypted_random_session_key m].

Definition mic_part (m : option (list byte)) : list byte := default [] m.
Definition authenticate_size (m : AuthenticateMessage) : Z := 64 + len (version_part (auth_version m)) + len (mic_part (mic m)).

(** The fields as the header lists them, whose payloads are in another order. *)
Definition authenticate_fields (m : AuthenticateMessage) : list Field :=
  match place (authenticate_size m) (authenticate_datas m) with
  | [domain; user; workstation; lm; nt; key] => [lm; nt; domain; user; workstation; key]
  | fields => fields
  end.

(** All in front of the MIC, and the whole message. *)
Definition authenticate_front (m : AuthenticateMessage) : list byte :=
  signature_bytes message_authenticate ++ concat (field_bytes <$> authenticate_fields m) ++
  Writer.le_bytes 4 (auth_flags m) ++ version_part (auth_version m).
Definition authenticate_bytes (m : AuthenticateMessage) : list byte :=
  (authenticate_front m ++ mic_part (mic m)) ++ concat (authenticate_datas m).

Lemma fields_permuted m : authenticate_fields m ≡ₚ place (authenticate_size m) (authenticate_datas m).
Proof. unfold authenticate_fields. cbn [authenticate_datas place]. apply (Permutation_app_swap_app [_; _] [_; _; _] [_]). Qed.

Lemma len_concat_fields l : len (concat (field_bytes <$> l)) = 8 * len l.
Proof. apply len_each, Forall_forall. intros f _. apply len_field_bytes. Qed.

Lemma len_authenticate_front m : len (authenticate_front m) = 64 + len (version_part (auth_version m)).
Proof. unfold authenticate_front. rewrite !len_app, len_concat_fields, len_signature_bytes, len_le_bytes. change (len (authenticate_fields m)) with 6. lia. Qed.

Lemma authenticate_mic_place m : version_field_ok (auth_flags m) (auth_version m) = true ->
  authenticate_mic_offset (auth_flags m) = len (authenticate_front m).
Proof.
  intros H. apply version_field in H as [_ H]. rewrite len_authenticate_front. unfold authenticate_mic_offset. rewrite H.
  destruct (auth_version m); [|done]. cbn [version_part]. by rewrite len_version_bytes.
Qed.

(** The header as it is written, with placeholders for the fields. *)
Definition authenticate_blank (m : AuthenticateMessage) : list byte :=
  signature_bytes message_authenticate ++ blank ++ blank ++ blank ++ blank ++ blank ++ blank ++
  Writer.le_bytes 4 (auth_flags m) ++ version_part (auth_version m) ++ mic_part (mic m).

(** The six calls that fill them in. *)
Definition append_all (m : AuthenticateMessage) : Enc unit :=
  append_payload 28 (wide (domain m)) ;;;
  append_payload 36 (wide (user m)) ;;;
  append_payload 44 (wide (workstation m)) ;;;
  append_payload 12 (lm_challenge_response m) ;;;
  append_payload 20 (nt_challenge_response m) ;;;
  append_payload 52 (encrypted_random_session_key m).

Lemma writes_authenticate_header m : authenticate_ok m = true ->
  write_authenticate m [] = append_all m (authenticate_blank m).
Proof.
  intros Hok. pose proof (authenticate_mic_place m) as Hp. rewrite len_authenticate_front in Hp. revert Hok Hp.
  destruct m as [flags lm nt d u w key v mi]. unfold authenticate_ok, write_authenticate, append_all, authenticate_blank.
  cbn [auth_flags lm_challenge_response nt_challenge_response domain user workstation encrypted_random_session_key auth_version mic].
  intros H Hp. bools. specialize (Hp ltac:(done)).
  match goal with Hv : version_field_ok _ _ = true |- _ => apply version_field in Hv as [Hv Hf] end. rewrite Hf.
  do 2 (erewrite seq_at by apply writes_bytes). do 6 rewrite placeholder_at. erewrite seq_at by apply writes_bytes.
  assert (writes (if bool_decide (v <> None) || bool_decide (mi <> None) && bool_decide (v <> None)
    then write_version (default default_version v) else eret tt) (version_part v)) as Hw.
  { destruct v as [v|]; [by apply writes_version|]. rewrite !bool_decide_false by (intros Hn; by apply Hn).
    rewrite andb_false_r. apply writes_ret. }
  erewrite seq_at by exact Hw. unfold ebind at 1.
  match goal with |- context [ewhen mi ?k ?buf] => assert (ewhen mi k buf = Some (tt, buf ++ mic_part mi)) as -> end.
  { destruct mi as [x|]; cbn [ewhen mic_part default]; [|by rewrite app_nil_r]. unfold ebind, Writer.size, eassert, Writer.bytes.
    match goal with |- context [len ?b =? _] => replace (len b =? authenticate_mic_offset flags) with true; [done|] end.
    symmetry. apply Z.eqb_eq. rewrite Hp. len_lia. }
  rewrite !app_nil_l, <- !app_assoc. reflexivity.
Qed.
Lemma wide_bound t : name_ok t = true -> len (wide t) <= 512.
Proof. unfold name_ok, text_ok, wide. intros H. by bools. Qed.

Lemma len_mic_part m : opt_ok (fun x => len x =? mic_size) m = true -> len (mic_part m) <= 16.
Proof. destruct m as [x|]; [|done]. cbn. unfold mic_size. intros H. bools. change (id x) with x. lia. Qed.

Lemma append_all_runs m : authenticate_ok m = true -> append_all m (authenticate_blank m) = Some (tt, authenticate_bytes m).
Proof.
  destruct m as [flags lm nt d u w key v mi]. unfold authenticate_ok, append_all, authenticate_blank, authenticate_bytes,
    authenticate_front, authenticate_fields, authenticate_datas, authenticate_size.
  cbn [auth_flags lm_challenge_response nt_challenge_response domain user workstation encrypted_random_session_key auth_version mic].
  intros H. bools. pose proof (len_version_part v).
  match goal with Hm : opt_ok _ mi = true |- _ => apply len_mic_part in Hm end.
  pose proof (wide_bound d ltac:(done)). pose proof (wide_bound u ltac:(done)). pose proof (wide_bound w ltac:(done)).
  generalize dependent (wide d). intros D ?. generalize dependent (wide u). intros U ?. generalize dependent (wide w). intros W ?.
  set (P := signature_bytes message_authenticate) in *. assert (len P = 12) as HP by done.
  set (R := Writer.le_bytes 4 flags ++ version_part v ++ mic_part mi).
  assert (len R = 4 + len (version_part v) + len (mic_part mi)) as HR by (unfold R; len_lia).
  erewrite (append_at 28 (P ++ blank ++ blank) blank (blank ++ blank ++ blank ++ R)); [|layout|len_lia|done|lia|len_lia].
  erewrite (append_at 36 (P ++ blank ++ blank ++ field_bytes _) blank (blank ++ blank ++ R ++ D)); [|layout|len_lia|done|lia|len_lia].
  erewrite (append_at 44 (P ++ blank ++ blank ++ field_bytes _ ++ field_bytes _) blank (blank ++ R ++ D ++ U)); [|layout|len_lia|done|lia|len_lia].
  erewrite (append_at 12 P blank (blank ++ field_bytes _ ++ field_bytes _ ++ field_bytes _ ++ blank ++ R ++ D ++ U ++ W)); [|layout|len_lia|done|lia|len_lia].
  erewrite (append_at 20 (P ++ field_bytes _) blank (field_bytes _ ++ field_bytes _ ++ field_bytes _ ++ blank ++ R ++ D ++ U ++ W ++ lm));
    [|layout|len_lia|done|lia|len_lia].
  erewrite (append_last 52 (P ++ field_bytes _ ++ field_bytes _ ++ field_bytes _ ++ field_bytes _ ++ field_bytes _) blank (R ++ D ++ U ++ W ++ lm ++ nt));
    [|layout|len_lia|done|lia|len_lia].
  cbn [place concat fmap list_fmap]. unfold R. rewrite !app_nil_r, <- !app_assoc. cbn [app]. repeat f_equal; len_lia.
Qed.

Lemma authenticate_encodes m : authenticate_ok m = true -> encode_authenticate m = Some (authenticate_bytes m).
Proof.
  intros H. unfold encode_authenticate, Writer.run. rewrite writes_authenticate_header, append_all_runs by done. done.
Qed.
Lemma maybe_mic_at flags begin header_end m s k b :
  opt_ok (fun x => len x =? mic_size) m = true -> header_end = authenticate_mic_offset flags -> header_end = len s -> begin = header_end + len (mic_part m) ->
  maybe_mic flags begin header_end (Reader.mk s (mic_part m ++ k) b) =
  Ok ((m, begin), Reader.mk (s ++ mic_part m) k b).
Proof.
  intros Hm Ho Hs ->. unfold maybe_mic. rewrite <- Ho, Z.eqb_refl. destruct m as [x|]; cbn [opt_ok andb] in *.
  - apply Z.eqb_eq in Hm. change (mic_part (Some x)) with x. rewrite Hm, Z.leb_refl. cbn [andb].
    erewrite dbind_reads by (by apply reads_bytes). rewrite dbind_ask. unfold dret, Reader.position. cbn [Reader.seen].
    do 3 f_equal. len_lia.
  - change (mic_part None) with (@nil byte). cbn [app]. rewrite len_nil, Z.add_0_r, app_nil_r. unfold mic_size.
    by rewrite (proj2 (Z.leb_gt _ _)) by lia.
Qed.

Lemma small_fields m : authenticate_ok m = true -> Forall small_field (authenticate_fields m).
Proof.
  intros Hok. rewrite fields_permuted. unfold authenticate_ok in Hok. bools.
  pose proof (wide_bound (domain m) ltac:(done)). pose proof (wide_bound (user m) ltac:(done)).
  pose proof (wide_bound (workstation m) ltac:(done)). pose proof (len_version_part (auth_version m)).
  match goal with Hm : opt_ok _ (mic m) = true |- _ => apply len_mic_part in Hm end.
  unfold authenticate_size, authenticate_datas, small_field. cbn [place].
  repeat (constructor; [cbn [f_length f_offset]; len_pose; lia|]). constructor.
Qed.

(** Each payload is found through its field, wherever the field stands. *)
Lemma authenticate_payload m pre d post o :
  authenticate_datas m = pre ++ d :: post -> o = authenticate_size m + len (concat pre) ->
  payload (authenticate_bytes m) (mkField (len d) o) = Ok d.
Proof.
  intros Hd Ho. eapply (placed_payload _ (authenticate_front m ++ mic_part (mic m)) pre d post).
  - unfold authenticate_bytes. by rewrite Hd.
  - rewrite len_app, len_authenticate_front, Ho. unfold authenticate_size. lia.
Qed.

Lemma len_authenticate_bytes m : len (authenticate_bytes m) = authenticate_size m + len (concat (authenticate_datas m)).
Proof. unfold authenticate_bytes, authenticate_size. rewrite !len_app, len_authenticate_front. lia. Qed.

(** The fields in order, by name. *)
Lemma authenticate_fields_eq m : exists lm nt d u w key,
  authenticate_fields m = [lm; nt; d; u; w; key] /\
  payload (authenticate_bytes m) lm = Ok (lm_challenge_response m) /\
  payload (authenticate_bytes m) nt = Ok (nt_challenge_response m) /\
  payload (authenticate_bytes m) key = Ok (encrypted_random_session_key m) /\
  payload (authenticate_bytes m) d = Ok (wide (domain m)) /\
  payload (authenticate_bytes m) u = Ok (wide (user m)) /\
  payload (authenticate_bytes m) w = Ok (wide (workstation m)).
Proof.
  do 6 eexists. split; [reflexivity|].
  set (D := wide (domain m)). set (U := wide (user m)). set (W := wide (workstation m)).
  set (lm := lm_challenge_response m). set (nt := nt_challenge_response m). set (key := encrypted_random_session_key m).
  split_and!.
  - apply (authenticate_payload m [D; U; W] lm [nt; key]); [done|cbn [concat]; len_lia].
  - apply (authenticate_payload m [D; U; W; lm] nt [key]); [done|cbn [concat]; len_lia].
  - apply (authenticate_payload m [D; U; W; lm; nt] key []); [done|cbn [concat]; len_lia].
  - apply (authenticate_payload m [] D [U; W; lm; nt; key]); [done|cbn [concat]; len_lia].
  - apply (authenticate_payload m [D] U [W; lm; nt; key]); [done|cbn [concat]; len_lia].
  - apply (authenticate_payload m [D; U] W [lm; nt; key]); [done|cbn [concat]; len_lia].
Qed.

Lemma authenticate_decodes m : authenticate_ok m = true -> decode_authenticate (authenticate_bytes m) = Ok m.
Proof.
  intros Hok. pose proof (small_fields m Hok) as Hs. pose proof (fields_permuted m) as Hp. pose proof (authenticate_mic_place m) as Hmic.
  pose proof (len_authenticate_bytes m) as Hl. unfold decode_authenticate, result, Reader.make.
  destruct (authenticate_fields_eq m) as (lm & nt & d & u & w & key & Ef & Plm & Pnt & Pkey & Pd & Pu & Pw).
  remember (authenticate_bytes m) as message eqn:E. unfold authenticate_bytes, authenticate_front in E. rewrite Ef in E, Hs, Hp.
  cbn [fmap list_fmap concat] in E. rewrite E at 1. clear E. rewrite <- !app_assoc, app_nil_l. rewrite !Forall_cons in Hs.
  destruct Hs as (? & ? & ? & ? & ? & ? & _). unfold authenticate_ok in Hok. bools. specialize (Hmic ltac:(done)). widths.
  match goal with Hv : version_field_ok _ _ = true |- _ => apply version_field in Hv as [Hv Hf] end.
  rewrite len_authenticate_front in Hmic.
  erewrite dbind_reads by (by apply reads_ntlm_header). do 6 (erewrite dbind_reads by (by apply reads_field)).
  rewrite dbind_ask. erewrite dbind_reads by (by apply reads_u32le).
  match goal with Hu : has_bits _ negotiate_unicode = true |- _ => rewrite Hu end. cbn [negb].
  rewrite Hl, (placed_begin _ _ _ Hp). set (size := authenticate_size m) in *.
  erewrite dbind_ok by (apply maybe_version_at; [done|done|unfold size, authenticate_size; len_lia]).
  assert (size = authenticate_mic_offset (auth_flags m) + len (mic_part (mic m))) as Es by (unfold size, authenticate_size; lia).
  replace (len _ + len (version_part (auth_version m))) with (authenticate_mic_offset (auth_flags m)) by (rewrite Hmic; len_lia).
  cbn beta iota. erewrite dbind_ok by (apply maybe_mic_at; [done|done|rewrite Hmic; len_lia|exact Es]). cbn beta iota.
  erewrite dlift_ok by (by apply placed_checks).
  erewrite dlift_ok by exact Plm. erewrite dlift_ok by exact Pnt. erewrite dlift_ok by exact Pkey.
  erewrite dlift_ok by exact Pd. erewrite dlift_ok by exact Pu. erewrite dlift_ok by exact Pw.
  do 3 (erewrite dlift_ok by (by apply name_decodes)). by destruct m.
Qed.

(** An AUTHENTICATE message, with or without a MIC, is encoded without an
    assertion, names and keys in their own order behind a header that points at
    them, and decodes to itself. *)
Lemma authenticate_roundtrip m :
  authenticate_ok m = true -> exists e, encode_authenticate m = Some e /\ decode_authenticate e = Ok m.
Proof. intros H. exists (authenticate_bytes m). split; [by apply authenticate_encodes|by apply authenticate_decodes]. Qed.

(** C18: the three messages.  A NEGOTIATE, a CHALLENGE with its target info and an
    AUTHENTICATE message with or without a MIC are encoded without an assertion,
    their payloads behind a header that names where each of them is, and decode to
    what was encoded. *)
Theorem ntlm_messages_roundtrip n c a :
  negotiate_ok n = true -> challenge_ok c = true -> authenticate_ok a = true ->
  (exists e, encode_negotiate n = Some e /\ decode_negotiate e = Ok n) /\
  (exists e, encode_challenge c = Some e /\ decode_challenge e = Ok c) /\
  (exists e, encode_authenticate a = Some e /\ decode_authenticate e = Ok a).
Proof. intros Hn Hc Ha. split_and!; [by apply negotiate_roundtrip|by apply challenge_roundtrip|by apply authenticate_roundtrip]. Qed.

Definition sample_negotiate : NegotiateMessage :=
  mkNegotiate 0xE2088297 (String.list_byte_of_string "DOMAIN") [] (Some default_version).
Definition sample_challenge : ChallengeMessage :=
  mkChallenge 0xE2898205 (replicate 8 (byte_of 0x11)) (wide (String.list_byte_of_string "ENGINE"))
    [mkAv av_nb_domain_name (wide (String.list_byte_of_string "ENGINE")); mkAv av_timestamp (replicate 8 (byte_of 1))] (Some default_version).
Definition sample_authenticate : AuthenticateMessage :=
  mkAuthenticate 0xE2888215 (replicate 24 (byte_of 0)) (replicate 80 (byte_of 2)) [] (String.list_byte_of_string "ada")
    (String.list_byte_of_string "analytical") (replicate 16 (byte_of 3)) (Some default_version) (Some (replicate 16 (byte_of 4))).

Lemma ntlm_messages_roundtrip_witness :
  (exists e, encode_negotiate sample_negotiate = Some e /\ decode_negotiate e = Ok sample_negotiate) /\
  (exists e, encode_challenge sample_challenge = Some e /\ decode_challenge e = Ok sample_challenge) /\
  (exists e, encode_authenticate sample_authenticate = Some e /\ decode_authenticate e = Ok sample_authenticate).
Proof. apply ntlm_messages_roundtrip; vm_compute; reflexivity. Defined.
End NtlmMessages.
