(* ===== verification/Ntlm.v ===== *)
(** * NTLMv2: keys, sealing, and the two ends

    Models the second half of [src/src/farland/auth/ntlm.cpp]: the key derivation,
    [detail::Session], which signs and seals, [Acceptor] and [Initiator], and
    [LocalNtlmVerifier].

    MD5 and HMAC-MD5 are OpenSSL's and are parameters.  A random number and the
    time, where the code asks for them, are fields of the object: what it will be
    given.  A member that asserts returns [None] where the assertion fails; as a
    [SecurityContext] such an object is [None] from then on.  Wiping keys and
    comparing in constant time are left out. *)

From S2P Require Import Prelude Buffers CodecLogic Fields Text PreAuth CredsspCodec Credssp LegacyCrypto NtlmCodec.
Open Scope Z_scope.

Module Ntlm.
Import NtlmCodec.
Abbreviation to_bytes := CredsspCodec.to_bytes.
Abbreviation of_bytes := CredsspCodec.of_bytes.
Abbreviation Step := Credssp.Step.
Abbreviation mkStep := Credssp.mkStep.
Abbreviation is_some := Credssp.is_some.

Definition ntlm_oid : list byte := byte_of <$> [0x2B; 0x06; 0x01; 0x04; 0x01; 0x82; 0x37; 0x02; 0x02; 0x0A].

Definition signature_size : Z := 16.

(** What farland offers (acceptor) and asks for (initiator). *)
Definition supported_flags : Z := Eval vm_compute in
  foldl Z.lor 0 [negotiate_unicode; request_target; negotiate_sign; negotiate_seal; negotiate_ntlm; negotiate_always_sign;
    negotiate_extended_sessionsecurity; negotiate_target_info; negotiate_version; negotiate_128; negotiate_key_exch; negotiate_56].
Definition required_flags : Z := Eval vm_compute in
  foldl Z.lor 0 [negotiate_unicode; negotiate_ntlm; negotiate_extended_sessionsecurity].

(** [(flags & mask) == mask] *)
Definition has_all (flags mask : Z) : bool := Z.land flags mask =? mask.

Definition le32 (value : Z) : list byte := Writer.le_bytes 4 value.
Definition le64 (value : Z) : list byte := Writer.le_bytes 8 value.
Definition read_u32 (v : list byte) : Z :=
  match ReaderOps.u32le (Reader.make v 0) with Ok (n, _) => n | Err _ => 0 end.
Definition read_u64 (v : list byte) : Z :=
  match ReaderOps.u64le (Reader.make v 0) with Ok (n, _) => n | Err _ => 0 end.

(** ** NTLMv2 helpers *)

Definition upcase (c : Z) : Z :=
  let between a b := (a <=? c) && (c <=? b) in
  let odd := negb (Z.land c 1 =? 0) in
  if between 97 122 || (between 0xE0 0xFE && negb (c =? 0xF7)) then wrap 16 (c - 0x20)
  else if c =? 0xFF then 0x178
  else if (between 0x100 0x12F || between 0x132 0x137 || between 0x14A 0x177) && odd then wrap 16 (c - 1)
  else if (between 0x139 0x148 || between 0x179 0x17E) && negb odd then wrap 16 (c - 1)
  else if c =? 0x3C2 then 0x3A3
  else if between 0x3B1 0x3CB || between 0x430 0x44F then wrap 16 (c - 0x20)
  else if between 0x450 0x45F then wrap 16 (c - 0x50)
  else c.

Fixpoint upper_units (units : list byte) : list byte :=
  match units with
  | lo :: hi :: units' =>
      let upper := upcase (Text.unit_of lo hi) in
      byte_of (Z.land upper 0xFF) :: byte_of (Z.shiftr upper 8) :: upper_units units'
  | _ => units
  end.
Definition upper_utf16le (text : list byte) : list byte := upper_units (Text.utf8_to_utf16le text).

Record Ntlmv2Blob := mkBlob { blob_timestamp : Z; av_pairs : list AvPair }.

Definition parse_ntlmv2_response (response : list byte) : Result Ntlmv2Blob :=
  result (
    let* _ := ReaderOps.skip 16 in
    let* at_ := dask Reader.offset in
    let* resp_type := ReaderOps.u8 in
    let* hi_resp_type := ReaderOps.u8 in
    if negb (resp_type =? 1) || negb (hi_resp_type =? 1) then dfail unsupported "unknown NTLMv2 response version" at_
    else
      let* _ := ReaderOps.skip 6 in
      let* timestamp := ReaderOps.u64le in
      let* _ := ReaderOps.skip (8 + 4) in
      let* pairs := decode_av_pairs in
      dret (mkBlob timestamp pairs)) response.

Inductive Direction := client_to_server | server_to_client.

(** The interface of [NtlmVerifier] (gss.hpp). *)
Class NtlmVerifier (V : Type) := {
  v_session_base_key : V -> list byte -> list byte -> list byte -> list byte -> option (list byte);
  v_verify_password : V -> list byte -> list byte -> list byte -> bool }.

Section Keys.
Context (md5 : list byte -> list byte) (hmac_md5 : list byte -> list byte -> list byte).

Definition nt_hash (password : list byte) : list byte := LegacyCrypto.md4 (Text.utf8_to_utf16le password).

Definition ntowf_v2 (hash user domain : list byte) : list byte :=
  hmac_md5 hash (upper_utf16le user ++ Text.utf8_to_utf16le domain).

Definition ntlmv2_temp (timestamp : Z) (client_challenge : list byte) (pairs : list AvPair) : option (list byte) :=
  Writer.run (
    Writer.u8 1 ;;;
    Writer.u8 1 ;;;
    Writer.zeros 6 ;;;
    Writer.u64le timestamp ;;;
    Writer.bytes client_challenge ;;;
    Writer.zeros 4 ;;;
    encode_av_pairs pairs ;;;
    Writer.zeros 4).

Definition nt_proof_str (response_key server_challenge temp : list byte) : list byte :=
  hmac_md5 response_key (server_challenge ++ temp).
Definition session_base_key (response_key nt_proof : list byte) : list byte := hmac_md5 response_key nt_proof.
Definition lmv2_response (response_key server_challenge client_challenge : list byte) : list byte :=
  hmac_md5 response_key (server_challenge ++ client_challenge) ++ client_challenge.

Definition signing_key (exported_session_key : list byte) (direction : Direction) : list byte :=
  let magic := match direction with
    | client_to_server => "session key to client-to-server signing key magic constant"
    | server_to_client => "session key to server-to-client signing key magic constant"
    end in
  md5 (exported_session_key ++ to_bytes magic ++ [byte_of 0]).

Definition sealing_key (exported_session_key : list byte) (negotiate_flags : Z) (direction : Direction) : list byte :=
  let length :=
    if has_bits negotiate_flags negotiate_128 then 16%nat
    else if has_bits negotiate_flags negotiate_56 then 7%nat else 5%nat in
  let magic := match direction with
    | client_to_server => "session key to client-to-server sealing key magic constant"
    | server_to_client => "session key to server-to-client sealing key magic constant"
    end in
  md5 (take length exported_session_key ++ to_bytes magic ++ [byte_of 0]).

(** [digest] is the SHA-256 of the certificate, which OpenSSL computes. *)
Definition channel_bindings_hash (digest : list byte) : list byte :=
  let prefix := to_bytes "tls-server-end-point:" in
  md5 (replicate 16 (byte_of 0) ++ le32 (wrap 32 (len prefix + len digest)) ++ prefix ++ digest).
End Keys.

(** ** Session security *)

Module Session.
Section Session.
Context (md5 : list byte -> list byte) (hmac_md5 : list byte -> list byte -> list byte).

Record t := mk {
  key_exch_ : bool;
  send_signing_ : list byte;
  receive_signing_ : list byte;
  send_sealing_ : list byte;
  receive_sealing_ : list byte;
  send_rc4_ : LegacyCrypto.Rc4;
  receive_rc4_ : LegacyCrypto.Rc4;
  send_sequence_ : Z;
  receive_sequence_ : Z }.

Definition with_send (rc4 : LegacyCrypto.Rc4) (sequence : Z) (s : t) : t :=
  mk (key_exch_ s) (send_signing_ s) (receive_signing_ s) (send_sealing_ s) (receive_sealing_ s) rc4 (receive_rc4_ s)
    sequence (receive_sequence_ s).
Definition with_receive (rc4 : LegacyCrypto.Rc4) (sequence : Z) (s : t) : t :=
  mk (key_exch_ s) (send_signing_ s) (receive_signing_ s) (send_sealing_ s) (receive_sealing_ s) (send_rc4_ s) rc4
    (send_sequence_ s) sequence.

(** What [reset] makes of the keys; [None] is the assertion of [Rc4]. *)
Definition restart (key_exch : bool) (send_signing receive_signing send_sealing receive_sealing : list byte) : option t :=
  send_rc4 ← LegacyCrypto.make send_sealing;
  receive_rc4 ← LegacyCrypto.make receive_sealing;
  Some (mk key_exch send_signing receive_signing send_sealing receive_sealing send_rc4 receive_rc4 0 0).

Definition reset (s : t) : option t :=
  restart (key_exch_ s) (send_signing_ s) (receive_signing_ s) (send_sealing_ s) (receive_sealing_ s).

Definition make (exported_session_key : list byte) (negotiate_flags : Z) (initiator : bool) : option t :=
  let send := if initiator then client_to_server else server_to_client in
  let receive := if initiator then server_to_client else client_to_server in
  restart (has_bits negotiate_flags negotiate_key_exch)
    (signing_key md5 exported_session_key send) (signing_key md5 exported_session_key receive)
    (sealing_key md5 exported_session_key negotiate_flags send) (sealing_key md5 exported_session_key negotiate_flags receive).

Definition checksum (key : list byte) (sequence : Z) (message : list byte) : list byte :=
  take 8 (hmac_md5 key (le32 sequence ++ message)).

(** The signature, and the cipher after it. *)
Definition finish (key_exch : bool) (sum : list byte) (sequence : Z) (rc4 : LegacyCrypto.Rc4) : list byte * LegacyCrypto.Rc4 :=
  let '(sum, rc4) := if key_exch then LegacyCrypto.apply rc4 sum else (sum, rc4) in
  (le32 1 ++ sum ++ le32 sequence, rc4).

Definition wrap_ (plaintext : list byte) (s : t) : list byte * t :=
  let sequence := send_sequence_ s in
  let sum := checksum (send_signing_ s) sequence plaintext in
  let '(body, rc4) := LegacyCrypto.apply (send_rc4_ s) plaintext in
  let '(signature, rc4) := finish (key_exch_ s) sum sequence rc4 in
  (signature ++ body, with_send rc4 (wrap 32 (sequence + 1)) s).

Definition unwrap (wrapped : list byte) (s : t) : Result (list byte) * t :=
  match ReaderOps.bytes signature_size (Reader.make wrapped 0) with
  | Err e => (Err e, s)
  | Ok (received, r) =>
      let '(plaintext, rc4) := LegacyCrypto.apply (receive_rc4_ s) (Reader.rest r) in
      let sequence := receive_sequence_ s in
      let sum := checksum (receive_signing_ s) sequence plaintext in
      let '(expected, rc4) := finish (key_exch_ s) sum sequence rc4 in
      let s := with_receive rc4 (wrap 32 (sequence + 1)) s in
      if negb (bool_decide (expected = received))
      then (fail invalid_value "NTLM message signature does not verify" 0, s) else (Ok plaintext, s)
  end.

Definition get_mic (message : list byte) (s : t) : list byte * t :=
  let sequence := send_sequence_ s in
  let sum := checksum (send_signing_ s) sequence message in
  let '(signature, rc4) := finish (key_exch_ s) sum sequence (send_rc4_ s) in
  (signature, with_send rc4 (wrap 32 (sequence + 1)) s).

Definition verify_mic (message mic : list byte) (s : t) : Result unit * t :=
  let sequence := receive_sequence_ s in
  let sum := checksum (receive_signing_ s) sequence message in
  let '(expected, rc4) := finish (key_exch_ s) sum sequence (receive_rc4_ s) in
  let s := with_receive rc4 (wrap 32 (sequence + 1)) s in
  if negb (bool_decide (expected = mic)) then (fail invalid_value "NTLM MIC does not verify" 0, s) else (Ok tt, s).
End Session.
End Session.

(** The members that pass a call on to the session, which they assert to be there. *)
Definition on_session {A} (f : Session.t -> A * Session.t) (session : option Session.t) : option (A * Session.t) :=
  match session with Some s => Some (f s) | None => None end.

(** ** Acceptor *)

Module Acceptor.

Inductive ChannelBindingPolicy := ignore | verify_if_present | require.
Inductive State := expect_negotiate | expect_authenticate | complete | failed.

#[export] Instance State_eq_dec : EqDecision State.
Proof. solve_decision. Defined.

Section Acceptor.
Context {V : Type} `{NtlmVerifier V} (md5 : list byte -> list byte) (hmac_md5 : list byte -> list byte -> list byte).

Record AcceptorConfig := mkConfig {
  verifier : V;
  netbios_domain : list byte;
  netbios_computer : list byte;
  dns_domain : list byte;
  dns_computer : list byte;
  channel_bindings : option (list byte);
  channel_binding_policy : ChannelBindingPolicy;
  config_challenge : option (list byte);
  config_timestamp : option Z }.

Record t := mk {
  config_ : AcceptorConfig;
  random_ : list byte;
  now_ : Z;
  state_ : State;
  server_challenge_ : list byte;
  negotiate_message_ : list byte;
  challenge_message_ : list byte;
  challenge_flags_ : Z;
  negotiated_flags_ : Z;
  target_name_ : option (list byte);
  channel_bound_ : bool;
  identity_ : PreAuth.Identity;
  session_ : option Session.t }.

Definition no_identity : PreAuth.Identity := PreAuth.mkIdentity "" "".

(** The constructor and its assertion; [random] and [now] are what it will be
    given when it asks for a challenge and for the time. *)
Definition make (config : AcceptorConfig) (random : list byte) (now : Z) : option t :=
  match channel_binding_policy config, channel_bindings config with
  | require, None => None
  | _, _ => Some (mk config random now expect_negotiate (replicate 8 (byte_of 0)) [] [] 0 0 None false no_identity None)
  end.

Definition with_state (v : State) (session : option Session.t) (s : t) : t :=
  mk (config_ s) (random_ s) (now_ s) v (server_challenge_ s) (negotiate_message_ s) (challenge_message_ s)
    (challenge_flags_ s) (negotiated_flags_ s) (target_name_ s) (channel_bound_ s) (identity_ s) session.

Definition if_empty (a b : list byte) : list byte := if bool_decide (a = []) then b else a.

(** The CHALLENGE that answers a NEGOTIATE with these flags. *)
Definition challenge_for (s : t) (negotiate_flags : Z) : ChallengeMessage :=
  let config := config_ s in
  let flags := Z.lor (Z.lor (Z.land negotiate_flags supported_flags) negotiate_target_info) target_type_domain in
  let timestamp := default (now_ s) (config_timestamp config) in
  let wide := Text.utf8_to_utf16le in
  mkChallenge flags (default (random_ s) (config_challenge config)) (wide (netbios_domain config))
    [mkAv av_nb_domain_name (wide (netbios_domain config));
     mkAv av_nb_computer_name (wide (netbios_computer config));
     mkAv av_dns_domain_name (wide (if_empty (dns_domain config) (netbios_domain config)));
     mkAv av_dns_computer_name (wide (if_empty (dns_computer config) (netbios_computer config)));
     mkAv av_timestamp (le64 timestamp)]
    (if has_bits flags negotiate_version then Some default_version else None).

Definition on_negotiate (input : list byte) (s : t) : option (Result Step * t) :=
  match decode_negotiate input with
  | Err e => Some (Err e, s)
  | Ok negotiate =>
      if negb (has_all (neg_flags negotiate) required_flags)
      then Some (fail unsupported "NTLM client lacks Unicode, NTLM or extended session security" 0, s)
      else
        let challenge := challenge_for s (neg_flags negotiate) in
        bytes ← encode_challenge challenge;
        Some (Ok (mkStep bytes false),
          mk (config_ s) (random_ s) (now_ s) expect_authenticate (server_challenge challenge) input bytes
            (ch_flags challenge) (negotiated_flags_ s) (target_name_ s) (channel_bound_ s) (identity_ s) (session_ s))
  end.

(** Channel bindings: whether the client sent any, and whether they are ours. *)
Definition bindings_present (blob : Ntlmv2Blob) : bool :=
  match find_av_pair (av_pairs blob) av_channel_bindings with
  | Some b => existsb (fun x => negb (u8_of x =? 0)) b
  | None => false
  end.
Definition bindings_match (config : AcceptorConfig) (blob : Ntlmv2Blob) : bool :=
  bindings_present blob && is_some (channel_bindings config) &&
  bool_decide (find_av_pair (av_pairs blob) av_channel_bindings = channel_bindings config).
Definition check_bindings (config : AcceptorConfig) (blob : Ntlmv2Blob) : Result unit :=
  match channel_binding_policy config with
  | ignore => Ok tt
  | verify_if_present =>
      if bindings_present blob && is_some (channel_bindings config) && negb (bindings_match config blob)
      then fail invalid_value "NTLM channel bindings do not match" 0 else Ok tt
  | require =>
      if negb (bindings_present blob) then fail invalid_value "NTLM channel bindings missing" 0
      else if negb (bindings_match config blob) then fail invalid_value "NTLM channel bindings do not match" 0 else Ok tt
  end.

(** The ExportedSessionKey; [None] is the assertion of [Rc4]. *)
Definition exported_key (negotiated : Z) (base : list byte) (authenticate : AuthenticateMessage) : option (Result (list byte)) :=
  if has_bits negotiated negotiate_key_exch then
    if negb (len (encrypted_random_session_key authenticate) =? 16)
    then Some (fail invalid_length "EncryptedRandomSessionKey is not 16 bytes" 0)
    else
      rc4 ← LegacyCrypto.make base;
      Some (Ok (LegacyCrypto.apply rc4 (encrypted_random_session_key authenticate)).1)
  else Some (Ok base).

Definition mic_announced (blob : Ntlmv2Blob) : bool :=
  match find_av_pair (av_pairs blob) av_flags with
  | Some flags => has_bits (read_u32 flags) av_flag_mic_present
  | None => false
  end.

(** The MIC over the three messages, the last with zeros in its place. *)
Definition message_mic (exported negotiate_message challenge_message authenticate_message : list byte) (flags : Z) : list byte :=
  hmac_md5 exported (negotiate_message ++ challenge_message ++
    Writer.overwrite (Z.to_nat (authenticate_mic_offset flags)) (replicate 16 (byte_of 0)) authenticate_message).

Definition check_mic (s : t) (input : list byte) (authenticate : AuthenticateMessage) (blob : Ntlmv2Blob) (exported : list byte)
    : Result unit :=
  if mic_announced blob then
    match mic authenticate with
    | None => fail invalid_value "NTLM MIC announced but missing" 0
    | Some m =>
        if negb (bool_decide (message_mic exported (negotiate_message_ s) (challenge_message_ s) input (auth_flags authenticate) = m))
        then fail invalid_value "NTLM MIC does not verify" 0 else Ok tt
    end
  else Ok tt.

Definition read_target_name (blob : Ntlmv2Blob) (before : option (list byte)) : Result (option (list byte)) :=
  match find_av_pair (av_pairs blob) av_target_name with
  | Some target => let? name := decode_name target 0 in Ok (Some name)
  | None => Ok before
  end.

(** What an AUTHENTICATE message is checked for before the verifier is asked. *)
Definition screen (s : t) (input : list byte) : Result (AuthenticateMessage * Z * Ntlmv2Blob) :=
  let? authenticate := decode_authenticate input in
  if has_bits (auth_flags authenticate) anonymous || bool_decide (user authenticate = [])
  then fail unsupported "anonymous NTLM logon" 0
  else if len (nt_challenge_response authenticate) <=? 24 then fail unsupported "NTLMv1 response" 0
  else
    let negotiated := Z.land (auth_flags authenticate) (challenge_flags_ s) in
    if negb (has_all negotiated required_flags)
    then fail unsupported "AUTHENTICATE_MESSAGE drops required NTLM flags" 0
    else
      let? blob := parse_ntlmv2_response (nt_challenge_response authenticate) in
      let? _ := check_bindings (config_ s) blob in
      Ok (authenticate, negotiated, blob).

Definition on_authenticate (input : list byte) (s : t) : option (Result Step * t) :=
  match screen s input with
  | Err e => Some (Err e, s)
  | Ok (authenticate, negotiated, blob) =>
      match v_session_base_key (verifier (config_ s)) (user authenticate) (domain authenticate) (server_challenge_ s)
              (nt_challenge_response authenticate) with
      | None => Some (fail invalid_value "NTLMv2 response does not verify" 0, s)
      | Some base =>
          exported ← exported_key negotiated base authenticate;
          match (let? exported := exported in
                 let? _ := check_mic s input authenticate blob exported in
                 let? target := read_target_name blob (target_name_ s) in
                 Ok (exported, target)) with
          | Err e => Some (Err e, s)
          | Ok (exported, target) =>
              session ← Session.make md5 exported negotiated false;
              Some (Ok (mkStep [] true),
                mk (config_ s) (random_ s) (now_ s) complete (server_challenge_ s) (negotiate_message_ s) (challenge_message_ s)
                  (challenge_flags_ s) negotiated target
                  (bindings_match (config_ s) blob && match channel_binding_policy (config_ s) with ignore => false | _ => true end)
                  (PreAuth.mkIdentity (of_bytes (user authenticate)) (of_bytes (domain authenticate))) (Some session))
          end
      end
  end.

Definition step (input : list byte) (s : t) : option (Result Step * t) :=
  match state_ s with
  | complete | failed => Some (fail invalid_value "NTLM acceptor is not expecting a token" 0, s)
  | _ =>
      next ← (match state_ s with expect_negotiate => on_negotiate input s | _ => on_authenticate input s end);
      Some (match next with
            | (Err e, s) => (Err e, with_state failed None s)
            | (Ok r, s) => (Ok r, s)
            end)
  end.

Definition on_session_ {A} (f : Session.t -> A * Session.t) (s : t) : option (A * t) :=
  next ← on_session f (session_ s);
  Some (next.1, with_state (state_ s) (Some next.2) s).
Definition wrap_ (plaintext : list byte) : t -> option (list byte * t) := on_session_ (Session.wrap_ hmac_md5 plaintext).
Definition unwrap (wrapped : list byte) : t -> option (Result (list byte) * t) := on_session_ (Session.unwrap hmac_md5 wrapped).
Definition get_mic (message : list byte) : t -> option (list byte * t) := on_session_ (Session.get_mic hmac_md5 message).
Definition verify_mic (message mic : list byte) : t -> option (Result unit * t) :=
  on_session_ (Session.verify_mic hmac_md5 message mic).
Definition reset_cipher_state (s : t) : option t :=
  session ← session_ s;
  session ← Session.reset session;
  Some (with_state (state_ s) (Some session) s).
End Acceptor.
End Acceptor.

(** ** Initiator *)

Module Initiator.

Inductive State := initial | expect_challenge | complete | failed.

#[export] Instance State_eq_dec : EqDecision State.
Proof. solve_decision. Defined.

Section Initiator.
Context (md5 : list byte -> list byte) (hmac_md5 : list byte -> list byte -> list byte).

Record InitiatorConfig := mkConfig {
  config_user : list byte;
  config_domain : list byte;
  password : list byte;
  config_workstation : list byte;
  channel_bindings : option (list byte);
  config_target_name : option (list byte);
  client_challenge : option (list byte);
  timestamp : option Z;
  random_session_key : option (list byte) }.

Record t := mk {
  config_ : InitiatorConfig;
  random_challenge_ : list byte;
  random_key_ : list byte;
  now_ : Z;
  nt_hash_ : list byte;
  state_ : State;
  negotiate_message_ : list byte;
  negotiated_flags_ : Z;
  identity_ : PreAuth.Identity;
  session_ : option Session.t }.

(** The constructor; the random values and the time are what it will be given. *)
Definition make (config : InitiatorConfig) (random_challenge random_key : list byte) (now : Z) : t :=
  mk config random_challenge random_key now (nt_hash (password config)) initial [] 0 (PreAuth.mkIdentity "" "") None.

Definition with_state (v : State) (session : option Session.t) (s : t) : t :=
  mk (config_ s) (random_challenge_ s) (random_key_ s) (now_ s) (nt_hash_ s) v (negotiate_message_ s) (negotiated_flags_ s)
    (identity_ s) session.

(** The server's target info without what the client sets itself, and the flags in it. *)
Fixpoint split_info (info : list AvPair) (flags : Z) : list AvPair * Z :=
  match info with
  | [] => ([], flags)
  | p :: info' =>
      if av_id p =? av_flags then split_info info' (Z.lor flags (read_u32 (av_value p)))
      else if (av_id p =? av_channel_bindings) || (av_id p =? av_target_name) then split_info info' flags
      else let (pairs, flags) := split_info info' flags in (p :: pairs, flags)
  end.

Definition client_pairs (config : InitiatorConfig) (info : list AvPair) : list AvPair :=
  let (pairs, flags) := split_info info av_flag_mic_present in
  pairs ++ [mkAv av_flags (le32 flags);
            mkAv av_channel_bindings (default (replicate 16 (byte_of 0)) (channel_bindings config))] ++
  match config_target_name config with
  | Some name => [mkAv av_target_name (Text.utf8_to_utf16le name)]
  | None => []
  end.

(** The AUTHENTICATE message without its MIC, the response key's base key and the
    exported key; [None] is a failed assertion. *)
Definition answer (s : t) (challenge : ChallengeMessage) (pairs : list AvPair) : option (AuthenticateMessage * list byte) :=
  let config := config_ s in
  let negotiated := Z.land (ch_flags challenge) supported_flags in
  let server_timestamp := find_av_pair (target_info challenge) av_timestamp in
  let time := match server_timestamp with Some v => read_u64 v | None => default (now_ s) (timestamp config) end in
  let client_challenge := default (random_challenge_ s) (client_challenge config) in
  temp ← ntlmv2_temp time client_challenge pairs;
  let response_key := ntowf_v2 hmac_md5 (nt_hash_ s) (config_user config) (config_domain config) in
  let proof := nt_proof_str hmac_md5 response_key (server_challenge challenge) temp in
  let base := session_base_key hmac_md5 response_key proof in
  let lm := match server_timestamp with
    | Some _ => replicate 24 (byte_of 0)
    | None => lmv2_response hmac_md5 response_key (server_challenge challenge) client_challenge
    end in
  let exported := default (random_key_ s) (random_session_key config) in
  rc4 ← LegacyCrypto.make base;
  Some (mkAuthenticate negotiated lm (proof ++ temp) (config_domain config) (config_user config) (config_workstation config)
          (LegacyCrypto.apply rc4 exported).1 (if has_bits negotiated negotiate_version then Some default_version else None)
          (Some (replicate 16 (byte_of 0))), exported).

(** A name of the configuration that is too long. *)
Definition names_too_long (config : InitiatorConfig) : bool :=
  existsb (fun name => max_name_bytes <? len (Text.utf8_to_utf16le name))
    [config_user config; config_domain config; config_workstation config].

Definition on_challenge (input : list byte) (s : t) : option (Result Step * t) :=
  let config := config_ s in
  if bool_decide (config_user config = []) then Some (fail invalid_value "anonymous NTLM logon is not supported" 0, s)
  else if names_too_long config then Some (fail limit_exceeded "NTLM name too long" 0, s)
  else match decode_challenge input with
       | Err e => Some (Err e, s)
       | Ok challenge =>
           if negb (has_all (ch_flags challenge) (Z.lor (Z.lor required_flags negotiate_key_exch) negotiate_target_info))
           then Some (fail unsupported "NTLM server does not offer NTLMv2 with key exchange" 0, s)
           else
             let negotiated := Z.land (ch_flags challenge) supported_flags in
             let s := mk config (random_challenge_ s) (random_key_ s) (now_ s) (nt_hash_ s) (state_ s) (negotiate_message_ s)
                        negotiated (identity_ s) (session_ s) in
             let pairs := client_pairs config (target_info challenge) in
             if max_av_pairs <? len pairs then Some (fail limit_exceeded "too many AV pairs" 0, s)
             else
               next ← answer s challenge pairs;
               let '(authenticate, exported) := next in
               message ← encode_authenticate authenticate;
               let mic := hmac_md5 exported (negotiate_message_ s ++ input ++ message) in
               let message := Writer.overwrite (Z.to_nat (authenticate_mic_offset negotiated)) mic message in
               session ← Session.make md5 exported negotiated true;
               Some (Ok (mkStep message true),
                 mk config (random_challenge_ s) (random_key_ s) (now_ s) (nt_hash_ s) complete (negotiate_message_ s) negotiated
                   (PreAuth.mkIdentity (of_bytes (config_user config)) (of_bytes (config_domain config))) (Some session))
       end.

Definition step (input : list byte) (s : t) : option (Result Step * t) :=
  match state_ s with
  | initial =>
      if negb (bool_decide (input = []))
      then Some (fail invalid_value "NTLM initiator expects no input token first" 0, with_state failed (session_ s) s)
      else
        bytes ← encode_negotiate (mkNegotiate supported_flags [] [] (Some default_version));
        Some (Ok (mkStep bytes false),
          mk (config_ s) (random_challenge_ s) (random_key_ s) (now_ s) (nt_hash_ s) expect_challenge bytes (negotiated_flags_ s)
            (identity_ s) (session_ s))
  | expect_challenge =>
      next ← on_challenge input s;
      Some (match next with
            | (Err e, s) => (Err e, with_state failed None s)
            | (Ok r, s) => (Ok r, s)
            end)
  | _ => Some (fail invalid_value "NTLM initiator is not expecting a token" 0, s)
  end.

Definition on_session_ {A} (f : Session.t -> A * Session.t) (s : t) : option (A * t) :=
  next ← on_session f (session_ s);
  Some (next.1, with_state (state_ s) (Some next.2) s).
Definition wrap_ (plaintext : list byte) : t -> option (list byte * t) := on_session_ (Session.wrap_ hmac_md5 plaintext).
Definition unwrap (wrapped : list byte) : t -> option (Result (list byte) * t) := on_session_ (Session.unwrap hmac_md5 wrapped).
Definition get_mic (message : list byte) : t -> option (list byte * t) := on_session_ (Session.get_mic hmac_md5 message).
Definition verify_mic (message mic : list byte) : t -> option (Result unit * t) :=
  on_session_ (Session.verify_mic hmac_md5 message mic).
Definition reset_cipher_state (s : t) : option t :=
  session ← session_ s;
  session ← Session.reset session;
  Some (with_state (state_ s) (Some session) s).
End Initiator.
End Initiator.

(** ** LocalNtlmVerifier *)

Module LocalNtlmVerifier.
Section Local.
Context (hmac_md5 : list byte -> list byte -> list byte).

(** The lookup of a user's NT hash. *)
Record t := mk { lookup_ : list byte -> list byte -> option (list byte) }.

Definition session_base_key (v : t) (user domain server_challenge nt_challenge_response : list byte) : option (list byte) :=
  if len nt_challenge_response <? 16 + 28 then None
  else
    let stored := lookup_ v user domain in
    let hash := default (replicate 16 (byte_of 0)) stored in
    let response_key := ntowf_v2 hmac_md5 hash user domain in
    let received := take 16 nt_challenge_response in
    let proof := nt_proof_str hmac_md5 response_key server_challenge (drop 16 nt_challenge_response) in
    if bool_decide (proof = received) && is_some stored then Some (Ntlm.session_base_key hmac_md5 response_key received) else None.

Definition verify_password (v : t) (user domain password : list byte) : bool :=
  let stored := lookup_ v user domain in
  bool_decide (stored = Some (nt_hash password)).

#[export] Instance local_verifier : NtlmVerifier t := {|
  v_session_base_key := session_base_key;
  v_verify_password := verify_password |}.
End Local.
End LocalNtlmVerifier.

(** ** As security contexts

    An object that has failed an assertion is [None]. *)

Definition trapped {A} : Result A := fail io "assertion failed" 0.

Definition run_trap {S A} (f : S -> option (A * S)) (dead : A) (c : option S) : A * option S :=
  match c with
  | Some s => match f s with Some (a, s') => (a, Some s') | None => (dead, None) end
  | None => (dead, None)
  end.

Section Contexts.
Context (md5 : list byte -> list byte) (hmac_md5 : list byte -> list byte -> list byte).

#[export] Instance acceptor_context {V} `{NtlmVerifier V} : Credssp.SecurityContext (option (Acceptor.t (V := V))) := {|
  Credssp.mechanism _ := ntlm_oid;
  Credssp.step c input := run_trap (Acceptor.step md5 hmac_md5 input) trapped c;
  Credssp.wrap_message c bytes := run_trap (Acceptor.wrap_ hmac_md5 bytes) [] c;
  Credssp.unwrap c bytes := run_trap (Acceptor.unwrap hmac_md5 bytes) trapped c;
  Credssp.get_mic c bytes := run_trap (Acceptor.get_mic hmac_md5 bytes) [] c;
  Credssp.verify_mic c bytes mic := run_trap (Acceptor.verify_mic hmac_md5 bytes mic) trapped c;
  Credssp.reset_cipher_state c := s ← c; Acceptor.reset_cipher_state s;
  Credssp.mech_identity c := match c with Some s => Acceptor.identity_ s | None => Acceptor.no_identity end |}.

#[export] Instance initiator_context : Credssp.SecurityContext (option Initiator.t) := {|
  Credssp.mechanism _ := ntlm_oid;
  Credssp.step c input := run_trap (Initiator.step md5 hmac_md5 input) trapped c;
  Credssp.wrap_message c bytes := run_trap (Initiator.wrap_ hmac_md5 bytes) [] c;
  Credssp.unwrap c bytes := run_trap (Initiator.unwrap hmac_md5 bytes) trapped c;
  Credssp.get_mic c bytes := run_trap (Initiator.get_mic hmac_md5 bytes) [] c;
  Credssp.verify_mic c bytes mic := run_trap (Initiator.verify_mic hmac_md5 bytes mic) trapped c;
  Credssp.reset_cipher_state c := s ← c; Initiator.reset_cipher_state s;
  Credssp.mech_identity c := match c with Some s => Initiator.identity_ s | None => Acceptor.no_identity end |}.
End Contexts.
End Ntlm.
