(* ===== verification/NtlmSession.v ===== *)
(** * NTLM sealing is exact

    Theorems about [Ntlm.Session]: two sessions of the same key stay in step, and
    what the one takes is what the other has sealed or signed, and nothing else. *)

From S2P Require Import Prelude Buffers CodecLogic LegacyCrypto NtlmCodec Ntlm.
Open Scope Z_scope.

Module NtlmSession.
Import NtlmCodec Ntlm.Ntlm.

Section Session.
Context (md5 : list byte -> list byte) (hmac_md5 : list byte -> list byte -> list byte).
Context (md5_size : forall m, length (md5 m) = 16%nat) (hmac_size : forall k m, length (hmac_md5 k m) = 16%nat).
Abbreviation t := Session.t.

(** What [a] sends next, [b] expects next. *)
Record ahead (a b : t) : Prop := {
  same_exchange : Session.key_exch_ a = Session.key_exch_ b;
  same_signing : Session.send_signing_ a = Session.receive_signing_ b;
  same_sealing : Session.send_sealing_ a = Session.receive_sealing_ b;
  sealing_size : length (Session.send_sealing_ a) = 16%nat;
  same_cipher : Session.send_rc4_ a = Session.receive_rc4_ b;
  same_sequence : Session.send_sequence_ a = Session.receive_sequence_ b }.

(** The two ends are in step in both directions. *)
Definition mirrored (a b : t) : Prop := ahead a b /\ ahead b a.

Lemma mirrored_sym a b : mirrored a b -> mirrored b a.
Proof. unfold mirrored. tauto. Qed.

Lemma mirrored_next a b rc4 sequence : mirrored a b ->
  mirrored (Session.with_send rc4 sequence a) (Session.with_receive rc4 sequence b).
Proof. intros [[] []]. by repeat split. Qed.

Lemma length_checksum key sequence message : length (Session.checksum hmac_md5 key sequence message) = 8%nat.
Proof. unfold Session.checksum. rewrite length_take, hmac_size. done. Qed.

Lemma len_finish key_exch sum sequence rc4 : length sum = 8%nat -> len (Session.finish key_exch sum sequence rc4).1 = signature_size.
Proof.
  intros Hs. unfold Session.finish. destruct key_exch.
  - pose proof (LegacyCrypto.len_apply rc4 sum). destruct (LegacyCrypto.apply rc4 sum) as [o c]. cbn [fst] in *.
    unfold le32, signature_size, len in *. rewrite !length_app, !length_le_bytes in *. lia.
  - cbn [fst]. unfold le32, signature_size, len. rewrite !length_app, !length_le_bytes. lia.
Qed.

Lemma unwrap_split (received sealed : list byte) (b : t) : len received = signature_size ->
  Session.unwrap hmac_md5 (received ++ sealed) b =
  (let '(plaintext, rc4) := LegacyCrypto.apply (Session.receive_rc4_ b) sealed in
   let sequence := Session.receive_sequence_ b in
   let '(expected, rc4) := Session.finish (Session.key_exch_ b)
     (Session.checksum hmac_md5 (Session.receive_signing_ b) sequence plaintext) sequence rc4 in
   let b := Session.with_receive rc4 (wrap 32 (sequence + 1)) b in
   if negb (bool_decide (expected = received))
   then (fail invalid_value "NTLM message signature does not verify" 0, b) else (Ok plaintext, b)).
Proof. intros H. unfold Session.unwrap, Reader.make. by rewrite bytes_mk. Qed.

Lemma wrap_unwraps a b plaintext : mirrored a b ->
  exists w a' b', Session.wrap_ hmac_md5 plaintext a = (w, a') /\ Session.unwrap hmac_md5 w b = (Ok plaintext, b') /\
    mirrored a' b' /\ len w = signature_size + len plaintext.
Proof.
  intros Hm. pose proof Hm as [[E1 E2 E3 _ E4 E5] _]. unfold Session.wrap_.
  pose proof (LegacyCrypto.len_apply (Session.send_rc4_ a) plaintext) as Hl.
  destruct (LegacyCrypto.apply (Session.send_rc4_ a) plaintext) as [body rc4] eqn:Ea. cbn [fst] in Hl.
  pose proof (len_finish (Session.key_exch_ a) _ (Session.send_sequence_ a) rc4
    (length_checksum (Session.send_signing_ a) (Session.send_sequence_ a) plaintext)) as Hs.
  destruct (Session.finish _ _ _ _) as [signature rc4'] eqn:Ef. cbn [fst] in Hs.
  do 3 eexists. split; [reflexivity|]. rewrite unwrap_split by done. cbv zeta. apply LegacyCrypto.apply_inverse in Ea.
  rewrite <- E4, Ea, <- E1, <- E2, <- E5, Ef, bool_decide_true by done. cbn [negb].
  split; [reflexivity|]. split; [by apply mirrored_next|]. len_lia.
Qed.

Lemma unwrap_wrapped a b w plaintext b' : mirrored a b -> Session.unwrap hmac_md5 w b = (Ok plaintext, b') ->
  exists a', Session.wrap_ hmac_md5 plaintext a = (w, a') /\ mirrored a' b'.
Proof.
  intros Hm. pose proof Hm as [[E1 E2 E3 _ E4 E5] _]. unfold Session.unwrap.
  destruct (ReaderOps.bytes signature_size (Reader.make w 0)) as [[received r]|] eqn:Eb; [|done].
  apply bytes_inv in Eb as [_ [Hr _]]; [|done]. cbn in Hr.
  destruct (LegacyCrypto.apply (Session.receive_rc4_ b) (Reader.rest r)) as [plain rc4] eqn:Ea.
  destruct (Session.finish _ _ _ _) as [expected rc4'] eqn:Ef. case_bool_decide as Ee; cbn [negb]; [|done].
  intros [= <- <-]. subst expected. apply LegacyCrypto.apply_inverse in Ea. unfold Session.wrap_. rewrite E4, Ea, E1, E2, E5, Ef.
  eexists. split; [by rewrite Hr|]. by apply mirrored_next.
Qed.

Lemma mic_verifies a b message : mirrored a b ->
  exists mic a' b', Session.get_mic hmac_md5 message a = (mic, a') /\ Session.verify_mic hmac_md5 message mic b = (Ok tt, b') /\
    mirrored a' b' /\ len mic = signature_size.
Proof.
  intros Hm. pose proof Hm as [[E1 E2 E3 _ E4 E5] _]. unfold Session.get_mic, Session.verify_mic.
  pose proof (len_finish (Session.key_exch_ a) _ (Session.send_sequence_ a) (Session.send_rc4_ a)
    (length_checksum (Session.send_signing_ a) (Session.send_sequence_ a) message)) as Hs.
  destruct (Session.finish _ _ _ _) as [signature rc4] eqn:Ef. cbn [fst] in Hs.
  do 3 eexists. split; [reflexivity|]. cbv zeta. rewrite <- E4, <- E1, <- E2, <- E5, Ef, bool_decide_true by done. cbn [negb].
  split; [reflexivity|]. split; [by apply mirrored_next|done].
Qed.

Lemma mic_verified a b message mic b' : mirrored a b -> Session.verify_mic hmac_md5 message mic b = (Ok tt, b') ->
  exists a', Session.get_mic hmac_md5 message a = (mic, a') /\ mirrored a' b'.
Proof.
  intros Hm. pose proof Hm as [[E1 E2 E3 _ E4 E5] _]. unfold Session.get_mic, Session.verify_mic. cbv zeta.
  rewrite <- E4, <- E1, <- E2, <- E5. destruct (Session.finish _ _ _ _) as [expected rc4] eqn:Ef.
  case_bool_decide as Ee; cbn [negb]; [|done]. intros [= <-]. subst expected. eexists. split; [reflexivity|]. by apply mirrored_next.
Qed.

Lemma rc4_made key : length key = 16%nat -> exists c, LegacyCrypto.make key = Some c.
Proof.
  intros H. unfold LegacyCrypto.make. rewrite bool_decide_false by (by intros ->). rewrite (proj2 (Z.leb_le _ _)) by (unfold len; lia).
  by eexists.
Qed.

Lemma restart_ok x k1 k2 k3 k4 : length k3 = 16%nat -> length k4 = 16%nat ->
  exists a b, Session.restart x k1 k2 k3 k4 = Some a /\ Session.restart x k2 k1 k4 k3 = Some b /\ mirrored a b.
Proof.
  intros H3 H4. destruct (rc4_made k3 H3) as [c3 E3], (rc4_made k4 H4) as [c4 E4]. unfold Session.restart. rewrite E3, E4.
  do 2 eexists. do 2 (split; [reflexivity|]). by repeat split.
Qed.

(** The sessions that the two ends make of one key, and after a reset of both. *)
Lemma make_mirrored key flags :
  exists a b, Session.make md5 key flags true = Some a /\ Session.make md5 key flags false = Some b /\ mirrored a b.
Proof. apply restart_ok; apply md5_size. Qed.

Lemma reset_mirrored a b : mirrored a b ->
  exists a' b', Session.reset a = Some a' /\ Session.reset b = Some b' /\ mirrored a' b'.
Proof.
  intros [[E1 E2 E3 L1 _ _] [E4 E5 E6 L2 _ _]]. unfold Session.reset. rewrite <- E1, <- E2, <- E3, E5, E6.
  apply restart_ok; [done|]. by rewrite <- E6.
Qed.

(** C16: sessions made of one key, or reset together, that have exchanged whatever
    messages: each sealed message comes out as it went in, each signature
    verifies, with the two ends in step afterwards and no message longer by more
    than the signature; and nothing else is ever taken: bytes that unwrap to a
    message are those the other end would seal it to next, and a signature that
    verifies is the one it would give next. *)
Theorem session_exact a b : mirrored a b ->
  (forall m, exists w a' b', Session.wrap_ hmac_md5 m a = (w, a') /\ Session.unwrap hmac_md5 w b = (Ok m, b') /\
     mirrored a' b' /\ len w = signature_size + len m) /\
  (forall w m b', Session.unwrap hmac_md5 w b = (Ok m, b') -> exists a', Session.wrap_ hmac_md5 m a = (w, a') /\ mirrored a' b') /\
  (forall m, exists mic a' b', Session.get_mic hmac_md5 m a = (mic, a') /\ Session.verify_mic hmac_md5 m mic b = (Ok tt, b') /\
     mirrored a' b' /\ len mic = signature_size) /\
  (forall m mic b', Session.verify_mic hmac_md5 m mic b = (Ok tt, b') ->
     exists a', Session.get_mic hmac_md5 m a = (mic, a') /\ mirrored a' b').
Proof.
  intros Hm. split_and!; intros.
  - by apply wrap_unwraps.
  - by eapply unwrap_wrapped.
  - by apply mic_verifies.
  - by eapply mic_verified.
Qed.
End Session.

(** MD4 stands for MD5 in the witness, and for HMAC-MD5 with the key in front. *)
Lemma session_exact_witness : exists a b : Session.t,
  mirrored a b /\ exists w a' b',
    Session.wrap_ (fun k m => LegacyCrypto.md4 (k ++ m)) (String.list_byte_of_string "hello") a = (w, a') /\
    Session.unwrap (fun k m => LegacyCrypto.md4 (k ++ m)) w b = (Ok (String.list_byte_of_string "hello"), b') /\
    mirrored a' b' /\ len w = 21.
Proof.
  destruct (make_mirrored LegacyCrypto.md4 LegacyCrypto.length_md4 (replicate 16 (byte_of 9)) supported_flags) as (a & b & _ & _ & Hm).
  exists a, b. split; [exact Hm|].
  exact (proj1 (session_exact (fun k m => LegacyCrypto.md4 (k ++ m)) (fun k m => LegacyCrypto.length_md4 (k ++ m)) a b Hm)
    (String.list_byte_of_string "hello")).
Defined.
End NtlmSession.
