(* ===== verification/NtlmAuthentication.v ===== *)
(** * What a completed NTLM logon proves

    Theorems about [Ntlm.Acceptor] in every state a peer can bring it into: when
    it is complete, the verifier has answered for the response to this very
    challenge, and every other check was passed. *)

From S2P Require Import Prelude Buffers CodecLogic PreAuth CredsspCodec Credssp CredsspAcceptor LegacyCrypto NtlmCodec Ntlm NtlmSession.
From stdpp Require Import relations.
Open Scope Z_scope.

Module NtlmAuthentication.
Import NtlmCodec Ntlm.Ntlm.

Section Acceptor.
Context {V : Type} `{NtlmVerifier V} (md5 : list byte -> list byte) (hmac_md5 : list byte -> list byte -> list byte).
Abbreviation t := (Acceptor.t (V := V)).

(** Every call of an acceptor. *)
Inductive acts : t -> t -> Prop :=
  | acts_step s input r s' : Acceptor.step md5 hmac_md5 input s = Some (r, s') -> acts s s'
  | acts_wrap s bytes r s' : Acceptor.wrap_ hmac_md5 bytes s = Some (r, s') -> acts s s'
  | acts_unwrap s bytes r s' : Acceptor.unwrap hmac_md5 bytes s = Some (r, s') -> acts s s'
  | acts_get_mic s bytes r s' : Acceptor.get_mic hmac_md5 bytes s = Some (r, s') -> acts s s'
  | acts_verify_mic s bytes mic r s' : Acceptor.verify_mic hmac_md5 bytes mic s = Some (r, s') -> acts s s'
  | acts_reset s s' : Acceptor.reset_cipher_state s = Some s' -> acts s s'.

(** The challenge that the client answers is the one sent for its NEGOTIATE. *)
Definition offered (s : t) : Prop :=
  exists negotiate,
    decode_negotiate (Acceptor.negotiate_message_ s) = Ok negotiate /\ has_all (neg_flags negotiate) required_flags = true /\
    encode_challenge (Acceptor.challenge_for s (neg_flags negotiate)) = Some (Acceptor.challenge_message_ s) /\
    Acceptor.challenge_flags_ s = ch_flags (Acceptor.challenge_for s (neg_flags negotiate)) /\
    Acceptor.server_challenge_ s = default (Acceptor.random_ s) (Acceptor.config_challenge (Acceptor.config_ s)).

(** The client's channel bindings satisfy the policy. *)
Definition bindings_kept (config : Acceptor.AcceptorConfig (V := V)) (blob : Ntlmv2Blob) : Prop :=
  match Acceptor.channel_binding_policy config with
  | Acceptor.ignore => True
  | Acceptor.verify_if_present =>
      Acceptor.bindings_present blob = true -> Acceptor.channel_bindings config <> None ->
      find_av_pair (av_pairs blob) av_channel_bindings = Acceptor.channel_bindings config
  | Acceptor.require =>
      Acceptor.bindings_present blob = true /\ Acceptor.channel_bindings config <> None /\
      find_av_pair (av_pairs blob) av_channel_bindings = Acceptor.channel_bindings config
  end.

(** The keys of a session, which stay the same. *)
Definition keys (s : Session.t) : bool * list byte * list byte * list byte * list byte :=
  (Session.key_exch_ s, Session.send_signing_ s, Session.receive_signing_ s, Session.send_sealing_ s, Session.receive_sealing_ s).

(** The AUTHENTICATE message that was accepted, and what was checked. *)
Definition accepted (s : t) : Prop :=
  exists input m blob base exported session session0,
    decode_authenticate input = Ok m /\ user m <> [] /\ has_bits (auth_flags m) anonymous = false /\
    parse_ntlmv2_response (nt_challenge_response m) = Ok blob /\
    Acceptor.negotiated_flags_ s = Z.land (auth_flags m) (Acceptor.challenge_flags_ s) /\
    has_all (Acceptor.negotiated_flags_ s) required_flags = true /\
    bindings_kept (Acceptor.config_ s) blob /\
    v_session_base_key (Acceptor.verifier (Acceptor.config_ s)) (user m) (domain m) (Acceptor.server_challenge_ s)
      (nt_challenge_response m) = Some base /\
    Acceptor.exported_key (Acceptor.negotiated_flags_ s) base m = Some (Ok exported) /\
    (Acceptor.mic_announced blob = true -> mic m = Some (Acceptor.message_mic hmac_md5 exported (Acceptor.negotiate_message_ s)
       (Acceptor.challenge_message_ s) input (auth_flags m))) /\
    Acceptor.identity_ s = PreAuth.mkIdentity (of_bytes (user m)) (of_bytes (domain m)) /\
    Session.make md5 exported (Acceptor.negotiated_flags_ s) false = Some session0 /\
    Acceptor.session_ s = Some session /\ keys session = keys session0.

Definition ntlm_inv (config : Acceptor.AcceptorConfig (V := V)) (random : list byte) (now : Z) (s : t) : Prop :=
  Acceptor.config_ s = config /\ Acceptor.random_ s = random /\ Acceptor.now_ s = now /\
  match Acceptor.state_ s with
  | Acceptor.expect_negotiate | Acceptor.failed => Acceptor.session_ s = None
  | Acceptor.expect_authenticate => Acceptor.session_ s = None /\ offered s
  | Acceptor.complete => offered s /\ accepted s
  end.

Lemma screen_inv (s : t) input m negotiated blob : Acceptor.screen s input = Ok (m, negotiated, blob) ->
  decode_authenticate input = Ok m /\ user m <> [] /\ has_bits (auth_flags m) anonymous = false /\
  parse_ntlmv2_response (nt_challenge_response m) = Ok blob /\ negotiated = Z.land (auth_flags m) (Acceptor.challenge_flags_ s) /\
  has_all negotiated required_flags = true /\ bindings_kept (Acceptor.config_ s) blob.
Proof.
  unfold Acceptor.screen. destruct (decode_authenticate input) as [m0|] eqn:Ed; [|done]. cbn [rbind].
  destruct (has_bits (auth_flags m0) anonymous || _) eqn:Ea; [done|]. destruct (len _ <=? 24); [done|].
  destruct (has_all _ required_flags) eqn:Er; cbn [negb]; [|done].
  destruct (parse_ntlmv2_response _) as [blob0|] eqn:Ep; [|done]. cbn [rbind].
  destruct (Acceptor.check_bindings _ blob0) as [[]|] eqn:Eb; [|done]. cbn [rbind]. intros [= <- <- <-].
  apply orb_false_elim in Ea as [Ea Eu]. apply bool_decide_eq_false in Eu. split_and!; try done.
  clear - Eb. unfold bindings_kept, Acceptor.check_bindings, Acceptor.bindings_match in *.
  destruct (Acceptor.channel_binding_policy _); [done| |].
  - intros Hp Hn. destruct (Acceptor.channel_bindings _) as [b|]; [|done]. rewrite Hp in Eb. cbn in Eb. by case_bool_decide.
  - destruct (Acceptor.bindings_present blob0); cbn in Eb; [|done]. destruct (Acceptor.channel_bindings _) as [b|]; cbn in Eb; [|done].
    by case_bool_decide.
Qed.

Lemma check_mic_inv (s : t) input m blob exported : Acceptor.check_mic hmac_md5 s input m blob exported = Ok tt ->
  Acceptor.mic_announced blob = true -> mic m = Some (Acceptor.message_mic hmac_md5 exported (Acceptor.negotiate_message_ s)
    (Acceptor.challenge_message_ s) input (auth_flags m)).
Proof.
  unfold Acceptor.check_mic. intros E Ha. rewrite Ha in E. destruct (mic m) as [v|]; [|done]. case_bool_decide; [|done]. congruence.
Qed.

(** ** The invariant *)

Context (config : Acceptor.AcceptorConfig (V := V)) (random : list byte) (now : Z).
Abbreviation inv := (ntlm_inv config random now).

Lemma inv_made s : Acceptor.make config random now = Some s -> inv s.
Proof. unfold Acceptor.make. destruct (Acceptor.channel_binding_policy config), (Acceptor.channel_bindings config); by intros [= <-]. Qed.

Lemma ntlm_failed_inv (s : t) : inv s -> inv (Acceptor.with_state Acceptor.failed None s).
Proof. intros (? & ? & ? & _). by split_and!. Qed.

Lemma on_negotiate_inv s input r s' : inv s -> Acceptor.state_ s = Acceptor.expect_negotiate ->
  Acceptor.on_negotiate input s = Some (r, s') ->
  match r with Ok out => Credssp.step_complete out = false /\ inv s' | Err _ => s' = s end.
Proof.
  intros (Hc & Hr & Hn & Hs) Es. rewrite Es in Hs. unfold Acceptor.on_negotiate.
  destruct (decode_negotiate input) as [negotiate|e] eqn:Ed; [|by intros [= <- <-]].
  destruct (has_all (neg_flags negotiate) required_flags) eqn:Ef; cbn [negb]; [|by intros [= <- <-]].
  destruct (encode_challenge (Acceptor.challenge_for s (neg_flags negotiate))) as [bytes|] eqn:Ee; [|done].
  cbn [mbind option_bind]. intros [= <- <-]. split; [done|]. split_and!; try done. split; [done|].
  exists negotiate. by split_and!.
Qed.

Lemma on_authenticate_inv s input r s' : inv s -> Acceptor.state_ s = Acceptor.expect_authenticate ->
  Acceptor.on_authenticate md5 hmac_md5 input s = Some (r, s') ->
  match r with Ok _ => inv s' /\ Acceptor.state_ s' = Acceptor.complete | Err _ => s' = s end.
Proof.
  intros (Hc & Hr & Hn & Hs) Es. rewrite Es in Hs. destruct Hs as [Hnone Ho]. unfold Acceptor.on_authenticate.
  destruct (Acceptor.screen s input) as [[[m negotiated] blob]|e] eqn:Esc; [|by intros [= <- <-]].
  apply screen_inv in Esc as (H1 & H2 & H3 & H4 & H5 & H6 & H7).
  destruct (v_session_base_key _ _ _ _ _) as [base|] eqn:Ev; [|by intros [= <- <-]].
  destruct (Acceptor.exported_key negotiated base m) as [[exported|e]|] eqn:Ex; [|by intros [= <- <-]|done].
  cbn [mbind option_bind rbind]. destruct (Acceptor.check_mic _ _ _ _ _ _) as [[]|e] eqn:Em; [|by intros [= <- <-]]. cbn [rbind].
  destruct (Acceptor.read_target_name _ _) as [target|e]; [|by intros [= <- <-]]. cbn [rbind].
  destruct (Session.make md5 exported negotiated false) as [session|] eqn:Ek; [|done]. cbn [mbind option_bind].
  intros [= <- <-]. split; [|done]. split_and!; try done. split; [exact Ho|].
  exists input, m, blob, base, exported, session, session. split_and!; try done. by apply check_mic_inv.
Qed.

(** A step keeps the invariant; its last one completes the acceptor, and no other does. *)
Lemma step_inv s input r s' : inv s -> Acceptor.step md5 hmac_md5 input s = Some (r, s') ->
  inv s' /\ (forall out, r = Ok out -> Credssp.step_complete out = true -> Acceptor.state_ s' = Acceptor.complete) /\
  (Acceptor.state_ s = Acceptor.complete -> s' = s).
Proof.
  intros Hi. unfold Acceptor.step. destruct (Acceptor.state_ s) eqn:Es; [| |by intros [= <- <-]..].
  - destruct (Acceptor.on_negotiate input s) as [[r0 s0]|] eqn:En; [|done]. cbn [mbind option_bind].
    apply on_negotiate_inv in En; [|done..]. destruct r0 as [out|e]; intros [= <- <-].
    + destruct En as [Hf Hi']. split_and!; [done| |done]. intros out' [= <-]. congruence.
    + subst s0. split_and!; [by apply ntlm_failed_inv|done..].
  - destruct (Acceptor.on_authenticate md5 hmac_md5 input s) as [[r0 s0]|] eqn:En; [|done]. cbn [mbind option_bind].
    apply on_authenticate_inv in En; [|done..]. destruct r0 as [out|e]; intros [= <- <-].
    + destruct En as [Hi' Hf]. by split_and!.
    + subst s0. split_and!; [by apply ntlm_failed_inv|done..].
Qed.

(** The other calls only change the session, and not its keys. *)
Lemma session_inv (s : t) session session' : inv s -> Acceptor.session_ s = Some session -> keys session' = keys session ->
  inv (Acceptor.with_state (Acceptor.state_ s) (Some session') s).
Proof.
  intros (Hc & Hr & Hn & Hs) E Hk. split_and!; try done. cbn [Acceptor.state_ Acceptor.with_state].
  destruct (Acceptor.state_ s); [congruence|by destruct Hs; congruence| |congruence]. destruct Hs as [Ho Ha]. split; [exact Ho|].
  destruct Ha as (input & m & blob & base & exported & x & x0 & Ha). exists input, m, blob, base, exported, session', x0.
  destruct_and!. split_and!; try done. congruence.
Qed.

Lemma on_session_inv {A} (f : Session.t -> A * Session.t) (s : t) r s' :
  (forall x, keys (f x).2 = keys x) -> inv s -> Acceptor.on_session_ f s = Some (r, s') -> inv s' /\ Acceptor.state_ s' = Acceptor.state_ s.
Proof.
  intros Hf Hi. unfold Acceptor.on_session_, on_session. destruct (Acceptor.session_ s) as [x|] eqn:E; [|done]. cbn [mbind option_bind].
  intros [= <- <-]. split; [|done]. by apply (session_inv s x).
Qed.

Lemma wrap_keys bytes x : keys (Session.wrap_ hmac_md5 bytes x).2 = keys x.
Proof. unfold Session.wrap_. destruct (LegacyCrypto.apply _ _) as [b c]. by destruct (Session.finish _ _ _ _). Qed.
Lemma unwrap_keys bytes x : keys (Session.unwrap hmac_md5 bytes x).2 = keys x.
Proof.
  unfold Session.unwrap. destruct (ReaderOps.bytes _ _) as [[b r]|]; [|done]. destruct (LegacyCrypto.apply _ _) as [p c].
  destruct (Session.finish _ _ _ _) as [e c']. by case_bool_decide.
Qed.
Lemma get_mic_keys bytes x : keys (Session.get_mic hmac_md5 bytes x).2 = keys x.
Proof. unfold Session.get_mic. by destruct (Session.finish _ _ _ _). Qed.
Lemma verify_mic_keys bytes mic x : keys (Session.verify_mic hmac_md5 bytes mic x).2 = keys x.
Proof. unfold Session.verify_mic. destruct (Session.finish _ _ _ _) as [e c]. by case_bool_decide. Qed.
Lemma reset_keys x x' : Session.reset x = Some x' -> keys x' = keys x.
Proof.
  unfold Session.reset, Session.restart. destruct (LegacyCrypto.make (Session.send_sealing_ x)); cbn [mbind option_bind]; [|discriminate].
  destruct (LegacyCrypto.make _); cbn [mbind option_bind]; [|discriminate]. intros [= <-]. reflexivity.
Qed.

(** Every call keeps the invariant, and an acceptor that is complete stays so. *)
Lemma acts_inv s s' : acts s s' -> inv s -> inv s' /\ (Acceptor.state_ s = Acceptor.complete -> Acceptor.state_ s' = Acceptor.complete).
Proof.
  intros Ha Hi. destruct Ha as [s input r s' E|s bytes r s' E|s bytes r s' E|s bytes r s' E|s bytes mic r s' E|s s' E].
  - apply step_inv in E as (Hi' & _ & Hs); [|done]. split; [done|]. intros Ec. by rewrite (Hs Ec).
  - apply (on_session_inv (Session.wrap_ hmac_md5 bytes)) in E as [Hi' Es]; [|apply wrap_keys|exact Hi]. split; [exact Hi'|congruence].
  - apply (on_session_inv (Session.unwrap hmac_md5 bytes)) in E as [Hi' Es]; [|apply unwrap_keys|exact Hi]. split; [exact Hi'|congruence].
  - apply (on_session_inv (Session.get_mic hmac_md5 bytes)) in E as [Hi' Es]; [|apply get_mic_keys|exact Hi]. split; [exact Hi'|congruence].
  - apply (on_session_inv (Session.verify_mic hmac_md5 bytes mic)) in E as [Hi' Es]; [|apply verify_mic_keys|exact Hi]. split; [exact Hi'|congruence].
  - unfold Acceptor.reset_cipher_state in E. destruct (Acceptor.session_ s) as [x|] eqn:Ex; [|done]. cbn [mbind option_bind] in E.
    destruct (Session.reset x) as [x'|] eqn:Er; [|done]. cbn [mbind option_bind] in E. injection E as <-. split; [|done].
    apply (session_inv s x); [done|done|by apply reset_keys].
Qed.

Definition reachable (s : t) : Prop := exists s0, Acceptor.make config random now = Some s0 /\ rtc acts s0 s.

Lemma reachable_inv s : reachable s -> inv s.
Proof.
  intros (s0 & Hm & Hr). apply inv_made in Hm. induction Hr as [|s s1 s2 Ha Hr IH]; [done|]. apply IH. by eapply acts_inv.
Qed.

End Acceptor.

(** What [LocalNtlmVerifier] answers for: a response whose proof was made with the
    hash of the account, of this challenge and of all that follows the proof. *)
Lemma local_proof hmac_md5 (v : LocalNtlmVerifier.t) name realm challenge response base :
  LocalNtlmVerifier.session_base_key hmac_md5 v name realm challenge response = Some base ->
  44 <= len response /\ exists hash, LocalNtlmVerifier.lookup_ v name realm = Some hash /\
    let key := ntowf_v2 hmac_md5 hash name realm in
    take 16 response = hmac_md5 key (challenge ++ drop 16 response) /\ base = hmac_md5 key (take 16 response).
Proof.
  unfold LocalNtlmVerifier.session_base_key. destruct (Z.ltb_spec (len response) (16 + 28)) as [|Hl]; [done|].
  destruct (LocalNtlmVerifier.lookup_ v name realm) as [hash|] eqn:E; cbn [default is_some]; [|by rewrite andb_false_r].
  case_bool_decide as Ep; [|done]. intros [= <-]. split; [lia|]. exists hash. by split_and!.
Qed.
End NtlmAuthentication.
