(* ===== verification/NtlmExchange.v ===== *)
(** * An NTLM logon between two honest ends

    [Ntlm.Initiator] and [Ntlm.Acceptor], connected to each other and with the
    same account on both sides, complete in three messages with sessions that
    belong together: what CredSSP asks of a mechanism. *)

From S2P Require Import Prelude Buffers CodecLogic Fields Text PreAuth CredsspCodec Credssp CredsspHandshake LegacyCrypto NtlmCodec NtlmMessages Ntlm NtlmSession.
Open Scope Z_scope.

Module NtlmExchange.
Import NtlmCodec NtlmMessages Ntlm.Ntlm NtlmSession.

(** ** The NTLMv2 response *)

(** What the client puts behind its proof. *)
Definition temp_bytes (timestamp : Z) (client_challenge : list byte) (pairs : list AvPair) : list byte :=
  [byte_of 1; byte_of 1] ++ replicate 6 (byte_of 0) ++ Writer.le_bytes 8 timestamp ++ client_challenge ++
  replicate 4 (byte_of 0) ++ avs_bytes pairs ++ replicate 4 (byte_of 0).

Lemma temp_written timestamp client_challenge pairs : forallb av_ok pairs = true ->
  ntlmv2_temp timestamp client_challenge pairs = Some (temp_bytes timestamp client_challenge pairs).
Proof.
  intros H. unfold ntlmv2_temp. rewrite (writes_run _ (temp_bytes timestamp client_challenge pairs)); [done|]. unfold temp_bytes.
  apply (writes_seq _ _ [byte_of 1]); [apply writes_bytes|]. apply (writes_seq _ _ [byte_of 1]); [apply writes_bytes|].
  do 4 (apply writes_seq; [apply writes_bytes|]). apply writes_seq; [by apply writes_avs|]. apply writes_bytes.
Qed.

Lemma avs_bound n pairs : Forall (fun p => len (av_value p) <= n) pairs -> len (avs_bytes pairs) <= (n + 4) * len pairs + 4.
Proof.
  intros Hf. unfold avs_bytes. assert (len (concat (av_bytes <$> pairs)) <= (n + 4) * len pairs); [|len_lia].
  induction Hf as [|p pairs Hp Hf IH]; [change (0 <= (n + 4) * 0); lia|]. cbn [fmap list_fmap concat]. unfold av_bytes at 1. len_lia.
Qed.

Lemma reads_u64le v k : 0 <= v < 18446744073709551616 -> reads ReaderOps.u64le (Writer.le_bytes 8 v) k (eq v).
Proof. intros. by apply reads_read_le. Qed.

Lemma response_parsed proof timestamp client_challenge pairs :
  len proof = 16 -> u64_ok timestamp = true -> len client_challenge = 8 -> avs_ok pairs = true ->
  parse_ntlmv2_response (proof ++ temp_bytes timestamp client_challenge pairs) = Ok (mkBlob timestamp pairs).
Proof.
  intros Hp Ht Hc Ha. widths. unfold parse_ntlmv2_response, result, Reader.make, temp_bytes.
  erewrite dbind_reads by (by apply reads_pad). rewrite dbind_ask.
  change ([byte_of 1; byte_of 1] ++ ?l) with ([byte_of 1] ++ [byte_of 1] ++ l).
  do 2 (erewrite dbind_reads by (by apply reads_u8)). change (1 =? 1) with true. cbn [negb orb].
  erewrite dbind_reads by (by apply reads_pad). erewrite dbind_reads by (by apply reads_u64le).
  rewrite app_assoc. erewrite dbind_reads by (apply reads_pad; len_lia).
  by erewrite dbind_reads by (by apply reads_avs).
Qed.

Lemma number_back n v : 0 <= v < 256 ^ Z.of_nat n -> ReaderOps.read_le n (Reader.make (Writer.le_bytes n v) 0) = Ok (v, Reader.mk (Writer.le_bytes n v) [] 0).
Proof.
  intros Hv. pose proof (reads_read_le n v [] Hv [] 0) as (x & E & <-). rewrite app_nil_r in E. exact E.
Qed.

Lemma read_u32_back v : u32_ok v = true -> read_u32 (le32 v) = v.
Proof. intros H. widths. unfold read_u32, le32, ReaderOps.u32le. by rewrite number_back. Qed.

Lemma read_u64_back v : u64_ok v = true -> read_u64 (le64 v) = v.
Proof. intros H. widths. unfold read_u64, le64, ReaderOps.u64le. by rewrite number_back. Qed.

Lemma overwrite_placed pos (a x d e : list byte) : pos = length a -> length x = length d -> Writer.overwrite pos d (a ++ x ++ e) = a ++ d ++ e.
Proof.
  intros -> E. unfold Writer.overwrite. rewrite take_app_length, <- E, drop_app_add, drop_app_length. done.
Qed.

(** An AUTHENTICATE message with another MIC is the same bytes around it. *)
Definition with_mic (m : AuthenticateMessage) (v : list byte) : AuthenticateMessage :=
  mkAuthenticate (auth_flags m) (lm_challenge_response m) (nt_challenge_response m) (domain m) (user m) (workstation m)
    (encrypted_random_session_key m) (auth_version m) (Some v).

Lemma mic_replaced m old new : version_field_ok (auth_flags m) (auth_version m) = true -> length old = 16%nat -> length new = 16%nat ->
  Writer.overwrite (Z.to_nat (authenticate_mic_offset (auth_flags m))) new (authenticate_bytes (with_mic m old)) =
  authenticate_bytes (with_mic m new).
Proof.
  intros Hv Ho Hn. pose proof (authenticate_mic_place (with_mic m old) Hv) as Hp. cbn [auth_flags with_mic] in Hp.
  assert (len old = len new) as E by (unfold len; congruence).
  unfold authenticate_bytes. change (mic_part (mic (with_mic m ?x))) with x. rewrite <- !app_assoc.
  assert (authenticate_front (with_mic m new) = authenticate_front (with_mic m old)) as ->.
  { unfold authenticate_front, authenticate_fields, authenticate_size.
    change (mic_part (mic (with_mic m ?x))) with x. by rewrite E. }
  apply overwrite_placed; [|congruence]. rewrite Hp. unfold len. lia.
Qed.

(** ** The two ends

    [fits] is what the configurations need: names that NTLM can carry, values of
    their sizes, channel bindings that the acceptor's policy lets through, and a
    verifier that knows the hash of the account's password. *)

(** The verifier answers for a response made with [hash]. *)
Definition knows {V} `{NtlmVerifier V} (hmac_md5 : list byte -> list byte -> list byte) (v : V) (name realm hash : list byte) : Prop :=
  forall challenge temp, 28 <= len temp ->
    let key := ntowf_v2 hmac_md5 hash name realm in
    let proof := nt_proof_str hmac_md5 key challenge temp in
    v_session_base_key v name realm challenge (proof ++ temp) = Some (session_base_key hmac_md5 key proof).

Definition zeros16 : list byte := replicate 16 (byte_of 0).

Section Exchange.
Context {V : Type} `{NtlmVerifier V} (md5 : list byte -> list byte) (hmac_md5 : list byte -> list byte -> list byte).
Context (ic : Initiator.InitiatorConfig) (ac : Acceptor.AcceptorConfig (V := V)).
Context (server_random client_random key_random : list byte) (server_now client_now : Z).

Definition challenge_value : list byte := default server_random (Acceptor.config_challenge ac).
Definition client_value : list byte := default client_random (Initiator.client_challenge ic).
Definition exported_value : list byte := default key_random (Initiator.random_session_key ic).
Definition server_time : Z := default server_now (Acceptor.config_timestamp ac).
Definition bindings_value : list byte := default zeros16 (Initiator.channel_bindings ic).

(** Channel bindings that the policy lets through. *)
Definition bindings_fit : Prop :=
  match Acceptor.channel_binding_policy ac with
  | Acceptor.ignore => True
  | Acceptor.verify_if_present => bindings_value = zeros16 \/ Acceptor.channel_bindings ac ∈ [None; Some bindings_value]
  | Acceptor.require => bindings_value <> zeros16 /\ Acceptor.channel_bindings ac = Some bindings_value
  end.

Record fits : Prop := {
  user_named : Initiator.config_user ic <> [];
  names_plain : forallb name_ok [Initiator.config_user ic; Initiator.config_domain ic; Initiator.config_workstation ic] = true;
  target_plain : opt_ok name_ok (Initiator.config_target_name ic) = true;
  server_names : forallb (fun name => len (wide name) <=? 4000)
    [Acceptor.netbios_domain ac; Acceptor.netbios_computer ac; Acceptor.dns_domain ac; Acceptor.dns_computer ac] = true;
  challenge_sized : len challenge_value = 8;
  client_sized : len client_value = 8;
  exported_sized : length exported_value = 16%nat;
  bindings_sized : length bindings_value = 16%nat;
  time_fits : u64_ok server_time = true;
  policy_kept : bindings_fit;
  account_known : knows hmac_md5 (Acceptor.verifier ac) (Initiator.config_user ic) (Initiator.config_domain ic)
                    (nt_hash (Initiator.password ic)) }.

Context (md5_size : forall m, length (md5 m) = 16%nat) (hmac_size : forall k m, length (hmac_md5 k m) = 16%nat).
Context (fit : fits).

(** ** The messages *)

Definition hello : NegotiateMessage := mkNegotiate supported_flags [] [] (Some default_version).

Definition acceptor_start : Acceptor.t (V := V) :=
  Acceptor.mk ac server_random server_now Acceptor.expect_negotiate (replicate 8 (byte_of 0)) [] [] 0 0 None false
    Acceptor.no_identity None.
Definition initiator_start : Initiator.t := Initiator.make ic client_random key_random client_now.

Definition offer : ChallengeMessage := Acceptor.challenge_for acceptor_start supported_flags.

Definition acceptor_waiting : Acceptor.t (V := V) :=
  Acceptor.mk ac server_random server_now Acceptor.expect_authenticate challenge_value (negotiate_bytes hello) (challenge_bytes offer)
    (ch_flags offer) 0 None false Acceptor.no_identity None.
Definition initiator_waiting : Initiator.t :=
  Initiator.mk ic client_random key_random client_now (nt_hash (Initiator.password ic)) Initiator.expect_challenge
    (negotiate_bytes hello) 0 Acceptor.no_identity None.

Lemma acceptor_made a : Acceptor.make ac server_random server_now = Some a -> a = acceptor_start.
Proof.
  unfold Acceptor.make. destruct (Acceptor.channel_binding_policy ac), (Acceptor.channel_bindings ac); by intros [= <-].
Qed.

Lemma initiator_greets :
  Initiator.step md5 hmac_md5 [] initiator_start = Some (Ok (mkStep (negotiate_bytes hello) false), initiator_waiting).
Proof.
  unfold Initiator.step, initiator_start, Initiator.make. cbn [Initiator.state_]. rewrite bool_decide_true by done. cbn [negb].
  change (mkNegotiate supported_flags [] [] (Some default_version)) with hello.
  rewrite negotiate_encodes by (vm_compute; reflexivity). done.
Qed.

Lemma if_empty_bound a b n : len (wide a) <= n -> len (wide b) <= n -> len (wide (Acceptor.if_empty a b)) <= n.
Proof. unfold Acceptor.if_empty. by case_bool_decide. Qed.

(** The target info of the offer: its values are within bounds. *)
Lemma info_bounds : Forall (fun p => len (av_value p) <= 4000) (target_info offer) /\ forallb av_ok (target_info offer) = true.
Proof.
  pose proof (server_names fit) as Hn. cbn [forallb] in Hn. bools.
  pose proof (if_empty_bound (Acceptor.dns_domain ac) (Acceptor.netbios_domain ac) 4000 ltac:(done) ltac:(done)).
  pose proof (if_empty_bound (Acceptor.dns_computer ac) (Acceptor.netbios_computer ac) 4000 ltac:(done) ltac:(done)).
  unfold offer, Acceptor.challenge_for, acceptor_start. cbn [Acceptor.config_ Acceptor.now_ target_info]. fold (wide (Acceptor.netbios_domain ac)).
  split.
  - repeat (constructor; [cbn [av_value]; first [done|unfold le64; len_lia]|]). constructor.
  - unfold av_ok. cbn [forallb av_id av_value]. unfold wide in *.
    rewrite !andb_true_iff, !Z.leb_le. change (len (le64 _)) with 8. repeat split; (done || lia).
Qed.

Lemma info_ids : av_id <$> target_info offer = [av_nb_domain_name; av_nb_computer_name; av_dns_domain_name; av_dns_computer_name; av_timestamp].
Proof. done. Qed.

Lemma offer_ok : challenge_ok offer = true.
Proof.
  destruct info_bounds as [Hb Ho]. apply avs_bound in Hb. pose proof (server_names fit) as Hn. pose proof (challenge_sized fit) as Hc.
  cbn [forallb] in Hn. bools. unfold challenge_ok.
  assert (avs_ok (target_info offer) = true) as Ha by (unfold avs_ok; rewrite Ho, info_ids; vm_compute; reflexivity).
  rewrite Ha, !andb_true_iff, !Z.leb_le, Z.eqb_eq. change (target_name offer) with (wide (Acceptor.netbios_domain ac)).
  change (len (target_info offer)) with 5 in Hb. repeat split; first [exact Hc|lia|vm_compute; reflexivity].
Qed.

Lemma len_offer : len (challenge_bytes offer) <= 40000.
Proof.
  destruct info_bounds as [Hb _]. apply avs_bound in Hb. change (len (target_info offer)) with 5 in Hb.
  pose proof (server_names fit) as Hn. pose proof (challenge_sized fit) as Hc. cbn [forallb] in Hn. bools.
  pose proof (len_version_part (ch_version offer)).
  unfold challenge_bytes, challenge_header, challenge_datas. change (server_challenge offer) with challenge_value.
  change (target_name offer) with (wide (Acceptor.netbios_domain ac)). cbn [concat]. len_lia.
Qed.

Lemma acceptor_offers :
  Acceptor.step md5 hmac_md5 (negotiate_bytes hello) acceptor_start = Some (Ok (mkStep (challenge_bytes offer) false), acceptor_waiting).
Proof.
  unfold Acceptor.step. cbn [Acceptor.state_ acceptor_start]. unfold Acceptor.on_negotiate.
  rewrite negotiate_decodes by (vm_compute; reflexivity). change (has_all (neg_flags hello) required_flags) with true. cbn [negb].
  change (Acceptor.challenge_for acceptor_start (neg_flags hello)) with offer. rewrite (challenge_encodes _ offer_ok). done.
Qed.

(** ** The AUTHENTICATE message *)

Definition pairs : list AvPair := Initiator.client_pairs ic (target_info offer).

Lemma pairs_eq : pairs = target_info offer ++ [mkAv av_flags (le32 av_flag_mic_present); mkAv av_channel_bindings bindings_value] ++
  match Initiator.config_target_name ic with Some name => [mkAv av_target_name (wide name)] | None => [] end.
Proof. done. Qed.

Lemma target_bound name : Initiator.config_target_name ic = Some name -> len (wide name) <= 512.
Proof. intros E. pose proof (target_plain fit) as Ht. rewrite E in Ht. by apply wide_bound. Qed.

Lemma pairs_bounds : Forall (fun p => len (av_value p) <= 4000) pairs /\ forallb av_ok pairs = true.
Proof.
  destruct info_bounds as [Hb Ho]. pose proof (bindings_sized fit) as Hs. pose proof target_bound as Ht. rewrite pairs_eq.
  rewrite !Forall_app, !forallb_app, Ho. cbn [andb].
  assert (len bindings_value = 16) as Hl by (unfold len; lia).
  split.
  - split; [done|]. split.
    + repeat (constructor; [cbn [av_value]; first [done|lia]|]). constructor.
    + destruct (Initiator.config_target_name ic) as [name|]; [|constructor].
      constructor; [cbn [av_value]; specialize (Ht name eq_refl); lia|constructor].
  - unfold av_ok. cbn [forallb av_id av_value]. change (len (le32 _)) with 4. rewrite Hl. cbn [av_pair_length].
    destruct (Initiator.config_target_name ic) as [name|]; [|done].
    cbn [forallb av_id av_value]. specialize (Ht name eq_refl). by rewrite (proj2 (Z.leb_le (len (wide name)) _)) by lia.
Qed.

Lemma pairs_count : len pairs <= 8.
Proof. rewrite pairs_eq. by destruct (Initiator.config_target_name ic). Qed.

Lemma pairs_ok : avs_ok pairs = true.
Proof.
  unfold avs_ok. pose proof pairs_count. rewrite (proj2 pairs_bounds), (proj2 (Z.leb_le _ _)) by (unfold max_av_pairs; lia).
  rewrite pairs_eq, !fmap_app, info_ids. by destruct (Initiator.config_target_name ic).
Qed.

Definition temp : list byte := temp_bytes server_time client_value pairs.
Definition key_value : list byte :=
  ntowf_v2 hmac_md5 (nt_hash (Initiator.password ic)) (Initiator.config_user ic) (Initiator.config_domain ic).
Definition proof_value : list byte := nt_proof_str hmac_md5 key_value challenge_value temp.
Definition base_value : list byte := session_base_key hmac_md5 key_value proof_value.

Lemma len_temp : 28 <= len temp <= 33000.
Proof.
  destruct pairs_bounds as [Hb _]. apply avs_bound in Hb. pose proof pairs_count. pose proof (client_sized fit).
  unfold temp, temp_bytes. len_lia.
Qed.

(** The cipher over the exported key, and what the response is sent in. *)
Definition cipher : LegacyCrypto.Rc4 := default (LegacyCrypto.mkRc4 [] 0 0) (LegacyCrypto.make base_value).

Definition unsigned : AuthenticateMessage :=
  mkAuthenticate supported_flags (replicate 24 (byte_of 0)) (proof_value ++ temp) (Initiator.config_domain ic)
    (Initiator.config_user ic) (Initiator.config_workstation ic) (LegacyCrypto.apply cipher exported_value).1
    (Some default_version) (Some zeros16).
Definition mic_value : list byte :=
  hmac_md5 exported_value (negotiate_bytes hello ++ challenge_bytes offer ++ authenticate_bytes unsigned).
Definition response : AuthenticateMessage := with_mic unsigned mic_value.

Lemma cipher_made : LegacyCrypto.make base_value = Some cipher.
Proof. unfold cipher. destruct (rc4_made base_value) as [c E]; [apply hmac_size|]. by rewrite E. Qed.

Lemma with_mic_ok v : length v = 16%nat -> authenticate_ok (with_mic unsigned v) = true.
Proof.
  intros Hv. pose proof (names_plain fit) as Hn. cbn [forallb] in Hn. bools. pose proof len_temp. pose proof (exported_sized fit).
  pose proof (hmac_size key_value (challenge_value ++ temp)) as Hp. fold (nt_proof_str hmac_md5 key_value challenge_value temp) in Hp.
  fold proof_value in Hp. unfold authenticate_ok, with_mic, unsigned.
  cbn [auth_flags lm_challenge_response nt_challenge_response domain user workstation encrypted_random_session_key auth_version mic opt_ok].
  rewrite LegacyCrypto.len_apply, len_app, !andb_true_iff, !Z.leb_le, Z.eqb_eq. unfold mic_size, len in *.
  repeat split; first [done|lia|vm_compute; reflexivity].
Qed.

Lemma answer_given : Initiator.answer hmac_md5 initiator_waiting offer pairs = Some (unsigned, exported_value).
Proof.
  unfold Initiator.answer. cbn [Initiator.config_ Initiator.now_ Initiator.random_challenge_ Initiator.random_key_ Initiator.nt_hash_ initiator_waiting].
  change (find_av_pair (target_info offer) av_timestamp) with (Some (le64 server_time)). cbv iota.
  rewrite (read_u64_back _ (time_fits fit)), (temp_written _ _ _ (proj2 pairs_bounds)). fold client_value. fold temp.
  cbn [mbind option_bind]. change (server_challenge offer) with challenge_value. fold key_value. fold proof_value. fold base_value.
  rewrite cipher_made. done.
Qed.

Definition done_initiator (session : Session.t) : Initiator.t :=
  Initiator.mk ic client_random key_random client_now (nt_hash (Initiator.password ic)) Initiator.complete (negotiate_bytes hello)
    supported_flags (PreAuth.mkIdentity (of_bytes (Initiator.config_user ic)) (of_bytes (Initiator.config_domain ic))) (Some session).

Lemma names_short : Initiator.names_too_long ic = false.
Proof.
  pose proof (names_plain fit) as Hn. cbn [forallb] in Hn. bools. unfold Initiator.names_too_long. cbn [existsb].
  rewrite !(proj2 (Z.ltb_ge _ _)) by (by apply wide_bound). done.
Qed.

Lemma initiator_answers session : Session.make md5 exported_value supported_flags true = Some session ->
  Initiator.step md5 hmac_md5 (challenge_bytes offer) initiator_waiting =
  Some (Ok (mkStep (authenticate_bytes response) true), done_initiator session).
Proof.
  intros Es. unfold Initiator.step. cbn [Initiator.state_ initiator_waiting]. unfold Initiator.on_challenge.
  cbn [Initiator.config_ initiator_waiting]. rewrite (bool_decide_false _ (user_named fit)), names_short.
  rewrite (challenge_decodes _ offer_ok).
  change (has_all (ch_flags offer) (Z.lor (Z.lor required_flags negotiate_key_exch) negotiate_target_info)) with true. cbn [negb].
  fold pairs. rewrite (proj2 (Z.ltb_ge max_av_pairs (len pairs))) by (pose proof pairs_count; unfold max_av_pairs; lia).
  change (Z.land (ch_flags offer) supported_flags) with supported_flags.
  match goal with |- context [Initiator.answer _ ?s _ _] =>
    change (Initiator.answer hmac_md5 s offer pairs) with (Initiator.answer hmac_md5 initiator_waiting offer pairs) end.
  rewrite answer_given. cbn [mbind option_bind].
  change unsigned with (with_mic unsigned zeros16) at 1. rewrite (authenticate_encodes _ (with_mic_ok zeros16 eq_refl)).
  cbn [mbind option_bind Initiator.negotiate_message_ initiator_waiting]. change (with_mic unsigned zeros16) with unsigned.
  fold mic_value. pose proof (mic_replaced unsigned zeros16 mic_value eq_refl eq_refl (hmac_size _ _)) as Em.
  change (auth_flags unsigned) with supported_flags in Em. change (with_mic unsigned zeros16) with unsigned in Em. rewrite Em, Es.
  cbn [mbind option_bind]. reflexivity.
Qed.

(** ** The acceptor's answer *)

Definition sent_blob : Ntlmv2Blob := mkBlob server_time pairs.

Lemma bindings_found : find_av_pair pairs av_channel_bindings = Some bindings_value.
Proof. by rewrite pairs_eq. Qed.

Lemma zero_bindings : Acceptor.bindings_present sent_blob = negb (bool_decide (bindings_value = zeros16)).
Proof.
  unfold Acceptor.bindings_present. cbn [av_pairs sent_blob]. rewrite bindings_found. apply eq_true_iff_eq.
  rewrite negb_true_iff, bool_decide_eq_false, existsb_exists. pose proof (bindings_sized fit) as Hs. split.
  - intros (x & Hx & Hn) E. rewrite E in Hx. apply list_elem_of_In, elem_of_replicate in Hx as [-> _]. done.
  - intros Hn. destruct (existsb (fun x => negb (u8_of x =? 0)) bindings_value) eqn:Ee; [by apply existsb_exists|].
    destruct Hn. apply list_eq_same_length with (n := 16%nat); [done|by rewrite Hs|]. intros i x y Hi Hx Hy.
    apply lookup_replicate in Hy as [-> _]. apply list_elem_of_lookup_2, list_elem_of_In in Hx.
    apply not_true_iff_false in Ee. destruct (Z.eq_dec (u8_of x) 0) as [Ez|Ez]; [by rewrite <- (byte_of_u8_of x), Ez|].
    destruct Ee. apply existsb_exists. exists x. split; [done|]. by apply negb_true_iff, Z.eqb_neq.
Qed.

Lemma bindings_pass : Acceptor.check_bindings ac sent_blob = Ok tt.
Proof.
  pose proof (policy_kept fit) as Hp. unfold bindings_fit, Acceptor.check_bindings, Acceptor.bindings_match in *. rewrite zero_bindings.
  cbn [av_pairs sent_blob]. rewrite bindings_found. destruct (Acceptor.channel_binding_policy ac); [done| |].
  - destruct Hp as [E|Hin]; [by rewrite bool_decide_true by done|]. rewrite !elem_of_cons, elem_of_nil in Hin.
    destruct Hin as [E|[E|[]]]; rewrite E; cbn [Credssp.is_some]; [by rewrite andb_false_r|].
    rewrite (bool_decide_true (Some bindings_value = Some bindings_value)) by done. by destruct (bool_decide (bindings_value = zeros16)).
  - destruct Hp as [Hn E]. rewrite E. rewrite (bool_decide_false _ Hn), bool_decide_true by done. done.
Qed.

Lemma response_screened : Acceptor.screen acceptor_waiting (authenticate_bytes response) = Ok (response, supported_flags, sent_blob).
Proof.
  unfold Acceptor.screen. unfold response. rewrite (authenticate_decodes _ (with_mic_ok mic_value (hmac_size _ _))).
  fold response. cbn [rbind]. change (has_bits (auth_flags response) anonymous) with false.
  change (user response) with (Initiator.config_user ic). rewrite (bool_decide_false _ (user_named fit)). cbn [orb].
  change (nt_challenge_response response) with (proof_value ++ temp).
  assert (len proof_value = 16) as Hp by (unfold len, proof_value, nt_proof_str; by rewrite hmac_size). pose proof len_temp.
  rewrite (proj2 (Z.leb_gt (len (proof_value ++ temp)) 24)) by (rewrite len_app; lia).
  change (Z.land (auth_flags response) (Acceptor.challenge_flags_ acceptor_waiting)) with supported_flags.
  change (has_all supported_flags required_flags) with true. cbn [negb].
  unfold temp. rewrite (response_parsed _ _ _ _ Hp (time_fits fit) (client_sized fit) pairs_ok). cbn [rbind].
  change (Acceptor.config_ acceptor_waiting) with ac. fold sent_blob. by rewrite bindings_pass.
Qed.

Lemma mic_announced_ok : Acceptor.mic_announced sent_blob = true.
Proof. unfold Acceptor.mic_announced. cbn [av_pairs sent_blob]. by rewrite pairs_eq. Qed.

Lemma mic_checks : Acceptor.check_mic hmac_md5 acceptor_waiting (authenticate_bytes response) response sent_blob exported_value = Ok tt.
Proof.
  unfold Acceptor.check_mic. rewrite mic_announced_ok. change (mic response) with (Some mic_value). cbv iota. unfold Acceptor.message_mic.
  cbn [Acceptor.negotiate_message_ Acceptor.challenge_message_ acceptor_waiting].
  change (auth_flags response) with (auth_flags unsigned). unfold response.
  rewrite (mic_replaced unsigned mic_value (replicate 16 (byte_of 0)) eq_refl (hmac_size _ _) eq_refl).
  change (with_mic unsigned (replicate 16 (byte_of 0))) with unsigned. by rewrite bool_decide_true by done.
Qed.

Lemma key_exchanged : Acceptor.exported_key supported_flags base_value response = Some (Ok exported_value).
Proof.
  unfold Acceptor.exported_key. change (has_bits supported_flags negotiate_key_exch) with true. cbv iota.
  change (encrypted_random_session_key response) with (LegacyCrypto.apply cipher exported_value).1.
  rewrite LegacyCrypto.len_apply. pose proof (exported_sized fit) as Hs. unfold len. rewrite Hs. cbn [negb Z.of_nat Z.eqb Pos.eqb].
  rewrite cipher_made. cbn [mbind option_bind]. destruct (LegacyCrypto.apply cipher exported_value) as [out c] eqn:Ea.
  cbn [fst]. by rewrite (LegacyCrypto.apply_inverse _ _ _ _ Ea).
Qed.

Definition done_acceptor (session : Session.t) : Acceptor.t (V := V) :=
  Acceptor.mk ac server_random server_now Acceptor.complete challenge_value (negotiate_bytes hello) (challenge_bytes offer)
    (ch_flags offer) supported_flags (Initiator.config_target_name ic)
    (Acceptor.bindings_match ac sent_blob && match Acceptor.channel_binding_policy ac with Acceptor.ignore => false | _ => true end)
    (PreAuth.mkIdentity (of_bytes (Initiator.config_user ic)) (of_bytes (Initiator.config_domain ic))) (Some session).

Lemma target_read : Acceptor.read_target_name sent_blob None = Ok (Initiator.config_target_name ic).
Proof.
  unfold Acceptor.read_target_name. cbn [av_pairs sent_blob]. rewrite pairs_eq. pose proof (target_plain fit) as Ht.
  destruct (Initiator.config_target_name ic) as [name|]; [|done].
  match goal with |- context [find_av_pair ?l av_target_name] => change (find_av_pair l av_target_name) with (Some (wide name)) end.
  cbv iota. unfold wide. by rewrite name_decodes.
Qed.

Lemma acceptor_accepts session : Session.make md5 exported_value supported_flags false = Some session ->
  Acceptor.step md5 hmac_md5 (authenticate_bytes response) acceptor_waiting = Some (Ok (mkStep [] true), done_acceptor session).
Proof.
  intros Es. unfold Acceptor.step. cbn [Acceptor.state_ acceptor_waiting]. unfold Acceptor.on_authenticate. rewrite response_screened.
  cbn [Acceptor.config_ Acceptor.server_challenge_ acceptor_waiting].
  change (nt_challenge_response response) with (proof_value ++ temp). change (user response) with (Initiator.config_user ic).
  change (domain response) with (Initiator.config_domain ic).
  pose proof (account_known fit challenge_value temp (proj1 len_temp)) as Hk. cbv zeta in Hk. fold key_value in Hk. fold proof_value in Hk.
  fold base_value in Hk. rewrite Hk, key_exchanged. cbn [mbind option_bind rbind]. fold acceptor_waiting. rewrite mic_checks.
  cbn [rbind]. change (Acceptor.target_name_ acceptor_waiting) with (@None (list byte)). rewrite target_read. cbn [rbind]. rewrite Es.
  done.
Qed.

Lemma len_response : 0 < len (authenticate_bytes response) <= 40000.
Proof.
  pose proof (with_mic_ok mic_value (hmac_size _ _)) as Hok. fold response in Hok. unfold authenticate_ok in Hok.
  pose proof (names_plain fit) as Hn. cbn [forallb] in Hn. bools. pose proof len_temp. pose proof (exported_sized fit).
  pose proof (wide_bound (Initiator.config_user ic) ltac:(done)). pose proof (wide_bound (Initiator.config_domain ic) ltac:(done)).
  pose proof (wide_bound (Initiator.config_workstation ic) ltac:(done)).
  assert (len proof_value = 16) as Hp by (unfold len, proof_value, nt_proof_str; by rewrite hmac_size).
  assert (len mic_value = 16) as Hm by (unfold len, mic_value; by rewrite hmac_size).
  assert (len (authenticate_bytes response) = 88 + len (concat (authenticate_datas response))) as ->
    by (rewrite len_authenticate_bytes; unfold authenticate_size; change (mic_part (mic response)) with mic_value; rewrite Hm; done).
  assert (authenticate_datas response = [wide (Initiator.config_domain ic); wide (Initiator.config_user ic);
    wide (Initiator.config_workstation ic); replicate 24 (byte_of 0); proof_value ++ temp; (LegacyCrypto.apply cipher exported_value).1]) as -> by done.
  cbn [concat]. rewrite !len_app, LegacyCrypto.len_apply. change (len (replicate 24 (byte_of 0))) with 24. change (len []) with 0.
  unfold len in *. lia.
Qed.

(** ** As mechanisms of CredSSP *)

(** Complete, with sessions that belong together, and with this identity. *)
Definition ntlm_paired (who : PreAuth.Identity) (ci : option Initiator.t) (ca : option (Acceptor.t (V := V))) : Prop :=
  match ci, ca with
  | Some i, Some a =>
      match Initiator.session_ i, Acceptor.session_ a with
      | Some si, Some sa => mirrored si sa /\ Acceptor.identity_ a = who
      | _, _ => False
      end
  | _, _ => False
  end.

Lemma ntlm_pairing who :
  CredsspHandshake.pairing (H := initiator_context md5 hmac_md5) (H0 := acceptor_context md5 hmac_md5) (ntlm_paired who).
Proof.
  split; intros [i|] [a|] bytes w c; cbn [ntlm_paired]; try (by intros []); try (by destruct (Initiator.session_ _));
    destruct (Initiator.session_ i) as [si|] eqn:Ei, (Acceptor.session_ a) as [sa|] eqn:Ea; try (by intros []); intros [Hm Hw];
    cbn [Credssp.wrap_message Credssp.unwrap initiator_context acceptor_context run_trap];
    unfold Initiator.wrap_, Initiator.unwrap, Initiator.on_session_, Acceptor.wrap_, Acceptor.unwrap, Acceptor.on_session_; rewrite Ei, Ea;
    cbn [on_session mbind option_bind].
  - destruct (wrap_unwraps hmac_md5 hmac_size si sa bytes Hm) as (w' & si' & sa' & -> & Eu & Hm' & Hl). cbn [fst snd]. intros [= <- <-].
    split; [rewrite Hl; unfold signature_size; lia|]. rewrite Eu. eexists. split; [reflexivity|]. by split.
  - apply mirrored_sym in Hm. destruct (wrap_unwraps hmac_md5 hmac_size sa si bytes Hm) as (w' & sa' & si' & -> & Eu & Hm' & Hl).
    cbn [fst snd]. intros [= <- <-]. split; [rewrite Hl; unfold signature_size; lia|]. rewrite Eu. eexists. split; [reflexivity|]. split; [by apply mirrored_sym|done].
Qed.

Definition account_identity : PreAuth.Identity :=
  PreAuth.mkIdentity (of_bytes (Initiator.config_user ic)) (of_bytes (Initiator.config_domain ic)).

Lemma ntlm_dialog :
  CredsspHandshake.dialog (H := initiator_context md5 hmac_md5) (H0 := acceptor_context md5 hmac_md5) (ntlm_paired account_identity)
    (Some initiator_waiting) (negotiate_bytes hello) (Some acceptor_start).
Proof.
  destruct (make_mirrored md5 md5_size exported_value supported_flags) as (si & sa & Ei & Ea & Hm).
  eapply CredsspHandshake.initiator_first.
  - cbn [Credssp.step acceptor_context run_trap]. rewrite acceptor_offers. reflexivity.
  - cbn [Credssp.step initiator_context run_trap]. rewrite (initiator_answers _ Ei). reflexivity.
  - apply len_offer.
  - apply len_response.
  - cbn [Credssp.step acceptor_context run_trap]. rewrite (acceptor_accepts _ Ea). reflexivity.
  - by split.
Qed.
End Exchange.

(** ** The verifier of a local account *)

Lemma local_knows hmac_md5 (v : LocalNtlmVerifier.t) name realm hash :
  (forall k m, length (hmac_md5 k m) = 16%nat) -> LocalNtlmVerifier.lookup_ v name realm = Some hash ->
  knows (H := LocalNtlmVerifier.local_verifier hmac_md5) hmac_md5 v name realm hash.
Proof.
  intros Hs E challenge temp Hl key proof. cbn [v_session_base_key LocalNtlmVerifier.local_verifier].
  unfold LocalNtlmVerifier.session_base_key. rewrite E. cbn [default]. fold key.
  pose proof (Hs key (challenge ++ temp)) as Hp. fold (nt_proof_str hmac_md5 key challenge temp) in Hp. fold proof in Hp.
  rewrite (proj2 (Z.ltb_ge _ _)) by (rewrite len_app; unfold len in *; lia).
  rewrite take_app_length', drop_app_length' by done. fold proof. by rewrite bool_decide_true by done.
Qed.
End NtlmExchange.
