(* ===== verification/NtlmLogon.v ===== *)
(** * NTLM logons: the theorems

    What [NtlmAuthentication] and [NtlmExchange] come to: the acceptor lets nobody
    in whom the verifier does not know, and it lets in who has the password. *)

From S2P Require Import Prelude Buffers CodecLogic Fields Text PreAuth CredsspCodec Credssp LegacyCrypto NtlmCodec NtlmMessages Ntlm NtlmSession NtlmAuthentication NtlmExchange.
From stdpp Require Import relations.
Open Scope Z_scope.

Module NtlmLogon.
Import NtlmCodec Ntlm.Ntlm NtlmSession NtlmAuthentication NtlmExchange.

Section Claims.
Context (md5 : list byte -> list byte) (hmac_md5 : list byte -> list byte -> list byte).

(** C12: an acceptor over local accounts that is complete has authenticated a
    client, whatever was sent to it and called on it: it has sent the challenge of
    its own that it remembers, an AUTHENTICATE message with a user name came back
    whose account has a hash, and the first 16 bytes of the response are the HMAC,
    under the key of that hash, of this challenge and of the rest of the response,
    in which the channel bindings satisfy the policy and, if they announce a MIC,
    the MIC of the three messages was verified.  The identity is that account, and
    the session's keys are those of the exchanged key. *)
Theorem ntlm_authenticates (config : Acceptor.AcceptorConfig) (random : list byte) (now : Z) (s : Acceptor.t) :
  reachable (H := LocalNtlmVerifier.local_verifier hmac_md5) md5 hmac_md5 config random now s ->
  Acceptor.state_ s = Acceptor.complete ->
  offered s /\ accepted (H := LocalNtlmVerifier.local_verifier hmac_md5) md5 hmac_md5 s /\
  Acceptor.server_challenge_ s = default random (Acceptor.config_challenge config) /\
  exists name realm hash response,
    Acceptor.identity_ s = PreAuth.mkIdentity (of_bytes name) (of_bytes realm) /\ name <> [] /\
    LocalNtlmVerifier.lookup_ (Acceptor.verifier config) name realm = Some hash /\ 44 <= len response /\
    take 16 response = hmac_md5 (ntowf_v2 hmac_md5 hash name realm) (Acceptor.server_challenge_ s ++ drop 16 response).
Proof.
  intros Hr Es. apply reachable_inv in Hr as (Hc & Hrand & Hnow & Hi). rewrite Es in Hi. destruct Hi as [Ho Ha].
  split; [exact Ho|]. split; [exact Ha|]. split; [rewrite <- Hc, <- Hrand; by destruct Ho as (n & _ & _ & _ & _ & E)|].
  destruct Ha as (input & m & blob & base & exported & session & session0 & Ha). destruct_and!.
  match goal with Hv : v_session_base_key _ _ _ _ _ = Some _ |- _ => rewrite Hc in Hv; apply local_proof in Hv as (Hl & hash & Eh & Hp & _) end.
  by exists (user m), (domain m), hash, (nt_challenge_response m).
Qed.

(** An initiator with the password of an account that the acceptor's verifier
    knows, and configurations that fit each other, log on in three messages,
    whatever random numbers and times the two ends are given: no assertion fails,
    both complete, with the same identity and target, and with sessions in which
    what either end seals or signs the other takes. *)
Theorem ntlm_logon {V : Type} `{NtlmVerifier V} (ic : Initiator.InitiatorConfig) (ac : Acceptor.AcceptorConfig (V := V))
    (server_random client_random key_random : list byte) (server_now client_now : Z) (a : Acceptor.t) :
  (forall m, length (md5 m) = 16%nat) -> (forall k m, length (hmac_md5 k m) = 16%nat) ->
  fits hmac_md5 ic ac server_random client_random key_random server_now ->
  Acceptor.make ac server_random server_now = Some a ->
  exists hello i1 offer a1 response i2 a2 si sa,
    Initiator.step md5 hmac_md5 [] (Initiator.make ic client_random key_random client_now) = Some (Ok (mkStep hello false), i1) /\
    Acceptor.step md5 hmac_md5 hello a = Some (Ok (mkStep offer false), a1) /\
    Initiator.step md5 hmac_md5 offer i1 = Some (Ok (mkStep response true), i2) /\
    Acceptor.step md5 hmac_md5 response a1 = Some (Ok (mkStep [] true), a2) /\
    Initiator.session_ i2 = Some si /\ Acceptor.session_ a2 = Some sa /\ mirrored si sa /\
    Acceptor.identity_ a2 = account_identity ic /\ Initiator.identity_ i2 = account_identity ic /\
    Acceptor.target_name_ a2 = Initiator.config_target_name ic.
Proof.
  intros Hm Hh Hf Ha. apply acceptor_made in Ha as ->.
  destruct (make_mirrored md5 Hm (exported_value ic key_random) supported_flags) as (si & sa & Ei & Ea & Hs).
  do 9 eexists. split; [by apply initiator_greets|]. split; [by eapply acceptor_offers|].
  split; [eapply initiator_answers; [exact Hh|exact Hf|exact Ei]|]. split; [eapply acceptor_accepts; [exact Hh|exact Hf|exact Ea]|].
  split_and!; [reflexivity|reflexivity|exact Hs|reflexivity..].
Qed.
End Claims.

(** ** A logon for the witnesses

    MD4 stands for the hashes that are parameters. *)

Definition demo_md5 (message : list byte) : list byte := LegacyCrypto.md4 message.
Definition demo_hmac (key message : list byte) : list byte := LegacyCrypto.md4 (key ++ message).
Definition ada : list byte := to_bytes "ada".
Definition secret : list byte := to_bytes "secret".
Definition demo_accounts : LocalNtlmVerifier.t :=
  LocalNtlmVerifier.mk (fun name _ => if bool_decide (name = ada) then Some (nt_hash secret) else None).
Definition demo_bindings : list byte := channel_bindings_hash demo_md5 (replicate 32 (byte_of 7)).

Definition demo_initiator : Initiator.InitiatorConfig :=
  Initiator.mkConfig ada [] secret (to_bytes "analytical") (Some demo_bindings) (Some (to_bytes "TERMSRV/engine")) None None None.
Definition demo_acceptor : Acceptor.AcceptorConfig (V := LocalNtlmVerifier.t) :=
  Acceptor.mkConfig demo_accounts (to_bytes "WORKGROUP") (to_bytes "ENGINE") [] (to_bytes "engine.example") (Some demo_bindings)
    Acceptor.verify_if_present None (Some 133000000000000000).
Definition demo_random (n : nat) : list byte := replicate n (byte_of 0x5A).

Abbreviation demo_verifier := (LocalNtlmVerifier.local_verifier demo_hmac).

Lemma demo_md5_size m : length (demo_md5 m) = 16%nat.
Proof. apply LegacyCrypto.length_md4. Qed.
Lemma demo_hmac_size k m : length (demo_hmac k m) = 16%nat.
Proof. apply LegacyCrypto.length_md4. Qed.

Lemma demo_fits : fits (H := demo_verifier) demo_hmac demo_initiator demo_acceptor (demo_random 8) (demo_random 8) (demo_random 16) 0.
Proof.
  split; [done|vm_compute; reflexivity..| |].
  - right. cbn [Acceptor.channel_bindings demo_acceptor]. right. left.
  - apply local_knows; [apply demo_hmac_size|vm_compute; reflexivity].
Qed.

Lemma ntlm_logon_witness : exists a hello i1 offer a1 response i2 a2,
  Acceptor.make demo_acceptor (demo_random 8) 0 = Some a /\
  Initiator.step demo_md5 demo_hmac [] (Initiator.make demo_initiator (demo_random 8) (demo_random 16) 0) = Some (Ok (mkStep hello false), i1) /\
  Acceptor.step (H := demo_verifier) demo_md5 demo_hmac hello a = Some (Ok (mkStep offer false), a1) /\
  Initiator.step demo_md5 demo_hmac offer i1 = Some (Ok (mkStep response true), i2) /\
  Acceptor.step (H := demo_verifier) demo_md5 demo_hmac response a1 = Some (Ok (mkStep [] true), a2) /\
  Acceptor.identity_ a2 = PreAuth.mkIdentity "ada" "".
Proof.
  destruct (ntlm_logon (H := demo_verifier) demo_md5 demo_hmac demo_initiator demo_acceptor (demo_random 8) (demo_random 8) (demo_random 16)
    0 0 _ demo_md5_size demo_hmac_size demo_fits eq_refl) as (hello & i1 & offer & a1 & response & i2 & a2 & si & sa & H).
  destruct_and!. do 8 eexists. split_and!; [reflexivity|done..].
Defined.

(** The acceptor after that logon. *)
Lemma demo_complete : exists s,
  reachable (H := demo_verifier) demo_md5 demo_hmac demo_acceptor (demo_random 8) 0 s /\ Acceptor.state_ s = Acceptor.complete.
Proof.
  destruct (make_mirrored demo_md5 demo_md5_size (exported_value demo_initiator (demo_random 16)) supported_flags) as (si & sa & _ & Ea & _).
  eexists. split; [|].
  - eexists. split; [reflexivity|]. eapply rtc_l.
    { eapply acts_step. exact (acceptor_offers (H := demo_verifier) demo_md5 demo_hmac _ _ _ _ _ _ demo_fits). }
    eapply rtc_l; [|apply rtc_refl].
    eapply acts_step. exact (acceptor_accepts (H := demo_verifier) demo_md5 demo_hmac _ _ _ _ _ _ demo_hmac_size demo_fits _ Ea).
  - done.
Qed.

Lemma ntlm_authenticates_witness : exists s,
  reachable (H := demo_verifier) demo_md5 demo_hmac demo_acceptor (demo_random 8) 0 s /\ Acceptor.state_ s = Acceptor.complete /\
  offered s.
Proof.
  destruct demo_complete as (s & Hr & Es). exists s. split; [exact Hr|]. split; [exact Es|].
  exact (proj1 (ntlm_authenticates demo_md5 demo_hmac demo_acceptor (demo_random 8) 0 s Hr Es)).
Defined.
End NtlmLogon.
