(* ===== verification/Nla.v ===== *)
(** * Network level authentication of the server

    Models [src/apps/farland-server/nla.cpp]: which mechanisms the server has and
    which delegated credentials it accepts; and what that makes of the stack below
    it ([PreAuth], CredSSP, SPNEGO, NTLM): who gets in, and that who has the
    password does.

    Kerberos (the system's GSS-API, or the monitor's at the other end of the
    control channel) is a parameter with the interface of [SecurityContext]. *)

From S2P Require Import Prelude Buffers CodecLogic Fields Text X224 Spnego PreAuth CredsspCodec Credssp CredsspAcceptor CredsspReceive CredsspAuthentication CredsspHandshake LegacyCrypto NtlmCodec NtlmMessages Ntlm NtlmSession NtlmAuthentication NtlmExchange NtlmLogon.
From stdpp Require Import relations.
Open Scope Z_scope.

Module Nla.
Import CredsspCodec Credssp.
Abbreviation evolves := CredsspAcceptor.evolves.
Abbreviation called := CredsspAcceptor.called.

(** [a - 'a' + 'A'] of an ASCII letter. *)
Definition ascii_upper (c : byte) : byte :=
  if (97 <=? u8_of c) && (u8_of c <=? 122) then byte_of (u8_of c - 97 + 65) else c.

Definition iequals (a b : list byte) : bool := (len a =? len b) && bool_decide (ascii_upper <$> a = ascii_upper <$> b).

Definition is_kerberos (oid : list byte) : bool :=
  bool_decide (oid = Spnego.kerberos_oid) || bool_decide (oid = Spnego.ms_kerberos_oid).

(** [hostname.find('.')], the length of the name where there is none. *)
Fixpoint dot_at (name : list byte) : nat :=
  match name with
  | [] => 0%nat
  | c :: name' => if u8_of c =? 46 then 0%nat else S (dot_at name')
  end.

Definition netbios_name (hostname : list byte) : list byte :=
  let name := ascii_upper <$> take (Nat.min (dot_at hostname) 15) hostname in
  if bool_decide (name = []) then to_bytes "FARLAND" else name.

(** ** The mechanisms, as one type *)

Section Mechanisms.
Context {N K : Type} `{SecurityContext N} `{SecurityContext K}.

Definition either {A} (f : N -> A * N) (g : K -> A * K) (c : N + K) : A * (N + K) :=
  match c with
  | inl n => let (a, n') := f n in (a, inl n')
  | inr k => let (a, k') := g k in (a, inr k')
  end.

#[export] Instance mechanism_context : SecurityContext (N + K) := {|
  mechanism c := match c with inl n => mechanism n | inr k => mechanism k end;
  step c input := either (fun n => step n input) (fun k => step k input) c;
  wrap_message c bytes := either (fun n => wrap_message n bytes) (fun k => wrap_message k bytes) c;
  unwrap c bytes := either (fun n => unwrap n bytes) (fun k => unwrap k bytes) c;
  get_mic c bytes := either (fun n => get_mic n bytes) (fun k => get_mic k bytes) c;
  verify_mic c bytes mic := either (fun n => verify_mic n bytes mic) (fun k => verify_mic k bytes mic) c;
  reset_cipher_state c := match c with inl n => inl (reset_cipher_state n) | inr k => inr (reset_cipher_state k) end;
  mech_identity c := match c with inl n => mech_identity n | inr k => mech_identity k end |}.

Lemma either_inl {A} (f : N -> A * N) (g : K -> A * K) n : either f g (inl n) = ((f n).1, inl (f n).2).
Proof. cbn. by destruct (f n). Qed.

Lemma called_inl (n : N) (c : N + K) : called (inl n) c -> exists n', c = inl n' /\ called n n'.
Proof.
  intros Hc. inversion Hc; subst; cbn [step wrap_message unwrap get_mic verify_mic reset_cipher_state mechanism_context];
    rewrite ?either_inl; cbn [snd]; eexists; (split; [reflexivity|constructor]).
Qed.

(** A mechanism of the first kind stays one, and what is called on it is called on what it is. *)
Lemma evolves_inl (n : N) (c : N + K) : evolves (inl n) c -> exists n', c = inl n' /\ evolves n n'.
Proof.
  intros E. remember (inl n) as c0 eqn:E0. revert n E0. induction E as [c|c0 c1 c2 Hc _ IH]; intros n ->; [exists n; split; [done|apply rtc_refl]|].
  apply called_inl in Hc as (n1 & -> & Hn). destruct (IH n1 eq_refl) as (n' & -> & Hn'). exists n'. split; [done|]. by eapply rtc_l.
Qed.

Lemma either_inr {A} (f : N -> A * N) (g : K -> A * K) k : either f g (inr k) = ((g k).1, inr (g k).2).
Proof. cbn. by destruct (g k). Qed.

Lemma called_inr (k : K) (c : N + K) : called (inr k) c -> exists k', c = inr k' /\ called k k'.
Proof.
  intros Hc. inversion Hc; subst; cbn [step wrap_message unwrap get_mic verify_mic reset_cipher_state mechanism_context];
    rewrite ?either_inr; cbn [snd]; eexists; (split; [reflexivity|constructor]).
Qed.

Lemma evolves_inr (k : K) (c : N + K) : evolves (inr k) c -> exists k', c = inr k' /\ evolves k k'.
Proof.
  intros E. remember (inr k) as c0 eqn:E0. revert k E0. induction E as [c|c0 c1 c2 Hc _ IH]; intros k ->; [exists k; split; [done|apply rtc_refl]|].
  apply called_inr in Hc as (k1 & -> & Hk). destruct (IH k1 eq_refl) as (k' & -> & Hk'). exists k'. split; [done|]. by eapply rtc_l.
Qed.
End Mechanisms.

(** What a delegation comes from: a mechanism that the factory made for some OID,
    its last step, and the message the credentials were in. *)
Lemma delegated_history {C : Type} `{SecurityContext C} (o : CredsspAcceptor.Origin (C := C)) sha256 v key i credentials :
  CredsspAcceptor.delegated sha256 o v key i credentials ->
  exists oid p e0 input out e1 c0 wrapped plaintext c1,
    Credssp.Acceptor.make_mechanism (CredsspAcceptor.o_config o) oid = Some p /\ evolves p e0 /\
    step e0 input = (Ok (mkStep out true), e1) /\ evolves e1 c0 /\ unwrap c0 wrapped = (Ok plaintext, c1) /\ i = mech_identity c1 /\
    match Credssp.Acceptor.accept_credentials (CredsspAcceptor.o_config o) with
    | Some accept => accept credentials i (mechanism c1) = true
    | None => True
    end.
Proof.
  intros (c0 & wrapped & plaintext & password & c1 & Hb & Hu & _ & _ & Hi & Ha).
  destruct Hb as (out & cb & wrapped' & plaintext' & cb1 & He & _ & Hu' & _ & Hev).
  destruct He as (e0 & input & e1 & (p & Hp & Hpe) & Hst & Hec).
  assert (exists oid, Credssp.Acceptor.make_mechanism (CredsspAcceptor.o_config o) oid = Some p) as [oid Hoid].
  { unfold CredsspAcceptor.picked in Hp. destruct (CredsspAcceptor.o_spnego o); [|by eexists; apply Hp].
    destruct Hp as (token & init & j & oid & _ & _ & Hch & _). exists oid. by eapply CredsspAcceptor.choose_spec. }
  exists oid, p, e0, input, out, e1, c0, wrapped, plaintext, c1. split_and!; try done.
  etrans; [exact Hec|]. eapply rtc_l; [|exact Hev].
  replace cb1 with (snd (unwrap cb wrapped')) by (by rewrite Hu'). constructor.
Qed.

(** ** The factory *)

Section Nla.
Context {V : Type} `{Ntlm.NtlmVerifier V} {K : Type} `{SecurityContext K}.
Context (md5 : list byte -> list byte) (hmac_md5 : list byte -> list byte -> list byte).

Abbreviation ntlm_acceptor := (option (Ntlm.Acceptor.t (V := V))).
#[local] Instance ntlm_context : SecurityContext ntlm_acceptor := Ntlm.acceptor_context md5 hmac_md5.

Record NlaBackends := mkBackends {
  verifier : V;
  monitor : option (list byte -> K);
  kerberos_ : bool;
  credential : option (list byte -> option K);
  kerberos_only : bool }.

Definition kerberos (b : NlaBackends) : bool := kerberos_ b || is_some (credential b).

(** The NTLM acceptor's configuration; [now] is the time it is made at. *)
Definition ntlm_config (b : NlaBackends) (bindings computer dns : list byte) (now : Z) : Ntlm.Acceptor.AcceptorConfig :=
  Ntlm.Acceptor.mkConfig (verifier b) (to_bytes "WORKGROUP") computer [] dns (Some bindings)
    Ntlm.Acceptor.verify_if_present None (Some now).

(** [random] is what the NTLM acceptor will be given for its challenge. *)
Definition make_mechanism (b : NlaBackends) (bindings computer dns random : list byte) (now : Z) (mech_oid : list byte)
    : option (ntlm_acceptor + K) :=
  if kerberos b && is_kerberos mech_oid then
    match monitor b with
    | Some call => Some (inr (call mech_oid))
    | None => match credential b with Some accept => inr <$> accept mech_oid | None => None end
    end
  else if kerberos_only b then None
  else if negb (bool_decide (mech_oid = Ntlm.ntlm_oid)) then None
  else Some (inl (Ntlm.Acceptor.make (ntlm_config b bindings computer dns now) random now)).

Definition accept_credentials (b : NlaBackends) (credentials : PreAuth.PasswordCredentials) (user : PreAuth.Identity)
    (mech_oid : list byte) : bool :=
  if negb (iequals (to_bytes (PreAuth.cred_user credentials)) (to_bytes (PreAuth.user user))) then false
  else if is_kerberos mech_oid then true
  else Ntlm.v_verify_password (verifier b) (to_bytes (PreAuth.user user)) (to_bytes (PreAuth.domain user))
         (to_bytes (PreAuth.password credentials)).

(** The CredSSP configuration of an acceptor that the factory makes; [digest] is
    the SHA-256 of the certificate and [public_key] its key. *)
Definition make_nla_factory (public_key digest : list byte) (b : NlaBackends) (hostname random : list byte) (now : Z)
    : Credssp.Acceptor.AcceptorConfig (C := ntlm_acceptor + K) :=
  let bindings := Ntlm.channel_bindings_hash md5 digest in
  let computer := netbios_name hostname in
  Credssp.Acceptor.mkConfig public_key (make_mechanism b bindings computer hostname random now) (Some (accept_credentials b))
    max_version.

(** ** Histories *)

(** An NTLM acceptor behind the interface of CredSSP. *)
Abbreviation acts := (NtlmAuthentication.acts md5 hmac_md5).

Lemma called_ntlm (n n' : ntlm_acceptor) : called n n' ->
  match n with None => n' = None | Some s => n' = None \/ exists s', n' = Some s' /\ acts s s' end.
Proof.
  intros Hc. destruct n as [s|]; inversion Hc; subst;
    cbn [Credssp.step wrap_message unwrap get_mic verify_mic reset_cipher_state ntlm_context Ntlm.acceptor_context Ntlm.run_trap snd]; try done.
  all: match goal with |- context [match ?f with Some _ => _ | None => _ end] => destruct f as [[r s']|] eqn:E | _ => idtac end; try (by left).
  - right. exists s'. split; [done|]. by econstructor.
  - right. exists s'. split; [done|]. by eapply NtlmAuthentication.acts_wrap.
  - right. exists s'. split; [done|]. by eapply NtlmAuthentication.acts_unwrap.
  - right. exists s'. split; [done|]. by eapply NtlmAuthentication.acts_get_mic.
  - right. exists s'. split; [done|]. by eapply NtlmAuthentication.acts_verify_mic.
  - cbn [mbind option_bind]. destruct (Ntlm.Acceptor.reset_cipher_state s) as [s'|] eqn:E; [|by left].
    right. exists s'. split; [done|]. by eapply NtlmAuthentication.acts_reset.
Qed.

Lemma evolves_ntlm (n n' : ntlm_acceptor) s' : evolves n n' -> n' = Some s' ->
  exists s, n = Some s /\ rtc acts s s'.
Proof.
  intros E. induction E as [n|n n1 n2 Hc _ IH]; intros ->; [by exists s'|]. destruct (IH eq_refl) as (s1 & -> & Hr).
  apply called_ntlm in Hc. destruct n as [s|]; [|done]. destruct Hc as [|(s2 & [= <-] & Ha)]; [done|]. exists s. split; [done|].
  by eapply rtc_l.
Qed.

(** What the identity and the credentials of a logon with NTLM come from. *)
Lemma ntlm_completed (config : Ntlm.Acceptor.AcceptorConfig) random now (e0 e1 c0 c1 : ntlm_acceptor) input out wrapped plaintext :
  evolves (Ntlm.Acceptor.make config random now) e0 -> step e0 input = (Ok (mkStep out true), e1) -> evolves e1 c0 ->
  unwrap c0 wrapped = (Ok plaintext, c1) ->
  exists s, c1 = Some s /\ NtlmAuthentication.reachable md5 hmac_md5 config random now s /\ Ntlm.Acceptor.state_ s = Ntlm.Acceptor.complete.
Proof.
  intros He Hs Hc Hu. cbn [step unwrap ntlm_context Ntlm.acceptor_context] in *. unfold Ntlm.run_trap in *.
  destruct c0 as [s0|]; [|done]. destruct (evolves_ntlm _ _ s0 Hc eq_refl) as (s1 & -> & H10).
  destruct e0 as [s2|]; [|done]. destruct (Ntlm.Acceptor.step md5 hmac_md5 input s2) as [[r s']|] eqn:Es; [|done]. injection Hs as -> ->.
  destruct (evolves_ntlm _ _ s2 He eq_refl) as (s3 & Hm & H32).
  destruct (Ntlm.Acceptor.unwrap hmac_md5 wrapped s0) as [[r s4]|] eqn:Eu; [|done]. injection Hu as -> <-.
  assert (NtlmAuthentication.reachable md5 hmac_md5 config random now s2) as Hr2 by (by exists s3).
  assert (rtc acts s1 s4) as H14 by (eapply rtc_r; [exact H10|by eapply NtlmAuthentication.acts_unwrap]).
  exists s4. split; [done|].
  assert (NtlmAuthentication.ntlm_inv md5 hmac_md5 config random now s2) as Hi2 by (by apply NtlmAuthentication.reachable_inv).
  pose proof (NtlmAuthentication.step_inv _ _ _ _ _ _ _ _ _ Hi2 Es) as (Hi1 & Hf & _). specialize (Hf _ eq_refl eq_refl).
  split.
  - exists s3. split; [done|]. etrans; [exact H32|]. eapply rtc_l; [by eapply NtlmAuthentication.acts_step|exact H14].
  - clear - H14 Hi1 Hf. induction H14 as [|s s' s'' Ha _ IH]; [done|].
    destruct (NtlmAuthentication.acts_inv _ _ _ _ _ _ _ Ha Hi1) as [Hi' Hs']. by apply IH, Hs'.
Qed.
End Nla.

(** ** A client that has the password *)

Section Logon.
Context {N K CI : Type} `{SecurityContext N} `{SecurityContext K} `{SecurityContext CI}.

(** What belongs to a mechanism belongs to the sum of the mechanisms. *)
Definition lifted (paired : CI -> N -> Prop) (ci : CI) (c : N + K) : Prop :=
  match c with inl n => paired ci n | inr _ => False end.

Lemma lifted_pairing paired : CredsspHandshake.pairing paired -> CredsspHandshake.pairing (lifted paired).
Proof.
  intros [Ha Hi]. split; intros ci [n|k] bytes w c Hp Hw; try done.
  - destruct (Ha ci n bytes w c Hp Hw) as (Hl & n' & Hu & Hp'). split; [done|]. exists (inl n').
    cbn [unwrap mechanism_context either]. by rewrite Hu.
  - cbn [wrap_message mechanism_context either] in Hw. destruct (wrap_message n bytes) as [w' n'] eqn:Ew. injection Hw as <- <-.
    destruct (Hi ci n bytes w' n' Hp Ew) as (Hl & ci' & Hu & Hp'). split; [done|]. by exists ci'.
Qed.

Lemma lifted_dialog paired ci token n :
  CredsspHandshake.dialog paired ci token n -> CredsspHandshake.dialog (lifted paired) ci token (inl n).
Proof.
  assert (forall n input r n', step n input = (r, n') -> step (inl n : N + K) input = (r, inl n')) as Hs.
  { intros m input r m' E. cbn [step mechanism_context either]. by rewrite E. }
  induction 1 as [ci token n token2 n' token3 ci' E1 E2 L2 L3 _ IH|ci token n token2 n' token3 ci' n'' E1 E2 L2 L3 E3 Hp|
    ci token n token2 n' ci' E1 L2 E2 Hp].
  - eapply CredsspHandshake.talk; [by apply Hs|exact E2|exact L2|exact L3|exact IH].
  - eapply CredsspHandshake.initiator_first; [by apply Hs|exact E2|exact L2|exact L3|by apply Hs|exact Hp].
  - eapply CredsspHandshake.acceptor_first; [by apply Hs|exact L2|exact E2|exact Hp].
Qed.
End Logon.

(** A CredSSP client, as [Initiator] is set up for a server with this TLS key. *)
Record client_ready (ic : Initiator.InitiatorConfig) (public_key : list byte) : Prop := {
  client_spnego : Initiator.use_spnego ic = true;
  client_unprejudiced : Initiator.preferred_mech_types ic = [];
  client_key : Initiator.server_public_key ic = public_key;
  client_key_size : 0 < len public_key <= 16000;
  client_version : min_version <= Initiator.config_version ic < 2 ^ 32;
  client_credentials : plain_credentials (Initiator.credentials ic);
  client_credentials_size : match encode_credentials (to_ts_credentials (Initiator.credentials ic)) with
                            | Some secret => len secret <= 40000 | None => False end }.

(** ** Who gets in *)

Section Claims.
Context {K : Type} `{SecurityContext K}.
Context (md5 sha256 : list byte -> list byte) (hmac_md5 : list byte -> list byte -> list byte).
Abbreviation accounts := Ntlm.LocalNtlmVerifier.t.
#[local] Instance accounts_verifier : Ntlm.NtlmVerifier accounts := Ntlm.LocalNtlmVerifier.local_verifier hmac_md5.
#[local] Instance server_context : SecurityContext (option (Ntlm.Acceptor.t (V := accounts))) := Ntlm.acceptor_context md5 hmac_md5.
Context (b : NlaBackends (V := accounts) (K := K)) (public_key digest hostname random : list byte) (now : Z).

Definition server_config : Credssp.Acceptor.AcceptorConfig :=
  make_nla_factory md5 public_key digest b hostname random now.
Definition server_ntlm : Ntlm.Acceptor.AcceptorConfig :=
  ntlm_config b (Ntlm.channel_bindings_hash md5 digest) (netbios_name hostname) hostname now.

(** The client has the password: its response answers the server's own challenge
    under the hash that the account has here, and the delegated password has that
    hash, too. *)
Definition password_logon (i : PreAuth.Identity) (credentials : PreAuth.PasswordCredentials) : Prop :=
  kerberos_only b = false /\
  exists s name realm hash response,
    NtlmAuthentication.reachable md5 hmac_md5 server_ntlm random now s /\
    NtlmAuthentication.offered s /\ NtlmAuthentication.accepted md5 hmac_md5 s /\
    i = PreAuth.mkIdentity (of_bytes name) (of_bytes realm) /\ name <> [] /\
    Ntlm.LocalNtlmVerifier.lookup_ (verifier b) name realm = Some hash /\ 44 <= len response /\
    take 16 response = hmac_md5 (Ntlm.ntowf_v2 hmac_md5 hash name realm) (random ++ drop 16 response) /\
    Ntlm.nt_hash (to_bytes (PreAuth.password credentials)) = hash.

(** Kerberos has taken its last step. *)
Definition kerberos_logon (i : PreAuth.Identity) : Prop :=
  kerberos b = true /\
  exists oid k0 k1 input out k2 k3, is_kerberos oid = true /\
    match monitor b with
    | Some call => k0 = call oid
    | None => exists accept, credential b = Some accept /\ accept oid = Some k0
    end /\
    evolves k0 k1 /\ step k1 input = (Ok (mkStep out true), k2) /\ evolves k2 k3 /\ i = mech_identity k3.

Lemma not_kerberos : is_kerberos Ntlm.ntlm_oid = false.
Proof. done. Qed.

Lemma logon_ntlm oid n e0 input out e1 c0 wrapped plaintext c1 i credentials :
  make_mechanism b (Ntlm.channel_bindings_hash md5 digest) (netbios_name hostname) hostname random now oid = Some (inl n) ->
  evolves n e0 -> step e0 input = (Ok (mkStep out true), e1) -> evolves e1 c0 -> unwrap c0 wrapped = (Ok plaintext, c1) ->
  i = mech_identity c1 -> accept_credentials b credentials i (mechanism c1) = true -> password_logon i credentials.
Proof.
  intros Hm He Hs Hc Hu Hi Ha. unfold make_mechanism in Hm. destruct (kerberos b && is_kerberos oid).
  { destruct (monitor b); [done|]. destruct (credential b) as [accept|]; [|done]. by destruct (accept oid). }
  destruct (kerberos_only b) eqn:Ek; [done|]. case_bool_decide; [|done]. injection Hm as <-. fold server_ntlm in He.
  destruct (ntlm_completed md5 hmac_md5 server_ntlm random now _ _ _ _ _ _ _ _ He Hs Hc Hu) as (s & -> & Hr & Es).
  pose proof (NtlmAuthentication.reachable_inv md5 hmac_md5 server_ntlm random now s Hr) as (Hcf & Hrand & Hnow & Hinv). rewrite Es in Hinv.
  destruct Hinv as [Ho Hacc]. cbn [mech_identity mechanism server_context Ntlm.acceptor_context] in *.
  split; [done|]. pose proof Hacc as (inp & m & blob & base & exported & session & session0 & Hx). destruct_and!.
  match goal with Hv : Ntlm.v_session_base_key _ _ _ _ _ = Some _ |- _ =>
    rewrite Hcf in Hv; apply NtlmAuthentication.local_proof in Hv as (Hl & hash & Eh & Hp & _) end.
  assert (Ntlm.Acceptor.server_challenge_ s = random) as Ec by (destruct Ho as (? & _ & _ & _ & _ & ->); by rewrite Hcf, Hrand).
  exists s, (NtlmCodec.user m), (NtlmCodec.domain m), hash, (NtlmCodec.nt_challenge_response m).
  cbv zeta in Hp. rewrite Ec in Hp. split_and!; try done; [congruence|].
  assert (i = PreAuth.mkIdentity (of_bytes (NtlmCodec.user m)) (of_bytes (NtlmCodec.domain m))) as Ei by congruence.
  unfold accept_credentials in Ha. rewrite not_kerberos in Ha. destruct (iequals _ _); cbn [negb] in Ha; [|done].
  rewrite Ei in Ha. cbn [PreAuth.user PreAuth.domain Ntlm.v_verify_password accounts_verifier Ntlm.LocalNtlmVerifier.local_verifier] in Ha.
  unfold Ntlm.LocalNtlmVerifier.verify_password, to_bytes, of_bytes in Ha. rewrite !String.list_byte_of_string_of_list_byte in Ha.
  apply bool_decide_eq_true in Ha. unfold server_ntlm, ntlm_config in Eh. cbn [Ntlm.Acceptor.verifier] in Eh. rewrite Eh in Ha. by injection Ha.
Qed.

Lemma logon_kerberos oid k e0 input out (e1 c0 c1 : option (Ntlm.Acceptor.t (V := accounts)) + K) wrapped plaintext i :
  make_mechanism b (Ntlm.channel_bindings_hash md5 digest) (netbios_name hostname) hostname random now oid = Some (inr k) ->
  evolves (inr k) e0 -> step e0 input = (Ok (mkStep out true), e1) -> evolves e1 c0 -> unwrap c0 wrapped = (Ok plaintext, c1) ->
  i = mech_identity c1 -> kerberos_logon i.
Proof.
  intros Hm He Hs Hc Hu Hi. unfold make_mechanism in Hm. destruct (kerberos b) eqn:Eb; cbn [andb] in Hm.
  2: { destruct (kerberos_only b); [done|]. by case_bool_decide. }
  destruct (is_kerberos oid) eqn:Eo; [|destruct (kerberos_only b); [done|]; by case_bool_decide].
  apply evolves_inr in He as (k1 & -> & He). cbn [step mechanism_context either] in Hs. destruct (step k1 input) as [r k2] eqn:Es.
  injection Hs as -> <-. apply evolves_inr in Hc as (k3 & -> & Hc). cbn [unwrap mechanism_context either] in Hu.
  destruct (unwrap k3 wrapped) as [r k4] eqn:Eu. injection Hu as -> <-. split; [done|].
  exists oid, k, k1, input, out, k2, k4. split_and!; [done| |exact He|exact Es| |exact Hi].
  - destruct (monitor b) as [call|]; [by injection Hm|]. destruct (credential b) as [accept|]; [|done]. exists accept. split; [done|].
    destruct (accept oid) as [k'|]; [|done]. by injection Hm as ->.
  - eapply rtc_r; [exact Hc|]. replace k4 with (snd (unwrap k3 wrapped)) by (by rewrite Eu). constructor.
Qed.

End Claims.

Section Live.
Context {V : Type} `{Ntlm.NtlmVerifier V} {K : Type} `{SecurityContext K}.
Context (md5 sha256 : list byte -> list byte) (hmac_md5 : list byte -> list byte -> list byte).
#[local] Instance live_context : SecurityContext (option (Ntlm.Acceptor.t (V := V))) := Ntlm.acceptor_context md5 hmac_md5.
#[local] Instance client_context : SecurityContext (option Ntlm.Initiator.t) := Ntlm.initiator_context md5 hmac_md5.
Context (b : NlaBackends (V := V) (K := K)) (public_key digest hostname random : list byte) (now : Z).
Context (nc : Ntlm.Initiator.InitiatorConfig) (ic : Initiator.InitiatorConfig) (client_random key_random nonce_random : list byte) (client_now : Z).

Abbreviation account := (NtlmExchange.account_identity nc).
Abbreviation paired := (lifted (K := K) (NtlmExchange.ntlm_paired (V := V) account)).
Definition live_ntlm : Ntlm.Acceptor.AcceptorConfig :=
  ntlm_config b (Ntlm.channel_bindings_hash md5 digest) (netbios_name hostname) hostname now.
Definition live_config : Credssp.Acceptor.AcceptorConfig := make_nla_factory md5 public_key digest b hostname random now.

Lemma live_matching : client_ready ic public_key -> (forall bytes, len (sha256 bytes) = 32) ->
  iequals (to_bytes (PreAuth.cred_user (Initiator.credentials ic))) (Ntlm.Initiator.config_user nc) = true ->
  Ntlm.v_verify_password (verifier b) (Ntlm.Initiator.config_user nc) (Ntlm.Initiator.config_domain nc)
    (to_bytes (PreAuth.password (Initiator.credentials ic))) = true ->
  CredsspHandshake.matching sha256 paired ic live_config.
Proof.
  intros [] Hh Hu Hv. split; try done.
  - by rewrite client_key0.
  - intros [i|] [[a|]|k]; cbn [lifted NtlmExchange.ntlm_paired]; try done.
    destruct (Ntlm.Initiator.session_ i), (Ntlm.Acceptor.session_ a); try done. intros [_ E].
    cbn [live_config make_nla_factory Credssp.Acceptor.accept_credentials mech_identity mechanism mechanism_context live_context
      Ntlm.acceptor_context]. rewrite E. unfold accept_credentials, NtlmExchange.account_identity. cbn [PreAuth.user PreAuth.domain].
    unfold to_bytes, of_bytes in *. rewrite !String.list_byte_of_string_of_list_byte, Hu. by change (is_kerberos Ntlm.ntlm_oid) with false.
Qed.

(** C8: the whole logon.  A client with the right password for an account that the
    server's verifier knows, configured for this server, logs on with NTLM inside
    SPNEGO inside CredSSP, whatever random numbers the two ends draw: nothing
    fails, both ends report success, and the server has the delegated credentials
    and the identity of the account. *)
Theorem nla_logon :
  (forall m, length (md5 m) = 16%nat) -> (forall k m, length (hmac_md5 k m) = 16%nat) -> (forall bytes, len (sha256 bytes) = 32) ->
  kerberos_only b = false -> client_ready ic public_key -> len (default nonce_random (Initiator.config_nonce ic)) = nonce_size ->
  NtlmExchange.fits hmac_md5 nc live_ntlm random client_random key_random now ->
  iequals (to_bytes (PreAuth.cred_user (Initiator.credentials ic))) (Ntlm.Initiator.config_user nc) = true ->
  Ntlm.v_verify_password (verifier b) (Ntlm.Initiator.config_user nc) (Ntlm.Initiator.config_domain nc)
    (to_bytes (PreAuth.password (Initiator.credentials ic))) = true ->
  exists a i n ends,
    Credssp.Acceptor.make live_config = Some a /\
    Credssp.Initiator.make sha256 ic (Some (Ntlm.Initiator.make nc client_random key_random client_now)) nonce_random = Some i /\
    CredsspHandshake.rounds sha256 n (i, a) = Some ends /\
    Credssp.Initiator.status_ (fst ends) = PreAuth.succeeded /\ Credssp.Acceptor.status_ (snd ends) = PreAuth.succeeded /\
    Credssp.Acceptor.credentials_ (snd ends) = Some (Initiator.credentials ic) /\
    Credssp.Acceptor.identity_ (snd ends) = account.
Proof.
  intros Hm Hh Hs Ho Hc Hn Hf Hu Hv. pose proof (live_matching Hc Hs Hu Hv) as Hmatch.
  destruct (Credssp.Acceptor.make live_config) as [a|] eqn:Ea; [|].
  2: { exfalso. unfold Credssp.Acceptor.make in Ea. cbn [live_config make_nla_factory Credssp.Acceptor.server_public_key
         Credssp.Acceptor.config_max_version] in Ea. destruct Hc as [_ _ _ Hk _ _ _]. unfold is_empty in Ea. case_bool_decide as E; [rewrite E in Hk; by destruct Hk|done]. }
  exists a. destruct (CredsspHandshake.handshake_delivers sha256 paired ic live_config
    (Some (Ntlm.Initiator.make nc client_random key_random client_now))
    (Some (NtlmExchange.initiator_waiting nc client_random key_random client_now))
    (inl (Some (NtlmExchange.acceptor_start live_ntlm random now)))
    (NtlmMessages.negotiate_bytes NtlmExchange.hello) _ nonce_random a
    (lifted_pairing _ (NtlmExchange.ntlm_pairing md5 hmac_md5 Hh account)) Hmatch eq_refl Hn eq_refl eq_refl) as (i & Ei & n & ends & Hr & Hend).
  - cbn [step client_context Ntlm.initiator_context Ntlm.run_trap].
    pose proof (NtlmExchange.initiator_greets md5 hmac_md5 nc client_random key_random client_now) as Hg.
    unfold NtlmExchange.initiator_start in Hg. unfold Ntlm.run_trap. by rewrite Hg.
  - by vm_compute.
  - exact Ea.
  - cbn [live_config make_nla_factory Credssp.Acceptor.make_mechanism mechanism client_context Ntlm.initiator_context].
    unfold make_mechanism. change (is_kerberos Ntlm.ntlm_oid) with false. rewrite andb_false_r, Ho. done.
  - apply lifted_dialog. by apply NtlmExchange.ntlm_dialog.
  - exists i, n, ends. destruct Hend as (H1 & _ & H3 & _ & H5 & ci & ca & Hp & Hi). split_and!; try done.
    rewrite Hi. destruct ca as [[x|]|]; [|by destruct ci as [y|]; cbn in Hp; [destruct (Ntlm.Initiator.session_ y)|]|done].
    destruct ci as [y|]; [|done]. cbn [lifted NtlmExchange.ntlm_paired] in Hp.
    destruct (Ntlm.Initiator.session_ y), (Ntlm.Acceptor.session_ x); try done. by destruct Hp.
Qed.
End Live.

(** ** A logon for the witnesses

    The two ends of [NtlmLogon] inside CredSSP; Kerberos is not offered. *)

Import NtlmLogon.
#[local] Existing Instance CredsspAuthentication.toy_context.

Definition demo_sha256 (message : list byte) : list byte := demo_md5 message ++ demo_md5 (byte_of 1 :: message).
Definition demo_backends : NlaBackends (K := CredsspAuthentication.Toy) := mkBackends demo_accounts None false None false.
Definition demo_digest : list byte := replicate 32 (byte_of 7).
Definition demo_host : list byte := to_bytes "engine.example".
Definition demo_client : Credssp.Initiator.InitiatorConfig :=
  Credssp.Initiator.mkConfig true CredsspHandshake.honest_key (PreAuth.mkCredentials "" "ADA" "secret") 6 None [].

Lemma demo_client_ready : client_ready demo_client CredsspHandshake.honest_key.
Proof.
  split; try done. split_and!; [apply (CredsspHandshake.plain_ascii "" [])|apply (CredsspHandshake.plain_ascii "ADA" [65; 68; 65])|
    apply (CredsspHandshake.plain_ascii "secret" [115; 101; 99; 114; 101; 116])]; by vm_compute.
Qed.

Lemma demo_server_fits :
  NtlmExchange.fits (H := demo_verifier) demo_hmac demo_initiator
    (ntlm_config demo_backends (Ntlm.channel_bindings_hash demo_md5 demo_digest) (netbios_name demo_host) demo_host 0)
    (demo_random 8) (demo_random 8) (demo_random 16) 0.
Proof.
  split; [done|vm_compute; reflexivity..| |].
  - right. right. left.
  - apply NtlmExchange.local_knows; [apply demo_hmac_size|vm_compute; reflexivity].
Qed.

Lemma nla_logon_witness : exists a i n ends,
  Credssp.Acceptor.make (server_config demo_md5 demo_hmac demo_backends CredsspHandshake.honest_key demo_digest demo_host (demo_random 8) 0) = Some a /\
  Credssp.Initiator.make (H := Ntlm.initiator_context demo_md5 demo_hmac) demo_sha256 demo_client
    (Some (Ntlm.Initiator.make demo_initiator (demo_random 8) (demo_random 16) 0)) (demo_random 32) = Some i /\
  CredsspHandshake.rounds (H := Ntlm.initiator_context demo_md5 demo_hmac)
    (H0 := mechanism_context (H := Ntlm.acceptor_context (H := demo_verifier) demo_md5 demo_hmac)) demo_sha256 n (i, a) = Some ends /\
  Credssp.Acceptor.credentials_ (snd ends) = Some (PreAuth.mkCredentials "" "ADA" "secret") /\
  Credssp.Acceptor.identity_ (snd ends) = PreAuth.mkIdentity "ada" "".
Proof.
  destruct (nla_logon (H := demo_verifier) demo_md5 demo_sha256 demo_hmac demo_backends CredsspHandshake.honest_key demo_digest demo_host
    (demo_random 8) 0 demo_initiator demo_client (demo_random 8) (demo_random 16) (demo_random 32) 0 demo_md5_size demo_hmac_size)
    as (a & i & n & ends & H1 & H2 & H3 & _ & _ & H6 & H7).
  - intros bytes. unfold demo_sha256, len. rewrite length_app, !demo_md5_size. reflexivity.
  - reflexivity.
  - exact demo_client_ready.
  - reflexivity.
  - exact demo_server_fits.
  - vm_compute. reflexivity.
  - vm_compute. reflexivity.
  - exists a, i, n, ends. split_and!; [exact H1|exact H2|exact H3|exact H6|exact H7].
Defined.

(** The stage of [PreAuth] driven by what that client sends. *)
#[local] Instance demo_initiator_context : SecurityContext (option Ntlm.Initiator.t) := Ntlm.initiator_context demo_md5 demo_hmac.
#[local] Instance demo_acceptor_context : SecurityContext (option (Ntlm.Acceptor.t (V := Ntlm.LocalNtlmVerifier.t)) + CredsspAuthentication.Toy) :=
  mechanism_context (H := Ntlm.acceptor_context (H := demo_verifier) demo_md5 demo_hmac).
Abbreviation demo_nla := (CredsspAuthentication.nla_acceptor demo_sha256).

Definition demo_server : Credssp.Acceptor.AcceptorConfig (C := option (Ntlm.Acceptor.t (V := Ntlm.LocalNtlmVerifier.t)) + CredsspAuthentication.Toy) :=
  server_config demo_md5 demo_hmac demo_backends CredsspHandshake.honest_key demo_digest demo_host (demo_random 8) 0.
Definition demo_made :=
  Credssp.Acceptor.mk demo_server CredsspHandshake.honest_key PreAuth.in_progress Credssp.Acceptor.negotiate "" [] [] [] 0 0 None None
    false [] false false (PreAuth.mkIdentity "" "") None.

(** What the client sends in [n] rounds. *)
Fixpoint client_bytes (n : nat) (ends : Credssp.Initiator.t (C := option Ntlm.Initiator.t) * Credssp.Acceptor.t) : list byte :=
  match n with
  | O => []
  | S n' => Credssp.Initiator.output_ (fst ends) ++
      match CredsspHandshake.round demo_sha256 ends with Some ends' => client_bytes n' ends' | None => [] end
  end.
Definition demo_stream : list byte :=
  match Credssp.Initiator.make demo_sha256 demo_client
          (Some (Ntlm.Initiator.make demo_initiator (demo_random 8) (demo_random 16) 0)) (demo_random 32) with
  | Some i => client_bytes 4 (i, demo_made)
  | None => []
  end.

Definition drive (op : PreAuth.Op) (s : PreAuth.t) : PreAuth.t := default s (PreAuth.apply_op (H := demo_nla) op s).

Lemma drive_reachable cfg made op s : PreAuth.reachable (H := demo_nla) cfg made s -> PreAuth.reachable (H := demo_nla) cfg made (drive op s).
Proof.
  intros Hr. unfold drive. destruct (PreAuth.apply_op op s) as [s'|] eqn:E; [|exact Hr]. by eapply PreAuth.reach_step.
Qed.

Definition demo_stage : PreAuth.t :=
  drive (PreAuth.OpReceive demo_stream) (drive PreAuth.OpTls (drive (PreAuth.OpReceive PreAuth.sample_bytes)
    (PreAuth.make PreAuth.sample_config (Some (Some demo_made))))).

End Nla.
