(* ===== verification/Privsep.v ===== *)
(** * Privilege separation

    Models [src/src/farland/server/privsep.cpp] with [privsep.hpp]: the messages
    between the sandboxed network process and the monitor, [RemoteVerifier] and
    [RemoteKerberos], by which the network process asks, and [MonitorService],
    which answers with the verifier and the Kerberos context that it alone has.

    The control channel is a parameter: [call] sends a request and returns the
    reply, and what is at its other end goes from state to state.  A definition
    returns [None] where an assertion fails.  Logging and wiping are left out. *)

From S2P Require Import Prelude Buffers CodecLogic Fields X224 PreAuth CredsspCodec Credssp Ntlm.
From stdpp Require Import gmap.
Open Scope Z_scope.

Module Privsep.
Abbreviation to_bytes := CredsspCodec.to_bytes.
Abbreviation of_bytes := CredsspCodec.of_bytes.

(** ** Messages *)

Definition length_prefix : Z := 4.
Definition max_string : Z := 1024.
Definition max_nt_response : Z := 2048.
Definition max_kerberos_blob : Z := 48000.
Definition max_message_size : Z := 64 * 1024.

Inductive KerberosOp := op_step | op_wrap | op_unwrap | op_get_mic | op_verify_mic.
#[export] Instance KerberosOp_eq_dec : EqDecision KerberosOp.
Proof. solve_decision. Defined.

Record KerberosRequest := mkKerberosRequest {
  op : KerberosOp;
  request_data : list byte;
  mic : list byte;
  mechanism_oid : list byte }.

Record KerberosResponse := mkKerberosResponse {
  ok : bool;
  response_data : list byte;
  complete : bool;
  user : list byte;
  domain : list byte }.
Definition refusal : KerberosResponse := mkKerberosResponse false [] false [] [].

Inductive Message :=
  | VerifyNtlmRequest (user domain server_challenge nt_response : list byte)
  | VerifyNtlmResponse (session_base_key : option (list byte))
  | VerifyPasswordRequest (user domain password : list byte)
  | VerifyPasswordResponse (ok : bool)
  | Authenticated (negotiation : PreAuth.Negotiation)
  | KerberosRequestMessage (m : KerberosRequest)
  | KerberosResponseMessage (m : KerberosResponse).

Definition type_verify_ntlm_request : Z := 1.
Definition type_verify_ntlm_response : Z := 2.
Definition type_verify_password_request : Z := 3.
Definition type_verify_password_response : Z := 4.
Definition type_authenticated : Z := 5.
Definition type_kerberos_request : Z := 6.
Definition type_kerberos_response : Z := 7.

Definition op_code (o : KerberosOp) : Z :=
  match o with op_step => 1 | op_wrap => 2 | op_unwrap => 3 | op_get_mic => 4 | op_verify_mic => 5 end.
(** The range check and the cast. *)
Definition op_of (v : Z) : option KerberosOp :=
  if v =? 1 then Some op_step else if v =? 2 then Some op_wrap else if v =? 3 then Some op_unwrap
  else if v =? 4 then Some op_get_mic else if v =? 5 then Some op_verify_mic else None.

Definition write_blob (bytes : list byte) : Enc unit :=
  eassert (len bytes <=? max_kerberos_blob) ;;;
  Writer.u32le (len bytes) ;;;
  Writer.bytes bytes.
Definition read_blob : Dec (list byte) :=
  let* start := dask Reader.offset in
  let* size := ReaderOps.u32le in
  if max_kerberos_blob <? size then dfail limit_exceeded "privsep blob too long" start else ReaderOps.bytes size.

Definition write_string (text : list byte) : Enc unit :=
  eassert (len text <=? max_string) ;;;
  Writer.u16le (len text) ;;;
  Writer.bytes text.
Definition read_string : Dec (list byte) :=
  let* start := dask Reader.offset in
  let* size := ReaderOps.u16le in
  if max_string <? size then dfail limit_exceeded "privsep string too long" start else ReaderOps.bytes size.

Definition write_flag (b : bool) : Enc unit := Writer.u8 (if b then 1 else 0).
Definition read_flag : Dec bool := let* v := ReaderOps.u8 in dret (negb (v =? 0)).

(** The fields of each message behind its type. *)
Definition write_fields (message : Message) : Enc unit :=
  match message with
  | VerifyNtlmRequest user domain server_challenge nt_response =>
      eassert (len nt_response <=? max_nt_response) ;;;
      Writer.u8 type_verify_ntlm_request ;;;
      write_string user ;;;
      write_string domain ;;;
      Writer.bytes server_challenge ;;;
      Writer.u16le (len nt_response) ;;;
      Writer.bytes nt_response
  | VerifyNtlmResponse key =>
      Writer.u8 type_verify_ntlm_response ;;;
      write_flag (bool_decide (key <> None)) ;;;
      ewhen key Writer.bytes
  | VerifyPasswordRequest user domain password =>
      Writer.u8 type_verify_password_request ;;;
      write_string user ;;;
      write_string domain ;;;
      write_string password
  | VerifyPasswordResponse ok =>
      Writer.u8 type_verify_password_response ;;;
      write_flag ok
  | KerberosRequestMessage m =>
      Writer.u8 type_kerberos_request ;;;
      Writer.u8 (op_code (op m)) ;;;
      write_blob (request_data m) ;;;
      write_blob (mic m) ;;;
      write_blob (mechanism_oid m)
  | KerberosResponseMessage m =>
      Writer.u8 type_kerberos_response ;;;
      write_flag (ok m) ;;;
      write_flag (complete m) ;;;
      write_blob (response_data m) ;;;
      write_string (user m) ;;;
      write_string (domain m)
  | Authenticated n =>
      Writer.u8 type_authenticated ;;;
      write_string (PreAuth.cookie n) ;;;
      Writer.u32le (PreAuth.requested_protocols n) ;;;
      Writer.u32le (PreAuth.selected_protocol n) ;;;
      write_flag (bool_decide (PreAuth.identity n <> None)) ;;;
      ewhen (PreAuth.identity n) (fun i =>
        write_string (to_bytes (PreAuth.user i)) ;;;
        write_string (to_bytes (PreAuth.domain i)))
  end.

Definition write_message (message : Message) : Enc unit :=
  Writer.u32le 0 ;;;
  write_fields message ;;;
  let! size := Writer.size in
  let length := size - length_prefix in
  eassert (length <=? max_message_size) ;;;
  Writer.patch_u32le 0 length.
Definition encode (message : Message) : option (list byte) := Writer.run (write_message message).

Definition message_length (buffered : list byte) : Result (option Z) :=
  if len buffered <? length_prefix then Ok None
  else
    let? length := match ReaderOps.u32le (Reader.make buffered 0) with Ok (n, _) => Ok n | Err e => Err e end in
    if (length =? 0) || (max_message_size <? length) then fail limit_exceeded "privsep message size out of range" 0
    else
      let total := length_prefix + length in
      if len buffered <? total then Ok None else Ok (Some total).

(** The cases that end in [break], after which the message must end. *)
Definition ended (m : Dec Message) : Dec Message :=
  let* message := m in
  let* _ := ReaderOps.expect_end "privsep message" in
  dret message.

Definition read_fields (type : Z) : Dec Message :=
  if type =? type_verify_ntlm_request then ended (
    let* user := read_string in
    let* domain := read_string in
    let* server_challenge := ReaderOps.bytes 8 in
    let* size_offset := dask Reader.offset in
    let* size := ReaderOps.u16le in
    if max_nt_response <? size then dfail limit_exceeded "NT response too long" size_offset
    else
      let* nt_response := ReaderOps.bytes size in
      dret (VerifyNtlmRequest user domain server_challenge nt_response))
  else if type =? type_verify_ntlm_response then ended (
    let* ok := read_flag in
    if ok then let* key := ReaderOps.bytes 16 in dret (VerifyNtlmResponse (Some key))
    else dret (VerifyNtlmResponse None))
  else if type =? type_verify_password_request then ended (
    let* user := read_string in
    let* domain := read_string in
    let* password := read_string in
    dret (VerifyPasswordRequest user domain password))
  else if type =? type_verify_password_response then ended (
    let* ok := read_flag in
    dret (VerifyPasswordResponse ok))
  else if type =? type_kerberos_request then
    let* code := ReaderOps.u8 in
    match op_of code with
    | None => dfail invalid_value "unknown Kerberos operation" 0
    | Some o =>
        let* data := read_blob in
        let* mic := read_blob in
        let* oid := read_blob in
        dret (KerberosRequestMessage (mkKerberosRequest o data mic oid))
    end
  else if type =? type_kerberos_response then
    let* ok := read_flag in
    let* complete := read_flag in
    let* data := read_blob in
    let* user := read_string in
    let* domain := read_string in
    dret (KerberosResponseMessage (mkKerberosResponse ok data complete user domain))
  else if type =? type_authenticated then ended (
    let* cookie := read_string in
    let* requested := ReaderOps.u32le in
    let* selected := ReaderOps.u32le in
    let* has_identity := read_flag in
    if has_identity then
      let* user := read_string in
      let* domain := read_string in
      dret (Authenticated (PreAuth.mkNegotiation cookie requested selected (Some (PreAuth.mkIdentity (of_bytes user) (of_bytes domain)))))
    else dret (Authenticated (PreAuth.mkNegotiation cookie requested selected None)))
  else dfail invalid_value "unknown privsep message type" length_prefix.

Definition read_message : Dec Message :=
  let* length := ReaderOps.u32le in
  let* remaining := dask Reader.remaining in
  if negb (length =? remaining) || (max_message_size <? length)
  then dfail invalid_length "privsep length does not match the message" 0
  else
    let* type := ReaderOps.u8 in
    read_fields type.
Definition decode (frame : list byte) : Result Message :=
  match read_message (Reader.make frame 0) with Ok (m, _) => Ok m | Err e => Err e end.

Definition is_nla (protocol : Z) : bool := (protocol =? X224.hybrid) || (protocol =? X224.hybrid_ex).

(** ** The network process *)

Section Network.
Context {M : Type} (call : M -> list byte -> Result (list byte) * M).

(** A request and the reply to it, if it came and is a message. *)
Definition exchange (message : Message) (channel : M) : option (option Message * M) :=
  request ← encode message;
  let (reply, channel) := call channel request in
  Some (match reply with
        | Ok reply => match decode reply with Ok m => Some m | Err _ => None end
        | Err _ => None
        end, channel).

Definition remote_session_base_key (user domain server_challenge nt_challenge_response : list byte) (channel : M)
    : option (option (list byte) * M) :=
  if (max_string <? len user) || (max_string <? len domain) || (max_nt_response <? len nt_challenge_response)
  then Some (None, channel)
  else
    next ← exchange (VerifyNtlmRequest user domain server_challenge nt_challenge_response) channel;
    let '(reply, channel) := next in
    Some (match reply with Some (VerifyNtlmResponse key) => key | _ => None end, channel).

Definition remote_verify_password (user domain password : list byte) (channel : M) : option (bool * M) :=
  if (max_string <? len user) || (max_string <? len domain) || (max_string <? len password)
  then Some (false, channel)
  else
    next ← exchange (VerifyPasswordRequest user domain password) channel;
    let '(reply, channel) := next in
    Some (match reply with Some (VerifyPasswordResponse ok) => ok | _ => false end, channel).
End Network.

Module RemoteKerberos.
Section RemoteKerberos.
Context {M : Type} (call : M -> list byte -> Result (list byte) * M).

Record t := mk {
  channel_ : M;
  mechanism_oid_ : list byte;
  complete_ : bool;
  identity_ : PreAuth.Identity }.

Definition make (channel : M) (mechanism_oid : list byte) : t := mk channel mechanism_oid false (PreAuth.mkIdentity "" "").

Definition with_channel (v : M) (s : t) : t := mk v (mechanism_oid_ s) (complete_ s) (identity_ s).

Definition ask (o : KerberosOp) (data mic : list byte) (s : t) : option (Result KerberosResponse * t) :=
  if (max_kerberos_blob <? len data) || (max_kerberos_blob <? len mic)
  then Some (fail limit_exceeded "the Kerberos message is too large to hand to the monitor" 0, s)
  else
    let oid := if bool_decide (o = op_step) then mechanism_oid_ s else [] in
    request ← encode (KerberosRequestMessage (mkKerberosRequest o data mic oid));
    let (reply, channel) := call (channel_ s) request in
    let s := with_channel channel s in
    Some (match reply with
          | Err _ => fail io "the monitor did not answer a Kerberos request" 0
          | Ok reply =>
              match decode reply with
              | Ok (KerberosResponseMessage response) =>
                  if negb (ok response) then fail invalid_value "the monitor refused a Kerberos operation" 0 else Ok response
              | _ => fail invalid_value "the monitor's answer is not a Kerberos response" 0
              end
          end, s).

Definition step (input : list byte) (s : t) : option (Result Credssp.Step * t) :=
  next ← ask op_step input [] s;
  let '(response, s) := next in
  Some (match response with
        | Err e => (Err e, s)
        | Ok response =>
            (Ok (Credssp.mkStep (response_data response) (complete response)),
             if complete response
             then mk (channel_ s) (mechanism_oid_ s) true (PreAuth.mkIdentity (of_bytes (user response)) (of_bytes (domain response)))
             else s)
        end).

(** The bytes that the monitor returns. *)
Definition asked (o : KerberosOp) (data mic : list byte) (s : t) : option (Result (list byte) * t) :=
  next ← ask o data mic s;
  let '(response, s) := next in
  Some (match response with Ok response => Ok (response_data response) | Err e => Err e end, s).
Definition or_empty (next : Result (list byte) * t) : list byte * t :=
  let '(bytes, s) := next in (match bytes with Ok bytes => bytes | Err _ => [] end, s).

Definition wrap_ (plaintext : list byte) (s : t) : option (list byte * t) := or_empty <$> asked op_wrap plaintext [] s.
Definition unwrap (wrapped : list byte) (s : t) : option (Result (list byte) * t) := asked op_unwrap wrapped [] s.
Definition get_mic (message : list byte) (s : t) : option (list byte * t) := or_empty <$> asked op_get_mic message [] s.
Definition verify_mic (message mic : list byte) (s : t) : option (Result unit * t) :=
  next ← ask op_verify_mic message mic s;
  let '(response, s) := next in
  Some (match response with Ok _ => Ok tt | Err e => Err e end, s).

(** As a mechanism of CredSSP; [None] has failed an assertion. *)
#[export] Instance remote_context : Credssp.SecurityContext (option t) := {|
  Credssp.mechanism c := match c with Some s => mechanism_oid_ s | None => [] end;
  Credssp.step c input := Ntlm.run_trap (step input) Ntlm.trapped c;
  Credssp.wrap_message c bytes := Ntlm.run_trap (wrap_ bytes) [] c;
  Credssp.unwrap c bytes := Ntlm.run_trap (unwrap bytes) Ntlm.trapped c;
  Credssp.get_mic c bytes := Ntlm.run_trap (get_mic bytes) [] c;
  Credssp.verify_mic c bytes mic := Ntlm.run_trap (verify_mic bytes mic) Ntlm.trapped c;
  Credssp.reset_cipher_state c := c;
  Credssp.mech_identity c := match c with Some s => identity_ s | None => PreAuth.mkIdentity "" "" end |}.
End RemoteKerberos.
End RemoteKerberos.

(** ** The monitor *)

Module MonitorService.
Section MonitorService.
Context {V : Type} `{Ntlm.NtlmVerifier V} {K : Type} `{Credssp.SecurityContext K}.

Record t := mk {
  verifier_ : V;
  kerberos_ : option (list byte -> option K);
  kerberos_context_ : option K;
  max_attempts_ : Z;
  attempts_ : Z;
  verified_ : gset (string * string);
  reported_ : bool;
  authenticated_ : option PreAuth.Negotiation }.

Definition make (verifier : V) (max_attempts : Z) : t := mk verifier None None max_attempts 0 ∅ false None.
Definition serve_kerberos (factory : list byte -> option K) (s : t) : t :=
  mk (verifier_ s) (Some factory) (kerberos_context_ s) (max_attempts_ s) (attempts_ s) (verified_ s) (reported_ s) (authenticated_ s).

Definition with_context (v : option K) (s : t) : t :=
  mk (verifier_ s) (kerberos_ s) v (max_attempts_ s) (attempts_ s) (verified_ s) (reported_ s) (authenticated_ s).
Definition with_attempts (v : Z) (s : t) : t :=
  mk (verifier_ s) (kerberos_ s) (kerberos_context_ s) (max_attempts_ s) v (verified_ s) (reported_ s) (authenticated_ s).
Definition with_verified (v : gset (string * string)) (s : t) : t :=
  mk (verifier_ s) (kerberos_ s) (kerberos_context_ s) (max_attempts_ s) (attempts_ s) v (reported_ s) (authenticated_ s).
Definition with_reported (v : bool) (s : t) : t :=
  mk (verifier_ s) (kerberos_ s) (kerberos_context_ s) (max_attempts_ s) (attempts_ s) (verified_ s) v (authenticated_ s).
Definition with_authenticated (v : option PreAuth.Negotiation) (s : t) : t :=
  mk (verifier_ s) (kerberos_ s) (kerberos_context_ s) (max_attempts_ s) (attempts_ s) (verified_ s) (reported_ s) v.

(** A response with data that is not empty, or a refusal. *)
Definition data_or_refusal (data : list byte) : KerberosResponse :=
  if bool_decide (data = []) then refusal else mkKerberosResponse true data false [] [].

(** The operation on the context that is there. *)
Definition on_context (request : KerberosRequest) (c : K) (s : t) : KerberosResponse * t :=
  match op request with
  | op_step =>
      let (step, c) := Credssp.step c (request_data request) in
      let s := with_context (Some c) s in
      match step with
      | Err _ => (refusal, s)
      | Ok step =>
          if Credssp.step_complete step then
            let i := Credssp.mech_identity c in
            (mkKerberosResponse true (Credssp.step_token step) true (to_bytes (PreAuth.user i)) (to_bytes (PreAuth.domain i)),
             with_verified ({[(PreAuth.user i, PreAuth.domain i)]} ∪ verified_ s) s)
          else (mkKerberosResponse true (Credssp.step_token step) false [] [], s)
      end
  | op_wrap =>
      let (sealed, c) := Credssp.wrap_message c (request_data request) in
      (data_or_refusal sealed, with_context (Some c) s)
  | op_unwrap =>
      let (plaintext, c) := Credssp.unwrap c (request_data request) in
      (match plaintext with Ok plaintext => mkKerberosResponse true plaintext false [] [] | Err _ => refusal end, with_context (Some c) s)
  | op_get_mic =>
      let (mic, c) := Credssp.get_mic c (request_data request) in
      (data_or_refusal mic, with_context (Some c) s)
  | op_verify_mic =>
      let (verified, c) := Credssp.verify_mic c (request_data request) (mic request) in
      (mkKerberosResponse (match verified with Ok _ => true | Err _ => false end) [] false [] [], with_context (Some c) s)
  end.

Definition handle_kerberos (request : KerberosRequest) (s : t) : Result KerberosResponse * t :=
  match kerberos_ s with
  | None => (Ok refusal, s)
  | Some factory =>
      let first := bool_decide (op request = op_step) && negb (Credssp.is_some (kerberos_context_ s)) in
      let s := if first then with_context (factory (mechanism_oid request)) s else s in
      match kerberos_context_ s with
      | None => if first then (Ok refusal, s) else (fail invalid_value "a Kerberos operation before the context exists" 0, s)
      | Some c => let (response, s) := on_context request c s in (Ok response, s)
      end
  end.

(** [++attempts_ > max_attempts_] of a 32-bit counter. *)
Definition count_attempt (s : t) : bool * t :=
  let attempts := wrap 32 (attempts_ s + 1) in
  (max_attempts_ s <? attempts, with_attempts attempts s).

(** A reply that is encoded, or its assertion. *)
Definition reply (message : Message) (s : t) : option (Result (option (list byte)) * t) :=
  bytes ← encode message;
  Some (Ok (Some bytes), s).

Definition on_authenticated (negotiation : PreAuth.Negotiation) (s : t) : Result (option (list byte)) * t :=
  if reported_ s then (fail invalid_value "pre-authentication reported twice" 0, s)
  else
    let s := with_reported true s in
    let identity := PreAuth.identity negotiation in
    if is_nla (PreAuth.selected_protocol negotiation) then
      if match identity with Some i => bool_decide ((PreAuth.user i, PreAuth.domain i) ∈ verified_ s) | None => false end
      then (Ok None, with_authenticated (Some negotiation) s)
      else (fail invalid_value "network process claims an identity the monitor did not verify" 0, s)
    else if Credssp.is_some identity then (fail invalid_value "identity reported for a connection without NLA" 0, s)
    else (Ok None, with_authenticated (Some negotiation) s).

Definition on_message (message : Message) (s : t) : option (Result (option (list byte)) * t) :=
  match message with
  | VerifyNtlmRequest user domain server_challenge nt_response =>
      let (refused, s) := count_attempt s in
      if refused : bool then reply (VerifyNtlmResponse None) s
      else
        let key := Ntlm.v_session_base_key (verifier_ s) user domain server_challenge nt_response in
        let s := if Credssp.is_some key then with_verified ({[(of_bytes user, of_bytes domain)]} ∪ verified_ s) s else s in
        reply (VerifyNtlmResponse key) s
  | VerifyPasswordRequest user domain password =>
      let (refused, s) := count_attempt s in
      if refused : bool then reply (VerifyPasswordResponse false) s
      else reply (VerifyPasswordResponse (Ntlm.v_verify_password (verifier_ s) user domain password)) s
  | KerberosRequestMessage request =>
      let (refused, s) := if bool_decide (op request = op_step) then count_attempt s else (false, s) in
      if refused : bool then reply (KerberosResponseMessage refusal) s
      else
        let (response, s) := handle_kerberos request s in
        match response with
        | Err e => Some (Err e, s)
        | Ok response => reply (KerberosResponseMessage response) s
        end
  | Authenticated negotiation => Some (on_authenticated negotiation s)
  | _ => Some (fail invalid_value "unexpected privsep message from the network process" 0, s)
  end.

Definition handle (frame : list byte) (s : t) : option (Result (option (list byte)) * t) :=
  match decode frame with
  | Err e => Some (Err e, s)
  | Ok message => on_message message s
  end.

Definition take_authenticated (s : t) : option PreAuth.Negotiation * t := (authenticated_ s, with_authenticated None s).
End MonitorService.
End MonitorService.
End Privsep.
