(* ===== verification/PrivsepCodec.v ===== *)
(** * The messages of privilege separation

    Theorems about the codec of [Privsep]: what is encoded is framed and decoded
    back; and a Kerberos message may carry bytes that belong to nothing. *)

From S2P Require Import Prelude Buffers CodecLogic Fields X224 PreAuth CredsspCodec Credssp Ntlm Privsep.
Open Scope Z_scope.

Module PrivsepCodec.
Import Privsep.

Definition string_ok (s : list byte) : bool := len s <=? max_string.
Definition blob_ok (b : list byte) : bool := len b <=? max_kerberos_blob.
Definition identity_ok (i : PreAuth.Identity) : bool :=
  string_ok (to_bytes (PreAuth.user i)) && string_ok (to_bytes (PreAuth.domain i)).

(** Messages whose fields have their sizes; two large blobs must fit together. *)
Definition message_ok (m : Message) : bool :=
  match m with
  | VerifyNtlmRequest user domain challenge response =>
      string_ok user && string_ok domain && (len challenge =? 8) && (len response <=? max_nt_response)
  | VerifyNtlmResponse key => opt_ok (fun k => len k =? 16) key
  | VerifyPasswordRequest user domain password => string_ok user && string_ok domain && string_ok password
  | VerifyPasswordResponse _ => true
  | Authenticated n =>
      string_ok (PreAuth.cookie n) && u32_ok (PreAuth.requested_protocols n) && u32_ok (PreAuth.selected_protocol n) &&
      opt_ok identity_ok (PreAuth.identity n)
  | KerberosRequestMessage m =>
      blob_ok (request_data m) && blob_ok (mic m) && blob_ok (mechanism_oid m) &&
      (len (request_data m) + len (mic m) + len (mechanism_oid m) <=? max_message_size - 14)
  | KerberosResponseMessage m => blob_ok (response_data m) && string_ok (user m) && string_ok (domain m)
  end.

Lemma encodes_string s : string_ok s = true -> encodes (write_string s) read_string s (2 + len s).
Proof.
  unfold string_ok, max_string. intros H. bools. unfold write_string, read_string. apply encodes_assert; [by apply Z.leb_le|].
  apply encodes_ask. eexists. split; [apply writes_seq; apply writes_bytes|]. split; [len_lia|]. intros x k.
  pose proof (len_nonneg s). eapply reads_bind; [apply reads_u16le; lia|]. intros ? <-.
  rewrite (proj2 (Z.ltb_ge _ _)) by (unfold max_string; lia). by apply reads_bytes.
Qed.

Lemma encodes_blob s : blob_ok s = true -> encodes (write_blob s) read_blob s (4 + len s).
Proof.
  unfold blob_ok, max_kerberos_blob. intros H. bools. unfold write_blob, read_blob. apply encodes_assert; [by apply Z.leb_le|].
  apply encodes_ask. eexists. split; [apply writes_seq; apply writes_bytes|]. split; [len_lia|]. intros x k.
  pose proof (len_nonneg s). eapply reads_bind; [apply reads_u32le; lia|]. intros ? <-.
  rewrite (proj2 (Z.ltb_ge _ _)) by (unfold max_kerberos_blob; lia). by apply reads_bytes.
Qed.

Lemma encodes_flag b : encodes (write_flag b) read_flag b 1.
Proof.
  unfold write_flag, read_flag. eapply encodes_last; [apply encodes_u8; destruct b; lia|]. intros k. apply reads_ret. by destruct b.
Qed.
#[export] Hint Resolve encodes_string encodes_blob encodes_flag : codec.

Lemma encodes_done m p (v : Message) n : encodes m p v n -> encodes_end m (ended p) v n.
Proof.
  intros H. unfold ended. eapply encodes_last_end; [by apply encodes_encodes_end|].
  eapply reads_bind_nil; [apply reads_expect_end|]. intros ? _. by apply reads_ret.
Qed.

Lemma encodes_asked {A B} m (f : Reader.t -> A) (q : A -> Dec B) b n : (forall x, encodes m (q x) b n) -> encodes m (dbind (dask f) q) b n.
Proof.
  intros H. apply encodes_ask. destruct (H (f (Reader.make [] 0))) as (e & W & L & _). exists e. split_and!; [done|done|].
  intros x k. destruct (H x) as (e' & W' & _ & R). by rewrite <- (writes_det _ _ _ W W') in R.
Qed.

(** The last field of a message that is then put together. *)
Lemma encodes_built {A} m (p : Dec A) a (g : A -> Message) n : encodes m p a n -> encodes m (let* x := p in dret (g x)) (g a) n.
Proof. intros H. eapply encodes_last; [exact H|]. intros k. by apply reads_ret. Qed.

Ltac built :=
  match goal with |- encodes _ (dbind _ (fun x => dret (@?g x))) ?m _ =>
    match goal with |- encodes _ (dbind ?p _) _ _ =>
      eapply (encodes_built _ p _ g) end end.
(** [body H]: the type has been read; on to the fields. *)
Ltac body := (eapply encodes_seq_end || eapply encodes_seq); [by apply encodes_u8|]; cbn beta; unfold read_fields; cbn [Z.eqb Pos.eqb
  type_verify_ntlm_request type_verify_ntlm_response type_verify_password_request type_verify_password_response type_authenticated
  type_kerberos_request type_kerberos_response].

Definition coded (m : Message) : Prop :=
  exists n, encodes_end (write_fields m) (let* type := ReaderOps.u8 in read_fields type) m n /\ n <= max_message_size.

Lemma ntlm_request_coded u d c r : message_ok (VerifyNtlmRequest u d c r) = true -> coded (VerifyNtlmRequest u d c r).
Proof.
  cbn [message_ok]. intros H. bools. unfold max_nt_response in *. eexists. split.
  - apply encodes_end_assert; [by apply Z.leb_le|]. body. apply encodes_done. fields. apply encodes_asked. intros x. pose proof (len_nonneg r).
    fields. rewrite (proj2 (Z.ltb_ge _ _)) by (unfold max_nt_response; lia). apply encodes_built. by apply encodes_bytes.
  - unfold string_ok, max_string, max_message_size in *. bools. lia.
Qed.

Lemma ntlm_response_coded key : message_ok (VerifyNtlmResponse key) = true -> coded (VerifyNtlmResponse key).
Proof.
  cbn [message_ok]. intros H. eexists (1 + (1 + 16)). split; [|by unfold max_message_size].
  body. apply encodes_done. destruct key as [key|]; cbn [opt_ok ewhen] in *; bools.
  - rewrite bool_decide_true by done. eapply encodes_seq; [apply encodes_flag|]. cbn iota. apply (encodes_built _ _ key (fun k => VerifyNtlmResponse (Some k))). by apply encodes_bytes.
  - rewrite bool_decide_false by (intros Hn; by apply Hn). eapply encodes_seq; [apply encodes_flag|]. cbn iota.
    eapply encodes_le; [apply encodes_ret|lia].
Qed.

Lemma password_request_coded u d p : message_ok (VerifyPasswordRequest u d p) = true -> coded (VerifyPasswordRequest u d p).
Proof.
  cbn [message_ok]. intros H. bools. eexists. split.
  - body. apply encodes_done. fields. apply encodes_built. by apply encodes_string.
  - unfold string_ok, max_string, max_message_size in *. bools. lia.
Qed.

Lemma password_response_coded b : coded (VerifyPasswordResponse b).
Proof. eexists. split; [body; apply encodes_done, encodes_built, encodes_flag|by unfold max_message_size]. Qed.

Lemma authenticated_coded n : message_ok (Authenticated n) = true -> coded (Authenticated n).
Proof.
  destruct n as [cookie requested selected i]. cbn [message_ok PreAuth.cookie PreAuth.requested_protocols PreAuth.selected_protocol PreAuth.identity].
  intros H. bools. exists (1 + (2 + len cookie + (4 + (4 + (1 + (2 + 1024 + (2 + 1024))))))). split.
  2: { unfold string_ok, max_string, max_message_size in *. bools. lia. }
  cbn [write_fields PreAuth.cookie PreAuth.requested_protocols PreAuth.selected_protocol PreAuth.identity]. body. apply encodes_done. fields.
  destruct i as [[u d]|]; cbn [opt_ok ewhen] in *.
  - unfold identity_ok in *. cbn [PreAuth.user PreAuth.domain] in *. bools. rewrite bool_decide_true by done. cbn iota.
    assert (u = of_bytes (to_bytes u)) as Hu by (unfold of_bytes, to_bytes; by rewrite String.string_of_list_byte_of_string).
    assert (d = of_bytes (to_bytes d)) as Hd by (unfold of_bytes, to_bytes; by rewrite String.string_of_list_byte_of_string).
    eapply encodes_le with (n := 2 + len (to_bytes u) + (2 + len (to_bytes d)));
      [|unfold string_ok, max_string in *; bools; lia].
    eapply encodes_seq; [by apply encodes_string|]. cbn beta.
    match goal with |- encodes _ (dbind _ (fun x => dret (@?g x))) _ _ =>
      eapply (eq_ind (g (to_bytes d)) (fun v => encodes _ _ v _)); [by apply (encodes_built _ _ _ g), encodes_string|] end.
    cbn beta. by rewrite <- Hu, <- Hd.
  - rewrite bool_decide_false by (intros Hn; by apply Hn). cbn iota.
    eapply encodes_le; [apply encodes_ret|lia].
Qed.

(** The Kerberos messages, which may be followed by anything. *)
Definition coded_open (m : Message) : Prop :=
  exists n, encodes (write_fields m) (let* type := ReaderOps.u8 in read_fields type) m n /\ n <= max_message_size.
Lemma open_coded m : coded_open m -> coded m.
Proof. intros (n & E & H). exists n. split; [by apply encodes_encodes_end|done]. Qed.

Lemma kerberos_request_coded m : message_ok (KerberosRequestMessage m) = true -> coded_open (KerberosRequestMessage m).
Proof.
  destruct m as [o data mic oid]. cbn [message_ok request_data Privsep.mic mechanism_oid]. intros H. bools. eexists. split.
  - cbn [write_fields op request_data Privsep.mic mechanism_oid]. body.
    eapply encodes_seq; [apply (encodes_u8 (op_code o)); by destruct o|]. cbn beta.
    assert (op_of (op_code o) = Some o) as -> by (by destruct o). fields. built; by apply encodes_blob.
  - unfold max_message_size in *. lia.
Qed.

Lemma kerberos_response_coded m : message_ok (KerberosResponseMessage m) = true -> coded_open (KerberosResponseMessage m).
Proof.
  destruct m as [ok data complete u d]. cbn [message_ok response_data user domain]. intros H. bools. eexists. split.
  - cbn [write_fields Privsep.ok response_data Privsep.complete user domain]. body. fields. built. by apply encodes_string.
  - unfold string_ok, blob_ok, max_string, max_kerberos_blob, max_message_size in *. bools. lia.
Qed.

Lemma message_coded m : message_ok m = true -> coded m.
Proof.
  destruct m; auto using ntlm_request_coded, ntlm_response_coded, password_request_coded, password_response_coded, authenticated_coded,
    open_coded, kerberos_request_coded, kerberos_response_coded.
Qed.

(** ** Framing *)

Definition framed (body : list byte) : list byte := Writer.le_bytes 4 (len body) ++ body.

Lemma encode_framed m e : writes (write_fields m) e -> len e <= max_message_size -> encode m = Some (framed e).
Proof.
  intros We Le. unfold encode, Writer.run, write_message, Writer.u32le, Writer.write_le, Writer.bytes. unfold ebind at 1. cbn [app].
  unfold ebind at 1. rewrite We. unfold ebind, Writer.size, eassert, length_prefix.
  assert (len (Writer.le_bytes 4 0 ++ e) - 4 = len e) as -> by len_lia. rewrite (proj2 (Z.leb_le _ _)) by lia.
  unfold Writer.patch_u32le, framed. pose proof (patch_mk [] [] (Writer.le_bytes 4 0) (Writer.le_bytes 4 (len e)) e) as P.
  cbn [app] in P. change (len [] + len []) with 0 in P. by rewrite P by (rewrite !len_le_bytes; lia).
Qed.

Lemma length_read body k b : len body <= max_message_size ->
  ReaderOps.u32le (Reader.make (framed body ++ k) b) = Ok (len body, Reader.mk (Writer.le_bytes 4 (len body)) (body ++ k) b).
Proof.
  unfold max_message_size. intros Hl. pose proof (len_nonneg body).
  destruct (reads_u32le (len body) (body ++ k) ltac:(lia) [] b) as (n & E & <-).
  unfold framed, Reader.make. rewrite <- app_assoc. exact E.
Qed.

Lemma message_length_framed body k : 0 < len body <= max_message_size -> message_length (framed body ++ k) = Ok (Some (len (framed body))).
Proof.
  intros [Hp Hl]. unfold message_length. rewrite length_read by done. unfold framed, length_prefix.
  pose proof (len_nonneg k). rewrite !len_app, !len_le_bytes. rewrite (proj2 (Z.ltb_ge _ _)) by lia. cbn [rbind].
  rewrite (proj2 (Z.eqb_neq _ _)), !(proj2 (Z.ltb_ge _ _)) by lia. done.
Qed.

Lemma decode_fields m body k :
  len (body ++ k) <= max_message_size -> reads (let* type := ReaderOps.u8 in read_fields type) body k (eq m) -> decode (framed (body ++ k)) = Ok m.
Proof.
  intros Hl R. unfold decode, read_message. pose proof (length_read (body ++ k) [] 0 Hl) as E. rewrite !app_nil_r in E.
  unfold dbind at 1. rewrite E. rewrite dbind_ask, remaining_mk, Z.eqb_refl. rewrite (proj2 (Z.ltb_ge _ _)) by lia. cbn [negb orb].
  by destruct (R (Writer.le_bytes 4 (len (body ++ k))) 0) as (v & -> & <-).
Qed.

Lemma coded_nonempty e m : reads (let* type := ReaderOps.u8 in read_fields type) e [] (eq m) -> 0 < len e.
Proof. intros R. destruct e; [|len_lia]. destruct (R [] 0) as (v & E & _). discriminate E. Qed.

Lemma message_length_part body j : 0 < len body <= max_message_size -> (j < length (framed body))%nat ->
  message_length (take j (framed body)) = Ok None.
Proof.
  intros [Hp Hl] Hj. unfold message_length, length_prefix. destruct (decide (j < 4)%nat) as [Hs|Hs].
  - rewrite (proj2 (Z.ltb_lt _ _)); [done|]. unfold len. rewrite length_take. lia.
  - assert (take j (framed body) = Writer.le_bytes 4 (len body) ++ take (j - 4) body) as ->.
    { unfold framed. rewrite take_app, length_le_bytes. f_equal. apply take_ge. rewrite length_le_bytes. lia. }
    assert (length (take (j - 4) body) < length body)%nat as Ht.
    { unfold framed in Hj. rewrite length_app, length_le_bytes in Hj. rewrite length_take. lia. }
    destruct (reads_u32le (len body) (take (j - 4) body) ltac:(unfold max_message_size in *; lia) [] 0) as (n & E & <-).
    unfold Reader.make. rewrite E. pose proof (len_nonneg (take (j - 4) body)). rewrite !len_app, !len_le_bytes.
    rewrite (proj2 (Z.ltb_ge _ _)) by lia. cbn [rbind].
    rewrite (proj2 (Z.eqb_neq _ _)), (proj2 (Z.ltb_ge _ _)) by lia. cbn [orb].
    by rewrite (proj2 (Z.ltb_lt _ _)) by (unfold len in *; lia).
Qed.

(** What is encoded: its frame, and the message that comes back from it. *)
Lemma encode_decode m : message_ok m = true ->
  exists body, encode m = Some (framed body) /\ 0 < len body <= max_message_size /\ decode (framed body) = Ok m.
Proof.
  intros H. destruct (message_coded m H) as (n & (e & W & Le & R) & Hn). exists e. pose proof (coded_nonempty e m R). split_and!.
  - apply encode_framed; [done|lia].
  - done.
  - lia.
  - pose proof (decode_fields m e []) as D. rewrite app_nil_r in D. apply D; [lia|done].
Qed.

(** A message of the control channel whose fields have their sizes is
    encoded, its frame decodes to the same message, a buffer that starts with
    the frame is found to hold a message of just that length, whatever follows
    it, and a buffer with less than the frame to hold none yet. *)
Theorem privsep_roundtrip m : message_ok m = true ->
  exists e, encode m = Some e /\ decode e = Ok m /\ (forall k, message_length (e ++ k) = Ok (Some (len e))) /\
    (forall j, (j < length e)%nat -> message_length (take j e) = Ok None).
Proof.
  intros H. destruct (encode_decode m H) as (body & E & L & D). exists (framed body). split_and!; [done|done| |].
  - intros k. by apply message_length_framed.
  - intros j Hj. by apply message_length_part.
Qed.

Lemma privsep_roundtrip_witness :
  let m := Authenticated (PreAuth.mkNegotiation (to_bytes "cookie") 3 2 (Some (PreAuth.mkIdentity "user" "domain"))) in
  message_ok m = true /\ exists e, encode m = Some e /\ decode e = Ok m /\ (forall k, message_length (e ++ k) = Ok (Some (len e))) /\
    (forall j, (j < length e)%nat -> message_length (take j e) = Ok None).
Proof. split; [by vm_compute|]. apply privsep_roundtrip. by vm_compute. Defined.

(** A Kerberos message is decoded with what follows its last field left unread,
    unlike "exactly one framed message". *)
Definition is_kerberos (m : Message) : bool :=
  match m with KerberosRequestMessage _ | KerberosResponseMessage _ => true | _ => false end.
Theorem kerberos_trailing_accepted m k : is_kerberos m = true -> message_ok m = true ->
  exists body, encode m = Some (framed body) /\ (len (body ++ k) <= max_message_size -> decode (framed (body ++ k)) = Ok m).
Proof.
  intros K H. assert (coded_open m) as (n & (e & W & Le & R) & Hn).
  { destruct m; try discriminate K; auto using kerberos_request_coded, kerberos_response_coded. }
  exists e. split; [apply encode_framed; [done|lia]|]. intros Hk. by apply decode_fields.
Qed.
End PrivsepCodec.
