(* ===== verification/PrivsepMonitor.v ===== *)
(** * The monitor of privilege separation

    Theorems about [Privsep.MonitorService]: what a network process can make it
    accept, whatever it sends; how many verifications it gets; when the monitor
    has an answer. *)

From S2P Require Import Prelude Buffers CodecLogic Fields X224 PreAuth CredsspCodec Credssp Ntlm Privsep PrivsepCodec.
From stdpp Require Import gmap.
Open Scope Z_scope.

Module PrivsepMonitor.
Import Privsep PrivsepCodec MonitorService.

Section Monitor.
Context {V : Type} `{Ntlm.NtlmVerifier V} {K : Type} `{Credssp.SecurityContext K}.
Abbreviation t := (MonitorService.t (V := V) (K := K)).

(** The frames of one connection, one after the other, and their replies; the
    caller drops the connection at an error, which a run here survives. *)
Fixpoint serve (frames : list (list byte)) (s : t) : option (list (Result (option (list byte))) * t) :=
  match frames with
  | [] => Some ([], s)
  | frame :: frames =>
      next ← handle frame s;
      let '(reply, s) := next in
      rest ← serve frames s;
      let '(replies, s) := rest in
      Some (reply :: replies, s)
  end.

(** ** What one message does *)

(** The context after an operation. *)
Definition moved (request : KerberosRequest) (c : K) : K :=
  match op request with
  | op_step => (Credssp.step c (request_data request)).2
  | op_wrap => (Credssp.wrap_message c (request_data request)).2
  | op_unwrap => (Credssp.unwrap c (request_data request)).2
  | op_get_mic => (Credssp.get_mic c (request_data request)).2
  | op_verify_mic => (Credssp.verify_mic c (request_data request) (mic request)).2
  end.

(** A context that the factory made and that operations have moved. *)
Inductive driven (factory : list byte -> option K) : K -> Prop :=
  | driven_new oid c : factory oid = Some c -> driven factory c
  | driven_moved request c : driven factory c -> driven factory (moved request c).

(** What gives an identity: the verifier's session key for an NTLM response
    of one of the messages, or the last step of a Kerberos context. *)
Definition proved_by_ntlm (verifier : V) (messages : list Message) (i : string * string) : Prop :=
  exists user domain challenge response key,
    VerifyNtlmRequest user domain challenge response ∈ messages /\
    Ntlm.v_session_base_key verifier user domain challenge response = Some key /\
    i = (of_bytes user, of_bytes domain).
Definition proved_by_kerberos (kerberos : option (list byte -> option K)) (i : string * string) : Prop :=
  exists factory c data step c',
    kerberos = Some factory /\ driven factory c /\ Credssp.step c data = (Ok step, c') /\ Credssp.step_complete step = true /\
    i = (PreAuth.user (Credssp.mech_identity c'), PreAuth.domain (Credssp.mech_identity c')).
Definition proved (verifier : V) (kerberos : option (list byte -> option K)) (messages : list Message) (i : string * string) : Prop :=
  proved_by_ntlm verifier messages i \/ proved_by_kerberos kerberos i.

(** The negotiations that may be accepted. *)
Definition honest (verifier : V) (kerberos : option (list byte -> option K)) (messages : list Message) (n : PreAuth.Negotiation) : Prop :=
  Authenticated n ∈ messages /\
  if is_nla (PreAuth.selected_protocol n)
  then exists i, PreAuth.identity n = Some i /\ proved verifier kerberos messages (PreAuth.user i, PreAuth.domain i)
  else PreAuth.identity n = None.

(** The monitor after some messages. *)
Record sound (verifier : V) (kerberos : option (list byte -> option K)) (messages : list Message) (s : t) : Prop := {
  sound_verifier : verifier_ s = verifier;
  sound_kerberos : kerberos_ s = kerberos;
  sound_context : forall c, kerberos_context_ s = Some c -> exists f, kerberos = Some f /\ driven f c;
  sound_verified : forall i, i ∈ verified_ s -> proved verifier kerberos messages i;
  sound_authenticated : forall n, authenticated_ s = Some n -> honest verifier kerberos messages n }.

Lemma proved_more v k ms m i : proved v k ms i -> proved v k (ms ++ [m]) i.
Proof. intros [(u & d & c & r & key & Hm & Hp)|Hk]; [|by right]. left.
  exists u, d, c, r, key. split; [apply elem_of_app; by left|done]. Qed.

Lemma honest_more v k ms m n : honest v k ms n -> honest v k (ms ++ [m]) n.
Proof.
  intros [Hn Hi]. split; [apply elem_of_app; by left|]. destruct (is_nla _); [|done]. destruct Hi as (i & Ei & Pi). exists i. split; [done|by apply proved_more].
Qed.

Lemma sound_more v k ms m s : sound v k ms s -> sound v k (ms ++ [m]) s.
Proof. intros [? ? ? Hv Ha]. split; auto using proved_more, honest_more. Qed.

Lemma sound_counted v k ms a s : sound v k ms s -> sound v k ms (with_attempts a s).
Proof. intros []. by split. Qed.
Lemma sound_moved v k ms c s : sound v k ms s -> (forall f, kerberos_ s = Some f -> driven f c) -> is_Some (kerberos_ s) ->
  sound v k ms (with_context (Some c) s).
Proof.
  intros [Hv Hk Hc Hs Ha] Hd [f Hf]. split; try done. intros c' [= <-]. exists f. split; [congruence|by apply Hd].
Qed.
Lemma sound_earned v k ms i s : sound v k ms s -> proved v k ms i -> sound v k ms (with_verified ({[i]} ∪ verified_ s) s).
Proof. intros [Hv Hk Hc Hs Ha] Hi. split; try done. cbn [verified_ with_verified]. intros j [->%elem_of_singleton|]%elem_of_union; auto. Qed.

Lemma on_context_sound v k ms request c s r s' :
  sound v k ms s -> kerberos_context_ s = Some c -> on_context request c s = (r, s') -> sound v k ms s'.
Proof.
  intros Hs Hc. pose proof (sound_context _ _ _ _ Hs c Hc) as (f & Hf & Hd). pose proof (sound_kerberos _ _ _ _ Hs) as Hk.
  assert (forall x, driven f x -> sound v k ms (with_context (Some x) s)) as Hm.
  { intros x Hx. apply sound_moved; [done| |rewrite Hk, Hf; by eexists]. intros g Hg. rewrite Hk, Hf in Hg. by injection Hg as <-. }
  pose proof (Hm _ (driven_moved f request c Hd)) as Hmoved. unfold moved in Hmoved. unfold on_context.
  destruct (op request) eqn:Ho.
  - destruct (Credssp.step c (request_data request)) as [[step|e] c'] eqn:Es; [|by intros [= <- <-]].
    destruct (Credssp.step_complete step) eqn:Ec; [|by intros [= <- <-]]. intros [= <- <-].
    apply (sound_earned _ _ _ _ _ Hmoved). right. by exists f, c, (request_data request), step, c'.
  - destruct (Credssp.wrap_message _ _). by intros [= <- <-].
  - destruct (Credssp.unwrap _ _). by intros [= <- <-].
  - destruct (Credssp.get_mic _ _). by intros [= <- <-].
  - destruct (Credssp.verify_mic _ _ _). by intros [= <- <-].
Qed.

Lemma handle_kerberos_sound v k ms request s r s' : sound v k ms s -> handle_kerberos request s = (r, s') -> sound v k ms s'.
Proof.
  intros Hs. unfold handle_kerberos. pose proof (sound_kerberos _ _ _ _ Hs) as Hk. destruct (kerberos_ s) as [f|] eqn:Ef; [|by intros [= <- <-]].
  destruct (bool_decide (op request = op_step) && negb (Credssp.is_some (kerberos_context_ s))) eqn:Efirst.
  - assert (sound v k ms (with_context (f (mechanism_oid request)) s)) as Hm.
    { destruct Hs as [Hv Hk' Hc Hd Ha]. split; try done. intros c Hf. exists f. split; [congruence|]. by apply (driven_new f (mechanism_oid request)). }
    cbn iota zeta. destruct (kerberos_context_ (with_context _ s)) as [c|] eqn:Ec; [|by intros [= <- <-]].
    destruct (on_context request c _) eqn:Eo. intros [= <- <-]. by eapply on_context_sound.
  - cbn iota zeta. destruct (kerberos_context_ s) as [c|] eqn:Ec; [|by intros [= <- <-]].
    destruct (on_context request c _) eqn:Eo. intros [= <- <-]. by eapply on_context_sound.
Qed.

Lemma on_authenticated_sound v k ms n s r s' :
  sound v k ms s -> Authenticated n ∈ ms -> on_authenticated n s = (r, s') -> sound v k ms s'.
Proof.
  intros Hs Hn. unfold on_authenticated. destruct (reported_ s); [by intros [= <- <-]|]. cbv zeta.
  assert (sound v k ms (with_reported true s)) as Hr by (destruct Hs; by split).
  assert (honest v k ms n -> sound v k ms (with_authenticated (Some n) (with_reported true s))) as Hsnd.
  { intros Hh. destruct Hr as [? ? ? ? ?]. split; try done. intros m [= <-]. done. }
  unfold honest in Hsnd. destruct (is_nla (PreAuth.selected_protocol n)).
  - destruct (PreAuth.identity n) as [i|] eqn:Ei; [|by intros [= <- <-]].
    case_bool_decide as Hin; intros [= <- <-]; [|done]. apply Hsnd. split; [done|]. exists i. split; [done|].
    by apply (sound_verified _ _ _ _ Hr).
  - destruct (PreAuth.identity n) as [i|] eqn:Ei; intros [= <- <-]; [done|]. by apply Hsnd.
Qed.

Lemma reply_inv message (s : t) r s' : reply message s = Some (r, s') -> s' = s /\ exists e, encode message = Some e /\ r = Ok (Some e).
Proof. unfold reply. destruct (encode message) as [e|]; [|done]. intros [= <- <-]. split; [done|by exists e]. Qed.

Lemma count_attempt_inv (s : t) b s' : count_attempt s = (b, s') -> s' = with_attempts (wrap 32 (attempts_ s + 1)) s /\ b = (max_attempts_ s <? wrap 32 (attempts_ s + 1)).
Proof. by intros [= <- <-]. Qed.

Lemma on_message_sound v k ms m s r s' : sound v k ms s -> on_message m s = Some (r, s') -> sound v k (ms ++ [m]) s'.
Proof.
  intros Hs. apply (sound_more _ _ _ m) in Hs. assert (m ∈ ms ++ [m]) as Hm by (apply elem_of_app; right; by left).
  destruct m as [user domain challenge response|key|user domain password|ok|n|request|response]; cbn [on_message]; try (by intros [= <- <-]).
  - destruct (count_attempt s) as [b s1] eqn:Ea. apply count_attempt_inv in Ea as [-> _]. destruct b; [by intros [-> _]%reply_inv; apply sound_counted|].
    intros [-> _]%reply_inv. apply (sound_counted _ _ _ (wrap 32 (attempts_ s + 1))) in Hs.
    destruct (Ntlm.v_session_base_key _ _ _ _ _) as [key|] eqn:Ek; cbn [Credssp.is_some]; [|done].
    apply sound_earned; [done|]. left. exists user, domain, challenge, response, key. split; [done|]. split; [|done].
    by rewrite <- (sound_verifier _ _ _ _ Hs).
  - destruct (count_attempt s) as [b s1] eqn:Ea. apply count_attempt_inv in Ea as [-> _].
    destruct b; intros [-> _]%reply_inv; by apply sound_counted.
  - intros [= E]. by eapply on_authenticated_sound.
  - destruct (if bool_decide _ then count_attempt s else _) as [b s1] eqn:Ea.
    assert (sound v k (ms ++ [KerberosRequestMessage request]) s1) as H1.
    { destruct (bool_decide _); [apply count_attempt_inv in Ea as [-> _]; by apply sound_counted|by injection Ea as <- <-]. }
    destruct b; [by intros [-> _]%reply_inv|]. destruct (handle_kerberos request s1) as [[response|e] s2] eqn:Ek;
      apply (handle_kerberos_sound _ _ _ _ _ _ _ H1) in Ek; [intros [-> _]%reply_inv|intros [= <- <-]]; done.
Qed.

(** The messages among some frames. *)
Definition messages (frames : list (list byte)) : list Message :=
  omap (fun frame => match decode frame with Ok m => Some m | Err _ => None end) frames.

Lemma serve_sound v k frames : forall ms s rs s', sound v k ms s -> serve frames s = Some (rs, s') -> sound v k (ms ++ messages frames) s'.
Proof.
  induction frames as [|frame frames IH]; cbn [serve]; intros ms s rs s' Hs.
  - intros [= <- <-]. by rewrite app_nil_r.
  - unfold messages. cbn [omap list_omap]. fold (messages frames). unfold handle. destruct (decode frame) as [m|e].
    + destruct (on_message m s) as [[r s1]|] eqn:Em; [|done]. cbn [mbind option_bind]. apply (on_message_sound _ _ _ _ _ _ _ Hs) in Em.
      destruct (serve frames s1) as [[rs1 s2]|] eqn:Er; [|done]. intros [= <- <-].
      apply (IH _ _ _ _ Em) in Er. by rewrite <- app_assoc in Er.
    + cbn [mbind option_bind]. destruct (serve frames s) as [[rs1 s2]|] eqn:Er; [|done]. intros [= <- <-]. by apply (IH _ _ _ _ Hs) in Er.
Qed.

(** The monitor of a connection. *)
Definition start (verifier : V) (kerberos : option (list byte -> option K)) (max_attempts : Z) : t :=
  match kerberos with Some f => serve_kerberos f (make verifier max_attempts) | None => make verifier max_attempts end.

Lemma start_sound v k n : sound v k [] (start v k n).
Proof. destruct k; split; try done; set_solver. Qed.

(** C13: whatever frames a network process sends, a negotiation that the monitor
    has accepted is one of those it reported; with NLA it carries an identity,
    for which the verifier gave a session key to one of the NTLM requests or
    which a Kerberos context of the monitor's own factory had at its last step;
    without NLA it carries none. *)
Theorem monitor_honest v k max_attempts frames rs s n :
  serve frames (start v k max_attempts) = Some (rs, s) -> authenticated_ s = Some n -> honest v k (messages frames) n.
Proof. intros E. exact (sound_authenticated _ _ _ _ (serve_sound v k frames [] _ _ _ (start_sound v k max_attempts) E) n). Qed.

(** ** The attempts *)

(** The messages that ask for a verification, and how each is refused. *)
Definition attempt (m : Message) : bool :=
  match m with
  | VerifyNtlmRequest _ _ _ _ | VerifyPasswordRequest _ _ _ => true
  | KerberosRequestMessage request => bool_decide (op request = op_step)
  | _ => false
  end.
Definition refusal_of (m : Message) : Message :=
  match m with
  | VerifyNtlmRequest _ _ _ _ => VerifyNtlmResponse None
  | VerifyPasswordRequest _ _ _ => VerifyPasswordResponse false
  | _ => KerberosResponseMessage refusal
  end.
Definition attempted (frames : list (list byte)) : Z := len (filter attempt (messages frames)).

Lemma on_context_attempts request c (s : t) r s' : on_context request c s = (r, s') -> attempts_ s' = attempts_ s /\ max_attempts_ s' = max_attempts_ s.
Proof.
  unfold on_context. destruct (op request).
  - destruct (Credssp.step _ _) as [[step|] c']; [destruct (Credssp.step_complete step)|]; by intros [= <- <-].
  - destruct (Credssp.wrap_message _ _). by intros [= <- <-].
  - destruct (Credssp.unwrap _ _). by intros [= <- <-].
  - destruct (Credssp.get_mic _ _). by intros [= <- <-].
  - destruct (Credssp.verify_mic _ _ _). by intros [= <- <-].
Qed.

Lemma handle_kerberos_attempts request (s : t) r s' : handle_kerberos request s = (r, s') -> attempts_ s' = attempts_ s /\ max_attempts_ s' = max_attempts_ s.
Proof.
  unfold handle_kerberos. destruct (kerberos_ s) as [f|]; [|by intros [= <- <-]]. cbv zeta.
  set (first := _ && _). set (s1 := if first then _ else s).
  assert (attempts_ s1 = attempts_ s /\ max_attempts_ s1 = max_attempts_ s) as [<- <-] by (subst s1; by destruct first).
  destruct (kerberos_context_ s1) as [c|]; [|destruct first; by intros [= <- <-]].
  destruct (on_context request c s1) eqn:Eo. intros [= <- <-]. by eapply on_context_attempts.
Qed.

Lemma on_authenticated_attempts n (s : t) r s' : on_authenticated n s = (r, s') -> attempts_ s' = attempts_ s /\ max_attempts_ s' = max_attempts_ s.
Proof.
  unfold on_authenticated. destruct (reported_ s); [by intros [= <- <-]|]. cbv zeta.
  destruct (is_nla _); [destruct (PreAuth.identity n); [case_bool_decide|]|destruct (Credssp.is_some _)]; by intros [= <- <-].
Qed.

(** Each attempt is counted, and nothing else. *)
Lemma on_message_attempts m (s : t) r s' : on_message m s = Some (r, s') ->
  attempts_ s' = (if attempt m then wrap 32 (attempts_ s + 1) else attempts_ s) /\ max_attempts_ s' = max_attempts_ s.
Proof.
  destruct m as [user domain challenge response|key|user domain password|ok|n|request|response]; cbn [on_message attempt]; try (by intros [= <- <-]).
  - destruct (count_attempt s) as [b s1] eqn:Ea. apply count_attempt_inv in Ea as [-> _].
    destruct b; intros [-> _]%reply_inv; [done|]. by destruct (Credssp.is_some _).
  - destruct (count_attempt s) as [b s1] eqn:Ea. apply count_attempt_inv in Ea as [-> _]. by destruct b; intros [-> _]%reply_inv.
  - intros [= E]. by apply on_authenticated_attempts in E.
  - destruct (if bool_decide _ then count_attempt s else _) as [b s1] eqn:Ea.
    assert (attempts_ s1 = (if bool_decide (op request = op_step) then wrap 32 (attempts_ s + 1) else attempts_ s) /\
      max_attempts_ s1 = max_attempts_ s) as [<- <-].
    { case_bool_decide; [apply count_attempt_inv in Ea as [-> _]|injection Ea as <- <-]; done. }
    destruct b; [by intros [-> _]%reply_inv|]. destruct (handle_kerberos request s1) as [[response|e] s2] eqn:Ek;
      apply handle_kerberos_attempts in Ek; [intros [-> _]%reply_inv|intros [= <- <-]]; done.
Qed.

Lemma attempted_cons frame frames m : decode frame = Ok m -> attempted (frame :: frames) = (if attempt m then 1 else 0) + attempted frames.
Proof.
  intros E. unfold attempted, messages. cbn [omap list_omap]. rewrite E, filter_cons.
  case_decide as Ha; [apply Is_true_true in Ha|apply Is_true_false in Ha]; rewrite Ha; unfold len; cbn [length]; lia.
Qed.

Lemma serve_attempts frames : forall (s : t) rs s', serve frames s = Some (rs, s') -> 0 <= attempts_ s -> attempts_ s + attempted frames < 2 ^ 32 ->
  attempts_ s' = attempts_ s + attempted frames /\ max_attempts_ s' = max_attempts_ s.
Proof.
  induction frames as [|frame frames IH]; cbn [serve]; intros s rs s' E H0' Hl.
  - injection E as <- <-. split; [|done]. unfold attempted, messages, len. cbn. lia.
  - pose proof (len_nonneg (filter attempt (messages frames))) as Hn. fold (attempted frames) in Hn. unfold handle in E.
    destruct (decode frame) as [m|e] eqn:Ed.
    + rewrite (attempted_cons _ _ _ Ed) in *. destruct (on_message m s) as [[r s1]|] eqn:Em; [|done]. cbn [mbind option_bind] in E.
      destruct (serve frames s1) as [[rs1 s2]|] eqn:Er; [|done]. injection E as <- <-. apply on_message_attempts in Em as [Ea <-].
      assert (attempts_ s1 = attempts_ s + (if attempt m then 1 else 0)) as Ha.
      { rewrite Ea. destruct (attempt m); [rewrite wrap_small|]; lia. }
      destruct (IH _ _ _ Er) as [-> ->]; [destruct (attempt m); lia..|]. lia.
    + assert (attempted (frame :: frames) = attempted frames) as Hf by (unfold attempted, messages; cbn [omap list_omap]; by rewrite Ed).
      rewrite Hf in *. cbn [mbind option_bind] in E. destruct (serve frames s) as [[rs1 s2]|] eqn:Er; [|done]. injection E as <- <-. by apply (IH _ _ _ Er).
Qed.

Lemma refusal_coded m : exists e, encode (refusal_of m) = Some e /\ decode e = Ok (refusal_of m).
Proof. assert (message_ok (refusal_of m) = true) as H1 by (by destruct m). destruct (encode_decode _ H1) as (body & ? & _ & ?). by exists (framed body). Qed.

(** C15: once as many verifications have been asked for as the monitor allows,
    every further one is refused: an NTLM response, a password or a Kerberos
    token gets the refusing reply whatever the verifier and the context would
    say, and nothing but the count changes. *)
Theorem monitor_budget v k max_attempts frames rs s frame m :
  serve frames (start v k max_attempts) = Some (rs, s) -> decode frame = Ok m -> attempt m = true ->
  max_attempts <= attempted frames < 2 ^ 32 - 1 ->
  exists e, handle frame s = Some (Ok (Some e), with_attempts (attempted frames + 1) s) /\ decode e = Ok (refusal_of m).
Proof.
  intros E Ed Ha Hn. pose proof (len_nonneg (filter attempt (messages frames))) as H1. fold (attempted frames) in H1.
  assert (attempts_ (start v k max_attempts) = 0 /\ max_attempts_ (start v k max_attempts) = max_attempts) as [S1 S2] by (by destruct k).
  destruct (serve_attempts _ _ _ _ E) as [Es Em]; [lia|lia|]. rewrite S1, Z.add_0_l in Es. rewrite S2 in Em.
  assert (count_attempt s = (true, with_attempts (attempted frames + 1) s)) as Hc.
  { unfold count_attempt. rewrite Es, Em, wrap_small by lia. by rewrite (proj2 (Z.ltb_lt _ _)) by lia. }
  destruct (refusal_coded m) as (e & Ee & De). exists e. split; [|done]. unfold handle. rewrite Ed.
  destruct m; cbn [attempt] in Ha; try discriminate Ha; cbn [on_message refusal_of] in *; unfold reply.
  - by rewrite Hc, Ee.
  - by rewrite Hc, Ee.
  - by rewrite Ha, Hc, Ee.
Qed.
End Monitor.

(** ** An instance *)

(** A verifier that knows one user, and a context of two steps that puts one
    byte before what it seals. *)
#[export] Instance demo_verifier : Ntlm.NtlmVerifier unit := {|
  Ntlm.v_session_base_key _ user _ _ _ := if bool_decide (user = to_bytes "alice") then Some (replicate 16 Byte.x2a) else None;
  Ntlm.v_verify_password _ user _ password := bool_decide (user = password) |}.
#[export] Instance demo_context : Credssp.SecurityContext nat := {|
  Credssp.mechanism _ := [Byte.x2b];
  Credssp.step n input := (Ok (Credssp.mkStep input (Nat.eqb n 1)), S n);
  Credssp.wrap_message n bytes := (Byte.x00 :: bytes, n);
  Credssp.unwrap n bytes := (match bytes with _ :: bytes => Ok bytes | [] => fail invalid_length "empty" 0 end, n);
  Credssp.get_mic n bytes := ([Byte.x07], n);
  Credssp.verify_mic n bytes mic := (if bool_decide (mic = [Byte.x07]) then Ok tt else fail invalid_value "mic" 0, n);
  Credssp.reset_cipher_state n := n;
  Credssp.mech_identity n := PreAuth.mkIdentity "bob" "REALM" |}.
Definition demo_factory (oid : list byte) : option nat := if bool_decide (oid = [Byte.x2b]) then Some 0%nat else None.

Definition demo_step : Message := KerberosRequestMessage (mkKerberosRequest op_step [Byte.x01] [] [Byte.x2b]).
Definition demo_ntlm (user : string) : Message := VerifyNtlmRequest (to_bytes user) (to_bytes "HOST") (replicate 8 Byte.x09) [Byte.x01; Byte.x02].
Definition demo_report : PreAuth.Negotiation := PreAuth.mkNegotiation [] 3 2 (Some (PreAuth.mkIdentity "bob" "REALM")).
Definition demo_frames (messages : list Message) : list (list byte) := omap encode messages.

Definition demo_run (frames : list (list byte)) (max_attempts : Z) :=
  default ([], start tt (Some demo_factory) max_attempts) (serve frames (start tt (Some demo_factory) max_attempts)).

Lemma monitor_honest_witness :
  let frames := demo_frames [demo_ntlm "eve"; demo_step; demo_step; Authenticated demo_report] in
  let (rs, s) := demo_run frames 8 in
  serve frames (start tt (Some demo_factory) 8) = Some (rs, s) /\ authenticated_ s = Some demo_report /\
  honest tt (Some demo_factory) (messages frames) demo_report.
Proof.
  intros frames. destruct (demo_run frames 8) as [rs s] eqn:E.
  assert (serve frames (start tt (Some demo_factory) 8) = Some (rs, s)) as Hs.
  { rewrite <- E. vm_compute. reflexivity. }
  assert (authenticated_ s = Some demo_report) as Ha.
  { change s with (rs, s).2. rewrite <- E. vm_compute. reflexivity. }
  split; [exact Hs|]. split; [exact Ha|]. exact (monitor_honest _ _ _ _ _ _ _ Hs Ha).
Defined.

Lemma monitor_budget_witness :
  let frames := demo_frames [demo_ntlm "eve"; demo_step] in
  let frame := default [] (encode (demo_ntlm "alice")) in
  let (rs, s) := demo_run frames 2 in
  (serve frames (start tt (Some demo_factory) 2) = Some (rs, s) /\ decode frame = Ok (demo_ntlm "alice") /\
    attempt (demo_ntlm "alice") = true /\ 2 <= attempted frames < 2 ^ 32 - 1) /\
  exists e, handle frame s = Some (Ok (Some e), with_attempts (attempted frames + 1) s) /\ decode e = Ok (refusal_of (demo_ntlm "alice")).
Proof.
  intros frames frame. destruct (demo_run frames 2) as [rs s] eqn:E.
  assert (serve frames (start tt (Some demo_factory) 2) = Some (rs, s)) as Hs.
  { rewrite <- E. vm_compute. reflexivity. }
  assert (decode frame = Ok (demo_ntlm "alice")) as Hd by (vm_compute; reflexivity).
  assert (2 <= attempted frames < 2 ^ 32 - 1) as Hn by (vm_compute; split; [discriminate|reflexivity]).
  split; [by split_and!|]. by apply (monitor_budget tt (Some demo_factory) 2 frames rs s frame (demo_ntlm "alice")).
Defined.
End PrivsepMonitor.
