(* ===== verification/PrivsepRefinement.v ===== *)
(** * The network process over the monitor

    Refinement theorems about [Privsep]: with [MonitorService] at the other end
    of its channel, [RemoteVerifier] is the monitor's verifier within the limits
    of the messages and of the attempts, and [RemoteKerberos] is the Kerberos
    context that the monitor holds. *)

From S2P Require Import Prelude Buffers CodecLogic Fields X224 PreAuth CredsspCodec Credssp Ntlm Privsep PrivsepCodec PrivsepMonitor.
From stdpp Require Import gmap.
Open Scope Z_scope.

Module PrivsepRefinement.
Import Privsep PrivsepCodec MonitorService PrivsepMonitor.

Section Remote.
Context {V : Type} `{Ntlm.NtlmVerifier V} {K : Type} `{Credssp.SecurityContext K}.
Abbreviation t := (MonitorService.t (V := V) (K := K)).

(** The monitor as the channel: a request that has no reply is an error, and a
    failed assertion ends it. *)
Definition direct (monitor : option t) (request : list byte) : Result (list byte) * option t :=
  match monitor with
  | None => (fail io "closed" 0, None)
  | Some s =>
      match handle request s with
      | None => (fail io "closed" 0, None)
      | Some (Ok (Some bytes), s) => (Ok bytes, Some s)
      | Some (_, s) => (fail io "no reply" 0, Some s)
      end
  end.

(** A request that the monitor answers with a reply. *)
Lemma direct_reply m r s s' : message_ok m = true -> message_ok r = true -> on_message m s = reply r s' ->
  exists request answer, encode m = Some request /\ direct (Some s) request = (Ok answer, Some s') /\ decode answer = Ok r.
Proof.
  intros Hm Hr E. destruct (encode_decode m Hm) as (body & Em & _ & Dm). destruct (encode_decode r Hr) as (answer & Er & _ & Dr).
  exists (framed body), (framed answer). split_and!; [done| |done]. unfold direct, handle. rewrite Dm, E. unfold reply. by rewrite Er.
Qed.

Lemma exchange_reply m r s s' : message_ok m = true -> message_ok r = true -> on_message m s = reply r s' ->
  exchange direct m (Some s) = Some (Some r, Some s').
Proof.
  intros Hm Hr E. destruct (direct_reply _ _ _ _ Hm Hr E) as (request & answer & Em & Ed & Dr).
  unfold exchange. rewrite Em. cbn [mbind option_bind]. rewrite Ed, Dr. done.
Qed.

(** ** The verifier *)

Definition counted (s : t) : t := with_attempts (attempts_ s + 1) s.
Definition allowed (s : t) : bool := attempts_ s <? max_attempts_ s.

Lemma count_attempt_small s : 0 <= attempts_ s < 2 ^ 32 - 1 -> count_attempt s = (negb (allowed s), counted s).
Proof.
  intros Ha. unfold count_attempt, allowed, counted. rewrite wrap_small by lia. f_equal.
  destruct (Z.ltb_spec (attempts_ s) (max_attempts_ s)); [apply Z.ltb_ge|apply Z.ltb_lt]; lia.
Qed.

Definition ntlm_fits (user domain response : list byte) : bool := string_ok user && string_ok domain && (len response <=? max_nt_response).
Definition password_fits (user domain password : list byte) : bool := string_ok user && string_ok domain && string_ok password.

(** The monitor after a request of either kind. *)
Definition after_key (user domain : list byte) (key : option (list byte)) (s : t) : t :=
  if Credssp.is_some key then with_verified ({[(of_bytes user, of_bytes domain)]} ∪ verified_ s) s else s.

Lemma remote_key_inside user domain challenge response s :
  ntlm_fits user domain response = true -> len challenge = 8 -> 0 <= attempts_ s < 2 ^ 32 - 1 ->
  let key := Ntlm.v_session_base_key (verifier_ s) user domain challenge response in
  opt_ok (fun k => len k =? 16) key = true ->
  remote_session_base_key direct user domain challenge response (Some s) =
    Some (if allowed s then (key, Some (after_key user domain key (counted s))) else (None, Some (counted s))).
Proof.
  intros Hf Hc Ha key Hk. unfold ntlm_fits in Hf. bools. unfold remote_session_base_key.
  pose proof H1 as H1'. pose proof H3 as H3'. unfold string_ok in H1', H3'. bools.
  rewrite !(proj2 (Z.ltb_ge _ _)) by lia. cbn [orb].
  assert (message_ok (VerifyNtlmRequest user domain challenge response) = true) as Hm.
  { cbn [message_ok]. rewrite H1, H3, Hc. cbn [Z.eqb Pos.eqb andb]. apply Z.leb_le. lia. }
  pose proof (count_attempt_small s Ha) as Hn. destruct (allowed s) eqn:Eallowed; cbn [negb] in Hn.
  - erewrite exchange_reply with (r := VerifyNtlmResponse key); [reflexivity|done|done|]. cbn [on_message]. by rewrite Hn.
  - erewrite exchange_reply with (r := VerifyNtlmResponse None); [reflexivity|done|done|]. cbn [on_message]. by rewrite Hn.
Qed.

Lemma remote_password_inside user domain password s :
  password_fits user domain password = true -> 0 <= attempts_ s < 2 ^ 32 - 1 ->
  remote_verify_password direct user domain password (Some s) =
    Some (allowed s && Ntlm.v_verify_password (verifier_ s) user domain password, Some (counted s)).
Proof.
  intros Hf Ha. unfold password_fits in Hf. bools. unfold remote_verify_password.
  pose proof H1 as H1'. pose proof H2 as H2'. pose proof H3 as H3'. unfold string_ok in H1', H2', H3'. bools.
  rewrite !(proj2 (Z.ltb_ge _ _)) by lia. cbn [orb].
  assert (message_ok (VerifyPasswordRequest user domain password) = true) as Hm by (cbn [message_ok]; by rewrite H1, H2, H3).
  pose proof (count_attempt_small s Ha) as Hn.
  erewrite exchange_reply with (r := VerifyPasswordResponse (allowed s && Ntlm.v_verify_password (verifier_ s) user domain password));
    [reflexivity|done|done|].
  cbn [on_message]. rewrite Hn. by destruct (allowed s).
Qed.

(** Asked through the monitor, whether a response or a password is right is
    what the monitor's verifier says of it, as long as its fields fit the
    messages and the monitor allows the attempt, and no otherwise; each question
    that fits counts as one attempt, one that does not never leaves the network
    process, and an answer with a key makes the user one the monitor verified. *)
Theorem remote_verifier_refines user domain challenge response password s :
  len challenge = 8 -> 0 <= attempts_ s < 2 ^ 32 - 1 ->
  let key := Ntlm.v_session_base_key (verifier_ s) user domain challenge response in
  opt_ok (fun k => len k =? 16) key = true ->
  (exists s', remote_session_base_key direct user domain challenge response (Some s) =
      Some (if ntlm_fits user domain response && allowed s then key else None, Some s') /\
    verifier_ s' = verifier_ s /\ attempts_ s' = attempts_ s + (if ntlm_fits user domain response then 1 else 0) /\
    (ntlm_fits user domain response && allowed s && Credssp.is_some key = true -> (of_bytes user, of_bytes domain) ∈ verified_ s')) /\
  (exists s', remote_verify_password direct user domain password (Some s) =
      Some (password_fits user domain password && allowed s && Ntlm.v_verify_password (verifier_ s) user domain password, Some s') /\
    verifier_ s' = verifier_ s /\ attempts_ s' = attempts_ s + (if password_fits user domain password then 1 else 0)).
Proof.
  intros Hc Ha key Hk. split.
  - destruct (ntlm_fits user domain response) eqn:Ef; cbn [andb].
    + rewrite remote_key_inside by done. fold key. destruct (allowed s); [|by eexists]. eexists. split; [reflexivity|].
      unfold after_key. destruct key; cbn [Credssp.is_some]; split_and!; try done. intros _. apply elem_of_union. left. by apply elem_of_singleton.
    + unfold remote_session_base_key. unfold ntlm_fits, string_ok in Ef. rewrite !Z.leb_antisym, <- !negb_orb in Ef. apply negb_false_iff in Ef.
      rewrite Ef. eexists. split; [reflexivity|]. split_and!; [done|lia|done].
  - destruct (password_fits user domain password) eqn:Ef; cbn [andb].
    + rewrite remote_password_inside by done. by eexists.
    + unfold remote_verify_password. unfold password_fits, string_ok in Ef. rewrite !Z.leb_antisym, <- !negb_orb in Ef.
      apply negb_false_iff in Ef. rewrite Ef. eexists. split; [reflexivity|]. split; [done|lia].
Qed.

(** ** The Kerberos context *)

(** An operation and what it shows: a step with the identity it ends in, bytes,
    or whether a check passed. *)
Inductive outcome :=
  | stepped (step : option (Credssp.Step * option PreAuth.Identity))
  | sealed (bytes : list byte)
  | opened (bytes : option (list byte))
  | checked (ok : bool).

Definition to_option {A} (r : Result A) : option A := match r with Ok a => Some a | Err _ => None end.

Section Operations.
Context {C : Type} `{Credssp.SecurityContext C}.
Definition perform (o : KerberosOp) (data mic : list byte) (c : C) : outcome * C :=
  match o with
  | op_step =>
      let (step, c) := Credssp.step c data in
      (stepped (match step with
                | Ok step => Some (step, if Credssp.step_complete step then Some (Credssp.mech_identity c) else None)
                | Err _ => None
                end), c)
  | op_wrap => let (bytes, c) := Credssp.wrap_message c data in (sealed bytes, c)
  | op_unwrap => let (bytes, c) := Credssp.unwrap c data in (opened (to_option bytes), c)
  | op_get_mic => let (bytes, c) := Credssp.get_mic c data in (sealed bytes, c)
  | op_verify_mic => let (verified, c) := Credssp.verify_mic c data mic in (checked (Credssp.is_some (to_option verified)), c)
  end.

Fixpoint performs (ops : list (KerberosOp * list byte * list byte)) (c : C) : list outcome * C :=
  match ops with
  | [] => ([], c)
  | (o, data, mic) :: ops =>
      let (out, c) := perform o data mic c in
      let (outs, c) := performs ops c in
      (out :: outs, c)
  end.
End Operations.

(** The sizes that the messages can carry. *)
Definition outcome_fits (out : outcome) : bool :=
  match out with
  | stepped (Some (step, i)) => blob_ok (Credssp.step_token step) && opt_ok identity_ok i
  | sealed bytes => blob_ok bytes
  | opened (Some bytes) => blob_ok bytes
  | _ => true
  end.
Definition input_fits (oid data mic : list byte) : bool :=
  blob_ok data && blob_ok mic && blob_ok oid && (len data + len mic + len oid <=? max_message_size - 14).
Definition step_count (ops : list (KerberosOp * list byte * list byte)) : Z := len (filter (fun o => o.1.1 = op_step) ops).


(** The monitor has the context [c], or will make it at the first step. *)
Definition ready (o : KerberosOp) (oid : list byte) (c : K) (s : t) : Prop :=
  exists f, kerberos_ s = Some f /\
    (kerberos_context_ s = Some c \/ o = op_step /\ kerberos_context_ s = None /\ f oid = Some c) /\
    (o = op_step -> allowed s = true /\ 0 <= attempts_ s < 2 ^ 32 - 1).
Definition entered (o : KerberosOp) (c : K) (s : t) : t := with_context (Some c) (if bool_decide (o = op_step) then counted s else s).
Definition request_of (o : KerberosOp) (data mic oid : list byte) : KerberosRequest :=
  mkKerberosRequest o data mic (if bool_decide (o = op_step) then oid else []).

Lemma monitor_answers o oid data mic c s response s' :
  ready o oid c s -> on_context (request_of o data mic oid) c (entered o c s) = (response, s') ->
  on_message (KerberosRequestMessage (request_of o data mic oid)) s = reply (KerberosResponseMessage response) s'.
Proof.
  intros (f & Hf & Hc & Ho) E. cbn [on_message]. cbn [request_of op].
  assert ((if bool_decide (o = op_step) then count_attempt s else (false, s)) = (false, if bool_decide (o = op_step) then counted s else s)) as ->.
  { case_bool_decide as Hs; [|done]. destruct (Ho Hs) as [Ha Hl]. by rewrite count_attempt_small, Ha. }
  cbn iota zeta. set (s1 := if bool_decide _ then counted s else s) in *. unfold handle_kerberos.
  assert (kerberos_ s1 = Some f) as -> by (subst s1; by case_bool_decide).
  assert (kerberos_context_ s1 = kerberos_context_ s) as Hs1 by (subst s1; by case_bool_decide).
  unfold entered in E. fold s1 in E. destruct Hc as [Hc|(-> & Hc & Hoid)]; rewrite Hc in Hs1; rewrite Hs1; cbn [Credssp.is_some negb].
  - rewrite andb_false_r. rewrite Hs1. assert (with_context (Some c) s1 = s1) as Hw by (destruct s1; cbn in Hs1; by rewrite Hs1).
    rewrite Hw in E. by rewrite E.
  - cbn [request_of op mechanism_oid]. rewrite bool_decide_true by done. cbn [andb]. rewrite Hoid. cbn [kerberos_context_ with_context]. by rewrite E.
Qed.

(** The network process hears the monitor's response. *)
Lemma ask_answered o oid data mic c s response s' r :
  RemoteKerberos.channel_ r = Some s -> RemoteKerberos.mechanism_oid_ r = oid -> input_fits oid data mic = true -> ready o oid c s ->
  on_context (request_of o data mic oid) c (entered o c s) = (response, s') -> message_ok (KerberosResponseMessage response) = true ->
  RemoteKerberos.ask direct o data mic r =
    Some (if ok response then Ok response else fail invalid_value "the monitor refused a Kerberos operation" 0,
          RemoteKerberos.with_channel (Some s') r).
Proof.
  intros Hch Hoid Hi Hr E Hm. unfold input_fits in Hi. apply andb_prop in Hi as [[[Hd Hmic]%andb_prop Ho]%andb_prop Hs].
  assert (message_ok (KerberosRequestMessage (request_of o data mic oid)) = true) as Hq.
  { unfold request_of. cbn [message_ok request_data Privsep.mic mechanism_oid]. rewrite Hd, Hmic. apply Z.leb_le in Hs. pose proof (len_nonneg oid).
    case_bool_decide; [rewrite Ho|]; cbn [andb]; apply Z.leb_le; [lia|]. change (len []) with 0. lia. }
  unfold blob_ok in Hd, Hmic. bools.
  destruct (direct_reply _ _ _ _ Hq Hm (monitor_answers o oid data mic c s response s' Hr E)) as (request & answer & Eq & Ed & Dr).
  unfold RemoteKerberos.ask. rewrite !(proj2 (Z.ltb_ge _ _)) by lia. cbn [orb]. rewrite Hoid. unfold request_of in Eq. rewrite Eq.
  cbn [mbind option_bind]. rewrite Hch, Ed, Dr. by destruct (ok response).
Qed.

Abbreviation remote := (option (RemoteKerberos.t (M := option t))).
#[local] Instance over_monitor : Credssp.SecurityContext remote := RemoteKerberos.remote_context direct.

(** The monitor after an operation that leaves the context [c]. *)
Definition follows (o : KerberosOp) (c : K) (s s' : t) : Prop :=
  kerberos_ s' = kerberos_ s /\ kerberos_context_ s' = Some c /\ max_attempts_ s' = max_attempts_ s /\
  attempts_ s' = attempts_ s + (if bool_decide (o = op_step) then 1 else 0).

Lemma follows_entered o c c' s : follows o c' s (with_context (Some c') (entered o c s)).
Proof. unfold follows, entered, counted. case_bool_decide; split_and!; try done; cbn; lia. Qed.

Lemma identity_fits i : identity_ok i = true -> string_ok (to_bytes (PreAuth.user i)) = true /\ string_ok (to_bytes (PreAuth.domain i)) = true.
Proof. unfold identity_ok. intros Hi. by bools. Qed.

Lemma identity_bytes i : PreAuth.mkIdentity (of_bytes (to_bytes (PreAuth.user i))) (of_bytes (to_bytes (PreAuth.domain i))) = i.
Proof. destruct i. unfold of_bytes, to_bytes. cbn [PreAuth.user PreAuth.domain]. by rewrite !String.string_of_list_byte_of_string. Qed.

(** What [perform] shows is what the monitor responds. *)
Definition response_of (out : outcome) : KerberosResponse :=
  match out with
  | stepped None | opened None => refusal
  | stepped (Some (step, Some i)) =>
      mkKerberosResponse true (Credssp.step_token step) true (to_bytes (PreAuth.user i)) (to_bytes (PreAuth.domain i))
  | stepped (Some (step, None)) => mkKerberosResponse true (Credssp.step_token step) false [] []
  | sealed bytes => data_or_refusal bytes
  | opened (Some bytes) => mkKerberosResponse true bytes false [] []
  | checked ok => mkKerberosResponse ok [] false [] []
  end.

Lemma response_fits out : outcome_fits out = true -> message_ok (KerberosResponseMessage (response_of out)) = true.
Proof.
  destruct out as [[[step [i|]]|]|bytes|[bytes|]|b]; cbn [outcome_fits response_of opt_ok]; intros Hf; try done.
  - apply andb_prop in Hf as [Hf [Hu Hd]%identity_fits]. cbn [message_ok response_data user domain]. by rewrite Hf, Hu, Hd.
  - apply andb_prop in Hf as [Hf _]. cbn [message_ok response_data user domain]. by rewrite Hf.
  - unfold data_or_refusal. case_bool_decide; [done|]. cbn [message_ok response_data user domain]. by rewrite Hf.
  - cbn [message_ok response_data user domain]. by rewrite Hf.
Qed.

Lemma on_context_response o oid data mic c s out c' : perform o data mic c = (out, c') ->
  exists s', on_context (request_of o data mic oid) c (entered o c s) = (response_of out, s') /\ follows o c' s s'.
Proof.
  unfold on_context, request_of. cbn [op request_data Privsep.mic]. intros E. destruct o; cbn [perform] in E.
  - destruct (Credssp.step c data) as [[step|e] c1]; [destruct (Credssp.step_complete step) eqn:Ec|]; injection E as <- <-;
      (eexists; split; [reflexivity|apply follows_entered]).
  - destruct (Credssp.wrap_message c data) as [bytes c1]. injection E as <- <-. eexists. split; [reflexivity|apply follows_entered].
  - destruct (Credssp.unwrap c data) as [[bytes|e] c1]; injection E as <- <-; (eexists; split; [reflexivity|apply follows_entered]).
  - destruct (Credssp.get_mic c data) as [bytes c1]. injection E as <- <-. eexists. split; [reflexivity|apply follows_entered].
  - destruct (Credssp.verify_mic c data mic) as [[[]|e] c1]; injection E as <- <-; (eexists; split; [reflexivity|apply follows_entered]).
Qed.

(** The MIC is sent for [verify_mic] only. *)
Definition mic_of (o : KerberosOp) (mic : list byte) : list byte := if bool_decide (o = op_verify_mic) then mic else [].

Lemma perform_mic_of {C} `{Credssp.SecurityContext C} o data mic (c : C) : perform o data (mic_of o mic) c = perform o data mic c.
Proof. by destruct o. Qed.

Lemma mic_of_fits o oid data mic : input_fits oid data mic = true -> input_fits oid data (mic_of o mic) = true.
Proof.
  unfold mic_of. case_bool_decide; [done|]. unfold input_fits. intros Hf. apply andb_prop in Hf as [[[-> _]%andb_prop ->]%andb_prop Hs].
  cbn [andb]. apply Z.leb_le in Hs. pose proof (len_nonneg mic). change (len []) with 0. cbn. apply Z.leb_le. lia.
Qed.

Lemma step_complete_identity data mic (c : K) step i c' : perform op_step data mic c = (stepped (Some (step, i)), c') ->
  Credssp.step_complete step = Credssp.is_some i.
Proof.
  cbn [perform]. destruct (Credssp.step c data) as [[st|e] c1]; [|done]. intros [= <- <- <-]. by destruct (Credssp.step_complete st).
Qed.

(** [answered A]: the remote operation computed with the answer [A]. *)
Ltac answered A :=
  cbn [perform Credssp.step Credssp.wrap_message Credssp.unwrap Credssp.get_mic Credssp.verify_mic over_monitor RemoteKerberos.remote_context
    Ntlm.run_trap];
  unfold RemoteKerberos.step, RemoteKerberos.wrap_, RemoteKerberos.unwrap, RemoteKerberos.get_mic, RemoteKerberos.verify_mic, RemoteKerberos.asked;
  rewrite A; cbn -[String.string_of_list_byte String.list_byte_of_string]; try reflexivity.

(** One operation of the network process is the operation of the context. *)
Lemma perform_simulated o data mic oid c s r out c' :
  RemoteKerberos.channel_ r = Some s -> RemoteKerberos.mechanism_oid_ r = oid -> input_fits oid data mic = true -> ready o oid c s ->
  perform o data mic c = (out, c') -> outcome_fits out = true ->
  exists r' s', perform o data mic (Some r : remote) = (out, Some r') /\ RemoteKerberos.channel_ r' = Some s' /\
    RemoteKerberos.mechanism_oid_ r' = oid /\ follows o c' s s'.
Proof.
  intros Hch Hoid Hi Hr E Hf. pose proof (perform_mic_of o data mic c) as E'. rewrite E in E'.
  destruct (on_context_response o oid data (mic_of o mic) c s out c' E') as (s' & Eo & Hfol).
  pose proof (ask_answered _ _ _ _ _ _ _ _ r Hch Hoid (mic_of_fits o _ _ _ Hi) Hr Eo (response_fits out Hf)) as A.
  assert (exists r', perform o data mic (Some r : remote) = (out, Some r') /\ RemoteKerberos.channel_ r' = Some s' /\
    RemoteKerberos.mechanism_oid_ r' = oid) as (r' & ? & ? & ?); [|by exists r', s'].
  destruct o; change (mic_of _ mic) with (@nil byte) in A || change (mic_of _ mic) with mic in A.
  - pose proof (step_complete_identity data mic c) as Hc. destruct out as [[[step i]|]| | |]; try (cbn [perform] in E; by destruct (Credssp.step c data)).
    + specialize (Hc _ _ _ E). destruct step as [token complete]. cbn [Credssp.step_complete] in Hc. subst complete.
      destruct i as [i|]; cbn [response_of ok] in A; [|eexists; split; [answered A|done]].
      exists (RemoteKerberos.mk (Some s') (RemoteKerberos.mechanism_oid_ r) true i). split; [|done]. answered A. by rewrite identity_bytes.
    + cbn [response_of ok refusal] in A. eexists. split; [answered A|done].
  - cbn [perform] in E. destruct (Credssp.wrap_message c data) as [bytes c1]. injection E as <- <-. cbn [response_of] in A. unfold data_or_refusal in A.
    destruct bytes; cbn [bool_decide ok refusal] in A; (eexists; split; [answered A|done]).
  - cbn [perform] in E. destruct (Credssp.unwrap c data) as [[bytes|e] c1]; injection E as <- <-; cbn [response_of ok refusal to_option] in A;
      (eexists; split; [answered A|done]).
  - cbn [perform] in E. destruct (Credssp.get_mic c data) as [bytes c1]. injection E as <- <-. cbn [response_of] in A. unfold data_or_refusal in A.
    destruct bytes; cbn [bool_decide ok refusal] in A; (eexists; split; [answered A|done]).
  - cbn [perform] in E. destruct (Credssp.verify_mic c data mic) as [[[]|e] c1]; injection E as <- <-; cbn [response_of ok to_option Credssp.is_some] in A;
      (eexists; split; [answered A|done]).
Qed.

(** The inputs and what the context makes of them fit the messages. *)
Fixpoint fits (oid : list byte) (ops : list (KerberosOp * list byte * list byte)) (c : K) : bool :=
  match ops with
  | [] => true
  | (o, data, mic) :: ops =>
      let (out, c) := perform o data mic c in
      input_fits oid data mic && outcome_fits out && fits oid ops c
  end.

Lemma step_count_cons o data mic ops : step_count ((o, data, mic) :: ops) = (if bool_decide (o = op_step) then 1 else 0) + step_count ops.
Proof.
  unfold step_count. rewrite filter_cons. cbn [fst]. case_decide; [rewrite bool_decide_true by done|rewrite bool_decide_false by done];
    unfold len; cbn [length]; lia.
Qed.

Definition affords (n : Z) (s : t) : Prop := 0 <= attempts_ s /\ attempts_ s + n <= max_attempts_ s < 2 ^ 32.

Lemma affords_allowed ops o data mic s : affords (step_count ((o, data, mic) :: ops)) s -> o = op_step -> allowed s = true /\ 0 <= attempts_ s < 2 ^ 32 - 1.
Proof.
  intros [Hl Hm] ->. rewrite step_count_cons, bool_decide_true in Hm by done. pose proof (len_nonneg (filter (fun o => o.1.1 = op_step) ops)) as Hn.
  fold (step_count ops) in Hn. unfold allowed. split; [apply Z.ltb_lt|]; lia.
Qed.

Lemma affords_follows ops o data mic c s s' : affords (step_count ((o, data, mic) :: ops)) s -> follows o c s s' -> affords (step_count ops) s'.
Proof.
  intros [Hl Hm] (_ & _ & Emax & Ea). rewrite step_count_cons in Hm. unfold affords. rewrite Emax, Ea. case_bool_decide; lia.
Qed.

Lemma performs_simulated oid f ops : forall c s r,
  RemoteKerberos.channel_ r = Some s -> RemoteKerberos.mechanism_oid_ r = oid -> kerberos_ s = Some f ->
  match ops with
  | (op_step, _, _) :: _ => kerberos_context_ s = Some c \/ kerberos_context_ s = None /\ f oid = Some c
  | _ => kerberos_context_ s = Some c
  end ->
  affords (step_count ops) s -> fits oid ops c = true -> (performs ops (Some r : remote)).1 = (performs ops c).1.
Proof.
  induction ops as [|[[o data] mic] ops IH]; intros c s r Hch Hoid Hk Hc Ha Hf; [done|]. cbn [fits performs] in *.
  destruct (perform o data mic c) as [out c'] eqn:E. apply andb_prop in Hf as [[Hi Ho]%andb_prop Hf].
  assert (ready o oid c s) as Hr.
  { exists f. split; [done|]. split; [|intros; by eapply affords_allowed]. destruct o; try (by left). destruct Hc as [Hc|[Hc Hn]]; [by left|by right]. }
  destruct (perform_simulated o data mic oid c s r out c' Hch Hoid Hi Hr E Ho) as (r' & s' & -> & Hch' & Hoid' & Hfol).
  pose proof Hfol as (Hk' & Hc' & _). specialize (IH c' s' r' Hch' Hoid' ltac:(congruence)).
  destruct (performs ops c') as [outs c2]. destruct (performs ops (Some r' : remote)) as [outs2 r2]. cbn [fst] in *. f_equal. apply IH; [|by eapply affords_follows|done].
  destruct ops as [|[[[] ?] ?] ?]; try done. by left.
Qed.

(** C14: the Kerberos context that the network process drives is the one the
    monitor holds: any operations on it, a step first, show what they show on
    the context the monitor's factory makes for the mechanism, steps with the
    identity they end in, as long as the data fits the messages and the monitor
    allows the steps. *)
Theorem remote_kerberos_refines (verifier : V) f oid c max_attempts data mic ops :
  f oid = Some c -> step_count ((op_step, data, mic) :: ops) <= max_attempts < 2 ^ 32 -> fits oid ((op_step, data, mic) :: ops) c = true ->
  (performs ((op_step, data, mic) :: ops) (Some (RemoteKerberos.make (Some (start verifier (Some f) max_attempts)) oid) : remote)).1 =
  (performs ((op_step, data, mic) :: ops) c).1.
Proof.
  intros Hf Hn Hfit. eapply (performs_simulated oid f); [reflexivity|reflexivity|reflexivity|by right|split; [done|exact Hn]|done].
Qed.

(** ** What does not fit *)

(** Data of a size that is accepted, which the context makes longer than that. *)
Theorem large_wrap_aborts oid data c s :
  blob_ok data = true -> kerberos_ s <> None -> kerberos_context_ s = Some c -> blob_ok (Credssp.wrap_message c data).1 = false ->
  exists request, encode (KerberosRequestMessage (request_of op_wrap data [] oid)) = Some request /\ handle request s = None.
Proof.
  intros Hd Hk Hc Hw. assert (message_ok (KerberosRequestMessage (request_of op_wrap data [] oid)) = true) as Hm.
  { cbn [message_ok request_of request_data Privsep.mic mechanism_oid]. rewrite bool_decide_false by done. rewrite Hd. unfold blob_ok in Hd.
    apply Z.leb_le in Hd. unfold max_kerberos_blob in Hd. apply Z.leb_le. unfold max_message_size. change (len []) with 0. lia. }
  destruct (encode_decode _ Hm) as (body & E & _ & D). exists (framed body). split; [exact E|]. unfold handle. rewrite D. cbn [on_message request_of op].
  rewrite bool_decide_false by done. cbn iota zeta. unfold handle_kerberos. destruct (kerberos_ s) as [f|]; [|done].
  cbn [request_of op]. rewrite bool_decide_false by done. cbn [andb]. rewrite Hc. cbn [on_context request_of op request_data].
  destruct (Credssp.wrap_message c data) as [bytes c']. cbn [fst] in Hw. unfold data_or_refusal. case_bool_decide as Hb; [by rewrite Hb in Hw|].
  unfold reply, encode, Writer.run, write_message. unfold Writer.u32le, Writer.write_le, Writer.bytes. cbn [write_fields ok complete response_data].
  unfold write_blob, write_flag, Writer.u8, Writer.bytes. unfold blob_ok in Hw. unfold ebind, eassert. by rewrite Hw.
Qed.
End Remote.

Lemma remote_verifier_refines_witness :
  let s := start tt None 8 in
  let alice := to_bytes "alice" in
  (len (replicate 8 Byte.x09) = 8 /\ 0 <= attempts_ s < 2 ^ 32 - 1) /\
  (exists s', remote_session_base_key (direct (K := nat)) alice [] (replicate 8 Byte.x09) [Byte.x01] (Some s) =
      Some (Some (replicate 16 Byte.x2a), Some s') /\ (of_bytes alice, of_bytes []) ∈ verified_ s').
Proof.
  intros s alice. split; [by vm_compute|].
  destruct (remote_verifier_refines alice [] (replicate 8 Byte.x09) [Byte.x01] alice s ltac:(by vm_compute) ltac:(by vm_compute) ltac:(by vm_compute))
    as [(s' & E & _ & _ & Hin) _].
  exists s'. split; [exact E|]. apply Hin. by vm_compute.
Defined.

Lemma remote_kerberos_refines_witness :
  let ops := [(op_step, [Byte.x01], []); (op_step, [Byte.x02], []); (op_wrap, [Byte.x03], []); (op_unwrap, [], []);
              (op_get_mic, [Byte.x04], []); (op_verify_mic, [Byte.x04], [Byte.x07])] in
  (demo_factory [Byte.x2b] = Some 0%nat /\ step_count ops <= 8 < 2 ^ 32 /\ fits [Byte.x2b] ops 0%nat = true) /\
  (performs (H1 := over_monitor (V := unit)) ops
     (Some (RemoteKerberos.make (Some (start tt (Some demo_factory) 8)) [Byte.x2b]))).1 = (performs ops 0%nat).1.
Proof.
  intros ops. split; [split_and!; by vm_compute|]. apply (remote_kerberos_refines tt demo_factory [Byte.x2b] 0%nat 8); by vm_compute.
Defined.
End PrivsepRefinement.
